(* ===== verification/_CoqProject ===== *)
-Q . S2P
Prelude.v
BigInt.v
Int256.v
Cells.v
DataCell.v
CellLevels.v
Merkle.v
MerkleSpec.v
MerkleUpdateSpec.v
MerkleCombine.v
Dict.v
DictObj.v
PfxDict.v
DictLabel.v
DictNode.v
DictTree.v
DictSpec.v
DictOrder.v
DictRefine.v
DictSafety.v
DictCombine.v
DictCombineSpec.v
DictCombineRefine.v
VmTypes.v
Stack.v
OpcodeTable.v
StackOps.v
TupleOps.v
ArithOps.v
ArithSpec.v
Vm.v
ContOps.v
DictOps.v
DictOpsSpec.v
CellOps.v
VmInvariant.v
Control.v
InstrSafety.v
ContSafety.v
GasOps.v
TupleSafety.v
DictOpsSafety.v
CellOpsSafety.v
CellOpsSpec.v
VmRun.v
ControlSpec.v
Simplex.v
SimplexPool.v
SimplexConsensus.v
SimplexNode.v
SimplexQuorum.v
SimplexInvariant.v
SimplexPoolSafe.v
SimplexPoolEvents.v
SimplexVoting.v
SimplexNodeSafe.v
SimplexNetwork.v
SimplexProgress.v
SimplexExample.v
Uint128.v
Fees.v
Currency.v
ExtraCurrency.v
ExtraSpec.v
StorageStat.v
TxTypes.v
TxPhases.v
TxLibrary.v
TxActions.v
TxActionPhase.v
Tx.v
TxCommit.v
Collator.v
TxFlow.v
TxActionFlow.v
TxSpec.v
TxSolvent.v
TxExample.v
CollatorSpec.v
CollatorExample.v
