(* ===== verification/Prelude.v ===== *)
(** * The TON node: a verification library

    The node executes smart contracts on the TON Virtual Machine (TVM), a collator makes
    blocks of the transactions in which they run, and validators agree on blocks by the
    simplex consensus.  This library models the machine and what it computes with, from
    the C++ sources under crypto/vm, the transactions, from crypto/block and
    validator/impl/collator.cpp, and the consensus, from validator/consensus/simplex, as
    executable definitions, and proves what makes them correct.

    ** The program

    - crypto/common/bigint.hpp and refint.cpp: 257-bit integers, as strings of signed
      52-bit digits that may be denormalised during a computation.
    - crypto/vm/cells: cells (up to 1023 bits and four references), read through slices,
      written through builders; creating one checks its type and computes depths and
      hashes per level; MerkleProof.cpp and MerkleUpdate.cpp: trees in which subtrees
      are replaced by their hashes, and updates of a tree as a pair of such trees.
    - crypto/vm/stack.hpp, continuation.h, vm.h: stack entries, continuations with saved
      control registers, gas counters, the machine.
    - crypto/vm/opctable.cpp, dispatch.cpp, cp0.cpp: the table from opcodes to handlers.
    - crypto/vm/dict.cpp: dictionaries with keys of fixed length and prefix codes, as
      trees of cells with compressed edges.
    - crypto/vm/stackops.cpp, tupleops.cpp, arithops.cpp, cellops.cpp, contops.cpp,
      dictops.cpp: the instructions.
    - crypto/vm/vm.cpp, continuation.cpp: jumps, calls, exceptions, loops, commit, child
      machines, the main loop [step] / [run_inner] / [run].

    The main loop fetches an opcode, the table selects a handler, the handler works on
    the stack and may jump, call, throw or start a child machine; gas is charged at
    every turn; a VM error becomes a jump to the handler in c2, out-of-gas ends the
    run.

    - crypto/block/transaction.cpp: a transaction on an account.  It takes an inbound
      message apart, collects storage fees, credits the value of the message, runs the
      machine, carries out the actions that the contract left (send a message, reserve
      currency, change code or libraries), returns the message when that failed, and
      computes the new state of the account.
    - crypto/block/block.cpp, block-parse.cpp, tlblib.hpp: amounts of currency; boc.cpp:
      the size of a tree of cells; tdutils/td/utils/uint128.h: words for the fees.
    - validator/impl/collator.cpp: the transactions of a block on its accounts, on messages
      and (tick-tock) on special accounts.

    The collator loads an account when a message for it comes, creates the transaction,
    commits it to the account, and queues the messages that it sent.

    - validator/consensus/simplex/votes.h, certificate.cpp, state.h: votes (notarize,
      finalize, skip), certificates of a quorum, the slots of a session.
    - pool.cpp: the vote pool, which counts votes, forms and keeps certificates, follows
      the present slot, and answers whether the parent of a candidate is settled.
    - consensus.cpp: decides what this validator votes for; db.cpp: saves votes and
      certificates before they take effect, and restores them after a crash.

    A candidate that arrives is validated once the pool says that its parent is settled,
    and gets a notarize vote; a notarized block gets a final vote; a slot that times out
    gets a skip vote.  Votes go through the database to the pool, which signs them, and
    to the other validators.

    ** The model

    C++ code on an object of type [S] is a function of type [M S A] (this file): it
    returns, throws an exception with the modified object, or has undefined behaviour
    ([Undef]: an access outside a vector, a null reference, a failed assertion, signed
    overflow).  [wp] and [wlp] are its weakest preconditions with and without freedom
    from undefined behaviour; rules for the combinators of the monad are here and in
    the files of the operations.  Objects behind [Ref<T>] are copied on write, so they
    are values.  Machine integers are [Z] with the wrap-around of their width written
    out where an operation could leave it ([wrap_s], [wrap_u], [fits_s]).

    The files, in order:

    - Prelude: outcomes, exceptions (enum [Excno]), the monad and its rules, machine
      words, generic lemmas.
    - BigInt: the digit level ([AnyIntView], [BigIntG] and the operators of refint.cpp).
    - Int256: the value level, integers with NaN and the bound of the storage, and the
      refinement of the first by the second.
    - Cells: cells, [CellSlice], [CellBuilder].
    - DataCell: [CellChecker] and [DataCell::create], level masks.
    - CellLevels: the hash of a cell at a level determines its data, and the hashes of its
      references at theirs; Merkle: pruned branches, proofs, virtualized cells, combination
      of proofs, application and validation of updates; MerkleSpec, MerkleUpdateSpec,
      MerkleCombine: the theorems, and a tree of five cells.
    - Dict, DictObj, PfxDict: the functions of dict.cpp on cells, the objects
      [DictionaryBase], [DictionaryFixed] and [Dictionary], prefix dictionaries.  They
      load and create cells through the class [CellIO], which has an instance outside of
      a machine and one (in DictOps) that charges gas.
    - DictLabel, DictNode, DictTree, DictSpec, DictOrder, DictRefine: labels, nodes, the
      abstract tree of a dictionary and the finite map it stands for, the orders of the
      keys, and the refinement of the map by the functions of dict.cpp.
    - DictSafety: the same functions on arbitrary cells.
    - DictCombine: combination, enumeration and filtering of dictionaries;
      DictCombineSpec, DictCombineRefine: what a combination has under every key, over an
      interface ([Denotation]) with one instance for dictionaries and one for arbitrary
      cells.
    - VmTypes: the data of the machine, gas.
    - Stack: class [Stack].
    - OpcodeTable: class [OpcodeTable], the kinds of [OpcodeInstr], dispatch.
    - StackOps, TupleOps, ArithOps, CellOps, ContOps, DictOps: all handlers and
      registrations of stackops.cpp, tupleops.cpp, arithops.cpp, cellops.cpp,
      contops.cpp and dictops.cpp.
    - Vm: the control flow of vm.h, vm.cpp and continuation.cpp, up to [run].
    - ArithSpec, CellOpsSpec, DictOpsSpec: functional correctness of the arithmetic,
      cell and dictionary instructions.
    - VmInvariant, Control, InstrSafety, ContSafety, TupleSafety, DictOpsSafety,
      CellOpsSafety: the invariant of the machine, and that the control flow and every
      instruction keep it.
    - GasOps: the gas instructions of tonops.cpp, and that they keep the invariant.
    - VmRun: the main loop: invariant, termination, exit codes, commit.
    - ControlSpec: functional correctness of calls, TRY and child machines.
    - Simplex: votes, certificates and slots; SimplexPool: the actor [PoolImpl];
      SimplexConsensus: the actors [ConsensusImpl] and [DbImpl]; SimplexNode: a validator
      made of the three, with the messages between them ([node_step]).  A coroutine is
      split where it waits for another actor, and the environment decides when the answer
      comes.
    - SimplexQuorum: quorums and chains of blocks, over an abstract relation "has
      signed"; SimplexInvariant, SimplexPoolSafe, SimplexPoolEvents: the invariant of the
      pool and that every handler keeps it; SimplexVoting: the same for the consensus
      actor; SimplexNodeSafe: for the validator, with its database.
    - SimplexNetwork: a network of honest and Byzantine validators, and the theorems;
      SimplexProgress: what makes certificates and the present advance; SimplexExample:
      a run with four validators.

    - Uint128: class [uint128_emulated]; Fees: storage fees, gas, forwarding fees;
      Currency: [CurrencyCollection] and its encoding; ExtraCurrency, ExtraSpec:
      dictionaries of extra currencies; StorageStat: [CellStorageStat].
    - TxTypes: accounts, transactions, phases, configurations; TxPhases: the constructor,
      the inbound message, the storage, credit and compute phases; TxLibrary, TxActions,
      TxActionPhase: libraries, the actions one by one, the action phase; Tx: the bounce
      phase and [impl_create_ordinary_transaction]; TxCommit: [compute_state] and
      [commit]; Collator: accounts and messages of a block.  Code that fails with [false],
      or with an error, is in the option or sum monad; an action is in the monad [act],
      whose failure carries the code and the state.
    - TxFlow, TxActionFlow, TxSpec: currency in the phases, in the actions, and in the
      whole transaction; TxSolvent: the compute phase can be paid for; CollatorSpec: the
      same for a block, whose steps are [block_step]; TxExample, CollatorExample:
      instances of all parameters, and a block with two transactions.

    Definitions have the names of the functions they model, with a prefix where two
    classes share a name ([vm_set_c0], [regs_set], ...).

    ** What is proved

    - Machine (VmRun): from a machine as the constructor builds it, at any network
      version from 11 on and with any gas below 2^62, all reachable states are
      well-formed and no step has undefined behaviour; every round costs at least 5
      units of the gas that the machine may ever use, which is the larger of its limit
      and credit and of [gas_max], up to which ACCEPT and SETGASLIMIT may raise the
      limit; so [run] ends, with every child ended; success implies that data and
      actions are committed.  These theorems hold for every codepage that is a
      [GoodTable]; the tables of the modelled instructions without and with the gas
      instructions are instances ([cp0_good_table], [cp0_gas_good_table]).  Where
      out-of-gas is thrown only when the gas is overdrawn (all modelled instructions but
      SETGASLIMIT), a program cannot fake the exit code of out-of-gas.
    - Control flow (ControlSpec): what a callee, an exception handler or a child machine
      can and cannot change for the code that started it.
    - Arithmetic (ArithSpec, ArithOps): all instructions compute, from the operations on
      values, the exact results over the integers and report overflow exactly when the result does not fit 257 bits.
    - Stack instructions (StackOps): the compound ones against their expansions, the
      block and roll instructions against list specifications.
    - Tuple and cell instructions (TupleOps, CellOpsSpec): round trips of packing and
      unpacking a tuple and of writing fields to a cell and reading them; the quiet
      tuple instructions are arrays of unbounded length.
    - Dictionaries (DictLabel, DictRefine): labels survive their encoding; lookup,
      insertion, deletion and the search for the smallest, largest and nearest key are
      those of the finite map; the cell of a dictionary depends on the map only.
      Combination (DictCombineRefine) is the combination of the maps.
    - Dictionary instructions (DictOpsSpec): what they do with an integer key that does
      not fit.
    - Safety (DictSafety and the files of the invariant): no cell, however malformed,
      leads an instruction into undefined behaviour.
    - Opcode table (OpcodeTable): finalisation succeeds and binary search finds the
      registered instruction.
    - Cells (DataCell): equal hashes mean equal trees up to SHA-256 collisions; depths
      and levels are those of the tree.
    - Merkle proofs and updates (MerkleSpec, MerkleUpdateSpec, MerkleCombine): what a proof
      shows is what the tree has; generated proofs are proofs of the tree and show all that
      was not pruned; an update gives the announced tree or is rejected, and when it was
      validated it is not rejected; combined proofs show what either shows.
    - Integers (BigInt, Int256): normalisation, ring operations, comparison, sign,
      conversion and shifts with rounding on digits are exact and refine the value level.
    - Consensus (SimplexNetwork, SimplexProgress): when Byzantine validators have at most a
      third of the weight, in every state that the network can reach, through any order of
      messages, crashes and restarts: finalized blocks lie on one chain; no [CHECK] of an
      honest validator fails; it never signs contradicting votes; the certificates that
      validators keep are valid and agree; answers about parents, announced windows and
      reports of misbehaviour are true; and a quorum of votes makes a certificate, whoever
      sends the vote that completes it.
    - Transactions (TxSpec, TxSolvent): an ordinary transaction neither creates nor loses
      currency, nanograms or extra, on any path through its phases; the compute phase never
      costs more than the account has, and returns except in the one case that
      [listed_out_of_gas] describes.
    - Blocks (CollatorSpec): the same over all transactions of a block, which also leave
      every account well-formed, with transactions at increasing logical times.
    - Fees and amounts (Fees, Currency, ExtraSpec, StorageStat, Uint128): storage fees are
      exact; sums and differences of extra currencies are exact for every currency;
      buying and pricing gas are adjoint; amounts survive their encoding; the statistics
      count each distinct cell once; the emulated words are the built-in ones.

    ** Bounds, fuel and parameters

    [run] takes fuel, one unit per round and per restored parent; [run_terminates]
    shows that [max (limit + credit) gas_max + 2] units suffice, since every round takes
    from what the machine may ever use ([gas_reserve]).
    [jump_loop] is bounded by the nesting height of the continuation, which every turn
    decreases; [load_cell_loop] stops after at most one library indirection.  The
    dictionary functions descend at least one bit of the key per node, so that the
    length of the key plus one is fuel enough; DictRefine proves that they return.
    The searches of Merkle trees are structural.
    SHA-256 (class [Sha256]; theorems on Merkle trees suppose that no two strings hashed
    for the cells at hand collide) and the lookup of a library in a dictionary (class
    [LibDict], with the hashes of the cells it visits) are parameters; [library_dict] in
    DictOps is the instance that the code uses.  Versions before 11 are part of
    the definitions; the theorems of VmRun exclude them, because there a child that did
    not commit hands null references to its parent.

    In the consensus, the loop of [advance_present] has as fuel the number of slots with
    a state, of which each turn finds another one; [limit] bounds the slots for which
    honest validators vote (class [SlotLimits]: it is below 2^31 - 1, since
    [next_nonskipped_slot_after] takes an [int]).  Signatures are a parameter
    ([check_signature] of class [Bus]); a message carries only signatures that their
    honest owners have made.  The hash of votes and certificates has no collisions (class
    [CollisionFree]), and a candidate's identifier determines its parent ([parent_of]).
    Timeouts may fire at any time; the bus delivers an event any number of times.

    The transactions have as parameters the code that the build generates from block.tlb
    (classes [BlockTlb] and [StateEnv]; class [TlbLaws] says that an internal message that
    was packed is read back, as the scheme lays it out), the run of the machine,
    precompiled contracts and the statistics of an account ([TransactionEnv], with the
    bounds of the gas in [EnvLaws]), and for a block the stored accounts and the
    serialization of a transaction ([CollatorEnv]).  TxExample and CollatorExample show that
    the laws can hold.  The phases use dictionaries of extra currencies through the
    interface [ExtraDict] and its laws [ExtraLaws]; [extra_dict] and [extra_laws] implement
    it, the latter for arbitrary cells.  The loops of the phases are structural: over actions, prices,
    messages and cells.

    ** What is not modelled, and the plan

    Logging, tracing, disassembly, serialisation of stacks and continuations,
    virtualised cells inside of the machine.  Usage trees, and with them the choice of what a proof
    shows and the generation of updates; the combination of proofs across Merkle depths and of
    updates.  Multiplication and logical operations on digits are modelled by their values
    only; division ([mod_div]) is specified by its remainder and not translated from its
    digit loop.  Not reached: the blockchain instructions (tonops.cpp, but for the gas
    instructions), augmented dictionaries and iterators, bags of cells.  Of
    the transactions, [Account::unpack], [Transaction::serialize], [prepare_vm_c7] and the
    stack of the machine, limits of the block, metadata of messages, logs and timers are
    left out; of the collator, the import of messages from queues and the serialization of
    the block.  Of the consensus, the resolvers of candidates
    and states (candidate-resolver.cpp, state-resolver.cpp), the rate limit of the
    standstill broadcast and statistics are left out.  The debug instructions only print.
    Networking, storage, compilers and clients are outside. *)
From Stdlib Require Export ZArith Lia.
From stdpp Require Export base list option numbers.
#[global] Open Scope Z_scope.
#[global] Set Default Goal Selector "!".

(** ** Outcomes of C++ code

    A C++ call on an object of type [S] either returns a value, or throws an
    exception, or runs into undefined behaviour (an out-of-range vector access,
    a failed [assert]/[CHECK], signed overflow).  The object keeps the
    modifications made before the exception was thrown. *)

(** The error numbers of [enum class Excno] (crypto/vm/excno.hpp). *)
Inductive Excno : Type :=
| Exc_none | Exc_alt | Exc_stk_und | Exc_stk_ov | Exc_int_ov | Exc_range_chk
| Exc_inv_opcode | Exc_type_chk | Exc_cell_ov | Exc_cell_und | Exc_dict_err
| Exc_unknown | Exc_fatal | Exc_out_of_gas | Exc_virt_err.

Definition get_errno (e : Excno) : Z :=
  match e with
  | Exc_none => 0 | Exc_alt => 1 | Exc_stk_und => 2 | Exc_stk_ov => 3
  | Exc_int_ov => 4 | Exc_range_chk => 5 | Exc_inv_opcode => 6
  | Exc_type_chk => 7 | Exc_cell_ov => 8 | Exc_cell_und => 9
  | Exc_dict_err => 10 | Exc_unknown => 11 | Exc_fatal => 12
  | Exc_out_of_gas => 13 | Exc_virt_err => 14
  end.

(** The C++ exception types that the modelled code throws; [StatusError] is a result
    [td::Status::Error] that the callers pass on. *)
Inductive exc : Type :=
| VmError (e : Excno)
| VmNoGas
| VmFatal
| CellWriteError
| CellCreateError
| CellReadError
| IntOverflow
| StatusError.

#[global] Instance Excno_eq_dec : EqDecision Excno.
Proof. solve_decision. Defined.
#[global] Instance exc_eq_dec : EqDecision exc.
Proof. solve_decision. Defined.

Inductive res (S A : Type) : Type :=
| Ret (a : A) (s : S)
| Exn (e : exc) (s : S)
| Undef.
Arguments Ret {S A} _ _.
Arguments Exn {S A} _ _.
Arguments Undef {S A}.

(** Code that runs on an object of type [S] and returns an [A]. *)
Definition M (S A : Type) : Type := S -> res S A.

Section monad.
Context {S : Type}.

Definition ret {A} (a : A) : M S A := fun s => Ret a s.
Definition throw {A} (e : exc) : M S A := fun s => Exn e s.
Definition undef {A} : M S A := fun _ => Undef.
Definition bind {A B} (m : M S A) (k : A -> M S B) : M S B := fun s =>
  match m s with
  | Ret a s' => k a s'
  | Exn e s' => Exn e s'
  | Undef => Undef
  end.
Definition gets {A} (f : S -> A) : M S A := fun s => Ret (f s) s.
Definition modify (f : S -> S) : M S unit := fun s => Ret tt (f s).
Definition unless_throw (b : bool) (e : exc) : M S unit :=
  if b then ret tt else throw e.

(** [assert(b)] and [CHECK(b)]. *)
Definition assert_ub (b : bool) : M S unit := if b then ret tt else undef.

(** An [option] read: [None] is an out-of-range access. *)
Definition of_option {A} (o : option A) : M S A :=
  match o with Some a => ret a | None => undef end.
End monad.

Declare Scope code_scope.
Delimit Scope code_scope with code.
Notation "x <- c ;; k" := (bind c (fun x => k))
  (at level 100, c at next level, right associativity) : code_scope.
Notation "'let*' p := c 'in' k" := (bind c (fun x => let p := x in k))
  (at level 100, p strict pattern, c at next level, right associativity) : code_scope.
Notation "c ;; k" := (bind c (fun _ => k))
  (at level 100, right associativity) : code_scope.
#[global] Open Scope code_scope.

(** ** Weakest preconditions

    [wp m Q E s]: [m] run on [s] is free of undefined behaviour, ends in [Q]
    when it returns and in [E] when it throws. *)
Definition wp {S A} (m : M S A) (Q : A -> S -> Prop) (E : exc -> S -> Prop)
    (s : S) : Prop :=
  match m s with
  | Ret a s' => Q a s'
  | Exn e s' => E e s'
  | Undef => False
  end.

Section wp_rules.
Context {S : Type}.
Implicit Types (s : S) (E : exc -> S -> Prop).

Lemma wp_ret {A} (a : A) Q E s : Q a s -> wp (ret a) Q E s.
Proof. done. Qed.
Lemma wp_throw {A} e (Q : A -> S -> Prop) E s : E e s -> wp (throw e) Q E s.
Proof. done. Qed.
Lemma wp_bind {A B} (m : M S A) (k : A -> M S B) Q E s :
  wp m (fun a s' => wp (k a) Q E s') E s -> wp (bind m k) Q E s.
Proof. unfold wp, bind. by destruct (m s). Qed.
Lemma wp_gets {A} (f : S -> A) Q E s : Q (f s) s -> wp (gets f) Q E s.
Proof. done. Qed.
Lemma wp_modify f (Q : unit -> S -> Prop) E s : Q tt (f s) -> wp (modify f) Q E s.
Proof. done. Qed.
Lemma wp_unless_throw b e (Q : unit -> S -> Prop) E s :
  (b = true -> Q tt s) -> (b = false -> E e s) -> wp (unless_throw b e) Q E s.
Proof. destruct b; unfold unless_throw, wp; naive_solver. Qed.
Lemma wp_assert_ub b (Q : unit -> S -> Prop) E s :
  b = true -> Q tt s -> wp (assert_ub b) Q E s.
Proof. intros ->. done. Qed.
Lemma wp_of_option {A} (o : option A) a Q E s :
  o = Some a -> Q a s -> wp (of_option o) Q E s.
Proof. intros ->. done. Qed.

Lemma wp_mono {A} (m : M S A) (Q Q' : A -> S -> Prop) (E E' : exc -> S -> Prop) s :
  wp m Q E s -> (forall a s', Q a s' -> Q' a s') -> (forall e s', E e s' -> E' e s') ->
  wp m Q' E' s.
Proof. unfold wp. destruct (m s); naive_solver. Qed.

Lemma wp_not_undef {A} (m : M S A) Q E s : wp m Q E s -> m s <> Undef.
Proof. unfold wp. by destruct (m s). Qed.
End wp_rules.

Create HintDb wp discriminated.
#[export] Hint Constants Opaque : wp.

(** One step of symbolic execution; component files extend it through the
    [wp] database with the rules of their own operations. *)
Ltac wp_step :=
  lazymatch goal with
  | |- wp (bind _ _) _ _ _ => apply wp_bind
  | |- wp (ret _) _ _ _ => apply wp_ret
  | |- wp (throw _) _ _ _ => apply wp_throw
  | |- wp (gets _) _ _ _ => apply wp_gets
  | |- wp (modify _) _ _ _ => apply wp_modify
  | |- wp (unless_throw _ _) _ _ _ => apply wp_unless_throw; intros ?
  | |- wp (if ?b then _ else _) _ _ _ => destruct b eqn:?
  | |- wp (let _ := _ in _) _ _ _ => cbv zeta
  end.

(** ** Partial correctness

    [wlp m Q E s]: like [wp], but nothing is claimed about undefined behaviour.  It
    suits invariants that hold of every result; [wp_wlp] combines it with a [wp]
    that shows safety. *)
Definition wlp {S A} (m : M S A) (Q : A -> S -> Prop) (E : exc -> S -> Prop)
    (s : S) : Prop :=
  match m s with
  | Ret a s' => Q a s'
  | Exn e s' => E e s'
  | Undef => True
  end.

Section wlp_rules.
Context {S : Type}.
Implicit Types (s : S) (E : exc -> S -> Prop).

Lemma wp_wlp {A} (m : M S A) (Q Q' : A -> S -> Prop) E E' s :
  wp m Q E s -> wlp m Q' E' s ->
  wp m (fun a s' => Q a s' /\ Q' a s') (fun e s' => E e s' /\ E' e s') s.
Proof. unfold wp, wlp. by destruct (m s). Qed.
Lemma wp_is_wlp {A} (m : M S A) (Q : A -> S -> Prop) E s : wp m Q E s -> wlp m Q E s.
Proof. unfold wp, wlp. by destruct (m s). Qed.
Lemma wlp_bind {A B} (m : M S A) (k : A -> M S B) Q E s :
  wlp m (fun a s' => wlp (k a) Q E s') E s -> wlp (bind m k) Q E s.
Proof. unfold wlp, bind. by destruct (m s). Qed.
Lemma wlp_mono {A} (m : M S A) (Q Q' : A -> S -> Prop) E E' s :
  wlp m Q E s -> (forall a s', Q a s' -> Q' a s') -> (forall e s', E e s' -> E' e s') ->
  wlp m Q' E' s.
Proof. unfold wlp. destruct (m s); naive_solver. Qed.
End wlp_rules.

(** The head constant of an application. *)
Ltac head_of t := lazymatch t with ?f _ => head_of f | _ => t end.
Ltac unfold_head :=
  lazymatch goal with |- wp ?m _ _ _ => let h := head_of m in unfold h end.
Ltac split_Forall := repeat first [apply Forall_nil_2 | apply Forall_cons_2].

(** ** Machine integers *)

(** [x mod 2^w] and the two's complement value of the low [w] bits. *)
Definition wrap_u (w x : Z) : Z := x mod 2 ^ w.
Definition wrap_s (w x : Z) : Z := (x + 2 ^ (w - 1)) mod 2 ^ w - 2 ^ (w - 1).
Definition fits_s (w x : Z) : bool := (- 2 ^ (w - 1) <=? x) && (x <? 2 ^ (w - 1)).
Definition fits_u (w x : Z) : bool := (0 <=? x) && (x <? 2 ^ w).

Lemma pow2_pos w : 0 <= w -> 0 < 2 ^ w.
Proof. intros. apply Z.pow_pos_nonneg; lia. Qed.

Lemma fits_s_spec w x : fits_s w x = true <-> - 2 ^ (w - 1) <= x < 2 ^ (w - 1).
Proof. unfold fits_s. rewrite andb_true_iff, Z.leb_le, Z.ltb_lt. done. Qed.
Lemma fits_u_spec w x : fits_u w x = true <-> 0 <= x < 2 ^ w.
Proof. unfold fits_u. rewrite andb_true_iff, Z.leb_le, Z.ltb_lt. done. Qed.

Lemma wrap_u_small w x : 0 <= x < 2 ^ w -> wrap_u w x = x.
Proof. apply Z.mod_small. Qed.
Lemma wrap_s_small w x :
  0 < w -> - 2 ^ (w - 1) <= x < 2 ^ (w - 1) -> wrap_s w x = x.
Proof.
  intros Hw Hx. unfold wrap_s.
  assert (2 ^ w = 2 * 2 ^ (w - 1)) by (rewrite <- Z.pow_succ_r by lia; f_equal; lia).
  rewrite Z.mod_small; lia.
Qed.
Lemma wrap_s_range w x : 0 < w -> - 2 ^ (w - 1) <= wrap_s w x < 2 ^ (w - 1).
Proof.
  intros Hw. unfold wrap_s.
  assert (2 ^ w = 2 * 2 ^ (w - 1)) by (rewrite <- Z.pow_succ_r by lia; f_equal; lia).
  pose proof (pow2_pos (w - 1)).
  pose proof (Z.mod_pos_bound (x + 2 ^ (w - 1)) (2 ^ w)). lia.
Qed.
Lemma wrap_s_congr w x : 0 < w -> exists k, wrap_s w x = x + k * 2 ^ w.
Proof.
  intros Hw. unfold wrap_s.
  exists (- ((x + 2 ^ (w - 1)) / 2 ^ w)).
  pose proof (Z.div_mod (x + 2 ^ (w - 1)) (2 ^ w)).
  pose proof (pow2_pos w). lia.
Qed.

(** [lia] with division and remainder by constants. *)
Ltac div_lia := Z.to_euclidean_division_equations; lia.

(** ** Lists *)

Section lists.
Context {A : Type}.
Implicit Types l : list A.

Lemma lookup_Z_some l (i : Z) :
  0 <= i < Z.of_nat (length l) -> exists a, l !! Z.to_nat i = Some a.
Proof. intros ?. apply lookup_lt_is_Some_2. lia. Qed.

Lemma lookup_app_plus l1 l2 i : (l1 ++ l2) !! (length l1 + i)%nat = l2 !! i.
Proof. rewrite lookup_app_r by lia. f_equal. lia. Qed.

(** Exchange the elements at two positions. *)
Definition list_swap (i j : nat) l : option (list A) :=
  match l !! i, l !! j with
  | Some a, Some b => Some (<[j := a]> (<[i := b]> l))
  | _, _ => None
  end.

Lemma list_swap_some l i j :
  (i < length l)%nat -> (j < length l)%nat -> exists l', list_swap i j l = Some l'.
Proof.
  intros [a Ha]%lookup_lt_is_Some_2 [b Hb]%lookup_lt_is_Some_2.
  unfold list_swap. rewrite Ha, Hb. eauto.
Qed.
Lemma list_swap_length l l' i j : list_swap i j l = Some l' -> length l' = length l.
Proof.
  unfold list_swap. intros. repeat case_match; simplify_eq. by rewrite !length_insert.
Qed.
Lemma list_swap_lookup l l' i j k :
  list_swap i j l = Some l' ->
  l' !! k = if decide (k = j) then l !! i else if decide (k = i) then l !! j else l !! k.
Proof.
  unfold list_swap. intros H. destruct (l !! i) eqn:Hi, (l !! j) eqn:Hj; simplify_eq.
  pose proof (lookup_lt_Some _ _ _ Hi). pose proof (lookup_lt_Some _ _ _ Hj).
  repeat case_decide; subst.
  - rewrite list_lookup_insert_eq; [done|]. by rewrite length_insert.
  - rewrite list_lookup_insert_ne by done. by rewrite list_lookup_insert_eq.
  - by rewrite !list_lookup_insert_ne by done.
Qed.
Lemma list_swap_involutive l l' i j :
  list_swap i j l = Some l' -> list_swap i j l' = Some l.
Proof.
  intros H. pose proof (list_swap_length _ _ _ _ H) as Hlen.
  assert ((i < length l)%nat /\ (j < length l)%nat) as [Hi Hj].
  { unfold list_swap in H. repeat case_match; simplify_eq.
    eauto using lookup_lt_Some. }
  destruct (list_swap_some l' i j) as [l'' H'']; [lia..|]. rewrite H''. f_equal.
  apply list_eq. intros k.
  rewrite (list_swap_lookup _ _ _ _ _ H''), !(list_swap_lookup _ _ _ _ _ H).
  repeat case_decide; congruence.
Qed.
Lemma list_swap_perm l l' i j : list_swap i j l = Some l' -> l' ≡ₚ l.
Proof.
  intros H. apply Permutation_inj. split; [by eapply list_swap_length|].
  exists (fun k => if decide (k = j) then i else if decide (k = i) then j else k).
  split.
  - intros x y. repeat case_decide; congruence.
  - intros k. rewrite (list_swap_lookup _ _ _ _ _ H). by repeat case_decide.
Qed.
End lists.
