(* ===== verification/BigInt.v ===== *)
(** * Multi-word integers: [td::AnyIntView] (crypto/common/bigint.hpp)

    A [BigIntG] keeps [n] signed 64-bit digits in base [2^52], least significant
    first; [n = 0] is the invalid value (NaN).  Here a number is the list of its
    first [n] digits and the capacity [word_cnt] of the object is an argument.
    Word arithmetic is written with its wrap-around at 64 bits, so the theorems
    also show that no operation overflows a word.

    Main results: normalisation keeps the value, yields the canonical digits and
    fails exactly when the value has no representation of the given capacity;
    addition, subtraction and negation are exact; comparison, sign, equality and
    conversion to [long long] agree with the integers they represent.  The shifts are
    proved against their values in Int256.v. *)
From S2P Require Import Prelude.

Definition word_shift : Z := 52.
Definition Base : Z := 2 ^ word_shift.
Definition Half : Z := 2 ^ (word_shift - 1).
Definition MaxDenorm : Z := 2 ^ (64 - word_shift - 1).

(** Result of an operation on [word_t] (64-bit two's complement). *)
Definition w64 (x : Z) : Z := wrap_s 64 x.

(** [0x80000000] converted to [int]. *)
Definition sgn_nan : Z := - 2 ^ 31.
(** [~0ULL << 63] converted to [long long]. *)
Definition long_nan : Z := - 2 ^ 63.

Definition is_valid (ds : list Z) : bool := bool_decide (ds <> []).

Definition digit_ok (d : Z) : bool := (d <? Half) && (- Half <=? d).

(** ** Normalisation *)

(** First loop of [normalize_bool_any]: the digits before the first one that is
    out of range. *)
Fixpoint skip_norm (ds : list Z) : list Z * list Z :=
  match ds with
  | [] => ([], [])
  | d :: ds' =>
      if digit_ok d then let '(p, r) := skip_norm ds' in (d :: p, r) else ([], ds)
  end.

(** Second loop: propagate the carry. *)
Fixpoint carry_loop (val : Z) (ds : list Z) : list Z * Z :=
  match ds with
  | [] => ([], val)
  | d :: ds' =>
      let val := w64 (val + w64 (d + Half)) in
      let d' := w64 (Z.land val (Base - 1) - Half) in
      let '(r, v) := carry_loop (Z.shiftr val word_shift) ds' in (d' :: r, v)
  end.

(** The [do ... while (val)] loop that appends digits; [room] is
    [max_size() - size()], and [None] is the [invalidate_bool()] exit. *)
Fixpoint extend_loop (room : nat) (val : Z) : option (list Z) :=
  if val =? 0 then Some []
  else match room with
       | O => None
       | S room' =>
           let val := w64 (val + Half) in
           let d := w64 (Z.land val (Base - 1) - Half) in
           match extend_loop room' (Z.shiftr val word_shift) with
           | Some r => Some (d :: r)
           | None => None
           end
       end.

(** [while (size() > 1 && !digits[size() - 1]) dec_size();] *)
Fixpoint strip_zeros (ds : list Z) : list Z :=
  match ds with
  | [] => []
  | d :: ds' =>
      match strip_zeros ds' with
      | [] => [d]
      | [z] => if z =? 0 then [d] else [d; z]
      | r => d :: r
      end
  end.

Definition normalize_bool_any (max_size : nat) (ds : list Z) : bool * list Z :=
  if negb (is_valid ds) then (false, ds)
  else
    let '(p, r) := skip_norm ds in
    let '(r', val) := carry_loop 0 r in
    match extend_loop (max_size - length ds) val with
    | None => (false, [])
    | Some e => (true, strip_zeros (p ++ r' ++ e))
    end.

(** ** Ring operations *)

(** [digits[i] op= yp.digits[i]] over the digits of the shorter number; the
    longer tail is kept (of [x]) or copied with [g] (of [y]). *)
Fixpoint zip_digits (op : Z -> Z -> Z) (g : Z -> Z) (xs ys : list Z) : list Z :=
  match xs, ys with
  | [], _ => map g ys
  | _, [] => xs
  | x :: xs', y :: ys' => op x y :: zip_digits op g xs' ys'
  end.

Definition add_any (max_size : nat) (xs ys : list Z) : bool * list Z :=
  if (length ys <=? length xs)%nat then
    if negb (is_valid ys) then (false, [])
    else (true, zip_digits (fun x y => w64 (x + y)) (fun y => y) xs ys)
  else if negb (is_valid xs) then (false, xs)
  else if (max_size <? length ys)%nat then (false, [])
  else (true, zip_digits (fun x y => w64 (x + y)) (fun y => y) xs ys).

Definition sub_any (max_size : nat) (xs ys : list Z) : bool * list Z :=
  if (length ys <=? length xs)%nat then
    if negb (is_valid ys) then (false, [])
    else (true, zip_digits (fun x y => w64 (x - y)) (fun y => w64 (- y)) xs ys)
  else if negb (is_valid xs) then (false, xs)
  else if (max_size <? length ys)%nat then (false, [])
  else (true, zip_digits (fun x y => w64 (x - y)) (fun y => w64 (- y)) xs ys).

Definition negate_any (ds : list Z) : list Z := map (fun d => w64 (- d)) ds.

Definition mul_tiny_any (ds : list Z) (y : Z) : list Z := map (fun d => w64 (d * y)) ds.

(** ** Sign, comparison, conversion *)

Definition top_word (ds : list Z) : Z := List.last ds 0.

Definition sgn (ds : list Z) : Z :=
  if is_valid ds then
    if 0 <? top_word ds then 1 else if top_word ds <? 0 then -1 else 0
  else sgn_nan.

(** The loop of [cmp_any] on numbers of the same size: from the top digit down. *)
Fixpoint cmp_digits (xs ys : list Z) : Z :=
  match xs, ys with
  | x :: xs', y :: ys' =>
      let c := cmp_digits xs' ys' in
      if c =? 0 then (if x <? y then -1 else if y <? x then 1 else 0) else c
  | _, _ => 0
  end.

Definition cmp_any (xs ys : list Z) : Z :=
  if (length ys <? length xs)%nat then (if top_word xs <? 0 then -1 else 1)
  else if (length xs <? length ys)%nat then (if 0 <? top_word ys then -1 else 1)
  else cmp_digits xs ys.

Definition cmp_any_word (xs : list Z) (y : Z) : Z :=
  match xs with
  | [d0] => if d0 <? y then -1 else if y <? d0 then 1 else 0
  | [] => sgn_nan
  | _ =>
      match xs with
      | [d0; d1] =>
          if (Half <=? y) || (y <? - Half) then
            let x0 := Z.land d0 (Base - 1) in let y0 := Z.land y (Base - 1) in
            let x1 := w64 (d1 + Z.shiftr d0 word_shift) in
            let y1 := Z.shiftr y word_shift in
            if x1 <? y1 then -1 else if y1 <? x1 then 1
            else if x0 <? y0 then -1 else if y0 <? x0 then 1 else 0
          else (if top_word xs <? 0 then -1 else 1)
      | _ => if top_word xs <? 0 then -1 else 1
      end
  end.

Definition eq_any (xs ys : list Z) : bool :=
  bool_decide (length ys = length xs) && bool_decide (xs = ys).

(** The loop over the middle digits of [to_long_any]. *)
Fixpoint to_long_loop (w : Z) (ds : list Z) : option Z :=
  match ds with
  | [] => Some w
  | d :: ds' =>
      let w := w64 (w - d) in
      if Z.land w (Base - 1) =? 0 then to_long_loop (Z.shiftr w word_shift) ds' else None
  end.

Definition to_long_any (ds : list Z) : Z :=
  match ds with
  | [] => long_nan
  | [d0] => d0
  | d0 :: d1 :: _ =>
      let v := w64 (wrap_u 64 d0 + Z.shiftl (wrap_u 64 d1) word_shift) in
      let w := w64 (Z.land v (Base - 1) - d0) in
      let w := Z.shiftr w word_shift in
      let w := w64 (w + Z.shiftr v word_shift) in
      match to_long_loop w (removelast (tail ds)) with
      | None => long_nan
      | Some w => if w =? top_word ds then v else long_nan
      end
  end.

(** ** Shifts *)

Definition word_bits : Z := 64.

(** The first loop of [rshift_any]: the carry out of the [q] lowest digits. *)
Fixpoint rshift_carry (v : Z) (q : nat) (ds : list Z) : Z :=
  match q, ds with
  | S q', d :: ds' => rshift_carry (Z.shiftr (w64 (v + d)) word_shift) q' ds'
  | _, _ => v
  end.

(** The last loop of [rshift_any] over the digits above [digits[q]], and the store of
    the top digit after it. *)
Fixpoint rshift_loop (r v : Z) (ds : list Z) : list Z :=
  let mask := w64 (Z.shiftl 1 r - 1) in
  match ds with
  | [] => [v]
  | w :: ds' =>
      w64 (v + w64 (Z.shiftl (Z.land w mask) (word_shift - r))) :: rshift_loop r (Z.shiftr w r) ds'
  end.

(** [v >> r], rounded to the nearest integer ([(((v >> (r - 1)) + 1) >> 1)]), or down
    with [up] added. *)
Definition rshift_word (v r rm : Z) : Z :=
  if rm =? 0 then Z.shiftr (w64 (Z.shiftr v (r - 1) + 1)) 1
  else w64 (Z.shiftr v r + Z.b2z (0 <? rm)).

(** The assertion [q <= size()] follows from the test before it. *)
Definition rshift_any (exponent round_mode : Z) (ds : list Z) : bool * list Z :=
  if exponent <? 0 then (false, [])
  else if exponent =? 0 then (true, ds)
  else if Z.of_nat (length ds) * word_shift + word_bits - word_shift <? exponent then
    (true, [ if round_mode =? 0 then 0
             else if round_mode <? 0 then (if sgn ds <? 0 then -1 else 0)
             else (if 0 <? sgn ds then 1 else 0) ])
  else
    let q := Z.to_nat (exponent / word_shift) in
    let r := exponent mod word_shift in
    let tie := (round_mode =? 0) && (r =? 0) in
    let ds := if tie then alter (fun d => w64 (d + Half)) (q - 1)%nat ds else ds in
    let round_mode := if tie then -1 else round_mode in
    let v := rshift_carry (if 0 <? round_mode then -1 else 0) q ds in
    match drop q ds with
    | [] => (true, [rshift_word v r round_mode])
    | d :: rest =>
        if r =? 0 then (true, w64 (d + w64 (v + Z.b2z (0 <? round_mode))) :: rest)
        else (true, rshift_loop r (rshift_word (w64 (v + d)) r round_mode) rest)
    end.

(** The loop of [lshift_any]: the new digits and the carry. *)
Fixpoint lshift_loop (r v : Z) (ds : list Z) : list Z * Z :=
  let mask := w64 (Z.shiftr Base r - 1) in
  match ds with
  | [] => ([], v)
  | w :: ds' =>
      let d := w64 (v + w64 (Z.shiftl (Z.land w mask) r)) in
      let '(l, v') := lshift_loop r (Z.shiftr w (word_shift - r)) ds' in (d :: l, v')
  end.

Definition lshift_any (max_size : nat) (exponent : Z) (ds : list Z) : bool * list Z :=
  if exponent <? 0 then (false, [])
  else if exponent =? 0 then (true, ds)
  else
    let q := Z.to_nat (exponent / word_shift) in
    let r := exponent mod word_shift in
    if (max_size <? length ds + q)%nat then (false, [])
    else if r =? 0 then (true, replicate q 0 ++ ds)
    else
      let '(l, v) := lshift_loop r 0 ds in
      if v =? 0 then (true, replicate q 0 ++ l)
      else if (length l + q <? max_size)%nat then (true, replicate q 0 ++ l ++ [v])
      else if negb (v =? -1) then (false, [])
      else (true, replicate q 0 ++
                  alter (fun d => w64 (d + wrap_u 64 (Z.shiftl (wrap_u 64 v) word_shift)))
                    (length l - 1)%nat l).

(** ** Comparison of numbers that are not normalised *)

Fixpoint sgn_un_loop (v : Z) (ds_rev : list Z) : Z :=
  match ds_rev with
  | [] => if 0 <? v then 1 else if v <? 0 then -1 else 0
  | w :: rest =>
      let v := w64 (v * Base) in
      if w64 (- v + MaxDenorm) <=? w then 1
      else if w <=? w64 (- v - MaxDenorm) then -1
      else sgn_un_loop (w64 (v + w)) rest
  end.

Definition sgn_un_any (ds : list Z) : Z :=
  match rev ds with
  | [] => 0
  | [v] => if 0 <? v then 1 else if v <? 0 then -1 else 0
  | v :: rest =>
      if MaxDenorm <=? v then 1 else if v <=? - MaxDenorm then -1
      else sgn_un_loop v rest
  end.

(** [cmp_un_any] reads the digits from the top; [cnt] is the number of extra
    digits still to be read in the [while (xn > yn)] loop. *)
Fixpoint cmp_un_xloop (T : Z -> Z) (v : Z) (cnt : nat) (xs_rev : list Z) : Z + Z * list Z :=
  match cnt, xs_rev with
  | S cnt', x :: rest =>
      let v := w64 (v * Base) in
      let w := T x in
      if w64 (- v + MaxDenorm) <=? w then inl 1
      else if w <=? w64 (- v + MaxDenorm) then inl (-1)
      else cmp_un_xloop T (w64 (v + w)) cnt' rest
  | _, _ => inr (v, xs_rev)
  end.

Fixpoint cmp_un_yloop (v : Z) (cnt : nat) (ys_rev : list Z) : Z + Z * list Z :=
  match cnt, ys_rev with
  | S cnt', w :: rest =>
      let v := w64 (v * Base) in
      if w <=? w64 (v - MaxDenorm) then inl 1
      else if w64 (v + MaxDenorm) <=? w then inl (-1)
      else cmp_un_yloop (w64 (v - w)) cnt' rest
  | _, _ => inr (v, ys_rev)
  end.

Fixpoint cmp_un_tail (T : Z -> Z) (v : Z) (xs_rev ys_rev : list Z) : Z :=
  match xs_rev, ys_rev with
  | x :: xs', y :: ys' =>
      let v := w64 (v * Base) in
      let w := w64 (T x - y) in
      if w64 (- v + MaxDenorm) <=? w then 1
      else if w <=? w64 (- v - MaxDenorm) then -1
      else cmp_un_tail T (w64 (v + w)) xs' ys'
  | _, _ => if 0 <? v then 1 else if v <? 0 then -1 else 0
  end.

Definition cmp_un_any (T : Z -> Z) (xs ys : list Z) : Z :=
  match Nat.compare (length ys) (length xs), rev xs, rev ys with
  | Lt, x :: xr, yr =>
      let v := T x in
      if MaxDenorm <=? v then 1 else if v <=? - MaxDenorm then -1
      else match cmp_un_xloop T v (length xs - 1 - length ys) xr with
           | inl c => c
           | inr (v, xr) => cmp_un_tail T v xr yr
           end
  | Gt, xr, y :: yr =>
      let v := w64 (- y) in
      if MaxDenorm <=? v then 1 else if v <=? - MaxDenorm then -1
      else match cmp_un_yloop v (length ys - 1 - length xs) yr with
           | inl c => c
           | inr (v, yr) => cmp_un_tail T v xr yr
           end
  | _, xr, yr => cmp_un_tail T 0 xr yr
  end.

(** ** Values and canonical digits *)

Fixpoint value (ds : list Z) : Z :=
  match ds with [] => 0 | d :: ds' => d + Base * value ds' end.

Definition normal (ds : list Z) : Prop := Forall (fun d => - Half <= d < Half) ds.

(** The digits [normalize] leaves: valid, in range, no leading zero digit. *)
Definition canonical (ds : list Z) : Prop :=
  ds <> [] /\ normal ds /\ (length ds = 1%nat \/ top_word ds <> 0).

(** A value that some digit string of at most [max_size] digits represents. *)
Definition representable (max_size : nat) (v : Z) : Prop :=
  exists zs, (length zs <= max_size)%nat /\ normal zs /\ value zs = v.

Definition word_bound (b : Z) (ds : list Z) : Prop := Forall (fun d => - b <= d <= b) ds.

Create HintDb bigint discriminated.

Lemma Half_val : Half = 2251799813685248.
Proof. reflexivity. Qed.
Lemma Base_val : Base = 4503599627370496.
Proof. reflexivity. Qed.
#[global] Opaque Base Half.

Ltac consts := rewrite ?Half_val, ?Base_val in *.

Lemma w64_id x : - 2 ^ 63 <= x < 2 ^ 63 -> w64 x = x.
Proof. intros. apply wrap_s_small; lia. Qed.
Lemma land_base v : Z.land v (Base - 1) = v mod Base.
Proof.
  Transparent Base. unfold Base. Opaque Base.
  replace (2 ^ word_shift - 1) with (Z.ones word_shift) by reflexivity.
  apply Z.land_ones. done.
Qed.
Lemma shiftr_base v : Z.shiftr v word_shift = v / Base.
Proof. rewrite Z.shiftr_div_pow2 by done. reflexivity. Qed.

Lemma digit_ok_spec d : digit_ok d = true <-> - Half <= d < Half.
Proof. unfold digit_ok. rewrite andb_true_iff, Z.ltb_lt, Z.leb_le. lia. Qed.

Lemma Base_pow_pos n : 0 < Base ^ Z.of_nat n.
Proof. apply Z.pow_pos_nonneg; rewrite ?Base_val; lia. Qed.
#[export] Hint Resolve Base_pow_pos : bigint.

Lemma Base_pow_S n : Base ^ Z.of_nat (S n) = Base * Base ^ Z.of_nat n.
Proof. rewrite Nat2Z.inj_succ, Z.pow_succ_r by lia. done. Qed.

Lemma value_app xs ys : value (xs ++ ys) = value xs + Base ^ Z.of_nat (length xs) * value ys.
Proof.
  induction xs as [|x xs IH]; [simpl; lia|].
  cbn [app value length]. rewrite IH, Base_pow_S. lia.
Qed.

Lemma value_zeros n : value (replicate n 0) = 0.
Proof. induction n as [|n IH]; [done|]. cbn [replicate value]. rewrite IH. lia. Qed.


Lemma value_pad ds n : value (ds ++ replicate n 0) = value ds.
Proof. rewrite value_app, value_zeros. lia. Qed.

Lemma normal_cons x xs : normal (x :: xs) <-> - Half <= x < Half /\ normal xs.
Proof. apply Forall_cons_iff. Qed.
Lemma normal_single x : - Half <= x < Half -> normal [x].
Proof. intros. apply normal_cons. split; [done|constructor]. Qed.
Lemma normal_app xs ys : normal (xs ++ ys) <-> normal xs /\ normal ys.
Proof. apply Forall_app. Qed.
Lemma normal_zeros n : normal (replicate n 0).
Proof. apply Forall_replicate. consts. lia. Qed.
#[export] Hint Resolve normal_zeros : bigint.

(** Two normal digit strings of the same length are closer than [Base^n]. *)
Lemma value_close xs ys :
  length xs = length ys -> normal xs -> normal ys ->
  - (Base ^ Z.of_nat (length xs) - 1) <= value xs - value ys <= Base ^ Z.of_nat (length xs) - 1.
Proof.
  revert ys. induction xs as [|x xs IH]; intros [|y ys] Hlen Hx Hy; try done.
  apply normal_cons in Hx as [Hx Hxs]. apply normal_cons in Hy as [Hy Hys].
  specialize (IH ys ltac:(simpl in *; lia) Hxs Hys).
  cbn [value length]. rewrite Base_pow_S. consts. nia.
Qed.

Lemma value_bound xs :
  normal xs -> - (Base ^ Z.of_nat (length xs) - 1) <= value xs <= Base ^ Z.of_nat (length xs) - 1.
Proof.
  intros H. pose proof (value_close xs (replicate (length xs) 0)) as C.
  rewrite value_zeros, length_replicate in C.
  destruct (C eq_refl H (normal_zeros _)). lia.
Qed.

Lemma normal_word_bound ds : normal ds -> word_bound (2 ^ 62) ds.
Proof. apply Forall_impl. intros. consts. lia. Qed.

(** Splitting off the top digit. *)
Lemma value_top ds : ds <> [] ->
  value ds = value (removelast ds) + Base ^ Z.of_nat (length ds - 1) * top_word ds.
Proof.
  intros H. rewrite (app_removelast_last 0 H) at 1. rewrite value_app. cbn [value].
  unfold top_word. replace (length (removelast ds)) with (length ds - 1)%nat.
  { lia. }
  rewrite (app_removelast_last 0 H) at 1. rewrite length_app. simpl. lia.
Qed.

Lemma normal_removelast ds : normal ds -> normal (removelast ds).
Proof.
  intros H. destruct ds as [|d ds] using rev_ind; [done|].
  rewrite removelast_last. apply normal_app in H. tauto.
Qed.
Lemma length_removelast' (ds : list Z) : length (removelast ds) = (length ds - 1)%nat.
Proof.
  destruct ds as [|d ds _] using rev_ind; [done|].
  rewrite removelast_last, length_app. simpl. lia.
Qed.

Lemma value_sign ds : ds <> [] -> normal ds ->
  (0 < top_word ds -> 0 < value ds) /\ (top_word ds < 0 -> value ds < 0).
Proof.
  intros Hne Hn. rewrite (value_top ds Hne).
  pose proof (value_bound _ (normal_removelast _ Hn)) as B.
  rewrite length_removelast' in B.
  pose proof (Base_pow_pos (length ds - 1)). nia.
Qed.

(** *** Normalisation *)

Lemma skip_norm_app ds : let '(p, r) := skip_norm ds in ds = p ++ r /\ normal p.
Proof.
  induction ds as [|d ds IH]; [by repeat constructor|]. simpl.
  destruct (digit_ok d) eqn:E; [|split; [done|constructor]].
  destruct (skip_norm ds) as [p r]. destruct IH as [-> ?].
  split; [done|]. constructor; [by apply digit_ok_spec|done].
Qed.

(** One digit step: the digit and the carry together keep the sum. *)
Lemma digit_step s :
  - 2 ^ 63 <= s + Half < 2 ^ 63 ->
  let v := s + Half in let d := w64 (Z.land v (Base - 1) - Half) in
  - Half <= d < Half /\ d + Base * Z.shiftr v word_shift = s.
Proof.
  intros H. cbv zeta. rewrite land_base, shiftr_base.
  pose proof (Z.mod_pos_bound (s + Half) Base) as Hm. pose proof (Z.div_mod (s + Half) Base) as Hd.
  rewrite w64_id; consts; lia.
Qed.

Lemma carry_loop_spec ds val :
  - 2 ^ 12 <= val <= 2 ^ 12 -> word_bound (2 ^ 62) ds ->
  let '(r, v) := carry_loop val ds in
  length r = length ds /\ normal r /\ - 2 ^ 12 <= v <= 2 ^ 12 /\
  val + value ds = value r + Base ^ Z.of_nat (length ds) * v.
Proof.
  revert val. induction ds as [|d ds IH]; intros val Hv Hb.
  { repeat split; try constructor; try lia.
    cbn [length value]. change (Z.of_nat 0) with 0. rewrite Z.pow_0_r. lia. }
  apply Forall_cons_1 in Hb as [Hd Hb]. cbn [carry_loop].
  rewrite (w64_id (d + Half)) by (consts; lia).
  rewrite (w64_id (val + _)) by (consts; lia).
  destruct (digit_step (val + d)) as [Hok Heq]; [consts; lia|].
  replace (val + (d + Half)) with (val + d + Half) by lia.
  assert (- 2 ^ 12 <= Z.shiftr (val + d + Half) word_shift <= 2 ^ 12) as Hc.
  { rewrite shiftr_base. clear IH Heq Hok. consts. div_lia. }
  specialize (IH _ Hc Hb). destruct (carry_loop _ ds) as [r v].
  destruct IH as (Hlen & Hr & Hv' & Hval). cbn [length].
  split; [by rewrite Hlen|]. split; [by constructor|]. split; [done|].
  cbn [value]. rewrite Base_pow_S. nia.
Qed.

Lemma extend_loop_spec room val : - 2 ^ 12 <= val <= 2 ^ 12 ->
  extend_loop room val =
    if val =? 0 then Some [] else match room with O => None | S _ => Some [val] end.
Proof.
  intros H. destruct room as [|room]; simpl; destruct (val =? 0) eqn:E; try done.
  rewrite (w64_id (val + Half)) by (consts; lia).
  rewrite shiftr_base, land_base.
  rewrite Z.div_small by (consts; lia). rewrite Z.mod_small by (consts; lia).
  replace (extend_loop room 0) with (Some (@nil Z)) by (by destruct room).
  rewrite w64_id by (consts; lia). do 2 f_equal. lia.
Qed.

Lemma strip_zeros_spec ds : ds <> [] ->
  strip_zeros ds <> [] /\ value (strip_zeros ds) = value ds /\
  (length (strip_zeros ds) <= length ds)%nat /\
  (length (strip_zeros ds) = 1%nat \/ top_word (strip_zeros ds) <> 0) /\
  (normal ds -> normal (strip_zeros ds)).
Proof.
  induction ds as [|d ds IH]; [done|]. intros _. destruct ds as [|e ds].
  { simpl. intuition (done || lia). }
  destruct (IH ltac:(done)) as (Hne & Hval & Hlen & Htop & Hn). clear IH.
  set (r := strip_zeros (e :: ds)) in *.
  change (strip_zeros (d :: e :: ds)) with
    (match r with
     | [] => [d] | [z] => if z =? 0 then [d] else [d; z] | z :: z' :: r' => d :: z :: z' :: r'
     end).
  change (value (d :: e :: ds)) with (d + Base * value (e :: ds)). rewrite <- Hval.
  destruct r as [|z [|z' r]]; [done|..].
  - destruct (z =? 0) eqn:E; [apply Z.eqb_eq in E as ->|apply Z.eqb_neq in E];
      (split_and!; [done|simpl; lia|simpl in *; lia|(by left) || (right; exact E)|]);
      (intros [Hd [Hz _]%Hn%normal_cons]%normal_cons; repeat (apply normal_cons; split; [done|]); constructor).
  - split_and!; [done|done|simpl in *; lia| |].
    + right. destruct Htop as [Ht|Ht]; [done|]. exact Ht.
    + intros [Hd Hr]%normal_cons. apply normal_cons; auto.
Qed.

Lemma normalize_any_correct max_size ds :
  ds <> [] -> (length ds <= max_size)%nat -> word_bound (2 ^ 62) ds ->
  match normalize_bool_any max_size ds with
  | (true, ds') => canonical ds' /\ (length ds' <= max_size)%nat /\ value ds' = value ds
  | (false, ds') => ds' = [] /\ ~ representable max_size (value ds)
  end.
Proof.
  intros Hne Hlen Hb. unfold normalize_bool_any, is_valid.
  rewrite bool_decide_eq_true_2 by done. cbn [negb].
  pose proof (skip_norm_app ds) as Hs. destruct (skip_norm ds) as [p r].
  destruct Hs as [-> Hp]. apply Forall_app in Hb as [_ Hr].
  pose proof (carry_loop_spec r 0 ltac:(lia) Hr) as Hc.
  destruct (carry_loop 0 r) as [r' v]. destruct Hc as (Hlr & Hr' & Hv & Hval).
  rewrite extend_loop_spec by done. rewrite length_app in *.
  assert (value (p ++ r) = value (p ++ r') + Base ^ Z.of_nat (length p + length r) * v) as Hpr.
  { rewrite !value_app, Nat2Z.inj_add, Z.pow_add_r by lia. nia. }
  assert (normal (p ++ r')) as Hn by (by apply normal_app).
  assert (length (p ++ r') = (length p + length r)%nat) as Hl by (rewrite length_app; lia).
  destruct (v =? 0) eqn:E.
  { apply Z.eqb_eq in E as ->. rewrite app_nil_r.
    destruct (strip_zeros_spec (p ++ r')) as (? & ? & ? & ? & ?).
    { intros Hnil. apply Hne. apply nil_length_inv. rewrite Hnil in Hl. rewrite length_app.
      simpl in Hl. lia. }
    split; [split; auto|]. split; lia. }
  apply Z.eqb_neq in E. destruct (max_size - (length p + length r))%nat eqn:Er.
  - split; [done|]. intros (zs & Hz & Hzn & Hzv).
    pose proof (value_close (p ++ r') (zs ++ replicate (max_size - length zs) 0)) as C.
    rewrite value_pad, Hl, length_app, length_replicate in C.
    specialize (C ltac:(lia) Hn ltac:(apply normal_app; auto with bigint)).
    rewrite Hzv, Hpr in C. pose proof (Base_pow_pos (length p + length r)). nia.
  - rewrite app_assoc. destruct (strip_zeros_spec ((p ++ r') ++ [v])) as (? & Hsv & ? & ? & Hsn).
    { by destruct (p ++ r'). }
    assert (length ((p ++ r') ++ [v]) = S (length p + length r)) by (rewrite length_app; simpl; lia).
    split; [split; [done|split; [|done]]|].
    + apply Hsn, normal_app. split; [done|]. constructor; [consts; lia|constructor].
    + split; [lia|]. rewrite Hsv, value_app, Hl, Hpr. cbn [value]. lia.
Qed.

(** [normalize_bool_any] keeps the value and leaves canonical digits; it
    invalidates the number exactly when the value has no representation in
    [max_size] digits.  Digits up to [2^62] in absolute value are accepted, so
    no word overflows on the way. *)
Theorem normalize_any_spec max_size ds :
  ds <> [] -> (length ds <= max_size)%nat -> word_bound (2 ^ 62) ds ->
  match normalize_bool_any max_size ds with
  | (true, ds') => canonical ds' /\ (length ds' <= max_size)%nat /\ value ds' = value ds
  | (false, ds') => ds' = [] /\ ~ representable max_size (value ds)
  end.
Proof. apply normalize_any_correct. Qed.

Lemma normalize_any_spec_witness :
  normalize_bool_any 5 [Half; Base + 7] = (true, [-Half; 8; 1]) /\
  value [-Half; 8; 1] = value [Half; Base + 7].
Proof.
  assert (normalize_bool_any 5 [Half; Base + 7] = (true, [-Half; 8; 1])) as E by (by vm_compute).
  split; [exact E|].
  pose proof (normalize_any_spec 5 [Half; Base + 7] ltac:(done) ltac:(cbv; lia)) as N.
  rewrite E in N. apply N. repeat constructor; rewrite ?Half_val, ?Base_val; lia.
Defined.

(** *** Exact ring operations *)

(** The number of digits of [BigInt256] ([word_cnt = 257 / 52 + 1]). *)
Definition word_cnt : nat := 5.

(** [ds] is the valid number [v], or [v] does not fit and [ds] is invalid. *)
Definition holds (max_size : nat) (ds : list Z) (v : Z) : Prop :=
  (canonical ds /\ (length ds <= max_size)%nat /\ value ds = v) \/
  (ds = [] /\ ~ representable max_size v).

(** [(x.write() += *y).normalize()], [(x.write() -= *y).normalize()] and
    [x.write().negate().normalize()] of crypto/common/refint.cpp. *)
Definition refint_add (xs ys : list Z) : list Z :=
  snd (normalize_bool_any word_cnt (snd (add_any word_cnt xs ys))).
Definition refint_sub (xs ys : list Z) : list Z :=
  snd (normalize_bool_any word_cnt (snd (sub_any word_cnt xs ys))).
Definition refint_neg (xs : list Z) : list Z :=
  snd (normalize_bool_any word_cnt (negate_any xs)).
(** [(x.write() <<= y).normalize()] and [x.write().rshift(y, round_mode).normalize()];
    [operator>>] is [rshift] with mode [-1]. *)
Definition refint_lshift (xs : list Z) (y : Z) : list Z :=
  snd (normalize_bool_any word_cnt (snd (lshift_any word_cnt y xs))).
Definition refint_rshift (xs : list Z) (y rm : Z) : list Z :=
  snd (normalize_bool_any word_cnt (snd (rshift_any y rm xs))).

Lemma normalize_holds max_size ds v :
  ds <> [] -> (length ds <= max_size)%nat -> word_bound (2 ^ 62) ds -> value ds = v ->
  holds max_size (snd (normalize_bool_any max_size ds)) v.
Proof.
  intros H1 H2 H3 <-. pose proof (normalize_any_correct max_size ds H1 H2 H3) as N.
  destruct (normalize_bool_any max_size ds) as [[] ds']; [left|right]; exact N.
Qed.

Lemma zip_digits_value (s : Z) op g xs ys :
  s = 1 \/ s = -1 ->
  (forall x y, - Half <= x < Half -> - Half <= y < Half -> op x y = x + s * y) ->
  (forall y, - Half <= y < Half -> g y = s * y) ->
  normal xs -> normal ys ->
  value (zip_digits op g xs ys) = value xs + s * value ys /\
  word_bound (2 ^ 62) (zip_digits op g xs ys) /\
  length (zip_digits op g xs ys) = Nat.max (length xs) (length ys).
Proof.
  intros Hs Hop Hg. revert ys. induction xs as [|x xs IH]; intros ys Hx Hy.
  { cbn [zip_digits value]. induction ys as [|y ys IHy]; [split_and!; [simpl; lia|constructor|done]|].
    apply normal_cons in Hy as [Hy Hys]. destruct (IHy Hys) as (Hv & Hb & Hl).
    cbn [map value length] in *. rewrite Hg by done. split_and!; [nia| |simpl in *; lia].
    constructor; [consts; lia|done]. }
  apply normal_cons in Hx as [Hx Hxs]. destruct ys as [|y ys].
  { cbn [zip_digits]. split_and!; [simpl; lia| |simpl; lia].
    apply normal_word_bound. by apply normal_cons. }
  apply normal_cons in Hy as [Hy Hys]. destruct (IH ys Hxs Hys) as (Hv & Hb & Hl).
  cbn [zip_digits value length]. rewrite Hop by done. split_and!; [nia| |lia].
  constructor; [consts; lia|done].
Qed.

Lemma canonical_valid ds : canonical ds -> negb (is_valid ds) = false.
Proof. intros [H _]. unfold is_valid. by rewrite bool_decide_eq_true_2. Qed.

Ltac bigint_words :=
  intros; consts; rewrite w64_id by lia; lia.

Lemma refint_add_holds xs ys :
  canonical xs -> (length xs <= word_cnt)%nat -> canonical ys -> (length ys <= word_cnt)%nat ->
  holds word_cnt (refint_add xs ys) (value xs + value ys).
Proof.
  intros Hx Hlx Hy Hly. unfold refint_add, add_any.
  rewrite !canonical_valid by done.
  rewrite (proj2 (Nat.ltb_ge word_cnt (length ys))) by done.
  destruct Hx as (Hnx & Hx & _), Hy as (Hny & Hy & _).
  destruct (zip_digits_value 1 (fun x y => w64 (x + y)) (fun y => y) xs ys) as (Hv & Hb & Hl);
    [lia|bigint_words|lia|done|done|].
  set (z := zip_digits _ _ xs ys) in *.
  replace (if (_ <=? _)%nat then _ else _) with (true, z) by (by destruct (_ <=? _)%nat).
  apply normalize_holds; [|simpl; lia|done|simpl; lia].
  intros E. simpl in E. rewrite E in Hl. destruct xs; [done|]. simpl in Hl. lia.
Qed.

Lemma refint_sub_holds xs ys :
  canonical xs -> (length xs <= word_cnt)%nat -> canonical ys -> (length ys <= word_cnt)%nat ->
  holds word_cnt (refint_sub xs ys) (value xs - value ys).
Proof.
  intros Hx Hlx Hy Hly. unfold refint_sub, sub_any.
  rewrite !canonical_valid by done.
  rewrite (proj2 (Nat.ltb_ge word_cnt (length ys))) by done.
  destruct Hx as (Hnx & Hx & _), Hy as (Hny & Hy & _).
  destruct (zip_digits_value (-1) (fun x y => w64 (x - y)) (fun y => w64 (- y)) xs ys)
    as (Hv & Hb & Hl); [lia|bigint_words|bigint_words|done|done|].
  set (z := zip_digits _ _ xs ys) in *.
  replace (if (_ <=? _)%nat then _ else _) with (true, z) by (by destruct (_ <=? _)%nat).
  apply normalize_holds; [|simpl; lia|done|simpl; lia].
  intros E. simpl in E. rewrite E in Hl. destruct xs; [done|]. simpl in Hl. lia.
Qed.

Lemma negate_any_value ds : normal ds ->
  value (negate_any ds) = - value ds /\ word_bound (2 ^ 62) (negate_any ds).
Proof.
  induction ds as [|d ds IH]; [by repeat constructor|].
  intros [Hd [Hv Hb]%IH]%normal_cons. cbn [negate_any map value] in *.
  rewrite w64_id by (consts; lia). fold (negate_any ds). split; [lia|].
  constructor; [consts; lia|done].
Qed.

Lemma refint_neg_holds xs :
  canonical xs -> (length xs <= word_cnt)%nat -> holds word_cnt (refint_neg xs) (- value xs).
Proof.
  intros (Hne & Hn & _) Hl. destruct (negate_any_value xs Hn).
  apply normalize_holds; [by destruct xs|by unfold negate_any; rewrite length_map|done|done].
Qed.

(** addition, subtraction and negation of 257-bit integers are exact: from
    normalised operands the digits computed are the canonical digits of the exact
    result, or the invalid number exactly when the result needs more than five
    digits. *)
Theorem refint_ring_exact xs ys :
  canonical xs -> (length xs <= word_cnt)%nat -> canonical ys -> (length ys <= word_cnt)%nat ->
  holds word_cnt (refint_add xs ys) (value xs + value ys) /\
  holds word_cnt (refint_sub xs ys) (value xs - value ys) /\
  holds word_cnt (refint_neg xs) (- value xs).
Proof. intros. split_and!; [by apply refint_add_holds|by apply refint_sub_holds|by apply refint_neg_holds]. Qed.

Lemma refint_ring_exact_witness :
  canonical [-Half; 3] /\ value (refint_add [-Half; 3] [Half - 1]) = value [-Half; 3] + value [Half - 1] .
Proof.
  assert (canonical [-Half; 3]) as Hx.
  { split_and!; [done| |by right]. repeat constructor; rewrite Half_val; lia. }
  assert (canonical [Half - 1]) as Hy.
  { split_and!; [done| |by left]. repeat constructor; rewrite Half_val; lia. }
  split; [done|].
  destruct (refint_ring_exact [-Half; 3] [Half - 1] Hx ltac:(cbv; lia) Hy ltac:(cbv; lia))
    as [[(_ & _ & H)|[H _]] _]; [exact H|vm_compute in H; discriminate].
Defined.

(** *** Comparison *)

(** Digits of the same length compare like the numbers. *)
Lemma cmp_digits_spec xs ys :
  length xs = length ys -> normal xs -> normal ys ->
  cmp_digits xs ys = Z.sgn (value xs - value ys).
Proof.
  revert ys. induction xs as [|x xs IH]; intros [|y ys] Hlen Hx Hy; try done.
  apply normal_cons in Hx as [Hx Hxs]. apply normal_cons in Hy as [Hy Hys].
  cbn [cmp_digits value]. rewrite (IH ys) by (simpl in *; auto).
  destruct (Z.eqb_spec (Z.sgn (value xs - value ys)) 0) as [E|E].
  - apply Z.sgn_null_iff in E.
    replace (x + Base * value xs - (y + Base * value ys)) with (x - y) by nia.
    destruct (Z.ltb_spec x y); [rewrite Z.sgn_neg; lia|].
    destruct (Z.ltb_spec y x); [rewrite Z.sgn_pos; lia|].
    rewrite Z.sgn_null; lia.
  - destruct (Z.lt_trichotomy (value xs - value ys) 0) as [C|[C|C]].
    + rewrite !Z.sgn_neg; [done|consts; nia|done].
    + by rewrite C in E.
    + rewrite !Z.sgn_pos; [done|consts; nia|done].
Qed.

(** A canonical number with more digits dominates a normal one. *)
Lemma value_longer xs ys :
  canonical xs -> normal ys -> ys <> [] -> (length ys < length xs)%nat ->
  Z.sgn (value xs - value ys) = if top_word xs <? 0 then -1 else 1.
Proof.
  intros (Hne & Hn & Ht) Hy Hny Hl.
  assert (top_word xs <> 0) as Ht'.
  { destruct Ht as [Ht|Ht]; [|done]. destruct ys; [done|]. simpl in *. lia. }
  set (zs := ys ++ replicate (length xs - 1 - length ys) 0).
  assert (length zs = (length xs - 1)%nat) as Hlz.
  { unfold zs. rewrite length_app, length_replicate. lia. }
  pose proof (value_close (removelast xs) zs) as C.
  rewrite length_removelast', Hlz in C.
  specialize (C eq_refl (normal_removelast _ Hn)
    ltac:(apply normal_app; auto with bigint)).
  rewrite (value_top xs Hne). unfold zs in C. rewrite value_pad in C.
  pose proof (Base_pow_pos (length xs - 1)).
  destruct (Z.ltb_spec (top_word xs) 0); [rewrite Z.sgn_neg|rewrite Z.sgn_pos]; nia.
Qed.

Lemma cmp_any_correct xs ys :
  canonical xs -> canonical ys -> cmp_any xs ys = Z.sgn (value xs - value ys).
Proof.
  intros Hx Hy. unfold cmp_any.
  destruct (Nat.ltb_spec (length ys) (length xs)).
  { symmetry. apply value_longer; [done|apply Hy|apply Hy|done]. }
  destruct (Nat.ltb_spec (length xs) (length ys)).
  { pose proof (value_longer ys xs Hy ltac:(apply Hx) ltac:(apply Hx) ltac:(done)) as L.
    replace (value xs - value ys) with (- (value ys - value xs)) by lia.
    rewrite Z.sgn_opp, L. destruct (Z.ltb_spec (top_word ys) 0), (Z.ltb_spec 0 (top_word ys)); try lia.
    assert (top_word ys = 0) as E by lia.
    destruct Hy as (_ & _ & [Hy|Hy]); [|done]. destruct Hx as [Hx _]. destruct xs; [done|]. simpl in *. lia. }
  apply cmp_digits_spec; [lia|apply Hx|apply Hy].
Qed.

Lemma canonical_word y : - 2 ^ 63 <= y < 2 ^ 63 -> ~ (- Half <= y < Half) ->
  exists d0 d1, canonical [d0; d1] /\ value [d0; d1] = y.
Proof.
  intros Hy Ho. exists ((y + Half) mod Base - Half), ((y + Half) / Base).
  split; [split_and!; [done| |right; unfold top_word; simpl]|].
  - repeat constructor; clear Ho; consts; div_lia.
  - consts. div_lia.
  - cbn [value]. clear Ho. consts. div_lia.
Qed.

(** Comparison with a word that needs two digits. *)
Lemma cmp_two_words d0 d1 y :
  - Half <= d0 < Half -> - Half <= d1 < Half -> - 2 ^ 63 <= y < 2 ^ 63 ->
  let x0 := Z.land d0 (Base - 1) in let y0 := Z.land y (Base - 1) in
  let x1 := w64 (d1 + Z.shiftr d0 word_shift) in let y1 := Z.shiftr y word_shift in
  (if x1 <? y1 then -1 else if y1 <? x1 then 1
   else if x0 <? y0 then -1 else if y0 <? x0 then 1 else 0) = Z.sgn (d0 + Base * d1 - y).
Proof.
  intros H0 H1 Hy. cbv zeta. rewrite !land_base, !shiftr_base.
  assert (-1 <= d0 / Base <= 0) by (consts; div_lia).
  rewrite w64_id by (consts; lia).
  pose proof (Z.div_mod d0 Base ltac:(by rewrite Base_val)) as D0.
  pose proof (Z.div_mod y Base ltac:(by rewrite Base_val)) as D1.
  pose proof (Z.mod_pos_bound d0 Base ltac:(by rewrite Base_val)) as M0.
  pose proof (Z.mod_pos_bound y Base ltac:(by rewrite Base_val)) as M1.
  replace (d0 + Base * d1 - y) with
    (Base * (d1 + d0 / Base - y / Base) + (d0 mod Base - y mod Base)) by lia.
  repeat case_match; repeat match goal with
    | H : (_ <? _) = true |- _ => apply Z.ltb_lt in H
    | H : (_ <? _) = false |- _ => apply Z.ltb_ge in H end;
    symmetry; (apply Z.sgn_neg + apply Z.sgn_pos + apply Z.sgn_null_iff); consts; nia.
Qed.

Lemma cmp_any_word_correct xs y :
  canonical xs -> - 2 ^ 63 <= y < 2 ^ 63 -> cmp_any_word xs y = Z.sgn (value xs - y).
Proof.
  intros Hx Hy. pose proof Hx as (Hne & Hn & Ht).
  assert (- Half <= y < Half -> (2 <= length xs)%nat ->
          (if top_word xs <? 0 then -1 else 1) = Z.sgn (value xs - y)) as Hsmall.
  { intros Hs Hl. rewrite <- (value_longer xs [y]); [|done|by apply normal_single|done|simpl; lia].
    f_equal. simpl. lia. }
  destruct xs as [|d0 [|d1 xs]]; [done|..].
  - cbn [cmp_any_word value]. replace (d0 + Base * 0) with d0 by lia.
    destruct (Z.ltb_spec d0 y); [by rewrite Z.sgn_neg by lia|].
    destruct (Z.ltb_spec y d0); [by rewrite Z.sgn_pos by lia|].
    rewrite Z.sgn_null; lia.
  - destruct xs as [|d2 xs]; cbn [cmp_any_word].
    + destruct (Half <=? y) eqn:E1, (y <? - Half) eqn:E2; cbn [orb];
        try (apply Hsmall; simpl; lia);
        (apply normal_cons in Hn as [H0 [H1 _]%normal_cons];
         rewrite cmp_two_words by done; cbn [value]; f_equal; lia).
    + destruct (decide (- Half <= y < Half)) as [Hs|Hs]; [apply Hsmall; simpl; lia|].
      destruct (canonical_word y Hy Hs) as (e0 & e1 & (He & Hen & _) & <-).
      symmetry. apply value_longer; [done|done|done|simpl; lia].
Qed.

Lemma sgn_correct xs : canonical xs -> sgn xs = Z.sgn (value xs).
Proof.
  intros (Hne & Hn & Ht). unfold sgn, is_valid. rewrite bool_decide_eq_true_2 by done.
  destruct (value_sign xs Hne Hn) as [Hp Hm].
  destruct (Z.ltb_spec 0 (top_word xs)); [rewrite Z.sgn_pos; auto|].
  destruct (Z.ltb_spec (top_word xs) 0); [rewrite Z.sgn_neg; auto|].
  destruct Ht as [Ht|Ht]; [|lia]. destruct xs as [|x [|]]; try done.
  unfold top_word in *. simpl in *. rewrite Z.sgn_null; lia.
Qed.

(** Canonical digits are unique. *)
Lemma canonical_inj xs ys :
  canonical xs -> canonical ys -> value xs = value ys -> xs = ys.
Proof.
  intros Hx Hy E. pose proof (cmp_any_correct xs ys Hx Hy) as C.
  rewrite E, Z.sub_diag in C. unfold cmp_any in C.
  destruct (Nat.ltb_spec (length ys) (length xs)); [by case_match|].
  destruct (Nat.ltb_spec (length xs) (length ys)); [by case_match|].
  assert (length xs = length ys) as Hl by lia. clear -C Hl.
  revert ys Hl C. induction xs as [|x xs IH]; intros [|y ys] Hl C; try done.
  cbn [cmp_digits] in C. destruct (Z.eqb_spec (cmp_digits xs ys) 0) as [E|E]; [|done].
  rewrite (IH ys) by (simpl in *; auto). f_equal.
  destruct (Z.ltb_spec x y), (Z.ltb_spec y x); lia.
Qed.

(** On normalised numbers the digit-wise comparisons agree with the integers:
    [cmp] with another number and with a 64-bit word, [sgn], and [==]. *)
Theorem cmp_sgn_eq_correct xs ys w :
  canonical xs -> canonical ys -> - 2 ^ 63 <= w < 2 ^ 63 ->
  cmp_any xs ys = Z.sgn (value xs - value ys) /\
  cmp_any_word xs w = Z.sgn (value xs - w) /\
  sgn xs = Z.sgn (value xs) /\
  (eq_any xs ys = true <-> value xs = value ys).
Proof.
  intros Hx Hy Hw. split_and!; [by apply cmp_any_correct|by apply cmp_any_word_correct|by apply sgn_correct|].
  unfold eq_any. rewrite andb_true_iff, !bool_decide_eq_true.
  split; [by intros [_ ->]|]. intros E. by rewrite (canonical_inj xs ys).
Qed.

Lemma cmp_sgn_eq_correct_witness :
  cmp_any [5; -2] [-Half] = Z.sgn (value [5; -2] - value [-Half]) /\
  cmp_any_word [5; -2] (- 2 ^ 54) = 1.
Proof.
  assert (canonical [5; -2]) as Hx.
  { split_and!; [done| |by right]. repeat constructor; rewrite Half_val; lia. }
  assert (canonical [-Half]) as Hy.
  { split_and!; [done| |by left]. repeat constructor; rewrite Half_val; lia. }
  destruct (cmp_sgn_eq_correct [5; -2] [-Half] (- 2 ^ 54) Hx Hy ltac:(lia)) as (A & B & _).
  split; [exact A|]. rewrite B. reflexivity.
Defined.

(** *** Conversion to [long long] *)

Lemma to_long_loop_spec mids top w :
  - 2 ^ 60 <= w <= 2 ^ 60 -> normal mids ->
  (to_long_loop w mids = Some top <-> w = value (mids ++ [top])).
Proof.
  revert w. induction mids as [|d mids IH]; intros w Hw Hn.
  { cbn [to_long_loop app value]. split; [intros [= ->]; lia|intros ->; f_equal; lia]. }
  apply normal_cons in Hn as [Hd Hn]. cbn [to_long_loop app value].
  rewrite w64_id by (consts; lia). rewrite land_base, shiftr_base.
  pose proof (Z.div_mod (w - d) Base ltac:(by rewrite Base_val)) as D.
  destruct (Z.eqb_spec ((w - d) mod Base) 0) as [E|E].
  - rewrite IH; [|clear IH D E; consts; div_lia|done]. split; [lia|].
    intros ->. replace (d + Base * value (mids ++ [top]) - d)
      with (value (mids ++ [top]) * Base) by lia.
    by rewrite Z.div_mul by (by rewrite Base_val).
  - split; [done|]. intros ->. destruct E.
    replace (d + Base * value (mids ++ [top]) - d)
      with (value (mids ++ [top]) * Base) by lia. apply Z_mod_mult.
Qed.

(** The first guess of [to_long_any] is the value modulo [2^64]. *)
Lemma to_long_guess d0 d1 ds :
  exists k, w64 (wrap_u 64 d0 + Z.shiftl (wrap_u 64 d1) word_shift)
            = value (d0 :: d1 :: ds) + k * 2 ^ 64.
Proof.
  unfold w64, wrap_u.
  destruct (wrap_s_congr 64 (d0 mod 2 ^ 64 + Z.shiftl (d1 mod 2 ^ 64) word_shift)) as [k ->]; [lia|].
  rewrite Z.shiftl_mul_pow2 by done. change (2 ^ word_shift) with (2 ^ 52).
  pose proof (Z.div_mod d0 (2 ^ 64) ltac:(done)). pose proof (Z.div_mod d1 (2 ^ 64) ltac:(done)).
  exists (k - d0 / 2 ^ 64 - d1 / 2 ^ 64 * 2 ^ 52 - 2 ^ 40 * value ds).
  cbn [value]. rewrite Base_val. lia.
Qed.

(** The quotient that the middle loop starts from. *)
Lemma to_long_start v d0 :
  - Half <= d0 < Half -> - 2 ^ 63 <= v < 2 ^ 63 -> (v - d0) mod Base = 0 ->
  let w := w64 (Z.shiftr (w64 (Z.land v (Base - 1) - d0)) word_shift + Z.shiftr v word_shift) in
  v = d0 + Base * w /\ - 2 ^ 60 <= w <= 2 ^ 60.
Proof.
  intros H0 Hv Hm. cbv zeta. rewrite land_base, !shiftr_base.
  pose proof (Z.mod_pos_bound v Base ltac:(by rewrite Base_val)).
  rewrite (w64_id (v mod Base - d0)) by (consts; lia).
  pose proof (Z.div_mod v Base ltac:(by rewrite Base_val)) as D.
  assert ((v mod Base - d0) mod Base = 0) as M by (by rewrite Zminus_mod_idemp_l).
  pose proof (Z.div_mod (v mod Base - d0) Base ltac:(by rewrite Base_val)) as D'.
  set (a := v / Base) in *. set (b := (v mod Base - d0) / Base) in *.
  assert (-2 ^ 12 <= a <= 2 ^ 12) by (consts; lia). assert (-2 <= b <= 2) by (consts; lia).
  rewrite w64_id by lia. split; lia.
Qed.

Lemma to_long_any_correct ds :
  canonical ds \/ ds = [] ->
  to_long_any ds =
    if is_valid ds && fits_s 64 (value ds) then value ds else long_nan.
Proof.
  intros [(Hne & Hn & Ht)| ->]; [|done]. unfold is_valid.
  rewrite bool_decide_eq_true_2 by done. cbn [andb].
  destruct ds as [|d0 [|d1 ds]]; [done|..].
  { apply normal_cons in Hn as [H0 _]. cbn [to_long_any value].
    replace (d0 + Base * 0) with d0 by lia.
    by rewrite (proj2 (fits_s_spec 64 d0)) by (consts; simpl; lia). }
  unfold to_long_any. destruct (to_long_guess d0 d1 ds) as [k Hk].
  set (v := w64 (wrap_u 64 d0 + _)) in *.
  assert (- 2 ^ 63 <= v < 2 ^ 63) as Hv by (apply (wrap_s_range 64); lia).
  apply normal_cons in Hn as [H0 Hn].
  destruct (to_long_start v d0) as [Hs Hw]; [done|done| |].
  { rewrite Hk. cbn [value]. rewrite Base_val. div_lia. }
  set (w := w64 (Z.shiftr _ _ + _)) in *.
  assert (d1 :: ds = removelast (d1 :: ds) ++ [top_word (d1 :: ds)]) as Htl
    by (apply app_removelast_last; done).
  pose proof (fun t => to_long_loop_spec (removelast (d1 :: ds)) t w Hw (normal_removelast _ Hn)) as L.
  cbn [tail]. change (top_word (d0 :: d1 :: ds)) with (top_word (d1 :: ds)).
  destruct (fits_s 64 (value (d0 :: d1 :: ds))) eqn:Hf.
  - apply fits_s_spec in Hf.
    assert (v = value (d0 :: d1 :: ds)) as E.
    { change (64 - 1) with 63 in Hf. assert (k = 0) by lia. subst k. lia. }
    rewrite (proj2 (L (top_word (d1 :: ds)))); [by rewrite Z.eqb_refl|].
    rewrite <- Htl. cbn [value] in *. consts. lia.
  - destruct (to_long_loop w _) as [t|] eqn:El; [|done].
    destruct (Z.eqb_spec t (top_word (d1 :: ds))) as [->|]; [|done].
    clear El. pose proof (proj1 (L _) eq_refl) as El. rewrite <- Htl in El.
    assert (v = value (d0 :: d1 :: ds)) as E by (cbn [value] in *; consts; lia).
    assert (fits_s 64 (value (d0 :: d1 :: ds)) = true) by (apply fits_s_spec; lia).
    congruence.
Qed.

Lemma to_long_any_value ds : canonical ds ->
  to_long_any ds = if fits_s 64 (value ds) then value ds else long_nan.
Proof.
  intros H. rewrite to_long_any_correct by auto. destruct H as [H _].
  unfold is_valid. by rewrite bool_decide_eq_true_2 by done.
Qed.

(** [to_long] of a normalised number is its value when it fits into 64
    signed bits and the error value [-2^63] otherwise (and for NaN). *)
Theorem to_long_correct ds :
  canonical ds \/ ds = [] ->
  to_long_any ds =
    if is_valid ds && fits_s 64 (value ds) then value ds else long_nan.
Proof. apply to_long_any_correct. Qed.

Lemma to_long_correct_witness :
  canonical [-1; -2048] /\ to_long_any [-1; -2048] = long_nan /\ to_long_any [0; -2048] = - 2 ^ 63.
Proof.
  assert (canonical [-1; -2048]) as Hx.
  { split_and!; [done| |by right]. repeat constructor; rewrite Half_val; lia. }
  split; [done|]. split; [|reflexivity].
  rewrite (to_long_correct [-1; -2048] (or_introl Hx)). reflexivity.
Defined.

(** *** Numbers that are not normalised *)

Lemma word_bound_value b ds : 0 <= b -> word_bound b ds ->
  - (b * (Base ^ Z.of_nat (length ds) - 1)) <= (Base - 1) * value ds <= b * (Base ^ Z.of_nat (length ds) - 1).
Proof.
  intros Hb. induction ds as [|d ds IH]; intros H; [simpl; lia|].
  apply Forall_cons_1 in H as [Hd H]. specialize (IH H).
  cbn [value length]. rewrite Base_pow_S. consts. nia.
Qed.

Lemma value_rev_cons w rest :
  value (rev (w :: rest)) = value (rev rest) + Base ^ Z.of_nat (length rest) * w.
Proof. cbn [rev]. rewrite value_app, length_rev. cbn [value]. lia. Qed.

Lemma sgn_dominates u rest :
  word_bound (2 ^ 62) rest -> 2 ^ 11 <= u \/ u <= - 2 ^ 11 ->
  Z.sgn (u * Base ^ Z.of_nat (length rest) + value (rev rest)) = Z.sgn u.
Proof.
  intros Hb Hu. apply Forall_rev in Hb.
  pose proof (word_bound_value (2 ^ 62) (rev rest) ltac:(lia) Hb) as B.
  rewrite length_rev in B. pose proof (Base_pow_pos (length rest)) as P.
  destruct Hu as [Hu|Hu]; [rewrite !Z.sgn_pos|rewrite !Z.sgn_neg]; try lia; consts; nia.
Qed.

Lemma sgn_un_loop_spec v rest :
  - 2 ^ 11 < v < 2 ^ 11 -> word_bound (2 ^ 62) rest ->
  sgn_un_loop v rest = Z.sgn (v * Base ^ Z.of_nat (length rest) + value (rev rest)).
Proof.
  revert v. induction rest as [|w rest IH]; intros v Hv Hb.
  { cbn [sgn_un_loop length rev value]. change (Z.of_nat 0) with 0. rewrite Z.pow_0_r.
    destruct (Z.ltb_spec 0 v); [by rewrite Z.sgn_pos by lia|].
    destruct (Z.ltb_spec v 0); [by rewrite Z.sgn_neg by lia|]. by rewrite Z.sgn_null by lia. }
  apply Forall_cons_1 in Hb as [Hw Hb]. cbn [sgn_un_loop]. change MaxDenorm with (2 ^ 11).
  rewrite (w64_id (v * Base)) by (consts; lia).
  rewrite (w64_id (- (v * Base) + _)) by (consts; lia).
  rewrite (w64_id (- (v * Base) - _)) by (consts; lia).
  rewrite value_rev_cons. cbn [length]. rewrite Base_pow_S.
  replace (v * (Base * Base ^ Z.of_nat (length rest)) +
           (value (rev rest) + Base ^ Z.of_nat (length rest) * w))
    with ((v * Base + w) * Base ^ Z.of_nat (length rest) + value (rev rest)) by lia.
  destruct (Z.leb_spec (- (v * Base) + 2 ^ 11) w).
  { rewrite sgn_dominates by (done || lia). by rewrite Z.sgn_pos by lia. }
  destruct (Z.leb_spec w (- (v * Base) - 2 ^ 11)).
  { rewrite sgn_dominates by (done || lia). by rewrite Z.sgn_neg by lia. }
  rewrite w64_id by lia. apply IH; [lia|done].
Qed.

(** The sign of a number whose digits are not normalised (up to [2^62] each),
    as [mod_div] needs it for the partial remainder. *)
Theorem sgn_un_correct ds : word_bound (2 ^ 62) ds -> sgn_un_any ds = Z.sgn (value ds).
Proof.
  intros Hb. unfold sgn_un_any. rewrite <- (rev_involutive ds) at 2. apply Forall_rev in Hb.
  destruct (rev ds) as [|v rest]; [done|]. apply Forall_cons_1 in Hb as [Hv Hb].
  assert (value (rev (v :: rest)) = v * Base ^ Z.of_nat (length rest) + value (rev rest)) as ->.
  { rewrite value_rev_cons. lia. }
  change MaxDenorm with (2 ^ 11). destruct rest as [|w rest].
  { cbn [length rev value]. change (Z.of_nat 0) with 0. rewrite Z.pow_0_r.
    destruct (Z.ltb_spec 0 v); [by rewrite Z.sgn_pos by lia|].
    destruct (Z.ltb_spec v 0); [by rewrite Z.sgn_neg by lia|]. by rewrite Z.sgn_null by lia. }
  destruct (Z.leb_spec (2 ^ 11) v).
  { rewrite sgn_dominates by (done || lia). by rewrite Z.sgn_pos by lia. }
  destruct (Z.leb_spec v (- 2 ^ 11)).
  { rewrite sgn_dominates by (done || lia). by rewrite Z.sgn_neg by lia. }
  apply sgn_un_loop_spec; [lia|done].
Qed.

Lemma sgn_un_correct_witness :
  sgn_un_any [2 ^ 62; -5; 0] = Z.sgn (value [2 ^ 62; -5; 0]) /\ value [2 ^ 62; -5; 0] > 0.
Proof.
  split; [|vm_compute; reflexivity].
  apply (sgn_un_correct [2 ^ 62; -5; 0]). repeat constructor; lia.
Defined.

(** [cmp_un_any] is wrong when the left number has at least two more digits:
    the second test of its first loop ([w <= -v + MaxDenorm], where the two other
    loops have [- MaxDenorm]) fires whenever the first one does not, so a larger
    number can compare as smaller. *)
Theorem cmp_un_any_wrong :
  cmp_un_any (fun x => x) [5; 0; 0] [3] = -1 /\ value [5; 0; 0] > value [3] /\
  (forall x0 x1 x2 y0, - 2 ^ 11 < x2 < 2 ^ 11 -> - 2 ^ 62 <= x1 < - (x2 * Base) + 2 ^ 11 ->
     cmp_un_any (fun x => x) [x0; x1; x2] [y0] = -1).
Proof.
  split; [reflexivity|]. split; [by vm_compute|].
  intros x0 x1 x2 y0 H2 H1. unfold cmp_un_any. cbn [length Nat.compare rev app].
  change MaxDenorm with (2 ^ 11).
  rewrite (proj2 (Z.leb_gt (2 ^ 11) x2)), (proj2 (Z.leb_gt x2 (- 2 ^ 11))) by lia.
  cbn [Nat.sub cmp_un_xloop]. rewrite (w64_id (x2 * Base)) by (consts; lia).
  change MaxDenorm with (2 ^ 11). rewrite w64_id by (consts; lia).
  rewrite (proj2 (Z.leb_gt _ x1)) by lia. rewrite (proj2 (Z.leb_le x1 _)) by lia. done.
Qed.

Lemma cmp_un_any_wrong_witness : cmp_un_any (fun x => x) [7; 1; 0] [3] = -1.
Proof. apply cmp_un_any_wrong; rewrite ?Base_val; lia. Defined.
