(* ===== verification/Int256.v ===== *)
(** * Integers of the virtual machine: [td::RefInt256] (crypto/common/refint.cpp)

    The value level of the 257-bit integers.  [NaN] is the invalid [BigInt256];
    [Int z] a valid one.  An object has room for [n] digits ([5] for [BigInt256],
    [10] for its [DoubleInt]); a result that needs more becomes [NaN] ([norm]).
    The refinement theorems of this file link the value level to the digit level
    of [BigInt]: sum, difference, negation, comparison, sign, conversion and shifts.

    [mod_div] is not a translation of its digit loop [mod_div_any], which uses
    floating-point estimates; it is taken at the contract that the source states
    for the remainder (the three rounding modes).  The behaviour of every operation on [NaN] is the one of the
    code, including the places where shifts and logical operations turn a [NaN]
    into a number. *)
From S2P Require Import Prelude BigInt.

Inductive int256 : Type := NaN | Int (z : Z).
#[global] Instance int256_eq_dec : EqDecision int256.
Proof. solve_decision. Defined.

Definition is_valid256 (x : int256) : bool := match x with NaN => false | Int _ => true end.

(** The values with at most [n] normal digits: between [-Half * S] and
    [(Half - 1) * S], where [S = 1 + Base + ... + Base^(n-1)]. *)
Fixpoint ones_base (n : nat) : Z :=
  match n with O => 0 | S n' => 1 + Base * ones_base n' end.
Definition storage_ok (n : nat) (z : Z) : bool :=
  (- Half * ones_base n <=? z) && (z <=? (Half - 1) * ones_base n).
Definition norm (n : nat) (z : Z) : int256 := if storage_ok n z then Int z else NaN.

(** Digits of a normalised value ([size()]), up to [n + 1]. *)
Fixpoint size_from (k n : nat) (z : Z) : nat :=
  match n with
  | O => k
  | S n' => if storage_ok k z then k else size_from (S k) n' z
  end.
Definition size256 (n : nat) (z : Z) : nat := size_from 1 n z.

Definition lift2 (n : nat) (f : Z -> Z -> Z) (x y : int256) : int256 :=
  match x, y with Int a, Int b => norm n (f a b) | _, _ => NaN end.
Definition lift1 (n : nat) (f : Z -> Z) (x : int256) : int256 :=
  match x with Int a => norm n (f a) | NaN => NaN end.

(** [operator+], [operator-], unary [operator-], [operator~], [operator*]. *)
Definition int_add (n : nat) := lift2 n Z.add.
Definition int_sub (n : nat) := lift2 n Z.sub.
Definition int_neg (n : nat) := lift1 n Z.opp.
Definition int_not (n : nat) := lift1 n Z.lnot.
Definition int_mul (n : nat) := lift2 n Z.mul.
(** The overloads with a [long long] operand ([add_tiny], [mul_short_opt]). *)
Definition int_add_tiny (n : nat) (x : int256) (y : Z) := lift1 n (fun a => a + y) x.
Definition int_mul_short (n : nat) (x : int256) (y : Z) := lift1 n (fun a => a * y) x.

(** Rounded quotient: [round_mode] is [-1] (floor), [0] (nearest, ties up) or
    [1] (ceiling). *)
Definition round_div (rm x y : Z) : Z :=
  if rm <? 0 then x / y
  else if rm =? 0 then (2 * x + y) / (2 * y)
  else - (- x / y).

(** The contract of [x.mod_div(y, quot, round_mode)]: the pair (quotient, remainder).
    Its digit loop [mod_div_any] is not modelled. *)
Definition mod_div (n : nat) (x y : int256) (rm : Z) : int256 * int256 :=
  match x, y with
  | Int a, Int b =>
      if b =? 0 then (NaN, NaN)
      else let q := round_div rm a b in (norm n q, norm n (a - q * b))
  | _, _ => (NaN, NaN)
  end.

(** [log_op_any]: on a one-digit absorbing or neutral operand the other operand
    is not looked at, or copied, whether it is valid or not. *)
Definition log_op (n : nat) (f : Z -> Z -> Z) (zero : option Z) (neutral : Z)
    (x y : int256) : int256 :=
  let isc (c : option Z) (v : int256) := bool_decide (Int <$> c = Some v) in
  if isc zero x then x
  else if isc (Some neutral) x then y
  else if isc zero y then y
  else if isc (Some neutral) y then x
  else lift2 n f x y.
Definition int_and (n : nat) := log_op n Z.land (Some 0) (-1).
Definition int_or (n : nat) := log_op n Z.lor (Some (-1)) 0.
Definition int_xor (n : nat) := log_op n Z.lxor None 0.

(** [x << y]: [lshift_any], then [normalize].  The capacity test comes before the
    digits are looked at. *)
Definition int_lshift (n : nat) (x : int256) (y : Z) : int256 :=
  if y <? 0 then NaN
  else if y =? 0 then x
  else
    let q := Z.to_nat (y / word_shift) in
    match x with
    | NaN => if (n <? q)%nat then NaN else if (q =? 0)%nat then NaN else Int 0
    | Int a => if (n <? size256 n a + q)%nat then NaN else norm n (a * 2 ^ y)
    end.

(** [rshift(x, y, round_mode)]: on an invalid number the digit loops see no
    digits and produce a number.  [digits_refine_shifts] below proves this and
    [int_lshift] of the digit loops. *)
Definition int_rshift (n : nat) (x : int256) (y rm : Z) : int256 :=
  if y <? 0 then NaN
  else if y =? 0 then x
  else match x with
       | NaN =>
           if 64 - word_shift <? y then (if rm <? 0 then Int (-1) else Int 0) else Int 0
       | Int a => norm n (round_div rm a (2 ^ y))
       end.

(** [mod_pow2(e, round_mode)] for [e] below the capacity of the object. *)
Definition int_mod_pow2 (n : nat) (x : int256) (e rm : Z) : int256 :=
  match x with
  | NaN => NaN
  | Int a =>
      if e <=? 0 then Int 0
      else if rm <? 0 then norm n (a mod 2 ^ e)
      else if 0 <? rm then norm n (- ((- a) mod 2 ^ e))
      else if fits_s e a then Int a
      else let m := a mod 2 ^ e in norm n (if m <? 2 ^ (e - 1) then m else m - 2 ^ e)
  end.

Definition set_pow2 (n : nat) (e : Z) : int256 :=
  if (e <? 0) || (Z.of_nat n * word_shift <=? e) then NaN else Int (2 ^ e).

Definition signed_fits_bits (x : int256) (nbits : Z) : bool :=
  match x with
  | NaN => false
  | Int a => if a =? 0 then true else if nbits <=? 0 then false else fits_s nbits a
  end.
Definition unsigned_fits_bits (x : int256) (nbits : Z) : bool :=
  match x with
  | NaN => false
  | Int a =>
      if a <? 0 then false else if a =? 0 then true
      else if nbits <? 0 then false else a <? 2 ^ nbits
  end.

(** [bit_size(sgnd)]; [0x7fffffff] stands for "does not fit". *)
Definition bit_size (x : int256) (sgnd : bool) : Z :=
  match x with
  | NaN => 2 ^ 31 - 1
  | Int a =>
      if a =? 0 then 0
      else if 0 <? a then Z.log2 a + 1 + Z.b2z sgnd
      else if sgnd then (if a =? -1 then 1 else Z.log2 (- a - 1) + 2)
      else 2 ^ 31 - 1
  end.

Definition int_sgn (x : int256) : Z := match x with NaN => sgn_nan | Int a => Z.sgn a end.
(** [cmp] of two valid numbers. *)
Definition int_cmp (x y : int256) : Z :=
  match x, y with Int a, Int b => Z.sgn (a - b) | _, _ => 0 end.
Definition int_to_long (x : int256) : Z :=
  match x with NaN => long_nan | Int a => if fits_s 64 a then a else long_nan end.

(** [td::make_refint(tmp)] from a [DoubleInt]. *)
Definition to_int256 (x : int256) : int256 :=
  match x with NaN => NaN | Int a => norm word_cnt a end.

Definition dbl : nat := 10.

(** ** The storage bounds *)

Lemma value_storage ds : normal ds ->
  - Half * ones_base (length ds) <= value ds <= (Half - 1) * ones_base (length ds).
Proof.
  induction ds as [|d ds IH]; [simpl; lia|]. intros [Hd Hn]%normal_cons.
  specialize (IH Hn). cbn [value length ones_base]. consts. nia.
Qed.

Lemma ones_base_nonneg n : 0 <= ones_base n.
Proof. induction n as [|n IH]; cbn [ones_base]; [lia|]. consts. nia. Qed.

Lemma storage_digits n z : storage_ok n z = true -> exists ds, length ds = n /\ normal ds /\ value ds = z.
Proof.
  unfold storage_ok. rewrite andb_true_iff, !Z.leb_le. revert z.
  induction n as [|n IH]; intros z Hz; cbn [ones_base] in Hz.
  { exists []. split_and!; [done|constructor|simpl; lia]. }
  pose proof (ones_base_nonneg n).
  pose proof (Z.div_mod (z + Half) Base ltac:(by rewrite Base_val)) as D.
  pose proof (Z.mod_pos_bound (z + Half) Base ltac:(by rewrite Base_val)) as M.
  destruct (IH ((z + Half) / Base)) as (ds & Hl & Hn & Hv).
  { set (q := (z + Half) / Base) in *. set (r := (z + Half) mod Base) in *. consts. split; nia. }
  exists (((z + Half) mod Base - Half) :: ds). split_and!; [by simpl; rewrite Hl| |].
  - apply normal_cons. split; [consts; lia|done].
  - cbn [value]. rewrite Hv. lia.
Qed.

Lemma storage_mono n m z : (n <= m)%nat -> storage_ok n z = true -> storage_ok m z = true.
Proof.
  intros Hnm (ds & <- & Hn & <-)%storage_digits. unfold storage_ok.
  rewrite andb_true_iff, !Z.leb_le.
  pose proof (value_storage (ds ++ replicate (m - length ds) 0)) as V.
  rewrite value_pad, length_app, length_replicate in V.
  replace (length ds + (m - length ds))%nat with m in V by lia.
  apply V, normal_app. auto with bigint.
Qed.

Lemma representable_storage n z : representable n z <-> storage_ok n z = true.
Proof.
  split.
  - intros (ds & Hl & Hn & <-). apply (storage_mono (length ds)); [done|].
    unfold storage_ok. rewrite andb_true_iff, !Z.leb_le. by apply value_storage.
  - intros (ds & Hl & Hn & Hv)%storage_digits. exists ds. split_and!; [lia|done|done].
Qed.

(** Every value of the stack range has room in five digits. *)
Lemma storage_257 z : - 2 ^ 257 <= z <= 2 ^ 257 -> storage_ok word_cnt z = true.
Proof.
  intros H. unfold storage_ok. rewrite andb_true_iff, !Z.leb_le.
  assert (2 ^ 258 <= (Half - 1) * ones_base word_cnt) by (vm_compute; discriminate).
  assert (- Half * ones_base word_cnt <= - 2 ^ 258) by (vm_compute; discriminate). lia.
Qed.

(** ** Refinement of the digit level *)

(** The digits [ds] of a [BigInt256] stand for the integer [x]. *)
Definition rep (ds : list Z) (x : int256) : Prop :=
  match x with
  | NaN => ds = []
  | Int z => canonical ds /\ (length ds <= word_cnt)%nat /\ value ds = z
  end.

Lemma holds_norm ds v : holds word_cnt ds v -> rep ds (norm word_cnt v).
Proof.
  unfold holds, norm. intros [H|[-> H]].
  - rewrite (proj1 (representable_storage word_cnt v)); [done|].
    destruct H as ((_ & ? & _) & ? & ?). by exists ds.
  - rewrite representable_storage in H. by destruct (storage_ok word_cnt v).
Qed.

Lemma add_any_nan xs ys : xs = [] \/ ys = [] -> snd (add_any word_cnt xs ys) = [].
Proof. intros [-> | ->]; [by destruct ys|by destruct xs]. Qed.
Lemma sub_any_nan xs ys : xs = [] \/ ys = [] -> snd (sub_any word_cnt xs ys) = [].
Proof. intros [-> | ->]; [by destruct ys|by destruct xs]. Qed.

(** C40: the digit-level code of [BigInt256] implements the value level: sums,
    differences, negation, sign, comparison and [to_long] of represented numbers
    represent (or are) the results of the value-level operations, [NaN]
    included. *)
Theorem digits_refine_int256 xs ys x y :
  rep xs x -> rep ys y ->
  rep (refint_add xs ys) (int_add word_cnt x y) /\
  rep (refint_sub xs ys) (int_sub word_cnt x y) /\
  rep (refint_neg xs) (int_neg word_cnt x) /\
  sgn xs = int_sgn x /\
  to_long_any xs = int_to_long x /\
  (is_valid256 x = true -> is_valid256 y = true -> cmp_any xs ys = int_cmp x y).
Proof.
  intros Hx Hy.
  assert (rep (refint_neg xs) (int_neg word_cnt x) /\ sgn xs = int_sgn x /\
          to_long_any xs = int_to_long x) as (Hneg & Hsgn & Hlong).
  { destruct x as [|a]; [by rewrite Hx|]. destruct Hx as (Hc & Hl & <-). split_and!.
    - by apply holds_norm, refint_neg_holds.
    - by apply sgn_correct.
    - rewrite to_long_any_value by done. done. }
  split_and!; [..|done|done|done|].
  - unfold refint_add. destruct x as [|a]; [rewrite Hx, add_any_nan by auto; done|].
    destruct y as [|b]; [rewrite Hy, add_any_nan by auto; done|].
    destruct Hx as (? & ? & <-), Hy as (? & ? & <-). by apply holds_norm, refint_add_holds.
  - unfold refint_sub. destruct x as [|a]; [rewrite Hx, sub_any_nan by auto; done|].
    destruct y as [|b]; [rewrite Hy, sub_any_nan by auto; done|].
    destruct Hx as (? & ? & <-), Hy as (? & ? & <-). by apply holds_norm, refint_sub_holds.
  - destruct x, y; try done. intros _ _.
    destruct Hx as (? & ? & <-), Hy as (? & ? & <-). by apply cmp_any_correct.
Qed.

Lemma digits_refine_int256_witness :
  rep [-Half; 3] (Int (3 * Base - Half)) /\
  to_long_any [-Half; 3] = int_to_long (Int (3 * Base - Half)).
Proof.
  assert (rep [-Half; 3] (Int (3 * Base - Half))) as Hx.
  { split_and!; [split_and!; [done| |by right]|cbv; lia|by vm_compute].
    repeat constructor; rewrite Half_val; lia. }
  split; [done|].
  destruct (digits_refine_int256 [-Half; 3] [] (Int (3 * Base - Half)) NaN Hx eq_refl)
    as (_ & _ & _ & _ & H & _). exact H.
Defined.

(** ** Shifts of digits *)

Lemma Base_pow2 n : Base ^ Z.of_nat n = 2 ^ (word_shift * Z.of_nat n).
Proof. rewrite Z.pow_mul_r by (unfold word_shift; lia). done. Qed.
Lemma exponent_split e : 0 <= e ->
  2 ^ e = Base ^ Z.of_nat (Z.to_nat (e / word_shift)) * 2 ^ (e mod word_shift) /\ 0 <= e mod word_shift < 52.
Proof.
  intros He. pose proof (Z.mod_pos_bound e word_shift ltac:(done)) as Hm. change word_shift with 52 in Hm at 2.
  split; [|done]. rewrite Base_pow2, Z2Nat.id by (apply Z.div_pos; done).
  rewrite <- Z.pow_add_r; [|unfold word_shift in *; div_lia|lia].
  by rewrite <- Z.div_mod.
Qed.

(** Floor division in two steps, where the second step sees more digits. *)
Lemma div_two_steps a b x h : 0 < a -> 0 < b -> (x + a * h) / (a * b) = (x / a + h) / b.
Proof.
  intros Ha Hb. rewrite <- Z.div_div by lia. rewrite Z.mul_comm, Z.div_add by lia. done.
Qed.

Lemma rshift_carry_spec q : forall v ds,
  -1 <= v <= 1 -> (q <= length ds)%nat -> Forall (fun d => - Half <= d < Base) (take q ds) ->
  rshift_carry v q ds = (v + value (take q ds)) / Base ^ Z.of_nat q /\ -1 <= rshift_carry v q ds <= 1.
Proof.
  induction q as [|q IH]; intros v ds Hv Hq Hb.
  { cbn [rshift_carry take value]. change (Z.of_nat 0) with 0. rewrite Z.pow_0_r, Z.div_1_r. destruct ds; cbn; lia. }
  destruct ds as [|d ds]; [simpl in Hq; lia|]. cbn [take] in *. apply Forall_cons_1 in Hb as [Hd Hb].
  cbn [rshift_carry value length] in *. rewrite w64_id by (consts; lia). rewrite shiftr_base.
  assert (-1 <= (v + d) / Base <= 1) as Hc by (consts; div_lia).
  destruct (IH ((v + d) / Base) ds Hc ltac:(lia) Hb) as [-> Hr]. split; [|done].
  rewrite Base_pow_S. rewrite Z.add_assoc, div_two_steps; [done|by rewrite Base_val|auto with bigint].
Qed.

(** The digits above: the low [r] bits of each go to the digit below. *)
Lemma land_pow2 w r : 0 <= r < 52 -> Z.land w (w64 (Z.shiftl 1 r - 1)) = w mod 2 ^ r.
Proof.
  intros Hr. rewrite Z.shiftl_1_l. assert (0 < 2 ^ r < 2 ^ 52) by (split; [lia|apply Z.pow_lt_mono_r; lia]).
  rewrite w64_id by lia. rewrite <- Z.land_ones by lia. f_equal. rewrite Z.ones_equiv. lia.
Qed.
Lemma Base_split r : 0 <= r <= 52 -> Base = 2 ^ r * 2 ^ (52 - r).
Proof. intros Hr. rewrite <- Z.pow_add_r by lia. by replace (r + (52 - r)) with 52 by lia. Qed.

Lemma rshift_loop_spec r ds : forall v,
  0 < r < 52 -> - 2 ^ 60 <= v <= 2 ^ 60 -> normal ds ->
  value (rshift_loop r v ds) = v + 2 ^ (52 - r) * value ds /\ word_bound (2 ^ 62) (rshift_loop r v ds) /\
  length (rshift_loop r v ds) = S (length ds).
Proof.
  induction ds as [|w ds IH]; intros v Hr Hv Hn; cbn [rshift_loop].
  { split_and!; [cbn; lia| |done]. repeat constructor; lia. }
  apply normal_cons in Hn as [Hw Hn]. change (word_shift - r) with (52 - r). rewrite land_pow2 by lia.
  rewrite Z.shiftl_mul_pow2, Z.shiftr_div_pow2 by lia. pose proof (Base_split r ltac:(lia)) as HB.
  assert (0 < 2 ^ r) as Hp by lia. assert (0 < 2 ^ (52 - r)) as Hp' by lia.
  pose proof (Z.mod_pos_bound w (2 ^ r) Hp) as Hm. pose proof (Z.div_mod w (2 ^ r) ltac:(lia)) as Hd.
  assert (- 2 ^ 60 <= w / 2 ^ r <= 2 ^ 60) as Hq by (rewrite Half_val in Hw; nia).
  destruct (IH (w / 2 ^ r) Hr Hq Hn) as (IHv & IHb & IHl). set (l := rshift_loop r _ ds) in *. clearbody l.
  assert (0 <= (w mod 2 ^ r) * 2 ^ (52 - r) < Base) as Hlow by (rewrite HB; nia).
  rewrite (w64_id ((w mod 2 ^ r) * _)) by (rewrite Base_val in Hlow; lia).
  rewrite w64_id by (rewrite Base_val in Hlow; lia).
  split_and!; [|constructor; [rewrite Base_val in Hlow; lia|done]|cbn; lia].
  cbn [value]. rewrite IHv, HB. rewrite Hd at 3. ring.
Qed.

(** A word shifted right with rounding. *)
Lemma rshift_word_spec v r rm :
  0 <= r < 52 -> (rm = 0 -> 0 < r) -> - 2 ^ 60 <= v <= 2 ^ 60 ->
  rshift_word v r rm = (if rm =? 0 then (v + 2 ^ (r - 1)) / 2 ^ r else v / 2 ^ r + Z.b2z (0 <? rm)) /\
  - 2 ^ 60 <= rshift_word v r rm <= 2 ^ 60 + 1.
Proof.
  intros Hr Hrm Hv. unfold rshift_word. destruct (Z.eqb_spec rm 0) as [E|E].
  - specialize (Hrm E). assert (0 < 2 ^ (r - 1)) as Hp by lia.
    assert (2 ^ r = 2 ^ (r - 1) * 2) as H2 by (rewrite Z.mul_comm, <- Z.pow_succ_r by lia; f_equal; lia).
    rewrite !Z.shiftr_div_pow2 by lia. assert (- 2 ^ 60 <= v / 2 ^ (r - 1) <= 2 ^ 60) as Hq.
    { pose proof (Z.div_mod v (2 ^ (r - 1)) ltac:(lia)). pose proof (Z.mod_pos_bound v (2 ^ (r - 1)) Hp). nia. }
    rewrite w64_id by lia. change (2 ^ 1) with 2. rewrite H2. split; [|div_lia].
    rewrite <- (Z.mul_1_r (2 ^ (r - 1))) at 2. by rewrite div_two_steps by lia.
  - rewrite Z.shiftr_div_pow2 by lia. assert (0 < 2 ^ r) as Hp by lia.
    assert (- 2 ^ 60 <= v / 2 ^ r <= 2 ^ 60) as Hq.
    { pose proof (Z.div_mod v (2 ^ r) ltac:(lia)). pose proof (Z.mod_pos_bound v (2 ^ r) Hp). nia. }
    destruct (0 <? rm); cbn [Z.b2z]; rewrite w64_id by lia; lia.
Qed.

(** What a right shift by [e] gives. *)
Definition shift_round (rm x e : Z) : Z :=
  if rm =? 0 then (x + 2 ^ (e - 1)) / 2 ^ e else (x - Z.b2z (0 <? rm)) / 2 ^ e + Z.b2z (0 <? rm).
Lemma round_div_shift rm x e : 0 < e -> round_div rm x (2 ^ e) = shift_round rm x e.
Proof.
  intros He. unfold round_div, shift_round. assert (0 < 2 ^ (e - 1)) as Hp by lia.
  assert (2 ^ e = 2 * 2 ^ (e - 1)) as H2 by (rewrite <- Z.pow_succ_r by lia; f_equal; lia).
  set (h := 2 ^ (e - 1)) in *. clearbody h. rewrite H2.
  destruct (Z.ltb_spec rm 0); [rewrite (proj2 (Z.eqb_neq rm 0)), (proj2 (Z.ltb_ge 0 rm)) by lia|].
  { cbn [Z.b2z]. by rewrite Z.sub_0_r, Z.add_0_r. }
  destruct (Z.eqb_spec rm 0) as [->|].
  - replace (2 * x + 2 * h) with (2 * (x + h)) by lia. rewrite Z.div_mul_cancel_l by lia. done.
  - rewrite (proj2 (Z.ltb_lt 0 rm)) by lia. cbn [Z.b2z].
    pose proof (Z.div_mod (- x) (2 * h) ltac:(lia)). pose proof (Z.mod_pos_bound (- x) (2 * h) ltac:(lia)).
    pose proof (Z.div_mod (x - 1) (2 * h) ltac:(lia)). pose proof (Z.mod_pos_bound (x - 1) (2 * h) ltac:(lia)). nia.
Qed.

Lemma value_split q ds : (q <= length ds)%nat ->
  value ds = value (take q ds) + Base ^ Z.of_nat q * value (drop q ds).
Proof.
  intros Hq. rewrite <- (take_drop q ds) at 1. rewrite value_app, length_take. by rewrite Nat.min_l.
Qed.

(** The digits that [rshift_any] leaves for [exponent = 52 q + r]. *)
Definition rshift_digits (q : nat) (r rm : Z) (ds : list Z) : list Z :=
  let v := rshift_carry (if 0 <? rm then -1 else 0) q ds in
  match drop q ds with
  | [] => [rshift_word v r rm]
  | d :: rest =>
      if r =? 0 then w64 (d + w64 (v + Z.b2z (0 <? rm))) :: rest
      else rshift_loop r (rshift_word (w64 (v + d)) r rm) rest
  end.

Lemma rshift_digits_spec q r rm ds e :
  2 ^ e = Base ^ Z.of_nat q * 2 ^ r -> 0 < e -> 0 <= r < 52 -> (rm = 0 -> 0 < r) -> (q <= length ds)%nat ->
  Forall (fun d => - Half <= d < Base) (take q ds) -> normal (drop q ds) ->
  let l := rshift_digits q r rm ds in
  value l = shift_round rm (value ds) e /\ word_bound (2 ^ 62) l /\ l <> [] /\ (length l <= Nat.max 1 (length ds))%nat.
Proof.
  intros He He0 Hr Hrm Hq Hlow Hhigh. cbv zeta. unfold rshift_digits.
  set (up := Z.b2z (0 <? rm)). replace (if 0 <? rm then -1 else 0) with (- up) by (unfold up; by destruct (0 <? rm)).
  assert (0 <= up <= 1 /\ (rm = 0 -> up = 0)) as [Hup Hup0].
  { unfold up. destruct (Z.ltb_spec 0 rm); cbn [Z.b2z]; lia. }
  destruct (rshift_carry_spec q (- up) ds ltac:(lia) Hq Hlow) as [Ev Hv].
  set (v := rshift_carry _ _ _) in *. clearbody v. rewrite (value_split q ds Hq).
  pose proof (Base_pow_pos q) as HBq. assert (0 < 2 ^ r) as Hp by lia.
  assert (length (drop q ds) <= length ds)%nat as Hld by (rewrite length_drop; lia).
  assert (forall h, (if rm =? 0 then (v + h + 2 ^ (r - 1)) / 2 ^ r else (v + h) / 2 ^ r + up)
    = shift_round rm (value (take q ds) + Base ^ Z.of_nat q * h) e) as Hsr.
  { intros h. unfold shift_round. fold up. rewrite He. destruct (Z.eqb_spec rm 0) as [E|E].
    - specialize (Hup0 E). specialize (Hrm E). replace (2 ^ (e - 1)) with (Base ^ Z.of_nat q * 2 ^ (r - 1)).
      { replace (value (take q ds) + Base ^ Z.of_nat q * h + Base ^ Z.of_nat q * 2 ^ (r - 1))
          with (value (take q ds) + Base ^ Z.of_nat q * (h + 2 ^ (r - 1))) by ring.
        rewrite div_two_steps, Ev, Hup0 by lia. f_equal. rewrite Z.add_0_l. lia. }
      assert (2 ^ e = 2 * 2 ^ (e - 1)) by (rewrite <- Z.pow_succ_r by lia; f_equal; lia).
      assert (2 ^ r = 2 * 2 ^ (r - 1)) by (rewrite <- Z.pow_succ_r by lia; f_equal; lia). nia.
    - rewrite Ev, <- div_two_steps by lia. do 2 f_equal. lia. }
  destruct (drop q ds) as [|d rest] eqn:Ed.
  - destruct (rshift_word_spec v r rm Hr Hrm ltac:(lia)) as [Ew Hw]. split_and!; [|repeat constructor; lia|done|cbn; lia].
    cbn [value]. rewrite Z.mul_0_r, Z.add_0_r, Ew. rewrite <- (Hsr 0). by rewrite !Z.add_0_r.
  - apply normal_cons in Hhigh as [Hd Hrest]. rewrite <- Hsr. destruct (Z.eqb_spec r 0) as [E0|E0].
    + assert (rm <> 0) as E by lia. rewrite (proj2 (Z.eqb_neq rm 0)) by done. subst r.
      rewrite (w64_id (v + up)), w64_id by (consts; lia). change (2 ^ 0) with 1. rewrite Z.div_1_r.
      split_and!; [cbn [value]; lia| |done|cbn in *; lia].
      constructor; [consts; lia|by apply normal_word_bound].
    + rewrite w64_id by (consts; lia).
      destruct (rshift_word_spec (v + d) r rm Hr Hrm ltac:(consts; lia)) as [Ew Hw].
      assert (- 2 ^ 60 <= rshift_word (v + d) r rm <= 2 ^ 60) as Hw'.
      { rewrite Ew. assert (- 2 ^ 53 <= v + d <= 2 ^ 53) by (consts; lia). assert (2 ^ (r - 1) <= 2 ^ 52) by (apply Z.pow_le_mono_r; lia).
        assert (0 <= 2 ^ (r - 1)) by lia.
        destruct (rm =? 0).
        - pose proof (Z.div_mod (v + d + 2 ^ (r - 1)) (2 ^ r) ltac:(lia)). pose proof (Z.mod_pos_bound (v + d + 2 ^ (r - 1)) (2 ^ r) Hp). nia.
        - pose proof (Z.div_mod (v + d) (2 ^ r) ltac:(lia)). pose proof (Z.mod_pos_bound (v + d) (2 ^ r) Hp). nia. }
      destruct (rshift_loop_spec r rest (rshift_word (v + d) r rm) ltac:(lia) Hw' Hrest) as (El & Hb & Hl).
      split_and!; [|done|by destruct rest|cbn in *; lia].
      rewrite El, Ew. cbn [value]. rewrite (Base_split r) by lia.
      replace (v + (d + 2 ^ r * 2 ^ (52 - r) * value rest)) with (v + d + 2 ^ (52 - r) * value rest * 2 ^ r) by ring.
      destruct (rm =? 0); [|by rewrite Z.div_add by lia; lia].
      replace (v + d + 2 ^ (52 - r) * value rest * 2 ^ r + 2 ^ (r - 1)) with (v + d + 2 ^ (r - 1) + 2 ^ (52 - r) * value rest * 2 ^ r) by ring.
      by rewrite Z.div_add by lia.
Qed.

(** Half a unit, added to the digit below the new lowest one. *)
Lemma add_half_spec i ds : (i < length ds)%nat -> normal ds ->
  let ds' := alter (fun d => w64 (d + Half)) i ds in
  value ds' = value ds + Half * Base ^ Z.of_nat i /\ Forall (fun d => - Half <= d < Base) (take (S i) ds') /\
  drop (S i) ds' = drop (S i) ds /\ length ds' = length ds.
Proof.
  cbv zeta. revert i. induction ds as [|d ds IH]; intros i Hi Hn; [cbn in Hi; lia|].
  apply normal_cons in Hn as [Hd Hn]. rewrite length_alter. destruct i as [|i].
  - cbn. change (Z.of_nat 0) with 0. rewrite Z.pow_0_r, w64_id by (consts; lia).
    split_and!; [lia| |done|done]. repeat constructor; consts; lia.
  - destruct (IH i ltac:(cbn in Hi; lia) Hn) as (Ev & Hf & Ed & _). cbn [alter list_alter] in *.
    change (list_alter (fun d => w64 (d + Half)) i ds) with (alter (fun d => w64 (d + Half)) i ds) in *.
    cbn [value]. rewrite Ev, Base_pow_S. split_and!; [ring| |exact Ed|done].
    cbn [take]. constructor; [consts; lia|exact Hf].
Qed.

Lemma value_small ds : normal ds -> - 2 ^ (52 * Z.of_nat (length ds)) < value ds < 2 ^ (52 * Z.of_nat (length ds)).
Proof. intros Hn. pose proof (value_bound ds Hn) as B. rewrite Base_pow2 in B. change word_shift with 52 in B. lia. Qed.

Lemma normal_loose ds : normal ds -> Forall (fun d => - Half <= d < Base) ds.
Proof. apply Forall_impl. intros d. consts. lia. Qed.

(** A shift by more than the size leaves the sign or nothing. *)
Lemma shift_round_big x e rm : 0 < e -> - 2 ^ (e - 1) < x < 2 ^ (e - 1) ->
  (if rm =? 0 then 0
   else if rm <? 0 then (if Z.sgn x <? 0 then -1 else 0)
   else (if 0 <? Z.sgn x then 1 else 0)) = shift_round rm x e.
Proof.
  intros He Hx. unfold shift_round.
  assert (2 ^ e = 2 * 2 ^ (e - 1)) as -> by (rewrite <- Z.pow_succ_r by lia; f_equal; lia).
  set (h := 2 ^ (e - 1)) in *. clearbody h.
  destruct (Z.eqb_spec rm 0); [by rewrite Z.div_small by lia|].
  destruct (Z.ltb_spec rm 0).
  - rewrite (proj2 (Z.ltb_ge 0 rm)) by lia. cbn [Z.b2z]. destruct (Z.ltb_spec (Z.sgn x) 0).
    + rewrite Z.sub_0_r, Z.add_0_r. apply Z.div_unique with (x + 2 * h); lia.
    + rewrite Z.div_small; lia.
  - rewrite (proj2 (Z.ltb_lt 0 rm)) by lia. cbn [Z.b2z]. destruct (Z.ltb_spec 0 (Z.sgn x)).
    + rewrite Z.div_small; lia.
    + replace ((x - 1) / (2 * h)) with (-1); [done|]. apply Z.div_unique with (x - 1 + 2 * h); lia.
Qed.

(** A right shift is exact: the digits it leaves have the rounded value. *)
Lemma rshift_any_spec e rm ds :
  0 < e -> canonical ds ->
  let l := snd (rshift_any e rm ds) in
  value l = round_div rm (value ds) (2 ^ e) /\ word_bound (2 ^ 62) l /\ l <> [] /\ (length l <= length ds)%nat.
Proof.
  intros He Hc. cbv zeta. pose proof Hc as (Hne & Hn & _). assert (1 <= length ds)%nat as Hl1 by (destruct ds; cbn; [done|lia]).
  rewrite round_div_shift by done. unfold rshift_any.
  rewrite (proj2 (Z.ltb_ge e 0)), (proj2 (Z.eqb_neq e 0)) by lia.
  destruct (Z.ltb_spec (Z.of_nat (length ds) * word_shift + word_bits - word_shift) e) as [Hbig|Hsmall].
  { unfold word_bits, word_shift in Hbig. pose proof (value_small ds Hn) as Hv.
    assert (2 ^ (52 * Z.of_nat (length ds)) <= 2 ^ (e - 1)) as Hle by (apply Z.pow_le_mono_r; lia).
    rewrite sgn_correct by done. cbn [snd value]. rewrite Z.mul_0_r, Z.add_0_r.
    split_and!; [apply shift_round_big; lia| |done|cbn; lia].
    apply Forall_singleton. repeat case_match; lia. }
  destruct (exponent_split e ltac:(lia)) as [Hs Hr]. cbv zeta. set (q := Z.to_nat (e / word_shift)) in *. set (r := e mod word_shift) in *.
  assert (q <= length ds)%nat as Hq.
  { unfold q. unfold word_bits, word_shift in *. assert (e / 52 <= Z.of_nat (length ds)); [|lia]. div_lia. }
  assert (e = 52 * Z.of_nat q + r) as Ee.
  { unfold q, r. rewrite Z2Nat.id by (apply Z.div_pos; [lia|done]). pose proof (Z.div_mod e word_shift ltac:(done)). unfold word_shift in *. lia. }
  assert (forall rm' ds', (rm' = 0 -> 0 < r) -> (q <= length ds')%nat -> Forall (fun d => - Half <= d < Base) (take q ds') ->
    normal (drop q ds') -> length ds' = length ds -> shift_round rm' (value ds') e = shift_round rm (value ds) e ->
    let l := rshift_digits q r rm' ds' in
    value l = shift_round rm (value ds) e /\ word_bound (2 ^ 62) l /\ l <> [] /\ (length l <= length ds)%nat) as Hend.
  { intros rm' ds' H1 H2 H3 H4 H5 H6. destruct (rshift_digits_spec q r rm' ds' e) as (E1 & E2 & E3 & E4); [done..|].
    cbv zeta. rewrite E1. split_and!; [done|done|done|lia]. }
  replace (snd _) with (rshift_digits q r (if (rm =? 0) && (r =? 0) then -1 else rm)
    (if (rm =? 0) && (r =? 0) then alter (fun d => w64 (d + Half)) (q - 1)%nat ds else ds))
    by (unfold rshift_digits; cbv zeta; destruct (drop q _); [done|by destruct (r =? 0)]).
  destruct ((rm =? 0) && (r =? 0)) eqn:Et.
  - apply andb_true_iff in Et as [->%Z.eqb_eq Hr0%Z.eqb_eq]. assert (exists i, q = S i) as [i Ei] by (exists (q - 1)%nat; lia).
    rewrite Ei in *. replace (S i - 1)%nat with i by lia.
    destruct (add_half_spec i ds ltac:(lia) Hn) as (Ev & Hf & Ed & El).
    apply Hend; [lia|lia|done|rewrite Ed; by apply Forall_drop|done|].
    rewrite Ev. unfold shift_round. cbn [Z.eqb Z.ltb Z.compare Z.b2z]. rewrite Z.sub_0_r, Z.add_0_r. do 2 f_equal.
    assert (2 ^ e = 2 * 2 ^ (e - 1)) as H2 by (rewrite <- Z.pow_succ_r by lia; f_equal; lia).
    rewrite Hr0, Z.mul_1_r, Base_pow_S in Hs. consts. lia.
  - apply Hend; [|done|by apply normal_loose, Forall_take|by apply Forall_drop|done|done].
    intros ->. apply andb_false_iff in Et as [?|?%Z.eqb_neq]; [done|lia].
Qed.

(** *** Left shifts *)

Lemma land_low w r : 0 < r < 52 -> Z.land w (w64 (Z.shiftr Base r - 1)) = w mod 2 ^ (52 - r).
Proof.
  intros Hr. rewrite Z.shiftr_div_pow2, (Base_split r), Z.mul_comm, Z.div_mul by lia.
  assert (0 < 2 ^ (52 - r) < 2 ^ 52) by (split; [lia|apply Z.pow_lt_mono_r; lia]).
  rewrite w64_id by lia. rewrite <- Z.land_ones by lia. f_equal. rewrite Z.ones_equiv. lia.
Qed.

(** The bits shifted out of a digit go to the next one; the digits stay below [Base]. *)
Lemma lshift_loop_spec r ds : forall v,
  0 < r < 52 -> - 2 ^ (r - 1) <= v < 2 ^ r -> normal ds ->
  let '(l, v') := lshift_loop r v ds in
  value l + Base ^ Z.of_nat (length ds) * v' = v + 2 ^ r * value ds /\ length l = length ds /\
  - 2 ^ (r - 1) <= v' < 2 ^ r /\ Forall (fun d => - Half <= d < Base) l.
Proof.
  induction ds as [|w ds IH]; intros v Hr Hv Hn; cbn [lshift_loop].
  { cbn [value length]. change (Z.of_nat 0) with 0. rewrite Z.pow_0_r. split_and!; [lia|done|lia|lia|constructor]. }
  apply normal_cons in Hn as [Hw Hn]. change (word_shift - r) with (52 - r). rewrite land_low by done.
  rewrite Z.shiftl_mul_pow2, Z.shiftr_div_pow2 by lia. pose proof (Base_split r ltac:(lia)) as HB.
  assert (0 < 2 ^ (r - 1)) as Hp by lia. assert (0 < 2 ^ (52 - r)) as Hp' by lia.
  assert (2 ^ r = 2 * 2 ^ (r - 1)) as H2 by (rewrite <- Z.pow_succ_r by lia; f_equal; lia).
  assert (2 ^ (r - 1) <= Half) as Hpr by (change Half with (2 ^ 51); apply Z.pow_le_mono_r; lia).
  pose proof (Z.mod_pos_bound w (2 ^ (52 - r)) Hp') as Hm. pose proof (Z.div_mod w (2 ^ (52 - r)) ltac:(lia)) as Hd.
  assert (Half = 2 ^ (r - 1) * 2 ^ (52 - r)) as HH.
  { change Half with (2 ^ 51). rewrite <- Z.pow_add_r by lia. f_equal. lia. }
  assert (- 2 ^ (r - 1) <= w / 2 ^ (52 - r) < 2 ^ r) as Hq by nia.
  specialize (IH (w / 2 ^ (52 - r)) Hr Hq Hn). destruct (lshift_loop r _ ds) as [l v']. destruct IH as (IHv & IHl & IHr & IHb).
  set (m := w mod 2 ^ (52 - r)) in *. set (k := w / 2 ^ (52 - r)) in *.
  assert (0 <= m * 2 ^ r <= Base - 2 ^ r) as Hlow by (rewrite HB; nia).
  assert (Base = 2 ^ 52) as HB52 by reflexivity.
  rewrite (w64_id (m * 2 ^ r)), w64_id by lia.
  split_and!; [|cbn; lia|lia|lia|constructor; [lia|done]].
  cbn [value length]. rewrite Base_pow_S.
  replace (2 ^ r * (w + Base * value ds)) with (2 ^ r * m + Base * (k + 2 ^ r * value ds)).
  - rewrite <- IHv. ring.
  - rewrite Hd, HB. ring.
Qed.

(** Digits that overflow to the top by [v], with no room for [v]. *)
Lemma loose_value ds : Forall (fun d => - Half <= d < Base) ds ->
  - Half * ones_base (length ds) <= value ds <= (Base - 1) * ones_base (length ds).
Proof.
  induction 1 as [|d ds Hd _ IH]; [cbn; lia|]. cbn [value length ones_base]. consts. nia.
Qed.
Lemma ones_base_pow n : (Base - 1) * ones_base n = Base ^ Z.of_nat n - 1.
Proof.
  induction n as [|n IH]; [done|]. cbn [ones_base]. rewrite Base_pow_S. rewrite Base_val in *. lia.
Qed.
Lemma ones_base_app q n : ones_base (q + n) = ones_base q + Base ^ Z.of_nat q * ones_base n.
Proof.
  induction q as [|q IH]; [cbn; change (Z.of_nat 0) with 0; rewrite Z.pow_0_r; lia|].
  cbn [Nat.add ones_base]. rewrite IH, Base_pow_S. ring.
Qed.
Lemma no_room q l v :
  Forall (fun d => - Half <= d < Base) l -> v < -1 \/ 0 < v ->
  ~ representable (q + length l) (Base ^ Z.of_nat q * (value l + Base ^ Z.of_nat (length l) * v)).
Proof.
  intros Hl Hv. rewrite representable_storage. unfold storage_ok. rewrite andb_true_iff, !Z.leb_le.
  pose proof (loose_value l Hl) as Hb. rewrite ones_base_app. pose proof (ones_base_pow q) as E1.
  pose proof (ones_base_pow (length l)) as E2. pose proof (Base_pow_pos q) as P1. pose proof (Base_pow_pos (length l)) as P2.
  pose proof (ones_base_nonneg q). pose proof (ones_base_nonneg (length l)).
  set (bq := Base ^ Z.of_nat q) in *. set (bl := Base ^ Z.of_nat (length l)) in *. set (oq := ones_base q) in *.
  set (ol := ones_base (length l)) in *. clearbody bq bl oq ol. set (x := value l) in *. clearbody x.
  assert (2 * Half = Base) as HB by reflexivity. assert (0 < Half) by done. assert (1 < Base) by done. clear Hl.
  intros [Hlo Hhi]. assert (Half * oq < bq) as Hoq by nia.
  assert (x + bl * v < (Half - 1) * ol + 1) by (apply (Z.mul_lt_mono_pos_l bq); [done|nia]).
  assert (- Half * ol - 1 < x + bl * v) by (apply (Z.mul_lt_mono_pos_l bq); [done|nia]).
  destruct Hv; nia.
Qed.

Lemma borrow_top_spec l : l <> [] -> Forall (fun d => - Half <= d < Base) l ->
  let l' := alter (fun d => w64 (d + wrap_u 64 (Z.shiftl (wrap_u 64 (-1)) word_shift))) (length l - 1)%nat l in
  value l' = value l - Base ^ Z.of_nat (length l) /\ word_bound (2 ^ 62) l' /\ length l' = length l.
Proof.
  intros Hne Hl. cbv zeta. rewrite length_alter. destruct l as [|d l _] using rev_ind; [done|].
  apply Forall_app in Hl as [Hl Hd%Forall_cons_1]. destruct Hd as [Hd _].
  rewrite length_app. cbn [length]. replace (length l + 1 - 1)%nat with (length l + 0)%nat by lia.
  rewrite alter_app_r. change (alter ?f 0%nat [d]) with [f d]. cbv beta.
  assert (wrap_u 64 (Z.shiftl (wrap_u 64 (-1)) word_shift) = 2 ^ 64 - 2 ^ 52) as -> by reflexivity.
  assert (Base = 2 ^ 52 /\ Half = 2 ^ 51) as [HB HH] by done.
  assert (w64 (d + (2 ^ 64 - 2 ^ 52)) = d - 2 ^ 52) as ->.
  { unfold w64, wrap_s. change (64 - 1) with 63. replace (d + (2 ^ 64 - 2 ^ 52) + 2 ^ 63) with (d - 2 ^ 52 + 2 ^ 63 + 1 * 2 ^ 64) by lia.
    rewrite Z.mod_add, Z.mod_small by lia. lia. }
  rewrite !value_app. cbn [value]. split_and!; [|apply Forall_app; split; [|repeat constructor; lia]|done].
  - replace (length l + 1)%nat with (S (length l)) by lia. rewrite Base_pow_S, HB. ring.
  - revert Hl. apply Forall_impl. intros. lia.
Qed.

Lemma value_shifted q ds : value (replicate q 0 ++ ds) = Base ^ Z.of_nat q * value ds.
Proof. rewrite value_app, value_zeros, length_replicate. lia. Qed.
Lemma word_bound_shifted q ds : word_bound (2 ^ 62) ds -> word_bound (2 ^ 62) (replicate q 0 ++ ds).
Proof. intros Hb. apply Forall_app. split; [apply Forall_replicate; lia|done]. Qed.

(** A left shift is exact or invalid; it is invalid exactly when the result has no
    representation, except that a shift by too many digits is refused beforehand. *)
Lemma lshift_any_spec n e ds :
  0 < e -> canonical ds -> (length ds + Z.to_nat (e / word_shift) <= n)%nat ->
  holds n (snd (normalize_bool_any n (snd (lshift_any n e ds)))) (value ds * 2 ^ e).
Proof.
  intros He (Hne & Hn & _) Hroom. unfold lshift_any.
  rewrite (proj2 (Z.ltb_ge e 0)), (proj2 (Z.eqb_neq e 0)) by lia. cbv zeta.
  destruct (exponent_split e ltac:(lia)) as [-> Hr]. set (q := Z.to_nat (e / word_shift)) in *.
  set (r := e mod word_shift) in *. rewrite (proj2 (Nat.ltb_ge _ _)) by lia.
  assert (forall l, (length l <= n - q)%nat -> l <> [] -> word_bound (2 ^ 62) l -> value l = value ds * 2 ^ r ->
    holds n (snd (normalize_bool_any n (replicate q 0 ++ l))) (value ds * (Base ^ Z.of_nat q * 2 ^ r))) as Hend.
  { intros l Hl Hln Hb Ev. apply normalize_holds; [by destruct l, q|rewrite length_app, length_replicate; lia| |].
    - by apply word_bound_shifted.
    - rewrite value_shifted, Ev. ring. }
  destruct (Z.eqb_spec r 0) as [E0|E0].
  { apply Hend; [lia|done|by apply normal_word_bound|rewrite E0; lia]. }
  pose proof (lshift_loop_spec r ds 0 ltac:(lia)) as Hloop. specialize (Hloop ltac:(lia) Hn).
  destruct (lshift_loop r 0 ds) as [l v]. destruct Hloop as (Ev & El & Hv & Hl).
  assert (l <> []) as Hln by (destruct l; [destruct ds; done|done]).
  assert (word_bound (2 ^ 62) l) as Hlb by (revert Hl; apply Forall_impl; intros d; consts; lia).
  assert (2 ^ (r - 1) <= 2 ^ 52 /\ 2 ^ r <= 2 ^ 52) as [Hp1 Hp2] by (split; apply Z.pow_le_mono_r; lia).
  rewrite <- El in Ev. destruct (Z.eqb_spec v 0) as [->|Hv0]; [apply Hend; [lia|done|done|lia]|].
  destruct (Nat.ltb_spec (length l + q) n) as [Hlt|Hge].
  { apply Hend; [rewrite length_app; cbn; lia|by destruct l| |rewrite value_app; cbn [value]; lia].
    apply Forall_app. split; [done|]. repeat constructor; lia. }
  destruct (Z.eqb_spec v (-1)) as [->|Hv1]; cbn [negb].
  - destruct (borrow_top_spec l Hln Hl) as (Ev' & Hb' & Hl'). apply Hend; [lia| |done|lia].
    intros E. rewrite E in Hl'. by destruct l.
  - right. split; [done|]. replace n with (q + length l)%nat by lia.
    replace (value ds * (Base ^ Z.of_nat q * 2 ^ r)) with (Base ^ Z.of_nat q * (value l + Base ^ Z.of_nat (length l) * v)).
    + apply no_room; [done|lia].
    + rewrite Ev. ring.
Qed.

(** *** The size of a value *)

Lemma top_digit_storage ds : normal ds -> (1 < length ds)%nat -> top_word ds <> 0 ->
  storage_ok (length ds - 1) (value ds) = false.
Proof.
  intros Hn Hl Ht. apply not_true_iff_false. unfold storage_ok. rewrite andb_true_iff, !Z.leb_le.
  rewrite value_top by (by destruct ds). pose proof (value_storage _ (normal_removelast _ Hn)) as Hb.
  rewrite length_removelast' in Hb. pose proof (ones_base_pow (length ds - 1)) as E.
  pose proof (Base_pow_pos (length ds - 1)). assert (2 * Half = Base) as HB by reflexivity.
  pose proof (ones_base_nonneg (length ds - 1)). nia.
Qed.

Lemma size_from_eq n : forall k m z,
  (forall j, (k <= j < m)%nat -> storage_ok j z = false) -> storage_ok m z = true -> (k <= m <= k + n)%nat ->
  size_from k n z = m.
Proof.
  induction n as [|n IH]; intros k m z Hlow Hm Hk; cbn [size_from]; [lia|].
  destruct (storage_ok k z) eqn:E.
  - destruct (Nat.eq_dec k m); [done|]. rewrite Hlow in E by lia. done.
  - apply IH; [intros j Hj; apply Hlow; lia|done|]. destruct (Nat.eq_dec k m) as [->|]; [congruence|lia].
Qed.

Lemma size256_canonical n ds : canonical ds -> (length ds <= n)%nat -> size256 n (value ds) = length ds.
Proof.
  intros (Hne & Hn & Ht) Hl. assert (1 <= length ds)%nat as H1 by (destruct ds; cbn; [done|lia]).
  apply size_from_eq; [|apply representable_storage; by exists ds|lia]. intros j Hj.
  destruct Ht as [Ht|Ht]; [lia|]. apply not_true_iff_false. intros Hs.
  apply (storage_mono _ (length ds - 1)) in Hs; [|lia]. rewrite top_digit_storage in Hs by (done || lia). done.
Qed.

(** *** Refinement *)

Lemma rep_normalized ds v : ds <> [] -> (length ds <= word_cnt)%nat -> word_bound (2 ^ 62) ds -> value ds = v ->
  - 2 ^ 257 <= v <= 2 ^ 257 -> rep (snd (normalize_bool_any word_cnt ds)) (Int v).
Proof.
  intros Hne Hl Hb Ev Hv. pose proof (holds_norm _ _ (normalize_holds word_cnt ds v Hne Hl Hb Ev)) as H.
  unfold norm in H. by rewrite storage_257 in H.
Qed.

(** Shifts of an invalid number see no digits. *)
Lemma rshift_nan y rm : 0 < y ->
  rep (snd (normalize_bool_any word_cnt (snd (rshift_any y rm []))))
    (if 64 - word_shift <? y then (if rm <? 0 then Int (-1) else Int 0) else Int 0).
Proof.
  intros Hy. unfold rshift_any. rewrite (proj2 (Z.ltb_ge y 0)), (proj2 (Z.eqb_neq y 0)) by lia.
  cbn [length]. change (Z.of_nat 0 * word_shift + word_bits - word_shift) with (64 - word_shift).
  destruct (Z.ltb_spec (64 - word_shift) y) as [Hbig|Hsmall].
  { change (if sgn [] <? 0 then -1 else 0) with (-1). change (if 0 <? sgn [] then 1 else 0) with 0. cbn [snd].
    destruct (Z.eqb_spec rm 0) as [->|]; [|destruct (rm <? 0)].
    all: apply rep_normalized; [done|cbv; lia|apply Forall_singleton; lia|done|lia]. }
  change (64 - word_shift) with 12 in Hsmall. unfold word_shift. rewrite Z.div_small, Z.mod_small by lia.
  rewrite (proj2 (Z.eqb_neq y 0)), andb_false_r by lia.
  change (Z.to_nat 0) with 0%nat. cbv zeta. cbn [rshift_carry drop snd].
  destruct (rshift_word_spec (if 0 <? rm then -1 else 0) y rm) as [E _]; [lia|lia|by destruct (0 <? rm)|].
  assert (0 < 2 ^ (y - 1)) as Hp by lia.
  assert (2 ^ y = 2 * 2 ^ (y - 1)) as H2 by (rewrite <- Z.pow_succ_r by lia; f_equal; lia).
  assert (rshift_word (if 0 <? rm then -1 else 0) y rm = 0) as ->.
  { rewrite E. destruct (Z.eqb_spec rm 0) as [->|]; [by rewrite Z.div_small by (cbn [Z.ltb Z.compare]; lia)|].
    destruct (0 <? rm); cbn [Z.b2z]; [|by rewrite Z.div_0_l by lia].
    replace (-1 / 2 ^ y) with (-1); [done|]. apply Z.div_unique with (2 ^ y - 1); lia. }
  apply rep_normalized; [done|cbv; lia|apply Forall_singleton; lia|done|lia].
Qed.
Lemma lshift_nan y : 0 < y ->
  rep (snd (normalize_bool_any word_cnt (snd (lshift_any word_cnt y []))))
    (let q := Z.to_nat (y / word_shift) in
     if (word_cnt <? q)%nat then NaN else if (q =? 0)%nat then NaN else Int 0).
Proof.
  intros Hy. unfold lshift_any. rewrite (proj2 (Z.ltb_ge y 0)), (proj2 (Z.eqb_neq y 0)) by lia.
  cbn [length Nat.add lshift_loop]. cbv zeta. set (q := Z.to_nat (y / word_shift)).
  destruct (Nat.ltb_spec word_cnt q) as [Hbig|Hroom]; [done|].
  cbn [Z.eqb]. rewrite !app_nil_r.
  replace (if y mod word_shift =? 0 then _ else _) with (true, replicate q 0) by (by destruct (_ =? 0)). cbn [snd].
  destruct (Nat.eqb_spec q 0) as [->|Hq]; [done|].
  apply rep_normalized; [by destruct q|by rewrite length_replicate|apply Forall_replicate; lia|apply value_zeros|lia].
Qed.

(** C36: shifts.  The digit loops of [BigInt256] implement the shifts of the value level,
    for every shift amount and rounding mode: [rshift] gives the exact quotient by
    [2^y], rounded down, up, or to the nearest integer with ties up; [<<] gives the exact
    product, or [NaN] when the digits moved out of the object or the product does not fit.
    No word overflows on the way, and invalid operands behave alike. *)
Theorem digits_refine_shifts xs x y rm :
  rep xs x -> rep (refint_rshift xs y rm) (int_rshift word_cnt x y rm) /\ rep (refint_lshift xs y) (int_lshift word_cnt x y).
Proof.
  intros Hx. unfold refint_rshift, refint_lshift, int_rshift, int_lshift.
  destruct (Z.ltb_spec y 0) as [Hy|Hy].
  { unfold rshift_any, lshift_any. by rewrite (proj2 (Z.ltb_lt y 0)). }
  destruct (Z.eqb_spec y 0) as [->|Hy0].
  { cbn [rshift_any lshift_any Z.ltb Z.compare Z.eqb snd]. destruct x as [|a]; [by rewrite Hx|].
    destruct Hx as (Hc & Hl & <-). pose proof Hc as (Hne & Hn & _).
    assert (rep (snd (normalize_bool_any word_cnt xs)) (norm word_cnt (value xs))) as H.
    { by apply holds_norm, normalize_holds; [| |apply normal_word_bound|]. }
    unfold norm in H. rewrite (proj1 (representable_storage word_cnt (value xs))) in H by (by exists xs). done. }
  destruct x as [|a].
  - rewrite Hx. split; [apply rshift_nan; lia|apply lshift_nan; lia].
  - destruct Hx as (Hc & Hl & <-). split.
    + destruct (rshift_any_spec y rm xs ltac:(lia) Hc) as (Ev & Hb & Hne & Hl').
      apply holds_norm, normalize_holds; [done|lia|done|done].
    + rewrite size256_canonical by done. destruct (Nat.ltb_spec word_cnt (length xs + Z.to_nat (y / word_shift))) as [Hbig|Hroom].
      * unfold lshift_any. rewrite (proj2 (Z.ltb_ge y 0)), (proj2 (Z.eqb_neq y 0)), (proj2 (Nat.ltb_lt _ _)) by lia. done.
      * apply holds_norm, lshift_any_spec; [lia|done|lia].
Qed.

Lemma digits_refine_shifts_witness :
  rep [-Half; 3] (Int (3 * Base - Half)) /\
  rep (refint_rshift [-Half; 3] 51 0) (Int 5) /\ rep (refint_lshift [-Half; 3] 1) (Int (6 * Base - 2 * Half)).
Proof.
  assert (rep [-Half; 3] (Int (3 * Base - Half))) as Hx.
  { split_and!; [split_and!; [done| |by right]|cbv; lia|by vm_compute].
    repeat constructor; rewrite Half_val; lia. }
  split; [exact Hx|].
  destruct (digits_refine_shifts [-Half; 3] (Int (3 * Base - Half)) 51 0 Hx) as [Hr _].
  destruct (digits_refine_shifts [-Half; 3] (Int (3 * Base - Half)) 1 0 Hx) as [_ Hl].
  split; [exact Hr|exact Hl].
Defined.

(** ** Division *)

(** The remainder bounds of the three rounding modes, for divisors of either
    sign: with [q] the rounded quotient and [r = x - q*y], floor gives [0 <= r < y]
    (mirrored for [y < 0]), ceiling [-y < r <= 0], nearest [-y <= 2*r < y]. *)
Theorem round_div_bounds rm x y :
  y <> 0 -> -1 <= rm <= 1 ->
  let r := x - round_div rm x y * y in
  (rm = -1 -> 0 <= r < y \/ y < r <= 0) /\
  (rm = 0 -> - y <= 2 * r < y \/ y < 2 * r <= - y) /\
  (rm = 1 -> - y < r <= 0 \/ 0 <= r < - y).
Proof.
  intros Hy Hrm. cbv zeta. unfold round_div.
  destruct (decide (rm = -1)) as [-> |]; [|destruct (decide (rm = 0)) as [-> |];
    [|assert (rm = 1) as -> by lia]]; simpl; split_and!; try lia; intros _.
  - pose proof (Z.div_mod x y Hy). destruct (Z.lt_total y 0) as [?|[?|?]]; [|done|].
    + pose proof (Z.mod_neg_bound x y). lia.
    + pose proof (Z.mod_pos_bound x y). lia.
  - pose proof (Z.div_mod (2 * x + y) (2 * y) ltac:(lia)) as D.
    destruct (Z.lt_total y 0) as [?|[?|?]]; [|done|].
    + pose proof (Z.mod_neg_bound (2 * x + y) (2 * y)). lia.
    + pose proof (Z.mod_pos_bound (2 * x + y) (2 * y)). lia.
  - pose proof (Z.div_mod (- x) y Hy). destruct (Z.lt_total y 0) as [?|[?|?]]; [|done|].
    + pose proof (Z.mod_neg_bound (- x) y). lia.
    + pose proof (Z.mod_pos_bound (- x) y). lia.
Qed.

Lemma round_div_bounds_witness : let r := 7 - round_div 0 7 (-2) * -2 in -2 < 2 * r <= 2.
Proof.
  cbv zeta. destruct (round_div_bounds 0 7 (-2) ltac:(lia) ltac:(lia)) as (_ & H & _).
  destruct (H eq_refl) as [H'|H']; [|exact H']. exfalso. lia.
Defined.
