(* ===== verification/Cells.v ===== *)
(** * Cells, slices and builders (crypto/vm/cells)

    A cell is up to 1023 data bits and up to four references; a [CellSlice] is a
    window of a cell that shrinks as data is read; a [CellBuilder] collects data
    for a new cell.  The word cache of [CellSlice] ([ptr], [z], [zd]) is left
    out; the slice is its window.  Sizes that are
    [unsigned] in the code and bounded by the size of a cell are [nat]. *)
From S2P Require Import Prelude Int256.

Inductive Cell : Type :=
| DataCell (special : bool) (bits : list bool) (refs : list Cell).

Definition cell_special (c : Cell) : bool := let 'DataCell s _ _ := c in s.
Definition cell_bits (c : Cell) : list bool := let 'DataCell _ b _ := c in b.
Definition cell_refs (c : Cell) : list Cell := let 'DataCell _ _ r := c in r.

Definition max_bits : nat := 1023.
Definition max_refs : nat := 4.
Definition max_depth : nat := 1024.

(** [get_depth()] of an ordinary cell: 0 without references, else one more than
    the deepest reference. *)
Fixpoint cell_depth (c : Cell) : nat :=
  let 'DataCell _ _ refs := c in
  match refs with
  | [] => 0%nat
  | _ => S (foldr (fun r d => Nat.max (cell_depth r) d) 0%nat refs)
  end.

(** ** Bit strings as numbers, most significant bit first *)

Fixpoint bits_to_Z (bs : list bool) : Z :=
  match bs with
  | [] => 0
  | b :: bs' => Z.b2z b * 2 ^ Z.of_nat (length bs') + bits_to_Z bs'
  end.

(** The two's complement reading. *)
Definition bits_to_Z_signed (bs : list bool) : Z :=
  match bs with
  | true :: _ => bits_to_Z bs - 2 ^ Z.of_nat (length bs)
  | _ => bits_to_Z bs
  end.

Definition bits_value (sgnd : bool) (bs : list bool) : Z :=
  if sgnd then bits_to_Z_signed bs else bits_to_Z bs.

(** The low [n] bits of a number. *)
Fixpoint Z_to_bits (n : nat) (x : Z) : list bool :=
  match n with
  | O => []
  | S n' => Z.testbit x (Z.of_nat n') :: Z_to_bits n' x
  end.

(** ** Slices *)

Record CellSlice : Type := mkSlice {
  cs_cell : Cell;
  bits_st : nat; bits_en : nat;
  refs_st : nat; refs_en : nat
}.

(** [CellSlice(Ref<DataCell>)]: the whole cell. *)
Definition slice_of_cell (c : Cell) : CellSlice :=
  mkSlice c 0 (length (cell_bits c)) 0 (length (cell_refs c)).

Definition slice_bits (cs : CellSlice) : list bool :=
  take (bits_en cs - bits_st cs) (drop (bits_st cs) (cell_bits (cs_cell cs))).
Definition slice_refs (cs : CellSlice) : list Cell :=
  take (refs_en cs - refs_st cs) (drop (refs_st cs) (cell_refs (cs_cell cs))).

Definition slice_ok (cs : CellSlice) : Prop :=
  (bits_st cs <= bits_en cs <= length (cell_bits (cs_cell cs)))%nat /\
  (refs_st cs <= refs_en cs <= length (cell_refs (cs_cell cs)))%nat.

Definition size (cs : CellSlice) : nat := (bits_en cs - bits_st cs)%nat.
Definition size_refs (cs : CellSlice) : nat := (refs_en cs - refs_st cs)%nat.
Definition have (bits : nat) (cs : CellSlice) : bool := (bits <=? size cs)%nat.
Definition have_refs (refs : nat) (cs : CellSlice) : bool := (refs <=? size_refs cs)%nat.
Definition have2 (bits refs : nat) (cs : CellSlice) : bool := have bits cs && have_refs refs cs.

(** Methods returning [bool]: [None] is [false], which leaves the slice as it is. *)
Definition advance (bits : nat) (cs : CellSlice) : option CellSlice :=
  if have bits cs then
    Some (mkSlice (cs_cell cs) (bits_st cs + bits) (bits_en cs) (refs_st cs) (refs_en cs))
  else None.
Definition advance_refs (refs : nat) (cs : CellSlice) : option CellSlice :=
  if have_refs refs cs then
    Some (mkSlice (cs_cell cs) (bits_st cs) (bits_en cs) (refs_st cs + refs) (refs_en cs))
  else None.
Definition advance_ext (bits refs : nat) (cs : CellSlice) : option CellSlice :=
  if have bits cs && have_refs refs cs then
    advance bits (mkSlice (cs_cell cs) (bits_st cs) (bits_en cs) (refs_st cs + refs) (refs_en cs))
  else None.

Definition fetch_ulong_eof : Z := 2 ^ 64 - 1.
Definition fetch_long_eof : Z := - 2 ^ 63.

Definition prefetch_ulong (bits : nat) (cs : CellSlice) : Z :=
  if negb (have bits cs) || (64 <? bits)%nat then fetch_ulong_eof
  else bits_to_Z (take bits (slice_bits cs)).
Definition prefetch_long (bits : nat) (cs : CellSlice) : Z :=
  if negb (have bits cs) || (64 <? bits)%nat then fetch_long_eof
  else bits_to_Z_signed (take bits (slice_bits cs)).

(** The result and the slice after the read. *)
Definition fetch_ulong (bits : nat) (cs : CellSlice) : Z * CellSlice :=
  if negb (have bits cs) || (64 <? bits)%nat then (fetch_ulong_eof, cs)
  else (bits_to_Z (take bits (slice_bits cs)), default cs (advance bits cs)).
Definition fetch_long (bits : nat) (cs : CellSlice) : Z * CellSlice :=
  if negb (have bits cs) || (64 <? bits)%nat then (fetch_long_eof, cs)
  else (bits_to_Z_signed (take bits (slice_bits cs)), default cs (advance bits cs)).

(** [prefetch_ulong_top(bits)]: the number of bits available (at most [bits]) and
    the 64-bit word whose top bits they are.  The word is given with zeros below
    them: its caller [lookup_instr] masks the rest out. *)
Definition prefetch_top (bits : nat) (cs : CellSlice) : nat * Z :=
  let n := Nat.min bits (size cs) in
  (n, bits_to_Z (take n (slice_bits cs)) * 2 ^ (64 - Z.of_nat n)).

(** [prefetch_int256], for at most 257 bits (256 unsigned): the value always fits. *)
Definition prefetch_int256 (bits : nat) (sgnd : bool) (cs : CellSlice) : option int256 :=
  if have bits cs then Some (Int (bits_value sgnd (take bits (slice_bits cs)))) else None.
Definition fetch_int256 (bits : nat) (sgnd : bool) (cs : CellSlice)
    : option (int256 * CellSlice) :=
  if have bits cs then
    Some (Int (bits_value sgnd (take bits (slice_bits cs))), default cs (advance bits cs))
  else None.

Definition prefetch_ref (offset : nat) (cs : CellSlice) : option Cell :=
  if (offset <? size_refs cs)%nat then cell_refs (cs_cell cs) !! (refs_st cs + offset)%nat else None.
Definition fetch_ref (cs : CellSlice) : option (Cell * CellSlice) :=
  if have_refs 1 cs then
    match cell_refs (cs_cell cs) !! refs_st cs with
    | Some c => Some (c, mkSlice (cs_cell cs) (bits_st cs) (bits_en cs) (S (refs_st cs)) (refs_en cs))
    | None => None
    end
  else None.

(** [CellSlice(cs, bits_en, refs_en)]: the first bits and references. *)
Definition sub_first (bits refs : nat) (cs : CellSlice) : CellSlice :=
  mkSlice (cs_cell cs) (bits_st cs) (bits_st cs + bits) (refs_st cs) (refs_st cs + refs).

Definition prefetch_subslice (bits refs : nat) (cs : CellSlice) : option CellSlice :=
  if have2 bits refs cs then Some (sub_first bits refs cs) else None.
Definition fetch_subslice (bits refs : nat) (cs : CellSlice) : option (CellSlice * CellSlice) :=
  if have2 bits refs cs then
    let cs1 := default cs (advance bits cs) in
    Some (sub_first bits refs cs, default cs1 (advance_refs refs cs1))
  else None.

Definition only_first (bits refs : nat) (cs : CellSlice) : option CellSlice :=
  if have2 bits refs cs then Some (sub_first bits refs cs) else None.
Definition skip_first (bits refs : nat) (cs : CellSlice) : option CellSlice :=
  if have2 bits refs cs then
    advance bits (mkSlice (cs_cell cs) (bits_st cs) (bits_en cs) (refs_st cs + refs) (refs_en cs))
  else None.
Definition only_last (bits refs : nat) (cs : CellSlice) : option CellSlice :=
  if have2 bits refs cs then
    advance (size cs - bits)
      (mkSlice (cs_cell cs) (bits_st cs) (bits_en cs) (refs_en cs - refs) (refs_en cs))
  else None.
Definition skip_last (bits refs : nat) (cs : CellSlice) : option CellSlice :=
  if have2 bits refs cs then
    Some (mkSlice (cs_cell cs) (bits_st cs) (bits_en cs - bits) (refs_st cs) (refs_en cs - refs))
  else None.
Definition cut_tail (tail_cs cs : CellSlice) : option CellSlice :=
  skip_last (size tail_cs) (size_refs tail_cs) cs.

(** [bits_memscan(.., bit)]: the length of the leading run of [bit]. *)
Fixpoint memscan (bit : bool) (bs : list bool) : nat :=
  match bs with
  | b :: bs' => if Bool.eqb b bit then S (memscan bit bs') else 0%nat
  | [] => 0%nat
  end.
Definition count_leading (bit : bool) (cs : CellSlice) : nat := memscan bit (slice_bits cs).
Definition count_trailing (bit : bool) (cs : CellSlice) : nat := memscan bit (rev (slice_bits cs)).

(** [remove_trailing]: drop the trailing zeros and the one before them. *)
Definition remove_trailing (cs : CellSlice) : nat * CellSlice :=
  if (bits_st cs =? bits_en cs)%nat then (0%nat, cs)
  else
    let bits := size cs in
    let trailing := memscan false (rev (slice_bits cs)) in
    let t := if (trailing =? bits)%nat then trailing else S trailing in
    (t, mkSlice (cs_cell cs) (bits_st cs) (bits_en cs - t) (refs_st cs) (refs_en cs)).

(** [bits_lexcmp]: -1, 0, 1; a proper prefix is smaller. *)
Fixpoint bits_lexcmp (a b : list bool) : Z :=
  match a, b with
  | [], [] => 0
  | [], _ :: _ => -1
  | _ :: _, [] => 1
  | x :: a', y :: b' =>
      if Bool.eqb x y then bits_lexcmp a' b' else if x then 1 else -1
  end.
Definition lex_cmp (cs cs2 : CellSlice) : Z := bits_lexcmp (slice_bits cs) (slice_bits cs2).

Definition bits_eqb (a b : list bool) : bool := bool_decide (a = b).

Definition is_prefix_of (cs cs2 : CellSlice) : bool :=
  (size cs <=? size cs2)%nat && bits_eqb (slice_bits cs) (take (size cs) (slice_bits cs2)).
Definition is_suffix_of (cs cs2 : CellSlice) : bool :=
  (size cs <=? size cs2)%nat &&
  bits_eqb (slice_bits cs) (drop (size cs2 - size cs) (slice_bits cs2)).
Definition is_proper_prefix_of (cs cs2 : CellSlice) : bool :=
  (size cs <? size cs2)%nat && bits_eqb (slice_bits cs) (take (size cs) (slice_bits cs2)).
Definition is_proper_suffix_of (cs cs2 : CellSlice) : bool :=
  (size cs <? size cs2)%nat &&
  bits_eqb (slice_bits cs) (drop (size cs2 - size cs) (slice_bits cs2)).

(** ** Builders *)

Record CellBuilder : Type := mkBuilder {
  cb_bits : list bool;
  cb_refs : list Cell
}.
Definition empty_builder : CellBuilder := mkBuilder [] [].

Definition builder_ok (cb : CellBuilder) : Prop :=
  (length (cb_bits cb) <= max_bits)%nat /\ (length (cb_refs cb) <= max_refs)%nat.

Definition remaining_bits (cb : CellBuilder) : nat := (max_bits - length (cb_bits cb))%nat.
Definition remaining_refs (cb : CellBuilder) : nat := (max_refs - length (cb_refs cb))%nat.

Definition can_extend_by (bits refs : nat) (cb : CellBuilder) : bool :=
  (bits <=? remaining_bits cb)%nat && (refs <=? remaining_refs cb)%nat.

Definition store_bits_bool (bs : list bool) (cb : CellBuilder) : option CellBuilder :=
  if (length bs <=? remaining_bits cb)%nat then Some (mkBuilder (cb_bits cb ++ bs) (cb_refs cb))
  else None.
Definition store_long_bool (val : Z) (val_bits : nat) (cb : CellBuilder) : option CellBuilder :=
  if (64 <? val_bits)%nat then None else store_bits_bool (Z_to_bits val_bits val) cb.

(** [store_int256_bool]: [export_bits] fails for NaN and for a value that does not fit. *)
Definition store_int256_bool (val : int256) (val_bits : nat) (sgnd : bool) (cb : CellBuilder)
    : option CellBuilder :=
  match val with
  | NaN => None
  | Int x =>
      if (val_bits <=? remaining_bits cb)%nat &&
         (if sgnd then if (val_bits =? 0)%nat then x =? 0 else fits_s (Z.of_nat val_bits) x
          else fits_u (Z.of_nat val_bits) x)
      then Some (mkBuilder (cb_bits cb ++ Z_to_bits val_bits x) (cb_refs cb))
      else None
  end.

Definition store_ref_bool (r : option Cell) (cb : CellBuilder) : option CellBuilder :=
  match r with
  | Some c => if (length (cb_refs cb) <? max_refs)%nat
              then Some (mkBuilder (cb_bits cb) (cb_refs cb ++ [c])) else None
  | None => None
  end.

Definition append_cellslice_bool (cs : CellSlice) (cb : CellBuilder) : option CellBuilder :=
  if can_extend_by (size cs) (size_refs cs) cb then
    Some (mkBuilder (cb_bits cb ++ slice_bits cs) (cb_refs cb ++ slice_refs cs))
  else None.
Definition append_builder_bool (cb2 cb : CellBuilder) : option CellBuilder :=
  if can_extend_by (length (cb_bits cb2)) (length (cb_refs cb2)) cb then
    Some (mkBuilder (cb_bits cb ++ cb_bits cb2) (cb_refs cb ++ cb_refs cb2))
  else None.
Definition store_maybe_ref (r : option Cell) (cb : CellBuilder) : option CellBuilder :=
  match r with
  | None => store_long_bool 0 1 cb
  | Some _ => match store_long_bool 1 1 cb with
              | Some cb' => store_ref_bool r cb'
              | None => None
              end
  end.

(** ** Facts about windows *)

Lemma have_spec n cs : have n cs = true <-> (n <= size cs)%nat.
Proof. apply Nat.leb_le. Qed.

Lemma advance_some n cs :
  (n <= size cs)%nat ->
  exists cs', advance n cs = Some cs' /\ size cs' = (size cs - n)%nat /\
    size_refs cs' = size_refs cs /\ cs_cell cs' = cs_cell cs.
Proof.
  intros H. unfold advance. rewrite (proj2 (have_spec n cs) H). eexists. split; [done|].
  unfold size, size_refs in *. simpl. split_and!; [lia|done|done].
Qed.

Lemma slice_bits_length cs : slice_ok cs -> length (slice_bits cs) = size cs.
Proof. intros [? ?]. unfold slice_bits, size. rewrite length_take, length_drop. lia. Qed.
Lemma slice_refs_length cs : slice_ok cs -> length (slice_refs cs) = size_refs cs.
Proof. intros [? ?]. unfold slice_refs, size_refs. rewrite length_take, length_drop. lia. Qed.
