(* ===== verification/DataCell.v ===== *)
(** * Data cells: levels, depths and representation hashes (crypto/vm/cells/DataCell.cpp)

    What [DataCell::create] computes for a new cell: its type, level mask, and one
    depth and hash per level, or an error.  Byte strings are bit strings whose
    length is a multiple of eight.  SHA-256 (OpenSSL) is a parameter. *)
From S2P Require Import Prelude Int256 Cells.

Class Sha256 := sha256 : list bool -> list bool.

(** ** Level masks (crypto/vm/cells/LevelMask.h) *)

Definition max_level : nat := 3.

(** [32 - count_leading_zeroes32(mask)] and [count_bits32(mask)]. *)
Definition get_level (mask : Z) : nat :=
  if mask =? 0 then 0%nat else S (Z.to_nat (Z.log2 mask)).
Definition get_hash_i (mask : Z) : nat :=
  length (filter (fun i => Is_true (Z.testbit mask (Z.of_nat i))) (seq 0 32)).
Definition apply_level (level : nat) (mask : Z) : Z :=
  if (32 <=? level)%nat then mask else Z.land mask (2 ^ Z.of_nat level - 1).
Definition is_significant (level : nat) (mask : Z) : bool :=
  if (32 <=? level)%nat then false
  else (level =? 0)%nat || negb (Z.shiftr mask (Z.of_nat level - 1) mod 2 =? 0).

(** ** What is computed for a cell *)

Inductive SpecialType : Type :=
| Ordinary | PrunnedBranch | Library | MerkleProof | MerkleUpdate.
#[global] Instance SpecialType_eq_dec : EqDecision SpecialType.
Proof. solve_decision. Defined.

(** The fields of [CellChecker] after [check_and_compute_level_info]; [depths] and
    [hashes] have one element per level 0..3. *)
Record CellInfo : Type := mkInfo {
  ci_type : SpecialType; ci_mask : Z; ci_depths : list Z; ci_hashes : list (list bool)
}.

(** [do_get_depth(level)] and [do_get_hash(level)] of a created cell: only the
    entries up to the cell's own level are stored. *)
Definition info_depth (level : nat) (i : CellInfo) : Z :=
  ci_depths i !!! Nat.min (get_level (ci_mask i)) level.
Definition info_hash (level : nat) (i : CellInfo) : list bool :=
  ci_hashes i !!! Nat.min (get_level (ci_mask i)) level.

Definition read_byte (i : nat) (bits : list bool) : Z :=
  bits_to_Z (take 8 (drop (8 * i) bits)).

Definition hash_bits : nat := 256.
Definition depth_bits : nat := 16.

(** ** Type-specific checks: the level mask and the depths, or an error *)

Definition check_ordinary_cell (refs : list CellInfo) : option (Z * list Z) :=
  let mask := foldl (fun m r => Z.lor m (ci_mask r)) 0 refs in
  let depth j := foldl (fun d r => Z.max d (info_depth j r)) 0 refs in
  let inc := match refs with [] => 0 | _ => 1 end in
  Some (mask, map (fun j => depth j + inc) (seq 0 4)).

(** [depth_[i]] of a pruned branch, from level 3 (where it is 0) downwards. *)
Definition pruned_depth (mask : Z) (bits : list bool) (i : nat) (next : Z) : Z :=
  if is_significant (S i) mask then
    let before := get_hash_i (apply_level i mask) in
    let offset := (16 + get_hash_i mask * hash_bits + before * depth_bits)%nat in
    bits_to_Z (take depth_bits (drop offset bits))
  else next.

Definition check_pruned_branch (bits : list bool) (refs : list CellInfo)
    : option (Z * list Z) :=
  match refs with
  | _ :: _ => None
  | [] =>
      if (length bits <? 16)%nat then None else
      let mask := read_byte 1 bits in
      if (get_level mask =? 0)%nat || (max_level <? get_level mask)%nat then None
      else if negb (length bits =? 16 + get_hash_i mask * (hash_bits + depth_bits))%nat then None
      else
        let d3 := 0 in
        let d2 := pruned_depth mask bits 2 d3 in
        let d1 := pruned_depth mask bits 1 d2 in
        let d0 := pruned_depth mask bits 0 d1 in
        Some (mask, [d0; d1; d2; d3])
  end.

Definition check_library (bits : list bool) (refs : list CellInfo) : option (Z * list Z) :=
  match refs with
  | _ :: _ => None
  | [] => if (length bits =? 8 + hash_bits)%nat then Some (0, [0; 0; 0; 0]) else None
  end.

(** [check_merkle_child], with bit offsets. *)
Definition check_merkle_child (bits : list bool) (child : CellInfo)
    (hash_offset depth_offset : nat) (depths : list Z) : option (list Z) :=
  if negb (bool_decide (take hash_bits (drop hash_offset bits) = info_hash 0 child)) then None
  else if negb (bits_to_Z (take depth_bits (drop depth_offset bits)) =? info_depth 0 child) then None
  else Some (zip_with (fun d j => Z.max d (info_depth (S j) child + 1)) depths (seq 0 4)).

Definition check_merkle_proof (bits : list bool) (refs : list CellInfo)
    : option (Z * list Z) :=
  match refs with
  | [r] =>
      if negb (length bits =? 8 + hash_bits + depth_bits)%nat then None else
      match check_merkle_child bits r 8 (8 + hash_bits) [0; 0; 0; 0] with
      | Some d => Some (Z.shiftr (ci_mask r) 1, d)
      | None => None
      end
  | _ => None
  end.

Definition check_merkle_update (bits : list bool) (refs : list CellInfo)
    : option (Z * list Z) :=
  match refs with
  | [r0; r1] =>
      if negb (length bits =? 8 + (hash_bits + depth_bits) * 2)%nat then None else
      match check_merkle_child bits r0 8 (8 + 2 * hash_bits) [0; 0; 0; 0] with
      | Some d =>
          match check_merkle_child bits r1 (8 + hash_bits) (8 + 2 * hash_bits + depth_bits) d with
          | Some d' => Some (Z.shiftr (Z.lor (ci_mask r0) (ci_mask r1)) 1, d')
          | None => None
          end
      | None => None
      end
  | _ => None
  end.

(** The type of a cell from its flag and first byte. *)
Definition cell_type (special : bool) (bits : list bool) : option SpecialType :=
  if special then
    if (length bits <? 8)%nat then None else
    match read_byte 0 bits with
    | 1 => Some PrunnedBranch
    | 2 => Some Library
    | 3 => Some MerkleProof
    | 4 => Some MerkleUpdate
    | _ => None
    end
  else Some Ordinary.

Definition check_by_type (t : SpecialType) (bits : list bool) (refs : list CellInfo)
    : option (Z * list Z) :=
  match t with
  | Ordinary => check_ordinary_cell refs
  | PrunnedBranch => check_pruned_branch bits refs
  | Library => check_library bits refs
  | MerkleProof => check_merkle_proof bits refs
  | MerkleUpdate => check_merkle_update bits refs
  end.

(** ** Hashes *)

(** The data completed to whole bytes: a one and zeros when it is not aligned. *)
Definition pad_data (bits : list bool) : list bool :=
  if (length bits mod 8 =? 0)%nat then bits
  else bits ++ true :: replicate (7 - length bits mod 8) false.

Definition descr1 (special : bool) (refs_cnt : nat) (mask : Z) (level : nat) : Z :=
  Z.of_nat refs_cnt + Z.shiftl (Z.b2z special) 3 + Z.shiftl (apply_level level mask) 5.
Definition descr2 (n : nat) : Z :=
  Z.shiftl (Z.shiftr (Z.of_nat n) 3) 1 + Z.b2z (negb (Z.land (Z.of_nat n) 7 =? 0)).

(** The string that is hashed at [level]; [prev] is the hash computed before. *)
Definition hash_input (t : SpecialType) (special : bool) (mask : Z) (bits : list bool)
    (refs : list CellInfo) (level : nat) (prev : option (list bool)) : list bool :=
  let merkle := bool_decide (t = MerkleUpdate) || bool_decide (t = MerkleProof) in
  let child_level := if merkle then Nat.min max_level (S level) else level in
  Z_to_bits 8 (descr1 special (length refs) mask level) ++
  Z_to_bits 8 (descr2 (length bits)) ++
  (match prev with
   | Some h => if bool_decide (t = PrunnedBranch) then pad_data bits else h
   | None => pad_data bits
   end) ++
  concat (map (fun r => Z_to_bits depth_bits (info_depth child_level r)) refs) ++
  concat (map (fun r => info_hash child_level r) refs).

Section sha.
Context `{Sha256}.

Definition compute_hash (t : SpecialType) (special : bool) (mask : Z) (bits : list bool)
    (refs : list CellInfo) (level : nat) (prev : option (list bool)) : list bool :=
  if negb (level =? max_level)%nat && bool_decide (t = PrunnedBranch) then
    take hash_bits (drop (16 + get_hash_i (apply_level level mask) * hash_bits) bits)
  else sha256 (hash_input t special mask bits refs level prev).

(** One round of the loop over the levels; [acc] are the entries of [hash_] filled
    so far, so its last element is [hash_[last_computed_hash]]. *)
Definition hash_step (t : SpecialType) (special : bool) (mask : Z) (bits : list bool)
    (refs : list CellInfo) (acc : list (list bool)) (i : nat) : list (list bool) :=
  if negb (is_significant (S i) mask) && negb (i =? max_level)%nat then acc
  else
    let h := compute_hash t special mask bits refs i (list.last acc) in
    acc ++ replicate (i - length acc) h ++ [h].

Definition compute_hashes (t : SpecialType) (special : bool) (mask : Z) (bits : list bool)
    (refs : list CellInfo) : list (list bool) :=
  foldl (hash_step t special mask bits refs) [] (seq 0 4).

(** [CellChecker::check_and_compute_level_info] *)
Definition check_and_compute (special : bool) (bits : list bool) (refs : list CellInfo)
    : option CellInfo :=
  match cell_type special bits with
  | None => None
  | Some t =>
      match check_by_type t bits refs with
      | None => None
      | Some (mask, depths) =>
          if forallb (fun d => d <=? Z.of_nat max_depth) depths then
            Some (mkInfo t mask depths (compute_hashes t special mask bits refs))
          else None
      end
  end.

(** The same for a whole tree of cells: every cell of it was created before. *)
Fixpoint cell_info (c : Cell) : option CellInfo :=
  let 'DataCell special bits refs := c in
  match mapM id (map cell_info refs) with
  | None => None
  | Some infos =>
      if (max_refs <? length refs)%nat || (max_bits <? length bits)%nat then None
      else check_and_compute special bits infos
  end.

(** [DataCell::create], on references to created cells. *)
Definition create (bits : list bool) (refs : list Cell) (special : bool) : option Cell :=
  let c := DataCell special bits refs in
  match cell_info c with Some _ => Some c | None => None end.

Definition get_hash (c : Cell) : list bool :=
  match cell_info c with Some i => info_hash max_level i | None => [] end.
Definition get_depth (c : Cell) : Z :=
  match cell_info c with Some i => info_depth max_level i | None => 0 end.
Definition get_cell_level (c : Cell) : nat :=
  match cell_info c with Some i => get_level (ci_mask i) | None => 0%nat end.
End sha.

(** ** Induction over trees of cells *)

Lemma Cell_ind' (P : Cell -> Prop) :
  (forall sp bits refs, Forall P refs -> P (DataCell sp bits refs)) -> forall c, P c.
Proof.
  intros H. fix IH 1. intros [sp bits refs]. apply H.
  induction refs as [|r refs IHr]; constructor; [apply IH|apply IHr].
Qed.

(** ** Level masks and depths of valid cells *)

Definition mask_ok (m : Z) : Prop := 0 <= m < 8.

Lemma mask_cases m : mask_ok m -> m ∈ [0; 1; 2; 3; 4; 5; 6; 7].
Proof. unfold mask_ok. intros. rewrite !elem_of_cons, elem_of_nil. lia. Qed.

Lemma mask_bits m : 0 <= m -> (mask_ok m <-> Z.shiftr m 3 = 0).
Proof.
  intros Hm. unfold mask_ok. rewrite Z.shiftr_div_pow2 by lia. change (2 ^ 3) with 8.
  split; [intros; apply Z.div_small; lia|]. intros H. div_lia.
Qed.
Lemma mask_lor a b : mask_ok a -> mask_ok b -> mask_ok (Z.lor a b).
Proof.
  intros Ha Hb. assert (0 <= Z.lor a b) by (apply Z.lor_nonneg; unfold mask_ok in *; lia).
  apply mask_bits; [done|]. rewrite Z.shiftr_lor.
  apply mask_bits in Ha as ->; [|unfold mask_ok in *; lia].
  apply mask_bits in Hb as ->; [done|unfold mask_ok in *; lia].
Qed.
Lemma mask_shiftr a : mask_ok a -> mask_ok (Z.shiftr a 1).
Proof. unfold mask_ok. rewrite Z.shiftr_div_pow2 by lia. intros. change (2 ^ 1) with 2. div_lia. Qed.

Lemma bits_to_Z_range bs : 0 <= bits_to_Z bs < 2 ^ Z.of_nat (length bs).
Proof.
  induction bs as [|b bs IH]; simpl; [lia|].
  replace (Z.of_nat (S (length bs))) with (Z.succ (Z.of_nat (length bs))) by lia.
  rewrite Z.pow_succ_r by lia. destruct b; simpl Z.b2z; lia.
Qed.

Lemma get_level_3 m : 0 <= m -> (get_level m <= 3)%nat -> mask_ok m.
Proof.
  unfold get_level, mask_ok. destruct (Z.eqb_spec m 0); [lia|]. intros Hm Hl.
  pose proof (Z.log2_spec m). pose proof (Z.log2_nonneg m).
  assert (2 ^ Z.succ (Z.log2 m) <= 2 ^ 3) by (apply Z.pow_le_mono_r; lia).
  change (2 ^ 3) with 8 in *. lia.
Qed.

(** The level of a mask, by computation. *)
Ltac mask_case H := apply mask_cases in H; rewrite !elem_of_cons, elem_of_nil in H;
  destruct H as [H|[H|[H|[H|[H|[H|[H|[H|[]]]]]]]]]; rewrite H in *.

Lemma get_level_le m : mask_ok m -> (get_level m <= 3)%nat.
Proof. intros H. mask_case H; vm_compute; lia. Qed.
Lemma not_significant_above m i : mask_ok m -> (get_level m <= i)%nat -> is_significant (S i) m = false.
Proof.
  intros Hm Hi. unfold is_significant. destruct (Nat.leb_spec 32 (S i)); [done|]. cbn [orb Nat.eqb].
  replace (Z.of_nat (S i) - 1) with (Z.of_nat i) by lia.
  apply negb_false_iff, Z.eqb_eq. rewrite Z.shiftr_div_pow2 by lia.
  rewrite Z.div_small; [done|]. unfold get_level, mask_ok in *.
  pose proof (pow2_pos (Z.of_nat i)).
  destruct (Z.eqb_spec m 0); [lia|]. pose proof (Z.log2_spec m ltac:(lia)).
  pose proof (Z.log2_nonneg m).
  assert (2 ^ Z.succ (Z.log2 m) <= 2 ^ Z.of_nat i) by (apply Z.pow_le_mono_r; lia). lia.
Qed.

Lemma get_level_lor a b :
  mask_ok a -> mask_ok b -> get_level (Z.lor a b) = Nat.max (get_level a) (get_level b).
Proof. intros Ha Hb. mask_case Ha; mask_case Hb; reflexivity. Qed.
Lemma get_level_shiftr a : mask_ok a -> get_level (Z.shiftr a 1) = (get_level a - 1)%nat.
Proof. intros Ha. mask_case Ha; reflexivity. Qed.

(** What [check_and_compute] establishes for a cell of tree depth [d]: above the
    level of the cell all depths are [d]. *)
Record info_ok (d : Z) (i : CellInfo) : Prop := mkInfoOk {
  ok_mask : mask_ok (ci_mask i);
  ok_depth_len : length (ci_depths i) = 4%nat;
  ok_depth : forall j, (get_level (ci_mask i) <= j <= 3)%nat -> ci_depths i !! j = Some d;
  ok_bound : Forall (fun x => x <= Z.of_nat max_depth) (ci_depths i)
}.

Lemma info_depth_top d i j :
  info_ok d i -> (get_level (ci_mask i) <= j)%nat -> info_depth j i = d.
Proof.
  intros Hi Hj. unfold info_depth. pose proof (get_level_le _ (ok_mask _ _ Hi)).
  rewrite Nat.min_l by lia. apply list_lookup_total_correct. apply (ok_depth _ _ Hi). lia.
Qed.

Definition refs_ok (refs : list Cell) (infos : list CellInfo) : Prop :=
  Forall2 (fun r i => info_ok (Z.of_nat (cell_depth r)) i) refs infos.

Definition mask_union (infos : list CellInfo) : Z :=
  foldl (fun m r => Z.lor m (ci_mask r)) 0 infos.
Definition refs_depth (refs : list Cell) : nat :=
  foldr (fun r d => Nat.max (cell_depth r) d) 0%nat refs.

Lemma mask_union_from refs infos m :
  refs_ok refs infos -> mask_ok m ->
  let u := foldl (fun m r => Z.lor m (ci_mask r)) m infos in
  mask_ok u /\ (get_level m <= get_level u)%nat /\
  Forall (fun i => (get_level (ci_mask i) <= get_level u)%nat) infos.
Proof.
  intros H. revert m. induction H as [|r i refs infos Hi H IH]; intros m Hm; simpl; [by split_and!; [|lia|constructor]|].
  pose proof (ok_mask _ _ Hi) as Hmi.
  destruct (IH (Z.lor m (ci_mask i)) (mask_lor _ _ Hm Hmi)) as (? & Hl & ?).
  rewrite get_level_lor in Hl by done. split_and!; [done|lia|]. constructor; [lia|done].
Qed.

Lemma max_depth_from refs infos j a :
  refs_ok refs infos -> Forall (fun i => (get_level (ci_mask i) <= j)%nat) infos -> 0 <= a ->
  foldl (fun d r => Z.max d (info_depth j r)) a infos = Z.max a (Z.of_nat (refs_depth refs)).
Proof.
  intros H. revert a. induction H as [|r i refs infos Hi H IH]; intros a Hj Ha; simpl; [lia|].
  apply Forall_cons_1 in Hj as [Hj1 Hj2]. rewrite IH by (done || lia).
  rewrite (info_depth_top _ _ _ Hi Hj1). lia.
Qed.

Lemma check_ordinary_ok refs infos m ds :
  refs_ok refs infos -> check_ordinary_cell infos = Some (m, ds) ->
  mask_ok m /\ length ds = 4%nat /\
  forall sp bits j, (get_level m <= j <= 3)%nat ->
    ds !! j = Some (Z.of_nat (cell_depth (DataCell sp bits refs))).
Proof.
  intros Hr [= <- <-]. destruct (mask_union_from _ _ 0 Hr) as (Hm & _ & Hl); [by split|].
  split_and!; [done|done|]. intros sp bits j Hj.
  assert (forall j, (get_level (mask_union infos) <= j)%nat ->
    foldl (fun d r => Z.max d (info_depth j r)) 0 infos = Z.of_nat (refs_depth refs)) as Hd.
  { intros k Hk. rewrite (max_depth_from refs); [lia|done| |lia].
    eapply list.Forall_impl; [exact Hl|]. simpl. unfold mask_union in Hk. lia. }
  assert (Z.of_nat (refs_depth refs) + match infos with [] => 0 | _ => 1 end =
    Z.of_nat (cell_depth (DataCell sp bits refs))) as <-.
  { destruct Hr as [|r i refs infos]; [done|]. cbn [cell_depth]. fold (refs_depth (r :: refs)). lia. }
  unfold mask_union in Hd.
  destruct j as [|[|[|[|j]]]]; [..|lia]; simpl; do 2 f_equal; apply Hd; lia.
Qed.

Lemma check_pruned_ok bits infos m ds :
  check_pruned_branch bits infos = Some (m, ds) ->
  mask_ok m /\ m <> 0 /\ infos = [] /\ length ds = 4%nat /\
  (length bits = 16 + get_hash_i m * (hash_bits + depth_bits))%nat /\
  m = read_byte 1 bits /\
  forall j, (get_level m <= j <= 3)%nat -> ds !! j = Some 0.
Proof.
  unfold check_pruned_branch. destruct infos; [|done].
  destruct (_ <? _)%nat; [done|]. destruct (_ || _) eqn:El; [done|].
  destruct (negb _) eqn:Eb; [done|]. intros [= <- <-].
  apply orb_false_iff in El as [El0%Nat.eqb_neq El%Nat.ltb_ge].
  apply negb_false_iff, Nat.eqb_eq in Eb.
  assert (mask_ok (read_byte 1 bits)) as Hm.
  { apply get_level_3; [apply bits_to_Z_range|done]. }
  split_and!; [done| |done|done|done|done|].
  - intros H0. by rewrite H0 in El0.
  - intros j Hj. unfold pruned_depth.
    destruct j as [|[|[|[|j]]]]; [| | |done|lia]; simpl;
      rewrite !not_significant_above by (done || lia); done.
Qed.

Lemma check_library_ok bits infos m ds :
  check_library bits infos = Some (m, ds) -> m = 0 /\ ds = [0; 0; 0; 0] /\ infos = [].
Proof. unfold check_library. repeat case_match; naive_solver. Qed.

Lemma check_merkle_child_ok bits d child ho do_ depths ds :
  info_ok d child -> check_merkle_child bits child ho do_ depths = Some ds ->
  length depths = 4%nat ->
  length ds = 4%nat /\
  forall j x, (get_level (Z.shiftr (ci_mask child) 1) <= j <= 3)%nat ->
    depths !! j = Some x -> ds !! j = Some (Z.max x (d + 1)).
Proof.
  intros Hi H Hlen. unfold check_merkle_child in H. repeat case_match; simplify_eq.
  split; [by rewrite length_zip_with, Hlen|].
  intros j x Hj Hx. rewrite lookup_zip_with, Hx. cbn [mbind option_bind].
  rewrite lookup_seq_lt by lia. cbn [mbind option_bind]. do 2 f_equal.
  rewrite get_level_shiftr in Hj by apply (ok_mask _ _ Hi).
  rewrite (info_depth_top d) by (done || lia). lia.
Qed.

Lemma check_merkle_proof_ok bits refs infos m ds :
  refs_ok refs infos -> check_merkle_proof bits infos = Some (m, ds) ->
  mask_ok m /\ length ds = 4%nat /\ infos <> [] /\
  forall sp bits j, (get_level m <= j <= 3)%nat ->
    ds !! j = Some (Z.of_nat (cell_depth (DataCell sp bits refs))).
Proof.
  intros Hr H. unfold check_merkle_proof in H.
  destruct infos as [|i [|]]; [done| |done]. case_match; [done|].
  destruct (check_merkle_child bits i 8 _ _) as [d|] eqn:Hc; [|done]. injection H as <- <-.
  inversion Hr as [|r ? ? refs' Hi Hn]; simplify_eq. inversion Hn; simplify_eq.
  destruct (check_merkle_child_ok _ _ _ _ _ _ _ Hi Hc eq_refl) as [Hl Hd].
  split_and!; [by apply mask_shiftr, (ok_mask _ _ Hi)|done|done|].
  intros sp bits' j Hj. rewrite (Hd j 0) by (done || by destruct j as [|[|[|[|]]]]; [..|lia]).
  f_equal. simpl. lia.
Qed.

Lemma check_merkle_update_ok bits refs infos m ds :
  refs_ok refs infos -> check_merkle_update bits infos = Some (m, ds) ->
  mask_ok m /\ length ds = 4%nat /\ infos <> [] /\
  forall sp bits j, (get_level m <= j <= 3)%nat ->
    ds !! j = Some (Z.of_nat (cell_depth (DataCell sp bits refs))).
Proof.
  intros Hr H. unfold check_merkle_update in H.
  destruct infos as [|i [|i' [|]]]; [done|done| |done]. case_match; [done|].
  destruct (check_merkle_child bits i 8 _ _) as [d|] eqn:Hc; [|done].
  destruct (check_merkle_child bits i' _ _ _) as [d'|] eqn:Hc'; [|done]. injection H as <- <-.
  inversion Hr as [|r ? ? refs' Hi Hn]; simplify_eq.
  inversion Hn as [|r' ? ? ? Hi' Hn']; simplify_eq. inversion Hn'; simplify_eq.
  destruct (check_merkle_child_ok _ _ _ _ _ _ _ Hi Hc eq_refl) as [Hl Hd].
  destruct (check_merkle_child_ok _ _ _ _ _ _ _ Hi' Hc' Hl) as [Hl' Hd'].
  pose proof (ok_mask _ _ Hi) as Hm. pose proof (ok_mask _ _ Hi') as Hm'.
  split_and!; [by apply mask_shiftr, mask_lor|done|done|].
  intros sp bits' j Hj. rewrite get_level_shiftr, get_level_lor in Hj by auto using mask_lor.
  rewrite (Hd' j (Z.max 0 (Z.of_nat (cell_depth r) + 1))).
  - f_equal. simpl. lia.
  - rewrite get_level_shiftr by done. lia.
  - apply Hd; [rewrite get_level_shiftr by done; lia|]. by destruct j as [|[|[|[|]]]]; [..|lia].
Qed.

Section valid_cells.
Context `{Sha256}.

Lemma cell_info_inv sp bits refs i :
  cell_info (DataCell sp bits refs) = Some i ->
  exists infos, Forall2 (fun r x => cell_info r = Some x) refs infos /\
    (length refs <= max_refs)%nat /\ (length bits <= max_bits)%nat /\
    check_and_compute sp bits infos = Some i.
Proof.
  cbn [cell_info]. destruct (mapM id (map cell_info refs)) as [infos|] eqn:Hm; [|done].
  destruct (_ || _) eqn:E; [done|]. intros Hi.
  apply orb_false_iff in E as [E1%Nat.ltb_ge E2%Nat.ltb_ge].
  exists infos. split_and!; [|done|done|done].
  apply mapM_Some in Hm. rewrite Forall2_fmap_l in Hm. done.
Qed.

Lemma check_and_compute_inv sp bits infos i :
  check_and_compute sp bits infos = Some i ->
  exists depths, cell_type sp bits = Some (ci_type i) /\
    check_by_type (ci_type i) bits infos = Some (ci_mask i, depths) /\
    ci_depths i = depths /\ Forall (fun d => d <= Z.of_nat max_depth) depths /\
    ci_hashes i = compute_hashes (ci_type i) sp (ci_mask i) bits infos.
Proof.
  unfold check_and_compute. destruct (cell_type sp bits) as [t|]; [|done].
  destruct (check_by_type t bits infos) as [[m ds]|] eqn:Hc; [|done].
  destruct (forallb _ ds) eqn:Hf; [|done]. intros [= <-]. exists ds. split_and!; try done.
  apply list.Forall_forall. intros x Hx. apply Z.leb_le.
  rewrite forallb_forall in Hf. apply Hf. by apply list_elem_of_In.
Qed.

(** The depths and the level mask of every valid cell are as expected. *)
Lemma check_and_compute_ok sp bits refs infos i :
  refs_ok refs infos -> check_and_compute sp bits infos = Some i ->
  info_ok (Z.of_nat (cell_depth (DataCell sp bits refs))) i.
Proof.
  intros Hr (ds & Ht & Hc & Hds & Hb & _)%check_and_compute_inv.
  assert (mask_ok (ci_mask i) /\ length ds = 4%nat /\
    forall j, (get_level (ci_mask i) <= j <= 3)%nat ->
      ds !! j = Some (Z.of_nat (cell_depth (DataCell sp bits refs)))) as (? & ? & ?).
  { destruct (ci_type i); simpl in Hc.
    - destruct (check_ordinary_ok _ _ _ _ Hr Hc) as (? & ? & ?). auto.
    - apply check_pruned_ok in Hc as (? & _ & -> & ? & _ & _ & ?). inversion Hr. auto.
    - apply check_library_ok in Hc as (-> & -> & ->). inversion Hr. split_and!; [by split|done|].
      intros j Hj. by destruct j as [|[|[|[|]]]]; [..|lia].
    - destruct (check_merkle_proof_ok _ _ _ _ _ Hr Hc) as (? & ? & _ & ?). auto.
    - destruct (check_merkle_update_ok _ _ _ _ _ Hr Hc) as (? & ? & _ & ?). auto. }
  split; subst; auto.
Qed.

Lemma cell_info_ok c i : cell_info c = Some i -> info_ok (Z.of_nat (cell_depth c)) i.
Proof.
  revert i. induction c as [sp bits refs IH] using Cell_ind'. intros i Hi.
  apply cell_info_inv in Hi as (infos & Hr & _ & _ & Hc).
  eapply check_and_compute_ok; [|done]. unfold refs_ok.
  clear Hc. induction Hr as [|r x refs infos Hx Hr IHr]; [constructor|].
  apply Forall_cons_1 in IH as [IH1 IH2]. constructor; auto.
Qed.
End valid_cells.

(** ** Hashes bind contents *)

Lemma Z_to_bits_length n x : length (Z_to_bits n x) = n.
Proof. induction n as [|n IH]; simpl; [done|by rewrite IH]. Qed.

Lemma bits_to_Z_of_Z n x : bits_to_Z (Z_to_bits n x) = x mod 2 ^ Z.of_nat n.
Proof.
  induction n as [|n IH]; [simpl; by rewrite Z.mod_1_r|].
  cbn [Z_to_bits bits_to_Z]. rewrite Z_to_bits_length, IH.
  replace (Z.of_nat (S n)) with (Z.of_nat n + 1) by lia.
  rewrite Z.pow_add_r, Z.testbit_spec' by lia. change (2 ^ 1) with 2.
  rewrite (Z.rem_mul_r x (2 ^ Z.of_nat n) 2) by (try apply Z.pow_nonzero; lia). lia.
Qed.

Lemma Z_to_bits_inj n x y :
  0 <= x < 2 ^ Z.of_nat n -> 0 <= y < 2 ^ Z.of_nat n -> Z_to_bits n x = Z_to_bits n y -> x = y.
Proof.
  intros Hx Hy E. apply (f_equal bits_to_Z) in E. rewrite !bits_to_Z_of_Z in E.
  by rewrite !Z.mod_small in E.
Qed.

Lemma replicate_tail_inj (a b : list bool) k k' :
  a ++ true :: replicate k false = b ++ true :: replicate k' false -> a = b.
Proof.
  intros E. apply (f_equal (@rev bool)) in E. rewrite !rev_app_distr in E. simpl in E.
  assert (forall n, rev (replicate n false) = replicate n false) as Hrev.
  { intros n. apply list_eq_same_length with n; [by rewrite ?length_rev, length_replicate..|].
    intros i x y Hi Hx Hy. apply lookup_replicate in Hy as [-> _].
    apply list_elem_of_lookup_2 in Hx. apply list_elem_of_In, in_rev, list_elem_of_In in Hx.
    by apply elem_of_replicate in Hx as [-> _]. }
  rewrite !Hrev, <- !app_assoc in E. simpl in E. clear Hrev.
  enough (rev a = rev b) as H%(f_equal (@rev bool)) by by rewrite !rev_involutive in H.
  revert k' E. induction k as [|k IH]; intros [|k'] E; simpl in E; simplify_eq; eauto.
Qed.

Lemma pad_data_length bits : length (pad_data bits) = (8 * ((length bits + 7) / 8))%nat.
Proof.
  unfold pad_data. set (n := length bits).
  pose proof (Nat.div_mod_eq n 8). pose proof (Nat.mod_upper_bound n 8 ltac:(lia)).
  destruct (Nat.eqb_spec (n mod 8) 0) as [e|e].
  - rewrite <- (Nat.div_unique (n + 7) 8 (n / 8) 7) by lia. fold n. lia.
  - rewrite length_app. cbn [length]. rewrite length_replicate. fold n.
    rewrite <- (Nat.div_unique (n + 7) 8 (n / 8 + 1) (n mod 8 - 1)) by lia. lia.
Qed.

Lemma descr2_spec n :
  descr2 n = 2 * (Z.of_nat n / 8) + Z.b2z (negb (Z.of_nat n mod 8 =? 0)).
Proof.
  unfold descr2. rewrite Z.shiftl_mul_pow2, Z.shiftr_div_pow2 by lia.
  change 7 with (Z.ones 3). rewrite Z.land_ones by lia. change (2 ^ 3) with 8. change (2 ^ 1) with 2. lia.
Qed.
Lemma descr2_inj n n' :
  descr2 n = descr2 n' ->
  (n / 8 = n' / 8)%nat /\ (n mod 8 =? 0)%nat = (n' mod 8 =? 0)%nat.
Proof.
  rewrite !descr2_spec. change 8 with (Z.of_nat 8). rewrite <- !Nat2Z.inj_div, <- !Nat2Z.inj_mod.
  intros E. destruct (Z.eqb_spec (Z.of_nat (n mod 8)) 0), (Z.eqb_spec (Z.of_nat (n' mod 8)) 0);
    cbn [negb Z.b2z] in E;
    destruct (Nat.eqb_spec (n mod 8) 0), (Nat.eqb_spec (n' mod 8) 0); split; (done || lia).
Qed.

Lemma pad_data_inj bits bits' :
  descr2 (length bits) = descr2 (length bits') -> pad_data bits = pad_data bits' -> bits = bits'.
Proof.
  intros [Hd Hm]%descr2_inj. unfold pad_data. rewrite Hm.
  destruct (length bits' mod 8 =? 0)%nat; [tauto|]. apply replicate_tail_inj.
Qed.

Lemma descr2_byte_len n n' :
  descr2 n = descr2 n' -> ((n + 7) / 8 = (n' + 7) / 8)%nat.
Proof.
  intros [Hd Hm]%descr2_inj.
  pose proof (Nat.div_mod_eq n 8). pose proof (Nat.div_mod_eq n' 8).
  pose proof (Nat.mod_upper_bound n 8 ltac:(lia)). pose proof (Nat.mod_upper_bound n' 8 ltac:(lia)).
  destruct (Nat.eqb_spec (n mod 8) 0), (Nat.eqb_spec (n' mod 8) 0); try done.
  - do 2 f_equal. lia.
  - assert (forall a, a mod 8 <> 0 -> (a + 7) / 8 = a / 8 + 1)%nat as Hup.
    { intros a Ha. pose proof (Nat.div_mod_eq a 8). pose proof (Nat.mod_upper_bound a 8 ltac:(lia)).
      symmetry. apply (Nat.div_unique _ _ _ (a mod 8 - 1)); lia. }
    rewrite !Hup by done. lia.
Qed.

Lemma descr2_range n : (n <= max_bits)%nat -> 0 <= descr2 n < 2 ^ Z.of_nat 8.
Proof.
  unfold max_bits. intros H. rewrite descr2_spec. change (2 ^ Z.of_nat 8) with 256.
  destruct (negb _); simpl Z.b2z; div_lia.
Qed.

Lemma apply_level_3 m : mask_ok m -> apply_level 3 m = m.
Proof. intros H. by mask_case H. Qed.

Lemma descr1_range sp n m :
  (n <= max_refs)%nat -> mask_ok m -> 0 <= descr1 sp n m 3 < 2 ^ Z.of_nat 8.
Proof.
  unfold max_refs, mask_ok. intros H Hm. unfold descr1. rewrite apply_level_3 by done.
  rewrite !Z.shiftl_mul_pow2 by lia. change (2 ^ 3) with 8. change (2 ^ 5) with 32.
  change (2 ^ Z.of_nat 8) with 256. destruct sp; simpl Z.b2z; lia.
Qed.
Lemma descr1_inj sp sp' n n' m m' :
  (n <= max_refs)%nat -> mask_ok m -> (n' <= max_refs)%nat -> mask_ok m' ->
  descr1 sp n m 3 = descr1 sp' n' m' 3 -> sp = sp' /\ n = n' /\ m = m'.
Proof.
  unfold max_refs, mask_ok. intros Hn Hm Hn' Hm'. unfold descr1. rewrite !apply_level_3 by done.
  rewrite !Z.shiftl_mul_pow2 by lia. change (2 ^ 3) with 8. change (2 ^ 5) with 32.
  destruct sp, sp'; simpl Z.b2z; intros; split_and!; (done || lia).
Qed.

Lemma concat_inj {A} k (l l' : list (list A)) :
  Forall (fun x => length x = k) l -> Forall (fun x => length x = k) l' ->
  length l = length l' -> concat l = concat l' -> l = l'.
Proof.
  intros Hl. revert l'. induction Hl as [|x l Hx Hl IH]; intros l' Hl' Hlen E;
    destruct l' as [|x' l']; try done.
  apply Forall_cons_1 in Hl' as [Hx' Hl']. simpl in E, Hlen.
  apply app_inj_1 in E as [-> E]; [|by rewrite Hx, Hx'].
  f_equal. apply IH; [done|lia|done].
Qed.

Lemma concat_length_const {A} k (l : list (list A)) :
  Forall (fun x => length x = k) l -> length (concat l) = (length l * k)%nat.
Proof. induction 1 as [|x l Hx Hl IH]; simpl; [done|]. rewrite length_app. lia. Qed.

(** The strings that the loop of [compute_hashes] passes to SHA-256. *)
Section queries.
Context `{Sha256}.
Context (t : SpecialType) (special : bool) (mask : Z) (bits : list bool) (refs : list CellInfo).

Definition query_step (st : list (list bool) * list (list bool)) (i : nat) :=
  let '(acc, qs) := st in
  if negb (is_significant (S i) mask) && negb (i =? max_level)%nat then st
  else
    (hash_step t special mask bits refs acc i,
     if negb (i =? max_level)%nat && bool_decide (t = PrunnedBranch) then qs
     else qs ++ [hash_input t special mask bits refs i (list.last acc)]).

Definition hash_queries : list (list bool) := snd (foldl query_step ([], []) (seq 0 4)).

(** The levels at which a hash is computed, and the chain of these hashes. *)
Definition hash_levels : list nat :=
  filter (fun i => is_significant (S i) mask = true) (seq 0 3).

Fixpoint chain (ls : list nat) (prev : option (list bool)) : option (list bool) :=
  match ls with
  | [] => prev
  | l :: ls' => chain ls' (Some (compute_hash t special mask bits refs l prev))
  end.
Fixpoint chain_queries (ls : list nat) (prev : option (list bool)) : list (list bool) :=
  match ls with
  | [] => []
  | l :: ls' => hash_input t special mask bits refs l prev ::
      chain_queries ls' (Some (compute_hash t special mask bits refs l prev))
  end.

Lemma chain_snoc ls l prev :
  chain (ls ++ [l]) prev = Some (compute_hash t special mask bits refs l (chain ls prev)).
Proof. revert prev. induction ls as [|l' ls IH]; intros prev; simpl; [done|apply IH]. Qed.
Lemma chain_queries_snoc ls l prev :
  chain_queries (ls ++ [l]) prev =
  chain_queries ls prev ++ [hash_input t special mask bits refs l (chain ls prev)].
Proof.
  revert prev. induction ls as [|l' ls IH]; intros prev; simpl; [done|]. by rewrite IH.
Qed.

Lemma compute_hashes_top :
  mask_ok mask ->
  compute_hashes t special mask bits refs !!! get_level mask =
    compute_hash t special mask bits refs 3 (chain hash_levels None).
Proof.
  intros Hm. unfold compute_hashes, hash_levels, hash_step. set (f := compute_hash _ _ _ _ _).
  unfold chain. fold f. clearbody f. mask_case Hm; reflexivity.
Qed.

Lemma hash_queries_spec :
  mask_ok mask ->
  hash_queries = if bool_decide (t = PrunnedBranch)
                 then [hash_input t special mask bits refs 3 (chain hash_levels None)]
                 else chain_queries (hash_levels ++ [3%nat]) None.
Proof.
  intros Hm. unfold hash_queries, hash_levels, query_step, hash_step.
  set (f := compute_hash _ _ _ _ _). set (g := hash_input _ _ _ _ _).
  unfold chain_queries, chain. fold f g. clearbody f g.
  destruct (bool_decide (t = PrunnedBranch)); mask_case Hm; reflexivity.
Qed.
End queries.

(** [hashed c x]: [x] is hashed when the cell [c] and the cells below it are created. *)
Inductive hashed `{Sha256} : Cell -> list bool -> Prop :=
| hashed_here sp bits refs infos i x :
    Forall2 (fun r y => cell_info r = Some y) refs infos ->
    check_and_compute sp bits infos = Some i ->
    x ∈ hash_queries (ci_type i) sp (ci_mask i) bits infos ->
    hashed (DataCell sp bits refs) x
| hashed_ref sp bits refs r x : r ∈ refs -> hashed r x -> hashed (DataCell sp bits refs) x.

Definition collision `{Sha256} (P Q : list bool -> Prop) : Prop :=
  exists x y, P x /\ Q y /\ x <> y /\ sha256 x = sha256 y.

Lemma collision_mono `{Sha256} (P P' Q Q' : list bool -> Prop) :
  collision P Q -> (forall x, P x -> P' x) -> (forall x, Q x -> Q' x) -> collision P' Q'.
Proof. intros (x & y & ? & ? & ? & ?) ? ?. exists x, y. auto. Qed.

Section binding.
Context `{Sha256}.
Hypothesis sha_len : forall x, length (sha256 x) = hash_bits.

(** *** Every stored hash has 256 bits *)

Lemma hash_step_forall (P : list bool -> Prop) t sp m bits infos acc i :
  (forall prev, is_significant (S i) m = true \/ i = max_level ->
     P (compute_hash t sp m bits infos i prev)) ->
  Forall P acc -> Forall P (hash_step t sp m bits infos acc i).
Proof.
  intros Hf Ha. unfold hash_step. destruct (_ && _) eqn:E; [done|].
  apply andb_false_iff in E. rewrite !negb_false_iff, Nat.eqb_eq in E.
  apply Forall_app. split; [done|]. apply Forall_app. split; [|by repeat constructor; auto].
  apply Forall_replicate. auto.
Qed.

Lemma compute_hashes_length t sp m bits infos :
  length (compute_hashes t sp m bits infos) = 4%nat.
Proof.
  unfold compute_hashes.
  assert (forall i acc, (length acc <= i)%nat ->
    (length (hash_step t sp m bits infos acc i) <= S i)%nat) as Hs.
  { intros i acc Hl. unfold hash_step. case_match; [lia|].
    rewrite !length_app, length_replicate. simpl. lia. }
  assert (forall acc, (length acc <= 3)%nat ->
    length (hash_step t sp m bits infos acc 3) = 4%nat) as H3.
  { intros acc Hl. unfold hash_step. rewrite andb_false_r.
    rewrite !length_app, length_replicate. simpl. lia. }
  change (seq 0 4) with [0; 1; 2; 3]%nat. simpl foldl. apply H3, Hs, Hs, Hs. simpl. lia.
Qed.

Lemma compute_hash_length t sp m bits infos i prev :
  (t = PrunnedBranch -> mask_ok m /\
     length bits = 16 + get_hash_i m * (hash_bits + depth_bits))%nat ->
  is_significant (S i) m = true \/ i = max_level ->
  length (compute_hash t sp m bits infos i prev) = hash_bits.
Proof.
  intros Ht Hi. unfold compute_hash. destruct (_ && _) eqn:E; [|apply sha_len].
  apply andb_true_iff in E as [Hn%negb_true_iff%Nat.eqb_neq Hp%bool_decide_eq_true_1].
  destruct Hi as [Hi|Hi]; [|done]. specialize (Ht Hp) as [Hm Hb].
  rewrite length_take, length_drop, Hb.
  destruct (Nat.le_gt_cases (get_level m) i) as [Hl|Hl].
  { by rewrite not_significant_above in Hi. }
  pose proof (get_level_le m Hm).
  assert (get_hash_i (apply_level i m) < get_hash_i m)%nat as Hlt.
  { destruct i as [|[|[|i]]]; [| | |lia]; mask_case Hm; try discriminate; vm_compute; lia. }
  clear -Hlt. unfold hash_bits, depth_bits in *.
  set (k := get_hash_i (apply_level i m)) in *. set (n := get_hash_i m) in *. lia.
Qed.

Definition hashes_ok (i : CellInfo) : Prop :=
  length (ci_hashes i) = 4%nat /\ Forall (fun h => length h = hash_bits) (ci_hashes i).

Lemma info_hash_length i j : mask_ok (ci_mask i) -> hashes_ok i -> length (info_hash j i) = hash_bits.
Proof.
  intros Hm [Hl Hh]. unfold info_hash. pose proof (get_level_le _ Hm).
  destruct (lookup_lt_is_Some_2 (ci_hashes i) (Nat.min (get_level (ci_mask i)) j)) as [h E]; [lia|].
  rewrite (list_lookup_total_correct _ _ _ E). by eapply Forall_lookup_1 in Hh.
Qed.

Lemma check_and_compute_hashes sp bits infos i :
  check_and_compute sp bits infos = Some i -> hashes_ok i.
Proof.
  intros (ds & _ & Hc & _ & _ & Hh)%check_and_compute_inv. unfold hashes_ok. rewrite Hh.
  split; [apply compute_hashes_length|].
  assert (forall k prev, is_significant (S k) (ci_mask i) = true \/ k = max_level ->
    length (compute_hash (ci_type i) sp (ci_mask i) bits infos k prev) = hash_bits) as Hf.
  { intros k prev. apply compute_hash_length. intros E. rewrite E in Hc.
    apply check_pruned_ok in Hc as (? & _ & _ & _ & ? & _). auto. }
  unfold compute_hashes. change (seq 0 4) with [0; 1; 2; 3]%nat. simpl foldl.
  repeat (apply hash_step_forall; [auto|]). constructor.
Qed.

(** *** Injectivity of the hashed string *)

Definition body_of (t : SpecialType) (bits : list bool) (prev : option (list bool)) : list bool :=
  match prev with
  | Some h => if bool_decide (t = PrunnedBranch) then pad_data bits else h
  | None => pad_data bits
  end.

(** The parts of two equal strings hashed at level 3. *)
Lemma hash_input_split t t' sp sp' m m' bits bits' infos infos' prev prev' :
  mask_ok m -> mask_ok m' -> (length infos <= max_refs)%nat -> (length infos' <= max_refs)%nat ->
  (length bits <= max_bits)%nat -> (length bits' <= max_bits)%nat ->
  hash_input t sp m bits infos 3 prev = hash_input t' sp' m' bits' infos' 3 prev' ->
  sp = sp' /\ m = m' /\ length infos = length infos' /\
  descr2 (length bits) = descr2 (length bits') /\
  body_of t bits prev ++ concat (map (fun r => Z_to_bits depth_bits (info_depth 3 r)) infos) ++
    concat (map (info_hash 3) infos) =
  body_of t' bits' prev' ++ concat (map (fun r => Z_to_bits depth_bits (info_depth 3 r)) infos') ++
    concat (map (info_hash 3) infos').
Proof.
  intros Hm Hm' Hn Hn' Hb Hb' E. unfold hash_input in E.
  change (Nat.min max_level 4) with 3%nat in E.
  assert (forall b : bool, (if b then 3%nat else 3%nat) = 3%nat) as Hif by by intros [].
  rewrite !Hif in E.
  apply app_inj_1 in E as [E1 E]; [|by rewrite !Z_to_bits_length].
  apply app_inj_1 in E as [E2 E]; [|by rewrite !Z_to_bits_length].
  apply Z_to_bits_inj in E1; [|by apply descr1_range..].
  apply Z_to_bits_inj in E2; [|by apply descr2_range..].
  destruct (descr1_inj _ _ _ _ _ _ Hn Hm Hn' Hm' E1) as (-> & Hl & ->).
  split_and!; [done..|]. exact E.
Qed.

Lemma depths_length infos :
  length (concat (map (fun r => Z_to_bits depth_bits (info_depth 3 r)) infos)) =
  (length infos * depth_bits)%nat.
Proof.
  rewrite (concat_length_const depth_bits); [by rewrite length_map|].
  apply Forall_map, Forall_true. intros. apply Z_to_bits_length.
Qed.

(** Strings hashed at a lower level, for cells with the same descriptors. *)
Lemma hash_input_prev t t' sp m bits bits' infos infos' l h h' :
  t <> PrunnedBranch -> t' <> PrunnedBranch ->
  length infos = length infos' -> length h = length h' ->
  hash_input t sp m bits infos l (Some h) = hash_input t' sp m bits' infos' l (Some h') -> h = h'.
Proof.
  intros Ht Ht' Hn Hh E. unfold hash_input in E.
  rewrite !bool_decide_eq_false_2 with (P := _ = PrunnedBranch) in E by done.
  apply app_inj_1 in E as [_ E]; [|by rewrite !Z_to_bits_length].
  apply app_inj_1 in E as [_ E]; [|by rewrite !Z_to_bits_length].
  by apply app_inj_1 in E as [E _].
Qed.
Lemma hash_input_none t t' sp m bits bits' infos infos' l :
  descr2 (length bits) = descr2 (length bits') ->
  hash_input t sp m bits infos l None = hash_input t' sp m bits' infos' l None -> bits = bits'.
Proof.
  intros Hd E. unfold hash_input in E.
  apply app_inj_1 in E as [_ E]; [|by rewrite !Z_to_bits_length].
  apply app_inj_1 in E as [_ E]; [|by rewrite !Z_to_bits_length].
  apply app_inj_1 in E as [E _]; [by apply pad_data_inj|].
  rewrite !pad_data_length. f_equal. by apply descr2_byte_len.
Qed.

(** Equal ends of two chains: equal data, or a collision on the way. *)
Lemma chain_inj t t' sp m bits bits' infos infos' ls :
  t <> PrunnedBranch -> t' <> PrunnedBranch -> length infos = length infos' ->
  descr2 (length bits) = descr2 (length bits') -> ls <> [] ->
  chain t sp m bits infos ls None = chain t' sp m bits' infos' ls None ->
  bits = bits' \/
  collision (fun x => x ∈ chain_queries t sp m bits infos ls None)
            (fun y => y ∈ chain_queries t' sp m bits' infos' ls None).
Proof.
  intros Ht Ht' Hn Hd. induction ls as [|l ls IH] using rev_ind; [done|]. intros _ E.
  rewrite !chain_snoc in E. rewrite !chain_queries_snoc. injection E as E.
  unfold compute_hash in E. rewrite !bool_decide_eq_false_2, !andb_false_r in E by done.
  set (p := chain t sp m bits infos ls None) in *.
  set (p' := chain t' sp m bits' infos' ls None) in *.
  destruct (decide (hash_input t sp m bits infos l p = hash_input t' sp m bits' infos' l p')) as [Ei|Ei].
  2: { right. eexists _, _. split_and!; [| |exact Ei|exact E];
       apply elem_of_app; right; by apply list_elem_of_singleton. }
  destruct (decide (ls = [])) as [->|Hls].
  { left. by eapply hash_input_none. }
  assert (exists k ks, ls = ks ++ [k]) as (k & ks & Hk).
  { destruct (exists_last Hls) as (ks & k & ->). eauto. }
  assert (p = p') as Hpp.
  { subst p p'. rewrite Hk, !chain_snoc in *. f_equal.
    eapply hash_input_prev; [| | |  |exact Ei]; [done..|].
    unfold compute_hash. rewrite !bool_decide_eq_false_2, !andb_false_r by done.
    by rewrite !sha_len. }
  destruct (IH Hls Hpp) as [?|Hc]; [by left|]. right.
  eapply collision_mono; [exact Hc|..]; simpl; intros; apply elem_of_app; by left.
Qed.

(** *** The binding theorem *)

(** What is known of a valid cell, for the argument about its hash. *)
Record valid_parts (sp : bool) (bits : list bool) (refs : list Cell) (infos : list CellInfo)
    (i : CellInfo) : Prop := mkParts {
  vp_refs : Forall2 (fun r x => cell_info r = Some x) refs infos;
  vp_check : check_and_compute sp bits infos = Some i;
  vp_nrefs : (length infos <= max_refs)%nat;
  vp_nbits : (length bits <= max_bits)%nat;
  vp_mask : mask_ok (ci_mask i);
  vp_infos : Forall (fun x => mask_ok (ci_mask x) /\ hashes_ok x) infos;
  vp_pruned : ci_mask i <> 0 -> (ci_type i = PrunnedBranch <-> infos = []);
  vp_zero : ci_mask i = 0 -> ci_type i <> PrunnedBranch;
  vp_hash : info_hash 3 i = sha256 (hash_input (ci_type i) sp (ci_mask i) bits infos 3
    (chain (ci_type i) sp (ci_mask i) bits infos (hash_levels (ci_mask i)) None))
}.

Lemma cell_info_parts sp bits refs i :
  cell_info (DataCell sp bits refs) = Some i -> exists infos, valid_parts sp bits refs infos i.
Proof.
  intros Hi. pose proof (ok_mask _ _ (cell_info_ok _ _ Hi)) as Hm.
  apply cell_info_inv in Hi as (infos & Hr & Hnr & Hnb & Hc). exists infos.
  pose proof (list.Forall2_length _ _ _ Hr) as Hlen.
  pose proof (check_and_compute_inv _ _ _ _ Hc) as (ds & _ & Ht & _ & _ & Hh).
  split; [done|done|lia|done|done| | | |].
  - clear -Hr sha_len. induction Hr as [|r x refs infos Hx Hr IH]; constructor; [|done]. split.
    + apply (ok_mask _ _ (cell_info_ok _ _ Hx)).
    + destruct r. apply cell_info_inv in Hx as (? & _ & _ & _ & Hx).
      by eapply check_and_compute_hashes.
  - intros Hm0. destruct (ci_type i); simpl in Ht; (split; [try done|]).
    + intros ->. injection Ht as E _. congruence.
    + intros _. by apply check_pruned_ok in Ht as (_ & _ & -> & _).
    + done.
    + intros ->. apply check_library_ok in Ht as [E _]. congruence.
    + by intros ->.
    + by intros ->.
  - intros Hm0 E. rewrite E in Ht. by apply check_pruned_ok in Ht as (_ & ? & _).
  - unfold info_hash. rewrite Nat.min_l by (by apply get_level_le).
    rewrite Hh, compute_hashes_top by done. unfold compute_hash. done.
Qed.

Lemma top_query_in t sp m bits infos :
  mask_ok m ->
  hash_input t sp m bits infos 3 (chain t sp m bits infos (hash_levels m) None) ∈
    hash_queries t sp m bits infos.
Proof.
  intros Hm. rewrite hash_queries_spec by done. case_match; [by apply list_elem_of_singleton|].
  rewrite chain_queries_snoc. apply elem_of_app. right. by apply list_elem_of_singleton.
Qed.

Lemma hash_levels_zero : hash_levels 0 = [].
Proof. done. Qed.
Lemma hash_levels_nonempty m : mask_ok m -> m <> 0 -> exists l ls, hash_levels m = ls ++ [l].
Proof.
  intros Hm H0. assert (hash_levels m <> []) as Hn by (by mask_case Hm).
  destruct (exists_last Hn) as (ls & l & ->). eauto.
Qed.

Lemma bodies_equal sp bits bits' refs refs' infos infos' i i' :
  valid_parts sp bits refs infos i -> valid_parts sp bits' refs' infos' i' ->
  ci_mask i = ci_mask i' -> length infos = length infos' ->
  descr2 (length bits) = descr2 (length bits') ->
  let p := chain (ci_type i) sp (ci_mask i) bits infos (hash_levels (ci_mask i)) None in
  let p' := chain (ci_type i') sp (ci_mask i') bits' infos' (hash_levels (ci_mask i')) None in
  length (body_of (ci_type i) bits p) = length (body_of (ci_type i') bits' p') /\
  (body_of (ci_type i) bits p = body_of (ci_type i') bits' p' ->
   bits = bits' \/
   collision (fun x => x ∈ hash_queries (ci_type i) sp (ci_mask i) bits infos)
             (fun y => y ∈ hash_queries (ci_type i') sp (ci_mask i') bits' infos')).
Proof.
  intros V V' Em Hl Hd. cbv zeta. rewrite <- Em.
  pose proof (vp_mask _ _ _ _ _ V) as Hm.
  assert (length (pad_data bits) = length (pad_data bits') /\
          (pad_data bits = pad_data bits' -> bits = bits')) as [Hpl Hpi].
  { split; [|by apply pad_data_inj]. rewrite !pad_data_length. f_equal. by apply descr2_byte_len. }
  destruct (decide (ci_mask i = 0)) as [E0|E0].
  { rewrite E0. simpl. auto. }
  destruct (decide (ci_type i = PrunnedBranch)) as [Ep|Ep].
  { assert (ci_type i' = PrunnedBranch) as Ep'.
    { apply (vp_pruned _ _ _ _ _ V'); [congruence|]. apply (vp_pruned _ _ _ _ _ V) in Ep; [|done].
      subst infos. by destruct infos'. }
    rewrite Ep, Ep'. unfold body_of. rewrite bool_decide_eq_true_2 by done.
    repeat case_match; auto. }
  assert (ci_type i' <> PrunnedBranch) as Ep'.
  { intros E. apply Ep, (vp_pruned _ _ _ _ _ V); [done|].
    apply (vp_pruned _ _ _ _ _ V') in E; [|congruence]. subst infos'. by destruct infos. }
  destruct (hash_levels_nonempty _ Hm E0) as (l & ls & Els).
  unfold body_of. rewrite Els, !chain_snoc, !bool_decide_eq_false_2 by done. split.
  - unfold compute_hash. rewrite !bool_decide_eq_false_2, !andb_false_r by done. by rewrite !sha_len.
  - intros E. destruct (chain_inj (ci_type i) (ci_type i') sp (ci_mask i) bits bits' infos infos'
      (ls ++ [l])) as [?|Hc]; [done..|by destruct ls| |by left|].
    + rewrite !chain_snoc. by f_equal.
    + right. rewrite !hash_queries_spec, !bool_decide_eq_false_2, Els by done.
      eapply collision_mono; [exact Hc|..]; simpl; intros;
        rewrite (chain_queries_snoc _ _ _ _ _ _ 3); apply elem_of_app; by left.
Qed.

Lemma refs_equal refs refs' infos infos' :
  Forall (fun c => forall c', cell_info c <> None -> cell_info c' <> None ->
    get_hash c = get_hash c' -> c = c' \/ collision (hashed c) (hashed c')) refs ->
  Forall2 (fun r x => cell_info r = Some x) refs infos ->
  Forall2 (fun r x => cell_info r = Some x) refs' infos' ->
  map (info_hash 3) infos = map (info_hash 3) infos' ->
  refs = refs' \/ exists r r', r ∈ refs /\ r' ∈ refs' /\ collision (hashed r) (hashed r').
Proof.
  intros IH Hr. revert refs' infos'. induction Hr as [|r x refs infos Hx Hr IHr];
    intros refs' infos' Hr' E; destruct Hr' as [|r' x' refs' infos' Hx' Hr']; try done; [by left|].
  apply Forall_cons_1 in IH as [IH1 IH2]. injection E as E1 E2.
  destruct (IH1 r') as [->|Hc]; [by rewrite Hx|by rewrite Hx'| | |].
  - unfold get_hash. by rewrite Hx, Hx'.
  - destruct (IHr IH2 _ _ Hr' E2) as [->|(a & b & ? & ? & ?)]; [by left|].
    right. exists a, b. split_and!; [by right|by right|done].
  - right. exists r, r'. split_and!; [by left|by left|done].
Qed.

Lemma hash_binding_step sp bits refs sp' bits' refs' infos infos' i i' :
  valid_parts sp bits refs infos i -> valid_parts sp' bits' refs' infos' i' ->
  info_hash 3 i = info_hash 3 i' ->
  (sp = sp' /\ bits = bits' /\ map (info_hash 3) infos = map (info_hash 3) infos') \/
  collision (fun x => x ∈ hash_queries (ci_type i) sp (ci_mask i) bits infos)
            (fun y => y ∈ hash_queries (ci_type i') sp' (ci_mask i') bits' infos').
Proof.
  intros V V' E. rewrite (vp_hash _ _ _ _ _ V), (vp_hash _ _ _ _ _ V') in E.
  match type of E with sha256 ?x = sha256 ?y => destruct (decide (x = y)) as [Ei|Ei] end.
  2: { right. eexists _, _. split_and!; [apply top_query_in, V|apply top_query_in, V'|exact Ei|exact E]. }
  apply hash_input_split in Ei as (<- & Em & Hl & Hd & Ei); [|apply V || apply V'..].
  destruct (bodies_equal _ _ _ _ _ _ _ _ _ V V' Em Hl Hd) as [Hbl Hbi].
  apply app_inj_1 in Ei as [Eb Ei]; [|exact Hbl].
  apply app_inj_1 in Ei as [_ Ei]; [|by rewrite !depths_length, Hl].
  destruct (Hbi Eb) as [->|?]; [left|by right]. split_and!; [done|done|].
  eapply (concat_inj hash_bits); [| |by rewrite !length_map|exact Ei].
  - apply Forall_map. eapply list.Forall_impl; [apply (vp_infos _ _ _ _ _ V)|].
    simpl. intros x [? ?]. by apply info_hash_length.
  - apply Forall_map. eapply list.Forall_impl; [apply (vp_infos _ _ _ _ _ V')|].
    simpl. intros x [? ?]. by apply info_hash_length.
Qed.

Lemma hash_binding_aux c : forall c', cell_info c <> None -> cell_info c' <> None ->
  get_hash c = get_hash c' -> c = c' \/ collision (hashed c) (hashed c').
Proof.
  induction c as [sp bits refs IH] using Cell_ind'. intros [sp' bits' refs'] Hv Hv' E.
  unfold get_hash in E.
  destruct (cell_info (DataCell sp bits refs)) as [i|] eqn:Hi; [|done].
  destruct (cell_info (DataCell sp' bits' refs')) as [i'|] eqn:Hi'; [|done].
  destruct (cell_info_parts _ _ _ _ Hi) as [infos V], (cell_info_parts _ _ _ _ Hi') as [infos' V'].
  destruct (hash_binding_step _ _ _ _ _ _ _ _ _ _ V V' E) as [(<- & <- & Eh)|Hc].
  - destruct (refs_equal _ _ _ _ IH (vp_refs _ _ _ _ _ V) (vp_refs _ _ _ _ _ V') Eh)
      as [->|(r & r' & ? & ? & Hc)]; [by left|]. right.
    eapply collision_mono; [exact Hc|..]; intros; by eapply hashed_ref.
  - right. eapply collision_mono; [exact Hc|..]; simpl; intros.
    + by eapply hashed_here; [apply V..|].
    + by eapply hashed_here; [apply V'..|].
Qed.
End binding.

(** C10: representation hashes bind the contents of cells: two valid cells, special
    or not, with the same hash are the same tree, or else among the strings hashed
    when they were created there is a collision of SHA-256. *)
Theorem cell_hash_binding `{Sha256} c c' :
  (forall x, length (sha256 x) = hash_bits) ->
  cell_info c <> None -> cell_info c' <> None ->
  get_hash c = get_hash c' -> c = c' \/ collision (hashed c) (hashed c').
Proof. intros Hlen. by apply hash_binding_aux. Qed.

Definition toy_sha (x : list bool) : list bool := take 256 (x ++ replicate 256 false).

Lemma cell_hash_binding_witness :
  let c := DataCell false [true] [DataCell false [] []] in
  (forall x, length (toy_sha x) = hash_bits) /\
  (c = c \/ collision (H := toy_sha) (hashed (H := toy_sha) c) (hashed (H := toy_sha) c)).
Proof.
  assert (forall x, length (toy_sha x) = hash_bits) as Hlen.
  { intros x. unfold toy_sha. rewrite length_take, length_app, length_replicate. unfold hash_bits. lia. }
  split; [exact Hlen|]. apply (@cell_hash_binding toy_sha _ _ Hlen).
  - vm_compute. discriminate.
  - vm_compute. discriminate.
  - reflexivity.
Defined.

(** Trees without special cells. *)
Fixpoint all_ordinary (c : Cell) : bool :=
  let 'DataCell sp _ refs := c in negb sp && forallb all_ordinary refs.

Lemma all_ordinary_mask `{Sha256} c i :
  all_ordinary c = true -> cell_info c = Some i -> ci_mask i = 0.
Proof.
  revert i. induction c as [sp bits refs IH] using Cell_ind'. intros i Ho Hi.
  simpl in Ho. apply andb_true_iff in Ho as [->%negb_true_iff Ho].
  apply cell_info_inv in Hi as (infos & Hr & _ & _ & Hc).
  apply check_and_compute_inv in Hc as (ds & Ht & Hc & _). injection Ht as Et.
  rewrite <- Et in Hc. injection Hc as Hm _. rewrite <- Hm. clear -IH Ho Hr.
  induction Hr as [|r x refs infos Hx Hr IHr]; [done|].
  apply Forall_cons_1 in IH as [IH1 IH2]. simpl in Ho. apply andb_true_iff in Ho as [Ho1 Ho2].
  simpl. rewrite (IH1 x Ho1 Hx). by apply IHr.
Qed.

(** C39: the depth that a valid cell reports is the height of its tree, at most 1024;
    its level is at most 3; and a tree of ordinary cells has level 0. *)
Theorem cell_depth_and_level `{Sha256} c :
  cell_info c <> None ->
  get_depth c = Z.of_nat (cell_depth c) /\ (cell_depth c <= max_depth)%nat /\
  (get_cell_level c <= max_level)%nat /\ (all_ordinary c = true -> get_cell_level c = 0%nat).
Proof.
  unfold get_depth, get_cell_level. destruct (cell_info c) as [i|] eqn:Hi; [intros _|done].
  pose proof (cell_info_ok _ _ Hi) as Hok. pose proof (get_level_le _ (ok_mask _ _ Hok)).
  rewrite (info_depth_top _ _ _ Hok) by done. split_and!; [done| |done|].
  - apply Nat2Z.inj_le.
    eapply (Forall_lookup_1 (fun x => x <= Z.of_nat max_depth)); [apply (ok_bound _ _ Hok)|].
    apply (ok_depth _ _ Hok). split; [done|lia].
  - intros Ho. by rewrite (all_ordinary_mask c i Ho Hi).
Qed.

Lemma cell_depth_and_level_witness :
  get_depth (H := toy_sha) (DataCell false [true] [DataCell false [] []]) = 1.
Proof.
  destruct (@cell_depth_and_level toy_sha (DataCell false [true] [DataCell false [] []])) as [H _].
  - vm_compute. discriminate.
  - exact H.
Defined.
