(* ===== verification/CellLevels.v ===== *)
(** * Cells at a level

    A cell has a hash and a depth for every level: the hash at level [l] is that of the
    tree in which pruned branches of a higher level stand for what they replace.  This file
    shows that these values depend on the data of the cell and on the values of the references
    at the same level only ([same_at_parent]), and that they determine the data
    ([hash_at_inj]). *)
From S2P Require Import Prelude Int256 Cells DataCell.

(** ** Level masks *)

Lemma apply_level_ok l m : mask_ok m -> mask_ok (apply_level l m).
Proof.
  intros Hm. unfold apply_level. destruct (32 <=? l)%nat; [done|]. unfold mask_ok in *. split.
  - apply Z.land_nonneg. lia.
  - destruct (Z.eq_dec m 0) as [->|]; [done|]. pose proof (Z.land_nonneg m (2 ^ Z.of_nat l - 1)) as Hn.
    destruct (Z.eq_dec (Z.land m (2 ^ Z.of_nat l - 1)) 0) as [->|]; [lia|]. apply Z.log2_lt_pow2 with (b := 3); [lia|].
    eapply Z.le_lt_trans; [apply Z.log2_land; [lia|]|].
    + pose proof (pow2_pos (Z.of_nat l)). lia.
    + eapply Z.le_lt_trans; [apply Z.le_min_l|]. apply Z.log2_lt_pow2; lia.
Qed.
Lemma level_split l : (l <= 3)%nat -> l ∈ [0; 1; 2; 3]%nat.
Proof. intros H. rewrite !elem_of_cons. lia. Qed.
Ltac level_case H := apply level_split in H; rewrite !elem_of_cons, elem_of_nil in H;
  destruct H as [H|[H|[H|[H|[]]]]]; rewrite ?H in *.
Lemma apply_level_high l m : mask_ok m -> (3 <= l)%nat -> apply_level l m = m.
Proof.
  intros Hm Hl. unfold apply_level. destruct (Nat.leb_spec 32 l); [done|]. rewrite Z.sub_1_r, <- Z.ones_equiv, Z.land_ones by lia.
  apply Z.mod_small. unfold mask_ok in Hm. assert (2 ^ 3 <= 2 ^ Z.of_nat l) by (apply Z.pow_le_mono_r; lia). change (2 ^ 3) with 8 in *. lia.
Qed.

(** Levels from 3 on are the same. *)
Lemma apply_level_cap l m : mask_ok m -> apply_level l m = apply_level (Nat.min l 3) m.
Proof.
  intros Hm. destruct (Nat.le_gt_cases l 3); [by rewrite Nat.min_l by lia|]. by rewrite Nat.min_r, !apply_level_high by (done || lia).
Qed.
Lemma apply_level_twice j d m : mask_ok m -> apply_level j (apply_level d m) = apply_level (Nat.min j d) m.
Proof.
  intros Hm. rewrite (apply_level_cap j) by by apply apply_level_ok. rewrite (apply_level_cap d), (apply_level_cap (Nat.min j d)) by done.
  replace (Nat.min (Nat.min j d) 3) with (Nat.min (Nat.min j 3) (Nat.min d 3)) by lia.
  pose proof (Nat.le_min_r j 3) as Hj. pose proof (Nat.le_min_r d 3) as Hd.
  level_case Hj; level_case Hd; mask_case Hm; reflexivity.
Qed.
Lemma apply_level_lor d a b : apply_level d (Z.lor a b) = Z.lor (apply_level d a) (apply_level d b).
Proof. unfold apply_level. destruct (32 <=? d)%nat; [done|]. by rewrite Z.land_lor_distr_l. Qed.
Lemma apply_level_shiftr d m : mask_ok m -> apply_level d (Z.shiftr m 1) = Z.shiftr (apply_level (S d) m) 1.
Proof.
  intros Hm. pose proof (mask_shiftr _ Hm). rewrite (apply_level_cap d) by done.
  destruct (Nat.le_gt_cases d 2) as [Hd|]; [|by rewrite Nat.min_r, !apply_level_high by (done || lia)].
  rewrite Nat.min_l by lia. assert (d <= 3)%nat as Hd' by lia. level_case Hd'; mask_case Hm; reflexivity.
Qed.
Lemma apply_level_0 m : apply_level 0 m = 0.
Proof. unfold apply_level. cbn. apply Z.land_0_r. Qed.

(** [top l m]: the level, at most [l], from which on nothing changes up to [l]. *)
Definition top (l : nat) (m : Z) : nat := get_level (apply_level l m).
Lemma top_le l m : mask_ok m -> (top l m <= l)%nat.
Proof.
  intros Hm. unfold top. rewrite apply_level_cap by done. transitivity (Nat.min l 3); [|lia].
  pose proof (Nat.le_min_r l 3) as Hl. level_case Hl; mask_case Hm; vm_compute; lia.
Qed.
Lemma top_apply l m : mask_ok m -> apply_level (top l m) m = apply_level l m.
Proof.
  intros Hm. unfold top. rewrite (apply_level_cap l) by done. pose proof (Nat.le_min_r l 3) as Hl. level_case Hl; mask_case Hm; reflexivity.
Qed.

(** The levels of a reference are levels of the cell. *)
Definition sub_mask (a m : Z) : Prop := Z.land a m = a.
Lemma sub_apply a m l k : sub_mask a m -> apply_level l m = apply_level k m -> apply_level l a = apply_level k a.
Proof.
  unfold sub_mask. intros <- E. assert (forall j, apply_level j (Z.land a m) = Z.land a (apply_level j m)) as Hj.
  { intros j. unfold apply_level. destruct (32 <=? j)%nat; [done|]. by rewrite Z.land_assoc. }
  by rewrite !Hj, E.
Qed.
Lemma sub_lor_l a b : sub_mask a (Z.lor a b).
Proof. apply Z.bits_inj'. intros n _. rewrite Z.land_spec, Z.lor_spec. by destruct (Z.testbit a n), (Z.testbit b n). Qed.
Lemma sub_trans a b c : sub_mask a b -> sub_mask b c -> sub_mask a c.
Proof. unfold sub_mask. intros <- <-. by rewrite <- !Z.land_assoc, Z.land_diag. Qed.
Lemma sub_refl a : sub_mask a a.
Proof. apply Z.land_diag. Qed.

(** ** Hashes and depths are constant between the levels of a cell *)

Record canon (i : CellInfo) : Prop := mkCanon {
  cn_mask : mask_ok (ci_mask i);
  cn_hash l k : apply_level l (ci_mask i) = apply_level k (ci_mask i) -> info_hash l i = info_hash k i;
  cn_depth l k : apply_level l (ci_mask i) = apply_level k (ci_mask i) -> info_depth l i = info_depth k i;
  cn_nonneg l : 0 <= info_depth l i
}.

Definition merkle_type (t : SpecialType) : bool := match t with MerkleProof | MerkleUpdate => true | _ => false end.
(** The level of the references for level [l] of a cell. *)
Definition child_level (t : SpecialType) (l : nat) : nat := if merkle_type t then S l else l.
(** The mask of a reference, as it counts for the cell. *)
Definition child_mask (t : SpecialType) (i : CellInfo) : Z := if merkle_type t then Z.shiftr (ci_mask i) 1 else ci_mask i.

Lemma child_mask_ok t i : mask_ok (ci_mask i) -> mask_ok (child_mask t i).
Proof. unfold child_mask. destruct (merkle_type t); [apply mask_shiftr|done]. Qed.
Lemma child_apply t i l k : mask_ok (ci_mask i) -> apply_level l (child_mask t i) = apply_level k (child_mask t i) ->
  apply_level (child_level t l) (ci_mask i) = apply_level (child_level t k) (ci_mask i).
Proof.
  intros Hm. unfold child_mask, child_level. destruct (merkle_type t); [|done]. rewrite !apply_level_shiftr by done.
  rewrite (apply_level_cap (S l)), (apply_level_cap (S k)) by done.
  pose proof (Nat.le_min_r (S l) 3) as Hl. pose proof (Nat.le_min_r (S k) 3) as Hk.
  assert (1 <= Nat.min (S l) 3)%nat as Hl1 by lia. assert (1 <= Nat.min (S k) 3)%nat as Hk1 by lia.
  level_case Hl; level_case Hk; try lia; mask_case Hm; done.
Qed.

Lemma fold_lor_sub infos m x : x ∈ infos -> sub_mask (ci_mask x) (foldl (fun m r => Z.lor m (ci_mask r)) m infos).
Proof.
  revert m. induction infos as [|i infos IH]; intros m; [by intros ?%elem_of_nil|]. intros [->|Hx]%elem_of_cons; [|by apply IH].
  cbn. assert (forall l a, sub_mask a (foldl (fun m r => Z.lor m (ci_mask r)) a l)) as Hf.
  { induction l as [|j l IHl]; intros a; cbn; [apply sub_refl|]. eapply sub_trans; [|apply IHl]. apply sub_lor_l. }
  eapply sub_trans; [|apply Hf]. rewrite Z.lor_comm. apply sub_lor_l.
Qed.
Lemma shiftr_sub a m : sub_mask a m -> sub_mask (Z.shiftr a 1) (Z.shiftr m 1).
Proof. unfold sub_mask. intros <-. by rewrite Z.shiftr_land, <- Z.land_assoc, Z.land_diag. Qed.

Lemma check_sub_mask t bits infos m ds x : check_by_type t bits infos = Some (m, ds) -> x ∈ infos -> sub_mask (child_mask t x) m.
Proof.
  intros Hc Hx. destruct t; cbn in Hc; unfold child_mask; cbn [merkle_type].
  - injection Hc as <- _. by apply fold_lor_sub.
  - apply check_pruned_ok in Hc as (_ & _ & -> & _). by apply elem_of_nil in Hx.
  - apply check_library_ok in Hc as (_ & _ & ->). by apply elem_of_nil in Hx.
  - unfold check_merkle_proof in Hc. destruct infos as [|i [|]]; try done. repeat case_match; try done.
    injection Hc as <- _. apply list_elem_of_singleton in Hx as ->. apply sub_refl.
  - unfold check_merkle_update in Hc. destruct infos as [|i [|i' [|]]]; try done. repeat case_match; try done.
    injection Hc as <- _. apply shiftr_sub. apply elem_of_cons in Hx as [->|Hx]; [apply sub_lor_l|].
    apply list_elem_of_singleton in Hx as ->. rewrite Z.lor_comm. apply sub_lor_l.
Qed.

(** The depth of a cell with references, from theirs *)
Definition refs_depth_at (t : SpecialType) (infos : list CellInfo) (l : nat) : Z :=
  foldr Z.max 0 (map (fun x => info_depth (child_level t l) x + 1) infos).

Lemma refs_depth_at_nonneg t infos l : 0 <= refs_depth_at t infos l.
Proof. unfold refs_depth_at. induction infos as [|x infos IH]; cbn; lia. Qed.
Lemma refs_depth_at_eq t infos l k m : Forall canon infos -> (forall x, x ∈ infos -> sub_mask (child_mask t x) m) ->
  apply_level l m = apply_level k m -> refs_depth_at t infos l = refs_depth_at t infos k.
Proof.
  intros Hc Hs E. unfold refs_depth_at. f_equal. apply map_ext_in. intros x Hx%list_elem_of_In. f_equal.
  assert (canon x) as Hx' by (by eapply list.Forall_forall in Hc).
  apply (cn_depth _ Hx'), child_apply; [apply Hx'|]. by eapply sub_apply; [apply Hs|].
Qed.

Lemma fold_max_depth infos l a : Forall canon infos -> 0 <= a ->
  foldl (fun d r => Z.max d (info_depth l r)) a infos + 1 = Z.max (a + 1) (foldr Z.max 0 (map (fun x => info_depth l x + 1) infos)).
Proof.
  intros Hc. revert a. induction Hc as [|x infos Hx Hc IH]; intros a Ha; cbn; [lia|]. rewrite IH by lia.
  pose proof (cn_nonneg _ Hx l). lia.
Qed.
Lemma check_depths t bits infos m ds l : t <> PrunnedBranch -> Forall canon infos -> check_by_type t bits infos = Some (m, ds) ->
  (l <= 3)%nat -> ds !!! l = refs_depth_at t infos l.
Proof.
  intros Ht Hc Hd Hl. destruct t; cbn in Hd; [|done| | |].
  - injection Hd as _ <-. unfold refs_depth_at, child_level. cbn [merkle_type].
    assert (foldl (fun d r => Z.max d (info_depth l r)) 0 infos + match infos with [] => 0 | _ => 1 end =
      foldr Z.max 0 (map (fun x => info_depth l x + 1) infos)) as <-.
    { destruct infos as [|x infos]; [done|]. rewrite fold_max_depth by (done || lia). cbn. inversion Hc as [|?? Hx]. pose proof (cn_nonneg _ Hx l). lia. }
    level_case Hl; reflexivity.
  - apply check_library_ok in Hd as (_ & -> & ->). level_case Hl; reflexivity.
  - unfold check_merkle_proof in Hd. destruct infos as [|i [|]]; try done. destruct (negb _); [done|].
    unfold check_merkle_child in Hd. repeat (destruct (negb _); [done|]). injection Hd as _ <-. inversion Hc as [|?? Hx]; subst.
    pose proof (cn_nonneg _ Hx (S l)). unfold refs_depth_at. cbn. level_case Hl; cbn; lia.
  - unfold check_merkle_update in Hd. destruct infos as [|i [|i' [|]]]; try done. destruct (negb _); [done|].
    unfold check_merkle_child in Hd. repeat (destruct (negb _); [done|]). injection Hd as _ <-.
    inversion Hc as [|?? Hx Hc']; subst. inversion Hc' as [|?? Hx']; subst. unfold refs_depth_at. cbn. level_case Hl; cbn; lia.
Qed.

Definition stored_depth (m : Z) (bits : list bool) (n : nat) : Z :=
  bits_to_Z (take depth_bits (drop (16 + get_hash_i m * hash_bits + n * depth_bits) bits)).
Lemma check_pruned_depths bits infos m ds : check_pruned_branch bits infos = Some (m, ds) ->
  let d i next := if is_significant (S i) m then stored_depth m bits (get_hash_i (apply_level i m)) else next in
  ds = [d 0%nat (d 1%nat (d 2%nat 0)); d 1%nat (d 2%nat 0); d 2%nat 0; 0].
Proof.
  unfold check_pruned_branch. destruct infos; [|done]. destruct (_ <? _)%nat; [done|]. cbv zeta.
  destruct (_ || _); [done|]. destruct (negb _); [done|]. by intros [= <- <-].
Qed.

Section sha.
Context `{Sha256}.

Lemma hash_canon sp bits infos i l k : check_and_compute sp bits infos = Some i -> mask_ok (ci_mask i) ->
  apply_level l (ci_mask i) = apply_level k (ci_mask i) -> info_hash l i = info_hash k i.
Proof.
  intros (ds & _ & _ & _ & _ & Hh)%check_and_compute_inv Hm E. unfold info_hash. rewrite Hh.
  unfold compute_hashes, hash_step. set (f := compute_hash _ _ _ _ _). clearbody f. clear Hh.
  rewrite (apply_level_cap l), (apply_level_cap k) in E by done.
  assert (forall j, Nat.min (get_level (ci_mask i)) j = Nat.min (get_level (ci_mask i)) (Nat.min j 3)) as Hj.
  { intros j. pose proof (get_level_le _ Hm). lia. }
  rewrite (Hj l), (Hj k). clear Hj. pose proof (Nat.le_min_r l 3) as Hl. pose proof (Nat.le_min_r k 3) as Hk.
  level_case Hl; level_case Hk; mask_case Hm; first [reflexivity|discriminate E].
Qed.

Lemma pruned_canon bits infos m ds l k : check_pruned_branch bits infos = Some (m, ds) ->
  apply_level l m = apply_level k m -> ds !!! Nat.min (get_level m) l = ds !!! Nat.min (get_level m) k.
Proof.
  intros Hc E. pose proof (check_pruned_ok _ _ _ _ Hc) as (Hm & _). apply check_pruned_depths in Hc as ->.
  set (g := stored_depth m bits). clearbody g.
  rewrite (apply_level_cap l), (apply_level_cap k) in E by done.
  assert (forall j, Nat.min (get_level m) j = Nat.min (get_level m) (Nat.min j 3)) as Hj.
  { intros j. pose proof (get_level_le _ Hm). lia. }
  rewrite (Hj l), (Hj k). clear Hj. pose proof (Nat.le_min_r l 3) as Hl. pose proof (Nat.le_min_r k 3) as Hk.
  level_case Hl; level_case Hk; mask_case Hm; first [reflexivity|discriminate E].
Qed.
Lemma pruned_nonneg bits infos m ds j : check_pruned_branch bits infos = Some (m, ds) -> 0 <= ds !!! j.
Proof.
  intros E%check_pruned_depths. assert (forall n, 0 <= stored_depth m bits n) as Hs by (intros n; apply bits_to_Z_range).
  set (d := fun (i : nat) (next : Z) => if is_significant (S i) m then stored_depth m bits (get_hash_i (apply_level i m)) else next).
  assert (forall i next, 0 <= next -> 0 <= d i next) as Hd by (intros i next Hn; unfold d; destruct (is_significant (S i) m); [apply Hs|done]).
  change (ds = [d 0%nat (d 1%nat (d 2%nat 0)); d 1%nat (d 2%nat 0); d 2%nat 0; 0]) in E. clearbody d. subst ds.
  pose proof (Hd 2%nat 0 ltac:(lia)). destruct j as [|[|[|[|j]]]]; cbn; auto; try lia. vm_compute. discriminate.
Qed.

(** The depth at a level of a cell that is not a pruned branch *)
Lemma info_depth_refs sp bits infos i l : check_and_compute sp bits infos = Some i -> mask_ok (ci_mask i) -> Forall canon infos ->
  ci_type i <> PrunnedBranch -> info_depth l i = refs_depth_at (ci_type i) infos l.
Proof.
  intros (ds & _ & Hd & Hds & _ & _)%check_and_compute_inv Hm Hc Ht. unfold info_depth. rewrite Hds. pose proof (get_level_le _ Hm).
  erewrite check_depths by (done || lia). eapply refs_depth_at_eq; [done|by intros x; apply check_sub_mask with (1 := Hd)|].
  destruct (Nat.le_gt_cases l (get_level (ci_mask i))); [by rewrite Nat.min_r|]. rewrite Nat.min_l by lia.
  assert (forall j, (get_level (ci_mask i) <= j)%nat -> apply_level j (ci_mask i) = ci_mask i) as Hj; [|by rewrite !Hj by lia].
  intros j Hj. rewrite apply_level_cap by done. assert (Nat.min j 3 <= 3)%nat as Hj3 by lia.
  assert (get_level (ci_mask i) <= Nat.min j 3)%nat as Hj' by lia. clear -Hj3 Hj' Hm. level_case Hj3; mask_case Hm; first [reflexivity|exfalso; vm_compute in Hj'; lia].
Qed.

Lemma cell_info_canon c i : cell_info c = Some i -> canon i.
Proof.
  revert i. induction c as [sp bits refs IH] using Cell_ind'. intros i Hi.
  pose proof (ok_mask _ _ (cell_info_ok _ _ Hi)) as Hm. apply cell_info_inv in Hi as (infos & Hr & _ & _ & Hc).
  assert (Forall canon infos) as Hcn.
  { clear Hc. induction Hr as [|r x refs infos Hx Hr IHr]; [constructor|]. apply Forall_cons_1 in IH as [IH1 IH2]. constructor; auto. }
  pose proof (check_and_compute_inv _ _ _ _ Hc) as (ds & _ & Ht & Hds & _ & _).
  destruct (decide (ci_type i = PrunnedBranch)) as [Ep|Ep].
  - rewrite Ep in Ht. cbn in Ht. split; [done|intros l k; by eapply hash_canon| |].
    + intros l k E. unfold info_depth. rewrite Hds. by eapply pruned_canon.
    + intros l. unfold info_depth. rewrite Hds. by eapply pruned_nonneg.
  - split; [done|intros l k; by eapply hash_canon| |].
    + intros l k E. rewrite !(info_depth_refs _ _ _ _ _ Hc Hm Hcn Ep). eapply refs_depth_at_eq; [done|by intros x; apply check_sub_mask with (1 := Ht)|done].
    + intros l. rewrite (info_depth_refs _ _ _ _ _ Hc Hm Hcn Ep). apply refs_depth_at_nonneg.
Qed.

(** ** The hash at a level *)

(** What is hashed for the part [mu] of the mask. *)
Definition node_input (t : SpecialType) (sp : bool) (bits : list bool) (infos : list CellInfo) (mu : Z) (prev : option (list bool)) : list bool :=
  Z_to_bits 8 (descr1 sp (length infos) mu 3) ++ Z_to_bits 8 (descr2 (length bits)) ++ body_of t bits prev ++
  concat (map (fun r => Z_to_bits depth_bits (info_depth (child_level t (get_level mu)) r)) infos) ++
  concat (map (info_hash (child_level t (get_level mu))) infos).

Section node.
Context (t : SpecialType) (sp : bool) (bits : list bool) (infos : list CellInfo).
Fixpoint level_chain (mu : Z) (ls : list nat) (prev : option (list bool)) : option (list bool) :=
  match ls with
  | [] => prev
  | l :: ls => level_chain mu ls (Some (sha256 (node_input t sp bits infos (apply_level l mu) prev)))
  end.
Definition level_input (mu : Z) : list bool := node_input t sp bits infos mu (level_chain mu (hash_levels mu) None).
Definition level_hash (mu : Z) : list bool := sha256 (level_input mu).

Hypothesis Hcn : Forall canon infos.
Context (m : Z).
Hypothesis Hm : mask_ok m.
Hypothesis Hsub : forall x, x ∈ infos -> sub_mask (child_mask t x) m.

Lemma hash_input_node k prev : (k <= 3)%nat -> hash_input t sp m bits infos k prev = node_input t sp bits infos (apply_level k m) prev.
Proof using Hcn Hm Hsub.
  intros Hk. unfold hash_input, node_input. f_equal.
  { f_equal. unfold descr1. by rewrite apply_level_3 by by apply apply_level_ok. }
  f_equal. f_equal. set (cl := if bool_decide _ || _ then _ else k).
  assert (forall x, x ∈ infos -> info_depth cl x = info_depth (child_level t (get_level (apply_level k m))) x /\
    info_hash cl x = info_hash (child_level t (get_level (apply_level k m))) x) as Hx.
  { intros x Hx. assert (canon x) as Hc by (by eapply list.Forall_forall in Hcn).
    assert (apply_level cl (ci_mask x) = apply_level (child_level t (get_level (apply_level k m))) (ci_mask x)) as E.
    { transitivity (apply_level (child_level t k) (ci_mask x)).
      - subst cl. unfold child_level. destruct t; cbn; try done; rewrite (apply_level_cap (S k)) by apply Hc; by rewrite Nat.min_comm.
      - apply child_apply; [apply Hc|]. eapply sub_apply; [by apply Hsub|]. symmetry. by apply top_apply. }
    by split; [apply (cn_depth _ Hc)|apply (cn_hash _ Hc)]. }
  f_equal; f_equal; apply map_ext_in; intros x Hi%list_elem_of_In; [by rewrite (proj1 (Hx x Hi))|apply (Hx x Hi)].
Qed.

Lemma compute_hash_node k prev : (k <= 3)%nat -> t <> PrunnedBranch \/ k = 3%nat ->
  compute_hash t sp m bits infos k prev = sha256 (node_input t sp bits infos (apply_level k m) prev).
Proof using Hcn Hm Hsub.
  intros Hk Ht. unfold compute_hash. replace (negb (k =? max_level)%nat && bool_decide (t = PrunnedBranch)) with false.
  - by rewrite hash_input_node.
  - symmetry. apply andb_false_iff. destruct Ht as [Ht| ->]; [right; by apply bool_decide_eq_false_2|by left].
Qed.

(** A level at which the cell can be read: pruned branches stand for nothing below their own. *)
Definition readable (l : nat) : Prop := t <> PrunnedBranch \/ apply_level l m = m.

Lemma compute_hashes_level l : readable l ->
  compute_hashes t sp m bits infos !!! Nat.min (get_level m) l = level_hash (apply_level l m).
Proof using Hcn Hm Hsub.
  intros Hl. unfold level_hash, level_input. destruct (decide (t = PrunnedBranch)) as [Ep|Ep].
  - destruct Hl as [Hl|E]; [done|]. rewrite E.
    assert (Nat.min (get_level m) l = get_level m) as ->.
    { apply Nat.min_l. unfold top in *. pose proof (top_le l m Hm) as Ht. unfold top in Ht. by rewrite E in Ht. }
    rewrite compute_hashes_top, compute_hash_node by auto. rewrite (apply_level_3 m) by done. f_equal. unfold node_input. rewrite Ep. do 3 f_equal.
    unfold body_of. by repeat case_match.
  - unfold compute_hashes, hash_step. pose proof (fun k prev Hk => compute_hash_node k prev Hk (or_introl Ep)) as Hf.
    set (f := compute_hash _ _ _ _ _) in *. clearbody f. set (g := node_input t sp bits infos) in *.
    rewrite (apply_level_cap l) by done. replace (Nat.min (get_level m) l) with (Nat.min (get_level m) (Nat.min l 3)) by (pose proof (get_level_le _ Hm); lia).
    pose proof (Nat.le_min_r l 3) as Hl3. unfold level_chain, hash_levels. fold g. clearbody g. clear Hl Hsub.
    level_case Hl3; mask_case Hm; cbn; rewrite !Hf by lia; reflexivity.
Qed.

(** All of it is hashed when the cell is created. *)
Lemma level_input_query l : readable l -> level_input (apply_level l m) ∈ hash_queries t sp m bits infos.
Proof using Hcn Hm Hsub.
  intros Hl. unfold level_input. rewrite hash_queries_spec by done. destruct (decide (t = PrunnedBranch)) as [Ep|Ep].
  - rewrite bool_decide_eq_true_2 by done. destruct Hl as [|E]; [done|]. rewrite E. apply list_elem_of_singleton. rewrite hash_input_node by done.
    rewrite (apply_level_3 m) by done. unfold node_input. rewrite Ep. do 3 f_equal. unfold body_of. by repeat case_match.
  - rewrite bool_decide_eq_false_2 by done. pose proof (fun k prev Hk => compute_hash_node k prev Hk (or_introl Ep)) as Hf.
    pose proof hash_input_node as Hg. unfold chain_queries, chain, level_chain, hash_levels.
    set (f := compute_hash _ _ _ _ _) in *. clearbody f. set (h := hash_input _ _ _ _ _) in *. clearbody h.
    set (g := node_input t sp bits infos) in *. clearbody g. rewrite (apply_level_cap l) by done.
    pose proof (Nat.le_min_r l 3) as Hl3. clear Hl Hsub.
    level_case Hl3; mask_case Hm;
      (match goal with |- ?x ∈ ?q => let x' := eval vm_compute in x in let q' := eval vm_compute in q in change (x' ∈ q') end);
      rewrite ?Hf, ?Hg by lia; rewrite !elem_of_cons; vm_compute; auto.
Qed.
End node.

Lemma info_hash_level sp bits infos i l : check_and_compute sp bits infos = Some i -> mask_ok (ci_mask i) -> Forall canon infos ->
  readable (ci_type i) (ci_mask i) l -> info_hash l i = level_hash (ci_type i) sp bits infos (apply_level l (ci_mask i)).
Proof.
  intros (ds & _ & Hc & _ & _ & Hh)%check_and_compute_inv Hm Hcn Hr. unfold info_hash. rewrite Hh.
  apply compute_hashes_level; [done|done| |done]. intros x. by apply check_sub_mask with (1 := Hc).
Qed.
End sha.

(** ** The hash at a level determines the data *)

Section inj.
Context `{Sha256}.

Definition valid_info (i : CellInfo) : Prop := exists c, cell_info c = Some i.
Lemma valid_canon i : valid_info i -> canon i.
Proof. intros [c Hc]. by eapply cell_info_canon. Qed.
Lemma valid_depth i l : valid_info i -> 0 <= info_depth l i <= Z.of_nat max_depth.
Proof.
  intros [c Hc]. split; [apply cn_nonneg; by eapply cell_info_canon|]. pose proof (cell_info_ok _ _ Hc) as Hok.
  pose proof (get_level_le _ (ok_mask _ _ Hok)). unfold info_depth.
  destruct (lookup_lt_is_Some_2 (ci_depths i) (Nat.min (get_level (ci_mask i)) l)) as [d E]; [rewrite (ok_depth_len _ _ Hok); lia|].
  rewrite (list_lookup_total_correct _ _ _ E). eapply Forall_lookup_1 in E; [|apply (ok_bound _ _ Hok)]. done.
Qed.

Hypothesis sha_len : forall x, length (sha256 x) = hash_bits.
Lemma valid_hash_length i l : valid_info i -> length (info_hash l i) = hash_bits.
Proof using sha_len.
  intros [[sp bits refs] Hc]. apply info_hash_length; [apply (ok_mask _ _ (cell_info_ok _ _ Hc))|].
  apply cell_info_inv in Hc as (? & _ & _ & _ & Hc). by eapply check_and_compute_hashes.
Qed.

Context (U : list bool -> Prop).
Hypothesis no_collision : forall x y, U x -> U y -> sha256 x = sha256 y -> x = y.

Lemma level_chain_prev t sp bits infos mu : mask_ok mu ->
  level_chain t sp bits infos mu (hash_levels mu) None =
  if mu =? 0 then None else Some (level_hash t sp bits infos (apply_level (get_level mu - 1) mu)).
Proof.
  intros Hm. unfold level_hash, level_input, level_chain, hash_levels. set (g := node_input t sp bits infos). clearbody g.
  mask_case Hm; reflexivity.
Qed.

(** What is known of one of the two cells *)
Record side (t : SpecialType) (sp : bool) (bits : list bool) (infos : list CellInfo) (mu : Z) : Prop := mkSide {
  sd_type : cell_type sp bits = Some t;
  sd_mask : mask_ok mu;
  sd_bits : (length bits <= max_bits)%nat;
  sd_refs : (length infos <= max_refs)%nat;
  sd_infos : Forall valid_info infos;
  sd_pruned : mu <> 0 -> (t = PrunnedBranch <-> infos = [])
}.
Definition all_hashed (t : SpecialType) (sp : bool) (bits : list bool) (infos : list CellInfo) (mu : Z) : Prop :=
  forall l, t <> PrunnedBranch \/ apply_level l mu = mu -> U (level_input t sp bits infos (apply_level l mu)).

Lemma node_input_split t t' sp sp' bits bits' infos infos' mu mu' prev prev' :
  side t sp bits infos mu -> side t' sp' bits' infos' mu' ->
  node_input t sp bits infos mu prev = node_input t' sp' bits' infos' mu' prev' ->
  sp = sp' /\ mu = mu' /\ length infos = length infos' /\ descr2 (length bits) = descr2 (length bits') /\
  body_of t bits prev ++ concat (map (fun r => Z_to_bits depth_bits (info_depth (child_level t (get_level mu)) r)) infos) ++
    concat (map (info_hash (child_level t (get_level mu))) infos) =
  body_of t' bits' prev' ++ concat (map (fun r => Z_to_bits depth_bits (info_depth (child_level t' (get_level mu')) r)) infos') ++
    concat (map (info_hash (child_level t' (get_level mu'))) infos').
Proof.
  intros [_ Hm Hb Hn _ _] [_ Hm' Hb' Hn' _ _] E. unfold node_input in E.
  apply app_inj_1 in E as [E1 E]; [|by rewrite !Z_to_bits_length]. apply app_inj_1 in E as [E2 E]; [|by rewrite !Z_to_bits_length].
  apply Z_to_bits_inj in E1; [|by apply descr1_range..]. apply Z_to_bits_inj in E2; [|by apply descr2_range..].
  destruct (descr1_inj _ _ _ _ _ _ Hn Hm Hn' Hm' E1) as (-> & Hl & ->). by split_and!.
Qed.

Lemma apply_zero l : apply_level l 0 = 0.
Proof. unfold apply_level. by destruct (32 <=? l)%nat. Qed.
Lemma side_lower t sp bits infos mu l : side t sp bits infos mu -> side t sp bits infos (apply_level l mu).
Proof.
  intros [Ht Hm Hb Hn Hi Hp]. split; try done; [by apply apply_level_ok|]. intros H0. apply Hp. intros ->. by rewrite apply_zero in H0.
Qed.
Lemma all_hashed_lower t sp bits infos mu l : mask_ok mu -> t <> PrunnedBranch -> all_hashed t sp bits infos mu -> all_hashed t sp bits infos (apply_level l mu).
Proof. intros Hm Ht Hu k _. rewrite apply_level_twice by done. apply Hu. by left. Qed.

Lemma body_inj t t' sp bits bits' infos infos' mu : side t sp bits infos mu -> side t' sp bits' infos' mu ->
  length infos = length infos' -> descr2 (length bits) = descr2 (length bits') ->
  let b := body_of t bits (level_chain t sp bits infos mu (hash_levels mu) None) in
  let b' := body_of t' bits' (level_chain t' sp bits' infos' mu (hash_levels mu) None) in
  length b = length b' /\
  (b = b' -> bits = bits' \/
    (t <> PrunnedBranch /\ t' <> PrunnedBranch /\ mu <> 0 /\
     level_hash t sp bits infos (apply_level (get_level mu - 1) mu) = level_hash t' sp bits' infos' (apply_level (get_level mu - 1) mu))).
Proof using sha_len.
  intros [Ht Hm Hb Hn Hi Hp] [Ht' _ Hb' Hn' Hi' Hp'] Hl Hd. cbv zeta. rewrite !level_chain_prev by done.
  assert (length (pad_data bits) = length (pad_data bits')) as Hpl by (rewrite !pad_data_length; f_equal; by apply descr2_byte_len).
  pose proof (pad_data_inj bits bits' Hd) as Hpi. destruct (Z.eqb_spec mu 0) as [E0|E0]; [by split; [|intros E; left; apply Hpi]|].
  specialize (Hp E0). specialize (Hp' E0). unfold body_of. destruct (decide (t = PrunnedBranch)) as [Ep|Ep].
  - assert (t' = PrunnedBranch) as Ep'. { apply Hp'. apply Hp in Ep. rewrite Ep in Hl. by destruct infos'. }
    rewrite !bool_decide_eq_true_2 by done. split; [done|]. intros E. left. by apply Hpi.
  - assert (t' <> PrunnedBranch) as Ep'. { intros Ep'. apply Ep, Hp. apply Hp' in Ep'. rewrite Ep' in Hl. by destruct infos. }
    rewrite !bool_decide_eq_false_2 by done. split; [unfold level_hash; by rewrite !sha_len|]. intros E. right. done.
Qed.

Lemma cons_eq {A} (x y : A) l k : x :: l = y :: k -> x = y /\ l = k.
Proof. by intros [= -> ->]. Qed.
Definition same_refs_at (cl : nat) : list CellInfo -> list CellInfo -> Prop :=
  Forall2 (fun x x' => info_hash cl x = info_hash cl x' /\ info_depth cl x = info_depth cl x').

Lemma refs_inj cl infos infos' : Forall valid_info infos -> Forall valid_info infos' -> length infos = length infos' ->
  concat (map (fun r => Z_to_bits depth_bits (info_depth cl r)) infos) ++ concat (map (info_hash cl) infos) =
  concat (map (fun r => Z_to_bits depth_bits (info_depth cl r)) infos') ++ concat (map (info_hash cl) infos') ->
  same_refs_at cl infos infos'.
Proof using sha_len.
  intros Hv Hv' Hl E. apply app_inj_1 in E as [E1 E2].
  2: { rewrite !(concat_length_const depth_bits), !length_map by (apply Forall_map, Forall_true; intros; apply Z_to_bits_length). by rewrite Hl. }
  apply (concat_inj depth_bits) in E1; [|apply Forall_map, Forall_true; intros; apply Z_to_bits_length..|by rewrite !length_map].
  apply (concat_inj hash_bits) in E2; [| | |by rewrite !length_map].
  2,3: apply Forall_map; eapply list.Forall_impl; [eassumption|]; intros x Hx; by apply valid_hash_length.
  revert infos' Hv' Hl E1 E2. unfold same_refs_at. induction Hv as [|x infos Hx Hv IH]; intros [|x' infos'] Hv' Hl E1 E2; try done; constructor.
  - apply cons_eq in E1 as [E1 _]. apply cons_eq in E2 as [E2 _]. inversion Hv' as [|?? Hx']. split; [done|].
    pose proof (valid_depth _ cl Hx). pose proof (valid_depth _ cl Hx'). apply Z_to_bits_inj in E1; [done|..]; unfold max_depth, depth_bits in *; lia.
  - apply cons_eq in E1 as [_ E1]. apply cons_eq in E2 as [_ E2]. inversion Hv'. apply IH; (done || cbn in Hl; lia).
Qed.

Lemma level_hash_inj n t t' sp sp' bits bits' infos infos' mu mu' : (get_level mu <= n)%nat ->
  side t sp bits infos mu -> side t' sp' bits' infos' mu' -> all_hashed t sp bits infos mu -> all_hashed t' sp' bits' infos' mu' ->
  level_hash t sp bits infos mu = level_hash t' sp' bits' infos' mu' ->
  sp = sp' /\ bits = bits' /\ mu = mu' /\ same_refs_at (child_level t (get_level mu)) infos infos'.
Proof using sha_len no_collision.
  revert mu mu'. induction n as [n IH] using lt_wf_ind. intros mu mu' Hlv S1 S2 U1 U2 E.
  assert (apply_level 3 mu = mu) as A1 by (apply apply_level_3, S1). assert (apply_level 3 mu' = mu') as A2 by (apply apply_level_3, S2).
  apply no_collision in E; [|rewrite <- A1; apply U1; rewrite A1; by right|rewrite <- A2; apply U2; rewrite A2; by right].
  destruct (node_input_split _ _ _ _ _ _ _ _ _ _ _ _ S1 S2 E) as (<- & <- & Hl & Hd & Eb).
  destruct (body_inj _ _ _ _ _ _ _ _ S1 S2 Hl Hd) as [Hbl Hbi]. apply app_inj_1 in Eb as [Eb Er]; [|exact Hbl].
  assert (bits = bits') as <-.
  { destruct (Hbi Eb) as [?|(Ht & Ht' & H0 & Eh)]; [done|]. set (l := (get_level mu - 1)%nat) in *.
    assert (0 < get_level mu)%nat as Hpos. { unfold get_level. destruct (Z.eqb_spec mu 0); [done|lia]. }
    pose proof (top_le l mu (sd_mask _ _ _ _ _ S1)). unfold top in *.
    destruct (IH (get_level (apply_level l mu)) ltac:(lia) (apply_level l mu) (apply_level l mu) ltac:(lia)) as (_ & ? & _); try done.
    - by apply side_lower.
    - by apply side_lower.
    - by apply all_hashed_lower; [apply S1|..].
    - by apply all_hashed_lower; [apply S1|..]. }
  assert (t = t') as <- by (pose proof (sd_type _ _ _ _ _ S1); pose proof (sd_type _ _ _ _ _ S2); congruence).
  split_and!; try done. apply refs_inj; [apply S1|apply S2|done|exact Er].
Qed.
End inj.

(** ** Cells that agree up to a level *)

(** [x] up to level [d] is [y] up to level [d']. *)
Record same_at (d : nat) (x : CellInfo) (d' : nat) (y : CellInfo) : Prop := mkSame {
  sa_mask : apply_level d (ci_mask x) = apply_level d' (ci_mask y);
  sa_hash l : (l <= d)%nat -> (l <= d')%nat -> info_hash l x = info_hash l y;
  sa_depth l : (l <= d)%nat -> (l <= d')%nat -> info_depth l x = info_depth l y
}.

Lemma same_at_any d x d' y j : canon x -> canon y -> same_at d x d' y ->
  info_hash (Nat.min j d) x = info_hash (Nat.min j d') y /\ info_depth (Nat.min j d) x = info_depth (Nat.min j d') y.
Proof.
  intros Hx Hy [Em Eh Ed]. pose proof (cn_mask _ Hx) as Mx. pose proof (cn_mask _ Hy) as My.
  assert (apply_level (Nat.min j d) (ci_mask x) = apply_level (Nat.min j d') (ci_mask y)) as E.
  { rewrite <- !apply_level_twice by done. by rewrite Em. }
  set (g := top (Nat.min j d) (ci_mask x)). assert (g = top (Nat.min j d') (ci_mask y)) as Eg by (unfold g, top; by rewrite E).
  assert (g <= Nat.min j d)%nat as G1 by by apply top_le. assert (g <= Nat.min j d')%nat as G2 by (rewrite Eg; by apply top_le).
  assert (apply_level (Nat.min j d) (ci_mask x) = apply_level g (ci_mask x)) as A1 by (symmetry; by apply top_apply).
  assert (apply_level (Nat.min j d') (ci_mask y) = apply_level g (ci_mask y)) as A2 by (rewrite Eg; symmetry; by apply top_apply).
  rewrite (cn_hash _ Hx _ _ A1), (cn_hash _ Hy _ _ A2), (cn_depth _ Hx _ _ A1), (cn_depth _ Hy _ _ A2). split; [apply Eh|apply Ed]; lia.
Qed.
Lemma same_at_refl d x : same_at d x d x.
Proof. done. Qed.
Lemma same_at_sym d x d' y : same_at d x d' y -> same_at d' y d x.
Proof. intros [Em Eh Ed]. split; [done|..]; intros l ? ?; symmetry; auto. Qed.
Lemma same_at_trans d x d' y d'' z : canon x -> canon y -> canon z -> same_at d x d' y -> same_at d' y d'' z -> same_at d x d'' z.
Proof.
  intros Hx Hy Hz H1 H2. split; [etransitivity; [apply H1|apply H2]|..]; intros l L1 L2;
    destruct (same_at_any _ _ _ _ l Hx Hy H1) as [E1 E1'], (same_at_any _ _ _ _ l Hy Hz H2) as [E2 E2'];
    rewrite (Nat.min_l l d) in * by lia; rewrite (Nat.min_l l d'') in * by lia; congruence.
Qed.
(** From its own level on, a cell is the same at all levels. *)
Lemma same_at_above i d d' : canon i -> apply_level d (ci_mask i) = ci_mask i -> apply_level d' (ci_mask i) = ci_mask i -> same_at d i d' i.
Proof. intros Hc E E'. split; [congruence|done..]. Qed.

Section ext.
Context `{Sha256}.

(** The same references at all levels up to [n] *)
Definition same_refs (t : SpecialType) (n : nat) : list CellInfo -> list CellInfo -> Prop :=
  Forall2 (fun x y => forall l, (l <= n)%nat ->
    info_hash (child_level t l) x = info_hash (child_level t l) y /\ info_depth (child_level t l) x = info_depth (child_level t l) y).

Lemma node_input_ext t sp bits infos infos' mu prev : same_refs t (get_level mu) infos infos' ->
  node_input t sp bits infos mu prev = node_input t sp bits infos' mu prev.
Proof.
  intros Hs. unfold node_input. rewrite (list.Forall2_length _ _ _ Hs). set (cl := child_level t (get_level mu)).
  assert (map (fun r => Z_to_bits depth_bits (info_depth cl r)) infos = map (fun r => Z_to_bits depth_bits (info_depth cl r)) infos' /\
    map (info_hash cl) infos = map (info_hash cl) infos') as [-> ->]; [|done].
  induction Hs as [|x y xs ys E Hs IH]; [done|]. cbn [map]. destruct IH as [-> ->]. destruct (E (get_level mu) ltac:(lia)) as [E1 E2].
  fold cl in E1, E2. by rewrite E1, E2.
Qed.
Lemma same_refs_le t n k infos infos' : (k <= n)%nat -> same_refs t n infos infos' -> same_refs t k infos infos'.
Proof. intros Hk Hs. eapply list.Forall2_impl; [exact Hs|]. cbn. intros x y E l Hl. apply E. lia. Qed.
Lemma level_hash_ext t sp bits infos infos' mu : mask_ok mu -> same_refs t (get_level mu) infos infos' ->
  level_hash t sp bits infos mu = level_hash t sp bits infos' mu.
Proof.
  intros Hm Hs. unfold level_hash, level_input. rewrite (node_input_ext _ _ _ _ _ _ _ Hs). do 2 f_equal.
  assert (forall ls prev, Forall (fun l => (l <= get_level mu)%nat) ls -> level_chain t sp bits infos mu ls prev = level_chain t sp bits infos' mu ls prev) as Hch.
  { induction ls as [|l ls IH]; intros prev Hl; cbn; [done|]. inversion Hl as [|?? Hl1 Hl2]; subst. rewrite IH by done. do 3 f_equal.
    apply node_input_ext. eapply same_refs_le; [|exact Hs]. pose proof (top_le l mu Hm). unfold top in *. lia. }
  apply Hch. clear -Hm. mask_case Hm; vm_compute; repeat constructor.
Qed.

Lemma check_mask_union t bits infos m ds : t <> PrunnedBranch -> check_by_type t bits infos = Some (m, ds) ->
  m = foldr Z.lor 0 (map (child_mask t) infos).
Proof.
  intros Ht Hc. destruct t; cbn in Hc; [|done| | |].
  - injection Hc as <- _. unfold child_mask. cbn [merkle_type].
    assert (forall a, foldl (fun m r => Z.lor m (ci_mask r)) a infos = Z.lor a (foldr Z.lor 0 (map ci_mask infos))) as Hf; [|by rewrite Hf, Z.lor_0_l].
    induction infos as [|x infos IH]; intros a; cbn; [by rewrite Z.lor_0_r|]. by rewrite IH, Z.lor_assoc.
  - by apply check_library_ok in Hc as (-> & _ & ->).
  - unfold check_merkle_proof in Hc. destruct infos as [|i [|]]; try done. repeat case_match; try done. injection Hc as <- _. cbn. by rewrite Z.lor_0_r.
  - unfold check_merkle_update in Hc. destruct infos as [|i [|i' [|]]]; try done. repeat case_match; try done. injection Hc as <- _. cbn.
    by rewrite Z.lor_0_r, Z.shiftr_lor.
Qed.
Lemma child_apply_mask t d x : mask_ok (ci_mask x) ->
  apply_level d (child_mask t x) = if merkle_type t then Z.shiftr (apply_level (child_level t d) (ci_mask x)) 1 else apply_level (child_level t d) (ci_mask x).
Proof. intros Hm. unfold child_mask, child_level. destruct (merkle_type t); [by apply apply_level_shiftr|done]. Qed.
Lemma union_same t d d' infos infos' : Forall canon infos -> Forall canon infos' ->
  Forall2 (fun x y => same_at (child_level t d) x (child_level t d') y) infos infos' ->
  apply_level d (foldr Z.lor 0 (map (child_mask t) infos)) = apply_level d' (foldr Z.lor 0 (map (child_mask t) infos')).
Proof.
  intros Hc Hc' Hs. induction Hs as [|x y infos infos' Hxy Hs IH]; cbn; [by rewrite !apply_zero|].
  inversion Hc as [|?? Hx]; inversion Hc' as [|?? Hy]; subst. rewrite !apply_level_lor, IH by done. f_equal.
  rewrite !child_apply_mask by (apply Hx || apply Hy). by rewrite (sa_mask _ _ _ _ Hxy).
Qed.

Lemma child_level_min t l d : child_level t (Nat.min l d) = Nat.min (child_level t l) (child_level t d).
Proof. unfold child_level. destruct (merkle_type t); lia. Qed.
Lemma child_level_le t l d : (l <= d)%nat -> (child_level t l <= child_level t d)%nat.
Proof. unfold child_level. destruct (merkle_type t); lia. Qed.

(** A cell agrees with another one when their data are equal and their references agree. *)
Lemma same_at_parent sp bits infos infos' i i' d d' :
  check_and_compute sp bits infos = Some i -> check_and_compute sp bits infos' = Some i' -> mask_ok (ci_mask i) -> mask_ok (ci_mask i') ->
  Forall canon infos -> Forall canon infos' -> ci_type i <> PrunnedBranch ->
  Forall2 (fun x y => same_at (child_level (ci_type i) d) x (child_level (ci_type i) d') y) infos infos' -> same_at d i d' i'.
Proof.
  intros H1 H2 M1 M2 C1 C2 Ht Hs. pose proof (check_and_compute_inv _ _ _ _ H1) as (ds & T1 & K1 & _).
  pose proof (check_and_compute_inv _ _ _ _ H2) as (ds' & T2 & K2 & _). assert (ci_type i' = ci_type i) as Et by congruence.
  assert (apply_level d (ci_mask i) = apply_level d' (ci_mask i')) as Em.
  { rewrite Et in K2. rewrite (check_mask_union _ _ _ _ _ Ht K1), (check_mask_union _ _ _ _ _ Ht K2). by apply union_same. }
  assert (forall n, (n <= d)%nat -> (n <= d')%nat -> same_refs (ci_type i) n infos infos') as Hr.
  { intros n N1 N2. eapply list.Forall2_impl; [exact Hs|]. cbn. intros x y Hxy l Hl.
    pose proof (child_level_le (ci_type i) l d ltac:(lia)). pose proof (child_level_le (ci_type i) l d' ltac:(lia)).
    by split; [apply (sa_hash _ _ _ _ Hxy)|apply (sa_depth _ _ _ _ Hxy)]. }
  split; [done|..]; intros l L1 L2.
  - rewrite (info_hash_level _ _ _ _ l H1), (info_hash_level _ _ _ _ l H2) by (try done; left; congruence). rewrite Et.
    assert (apply_level l (ci_mask i) = apply_level l (ci_mask i')) as El.
    { rewrite <- (Nat.min_l l d), <- apply_level_twice, Em, apply_level_twice by done. f_equal. lia. }
    rewrite <- El. apply level_hash_ext; [by apply apply_level_ok|]. pose proof (top_le l (ci_mask i) M1). unfold top in *. apply Hr; lia.
  - rewrite (info_depth_refs _ _ _ _ l H1), (info_depth_refs _ _ _ _ l H2) by (done || congruence). rewrite Et.
    unfold refs_depth_at. specialize (Hr l L1 L2). clear -Hr. induction Hr as [|x y xs ys E Hs IH]; cbn [map foldr]; [done|].
    rewrite IH. by rewrite (proj2 (E l ltac:(lia))).
Qed.

(** The depths of [y] are at most those of [x] up to level [d]. *)
Definition below_depth (d : nat) (x y : CellInfo) : Prop := forall l, info_depth l y <= info_depth (Nat.min l d) x.

Lemma refs_depth_below t infos infos' l d : Forall2 (fun x y => below_depth (child_level t d) x y) infos infos' ->
  refs_depth_at t infos' l <= refs_depth_at t infos (Nat.min l d).
Proof.
  unfold refs_depth_at. induction 1 as [|x y xs ys Hxy Hs IH]; cbn [map foldr]; [done|]. specialize (Hxy (child_level t l)).
  rewrite <- child_level_min in Hxy. lia.
Qed.

(** The references of a cell can be replaced by ones that agree with them and are not deeper. *)
Lemma replace_refs sp bits refs refs' i infos infos' d d' :
  cell_info (DataCell sp bits refs) = Some i -> ci_type i <> PrunnedBranch ->
  Forall2 (fun r x => cell_info r = Some x) refs infos -> Forall2 (fun r x => cell_info r = Some x) refs' infos' ->
  Forall2 (fun x y => same_at (child_level (ci_type i) d) x (child_level (ci_type i) d') y /\ below_depth (child_level (ci_type i) d) x y) infos infos' ->
  exists i', cell_info (DataCell sp bits refs') = Some i' /\ same_at d i d' i' /\ below_depth d i i'.
Proof.
  intros Hi Ht Hr Hr' Hs. pose proof (ok_mask _ _ (cell_info_ok _ _ Hi)) as M1. pose proof (valid_canon _ (ex_intro _ _ Hi)) as Hci.
  pose proof (cell_info_inv _ _ _ _ Hi) as (infos0 & Hr0 & Hn & Hb & Hc).
  assert (infos0 = infos) as ->.
  { clear -Hr0 Hr. revert infos Hr. induction Hr0 as [|r x refs xs Hx Hr0 IH]; intros infos Hr; inversion Hr; subst; [done|]. f_equal; [congruence|auto]. }
  assert (forall rs xs, Forall2 (fun r x => cell_info r = Some x) rs xs -> Forall canon xs) as Hcn.
  { intros rs xs. induction 1; constructor; [by eapply cell_info_canon|done]. }
  pose proof (Hcn _ _ Hr) as C1. pose proof (Hcn _ _ Hr') as C2. pose proof (check_and_compute_inv _ _ _ _ Hc) as (ds & T1 & K1 & _).
  assert (exists m' ds', check_by_type (ci_type i) bits infos' = Some (m', ds')) as (m' & ds' & K2).
  { clear -K1 Hs Ht. destruct (ci_type i); cbn in K1 |- *; [eauto|done| | |].
    - pose proof (check_library_ok _ _ _ _ K1) as (_ & _ & ->). inversion Hs. eauto.
    - destruct infos as [|x [|]]; try done. inversion Hs as [|? y ? ? [[_ Eh Ed] _] Hs']; subst. inversion Hs'; subst.
      unfold check_merkle_proof in *. destruct (negb _); [done|]. unfold check_merkle_child in *. rewrite <- (Eh 0%nat), <- (Ed 0%nat) by lia.
      destruct (negb _); [done|]. destruct (negb _); [done|]. eauto.
    - destruct infos as [|x [|x2 [|]]]; try done. inversion Hs as [|? y ? ? [[_ Eh Ed] _] Hs']; subst.
      inversion Hs' as [|? y2 ? ? [[_ Eh2 Ed2] _] Hs2]; subst. inversion Hs2; subst. unfold check_merkle_update in *. destruct (negb _); [done|].
      unfold check_merkle_child in *. rewrite <- (Eh 0%nat), <- (Ed 0%nat), <- (Eh2 0%nat), <- (Ed2 0%nat) by lia.
      destruct (negb _); [done|]. destruct (negb _); [done|]. destruct (negb _); [done|]. destruct (negb _); [done|]. eauto. }
  assert (Forall2 (fun x y => below_depth (child_level (ci_type i) d) x y) infos infos') as Hbd.
  { eapply list.Forall2_impl; [exact Hs|]. by intros x y [_ ?]. }
  assert (length ds' = 4%nat) as Hlen.
  { destruct (ci_type i); cbn in K2; [by injection K2 as _ <-|done|by apply check_library_ok in K2 as (_ & -> & _)| |].
    - unfold check_merkle_proof in K2. repeat case_match; try done. simplify_eq. unfold check_merkle_child in *. repeat case_match; try done. by simplify_eq.
    - unfold check_merkle_update in K2. repeat case_match; try done. simplify_eq. unfold check_merkle_child in *. repeat case_match; try done. by simplify_eq. }
  assert (check_and_compute sp bits infos' = Some (mkInfo (ci_type i) m' ds' (compute_hashes (ci_type i) sp m' bits infos'))) as Hc'.
  { unfold check_and_compute. rewrite T1, K2. rewrite (proj2 (forallb_forall _ ds')); [done|]. intros x [l Hx]%list_elem_of_In%list_elem_of_lookup. apply Z.leb_le.
    pose proof (lookup_lt_Some _ _ _ Hx) as Hl. rewrite Hlen in Hl. rewrite <- (list_lookup_total_correct _ _ _ Hx).
    rewrite (check_depths _ _ _ _ _ l Ht C2 K2) by lia. etransitivity; [by apply refs_depth_below|].
    rewrite <- (info_depth_refs _ _ _ _ _ Hc M1 C1 Ht). by apply (valid_depth i _ (ex_intro _ _ Hi)). }
  set (i' := mkInfo _ _ _ _) in Hc'. exists i'.
  assert (cell_info (DataCell sp bits refs') = Some i') as Hi'.
  { cbn [cell_info]. assert (mapM id (map cell_info refs') = Some infos') as ->; [by apply mapM_Some; rewrite Forall2_fmap_l|].
    pose proof (list.Forall2_length _ _ _ Hr). pose proof (list.Forall2_length _ _ _ Hr'). pose proof (list.Forall2_length _ _ _ Hs).
    rewrite (proj2 (Nat.ltb_ge max_refs _)), (proj2 (Nat.ltb_ge max_bits _)) by lia. done. }
  pose proof (ok_mask _ _ (cell_info_ok _ _ Hi')) as M2. split_and!; [done|..].
  - eapply same_at_parent; [exact Hc|exact Hc'|done..|]. eapply list.Forall2_impl; [exact Hs|]. by intros x y [? _].
  - intros l. rewrite (info_depth_refs _ _ _ _ _ Hc M1 C1 Ht), (info_depth_refs _ _ _ _ _ Hc' M2 C2 Ht). by apply refs_depth_below.
Qed.
End ext.
