(* ===== verification/Merkle.v ===== *)
(** * Merkle proofs and updates (crypto/vm/cells/MerkleProof.cpp, MerkleUpdate.cpp)

    A proof is a tree in which some subtrees are replaced by pruned branches that keep
    their hashes; an update is a pair of proofs, of the old and of the new state.  The
    searches visit every cell once: results are kept in hash maps under the hash of
    the cell and the Merkle depth, which is the number of Merkle cells above it.  A map is the
    state of the monad.  [DataCell::create] takes a function that gives the hashes of the new cell
    without computing them; here a hint that differs from the computed hash is undefined
    behaviour.  Null references are not represented. *)
From stdpp Require Import gmap.
From S2P Require Import Prelude Int256 Cells DataCell.

(** Keys of the hash maps *)
Notation Key := (list bool * nat)%type.
Notation Key2 := (list bool * list bool * nat)%type.

Section merkle.
Context `{Sha256}.

(** ** Cells *)

Definition get_level_mask (c : Cell) : Z := match cell_info c with Some i => ci_mask i | None => 0 end.
Definition get_hash_at (level : nat) (c : Cell) : list bool := match cell_info c with Some i => info_hash level i | None => [] end.
Definition get_depth_at (level : nat) (c : Cell) : Z := match cell_info c with Some i => info_depth level i | None => 0 end.
Definition special_type (c : Cell) : SpecialType := match cell_info c with Some i => ci_type i | None => Ordinary end.
Definition child_merkle_depth (c : Cell) (merkle_depth : nat) : nat :=
  match special_type c with MerkleProof | MerkleUpdate => S merkle_depth | _ => merkle_depth end.

Section create.
Context {S : Type}.
(** [CellBuilder::finalize] outside of the machine *)
Definition create_cell (bits : list bool) (refs : list Cell) (special : bool) : M S Cell :=
  match create bits refs special with Some c => ret c | None => throw CellWriteError end.

(** The hint is asked for the levels at which a hash is computed. *)
Definition hint_correct (hash_hint : nat -> option (list bool)) (c : Cell) : bool :=
  match cell_info c with
  | Some i => forallb (fun l => match hash_hint l with Some h => bool_decide (ci_hashes i !!! l = h) | None => true end)
                (hash_levels (ci_mask i) ++ [max_level])
  | None => true
  end.
Definition finalize_hinted (bits : list bool) (refs : list Cell) (special : bool) (hash_hint : nat -> option (list bool)) : M S Cell :=
  c <- create_cell bits refs special ;;
  assert_ub (hint_correct hash_hint c) ;;
  ret c.

Definition one_level (level : nat) : Z := if (level =? 0)%nat then 0 else Z.shiftl 1 (Z.of_nat level - 1).
Definition do_create_pruned_branch (cell : Cell) (new_level virt_level : nat) : M S Cell :=
  let level_mask := apply_level virt_level (get_level_mask cell) in
  let level := get_level level_mask in
  if (new_level <? level + 1)%nat then throw CellWriteError
  else
    let levels := filter (fun i => is_significant i level_mask = true) (seq 0 (level + 1)) in
    create_cell (Z_to_bits 8 1 ++ Z_to_bits 8 (Z.lor level_mask (one_level new_level)) ++
                 concat (map (fun i => get_hash_at i cell) levels) ++ concat (map (fun i => Z_to_bits depth_bits (get_depth_at i cell)) levels)) [] true.
(** A cell without references is kept.  The tests [is_loaded] and [is_virtualized] of the code
    are left out: the cells of this model are loaded and not virtualized. *)
Definition create_pruned_branch (cell : Cell) (new_level virt_level : nat) : M S Cell :=
  if (get_cell_level cell <=? virt_level)%nat && (length (cell_refs cell) =? 0)%nat then ret cell
  else do_create_pruned_branch cell new_level virt_level.

Definition create_merkle_proof (cell_proof : Cell) : M S Cell :=
  create_cell (Z_to_bits 8 3 ++ get_hash_at 0 cell_proof ++ Z_to_bits depth_bits (get_depth_at 0 cell_proof)) [cell_proof] true.
Definition create_merkle_update (from_proof to_proof : Cell) : M S Cell :=
  create_cell (Z_to_bits 8 4 ++ get_hash_at 0 from_proof ++ get_hash_at 0 to_proof ++
               Z_to_bits depth_bits (get_depth_at 0 from_proof) ++ Z_to_bits depth_bits (get_depth_at 0 to_proof)) [from_proof; to_proof] true.
End create.

(** [emplace] of a hash map leaves an entry that is there. *)
Definition emplace {K A} `{Countable K} (k : K) (a : A) (m : gmap K A) : gmap K A :=
  match m !! k with Some _ => m | None => <[k := a]> m end.

(** The loop over the references of a cell, with their indices, and its results *)
Section loop.
Context {S B : Type} (f : nat -> Cell -> M S B).
Fixpoint for_refs (i : nat) (refs : list Cell) : M S (list B) :=
  match refs with
  | [] => ret []
  | r :: refs' => x <- f i r ;; xs <- for_refs (Datatypes.S i) refs' ;; ret (x :: xs)
  end.
End loop.

(** A search that was tried on a fresh object. *)
Definition run_fresh {S T A} (m : M S A) (s : S) : M T A := fun t =>
  match m s with
  | Ret a _ => Ret a t
  | Exn e _ => Exn e t
  | Undef => Undef
  end.

(** ** Generation of proofs: [MerkleProofImpl] *)

Section generate.
Context (is_prunned : Cell -> bool).
Fixpoint proof_dfs (cell : Cell) (merkle_depth : nat) : M (gmap Key Cell) Cell :=
  let 'DataCell special bits refs := cell in
  let key := (get_hash cell, merkle_depth) in
  found <- gets (fun m => m !! key) ;;
  match found with
  | Some res => ret res
  | None =>
      if is_prunned cell then
        res <- create_pruned_branch cell (merkle_depth + 1) max_level ;;
        modify (emplace key res) ;;
        ret res
      else
        let children_merkle_depth := child_merkle_depth cell merkle_depth in
        refs <- for_refs (fun _ r => proof_dfs r children_merkle_depth) 0 refs ;;
        let hash_hint level := if (level <=? merkle_depth)%nat then Some (get_hash_at level cell) else None in
        res <- finalize_hinted bits refs special hash_hint ;;
        modify (emplace key res) ;;
        ret res
  end.

(** [create_from]: the exceptions become errors. *)
Definition generate_raw (cell : Cell) : M unit Cell := fun s =>
  match proof_dfs cell (get_cell_level cell) ∅ with
  | Ret res _ => Ret res s
  | Exn (CellWriteError | CellCreateError) _ => Exn StatusError s
  | Exn e _ => Exn e s
  | Undef => Undef
  end.
Definition generate (cell : Cell) : M unit Cell :=
  unless_throw (get_cell_level cell =? 0)%nat StatusError ;;
  raw <- generate_raw cell ;;
  create_merkle_proof raw.
End generate.

(** ** Reading of proofs *)

(** A cell, and the level up to which it counts when it is virtualized. *)
Record VirtualCell : Type := mkVirtual { virt_level : option nat; vc_cell : Cell }.
Definition plain (c : Cell) : VirtualCell := mkVirtual None c.
Definition create_virtual (level : nat) (c : Cell) : VirtualCell :=
  if (get_cell_level c <=? level)%nat then plain c else mkVirtual (Some level) c.
Definition virtualize (level : nat) (v : VirtualCell) : VirtualCell :=
  match virt_level v with
  | Some e => if (e <=? level)%nat then v else create_virtual level (vc_cell v)
  | None => create_virtual level (vc_cell v)
  end.
Definition virtual_hash (v : VirtualCell) : list bool :=
  match virt_level v with Some e => get_hash_at (Nat.min e max_level) (vc_cell v) | None => get_hash (vc_cell v) end.
(** [effective_level] of the loaded cell *)
Definition effective_level (v : VirtualCell) : nat :=
  match virt_level v with Some e => Nat.min (get_cell_level (vc_cell v)) e | None => get_cell_level (vc_cell v) end.

(** [load_cell_slice_special]: the flag, the data and the references of a cell; a pruned branch
    that stands for a cell cannot be loaded. *)
Definition load_virtual (v : VirtualCell) : M unit (bool * list bool * list VirtualCell) :=
  let c := vc_cell v in
  if bool_decide (special_type c = PrunnedBranch) && (effective_level v <? get_cell_level c)%nat then throw (VmError Exc_virt_err)
  else ret (cell_special c, cell_bits c,
            map (fun r => virtualize (child_merkle_depth c (effective_level v)) (plain r)) (cell_refs c)).

Definition unpack_proof (cell : Cell) : M unit Cell :=
  unless_throw (get_cell_level cell =? 0)%nat StatusError ;;
  unless_throw (bool_decide (special_type cell = MerkleProof)) StatusError ;;
  of_option (cell_refs cell !! 0%nat).
Definition virtualize_proof (cell : Cell) : M unit VirtualCell :=
  unpacked_cell <- unpack_proof cell ;;
  ret (virtualize 0 (plain unpacked_cell)).

(** ** Combination of proofs: [MerkleProofCombineFast] *)

Definition is_pruned_branch (c : Cell) : bool := bool_decide (special_type c = PrunnedBranch).

Fixpoint merge (a b : Cell) (merkle_depth : nat) : M (gmap Key2 Cell) Cell :=
  let 'DataCell special bits refs := a in
  if bool_decide (get_hash a = get_hash b) then ret a
  else if (get_cell_level a =? merkle_depth)%nat then ret a
  else if (get_cell_level b =? merkle_depth)%nat then ret b
  else if is_pruned_branch a then ret b
  else if is_pruned_branch b then ret a
  else
    let key := (get_hash a, get_hash b, merkle_depth) in
    found <- gets (fun m => m !! key) ;;
    match found with
    | Some res => ret res
    | None =>
        assert_ub (negb (length refs =? 0)%nat) ;;
        let child_merkle_depth := child_merkle_depth a merkle_depth in
        refs <- for_refs (fun i r => r_b <- of_option (cell_refs b !! i) ;; merge r r_b child_merkle_depth) 0 refs ;;
        res <- create_cell bits refs special ;;
        modify (insert key res) ;;
        ret res
    end.

(** [run_raw] *)
Definition combine_fast_raw (a b : Cell) : M unit Cell :=
  unless_throw (bool_decide (get_hash_at 0 a = get_hash_at 0 b)) StatusError ;;
  run_fresh (merge a b 0) ∅.
Definition combine_fast (a b : Cell) : M unit Cell :=
  a <- unpack_proof a ;;
  b <- unpack_proof b ;;
  res <- combine_fast_raw a b ;;
  create_merkle_proof res.

(** ** Application of updates: [MerkleUpdateApply] *)

Definition compare_cells (a : Cell) (merkle_depth_a : nat) (b : Cell) (merkle_depth_b : nat) : bool :=
  (apply_level merkle_depth_a (get_level_mask a) =? apply_level merkle_depth_b (get_level_mask b)) &&
  forallb (fun i =>
      bool_decide (get_hash_at (Nat.min i merkle_depth_a) a = get_hash_at (Nat.min i merkle_depth_b) b) &&
      (get_depth_at (Nat.min i merkle_depth_a) a =? get_depth_at (Nat.min i merkle_depth_b) b))
    (seq 0 (S (Nat.max merkle_depth_a merkle_depth_b))).

Record MerkleUpdateApply : Type := mkApply {
  known_cells_ : gmap (list bool) Cell;
  ready_cells_ : gmap Key Cell;
  visited_from_ : gset Key
}.
Definition set_known (f : gmap (list bool) Cell -> gmap (list bool) Cell) (s : MerkleUpdateApply) : MerkleUpdateApply :=
  mkApply (f (known_cells_ s)) (ready_cells_ s) (visited_from_ s).
Definition set_ready (f : gmap Key Cell -> gmap Key Cell) (s : MerkleUpdateApply) : MerkleUpdateApply :=
  mkApply (known_cells_ s) (f (ready_cells_ s)) (visited_from_ s).
Definition set_visited (f : gset Key -> gset Key) (s : MerkleUpdateApply) : MerkleUpdateApply :=
  mkApply (known_cells_ s) (ready_cells_ s) (f (visited_from_ s)).

(** The references of both cells are visited together; a missing one is a null reference. *)
Fixpoint dfs_both (original update_from : Cell) (merkle_depth : nat) : M MerkleUpdateApply unit :=
  let 'DataCell _ _ refs := original in
  let key := (get_hash update_from, merkle_depth) in
  visited <- gets (fun s => bool_decide (key ∈ visited_from_ s)) ;;
  if visited : bool then ret tt
  else
    modify (set_visited (union {[key]})) ;;
    unless_throw (compare_cells original merkle_depth update_from merkle_depth) StatusError ;;
    modify (set_known (emplace (get_hash_at merkle_depth original) original)) ;;
    if is_pruned_branch update_from then ret tt
    else
      let child_merkle_depth := child_merkle_depth update_from merkle_depth in
      for_refs (fun i r => r_u <- of_option (cell_refs update_from !! i) ;; dfs_both r r_u child_merkle_depth) 0 refs ;;
      ret tt.

Fixpoint apply_dfs (cell : Cell) (merkle_depth : nat) : M MerkleUpdateApply Cell :=
  let 'DataCell special bits refs := cell in
  if is_pruned_branch cell then
    if (get_cell_level cell =? merkle_depth + 1)%nat then
      known <- gets (fun s => known_cells_ s !! get_hash_at merkle_depth cell) ;;
      match known with
      | Some c => unless_throw (compare_cells c (get_cell_level c) cell merkle_depth) StatusError ;; ret c
      | None => throw StatusError
      end
    else ret cell
  else
    let key := (get_hash cell, merkle_depth) in
    found <- gets (fun s => ready_cells_ s !! key) ;;
    match found with
    | Some res => ret res
    | None =>
        let child_merkle_depth := child_merkle_depth cell merkle_depth in
        refs <- for_refs (fun _ r => apply_dfs r child_merkle_depth) 0 refs ;;
        let hash_hint level := Some (get_hash_at (Nat.min level merkle_depth) cell) in
        res <- finalize_hinted bits refs special hash_hint ;;
        modify (set_ready (emplace key res)) ;;
        ret res
    end.

(** [MerkleUpdate::apply_raw] with [MerkleUpdateApply::apply], without the hints for storage *)
Definition apply_raw (from update_from update_to : Cell) (from_level to_level : nat) : M unit Cell :=
  unless_throw (bool_decide (get_hash_at from_level from = get_hash_at from_level update_from)) StatusError ;;
  run_fresh (unless_throw (from_level =? get_cell_level from)%nat StatusError ;;
             dfs_both from update_from from_level ;;
             apply_dfs update_to to_level) (mkApply ∅ ∅ ∅).

Definition unpack_update (update : Cell) : M unit (Cell * Cell) :=
  unless_throw (bool_decide (special_type update = MerkleUpdate)) StatusError ;;
  update_from <- of_option (cell_refs update !! 0%nat) ;;
  update_to <- of_option (cell_refs update !! 1%nat) ;;
  ret (update_from, update_to).
Definition may_apply (from update : Cell) : M unit unit :=
  unless_throw ((get_cell_level update =? 0)%nat && (get_cell_level from =? 0)%nat) StatusError ;;
  let* (update_from, _) := unpack_update update in
  unless_throw (bool_decide (get_hash_at 0 from = get_hash_at 0 update_from)) StatusError.
Definition apply (from update : Cell) : M unit Cell :=
  unless_throw ((get_cell_level update =? 0)%nat && (get_cell_level from =? 0)%nat) StatusError ;;
  let* (update_from, update_to) := unpack_update update in
  apply_raw from update_from update_to 0 0.

(** ** Validation of updates: [MerkleUpdateValidator] *)

Record MerkleUpdateValidator : Type := mkValidator {
  v_known_cells_ : gmap (list bool) (Cell * nat);
  v_visited_from_ : gset Key;
  v_visited_to_ : gset Key
}.
Definition v_set_known (f : gmap (list bool) (Cell * nat) -> gmap (list bool) (Cell * nat)) (s : MerkleUpdateValidator) : MerkleUpdateValidator :=
  mkValidator (f (v_known_cells_ s)) (v_visited_from_ s) (v_visited_to_ s).
Definition v_set_from (f : gset Key -> gset Key) (s : MerkleUpdateValidator) : MerkleUpdateValidator :=
  mkValidator (v_known_cells_ s) (f (v_visited_from_ s)) (v_visited_to_ s).
Definition v_set_to (f : gset Key -> gset Key) (s : MerkleUpdateValidator) : MerkleUpdateValidator :=
  mkValidator (v_known_cells_ s) (v_visited_from_ s) (f (v_visited_to_ s)).

Fixpoint dfs_from (cell : Cell) (merkle_depth : nat) : M MerkleUpdateValidator unit :=
  let 'DataCell _ _ refs := cell in
  let key := (get_hash cell, merkle_depth) in
  visited <- gets (fun s => bool_decide (key ∈ v_visited_from_ s)) ;;
  if visited : bool then ret tt
  else
    modify (v_set_from (union {[key]})) ;;
    known <- gets (fun s => v_known_cells_ s !! get_hash_at merkle_depth cell) ;;
    match known with
    | Some (other_cell, other_merkle_depth) => unless_throw (compare_cells cell merkle_depth other_cell other_merkle_depth) StatusError
    | None => modify (v_set_known (insert (get_hash_at merkle_depth cell) (cell, merkle_depth)))
    end ;;
    if is_pruned_branch cell then ret tt
    else
      let child_merkle_depth := child_merkle_depth cell merkle_depth in
      for_refs (fun _ r => dfs_from r child_merkle_depth) 0 refs ;;
      ret tt.

Fixpoint dfs_to (cell : Cell) (merkle_depth : nat) : M MerkleUpdateValidator unit :=
  let 'DataCell _ _ refs := cell in
  let key := (get_hash cell, merkle_depth) in
  visited <- gets (fun s => bool_decide (key ∈ v_visited_to_ s)) ;;
  if visited : bool then ret tt
  else
    modify (v_set_to (union {[key]})) ;;
    if is_pruned_branch cell then
      if (get_cell_level cell =? merkle_depth + 1)%nat then
        known <- gets (fun s => v_known_cells_ s !! get_hash_at merkle_depth cell) ;;
        match known with
        | Some (other_cell, other_merkle_depth) => unless_throw (compare_cells cell merkle_depth other_cell other_merkle_depth) StatusError
        | None => throw StatusError
        end
      else ret tt
    else
      let child_merkle_depth := child_merkle_depth cell merkle_depth in
      for_refs (fun _ r => dfs_to r child_merkle_depth) 0 refs ;;
      ret tt.

Definition validate_raw (update_from update_to : Cell) (from_level to_level : nat) : M unit unit :=
  run_fresh (dfs_from update_from from_level ;; dfs_to update_to to_level) (mkValidator ∅ ∅ ∅).
Definition validate (update : Cell) : M unit unit :=
  unless_throw (get_cell_level update =? 0)%nat StatusError ;;
  let* (update_from, update_to) := unpack_update update in
  validate_raw update_from update_to 0 0.
End merkle.
