(* ===== verification/MerkleSpec.v ===== *)
(** * Merkle proofs: pruned branches, generation, soundness

    A generated proof has the root hash of the tree it was made from, and shows every cell that
    was not pruned; what can be read from any proof is what the tree with that hash has. *)
From stdpp Require Import gmap.
From S2P Require Import Prelude Int256 Cells DataCell CellLevels Merkle.

(** ** Pruned branches keep the hashes and depths of the cell *)

(** ** Blocks of equal length *)

Lemma take_drop_block {A} k (l : list (list A)) n x tail : Forall (fun y => length y = k) l -> l !! n = Some x ->
  take k (drop (n * k) (concat l ++ tail)) = x.
Proof.
  intros Hl. revert n. induction Hl as [|y l Hy Hl IH]; intros [|n] Hx; try done; cbn in *; rewrite <- app_assoc.
  - injection Hx as ->. rewrite drop_0, take_app_le by lia. apply take_ge. lia.
  - rewrite Nat.add_comm, drop_app_ge by lia. rewrite Hy. replace (n * k + k - k)%nat with (n * k)%nat by lia. by apply IH.
Qed.

(** The levels of a mask, and the position of the hash for a level *)
Definition sig_levels (mu : Z) : list nat := filter (fun i => is_significant i mu = true) (seq 0 (get_level mu + 1)).
Lemma sig_levels_length mu : mask_ok mu -> length (sig_levels mu) = (get_hash_i mu + 1)%nat.
Proof. intros Hm. mask_case Hm; reflexivity. Qed.
Lemma sig_levels_lookup mu l : mask_ok mu -> sig_levels mu !! get_hash_i (apply_level l mu) = Some (top l mu).
Proof.
  intros Hm. unfold top. rewrite (apply_level_cap l) by done. pose proof (Nat.le_min_r l 3) as Hl. level_case Hl; mask_case Hm; reflexivity.
Qed.

Lemma hash_count mu : mask_ok mu -> (get_level mu < 3)%nat -> (get_hash_i mu <= 2)%nat.
Proof. intros Hm Hl. mask_case Hm; vm_compute in Hl |- *; lia. Qed.

(** The mask of a pruned branch of level [new] for a cell with mask [mu] *)
Lemma one_level_range new : (1 <= new <= 3)%nat -> 1 <= one_level new <= 4.
Proof. intros Hn. assert (new <= 3)%nat as H3 by lia. level_case H3; [lia|vm_compute; split; discriminate..]. Qed.
Lemma new_mask mu new : mask_ok mu -> (get_level mu < new)%nat -> (new <= 3)%nat ->
  let m := Z.lor mu (one_level new) in
  mask_ok m /\ m <> 0 /\ get_level m = new /\ get_hash_i m = (get_hash_i mu + 1)%nat /\ apply_level (new - 1) m = mu /\
  (forall l, (l < new)%nat -> apply_level l m = apply_level l mu).
Proof.
  intros Hm Hl Hn. assert (new <= 3)%nat as H3 by lia.
  split; [|split_and!]; [|level_case H3; mask_case Hm; vm_compute in Hl |- *; first [lia|done]..|].
  - apply mask_lor; [done|]. pose proof (one_level_range new ltac:(lia)). unfold mask_ok. lia.
  - intros l Hln. assert (l <= 3)%nat as L3 by lia. level_case H3; mask_case Hm; level_case L3; vm_compute in Hl, Hln |- *; first [lia|done].
Qed.

(** The values of a pruned branch below its level, by position *)
Lemma pruned_entries `{Sha256} B m ds l : check_pruned_branch B [] = Some (m, ds) -> (l < get_level m)%nat ->
  ds !!! l = stored_depth m B (get_hash_i (apply_level l m)) /\
  compute_hashes PrunnedBranch true m B [] !!! l = take hash_bits (drop (16 + get_hash_i (apply_level l m) * hash_bits) B).
Proof.
  intros Hc Hl. pose proof (check_pruned_ok _ _ _ _ Hc) as (Hm & _). assert (l <= 3)%nat as L3 by (pose proof (get_level_le _ Hm); lia). split.
  - apply check_pruned_depths in Hc as ->. set (g := stored_depth m B). clearbody g.
    level_case L3; mask_case Hm; first [reflexivity|exfalso; vm_compute in Hl; lia].
  - unfold compute_hashes, hash_step. clear Hc ds. set (g := fun n => take hash_bits (drop (16 + n * hash_bits) B)).
    assert (forall k prev, (k < 3)%nat -> compute_hash PrunnedBranch true m B [] k prev = g (get_hash_i (apply_level k m))) as Hf.
    { intros k prev Hk. unfold compute_hash. by rewrite (proj2 (Nat.eqb_neq k max_level)) by (unfold max_level; lia). }
    set (f := compute_hash _ _ _ _ _) in *. clearbody f.
    match goal with |- _ = take hash_bits (drop (16 + ?n * hash_bits) B) => change (take hash_bits (drop (16 + n * hash_bits) B)) with (g n) end.
    clearbody g. level_case L3; mask_case Hm; try (exfalso; vm_compute in Hl; lia);
      (match goal with |- ?x = _ => let x' := eval vm_compute in x in change x with x' end); rewrite Hf by lia; reflexivity.
Qed.

(** ** The data of a pruned branch *)

Section pruned.
Context `{Sha256}.
Hypothesis sha_len : forall x, length (sha256 x) = hash_bits.

Section data.
Context (c : Cell) (i : CellInfo) (virt new : nat).
Hypothesis Hi : cell_info c = Some i.
Notation mu := (apply_level virt (ci_mask i)).
Notation m := (Z.lor mu (one_level new)).

Definition stored_hashes : list (list bool) := map (fun l => info_hash l i) (sig_levels mu).
Definition stored_depths : list (list bool) := map (fun l => Z_to_bits depth_bits (info_depth l i)) (sig_levels mu).
Definition pruned_bits : list bool := Z_to_bits 8 1 ++ Z_to_bits 8 m ++ concat stored_hashes ++ concat stored_depths.

Lemma mu_ok : mask_ok mu.
Proof using Hi. apply apply_level_ok, cn_mask. by eapply cell_info_canon. Qed.
Lemma stored_hashes_len : Forall (fun h => length h = hash_bits) stored_hashes.
Proof using Hi sha_len. apply Forall_map, Forall_true. intros l. apply valid_hash_length; [done|by exists c]. Qed.
Lemma stored_depths_len : Forall (fun h => length h = depth_bits) stored_depths.
Proof using. apply Forall_map, Forall_true. intros l. apply Z_to_bits_length. Qed.
Lemma pruned_bits_length : length pruned_bits = (16 + (get_hash_i mu + 1) * (hash_bits + depth_bits))%nat.
Proof using Hi sha_len.
  unfold pruned_bits. rewrite !length_app, !Z_to_bits_length, (concat_length_const _ _ stored_hashes_len), (concat_length_const _ _ stored_depths_len).
  unfold stored_hashes, stored_depths. rewrite !length_map, sig_levels_length by apply mu_ok. lia.
Qed.
Lemma pruned_mask_byte : read_byte 1 pruned_bits = m mod 256.
Proof using.
  unfold read_byte, pruned_bits. rewrite drop_app_ge by (rewrite Z_to_bits_length; lia). rewrite Z_to_bits_length, drop_0, take_app_le by (rewrite Z_to_bits_length; lia).
  rewrite take_ge by (rewrite Z_to_bits_length; lia). by rewrite bits_to_Z_of_Z.
Qed.
Lemma pruned_hash n l : sig_levels mu !! n = Some l -> take hash_bits (drop (16 + n * hash_bits) pruned_bits) = info_hash l i.
Proof using Hi sha_len.
  intros Hn. unfold pruned_bits. rewrite app_assoc, drop_app_ge by (rewrite length_app, !Z_to_bits_length; lia).
  rewrite length_app, !Z_to_bits_length. replace (16 + n * hash_bits - (8 + 8))%nat with (n * hash_bits)%nat by lia.
  apply take_drop_block; [apply stored_hashes_len|]. unfold stored_hashes. by rewrite list_lookup_fmap, Hn.
Qed.
Lemma pruned_stored_depth m' n l : get_hash_i m' = (get_hash_i mu + 1)%nat -> sig_levels mu !! n = Some l -> stored_depth m' pruned_bits n = info_depth l i.
Proof using Hi sha_len.
  intros Hm Hn. unfold stored_depth, pruned_bits. rewrite Hm, !app_assoc, drop_app_ge.
  - rewrite !length_app, !Z_to_bits_length, (concat_length_const _ _ stored_hashes_len). unfold stored_hashes at 1.
    rewrite length_map, sig_levels_length by apply mu_ok. replace (_ - _)%nat with (n * depth_bits)%nat by lia.
    rewrite <- (app_nil_r (concat stored_depths)).
    rewrite (take_drop_block _ _ _ (Z_to_bits depth_bits (info_depth l i)) _ stored_depths_len) by (unfold stored_depths; by rewrite list_lookup_fmap, Hn).
    rewrite bits_to_Z_of_Z. apply Z.mod_small. pose proof (valid_depth i l (ex_intro _ _ Hi)). unfold max_depth, depth_bits in *. lia.
  - rewrite !length_app, !Z_to_bits_length, (concat_length_const _ _ stored_hashes_len). unfold stored_hashes.
    rewrite length_map, sig_levels_length by apply mu_ok. lia.
Qed.

Hypothesis Hlv : (get_level mu < new)%nat.
Lemma pruned_check : (new <= 3)%nat -> exists ds, check_pruned_branch pruned_bits [] = Some (m, ds).
Proof using Hi Hlv sha_len.
  intros Hn. destruct (new_mask mu new mu_ok Hlv Hn) as (Hm & H0 & Hg & Hh & _). unfold check_pruned_branch.
  rewrite pruned_mask_byte, pruned_bits_length, Z.mod_small by (unfold mask_ok in Hm; lia).
  rewrite (proj2 (Nat.ltb_ge _ 16)) by lia. cbv zeta. rewrite Hg, Hh.
  rewrite (proj2 (Nat.eqb_neq new 0)), (proj2 (Nat.ltb_ge max_level new)) by (unfold max_level; lia). rewrite Nat.eqb_refl. cbn [orb negb]. eauto.
Qed.
Lemma pruned_type : cell_type true pruned_bits = Some PrunnedBranch.
Proof using Hi Hlv sha_len. unfold cell_type. rewrite pruned_bits_length. by rewrite (proj2 (Nat.ltb_ge _ 8)) by lia. Qed.

Lemma pruned_branch_info : (new <= 3)%nat -> exists i', cell_info (DataCell true pruned_bits []) = Some i' /\ ci_type i' = PrunnedBranch /\
  ci_mask i' = m /\ same_at virt i (new - 1) i' /\ (forall l, (new <= l)%nat -> info_depth l i' = 0).
Proof using Hi Hlv sha_len.
  intros Hn. destruct (pruned_check Hn) as [ds Hc]. pose proof (check_pruned_ok _ _ _ _ Hc) as (Hm & _ & _ & Hlen & _ & _ & Htop).
  destruct (new_mask mu new mu_ok Hlv Hn) as (_ & _ & Hg & Hh & Ha & Hal). pose proof (cell_info_canon _ _ Hi) as Hcn.
  set (i' := mkInfo PrunnedBranch m ds (compute_hashes PrunnedBranch true m pruned_bits [])).
  assert (forall l, (l <= virt)%nat -> (l < new)%nat -> info_hash l i = info_hash l i' /\ info_depth l i = info_depth l i') as Hsame.
  { intros l L1 L2. destruct (pruned_entries pruned_bits m ds l Hc ltac:(rewrite Hg; lia)) as [E1 E2].
    rewrite Hal in E1, E2 by done.
    unfold info_hash at 2, info_depth at 2. cbn [ci_mask ci_hashes ci_depths i']. rewrite Hg, Nat.min_r, E1, E2 by lia.
    rewrite (pruned_hash _ (top l mu)), (pruned_stored_depth _ _ (top l mu)) by (done || by apply sig_levels_lookup, mu_ok).
    assert (apply_level l (ci_mask i) = apply_level (top l mu) (ci_mask i)) as E.
    { unfold top. rewrite apply_level_twice, Nat.min_l by (apply Hcn || lia). symmetry. apply top_apply, Hcn. }
    by split; [apply (cn_hash _ Hcn)|apply (cn_depth _ Hcn)]. }
  exists i'. assert (Forall (fun d => d <= Z.of_nat max_depth) ds) as Hbound.
  { apply Forall_lookup. intros l d Hd. pose proof (lookup_lt_Some _ _ _ Hd) as Hl. rewrite Hlen in Hl.
    destruct (Nat.le_gt_cases new l) as [L|L].
    - rewrite Htop in Hd by lia. injection Hd as <-. lia.
    - rewrite <- (list_lookup_total_correct _ _ _ Hd). destruct (pruned_entries pruned_bits m ds l Hc ltac:(rewrite Hg; lia)) as [-> _].
      rewrite Hal by done.
      rewrite (pruned_stored_depth _ _ (top l mu)) by (done || by apply sig_levels_lookup, mu_ok). by apply (valid_depth i _ (ex_intro _ _ Hi)). }
  split_and!; [|done|done| |].
  - cbn [cell_info map mapM]. 
    pose proof pruned_bits_length as Hbl. assert (get_hash_i mu <= 2)%nat as Hgi.
    { apply hash_count; [apply mu_ok|lia]. }
    rewrite (proj2 (Nat.ltb_ge max_bits _)) by (unfold max_bits, hash_bits, depth_bits in *; lia). cbn [length orb]. change (max_refs <? 0)%nat with false. cbn [orb].
    unfold check_and_compute. rewrite pruned_type. cbn [check_by_type mret option_ret]. rewrite Hc. rewrite (proj2 (forallb_forall _ ds)); [done|].
    intros d Hd%list_elem_of_In. apply Z.leb_le. by eapply list.Forall_forall in Hbound.
  - split; [by symmetry|..]; intros l L1 L2; apply Hsame; lia.
  - intros l Hl. unfold info_depth. cbn [ci_mask ci_depths i']. rewrite Hg, Nat.min_l by lia. apply list_lookup_total_correct, Htop. lia.
Qed.
End data.

(** ** Creation *)

(** No pruned branch has a level above 3. *)
Lemma pruned_too_high c i virt new : cell_info c = Some i -> (get_level (apply_level virt (ci_mask i)) < new)%nat -> (3 < new)%nat ->
  cell_info (DataCell true (pruned_bits i virt new) []) = None.
Proof using sha_len.
  intros Hi Hlv Hn. pose proof (mu_ok c i virt Hi) as Hmu. set (mu := apply_level virt (ci_mask i)) in *.
  pose proof (pruned_bits_length c i virt new Hi) as Hbl. fold mu in Hbl.
  cbn [cell_info map mapM mret option_ret]. destruct (_ || _); [done|]. unfold check_and_compute. cbn [mret option_ret].
  rewrite (pruned_type c i virt new Hi Hlv). cbn [check_by_type].
  assert (check_pruned_branch (pruned_bits i virt new) [] = None) as ->; [|done]. unfold check_pruned_branch. destruct (_ <? _)%nat; [done|].
  rewrite Hbl, pruned_mask_byte. fold mu. cbv zeta. destruct (Nat.le_gt_cases new 8) as [H8|H8].
  - assert (8 <= Z.lor mu (one_level new) mod 256) as Hge.
    { clear -Hmu H8 Hn. assert (new ∈ [4;5;6;7;8]%nat) as Hc by (rewrite !elem_of_cons; lia).
      rewrite !elem_of_cons, elem_of_nil in Hc. destruct Hc as [->|[->|[->|[->|[->|[]]]]]]; mask_case Hmu; vm_compute; discriminate. }
    replace (max_level <? get_level _)%nat with true; [by rewrite orb_true_r|]. symmetry. apply Nat.ltb_lt.
    destruct (Nat.lt_ge_cases max_level (get_level (Z.lor mu (one_level new) mod 256))) as [|Hle]; [done|].
    apply get_level_3 in Hle; [unfold mask_ok in Hle; lia|lia].
  - assert (Z.lor mu (one_level new) mod 256 = mu) as ->.
    { unfold one_level. rewrite (proj2 (Nat.eqb_neq new 0)) by lia. change 256 with (2 ^ 8). rewrite <- Z.land_ones, Z.land_lor_distr_l by lia.
      rewrite !Z.land_ones, Z.shiftl_mul_pow2, Z.mul_1_l by lia. rewrite Z.mod_small by (unfold mask_ok in Hmu; lia).
      replace (Z.of_nat new - 1) with (8 + (Z.of_nat new - 9)) by lia. rewrite Z.pow_add_r, Z.mul_comm, Z.mod_mul by lia. by rewrite Z.lor_0_r. }
    destruct (_ || _); [done|]. rewrite (proj2 (Nat.eqb_neq _ _)); [done|]. unfold hash_bits, depth_bits. lia.
Qed.

Lemma do_create_spec {T} c i virt new (s : T) : cell_info c = Some i ->
  do_create_pruned_branch c new virt s =
  if (get_level (apply_level virt (ci_mask i)) <? new)%nat && (new <=? 3)%nat then Ret (DataCell true (pruned_bits i virt new) []) s
  else Exn CellWriteError s.
Proof using sha_len.
  intros Hi. unfold do_create_pruned_branch, get_level_mask, get_hash_at, get_depth_at. rewrite Hi. set (mu := apply_level virt (ci_mask i)).
  destruct (Nat.ltb_spec new (get_level mu + 1)) as [Hl|Hl].
  { by rewrite (proj2 (Nat.ltb_ge _ new)) by lia. }
  rewrite (proj2 (Nat.ltb_lt _ new)) by lia. unfold create_cell, create. cbn [andb].
  change (Z_to_bits 8 1 ++ _) with (pruned_bits i virt new). destruct (Nat.leb_spec new 3) as [H3|H3].
  - destruct (pruned_branch_info c i virt new Hi ltac:(fold mu; lia) H3) as (i' & -> & _). done.
  - by rewrite (pruned_too_high c i virt new Hi) by (fold mu; lia).
Qed.

(** Pruning of a cell of level at most [d] in a proof at Merkle depth [d] *)
Lemma below_depth_refl i d : canon i -> apply_level d (ci_mask i) = ci_mask i -> below_depth d i i.
Proof.
  intros Hc Hd l. apply Z.eq_le_incl, (cn_depth _ Hc). rewrite <- apply_level_twice by apply Hc. by rewrite Hd.
Qed.
Lemma create_pruned_spec {T} c i d (s : T) : cell_info c = Some i -> apply_level d (ci_mask i) = ci_mask i ->
  match create_pruned_branch c (d + 1) max_level s with
  | Ret r s' => s' = s /\ exists i', cell_info r = Some i' /\ same_at d i d i' /\ below_depth d i i' /\ apply_level (S d) (ci_mask i') = ci_mask i' /\
      ((3 <=? d)%nat && negb (length (cell_refs c) =? 0)%nat) = false
  | Exn e s' => s' = s /\ e = CellWriteError /\ ((3 <=? d)%nat && negb (length (cell_refs c) =? 0)%nat) = true
  | Undef => False
  end.
Proof using sha_len.
  intros Hi Hd. pose proof (cell_info_canon _ _ Hi) as Hc. pose proof (cn_mask _ Hc) as Hm. unfold create_pruned_branch, max_level.
  destruct (_ && _) eqn:Eleaf.
  { unfold ret. split; [done|]. exists i. split_and!; [done|done|by apply below_depth_refl| |].
    - rewrite <- Hd, apply_level_twice by done. f_equal. lia.
    - apply andb_true_iff in Eleaf as [_ ->]. apply andb_false_r. }
  assert ((length (cell_refs c) =? 0)%nat = false) as Hrefs.
  { apply andb_false_iff in Eleaf as [E|E]; [|done]. apply Nat.leb_gt in E. pose proof (get_level_le _ Hm). unfold get_cell_level in E. rewrite Hi in E. lia. }
  rewrite Hrefs, andb_true_r.
  rewrite (do_create_spec _ i) by done. rewrite apply_level_3 by done.
  assert (get_level (ci_mask i) <= d)%nat as Hlv. { pose proof (top_le d _ Hm) as Ht. unfold top in Ht. by rewrite Hd in Ht. }
  rewrite (proj2 (Nat.ltb_lt _ (d + 1))) by lia. cbn [andb]. destruct (Nat.leb_spec (d + 1) 3) as [H3|H3]; [|by rewrite (proj2 (Nat.leb_le 3 d)) by lia].
  split; [done|]. destruct (pruned_branch_info c i 3 (d + 1) Hi ltac:(rewrite apply_level_3 by done; lia) H3) as (i' & Hi' & Ht & Hmk & Hs & Hz).
  rewrite apply_level_3 in Hmk by done. replace (d + 1 - 1)%nat with d in Hs by lia. pose proof (cell_info_canon _ _ Hi') as Hc'.
  assert (same_at d i d i') as Hs'.
  { eapply same_at_trans; [done|exact Hc|done| |exact Hs]. apply same_at_above; [done|done|by apply apply_level_3]. }
  exists i'. split_and!; [done|done| | |apply Nat.leb_gt; lia].
  - intros l. destruct (Nat.le_gt_cases l d) as [L|L].
    + rewrite Nat.min_l by lia. rewrite (sa_depth _ _ _ _ Hs' l) by lia. done.
    + rewrite Hz by lia. apply Hc.
  - rewrite Hmk. destruct (new_mask (ci_mask i) (d + 1) Hm ltac:(lia) H3) as (Hm' & _ & Hg & _).
    replace (S d) with (get_level (Z.lor (ci_mask i) (one_level (d + 1)))) by lia. generalize dependent (Z.lor (ci_mask i) (one_level (d + 1))).
    intros m' _ Hm' _. mask_case Hm'; reflexivity.
Qed.
End pruned.

Section cells.
Context `{Sha256}.

(** ** Cells and their references *)

Lemma child_depth_type c i d : cell_info c = Some i -> child_merkle_depth c d = child_level (ci_type i) d.
Proof. intros Hi. unfold child_merkle_depth, special_type, child_level. rewrite Hi. by destruct (ci_type i). Qed.
Lemma cell_level_info c i : cell_info c = Some i -> get_cell_level c = get_level (ci_mask i).
Proof. intros Hi. unfold get_cell_level. by rewrite Hi. Qed.
Lemma level_le_apply i d : mask_ok (ci_mask i) -> (get_level (ci_mask i) <= d)%nat <-> apply_level d (ci_mask i) = ci_mask i.
Proof.
  intros Hm. split; intros Hd.
  - rewrite apply_level_cap by done. assert (get_level (ci_mask i) <= Nat.min d 3)%nat as Hd' by (pose proof (get_level_le _ Hm); lia).
    pose proof (Nat.le_min_r d 3) as H3. clear Hd. level_case H3; mask_case Hm; first [reflexivity|exfalso; vm_compute in Hd'; lia].
  - pose proof (top_le d _ Hm) as Ht. unfold top in Ht. by rewrite Hd in Ht.
Qed.

(** Parts of a valid cell *)
Record parts (c : Cell) (i : CellInfo) (infos : list CellInfo) : Prop := mkParts {
  pt_info : cell_info c = Some i;
  pt_refs : Forall2 (fun r x => cell_info r = Some x) (cell_refs c) infos;
  pt_check : check_and_compute (cell_special c) (cell_bits c) infos = Some i;
  pt_nrefs : (length infos <= max_refs)%nat;
  pt_nbits : (length (cell_bits c) <= max_bits)%nat
}.
Lemma cell_parts c i : cell_info c = Some i -> exists infos, parts c i infos.
Proof.
  intros Hi. destruct c as [sp bits refs]. pose proof Hi as (infos & Hr & Hn & Hb & Hc)%cell_info_inv.
  exists infos. split; try done. by rewrite <- (list.Forall2_length _ _ _ Hr).
Qed.
Section parts.
Context (c : Cell) (i : CellInfo) (infos : list CellInfo).
Hypothesis P : parts c i infos.
Lemma pt_canon : canon i.
Proof using P. by eapply cell_info_canon, P. Qed.
Lemma pt_valid : Forall valid_info infos.
Proof using P. destruct P as [_ Hr _ _ _]. clear -Hr. induction Hr as [|r x refs infos Hx Hr IH]; constructor; [by exists r|done]. Qed.
Lemma pt_canons : Forall canon infos.
Proof using P. eapply list.Forall_impl; [apply pt_valid|]. apply valid_canon. Qed.
Lemma pt_type : exists ds, cell_type (cell_special c) (cell_bits c) = Some (ci_type i) /\ check_by_type (ci_type i) (cell_bits c) infos = Some (ci_mask i, ds).
Proof using P. destruct P as [_ _ Hc _ _]. apply check_and_compute_inv in Hc as (ds & ? & ? & _). eauto. Qed.
(** The references of a cell of level at most [d] have a level at most that of the next Merkle depth. *)
Lemma pt_ref_level d : apply_level d (ci_mask i) = ci_mask i ->
  Forall (fun x => apply_level (child_level (ci_type i) d) (ci_mask x) = ci_mask x) infos.
Proof using P.
  intros Hd. destruct pt_type as (ds & _ & Hc). pose proof pt_canons as Hcn. apply list.Forall_forall. intros x Hx.
  assert (canon x) as Cx by (by eapply list.Forall_forall in Hcn). pose proof (cn_mask _ Cx) as Mx.
  transitivity (apply_level (child_level (ci_type i) 3) (ci_mask x)).
  - apply child_apply; [done|]. eapply sub_apply; [by eapply check_sub_mask|]. by rewrite Hd, apply_level_3 by apply pt_canon.
  - apply apply_level_high; [done|]. unfold child_level. destruct (merkle_type (ci_type i)); lia.
Qed.
(** A pruned branch has no references. *)
Lemma pt_pruned : ci_type i = PrunnedBranch -> infos = [] /\ cell_refs c = [] /\ ci_mask i <> 0.
Proof using P.
  intros Ht. destruct pt_type as (ds & _ & Hc). rewrite Ht in Hc. apply check_pruned_ok in Hc as (_ & ? & E & _).
  destruct P as [_ Hr _ _ _]. rewrite E in Hr. inversion Hr. done.
Qed.
End parts.
End cells.

(** ** Generation *)

Section generation.
Context `{Sha256}.
Hypothesis sha_len : forall x, length (sha256 x) = hash_bits.
Context (is_prunned : Cell -> bool).

(** The search without its map of results *)
Fixpoint prune (c : Cell) (d : nat) : option Cell :=
  let 'DataCell sp bits refs := c in
  if is_prunned c then match create_pruned_branch c (d + 1) max_level tt with Ret r _ => Some r | _ => None end
  else
    let cd := child_merkle_depth c d in
    match mapM id (map (fun r => prune r cd) refs) with
    | Some refs' => create bits refs' sp
    | None => None
    end.

(** A cell with references is pruned below three Merkle cells. *)
Fixpoint pruned_too_deep (c : Cell) (d : nat) : bool :=
  let 'DataCell sp bits refs := c in
  if is_prunned c then (3 <=? d)%nat && negb (length refs =? 0)%nat
  else existsb (fun r => pruned_too_deep r (child_merkle_depth c d)) refs.

(** How many Merkle cells lie on a path *)
Fixpoint merkle_height (c : Cell) : nat :=
  let 'DataCell sp bits refs := c in
  child_merkle_depth c (foldr Nat.max 0%nat (map merkle_height refs)).

Record agrees (d : nat) (i i' : CellInfo) : Prop := mkAgrees {
  ag_same : same_at d i d i';
  ag_depth : below_depth d i i';
  ag_level : apply_level (S d) (ci_mask i') = ci_mask i'
}.
Lemma agrees_refl d i : canon i -> apply_level d (ci_mask i) = ci_mask i -> agrees d i i.
Proof.
  intros Hc Hd. split; [done|by apply below_depth_refl|]. rewrite <- Hd, apply_level_twice by apply Hc. f_equal. lia.
Qed.

Lemma agrees_parent sp bits refs refs' i infos infos' d :
  cell_info (DataCell sp bits refs) = Some i -> ci_type i <> PrunnedBranch ->
  Forall2 (fun r x => cell_info r = Some x) refs infos -> Forall2 (fun r x => cell_info r = Some x) refs' infos' ->
  Forall2 (agrees (child_level (ci_type i) d)) infos infos' ->
  exists i', cell_info (DataCell sp bits refs') = Some i' /\ agrees d i i'.
Proof.
  intros Hi Ht Hr Hr' Ha. destruct (replace_refs sp bits refs refs' i infos infos' d d Hi Ht Hr Hr') as (i' & Hi' & Hs & Hb).
  { eapply list.Forall2_impl; [exact Ha|]. by intros x y [? ? _]. }
  exists i'. split; [done|]. split; [done|done|]. destruct (cell_parts _ _ Hi') as [infos0 P'].
  assert (infos0 = infos') as -> by (eapply Forall2_unique; [apply P'|exact Hr'|]; intros; congruence).
  destruct (cell_parts _ _ Hi) as [infos1 P]. destruct (pt_type _ _ _ P) as (ds & T & _). destruct (pt_type _ _ _ P') as (ds' & T' & Hc).
  cbn in T, T'. assert (ci_type i' = ci_type i) as Et by congruence. rewrite Et in Hc.
  rewrite (check_mask_union _ _ _ _ _ Ht Hc). pose proof (pt_canons _ _ _ P') as Hcn. clear -Ha Hcn.
  induction Ha as [|x y infos infos' Hxy Ha IH]; cbn; [apply apply_zero|]. inversion Hcn as [|?? Hy]; subst.
  rewrite apply_level_lor, IH by done. f_equal. rewrite child_apply_mask by apply Hy. pose proof (ag_level _ _ _ Hxy) as E.
  unfold child_mask, child_level in *. destruct (merkle_type (ci_type i)); by rewrite E.
Qed.

Definition prune_result (d : nat) (c : Cell) : Prop := forall i, cell_info c = Some i -> apply_level d (ci_mask i) = ci_mask i ->
  match prune c d with
  | Some r => (exists i', cell_info r = Some i' /\ agrees d i i') /\ pruned_too_deep c d = false
  | None => pruned_too_deep c d = true
  end.
Lemma prune_refs cd refs infos : Forall (prune_result cd) refs -> Forall2 (fun r x => cell_info r = Some x) refs infos ->
  Forall (fun x => apply_level cd (ci_mask x) = ci_mask x) infos ->
  match mapM id (map (fun r => prune r cd) refs) with
  | Some refs' => (exists infos', Forall2 (fun r x => cell_info r = Some x) refs' infos' /\ Forall2 (agrees cd) infos infos') /\
      existsb (fun r => pruned_too_deep r cd) refs = false
  | None => existsb (fun r => pruned_too_deep r cd) refs = true
  end.
Proof.
  intros Hp Hr Hl. induction Hr as [|r x refs infos Hx Hr IH]; [by split; [exists []|]|]. apply Forall_cons_1 in Hp as [Hp1 Hp2]. apply Forall_cons_1 in Hl as [Hl1 Hl2].
  specialize (IH Hp2 Hl2). specialize (Hp1 _ Hx Hl1). cbn [map mapM id mbind option_bind existsb].
  destruct (prune r cd) as [r'|]; cbn [mbind option_bind]; [|by rewrite Hp1]. destruct Hp1 as [(i' & ? & ?) ->].
  destruct (mapM id _) as [refs'|]; cbn [mbind option_bind mret option_ret orb]; [|done].
  destruct IH as [(infos' & ? & ?) ->]. split; [|done]. exists (i' :: infos'). by split; constructor.
Qed.
Lemma prune_ok c : forall d, prune_result d c.
Proof using sha_len.
  induction c as [sp bits refs IH] using Cell_ind'. intros d i Hi Hd. cbn [prune pruned_too_deep]. set (c := DataCell sp bits refs) in *.
  pose proof (cell_info_canon _ _ Hi) as Hcn. destruct (is_prunned c).
  { pose proof (create_pruned_spec sha_len c i d tt Hi Hd) as Hp. destruct (create_pruned_branch _ _ _ tt) as [r s'|e s'|]; [|by destruct Hp as (_ & _ & ?)|done].
    destruct Hp as (_ & i' & ? & ? & ? & ? & ?). split; [by exists i'|done]. }
  destruct (cell_parts _ _ Hi) as [infos P]. rewrite (child_depth_type _ _ _ Hi).
  pose proof (prune_refs (child_level (ci_type i) d) refs infos) as Hr.
  assert (Forall (prune_result (child_level (ci_type i) d)) refs) as Hf by (eapply list.Forall_impl; [exact IH|]; eauto).
  specialize (Hr Hf (pt_refs _ _ _ P) (pt_ref_level _ _ _ P _ Hd)). destruct (decide (ci_type i = PrunnedBranch)) as [Ep|Ep].
  - destruct (pt_pruned _ _ _ P Ep) as (_ & E & _). cbn in E. subst refs. cbn. unfold create. fold c. rewrite Hi. split; [|done]. exists i. split; [done|by apply agrees_refl].
  - destruct (mapM id _) as [refs'|].
    + destruct Hr as [(infos' & Hr' & Ha) ->]. destruct (agrees_parent sp bits refs refs' i infos infos' d Hi Ep (pt_refs _ _ _ P) Hr' Ha) as (i' & Hi' & Ha').
      unfold create. rewrite Hi'. split; [by exists i'|done].
    + done.
Qed.

(** The hash that the search gives to [DataCell::create] is the one that would be computed. *)
Lemma hash_levels_le m l : mask_ok m -> l ∈ hash_levels m ++ [max_level] -> (l <= get_level m \/ l = 3)%nat /\ (l <= 3)%nat.
Proof.
  intros Hm Hl. assert (forallb (fun l => ((l <=? get_level m)%nat || (l =? 3)%nat) && (l <=? 3)%nat) (hash_levels m ++ [max_level]) = true) as Hf
    by (clear Hl; mask_case Hm; reflexivity).
  rewrite forallb_forall in Hf. apply list_elem_of_In, Hf in Hl. rewrite andb_true_iff, orb_true_iff, !Nat.leb_le, Nat.eqb_eq in Hl. lia.
Qed.
Definition hash_fill (f : nat -> option (list bool) -> list bool) (m : Z) (acc : list (list bool)) (i : nat) : list (list bool) :=
  if negb (is_significant (S i) m) && negb (i =? max_level)%nat then acc
  else let h := f i (list.last acc) in acc ++ replicate (i - length acc) h ++ [h].
Lemma stored_hash c i l : cell_info c = Some i -> l ∈ hash_levels (ci_mask i) ++ [max_level] -> ci_hashes i !!! l = info_hash l i.
Proof.
  intros Hi Hl. destruct (cell_parts _ _ Hi) as [infos P]. pose proof (pt_check _ _ _ P) as (ds & _ & _ & _ & _ & Hh)%check_and_compute_inv.
  pose proof (cn_mask _ (cell_info_canon _ _ Hi)) as Hm. unfold info_hash. rewrite Hh. unfold compute_hashes, hash_step. set (f := compute_hash _ _ _ _ _). clearbody f.
  clear Hh. apply list_elem_of_In in Hl. generalize dependent (ci_mask i). intros m Hl Hm.
  assert (Forall (fun l => foldl (hash_fill f m) [] (seq 0 4) !!! l = foldl (hash_fill f m) [] (seq 0 4) !!! Nat.min (get_level m) l)
    (hash_levels m ++ [max_level])) as Hf by (clear Hl; mask_case Hm; repeat constructor).
  rewrite list.Forall_forall in Hf. by apply Hf, list_elem_of_In.
Qed.
Lemma hint_ok d c i r i' : cell_info c = Some i -> cell_info r = Some i' -> same_at d i d i' ->
  hint_correct (fun level => if (level <=? d)%nat then Some (get_hash_at level c) else None) r = true.
Proof.
  intros Hi Hi' Hs. unfold hint_correct. rewrite Hi'. apply forallb_forall. intros l Hl%list_elem_of_In.
  destruct (Nat.leb_spec l d); [|done]. apply bool_decide_eq_true_2. rewrite (stored_hash _ _ _ Hi' Hl). unfold get_hash_at. rewrite Hi.
  symmetry. by apply (sa_hash _ _ _ _ Hs).
Qed.

(** Strings in [U] have no collisions; cells of which all hashed strings are in [U] are determined by
    their hash. *)
Context (U : list bool -> Prop).
Hypothesis no_collision : forall x y, U x -> U y -> sha256 x = sha256 y -> x = y.
Definition in_U (c : Cell) : Prop := forall x, hashed c x -> U x.
Lemma in_U_ref sp bits refs r : in_U (DataCell sp bits refs) -> r ∈ refs -> in_U r.
Proof. intros Hu Hr x Hx. apply Hu. by eapply hashed_ref. Qed.
Lemma hash_eq c c' : cell_info c <> None -> cell_info c' <> None -> in_U c -> in_U c' -> get_hash c = get_hash c' -> c = c'.
Proof using sha_len no_collision.
  intros V V' Hu Hu' E. destruct (hash_binding_aux sha_len c c' V V' E) as [|(x & y & Hx & Hy & Hne & Es)]; [done|].
  destruct Hne. apply no_collision; [by apply Hu|by apply Hu'|done].
Qed.

Definition memo_ok (m : gmap Key Cell) : Prop := forall h d r c,
  m !! (h, d) = Some r -> cell_info c <> None -> in_U c -> get_hash c = h -> prune c d = Some r.
Lemma memo_emplace m c d r : memo_ok m -> cell_info c <> None -> in_U c -> prune c d = Some r -> memo_ok (emplace (get_hash c, d) r m).
Proof using sha_len no_collision.
  intros Hm V Hu Hr. unfold emplace. case_match; [done|]. intros h d' r' c' Hl V' Hu' Eh.
  apply lookup_insert_Some in Hl as [[[= <- <-] <-]|[_ Hl]]; [|by eapply Hm]. by rewrite (hash_eq c' c).
Qed.

Lemma create_pruned_any {T} c n v (s : T) : create_pruned_branch c n v s =
  match create_pruned_branch c n v tt with Ret r _ => Ret r s | Exn e _ => Exn e s | Undef => Undef end.
Proof.
  unfold create_pruned_branch. destruct (_ && _); [done|]. unfold do_create_pruned_branch. destruct (_ <? _)%nat; [done|]. unfold create_cell. by case_match.
Qed.

Definition dfs_result (d : nat) (c : Cell) : Prop := forall m i, cell_info c = Some i -> apply_level d (ci_mask i) = ci_mask i -> in_U c -> memo_ok m ->
  match proof_dfs is_prunned c d m with
  | Ret r m' => prune c d = Some r /\ memo_ok m'
  | Exn e _ => e = CellWriteError /\ prune c d = None
  | Undef => False
  end.
Lemma dfs_refs k cd refs infos m : Forall (dfs_result cd) refs -> Forall2 (fun r x => cell_info r = Some x) refs infos ->
  Forall (fun x => apply_level cd (ci_mask x) = ci_mask x) infos -> Forall in_U refs -> memo_ok m ->
  match for_refs (fun _ r => proof_dfs is_prunned r cd) k refs m with
  | Ret refs' m' => mapM id (map (fun r => prune r cd) refs) = Some refs' /\ memo_ok m'
  | Exn e _ => e = CellWriteError /\ mapM id (map (fun r => prune r cd) refs) = None
  | Undef => False
  end.
Proof.
  intros Hd Hr Hl Hu. revert k m. induction Hr as [|r x refs infos Hx Hr IH]; intros k m Hm; [done|].
  apply Forall_cons_1 in Hd as [Hd1 Hd2]. apply Forall_cons_1 in Hl as [Hl1 Hl2]. apply Forall_cons_1 in Hu as [Hu1 Hu2].
  specialize (Hd1 m x Hx Hl1 Hu1 Hm). cbn [for_refs map mapM id mbind option_bind]. unfold bind.
  destruct (proof_dfs is_prunned r cd m) as [r' m1|e m1|]; [|by destruct Hd1 as [-> ->]|done]. destruct Hd1 as [-> Hm1].
  cbn [mbind option_bind]. specialize (IH Hd2 Hl2 Hu2 (S k) m1 Hm1).
  destruct (for_refs _ (S k) refs m1) as [refs' m2|e m2|]; [|by destruct IH as [-> ->]|done]. by destruct IH as [-> ?].
Qed.
Lemma proof_dfs_ok c : forall d, dfs_result d c.
Proof using sha_len no_collision.
  induction c as [sp bits refs IH] using Cell_ind'. intros d m i Hi Hd Hu Hm. set (c := DataCell sp bits refs) in *.
  pose proof (prune_ok c d i Hi Hd) as Hp. assert (cell_info c <> None) as V by congruence.
  destruct (cell_parts _ _ Hi) as [infos P]. pose proof (child_depth_type c i d Hi) as Ecd.
  pose proof (dfs_refs 0 (child_level (ci_type i) d) refs infos m) as Hr.
  assert (Forall (dfs_result (child_level (ci_type i) d)) refs) as Hf by (eapply list.Forall_impl; [exact IH|]; eauto).
  specialize (Hr Hf (pt_refs _ _ _ P) (pt_ref_level _ _ _ P _ Hd)). clear Hf.
  assert (Forall in_U refs) as Hus by (apply list.Forall_forall; intros r Hr'; by eapply in_U_ref). specialize (Hr Hus Hm).
  unfold c at 1. cbn [proof_dfs]. fold c. unfold bind at 1, gets. cbv beta iota. destruct (m !! (get_hash c, d)) as [r|] eqn:El.
  { unfold ret. split; [by eapply Hm|done]. }
  assert (prune c d = if is_prunned c then match create_pruned_branch c (d + 1) max_level tt with Ret r _ => Some r | _ => None end
    else match mapM id (map (fun r => prune r (child_merkle_depth c d)) refs) with Some refs' => create bits refs' sp | None => None end) as Ep by done.
  destruct (is_prunned c).
  - unfold bind at 1. rewrite create_pruned_any. pose proof (create_pruned_spec sha_len c i d tt Hi Hd) as Hs.
    destruct (create_pruned_branch c (d + 1) max_level tt) as [r s'|e s'|]; [|by destruct Hs as (_ & -> & _)|done].
    unfold bind, modify, ret. split; [done|]. by apply memo_emplace.
  - rewrite Ecd in *. unfold bind at 1. destruct (for_refs _ _ refs m) as [refs' m1|e m1|]; [|by destruct Hr as [-> Er]; rewrite Er in Ep|done].
    destruct Hr as [Er Hm1]. rewrite Er in Ep. unfold finalize_hinted, create_cell, bind at 1 2. rewrite <- Ep in *.
    destruct (prune c d) as [r|] eqn:Epr; [|done]. destruct Hp as [(i' & Hi' & Ha) _]. unfold ret at 1. unfold bind at 1, assert_ub.
    rewrite (hint_ok d c i r i' Hi Hi' (ag_same _ _ _ Ha)). unfold ret, bind, modify. split; [done|]. by apply memo_emplace.
Qed.
End generation.

(** ** Reading *)

Section reading.
Context `{Sha256}.

(** The cell at the end of a path of references: its flag and its data *)
Fixpoint read_path (v : VirtualCell) (path : list nat) : option (bool * list bool) :=
  match load_virtual v tt with
  | Ret (sp, bits, refs) _ =>
      match path with
      | [] => Some (sp, bits)
      | k :: path' => match refs !! k with Some r => read_path r path' | None => None end
      end
  | _ => None
  end.

(** A virtual cell: its effective level is that of the cell, or less. *)
Definition virtual_at (d : nat) (c : Cell) (v : VirtualCell) : Prop := v = virtualize d (plain c).
Lemma virtualize_cell d c : vc_cell (virtualize d (plain c)) = c.
Proof. unfold virtualize, create_virtual. cbn. by destruct (_ <=? _)%nat. Qed.
Lemma virtualize_level d c : effective_level (virtualize d (plain c)) = Nat.min (get_cell_level c) d.
Proof. unfold virtualize, create_virtual, effective_level. cbn. destruct (Nat.leb_spec (get_cell_level c) d); cbn; lia. Qed.
Lemma virtualize_high d c : (get_cell_level c <= d)%nat -> virtualize d (plain c) = plain c.
Proof. intros Hd. unfold virtualize, create_virtual. cbn. by rewrite (proj2 (Nat.leb_le _ _) Hd). Qed.
Lemma virtualize_plain c : plain c = virtualize (get_cell_level c) (plain c).
Proof. by rewrite virtualize_high. Qed.

Lemma ref_level_le c i l r : cell_info c = Some i -> (get_cell_level c <= l)%nat -> r ∈ cell_refs c -> (get_cell_level r <= child_level (ci_type i) l)%nat.
Proof.
  intros Hi Hl Hr. destruct (cell_parts _ _ Hi) as [infos P]. rewrite (cell_level_info _ _ Hi) in Hl.
  apply level_le_apply in Hl; [|apply (pt_canon _ _ _ P)]. pose proof (pt_ref_level _ _ _ P _ Hl) as Hrl.
  apply list_elem_of_lookup in Hr as [k Hk]. destruct (Forall2_lookup_l _ _ _ _ _ (pt_refs _ _ _ P) Hk) as (x & Hx & Hrx).
  rewrite (cell_level_info _ _ Hrx). apply level_le_apply; [by eapply cell_info_canon|]. by eapply Forall_lookup_1 in Hrl.
Qed.

Definition loadable (d : nat) (c : Cell) : bool := negb (is_pruned_branch c) || (get_cell_level c <=? d)%nat.
Lemma load_spec d c i : cell_info c = Some i ->
  load_virtual (virtualize d (plain c)) tt =
  if loadable d c then Ret (cell_special c, cell_bits c, map (fun r => virtualize (child_level (ci_type i) d) (plain r)) (cell_refs c)) tt
  else Exn (VmError Exc_virt_err) tt.
Proof.
  intros Hi. unfold load_virtual, loadable, is_pruned_branch. rewrite virtualize_cell, virtualize_level, (child_depth_type _ _ _ Hi).
  set (l := get_cell_level c). assert (map (fun r => virtualize (child_level (ci_type i) (Nat.min l d)) (plain r)) (cell_refs c) =
    map (fun r => virtualize (child_level (ci_type i) d) (plain r)) (cell_refs c)) as ->.
  { destruct (Nat.le_gt_cases d l); [by rewrite Nat.min_r by lia|]. rewrite Nat.min_l by lia. apply map_ext_in. intros r Hr%list_elem_of_In.
    assert (get_cell_level r <= child_level (ci_type i) l)%nat by (by apply (ref_level_le c)).
    pose proof (child_level_le (ci_type i) l d ltac:(lia)). by rewrite !virtualize_high by lia. }
  destruct (bool_decide _); [|done]. cbn [negb orb andb]. destruct (Nat.leb_spec l d).
  - by rewrite (proj2 (Nat.ltb_ge _ _)) by lia.
  - by rewrite (proj2 (Nat.ltb_lt _ _)) by lia.
Qed.

(** *** What a generated proof shows *)

Section shown.
Context (is_prunned : Cell -> bool).
Fixpoint shown (c : Cell) (path : list nat) : bool :=
  negb (is_prunned c) &&
  match path with
  | [] => true
  | k :: path' => match cell_refs c !! k with Some r => shown r path' | None => false end
  end.

Lemma create_some bits refs sp r : create bits refs sp = Some r -> r = DataCell sp bits refs /\ exists i, cell_info r = Some i.
Proof. unfold create. destruct (cell_info _) as [i|] eqn:E; [|done]. intros [= <-]. eauto. Qed.
Lemma type_eq c c' i i' : cell_info c = Some i -> cell_info c' = Some i' -> cell_special c = cell_special c' -> cell_bits c = cell_bits c' -> ci_type i = ci_type i'.
Proof.
  intros Hi Hi' Es Eb. destruct (cell_parts _ _ Hi) as [? P], (cell_parts _ _ Hi') as [? P'].
  destruct (pt_type _ _ _ P) as (? & T & _), (pt_type _ _ _ P') as (? & T' & _). congruence.
Qed.
Lemma pruned_branch_type c i : cell_info c = Some i -> is_pruned_branch c = bool_decide (ci_type i = PrunnedBranch).
Proof. intros Hi. unfold is_pruned_branch, special_type. by rewrite Hi. Qed.

Lemma prune_node c d r i : cell_info c = Some i -> is_prunned c = false -> prune is_prunned c d = Some r -> exists refs' i',
  r = DataCell (cell_special c) (cell_bits c) refs' /\ cell_info r = Some i' /\ ci_type i' = ci_type i /\ loadable d r = loadable d c /\
  Forall2 (fun x y => prune is_prunned x (child_level (ci_type i) d) = Some y) (cell_refs c) refs'.
Proof.
  intros Hi Hn Hp. assert (exists refs', mapM id (map (fun x => prune is_prunned x (child_level (ci_type i) d)) (cell_refs c)) = Some refs' /\
    create (cell_bits c) refs' (cell_special c) = Some r) as (refs' & Hm & Hcr).
  { destruct c as [sp bits refs]. cbn [prune] in Hp. rewrite Hn, (child_depth_type _ _ _ Hi) in Hp. destruct (mapM id _) as [refs'|] eqn:Em; [|done]. by exists refs'. }
  destruct (create_some _ _ _ _ Hcr) as (Er & i' & Hi'). apply mapM_Some in Hm. rewrite Forall2_fmap_l in Hm.
  assert (ci_type i' = ci_type i) as Et by (eapply type_eq; [done|done|by rewrite Er..]).
  exists refs', i'. split_and!; try done. unfold loadable. rewrite (pruned_branch_type _ _ Hi), (pruned_branch_type _ _ Hi'), Et.
  destruct (bool_decide_reflect (ci_type i = PrunnedBranch)) as [Ep|]; [|done]. destruct (cell_parts _ _ Hi) as [infos P].
  destruct (pt_pruned _ _ _ P Ep) as (_ & Erf & _). rewrite Erf in Hm. inversion Hm. subst refs'. rewrite Er. destruct c. cbn in Erf |- *. by subst.
Qed.
Lemma read_pruned path : forall c d r i, cell_info c = Some i -> apply_level d (ci_mask i) = ci_mask i -> prune is_prunned c d = Some r ->
  shown c path = true -> read_path (virtualize d (plain r)) path = read_path (virtualize d (plain c)) path.
Proof.
  induction path as [|k path IH]; intros c d r i Hi Hd Hp Hs; cbn [shown] in Hs.
  - assert (is_prunned c = false) as Hn. { destruct c. cbn in Hs. rewrite andb_true_r in Hs. by apply negb_true_iff. }
    destruct (prune_node c d r i Hi Hn Hp) as (refs' & i' & Er & Hi' & Et & El & Hr). cbn [read_path].
    rewrite (load_spec _ _ _ Hi), (load_spec _ _ _ Hi'), El. destruct (loadable d c); [|done]. by rewrite Er.
  - assert (is_prunned c = false /\ match cell_refs c !! k with Some x => shown x path | None => false end = true) as [Hn Hk].
    { destruct c. cbn in Hs. apply andb_true_iff in Hs as [?%negb_true_iff ?]. done. }
    destruct (prune_node c d r i Hi Hn Hp) as (refs' & i' & Er & Hi' & Et & El & Hr). cbn [read_path].
    rewrite (load_spec _ _ _ Hi), (load_spec _ _ _ Hi'), El, Et. destruct (loadable d c); [|done]. rewrite !list_lookup_fmap.
    destruct (cell_refs c !! k) as [x|] eqn:Ex; [|done]. rewrite Er. cbn [cell_refs]. destruct (Forall2_lookup_l _ _ _ _ _ Hr Ex) as (r' & -> & Hr').
    cbn [fmap option_fmap option_map]. destruct (cell_parts _ _ Hi) as [infos P]. destruct (Forall2_lookup_l _ _ _ _ _ (pt_refs _ _ _ P) Ex) as (y & Hy & Hxy).
    eapply IH; [exact Hxy| |exact Hr'|done]. pose proof (pt_ref_level _ _ _ P _ Hd) as Hl. by eapply Forall_lookup_1 in Hl.
Qed.
End shown.
End reading.

(** ** Soundness *)

Section soundness.
Context `{Sha256}.
Hypothesis sha_len : forall x, length (sha256 x) = hash_bits.
Context (U : list bool -> Prop).
Hypothesis no_collision : forall x y, U x -> U y -> sha256 x = sha256 y -> x = y.

Lemma loadable_readable c i d : cell_info c = Some i -> loadable d c = true -> readable (ci_type i) (ci_mask i) d.
Proof.
  intros Hi Hl. unfold loadable in Hl. rewrite (pruned_branch_type _ _ Hi), (cell_level_info _ _ Hi) in Hl. unfold readable.
  destruct (bool_decide_reflect (ci_type i = PrunnedBranch)); [|by left]. right. apply level_le_apply; [by eapply cell_info_canon|]. by apply Nat.leb_le.
Qed.
Lemma parts_side c i infos d : parts c i infos -> side (ci_type i) (cell_special c) (cell_bits c) infos (apply_level d (ci_mask i)).
Proof.
  intros P. destruct (pt_type _ _ _ P) as (ds & T & Hc). pose proof (cn_mask _ (pt_canon _ _ _ P)) as Hm.
  split; [done|by apply apply_level_ok|apply P|apply P|by eapply pt_valid|]. intros H0. split; [intros Ep; by apply (pt_pruned _ _ _ P)|].
  intros ->. destruct (decide (ci_type i = PrunnedBranch)) as [|Ep]; [done|]. rewrite (check_mask_union _ _ _ _ _ Ep Hc) in H0. cbn in H0. by rewrite apply_zero in H0.
Qed.
Lemma parts_sub c i infos : parts c i infos -> forall x, x ∈ infos -> sub_mask (child_mask (ci_type i) x) (ci_mask i).
Proof. intros P x. destruct (pt_type _ _ _ P) as (ds & _ & Hc). by apply check_sub_mask with (1 := Hc). Qed.
Lemma parts_hashed c i infos d : parts c i infos -> loadable d c = true -> in_U U c ->
  all_hashed U (ci_type i) (cell_special c) (cell_bits c) infos (apply_level d (ci_mask i)).
Proof.
  intros P Hl Hu l Hr. pose proof (cn_mask _ (pt_canon _ _ _ P)) as Hm. pose proof (loadable_readable _ _ _ (pt_info _ _ _ P) Hl) as Hd.
  rewrite apply_level_twice in * by done. apply Hu. destruct c as [sp bits refs]. eapply hashed_here; [apply P|apply P|].
  apply level_input_query; [by eapply pt_canons|done|by eapply parts_sub|]. destruct Hr as [?|E]; [by left|]. destruct Hd as [?|E']; [by left|]. right. by rewrite E.
Qed.
Lemma ref_at_top c i infos d x : parts c i infos -> x ∈ infos ->
  let g := child_level (ci_type i) (get_level (apply_level d (ci_mask i))) in
  info_hash g x = info_hash (child_level (ci_type i) d) x /\ info_depth g x = info_depth (child_level (ci_type i) d) x.
Proof.
  intros P Hx. pose proof (pt_canons _ _ _ P) as Hcn. assert (canon x) as Cx by (by eapply list.Forall_forall in Hcn). cbv zeta.
  assert (apply_level (child_level (ci_type i) (get_level (apply_level d (ci_mask i)))) (ci_mask x) = apply_level (child_level (ci_type i) d) (ci_mask x)) as E.
  { apply child_apply; [apply Cx|]. eapply sub_apply; [by eapply parts_sub|]. apply top_apply, (pt_canon _ _ _ P). }
  by split; [apply (cn_hash _ Cx)|apply (cn_depth _ Cx)].
Qed.

(** Two cells that can be loaded and have the same hash have the same data, and references with the same hashes. *)
Lemma load_inj c c' i i' infos infos' d d' : parts c i infos -> parts c' i' infos' -> loadable d c = true -> loadable d' c' = true ->
  in_U U c -> in_U U c' -> info_hash d i = info_hash d' i' ->
  cell_special c = cell_special c' /\ cell_bits c = cell_bits c' /\ ci_type i = ci_type i' /\
  Forall2 (fun x x' => info_hash (child_level (ci_type i) d) x = info_hash (child_level (ci_type i') d') x' /\
                       info_depth (child_level (ci_type i) d) x = info_depth (child_level (ci_type i') d') x') infos infos'.
Proof using sha_len no_collision.
  intros P P' L L' Hu Hu' E.
  rewrite (info_hash_level _ _ _ _ d (pt_check _ _ _ P)), (info_hash_level _ _ _ _ d' (pt_check _ _ _ P')) in E
    by first [apply (pt_canon _ _ _ P)|apply (pt_canon _ _ _ P')|by eapply pt_canons|by eapply loadable_readable; [apply P|]|by eapply loadable_readable; [apply P'|]].
  destruct (level_hash_inj sha_len U no_collision (get_level (apply_level d (ci_mask i))) _ _ _ _ _ _ _ _ _ _ (le_n _)
    (parts_side _ _ _ d P) (parts_side _ _ _ d' P') (parts_hashed _ _ _ _ P L Hu) (parts_hashed _ _ _ _ P' L' Hu') E) as (Es & Eb & Em & Hr).
  pose proof (type_eq _ _ _ _ (pt_info _ _ _ P) (pt_info _ _ _ P') Es Eb) as Et. split_and!; [done..|].
  apply Forall2_same_length_lookup. split; [by apply Forall2_length in Hr|]. intros k x x' Hx Hx'.
  destruct (Forall2_lookup_lr _ _ _ _ _ _ Hr Hx Hx') as [E1 E2].
  destruct (ref_at_top _ _ _ d x P ltac:(by eapply list_elem_of_lookup_2)) as [A1 A2].
  destruct (ref_at_top _ _ _ d' x' P' ltac:(by eapply list_elem_of_lookup_2)) as [B1 B2]. rewrite <- Em, <- Et in B1, B2. rewrite <- Et. split; congruence.
Qed.

Lemma loadable_level c d : (get_cell_level c <= d)%nat -> loadable d c = true.
Proof. intros Hl. unfold loadable. rewrite (proj2 (Nat.leb_le _ _) Hl). apply orb_true_r. Qed.
Lemma in_U_refs c r : in_U U c -> r ∈ cell_refs c -> in_U U r.
Proof. destruct c. apply in_U_ref. Qed.

Lemma read_sound path : forall c c' i i' d d' res, cell_info c = Some i -> cell_info c' = Some i' -> in_U U c -> in_U U c' ->
  (get_cell_level c' <= d')%nat -> info_hash d i = info_hash d' i' ->
  read_path (virtualize d (plain c)) path = Some res -> read_path (virtualize d' (plain c')) path = Some res.
Proof using sha_len no_collision.
  induction path as [|k path IH]; intros c c' i i' d d' res Hi Hi' Hu Hu' Hl E Hr; cbn [read_path] in *;
    rewrite (load_spec _ _ _ Hi) in Hr; rewrite (load_spec _ _ _ Hi'), (loadable_level _ _ Hl); destruct (loadable d c) eqn:Ld; try done;
    destruct (cell_parts _ _ Hi) as [infos P], (cell_parts _ _ Hi') as [infos' P'];
    destruct (load_inj _ _ _ _ _ _ d d' P P' Ld (loadable_level _ _ Hl) Hu Hu' E) as (Es & Eb & Et & Hx).
  - by rewrite <- Es, <- Eb.
  - rewrite list_lookup_fmap in Hr |- *. destruct (cell_refs c !! k) as [r|] eqn:Er; [|done]. cbn [fmap option_fmap option_map] in Hr.
    destruct (Forall2_lookup_l _ _ _ _ _ (pt_refs _ _ _ P) Er) as (x & Ex & Hrx). destruct (Forall2_lookup_l _ _ _ _ _ Hx Ex) as (x' & Ex' & Eh & _).
    destruct (Forall2_lookup_r _ _ _ _ _ (pt_refs _ _ _ P') Ex') as (r' & Er' & Hrx'). rewrite Er'. cbn [fmap option_fmap option_map].
    eapply IH; [exact Hrx|exact Hrx'|by apply (in_U_refs c); [|eapply list_elem_of_lookup_2]|by apply (in_U_refs c'); [|eapply list_elem_of_lookup_2]| |exact Eh|exact Hr].
    eapply ref_level_le; [done|done|by eapply list_elem_of_lookup_2].
Qed.
End soundness.

(** No two strings hashed for these cells collide. *)
Definition collision_free `{Sha256} (cs : list Cell) : Prop := forall c c' x y, c ∈ cs -> c' ∈ cs ->
  hashed c x -> hashed c' y -> sha256 x = sha256 y -> x = y.
Definition hashed_by `{Sha256} (cs : list Cell) (x : list bool) : Prop := exists c, c ∈ cs /\ hashed c x.
Lemma collision_free_U `{Sha256} cs : collision_free cs -> forall x y, hashed_by cs x -> hashed_by cs y -> sha256 x = sha256 y -> x = y.
Proof. intros Hc x y (c & Hx & ?) (c' & Hy & ?) E. by apply (Hc c c'). Qed.
Lemma in_hashed_by `{Sha256} cs c : c ∈ cs -> in_U (hashed_by cs) c.
Proof. intros Hc x Hx. by exists c. Qed.

Lemma virtual_hash_0 `{Sha256} r i : cell_info r = Some i -> virtual_hash (virtualize 0 (plain r)) = info_hash 0 i.
Proof.
  intros Hi. pose proof (cell_info_canon _ _ Hi) as Hc. unfold virtualize, create_virtual, virtual_hash. cbn [virt_level vc_cell plain].
  rewrite (cell_level_info _ _ Hi). destruct (Nat.leb_spec (get_level (ci_mask i)) 0) as [Hl|Hl]; cbn [virt_level vc_cell plain].
  - unfold get_hash. rewrite Hi. apply (cn_hash _ Hc). apply level_le_apply in Hl; [|apply Hc]. rewrite Hl. apply apply_level_3, Hc.
  - unfold get_hash_at. by rewrite Hi.
Qed.
Lemma virtualize_proof_inv `{Sha256} p v s : virtualize_proof p tt = Ret v s -> exists r, r ∈ cell_refs p /\ v = virtualize 0 (plain r).
Proof.
  unfold virtualize_proof, unpack_proof, bind, unless_throw. destruct (get_cell_level p =? 0)%nat; [|done]. cbn. destruct (bool_decide _); [|done]. cbn.
  destruct (cell_refs p !! 0%nat) as [r|] eqn:E; [|done]. cbn. intros [= <- _]. exists r. split; [by eapply list_elem_of_lookup_2|done].
Qed.
Lemma ref_valid `{Sha256} c r : cell_info c <> None -> r ∈ cell_refs c -> exists i, cell_info r = Some i.
Proof.
  destruct (cell_info c) as [i|] eqn:Hi; [intros _|done]. destruct (cell_parts _ _ Hi) as [infos P]. intros [k Hk]%list_elem_of_lookup.
  destruct (Forall2_lookup_l _ _ _ _ _ (pt_refs _ _ _ P) Hk) as (x & _ & ?). by exists x.
Qed.

(** C11: Merkle proofs are sound: whatever can be read along a path of references from a valid proof cell,
    however it was made, is what the tree with the hash of the proof has there, unless two strings hashed for the proof and
    the tree collide. *)
Theorem merkle_proof_sound `{Sha256} p c v path res : (forall x, length (sha256 x) = hash_bits) -> collision_free [p; c] ->
  cell_info p <> None -> cell_info c <> None -> virtualize_proof p tt = Ret v tt -> virtual_hash v = get_hash c ->
  read_path v path = Some res -> read_path (plain c) path = Some res.
Proof.
  intros Hlen Hcf Hp Hc Hv Eh Hr. destruct (virtualize_proof_inv _ _ _ Hv) as (r & Hin & ->). destruct (ref_valid _ _ Hp Hin) as [i Hi].
  destruct (cell_info c) as [i'|] eqn:Hi'; [|done]. rewrite (virtual_hash_0 _ _ Hi) in Eh. unfold get_hash in Eh. rewrite Hi' in Eh.
  assert (get_cell_level c <= max_level)%nat as Hl by (rewrite (cell_level_info _ _ Hi'); apply get_level_le, (cell_info_canon _ _ Hi')).
  rewrite <- (virtualize_high max_level c Hl). apply (read_sound Hlen (hashed_by [p; c]) (collision_free_U _ Hcf) path r c i i' 0 max_level); try done.
  - apply (in_U_refs _ p); [apply in_hashed_by; by left|done].
  - apply in_hashed_by. right. by left.
Qed.

(** ** Generated proofs *)

Section proof_cell.
Context `{Sha256}.
Hypothesis sha_len : forall x, length (sha256 x) = hash_bits.

Lemma merkle_field (a h rest : list bool) n k : length a = n -> length h = k -> take k (drop n (a ++ h ++ rest)) = h.
Proof. intros <- <-. by rewrite drop_app_length, take_app_length. Qed.
Lemma depth_field i d : valid_info i -> bits_to_Z (Z_to_bits depth_bits (info_depth d i)) = info_depth d i.
Proof. intros Hv. rewrite bits_to_Z_of_Z. apply Z.mod_small. pose proof (valid_depth i d Hv). unfold max_depth, depth_bits in *. lia. Qed.

Lemma merkle_proof_cell {T} raw i (s : T) : cell_info raw = Some i -> apply_level 1 (ci_mask i) = ci_mask i ->
  (forall l, info_depth (S l) i < Z.of_nat max_depth) ->
  exists p ip, create_merkle_proof raw s = Ret p s /\ cell_info p = Some ip /\ ci_type ip = MerkleProof /\ ci_mask ip = 0 /\ cell_refs p = [raw].
Proof using sha_len.
  intros Hi Hl Hd. set (B := Z_to_bits 8 3 ++ info_hash 0 i ++ Z_to_bits depth_bits (info_depth 0 i)).
  assert (length (info_hash 0 i) = hash_bits) as Hh by (apply valid_hash_length; [done|by exists raw]).
  assert (length B = 280%nat) as HB by (unfold B; rewrite !length_app, !Z_to_bits_length, Hh; reflexivity).
  set (ds := zip_with (fun d j => Z.max d (info_depth (S j) i + 1)) [0; 0; 0; 0] (seq 0 4)).
  assert (check_merkle_proof B [i] = Some (Z.shiftr (ci_mask i) 1, ds)) as Hc.
  { unfold check_merkle_proof. rewrite HB. change (negb (280 =? 8 + hash_bits + depth_bits)%nat) with false. cbv iota. unfold check_merkle_child.
    assert (take hash_bits (drop 8 B) = info_hash 0 i) as -> by (by apply merkle_field; [apply Z_to_bits_length|]).
    assert (take depth_bits (drop (8 + hash_bits) B) = Z_to_bits depth_bits (info_depth 0 i)) as ->.
    { pose proof (merkle_field (Z_to_bits 8 3 ++ info_hash 0 i) (Z_to_bits depth_bits (info_depth 0 i)) [] (8 + hash_bits) depth_bits) as E.
      rewrite app_nil_r, <- app_assoc in E. apply E; [by rewrite length_app, Z_to_bits_length, Hh|apply Z_to_bits_length]. }
    rewrite bool_decide_eq_true_2, depth_field, Z.eqb_refl by (done || by exists raw). done. }
  assert (Forall (fun d => d <= Z.of_nat max_depth) ds) as Hf.
  { unfold ds. cbn [zip_with seq]. pose proof (fun l => cn_nonneg _ (cell_info_canon _ _ Hi) l). repeat constructor;
      match goal with |- Z.max 0 (info_depth (S ?l) i + 1) <= _ => specialize (Hd l); lia end. }
  set (ip := mkInfo MerkleProof (Z.shiftr (ci_mask i) 1) ds (compute_hashes MerkleProof true (Z.shiftr (ci_mask i) 1) B [i])).
  assert (cell_info (DataCell true B [raw]) = Some ip) as Hp.
  { cbn [cell_info]. assert (mapM id (map cell_info [raw]) = Some [i]) as -> by (cbn; by rewrite Hi). cbn [length]. rewrite HB.
    change ((max_refs <? 1)%nat || (max_bits <? 280)%nat) with false. cbv iota. unfold check_and_compute, cell_type. rewrite HB.
    change (280 <? 8)%nat with false. cbv iota. change (read_byte 0 B) with 3. cbn [check_by_type]. rewrite Hc.
    rewrite (proj2 (forallb_forall _ ds)); [done|]. intros d Hx%list_elem_of_In. apply Z.leb_le. by eapply list.Forall_forall in Hf. }
  exists (DataCell true B [raw]), ip. split_and!; try done.
  - unfold create_merkle_proof, create_cell, create, get_hash_at, get_depth_at. rewrite Hi. fold B. by rewrite Hp.
  - cbn. rewrite <- Hl. pose proof (cn_mask _ (cell_info_canon _ _ Hi)) as Hm. clear -Hm. generalize dependent (ci_mask i). intros m Hm. mask_case Hm; reflexivity.
Qed.
End proof_cell.

(** C13: Generation of Merkle proofs: for every valid cell of level 0 with less than the largest depth, and any choice of
    the cells to prune, generation fails exactly when the choice prunes, below no other pruned cell, a cell with references that has three
    Merkle cells above it; otherwise the proof is a valid
    cell of level 0 that opens to the hash of the cell, and it shows every cell that the choice does not prune.  The hashes
    that the search passes on instead of computing them are right. *)
Theorem merkle_proof_generated `{Sha256} is_prunned c : (forall x, length (sha256 x) = hash_bits) -> collision_free [c] ->
  cell_info c <> None -> get_cell_level c = 0%nat -> get_depth c < Z.of_nat max_depth ->
  match generate is_prunned c tt with
  | Ret p _ => pruned_too_deep is_prunned c 0 = false /\ cell_info p <> None /\ exists v, virtualize_proof p tt = Ret v tt /\ virtual_hash v = get_hash c /\
      forall path, shown is_prunned c path = true -> read_path v path = read_path (plain c) path
  | Exn e _ => e = StatusError /\ pruned_too_deep is_prunned c 0 = true
  | Undef => False
  end.
Proof.
  intros Hlen Hcf Hc Hl Hdp. destruct (cell_info c) as [i|] eqn:Hi; [clear Hc|done]. pose proof (cell_info_canon _ _ Hi) as Hcn.
  assert (apply_level 0 (ci_mask i) = ci_mask i) as Hd. { apply level_le_apply; [apply Hcn|]. rewrite <- (cell_level_info _ _ Hi). lia. }
  assert (forall l, info_depth l i < Z.of_nat max_depth) as Hdl.
  { intros l. unfold get_depth in Hdp. rewrite Hi in Hdp. rewrite (cn_depth _ Hcn l max_level); [done|]. rewrite <- Hd at 1 2. by rewrite !apply_level_twice, !Nat.min_0_r by apply Hcn. }
  pose proof (proof_dfs_ok Hlen is_prunned (hashed_by [c]) (collision_free_U _ Hcf) c 0 ∅ i Hi Hd
    (in_hashed_by _ _ ltac:(by left)) ltac:(intros ? ? ? ? Hx; by rewrite lookup_empty in Hx)) as Hr.
  pose proof (prune_ok Hlen is_prunned c 0 i Hi Hd) as Hp. unfold generate, generate_raw, bind, unless_throw. rewrite Hl. cbn [Nat.eqb]. unfold ret at 1. cbv beta iota.
  destruct (proof_dfs is_prunned c 0 ∅) as [raw m|e m|]; [|by destruct Hr as [-> Hn]; rewrite Hn in Hp|done].
  destruct Hr as [Er _]. rewrite Er in Hp. destruct Hp as [(ir & Hir & [Hs Hb Hlv]) Hdeep].
  destruct (merkle_proof_cell Hlen raw ir tt Hir Hlv ltac:(intros l; eapply Z.le_lt_trans; [apply Hb|apply Hdl])) as (p & ip & -> & Hip & Ht & Hm & Hrf).
  split; [done|]. split; [congruence|]. exists (virtualize 0 (plain raw)). split_and!.
  - unfold virtualize_proof, unpack_proof, bind, unless_throw. rewrite (cell_level_info _ _ Hip), Hm. unfold special_type. rewrite Hip, Ht, Hrf. done.
  - rewrite (virtual_hash_0 _ _ Hir). unfold get_hash. rewrite Hi. rewrite <- (sa_hash _ _ _ _ Hs 0%nat) by lia.
    apply (cn_hash _ Hcn). rewrite Hd. symmetry. apply apply_level_3, Hcn.
  - intros path Hsh. rewrite (read_pruned is_prunned path c 0 raw i Hi Hd Er Hsh). by rewrite virtualize_high by lia.
Qed.
