(* ===== verification/MerkleUpdateSpec.v ===== *)
(** * Merkle updates

    An update that is applied gives a tree with the hash that it announces; an update that was
    validated can be applied to every tree with the old hash. *)
From stdpp Require Import gmap.
From S2P Require Import Prelude Int256 Cells DataCell CellLevels Merkle MerkleSpec.

Section compare.
Context `{Sha256}.

(** [compare_cells] compares all that is known of two cells up to their levels. *)
Lemma compare_spec a b ia ib da db : cell_info a = Some ia -> cell_info b = Some ib ->
  compare_cells a da b db = true <-> same_at da ia db ib.
Proof.
  intros Ha Hb. pose proof (cell_info_canon _ _ Ha) as Ca. pose proof (cell_info_canon _ _ Hb) as Cb.
  unfold compare_cells, get_level_mask, get_hash_at, get_depth_at. rewrite Ha, Hb, andb_true_iff, Z.eqb_eq, forallb_forall. split.
  - intros [Em Hf]. assert (forall l, (l <= da)%nat -> (l <= db)%nat -> info_hash l ia = info_hash l ib /\ info_depth l ia = info_depth l ib) as Hl.
    { intros l L1 L2. specialize (Hf l ltac:(apply in_seq; lia)). rewrite andb_true_iff, bool_decide_eq_true, Z.eqb_eq, !Nat.min_l in Hf by lia. done. }
    split; [done|..]; intros l L1 L2; by apply Hl.
  - intros Hs. split; [apply Hs|]. intros l _. destruct (same_at_any _ _ _ _ l Ca Cb Hs) as [E1 E2].
    rewrite andb_true_iff, bool_decide_eq_true, Z.eqb_eq. done.
Qed.

(** The cell [i] up to level [d] is the whole cell [i']. *)
Definition realises (d : nat) (i i' : CellInfo) : Prop := same_at d i 3 i'.
Lemma realises_depth d i i' l : canon i -> canon i' -> realises d i i' -> info_depth l i' = info_depth (Nat.min l d) i /\ info_hash l i' = info_hash (Nat.min l d) i.
Proof.
  intros Hc Hc' Hs. destruct (same_at_any _ _ _ _ l Hc Hc' Hs) as [E1 E2].
  assert (apply_level l (ci_mask i') = apply_level (Nat.min l 3) (ci_mask i')) as E by apply apply_level_cap, Hc'.
  rewrite (cn_depth _ Hc' _ _ E), (cn_hash _ Hc' _ _ E). done.
Qed.
Lemma realises_self d i : canon i -> apply_level d (ci_mask i) = ci_mask i -> realises d i i.
Proof. intros Hc Hd. apply same_at_above; [done|done|apply apply_level_3, Hc]. Qed.
Lemma above_3 i l : canon i -> (3 <= l)%nat -> same_at 3 i l i.
Proof. intros Hc Hl. apply same_at_above; [done|apply apply_level_3, Hc|by apply apply_level_high; [apply Hc|]]. Qed.

Lemma realises_parent sp bits refs refs' i infos infos' d :
  cell_info (DataCell sp bits refs) = Some i -> ci_type i <> PrunnedBranch ->
  Forall2 (fun r x => cell_info r = Some x) refs infos -> Forall2 (fun r x => cell_info r = Some x) refs' infos' ->
  Forall2 (realises (child_level (ci_type i) d)) infos infos' ->
  exists i', cell_info (DataCell sp bits refs') = Some i' /\ realises d i i'.
Proof.
  intros Hi Ht Hr Hr' Ha. destruct (replace_refs sp bits refs refs' i infos infos' d 3 Hi Ht Hr Hr') as (i' & Hi' & Hs & _); [|by exists i'].
  assert (forall k x, infos !! k = Some x -> canon x) as Hc by (intros k x (r & _ & ?)%(Forall2_lookup_r _ _ _ _ _ Hr); by eapply cell_info_canon).
  assert (forall k x, infos' !! k = Some x -> canon x) as Hc' by (intros k x (r & _ & ?)%(Forall2_lookup_r _ _ _ _ _ Hr'); by eapply cell_info_canon).
  apply Forall2_same_length_lookup. split; [by apply Forall2_length in Ha|]. intros k x y Hx Hy. pose proof (Forall2_lookup_lr _ _ _ _ _ _ Ha Hx Hy) as Hxy.
  split.
  - eapply same_at_trans; [by eapply Hc|by eapply Hc'|by eapply Hc'|exact Hxy|]. apply above_3; [by eapply Hc'|]. unfold child_level. destruct (merkle_type _); lia.
  - intros l. apply Z.eq_le_incl. eapply realises_depth; [by eapply Hc|by eapply Hc'|done].
Qed.

(** The hashes that the search passes on are right. *)
Lemma hint_realises d c i r i' : cell_info c = Some i -> cell_info r = Some i' -> realises d i i' ->
  hint_correct (fun level => Some (get_hash_at (Nat.min level d) c)) r = true.
Proof.
  intros Hi Hi' Hs. unfold hint_correct. rewrite Hi'. apply forallb_forall. intros l Hl%list_elem_of_In. apply bool_decide_eq_true_2.
  rewrite (stored_hash _ _ _ Hi' Hl). unfold get_hash_at. rewrite Hi. eapply realises_depth; [by eapply cell_info_canon|by eapply cell_info_canon|done].
Qed.
End compare.

(** ** The search for the new tree *)

(** The cells that a search from [c] at depth [d] visits: pruned branches end it. *)
Inductive reach `{Sha256} : Cell -> nat -> Cell -> nat -> Prop :=
| reach_here c d : reach c d c d
| reach_ref c d r x dx : is_pruned_branch c = false -> r ∈ cell_refs c -> reach r (child_merkle_depth c d) x dx -> reach c d x dx.

Section apply.
Context `{Sha256}.
Hypothesis sha_len : forall x, length (sha256 x) = hash_bits.
Context (U : list bool -> Prop).
Hypothesis no_collision : forall x y, U x -> U y -> sha256 x = sha256 y -> x = y.
Notation in_U := (in_U U).

(** What a pruned branch stands for is known. *)
Definition resolved (known : gmap (list bool) Cell) (x : Cell) (d : nat) : bool :=
  negb (is_pruned_branch x) || negb (get_cell_level x =? d + 1)%nat ||
  match known !! get_hash_at d x with Some k => compare_cells k (get_cell_level k) x d | None => false end.

Definition known_ok (known : gmap (list bool) Cell) : Prop := forall h c, known !! h = Some c -> cell_info c <> None.
Definition ready_ok (ready : gmap (list bool * nat) Cell) : Prop := forall h d r c i,
  ready !! (h, d) = Some r -> cell_info c = Some i -> in_U c -> get_hash c = h -> exists i', cell_info r = Some i' /\ realises d i i'.
Definition apply_result (d : nat) (c : Cell) : Prop := forall s i, cell_info c = Some i -> apply_level (S d) (ci_mask i) = ci_mask i -> in_U c ->
  known_ok (known_cells_ s) -> ready_ok (ready_cells_ s) ->
  match apply_dfs c d s with
  | Ret r s' => known_cells_ s' = known_cells_ s /\ ready_ok (ready_cells_ s') /\ exists i', cell_info r = Some i' /\ realises d i i'
  | Exn e s' => e = StatusError /\ exists x dx, reach c d x dx /\ resolved (known_cells_ s) x dx = false
  | Undef => False
  end.

Lemma ready_emplace m c i d r i' : ready_ok m -> cell_info c = Some i -> in_U c -> cell_info r = Some i' -> realises d i i' ->
  ready_ok (emplace (get_hash c, d) r m).
Proof using sha_len no_collision.
  intros Hm Hi Hu Hi' Hr. unfold emplace. case_match; [done|]. intros h d' r' c' j Hl Hj Hu' Eh.
  apply lookup_insert_Some in Hl as [[[= <- <-] <-]|[_ Hl]]; [|by eapply Hm].
  assert (c' = c) as -> by (eapply hash_eq; [done|exact no_collision|congruence|congruence|done..]). simplify_eq. eauto.
Qed.

Lemma apply_refs k cd refs infos s : Forall (apply_result cd) refs -> Forall2 (fun r x => cell_info r = Some x) refs infos ->
  Forall (fun x => apply_level (S cd) (ci_mask x) = ci_mask x) infos -> Forall in_U refs -> known_ok (known_cells_ s) -> ready_ok (ready_cells_ s) ->
  match for_refs (fun _ r => apply_dfs r cd) k refs s with
  | Ret refs' s' => known_cells_ s' = known_cells_ s /\ ready_ok (ready_cells_ s') /\
      exists infos', Forall2 (fun r x => cell_info r = Some x) refs' infos' /\ Forall2 (realises cd) infos infos'
  | Exn e s' => e = StatusError /\ exists r x dx, r ∈ refs /\ reach r cd x dx /\ resolved (known_cells_ s) x dx = false
  | Undef => False
  end.
Proof.
  intros Ha Hr Hl Hu. revert k s. induction Hr as [|r x refs infos Hx Hr IH]; intros k s Hk Hm; [by split_and!; [..|exists []]|].
  apply Forall_cons_1 in Ha as [Ha1 Ha2]. apply Forall_cons_1 in Hl as [Hl1 Hl2]. apply Forall_cons_1 in Hu as [Hu1 Hu2].
  specialize (Ha1 s x Hx Hl1 Hu1 Hk Hm). cbn [for_refs]. unfold bind. destruct (apply_dfs r cd s) as [r' s1|e s1|]; [| |done].
  2: { destruct Ha1 as (-> & y & dy & ? & ?). split; [done|]. exists r, y, dy. split_and!; [by left|done..]. }
  destruct Ha1 as (Ek & Hm1 & i' & Hi' & Hri). specialize (IH Ha2 Hl2 Hu2 (S k) s1 ltac:(by rewrite Ek) Hm1).
  destruct (for_refs _ (S k) refs s1) as [refs' s2|e s2|]; [| |done].
  - destruct IH as (Ek2 & Hm2 & infos' & H1 & H2). unfold ret. split_and!; [congruence|done|]. exists (i' :: infos'). by split; constructor.
  - destruct IH as (-> & r2 & y & dy & Hin & ? & Hres). split; [done|]. exists r2, y, dy. rewrite Ek in Hres. split_and!; [by right|done..].
Qed.

Lemma child_level_S t d : child_level t (S d) = S (child_level t d).
Proof. unfold child_level. by destruct (merkle_type t). Qed.

Lemma apply_pruned c i d s : cell_info c = Some i -> ci_type i = PrunnedBranch -> apply_level (S d) (ci_mask i) = ci_mask i ->
  known_ok (known_cells_ s) -> ready_ok (ready_cells_ s) ->
  match apply_dfs c d s with
  | Ret r s' => known_cells_ s' = known_cells_ s /\ ready_ok (ready_cells_ s') /\ exists i', cell_info r = Some i' /\ realises d i i'
  | Exn e s' => e = StatusError /\ resolved (known_cells_ s) c d = false
  | Undef => False
  end.
Proof.
  intros Hi Ht Hd Hk Hm. pose proof (cell_info_canon _ _ Hi) as Hc. assert (is_pruned_branch c = true) as Hp by (rewrite (pruned_branch_type _ _ Hi); by apply bool_decide_eq_true_2).
  assert (get_cell_level c <= S d)%nat as Hl by (rewrite (cell_level_info _ _ Hi); by apply level_le_apply; [apply Hc|]).
  unfold resolved. rewrite Hp. destruct c as [sp bits refs]. cbn [apply_dfs]. rewrite Hp. cbn [negb orb].
  destruct (Nat.eqb_spec (get_cell_level (DataCell sp bits refs)) (d + 1)) as [El|El]; cbn [negb orb].
  - unfold bind, gets. destruct (known_cells_ s !! _) as [k|] eqn:Ek; [|done]. unfold unless_throw.
    destruct (compare_cells _ _ _ _) eqn:Ec; [|done]. unfold ret. split_and!; [done..|]. destruct (cell_info k) as [ik|] eqn:Hik; [|by eapply Hk in Ek].
    exists ik. split; [done|]. rewrite (compare_spec _ _ _ _ _ _ Hik Hi) in Ec. pose proof (cell_info_canon _ _ Hik) as Cik.
    eapply same_at_trans; [done|exact Cik|done|by apply same_at_sym|]. apply same_at_above; [done| |apply apply_level_3, Cik].
    apply level_le_apply; [apply Cik|]. by rewrite (cell_level_info _ _ Hik).
  - unfold ret. split_and!; [done..|]. exists i. split; [done|]. apply realises_self; [done|]. apply level_le_apply; [apply Hc|].
    rewrite <- (cell_level_info _ _ Hi). lia.
Qed.

Lemma apply_dfs_ok c : forall d, apply_result d c.
Proof using sha_len no_collision.
  induction c as [sp bits refs IH] using Cell_ind'. intros d s i Hi Hd Hu Hk Hm. set (c := DataCell sp bits refs) in *.
  destruct (decide (ci_type i = PrunnedBranch)) as [Ep|Ep].
  { pose proof (apply_pruned c i d s Hi Ep Hd Hk Hm) as Hr. destruct (apply_dfs c d s); [done| |done]. destruct Hr as [-> Hr]. split; [done|].
    exists c, d. split; [constructor|done]. }
  assert (is_pruned_branch c = false) as Hp by (rewrite (pruned_branch_type _ _ Hi); by apply bool_decide_eq_false_2).
  destruct (cell_parts _ _ Hi) as [infos P]. pose proof (child_depth_type c i d Hi) as Ecd.
  pose proof (apply_refs 0 (child_level (ci_type i) d) refs infos s) as Hr.
  assert (Forall (apply_result (child_level (ci_type i) d)) refs) as Hf by (eapply list.Forall_impl; [exact IH|]; eauto).
  assert (Forall in_U refs) as Hus by (apply list.Forall_forall; intros r Hr'; by eapply in_U_ref).
  pose proof (pt_ref_level _ _ _ P _ Hd) as Hlv. rewrite child_level_S in Hlv. specialize (Hr Hf (pt_refs _ _ _ P) Hlv Hus Hk Hm). clear Hf.
  unfold c at 1. cbn [apply_dfs]. fold c. rewrite Hp. unfold bind at 1, gets. cbv beta iota. destruct (ready_cells_ s !! (get_hash c, d)) as [r|] eqn:El.
  { unfold ret. split_and!; [done..|]. by eapply Hm. }
  rewrite Ecd. unfold bind at 1. destruct (for_refs _ _ refs s) as [refs' s1|e s1|]; [| |done].
  2: { destruct Hr as (-> & r & x & dx & Hin & Hre & Hres). split; [done|]. exists x, dx. split; [|done]. eapply reach_ref; [done|exact Hin|by rewrite Ecd]. }
  destruct Hr as (Ek & Hm1 & infos' & Hr' & Hre). destruct (realises_parent sp bits refs refs' i infos infos' d Hi Ep (pt_refs _ _ _ P) Hr' Hre) as (i' & Hi' & Hri).
  unfold finalize_hinted, create_cell, create, bind at 1 2. rewrite Hi'. unfold ret at 1. unfold bind at 1, assert_ub.
  rewrite (hint_realises d c i _ i' Hi Hi' Hri). unfold ret, bind, modify. cbn [known_cells_ set_ready ready_cells_]. split_and!; [done| |by exists i'].
  by eapply ready_emplace.
Qed.
End apply.

(** ** Searches that visit every cell once

    A search marks a cell before it goes on to the references.  When it comes back, everything below the
    cell was dealt with, also what lies below cells that were marked before. *)
Section cover.
Context `{Sha256} {S : Type} (visited : S -> gset (list bool * nat)) (Q : S -> Cell -> nat -> Prop) (good : Cell -> Prop).
Hypothesis good_hash : forall c c', good c -> good c' -> get_hash c = get_hash c' -> c = c'.

Lemma cell_depth_ref c r : r ∈ cell_refs c -> (cell_depth r < cell_depth c)%nat.
Proof.
  destruct c as [sp bits refs]. cbn [cell_refs]. intros Hr. assert (forall l, r ∈ l -> (cell_depth r <= refs_depth l)%nat) as Hle.
  { induction l as [|x l IH]; [by intros ?%elem_of_nil|]. intros [->|Hx]%elem_of_cons; unfold refs_depth in *; cbn [foldr]; [lia|]. specialize (IH Hx). lia. }
  specialize (Hle _ Hr). destruct refs as [|x refs]; [by apply elem_of_nil in Hr|]. cbn [cell_depth]. fold (refs_depth (x :: refs)). lia.
Qed.

(** Below the marked cells of depth less than [n] all is done. *)
Definition closed (n : nat) (s : S) : Prop := forall c d x dx, good c -> (get_hash c, d) ∈ visited s -> (cell_depth c < n)%nat -> reach c d x dx -> Q s x dx.

(** From [s] to [s'] the cells [T], of depth less than [N], were dealt with. *)
Record covers (N : nat) (T : Cell -> nat -> Prop) (s s' : S) : Prop := mkCovers {
  cv_mono x dx : Q s x dx -> Q s' x dx;
  cv_sub : visited s ⊆ visited s';
  cv_new k : k ∈ visited s' -> k ∈ visited s \/ exists c, good c /\ fst k = get_hash c /\ (cell_depth c < N)%nat;
  cv_done c d x dx : T c d -> reach c d x dx -> Q s' x dx;
  cv_closed n : (N <= n)%nat -> closed n s -> closed n s'
}.

Lemma covers_nothing N s : covers N (fun _ _ => False) s s.
Proof. split; auto; done. Qed.
Lemma covers_trans N T T' s s1 s2 : covers N T s s1 -> covers N T' s1 s2 -> covers N (fun c d => T c d \/ T' c d) s s2.
Proof.
  intros [M1 S1 N1 D1 C1] [M2 S2 N2 D2 C2]. split.
  - auto.
  - by etransitivity.
  - intros k Hk. destruct (N2 k Hk) as [Hk1|?]; [by apply N1|by right].
  - intros c d x dx [HT|HT] Hr; [apply M2; by eapply D1|by eapply D2].
  - auto.
Qed.
Lemma covers_weaken N N' (T T' : Cell -> nat -> Prop) s s' : (N <= N')%nat -> (forall c d, T' c d -> T c d) -> covers N T s s' -> covers N' T' s s'.
Proof.
  intros HN HT [M1 S1 N1 D1 C1]. split; [done|done| | |].
  - intros k Hk. destruct (N1 k Hk) as [?|(c & ? & ? & ?)]; [by left|]. right. exists c. split_and!; (done || lia).
  - intros c d x dx Hc. apply D1. by apply HT.
  - intros n Hn. apply C1. lia.
Qed.
Lemma covers_visited N c d n s : good c -> (get_hash c, d) ∈ visited s -> (cell_depth c < n)%nat -> closed n s ->
  covers N (fun c' d' => c' = c /\ d' = d) s s.
Proof. intros Hg Hv Hn Hc. split; auto. intros c' d' x dx [-> ->] Hr. by eapply Hc. Qed.

Lemma closed_mark c d n s s1 : good c -> (cell_depth c < n)%nat -> closed n s -> (forall x dx, Q s x dx -> Q s1 x dx) ->
  visited s1 = {[(get_hash c, d)]} ∪ visited s -> closed (cell_depth c) s1.
Proof using good_hash.
  intros Hg Hn Hc Hm Hv c' d' x dx Hg' Hk Hd Hr. rewrite Hv, elem_of_union, elem_of_singleton in Hk. destruct Hk as [[= E _]|Hk].
  - rewrite (good_hash c' c) in Hd by done. lia.
  - apply Hm. eapply Hc; [exact Hg'|done|lia|done].
Qed.
Lemma covers_node c d n s s1 s2 : good c -> (cell_depth c < n)%nat -> closed n s -> (forall x dx, Q s x dx -> Q s1 x dx) ->
  visited s1 = {[(get_hash c, d)]} ∪ visited s -> Q s1 c d ->
  covers (cell_depth c) (fun r d' => is_pruned_branch c = false /\ r ∈ cell_refs c /\ d' = child_merkle_depth c d) s1 s2 ->
  covers (Datatypes.S (cell_depth c)) (fun c' d' => c' = c /\ d' = d) s s2.
Proof using good_hash.
  intros Hg Hn Hc Hm Hv HQ [M2 S2 N2 D2 C2].
  assert (forall x dx, reach c d x dx -> Q s2 x dx) as Hdone.
  { intros x dx Hr. inversion Hr; subst; [by apply M2|]. by eapply D2. }
  split; [auto|set_solver| | |].
  - intros k Hk. destruct (N2 k Hk) as [Hk1|(c' & ? & ? & ?)]; [|right; exists c'; split_and!; (done || lia)].
    rewrite Hv, elem_of_union, elem_of_singleton in Hk1. destruct Hk1 as [->|?]; [|by left]. right. exists c. split_and!; (done || lia).
  - intros c' d' x dx [-> ->]. apply Hdone.
  - intros n' Hn' Hc' c' d' x dx Hg' Hk Hd Hr. destruct (N2 _ Hk) as [Hk1|(c2 & Hg2 & E2 & Hd2)].
    + rewrite Hv, elem_of_union, elem_of_singleton in Hk1. destruct Hk1 as [[= E ->]|Hk1].
      * rewrite (good_hash c' c) in Hr by done. by apply Hdone.
      * apply M2, Hm. by eapply Hc'.
    + cbn in E2. rewrite <- (good_hash c' c2) in Hd2 by done. eapply (C2 (cell_depth c)); [done|by eapply closed_mark|exact Hg'|done|done|done].
Qed.
End cover.

(** ** The search in the old tree *)

Section both.
Context `{Sha256}.
Hypothesis sha_len : forall x, length (sha256 x) = hash_bits.
Context (U : list bool -> Prop).
Hypothesis no_collision : forall x y, U x -> U y -> sha256 x = sha256 y -> x = y.

Record good (c : Cell) : Prop := mkGood { gd_valid : cell_info c <> None; gd_in : in_U U c }.
Lemma good_info c : good c -> exists i, cell_info c = Some i.
Proof. intros [Hv _]. destruct (cell_info c); [by eexists|done]. Qed.
Lemma good_ref c r : good c -> r ∈ cell_refs c -> good r.
Proof. intros [Hv Hu] Hr. split; [|by eapply in_U_refs]. destruct (ref_valid _ _ Hv Hr) as [i ->]. done. Qed.
Lemma good_hash_eq c c' : good c -> good c' -> get_hash c = get_hash c' -> c = c'.
Proof using sha_len no_collision. intros [V Hu] [V' Hu']. by apply (hash_eq sha_len U no_collision). Qed.

(** What the search of both trees needs of a cell of the old tree *)
Record old_cell (d : nat) (c : Cell) : Prop := mkOld { oc_good : good c; oc_level : (get_cell_level c <= d)%nat }.
Lemma old_ref c i d r : cell_info c = Some i -> old_cell d c -> r ∈ cell_refs c -> old_cell (child_level (ci_type i) d) r.
Proof. intros Hi [Hg Hl] Hr. split; [by eapply good_ref|by eapply ref_level_le]. Qed.

(** Cells of both trees with the same hash at level [d], of which the second is not pruned, have the same data; their references
    have the same hashes and depths. *)
Lemma both_refs o u io iu d : cell_info o = Some io -> cell_info u = Some iu -> old_cell d o -> good u -> is_pruned_branch u = false ->
  info_hash d io = info_hash d iu -> ci_type io = ci_type iu /\ length (cell_refs o) = length (cell_refs u) /\
  forall k r r', cell_refs o !! k = Some r -> cell_refs u !! k = Some r' -> exists i i', cell_info r = Some i /\ cell_info r' = Some i' /\
    info_hash (child_level (ci_type iu) d) i = info_hash (child_level (ci_type iu) d) i' /\
    info_depth (child_level (ci_type iu) d) i = info_depth (child_level (ci_type iu) d) i'.
Proof using sha_len no_collision.
  intros Ho Hu [[_ Uo] Lo] [_ Uu] Hp E. destruct (cell_parts _ _ Ho) as [infos P], (cell_parts _ _ Hu) as [infos' P'].
  destruct (load_inj sha_len U no_collision _ _ _ _ _ _ d d P P' (loadable_level _ _ Lo) ltac:(unfold loadable; by rewrite Hp) Uo Uu E) as (_ & _ & Et & Hr).
  split_and!; [done| |].
  - rewrite (list.Forall2_length _ _ _ (pt_refs _ _ _ P)), (list.Forall2_length _ _ _ (pt_refs _ _ _ P')). by eapply list.Forall2_length.
  - intros k r r' Hk Hk'. destruct (Forall2_lookup_l _ _ _ _ _ (pt_refs _ _ _ P) Hk) as (x & Hx & ?). destruct (Forall2_lookup_l _ _ _ _ _ (pt_refs _ _ _ P') Hk') as (x' & Hx' & ?).
    destruct (Forall2_lookup_lr _ _ _ _ _ _ Hr Hx Hx') as [E1 E2]. rewrite Et in E1, E2. by exists x, x'.
Qed.

(** The loop over the references of two cells with as many of them *)
Lemma for_both (P : nat -> MerkleUpdateApply -> Prop) (E : exc -> Prop) (f : Cell -> Cell -> M MerkleUpdateApply unit) refs_o refs_u :
  length refs_o = length refs_u ->
  (forall k r r' s, refs_o !! k = Some r -> refs_u !! k = Some r' -> P k s ->
     match f r r' s with Ret _ s' => P (S k) s' | Exn e s' => E e | Undef => False end) ->
  forall s, P 0%nat s ->
  match for_refs (fun i r => r_u <- of_option (refs_u !! i) ;; f r r_u) 0 refs_o s with
  | Ret _ s' => P (length refs_o) s'
  | Exn e s' => E e
  | Undef => False
  end.
Proof.
  intros Hlen Hf. assert (forall l k s, refs_o = take k refs_o ++ l -> length (take k refs_o) = k -> P k s ->
    match for_refs (fun i r => r_u <- of_option (refs_u !! i) ;; f r r_u) k l s with
    | Ret _ s' => P (length refs_o) s' | Exn e s' => E e | Undef => False end) as Hl.
  { induction l as [|r l IH]; intros k s El Hk HP.
    - cbn. rewrite app_nil_r in El. rewrite El, Hk. done.
    - assert (refs_o !! k = Some r) as Hr. { rewrite El, lookup_app_r by lia. by rewrite Hk, Nat.sub_diag. }
      pose proof (lookup_lt_Some _ _ _ Hr) as Hlt. destruct (lookup_lt_is_Some_2 refs_u k ltac:(lia)) as [r' Hr'].
      cbn [for_refs]. unfold bind at 1 2, of_option. rewrite Hr'. unfold ret at 1. cbv beta iota. specialize (Hf k r r' s Hr Hr' HP).
      destruct (f r r' s) as [[] s1|e s1|]; [|done|done]. unfold bind.
      assert (refs_o = take (S k) refs_o ++ l) as El'. { rewrite (take_S_r _ _ r Hr), <- app_assoc. done. }
      specialize (IH (S k) s1 El' ltac:(rewrite length_take; lia) Hf). by destruct (for_refs _ (S k) l s1). }
  intros s. by apply (Hl refs_o 0%nat).
Qed.

Definition both_result (o : Cell) : Prop := forall u d s, old_cell d o -> good u -> known_ok (known_cells_ s) ->
  match dfs_both o u d s with
  | Ret _ s' => known_ok (known_cells_ s') /\ ready_cells_ s' = ready_cells_ s
  | Exn e _ => e = StatusError
  | Undef => False
  end.
Lemma known_emplace known h c : known_ok known -> cell_info c <> None -> known_ok (emplace h c known).
Proof. intros Hk Hc. unfold emplace. case_match; [done|]. intros h' c' Hl. apply lookup_insert_Some in Hl as [[_ <-]|[_ Hl]]; [done|by eapply Hk]. Qed.
Lemma dfs_both_safe o : both_result o.
Proof using sha_len no_collision.
  induction o as [sp bits refs IH] using Cell_ind'. intros u d s Ho Hu Hk. set (o := DataCell sp bits refs) in *.
  destruct (good_info _ (oc_good _ _ Ho)) as [io Hio], (good_info _ Hu) as [iu Hiu]. unfold o at 1. cbn [dfs_both]. fold o.
  unfold bind at 1, gets. cbv beta iota. destruct (bool_decide _); [done|]. unfold bind at 1, modify at 1. cbv beta iota. unfold bind at 1, unless_throw.
  destruct (compare_cells o d u d) eqn:Ec; [|done]. unfold ret at 1. cbv beta iota. unfold bind at 1, modify at 1. cbv beta iota.
  set (s1 := set_known _ _). assert (known_ok (known_cells_ s1)) as Hk1 by (apply known_emplace; [done|congruence]).
  destruct (is_pruned_branch u) eqn:Ep; [done|]. rewrite (compare_spec _ _ _ _ _ _ Hio Hiu) in Ec.
  destruct (both_refs o u io iu d Hio Hiu Ho Hu Ep (sa_hash _ _ _ _ Ec d ltac:(lia) ltac:(lia))) as (Et & Hlen & _).
  rewrite (child_depth_type _ _ _ Hiu). unfold bind at 1.
  pose proof (for_both (fun _ s' => known_ok (known_cells_ s') /\ ready_cells_ s' = ready_cells_ s1) (fun e => e = StatusError) (fun r r' => dfs_both r r' (child_level (ci_type iu) d)) refs (cell_refs u) Hlen) as Hl.
  assert (forall k r r' s', refs !! k = Some r -> cell_refs u !! k = Some r' -> known_ok (known_cells_ s') /\ ready_cells_ s' = ready_cells_ s1 ->
    match dfs_both r r' (child_level (ci_type iu) d) s' with
    | Ret _ s'' => known_ok (known_cells_ s'') /\ ready_cells_ s'' = ready_cells_ s1 | Exn e _ => e = StatusError | Undef => False end) as Hstep.
  { intros k r r' s' Hr Hr' [Hk' Er]. pose proof (Forall_lookup_1 _ _ _ _ IH Hr) as Hb.
    specialize (Hb r' (child_level (ci_type iu) d) s'). rewrite <- Et in Hb. rewrite <- Et. rewrite <- Er.
    apply Hb; [eapply (old_ref o); [done|done|by eapply list_elem_of_lookup_2]|eapply good_ref; [exact Hu|by eapply list_elem_of_lookup_2]|done]. }
  specialize (Hl Hstep s1 (conj Hk1 eq_refl)). by destruct (for_refs _ 0 refs s1).
Qed.
End both.

(** ** Application *)

Lemma unpack_update_inv `{Sha256} u : cell_info u <> None ->
  match unpack_update u tt with
  | Ret (a, b) _ => special_type u = MerkleUpdate /\ cell_refs u = [a; b]
  | Exn e _ => e = StatusError
  | Undef => False
  end.
Proof.
  destruct (cell_info u) as [i|] eqn:Hi; [intros _|done]. destruct (cell_parts _ _ Hi) as [infos P]. destruct (pt_type _ _ _ P) as (ds & _ & Hc).
  unfold unpack_update, special_type. rewrite Hi. unfold bind at 1, unless_throw. case_bool_decide as Ht; [|done]. rewrite Ht in Hc. cbn in Hc.
  assert (exists x y, infos = [x; y]) as (x & y & ->). { unfold check_merkle_update in Hc. destruct infos as [|x [|y [|]]]; try done. by exists x, y. }
  pose proof (pt_refs _ _ _ P) as Hr. destruct (cell_refs u) as [|a [|b [|]]]; inversion Hr as [|? ? ? ? _ Hr1]; try (by inversion Hr1 as [|? ? ? ? _ Hr2]; inversion Hr2).
Qed.
Lemma update_ref_level `{Sha256} u i r ir : cell_info u = Some i -> ci_type i = MerkleUpdate -> get_cell_level u = 0%nat -> r ∈ cell_refs u ->
  cell_info r = Some ir -> apply_level 1 (ci_mask ir) = ci_mask ir.
Proof.
  intros Hi Ht Hl Hr Hir. pose proof (cell_info_canon _ _ Hir) as Hc. apply level_le_apply; [apply Hc|]. rewrite <- (cell_level_info _ _ Hir).
  pose proof (ref_level_le u i 0 r Hi ltac:(lia) Hr) as Hle. by rewrite Ht in Hle.
Qed.

(** C12: Application of Merkle updates: an update that is applied to a tree gives a valid tree of level 0 with the hash and depth
    that the update announces for the new state; otherwise it is rejected with an error, and no check fails on the way.  The hashes that the search passes on instead of computing them
    are right. *)
Theorem merkle_update_applied `{Sha256} from update : (forall x, length (sha256 x) = hash_bits) -> collision_free [from; update] ->
  cell_info from <> None -> cell_info update <> None ->
  match apply from update tt with
  | Ret r _ => exists update_to, cell_refs update !! 1%nat = Some update_to /\ cell_info r <> None /\ get_cell_level r = 0%nat /\
      get_hash r = get_hash_at 0 update_to /\ get_depth r = get_depth_at 0 update_to
  | Exn e _ => e = StatusError
  | Undef => False
  end.
Proof.
  intros Hlen Hcf Hf Hu. unfold apply. unfold bind at 1, unless_throw. destruct (_ && _) eqn:El; [|done]. unfold ret at 1. cbv beta iota.
  apply andb_true_iff in El as [Elu%Nat.eqb_eq Elf%Nat.eqb_eq]. pose proof (unpack_update_inv update Hu) as Hup. unfold bind at 1.
  destruct (unpack_update update tt) as [[uf ut] []|e s|]; [|done|done]. destruct Hup as [Ht Hrf].
  pose proof (collision_free_U _ Hcf) as Hnc. set (U := hashed_by [from; update]) in *.
  assert (good U update) as Gu by (split; [done|apply in_hashed_by; right; by left]). assert (good U from) as Gf by (split; [done|apply in_hashed_by; by left]).
  assert (good U uf) as Guf by (apply (good_ref _ update); [done|rewrite Hrf; by left]).
  assert (good U ut) as Gut by (apply (good_ref _ update); [done|rewrite Hrf; right; by left]).
  destruct (good_info _ _ Gu) as [iu Hiu], (good_info _ _ Gut) as [it Hit]. unfold special_type in Ht. rewrite Hiu in Ht.
  assert (apply_level 1 (ci_mask it) = ci_mask it) as Hlt by (apply (update_ref_level update iu ut); try done; rewrite Hrf; right; by left).
  unfold apply_raw. unfold bind at 1, unless_throw at 1. destruct (bool_decide _); [|done]. unfold ret at 1. cbv beta iota. unfold run_fresh. unfold bind at 1.
  unfold unless_throw. rewrite Elf. cbn [Nat.eqb]. unfold ret at 1. cbv beta iota. unfold bind at 1.
  pose proof (dfs_both_safe Hlen U Hnc from uf 0%nat (mkApply ∅ ∅ ∅) ltac:(split; [done|lia]) Guf ltac:(intros h c Hx; cbn [known_cells_] in Hx; by rewrite lookup_empty in Hx)) as Hb.
  destruct (dfs_both from uf 0%nat _) as [[] s1|e s1|]; [|done|done]. destruct Hb as [Hk Er].
  pose proof (apply_dfs_ok Hlen U Hnc ut 0%nat s1 it Hit Hlt (gd_in _ _ Gut) Hk ltac:(rewrite Er; intros h d r c i Hx; cbn [ready_cells_] in Hx; by rewrite lookup_empty in Hx)) as Ha.
  destruct (apply_dfs ut 0%nat s1) as [r s2|e s2|]; [|by destruct Ha|done]. destruct Ha as (_ & _ & ir & Hir & Hre). exists ut. rewrite Hrf.
  pose proof (cell_info_canon _ _ Hit) as Ct. pose proof (cell_info_canon _ _ Hir) as Cr. destruct (realises_depth 0 it ir max_level Ct Cr Hre) as [E1 E2].
  split_and!; [done|congruence| |by unfold get_hash, get_hash_at; rewrite Hir, Hit, E2|by unfold get_depth, get_depth_at; rewrite Hir, Hit, E1].
  rewrite (cell_level_info _ _ Hir). pose proof (sa_mask _ _ _ _ Hre) as Em. rewrite apply_level_0, apply_level_3 in Em by apply Cr. by rewrite <- Em.
Qed.

(** ** Validated updates *)

Section validated.
Context `{Sha256}.
Hypothesis sha_len : forall x, length (sha256 x) = hash_bits.
Context (U : list bool -> Prop).
Hypothesis no_collision : forall x y, U x -> U y -> sha256 x = sha256 y -> x = y.
Notation good := (good U).

(** Trees without Merkle cells *)
Lemma no_merkle_type c i : cell_info c = Some i -> merkle_height c = 0%nat -> merkle_type (ci_type i) = false.
Proof.
  intros Hi Hm. destruct c as [sp bits refs]. change (child_merkle_depth (DataCell sp bits refs) (foldr Nat.max 0%nat (map merkle_height refs)) = 0%nat) in Hm.
  rewrite (child_depth_type _ _ _ Hi) in Hm. unfold child_level in Hm. by destruct (merkle_type (ci_type i)).
Qed.
Lemma no_merkle_ref c i r : cell_info c = Some i -> merkle_height c = 0%nat -> r ∈ cell_refs c -> merkle_height r = 0%nat.
Proof.
  intros Hi Hm Hr. pose proof (no_merkle_type _ _ Hi Hm) as Ht. destruct c as [sp bits refs]. cbn [cell_refs] in Hr.
  change (child_merkle_depth (DataCell sp bits refs) (foldr Nat.max 0%nat (map merkle_height refs)) = 0%nat) in Hm.
  rewrite (child_depth_type _ _ _ Hi) in Hm. unfold child_level in Hm. rewrite Ht in Hm. clear -Hm Hr.
  induction refs as [|x refs IH]; [by apply elem_of_nil in Hr|]. cbn [map foldr] in Hm. apply elem_of_cons in Hr as [->|Hr]; [lia|]. apply IH; (done || lia).
Qed.

(** The old cell for a cell of the update is known. *)
Definition known_for (s : MerkleUpdateApply) (x : Cell) (dx : nat) : Prop := dx = 0%nat /\ exists k ik ix,
  known_cells_ s !! get_hash_at 0 x = Some k /\ cell_info k = Some ik /\ cell_info x = Some ix /\ same_at 0 ix 0 ik /\ get_cell_level k = 0%nat.
Definition known_good (s : MerkleUpdateApply) : Prop := forall h k, known_cells_ s !! h = Some k -> old_cell U 0 k /\ get_hash_at 0 k = h.

Lemma hash_at_level_0 c : good c -> get_cell_level c = 0%nat -> get_hash_at 0 c = get_hash c.
Proof.
  intros Hg Hl. destruct (good_info _ _ Hg) as [i Hi]. unfold get_hash_at, get_hash. rewrite Hi. pose proof (cell_info_canon _ _ Hi) as Hc. apply (cn_hash _ Hc).
  rewrite (cell_level_info _ _ Hi) in Hl. rewrite (proj1 (level_le_apply i 0 (cn_mask _ Hc)) ltac:(lia)). symmetry. apply apply_level_3, Hc.
Qed.
Lemma known_good_emplace s o : known_good s -> old_cell U 0 o ->
  let s' := set_known (emplace (get_hash_at 0 o) o) s in
  known_good s' /\ known_cells_ s' !! get_hash_at 0 o = Some o /\ (forall h k, known_cells_ s !! h = Some k -> known_cells_ s' !! h = Some k).
Proof using sha_len no_collision.
  intros Hk Ho. cbv zeta. unfold set_known, emplace. cbn [known_cells_]. destruct (known_cells_ s !! get_hash_at 0 o) as [k|] eqn:E.
  - split_and!; [done| |done]. destruct (Hk _ _ E) as [[Gk Lk] Eh]. destruct Ho as [Go Lo]. rewrite !hash_at_level_0 in Eh by (done || lia).
    assert (k = o) as -> by (by apply (good_hash_eq sha_len U no_collision)). done.
  - split_and!.
    + intros h k Hx. cbn [known_cells_] in Hx. apply lookup_insert_Some in Hx as [[<- <-]|[_ Hx]]; [done|by apply Hk].
    + by rewrite lookup_insert_eq.
    + intros h k Hx. rewrite lookup_insert_ne; [done|]. intros <-. congruence.
Qed.
Lemma same_at_0 i i' : info_hash 0 i = info_hash 0 i' -> info_depth 0 i = info_depth 0 i' -> same_at 0 i 0 i'.
Proof. intros E1 E2. split; [by rewrite !apply_level_0|..]; intros l L _; by replace l with 0%nat by lia. Qed.

Notation both_covers := (covers visited_from_ known_for good).
Definition both_done (o : Cell) : Prop := forall u s n io iu, old_cell U 0 o -> good u -> merkle_height o = 0%nat ->
  cell_info o = Some io -> cell_info u = Some iu -> same_at 0 io 0 iu -> known_good s -> closed visited_from_ known_for good n s -> (cell_depth u < n)%nat ->
  exists s', dfs_both o u 0 s = Ret tt s' /\ known_good s' /\ both_covers (S (cell_depth u)) (fun c d => c = u /\ d = 0%nat) s s'.

Lemma dfs_both_done o : both_done o.
Proof using sha_len no_collision.
  induction o as [sp bits refs IH] using Cell_ind'. intros u s n io iu Ho Hu Hmh Hio Hiu Hs Hk Hcl Hn. set (o := DataCell sp bits refs) in *.
  unfold o at 1. cbn [dfs_both]. fold o. unfold bind at 1, gets. cbv beta iota. case_bool_decide as Hv.
  { exists s. split_and!; [done..|]. by eapply covers_visited. }
  unfold bind at 1, modify at 1. cbv beta iota. unfold bind at 1, unless_throw. rewrite (proj2 (compare_spec _ _ _ _ _ _ Hio Hiu) Hs).
  unfold ret at 1. cbv beta iota. unfold bind at 1, modify at 1. cbv beta iota. set (s0 := set_visited _ s).
  destruct (known_good_emplace s0 o Hk Ho) as (Hk1 & Hko & Hmono). set (s1 := set_known _ s0) in *.
  assert (forall x dx, known_for s x dx -> known_for s1 x dx) as Hm.
  { intros x dx [-> (k & ik & ix & Hx & ?)]. split; [done|]. exists k, ik, ix. split; [by apply Hmono|done]. }
  assert (known_for s1 u 0) as HQ.
  { split; [done|]. exists o, io, iu. assert (get_hash_at 0 u = get_hash_at 0 o) as Eh.
    { unfold get_hash_at. rewrite Hio, Hiu. symmetry. by apply (sa_hash _ _ _ _ Hs). }
    rewrite Eh. split_and!; [done..|by apply same_at_sym|]. pose proof (oc_level _ _ _ Ho). lia. }
  assert (visited_from_ s1 = {[(get_hash u, 0%nat)]} ∪ visited_from_ s) as Hvis by done.
  pose proof (closed_mark visited_from_ known_for good (good_hash_eq sha_len U no_collision) u 0 n s s1 Hu Hn Hcl Hm Hvis) as Hcl1.
  destruct (is_pruned_branch u) eqn:Ep.
  { exists s1. split_and!; [done..|]. eapply (covers_node _ _ _ (good_hash_eq sha_len U no_collision) u 0 n s s1 s1); try done.
    eapply covers_weaken; [|intros c d|apply (covers_nothing _ _ _ 0)]; [lia|]. intros [E _]. congruence. }
  destruct (both_refs sha_len U no_collision o u io iu 0 Hio Hiu Ho Hu Ep (sa_hash _ _ _ _ Hs 0%nat ltac:(lia) ltac:(lia))) as (Et & Hlen & Hrefs).
  assert (child_level (ci_type iu) 0 = 0%nat) as Ecl by (unfold child_level; rewrite <- Et; by rewrite (no_merkle_type o io)). rewrite Ecl in Hrefs.
  rewrite (child_depth_type _ _ _ Hiu), Ecl. unfold bind at 1.
  set (P := fun k s' => known_good s' /\ closed visited_from_ known_for good (cell_depth u) s' /\
    both_covers (cell_depth u) (fun r d => d = 0%nat /\ exists j, (j < k)%nat /\ cell_refs u !! j = Some r) s1 s').
  pose proof (for_both P (fun _ => False) (fun r r' => dfs_both r r' 0) refs (cell_refs u) Hlen) as Hl.
  assert (forall k r r' s', refs !! k = Some r -> cell_refs u !! k = Some r' -> P k s' ->
    match dfs_both r r' 0 s' with Ret _ s'' => P (S k) s'' | Exn _ _ => False | Undef => False end) as Hstep.
  { intros k r r' s' Hr Hr' (Hk' & Hcl' & Hcv). destruct (Hrefs k r r' Hr Hr') as (i & i' & Hi & Hi' & E1 & E2).
    pose proof (list_elem_of_lookup_2 _ _ _ Hr) as Hin. pose proof (list_elem_of_lookup_2 _ _ _ Hr') as Hin'.
    pose proof (old_ref U o io 0 r Hio Ho Hin) as Hor. rewrite Et, Ecl in Hor.
    destruct (Forall_lookup_1 _ _ _ _ IH Hr r' s' (cell_depth u) i i' Hor (good_ref _ _ _ Hu Hin') (no_merkle_ref o io r Hio Hmh Hin) Hi Hi' (same_at_0 _ _ E1 E2) Hk' Hcl'
      (cell_depth_ref _ _ Hin')) as (s'' & -> & Hk'' & Hcv'').
    split_and!; [done|by eapply (cv_closed _ _ _ _ _ _ _ Hcv''); [apply cell_depth_ref|]|].
    eapply covers_weaken; [reflexivity| |eapply covers_trans; [exact Hcv|eapply covers_weaken; [|intros c d Hcd; exact Hcd|exact Hcv'']]]; [|by apply cell_depth_ref].
    intros c d (-> & j & Hj & Hc). destruct (decide (j = k)) as [->|]; [right; split; [congruence|done]|left; split; [done|exists j; split; [lia|done]]]. }
  assert (P 0%nat s1) as HP0.
  { split_and!; [done..|]. eapply covers_weaken; [reflexivity| |apply (covers_nothing _ _ _ (cell_depth u))]. intros c d (_ & j & Hj & _). lia. }
  specialize (Hl Hstep s1 HP0).
  destruct (for_refs _ 0 refs s1) as [x s2|e s2|]; [|done|done]. destruct Hl as (Hk2 & _ & Hcv). exists s2. split_and!; [done..|].
  eapply (covers_node _ _ _ (good_hash_eq sha_len U no_collision) u 0 n s s1 s2); try done.
  eapply covers_weaken; [reflexivity| |exact Hcv]. intros r d (_ & [j Hj]%list_elem_of_lookup & ->). rewrite (child_depth_type _ _ _ Hiu), Ecl. split; [done|].
  exists j. split; [|done]. apply lookup_lt_Some in Hj. rewrite <- Hlen in Hj. done.
Qed.

(** *** What the validator has checked *)

Lemma reach_trans a da b db x dx : reach a da b db -> reach b db x dx -> reach a da x dx.
Proof. intros Hr. revert x dx. induction Hr as [|c d r y dy Hp Hin Hr IH]; [done|]. intros x dx Hx. eapply reach_ref; [done|exact Hin|by apply IH]. Qed.

Lemma for_each {S} (P : nat -> S -> Prop) (f : Cell -> M S unit) refs :
  (forall k r s s', refs !! k = Some r -> P k s -> f r s = Ret tt s' -> P (Datatypes.S k) s') ->
  forall s l s', P 0%nat s -> for_refs (fun _ r => f r) 0 refs s = Ret l s' -> P (length refs) s'.
Proof.
  intros Hf. assert (forall l k s res s', refs = take k refs ++ l -> length (take k refs) = k -> P k s -> for_refs (fun _ r => f r) k l s = Ret res s' -> P (length refs) s') as Hl.
  { induction l as [|r l IH]; intros k s res s' El Hk HP Hr.
    - cbn in Hr. injection Hr as _ <-. rewrite app_nil_r in El. by rewrite El, Hk.
    - assert (refs !! k = Some r) as Hkr. { rewrite El, lookup_app_r by lia. by rewrite Hk, Nat.sub_diag. }
      pose proof (lookup_lt_Some _ _ _ Hkr). cbn [for_refs] in Hr. unfold bind in Hr. destruct (f r s) as [[] s1|e s1|] eqn:Ef; [|done..].
      destruct (for_refs _ (Datatypes.S k) l s1) as [xs s2|e s2|] eqn:El2; [|done..]. injection Hr as _ <-.
      eapply (IH (Datatypes.S k)); [|rewrite length_take; lia|by eapply Hf|exact El2]. rewrite (take_S_r _ _ r Hkr), <- app_assoc. done. }
  intros s l s'. by apply (Hl refs 0%nat).
Qed.

Record known_from (root : Cell) (s : MerkleUpdateValidator) : Prop := mkFrom {
  kf_known h o od : v_known_cells_ s !! h = Some (o, od) -> reach root 0 o od /\ get_hash_at od o = h;
  kf_to : v_visited_to_ s = ∅
}.
Lemma dfs_from_known root c : forall d s s', reach root 0 c d -> known_from root s -> dfs_from c d s = Ret tt s' -> known_from root s'.
Proof.
  induction c as [sp bits refs IH] using Cell_ind'. intros d s s' Hre Hk Hr. set (c := DataCell sp bits refs) in *. unfold c at 1 in Hr. cbn [dfs_from] in Hr. fold c in Hr.
  unfold bind at 1, gets at 1 in Hr. cbv beta iota in Hr. destruct (bool_decide _); [by injection Hr as <-|]. unfold bind at 1, modify at 1 in Hr. cbv beta iota in Hr.
  unfold bind at 1, gets at 1 in Hr. cbv beta iota in Hr. set (s1 := v_set_from _ s) in *.
  assert (exists s2, known_from root s2 /\ (if is_pruned_branch c then ret tt
    else _ <- for_refs (fun (_ : nat) r => dfs_from r (child_merkle_depth c d)) 0 refs ;; ret tt) s2 = Ret tt s') as (s2 & Hk2 & Hr2).
  { destruct (v_known_cells_ s1 !! get_hash_at d c) as [[o od]|] eqn:Eo.
    - unfold bind at 1, unless_throw in Hr. destruct (compare_cells _ _ _ _); [|done]. exists s1. split; [split; apply Hk|done].
    - unfold bind at 1, modify at 1 in Hr. cbv beta iota in Hr. eexists. split; [|exact Hr]. split; [|apply Hk]. intros h o od Hx. cbn [v_set_known v_known_cells_] in Hx.
      apply lookup_insert_Some in Hx as [[<- [= <- <-]]|[_ Hx]]; [done|by apply (kf_known _ _ Hk)]. }
  destruct (is_pruned_branch c) eqn:Ep; [by injection Hr2 as <-|]. unfold bind in Hr2. destruct (for_refs _ 0 refs s2) as [l s3|e s3|] eqn:El; [|done..]. injection Hr2 as <-.
  eapply (for_each (fun _ => known_from root)); [|exact Hk2|exact El]. intros k r t t' Hkr Ht. apply (Forall_lookup_1 _ _ _ _ IH Hkr); [|done].
  eapply reach_trans; [exact Hre|]. eapply reach_ref; [done|by eapply list_elem_of_lookup_2|constructor].
Qed.

Definition checked (known : gmap (list bool) (Cell * nat)) (x : Cell) (d : nat) : bool :=
  negb (is_pruned_branch x) || negb (get_cell_level x =? d + 1)%nat ||
  match known !! get_hash_at d x with Some (o, od) => compare_cells x d o od | None => false end.
Notation to_checked := (fun s x dx => checked (v_known_cells_ s) x dx = true).
Notation to_covers := (covers v_visited_to_ to_checked good).
Definition to_done (c : Cell) : Prop := forall d s s' n, good c -> closed v_visited_to_ to_checked good n s -> (cell_depth c < n)%nat -> dfs_to c d s = Ret tt s' ->
  v_known_cells_ s' = v_known_cells_ s /\ to_covers (S (cell_depth c)) (fun c' d' => c' = c /\ d' = d) s s'.
Lemma dfs_to_done c : to_done c.
Proof using sha_len no_collision.
  induction c as [sp bits refs IH] using Cell_ind'. intros d s s' n Hg Hcl Hn Hr. set (c := DataCell sp bits refs) in *. unfold c at 1 in Hr. cbn [dfs_to] in Hr. fold c in Hr.
  unfold bind at 1, gets at 1 in Hr. cbv beta iota in Hr. case_bool_decide as Hv.
  { injection Hr as <-. split; [done|]. by eapply covers_visited. }
  unfold bind at 1, modify at 1 in Hr. cbv beta iota in Hr. set (s1 := v_set_to _ s) in *.
  assert (v_visited_to_ s1 = {[(get_hash c, d)]} ∪ v_visited_to_ s) as Hvis by done.
  pose proof (closed_mark v_visited_to_ to_checked good (good_hash_eq sha_len U no_collision) c d n s s1 Hg Hn Hcl ltac:(done) Hvis) as Hcl1.
  destruct (is_pruned_branch c) eqn:Ep.
  { assert (s' = s1 /\ checked (v_known_cells_ s1) c d = true) as [-> HQ].
    { unfold checked. rewrite Ep. cbn [negb orb]. destruct (get_cell_level c =? d + 1)%nat; [|by injection Hr as <-]. cbn [negb orb].
      unfold bind, gets in Hr. destruct (v_known_cells_ s1 !! get_hash_at d c) as [[o od]|]; [|done]. unfold unless_throw in Hr.
      destruct (compare_cells _ _ _ _); [by injection Hr as <-|done]. }
    split; [done|]. eapply (covers_node _ _ _ (good_hash_eq sha_len U no_collision) c d n s s1 s1); try done.
    eapply covers_weaken; [|intros c' d'|apply (covers_nothing _ _ _ 0)]; [lia|]. intros [E _]. congruence. }
  unfold bind in Hr. destruct (for_refs _ 0 refs s1) as [l s2|e s2|] eqn:El; [|done..]. injection Hr as <-.
  set (P := fun k t => v_known_cells_ t = v_known_cells_ s1 /\ closed v_visited_to_ to_checked good (cell_depth c) t /\
    to_covers (cell_depth c) (fun r d' => d' = child_merkle_depth c d /\ exists j, (j < k)%nat /\ refs !! j = Some r) s1 t).
  assert (P (length refs) s2) as (Ek & _ & Hcv).
  { eapply (for_each P); [| |exact El].
    - intros k r t t' Hkr (Ek & Hclt & Hcv) Hrt. pose proof (list_elem_of_lookup_2 _ _ _ Hkr) as Hin.
      destruct (Forall_lookup_1 _ _ _ _ IH Hkr _ t t' (cell_depth c) (good_ref U c r Hg Hin) Hclt (cell_depth_ref c r Hin) Hrt) as (Ek' & Hcv').
      split_and!; [congruence|by eapply (cv_closed _ _ _ _ _ _ _ Hcv'); [apply (cell_depth_ref c)|]|].
      eapply covers_weaken; [reflexivity| |eapply covers_trans; [exact Hcv|eapply covers_weaken; [|intros c0 d0 Hcd; exact Hcd|exact Hcv']]]; [|by apply (cell_depth_ref c)].
      intros c0 d0 (-> & j & Hj & Hc). destruct (decide (j = k)) as [->|]; [right; split; [congruence|done]|left; split; [done|exists j; split; [lia|done]]].
    - split_and!; [done..|]. eapply covers_weaken; [reflexivity| |apply (covers_nothing _ _ _ (cell_depth c))]. intros c0 d0 (_ & j & Hj & _). lia. }
  split; [done|]. eapply (covers_node _ _ _ (good_hash_eq sha_len U no_collision) c d n s s1 s2); try done.
  - cbn. unfold checked. by rewrite Ep.
  - eapply covers_weaken; [reflexivity| |exact Hcv]. intros r d0 (_ & [j Hj]%list_elem_of_lookup & ->). split; [done|]. exists j. split; [by eapply lookup_lt_Some|done].
Qed.

Lemma good_reach c d x dx : good c -> reach c d x dx -> good x.
Proof. intros Hg Hr. induction Hr as [|c d r x dx _ Hin _ IH]; [done|]. apply IH. by eapply good_ref. Qed.

(** What the validator found for a pruned branch of the new tree, the application finds in the old tree. *)
Lemma checked_resolved uf s v x dx : (forall o od, reach uf 0 o od -> known_for s o od) -> known_from uf v -> good x ->
  checked (v_known_cells_ v) x dx = true -> resolved (known_cells_ s) x dx = true.
Proof.
  intros Hk Hv Hg. unfold checked, resolved. destruct (negb _ || negb _); [done|]. cbn [orb]. destruct (v_known_cells_ v !! _) as [[o od]|] eqn:Eo; [|done].
  destruct (kf_known _ _ Hv _ _ _ Eo) as [Hre Eh]. destruct (Hk _ _ Hre) as (-> & k & ik & io & Hl & Hik & Hio & Hs & Hlv). destruct (good_info _ _ Hg) as [ix Hix].
  rewrite <- Eh, Hl, Hlv, (compare_spec _ _ _ _ _ _ Hix Hio), (compare_spec _ _ _ _ _ _ Hik Hix). intros Hc. apply same_at_sym.
  eapply same_at_trans; [by eapply cell_info_canon|exact (cell_info_canon _ _ Hio)|by eapply cell_info_canon|exact Hc|exact Hs].
Qed.
End validated.

(** C14: Validated updates can be applied: when an update passes validation, and the old tree has no Merkle cells and has the hash and depth that the
    update announces, the update is applied without an error. *)
Theorem merkle_update_validated `{Sha256} from update update_from : (forall x, length (sha256 x) = hash_bits) -> collision_free [from; update] ->
  cell_info from <> None -> cell_info update <> None -> get_cell_level from = 0%nat -> merkle_height from = 0%nat ->
  cell_refs update !! 0%nat = Some update_from -> get_hash_at 0 update_from = get_hash from -> get_depth_at 0 update_from = get_depth from ->
  validate update tt = Ret tt tt -> exists r, apply from update tt = Ret r tt.
Proof.
  intros Hlen Hcf Hf Hu Hlf Hmh Huf Eh Ed Hv. unfold validate in Hv. unfold bind at 1, unless_throw in Hv. destruct (Nat.eqb_spec (get_cell_level update) 0) as [Elu|]; [|done].
  unfold ret at 1 in Hv. cbv beta iota in Hv. pose proof (unpack_update_inv update Hu) as Hup. unfold bind at 1 in Hv.
  destruct (unpack_update update tt) as [[uf ut] []|e s|] eqn:Eup; [|done|done]. destruct Hup as [Ht Hrf]. rewrite Hrf in Huf. injection Huf as <-.
  pose proof (collision_free_U _ Hcf) as Hnc. set (U := hashed_by [from; update]) in *.
  assert (good U update) as Gu by (split; [done|apply in_hashed_by; right; by left]). assert (good U from) as Gf by (split; [done|apply in_hashed_by; by left]).
  assert (good U uf) as Guf by (apply (good_ref _ update); [done|rewrite Hrf; by left]).
  assert (good U ut) as Gut by (apply (good_ref _ update); [done|rewrite Hrf; right; by left]).
  destruct (good_info _ _ Gu) as [iu Hiu], (good_info _ _ Gut) as [it Hit], (good_info _ _ Gf) as [io Hio], (good_info _ _ Guf) as [iuf Hiuf].
  assert (get_hash_at 0 from = get_hash_at 0 uf) as Eh0 by (rewrite Eh; by apply (hash_at_level_0 U)).
  assert (old_cell U 0 from) as Ho by (split; [done|lia]).
  assert (same_at 0 io 0 iuf) as Hs.
  { apply same_at_0; [unfold get_hash_at in Eh0; by rewrite Hio, Hiuf in Eh0|]. unfold get_depth_at, get_depth in Ed. rewrite Hio, Hiuf in Ed. rewrite Ed.
    pose proof (cell_info_canon _ _ Hio) as Cf. apply (cn_depth _ Cf). rewrite (cell_level_info _ _ Hio) in Hlf.
    rewrite (proj1 (level_le_apply io 0 (cn_mask _ Cf)) ltac:(lia)). symmetry. apply apply_level_3, Cf. }
  unfold validate_raw, run_fresh in Hv. unfold bind at 1 in Hv. destruct (dfs_from uf 0%nat _) as [[] v1|e v1|] eqn:Efr; [|done..].
  assert (known_from uf v1) as Hkf. { eapply (dfs_from_known uf uf); [constructor| |exact Efr]. split; [|done]. intros h o od Hx. cbn in Hx. by rewrite lookup_empty in Hx. }
  destruct (dfs_to ut 0%nat v1) as [[] v2|e v2|] eqn:Eto; [|done..].
  destruct (dfs_to_done Hlen U Hnc ut 0%nat v1 v2 (S (cell_depth ut)) Gut ltac:(intros c d x dx _ Hx; rewrite (kf_to _ _ Hkf) in Hx; by apply elem_of_empty in Hx) ltac:(lia) Eto) as (Ek & Hcv).
  destruct (dfs_both_done Hlen U Hnc from uf (mkApply ∅ ∅ ∅) (S (cell_depth uf)) io iuf Ho Guf Hmh Hio Hiuf Hs ltac:(intros h k Hx; cbn in Hx; by rewrite lookup_empty in Hx)
    ltac:(intros c d x dx _ Hx; cbn in Hx; by apply elem_of_empty in Hx) ltac:(lia)) as (s1 & Hb & Hkg & Hcb).
  pose proof (dfs_both_safe Hlen U Hnc from uf 0%nat (mkApply ∅ ∅ ∅) Ho Guf ltac:(intros h c Hx; cbn [known_cells_] in Hx; by rewrite lookup_empty in Hx)) as Hsafe. rewrite Hb in Hsafe.
  destruct Hsafe as [Hk Er]. unfold special_type in Ht. rewrite Hiu in Ht.
  pose proof (apply_dfs_ok Hlen U Hnc ut 0%nat s1 it Hit (update_ref_level update iu ut it Hiu Ht Elu ltac:(rewrite Hrf; right; by left) Hit) (gd_in _ _ Gut) Hk
    ltac:(rewrite Er; intros h d r c i Hx; cbn [ready_cells_] in Hx; by rewrite lookup_empty in Hx)) as Ha.
  unfold apply. unfold bind at 1, unless_throw. rewrite Elu, Hlf. cbn [Nat.eqb andb]. unfold ret at 1. cbv beta iota. unfold bind at 1. rewrite Eup.
  unfold apply_raw. unfold bind at 1, unless_throw at 1. rewrite bool_decide_eq_true_2 by done. unfold ret at 1. cbv beta iota. unfold run_fresh. unfold bind at 1, unless_throw.
  rewrite Hlf. cbn [Nat.eqb]. unfold ret at 1. cbv beta iota. unfold bind at 1. rewrite Hb. destruct (apply_dfs ut 0%nat s1) as [r s2|e s2|]; [by exists r| |done].
  destruct Ha as (_ & x & dx & Hre & Hres). exfalso. pose proof (cv_done _ _ _ _ _ _ _ Hcv ut 0%nat x dx (conj eq_refl eq_refl) Hre) as Hch. cbn in Hch. rewrite Ek in Hch.
  rewrite (checked_resolved U uf s1 v1 x dx) in Hres; [done| |done|by eapply good_reach|done].
  intros o od Hro. by apply (cv_done _ _ _ _ _ _ _ Hcb uf 0%nat).
Qed.
