(* ===== verification/MerkleCombine.v ===== *)
(** * The combination of two proofs

    [MerkleProof::combine_fast] of two proofs of the same hash is a proof of that hash, which shows what either
    of them shows.

    Then the theorems on Merkle proofs and updates at a small tree: the strings hashed for a cell are listed, so that
    the absence of collisions is decided by evaluation; a tree of five cells is proved, read back, combined, updated
    and validated, with a sum of blocks in place of the hash function. *)
From stdpp Require Import gmap.
From S2P Require Import Prelude Int256 Cells DataCell CellLevels Merkle MerkleSpec MerkleUpdateSpec.

Section depths.
Context `{Sha256}.

(** The depth of a pruned branch itself is zero. *)
Lemma pruned_top_depth c i infos : parts c i infos -> ci_type i = PrunnedBranch -> info_depth 3 i = 0.
Proof.
  intros P Ht. pose proof (cn_mask _ (pt_canon _ _ _ P)) as Hm. pose proof (pt_check _ _ _ P) as (ds & _ & Hd & Hds & _ & _)%check_and_compute_inv.
  unfold info_depth. rewrite Hds. rewrite Ht in Hd. cbn in Hd. apply check_pruned_depths in Hd as ->. set (g := stored_depth _ _). clearbody g.
  clear -Hm. generalize dependent (ci_mask i). intros m Hm. mask_case Hm; reflexivity.
Qed.
(** A cell of a proof is not deeper above the level of the proof. *)
Lemma self_below c : forall d i, cell_info c = Some i -> apply_level (S d) (ci_mask i) = ci_mask i -> below_depth d i i.
Proof.
  induction c as [sp bits refs IH] using Cell_ind'. intros d i Hi Hd. set (c := DataCell sp bits refs) in *. destruct (cell_parts _ _ Hi) as [infos P].
  pose proof (pt_canon _ _ _ P) as Hc. destruct (decide (ci_type i = PrunnedBranch)) as [Ep|Ep]; intros l.
  - destruct (Nat.le_gt_cases l d); [by rewrite Nat.min_l|]. rewrite (cn_depth _ Hc l 3), (pruned_top_depth _ _ _ P Ep); [apply Hc|].
    rewrite apply_level_3 by apply Hc. rewrite <- Hd at 2. rewrite <- Hd. rewrite !apply_level_twice by apply Hc. f_equal. lia.
  - rewrite !(info_depth_refs _ _ _ _ _ (pt_check _ _ _ P)) by (done || apply Hc || by eapply pt_canons). apply refs_depth_below.
    pose proof (pt_ref_level _ _ _ P _ Hd) as Hl. pose proof (pt_refs _ _ _ P) as Hr. cbn [c cell_refs] in Hr. rewrite child_level_S in Hl. clear -IH Hr Hl.
    induction Hr as [|r x refs infos Hx Hr IHr]; constructor; [|apply IHr]; inversion IH; inversion Hl; subst; auto.
Qed.
Lemma refs_depth_max t l xs ys zs : Forall3 (fun x y z => info_depth (child_level t l) z <= Z.max (info_depth (child_level t l) x) (info_depth (child_level t l) y)) xs ys zs ->
  refs_depth_at t zs l <= Z.max (refs_depth_at t xs l) (refs_depth_at t ys l).
Proof. unfold refs_depth_at. induction 1; cbn [map foldr]; lia. Qed.
End depths.

Section combine.
Context `{Sha256}.
Hypothesis sha_len : forall x, length (sha256 x) = hash_bits.
Context (U : list bool -> Prop).
Hypothesis no_collision : forall x y, U x -> U y -> sha256 x = sha256 y -> x = y.
Notation good := (good U).
Notation read c := (read_path (virtualize 0 (plain c))).

(** A part of a proof: a tree without Merkle cells, of level at most 1 *)
Record piece (c : Cell) (i : CellInfo) : Prop := mkPiece {
  pc_good : good c;
  pc_info : cell_info c = Some i;
  pc_merkle : merkle_height c = 0%nat;
  pc_level : apply_level 1 (ci_mask i) = ci_mask i
}.
Lemma piece_type c i : piece c i -> child_level (ci_type i) 0 = 0%nat /\ child_level (ci_type i) 1 = 1%nat.
Proof. intros [_ Hi Hm _]. unfold child_level. by rewrite (no_merkle_type _ _ Hi Hm). Qed.
Lemma piece_ref c i k r : piece c i -> cell_refs c !! k = Some r -> exists ir, piece r ir.
Proof.
  intros Hp Hr. destruct (piece_type _ _ Hp) as [_ E1]. destruct Hp as [Hg Hi Hm Hl]. pose proof (list_elem_of_lookup_2 _ _ _ Hr) as Hin.
  destruct (cell_parts _ _ Hi) as [infos P]. destruct (Forall2_lookup_l _ _ _ _ _ (pt_refs _ _ _ P) Hr) as (ir & Hx & Hir). exists ir. split; [by eapply good_ref|done| |].
  - exact (no_merkle_ref c i r Hi Hm Hin).
  - pose proof (pt_ref_level _ _ _ P _ Hl) as Hf. rewrite E1 in Hf. by eapply Forall_lookup_1 in Hf.
Qed.
Lemma piece_agrees a ia b ib : piece a ia -> piece b ib -> same_at 0 ia 0 ib -> agrees 0 ia ib.
Proof.
  intros Pa Pb Hs. split; [done| |apply Pb]. intros l. rewrite Nat.min_0_r. rewrite (sa_depth _ _ _ _ Hs 0%nat) by lia.
  pose proof (self_below b 0 ib (pc_info _ _ Pb) (pc_level _ _ Pb) l) as Hb. by rewrite Nat.min_0_r in Hb.
Qed.

(** [r] combines [a] and [b]. *)
Record combined (a b r : Cell) (ia ib ir : CellInfo) : Prop := mkCombined {
  cm_info : cell_info r = Some ir;
  cm_hash : info_hash 0 ir = info_hash 0 ia;
  cm_agrees : info_depth 0 ia = info_depth 0 ib -> agrees 0 ia ir;
  cm_level : apply_level 1 (ci_mask ir) = ci_mask ir;
  cm_depth l : info_depth l ir <= Z.max (info_depth l ia) (info_depth l ib);
  cm_read path res : read a path = Some res \/ read b path = Some res <-> read r path = Some res
}.
Lemma read_hidden c i path : cell_info c = Some i -> loadable 0 c = false -> read c path = None.
Proof. intros Hi Hl. destruct path; cbn [read_path]; by rewrite (load_spec _ _ _ Hi), Hl. Qed.
Lemma combined_left a b ia ib : piece a ia -> (forall path res, read b path = Some res -> read a path = Some res) -> combined a b a ia ib ia.
Proof.
  intros Pa Hr. split; [apply Pa|done|intros _; by apply (piece_agrees a ia a ia)|apply Pa|lia|]. intros path res. split; [intros [?|?]; [done|by apply Hr]|by left].
Qed.
Lemma combined_right a b ia ib : piece a ia -> piece b ib -> info_hash 0 ia = info_hash 0 ib ->
  (forall path res, read a path = Some res -> read b path = Some res) -> combined a b b ia ib ib.
Proof.
  intros Pa Pb Eh Hr. split; [apply Pb|done| |apply Pb|lia|].
  - intros Ed. apply (piece_agrees a ia b ib); [done..|by apply same_at_0].
  - intros path res. split; [intros [?|?]; [by apply Hr|done]|by right].
Qed.

(** *** Two cells that are not pruned *)

Definition joined (x y z : Cell) : Prop := exists ix iy iz, cell_info x = Some ix /\ cell_info y = Some iy /\ combined x y z ix iy iz.
Notation infos_of := (Forall2 (fun r x => cell_info r = Some x)).
Notation same_zero := (fun x y => info_hash 0 x = info_hash 0 y /\ info_depth 0 x = info_depth 0 y).
Lemma joined_infos ra rb rr xs ys : Forall3 joined ra rb rr -> infos_of ra xs -> infos_of rb ys -> Forall2 same_zero xs ys ->
  exists zs, infos_of rr zs /\ Forall2 (agrees 0) xs zs /\ forall l, Forall3 (fun x y z => info_depth l z <= Z.max (info_depth l x) (info_depth l y)) xs ys zs.
Proof.
  intros Hj. revert xs ys. induction Hj as [|x y z ra rb rr (ix & iy & iz & Hx & Hy & Hc) Hj IH]; intros xs ys Ha Hb Hs.
  - inversion Ha. inversion Hb. exists []. split_and!; [constructor..|]. intros l. constructor.
  - inversion Ha as [|? ix' ? xs' Hx' Ha']. inversion Hb as [|? iy' ? ys' Hy' Hb']. subst. inversion Hs as [|? ? ? ? [_ Ed] Hs']. subst.
    assert (ix' = ix) as -> by congruence. assert (iy' = iy) as -> by congruence. destruct (IH _ _ Ha' Hb' Hs') as (zs & ? & ? & Hd).
    exists (iz :: zs). split_and!; [constructor; [apply Hc|done]|constructor; [by apply (cm_agrees _ _ _ _ _ _ Hc)|done]|]. intros l. constructor; [apply Hc|done].
Qed.
Lemma combined_read a b r refs k path res (Hj : Forall3 joined (cell_refs a) (cell_refs b) refs) : r = DataCell (cell_special a) (cell_bits a) refs ->
  let next c := match map (fun x => virtualize 0 (plain x)) (cell_refs c) !! k with Some v => read_path v path | None => None end in
  next a = Some res \/ next b = Some res <-> next r = Some res.
Proof.
  intros ->. cbv zeta. change (@map Cell VirtualCell) with (@fmap list _ Cell VirtualCell). cbn [cell_refs]. rewrite !list_lookup_fmap.
  destruct (cell_refs a !! k) as [x|] eqn:Hx.
  - destruct (Forall3_lookup_l _ _ _ _ _ _ Hj Hx) as (y & z & Hy & Hz & ix & iy & iz & _ & _ & Hc). rewrite Hy, Hz.
    by apply (cm_read _ _ _ _ _ _ Hc).
  - apply lookup_ge_None in Hx. pose proof (Forall3_length_lm _ _ _ _ Hj). pose proof (Forall3_length_lr _ _ _ _ Hj).
    rewrite !lookup_ge_None_2 by lia. cbn. intuition congruence.
Qed.
Lemma combined_node a b ia ib refs : piece a ia -> piece b ib -> is_pruned_branch a = false -> is_pruned_branch b = false ->
  info_hash 0 ia = info_hash 0 ib -> Forall3 joined (cell_refs a) (cell_refs b) refs ->
  exists r ir, create (cell_bits a) refs (cell_special a) = Some r /\ combined a b r ia ib ir.
Proof using sha_len no_collision.
  intros Pa Pb Na Nb Eh Hj. destruct (piece_type _ _ Pa) as [E0 E1]. destruct Pa as [[_ Ua] Ha _ La], Pb as [[_ Ub] Hb _ Lb].
  destruct (cell_parts _ _ Ha) as [xs PA], (cell_parts _ _ Hb) as [ys PB].
  assert (loadable 0 a = true) as LA by (unfold loadable; by rewrite Na). assert (loadable 0 b = true) as LB by (unfold loadable; by rewrite Nb).
  destruct (load_inj sha_len U no_collision _ _ _ _ _ _ 0 0 PA PB LA LB Ua Ub Eh) as (Es & Eb & Et & Hs). rewrite <- Et, E0 in Hs.
  destruct (joined_infos _ _ _ _ _ Hj (pt_refs _ _ _ PA) (pt_refs _ _ _ PB) Hs) as (zs & Hz & Hag & Hmax).
  assert (ci_type ia <> PrunnedBranch) as Ntp. { rewrite (pruned_branch_type _ _ Ha) in Na. by apply bool_decide_eq_false in Na. }
  assert (cell_info (DataCell (cell_special a) (cell_bits a) (cell_refs a)) = Some ia) as Ha' by (by destruct a).
  rewrite <- E0 in Hag. destruct (agrees_parent _ _ _ refs ia xs zs 0 Ha' Ntp (pt_refs _ _ _ PA) Hz Hag) as (ir & Hir & Ha0). rewrite E0 in Hag.
  set (r := DataCell (cell_special a) (cell_bits a) refs) in *. exists r, ir. split; [unfold create; fold r; by rewrite Hir|].
  assert (ci_type ir = ci_type ia) as Etr by (by eapply (type_eq r a)). destruct (cell_parts _ _ Hir) as [zs' PR].
  assert (zs' = zs) as -> by (eapply Forall2_unique; [apply PR|exact Hz|]; intros; congruence).
  assert (loadable 0 r = true) as LR by (unfold loadable; rewrite (pruned_branch_type _ _ Hir), bool_decide_eq_false_2 by congruence; done).
  split; [done|by rewrite (sa_hash _ _ _ _ (ag_same _ _ _ Ha0) 0%nat) by lia|done|apply Ha0| |].
  - intros l. rewrite (info_depth_refs _ _ _ _ _ (pt_check _ _ _ PR)), (info_depth_refs _ _ _ _ _ (pt_check _ _ _ PA)), (info_depth_refs _ _ _ _ _ (pt_check _ _ _ PB))
      by first [congruence|by eapply pt_canons|apply (pt_canon _ _ _ PR)|apply (pt_canon _ _ _ PA)|apply (pt_canon _ _ _ PB)].
    rewrite Etr, <- Et. apply refs_depth_max, Hmax.
  - intros [|k path] res; cbn [read_path] in *; rewrite (load_spec _ _ _ Ha), (load_spec _ _ _ Hb), LA, LB, (load_spec _ _ _ Hir), LR.
    + rewrite <- Es, <- Eb. cbn [r cell_special cell_bits]. intuition.
    + rewrite Etr, <- Et, E0. by apply (combined_read a b r refs k path res Hj).
Qed.

(** *** The search *)

Definition merge_memo (m : gmap Key2 Cell) : Prop := forall ha hb r a b ia ib,
  m !! (ha, hb, 0%nat) = Some r -> piece a ia -> piece b ib -> get_hash a = ha -> get_hash b = hb -> exists ir, combined a b r ia ib ir.
Lemma memo_insert m a b r ia ib ir : merge_memo m -> piece a ia -> piece b ib -> combined a b r ia ib ir ->
  merge_memo (insert (get_hash a, get_hash b, 0%nat) r m).
Proof using sha_len no_collision.
  intros Hm Pa Pb Hc ha hb r' a' b' ia' ib' Hl Pa' Pb' Ea Eb. apply lookup_insert_Some in Hl as [[[= <- <-] <-]|[_ Hl]]; [|by eapply Hm].
  assert (a' = a) as -> by (apply (good_hash_eq sha_len U no_collision); [apply Pa'|apply Pa|done]).
  assert (b' = b) as -> by (apply (good_hash_eq sha_len U no_collision); [apply Pb'|apply Pb|done]).
  destruct Pa as [_ Ha _ _], Pa' as [_ Ha' _ _], Pb as [_ Hb _ _], Pb' as [_ Hb' _ _].
  assert (ia' = ia) as -> by congruence. assert (ib' = ib) as -> by congruence. by exists ir.
Qed.

Definition matched (x y : Cell) : Prop := exists ix iy, piece x ix /\ piece y iy /\ info_hash 0 ix = info_hash 0 iy.
Definition merge_result (a : Cell) : Prop := forall b m ia ib, piece a ia -> piece b ib -> info_hash 0 ia = info_hash 0 ib -> merge_memo m ->
  match merge a b 0 m with
  | Ret r m' => (exists ir, combined a b r ia ib ir) /\ merge_memo m'
  | _ => False
  end.
Lemma merge_refs refs_b refs : Forall merge_result refs -> forall k m, Forall2 matched refs (drop k refs_b) -> merge_memo m ->
  match for_refs (fun i r => r_b <- of_option (refs_b !! i) ;; merge r r_b 0) k refs m with
  | Ret rr m' => Forall3 joined refs (drop k refs_b) rr /\ merge_memo m'
  | _ => False
  end.
Proof.
  induction 1 as [|a refs Ha _ IH]; intros k m Hf Hm; inversion Hf as [|? b ? rest (ia & ib & Pa & Pb & Eh) Hf' E1 E2]; subst.
  - cbn. split; [constructor|done].
  - symmetry in E2. assert (refs_b !! k = Some b) as Hb. { replace k with (k + 0)%nat by lia. by rewrite <- lookup_drop, E2. }
    assert (drop (S k) refs_b = rest) as Ed. { replace (S k) with (k + 1)%nat by lia. by rewrite <- drop_drop, E2. }
    cbn [for_refs]. unfold bind at 1 2, of_option. rewrite Hb. unfold ret at 1. cbv beta iota. specialize (Ha b m ia ib Pa Pb Eh Hm).
    destruct (merge a b 0 m) as [r m1|e m1|]; [|done..]. destruct Ha as [[ir Hc] Hm1]. rewrite <- Ed in Hf'. specialize (IH (S k) m1 Hf' Hm1).
    unfold bind. destruct (for_refs _ (S k) refs m1) as [rr m2|e m2|]; [|done..]. destruct IH as [Hj Hm2]. split; [|done]. rewrite Ed in Hj.
    constructor; [|done]. exists ia, ib, ir. split_and!; [apply Pa|apply Pb|done].
Qed.
Lemma piece_level_0 c i : piece c i -> is_pruned_branch c = true -> get_cell_level c <> 0%nat -> loadable 0 c = false.
Proof. intros _ Hp Hl. unfold loadable. rewrite Hp. destruct (Nat.leb_spec (get_cell_level c) 0); [lia|done]. Qed.
Lemma piece_refs a ia : piece a ia -> is_pruned_branch a = false -> get_cell_level a <> 0%nat -> cell_refs a <> [].
Proof.
  intros [_ Hi _ _] Hn Hl E. destruct (cell_parts _ _ Hi) as [infos P]. destruct (pt_type _ _ _ P) as (ds & _ & Hc).
  rewrite (pruned_branch_type _ _ Hi) in Hn. apply bool_decide_eq_false in Hn. pose proof (check_mask_union _ _ _ _ _ Hn Hc) as Hm.
  pose proof (pt_refs _ _ _ P) as Hr. rewrite E in Hr. inversion Hr. subst infos. cbn in Hm. rewrite (cell_level_info _ _ Hi), Hm in Hl. done.
Qed.
Lemma node_matched a b ia ib : piece a ia -> piece b ib -> is_pruned_branch a = false -> is_pruned_branch b = false ->
  info_hash 0 ia = info_hash 0 ib -> Forall2 matched (cell_refs a) (cell_refs b).
Proof using sha_len no_collision.
  intros Pa Pb Na Nb Eh. destruct (piece_type _ _ Pa) as [E0 _]. pose proof (pc_info _ _ Pa) as Ha. pose proof (pc_info _ _ Pb) as Hb.
  destruct (cell_parts _ _ Ha) as [xs PA], (cell_parts _ _ Hb) as [ys PB].
  destruct (load_inj sha_len U no_collision _ _ _ _ _ _ 0 0 PA PB ltac:(unfold loadable; by rewrite Na) ltac:(unfold loadable; by rewrite Nb)
    (gd_in _ _ (pc_good _ _ Pa)) (gd_in _ _ (pc_good _ _ Pb)) Eh) as (_ & _ & Et & Hs). rewrite <- Et, E0 in Hs.
  apply Forall2_same_length_lookup. split.
  { rewrite (list.Forall2_length _ _ _ (pt_refs _ _ _ PA)), (list.Forall2_length _ _ _ (pt_refs _ _ _ PB)). by eapply list.Forall2_length. }
  intros k x y Hx Hy. destruct (piece_ref _ _ _ _ Pa Hx) as [ix Px], (piece_ref _ _ _ _ Pb Hy) as [iy Py]. exists ix, iy. split_and!; [done..|].
  destruct (Forall2_lookup_l _ _ _ _ _ (pt_refs _ _ _ PA) Hx) as (x' & Hx' & Ex). destruct (Forall2_lookup_l _ _ _ _ _ (pt_refs _ _ _ PB) Hy) as (y' & Hy' & Ey).
  destruct (Forall2_lookup_lr _ _ _ _ _ _ Hs Hx' Hy') as [E _]. rewrite (pc_info _ _ Px) in Ex. rewrite (pc_info _ _ Py) in Ey. congruence.
Qed.
Lemma merge_ok a : merge_result a.
Proof using sha_len no_collision.
  induction a as [sp bits refs IH] using Cell_ind'. intros b m ia ib Pa Pb Eh Hm. set (a := DataCell sp bits refs) in *.
  pose proof (pc_info _ _ Pa) as Ha. pose proof (pc_info _ _ Pb) as Hb. unfold a at 1. cbn [merge]. fold a.
  case_bool_decide as Eg.
  { assert (a = b) as <- by (apply (good_hash_eq sha_len U no_collision); [apply Pa|apply Pb|done]). split; [|done]. exists ia. by apply combined_left. }
  destruct (Nat.eqb_spec (get_cell_level a) 0) as [La|La].
  { split; [|done]. exists ia. apply combined_left; [done|]. intros path res. apply (read_sound sha_len U no_collision path b a ib ia); [done..|apply Pb|apply Pa|lia|done]. }
  destruct (Nat.eqb_spec (get_cell_level b) 0) as [Lb|Lb].
  { split; [|done]. exists ib. apply combined_right; [done..|]. intros path res. apply (read_sound sha_len U no_collision path a b ia ib); [done..|apply Pa|apply Pb|lia|done]. }
  destruct (is_pruned_branch a) eqn:Na.
  { split; [|done]. exists ib. apply combined_right; [done..|]. intros path res Hr. by rewrite (read_hidden a ia path Ha (piece_level_0 _ _ Pa Na La)) in Hr. }
  destruct (is_pruned_branch b) eqn:Nb.
  { split; [|done]. exists ia. apply combined_left; [done..|]. intros path res Hr. by rewrite (read_hidden b ib path Hb (piece_level_0 _ _ Pb Nb Lb)) in Hr. }
  unfold bind at 1, gets. cbv beta iota. destruct (m !! (get_hash a, get_hash b, 0%nat)) as [r|] eqn:El.
  { split; [|done]. by eapply Hm. }
  pose proof (piece_refs _ _ Pa Na La) as Hne. unfold bind at 1, assert_ub. assert (negb (length refs =? 0)%nat = true) as ->. { cbn in Hne. by destruct refs. }
  unfold ret at 1. cbv beta iota. rewrite (child_depth_type _ _ _ Ha), (proj1 (piece_type _ _ Pa)). unfold bind at 1.
  pose proof (merge_refs (cell_refs b) refs IH 0 m (node_matched a b ia ib Pa Pb Na Nb Eh) Hm) as Hr.
  destruct (for_refs _ 0 refs m) as [rr m1|e m1|]; [|done..]. destruct Hr as [Hj Hm1].
  destruct (combined_node a b ia ib rr Pa Pb Na Nb Eh Hj) as (r & ir & Hcr & Hc). cbn [cell_bits cell_special a] in Hcr.
  unfold create_cell. rewrite Hcr. unfold bind, ret, modify. split; [by exists ir|]. by eapply memo_insert.
Qed.
End combine.

(** ** Two proofs *)

Lemma proof_ref `{Sha256} p a : cell_info p <> None -> unpack_proof p tt = Ret a tt -> a ∈ cell_refs p /\ exists ia, cell_info a = Some ia /\
  apply_level 1 (ci_mask ia) = ci_mask ia /\ forall l, info_depth (S l) ia < Z.of_nat max_depth.
Proof.
  intros Hp Hu. unfold unpack_proof, bind, unless_throw in Hu. destruct (Nat.eqb_spec (get_cell_level p) 0) as [Hl|]; [|done]. cbn in Hu.
  case_bool_decide as Ht; [|done]. cbn in Hu. destruct (cell_refs p !! 0%nat) as [r|] eqn:Er; [|done]. injection Hu as ->.
  pose proof (list_elem_of_lookup_2 _ _ _ Er) as Hin. split; [done|]. destruct (cell_info p) as [ip|] eqn:Hip; [|done]. destruct (cell_parts _ _ Hip) as [infos P].
  destruct (Forall2_lookup_l _ _ _ _ _ (pt_refs _ _ _ P) Er) as (ia & Hia & Ha). exists ia. split; [done|]. unfold special_type in Ht. rewrite Hip in Ht. split.
  - apply level_le_apply; [by eapply cell_info_canon|]. rewrite <- (cell_level_info _ _ Ha). pose proof (ref_level_le p ip 0 a Hip ltac:(lia) Hin) as Hle. by rewrite Ht in Hle.
  - intros l. pose proof (valid_depth ip l (ex_intro _ p Hip)) as Hd. rewrite (info_depth_refs _ _ _ _ _ (pt_check _ _ _ P)) in Hd
      by first [congruence|by eapply pt_canons|apply (pt_canon _ _ _ P)]. rewrite Ht in Hd. destruct infos as [|x infos]; [done|]. injection Hia as ->. cbn in Hd. lia.
Qed.

(** C15: Combination of Merkle proofs: two proofs of the same hash, of trees without Merkle cells, combine into a
    valid proof of that hash from which exactly those cells can be read that can be read from one of them, unless two strings hashed for them collide;
    no check fails on the way. *)
Theorem merkle_proofs_combined `{Sha256} p q a b : (forall x, length (sha256 x) = hash_bits) -> collision_free [p; q] ->
  cell_info p <> None -> cell_info q <> None -> unpack_proof p tt = Ret a tt -> unpack_proof q tt = Ret b tt ->
  merkle_height a = 0%nat -> merkle_height b = 0%nat -> get_hash_at 0 a = get_hash_at 0 b ->
  exists r v, combine_fast p q tt = Ret r tt /\ cell_info r <> None /\ virtualize_proof r tt = Ret v tt /\ virtual_hash v = get_hash_at 0 a /\
    forall path res, read_path v path = Some res <->
      read_path (virtualize 0 (plain a)) path = Some res \/ read_path (virtualize 0 (plain b)) path = Some res.
Proof.
  intros Hlen Hcf Hp Hq Ea Eb Ma Mb Eh. destruct (proof_ref _ _ Hp Ea) as (Ina & ia & Ha & La & Da), (proof_ref _ _ Hq Eb) as (Inb & ib & Hb & Lb & Db).
  pose proof (collision_free_U _ Hcf) as Hnc. set (U := hashed_by [p; q]) in *.
  assert (piece U a ia) as Pa. { split; [|done..]. split; [congruence|]. apply (in_U_refs _ p); [apply in_hashed_by; by left|done]. }
  assert (piece U b ib) as Pb. { split; [|done..]. split; [congruence|]. apply (in_U_refs _ q); [apply in_hashed_by; right; by left|done]. }
  assert (info_hash 0 ia = info_hash 0 ib) as E by (unfold get_hash_at in Eh; by rewrite Ha, Hb in Eh).
  pose proof (merge_ok Hlen U Hnc a b ∅ ia ib Pa Pb E ltac:(intros ? ? ? ? ? ? ? Hx; by rewrite lookup_empty in Hx)) as Hm.
  unfold combine_fast, combine_fast_raw, bind, run_fresh, unless_throw. rewrite Ea, Eb, (bool_decide_eq_true_2 _ Eh). unfold ret at 1. cbv beta iota.
  destruct (merge a b 0%nat ∅) as [r m|e m|]; [|done..]. destruct Hm as [[ir Hc] _].
  destruct (merkle_proof_cell Hlen r ir tt (cm_info _ _ _ _ _ _ Hc) (cm_level _ _ _ _ _ _ Hc)
    ltac:(intros l; pose proof (cm_depth _ _ _ _ _ _ Hc (S l)); specialize (Da l); specialize (Db l); lia)) as (pr & ip & -> & Hip & Ht & Hmk & Hrf).
  exists pr, (virtualize 0 (plain r)). split_and!; [done|congruence| | |].
  - unfold virtualize_proof, unpack_proof, bind, unless_throw. rewrite (cell_level_info _ _ Hip), Hmk. unfold special_type. by rewrite Hip, Ht, Hrf.
  - rewrite (virtual_hash_0 _ _ (cm_info _ _ _ _ _ _ Hc)), (cm_hash _ _ _ _ _ _ Hc). unfold get_hash_at. by rewrite Ha.
  - intros path res. symmetry. apply (cm_read _ _ _ _ _ _ Hc).
Qed.

(** ** The strings that are hashed for a cell *)

Section listed.
Context `{Sha256}.
Fixpoint hashed_list (c : Cell) : list (list bool) :=
  let 'DataCell sp bits refs := c in
  match mapM id (map cell_info refs) with
  | Some infos => match check_and_compute sp bits infos with Some i => hash_queries (ci_type i) sp (ci_mask i) bits infos | None => [] end
  | None => []
  end ++ concat (map hashed_list refs).
Lemma hashed_listed c x : hashed c x -> x ∈ hashed_list c.
Proof.
  induction 1 as [sp bits refs infos i x Hr Hc Hx|sp bits refs r x Hr _ IH]; cbn [hashed_list]; apply elem_of_app.
  - left. assert (mapM id (map cell_info refs) = Some infos) as ->; [|by rewrite Hc].
    apply mapM_Some. rewrite Forall2_fmap_l. by eapply list.Forall2_impl.
  - right. apply list_elem_of_In, in_concat. exists (hashed_list r). split; [by apply in_map, list_elem_of_In|by apply list_elem_of_In].
Qed.

Fixpoint separated_from (h x : list bool) (l : list (list bool * list bool)) : bool :=
  match l with
  | [] => true
  | (h', y) :: l' => (negb (bool_decide (h = h')) || bool_decide (x = y)) && separated_from h x l'
  end.
Fixpoint separated (l : list (list bool * list bool)) : bool :=
  match l with
  | [] => true
  | (h, x) :: l' => separated_from h x l' && separated l'
  end.
Lemma separated_from_in h x y l : separated_from h x l = true -> (h, y) ∈ l -> x = y.
Proof.
  induction l as [|[h' y'] l IH]; cbn; intros Hs Hin; [by apply elem_of_nil in Hin|]. apply andb_true_iff in Hs as [H1 H2].
  apply elem_of_cons in Hin as [[= <- <-]|Hin]; [|by apply IH]. rewrite bool_decide_eq_true_2 in H1 by done. by apply bool_decide_eq_true in H1.
Qed.
Lemma separated_in l h x y : separated l = true -> (h, x) ∈ l -> (h, y) ∈ l -> x = y.
Proof.
  induction l as [|[h' z] l IH]; cbn; intros Hs Hx Hy; [by apply elem_of_nil in Hx|]. apply andb_true_iff in Hs as [H1 H2].
  apply elem_of_cons in Hx as [[= <- <-]|Hx]; apply elem_of_cons in Hy as [Ey|Hy].
  - by injection Ey.
  - by eapply separated_from_in.
  - injection Ey as <- <-. symmetry. by eapply separated_from_in.
  - by apply IH.
Qed.
Definition hash_pairs (cs : list Cell) : list (list bool * list bool) := map (fun x => (sha256 x, x)) (concat (map hashed_list cs)).
Lemma separated_free cs : separated (hash_pairs cs) = true -> collision_free cs.
Proof.
  intros Hs c c' x y Hc Hc' Hx Hy E.
  assert (forall c x, c ∈ cs -> hashed c x -> (sha256 x, x) ∈ hash_pairs cs) as Hin.
  { intros c0 x0 H0 Hx0. apply list_elem_of_In, (in_map (fun x => (sha256 x, x))), in_concat. exists (hashed_list c0).
    split; [by apply in_map, list_elem_of_In|by apply list_elem_of_In, hashed_listed]. }
  apply (separated_in _ (sha256 x) x y Hs); [exact (Hin c x Hc Hx)|]. rewrite E. exact (Hin c' y Hc' Hy).
Qed.
End listed.

(** ** The tree *)

Fixpoint mix (n : nat) (acc x : list bool) : list bool :=
  match n with
  | O => acc
  | S n' => mix n' (zip_with xorb (drop 7 acc ++ take 7 acc) (take hash_bits (x ++ replicate hash_bits false))) (drop hash_bits x)
  end.
#[local] Instance fold_hash : Sha256 := fun x => mix (S (length x / hash_bits)) (replicate hash_bits false) (x ++ [true]).
Lemma fold_hash_length x : length (sha256 x) = hash_bits.
Proof.
  assert (forall n acc y, length acc = hash_bits -> length (mix n acc y) = hash_bits) as Hm; [|by apply Hm].
  induction n as [|n IH]; intros acc y Ha; [done|]. apply IH. rewrite length_zip_with, length_app, length_drop, !length_take, length_app, length_replicate, Ha.
  unfold hash_bits. lia.
Qed.

Definition leaf (b : bool) : Cell := DataCell false [b] [].
Definition branch (n : nat) (b : bool) : Cell := DataCell false (replicate n true) [leaf b].
Definition tree (b : bool) : Cell := DataCell false [] [branch 3 b; branch 2 true].
Definition prune_bits (n : nat) (c : Cell) : bool := (length (cell_bits c) =? n)%nat.
Notation prune_branch := (prune_bits 2).
Definition cell_of {S} (r : res S Cell) : Cell := match r with Ret c _ => c | _ => leaf false end.
Definition tree_proof (n : nat) : Cell := cell_of (generate (prune_bits n) (tree false) tt).
Definition tree_update : Cell := cell_of (create_merkle_update (cell_of (generate_raw prune_branch (tree false) tt)) (cell_of (generate_raw prune_branch (tree true) tt)) tt).

Lemma merkle_proof_sound_witness :
  exists v, virtualize_proof (tree_proof 2) tt = Ret v tt /\ read_path v [1%nat] = None /\ read_path (plain (tree false)) [0%nat; 0%nat] = Some (false, [false]).
Proof.
  destruct (virtualize_proof (tree_proof 2) tt) as [v s|e s|] eqn:Ev; [destruct s|vm_compute in Ev; discriminate..].
  exists v. assert (v = virtualize 0 (plain (cell_of (generate_raw prune_branch (tree false) tt)))) as -> by (vm_compute in Ev |- *; congruence).
  split; [done|]. split; [vm_compute; reflexivity|].
  apply (merkle_proof_sound (tree_proof 2) (tree false) _ [0%nat; 0%nat] (false, [false]) fold_hash_length) with (4 := Ev).
  - apply separated_free. vm_compute. reflexivity.
  - vm_compute. discriminate.
  - vm_compute. discriminate.
  - vm_compute. reflexivity.
  - vm_compute. reflexivity.
Defined.

Lemma merkle_proof_generated_witness :
  cell_info (tree_proof 2) <> None /\ exists v, virtualize_proof (tree_proof 2) tt = Ret v tt /\ virtual_hash v = get_hash (tree false) /\
    read_path v [0%nat; 0%nat] = Some (false, [false]).
Proof.
  assert (generate prune_branch (tree false) tt = Ret (tree_proof 2) tt) as Eg by (vm_compute; reflexivity).
  pose proof (merkle_proof_generated prune_branch (tree false) fold_hash_length) as Hg. rewrite Eg in Hg.
  destruct Hg as (_ & Hv & v & Ev & Eh & Hs).
  - apply separated_free. vm_compute. reflexivity.
  - vm_compute. discriminate.
  - vm_compute. reflexivity.
  - vm_compute. reflexivity.
  - split; [exact Hv|]. exists v. split; [exact Ev|]. split; [exact Eh|]. rewrite Hs by (vm_compute; reflexivity). vm_compute. reflexivity.
Defined.

Lemma tree_update_free : collision_free [tree false; tree_update].
Proof. apply separated_free. vm_compute. reflexivity. Qed.

Lemma merkle_update_applied_witness : exists r, apply (tree false) tree_update tt = Ret r tt /\ get_hash r = get_hash (tree true).
Proof.
  pose proof (merkle_update_applied (tree false) tree_update fold_hash_length tree_update_free) as Ha.
  assert (apply (tree false) tree_update tt = Ret (tree true) tt) as Er by (vm_compute; reflexivity). rewrite Er in Ha.
  exists (tree true). split; [exact Er|]. destruct Ha as (ut & Eu & _ & _ & Eh & _); [vm_compute; discriminate..|]. rewrite Eh.
  assert (ut = cell_of (generate_raw prune_branch (tree true) tt)) as -> by (vm_compute in Eu |- *; congruence). vm_compute. reflexivity.
Defined.

Lemma merkle_update_validated_witness : validate tree_update tt = Ret tt tt /\ exists r, apply (tree false) tree_update tt = Ret r tt.
Proof.
  assert (validate tree_update tt = Ret tt tt) as Hv by (vm_compute; reflexivity). split; [exact Hv|].
  assert (cell_refs tree_update !! 0%nat = Some (cell_of (generate_raw prune_branch (tree false) tt))) as Hr by (vm_compute; reflexivity).
  refine (merkle_update_validated (tree false) tree_update _ fold_hash_length tree_update_free _ _ _ _ Hr _ _ Hv).
  - vm_compute. discriminate.
  - vm_compute. discriminate.
  - vm_compute. reflexivity.
  - vm_compute. reflexivity.
  - vm_compute. reflexivity.
  - vm_compute. reflexivity.
Defined.

(** The two proofs hide different branches; the combination shows both. *)
Lemma merkle_proofs_combined_witness : exists r v, combine_fast (tree_proof 2) (tree_proof 3) tt = Ret r tt /\ virtualize_proof r tt = Ret v tt /\
  read_path v [0%nat; 0%nat] = Some (false, [false]) /\ read_path v [1%nat; 0%nat] = Some (false, [true]).
Proof.
  assert (collision_free [tree_proof 2; tree_proof 3]) as Hcf by (apply separated_free; vm_compute; reflexivity).
  assert (unpack_proof (tree_proof 2) tt = Ret (cell_of (generate_raw (prune_bits 2) (tree false) tt)) tt) as Ea by (vm_compute; reflexivity).
  assert (unpack_proof (tree_proof 3) tt = Ret (cell_of (generate_raw (prune_bits 3) (tree false) tt)) tt) as Eb by (vm_compute; reflexivity).
  assert (cell_info (tree_proof 2) <> None /\ cell_info (tree_proof 3) <> None) as [Hp Hq] by (vm_compute; split; discriminate).
  edestruct (merkle_proofs_combined (tree_proof 2) (tree_proof 3) _ _ fold_hash_length Hcf Hp Hq Ea Eb) as (r & v & Hr & _ & Hv & _ & Hs).
  - vm_compute. reflexivity.
  - vm_compute. reflexivity.
  - vm_compute. reflexivity.
  - exists r, v. split; [exact Hr|]. split; [exact Hv|]. split; apply Hs; [left|right]; vm_compute; reflexivity.
Defined.
