(* ===== verification/Dict.v ===== *)
(** * Dictionaries (crypto/vm/dict.h, dict.cpp)

    A dictionary with [n]-bit keys is a Patricia tree of cells.  A node stores a label
    (HmLabel) and then either a value, when the label completes the key, or two
    references to the subtrees for the next bit of the key.  Keys are bit strings
    ([td::ConstBitPtr] with the number of bits that the code passes along); the
    recursion of the code on the remaining key length is bounded by [fuel], of which
    every caller has one unit more than there are key bits. *)
From S2P Require Import Prelude Int256 Cells DataCell.

(** ** Access to cells

    Loading and creating a cell is reported to the machine that runs, if there is one
    ([VmStateInterface::get()]): a class, with an instance for code outside of the
    machine here and one for the machine in DictOps.v. *)
Class CellIO (S : Type) := {
  load_cell_slice_ref : Cell -> M S CellSlice;
  register_create : M S unit
}.

(** Outside of the machine special cells are refused and nothing is counted. *)
Definition no_vm_load (c : Cell) : M unit CellSlice :=
  if cell_special c then throw (VmError Exc_cell_und) else ret (slice_of_cell c).
#[export] Instance no_vm : CellIO unit := { load_cell_slice_ref := no_vm_load; register_create := ret tt }.

Inductive SetMode : Type := Set_ | Replace | Add.

(** [max_key_bits] *)
Definition max_key_bits : nat := 1023.

(** [td::bitstring::bits_memcmp]: the length of the common prefix. *)
Fixpoint same_upto (a b : list bool) : nat :=
  match a, b with
  | x :: a', y :: b' => if Bool.eqb x y then S (same_upto a' b') else 0%nat
  | _, _ => 0%nat
  end.
Definition slice_has_prefix (bs : list bool) (len : nat) (cs : CellSlice) : bool :=
  (len <=? size cs)%nat && bits_eqb (take len (slice_bits cs)) (take len bs).
Definition slice_common_prefix_len (bs : list bool) (len : nat) (cs : CellSlice) : nat :=
  let len := Nat.min (size cs) len in same_upto (take len (slice_bits cs)) (take len bs).

(** [32 - td::count_leading_zeroes32(n)] *)
Definition len_bits (n : nat) : nat := if (n =? 0)%nat then 0%nat else S (Nat.log2 n).

(** ** Labels *)

(** [l_same] is 0, or 6 plus the bit that the label repeats; [l_offs], which only says
    whether the label is valid, is left out: an invalid one is [None]. *)
Record LabelParser : Type := mkLabel {
  remainder : CellSlice; l_same : Z; l_bits : nat; s_bits : nat
}.
Definition same_bit (l : LabelParser) : bool := Z.testbit (l_same l) 0.

(** [parse_label(cs, max_label_len)] and the constructor's [s_bits]. *)
Definition parse_label (cs : CellSlice) (max_label_len : nat) : option LabelParser :=
  let adv n cs := default cs (advance n cs) in
  match prefetch_ulong 2 cs with
  | 0 => Some (mkLabel (adv 2%nat cs) 0 0 0)
  | 1 =>
      let cs := adv 1%nat cs in
      let l_bits := count_leading true cs in
      if (max_label_len <? l_bits)%nat || negb (have (2 * l_bits + 1) cs) then None
      else Some (mkLabel (adv (l_bits + 1)%nat cs) 0 l_bits l_bits)
  | 2 =>
      let cs := adv 2%nat cs in
      let (l, cs) := fetch_ulong (len_bits max_label_len) cs in
      let l := wrap_s 32 l in
      if (l <? 0) || (Z.of_nat max_label_len <? l) then None
      else if have (Z.to_nat l) cs then Some (mkLabel cs 0 (Z.to_nat l) (Z.to_nat l)) else None
  | 3 =>
      if negb (have (3 + len_bits max_label_len) cs) then None
      else
        let (same, cs) := fetch_ulong 3 cs in
        let (l, cs) := fetch_ulong (len_bits max_label_len) cs in
        let l := wrap_s 32 l in
        if (l <? 0) || (Z.of_nat max_label_len <? l) then None
        else Some (mkLabel cs same (Z.to_nat l) 0)
  | _ => None
  end.

(** [chk_none], [chk_min], [chk_size], [chk_all] *)
Inductive LabelMode : Type := chk_min | chk_size | chk_all.

Definition label_is_prefix_of (l : LabelParser) (key : list bool) (len : nat) : bool :=
  if (len <? l_bits l)%nat then false
  else if l_same l =? 0 then slice_has_prefix key (l_bits l) (remainder l)
  else (memscan (same_bit l) (take (l_bits l) key) =? l_bits l)%nat.
Definition label_common_prefix_len (l : LabelParser) (key : list bool) (len : nat) : nat :=
  if l_same l =? 0 then slice_common_prefix_len key (Nat.min (l_bits l) len) (remainder l)
  else memscan (same_bit l) (take (Nat.min (l_bits l) len) key).
Definition label_has_prefix (l : LabelParser) (key : list bool) (len : nat) : bool :=
  (len <=? l_bits l)%nat && (label_common_prefix_len l key len =? len)%nat.
(** [extract_label_to]: the label and the rest of the node. *)
Definition extract_label (l : LabelParser) : list bool * CellSlice :=
  if l_same l =? 0 then
    (take (l_bits l) (slice_bits (remainder l)), default (remainder l) (advance (l_bits l) (remainder l)))
  else (replicate (l_bits l) (same_bit l), remainder l).
Definition skip_label (l : LabelParser) : CellSlice :=
  default (remainder l) (advance (s_bits l) (remainder l)).

Section dict.
Context `{Sha256} {S : Type} `{CellIO S}.

Definition validate_label (mode : LabelMode) (l : LabelParser) (n : nat) : M S unit :=
  let fork_ok := match mode with
    | chk_min => true
    | chk_size => negb ((size (remainder l) <? s_bits l)%nat || (size_refs (remainder l) <? 2)%nat)
    | chk_all => (size (remainder l) =? s_bits l)%nat && (size_refs (remainder l) =? 2)%nat
    end in
  match mode with
  | chk_min => ret tt
  | _ => unless_throw (l_bits l <=? n)%nat (VmError Exc_dict_err) ;;
         unless_throw (negb (l_bits l <? n)%nat || fork_ok) (VmError Exc_dict_err)
  end.
(** [LabelParser label{cell, n, mode}] *)
Definition read_label (cell : Cell) (n : nat) (mode : LabelMode) : M S LabelParser :=
  cs <- load_cell_slice_ref cell ;;
  match parse_label cs n with
  | None => throw (VmError Exc_cell_und)
  | Some l => validate_label mode l n ;; ret l
  end.

(** ** Building nodes *)

(** Store methods without the suffix [_bool] throw. *)
Definition ensure_pass {A} (o : option A) : M S A :=
  match o with Some a => ret a | None => throw CellCreateError end.
Definition store_long (val : Z) (n : nat) (cb : CellBuilder) : M S CellBuilder :=
  assert_ub (n <=? 64)%nat ;; ensure_pass (store_long_bool val n cb).
Definition store_bits (bs : list bool) (cb : CellBuilder) : M S CellBuilder :=
  ensure_pass (store_bits_bool bs cb).
Definition store_ref (c : Cell) (cb : CellBuilder) : M S CellBuilder :=
  ensure_pass (store_ref_bool (Some c) cb).

(** [cb.finalize()], which also empties the builder. *)
Definition finalize_builder (cb : CellBuilder) : M S Cell :=
  register_create ;;
  match create (cb_bits cb) (cb_refs cb) false with Some c => ret c | None => throw CellWriteError end.

Definition append_dict_label_same (same : bool) (len max_len : nat) (cb : CellBuilder) : M S CellBuilder :=
  let k := len_bits max_len in
  assert_ub ((len <=? max_len)%nat && (max_len <=? 1023)%nat) ;;
  if (1 <? len)%nat && (k <? 2 * len - 1)%nat then
    cb <- store_long (6 + Z.b2z same) 3 cb ;; store_long (Z.of_nat len) k cb
  else if (k <? len)%nat then
    cb <- store_long 2 2 cb ;; cb <- store_long (Z.of_nat len) k cb ;; store_long (- Z.b2z same) len cb
  else
    cb <- store_long 0 1 cb ;; cb <- store_long (-2) (len + 1) cb ;; store_long (- Z.b2z same) len cb.

(** [append_dict_label(cb, label, len, max_len)] with [len] the length of [label]. *)
Definition append_dict_label (label : list bool) (max_len : nat) (cb : CellBuilder) : M S CellBuilder :=
  let len := length label in
  assert_ub ((len <=? max_len)%nat && (max_len <=? 1023)%nat) ;;
  match (match label with
         | b :: _ => if (memscan b label =? len)%nat then Some b else None
         | [] => None
         end) with
  | Some b => append_dict_label_same b len max_len cb
  | None =>
      let k := len_bits max_len in
      cb <- (if (k <? len)%nat then cb <- store_long 2 2 cb ;; store_long (Z.of_nat len) k cb
             else cb <- store_long 0 1 cb ;; store_long (-2) (len + 1) cb) ;;
      unless_throw (negb (remaining_bits cb <? len)%nat) (VmError Exc_cell_ov) ;;
      store_bits label cb
  end.

(** A value is stored by a function that may fail ([store_value_func_t]). *)
Definition store_value : Type := CellBuilder -> option CellBuilder.
Definition store_or_ov (store_val : store_value) (cb : CellBuilder) : M S CellBuilder :=
  match store_val cb with Some cb' => ret cb' | None => throw (VmError Exc_cell_ov) end.

(** A leaf with the label [key] of a node for [n] more bits. *)
Definition make_leaf (key : list bool) (n : nat) (store_val : store_value) : M S Cell :=
  cb <- append_dict_label key n empty_builder ;;
  cb <- store_or_ov store_val cb ;;
  finalize_builder cb.
Definition make_fork (label : list bool) (n : nat) (c1 c2 : Cell) : M S Cell :=
  cb <- append_dict_label label n empty_builder ;;
  cb <- store_ref c1 cb ;; cb <- store_ref c2 cb ;;
  finalize_builder cb.

(** [key[i]] *)
Definition key_bit (key : list bool) (i : nat) : M S bool := of_option (key !! i).

(** ** Lookup *)

Fixpoint dict_lookup_loop (fuel : nat) (cell : Cell) (key : list bool) (n : nat) (mode : LabelMode)
    : M S (option CellSlice) :=
  match fuel with
  | O => undef
  | Datatypes.S fuel' =>
      label <- read_label cell n mode ;;
      if negb (label_is_prefix_of label key n) then ret None
      else
        let n' := (n - l_bits label)%nat in
        if (n' =? 0)%nat then ret (Some (skip_label label))
        else
          sw <- key_bit key (l_bits label) ;;
          c <- of_option (prefetch_ref (if sw then 1 else 0) (remainder label)) ;;
          dict_lookup_loop fuel' c (drop (Datatypes.S (l_bits label)) key) (n' - 1) mode
  end.

(** ** Insertion *)

(** The lower portion of the old edge when the label is split after [pfx] bits:
    [cb] with the new label, and the payload. *)
Definition split_edge (label : LabelParser) (pfx m : nat) : M S (CellBuilder * CellSlice) :=
  let t := (l_bits label - pfx - 1)%nat in
  if l_same label =? 0 then
    let cs := default (remainder label) (advance (pfx + 1) (remainder label)) in
    cb <- append_dict_label (take t (slice_bits cs)) m empty_builder ;;
    ret (cb, default cs (advance t cs))
  else
    cb <- append_dict_label_same (same_bit label) t m empty_builder ;;
    ret (cb, remainder label).

(** A new fork inside the current edge: the new leaf and the old node below it. *)
Definition insert_fork (label : LabelParser) (pfx : nat) (key : list bool) (n : nat)
    (store_val : store_value) : M S Cell :=
  let m := (n - pfx - 1)%nat in
  c1 <- make_leaf (drop (pfx + 1) key) m store_val ;;
  let* (cb, cs) := split_edge label pfx m in
  cb <- store_or_ov (append_cellslice_bool cs) cb ;;
  c2 <- finalize_builder cb ;;
  cb <- append_dict_label (take pfx key) n empty_builder ;;
  sw <- key_bit key pfx ;;
  cb <- store_ref (if sw then c2 else c1) cb ;;
  cb <- store_ref (if sw then c1 else c2) cb ;;
  finalize_builder cb.

(** The children of a fork. *)
Definition fork_children (label : LabelParser) : M S (Cell * Cell) :=
  c1 <- of_option (prefetch_ref 0 (remainder label)) ;;
  c2 <- of_option (prefetch_ref 1 (remainder label)) ;;
  ret (c1, c2).

(** [dict_set]: the new tree and whether it has changed. *)
Fixpoint dict_set (fuel : nat) (dict : option Cell) (key : list bool) (n : nat)
    (store_val : store_value) (mode : SetMode) : M S (option Cell * bool) :=
  match fuel with
  | O => undef
  | Datatypes.S fuel' =>
      match dict with
      | None =>
          match mode with
          | Replace => ret (None, false)
          | _ => c <- make_leaf key n store_val ;; ret (Some c, true)
          end
      | Some dict =>
          label <- read_label dict n chk_all ;;
          let pfx_len := label_common_prefix_len label key n in
          assert_ub ((pfx_len <=? l_bits label)%nat && (l_bits label <=? n)%nat) ;;
          if (pfx_len <? l_bits label)%nat then
            match mode with
            | Replace => ret (None, false)
            | _ => c <- insert_fork label pfx_len key n store_val ;; ret (Some c, true)
            end
          else if (l_bits label =? n)%nat then
            match mode with
            | Add => ret (None, false)
            | _ => c <- make_leaf key n store_val ;; ret (Some c, true)
            end
          else
            let* (c1, c2) := fork_children label in
            sw <- key_bit key (l_bits label) ;;
            let* (c', changed) :=
              dict_set fuel' (Some (if sw then c2 else c1)) (drop (Datatypes.S (l_bits label)) key)
                (n - l_bits label - 1) store_val mode in
            if negb changed then ret (None, false)
            else
              c' <- of_option c' ;;
              c <- make_fork (take (l_bits label) key) n (if sw then c1 else c') (if sw then c' else c2) ;;
              ret (Some c, true)
      end
  end.

(** [dict_lookup_set]: the old value as well. *)
Fixpoint dict_lookup_set (fuel : nat) (dict : option Cell) (key : list bool) (n : nat)
    (store_val : store_value) (mode : SetMode) : M S (option CellSlice * option Cell * bool) :=
  match fuel with
  | O => undef
  | Datatypes.S fuel' =>
      match dict with
      | None =>
          match mode with
          | Replace => ret (None, None, false)
          | _ => c <- make_leaf key n store_val ;; ret (None, Some c, true)
          end
      | Some dict =>
          label <- read_label dict n chk_all ;;
          let pfx_len := label_common_prefix_len label key n in
          assert_ub ((pfx_len <=? l_bits label)%nat && (l_bits label <=? n)%nat) ;;
          if (pfx_len <? l_bits label)%nat then
            match mode with
            | Replace => ret (None, None, false)
            | _ => c <- insert_fork label pfx_len key n store_val ;; ret (None, Some c, true)
            end
          else if (l_bits label =? n)%nat then
            let old_val := skip_label label in
            match mode with
            | Add => ret (Some old_val, None, false)
            | _ => c <- make_leaf key n store_val ;; ret (Some old_val, Some c, true)
            end
          else
            let* (c1, c2) := fork_children label in
            sw <- key_bit key (l_bits label) ;;
            let* (old_val, c', changed) :=
              dict_lookup_set fuel' (Some (if sw then c2 else c1)) (drop (Datatypes.S (l_bits label)) key)
                (n - l_bits label - 1) store_val mode in
            if negb changed then ret (old_val, None, false)
            else
              c' <- of_option c' ;;
              c <- make_fork (take (l_bits label) key) n (if sw then c1 else c') (if sw then c' else c2) ;;
              ret (old_val, Some c, true)
      end
  end.

(** ** Deletion *)

Definition or_dict_err {A} (o : option A) : M S A :=
  match o with Some a => ret a | None => throw (VmError Exc_dict_err) end.
Definition finish_create_fork (cb : CellBuilder) (c1 c2 : Cell) (n : nat) : M S Cell :=
  assert_ub (0 <? n)%nat ;;
  cb <- or_dict_err (store_ref_bool (Some c1) cb) ;;
  cb <- or_dict_err (store_ref_bool (Some c2) cb) ;;
  finalize_builder cb.

(** The current edge, with the bit [b] after it, is joined with the edge of [c]. *)
Definition merge_edge (label : list bool) (b : bool) (c : Cell) (n : nat) (mode : LabelMode) : M S Cell :=
  label2 <- read_label c (n - length label - 1) mode ;;
  let (l2, rest) := extract_label label2 in
  let l := label ++ b :: l2 in
  assert_ub (length l <=? max_key_bits)%nat ;;
  cb <- append_dict_label l n empty_builder ;;
  cb <- store_or_ov (append_cellslice_bool rest) cb ;;
  finalize_builder cb.

(** [dict_lookup_delete]: the old value (none: not found) and the new tree. *)
Fixpoint dict_lookup_delete (fuel : nat) (dict : option Cell) (key : list bool) (n : nat) (mode : LabelMode)
    : M S (option CellSlice * option Cell) :=
  match fuel with
  | O => undef
  | Datatypes.S fuel' =>
      match dict with
      | None => ret (None, None)
      | Some dict =>
          label <- read_label dict n mode ;;
          let pfx_len := label_common_prefix_len label key n in
          assert_ub ((pfx_len <=? l_bits label)%nat && (l_bits label <=? n)%nat) ;;
          if (pfx_len <? l_bits label)%nat then ret (None, None)
          else if (l_bits label =? n)%nat then ret (Some (skip_label label), None)
          else
            let* (c1, c2) := fork_children label in
            sw <- key_bit key (l_bits label) ;;
            let* (old_val, c') :=
              dict_lookup_delete fuel' (Some (if sw then c2 else c1)) (drop (Datatypes.S (l_bits label)) key)
                (n - l_bits label - 1) mode in
            match old_val with
            | None => ret (None, None)
            | Some _ =>
                match c' with
                | Some c' =>
                    cb <- append_dict_label (take (l_bits label) key) n empty_builder ;;
                    c <- finish_create_fork cb (if sw then c1 else c') (if sw then c' else c2)
                           (n - l_bits label) ;;
                    ret (old_val, Some c)
                | None =>
                    c <- merge_edge (take (l_bits label) key) (negb sw) (if sw then c1 else c2) n mode ;;
                    ret (old_val, Some c)
                end
            end
      end
  end.

(** ** Smallest, largest and nearest keys *)

(** [dict_lookup_minmax]: the key found, as the code leaves it in its buffer, and the
    value.  The lowest bit of [mode] is the first bit of the key, the others are what
    follows; a non-empty label holds the first bit. *)
Fixpoint dict_lookup_minmax (fuel : nat) (dict : option Cell) (n : nat) (mode : Z) (lmode : LabelMode)
    : M S (option (list bool * CellSlice)) :=
  match fuel with
  | O => undef
  | Datatypes.S fuel' =>
      match dict with
      | None => ret None
      | Some dict =>
          label <- read_label dict n lmode ;;
          let (l, rest) := extract_label label in
          assert_ub (length l <=? n)%nat ;;
          let n' := (n - length l)%nat in
          if (n' =? 0)%nat then ret (Some (l, rest))
          else
            let mode := if (length l =? 0)%nat then mode else Z.shiftr mode 1 in
            let bit := Z.testbit mode 0 in
            c <- of_option (prefetch_ref (if bit then 1 else 0) rest) ;;
            r <- dict_lookup_minmax fuel' (Some c) (n' - 1) (Z.shiftr mode 1) lmode ;;
            ret (match r with Some (k, v) => Some (l ++ bit :: k, v) | None => None end)
      end
  end.

(** [dict_lookup_nearest]: the first key after (before) [key]. *)
Fixpoint dict_lookup_nearest (fuel : nat) (dict : option Cell) (key : list bool) (n : nat) (allow_eq : bool)
    (mode : Z) (lmode : LabelMode) : M S (option (list bool * CellSlice)) :=
  match fuel with
  | O => undef
  | Datatypes.S fuel' =>
      match dict with
      | None => ret None
      | Some dict =>
          label <- read_label dict n lmode ;;
          let pfx_len := label_common_prefix_len label key n in
          assert_ub ((pfx_len <=? l_bits label)%nat && (l_bits label <=? n)%nat) ;;
          if (pfx_len <? l_bits label)%nat then
            b <- key_bit key pfx_len ;;
            if Bool.eqb b (Z.testbit (Z.shiftr mode (if (pfx_len =? 0)%nat then 0 else 1)) 0) then ret None
            else dict_lookup_minmax fuel (Some dict) n (Z.lnot mode) lmode
          else
            let mode := if (l_bits label =? 0)%nat then mode else Z.shiftr mode 1 in
            let pre := take (l_bits label) key in
            let n' := (n - l_bits label)%nat in
            if (n' =? 0)%nat then
              if allow_eq then ret (Some (pre, skip_label label)) else ret None
            else
              bit <- key_bit key (l_bits label) ;;
              c <- of_option (prefetch_ref (if bit then 1 else 0) (remainder label)) ;;
              r <- dict_lookup_nearest fuel' (Some c) (drop (Datatypes.S (l_bits label)) key) (n' - 1) allow_eq
                     (Z.shiftr mode 1) lmode ;;
              let dir := Z.testbit mode 0 in
              if match r with Some _ => true | None => Bool.eqb bit dir end then
                ret (match r with Some (k, v) => Some (pre ++ bit :: k, v) | None => None end)
              else
                c <- of_option (prefetch_ref (if dir then 1 else 0) (remainder label)) ;;
                r <- dict_lookup_minmax fuel' (Some c) (n' - 1) (Z.shiftr (Z.lnot mode) 1) lmode ;;
                ret (match r with Some (k, v) => Some (pre ++ dir :: k, v) | None => None end)
      end
  end.
End dict.
