(* ===== verification/DictObj.v ===== *)
(** * Dictionary objects (classes DictionaryBase, DictionaryFixed and Dictionary of dict.h)

    The object around the functions of Dict.v: a root that is kept as a cell and, on
    demand, as a slice ([HashmapE]), flags, and the methods that check the object
    before they work on the tree.  A method returns its result and the object. *)
From S2P Require Import Prelude Int256 Cells DataCell Dict.

(** [flags] are three booleans. *)
Record Dictionary : Type := mkDictionary {
  d_root : option CellSlice; root_cell : option Cell; key_bits : Z;
  f_valid : bool; f_root_cached : bool; f_invalid : bool
}.

(** ** Construction and validation *)

(** [DictionaryBase(Ref<CellSlice> _root, int _n)] before validation, and from a cell. *)
Definition dictionary_of_slice (root : option CellSlice) (n : Z) : Dictionary :=
  mkDictionary root None n false true false.
Definition dictionary_of_cell (cell : option Cell) (n : Z) : Dictionary :=
  mkDictionary None cell n false false false.
(** [DictionaryBase(const CellSlice& root_cs, int _n)]: the flag and the reference that
    follow; nothing is consumed.  A slice without the flag bit reads as -1. *)
Definition dictionary_of_prefix (root_cs : CellSlice) (n : Z) : Dictionary :=
  let f := wrap_s 32 (prefetch_ulong 1 root_cs) in
  if f <? 0 then mkDictionary None None n false false true
  else if 0 <? f then
    if (size_refs root_cs =? 0)%nat then mkDictionary None None n false false true
    else mkDictionary None (prefetch_ref 0 root_cs) n false false false
  else mkDictionary None None n false false false.

Definition invalidate (d : Dictionary) : bool * Dictionary :=
  (false, mkDictionary (d_root d) (root_cell d) (key_bits d) (f_valid d) (f_root_cached d) true).

(** [validate()] *)
Definition validate (d : Dictionary) : bool * Dictionary :=
  if f_valid d then (true, d)
  else if f_invalid d then (false, d)
  else if (key_bits d <? 0) || (Z.of_nat max_key_bits <? key_bits d) then invalidate d
  else
    let ok cell := (true, mkDictionary (d_root d) cell (key_bits d) true (f_root_cached d) (f_invalid d)) in
    if f_root_cached d then
      match d_root d with
      | None => invalidate d
      | Some root =>
          if negb (size root =? 1)%nat then invalidate d
          else
            let non_empty := negb (prefetch_ulong 1 root =? 0) in
            if negb (size_refs root =? (if non_empty then 1 else 0))%nat then invalidate d
            else match root_cell d with
                 | Some _ => invalidate d
                 | None => ok (if non_empty then prefetch_ref 0 root else root_cell d)
                 end
      end
    else match d_root d with Some _ => invalidate d | None => ok (root_cell d) end.

Definition set_root_cell (cell : option Cell) (d : Dictionary) : Dictionary :=
  mkDictionary (d_root d) cell (key_bits d) (f_valid d) false (f_invalid d).
Definition is_empty (d : Dictionary) : bool := match root_cell d with None => true | Some _ => false end.

(** [get_empty_dictionary()]: a static slice. *)
Definition get_empty_dictionary : CellSlice := slice_of_cell (DataCell false [false] []).

(** A value that is exactly one reference. *)
Definition value_ref (cs : CellSlice) : option Cell :=
  if (size cs =? 0)%nat && (size_refs cs =? 1)%nat then prefetch_ref 0 cs else None.

(** The order of keys in [int mode]: [(-fetch_max) ^ invert_first]. *)
Definition key_order (fetch_max invert_first : bool) : Z :=
  Z.lxor (- Z.b2z fetch_max) (Z.b2z invert_first).

Section objects.
Context `{Sha256} {S : Type} `{CellIO S}.

Definition force_validate (d : Dictionary) : M S Dictionary :=
  if f_valid d then ret d
  else let (ok, d') := validate d in unless_throw ok (VmError Exc_dict_err) ;; ret d'.

(** [compute_root()] and [get_root()]. *)
Definition compute_root (d : Dictionary) : M S (bool * Dictionary) :=
  if negb (f_valid d) then ret (false, d)
  else
    let cached root := mkDictionary (Some root) (root_cell d) (key_bits d) (f_valid d) true (f_invalid d) in
    match root_cell d with
    | None => ret (true, cached get_empty_dictionary)
    | Some cell =>
        cb <- store_long 1 1 empty_builder ;;
        cb <- store_ref cell cb ;;
        c <- finalize_builder cb ;;
        ret (true, cached (slice_of_cell c))
    end.
Definition get_root (d : Dictionary) : M S (option CellSlice * Dictionary) :=
  if f_root_cached d then ret (d_root d, d)
  else
    let* (ok, d) := compute_root d in
    ret (if ok then d_root d else None, d).
(** [append_dict_to_bool(cb) const&] *)
Definition append_dict_to_bool (d : Dictionary) (cb : CellBuilder) : option CellBuilder :=
  if f_valid d then store_maybe_ref (root_cell d) cb else None.

(** ** Methods *)

(** The length of a key against [key_bits]. *)
Definition key_fits (key : list bool) (d : Dictionary) : bool := Z.of_nat (length key) =? key_bits d.
Definition extract_value_ref (cs : option CellSlice) : M S (option Cell) :=
  match cs with
  | None => ret None
  | Some cs => match value_ref cs with
               | Some c => ret (Some c)
               | None => throw (VmError Exc_dict_err)
               end
  end.

(** [lookup(key, key_len)]; [label_mode()] is [chk_all]. *)
Definition lookup (key : list bool) (d : Dictionary) : M S (option CellSlice * Dictionary) :=
  d <- force_validate d ;;
  match root_cell d with
  | Some cell =>
      if key_fits key d then
        r <- dict_lookup_loop (Datatypes.S (length key)) cell key (length key) chk_all ;; ret (r, d)
      else ret (None, d)
  | None => ret (None, d)
  end.
Definition lookup_ref (key : list bool) (d : Dictionary) : M S (option Cell * Dictionary) :=
  let* (r, d) := lookup key d in
  c <- extract_value_ref r ;; ret (c, d).
Definition key_exists (key : list bool) (d : Dictionary) : M S (bool * Dictionary) :=
  let* (r, d) := lookup key d in
  ret (match r with Some _ => true | None => false end, d).

(** [set_gen], and its instances for slices, references and builders. *)
Definition set_gen (key : list bool) (store_val : store_value) (mode : SetMode) (d : Dictionary)
    : M S (bool * Dictionary) :=
  d <- force_validate d ;;
  if key_fits key d then
    let* (c, changed) := dict_set (Datatypes.S (length key)) (root_cell d) key (length key) store_val mode in
    ret (changed, if changed then set_root_cell c d else d)
  else ret (false, d).
Definition set (key : list bool) (value : CellSlice) (mode : SetMode) : Dictionary -> M S (bool * Dictionary) :=
  set_gen key (append_cellslice_bool value) mode.
Definition set_ref (key : list bool) (val_ref : Cell) (mode : SetMode) : Dictionary -> M S (bool * Dictionary) :=
  set_gen key (store_ref_bool (Some val_ref)) mode.
Definition set_builder (key : list bool) (val_b : CellBuilder) (mode : SetMode)
    : Dictionary -> M S (bool * Dictionary) :=
  set_gen key (append_builder_bool val_b) mode.

Definition lookup_set_gen (key : list bool) (store_val : store_value) (mode : SetMode) (d : Dictionary)
    : M S (option CellSlice * Dictionary) :=
  d <- force_validate d ;;
  if key_fits key d then
    let* (old, c, changed) := dict_lookup_set (Datatypes.S (length key)) (root_cell d) key (length key) store_val mode in
    ret (old, if changed then set_root_cell c d else d)
  else ret (None, d).
Definition lookup_set (key : list bool) (value : CellSlice) (mode : SetMode)
    : Dictionary -> M S (option CellSlice * Dictionary) :=
  lookup_set_gen key (append_cellslice_bool value) mode.
Definition lookup_set_ref (key : list bool) (val_ref : Cell) (mode : SetMode) (d : Dictionary)
    : M S (option Cell * Dictionary) :=
  let* (r, d) := lookup_set_gen key (store_ref_bool (Some val_ref)) mode d in
  c <- extract_value_ref r ;; ret (c, d).
Definition lookup_set_builder (key : list bool) (val_b : CellBuilder) (mode : SetMode)
    : Dictionary -> M S (option CellSlice * Dictionary) :=
  lookup_set_gen key (append_builder_bool val_b) mode.

Definition lookup_delete (key : list bool) (d : Dictionary) : M S (option CellSlice * Dictionary) :=
  d <- force_validate d ;;
  if key_fits key d then
    let* (old, c) := dict_lookup_delete (Datatypes.S (length key)) (root_cell d) key (length key) chk_all in
    ret (old, match old with Some _ => set_root_cell c d | None => d end)
  else ret (None, d).
Definition lookup_delete_ref (key : list bool) (d : Dictionary) : M S (option Cell * Dictionary) :=
  let* (r, d) := lookup_delete key d in
  c <- extract_value_ref r ;; ret (c, d).

(** The key that is found is in the buffer of the caller. *)
Definition lookup_nearest_key (key : list bool) (fetch_next allow_eq invert_first : bool) (d : Dictionary)
    : M S (option (list bool * CellSlice) * Dictionary) :=
  d <- force_validate d ;;
  if key_fits key d then
    r <- dict_lookup_nearest (Datatypes.S (length key)) (root_cell d) key (length key) allow_eq
           (key_order fetch_next invert_first) chk_all ;;
    ret (r, d)
  else ret (None, d).
Definition get_minmax_key (key_len : nat) (fetch_max invert_first : bool) (d : Dictionary)
    : M S (option (list bool * CellSlice) * Dictionary) :=
  d <- force_validate d ;;
  if Z.of_nat key_len =? key_bits d then
    r <- dict_lookup_minmax (Datatypes.S key_len) (root_cell d) key_len (key_order fetch_max invert_first) chk_all ;;
    ret (r, d)
  else ret (None, d).
Definition get_minmax_key_ref (key_len : nat) (fetch_max invert_first : bool) (d : Dictionary)
    : M S (option (list bool * Cell) * Dictionary) :=
  let* (r, d) := get_minmax_key key_len fetch_max invert_first d in
  match r with
  | None => ret (None, d)
  | Some (k, cs) => c <- extract_value_ref (Some cs) ;; ret (match c with Some c => Some (k, c) | None => None end, d)
  end.
Definition extract_minmax_key (key_len : nat) (fetch_max invert_first : bool) (d : Dictionary)
    : M S (option (list bool * CellSlice) * Dictionary) :=
  d <- force_validate d ;;
  if Z.of_nat key_len =? key_bits d then
    r <- dict_lookup_minmax (Datatypes.S key_len) (root_cell d) key_len (key_order fetch_max invert_first) chk_all ;;
    match r with
    | None => ret (None, d)
    | Some (k, v) =>
        let* (old, c) := dict_lookup_delete (Datatypes.S key_len) (root_cell d) k key_len chk_all in
        assert_ub (match old with Some _ => true | None => false end) ;;
        ret (Some (k, v), set_root_cell c d)
    end
  else ret (None, d).
Definition extract_minmax_key_ref (key_len : nat) (fetch_max invert_first : bool) (d : Dictionary)
    : M S (option (list bool * Cell) * Dictionary) :=
  let* (r, d) := extract_minmax_key key_len fetch_max invert_first d in
  match r with
  | None => ret (None, d)
  | Some (k, cs) => c <- extract_value_ref (Some cs) ;; ret (match c with Some c => Some (k, c) | None => None end, d)
  end.

(** [has_common_prefix] and [get_common_prefix]. *)
Definition has_common_prefix (prefix : list bool) (d : Dictionary) : M S (bool * Dictionary) :=
  d <- force_validate d ;;
  match root_cell d with
  | None => ret (true, d)
  | Some cell =>
      if (length prefix =? 0)%nat then ret (true, d)
      else if key_bits d <? Z.of_nat (length prefix) then ret (false, d)
      else
        label <- read_label cell (Z.to_nat (key_bits d)) chk_all ;;
        ret (label_has_prefix label prefix (length prefix), d)
  end.
Definition get_common_prefix (buffer_len : nat) (d : Dictionary) : M S (list bool * Dictionary) :=
  d <- force_validate d ;;
  match root_cell d with
  | None => ret ([], d)
  | Some cell =>
      label <- read_label cell (Z.to_nat (key_bits d)) chk_all ;;
      ret (take buffer_len (fst (extract_label label)), d)
  end.
End objects.
