(* ===== verification/PfxDict.v ===== *)
(** * Prefix code dictionaries and subdictionaries (dict.cpp)

    Prefix code dictionaries (class PrefixDictionary) hold keys of different lengths of
    which none is a prefix of another: a node has, behind its label, a bit that says
    whether it is a leaf or a fork.  Below: the subdictionary of the keys with a
    given prefix. *)
From S2P Require Import Prelude Int256 Cells DataCell Dict DictObj.

Section pfx.
Context `{Sha256} {S : Type} `{CellIO S}.

(** A leaf with the label [key], and a fork. *)
Definition make_pfx_leaf (key : list bool) (n : nat) (store_val : store_value) : M S Cell :=
  cb <- append_dict_label key n empty_builder ;;
  cb <- store_long 0 1 cb ;;
  cb <- store_or_ov store_val cb ;;
  finalize_builder cb.
Definition make_pfx_fork (label : list bool) (n : nat) (c1 c2 : Cell) : M S Cell :=
  cb <- append_dict_label label n empty_builder ;;
  cb <- store_long 1 1 cb ;;
  cb <- store_ref c1 cb ;; cb <- store_ref c2 cb ;;
  finalize_builder cb.

(** A new fork inside the current edge, after [l] bits of the label. *)
Definition pfx_insert_fork (label : LabelParser) (l : nat) (key : list bool) (n : nat)
    (store_val : store_value) : M S Cell :=
  let q := (l + 1)%nat in
  c1 <- make_pfx_leaf (drop q key) (n - q) store_val ;;
  let* (cb, cs) := split_edge label l (n - q) in
  cb <- store_or_ov (append_cellslice_bool cs) cb ;;
  c2 <- finalize_builder cb ;;
  cb <- append_dict_label (take l key) n empty_builder ;;
  sw <- key_bit key l ;;
  cb <- store_long 1 1 cb ;;
  cb <- store_ref (if sw then c2 else c1) cb ;;
  cb <- store_ref (if sw then c1 else c2) cb ;;
  finalize_builder cb.

(** The rest of a node behind its label: the kind of node ([true] is a fork). *)
Definition pfx_node (label : LabelParser) : M S (bool * CellSlice) :=
  let cs := skip_label label in
  unless_throw (have 1 cs) (VmError Exc_dict_err) ;;
  let (t, cs) := fetch_ulong 1 cs in
  ret (negb (t =? 0), cs).
Definition pfx_fork_ok (cs : CellSlice) : bool := (size cs =? 0)%nat && (size_refs cs =? 2)%nat.
Definition pfx_children (cs : CellSlice) : M S (Cell * Cell) :=
  c1 <- of_option (prefetch_ref 0 cs) ;;
  c2 <- of_option (prefetch_ref 1 cs) ;;
  ret (c1, c2).

(** [pfx_dict_set] *)
Fixpoint pfx_dict_set (fuel : nat) (dict : option Cell) (key : list bool) (n : nat)
    (store_val : store_value) (mode : SetMode) : M S (option Cell * bool) :=
  match fuel with
  | O => undef
  | Datatypes.S fuel' =>
      let m := length key in
      if (n <? m)%nat then ret (None, false)
      else match dict with
      | None =>
          match mode with
          | Replace => ret (None, false)
          | _ => c <- make_pfx_leaf key n store_val ;; ret (Some c, true)
          end
      | Some dict =>
          label <- read_label dict n chk_min ;;
          let l := label_common_prefix_len label key m in
          assert_ub ((l <=? l_bits label)%nat && (l_bits label <=? n)%nat && (l <=? m)%nat && (m <=? n)%nat) ;;
          if (l <? l_bits label)%nat then
            if (l =? m)%nat || match mode with Replace => true | _ => false end then ret (None, false)
            else c <- pfx_insert_fork label l key n store_val ;; ret (Some c, true)
          else
            let* (is_fork, cs) := pfx_node label in
            if negb is_fork then
              if negb (l =? m)%nat || match mode with Add => true | _ => false end then ret (None, false)
              else c <- make_pfx_leaf key n store_val ;; ret (Some c, true)
            else
              unless_throw (pfx_fork_ok cs) (VmError Exc_dict_err) ;;
              if (m =? l)%nat then ret (None, false)
              else
                let* (c1, c2) := pfx_children cs in
                sw <- key_bit key l ;;
                let* (c', changed) :=
                  pfx_dict_set fuel' (Some (if sw then c2 else c1)) (drop (Datatypes.S l) key)
                    (n - Datatypes.S l) store_val mode in
                if negb changed then ret (None, false)
                else
                  c' <- of_option c' ;;
                  c <- make_pfx_fork (take l key) n (if sw then c1 else c') (if sw then c' else c2) ;;
                  ret (Some c, true)
      end
  end.

(** [pfx_dict_lookup_delete] *)
Fixpoint pfx_dict_lookup_delete (fuel : nat) (dict : option Cell) (key : list bool) (n : nat)
    : M S (option CellSlice * option Cell) :=
  match fuel with
  | O => undef
  | Datatypes.S fuel' =>
      let m := length key in
      match dict with
      | None => ret (None, None)
      | Some dict =>
          label <- read_label dict n chk_min ;;
          let l := label_common_prefix_len label key m in
          assert_ub ((l <=? l_bits label)%nat && (l <=? m)%nat && (m <=? n)%nat && (l_bits label <=? n)%nat) ;;
          if (l <? l_bits label)%nat then ret (None, None)
          else
            let* (is_fork, cs) := pfx_node label in
            if negb is_fork then
              if (l <? m)%nat then ret (None, None) else ret (Some cs, None)
            else
              unless_throw (pfx_fork_ok cs) (VmError Exc_dict_err) ;;
              if (l =? m)%nat then ret (None, None)
              else
                let* (c1, c2) := pfx_children cs in
                sw <- key_bit key l ;;
                let* (old_val, c') :=
                  pfx_dict_lookup_delete fuel' (Some (if sw then c2 else c1)) (drop (Datatypes.S l) key)
                    (n - Datatypes.S l) in
                match old_val with
                | None => ret (None, None)
                | Some _ =>
                    match c' with
                    | Some c' =>
                        c <- make_pfx_fork (take l key) n (if sw then c1 else c') (if sw then c' else c2) ;;
                        ret (old_val, Some c)
                    | None =>
                        c <- merge_edge (take l key) (negb sw) (if sw then c1 else c2) n chk_min ;;
                        ret (old_val, Some c)
                    end
                end
      end
  end.

(** The loop of [lookup_prefix]: the value, if any, and how many bits of the key were
    matched; [done] bits were matched before. *)
Fixpoint pfx_lookup_loop (fuel : nat) (cell : Cell) (key : list bool) (n done : nat)
    : M S (option CellSlice * nat) :=
  match fuel with
  | O => undef
  | Datatypes.S fuel' =>
      label <- read_label cell n chk_min ;;
      let m := length key in
      let l := label_common_prefix_len label key m in
      if (l <? l_bits label)%nat then ret (None, (done + l)%nat)
      else
        assert_ub (l_bits label <=? m)%nat ;;
        let* (is_fork, cs) := pfx_node label in
        let matched := (done + l_bits label)%nat in
        if negb is_fork then ret (Some cs, matched)
        else
          unless_throw (negb (n - l_bits label =? 0)%nat) (VmError Exc_dict_err) ;;
          unless_throw (pfx_fork_ok cs) (VmError Exc_dict_err) ;;
          if (m - l_bits label =? 0)%nat then ret (None, matched)
          else
            sw <- key_bit key (l_bits label) ;;
            c <- of_option (prefetch_ref (if sw then 1 else 0) cs) ;;
            pfx_lookup_loop fuel' c (drop (Datatypes.S (l_bits label)) key) (n - l_bits label - 1) (Datatypes.S matched)
  end.

(** ** Methods of PrefixDictionary *)

Definition pfx_lookup_prefix (key : list bool) (d : Dictionary) : M S (option CellSlice * nat * Dictionary) :=
  d <- force_validate d ;;
  match root_cell d with
  | None => ret (None, 0%nat, d)
  | Some cell =>
      let n := Z.to_nat (key_bits d) in
      let* (r, matched) := pfx_lookup_loop (Datatypes.S n) cell key n 0 in
      ret (r, matched, d)
  end.
Definition pfx_set_gen (key : list bool) (store_val : store_value) (mode : SetMode) (d : Dictionary)
    : M S (bool * Dictionary) :=
  d <- force_validate d ;;
  if key_bits d <? Z.of_nat (length key) then ret (false, d)
  else
    let n := Z.to_nat (key_bits d) in
    let* (c, changed) := pfx_dict_set (Datatypes.S n) (root_cell d) key n store_val mode in
    ret (changed, if changed then set_root_cell c d else d).
Definition pfx_set (key : list bool) (value : CellSlice) (mode : SetMode) : Dictionary -> M S (bool * Dictionary) :=
  pfx_set_gen key (append_cellslice_bool value) mode.
Definition pfx_lookup_delete (key : list bool) (d : Dictionary) : M S (option CellSlice * Dictionary) :=
  d <- force_validate d ;;
  if key_bits d <? Z.of_nat (length key) then ret (None, d)
  else
    let n := Z.to_nat (key_bits d) in
    let* (old, c) := pfx_dict_lookup_delete (Datatypes.S n) (root_cell d) key n in
    ret (old, match old with Some _ => set_root_cell c d | None => d end).

(** ** Subdictionaries *)

(** The loop of [extract_prefix_subdict_internal] for keys of [key_bits] bits: [m] bits of
    [prefix] are done.  The new root, or [None] when the dictionary is unchanged. *)
Fixpoint prefix_subdict_loop (fuel : nat) (dict : Cell) (prefix : list bool) (m key_bits : nat)
    (remove_prefix : bool) (mode : LabelMode) : M S (option (option Cell)) :=
  match fuel with
  | O => undef
  | Datatypes.S fuel' =>
      let prefix_len := length prefix in
      label <- read_label dict (key_bits - m) mode ;;
      let l := Nat.min (prefix_len - m) (l_bits label) in
      if (label_common_prefix_len label (drop m prefix) l <? l)%nat then ret (Some None)
      else if (m + l_bits label <? prefix_len)%nat then
        let m := (m + l_bits label)%nat in
        sw <- key_bit prefix m ;;
        c <- of_option (prefetch_ref (if sw then 1 else 0) (remainder label)) ;;
        prefix_subdict_loop fuel' c prefix (m + 1) key_bits remove_prefix mode
      else
        let finish (cb : CellBuilder) (rest : CellSlice) : M S (option (option Cell)) :=
          cb <- store_or_ov (append_cellslice_bool rest) cb ;;
          c <- finalize_builder cb ;;
          ret (Some (Some c)) in
        if negb remove_prefix then
          if (m =? 0)%nat then ret None
          else
            let (lab, rest) := extract_label label in
            cb <- append_dict_label (take m prefix ++ lab) key_bits empty_builder ;;
            finish cb rest
        else
          let left := (m + l_bits label - prefix_len)%nat in
          if l_same label =? 0 then
            cb <- append_dict_label (drop (l_bits label - left) (take (l_bits label) (slice_bits (remainder label))))
                    (key_bits - prefix_len) empty_builder ;;
            finish cb (skip_label label)
          else
            cb <- append_dict_label_same (same_bit label) left (key_bits - prefix_len) empty_builder ;;
            finish cb (remainder label)
  end.

(** [cut_prefix_subdict(prefix, prefix_len, remove_prefix)] for [prefix_len >= 0]. *)
Definition cut_prefix_subdict (prefix : list bool) (remove_prefix : bool) (d : Dictionary) : M S (bool * Dictionary) :=
  d <- force_validate d ;;
  let prefix_len := Z.of_nat (length prefix) in
  if (key_bits d <? prefix_len) && remove_prefix then ret (false, d)
  else
    r <- (match root_cell d with
          | None => ret None
          | Some cell =>
              if (length prefix =? 0)%nat then ret None
              else if key_bits d <? prefix_len then ret (Some None)
              else prefix_subdict_loop (Datatypes.S (length prefix)) cell prefix 0 (Z.to_nat (key_bits d))
                     remove_prefix chk_all
          end) ;;
    let d := if remove_prefix
             then mkDictionary (d_root d) (root_cell d) (key_bits d - prefix_len) (f_valid d) (f_root_cached d) (f_invalid d)
             else d in
    ret (true, match r with Some c => set_root_cell c d | None => d end).
End pfx.
