(* ===== verification/DictLabel.v ===== *)
(** * Labels of dictionary nodes

    What [parse_label] reads and [append_dict_label] writes, against labels as bit
    strings: reading back what was written, for any payload behind it. *)
From S2P Require Import Prelude Int256 Cells DataCell Dict.

(** ** Windows of slices *)

Lemma advance_some_eq n cs :
  (n <= size cs)%nat ->
  advance n cs = Some (mkSlice (cs_cell cs) (bits_st cs + n) (bits_en cs) (refs_st cs) (refs_en cs)).
Proof. intros Hn. unfold advance. by rewrite (proj2 (have_spec n cs) Hn). Qed.

(** [slice_is cs bits refs]: the window shows these bits and references. *)
Record slice_is (cs : CellSlice) (bits : list bool) (refs : list Cell) : Prop := mkSliceIs {
  is_bits : slice_bits cs = bits;
  is_refs : slice_refs cs = refs;
  is_ok : slice_ok cs
}.

Lemma slice_is_size cs bits refs :
  slice_is cs bits refs -> size cs = length bits /\ size_refs cs = length refs.
Proof. intros [<- <- Hok]. by rewrite slice_bits_length, slice_refs_length. Qed.

Lemma slice_is_advance cs n bits refs :
  slice_is cs bits refs -> (n <= length bits)%nat ->
  exists cs', advance n cs = Some cs' /\ slice_is cs' (drop n bits) refs.
Proof.
  intros Hcs Hn. pose proof (slice_is_size _ _ _ Hcs) as [Hs _]. destruct Hcs as [Hb Hr [Ho1 Ho2]].
  rewrite advance_some_eq by lia. eexists. split; [done|]. unfold size in Hs. split; [|done|].
  - rewrite <- Hb. unfold slice_bits. cbn. rewrite skipn_firstn_comm, drop_drop.
    replace (bits_en cs - (bits_st cs + n))%nat with (bits_en cs - bits_st cs - n)%nat by lia.
    done.
  - unfold slice_ok in *. cbn. lia.
Qed.
Lemma slice_is_adv cs n bits refs :
  slice_is cs bits refs -> (n <= length bits)%nat ->
  slice_is (default cs (advance n cs)) (drop n bits) refs.
Proof. intros Hcs Hn. by destruct (slice_is_advance _ _ _ _ Hcs Hn) as (cs' & -> & ?). Qed.

Lemma slice_of_cell_is c : slice_is (slice_of_cell c) (cell_bits c) (cell_refs c).
Proof.
  split; unfold slice_bits, slice_refs, slice_ok, slice_of_cell; cbn; [..|lia].
  - by rewrite Nat.sub_0_r, drop_0, firstn_all.
  - by rewrite Nat.sub_0_r, drop_0, firstn_all.
Qed.

Lemma slice_is_have cs n bits refs :
  slice_is cs bits refs -> (n <= length bits)%nat -> have n cs = true.
Proof. intros Hcs Hn. apply have_spec. by rewrite (proj1 (slice_is_size _ _ _ Hcs)). Qed.

Lemma slice_is_fetch cs n bits refs :
  slice_is cs bits refs -> (n <= length bits)%nat -> (n <= 64)%nat ->
  fetch_ulong n cs = (bits_to_Z (take n bits), default cs (advance n cs)).
Proof.
  intros Hcs Hn Hn'. unfold fetch_ulong. rewrite (slice_is_have _ _ _ _ Hcs Hn).
  rewrite (proj2 (Nat.ltb_ge _ _)) by lia. by rewrite (is_bits _ _ _ Hcs).
Qed.
Lemma slice_is_prefetch cs n bits refs :
  slice_is cs bits refs -> (n <= length bits)%nat -> (n <= 64)%nat ->
  prefetch_ulong n cs = bits_to_Z (take n bits).
Proof.
  intros Hcs Hn Hn'. unfold prefetch_ulong. rewrite (slice_is_have _ _ _ _ Hcs Hn).
  rewrite (proj2 (Nat.ltb_ge _ _)) by lia. by rewrite (is_bits _ _ _ Hcs).
Qed.

(** ** Encodings *)

(** The encoding of the label [l] in a node for [n] more bits of the key. *)
Definition hm_label (n : nat) (l : list bool) : list bool :=
  let k := len_bits n in let len := length l in
  let unary := false :: replicate len true ++ false :: l in
  let binary := true :: false :: Z_to_bits k (Z.of_nat len) ++ l in
  match l with
  | [] => unary
  | b :: _ =>
      if (memscan b l =? len)%nat && ((1 <? len)%nat && (k <? 2 * len - 1)%nat)
      then true :: true :: b :: Z_to_bits k (Z.of_nat len)
      else if (k <? len)%nat then binary else unary
  end.

(** A label reader that shows the label [l] in front of [payload] and [refs]. *)
Record label_at (lp : LabelParser) (l payload : list bool) (refs : list Cell) : Prop := mkLabelAt {
  at_bits : l_bits lp = length l;
  at_rest : l_same lp = 0 /\ s_bits lp = length l /\ slice_is (remainder lp) (l ++ payload) refs \/
            l_same lp <> 0 /\ s_bits lp = 0%nat /\ l = replicate (length l) (same_bit lp) /\
            slice_is (remainder lp) payload refs
}.

(** [e] is an encoding of [l], whatever follows. *)
Definition encodes (n : nat) (l e : list bool) : Prop :=
  forall cs payload refs, slice_is cs (e ++ payload) refs ->
    exists lp, parse_label cs n = Some lp /\ label_at lp l payload refs.

Lemma len_bits_spec n k : (k <= n)%nat -> Z.of_nat k < 2 ^ Z.of_nat (len_bits n).
Proof.
  intros Hk. unfold len_bits. destruct (Nat.eqb_spec n 0) as [->|Hn]; [assert (k = 0)%nat by lia; subst; done|].
  destruct (Nat.log2_spec n) as [_ Hl]; [lia|].
  rewrite <- (Nat2Z.inj_pow 2). apply Nat2Z.inj_lt. lia.
Qed.
Lemma len_bits_small n : (n <= 1023)%nat -> (len_bits n <= 10)%nat.
Proof.
  intros Hn. unfold len_bits. destruct (Nat.eqb_spec n 0); [lia|].
  assert (Nat.log2 n <= Nat.log2 1023)%nat by (apply Nat.log2_le_mono; lia).
  change (Nat.log2 1023) with 9%nat in *. lia.
Qed.
Lemma len_bits_mono n m : (n <= m)%nat -> (len_bits n <= len_bits m)%nat.
Proof.
  intros Hn. unfold len_bits. destruct (Nat.eqb_spec n 0), (Nat.eqb_spec m 0); try lia.
  assert (Nat.log2 n <= Nat.log2 m)%nat by (apply Nat.log2_le_mono; lia). lia.
Qed.

Lemma memscan_run b n (l : list bool) :
  memscan b (replicate n b ++ negb b :: l) = n.
Proof. induction n; simpl; [by destruct b|]. by rewrite eqb_reflx, IHn. Qed.
Lemma memscan_le b l : (memscan b l <= length l)%nat.
Proof. induction l as [|x l IH]; simpl; [lia|]. destruct (Bool.eqb x b); lia. Qed.
Lemma memscan_all b l : memscan b l = length l -> l = replicate (length l) b.
Proof.
  induction l as [|x l IH]; [done|]. simpl. destruct (Bool.eqb x b) eqn:E; [|lia].
  apply eqb_prop in E as ->. intros [= Hl]. f_equal. by apply IH.
Qed.
Lemma memscan_replicate b n : memscan b (replicate n b) = n.
Proof. induction n; [done|]. simpl. by rewrite eqb_reflx, IHn. Qed.

(** The three forms of labels are read back. *)
Lemma encodes_unary n l :
  (length l <= n)%nat -> encodes n l (false :: replicate (length l) true ++ false :: l).
Proof.
  intros Hl cs p refs Hcs. unfold parse_label. destruct l as [|b l].
  - rewrite (slice_is_prefetch _ _ _ _ Hcs) by (cbn; lia).
    eexists. split; [reflexivity|]. split; [done|left]. split_and!; [done|done|].
    apply (slice_is_adv _ 2) in Hcs; [|cbn; lia]. exact Hcs.
  - set (l' := b :: l) in *.
    rewrite (slice_is_prefetch _ _ _ _ Hcs) by (cbn; rewrite ?length_app; cbn; lia).
    change (bits_to_Z (take 2 ((false :: replicate (length l') true ++ false :: l') ++ p))) with 1.
    cbv iota beta zeta.
    apply (slice_is_adv _ 1) in Hcs; [|cbn; lia]. set (cs1 := default cs (advance 1 cs)) in *.
    change (drop 1 ((false :: replicate (length l') true ++ false :: l') ++ p))
      with ((replicate (length l') true ++ false :: l') ++ p) in Hcs.
    rewrite <- app_assoc in Hcs. cbn [app] in Hcs.
    assert (count_leading true cs1 = length l') as ->.
    { unfold count_leading. rewrite (is_bits _ _ _ Hcs). apply (memscan_run true). }
    rewrite (proj2 (Nat.ltb_ge _ _)) by lia.
    rewrite (slice_is_have _ _ _ _ Hcs) by (rewrite length_app, length_replicate; cbn; rewrite length_app; lia).
    cbn [orb negb]. eexists. split; [reflexivity|]. split; [done|left]. split_and!; [done|done|].
    apply (slice_is_adv _ (length l' + 1)) in Hcs; [|rewrite length_app, length_replicate; cbn; lia].
    replace (drop (length l' + 1) (replicate (length l') true ++ false :: l' ++ p)) with (l' ++ p) in Hcs; [exact Hcs|].
    rewrite drop_app_ge by (rewrite length_replicate; lia).
    by replace (length l' + 1 - length (replicate (length l') true))%nat with 1%nat by (rewrite length_replicate; lia).
Qed.

(** The length field. *)
Lemma fetch_len n k cs bits refs :
  (k <= n <= 1023)%nat -> slice_is cs (Z_to_bits (len_bits n) (Z.of_nat k) ++ bits) refs ->
  fetch_ulong (len_bits n) cs = (Z.of_nat k, default cs (advance (len_bits n) cs)) /\
  slice_is (default cs (advance (len_bits n) cs)) bits refs.
Proof.
  intros [Hk Hn] Hcs. pose proof (len_bits_small n Hn). pose proof (len_bits_spec n k Hk).
  assert (len_bits n <= length (Z_to_bits (len_bits n) (Z.of_nat k) ++ bits))%nat as Hl
    by (rewrite length_app, Z_to_bits_length; lia).
  split.
  - rewrite (slice_is_fetch _ _ _ _ Hcs Hl) by lia.
    rewrite take_app_length' by (by rewrite Z_to_bits_length). rewrite bits_to_Z_of_Z, Z.mod_small by lia. done.
  - apply (slice_is_adv _ (len_bits n)) in Hcs; [|done].
    by rewrite drop_app_length' in Hcs by (by rewrite Z_to_bits_length).
Qed.
Lemma len_wrap k n : (k <= n <= 1023)%nat -> wrap_s 32 (Z.of_nat k) = Z.of_nat k.
Proof. intros. apply wrap_s_small; [lia|]. change (32 - 1) with 31. lia. Qed.

Lemma encodes_binary n l :
  (length l <= n <= 1023)%nat ->
  encodes n l (true :: false :: Z_to_bits (len_bits n) (Z.of_nat (length l)) ++ l).
Proof.
  intros Hl cs p refs Hcs. unfold parse_label.
  rewrite (slice_is_prefetch _ _ _ _ Hcs) by (cbn; lia). cbn [app] in Hcs |- *.
  change (bits_to_Z (take 2 (true :: false :: (Z_to_bits (len_bits n) (Z.of_nat (length l)) ++ l) ++ p))) with 2.
  cbv iota beta zeta. apply (slice_is_adv _ 2) in Hcs; [|cbn; lia].
  change (drop 2 (true :: false :: ?x)) with x in Hcs. rewrite <- app_assoc in Hcs.
  destruct (fetch_len n (length l) _ _ _ Hl Hcs) as [-> Hcs'].
  rewrite (len_wrap _ n) by done. rewrite !(proj2 (Z.ltb_ge _ _)) by lia. cbn [orb].
  rewrite Nat2Z.id. rewrite (slice_is_have _ _ _ _ Hcs') by (rewrite length_app; lia).
  eexists. split; [reflexivity|]. split; [done|left]. by split_and!.
Qed.

Lemma encodes_same n b k :
  (k <= n <= 1023)%nat ->
  encodes n (replicate k b) (true :: true :: b :: Z_to_bits (len_bits n) (Z.of_nat k)).
Proof.
  intros Hk cs p refs Hcs. unfold parse_label. cbn [app] in Hcs.
  rewrite (slice_is_prefetch _ _ _ _ Hcs) by (cbn; lia).
  change (bits_to_Z (take 2 (true :: true :: ?x))) with 3. cbv iota beta zeta.
  rewrite (slice_is_have _ _ _ _ Hcs) by (cbn; rewrite length_app, Z_to_bits_length; lia). cbn [negb].
  rewrite (slice_is_fetch _ 3 _ _ Hcs) by (cbn; lia).
  apply (slice_is_adv _ 3) in Hcs; [|cbn; lia]. cbn [drop take] in Hcs |- *. cbv iota beta.
  destruct (fetch_len n k _ _ _ Hk Hcs) as [-> Hcs'].
  rewrite (len_wrap _ n) by done. rewrite !(proj2 (Z.ltb_ge _ _)) by lia. cbn [orb].
  eexists. split; [reflexivity|]. split; cbn; [by rewrite length_replicate, Nat2Z.id|right].
  rewrite length_replicate, !take_0. split_and!; [by destruct b|done|by destruct b|done].
Qed.

Lemma hm_label_encodes n l : (length l <= n <= 1023)%nat -> encodes n l (hm_label n l).
Proof.
  intros Hl. unfold hm_label. destruct l as [|b l]; [apply (encodes_unary n []); lia|]. set (l' := b :: l) in *.
  destruct (_ && _) eqn:E.
  - apply andb_true_iff in E as [E%Nat.eqb_eq _]. apply memscan_all in E. rewrite E at 1.
    apply encodes_same. lia.
  - clear E. destruct (_ <? _)%nat; [by apply encodes_binary|apply encodes_unary; lia].
Qed.
Lemma hm_label_length n l :
  (length l <= n)%nat -> (length (hm_label n l) <= 2 + len_bits n + length l)%nat.
Proof.
  intros Hl. unfold hm_label. destruct l as [|b l]; [cbn; lia|]. set (l' := b :: l) in *.
  destruct (_ && _) eqn:E.
  - apply andb_true_iff in E as [_ [?%Nat.ltb_lt _]%andb_true_iff]. cbn. rewrite Z_to_bits_length. lia.
  - clearbody l'. destruct (Nat.ltb_spec (len_bits n) (length l')); cbn [length app];
      rewrite ?length_app, ?Z_to_bits_length; [lia|]. rewrite length_replicate. cbn [length]. lia.
Qed.
