(* ===== verification/DictNode.v ===== *)
(** * Nodes of dictionaries

    What the functions of Dict.v that read or build one node do: the label that is
    appended, the comparison of a label with a key, and the cells that are created. *)
From S2P Require Import Prelude Int256 Cells DataCell Dict DictLabel.

(** ** Creation of ordinary cells over cells of level 0 *)

Section valid0.
Context `{Sha256}.

Definition valid0 (c : Cell) : Prop := exists i, cell_info c = Some i /\ ci_mask i = 0.

Lemma valid0_refs_info refs :
  Forall valid0 refs ->
  exists infos, mapM id (map cell_info refs) = Some infos /\ refs_ok refs infos /\
    Forall (fun i => ci_mask i = 0) infos.
Proof.
  induction 1 as [|r refs (i & Hi & Hm) _ (infos & Hs & Hr & Hms)].
  - exists []. split_and!; [done|constructor|constructor].
  - exists (i :: infos). cbn. rewrite Hi, Hs. cbn. split_and!; [done|constructor; [|done]|by constructor].
    by apply cell_info_ok.
Qed.
Lemma mask_union_zero infos : Forall (fun i => ci_mask i = 0) infos -> mask_union infos = 0.
Proof. unfold mask_union. induction 1 as [|i infos Hi _ IH]; [done|]. cbn. by rewrite Hi. Qed.
Lemma refs_depth_le refs d :
  Forall (fun r => (cell_depth r <= d)%nat) refs -> (refs_depth refs <= d)%nat.
Proof. unfold refs_depth. induction 1; cbn in *; lia. Qed.
Lemma cell_depth_le sp bits refs d :
  Forall (fun r => (cell_depth r <= d)%nat) refs -> (cell_depth (DataCell sp bits refs) <= S d)%nat.
Proof.
  intros Hd%refs_depth_le. destruct refs as [|r refs]; [cbn; lia|].
  change (S (refs_depth (r :: refs)) <= S d)%nat. lia.
Qed.

Lemma create_ok bits refs :
  (length bits <= max_bits)%nat -> (length refs <= max_refs)%nat -> Forall valid0 refs ->
  Forall (fun r => (cell_depth r < max_depth)%nat) refs ->
  create bits refs false = Some (DataCell false bits refs) /\ valid0 (DataCell false bits refs).
Proof.
  intros Hb Hr Hv Hd. destruct (valid0_refs_info refs Hv) as (infos & Hs & Hok & Hm).
  assert (exists i, cell_info (DataCell false bits refs) = Some i /\ ci_mask i = 0) as (i & Hi & Hi0).
  { cbn [cell_info]. rewrite Hs. rewrite !(proj2 (Nat.ltb_ge _ _)) by done. cbn [orb].
    unfold check_and_compute. cbn [cell_type check_by_type check_ordinary_cell].
    replace (forallb _ _) with true.
    { eexists. split; [reflexivity|]. by apply mask_union_zero. }
    symmetry. apply forallb_forall. intros d. rewrite in_map_iff. intros (j & <- & _). apply Z.leb_le.
    rewrite (max_depth_from refs); [|done| |lia].
    - assert (refs_depth refs <= max_depth - 1)%nat; [|destruct infos; unfold max_depth in *; lia].
      apply refs_depth_le. eapply list.Forall_impl; [exact Hd|]. intros r Hr'. simpl in Hr'. unfold max_depth in *. lia.
    - eapply list.Forall_impl; [exact Hm|]. intros x ->. cbn. lia. }
  unfold create. rewrite Hi. split; [done|]. by exists i.
Qed.
End valid0.

(** ** Comparison of a label with a key *)

Lemma slice_is_ref cs bits refs i : slice_is cs bits refs -> prefetch_ref i cs = refs !! i.
Proof.
  intros [_ <- _]. unfold prefetch_ref, slice_refs, size_refs.
  destruct (Nat.ltb_spec i (refs_en cs - refs_st cs)).
  - by rewrite lookup_take_lt, lookup_drop by lia.
  - by rewrite lookup_take_ge by lia.
Qed.

Section label.
Context (lp : LabelParser) (l payload : list bool) (refs : list Cell) (Hlp : label_at lp l payload refs).

Lemma same_upto_prefix (a b c : list bool) : same_upto (a ++ b) (a ++ c) = (length a + same_upto b c)%nat.
Proof. induction a as [|x a IH]; [done|]. cbn. by rewrite eqb_reflx, IH. Qed.
Lemma memscan_same_upto b n k :
  memscan b (take n k) = same_upto (replicate n b) k.
Proof.
  revert k. induction n as [|n IH]; intros k; [done|]. destruct k as [|x k]; [done|].
  cbn. rewrite IH. by destruct x, b.
Qed.
Lemma same_upto_take (a k : list bool) m :
  (length a <= m)%nat -> same_upto a (take m k) = same_upto a k.
Proof.
  revert k m. induction a as [|x a IH]; intros k m Hm; [by destruct k|]. cbn in Hm.
  destruct m; [lia|]. destruct k as [|y k]; [done|]. cbn. rewrite IH by lia. done.
Qed.

Lemma common_prefix_len_at key n :
  (length l <= n)%nat -> label_common_prefix_len lp key n = same_upto l key.
Proof.
  intros Hn. unfold label_common_prefix_len. rewrite (at_bits _ _ _ _ Hlp), Nat.min_l by done.
  destruct (at_rest _ _ _ _ Hlp) as [(-> & _ & Hs)|(Hne & _ & Hl & _)].
  - unfold slice_common_prefix_len. cbn [Z.eqb]. rewrite (proj1 (slice_is_size _ _ _ Hs)), (is_bits _ _ _ Hs).
    rewrite Nat.min_r by (rewrite length_app; lia). rewrite take_app_length. by apply same_upto_take.
  - rewrite (proj2 (Z.eqb_neq _ _)) by done. rewrite memscan_same_upto. by rewrite <- Hl.
Qed.

Lemma bits_eqb_spec a b : bits_eqb a b = bool_decide (a = b).
Proof. done. Qed.
Lemma same_upto_full (a k : list bool) :
  (length a <= length k)%nat -> same_upto a k = length a <-> take (length a) k = a.
Proof.
  revert k. induction a as [|x a IH]; intros k Hk; [by destruct k|].
  destruct k as [|y k]; [cbn in Hk; lia|]. cbn in *. specialize (IH k ltac:(lia)).
  destruct (Bool.eqb x y) eqn:E.
  - apply eqb_prop in E as ->. split; intros [= Hx]; f_equal; tauto.
  - split; [done|]. intros [= -> _]. by rewrite eqb_reflx in E.
Qed.

Lemma is_prefix_of_at key n :
  (length l <= n)%nat -> length key = n ->
  label_is_prefix_of lp key n = (same_upto l key =? length l)%nat.
Proof.
  intros Hn Hk. unfold label_is_prefix_of. rewrite (at_bits _ _ _ _ Hlp).
  rewrite (proj2 (Nat.ltb_ge _ _)) by lia. pose proof (same_upto_full l key ltac:(lia)) as Hf.
  destruct (at_rest _ _ _ _ Hlp) as [(-> & _ & Hs)|(Hne & _ & Hl & _)].
  - cbn [Z.eqb]. unfold slice_has_prefix. rewrite (proj1 (slice_is_size _ _ _ Hs)), (is_bits _ _ _ Hs).
    rewrite (proj2 (Nat.leb_le _ _)) by (rewrite length_app; lia). rewrite take_app_length, bits_eqb_spec.
    cbn [andb]. destruct (Nat.eqb_spec (same_upto l key) (length l)).
    + apply bool_decide_eq_true. symmetry. tauto.
    + apply bool_decide_eq_false. intros Hx. symmetry in Hx. tauto.
  - rewrite (proj2 (Z.eqb_neq _ _)) by done. rewrite memscan_same_upto. by rewrite <- Hl.
Qed.

Lemma skip_label_at : slice_is (skip_label lp) payload refs.
Proof.
  unfold skip_label. destruct (at_rest _ _ _ _ Hlp) as [(_ & -> & Hs)|(_ & -> & _ & Hs)].
  - apply (slice_is_adv _ (length l)) in Hs; [|rewrite length_app; lia]. by rewrite drop_app_length in Hs.
  - apply (slice_is_adv _ 0) in Hs; [|lia]. by rewrite drop_0 in Hs.
Qed.
Lemma extract_label_at : exists rest, extract_label lp = (l, rest) /\ slice_is rest payload refs.
Proof.
  unfold extract_label. rewrite (at_bits _ _ _ _ Hlp).
  destruct (at_rest _ _ _ _ Hlp) as [(-> & _ & Hs)|(Hne & _ & Hl & Hs)].
  - cbn [Z.eqb]. rewrite (is_bits _ _ _ Hs), take_app_length. eexists. split; [done|].
    apply (slice_is_adv _ (length l)) in Hs; [|rewrite length_app; lia]. by rewrite drop_app_length in Hs.
  - rewrite (proj2 (Z.eqb_neq _ _)) by done. rewrite <- Hl. by eexists.
Qed.
End label.

(** ** Appending a label *)

Lemma Z_to_bits_ones n : Z_to_bits n (-1) = replicate n true.
Proof. induction n as [|n IH]; [done|]. cbn [Z_to_bits replicate]. by rewrite IH, Z.bits_m1 by lia. Qed.
Lemma Z_to_bits_zero n : Z_to_bits n 0 = replicate n false.
Proof. induction n as [|n IH]; [done|]. cbn [Z_to_bits replicate]. by rewrite IH, Z.bits_0. Qed.
Lemma Z_to_bits_same n b : Z_to_bits n (- Z.b2z b) = replicate n b.
Proof. destruct b; [apply Z_to_bits_ones|apply Z_to_bits_zero]. Qed.
Lemma Z_to_bits_m2 n : Z_to_bits (n + 1) (-2) = replicate n true ++ [false].
Proof.
  induction n as [|n IH]; [done|]. cbn [Nat.add Z_to_bits replicate app]. rewrite IH. f_equal.
  replace (Z.of_nat (n + 1)) with (Z.succ (Z.of_nat n)) by lia.
  change (-2) with (2 * -1). by rewrite Z.double_bits_succ, Z.bits_m1 by lia.
Qed.

Section append.
Context {St : Type}.
Implicit Types s : St.

Lemma store_long_run x n bits refs s :
  (n <= 64)%nat -> (length bits + n <= max_bits)%nat ->
  store_long x n (mkBuilder bits refs) s = Ret (mkBuilder (bits ++ Z_to_bits n x) refs) s.
Proof.
  intros Hn Hb. unfold store_long, store_long_bool, store_bits_bool, remaining_bits.
  rewrite (proj2 (Nat.ltb_ge _ _)) by lia. cbn [cb_bits cb_refs].
  rewrite Z_to_bits_length. by rewrite !(proj2 (Nat.leb_le _ _)) by lia.
Qed.
Lemma store_bits_run bs bits refs s :
  (length bits + length bs <= max_bits)%nat ->
  store_bits bs (mkBuilder bits refs) s = Ret (mkBuilder (bits ++ bs) refs) s.
Proof.
  intros Hb. unfold store_bits, store_bits_bool, remaining_bits. cbn [cb_bits cb_refs].
  by rewrite (proj2 (Nat.leb_le _ _)) by lia.
Qed.
Lemma bind_ret_eq {A B} (m : M St A) (k : A -> M St B) a s s' :
  m s = Ret a s' -> bind m k s = k a s'.
Proof. unfold bind. by intros ->. Qed.

Lemma bind_store_long {B} x n bits refs (k : CellBuilder -> M St B) s :
  (n <= 64)%nat -> (length bits + n <= max_bits)%nat ->
  bind (store_long x n (mkBuilder bits refs)) k s = k (mkBuilder (bits ++ Z_to_bits n x) refs) s.
Proof. intros Hn Hb. apply bind_ret_eq. by apply store_long_run. Qed.

Local Ltac fits :=
  try (unfold max_bits in *; rewrite ?length_app, ?Z_to_bits_length; cbn [length Z_to_bits app]; lia).

(** The label of equal bits. *)
Lemma append_dict_label_same_run b len n s :
  (len <= n)%nat -> (n + 12 <= max_bits)%nat ->
  append_dict_label_same b len n empty_builder s = Ret (mkBuilder (hm_label n (replicate len b)) []) s.
Proof.
  intros Hl Hn. unfold max_bits in Hn. pose proof (len_bits_small n ltac:(lia)) as Hk.
  unfold append_dict_label_same.
  rewrite (proj2 (Nat.leb_le len n)), (proj2 (Nat.leb_le n 1023)) by lia. cbn [andb].
  rewrite (bind_ret_eq _ _ tt s s) by done. unfold empty_builder.
  assert (len <> 0 -> 0 < len_bits n)%nat as Hk0.
  { intros ?. unfold len_bits. rewrite (proj2 (Nat.eqb_neq n 0)) by lia. lia. }
  unfold hm_label. destruct len as [|len].
  { cbn -[store_long]. rewrite bind_store_long by fits.
    rewrite bind_store_long by fits.
    by rewrite store_long_run by fits. }
  cbn [replicate]. change (b :: replicate len b) with (replicate (S len) b).
  rewrite memscan_replicate, length_replicate, Nat.eqb_refl. cbn [andb].
  destruct (_ && _) eqn:E.
  - rewrite bind_store_long by fits.
    rewrite store_long_run by fits. by destruct b.
  - assert (S len <= len_bits n)%nat.
    { apply andb_false_iff in E as [E%Nat.ltb_ge|E%Nat.ltb_ge]; lia. }
    rewrite (proj2 (Nat.ltb_ge _ _)) by lia.
    rewrite bind_store_long by fits.
    rewrite bind_store_long by fits.
    rewrite store_long_run by fits.
    rewrite Z_to_bits_m2, Z_to_bits_same. cbn. by rewrite <- !app_assoc.
Qed.

Lemma append_dict_label_run l n s :
  (length l <= n)%nat -> (n + 12 <= max_bits)%nat ->
  append_dict_label l n empty_builder s = Ret (mkBuilder (hm_label n l) []) s.
Proof.
  intros Hl Hn. pose proof Hn as Hn'. unfold max_bits in Hn'. pose proof (len_bits_small n ltac:(lia)) as Hk.
  unfold append_dict_label.
  rewrite (proj2 (Nat.leb_le _ n)), (proj2 (Nat.leb_le n 1023)) by lia. cbn [andb].
  rewrite (bind_ret_eq _ _ tt s s) by done. unfold empty_builder.
  destruct l as [|b l].
  { cbn -[store_long store_bits]. rewrite (bind_ret_eq _ _ (mkBuilder [false; false] []) s s).
    - by rewrite (bind_ret_eq _ _ tt s s).
    - rewrite bind_store_long by fits.
      by rewrite store_long_run by fits. }
  set (l' := b :: l) in *. destruct (Nat.eqb_spec (memscan b l') (length l')) as [Hm|Hm].
  { pose proof (append_dict_label_same_run b (length l') n s Hl Hn) as Hr.
    apply memscan_all in Hm. by rewrite <- Hm in Hr. }
  unfold hm_label. subst l'. cbv iota beta. set (l' := b :: l) in *.
  rewrite (proj2 (Nat.eqb_neq _ _)) by done. cbn [andb].
  destruct (Nat.ltb_spec (len_bits n) (length l')).
  - rewrite (bind_ret_eq _ _ (mkBuilder (true :: false :: Z_to_bits (len_bits n) (Z.of_nat (length l'))) []) s s).
    + unfold remaining_bits. cbn [cb_bits length]. rewrite Z_to_bits_length.
      rewrite (proj2 (Nat.ltb_ge _ _)) by (unfold max_bits; lia).
      rewrite (bind_ret_eq _ _ tt s s) by done.
      rewrite store_bits_run by (cbn [length]; rewrite Z_to_bits_length; unfold max_bits; lia). done.
    + rewrite bind_store_long by fits.
      by rewrite store_long_run by fits.
  - rewrite (bind_ret_eq _ _ (mkBuilder (false :: replicate (length l') true ++ [false]) []) s s).
    + unfold remaining_bits. cbn [cb_bits length]. rewrite length_app, length_replicate. cbn [length].
      rewrite (proj2 (Nat.ltb_ge _ _)) by (unfold max_bits; lia).
      rewrite (bind_ret_eq _ _ tt s s) by done.
      rewrite store_bits_run
        by (cbn [length]; rewrite length_app, length_replicate; cbn [length]; unfold max_bits; lia).
      cbn [app]. by rewrite <- app_assoc.
    + rewrite bind_store_long by fits.
      rewrite store_long_run by fits. by rewrite Z_to_bits_m2.
Qed.
End append.

(** ** What the access to cells promises

    Ordinary cells can be loaded, and cells can be created: an invariant of the state is
    kept, and what may be thrown satisfies [io_exc]. *)
Class CellLaws (St : Type) `{CellIO St} := {
  io_inv : St -> Prop;
  io_exc : exc -> St -> Prop;
  load_law c s : cell_special c = false -> io_inv s ->
    wp (load_cell_slice_ref c) (fun cs s' => cs = slice_of_cell c /\ io_inv s') io_exc s;
  create_law s : io_inv s -> wp register_create (fun _ s' => io_inv s') io_exc s
}.

(** Outside of the machine nothing is thrown. *)
#[export, refine] Instance no_vm_laws : CellLaws unit :=
  { io_inv _ := True; io_exc _ _ := False }.
Proof.
  - intros [sp bits refs] s Hc _. cbn in Hc. subst sp. done.
  - done.
Defined.

(** The contents of a value, and functions that store it. *)
Definition value : Type := list bool * list Cell.
Definition stores (v : value) (f : store_value) : Prop :=
  forall bits refs, (length bits + length (fst v) <= max_bits)%nat -> (length refs + length (snd v) <= max_refs)%nat ->
    f (mkBuilder bits refs) = Some (mkBuilder (bits ++ fst v) (refs ++ snd v)).

Lemma append_stores cs bits refs : slice_is cs bits refs -> stores (bits, refs) (append_cellslice_bool cs).
Proof.
  intros Hs cb_b cb_r Hb Hr. cbn in Hb, Hr. unfold append_cellslice_bool, can_extend_by, remaining_bits, remaining_refs.
  destruct (slice_is_size _ _ _ Hs) as [-> ->]. cbn [cb_bits cb_refs].
  rewrite !(proj2 (Nat.leb_le _ _)) by lia. cbn [andb]. by rewrite (is_bits _ _ _ Hs), (is_refs _ _ _ Hs).
Qed.

Section nodes.
Context `{Sha256} {St : Type} `{CellLaws St}.
Implicit Types s : St.

Lemma wp_run_to {A} (m : M St A) (Q : A -> St -> Prop) E a s : m s = Ret a s -> Q a s -> wp m Q E s.
Proof. unfold wp. by intros ->. Qed.

Lemma wp_read_label n mode l e payload refs s :
  encodes n l e -> (length l <= n)%nat -> ((length l < n)%nat -> payload = [] /\ length refs = 2%nat) ->
  io_inv s ->
  wp (read_label (DataCell false (e ++ payload) refs) n mode)
     (fun lp s' => label_at lp l payload refs /\ io_inv s') io_exc s.
Proof.
  intros He Hl Hf Hi. unfold read_label. wp_step. eapply wp_mono; [by apply load_law| |done].
  intros cs s' [-> Hi'].
  destruct (He _ _ _ (slice_of_cell_is (DataCell false (e ++ payload) refs))) as (lp & -> & Hlp).
  wp_step. unfold validate_label. rewrite (at_bits _ _ _ _ Hlp).
  assert ((length l <? n)%nat = true ->
    (size (remainder lp) = s_bits lp /\ size_refs (remainder lp) = 2)%nat) as Hs.
  { intros [-> Hr]%Nat.ltb_lt%Hf.
    destruct (at_rest _ _ _ _ Hlp) as [(_ & -> & Hs)|(_ & -> & _ & Hs)];
      destruct (slice_is_size _ _ _ Hs) as [-> ->]; rewrite ?length_app; cbn; lia. }
  destruct mode; [wp_step; by wp_step|..];
    (wp_step; wp_step; [|rewrite (proj2 (Nat.leb_le _ _)) in * by lia; done];
     wp_step; [by wp_step|]; destruct (length l <? n)%nat; [|done];
     destruct (Hs eq_refl) as [Hs1 Hs2]; rewrite Hs1, Hs2 in *).
  - by rewrite Nat.ltb_irrefl in *.
  - by rewrite Nat.eqb_refl in *.
Qed.

Definition depths_below (d : nat) (refs : list Cell) : Prop := Forall (fun r => (cell_depth r < d)%nat) refs.

Lemma wp_finalize bits refs s :
  (length bits <= max_bits)%nat -> (length refs <= max_refs)%nat -> Forall valid0 refs ->
  depths_below max_depth refs -> io_inv s ->
  wp (finalize_builder (mkBuilder bits refs))
     (fun c s' => c = DataCell false bits refs /\ valid0 c /\ io_inv s') io_exc s.
Proof.
  intros Hb Hr Hv Hd Hi. unfold finalize_builder. wp_step.
  eapply wp_mono; [by apply create_law| |done]. intros [] s1 Hi1. cbn [cb_bits cb_refs].
  destruct (create_ok bits refs) as [-> Hc]; [done..|]. by apply wp_run_to with (a := DataCell false bits refs).
Qed.

Lemma wp_make_leaf key n f v s :
  (length key <= n)%nat -> (n + len_bits n + 2 + length (fst v) <= max_bits)%nat -> (n + 12 <= max_bits)%nat ->
  (length (snd v) <= max_refs)%nat -> Forall valid0 (snd v) -> depths_below max_depth (snd v) ->
  stores v f -> io_inv s ->
  wp (make_leaf key n f)
     (fun c s' => c = DataCell false (hm_label n key ++ fst v) (snd v) /\ valid0 c /\ io_inv s') io_exc s.
Proof.
  intros Hk Hn Hn' Hr Hv Hd Hf Hi. unfold make_leaf. wp_step.
  eapply wp_run_to; [by apply append_dict_label_run|]. wp_step.
  pose proof (hm_label_length n key Hk) as Hlen. unfold store_or_ov.
  rewrite Hf by (cbn; lia). wp_step. apply wp_finalize; try done. rewrite length_app. lia.
Qed.

Lemma wp_store_ref {A} c bits refs (k : CellBuilder -> M St A) Q E s :
  (length refs < max_refs)%nat -> wp (k (mkBuilder bits (refs ++ [c]))) Q E s ->
  wp (bind (store_ref c (mkBuilder bits refs)) k) Q E s.
Proof.
  intros Hr Hk. wp_step. unfold store_ref, store_ref_bool. cbn [cb_refs cb_bits].
  by rewrite (proj2 (Nat.ltb_lt _ _)) by done.
Qed.

(** The references of a fork behind its label. *)
Lemma wp_fork_refs l n c1 c2 s :
  (length l <= n)%nat -> (n + 12 <= max_bits)%nat -> Forall valid0 [c1; c2] ->
  depths_below max_depth [c1; c2] -> io_inv s ->
  wp (cb <- store_ref c1 (mkBuilder (hm_label n l) []) ;; cb <- store_ref c2 cb ;; finalize_builder cb)
     (fun c s' => c = DataCell false (hm_label n l) [c1; c2] /\ valid0 c /\ io_inv s') io_exc s.
Proof.
  intros Hk Hn Hv Hd Hi.
  pose proof (hm_label_length n l Hk) as Hlen. pose proof (len_bits_small n) as Hb. unfold max_bits in Hn.
  apply wp_store_ref; [cbn; unfold max_refs; lia|]. apply wp_store_ref; [cbn; unfold max_refs; lia|].
  apply wp_finalize; try done; unfold max_bits, max_refs; cbn; lia.
Qed.
End nodes.

(** A cell that begins with an encoded label. *)
Definition labelled_cell (e payload : list bool) (refs : list Cell) : Cell := DataCell false (e ++ payload) refs.

(** A label that [append_dict_label] writes is read back by [parse_label], whatever
    data and references follow it in the cell, in any of the three encodings; the label
    takes at most the length of the length field and two bits more than its own. *)
Theorem dict_label_roundtrip l n payload refs :
  (length l <= n)%nat -> (n + 12 <= max_bits)%nat ->
  exists e lp rest, append_dict_label l n empty_builder tt = Ret (mkBuilder e []) tt /\
    (length e <= 2 + len_bits n + length l)%nat /\
    parse_label (slice_of_cell (labelled_cell e payload refs)) n = Some lp /\
    extract_label lp = (l, rest) /\ slice_bits rest = payload /\ slice_refs rest = refs.
Proof.
  intros Hl Hn.
  destruct (hm_label_encodes n l ltac:(unfold max_bits in *; lia) _ _ _
    (slice_of_cell_is (DataCell false (hm_label n l ++ payload) refs))) as (lp & Hp & Hlp).
  destruct (extract_label_at _ _ _ _ Hlp) as (rest & Hx & [Hb Hr _]).
  exists (hm_label n l), lp, rest. split_and!; try done; [by apply append_dict_label_run|by apply hm_label_length].
Qed.
Lemma dict_label_roundtrip_witness :
  exists e lp rest, append_dict_label [true; true; true; true; true] 32 empty_builder tt = Ret (mkBuilder e []) tt /\
    parse_label (slice_of_cell (DataCell false (e ++ [false]) [])) 32 = Some lp /\
    extract_label lp = ([true; true; true; true; true], rest).
Proof.
  destruct (dict_label_roundtrip [true; true; true; true; true] 32 [false] []) as (e & lp & rest & H1 & _ & H2 & H3 & _).
  - cbn. lia.
  - unfold max_bits. lia.
  - exists e, lp, rest. split; [exact H1|]. split; [exact H2|exact H3].
Defined.
