(* ===== verification/DictTree.v ===== *)
(** * Patricia trees

    The tree that a dictionary is: labels on the edges, values at the leaves.  Lookup,
    insertion and deletion on trees, as finite maps from keys; and that a map has at
    most one tree. *)
From S2P Require Import Prelude.
From stdpp Require Import gmap.

Section trees.
Context {V : Type}.

Inductive tree : Type :=
| Leaf (l : list bool) (v : V)
| Fork (l : list bool) (t0 t1 : tree).

Definition label (t : tree) : list bool := match t with Leaf l _ | Fork l _ _ => l end.
(** The tree with another label on its edge. *)
Definition relabel (l : list bool) (t : tree) : tree :=
  match t with Leaf _ v => Leaf l v | Fork _ t0 t1 => Fork l t0 t1 end.
Definition fork (l : list bool) (b : bool) (t t' : tree) : tree :=
  if b then Fork l t' t else Fork l t t'.

(** All keys have [n] bits. *)
Fixpoint wf (n : nat) (t : tree) : Prop :=
  match t with
  | Leaf l _ => length l = n
  | Fork l t0 t1 => (length l < n)%nat /\ wf (n - length l - 1) t0 /\ wf (n - length l - 1) t1
  end.
Fixpoint all_values (P : V -> Prop) (t : tree) : Prop :=
  match t with Leaf _ v => P v | Fork _ t0 t1 => all_values P t0 /\ all_values P t1 end.

(** A key against a label: the rest of the key, or where they part. *)
Inductive matched : Type :=
| Full (rest : list bool)
| Diverge (pfx : list bool) (b : bool) (label_rest key_rest : list bool)
| Short.
Definition matched_cons (x : bool) (m : matched) : matched :=
  match m with Diverge p b l k => Diverge (x :: p) b l k | _ => m end.
Fixpoint match_label (l key : list bool) : matched :=
  match l, key with
  | [], _ => Full key
  | _ :: _, [] => Short
  | x :: l', y :: key' => if Bool.eqb x y then matched_cons x (match_label l' key') else Diverge [] y l' key'
  end.

Fixpoint t_lookup (t : tree) (key : list bool) : option V :=
  match t with
  | Leaf l v => match match_label l key with Full [] => Some v | _ => None end
  | Fork l t0 t1 =>
      match match_label l key with
      | Full (b :: key') => if b then t_lookup t1 key' else t_lookup t0 key'
      | _ => None
      end
  end.

Fixpoint t_set (key : list bool) (v : V) (t : tree) : tree :=
  match match_label (label t) key with
  | Short => t
  | Diverge p b l' key' => fork p b (Leaf key' v) (relabel l' t)
  | Full key' =>
      match t, key' with
      | Leaf l _, _ => Leaf l v
      | Fork l t0 t1, b :: key' => if b then Fork l t0 (t_set key' v t1) else Fork l (t_set key' v t0) t1
      | Fork _ _ _, [] => t
      end
  end.

(** Deletion of a key that is present: what is left, if anything. *)
Fixpoint t_delete (key : list bool) (t : tree) : option tree :=
  match t with
  | Leaf _ _ => None
  | Fork l t0 t1 =>
      match match_label l key with
      | Full (b :: key') =>
          match (if b then t_delete key' t1 else t_delete key' t0) with
          | Some t' => Some (fork l b t' (if b then t0 else t1))
          | None => let t' := if b then t0 else t1 in Some (relabel (l ++ negb b :: label t') t')
          end
      | _ => Some t
      end
  end.

(** ** Labels and keys *)

Lemma match_label_full l r : match_label l (l ++ r) = Full r.
Proof. induction l as [|x l IH]; [done|]. cbn. by rewrite eqb_reflx, IH. Qed.
Lemma match_label_diverge p b l k :
  match_label (p ++ negb b :: l) (p ++ b :: k) = Diverge p b l k.
Proof. induction p as [|x p IH]; cbn; [by destruct b|]. by rewrite eqb_reflx, IH. Qed.
Lemma match_label_short l k r : l = k ++ r -> r <> [] -> match_label l k = Short.
Proof.
  revert k. induction l as [|x l IH]; intros [|y k] Hl Hr; simplify_eq/=; try done.
  rewrite eqb_reflx. by rewrite IH.
Qed.

Lemma label_cases (l key : list bool) :
  (exists r, key = l ++ r) \/ (exists p b l' k', l = p ++ negb b :: l' /\ key = p ++ b :: k') \/
  (exists r, r <> [] /\ l = key ++ r).
Proof.
  revert key. induction l as [|x l IH]; intros key; [left; by exists key|].
  destruct key as [|y key]; [right; right; by exists (x :: l)|].
  destruct (decide (x = y)) as [->|Hne].
  - destruct (IH key) as [[r ->]|[(p & b & l' & k' & -> & ->)|(r & Hr & ->)]].
    + left. by exists r.
    + right; left. by exists (y :: p), b, l', k'.
    + right; right. by exists r.
  - right; left. exists [], y, l, key. split; [|done]. destruct x, y; done.
Qed.
(** For keys that are not shorter than the label. *)
Lemma label_cases_le (l key : list bool) :
  (length l <= length key)%nat ->
  (exists r, key = l ++ r) \/ (exists p b l' k', l = p ++ negb b :: l' /\ key = p ++ b :: k').
Proof.
  intros Hl. destruct (label_cases l key) as [?|[?|(r & Hr & ->)]]; [by left|by right|].
  rewrite length_app in Hl. destruct r; [done|]. cbn in Hl. lia.
Qed.

(** ** Lookup *)

Lemma lookup_prefix t k v : t_lookup t k = Some v -> label t `prefix_of` k.
Proof.
  intros Hv. destruct (label_cases (label t) k) as [[r Hr]|[(p & b & l' & k' & Hl & Hk)|(r & Hr & Hl)]].
  - by exists r.
  - destruct t; cbn in *; subst; by rewrite match_label_diverge in Hv.
  - destruct t; cbn in *; by rewrite (match_label_short _ _ _ Hl Hr) in Hv.
Qed.
Lemma lookup_not_prefix t k : ~ (label t `prefix_of` k) -> t_lookup t k = None.
Proof. intros Hp. destruct (t_lookup t k) eqn:E; [|done]. by apply lookup_prefix in E. Qed.

Lemma label_relabel l t : label (relabel l t) = l.
Proof. by destruct t. Qed.
Lemma relabel_relabel l l' t : relabel l (relabel l' t) = relabel l t.
Proof. by destruct t. Qed.
Lemma relabel_label t : relabel (label t) t = t.
Proof. by destruct t. Qed.

Lemma lookup_leaf l v k : t_lookup (Leaf l v) k = if decide (k = l) then Some v else None.
Proof.
  destruct (decide (k = l)) as [->|Hk].
  - cbn. rewrite <- (app_nil_r l) at 2. by rewrite match_label_full.
  - destruct (t_lookup (Leaf l v) k) eqn:E; [|done]. pose proof (lookup_prefix _ _ _ E) as [r ->].
    cbn in *. rewrite match_label_full in E. destruct r; [|done]. by rewrite app_nil_r in Hk.
Qed.
Lemma lookup_fork l t0 t1 b k :
  t_lookup (Fork l t0 t1) (l ++ b :: k) = t_lookup (if b then t1 else t0) k.
Proof. cbn. rewrite match_label_full. by destruct b. Qed.
Lemma lookup_fork_end l t0 t1 : t_lookup (Fork l t0 t1) l = None.
Proof. cbn. rewrite <- (app_nil_r l) at 2. by rewrite match_label_full. Qed.
Lemma lookup_fork' l b t t' c k :
  t_lookup (fork l b t t') (l ++ c :: k) = t_lookup (if Bool.eqb c b then t else t') k.
Proof. destruct b, c; cbn; by rewrite match_label_full. Qed.
Lemma label_fork l b t t' : label (fork l b t t') = l.
Proof. by destruct b. Qed.

Lemma lookup_relabel l t r : t_lookup (relabel l t) (l ++ r) = t_lookup t (label t ++ r).
Proof. destruct t; cbn; by rewrite !match_label_full. Qed.
(** A part of the label moved out of the tree. *)
Lemma lookup_strip q l t k : label t = q ++ l -> t_lookup (relabel l t) k = t_lookup t (q ++ k).
Proof.
  intros Hl. destruct (decide (l `prefix_of` k)) as [[r ->]|Hp].
  - by rewrite lookup_relabel, Hl, app_assoc.
  - rewrite !lookup_not_prefix; [done|..].
    + rewrite Hl. intros [r Hr]. rewrite <- app_assoc in Hr. simplify_list_eq. apply Hp. by exists r.
    + by rewrite label_relabel.
Qed.

(** ** Insertion *)

Lemma lookup_split p b l' k' v t k :
  label t = p ++ negb b :: l' ->
  t_lookup (fork p b (Leaf k' v) (relabel l' t)) k =
  if decide (k = p ++ b :: k') then Some v else t_lookup t k.
Proof.
  intros Hl. destruct (decide (p `prefix_of` k)) as [[r ->]|Hp].
  2: { rewrite !lookup_not_prefix.
       - destruct (decide _) as [->|]; [|done]. destruct Hp. by eexists.
       - rewrite Hl. intros [r ->]. apply Hp. rewrite <- app_assoc. by eexists.
       - by rewrite label_fork. }
  destruct r as [|c r].
  { rewrite app_nil_r. rewrite (decide_False (P := p = p ++ b :: k')).
    - rewrite (lookup_not_prefix t); [by destruct b; apply lookup_fork_end|].
      rewrite Hl. intros [r Hr]. apply (f_equal length) in Hr. rewrite !length_app in Hr. cbn in Hr. lia.
    - intros Hx. apply (f_equal length) in Hx. rewrite length_app in Hx. cbn in Hx. lia. }
  rewrite lookup_fork'. destruct (Bool.eqb c b) eqn:E.
  - apply eqb_prop in E as ->. rewrite lookup_leaf.
    destruct (decide (r = k')) as [->|Hr], (decide (_ ++ _ = _)) as [Hx|Hx]; simplify_list_eq; try done.
    rewrite lookup_not_prefix; [done|]. rewrite Hl. intros [r' Hr']. simplify_list_eq. by destruct b.
  - rewrite decide_False by (intros Hx; simplify_list_eq; by rewrite eqb_reflx in E).
    rewrite (lookup_strip (p ++ [negb b])) by (by rewrite Hl, <- app_assoc). rewrite <- app_assoc. cbn [app].
    do 3 f_equal. by destruct b, c.
Qed.

Lemma set_diverge p b l' k' v t :
  label t = p ++ negb b :: l' -> t_set (p ++ b :: k') v t = fork p b (Leaf k' v) (relabel l' t).
Proof. intros Hl. destruct t; cbn in *; subst; by rewrite match_label_diverge. Qed.
Lemma set_leaf l v0 v : t_set l v (Leaf l v0) = Leaf l v.
Proof. cbn. rewrite <- (app_nil_r l) at 2. by rewrite match_label_full. Qed.
Lemma set_fork l t0 t1 b k v :
  t_set (l ++ b :: k) v (Fork l t0 t1) = fork l b (t_set k v (if b then t1 else t0)) (if b then t0 else t1).
Proof. cbn. rewrite match_label_full. by destruct b. Qed.

Lemma wf_label n t : wf n t -> (length (label t) <= n)%nat.
Proof. destruct t; cbn; lia. Qed.
Lemma wf_relabel n n' l t :
  wf n t -> (n' + length (label t) = n + length l)%nat -> wf n' (relabel l t).
Proof.
  destruct t; cbn; intros Hw Hn; [lia|]. destruct Hw as (? & Hw0 & Hw1).
  replace (n' - length l - 1)%nat with (n - length l0 - 1)%nat by lia. split_and!; [lia|done|done].
Qed.
Lemma wf_fork n l b t t' :
  (length l < n)%nat -> wf (n - length l - 1) t -> wf (n - length l - 1) t' -> wf n (fork l b t t').
Proof. intros. by destruct b. Qed.

(** How the label of a tree and a key of its length relate. *)
Lemma key_cases n t key :
  wf n t -> length key = n ->
  (exists p b l' k', label t = p ++ negb b :: l' /\ key = p ++ b :: k') \/
  (exists v, t = Leaf key v) \/
  (exists l t0 t1 b k, t = Fork l t0 t1 /\ key = l ++ b :: k /\ (length l < n)%nat /\
     length k = (n - length l - 1)%nat /\ wf (length k) (if b then t1 else t0) /\ wf (length k) (if b then t0 else t1)).
Proof.
  intros Hw Hk. destruct (label_cases_le (label t) key) as [[r Hr]|?]; [rewrite Hk; by apply wf_label| |by left].
  right. destruct t as [l v|l t0 t1]; cbn in Hr, Hw.
  - left. exists v. subst key. rewrite length_app in Hk. destruct r; [by rewrite app_nil_r|cbn in Hk; lia].
  - right. destruct Hw as (Hl & Hw0 & Hw1). subst key. rewrite length_app in Hk.
    destruct r as [|b r]; cbn in Hk; [lia|]. exists l, t0, t1, b, r.
    assert (length r = n - length l - 1)%nat as -> by lia. by destruct b.
Qed.

Lemma decide_iff (P Q : Prop) {dP : Decision P} {dQ : Decision Q} {A} (x y : A) :
  (P <-> Q) -> (if decide P then x else y) = if decide Q then x else y.
Proof. intros HPQ. destruct (decide P), (decide Q); tauto. Qed.

Lemma wf_set n t key v : wf n t -> length key = n -> wf n (t_set key v t).
Proof.
  revert n key. induction t as [l v0|l t0 IH0 t1 IH1]; intros n key Hw Hk;
    destruct (key_cases _ _ _ Hw Hk) as [(p & b & l' & k' & Hl & ->)|[[v' [= -> ->]]|
      (l2 & t2 & t3 & b & k & [= <- <- <-] & -> & Hn & Hk' & Hw2 & Hw3)]].
  all: try (rewrite (set_diverge _ _ _ _ _ _ Hl); pose proof (wf_label _ _ Hw) as Hlw; rewrite Hl in Hlw;
    rewrite length_app in Hk, Hlw; cbn in Hk, Hlw; apply wf_fork; [lia|cbn; lia|];
    apply (wf_relabel n); [done|rewrite Hl, length_app; cbn; lia]).
  - by rewrite set_leaf.
  - rewrite set_fork. apply wf_fork; [done|..]; rewrite <- Hk'; [|done]. destruct b; auto.
Qed.

Lemma lookup_set n t key v k :
  wf n t -> length key = n ->
  t_lookup (t_set key v t) k = if decide (k = key) then Some v else t_lookup t k.
Proof.
  revert n key k. induction t as [l v0|l t0 IH0 t1 IH1]; intros n key k Hw Hk;
    destruct (key_cases _ _ _ Hw Hk) as [(p & b & l' & k' & Hl & ->)|[[v' [= -> ->]]|
      (l2 & t2 & t3 & b & k' & [= <- <- <-] & -> & Hn & Hk' & Hw2 & Hw3)]].
  all: try (rewrite (set_diverge _ _ _ _ _ _ Hl); by apply lookup_split).
  - rewrite set_leaf, !lookup_leaf. by destruct (decide _).
  - rewrite set_fork. destruct (decide (l `prefix_of` k)) as [[r ->]|Hp].
    2: { rewrite !lookup_not_prefix by (by rewrite ?label_fork).
         rewrite decide_False; [done|]. intros ->. apply Hp. by eexists. }
    destruct r as [|c r].
    { rewrite app_nil_r, lookup_fork_end, decide_False.
      - destruct b; apply lookup_fork_end.
      - intros Hx. apply (f_equal length) in Hx. rewrite length_app in Hx. cbn in Hx. lia. }
    rewrite lookup_fork', lookup_fork. destruct (Bool.eqb c b) eqn:E.
    + apply eqb_prop in E as ->. rewrite (decide_iff _ (r = k')) by (split; intros ?; by simplify_list_eq).
      destruct b; [eapply IH1|eapply IH0]; done.
    + rewrite decide_False by (intros Hx; simplify_list_eq; by rewrite eqb_reflx in E).
      by destruct b, c.
Qed.
Lemma all_values_relabel P l t : all_values P (relabel l t) <-> all_values P t.
Proof. by destruct t. Qed.
Lemma all_values_fork P l b t t' : all_values P (fork l b t t') <-> all_values P t /\ all_values P t'.
Proof. destruct b; cbn; tauto. Qed.
Lemma all_values_set P key v t : all_values P t -> P v -> all_values P (t_set key v t).
Proof.
  revert key. induction t as [l v0|l t0 IH0 t1 IH1]; intros key Ht Hv; cbn;
    destruct (match_label l key) as [[|b k]|p b l' k'|]; try done.
  - destruct b; by split.
  - destruct Ht, b; cbn; auto.
  - rewrite all_values_fork. by destruct Ht.
Qed.

(** ** Deletion *)

Lemma lookup_diverge p b l' k' t : label t = p ++ negb b :: l' -> t_lookup t (p ++ b :: k') = None.
Proof. intros Hl. destruct t; cbn in *; subst; by rewrite match_label_diverge. Qed.
Lemma lookup_fork_ne l b t t' t0 t1 k :
  (forall c r, k = l ++ c :: r -> t_lookup (if Bool.eqb c b then t else t') r = t_lookup (if c then t1 else t0) r) ->
  t_lookup (fork l b t t') k = t_lookup (Fork l t0 t1) k.
Proof.
  intros Hr. destruct (decide (l `prefix_of` k)) as [[r ->]|Hp].
  - destruct r as [|c r]; [unfold fork; rewrite app_nil_r; destruct b; by rewrite !lookup_fork_end|].
    rewrite lookup_fork', lookup_fork. by apply Hr.
  - by rewrite !lookup_not_prefix by (by rewrite ?label_fork).
Qed.

Lemma delete_fork l t0 t1 b k :
  t_delete (l ++ b :: k) (Fork l t0 t1) =
  match t_delete k (if b then t1 else t0) with
  | Some t' => Some (fork l b t' (if b then t0 else t1))
  | None => let t' := if b then t0 else t1 in Some (relabel (l ++ negb b :: label t') t')
  end.
Proof. cbn. rewrite match_label_full. by destruct b. Qed.

(** The lookups of what is left, if anything. *)
Definition lookup_opt (t : option tree) (k : list bool) : option V :=
  match t with Some t => t_lookup t k | None => None end.

(** Joining the edge of a fork with the edge of the child that is left. *)
Lemma lookup_merge l b t k :
  t_lookup (relabel (l ++ b :: label t) t) k =
  match match_label l k with Full (c :: r) => if Bool.eqb c b then t_lookup t r else None | _ => None end.
Proof.
  destruct (label_cases l k) as [[r ->]|[(p & c & l' & k' & -> & ->)|(r & Hr & ->)]].
  - rewrite match_label_full. destruct r as [|c r].
    { rewrite app_nil_r, lookup_not_prefix; [done|]. rewrite label_relabel. intros [r Hr].
      apply (f_equal length) in Hr. rewrite !length_app in Hr. cbn in Hr. lia. }
    destruct (Bool.eqb c b) eqn:E.
    + apply eqb_prop in E as ->. pose proof (lookup_strip (l ++ [b]) (label t) (relabel (l ++ b :: label t) t) r) as Hs.
      rewrite label_relabel, relabel_relabel, relabel_label, <- !app_assoc in Hs. symmetry. by apply Hs.
    + rewrite lookup_not_prefix; [done|]. rewrite label_relabel. intros [r' Hr]. simplify_list_eq.
      by rewrite eqb_reflx in E.
  - rewrite match_label_diverge, lookup_not_prefix; [done|]. rewrite label_relabel. intros [r Hr].
    simplify_list_eq. by destruct c.
  - rewrite (match_label_short _ k r), lookup_not_prefix; [done| |done|done]. rewrite label_relabel. intros [r' Hr'].
    apply (f_equal length) in Hr'. rewrite !length_app in Hr'. cbn in Hr'. lia.
Qed.

Lemma lookup_delete n t key k :
  wf n t -> length key = n -> is_Some (t_lookup t key) ->
  lookup_opt (t_delete key t) k = if decide (k = key) then None else t_lookup t k.
Proof.
  revert n key k. induction t as [l v0|l t0 IH0 t1 IH1]; intros n key k Hw Hk Hv;
    destruct (key_cases _ _ _ Hw Hk) as [(p & b & l' & k' & Hl & ->)|[[v' [= -> ->]]|
      (l2 & t2 & t3 & b & k' & [= <- <- <-] & -> & Hn & Hk' & Hw2 & Hw3)]].
  all: try (rewrite (lookup_diverge _ _ _ _ _ Hl) in Hv; by destruct Hv).
  - cbn [t_delete lookup_opt]. rewrite lookup_leaf. by destruct (decide _).
  - rewrite lookup_fork in Hv. rewrite delete_fork.
    assert (forall r, lookup_opt (t_delete k' (if b then t1 else t0)) r =
      if decide (r = k') then None else t_lookup (if b then t1 else t0) r) as IH
      by (intros r; destruct b; [eapply IH1|eapply IH0]; done).
    clear IH0 IH1. destruct (t_delete k' _) as [t'|] eqn:Ed; cbn [lookup_opt].
    + destruct (decide (k = _)) as [->|Hne].
      { rewrite lookup_fork', eqb_reflx. specialize (IH k'). cbn in IH. by rewrite decide_True in IH. }
      apply lookup_fork_ne. intros c r ->. destruct (Bool.eqb c b) eqn:E.
      * apply eqb_prop in E as ->. specialize (IH r). cbn in IH. rewrite IH, decide_False; [done|]. by intros ->.
      * by destruct b, c.
    + rewrite lookup_merge.
      destruct (label_cases l k) as [[r ->]|[(p & c & l' & k2 & -> & ->)|(r & Hr & ->)]].
      * rewrite match_label_full. destruct r as [|c r].
        { rewrite app_nil_r, lookup_fork_end. by destruct (decide _). }
        rewrite lookup_fork. destruct (Bool.eqb c (negb b)) eqn:E.
        { apply eqb_prop in E as ->. rewrite decide_False by (intros ?; simplify_list_eq; by destruct b).
          by destruct b. }
        assert (c = b) as -> by (by destruct b, c).
        rewrite (decide_iff _ (r = k')) by (split; intros ?; by simplify_list_eq). apply IH.
      * rewrite match_label_diverge. rewrite (lookup_diverge p c l') by done. by destruct (decide _).
      * rewrite (match_label_short _ k r) by done. rewrite lookup_not_prefix; [by destruct (decide _)|].
        cbn. intros [r' Hr']. apply (f_equal length) in Hr'. rewrite !length_app in Hr'. destruct r; [done|cbn in Hr'; lia].
Qed.

Lemma wf_delete n t key t' :
  wf n t -> length key = n -> t_delete key t = Some t' -> wf n t'.
Proof.
  revert n key t'. induction t as [l v0|l t0 IH0 t1 IH1]; intros n key t' Hw Hk Hd; [done|].
  destruct (key_cases _ _ _ Hw Hk) as [(p & b & l' & k' & Hl & ->)|[[v' [=]]|
      (l2 & t2 & t3 & b & k' & [= <- <- <-] & -> & Hn & Hk' & Hw2 & Hw3)]].
  { cbn in Hl, Hd. subst l. rewrite match_label_diverge in Hd. by injection Hd as <-. }
  rewrite delete_fork in Hd. destruct (t_delete k' _) as [t2|] eqn:Ed; injection Hd as <-.
  - apply wf_fork; [done|..]; rewrite <- Hk'; [|done]. destruct b; eauto.
  - eapply wf_relabel; [exact Hw3|]. rewrite length_app. cbn. lia.
Qed.
Lemma all_values_delete P key t t' : all_values P t -> t_delete key t = Some t' -> all_values P t'.
Proof.
  revert key t'. induction t as [l v0|l t0 IH0 t1 IH1]; intros key t' Ht Hd; [done|]. destruct Ht. cbn in Hd.
  destruct (match_label l key) as [[|b k]|p b l' k'|]; try (by injection Hd as <-).
  destruct b; destruct (t_delete k _) as [t2|] eqn:Ed; injection Hd as <-.
  all: try (apply all_values_relabel; done).
  - split; [done|]. by eapply IH1.
  - split; [|done]. by eapply IH0.
Qed.

(** ** A map has at most one tree *)

Lemma has_key t : exists k v, t_lookup t k = Some v.
Proof.
  induction t as [l v|l t0 (k & v & Hk) t1 _].
  - exists l, v. rewrite lookup_leaf. by rewrite decide_True.
  - exists (l ++ false :: k), v. by rewrite lookup_fork.
Qed.
Lemma fork_keys l t0 t1 b : exists k v, t_lookup (Fork l t0 t1) (l ++ b :: k) = Some v.
Proof. destruct (has_key (if b then t1 else t0)) as (k & v & Hk). exists k, v. by rewrite lookup_fork. Qed.
Lemma fork_label_prefix l t0 t1 t' :
  (forall k, t_lookup (Fork l t0 t1) k = t_lookup t' k) -> label t' `prefix_of` l.
Proof.
  intros He. destruct (fork_keys l t0 t1 false) as (k0 & v0 & H0), (fork_keys l t0 t1 true) as (k1 & v1 & H1).
  rewrite He in H0, H1. apply lookup_prefix in H0, H1.
  destruct (label_cases (label t') l) as [[r ->]|[(p & c & l' & k2 & Hl & ->)|(r & Hr & Hl)]]; [by eexists|..].
  - rewrite Hl in H0. destruct H0 as [r Hr]. simplify_list_eq. by destruct c.
  - rewrite Hl in H0, H1. destruct H0 as [r0 H0], H1 as [r1 H1]. destruct r as [|x r]; [done|]. simplify_list_eq.
Qed.

Lemma tree_unique t t' : (forall k, t_lookup t k = t_lookup t' k) -> t = t'.
Proof.
  revert t'. induction t as [l v|l t0 IH0 t1 IH1]; intros [l' v'|l' t0' t1'] He.
  - specialize (He l). rewrite !lookup_leaf, (decide_True (P := l = l)) in He by done.
    destruct (decide _) as [->|]; by simplify_eq.
  - destruct (fork_keys l' t0' t1' false) as (k0 & v0 & H0), (fork_keys l' t0' t1' true) as (k1 & v1 & H1).
    rewrite <- He, lookup_leaf in H0, H1. repeat destruct (decide _); simplify_list_eq.
  - destruct (fork_keys l t0 t1 false) as (k0 & v0 & H0), (fork_keys l t0 t1 true) as (k1 & v1 & H1).
    rewrite He, lookup_leaf in H0, H1. repeat destruct (decide _); simplify_list_eq.
  - assert (l = l') as <-.
    { pose proof (fork_label_prefix _ _ _ _ He) as [r Hr]. cbn in Hr.
      assert (label (Fork l t0 t1) `prefix_of` l') as [r' Hr'] by (eapply fork_label_prefix; symmetry; apply He).
      cbn in Hr'. subst l. destruct r as [|x r]; [by rewrite app_nil_r|].
      apply (f_equal length) in Hr'. rewrite !length_app in Hr'. cbn in Hr'. lia. }
    rewrite (IH0 t0'), (IH1 t1'); [done|..]; intros k.
    + pose proof (He (l ++ true :: k)) as Hk. by rewrite !lookup_fork in Hk.
    + pose proof (He (l ++ false :: k)) as Hk. by rewrite !lookup_fork in Hk.
Qed.
End trees.
Arguments tree V : clear implicits.
