(* ===== verification/DictSpec.v ===== *)
(** * Dictionaries implement finite maps

    [is_dict N m root]: the root cell [root] (or none) represents the finite map [m] from
    keys of [N] bits to values.  The functions of Dict.v are proved against it, for
    any access to cells that keeps the laws of [CellLaws]. *)
From S2P Require Import Prelude Int256 Cells DataCell Dict DictLabel DictNode DictTree.
From stdpp Require Import gmap.

(** ** Representation *)

(** Which encodings of labels are accepted in the nodes: any that is read back, or only
    the one that the code writes. *)
Class LabelEnc (E : nat -> list bool -> list bool -> Prop) := {
  enc_sound n l e : E n l e -> encodes n l e;
  enc_new n l : (length l <= n <= max_key_bits)%nat -> E n l (hm_label n l)
}.
#[export, refine] Instance encodes_enc : LabelEnc encodes := {}.
Proof. - done. - intros n l. apply hm_label_encodes. Defined.
Definition canonical (n : nat) (l e : list bool) : Prop :=
  (length l <= n <= max_key_bits)%nat /\ e = hm_label n l.
#[export, refine] Instance canonical_enc : LabelEnc canonical := {}.
Proof. - intros n l e [Hn ->]. by apply hm_label_encodes. - done. Defined.

Section repr.
Context `{Sha256} (E : nat -> list bool -> list bool -> Prop).

Fixpoint repr (n : nat) (t : tree value) (c : Cell) : Prop :=
  valid0 c /\
  match t with
  | Leaf l v => length l = n /\ exists e, E n l e /\ c = DataCell false (e ++ fst v) (snd v)
  | Fork l t0 t1 => (length l < n)%nat /\ exists e c0 c1, E n l e /\ c = DataCell false e [c0; c1] /\
      repr (n - length l - 1) t0 c0 /\ repr (n - length l - 1) t1 c1
  end.

(** Values for which there is room in a leaf of a dictionary with [N]-bit keys. *)
Record value_ok (N : nat) (v : value) : Prop := mkValueOk {
  vo_bits : (N + len_bits N + 2 + length (fst v) <= max_bits)%nat;
  vo_refs : (length (snd v) <= max_refs)%nat;
  vo_valid : Forall valid0 (snd v);
  vo_depth : depths_below (max_depth - N) (snd v)
}.

(** The cell [root] represents the map [m]. *)
Definition is_dict (N : nat) (m : gmap (list bool) value) (root : option Cell) : Prop :=
  match root with
  | None => m = ∅
  | Some c => exists t, repr N t c /\ all_values (value_ok N) t /\ forall k, m !! k = t_lookup t k
  end.

Lemma repr_wf n t c : repr n t c -> wf n t.
Proof.
  revert n c. induction t as [l v|l t0 IH0 t1 IH1]; intros n c (_ & Hl & Hr); [done|].
  destruct Hr as (e & c0 & c1 & _ & _ & H0 & H1). split_and!; eauto.
Qed.
Lemma repr_valid n t c : repr n t c -> valid0 c.
Proof. by destruct t; intros [? _]. Qed.

Lemma repr_depth N n t c :
  repr n t c -> all_values (value_ok N) t -> (cell_depth c <= max_depth - N + n)%nat.
Proof.
  revert n c. induction t as [l v|l t0 IH0 t1 IH1]; intros n c (_ & Hl & Hr) Hv.
  - destruct Hr as (e & _ & ->). destruct Hv as [_ _ _ Hd]. destruct (snd v) as [|r refs] eqn:Ev; [cbn; lia|].
    assert (0 < max_depth - N)%nat by (inversion Hd; lia).
    rewrite <- Ev in *. etrans; [apply (cell_depth_le _ _ _ (max_depth - N - 1))|lia].
    eapply list.Forall_impl; [exact Hd|]. intros x Hx. simpl in Hx. lia.
  - destruct Hr as (e & c0 & c1 & _ & -> & H0 & H1). destruct Hv as [Hv0 Hv1].
    specialize (IH0 _ _ H0 Hv0). specialize (IH1 _ _ H1 Hv1).
    etrans; [apply (cell_depth_le _ _ _ (max_depth - N + n - 1))|lia]. split_Forall; lia.
Qed.

(** ** Nodes *)

(** What is known of the root cell of a tree: it can be given another label. *)
Record node_view (N n : nat) (t : tree value) (c : Cell) (e payload : list bool) (refs : list Cell) : Prop := {
  nv_cell : c = DataCell false (e ++ payload) refs;
  nv_enc : E n (label t) e;
  nv_label : (length (label t) <= n)%nat;
  nv_fork : (length (label t) < n)%nat -> payload = [] /\ length refs = 2%nat;
  nv_bits : (N + len_bits N + 2 + length payload <= max_bits)%nat;
  nv_refs : (length refs <= max_refs)%nat;
  nv_valid : Forall valid0 refs;
  nv_depth : depths_below max_depth refs;
  nv_relabel n' l' e' : (n' + length (label t) = n + length l')%nat -> E n' l' e' ->
    valid0 (DataCell false (e' ++ payload) refs) -> repr n' (relabel l' t) (DataCell false (e' ++ payload) refs);
  nv_data : match t with
    | Leaf _ v => v = (payload, refs)
    | Fork l t0 t1 => exists c0 c1, refs = [c0; c1] /\
        repr (n - length l - 1) t0 c0 /\ repr (n - length l - 1) t1 c1
    end
}.

Lemma repr_node N n t c :
  (N + 12 <= max_bits)%nat -> (n <= N)%nat -> repr n t c -> all_values (value_ok N) t ->
  exists e payload refs, node_view N n t c e payload refs.
Proof.
  intros HN Hn Hr Hv. unfold max_bits in HN. pose proof (len_bits_small N ltac:(lia)) as Hb.
  destruct t as [l v|l t0 t1]; destruct Hr as (_ & Hl & Hr).
  - destruct Hr as (e & He & ->). destruct v as [vb vr]. destruct Hv as [Hv1 Hv2 Hv3 Hv4].
    exists e, vb, vr. cbn [fst snd length label] in *. split; cbn [fst snd label]; try done; try lia.
    + eapply list.Forall_impl; [exact Hv4|]. intros x Hx. cbv beta in Hx. lia.
    + intros n' l' e' Hn' He' Hc. split; [done|]. split; [lia|]. by exists e'.
  - destruct Hr as (e & c0 & c1 & He & -> & H0 & H1). destruct Hv as [Hv0 Hv1].
    pose proof (repr_depth N _ _ _ H0 Hv0). pose proof (repr_depth N _ _ _ H1 Hv1).
    exists e, [], [c0; c1]. split; cbn; try done; try lia.
    + by rewrite app_nil_r.
    + unfold max_bits. lia.
    + unfold max_refs. lia.
    + repeat constructor; by eapply repr_valid.
    + unfold depths_below. split_Forall; unfold max_depth in *; lia.
    + intros n' l' e' Hn' He' Hc. rewrite app_nil_r in Hc. rewrite app_nil_r. split; [done|]. split; [lia|].
      exists e', c0, c1. replace (n' - length l' - 1)%nat with (n - length l - 1)%nat by lia. done.
    + by exists c0, c1.
Qed.
End repr.

(** An optional slice that shows an optional value. *)
Definition shows (r : option CellSlice) (o : option value) : Prop :=
  match r, o with
  | Some cs, Some v => slice_is cs (fst v) (snd v)
  | None, None => True
  | _, _ => False
  end.

(** Whether an insertion in this mode takes place, from the old value. *)
Definition set_allowed (mode : SetMode) (old : option value) : bool :=
  match mode, old with Dict.Replace, None => false | Dict.Add, Some _ => false | _, _ => true end.

(** ** Labels and keys *)

Lemma same_upto_all (l r : list bool) : same_upto l (l ++ r) = length l.
Proof. rewrite <- (app_nil_r l) at 1. rewrite same_upto_prefix. by destruct r; cbn. Qed.
Lemma same_upto_diverge p b (l k : list bool) : same_upto (p ++ negb b :: l) (p ++ b :: k) = length p.
Proof. rewrite same_upto_prefix. destruct b; cbn; lia. Qed.
Lemma drop_bit (l : list bool) b k : drop (Datatypes.S (length l)) (l ++ b :: k) = k.
Proof. rewrite drop_app_ge by lia. by replace (Datatypes.S (length l) - length l)%nat with 1%nat by lia. Qed.
Lemma key_bit_at (l : list bool) b k : (l ++ b :: k) !! length l = Some b.
Proof. by apply list_lookup_middle. Qed.

Lemma label_ref lp l payload refs i :
  label_at lp l payload refs -> prefetch_ref i (remainder lp) = refs !! i.
Proof.
  intros Hlp. destruct (at_rest _ _ _ _ Hlp) as [(_ & _ & Hs)|(_ & _ & _ & Hs)]; by eapply slice_is_ref.
Qed.

Lemma bind_assoc {St A B C} (m : M St A) (f : A -> M St B) (g : B -> M St C) (s : St) :
  bind (bind m f) g s = bind m (fun a => bind (f a) g) s.
Proof. unfold bind. by destruct (m s). Qed.
Lemma wp_bind_assoc {St A B C} (m : M St A) (f : A -> M St B) (g : B -> M St C) Q E' (s : St) :
  wp (bind (bind m f) g) Q E' s -> wp (bind m (fun a => bind (f a) g)) Q E' s.
Proof. unfold wp. by rewrite bind_assoc. Qed.

(** ** Operations on trees *)

Section ops.
Context `{Sha256} {St : Type} `{CellLaws St} (E : nat -> list bool -> list bool -> Prop) `{!LabelEnc E}.
Context (N : nat) (HN : (N + 12 <= max_bits)%nat).
Implicit Types s : St.

Lemma wp_open {A} n t c mode (k : LabelParser -> M St A) Q s :
  repr E n t c -> all_values (value_ok N) t -> (n <= N)%nat -> io_inv s ->
  (forall lp e payload refs s', node_view E N n t c e payload refs -> label_at lp (label t) payload refs ->
     io_inv s' -> wp (k lp) Q io_exc s') ->
  wp (bind (read_label c n mode) k) Q io_exc s.
Proof.
  intros Hr Hv Hn Hi Hk. destruct (repr_node E N n t c HN Hn Hr Hv) as (e & payload & refs & Hnv).
  wp_step. rewrite (nv_cell _ _ _ _ _ _ _ _ Hnv).
  eapply wp_mono; [eapply wp_read_label| |done].
  - apply (enc_sound _ _ _ (nv_enc _ _ _ _ _ _ _ _ Hnv)).
  - apply (nv_label _ _ _ _ _ _ _ _ Hnv).
  - apply (nv_fork _ _ _ _ _ _ _ _ Hnv).
  - done.
  - intros lp s' [Hlp Hi']. by eapply Hk.
Qed.

Lemma wp_lookup_loop fuel n t c key mode s :
  repr E n t c -> all_values (value_ok N) t -> (n <= N)%nat -> (n < fuel)%nat -> length key = n -> io_inv s ->
  wp (dict_lookup_loop fuel c key n mode) (fun r s' => shows r (t_lookup t key) /\ io_inv s') io_exc s.
Proof.
  revert n t c key s. induction fuel as [|fuel IH]; intros n t c key s Hr Hv Hn Hf Hk Hi; [lia|].
  cbn [dict_lookup_loop]. eapply wp_open; [done..|]. intros lp e payload refs s' Hnv Hlp Hi'.
  pose proof (nv_label _ _ _ _ _ _ _ _ Hnv) as Hl.
  rewrite (is_prefix_of_at _ _ _ _ Hlp) by done. rewrite (at_bits _ _ _ _ Hlp).
  destruct (key_cases _ _ _ (repr_wf _ _ _ _ Hr) Hk) as [(p & b & l' & k' & Hlab & ->)|[[v ->]|
      (l2 & t0 & t1 & b & k & -> & -> & Hn' & Hk' & Hw2 & Hw3)]]; cbn [label] in *.
  - rewrite Hlab, same_upto_diverge, length_app. cbn [length].
    rewrite (proj2 (Nat.eqb_neq _ _)) by lia. cbn [negb]. wp_step. by rewrite (lookup_diverge _ _ _ _ _ Hlab).
  - pose proof (same_upto_all key []) as Hs. rewrite app_nil_r in Hs. rewrite Hs, Nat.eqb_refl. cbn [negb].
    rewrite Hk, Nat.sub_diag. cbn [Nat.eqb]. wp_step. rewrite lookup_leaf, decide_True by done. split; [|done].
    pose proof (nv_data _ _ _ _ _ _ _ _ Hnv) as Hd. cbn in Hd. subst v. by eapply skip_label_at.
  - rewrite same_upto_all, Nat.eqb_refl. cbn [negb]. rewrite (proj2 (Nat.eqb_neq _ _)) by lia.
    pose proof (nv_data _ _ _ _ _ _ _ _ Hnv) as (c0 & c1 & -> & H0' & H1').
    wp_step. eapply wp_of_option; [apply key_bit_at|]. wp_step. rewrite (label_ref _ _ _ _ _ Hlp).
    apply wp_of_option with (a := if b then c1 else c0); [by destruct b|].
    rewrite drop_bit, lookup_fork. rewrite <- Hk'. destruct Hv as [Hv0 Hv1].
    apply IH; try done; try lia; destruct b; try done; by rewrite Hk'.
Qed.

(** *** New nodes *)

Lemma label_room n : (n <= N)%nat -> (n + 12 <= max_bits)%nat /\ (n + len_bits n <= N + len_bits N)%nat.
Proof. intros Hn. pose proof (len_bits_mono _ _ Hn). lia. Qed.

Lemma repr_fork_new n l (b : bool) t t' c c' :
  (length l < n)%nat -> (n <= N)%nat -> repr E (n - length l - 1) t c -> repr E (n - length l - 1) t' c' ->
  valid0 (DataCell false (hm_label n l) [if b then c' else c; if b then c else c']) ->
  repr E n (fork l b t t') (DataCell false (hm_label n l) [if b then c' else c; if b then c else c']).
Proof.
  intros Hl Hn Ht Ht' Hc. assert (E n l (hm_label n l)) by (apply enc_new; unfold max_key_bits, max_bits in *; lia).
  destruct b; (split; [done|]; split; [done|]; by do 3 eexists).
Qed.

Lemma wp_leaf n key v f s :
  length key = n -> (n <= N)%nat -> value_ok N v -> stores v f -> io_inv s ->
  wp (make_leaf key n f) (fun c s' => repr E n (Leaf key v) c /\ io_inv s') io_exc s.
Proof.
  intros Hk Hn [Hv1 Hv2 Hv3 Hv4] Hf Hi. destruct (label_room n Hn).
  eapply wp_mono; [apply (wp_make_leaf key n f v)| |done]; try done; try lia.
  - eapply list.Forall_impl; [exact Hv4|]. intros x Hx. cbv beta in Hx. lia.
  - intros c s' (-> & Hc & Hi'). split; [|done]. split; [done|]. split; [done|]. eexists. split; [|done].
    apply enc_new. unfold max_key_bits, max_bits in *. lia.
Qed.

Lemma wp_fork_tail n l (b : bool) t t' c c' s :
  (length l < n)%nat -> (n <= N)%nat -> repr E (n - length l - 1) t c -> repr E (n - length l - 1) t' c' ->
  all_values (value_ok N) t -> all_values (value_ok N) t' -> io_inv s ->
  wp (cb <- store_ref (if b then c' else c) (mkBuilder (hm_label n l) []) ;;
      cb <- store_ref (if b then c else c') cb ;; finalize_builder cb)
     (fun r s' => repr E n (fork l b t t') r /\ io_inv s') io_exc s.
Proof.
  intros Hl Hn Ht Ht' Hv Hv' Hi. destruct (label_room n Hn).
  pose proof (repr_depth _ _ _ _ _ Ht Hv). pose proof (repr_depth _ _ _ _ _ Ht' Hv').
  pose proof (repr_valid _ _ _ _ Ht). pose proof (repr_valid _ _ _ _ Ht').
  eapply wp_mono; [apply wp_fork_refs| |done]; try done; try lia.
  - destruct b; by repeat constructor.
  - unfold depths_below. destruct b; split_Forall; unfold max_depth, max_bits in *; lia.
  - intros r s' (-> & Hc & Hi'). split; [by apply repr_fork_new|done].
Qed.
Lemma wp_fork n l (b : bool) t t' c c' s :
  (length l < n)%nat -> (n <= N)%nat -> repr E (n - length l - 1) t c -> repr E (n - length l - 1) t' c' ->
  all_values (value_ok N) t -> all_values (value_ok N) t' -> io_inv s ->
  wp (make_fork l n (if b then c' else c) (if b then c else c'))
     (fun r s' => repr E n (fork l b t t') r /\ io_inv s') io_exc s.
Proof.
  intros Hl Hn Ht Ht' Hv Hv' Hi. destruct (label_room n Hn). unfold make_fork. wp_step.
  eapply wp_run_to; [apply append_dict_label_run; lia|]. by apply wp_fork_tail.
Qed.

(** A node that is given another label. *)
Lemma wp_relabel n t c e payload refs n' l' cs s :
  node_view E N n t c e payload refs -> slice_is cs payload refs ->
  (n' + length (label t) = n + length l')%nat -> (length l' <= n' <= N)%nat -> io_inv s ->
  wp (cb <- store_or_ov (append_cellslice_bool cs) (mkBuilder (hm_label n' l') []) ;; finalize_builder cb)
     (fun r s' => repr E n' (relabel l' t) r /\ io_inv s') io_exc s.
Proof.
  intros Hnv Hcs Hn [Hl Hn'] Hi. destruct (label_room n' Hn'). pose proof (hm_label_length n' l' Hl) as Hlen.
  pose proof (nv_bits _ _ _ _ _ _ _ _ Hnv). pose proof (nv_refs _ _ _ _ _ _ _ _ Hnv).
  wp_step. unfold store_or_ov. rewrite (append_stores _ _ _ Hcs) by (cbn [fst snd length]; lia). wp_step.
  cbn [fst snd app]. eapply wp_mono; [apply wp_finalize| |done].
  - rewrite length_app. lia.
  - done.
  - apply (nv_valid _ _ _ _ _ _ _ _ Hnv).
  - apply (nv_depth _ _ _ _ _ _ _ _ Hnv).
  - done.
  - intros r s' (-> & Hc & Hi'). split; [|done]. apply (nv_relabel _ _ _ _ _ _ _ _ Hnv); [done| |done].
    apply enc_new. unfold max_key_bits, max_bits in *. lia.
Qed.

Lemma split_edge_run lp p b l' payload refs m s :
  label_at lp (p ++ b :: l') payload refs -> (length l' <= m <= N)%nat ->
  exists cs, split_edge lp (length p) m s = Ret (mkBuilder (hm_label m l') [], cs) s /\ slice_is cs payload refs.
Proof.
  intros Hlp [Hl Hm]. destruct (label_room m Hm). unfold split_edge. rewrite (at_bits _ _ _ _ Hlp), length_app.
  cbn [length]. replace (length p + Datatypes.S (length l') - length p - 1)%nat with (length l') by lia.
  destruct (at_rest _ _ _ _ Hlp) as [(-> & _ & Hs)|(Hne & _ & Hrep & Hs)].
  - cbn [Z.eqb]. apply (slice_is_adv _ (length p + 1)) in Hs; [|rewrite !length_app; cbn; lia].
    rewrite <- app_assoc, Nat.add_1_r in Hs. cbn [app] in Hs. rewrite drop_bit in Hs.
    rewrite Nat.add_1_r, (is_bits _ _ _ Hs), take_app_length.
    eexists. split.
    + erewrite bind_ret_eq; [reflexivity|]. by apply append_dict_label_run.
    + apply (slice_is_adv _ (length l')) in Hs; [|rewrite length_app; lia]. by rewrite drop_app_length in Hs.
  - rewrite (proj2 (Z.eqb_neq _ _)) by done.
    assert (l' = replicate (length l') (same_bit lp)) as Hl'.
    { apply (f_equal (drop (Datatypes.S (length p)))) in Hrep. rewrite drop_bit, drop_replicate in Hrep.
      rewrite Hrep at 1. f_equal. rewrite length_app. cbn. lia. }
    eexists. split; [|exact Hs]. erewrite bind_ret_eq; [reflexivity|].
    rewrite append_dict_label_same_run by done. by rewrite <- Hl'.
Qed.

Lemma wp_insert_fork n t c e payload refs lp p b l' k' v f s :
  node_view E N n t c e payload refs -> all_values (value_ok N) t -> label_at lp (label t) payload refs ->
  label t = p ++ negb b :: l' -> length (p ++ b :: k') = n -> (n <= N)%nat ->
  value_ok N v -> stores v f -> io_inv s ->
  wp (insert_fork lp (length p) (p ++ b :: k') n f)
     (fun r s' => repr E n (fork p b (Leaf k' v) (relabel l' t)) r /\ io_inv s') io_exc s.
Proof.
  intros Hnv Hvt Hlp Hlab Hk Hn Hv Hf Hi. pose proof (nv_label _ _ _ _ _ _ _ _ Hnv) as Hl.
  rewrite Hlab in Hlp, Hl. rewrite length_app in Hk, Hl. cbn [length] in Hk, Hl.
  unfold insert_fork. rewrite Nat.add_1_r, drop_bit. set (m := (n - length p - 1)%nat).
  wp_step. eapply wp_mono; [apply (wp_leaf m k' v f); try done; lia| |done]. intros c1 s1 [Hc1 Hi1].
  destruct (split_edge_run lp p (negb b) l' payload refs m s1 Hlp) as (cs & Hrun & Hcs); [lia|].
  wp_step. eapply wp_run_to; [exact Hrun|]. cbv beta iota. apply wp_bind_assoc. wp_step.
  eapply wp_mono; [eapply (wp_relabel n t c e payload refs m l' cs); try done; rewrite ?Hlab, ?length_app; cbn [length]; lia| |done].
  intros c2 s2 [Hc2 Hi2]. destruct (label_room n Hn). wp_step.
  rewrite take_app_length. eapply wp_run_to; [apply append_dict_label_run; lia|].
  wp_step. eapply wp_of_option; [apply key_bit_at|].
  apply wp_fork_tail; try done; [lia|]. by apply all_values_relabel.
Qed.
(** *** Insertion *)

Definition set_post (n : nat) (mode : SetMode) (t : tree value) (key : list bool) (v : value)
    (r : option CellSlice * option Cell * bool) : Prop :=
  let '(old, c, changed) := r in
  shows old (t_lookup t key) /\ changed = set_allowed mode (t_lookup t key) /\
  if changed then exists c', c = Some c' /\ repr E n (t_set key v t) c' else c = None.

Lemma wp_some {A B C} (m : M St A) (a : B) (g : C) (P : A -> Prop) Q s :
  wp m (fun r s' => P r /\ io_inv s') io_exc s ->
  (forall r s', P r -> io_inv s' -> Q (a, Some r, g) s') ->
  wp (bind m (fun r => ret (a, Some r, g))) Q io_exc s.
Proof. intros Hm Hq. wp_step. eapply wp_mono; [exact Hm| |done]. intros r s' [Hr Hi]. wp_step. by apply Hq. Qed.

Lemma wp_dict_lookup_set fuel n t c key v f mode s :
  repr E n t c -> all_values (value_ok N) t -> (n <= N)%nat -> (n < fuel)%nat -> length key = n ->
  value_ok N v -> stores v f -> io_inv s ->
  wp (dict_lookup_set fuel (Some c) key n f mode)
     (fun r s' => set_post n mode t key v r /\ io_inv s') io_exc s.
Proof.
  revert n t c key s. induction fuel as [|fuel IH]; intros n t c key s Hr Hv Hn Hf Hk Hvo Hst Hi; [lia|].
  cbn [dict_lookup_set]. eapply wp_open; [done..|]. intros lp e payload refs s' Hnv Hlp Hi'.
  pose proof (nv_label _ _ _ _ _ _ _ _ Hnv) as Hl.
  rewrite (common_prefix_len_at _ _ _ _ Hlp) by done. rewrite (at_bits _ _ _ _ Hlp).
  destruct (key_cases _ _ _ (repr_wf _ _ _ _ Hr) Hk) as [(p & b & l' & k' & Hlab & ->)|[[v' ->]|
      (l2 & t0 & t1 & b & k & -> & -> & Hn' & Hk' & Hw2 & Hw3)]]; cbn [label] in *.
  - rewrite Hlab in Hl |- *. rewrite same_upto_diverge, length_app in *. cbn [length] in *.
    rewrite (proj2 (Nat.leb_le _ _)), (proj2 (Nat.leb_le _ n)), (proj2 (Nat.ltb_lt _ _)) by lia.
    cbn [andb]. wp_step. apply wp_assert_ub; [done|].
    pose proof (lookup_diverge _ _ _ k' _ Hlab) as Hlk. unfold set_post. rewrite Hlk.
    assert (wp (insert_fork lp (length p) (p ++ b :: k') n f)
     (fun r s' => repr E n (t_set (p ++ b :: k') v t) r /\ io_inv s') io_exc s') as Hins.
    { rewrite (set_diverge _ _ _ _ _ _ Hlab). eapply wp_insert_fork; try done. by rewrite length_app. }
    destruct mode; [|wp_step; done|]; (eapply wp_some; [exact Hins|]; intros r s2 Hr2 Hi2; split; [split_and!; [done|done|by eexists]|done]).
  - pose proof (same_upto_all key []) as Hs. rewrite app_nil_r in Hs. rewrite Hs, Hk.
    rewrite !(proj2 (Nat.leb_le _ _)), (proj2 (Nat.ltb_ge _ _)), Nat.eqb_refl by lia.
    cbn [andb]. wp_step. apply wp_assert_ub; [done|]. unfold set_post. rewrite lookup_leaf, decide_True, set_leaf by done.
    pose proof (nv_data _ _ _ _ _ _ _ _ Hnv) as Hd. cbn in Hd. subst v'.
    pose proof (skip_label_at _ _ _ _ Hlp) as Hskip.
    destruct mode; [| |wp_step; done];
      (eapply wp_some; [by apply wp_leaf|]; intros r s2 Hr2 Hi2; split; [|done]; split; [exact Hskip|]; split; [done|by eexists]).
  - rewrite same_upto_all, Nat.leb_refl, Nat.ltb_irrefl.
    rewrite (proj2 (Nat.leb_le _ _)), (proj2 (Nat.eqb_neq _ _)) by lia.
    cbn [andb]. wp_step. apply wp_assert_ub; [done|].
    pose proof (nv_data _ _ _ _ _ _ _ _ Hnv) as (c0 & c1 & -> & H0' & H1').
    wp_step. unfold fork_children. rewrite !(label_ref _ _ _ _ _ Hlp). do 2 (wp_step; eapply wp_of_option; [done|]).
    wp_step. wp_step. eapply wp_of_option; [apply key_bit_at|]. wp_step.
    rewrite drop_bit, <- Hk'. destruct Hv as [Hv0 Hv1].
    eapply wp_mono; [apply (IH (length k) (if b then t1 else t0)); try done; try lia; destruct b; try done; by rewrite Hk'| |done].
    intros [[old c'] changed] s2 ((Hold & Hch & Hrest) & Hi2). unfold set_post. rewrite lookup_fork, set_fork.
    destruct changed; cbn [negb].
    + destruct Hrest as (c2 & -> & Hc2). wp_step. eapply wp_of_option; [done|].
      assert ((if b then c0 else c2) = (if b then if b then c0 else c1 else c2)) as -> by (by destruct b).
      assert ((if b then c2 else c1) = (if b then c2 else if b then c0 else c1)) as -> by (by destruct b).
      rewrite take_app_length.
      eapply wp_some; [apply (wp_fork n l2 b (t_set k v (if b then t1 else t0)) (if b then t0 else t1) c2 (if b then c0 else c1))|];
        try done; rewrite <- ?Hk'; try done.
      * destruct b; by rewrite Hk'.
      * apply all_values_set; [by destruct b|done].
      * by destruct b.
      * intros r s3 Hr3 Hi3. split; [split_and!; [done|done|by eexists]|done].
    + wp_step. split; [|done]. done.
Qed.
(** *** Deletion *)

Lemma wp_merge_edge n l b t c mode s :
  (length l < n)%nat -> (n <= N)%nat -> repr E (n - length l - 1) t c -> all_values (value_ok N) t -> io_inv s ->
  wp (merge_edge l b c n mode) (fun r s' => repr E n (relabel (l ++ b :: label t) t) r /\ io_inv s') io_exc s.
Proof.
  intros Hl Hn Hr Hv Hi. unfold merge_edge. eapply wp_open; [done|done|lia|done|].
  intros lp e payload refs s' Hnv Hlp Hi'. pose proof (nv_label _ _ _ _ _ _ _ _ Hnv) as Hl2.
  destruct (extract_label_at _ _ _ _ Hlp) as (rest & -> & Hrest). destruct (label_room n Hn).
  assert (length (l ++ b :: label t) <= n)%nat as Hlen by (rewrite length_app; cbn; lia).
  wp_step. apply wp_assert_ub; [apply Nat.leb_le; unfold max_key_bits, max_bits in *; lia|].
  wp_step. eapply wp_run_to; [apply append_dict_label_run; lia|].
  eapply wp_relabel; try done. rewrite length_app. cbn [length]. lia.
Qed.

Definition delete_post (n : nat) (t : tree value) (key : list bool) (r : option CellSlice * option Cell) : Prop :=
  let '(old, c) := r in
  shows old (t_lookup t key) /\
  match t_lookup t key, t_delete key t with
  | Some _, Some t' => exists c', c = Some c' /\ repr E n t' c'
  | _, _ => c = None
  end.

Lemma wp_finish_create_fork l n m c1 c2 Q s :
  (0 < m)%nat ->
  wp (cb <- store_ref c1 (mkBuilder (hm_label n l) []) ;; cb <- store_ref c2 cb ;; finalize_builder cb) Q io_exc s ->
  wp (finish_create_fork (mkBuilder (hm_label n l) []) c1 c2 m) Q io_exc s.
Proof. intros Hm Hw. unfold finish_create_fork. wp_step. apply wp_assert_ub; [by apply Nat.ltb_lt|]. exact Hw. Qed.

Lemma wp_dict_lookup_delete fuel n t c key mode s :
  repr E n t c -> all_values (value_ok N) t -> (n <= N)%nat -> (n < fuel)%nat -> length key = n -> io_inv s ->
  wp (dict_lookup_delete fuel (Some c) key n mode)
     (fun r s' => delete_post n t key r /\ io_inv s') io_exc s.
Proof.
  revert n t c key s. induction fuel as [|fuel IH]; intros n t c key s Hr Hv Hn Hf Hk Hi; [lia|].
  cbn [dict_lookup_delete]. eapply wp_open; [done..|]. intros lp e payload refs s' Hnv Hlp Hi'.
  pose proof (nv_label _ _ _ _ _ _ _ _ Hnv) as Hl.
  rewrite (common_prefix_len_at _ _ _ _ Hlp) by done. rewrite (at_bits _ _ _ _ Hlp). unfold delete_post.
  destruct (key_cases _ _ _ (repr_wf _ _ _ _ Hr) Hk) as [(p & b & l' & k' & Hlab & ->)|[[v' ->]|
      (l2 & t0 & t1 & b & k & -> & -> & Hn' & Hk' & Hw2 & Hw3)]]; cbn [label] in *.
  - rewrite Hlab in Hl |- *. rewrite same_upto_diverge, length_app in *. cbn [length] in *.
    rewrite (proj2 (Nat.leb_le _ _)), (proj2 (Nat.leb_le _ n)), (proj2 (Nat.ltb_lt _ _)) by lia.
    cbn [andb]. wp_step. apply wp_assert_ub; [done|]. wp_step. by rewrite (lookup_diverge _ _ _ k' _ Hlab).
  - pose proof (same_upto_all key []) as Hs. rewrite app_nil_r in Hs. rewrite Hs, Hk.
    rewrite !(proj2 (Nat.leb_le _ _)), (proj2 (Nat.ltb_ge _ _)), Nat.eqb_refl by lia.
    cbn [andb]. wp_step. apply wp_assert_ub; [done|]. rewrite lookup_leaf, decide_True by done.
    pose proof (nv_data _ _ _ _ _ _ _ _ Hnv) as Hd. cbn in Hd. subst v'. wp_step.
    split; [|done]. split; [exact (skip_label_at _ _ _ _ Hlp)|done].
  - rewrite same_upto_all, Nat.leb_refl, Nat.ltb_irrefl.
    rewrite (proj2 (Nat.leb_le _ _)), (proj2 (Nat.eqb_neq _ _)) by lia.
    cbn [andb]. wp_step. apply wp_assert_ub; [done|].
    pose proof (nv_data _ _ _ _ _ _ _ _ Hnv) as (c0 & c1 & -> & H0' & H1').
    wp_step. unfold fork_children. rewrite !(label_ref _ _ _ _ _ Hlp). do 2 (wp_step; eapply wp_of_option; [done|]).
    wp_step. wp_step. eapply wp_of_option; [apply key_bit_at|]. wp_step.
    rewrite drop_bit, <- Hk'. destruct Hv as [Hv0 Hv1].
    eapply wp_mono; [apply (IH (length k) (if b then t1 else t0)); try done; try lia; destruct b; try done; by rewrite Hk'| |done].
    intros [old c'] s2 ((Hold & Hrest) & Hi2). rewrite lookup_fork, delete_fork, take_app_length.
    destruct (t_lookup (if b then t1 else t0) k) as [v|]; destruct old as [old|]; try done.
    assert (all_values (value_ok N) (if b then t0 else t1)) by (by destruct b).
    assert (repr E (n - length l2 - 1) (if b then t0 else t1) (if b then c0 else c1)) by (by destruct b).
    destruct (t_delete k _) as [t2|] eqn:Ed.
    + destruct Hrest as (c2 & -> & Hc2). destruct (label_room n Hn). wp_step.
      eapply wp_run_to; [apply append_dict_label_run; lia|]. wp_step.
      eapply wp_mono; [apply wp_finish_create_fork; [lia|]| |done].
      * assert ((if b then c0 else c2) = (if b then if b then c0 else c1 else c2)) as -> by (by destruct b).
        assert ((if b then c2 else c1) = (if b then c2 else if b then c0 else c1)) as -> by (by destruct b).
        apply (wp_fork_tail n l2 b t2 (if b then t0 else t1) c2 (if b then c0 else c1)); try done; try lia.
        -- by rewrite <- Hk'.
        -- eapply all_values_delete; [|exact Ed]. by destruct b.
      * intros r s3 [Hr3 Hi3]. wp_step. split; [|done]. split; [done|by eexists].
    + subst c'. wp_step. eapply wp_mono; [eapply wp_merge_edge; done| |done].
      intros r s3 [Hr3 Hi3]. wp_step. split; [|done]. split; [done|by eexists].
Qed.
End ops.
