(* ===== verification/DictOrder.v ===== *)
(** * Smallest, largest and nearest keys

    The walks of [dict_lookup_minmax] and [dict_lookup_nearest] against the order of
    keys as numbers, unsigned or (with the first bit inverted) signed. *)
From S2P Require Import Prelude Int256 Cells DataCell Dict DictObj DictLabel DictNode DictTree DictSpec.
From stdpp Require Import gmap.
Local Open Scope Z_scope.

Ltac bool_clash :=
  match goal with
  | H : negb ?x = ?x |- _ => by destruct x
  | H : ?x = negb ?x |- _ => by destruct x
  end.

(** ** The order of keys for a mode

    Bit 0 of the mode is for the first bit of keys and bit 1 for the others; a mode is
    steady when its other bits are equal to bit 1. *)
Definition dir (mode : Z) (i : nat) : bool := Z.testbit mode (if (i =? 0)%nat then 0 else 1).
Definition steady (mode : Z) : Prop := mode ∈ [0; -1; 1; -2].
Definition key_before (mode : Z) (k k' : list bool) : Prop :=
  exists p r r', k = p ++ dir mode (length p) :: r /\ k' = p ++ negb (dir mode (length p)) :: r'.

(** The mode below a node whose label has [n] bits. *)
Definition node_mode (mode : Z) (n : nat) : Z := if (n =? 0)%nat then mode else Z.shiftr mode 1.

Ltac steady_cases H := unfold steady in H; rewrite !elem_of_cons, elem_of_nil in H; destruct_or? H; subst; try done.

Lemma steady_key_order fetch_max invert_first : steady (key_order fetch_max invert_first).
Proof. unfold steady. rewrite !elem_of_cons. destruct fetch_max, invert_first; cbn; tauto. Qed.
Lemma node_mode_dir mode n : steady mode -> Z.testbit (node_mode mode n) 0 = dir mode n.
Proof. intros Hs. unfold node_mode, dir. by destruct (n =? 0)%nat; steady_cases Hs. Qed.
Lemma child_steady mode n : steady mode -> steady (Z.shiftr (node_mode mode n) 1).
Proof. intros Hs. unfold node_mode, steady. destruct (n =? 0)%nat; steady_cases Hs; set_solver. Qed.
Lemma child_dir mode n i j : steady mode -> dir (Z.shiftr (node_mode mode n) 1) i = dir mode (n + S j).
Proof.
  intros Hs. unfold node_mode, dir. rewrite Nat.add_succ_r. cbn [Nat.eqb].
  destruct (n =? 0)%nat, (i =? 0)%nat; steady_cases Hs.
Qed.
Lemma steady_lnot mode : steady mode -> steady (Z.lnot mode).
Proof. intros Hs. unfold steady. steady_cases Hs; set_solver. Qed.
Lemma dir_lnot mode i : dir (Z.lnot mode) i = negb (dir mode i).
Proof. unfold dir. apply Z.lnot_spec. by destruct (i =? 0)%nat. Qed.
Lemma child_lnot mode n : steady mode -> Z.shiftr (node_mode (Z.lnot mode) n) 1 = Z.lnot (Z.shiftr (node_mode mode n) 1).
Proof. intros Hs. unfold node_mode. destruct (n =? 0)%nat; steady_cases Hs. Qed.
Lemma lnot_lnot mode : Z.lnot (Z.lnot mode) = mode.
Proof. apply Z.lnot_involutive. Qed.

Lemma before_lnot mode k k' : key_before (Z.lnot mode) k k' <-> key_before mode k' k.
Proof.
  unfold key_before. setoid_rewrite dir_lnot.
  split; intros (p & r & r' & -> & ->); exists p, r', r; by rewrite ?negb_involutive.
Qed.

(** Keys below the same bit of a node. *)
Lemma before_child mode l b k k' :
  steady mode -> key_before (Z.shiftr (node_mode mode (length l)) 1) k k' ->
  key_before mode (l ++ b :: k) (l ++ b :: k').
Proof.
  intros Hs (p & r & r' & -> & ->). exists (l ++ b :: p), r, r'.
  rewrite length_app. cbn [length]. rewrite <- (child_dir mode (length l) (length p)) by done.
  by rewrite <- !app_assoc.
Qed.
Lemma before_child_inv mode l b k k' :
  steady mode -> key_before mode (l ++ b :: k) (l ++ b :: k') ->
  key_before (Z.shiftr (node_mode mode (length l)) 1) k k'.
Proof.
  intros Hs (p & r & r' & H1 & H2).
  assert (exists q, p = l ++ b :: q) as [q ->].
  { destruct (label_cases (l ++ [b]) p) as [[q Hq]|[(q & c & l' & k2 & Hl & Hp)|(q & Hq & Hl)]].
    - exists q. by rewrite Hq, <- app_assoc.
    - subst p. assert ((l ++ [b]) ++ k = (q ++ c :: k2) ++ dir mode (length (q ++ c :: k2)) :: r) as Hx
        by (rewrite <- H1, <- app_assoc; done).
      rewrite Hl, <- !app_assoc in Hx. simplify_list_eq. bool_clash.
    - destruct q as [|x q]; [done|].
      assert ((l ++ [b]) ++ k = p ++ dir mode (length p) :: r) as Hx1 by (rewrite <- H1, <- app_assoc; done).
      assert ((l ++ [b]) ++ k' = p ++ negb (dir mode (length p)) :: r') as Hx2 by (rewrite <- H2, <- app_assoc; done).
      rewrite Hl, <- !app_assoc in Hx1, Hx2. simplify_list_eq. bool_clash. }
  rewrite <- !app_assoc in H1, H2. simplify_list_eq. exists q, r, r'.
  rewrite length_app in *. cbn [length] in *. by rewrite !(child_dir mode (length l) (length q) (length q)).
Qed.
(** Keys below different bits of a node. *)
Lemma before_fork mode l b k k' :
  key_before mode (l ++ b :: k) (l ++ negb b :: k') <-> b = dir mode (length l).
Proof.
  split.
  - intros (p & r & r' & H1 & H2).
    destruct (label_cases l p) as [[q ->]|[(q & c & l' & k2 & -> & ->)|(q & Hq & ->)]].
    + rewrite <- !app_assoc in H1, H2. destruct q as [|x q]; simplify_list_eq; [done|bool_clash].
    + rewrite <- !app_assoc in H1. simplify_list_eq. bool_clash.
    + rewrite <- !app_assoc in H1, H2. destruct q as [|x q]; [done|]. simplify_list_eq. bool_clash.
  - intros ->. by exists l, k, k'.
Qed.

(** ** Trees *)

Section trees.
Context {V : Type}.
Implicit Types (t : tree V).

Fixpoint t_minmax (mode : Z) t : list bool * V :=
  match t with
  | Leaf l v => (l, v)
  | Fork l t0 t1 =>
      let mode := node_mode mode (length l) in
      let b := Z.testbit mode 0 in
      let (k, v) := if b then t_minmax (Z.shiftr mode 1) t1 else t_minmax (Z.shiftr mode 1) t0 in
      (l ++ b :: k, v)
  end.

(** Keys of a fork. *)
Lemma fork_key_cases l t0 t1 k v :
  t_lookup (Fork l t0 t1) k = Some v ->
  exists c r, k = l ++ c :: r /\ t_lookup (if c then t1 else t0) r = Some v.
Proof.
  intros Hk. pose proof (lookup_prefix _ _ _ Hk) as [r ->]. cbn [label] in *. destruct r as [|c r].
  - by rewrite app_nil_r, lookup_fork_end in Hk.
  - exists c, r. by rewrite lookup_fork in Hk.
Qed.

Lemma minmax_first mode t :
  steady mode ->
  t_lookup t (fst (t_minmax mode t)) = Some (snd (t_minmax mode t)) /\
  forall k v, t_lookup t k = Some v -> k = fst (t_minmax mode t) \/ key_before mode (fst (t_minmax mode t)) k.
Proof.
  revert mode. induction t as [l v|l t0 IH0 t1 IH1]; intros mode Hs.
  - cbn [t_minmax fst snd]. rewrite lookup_leaf, decide_True by done. split; [done|].
    intros k v'. rewrite lookup_leaf. destruct (decide (k = l)); [by left|done].
  - cbn [t_minmax]. rewrite (node_mode_dir mode) by done. set (b := dir mode (length l)).
    pose proof (child_steady mode (length l) Hs) as Hs'.
    assert (exists m', m' = t_minmax (Z.shiftr (node_mode mode (length l)) 1) (if b then t1 else t0) /\
      t_lookup (if b then t1 else t0) (fst m') = Some (snd m') /\
      forall k v, t_lookup (if b then t1 else t0) k = Some v -> k = fst m' \/
        key_before (Z.shiftr (node_mode mode (length l)) 1) (fst m') k) as ([k' v'] & Hm & Hm1 & Hm2)
      by (destruct b; eexists; (split; [reflexivity|]); [by apply IH1|by apply IH0]).
    replace (if b then t_minmax _ t1 else _) with (k', v') by (by destruct b). cbn [fst snd] in *.
    rewrite lookup_fork. split; [done|].
    intros k v (c & r & -> & Hr)%fork_key_cases. destruct (decide (c = b)) as [->|Hne].
    + destruct (Hm2 _ _ Hr) as [->|Hb]; [by left|]. right. by apply before_child.
    + right. replace c with (negb b) by (by destruct b, c). by apply before_fork.
Qed.

(** The nearest key after [key] (or [key] itself). *)
Definition candidate (mode : Z) (allow_eq : bool) (key k : list bool) : Prop :=
  key_before mode k key \/ (allow_eq = true /\ k = key).
Definition nearest_ok (mode : Z) (allow_eq : bool) (key : list bool) t (r : option (list bool * V)) : Prop :=
  match r with
  | None => forall k v, t_lookup t k = Some v -> ~ candidate mode allow_eq key k
  | Some (k, v) => t_lookup t k = Some v /\ candidate mode allow_eq key k /\
      forall k' v', t_lookup t k' = Some v' -> candidate mode allow_eq key k' -> k' = k \/ key_before mode k' k
  end.

Lemma before_irrefl mode k : ~ key_before mode k k.
Proof. intros (p & r & r' & H1 & H2). rewrite H1 in H2. simplify_list_eq. bool_clash. Qed.
Lemma candidate_child mode allow_eq l b key k :
  steady mode ->
  candidate mode allow_eq (l ++ b :: key) (l ++ b :: k) <->
  candidate (Z.shiftr (node_mode mode (length l)) 1) allow_eq key k.
Proof.
  intros Hs. unfold candidate. split; (intros [Hb|[? ?]]; [left|right]).
  - by eapply before_child_inv.
  - split; [done|]. by simplify_list_eq.
  - by apply before_child.
  - split; [done|]. by subst.
Qed.
Lemma candidate_fork mode allow_eq l b key k :
  candidate mode allow_eq (l ++ b :: key) (l ++ negb b :: k) <-> negb b = dir mode (length l).
Proof.
  unfold candidate. pose proof (before_fork mode l (negb b) k key) as Hb. rewrite negb_involutive in Hb.
  rewrite Hb. split; [|by left]. intros [?|[_ ?]]; [done|]. simplify_list_eq. bool_clash.
Qed.
Lemma lookup_key_prefix t k v : t_lookup t k = Some v -> exists r, k = label t ++ r.
Proof. intros [r ->]%lookup_prefix. by exists r. Qed.

(** The cases of the walk. *)
Lemma nearest_none mode allow_eq p b l' k' t :
  label t = p ++ negb b :: l' -> b = dir mode (length p) -> nearest_ok mode allow_eq (p ++ b :: k') t None.
Proof.
  intros Hl Hb k v [r ->]%lookup_key_prefix Hc. rewrite Hl, <- app_assoc in Hc. cbn [app] in Hc.
  apply candidate_fork in Hc. rewrite <- Hb in Hc. bool_clash.
Qed.
Lemma nearest_below mode allow_eq p b l' k' t :
  steady mode -> label t = p ++ negb b :: l' -> b <> dir mode (length p) ->
  nearest_ok mode allow_eq (p ++ b :: k') t (Some (t_minmax (Z.lnot mode) t)).
Proof.
  intros Hs Hl Hb. destruct (minmax_first (Z.lnot mode) t) as [H1 H2]; [by apply steady_lnot|].
  destruct (t_minmax (Z.lnot mode) t) as [k v]. cbn [fst snd] in *. split; [done|]. split.
  - apply lookup_key_prefix in H1 as [r ->]. rewrite Hl, <- app_assoc. cbn [app]. apply candidate_fork.
    by destruct b, (dir mode (length p)).
  - intros k2 v2 Hk2 _. destruct (H2 _ _ Hk2) as [?|Hx]; [by left|]. right. by apply before_lnot.
Qed.
Lemma nearest_leaf mode allow_eq key v :
  nearest_ok mode allow_eq key (Leaf key v) (if allow_eq then Some (key, v) else None).
Proof.
  destruct allow_eq.
  - split; [by rewrite lookup_leaf, decide_True|]. split; [by right|].
    intros k' v'. rewrite lookup_leaf. destruct (decide (k' = key)); [by left|done].
  - intros k v'. rewrite lookup_leaf. destruct (decide (k = key)) as [->|]; [|done].
    intros _ [Hb|[? _]]; [by eapply before_irrefl|done].
Qed.
Lemma nearest_fork_found mode allow_eq l t0 t1 (b : bool) key k v :
  steady mode ->
  nearest_ok (Z.shiftr (node_mode mode (length l)) 1) allow_eq key (if b then t1 else t0) (Some (k, v)) ->
  nearest_ok mode allow_eq (l ++ b :: key) (Fork l t0 t1) (Some (l ++ b :: k, v)).
Proof.
  intros Hs (H1 & H2 & H3). split; [by rewrite lookup_fork|]. split; [by apply candidate_child|].
  intros k' v' (c & r & -> & Hr)%fork_key_cases Hc. destruct (decide (c = b)) as [->|Hne].
  - apply candidate_child in Hc; [|done]. destruct (H3 _ _ Hr Hc) as [->|Hb]; [by left|right]. by apply before_child.
  - assert (c = negb b) as -> by (by destruct b, c). apply candidate_fork in Hc. right.
    pose proof (before_fork mode l (negb b) r k) as Hb. rewrite negb_involutive in Hb. by apply Hb.
Qed.
Lemma nearest_fork_none mode allow_eq l t0 t1 (b : bool) key :
  steady mode ->
  nearest_ok (Z.shiftr (node_mode mode (length l)) 1) allow_eq key (if b then t1 else t0) None ->
  b = dir mode (length l) -> nearest_ok mode allow_eq (l ++ b :: key) (Fork l t0 t1) None.
Proof.
  intros Hs Hn Hb k v (c & r & -> & Hr)%fork_key_cases Hc. destruct (decide (c = b)) as [->|Hne].
  - apply candidate_child in Hc; [|done]. by apply (Hn _ _ Hr).
  - assert (c = negb b) as -> by (by destruct b, c). apply candidate_fork in Hc. rewrite <- Hb in Hc. bool_clash.
Qed.
Lemma nearest_fork_other mode allow_eq l t0 t1 (b : bool) key :
  steady mode ->
  nearest_ok (Z.shiftr (node_mode mode (length l)) 1) allow_eq key (if b then t1 else t0) None ->
  b <> dir mode (length l) ->
  let (k, v) := t_minmax (Z.lnot (Z.shiftr (node_mode mode (length l)) 1)) (if dir mode (length l) then t1 else t0) in
  nearest_ok mode allow_eq (l ++ b :: key) (Fork l t0 t1) (Some (l ++ dir mode (length l) :: k, v)).
Proof.
  intros Hs Hn Hb. assert (dir mode (length l) = negb b) as Hd by (by destruct b, (dir mode (length l))). rewrite Hd.
  destruct (minmax_first (Z.lnot (Z.shiftr (node_mode mode (length l)) 1)) (if negb b then t1 else t0)) as [H1 H2];
    [by apply steady_lnot, child_steady|].
  destruct (t_minmax _ _) as [k v]. cbn [fst snd] in *. split; [by rewrite lookup_fork|].
  split; [by apply candidate_fork|]. intros k' v' (c & r & -> & Hr)%fork_key_cases Hc.
  destruct (decide (c = b)) as [->|Hne].
  - apply candidate_child in Hc; [|done]. by destruct (Hn _ _ Hr).
  - assert (c = negb b) as -> by (by destruct b, c). destruct (H2 _ _ Hr) as [->|Hx]; [by left|right].
    apply before_child; [done|]. by apply before_lnot.
Qed.
End trees.

(** ** The walks *)

(** A key and a slice that shows the value. *)
Definition shows_at (r : option (list bool * CellSlice)) (o : option (list bool * value)) : Prop :=
  match r, o with
  | Some (k, cs), Some (k', v) => k = k' /\ slice_is cs (fst v) (snd v)
  | None, None => True
  | _, _ => False
  end.

Section walks.
Context `{Sha256} {St : Type} `{CellLaws St} (E : nat -> list bool -> list bool -> Prop) `{!LabelEnc E}.
Context (N : nat) (HN : (N + 12 <= max_bits)%nat).
Implicit Types (s : St) (t : tree value).

Lemma wp_dict_lookup_minmax fuel n t c mode lmode s :
  repr E n t c -> all_values (value_ok N) t -> (n <= N)%nat -> (n < fuel)%nat -> io_inv s ->
  wp (dict_lookup_minmax fuel (Some c) n mode lmode)
     (fun r s' => shows_at r (Some (t_minmax mode t)) /\ io_inv s') io_exc s.
Proof.
  revert n t c mode s. induction fuel as [|fuel IH]; intros n t c mode s Hr Hv Hn Hf Hi; [lia|].
  cbn [dict_lookup_minmax]. eapply (wp_open E N HN); [done..|]. intros lp e payload refs s' Hnv Hlp Hi'.
  pose proof (nv_label _ _ _ _ _ _ _ _ Hnv) as Hl. pose proof (nv_data _ _ _ _ _ _ _ _ Hnv) as Hd.
  destruct (extract_label_at _ _ _ _ Hlp) as (rest & -> & Hrest).
  wp_step. apply wp_assert_ub; [by apply Nat.leb_le|].
  pose proof (repr_wf _ _ _ _ Hr) as Hw. destruct t as [l v|l t0 t1]; cbn [label wf] in *.
  - rewrite Hw, Nat.sub_diag. cbn [Nat.eqb]. wp_step. subst v. by split.
  - destruct Hw as (Hlt & Hw0 & Hw1). rewrite (proj2 (Nat.eqb_neq _ _)) by lia.
    destruct Hd as (c0 & c1 & -> & H0' & H1'). fold (node_mode mode (length l)). cbn [t_minmax].
    set (b := Z.testbit _ 0). wp_step. rewrite (slice_is_ref _ _ _ _ Hrest).
    apply wp_of_option with (a := if b then c1 else c0); [by destruct b|].
    wp_step. destruct Hv as [Hv0 Hv1].
    eapply wp_mono; [apply (IH (n - length l - 1)%nat (if b then t1 else t0)); try lia; try done; by destruct b| |done].
    intros r s2 [Hr2 Hi2]. wp_step. split; [|done].
    replace (if b then t_minmax _ t1 else _) with (t_minmax (Z.shiftr (node_mode mode (length l)) 1) (if b then t1 else t0))
      by (by destruct b).
    destruct (t_minmax _ _) as [k v]. destruct r as [[k' cs]|]; [|done]. destruct Hr2 as [-> Hcs]. by split.
Qed.

Lemma wp_dict_lookup_nearest fuel n t c key allow_eq mode lmode s :
  steady mode -> repr E n t c -> all_values (value_ok N) t -> (n <= N)%nat -> (n < fuel)%nat -> length key = n ->
  io_inv s ->
  wp (dict_lookup_nearest fuel (Some c) key n allow_eq mode lmode)
     (fun r s' => exists o, shows_at r o /\ nearest_ok mode allow_eq key t o /\ io_inv s') io_exc s.
Proof.
  revert n t c key mode s. induction fuel as [|fuel IH]; intros n t c key mode s Hs Hr Hv Hn Hf Hk Hi; [lia|].
  cbn [dict_lookup_nearest]. eapply (wp_open E N HN); [done..|]. intros lp e payload refs s' Hnv Hlp Hi'.
  pose proof (nv_label _ _ _ _ _ _ _ _ Hnv) as Hl. pose proof (nv_data _ _ _ _ _ _ _ _ Hnv) as Hd.
  rewrite (common_prefix_len_at _ _ _ _ Hlp) by done. rewrite (at_bits _ _ _ _ Hlp).
  destruct (key_cases _ _ _ (repr_wf _ _ _ _ Hr) Hk) as [(p & b & l' & k' & Hlab & ->)|[[v' ->]|
      (l2 & t0 & t1 & b & k & -> & -> & Hn' & Hk' & Hw2 & Hw3)]]; cbn [label] in *.
  - rewrite Hlab in Hl |- *. rewrite same_upto_diverge. rewrite length_app in Hl |- *. cbn [length] in *.
    rewrite (proj2 (Nat.leb_le _ _)), (proj2 (Nat.leb_le _ n)), (proj2 (Nat.ltb_lt _ _)) by lia.
    cbn [andb]. wp_step. apply wp_assert_ub; [done|]. wp_step. eapply wp_of_option; [apply key_bit_at|].
    replace (Z.testbit (Z.shiftr mode (if (length p =? 0)%nat then 0 else 1)) 0) with (dir mode (length p))
      by (unfold dir; destruct (length p =? 0)%nat; by rewrite Z.shiftr_spec by lia).
    destruct (Bool.eqb b _) eqn:Eb.
    + apply eqb_prop in Eb. wp_step. exists None. split; [done|]. split; [by eapply nearest_none|done].
    + assert (b <> dir mode (length p)) by (intros ->; by rewrite eqb_reflx in Eb).
      eapply wp_mono; [apply (wp_dict_lookup_minmax (S fuel) n t); try done; lia| |done].
      intros r s2 [Hr2 Hi2]. eexists. split; [done|]. split; [by eapply nearest_below|done].
  - pose proof (same_upto_all key []) as Hsu. rewrite app_nil_r in Hsu. rewrite Hsu, Hk.
    rewrite !(proj2 (Nat.leb_le _ _)), (proj2 (Nat.ltb_ge _ _)) by lia.
    cbn [andb]. wp_step. apply wp_assert_ub; [done|]. rewrite Nat.sub_diag. cbn [Nat.eqb].
    pose proof (nearest_leaf mode allow_eq key v') as Hne. subst v'. rewrite <- Hk, firstn_all.
    destruct allow_eq; wp_step; eexists; (split; [|split; [exact Hne|done]]); [|done].
    split; [done|]. exact (skip_label_at _ _ _ _ Hlp).
  - rewrite same_upto_all, Nat.leb_refl, Nat.ltb_irrefl. rewrite (proj2 (Nat.leb_le _ _)) by lia.
    cbn [andb]. wp_step. apply wp_assert_ub; [done|]. fold (node_mode mode (length l2)).
    rewrite (proj2 (Nat.eqb_neq _ _)) by lia. destruct Hd as (c0 & c1 & -> & H0' & H1').
    wp_step. eapply wp_of_option; [apply key_bit_at|]. wp_step. rewrite !(label_ref _ _ _ _ _ Hlp).
    apply wp_of_option with (a := if b then c1 else c0); [by destruct b|].
    rewrite take_app_length, drop_bit, <- Hk'. rewrite node_mode_dir by done. destruct Hv as [Hv0 Hv1]. wp_step.
    eapply wp_mono; [apply (IH (length k) (if b then t1 else t0)); try done; try lia;
      [by apply child_steady|destruct b; by rewrite Hk'|by destruct b]| |done].
    intros r s2 (o & Hro & Hno & Hi2).
    destruct r as [[k2 cs]|], o as [[k3 v]|]; try done.
    + destruct Hro as [-> Hcs]. wp_step. eexists. split; [|split; [by apply nearest_fork_found|done]]. by split.
    + destruct (Bool.eqb b _) eqn:Eb.
      * apply eqb_prop in Eb. wp_step. exists None. split; [done|]. split; [by apply nearest_fork_none|done].
      * assert (b <> dir mode (length l2)) as Hb by (intros ->; by rewrite eqb_reflx in Eb).
        pose proof (nearest_fork_other mode allow_eq l2 t0 t1 b k Hs Hno Hb) as Hok.
        set (d := dir mode (length l2)) in *. wp_step.
        apply wp_of_option with (a := if d then c1 else c0); [by destruct d|]. wp_step.
        replace (Z.shiftr (Z.lnot (node_mode mode (length l2))) 1)
          with (Z.lnot (Z.shiftr (node_mode mode (length l2)) 1)) by (by rewrite Z.lnot_shiftr by lia).
        eapply wp_mono; [apply (wp_dict_lookup_minmax fuel (length k) (if d then t1 else t0)); try lia; try done;
          [destruct d; by rewrite Hk'|by destruct d]| |done].
        intros r s3 [Hr3 Hi3]. wp_step. destruct (t_minmax _ _) as [k4 v4]. destruct r as [[k5 cs]|]; [|done].
        destruct Hr3 as [-> Hcs]. eexists. split; [|split; [exact Hok|done]]. by split.
Qed.
End walks.

(** ** Keys as numbers *)

Lemma bits_to_Z_app a b : bits_to_Z (a ++ b) = bits_to_Z a * 2 ^ Z.of_nat (length b) + bits_to_Z b.
Proof.
  induction a as [|x a IH]; [done|]. cbn [app bits_to_Z]. rewrite IH, length_app, Nat2Z.inj_add, Z.pow_add_r by lia. ring.
Qed.
Lemma bits_lt p r r' :
  length r = length r' -> bits_to_Z (p ++ false :: r) < bits_to_Z (p ++ true :: r').
Proof.
  intros Hr. rewrite !bits_to_Z_app. cbn [length bits_to_Z Z.b2z]. rewrite Hr.
  pose proof (bits_to_Z_range r) as Hb. pose proof (bits_to_Z_range r') as Hb'. rewrite Hr in Hb. lia.
Qed.
Lemma signed_value x k :
  bits_to_Z_signed (x :: k) = bits_to_Z (x :: k) - Z.b2z x * 2 ^ Z.of_nat (S (length k)).
Proof. unfold bits_to_Z_signed. destruct x; cbn [Z.b2z length]; lia. Qed.

(** Where keys part, the value of the one with bit [b]. *)
Lemma value_part sgnd p b r r' :
  length r = length r' -> b = xorb (sgnd && (length p =? 0)%nat) true ->
  bits_value sgnd (p ++ negb b :: r) < bits_value sgnd (p ++ b :: r').
Proof.
  intros Hr Hb. destruct sgnd; cbn [bits_value]; [|subst b; by apply bits_lt].
  destruct p as [|x p]; cbn in Hb; subst b; cbn [app negb].
  - rewrite !signed_value, Hr. cbn [bits_to_Z Z.b2z]. rewrite ?Hr. pose proof (bits_to_Z_range r) as H1. rewrite Hr in H1.
    pose proof (bits_to_Z_range r'). rewrite Nat2Z.inj_succ, Z.pow_succ_r by lia. lia.
  - rewrite !signed_value, !length_app. cbn [length]. rewrite Hr.
    pose proof (bits_lt (x :: p) r r' Hr) as Hl. cbn [app] in Hl. lia.
Qed.

Lemma key_order_dir fetch_max inv i :
  dir (key_order fetch_max inv) i = xorb (inv && (i =? 0)%nat) fetch_max.
Proof. unfold dir, key_order. destruct (i =? 0)%nat, fetch_max, inv; reflexivity. Qed.

(** [mode] as an order of numbers. *)
Definition num_before (fetch_max inv : bool) (k k' : list bool) : Prop :=
  if fetch_max then bits_value inv k' < bits_value inv k else bits_value inv k < bits_value inv k'.

Lemma before_num fetch_max inv k k' :
  length k = length k' -> key_before (key_order fetch_max inv) k k' -> num_before fetch_max inv k k'.
Proof.
  intros Hl (p & r & r' & -> & ->). rewrite !length_app in Hl. cbn in Hl. rewrite key_order_dir. unfold num_before.
  destruct fetch_max.
  - apply value_part; [lia|done].
  - rewrite <- (negb_involutive (xorb _ false)) at 1. apply value_part; [lia|].
    by destruct inv, (length p =? 0)%nat.
Qed.
Lemma before_total mode k k' :
  length k = length k' -> k = k' \/ key_before mode k k' \/ key_before mode k' k.
Proof.
  intros Hl. destruct (label_cases_le k k') as [[r ->]|(p & b & l & l' & -> & ->)]; [lia|..].
  - left. rewrite length_app in Hl. destruct r; [by rewrite app_nil_r|cbn in Hl; lia].
  - right. destruct (decide (b = dir mode (length p))) as [->|Hb].
    + right. by exists p, l', l.
    + left. exists p, l, l'. destruct b, (dir mode (length p)); done.
Qed.
Lemma num_before_iff fetch_max inv k k' :
  length k = length k' -> key_before (key_order fetch_max inv) k k' <-> num_before fetch_max inv k k'.
Proof.
  intros Hl. split; [by apply before_num|]. intros Hn.
  destruct (before_total (key_order fetch_max inv) k k' Hl) as [->|[Hb|Hb]]; [|done|].
  - unfold num_before in Hn. destruct fetch_max; lia.
  - apply before_num in Hb; [|done]. unfold num_before in *. destruct fetch_max; lia.
Qed.

Lemma lookup_length {V} n (t : tree V) k v : wf n t -> t_lookup t k = Some v -> length k = n.
Proof.
  revert n k. induction t as [l v0|l t0 IH0 t1 IH1]; intros n k Hw Hk.
  - rewrite lookup_leaf in Hk. destruct (decide _) as [->|]; done.
  - apply fork_key_cases in Hk as (c & r & -> & Hr). destruct Hw as (Hl & Hw0 & Hw1).
    rewrite length_app. cbn. assert (length r = n - length l - 1)%nat as -> by (destruct c; eauto). lia.
Qed.
