(* ===== verification/DictRefine.v ===== *)
(** * Dictionary objects implement finite maps

    [dict_obj E N m d]: the object [d] is, or can be validated to be, a dictionary with
    [N]-bit keys that holds the map [m].  Every method is proved to be the operation on
    maps, in a machine as well as outside of one (where it cannot fail). *)
From S2P Require Import Prelude Int256 Cells DataCell Dict DictObj DictLabel DictNode DictTree DictSpec DictOrder.
From stdpp Require Import gmap.

(** ** Insertion without the old value *)

Section no_old_value.
Context `{Sha256} {St : Type} `{CellIO St}.

Definition forget_old {A B C} (r : A * B * C) : B * C := let '(_, b, c) := r in (b, c).

Lemma bind_ext {A B} (m : M St A) (k k' : A -> M St B) s :
  (forall a s', m s = Ret a s' -> k a s' = k' a s') -> bind m k s = bind m k' s.
Proof. unfold bind. intros Hk. destruct (m s) as [a s'| |]; [by apply Hk|done..]. Qed.

(** [dict_set] is [dict_lookup_set] without the old value. *)
Lemma dict_set_lookup_set fuel dict key n f mode (s : St) :
  dict_set fuel dict key n f mode s =
  bind (dict_lookup_set fuel dict key n f mode) (fun r => ret (forget_old r)) s.
Proof.
  revert dict key n s. induction fuel as [|fuel IH]; intros dict key n s; [done|].
  cbn [dict_set dict_lookup_set]. destruct dict as [c|]; [|by destruct mode; try done; rewrite bind_assoc].
  rewrite bind_assoc. apply bind_ext. intros lp s1 _.
  rewrite bind_assoc. apply bind_ext. intros _ s2 _.
  destruct (_ <? _)%nat; [destruct mode; try done; by rewrite bind_assoc|].
  destruct (_ =? _)%nat; [destruct mode; try done; by rewrite bind_assoc|].
  rewrite bind_assoc. apply bind_ext. intros [c1 c2] s3 _.
  rewrite bind_assoc. apply bind_ext. intros sw s4 _.
  unfold bind at 1. rewrite IH. unfold bind.
  destruct (dict_lookup_set fuel _ _ _ f mode s4) as [[[old c'] changed] s5| |]; [|done..].
  cbn. destruct changed; cbn; [|done].
  destruct (of_option c' s5) as [c3 s6| |]; [|done..]. cbn.
  by destruct (make_fork _ _ _ _ s6).
Qed.
End no_old_value.

(** ** Maps *)

Section maps.
Context `{Sha256} {St : Type} `{CellLaws St} (E : nat -> list bool -> list bool -> Prop) `{!LabelEnc E}.
Context (N : nat) (HN : (N + 12 <= max_bits)%nat).
Implicit Types (s : St) (m : gmap (list bool) value).

Lemma is_dict_intro m c t :
  repr E N t c -> all_values (value_ok N) t -> (forall k, m !! k = t_lookup t k) -> is_dict E N m (Some c).
Proof. intros. by exists t. Qed.

Lemma wp_set_map m root key v f mode s :
  is_dict E N m root -> length key = N -> value_ok N v -> stores v f -> io_inv s ->
  wp (dict_lookup_set (S N) root key N f mode)
     (fun r s' => let '(old, c, changed) := r in
        shows old (m !! key) /\ changed = set_allowed mode (m !! key) /\
        (if changed then is_dict E N (<[key := v]> m) c else c = None) /\ io_inv s') io_exc s.
Proof.
  intros Hd Hk Hv Hf Hi. destruct root as [c|].
  - destruct Hd as (t & Hr & Hav & Hm).
    eapply wp_mono; [eapply (wp_dict_lookup_set E N HN (S N) N t); try done; lia| |done].
    intros [[old c'] changed] s' [(Hold & -> & Hc) Hi']. rewrite Hm. split; [done|]. split; [done|].
    split; [|done]. destruct (set_allowed _ _); [|done]. destruct Hc as (c2 & -> & Hc2).
    eapply is_dict_intro; [exact Hc2|by apply all_values_set|]. intros k.
    rewrite (DictTree.lookup_set N) by (done || by eapply repr_wf).
    destruct (decide (k = key)) as [->|Hne]; [by rewrite lookup_insert_eq|]. by rewrite lookup_insert_ne, Hm by done.
  - cbn in Hd. subst m. rewrite lookup_empty. cbn [dict_lookup_set]. destruct mode; [|by wp_step|].
    all: eapply wp_some; [by apply (wp_leaf E N HN N key v)|]; intros c s' Hc Hi'; (do 2 (split; [done|])); split; [|done];
      (eapply is_dict_intro; [exact Hc|done|]); intros k; rewrite lookup_leaf;
      destruct (decide (k = key)) as [->|Hne]; [by rewrite lookup_insert_eq|by rewrite lookup_insert_ne, lookup_empty by done].
Qed.

Lemma wp_delete_map m root key mode s :
  is_dict E N m root -> length key = N -> io_inv s ->
  wp (dict_lookup_delete (S N) root key N mode)
     (fun r s' => let '(old, c) := r in
        shows old (m !! key) /\ (match old with Some _ => is_dict E N (delete key m) c | None => c = None end) /\
        io_inv s') io_exc s.
Proof.
  intros Hd Hk Hi. destruct root as [c|].
  - destruct Hd as (t & Hr & Hav & Hm).
    eapply wp_mono; [eapply (wp_dict_lookup_delete E N HN (S N) N t); try done; lia| |done].
    intros [old c'] s' [(Hold & Hc) Hi']. rewrite Hm. split; [done|]. split; [|done].
    pose proof (DictTree.lookup_delete N t key) as Hld. destruct (t_lookup t key) as [v|] eqn:Ev; destruct old as [old|]; try done.
    assert (forall k, delete key m !! k = lookup_opt (t_delete key t) k) as Hdel.
    { intros k. rewrite Hld by (done || by eapply repr_wf).
      destruct (decide (k = key)) as [->|Hne]; [by rewrite lookup_delete_eq|].
      by rewrite lookup_delete_ne, Hm by done. }
    destruct (t_delete key t) as [t'|] eqn:Ed.
    + destruct Hc as (c2 & -> & Hc2). eapply is_dict_intro; [exact Hc2|by eapply all_values_delete|done].
    + subst c'. cbn. apply map_eq. intros k. by rewrite Hdel, lookup_empty.
  - cbn in Hd. subst m. cbn [dict_lookup_delete]. wp_step. by rewrite lookup_empty.
Qed.

Lemma wp_lookup_map m c key mode s :
  is_dict E N m (Some c) -> length key = N -> io_inv s ->
  wp (dict_lookup_loop (S N) c key N mode) (fun r s' => shows r (m !! key) /\ io_inv s') io_exc s.
Proof.
  intros (t & Hr & Hav & Hm) Hk Hi. rewrite Hm. eapply (wp_lookup_loop E N HN); try done; lia.
Qed.
End maps.

(** ** Objects *)

(** The cached slice shows the root cell. *)
Definition cache_ok (d : Dictionary) : Prop :=
  f_root_cached d = true -> exists cs, d_root d = Some cs /\
    match root_cell d with Some c => slice_is cs [true] [c] | None => slice_is cs [false] [] end.

Section dict_objects.
Context `{Sha256} (E : nat -> list bool -> list bool -> Prop) `{!LabelEnc E}.
Context (N : nat).
Implicit Types (m : gmap (list bool) value) (d : Dictionary).

Record obj_ok m d : Prop := mkObjOk {
  oo_valid : f_valid d = true;
  oo_bits : key_bits d = Z.of_nat N;
  oo_dict : is_dict E N m (root_cell d);
  oo_cache : cache_ok d
}.
Definition dict_obj m d : Prop := exists d', validate d = (true, d') /\ obj_ok m d'.

Lemma obj_ok_dict_obj m d : obj_ok m d -> dict_obj m d.
Proof. intros Hd. exists d. split; [|done]. unfold validate. by rewrite (oo_valid _ _ Hd). Qed.
Lemma obj_ok_set_root m m' d c : obj_ok m d -> is_dict E N m' c -> obj_ok m' (set_root_cell c d).
Proof. intros [H1 H2 H3 H4] Hc. by split. Qed.

Lemma dict_obj_of_cell m c : (N <= max_key_bits)%nat -> is_dict E N m c -> dict_obj m (dictionary_of_cell c (Z.of_nat N)).
Proof.
  intros HN Hd. exists (mkDictionary None c (Z.of_nat N) true false false). split; [|by split].
  unfold validate. cbn -[max_key_bits Z.of_nat]. by rewrite !(proj2 (Z.ltb_ge _ _)) by lia.
Qed.
(** What [get_root] returns, and the object that is made of it. *)
Definition root_slice (c : option Cell) (cs : CellSlice) : Prop :=
  match c with Some c => slice_is cs [true] [c] | None => slice_is cs [false] [] end.
Lemma dict_obj_of_slice m c cs :
  (N <= max_key_bits)%nat -> is_dict E N m c -> root_slice c cs ->
  dict_obj m (dictionary_of_slice (Some cs) (Z.of_nat N)).
Proof.
  intros HN Hd Hcs. exists (mkDictionary (Some cs) c (Z.of_nat N) true true false).
  split; [|split; [done|done|done|by exists cs]].
  unfold validate. cbn -[max_key_bits Z.of_nat size size_refs prefetch_ulong prefetch_ref].
  rewrite !(proj2 (Z.ltb_ge _ _)) by lia. cbn [orb].
  destruct c as [c|]; cbn in Hcs; rewrite (slice_is_prefetch _ 1 _ _ Hcs) by (cbn; lia);
    destruct (slice_is_size _ _ _ Hcs) as [-> ->]; cbn -[prefetch_ref]; [|done].
  by rewrite (slice_is_ref _ _ _ 0 Hcs).
Qed.

Context {St : Type} `{CellLaws St} (HN : (N + 12 <= max_bits)%nat).
Implicit Types s : St.

Lemma wp_force_validate {A} m d (k : Dictionary -> M St A) Q E' s :
  dict_obj m d -> (forall d', obj_ok m d' -> wp (k d') Q E' s) -> wp (bind (force_validate d) k) Q E' s.
Proof.
  intros (d' & Hv & Hd') Hk. wp_step. unfold force_validate. destruct (f_valid d) eqn:Ev.
  - unfold validate in Hv. rewrite Ev in Hv. injection Hv as <-. wp_step. by apply Hk.
  - rewrite Hv. wp_step. by apply Hk.
Qed.
Lemma key_fits_ok m d key : obj_ok m d -> key_fits key d = bool_decide (length key = N).
Proof.
  intros Hd. unfold key_fits. rewrite (oo_bits _ _ Hd).
  destruct (Z.eqb_spec (Z.of_nat (length key)) (Z.of_nat N)); symmetry;
    [apply bool_decide_eq_true|apply bool_decide_eq_false]; lia.
Qed.

Lemma wp_obj_lookup m d key s :
  dict_obj m d -> length key = N -> io_inv s ->
  wp (DictObj.lookup key d) (fun r s' => shows (fst r) (m !! key) /\ dict_obj m (snd r) /\ io_inv s') io_exc s.
Proof.
  intros Hd Hk Hi. unfold DictObj.lookup. eapply wp_force_validate; [done|]. intros d' Hd'.
  rewrite (key_fits_ok _ _ _ Hd'), bool_decide_eq_true_2 by done.
  pose proof (oo_dict _ _ Hd') as Hm. destruct (root_cell d') as [c|].
  - wp_step. rewrite Hk. eapply wp_mono; [by eapply wp_lookup_map| |done]. intros r s' [Hr Hi']. wp_step.
    split; [done|]. split; [by apply obj_ok_dict_obj|done].
  - wp_step. cbn in Hm. subst m. rewrite lookup_empty. split; [done|]. split; [by apply obj_ok_dict_obj|done].
Qed.

Lemma wp_obj_lookup_set m d key v f mode s :
  dict_obj m d -> length key = N -> value_ok N v -> stores v f -> io_inv s ->
  wp (lookup_set_gen key f mode d)
     (fun r s' => shows (fst r) (m !! key) /\
        dict_obj (if set_allowed mode (m !! key) then <[key := v]> m else m) (snd r) /\ io_inv s') io_exc s.
Proof.
  intros Hd Hk Hv Hf Hi. unfold lookup_set_gen. eapply wp_force_validate; [done|]. intros d' Hd'.
  rewrite (key_fits_ok _ _ _ Hd'), bool_decide_eq_true_2 by done. wp_step. rewrite Hk.
  eapply wp_mono; [eapply (wp_set_map E N HN); try done; apply (oo_dict _ _ Hd')| |done].
  intros [[old c] changed] s' (Hold & -> & Hc & Hi'). wp_step. split; [done|]. split; [|done].
  apply obj_ok_dict_obj. cbn [snd]. destruct (set_allowed _ _); [by eapply obj_ok_set_root|done].
Qed.

Lemma wp_obj_set m d key v f mode s :
  dict_obj m d -> length key = N -> value_ok N v -> stores v f -> io_inv s ->
  wp (set_gen key f mode d)
     (fun r s' => fst r = set_allowed mode (m !! key) /\
        dict_obj (if set_allowed mode (m !! key) then <[key := v]> m else m) (snd r) /\ io_inv s') io_exc s.
Proof.
  intros Hd Hk Hv Hf Hi. unfold set_gen. eapply wp_force_validate; [done|]. intros d' Hd'.
  rewrite (key_fits_ok _ _ _ Hd'), bool_decide_eq_true_2 by done. wp_step. rewrite Hk.
  unfold wp at 1. rewrite dict_set_lookup_set. change (wp (bind (dict_lookup_set (S N) (root_cell d') key N f mode)
    (fun r => ret (forget_old r))) (fun a s' => wp (let (c, changed) := a in ret (changed, if changed then set_root_cell c d' else d'))
     (fun r s'' => fst r = set_allowed mode (m !! key) /\
        dict_obj (if set_allowed mode (m !! key) then <[key := v]> m else m) (snd r) /\ io_inv s'') io_exc s') io_exc s).
  wp_step. eapply wp_mono; [eapply (wp_set_map E N HN); try done; apply (oo_dict _ _ Hd')| |done].
  intros [[old c] changed] s' (Hold & -> & Hc & Hi'). wp_step. cbn [forget_old]. wp_step. split; [done|]. split; [|done].
  apply obj_ok_dict_obj. cbn [snd]. destruct (set_allowed _ _); [by eapply obj_ok_set_root|done].
Qed.

Lemma wp_obj_delete m d key s :
  dict_obj m d -> length key = N -> io_inv s ->
  wp (DictObj.lookup_delete key d)
     (fun r s' => shows (fst r) (m !! key) /\ dict_obj (delete key m) (snd r) /\ io_inv s') io_exc s.
Proof.
  intros Hd Hk Hi. unfold DictObj.lookup_delete. eapply wp_force_validate; [done|]. intros d' Hd'.
  rewrite (key_fits_ok _ _ _ Hd'), bool_decide_eq_true_2 by done. wp_step. rewrite Hk.
  eapply wp_mono; [eapply (wp_delete_map E N HN); try done; apply (oo_dict _ _ Hd')| |done].
  intros [old c] s' (Hold & Hc & Hi'). wp_step. split; [done|]. split; [|done].
  apply obj_ok_dict_obj. cbn [snd]. destruct old as [old|]; [by eapply obj_ok_set_root|].
  cbn in Hold. destruct (m !! key) eqn:Em; [done|]. by rewrite delete_id by done.
Qed.
(** The first key of the order, and the nearest one. *)
Definition first_key m (fetch_max inv : bool) (r : option (list bool * CellSlice)) : Prop :=
  match r with
  | None => m = ∅
  | Some (k, cs) => exists v : value, m !! k = Some v /\ slice_is cs (fst v) (snd v) /\
      forall k' (v' : value), m !! k' = Some v' ->
        (if fetch_max then bits_value inv k' <= bits_value inv k else bits_value inv k <= bits_value inv k')%Z
  end.
(** [k] comes after [key] in the direction of the search. *)
Definition key_after (fetch_next allow_eq inv : bool) (key k : list bool) : Prop :=
  num_before fetch_next inv k key \/ (allow_eq = true /\ k = key).
Definition nearest_key m (fetch_next allow_eq inv : bool) (key : list bool) (r : option (list bool * CellSlice)) : Prop :=
  match r with
  | None => forall k (v : value), m !! k = Some v -> ~ key_after fetch_next allow_eq inv key k
  | Some (k, cs) => exists v : value, m !! k = Some v /\ slice_is cs (fst v) (snd v) /\ key_after fetch_next allow_eq inv key k /\
      forall k' (v' : value), m !! k' = Some v' -> key_after fetch_next allow_eq inv key k' ->
        k' = k \/ num_before fetch_next inv k' k
  end.

Lemma wp_minmax_map m root fetch_max inv mode s :
  is_dict E N m root -> io_inv s ->
  wp (dict_lookup_minmax (S N) root N (key_order fetch_max inv) mode)
     (fun r s' => first_key m fetch_max inv r /\ io_inv s') io_exc s.
Proof.
  intros Hd Hi. destruct root as [c|]; [|by cbn in *].
  destruct Hd as (t & Hr & Hav & Hm). pose proof (repr_wf _ _ _ _ Hr) as Hw.
  destruct (minmax_first (key_order fetch_max inv) t (steady_key_order _ _)) as [H1' H2'].
  eapply wp_mono; [eapply (wp_dict_lookup_minmax E N HN (S N) N t); try done; lia| |done].
  intros r s' [Hs Hi']. split; [|done]. destruct (t_minmax _ t) as [k v]. destruct r as [[k2 cs]|]; [|done].
  destruct Hs as [-> Hcs]. cbn [fst snd] in *. exists v. rewrite Hm. split; [done|]. split; [done|].
  intros k' v'. rewrite Hm. intros Hk'. destruct (H2' _ _ Hk') as [->|Hb]; [destruct fetch_max; lia|].
  apply before_num in Hb; [|by rewrite (lookup_length N t k v), (lookup_length N t k' v')].
  unfold num_before in Hb. destruct fetch_max; lia.
Qed.

Lemma wp_obj_minmax m d fetch_max inv s :
  dict_obj m d -> io_inv s ->
  wp (get_minmax_key N fetch_max inv d)
     (fun r s' => first_key m fetch_max inv (fst r) /\ dict_obj m (snd r) /\ io_inv s') io_exc s.
Proof.
  intros Hd Hi. unfold get_minmax_key. eapply wp_force_validate; [done|]. intros d' Hd'.
  rewrite (oo_bits _ _ Hd'), Z.eqb_refl. wp_step.
  eapply wp_mono; [eapply wp_minmax_map; [apply (oo_dict _ _ Hd')|done]| |done].
  intros r s' [Hr Hi']. wp_step. split; [done|]. split; [by apply obj_ok_dict_obj|done].
Qed.

Lemma wp_obj_extract_minmax m d fetch_max inv s :
  dict_obj m d -> io_inv s ->
  wp (extract_minmax_key N fetch_max inv d)
     (fun r s' => first_key m fetch_max inv (fst r) /\
        dict_obj (match fst r with Some (k, _) => delete k m | None => m end) (snd r) /\ io_inv s') io_exc s.
Proof.
  intros Hd Hi. unfold extract_minmax_key. eapply wp_force_validate; [done|]. intros d' Hd'.
  rewrite (oo_bits _ _ Hd'), Z.eqb_refl. wp_step. pose proof (oo_dict _ _ Hd') as Hm.
  eapply wp_mono; [eapply wp_minmax_map; [exact Hm|done]| |done].
  intros [[k cs]|] s' [Hr Hi']; [|wp_step; split; [done|]; split; [by apply obj_ok_dict_obj|done]].
  assert (length k = N) as Hk.
  { destruct Hr as (v & Hv & _). destruct (root_cell d') as [c|]; [|cbn in Hm; subst m; by rewrite lookup_empty in Hv].
    destruct Hm as (t & Ht & _ & Hm). rewrite Hm in Hv. eapply lookup_length; [by eapply repr_wf|done]. }
  wp_step. eapply wp_mono; [eapply (wp_delete_map E N HN); [exact Hm|exact Hk|done]| |done].
  intros [old c] s2 (Hold & Hc & Hi2). destruct Hr as (v & Hv & Hcs & Hall). rewrite Hv in Hold.
  destruct old as [old|]; [|done]. wp_step. apply wp_assert_ub; [done|]. wp_step. cbn [fst snd].
  split; [by exists v|]. split; [|done]. apply obj_ok_dict_obj. by eapply obj_ok_set_root.
Qed.

Lemma wp_obj_nearest m d key fetch_next allow_eq inv s :
  dict_obj m d -> length key = N -> io_inv s ->
  wp (lookup_nearest_key key fetch_next allow_eq inv d)
     (fun r s' => nearest_key m fetch_next allow_eq inv key (fst r) /\ dict_obj m (snd r) /\ io_inv s') io_exc s.
Proof.
  intros Hd Hk Hi. unfold lookup_nearest_key. eapply wp_force_validate; [done|]. intros d' Hd'.
  rewrite (key_fits_ok _ _ _ Hd'), bool_decide_eq_true_2, Hk by done. wp_step.
  pose proof (oo_dict _ _ Hd') as Hm. pose proof (obj_ok_dict_obj _ _ Hd') as Hd2. clear Hd'.
  destruct (root_cell d') as [c|].
  2: { cbn in Hm. cbn [dict_lookup_nearest]. wp_step. wp_step. split; [|done]. subst m. intros k v. by rewrite lookup_empty. }
  destruct Hm as (t & Hr & Hav & Hm). pose proof (repr_wf _ _ _ _ Hr) as Hw.
  eapply wp_mono; [eapply (wp_dict_lookup_nearest E N HN (S N) N t); try done; [apply steady_key_order|lia..]| |done].
  intros r s' (o & Hs & Ho & Hi'). wp_step. split; [|done]. cbn [fst].
  assert (forall k v, t_lookup t k = Some v ->
    candidate (key_order fetch_next inv) allow_eq key k <-> key_after fetch_next allow_eq inv key k) as Hcand.
  { intros k v Hv. unfold candidate, key_after. rewrite num_before_iff; [done|].
    by rewrite (lookup_length N t k v), Hk. }
  destruct r as [[k cs]|], o as [[k2 v]|]; try done.
  - destruct Hs as [<- Hcs]. destruct Ho as (H1' & H2' & H3'). exists v. rewrite Hm. split; [done|]. split; [done|].
    split; [by eapply Hcand|]. intros k' v'. rewrite Hm. intros Hk' Ha.
    destruct (H3' _ _ Hk') as [->|Hb]; [by eapply Hcand|by left|right].
    apply before_num in Hb; [done|]. by rewrite (lookup_length N t k v), (lookup_length N t k' v').
  - intros k v. rewrite Hm. intros Hv Ha. eapply Ho; [done|]. by eapply Hcand.
Qed.

Lemma wp_obj_get_root m d s :
  obj_ok m d -> match root_cell d with Some c => (cell_depth c < max_depth)%nat | None => True end -> io_inv s ->
  wp (get_root d)
     (fun r s' => exists cs, fst r = Some cs /\ root_slice (root_cell d) cs /\ obj_ok m (snd r) /\ io_inv s') io_exc s.
Proof.
  intros Hd Hv Hi. unfold get_root. destruct (f_root_cached d) eqn:Ec.
  { wp_step. destruct (oo_cache _ _ Hd Ec) as (cs & Hcs & Hr). by exists cs. }
  destruct Hd as [H1' H2' H3' _]. wp_step. unfold compute_root. rewrite H1'. cbn [negb].
  assert (forall cs, root_slice (root_cell d) cs ->
    obj_ok m (mkDictionary (Some cs) (root_cell d) (key_bits d) true true (f_invalid d))) as Hobj
    by (intros cs Hcs; split; cbn; try done; intros _; by exists cs).
  destruct (root_cell d) as [c|] eqn:Er.
  - wp_step. eapply wp_run_to; [apply store_long_run; unfold max_bits; cbn; lia|].
    apply wp_store_ref; [cbn; unfold max_refs; lia|]. wp_step.
    destruct H3' as (t & Hr & _). pose proof (repr_valid _ _ _ _ Hr).
    eapply wp_mono; [apply wp_finalize| |done]; cbn [length app Z_to_bits]; unfold max_bits, max_refs; try lia.
    + by constructor.
    + by constructor.
    + done.
    + intros c' s' (-> & Hc & Hi'). do 2 wp_step. eexists. split; [done|].
      pose proof (slice_of_cell_is (DataCell false [true] [c])) as Hcs. split; [exact Hcs|].
      split; [|done]. by apply Hobj.
  - do 2 wp_step. eexists. split; [done|].
    pose proof (slice_of_cell_is (DataCell false [false] [])) as Hcs. split; [exact Hcs|].
    split; [|done]. by apply Hobj.
Qed.
End dict_objects.

(** ** Outside of a machine *)

Lemma no_vm_inv : @io_inv unit no_vm no_vm_laws tt.
Proof. exact I. Qed.
(** Code that cannot throw returns. *)
Lemma wp_total {A} (m : M unit A) (Q : A -> unit -> Prop) : wp m Q io_exc tt -> exists a, m tt = Ret a tt /\ Q a tt.
Proof. unfold wp. destruct (m tt) as [a []|e []|]; [|done..]. intros Hq. by exists a. Qed.

(** The contents of a slice as a value. *)
Definition slice_value (cs : CellSlice) : value := (slice_bits cs, slice_refs cs).
Lemma slice_value_is cs : slice_ok cs -> slice_is cs (slice_bits cs) (slice_refs cs).
Proof. by split. Qed.
Lemma slice_value_stores cs : slice_ok cs -> stores (slice_value cs) (append_cellslice_bool cs).
Proof. intros Hcs. by apply append_stores, slice_value_is. Qed.

Section properties.
Context `{Sha256} (E : nat -> list bool -> list bool -> Prop) `{!LabelEnc E}.

(** C32: a dictionary lookup is the lookup in the map that the dictionary represents: it
    returns for every key of the right length, with a slice that shows the value, or
    nothing when the key is absent. *)
Theorem dict_lookup_refines (N : nat) (m : gmap (list bool) value) d key :
  (N + 12 <= max_bits)%nat -> dict_obj E N m d -> length key = N ->
  exists r d', DictObj.lookup key d tt = Ret (r, d') tt /\ shows r (m !! key) /\ dict_obj E N m d'.
Proof.
  intros HN Hd Hk. destruct (wp_total _ _ (wp_obj_lookup E N HN m d key tt Hd Hk no_vm_inv)) as ([r d'] & Hr & H1 & H2 & _).
  by exists r, d'.
Qed.

(** C24: [set] and [lookup_set] insert into the map that the dictionary represents, in the
    three modes: [Replace] only a key that is present and [Add] only one that is
    absent, leaving the dictionary as it was otherwise; they report whether the
    insertion took place and the old value. *)
Theorem dict_set_refines (N : nat) (m : gmap (list bool) value) d key cs mode :
  (N + 12 <= max_bits)%nat -> dict_obj E N m d -> length key = N ->
  slice_ok cs -> value_ok N (slice_value cs) ->
  let m' := if set_allowed mode (m !! key) then <[key := slice_value cs]> m else m in
  (exists d', DictObj.set key cs mode d tt = Ret (set_allowed mode (m !! key), d') tt /\ dict_obj E N m' d') /\
  (exists old d', DictObj.lookup_set key cs mode d tt = Ret (old, d') tt /\ shows old (m !! key) /\ dict_obj E N m' d').
Proof.
  intros HN Hd Hk Hcs Hv m'. pose proof (slice_value_stores cs Hcs) as Hst. split.
  - destruct (wp_total _ _ (wp_obj_set E N HN m d key _ _ mode tt Hd Hk Hv Hst no_vm_inv)) as ([r d'] & Hr & Hr1 & Hr2 & _).
    exists d'. cbn in Hr1. by subst r.
  - destruct (wp_total _ _ (wp_obj_lookup_set E N HN m d key _ _ mode tt Hd Hk Hv Hst no_vm_inv)) as ([r d'] & Hr & Hr1 & Hr2 & _).
    by exists r, d'.
Qed.

(** C31: [lookup_delete] deletes the key from the map that the dictionary represents and
    returns the value that it had, joining edges where a fork has lost a branch. *)
Theorem dict_delete_refines (N : nat) (m : gmap (list bool) value) d key :
  (N + 12 <= max_bits)%nat -> dict_obj E N m d -> length key = N ->
  exists r d', DictObj.lookup_delete key d tt = Ret (r, d') tt /\ shows r (m !! key) /\
    dict_obj E N (delete key m) d'.
Proof.
  intros HN Hd Hk. destruct (wp_total _ _ (wp_obj_delete E N HN m d key tt Hd Hk no_vm_inv)) as ([r d'] & Hr & H1 & H2 & _).
  by exists r, d'.
Qed.

(** [get_minmax_key] returns the smallest or the largest key with its value, keys
    read as unsigned numbers or, with [invert_first], as signed ones, and nothing only
    for the empty dictionary; [extract_minmax_key] deletes this key as well. *)
Theorem dict_minmax_refines (N : nat) (m : gmap (list bool) value) d fetch_max inv :
  (N + 12 <= max_bits)%nat -> dict_obj E N m d ->
  (exists r d', get_minmax_key N fetch_max inv d tt = Ret (r, d') tt /\
     first_key m fetch_max inv r /\ dict_obj E N m d') /\
  (exists r d', extract_minmax_key N fetch_max inv d tt = Ret (r, d') tt /\ first_key m fetch_max inv r /\
     dict_obj E N (match r with Some (k, _) => delete k m | None => m end) d').
Proof.
  intros HN Hd. split.
  - destruct (wp_total _ _ (wp_obj_minmax E N HN m d fetch_max inv tt Hd no_vm_inv)) as ([r d'] & Hr & H1 & H2 & _).
    by exists r, d'.
  - destruct (wp_total _ _ (wp_obj_extract_minmax E N HN m d fetch_max inv tt Hd no_vm_inv)) as ([r d'] & Hr & H1 & H2 & _).
    by exists r, d'.
Qed.

(** [lookup_nearest_key] returns the nearest key after (or before) a key, which may be
    absent, itself included with [allow_eq], in the unsigned or signed order; and
    nothing only when there is none. *)
Theorem dict_nearest_refines (N : nat) (m : gmap (list bool) value) d key fetch_next allow_eq inv :
  (N + 12 <= max_bits)%nat -> dict_obj E N m d -> length key = N ->
  exists r d', lookup_nearest_key key fetch_next allow_eq inv d tt = Ret (r, d') tt /\
    nearest_key m fetch_next allow_eq inv key r /\ dict_obj E N m d'.
Proof.
  intros HN Hd Hk.
  destruct (wp_total _ _ (wp_obj_nearest E N HN m d key fetch_next allow_eq inv tt Hd Hk no_vm_inv)) as ([r d'] & Hr & H1 & H2 & _).
  by exists r, d'.
Qed.
End properties.

(** ** One cell per map *)

Lemma repr_canonical_unique `{Sha256} n t c c' : repr canonical n t c -> repr canonical n t c' -> c = c'.
Proof.
  revert n c c'. induction t as [l v|l t0 IH0 t1 IH1]; intros n c c' (_ & _ & Hc) (_ & _ & Hc').
  - destruct Hc as (e & [_ ->] & ->), Hc' as (e' & [_ ->] & ->). done.
  - destruct Hc as (e & c0 & c1 & [_ ->] & -> & H0 & H1), Hc' as (e' & c0' & c1' & [_ ->] & -> & H0' & H1').
    by rewrite (IH0 _ _ _ H0 H0'), (IH1 _ _ _ H1 H1').
Qed.
Lemma is_dict_unique `{Sha256} (N : nat) m c c' : is_dict canonical N m c -> is_dict canonical N m c' -> c = c'.
Proof.
  assert (forall c : Cell, ~ is_dict canonical N ∅ (Some c)) as Hne.
  { intros x (t & _ & _ & Hm). destruct (has_key t) as (k & v & Hk). by rewrite <- Hm, lookup_empty in Hk. }
  destruct c as [c|], c' as [c'|]; intros Hc Hc'; try done.
  - destruct Hc as (t & Ht & _ & Hm), Hc' as (t' & Ht' & _ & Hm').
    assert (t = t') as <- by (apply tree_unique; intros k; by rewrite <- Hm, Hm'). f_equal. by eapply repr_canonical_unique.
  - cbn in Hc'. subst m. by destruct (Hne _ Hc).
  - cbn in Hc. subst m. by destruct (Hne _ Hc').
Qed.

(** Insertions and deletions, in the code and on maps. *)
Definition update : Type := list bool * option CellSlice.
Fixpoint run_updates `{Sha256} (us : list update) (d : Dictionary) : M unit Dictionary :=
  match us with
  | [] => ret d
  | (key, Some cs) :: us => let* (_, d) := DictObj.set key cs Dict.Set_ d in run_updates us d
  | (key, None) :: us => let* (_, d) := DictObj.lookup_delete key d in run_updates us d
  end.
Fixpoint map_updates (us : list update) (m : gmap (list bool) value) : gmap (list bool) value :=
  match us with
  | [] => m
  | (key, Some cs) :: us => map_updates us (<[key := slice_value cs]> m)
  | (key, None) :: us => map_updates us (delete key m)
  end.
Definition update_ok `{Sha256} (N : nat) (u : update) : Prop :=
  length (fst u) = N /\ match snd u with Some cs => slice_ok cs /\ value_ok N (slice_value cs) | None => True end.

Lemma run_updates_ok `{Sha256} (N : nat) us m d :
  (N + 12 <= max_bits)%nat -> Forall (update_ok N) us -> dict_obj canonical N m d ->
  exists d', run_updates us d tt = Ret d' tt /\ dict_obj canonical N (map_updates us m) d'.
Proof.
  intros HN Hus. revert m d. induction Hus as [|[key [cs|]] us [Hk Hu] _ IH]; intros m d Hd; cbn [fst snd] in *.
  - by exists d.
  - destruct Hu as [Hcs Hv]. pose proof (slice_value_stores cs Hcs) as Hst.
    destruct (wp_total _ _ (wp_obj_set canonical N HN m d key _ _ Dict.Set_ tt Hd Hk Hv Hst no_vm_inv)) as ([r d'] & Hr & _ & Hd' & _).
    destruct (IH _ _ Hd') as (d2 & Hd2 & Hok). exists d2. split; [|exact Hok].
    cbn [run_updates]. unfold DictObj.set, bind. rewrite Hr. exact Hd2.
  - destruct (wp_total _ _ (wp_obj_delete canonical N HN m d key tt Hd Hk no_vm_inv)) as ([r d'] & Hr & _ & Hd' & _).
    destruct (IH _ _ Hd') as (d2 & Hd2 & Hok). exists d2. split; [|exact Hok].
    cbn [run_updates]. unfold bind. rewrite Hr. exact Hd2.
Qed.

Definition validated_root (d : Dictionary) : option Cell := root_cell (snd (validate d)).

(** C28: dictionaries are canonical: two sequences of insertions and deletions that lead
    to the same map, in whatever order and through whatever intermediate maps, return
    dictionaries with the same root cell, and so the same hash. *)
Theorem dict_canonical `{Sha256} (N : nat) us us' :
  (N + 12 <= max_bits)%nat -> Forall (update_ok N) us -> Forall (update_ok N) us' ->
  map_updates us ∅ = map_updates us' ∅ ->
  exists d d', run_updates us (dictionary_of_cell None (Z.of_nat N)) tt = Ret d tt /\
    run_updates us' (dictionary_of_cell None (Z.of_nat N)) tt = Ret d' tt /\
    validated_root d = validated_root d'.
Proof.
  intros HN Hus Hus' Heq.
  assert (dict_obj canonical N ∅ (dictionary_of_cell None (Z.of_nat N))) as H0
    by (apply dict_obj_of_cell; [unfold max_key_bits, max_bits in *; lia|done]).
  destruct (run_updates_ok N us _ _ HN Hus H0) as (d & Hd & (d1 & Hv & Hok)).
  destruct (run_updates_ok N us' _ _ HN Hus' H0) as (d' & Hd' & (d1' & Hv' & Hok')).
  exists d, d'. split; [done|]. split; [done|]. unfold validated_root. rewrite Hv, Hv'. cbn [snd].
  rewrite Heq in Hok. eapply is_dict_unique; [apply (oo_dict _ _ _ _ Hok)|apply (oo_dict _ _ _ _ Hok')].
Qed.

(** ** An example: two keys of two bits *)

Definition ex_slice (b : bool) : CellSlice := slice_of_cell (DataCell false [b; true] []).
Definition ex_map : gmap (list bool) value :=
  <[[false; true] := slice_value (ex_slice false)]> (<[[true; true] := slice_value (ex_slice true)]> ∅).
Definition ex_tree : tree value :=
  Fork [] (Leaf [true] (slice_value (ex_slice false))) (Leaf [true] (slice_value (ex_slice true))).
Definition ex_leaf (b : bool) : Cell := DataCell false (hm_label 1 [true] ++ [b; true]) [].
Definition ex_root : Cell := DataCell false (hm_label 2 []) [ex_leaf false; ex_leaf true].
Definition ex_dict : Dictionary := dictionary_of_cell (Some ex_root) 2.

Lemma ex_value_ok b : value_ok (H := toy_sha) 2 (slice_value (ex_slice b)).
Proof. destruct b; split; cbn; unfold max_bits, max_refs; try lia; constructor. Qed.
Lemma ex_leaf_repr b : repr (H := toy_sha) canonical 1 (Leaf [true] (slice_value (ex_slice b))) (ex_leaf b).
Proof.
  split; [destruct b; eexists; split; vm_compute; reflexivity|]. split; [done|].
  exists (hm_label 1 [true]). split; [|by destruct b]. split; [unfold max_key_bits; cbn; lia|done].
Qed.
Lemma ex_dict_obj : dict_obj (H := toy_sha) canonical 2 ex_map ex_dict.
Proof.
  apply (dict_obj_of_cell (H := toy_sha) canonical 2); [unfold max_key_bits; lia|].
  exists ex_tree. split; [|split].
  - split; [eexists; split; vm_compute; reflexivity|]. split; [cbn; lia|].
    exists (hm_label 2 []), (ex_leaf false), (ex_leaf true). split; [split; [unfold max_key_bits; cbn; lia|done]|].
    split; [done|]. split; apply (ex_leaf_repr _).
  - split; apply ex_value_ok.
  - intros k. unfold ex_map, ex_tree. destruct k as [|[] k].
    + by rewrite !lookup_insert_ne, lookup_empty by done.
    + change (true :: k) with ([] ++ true :: k). rewrite lookup_fork, lookup_leaf. cbn [app].
      rewrite lookup_insert_ne by done. destruct (decide (k = [true])) as [->|Hk]; [done|].
      rewrite lookup_insert_ne, lookup_empty by (intros [=]; done). done.
    + change (false :: k) with ([] ++ false :: k). rewrite lookup_fork, lookup_leaf. cbn [app].
      destruct (decide (k = [true])) as [->|Hk]; [done|].
      rewrite !lookup_insert_ne, lookup_empty by (intros [=]; done). done.
Qed.

Lemma dict_lookup_refines_witness :
  exists r d', DictObj.lookup [true; true] ex_dict tt = Ret (Some r, d') tt /\
    slice_is r [true; true] [].
Proof.
  destruct (dict_lookup_refines (H := toy_sha) canonical 2 ex_map ex_dict [true; true]) as (r & d' & Hr & Hs & _).
  - unfold max_bits. lia.
  - apply ex_dict_obj.
  - reflexivity.
  - destruct r as [r|]; [|destruct Hs]. exists r, d'. split; [exact Hr|exact Hs].
Defined.
Lemma dict_set_refines_witness :
  exists d', DictObj.set (H := toy_sha) [true; false] (ex_slice true) Dict.Add ex_dict tt = Ret (true, d') tt.
Proof.
  destruct (dict_set_refines (H := toy_sha) canonical 2 ex_map ex_dict [true; false] (ex_slice true) Dict.Add)
    as ((d' & Hd & _) & _).
  - unfold max_bits. lia.
  - apply ex_dict_obj.
  - reflexivity.
  - split; cbn; lia.
  - apply ex_value_ok.
  - exists d'. exact Hd.
Defined.
Lemma dict_delete_refines_witness :
  exists r d', DictObj.lookup_delete (H := toy_sha) [true; true] ex_dict tt = Ret (Some r, d') tt.
Proof.
  destruct (dict_delete_refines (H := toy_sha) canonical 2 ex_map ex_dict [true; true]) as (r & d' & Hr & Hs & _).
  - unfold max_bits. lia.
  - apply ex_dict_obj.
  - reflexivity.
  - destruct r as [r|]; [|destruct Hs]. exists r, d'. exact Hr.
Defined.
Lemma dict_minmax_refines_witness :
  exists r d', get_minmax_key 2 false true ex_dict tt = Ret (r, d') tt /\
    first_key ex_map false true r.
Proof.
  destruct (dict_minmax_refines (H := toy_sha) canonical 2 ex_map ex_dict false true) as ((r & d' & Hr & Hf & _) & _).
  - unfold max_bits. lia.
  - apply ex_dict_obj.
  - exists r, d'. split; [exact Hr|exact Hf].
Defined.
Lemma dict_nearest_refines_witness :
  exists r d', lookup_nearest_key [true; false] true false false ex_dict tt = Ret (r, d') tt /\
    nearest_key ex_map true false false [true; false] r.
Proof.
  destruct (dict_nearest_refines (H := toy_sha) canonical 2 ex_map ex_dict [true; false] true false false)
    as (r & d' & Hr & Hf & _).
  - unfold max_bits. lia.
  - apply ex_dict_obj.
  - reflexivity.
  - exists r, d'. split; [exact Hr|exact Hf].
Defined.
Lemma dict_canonical_witness :
  let us := [([false; true], Some (ex_slice false)); ([true; true], Some (ex_slice true))] in
  let us' := [([true; true], Some (ex_slice false)); ([true; true], Some (ex_slice true)); ([false; false], None);
              ([false; true], Some (ex_slice false))] in
  exists d d', run_updates (H := toy_sha) us (dictionary_of_cell None 2) tt = Ret d tt /\
    run_updates (H := toy_sha) us' (dictionary_of_cell None 2) tt = Ret d' tt /\ validated_root d = validated_root d'.
Proof.
  intros us us'. apply (dict_canonical (H := toy_sha) 2 us us').
  - unfold max_bits. lia.
  - split_Forall; (split; [reflexivity|split; [split; cbn; lia|apply ex_value_ok]]).
  - split_Forall; (split; [reflexivity|]); try exact I; (split; [split; cbn; lia|apply ex_value_ok]).
  - reflexivity.
Defined.
