(* ===== verification/DictSafety.v ===== *)
(** * Dictionaries on arbitrary cells

    The functions of Dict.v, DictObj.v and PfxDict.v run on whatever cells they are
    given, also on cells that are not dictionaries: they never run into undefined
    behaviour, throw only the exceptions listed in [dict_exc] or those of the access to
    cells, and keep every invariant that loading and creating cells keeps. *)
From S2P Require Import Prelude Int256 Cells DataCell Dict DictObj PfxDict DictLabel DictNode DictTree DictSpec DictOrder DictRefine.

(** What the code may throw itself. *)
Definition dict_exc (e : exc) : bool :=
  match e with
  | VmError Exc_cell_und | VmError Exc_dict_err | VmError Exc_cell_ov | CellWriteError | CellCreateError => true
  | _ => false
  end.

(** What is assumed of the access to cells; [view] is what loading a cell shows. *)
Record safe_io {St : Type} `{CellIO St} (Inv : St -> Prop) (Exc : exc -> St -> Prop)
    (view : Cell -> option CellSlice) : Prop := mkSafeIO {
  si_load c s : Inv s -> wp (load_cell_slice_ref c) (fun cs s' => view c = Some cs /\ Inv s') Exc s;
  si_create s : Inv s -> wp register_create (fun _ s' => Inv s') Exc s;
  si_exc e s : dict_exc e = true -> Inv s -> Exc e s;
  si_view c cs : view c = Some cs -> slice_ok cs
}.

(** A slice that may be missing. *)
Definition opt_slice_ok (o : option CellSlice) : Prop :=
  match o with Some cs => slice_ok cs | None => True end.

(** ** Labels *)

Record label_ok (lp : LabelParser) (n : nat) : Prop := mkLabelOk {
  lo_bits : (l_bits lp <= n)%nat;
  lo_rest : slice_ok (remainder lp);
  lo_same : l_same lp = 0 -> s_bits lp = l_bits lp /\ (l_bits lp <= size (remainder lp))%nat
}.

Lemma adv_ok n cs : slice_ok cs -> slice_ok (default cs (advance n cs)).
Proof.
  intros Hcs. unfold advance. destruct (have n cs) eqn:E; [|done]. apply have_spec in E.
  unfold slice_ok, size in *. cbn. lia.
Qed.
Lemma adv_size n cs : (n <= size cs)%nat -> size (default cs (advance n cs)) = (size cs - n)%nat.
Proof. intros Hn. rewrite advance_some_eq by done. unfold size in *. cbn. lia. Qed.
Lemma fetch_ulong_ok n cs : slice_ok cs -> slice_ok (snd (fetch_ulong n cs)).
Proof. intros Hcs. unfold fetch_ulong. repeat case_match; cbn; try done. by apply adv_ok. Qed.

Lemma prefetch_two_ones cs :
  slice_ok cs -> (3 <= size cs)%nat -> prefetch_ulong 2 cs = 3 -> 6 <= fst (fetch_ulong 3 cs).
Proof.
  intros Hcs Hn. pose proof (slice_bits_length cs Hcs) as Hl. unfold prefetch_ulong, fetch_ulong.
  rewrite !(proj2 (have_spec _ cs)) by lia. cbn [Nat.ltb Nat.leb fst].
  destruct (slice_bits cs) as [|a [|b [|c bs]]]; cbn [length] in Hl; try lia.
  destruct a, b, c; intros Hp; vm_compute in Hp |- *; try discriminate Hp; discriminate.
Qed.

Lemma parse_label_ok cs n lp : slice_ok cs -> parse_label cs n = Some lp -> label_ok lp n.
Proof.
  intros Hcs. unfold parse_label. pose proof (adv_ok 1 cs Hcs) as H1. pose proof (adv_ok 2 cs Hcs) as H2.
  destruct (prefetch_ulong 2 cs) as [|[p|p|]|] eqn:Ep; try done.
  - intros [= <-]. split; cbn; [lia|done|lia].
  - destruct p; try done. destruct (negb _) eqn:Eh; [done|]. apply negb_false_iff, have_spec in Eh.
    assert (6 <= fst (fetch_ulong 3 cs)) as H6 by (apply prefetch_two_ones; [done|lia|done]).
    pose proof (fetch_ulong_ok 3 cs Hcs) as H3. destruct (fetch_ulong 3 cs) as [same cs3] eqn:E3. cbn in H3.
    pose proof (fetch_ulong_ok (len_bits n) cs3 H3) as H4. destruct (fetch_ulong _ cs3) as [l cs4]. cbn in H4.
    destruct (_ || _) eqn:E; [done|]. apply orb_false_iff in E as [E1%Z.ltb_ge E2%Z.ltb_ge].
    intros [= <-]. split; cbn; [lia|done|].
    cbn in H6. lia.
  - destruct p; try done. pose proof (fetch_ulong_ok (len_bits n) _ H2) as H3.
    destruct (fetch_ulong _ _) as [l cs3]. cbn in H3.
    destruct (_ || _) eqn:E; [done|]. apply orb_false_iff in E as [E1%Z.ltb_ge E2%Z.ltb_ge].
    destruct (have _ cs3) eqn:Eh; [|done]. apply have_spec in Eh. intros [= <-]. split; cbn; [lia|done|done].
  - set (cs1 := default cs (advance 1 cs)) in *. destruct (_ || _) eqn:E; [done|].
    apply orb_false_iff in E as [E1%Nat.ltb_ge E2%negb_false_iff%have_spec].
    intros [= <-]. pose proof (adv_ok (count_leading true cs1 + 1) cs1 H1).
    split; cbn; [lia|done|]. intros _. split; [done|]. rewrite adv_size by lia. lia.
Qed.

Lemma same_upto_le a b : (same_upto a b <= Nat.min (length a) (length b))%nat.
Proof. revert b. induction a as [|x a IH]; intros [|y b]; cbn; try lia. destruct (Bool.eqb x y); [specialize (IH b)|]; lia. Qed.
Lemma common_prefix_le lp key len :
  (length key = len)%nat -> (label_common_prefix_len lp key len <= Nat.min (l_bits lp) len)%nat.
Proof.
  intros Hk. unfold label_common_prefix_len. destruct (_ =? _).
  - unfold slice_common_prefix_len. set (m := Nat.min _ _).
    pose proof (same_upto_le (take m (slice_bits (remainder lp))) (take m key)) as Hle.
    rewrite !length_take in Hle. lia.
  - pose proof (memscan_le (same_bit lp) (take (Nat.min (l_bits lp) len) key)) as Hle. rewrite length_take in Hle. lia.
Qed.

(** The label that is extracted is matched by the keys that start with it. *)
Lemma extract_label_ok lp n :
  label_ok lp n -> length (fst (extract_label lp)) = l_bits lp /\ slice_ok (snd (extract_label lp)) /\
    size_refs (snd (extract_label lp)) = size_refs (remainder lp).
Proof.
  intros [Hb Hr Hs]. unfold extract_label. destruct (Z.eqb_spec (l_same lp) 0) as [E|E]; cbn [fst snd].
  - destruct (Hs E) as [_ Hl]. split; [rewrite length_take, slice_bits_length by done; lia|].
    split; [by apply adv_ok|]. by rewrite advance_some_eq by done.
  - split; [apply length_replicate|done].
Qed.
Lemma extract_label_match lp n rest :
  label_ok lp n -> (length (fst (extract_label lp) ++ rest) = n)%nat ->
  label_common_prefix_len lp (fst (extract_label lp) ++ rest) n = l_bits lp.
Proof.
  intros Hlp Hlen. destruct (extract_label_ok lp n Hlp) as (Hl & _). destruct Hlp as [Hb Hr Hs].
  revert Hl Hlen. unfold extract_label, label_common_prefix_len.
  rewrite (Nat.min_l (l_bits lp) n) by done. destruct (Z.eqb_spec (l_same lp) 0) as [E|E]; cbn [fst]; intros Hl Hlen.
  - unfold slice_common_prefix_len. destruct (Hs E) as [_ Hsz]. rewrite (Nat.min_r (size _) _) by done.
    set (l := take (l_bits lp) (slice_bits (remainder lp))) in *. rewrite take_app_length' by done.
    pose proof (same_upto_prefix l [] []) as Hu. rewrite app_nil_r in Hu. cbn in Hu. lia.
  - rewrite take_app_length' by (by rewrite length_replicate). apply memscan_replicate.
Qed.

Section safety.
Context `{Sha256} {St : Type} `{CellIO St} (Inv : St -> Prop) (Exc : exc -> St -> Prop)
  (view : Cell -> option CellSlice) (Hio : safe_io Inv Exc view).
Implicit Types s : St.

(** Code that keeps the invariant and whose result satisfies [R]. *)
Definition safe {A} (m : M St A) (R : A -> Prop) : Prop :=
  forall s, Inv s -> wp m (fun a s' => R a /\ Inv s') Exc s.

Lemma safe_ret {A} (a : A) (R : A -> Prop) : R a -> safe (ret a) R.
Proof. by intros Ha s Hs. Qed.
Lemma safe_bind {A B} (m : M St A) (k : A -> M St B) R R' :
  safe m R -> (forall a, R a -> safe (k a) R') -> safe (bind m k) R'.
Proof. intros Hm Hk s Hs. wp_step. eapply wp_mono; [by apply Hm| |done]. intros a s' [Ha Hs']. by apply Hk. Qed.
Lemma safe_weaken {A} (m : M St A) (R R' : A -> Prop) : safe m R -> (forall a, R a -> R' a) -> safe m R'.
Proof. intros Hm HR s Hs. eapply wp_mono; [by apply Hm| |done]. intros a s' [Ha Hs']. auto. Qed.
Lemma safe_throw {A} e (R : A -> Prop) : dict_exc e = true -> safe (throw e) R.
Proof using Hio. intros He s Hs. by apply (si_exc _ _ _ Hio). Qed.
Lemma safe_unless_throw b e : dict_exc e = true -> safe (unless_throw b e) (fun _ => b = true).
Proof using Hio. intros He. destruct b; [by apply safe_ret|by apply safe_throw]. Qed.
Lemma safe_assert b : b = true -> safe (assert_ub b) (fun _ => True).
Proof. intros ->. by apply safe_ret. Qed.
Lemma safe_of_option {A} (o : option A) (R : A -> Prop) a : o = Some a -> R a -> safe (of_option o) R.
Proof. intros -> Ha. by apply safe_ret. Qed.

Lemma safe_key_bit key i : (i < length key)%nat -> safe (key_bit key i) (fun b => key !! i = Some b).
Proof.
  intros Hi. destruct (lookup_lt_is_Some_2 key i Hi) as [b Hb]. by eapply safe_of_option.
Qed.

(** [cell]'s label and what is known about it. *)
Definition label_of (c : Cell) (n : nat) (mode : LabelMode) (lp : LabelParser) : Prop :=
  label_ok lp n /\ (mode <> chk_min -> (l_bits lp < n)%nat -> (2 <= size_refs (remainder lp))%nat) /\
  exists cs, view c = Some cs /\ parse_label cs n = Some lp.

Lemma safe_read_label c n mode : safe (read_label c n mode) (label_of c n mode).
Proof using Hio.
  unfold read_label. eapply safe_bind; [intros s Hs; by apply (si_load _ _ _ Hio)|]. intros cs Hcs. cbv beta in Hcs.
  destruct (parse_label cs n) as [lp|] eqn:E; [|by apply safe_throw].
  pose proof (parse_label_ok cs n lp (si_view _ _ _ Hio _ _ Hcs) E) as Hlp.
  eapply (safe_bind _ _ (fun _ => mode <> chk_min -> (l_bits lp < n)%nat -> (2 <= size_refs (remainder lp))%nat));
    [|intros _ Hf; apply safe_ret; split; [done|]; split; [exact Hf|by exists cs]].
  unfold validate_label. destruct mode; [by apply safe_ret|..].
  - eapply safe_bind; [by apply safe_unless_throw|]. intros _ _.
    eapply safe_weaken; [by apply safe_unless_throw|]. cbv beta. intros _ Hv _ Hlt.
    rewrite (proj2 (Nat.ltb_lt _ _) Hlt) in Hv. cbn [negb orb] in Hv. apply negb_true_iff, orb_false_iff in Hv as [_ Hv%Nat.ltb_ge]. done.
  - eapply safe_bind; [by apply safe_unless_throw|]. intros _ _.
    eapply safe_weaken; [by apply safe_unless_throw|]. cbv beta. intros _ Hv _ Hlt.
    rewrite (proj2 (Nat.ltb_lt _ _) Hlt) in Hv. cbn [negb orb] in Hv. apply andb_true_iff in Hv as [_ Hv%Nat.eqb_eq]. lia.
Qed.

(** A reference that is there. *)
Lemma safe_ref cs i : slice_ok cs -> (i < size_refs cs)%nat -> safe (of_option (prefetch_ref i cs)) (fun c => prefetch_ref i cs = Some c).
Proof.
  intros Hcs Hi. unfold prefetch_ref. rewrite (proj2 (Nat.ltb_lt _ _)) by done.
  assert (refs_st cs + i < length (cell_refs (cs_cell cs)))%nat as Hl by (unfold slice_ok, size_refs in *; lia).
  destruct (lookup_lt_is_Some_2 _ _ Hl) as [c Hc]. rewrite Hc. by apply safe_ret.
Qed.

(** ** Building nodes *)

Definition any_of {A} (_ : A) : Prop := True.

Lemma safe_ensure_pass {A} (o : option A) : safe (ensure_pass o) any_of.
Proof using Hio. destruct o; [by apply safe_ret|by apply safe_throw]. Qed.
Lemma safe_store_long x n cb : (n <= 64)%nat -> safe (store_long x n cb) any_of.
Proof using Hio.
  intros Hn. eapply safe_bind; [apply safe_assert; by apply Nat.leb_le|]. intros _ _. apply safe_ensure_pass.
Qed.
Lemma safe_store_bits bs cb : safe (store_bits bs cb) any_of.
Proof using Hio. apply safe_ensure_pass. Qed.
Lemma safe_store_ref c cb : safe (store_ref c cb) any_of.
Proof using Hio. apply safe_ensure_pass. Qed.
Lemma safe_store_or_ov f cb : safe (store_or_ov f cb) any_of.
Proof using Hio. unfold store_or_ov. destruct (f cb); [by apply safe_ret|by apply safe_throw]. Qed.
Lemma safe_finalize cb : safe (finalize_builder cb) any_of.
Proof using Hio.
  unfold finalize_builder. eapply safe_bind.
  - intros s Hs. eapply wp_mono; [by apply (si_create _ _ _ Hio)| |done]. intros a s' Hs'. by split; [exact I|].
  - intros _ _. destruct (create _ _ _); [by apply safe_ret|by apply safe_throw].
Qed.

Lemma safe_append_same b len n cb : (len <= n <= 1023)%nat -> safe (append_dict_label_same b len n cb) any_of.
Proof using Hio.
  intros [Hl Hn]. pose proof (len_bits_small n Hn) as Hk. unfold append_dict_label_same.
  eapply safe_bind; [apply safe_assert; by rewrite !(proj2 (Nat.leb_le _ _))|]. intros _ _.
  assert (len <> 0 -> 0 < len_bits n)%nat as Hk0.
  { intros ?. unfold len_bits. rewrite (proj2 (Nat.eqb_neq n 0)) by lia. lia. }
  destruct (_ && _) eqn:E; [|destruct (Nat.ltb_spec (len_bits n) len)].
  - eapply safe_bind; [apply safe_store_long; lia|]. intros cb1 _. apply safe_store_long. lia.
  - apply andb_false_iff in E as [E%Nat.ltb_ge|E%Nat.ltb_ge]; lia.
  - eapply safe_bind; [apply safe_store_long; lia|]. intros cb1 _.
    eapply safe_bind; [apply safe_store_long; lia|]. intros cb2 _. apply safe_store_long. lia.
Qed.
Lemma safe_append_label l n cb : (length l <= n <= 1023)%nat -> safe (append_dict_label l n cb) any_of.
Proof using Hio.
  intros [Hl Hn]. pose proof (len_bits_small n Hn) as Hk. unfold append_dict_label.
  eapply safe_bind; [apply safe_assert; by rewrite !(proj2 (Nat.leb_le _ _))|]. intros _ _.
  destruct (match l with [] => None | b :: _ => _ end) as [b|]; [by apply safe_append_same|].
  eapply safe_bind.
  - destruct (Nat.ltb_spec (len_bits n) (length l)).
    + eapply safe_bind; [apply safe_store_long; lia|]. intros cb1 _. apply safe_store_long. lia.
    + eapply safe_bind; [apply safe_store_long; lia|]. intros cb1 _. apply safe_store_long. lia.
  - intros cb1 _. eapply safe_bind; [by apply safe_unless_throw|]. intros _ _. apply safe_store_bits.
Qed.

(** ** The functions of Dict.v *)

Lemma safe_make_leaf key n f : (length key <= n <= 1023)%nat -> safe (make_leaf key n f) any_of.
Proof using Hio.
  intros Hn. eapply safe_bind; [by apply safe_append_label|]. intros cb _.
  eapply safe_bind; [apply safe_store_or_ov|]. intros cb1 _. apply safe_finalize.
Qed.
Lemma safe_make_fork l n c1 c2 : (length l <= n <= 1023)%nat -> safe (make_fork l n c1 c2) any_of.
Proof using Hio.
  intros Hn. eapply safe_bind; [by apply safe_append_label|]. intros cb _.
  eapply safe_bind; [apply safe_store_ref|]. intros cb1 _. eapply safe_bind; [apply safe_store_ref|]. intros cb2 _.
  apply safe_finalize.
Qed.
Lemma safe_split_edge lp n pfx m :
  label_ok lp n -> (pfx < l_bits lp)%nat -> (m = n - pfx - 1)%nat -> (n <= 1023)%nat ->
  safe (split_edge lp pfx m) (fun p => slice_ok (snd p)).
Proof using Hio.
  intros [Hb Hr Hs] Hp Hm Hn. unfold split_edge. destruct (_ =? _).
  - pose proof (adv_ok (pfx + 1) _ Hr) as H1'. eapply safe_bind; [apply safe_append_label; rewrite length_take; lia|].
    intros cb _. apply safe_ret. by apply adv_ok.
  - eapply safe_bind; [apply safe_append_same; lia|]. intros cb _. by apply safe_ret.
Qed.
Lemma safe_insert_fork lp n pfx key f :
  label_ok lp n -> (pfx < l_bits lp)%nat -> length key = n -> (n <= 1023)%nat ->
  safe (insert_fork lp pfx key n f) any_of.
Proof using Hio.
  intros Hlp Hp Hk Hn. pose proof (lo_bits _ _ Hlp). unfold insert_fork.
  eapply safe_bind; [apply safe_make_leaf; rewrite length_drop; lia|]. intros c1 _.
  eapply safe_bind; [by eapply safe_split_edge|]. intros [cb cs] Hcs.
  eapply safe_bind; [apply safe_store_or_ov|]. intros cb1 _. eapply safe_bind; [apply safe_finalize|]. intros c2 _.
  eapply safe_bind; [apply safe_append_label; rewrite length_take; lia|]. intros cb2 _.
  eapply safe_bind; [apply safe_key_bit; lia|]. intros sw _.
  eapply safe_bind; [apply safe_store_ref|]. intros cb3 _. eapply safe_bind; [apply safe_store_ref|]. intros cb4 _.
  apply safe_finalize.
Qed.

Lemma skip_label_ok lp n : label_ok lp n -> slice_ok (skip_label lp).
Proof. intros Hlp. apply adv_ok, (lo_rest _ _ Hlp). Qed.

(** The child that a bit of the key selects. *)
Lemma safe_child lp c n mode (b : bool) :
  label_of c n mode lp -> mode <> chk_min -> (l_bits lp < n)%nat ->
  safe (of_option (prefetch_ref (if b then 1 else 0) (remainder lp)))
    (fun c' => prefetch_ref (if b then 1 else 0) (remainder lp) = Some c').
Proof.
  intros (Hlp & Hr & _) Hm Hl. specialize (Hr Hm Hl). apply safe_ref; [apply (lo_rest _ _ Hlp)|destruct b; lia].
Qed.

Lemma safe_lookup_loop fuel c key n mode :
  mode <> chk_min -> (n < fuel)%nat -> length key = n -> safe (dict_lookup_loop fuel c key n mode) opt_slice_ok.
Proof using Hio.
  intros Hm. revert c key n. induction fuel as [|fuel IH]; intros c key n Hf Hk; [lia|]. cbn [dict_lookup_loop].
  eapply safe_bind; [apply safe_read_label|]. intros lp Hlp. pose proof (lo_bits _ _ (proj1 Hlp)).
  destruct (negb _); [by apply safe_ret|]. destruct (Nat.eqb_spec (n - l_bits lp) 0).
  { apply safe_ret. by apply (skip_label_ok _ n), Hlp. }
  eapply safe_bind; [apply safe_key_bit; lia|]. intros sw _.
  eapply safe_bind; [eapply safe_child; [done|done|lia]|]. intros c' _.
  apply IH; [lia|]. rewrite length_drop. lia.
Qed.

Lemma safe_fork_children lp c n mode :
  label_of c n mode lp -> mode <> chk_min -> (l_bits lp < n)%nat ->
  safe (fork_children lp) (fun p => forall b : bool, prefetch_ref (if b then 1 else 0) (remainder lp) = Some (if b then snd p else fst p)).
Proof.
  intros Hlp Hm Hl. unfold fork_children.
  eapply safe_bind; [apply (safe_child _ _ _ _ false Hlp Hm Hl)|]. intros c1 H1'.
  eapply safe_bind; [apply (safe_child _ _ _ _ true Hlp Hm Hl)|]. intros c2 H2'.
  apply safe_ret. by intros [].
Qed.

Definition set_safe (mode : SetMode) (r : option CellSlice * option Cell * bool) : Prop :=
  let '(old, c, changed) := r in
  opt_slice_ok old /\ (changed = true -> is_Some c) /\ (mode = Dict.Set_ -> changed = true).
Lemma safe_dict_lookup_set fuel dict key n f mode :
  (n < fuel)%nat -> length key = n -> (n <= 1023)%nat -> safe (dict_lookup_set fuel dict key n f mode) (set_safe mode).
Proof using Hio.
  revert dict key n. induction fuel as [|fuel IH]; intros dict key n Hf Hk Hn; [lia|]. cbn [dict_lookup_set].
  destruct dict as [c|]; [|destruct mode; try (by apply safe_ret);
    (eapply safe_bind; [apply safe_make_leaf; lia|]; intros c _; apply safe_ret; by split; [|split; [eexists|]])].
  eapply safe_bind; [apply safe_read_label|]. intros lp Hlp. pose proof (lo_bits _ _ (proj1 Hlp)).
  pose proof (common_prefix_le lp key n Hk). set (pfx := label_common_prefix_len lp key n) in *.
  eapply safe_bind; [apply safe_assert; by rewrite !(proj2 (Nat.leb_le _ _)) by lia|]. intros _ _.
  destruct (Nat.ltb_spec pfx (l_bits lp)).
  { destruct mode; try (by apply safe_ret); (eapply safe_bind; [by apply safe_insert_fork; [apply Hlp|..]|]; intros c' _;
      apply safe_ret; by split; [|split; [eexists|]]). }
  pose proof (skip_label_ok lp n (proj1 Hlp)).
  destruct (Nat.eqb_spec (l_bits lp) n).
  { destruct mode; try (by apply safe_ret); (eapply safe_bind; [apply safe_make_leaf; lia|]; intros c' _;
      apply safe_ret; by split; [|split; [eexists|]]). }
  eapply safe_bind; [eapply safe_fork_children; [done|done|lia]|]. intros [c1 c2] _.
  eapply safe_bind; [apply safe_key_bit; lia|]. intros sw _.
  eapply safe_bind; [apply IH; [lia|rewrite length_drop; lia|lia]|]. intros [[old c'] changed] (Ho & Hc & Hs).
  destruct changed; cbn [negb]; [|by apply safe_ret]. destruct (Hc eq_refl) as [c3 ->].
  eapply safe_bind; [by apply (safe_of_option _ any_of c3)|]. intros c4 _.
  eapply safe_bind; [apply safe_make_fork; rewrite length_take; lia|]. intros c5 _.
  apply safe_ret. by split; [|split; [eexists|]].
Qed.
Lemma safe_dict_set fuel dict key n f mode :
  (n < fuel)%nat -> length key = n -> (n <= 1023)%nat ->
  safe (dict_set fuel dict key n f mode) (fun r => (snd r = true -> is_Some (fst r)) /\ (mode = Dict.Set_ -> snd r = true)).
Proof using Hio.
  intros Hf Hk Hn s Hs. unfold wp. rewrite dict_set_lookup_set.
  apply (safe_bind (dict_lookup_set fuel dict key n f mode) (fun r => ret (forget_old r)) (set_safe mode)
    (fun r => (snd r = true -> is_Some (fst r)) /\ (mode = Dict.Set_ -> snd r = true))); [by apply safe_dict_lookup_set| |done].
  intros [[old c] changed] (_ & Hc & Hs'). by apply safe_ret.
Qed.

(** ** Deletion and search *)

Lemma safe_or_dict_err {A} (o : option A) : safe (or_dict_err o) any_of.
Proof using Hio. destruct o; [by apply safe_ret|by apply safe_throw]. Qed.
Lemma safe_finish_create_fork cb c1 c2 n : (0 < n)%nat -> safe (finish_create_fork cb c1 c2 n) any_of.
Proof using Hio.
  intros Hn. eapply safe_bind; [by apply safe_assert, Nat.ltb_lt|]. intros _ _.
  eapply safe_bind; [apply safe_or_dict_err|]. intros cb1 _. eapply safe_bind; [apply safe_or_dict_err|]. intros cb2 _.
  apply safe_finalize.
Qed.
Lemma safe_append_rest cs cb : safe (cb <- store_or_ov (append_cellslice_bool cs) cb ;; finalize_builder cb) any_of.
Proof using Hio. eapply safe_bind; [apply safe_store_or_ov|]. intros cb1 _. apply safe_finalize. Qed.
Lemma safe_merge_edge l b c n mode : (length l < n <= 1023)%nat -> safe (merge_edge l b c n mode) any_of.
Proof using Hio.
  intros [Hl Hn]. unfold merge_edge. eapply safe_bind; [apply safe_read_label|]. intros lp [Hlp _].
  pose proof (lo_bits _ _ Hlp). destruct (extract_label_ok _ _ Hlp) as (Hl2 & _).
  destruct (extract_label lp) as [l2 rest]. cbn [fst] in Hl2.
  assert (length (l ++ b :: l2) <= n)%nat by (rewrite length_app; cbn [length]; lia).
  eapply safe_bind; [apply safe_assert, Nat.leb_le; unfold max_key_bits; lia|]. intros _ _.
  eapply safe_bind; [by apply safe_append_label|]. intros cb _. apply safe_append_rest.
Qed.

(** [key] leads from the root [c] of a tree for [n] more bits to a leaf. *)
Inductive leads : Cell -> list bool -> nat -> Prop :=
  | leads_leaf c n mode lp :
      label_of c n mode lp -> l_bits lp = n -> leads c (fst (extract_label lp)) n
  | leads_fork c n mode lp (b : bool) c' k :
      label_of c n mode lp -> (l_bits lp < n)%nat -> prefetch_ref (if b then 1 else 0) (remainder lp) = Some c' ->
      leads c' k (n - l_bits lp - 1) -> leads c (fst (extract_label lp) ++ b :: k) n.

Lemma leads_length c k n : leads c k n -> length k = n.
Proof.
  induction 1 as [c n mode lp Hlp Hn|c n mode lp b c' k Hlp Hn Hc _ IH];
    pose proof (proj1 (extract_label_ok _ _ (proj1 Hlp))) as Hl; [lia|]. rewrite length_app, Hl. cbn [length]. lia.
Qed.
Lemma label_of_fun c n m1 m2 lp lp' : label_of c n m1 lp -> label_of c n m2 lp' -> lp = lp'.
Proof. intros (_ & _ & cs & Hv & Hp) (_ & _ & cs' & Hv' & Hp'). congruence. Qed.
(** What the tree is like along such a key. *)
Lemma leads_inv c key n mode lp :
  leads c key n -> label_of c n mode lp ->
  label_common_prefix_len lp key n = l_bits lp /\
  ((l_bits lp < n)%nat -> exists (b : bool) c', key !! l_bits lp = Some b /\
    prefetch_ref (if b then 1 else 0) (remainder lp) = Some c' /\
    leads c' (drop (S (l_bits lp)) key) (n - l_bits lp - 1)).
Proof.
  intros Hk Hlp. pose proof (leads_length _ _ _ Hk) as Hlen. revert Hlp Hlen.
  destruct Hk as [c n m1 lp' Hlp' Hn|c n m1 lp' b c' k Hlp' Hn Hc Hk]; intros Hlp Hlen;
    rewrite (label_of_fun _ _ _ _ _ _ Hlp Hlp'); destruct (extract_label_ok _ _ (proj1 Hlp')) as (Hl & _).
  - split; [|lia]. pose proof (extract_label_match lp' n [] (proj1 Hlp')) as Hm. rewrite app_nil_r in Hm. by apply Hm.
  - split; [by apply extract_label_match; [apply Hlp'|]|]. intros _. exists b, c'.
    rewrite list_lookup_middle by done. split; [done|]. split; [done|].
    rewrite <- Hl at 1. by rewrite cons_middle, app_assoc, drop_app_length' by (rewrite length_app; cbn; lia).
Qed.

Definition root_leads (dict : option Cell) (key : list bool) (n : nat) : Prop :=
  match dict with Some c => leads c key n | None => False end.

Lemma safe_dict_lookup_delete fuel dict key n mode :
  mode <> chk_min -> (n < fuel)%nat -> length key = n -> (n <= 1023)%nat ->
  safe (dict_lookup_delete fuel dict key n mode)
    (fun r => opt_slice_ok (fst r) /\ (root_leads dict key n -> is_Some (fst r))).
Proof using Hio.
  intros Hm. revert dict key n. induction fuel as [|fuel IH]; intros dict key n Hf Hk Hn; [lia|]. cbn [dict_lookup_delete].
  destruct dict as [c|]; [|by apply safe_ret]. cbn [root_leads].
  eapply safe_bind; [apply safe_read_label|]. intros lp Hlp. pose proof (lo_bits _ _ (proj1 Hlp)).
  pose proof (common_prefix_le lp key n Hk). pose proof (fun Hl : leads c key n => leads_inv _ _ _ _ _ Hl Hlp) as Hpath.
  set (pfx := label_common_prefix_len lp key n) in *.
  eapply safe_bind; [apply safe_assert; by rewrite !(proj2 (Nat.leb_le _ _)) by lia|]. intros _ _.
  destruct (Nat.ltb_spec pfx (l_bits lp)).
  { apply safe_ret. split; [done|]. intros [Hp _]%Hpath. lia. }
  pose proof (skip_label_ok lp n (proj1 Hlp)). destruct (Nat.eqb_spec (l_bits lp) n); [by apply safe_ret|].
  eapply safe_bind; [eapply safe_fork_children; [done|done|lia]|]. intros [c1 c2] Hc12.
  eapply safe_bind; [apply safe_key_bit; lia|]. intros sw Hsw.
  eapply safe_bind; [apply IH; [lia|rewrite length_drop; lia|lia]|]. intros [old c'] [Ho Hs]. cbn [fst snd] in *.
  assert (leads c key n -> is_Some old) as Hold.
  { intros Hl. apply Hs. destruct (proj2 (Hpath Hl)) as (b & d & Hb & Hd & Hl'); [lia|].
    rewrite Hb in Hsw. injection Hsw as ->. rewrite (Hc12 sw) in Hd. injection Hd as <-. by destruct sw. }
  destruct old as [old|]; [|by apply safe_ret].
  assert (length (take (l_bits lp) key) = l_bits lp) as Ht by (rewrite length_take; lia).
  destruct c' as [c'|].
  - eapply safe_bind; [apply safe_append_label; lia|]. intros cb _.
    eapply safe_bind; [apply safe_finish_create_fork; lia|]. intros c3 _. by apply safe_ret.
  - eapply safe_bind; [apply safe_merge_edge; lia|]. intros c3 _. by apply safe_ret.
Qed.

Lemma extract_ref lp i n : label_ok lp n -> prefetch_ref i (snd (extract_label lp)) = prefetch_ref i (remainder lp).
Proof.
  intros [_ _ Hs]. unfold extract_label. destruct (Z.eqb_spec (l_same lp) 0) as [E|E]; cbn [snd]; [|done].
  destruct (Hs E) as [_ Hl]. by rewrite advance_some_eq by done.
Qed.

(** A key that is found, with its value. *)
Definition found_ok (dict : option Cell) (n : nat) (r : option (list bool * CellSlice)) : Prop :=
  match r with Some (k, v) => slice_ok v /\ root_leads dict k n | None => True end.

Lemma safe_dict_lookup_minmax fuel dict n mode lmode :
  lmode <> chk_min -> (n < fuel)%nat -> safe (dict_lookup_minmax fuel dict n mode lmode) (found_ok dict n).
Proof using Hio.
  intros Hm. revert dict n mode. induction fuel as [|fuel IH]; intros dict n mode Hf; [lia|]. cbn [dict_lookup_minmax].
  destruct dict as [c|]; [|by apply safe_ret].
  eapply safe_bind; [apply safe_read_label|]. intros lp Hlp. pose proof (lo_bits _ _ (proj1 Hlp)).
  pose proof (leads_leaf c n lmode lp Hlp) as Hleaf. pose proof (leads_fork c n lmode lp) as Hfork.
  destruct (extract_label_ok _ _ (proj1 Hlp)) as (Hl & Hrest & _).
  pose proof (fun i => extract_ref lp i n (proj1 Hlp)) as Href.
  destruct (extract_label lp) as [l rest]. cbn [fst snd] in *. rewrite Hl.
  eapply safe_bind; [apply safe_assert, Nat.leb_le; lia|]. intros _ _.
  destruct (Nat.eqb_spec (n - l_bits lp) 0); [apply safe_ret; by split; [|apply Hleaf; lia]|].
  rewrite Href. eapply safe_bind; [eapply safe_child; [done|done|lia]|]. intros c' Hc'.
  eapply safe_bind; [apply IH; lia|]. intros [[k v]|] Hr; [|by apply safe_ret]. destruct Hr as [Hv Hk].
  apply safe_ret. split; [done|]. eapply Hfork; [done|lia|exact Hc'|exact Hk].
Qed.

(** The buffer of a search near a key has the length of the key. *)
Definition near_ok (n : nat) (r : option (list bool * CellSlice)) : Prop :=
  match r with Some (k, v) => length k = n /\ slice_ok v | None => True end.
Lemma found_near dict n r : found_ok dict n r -> near_ok n r.
Proof. destruct r as [[k v]|]; [|done]. destruct dict as [c|]; intros [Hv Hk]; [|done]. by split; [apply (leads_length c)|]. Qed.
Lemma safe_minmax_near fuel dict n mode lmode :
  lmode <> chk_min -> (n < fuel)%nat -> safe (dict_lookup_minmax fuel dict n mode lmode) (near_ok n).
Proof using Hio. intros Hm Hf. eapply safe_weaken; [by apply safe_dict_lookup_minmax|]. intros r. apply found_near. Qed.

Lemma safe_near_cons pre b (m n : nat) (r : option (list bool * CellSlice)) :
  (length pre + S m = n)%nat -> near_ok m r ->
  safe (ret (match r with Some (k, v) => Some (pre ++ b :: k, v) | None => None end)) (near_ok n).
Proof.
  intros Hn Hr. apply safe_ret. destruct r as [[k v]|]; [|done]. destruct Hr as [Hk Hv].
  split; [rewrite length_app; cbn [length]; lia|done].
Qed.

Lemma safe_dict_lookup_nearest fuel dict key n eq mode lmode :
  lmode <> chk_min -> (n < fuel)%nat -> length key = n ->
  safe (dict_lookup_nearest fuel dict key n eq mode lmode) (near_ok n).
Proof using Hio.
  intros Hm. revert dict key n mode. induction fuel as [|fuel IH]; intros dict key n mode Hf Hk; [lia|].
  cbn [dict_lookup_nearest]. destruct dict as [c|]; [|by apply safe_ret].
  eapply safe_bind; [apply safe_read_label|]. intros lp Hlp. pose proof (lo_bits _ _ (proj1 Hlp)).
  pose proof (common_prefix_le lp key n Hk). set (pfx := label_common_prefix_len lp key n) in *.
  eapply safe_bind; [apply safe_assert; by rewrite !(proj2 (Nat.leb_le _ _)) by lia|]. intros _ _.
  destruct (Nat.ltb_spec pfx (l_bits lp)).
  { eapply safe_bind; [apply safe_key_bit; lia|]. intros b _.
    destruct (Bool.eqb b _); [by apply safe_ret|by apply safe_minmax_near]. }
  pose proof (skip_label_ok lp n (proj1 Hlp)).
  assert (length (take (l_bits lp) key) = l_bits lp) as Ht by (rewrite length_take; lia).
  destruct (Nat.eqb_spec (n - l_bits lp) 0); [destruct eq; apply safe_ret; [split; [lia|]|]; done|].
  eapply safe_bind; [apply safe_key_bit; lia|]. intros bit _.
  eapply safe_bind; [eapply safe_child; [done|done|lia]|]. intros c' _.
  eapply safe_bind; [apply (IH _ _ (n - l_bits lp - 1)%nat); [lia|rewrite length_drop; lia]|]. intros r Hr. cbv zeta.
  match goal with |- context [if ?t then _ else _] => destruct t end; [by eapply safe_near_cons; [|done]; lia|].
  eapply safe_bind; [eapply safe_child; [done|done|lia]|]. intros c2 _.
  eapply safe_bind; [apply safe_minmax_near; [done|lia]|]. intros r2 Hr2. eapply safe_near_cons; [|done]. lia.
Qed.

(** ** The functions of PfxDict.v *)

Lemma safe_make_pfx_leaf key n f : (length key <= n <= 1023)%nat -> safe (make_pfx_leaf key n f) any_of.
Proof using Hio.
  intros Hn. eapply safe_bind; [by apply safe_append_label|]. intros cb _.
  eapply safe_bind; [apply safe_store_long; lia|]. intros cb1 _.
  eapply safe_bind; [apply safe_store_or_ov|]. intros cb2 _. apply safe_finalize.
Qed.
Lemma safe_pfx_fork cb c1 c2 :
  safe (cb <- store_long 1 1 cb ;; cb <- store_ref c1 cb ;; cb <- store_ref c2 cb ;; finalize_builder cb) any_of.
Proof using Hio.
  eapply safe_bind; [apply safe_store_long; lia|]. intros cb1 _.
  eapply safe_bind; [apply safe_store_ref|]. intros cb2 _. eapply safe_bind; [apply safe_store_ref|]. intros cb3 _.
  apply safe_finalize.
Qed.
Lemma safe_make_pfx_fork l n c1 c2 : (length l <= n <= 1023)%nat -> safe (make_pfx_fork l n c1 c2) any_of.
Proof using Hio. intros Hn. eapply safe_bind; [by apply safe_append_label|]. intros cb _. apply safe_pfx_fork. Qed.
Lemma safe_pfx_insert_fork lp n l key f :
  label_ok lp n -> (l < l_bits lp)%nat -> (l < length key <= n)%nat -> (n <= 1023)%nat ->
  safe (pfx_insert_fork lp l key n f) any_of.
Proof using Hio.
  intros Hlp Hp Hk Hn. pose proof (lo_bits _ _ Hlp). unfold pfx_insert_fork. cbv zeta.
  eapply safe_bind; [apply safe_make_pfx_leaf; rewrite length_drop; lia|]. intros c1 _.
  eapply safe_bind; [eapply safe_split_edge; [done|done|lia|done]|]. intros [cb cs] Hcs.
  eapply safe_bind; [apply safe_store_or_ov|]. intros cb1 _. eapply safe_bind; [apply safe_finalize|]. intros c2 _.
  eapply safe_bind; [apply safe_append_label; rewrite length_take; lia|]. intros cb2 _.
  eapply safe_bind; [apply safe_key_bit; lia|]. intros sw _. apply safe_pfx_fork.
Qed.

Lemma safe_pfx_node lp n : label_ok lp n -> safe (pfx_node lp) (fun p => slice_ok (snd p)).
Proof using Hio.
  intros Hlp%skip_label_ok. unfold pfx_node. eapply safe_bind; [by apply safe_unless_throw|]. intros _ _.
  pose proof (fetch_ulong_ok 1 _ Hlp) as Hcs. destruct (fetch_ulong 1 _) as [t cs]. by apply safe_ret.
Qed.
Lemma pfx_fork_refs cs : pfx_fork_ok cs = true -> size_refs cs = 2%nat.
Proof. unfold pfx_fork_ok. by intros [_ Hr%Nat.eqb_eq]%andb_true_iff. Qed.
Lemma safe_pfx_children cs : slice_ok cs -> pfx_fork_ok cs = true -> safe (pfx_children cs) any_of.
Proof.
  intros Hcs Hr%pfx_fork_refs. unfold pfx_children.
  eapply safe_bind; [apply safe_ref; [done|lia]|]. intros c1 _.
  eapply safe_bind; [apply safe_ref; [done|lia]|]. intros c2 _. by apply safe_ret.
Qed.

Lemma safe_pfx_dict_set fuel dict key n f mode :
  (n < fuel)%nat -> (n <= 1023)%nat ->
  safe (pfx_dict_set fuel dict key n f mode) (fun r => snd r = true -> is_Some (fst r)).
Proof using Hio.
  revert dict key n. induction fuel as [|fuel IH]; intros dict key n Hf Hn; [lia|]. cbn [pfx_dict_set].
  destruct (Nat.ltb_spec n (length key)); [by apply safe_ret|].
  destruct dict as [c|]; [|destruct mode; try (by apply safe_ret);
    (eapply safe_bind; [apply safe_make_pfx_leaf; lia|]; intros c _; by apply safe_ret)].
  eapply safe_bind; [apply safe_read_label|]. intros lp [Hlp _]. pose proof (lo_bits _ _ Hlp).
  pose proof (common_prefix_le lp key (length key) eq_refl). set (l := label_common_prefix_len lp key (length key)) in *.
  eapply safe_bind; [apply safe_assert; by rewrite !(proj2 (Nat.leb_le _ _)) by lia|]. intros _ _.
  destruct (Nat.ltb_spec l (l_bits lp)).
  { destruct (Nat.eqb_spec l (length key)) as [|Hl]; cbn [orb]; [by apply safe_ret|].
    destruct mode; try (by apply safe_ret);
      (eapply safe_bind; [apply safe_pfx_insert_fork; [done|done|lia|done]|]; intros c' _; by apply safe_ret). }
  eapply safe_bind; [by eapply safe_pfx_node|]. intros [[] cs] Hcs; cbn [negb snd] in *.
  - eapply safe_bind; [by apply safe_unless_throw|]. intros ? Hfork. cbv beta in Hfork.
    destruct (Nat.eqb_spec (length key) l); [by apply safe_ret|].
    eapply safe_bind; [by apply safe_pfx_children|]. intros [c1 c2] _.
    eapply safe_bind; [apply safe_key_bit; lia|]. intros sw _.
    eapply safe_bind; [apply IH; lia|]. intros [c' changed] Hc. cbn [fst snd] in Hc.
    destruct changed; cbn [negb]; [|by apply safe_ret]. destruct (Hc eq_refl) as [c3 ->].
    eapply safe_bind; [by apply (safe_of_option _ any_of c3)|]. intros c4 _.
    eapply safe_bind; [apply safe_make_pfx_fork; rewrite length_take; lia|]. intros c5 _. by apply safe_ret.
  - match goal with |- context [if ?t then _ else _] => destruct t end; [by apply safe_ret|].
    eapply safe_bind; [apply safe_make_pfx_leaf; lia|]. intros c' _. by apply safe_ret.
Qed.

Lemma safe_pfx_dict_lookup_delete fuel dict key n :
  (n < fuel)%nat -> (length key <= n <= 1023)%nat -> safe (pfx_dict_lookup_delete fuel dict key n) any_of.
Proof using Hio.
  revert dict key n. induction fuel as [|fuel IH]; intros dict key n Hf Hn; [lia|]. cbn [pfx_dict_lookup_delete].
  destruct dict as [c|]; [|by apply safe_ret].
  eapply safe_bind; [apply safe_read_label|]. intros lp [Hlp _]. pose proof (lo_bits _ _ Hlp).
  pose proof (common_prefix_le lp key (length key) eq_refl). set (l := label_common_prefix_len lp key (length key)) in *.
  eapply safe_bind; [apply safe_assert; by rewrite !(proj2 (Nat.leb_le _ _)) by lia|]. intros _ _.
  destruct (Nat.ltb_spec l (l_bits lp)); [by apply safe_ret|].
  eapply safe_bind; [by eapply safe_pfx_node|]. intros [[] cs] Hcs; cbn [negb snd] in *.
  - eapply safe_bind; [by apply safe_unless_throw|]. intros ? Hfork. cbv beta in Hfork.
    destruct (Nat.eqb_spec l (length key)); [by apply safe_ret|].
    eapply safe_bind; [by apply safe_pfx_children|]. intros [c1 c2] _.
    eapply safe_bind; [apply safe_key_bit; lia|]. intros sw _.
    eapply safe_bind; [apply IH; [|rewrite length_drop]; lia|]. intros [[old|] c'] _; [|by apply safe_ret].
    destruct c' as [c'|].
    + eapply safe_bind; [apply safe_make_pfx_fork; rewrite length_take; lia|]. intros c5 _. by apply safe_ret.
    + eapply safe_bind; [apply safe_merge_edge; rewrite length_take; lia|]. intros c5 _. by apply safe_ret.
  - destruct (_ <? _)%nat; by apply safe_ret.
Qed.

Lemma safe_pfx_lookup_loop fuel c key n k :
  (n < fuel)%nat ->
  safe (pfx_lookup_loop fuel c key n k) (fun r => opt_slice_ok (fst r) /\ (snd r <= k + length key)%nat).
Proof using Hio.
  revert c key n k. induction fuel as [|fuel IH]; intros c key n k Hf; [lia|]. cbn [pfx_lookup_loop].
  eapply safe_bind; [apply safe_read_label|]. intros lp [Hlp _]. pose proof (lo_bits _ _ Hlp).
  pose proof (common_prefix_le lp key (length key) eq_refl). set (l := label_common_prefix_len lp key (length key)) in *.
  destruct (Nat.ltb_spec l (l_bits lp)); [apply safe_ret; split; [done|cbn [snd]; lia]|].
  eapply safe_bind; [apply safe_assert, Nat.leb_le; lia|]. intros _ _.
  eapply safe_bind; [by eapply safe_pfx_node|]. intros [[] cs] Hcs; cbn [negb snd] in *;
    [|apply safe_ret; split; [done|cbn [snd]; lia]].
  eapply safe_bind; [by apply safe_unless_throw|]. intros ? Hn%negb_true_iff%Nat.eqb_neq.
  eapply safe_bind; [by apply safe_unless_throw|]. intros ? Hfork; apply pfx_fork_refs in Hfork.
  destruct (Nat.eqb_spec (length key - l_bits lp) 0); [apply safe_ret; split; [done|cbn [snd]; lia]|].
  eapply safe_bind; [apply safe_key_bit; lia|]. intros sw _.
  eapply safe_bind; [apply safe_ref; [done|destruct sw; lia]|]. intros c' _.
  eapply safe_weaken; [apply IH; lia|]. intros [r j]. cbn [fst snd]. rewrite length_drop. intros [Hr Hj].
  split; [done|lia].
Qed.

Lemma safe_prefix_subdict_loop fuel c prefix (m n : nat) remove :
  (length prefix - m < fuel)%nat -> (m <= length prefix <= n)%nat -> (n <= 1023)%nat ->
  safe (prefix_subdict_loop fuel c prefix m n remove chk_all) any_of.
Proof using Hio.
  revert c m. induction fuel as [|fuel IH]; intros c m Hf Hm Hn; [lia|]. cbn [prefix_subdict_loop].
  eapply safe_bind; [apply safe_read_label|]. intros lp Hlp. pose proof (lo_bits _ _ (proj1 Hlp)).
  destruct (_ <? _)%nat; [by apply safe_ret|]. destruct (Nat.ltb_spec (m + l_bits lp) (length prefix)).
  { eapply safe_bind; [apply safe_key_bit; lia|]. intros sw _.
    eapply safe_bind; [eapply safe_child; [done|done|lia]|]. intros c' _. apply IH; lia. }
  assert (forall cb rest, safe (cb <- store_or_ov (append_cellslice_bool rest) cb ;; c <- finalize_builder cb ;;
    ret (Some (Some c))) any_of) as Hfin.
  { intros cb rest. eapply safe_bind; [apply safe_store_or_ov|]. intros cb1 _.
    eapply safe_bind; [apply safe_finalize|]. intros c' _. by apply safe_ret. }
  destruct remove; cbn [negb].
  - destruct (_ =? _); (eapply safe_bind; [|intros cb _; apply Hfin]).
    + apply safe_append_label. rewrite length_drop, length_take. lia.
    + apply safe_append_same. lia.
  - destruct (_ =? _)%nat; [by apply safe_ret|]. destruct (extract_label_ok _ _ (proj1 Hlp)) as (Hl & _).
    destruct (extract_label lp) as [lab rest]. cbn [fst] in Hl.
    eapply safe_bind; [apply safe_append_label; rewrite length_app, length_take; lia|]. intros cb _. apply Hfin.
Qed.

(** ** Objects *)

Definition dict_ok (d : Dictionary) : Prop := f_valid d = true /\ 0 <= key_bits d <= 1023.

Lemma validate_ok d : f_valid d = false -> fst (validate d) = true ->
  dict_ok (snd (validate d)) /\ key_bits (snd (validate d)) = key_bits d.
Proof.
  intros Hv. unfold validate, invalidate, dict_ok. rewrite Hv. destruct (f_invalid d); [done|].
  destruct (_ || _) eqn:E; [done|]. apply orb_false_iff in E as [E1%Z.ltb_ge E2%Z.ltb_ge].
  change (Z.of_nat max_key_bits) with 1023 in E2. repeat case_match; cbn; done.
Qed.
Lemma safe_force_validate d :
  f_valid d = false -> safe (force_validate d) (fun d' => dict_ok d' /\ key_bits d' = key_bits d).
Proof using Hio.
  intros Hv. pose proof (validate_ok d Hv) as Hok. unfold force_validate. rewrite Hv.
  destruct (validate d) as [ok d']. eapply safe_bind; [by apply safe_unless_throw|]. intros ? ->. apply safe_ret. by apply Hok.
Qed.
Lemma force_valid d : dict_ok d -> force_validate (S := St) d = ret d.
Proof. unfold force_validate. by intros [-> _]. Qed.
Lemma safe_forced {A} (k : Dictionary -> M St A) d R : dict_ok d -> safe (k d) R -> safe (d <- force_validate d ;; k d) R.
Proof. intros Hd Hk. by rewrite force_valid. Qed.

Lemma safe_extract_value_ref o : safe (extract_value_ref o) any_of.
Proof using Hio.
  unfold extract_value_ref. destruct o as [cs|]; [|by apply safe_ret].
  destruct (value_ref cs); [by apply safe_ret|by apply safe_throw].
Qed.
(** The reference of a value that was found. *)
Lemma safe_value_ref {A} (m : M St (option CellSlice * A)) R :
  safe m R -> safe (let* (r, d) := m in c <- extract_value_ref r ;; ret (c, d)) any_of.
Proof using Hio.
  intros Hm. eapply safe_bind; [done|]. intros [r d] _. eapply safe_bind; [apply safe_extract_value_ref|].
  intros c _. by apply safe_ret.
Qed.

Section methods.
Context (d : Dictionary) (Hd : dict_ok d).

Lemma key_fits_spec key : key_fits key d = true -> (length key <= 1023)%nat.
Proof using Hd. unfold key_fits. intros ?%Z.eqb_eq. destruct Hd. lia. Qed.

Lemma safe_lookup key : safe (DictObj.lookup key d) (fun r => opt_slice_ok (fst r)).
Proof using Hio Hd.
  apply safe_forced; [done|]. destruct (root_cell d); [|by apply safe_ret]. destruct (key_fits key d); [|by apply safe_ret].
  eapply safe_bind; [by apply safe_lookup_loop; [|lia|]|]. intros r Hr. by apply safe_ret.
Qed.
Lemma safe_lookup_ref key : safe (lookup_ref key d) any_of.
Proof using Hio Hd. eapply safe_value_ref, safe_lookup. Qed.

Lemma safe_set_gen key f mode : safe (set_gen key f mode d) (fun r => key_fits key d = true -> mode = Dict.Set_ -> fst r = true).
Proof using Hio Hd.
  apply safe_forced; [done|]. destruct (key_fits key d) eqn:E; [|by apply safe_ret]. apply key_fits_spec in E.
  eapply safe_bind; [by apply safe_dict_set; [lia|..]|]. intros [c changed] [_ Hs]. apply safe_ret. auto.
Qed.
Lemma safe_lookup_set_gen key f mode : safe (lookup_set_gen key f mode d) (fun r => opt_slice_ok (fst r)).
Proof using Hio Hd.
  apply safe_forced; [done|]. destruct (key_fits key d) eqn:E; [|by apply safe_ret]. apply key_fits_spec in E.
  eapply safe_bind; [by apply safe_dict_lookup_set; [lia|..]|]. intros [[old c] changed] [Ho _]. by apply safe_ret.
Qed.
Lemma safe_lookup_set_ref key c mode : safe (lookup_set_ref key c mode d) any_of.
Proof using Hio Hd. eapply safe_value_ref, safe_lookup_set_gen. Qed.

Lemma safe_lookup_delete key : safe (DictObj.lookup_delete key d) (fun r => opt_slice_ok (fst r)).
Proof using Hio Hd.
  apply safe_forced; [done|]. destruct (key_fits key d) eqn:E; [|by apply safe_ret]. apply key_fits_spec in E.
  eapply safe_bind; [by apply safe_dict_lookup_delete; [|lia|..]|]. intros [old c] [Ho _]. by apply safe_ret.
Qed.
Lemma safe_lookup_delete_ref key : safe (lookup_delete_ref key d) any_of.
Proof using Hio Hd. eapply safe_value_ref, safe_lookup_delete. Qed.

(** The results of searches. *)
Definition key_value_ok (n : nat) (r : option (list bool * CellSlice) * Dictionary) : Prop := near_ok n (fst r).
Definition key_ref_ok (n : nat) (r : option (list bool * Cell) * Dictionary) : Prop :=
  match fst r with Some (k, _) => length k = n | None => True end.
Lemma safe_minmax_ref (m : M St (option (list bool * CellSlice) * Dictionary)) n :
  safe m (key_value_ok n) ->
  safe (let* (r, d) := m in
        match r with
        | None => ret (None, d)
        | Some (k, cs) => c <- extract_value_ref (Some cs) ;; ret (match c with Some c => Some (k, c) | None => None end, d)
        end) (key_ref_ok n).
Proof using Hio.
  intros Hm. eapply safe_bind; [done|]. intros [[[k cs]|] d'] Hr; [|by apply safe_ret]. destruct Hr as [Hk _].
  eapply safe_bind; [apply safe_extract_value_ref|]. intros [c|] _; by apply safe_ret.
Qed.

Lemma safe_lookup_nearest_key key up eq inv : safe (lookup_nearest_key key up eq inv d) (key_value_ok (length key)).
Proof using Hio Hd.
  apply safe_forced; [done|]. destruct (key_fits key d); [|by apply safe_ret].
  eapply safe_bind; [by apply safe_dict_lookup_nearest; [|lia|]|]. intros r Hr. by apply safe_ret.
Qed.
Lemma safe_get_minmax_key n mx inv : safe (get_minmax_key n mx inv d) (key_value_ok n).
Proof using Hio Hd.
  apply safe_forced; [done|]. destruct (_ =? _); [|by apply safe_ret].
  eapply safe_bind; [apply safe_minmax_near; [done|lia]|]. intros r Hr. by apply safe_ret.
Qed.
Lemma safe_get_minmax_key_ref n mx inv : safe (get_minmax_key_ref n mx inv d) (key_ref_ok n).
Proof using Hio Hd. apply safe_minmax_ref, safe_get_minmax_key. Qed.
(** The key that was found is deleted: the assertion holds. *)
Lemma safe_extract_minmax_key n mx inv : safe (extract_minmax_key n mx inv d) (key_value_ok n).
Proof using Hio Hd.
  apply safe_forced; [done|]. destruct (Z.eqb_spec (Z.of_nat n) (key_bits d)) as [E|]; [|by apply safe_ret].
  assert (n <= 1023)%nat by (destruct Hd; lia).
  eapply safe_bind; [apply safe_dict_lookup_minmax; [done|lia]|]. intros [[k v]|] Hr; [|by apply safe_ret].
  destruct (found_near _ _ _ Hr) as [Hlen Hv]. destruct Hr as [_ Hk].
  eapply safe_bind; [by apply safe_dict_lookup_delete; [|lia|..]|]. intros [old c] [_ Hs]. cbn [fst] in Hs.
  destruct (Hs Hk) as [o ->]. eapply safe_bind; [by apply safe_assert|]. intros _ _. by apply safe_ret.
Qed.
Lemma safe_extract_minmax_key_ref n mx inv : safe (extract_minmax_key_ref n mx inv d) (key_ref_ok n).
Proof using Hio Hd. apply safe_minmax_ref, safe_extract_minmax_key. Qed.

Lemma safe_pfx_set_gen key f mode : safe (pfx_set_gen key f mode d) any_of.
Proof using Hio Hd.
  apply safe_forced; [done|]. destruct (_ <? _); [by apply safe_ret|].
  eapply safe_bind; [apply safe_pfx_dict_set; destruct Hd; lia|]. intros [c changed] _. by apply safe_ret.
Qed.
Lemma safe_pfx_lookup_delete key : safe (pfx_lookup_delete key d) any_of.
Proof using Hio Hd.
  apply safe_forced; [done|]. destruct (Z.ltb_spec (key_bits d) (Z.of_nat (length key))); [by apply safe_ret|].
  eapply safe_bind; [apply safe_pfx_dict_lookup_delete; destruct Hd; lia|]. intros [old c] _. by apply safe_ret.
Qed.
Lemma safe_pfx_lookup_prefix key :
  safe (pfx_lookup_prefix key d) (fun r => opt_slice_ok (fst (fst r)) /\ (snd (fst r) <= length key)%nat).
Proof using Hio Hd.
  apply safe_forced; [done|]. destruct (root_cell d); [|apply safe_ret; split; [done|cbn [fst snd]; lia]].
  eapply safe_bind; [apply safe_pfx_lookup_loop; lia|]. intros [r matched] Hr. by apply safe_ret.
Qed.

Lemma safe_cut_prefix_subdict prefix remove : safe (cut_prefix_subdict prefix remove d) any_of.
Proof using Hio Hd.
  apply safe_forced; [done|]. destruct (_ && _); [by apply safe_ret|].
  eapply (safe_bind _ _ any_of); [|intros r _; by apply safe_ret].
  destruct (root_cell d); [|by apply safe_ret]. destruct (_ =? _)%nat; [by apply safe_ret|].
  destruct (Z.ltb_spec (key_bits d) (Z.of_nat (length prefix))); [by apply safe_ret|].
  apply safe_prefix_subdict_loop; destruct Hd; lia.
Qed.
End methods.
End safety.
