(* ===== verification/DictCombine.v ===== *)
(** * Combination, filtering and enumeration of dictionaries (crypto/vm/dict.cpp)

    [dict_combine_with] walks two dictionaries in parallel; the label of one may be longer
    than that of the other, whose first [skip] bits then belong to the path already
    walked.  The exception [CombineError], which only [combine_with] catches, is the value
    [None] here.  DictCombineSpec and DictCombineRefine prove what the combination has under
    every key. *)
From S2P Require Import Prelude Int256 Cells DataCell Dict DictObj PfxDict DictLabel DictNode DictTree DictSpec DictOrder DictRefine DictSafety.

(** [combine_func_t] writes the combination of two values to the builder: [None] when it throws,
    [Some None] when it returns false. *)
Definition combine_func_t : Type := CellBuilder -> CellSlice -> CellSlice -> list bool -> option (option CellBuilder).

Section combine.
Context `{Sha256} {S : Type} `{CellIO S}.

(** Sequencing of code that may throw [CombineError] *)
Definition combine_bind {A B} (m : M S (option A)) (k : A -> M S (option B)) : M S (option B) :=
  o <- m ;; match o with Some a => k a | None => ret None end.

(** An edge with the label [l] in front of the payload *)
Definition create_edge (l : list bool) (n : nat) (payload : CellSlice) : M S Cell :=
  cb <- append_dict_label l n empty_builder ;;
  cb <- store_or_ov (append_cellslice_bool payload) cb ;;
  finalize_builder cb.
Definition create_fork (l : list bool) (n : nat) (c1 c2 : Cell) : M S Cell :=
  cb <- append_dict_label l n empty_builder ;;
  finish_create_fork cb c1 c2 (n - length l).

(** The end of the last two cases: one child of the node was replaced. *)
Definition join_children (l : list bool) (sw : bool) (c1 c2 : option Cell) (n : nat) : M S (option (option Cell)) :=
  match c1, c2 with
  | Some c1, Some c2 => c <- create_fork l n c1 c2 ;; ret (Some (Some c))
  | _, _ =>
      match (if sw then (c1, c2) else (c2, c1)) with
      | (Some c, None) => c <- merge_edge l (negb sw) c n chk_all ;; ret (Some (Some c))
      | _ => undef
      end
  end.

(** [pre] is what [key_buffer] has before the current position. *)
Fixpoint dict_combine_with (fuel : nat) (dict1 dict2 : option Cell) (pre : list bool) (n : nat)
    (combine_func : combine_func_t) (mode : Z) (skip1 skip2 : nat) : M S (option (option Cell)) :=
  match fuel with
  | O => undef
  | Datatypes.S fuel' =>
      match dict1, dict2 with
      | None, _ =>
          assert_ub (skip2 =? 0)%nat ;;
          match dict2 with
          | Some _ => if Z.testbit mode 0 then ret None else ret (Some dict2)
          | None => ret (Some None)
          end
      | Some _, None =>
          assert_ub (skip1 =? 0)%nat ;;
          if Z.testbit mode 1 then ret None else ret (Some dict1)
      | Some d1, Some d2 =>
          label1 <- read_label d1 (n + skip1) chk_all ;;
          label2 <- read_label d2 (n + skip2) chk_all ;;
          assert_ub ((skip1 <=? l_bits label1)%nat && (skip2 <=? l_bits label2)%nat) ;;
          let before k := drop (length pre - k) pre in
          assert_ub ((skip1 =? 0)%nat || (label_common_prefix_len label1 (before skip1) skip1 =? skip1)%nat) ;;
          assert_ub ((skip2 =? 0)%nat || (label_common_prefix_len label2 (before skip2) skip2 =? skip2)%nat) ;;
          let '(key1, payload1) := extract_label label1 in
          let key1 := drop skip1 key1 in
          let l1 := length key1 in
          let l2 := (l_bits label2 - skip2)%nat in
          let c := label_common_prefix_len label2 (before skip2 ++ key1) (skip2 + l1) in
          assert_ub (skip2 <=? c)%nat ;;
          let c := (c - skip2)%nat in
          assert_ub ((c <=? l1)%nat && (c <=? l2)%nat) ;;
          let '(key2, payload2) := extract_label label2 in
          let key2 := drop skip2 key2 in
          if (c <? l1)%nat && (c <? l2)%nat then
            if negb (Z.land mode 3 =? 0) then ret None
            else
              c1 <- create_edge (drop (c + 1) key1) (n - c - 1) payload1 ;;
              c2 <- create_edge (drop (c + 1) key2) (n - c - 1) payload2 ;;
              b <- key_bit key2 c ;;
              c <- create_fork (take c key2) n (if b then c1 else c2) (if b then c2 else c1) ;;
              ret (Some (Some c))
          else if (c =? l1)%nat && (c =? l2)%nat then
            cb <- append_dict_label key1 n empty_builder ;;
            if (c =? n)%nat then
              match combine_func cb payload1 payload2 (pre ++ key1) with
              | None => ret None
              | Some None => ret (Some None)
              | Some (Some cb) => c <- finalize_builder cb ;; ret (Some (Some c))
              end
            else
              assert_ub (c <? n)%nat ;;
              let sub (b : bool) :=
                let i := if b then 1%nat else 0%nat in
                dict_combine_with fuel' (prefetch_ref i payload1) (prefetch_ref i payload2) (pre ++ key1 ++ [b])
                  (n - c - 1) combine_func mode 0 0 in
              combine_bind (sub false) (fun c1 => combine_bind (sub true) (fun c2 =>
                match c1, c2 with
                | Some c1, Some c2 => c <- finish_create_fork cb c1 c2 (n - c) ;; ret (Some (Some c))
                | None, None => ret (Some None)
                | Some c1, None => c <- merge_edge key1 false c1 n chk_all ;; ret (Some (Some c))
                | None, Some c2 => c <- merge_edge key1 true c2 n chk_all ;; ret (Some (Some c))
                end))
          else if (c =? l1)%nat then
            if Z.testbit mode 1 then ret None
            else
              let c1 := prefetch_ref 0 payload1 in
              let c2 := prefetch_ref 1 payload1 in
              sw <- key_bit key2 c ;;
              combine_bind (dict_combine_with fuel' (if sw then c2 else c1) (Some d2) (pre ++ take (c + 1) key2)
                              (n - c - 1) combine_func mode 0 (skip2 + c + 1))
                (fun r => join_children key1 sw (if sw then c1 else r) (if sw then r else c2) n)
          else
            if Z.testbit mode 0 then ret None
            else
              let c1 := prefetch_ref 0 payload2 in
              let c2 := prefetch_ref 1 payload2 in
              sw <- key_bit key1 c ;;
              combine_bind (dict_combine_with fuel' (Some d1) (if sw then c2 else c1) (pre ++ take (c + 1) key1)
                              (n - c - 1) combine_func mode (skip1 + c + 1) 0)
                (fun r => join_children (take c key1) sw (if sw then c1 else r) (if sw then r else c2) n)
      end
  end.

Definition combine_with (combine_func : combine_func_t) (mode : Z) (d dict2 : Dictionary)
    : M S (bool * Dictionary) :=
  d <- force_validate d ;;
  dict2 <- force_validate dict2 ;;
  unless_throw (key_bits d =? key_bits dict2) (VmError Exc_dict_err) ;;
  let key_len := Z.to_nat (key_bits d) in
  res <- dict_combine_with (Datatypes.S key_len) (root_cell d) (root_cell dict2) [] key_len combine_func mode 0 0 ;;
  ret match res with
      | Some root => (true, set_root_cell root d)
      | None => (false, d)
      end.

(** ** Enumeration *)

(** [dict_check_for_each] without [shuffle]; the function may change [T]. *)
Section foreach.
Context {T : Type} (foreach_func : CellSlice -> list bool -> T -> M S (bool * T)).
Fixpoint dict_check_for_each (fuel : nat) (dict : option Cell) (pre : list bool) (n : nat) (invert_first : bool) (t : T)
    : M S (bool * T) :=
  match fuel with
  | O => undef
  | Datatypes.S fuel' =>
      match dict with
      | None => ret (true, t)
      | Some dict =>
          label <- read_label dict n chk_all ;;
          let l := l_bits label in
          let '(key, payload) := extract_label label in
          if (l =? n)%nat then foreach_func payload (pre ++ key) t
          else
            assert_ub (l <? n)%nat ;;
            let c1 := prefetch_ref 0 payload in
            let c2 := prefetch_ref 1 payload in
            let invert := if (l =? 0)%nat then invert_first else false in
            let* (ok, t) := dict_check_for_each fuel' (if invert then c2 else c1) (pre ++ key ++ [invert]) (n - l - 1) false t in
            if ok
            then dict_check_for_each fuel' (if invert then c1 else c2) (pre ++ key ++ [negb invert]) (n - l - 1) false t
            else ret (false, t)
      end
  end.
Definition check_for_each (invert_first : bool) (d : Dictionary) (t : T) : M S (bool * T) :=
  d <- force_validate d ;;
  if is_empty d then ret (true, t)
  else
    let key_len := Z.to_nat (key_bits d) in
    dict_check_for_each (Datatypes.S key_len) (root_cell d) [] key_len invert_first t.
End foreach.

(** ** Filtering *)

(** [filter_func_t] says whether a value is kept (1) or dropped (0); negative is an error; from
    2^30 on, the rest is kept or dropped as well. *)
Section filter.
Context {T : Type} (check_leaf : CellSlice -> list bool -> T -> M S (Z * T)).

(** The result: the new tree (only meaningful when something has changed), the number of
    changes, and [skip_rest]. *)
Fixpoint dict_filter (fuel : nat) (dict : option Cell) (pre : list bool) (n : nat) (skip_rest : Z) (t : T)
    : M S (option Cell * Z * Z * T) :=
  match fuel with
  | O => undef
  | Datatypes.S fuel' =>
      match dict with
      | None => ret (None, 0, skip_rest, t)
      | Some dict =>
          if 0 <=? skip_rest then ret (None, skip_rest, skip_rest, t)
          else
            label <- read_label dict n chk_all ;;
            assert_ub (l_bits label <=? n)%nat ;;
            let '(key, payload) := extract_label label in
            if (l_bits label =? n)%nat then
              let* (res, t) := check_leaf payload (pre ++ key) t in
              let skip := 2 ^ 30 <=? res in
              let res' := if skip then Z.land res (2 ^ 30 - 1) else res in
              let skip_rest := if skip then if res' =? 0 then 2 ^ 30 else 0 else skip_rest in
              ret (None, if res' <? 0 then res' else Z.b2z (res' =? 0), skip_rest, t)
            else
              let m := (n - l_bits label - 1)%nat in
              let c1 := prefetch_ref 0 payload in
              let c2 := prefetch_ref 1 payload in
              let* (lhs, r1, skip_rest, t) := dict_filter fuel' c1 (pre ++ key ++ [false]) m skip_rest t in
              if r1 <? 0 then ret (lhs, r1, skip_rest, t)
              else
                let* (rhs, r2, skip_rest, t) := dict_filter fuel' c2 (pre ++ key ++ [true]) m skip_rest t in
                if Z.lor r1 r2 <=? 0 then ret (rhs, r2, skip_rest, t)
                else
                  let lhs := if r1 =? 0 then c1 else lhs in
                  let rhs := if r2 =? 0 then c2 else rhs in
                  let changes := if Z.land (Z.lor r1 r2) (2 ^ 30) =? 0 then r1 + r2 else 2 ^ 30 in
                  match lhs, rhs with
                  | None, None => ret (None, changes, skip_rest, t)
                  | Some c1, Some c2 => c <- create_fork key n c1 c2 ;; ret (Some c, changes, skip_rest, t)
                  | Some c, None => c <- merge_edge key false c n chk_all ;; ret (Some c, changes, skip_rest, t)
                  | None, Some c => c <- merge_edge key true c n chk_all ;; ret (Some c, changes, skip_rest, t)
                  end
      end
  end.
Definition filter (d : Dictionary) (t : T) : M S (Z * Dictionary * T) :=
  d <- force_validate d ;;
  let n := Z.to_nat (key_bits d) in
  let* (c, r, _, t) := dict_filter (Datatypes.S n) (root_cell d) [] n (-1) t in
  ret (r, if 0 <? r then set_root_cell c d else d, t).
End filter.
End combine.
