(* ===== verification/DictCombineSpec.v ===== *)
(** * What combining two dictionaries gives

    The proof is made once, against an interface: what it means that a cell denotes a
    function from keys to values ([Denotation]).  One instance are dictionaries in the sense
    of DictSpec, on which nothing is thrown; the other are arbitrary cells, which
    denote whatever lookups find in them. *)
From S2P Require Import Prelude Int256 Cells DataCell Dict DictObj PfxDict DictLabel DictNode DictTree DictSpec DictOrder DictRefine DictSafety DictCombine.
From stdpp Require Import gmap.
Local Open Scope Z_scope.

Notation keyfun := (list bool -> option value).

(** ** Nodes of two children *)

Definition fork_fun (l : list bool) (g0 g1 : keyfun) : keyfun := fun k =>
  match match_label l k with
  | Full (false :: k') => g0 k'
  | Full (true :: k') => g1 k'
  | _ => None
  end.
Lemma fork_fun_at l g0 g1 (b : bool) k : fork_fun l g0 g1 (l ++ b :: k) = (if b then g1 else g0) k.
Proof. unfold fork_fun. rewrite match_label_full. by destruct b. Qed.
Lemma fork_fun_out l g0 g1 k : ~ (l `prefix_of` k) -> fork_fun l g0 g1 k = None.
Proof.
  intros Hk. unfold fork_fun. destruct (label_cases l k) as [[r ->]|[(p & b & l' & k' & -> & ->)|(r & Hr & Hl)]].
  - destruct Hk. by exists r.
  - by rewrite match_label_diverge.
  - by rewrite (match_label_short _ _ _ Hl Hr).
Qed.

(** Keys of [n] bits at a node with the label [l] *)
Lemma at_node n (l k : list bool) : length k = n -> (length l < n)%nat ->
  ~ (l `prefix_of` k) \/ exists (b : bool) k', k = l ++ b :: k' /\ length k' = (n - length l - 1)%nat.
Proof.
  intros Hk Hl. destruct (decide (l `prefix_of` k)) as [[r ->]|]; [|by left]. right.
  rewrite length_app in Hk. destruct r as [|b r]; [cbn in Hk; lia|]. exists b, r. split; [done|]. cbn in Hk. lia.
Qed.
Lemma app_cons_prefix (p l : list bool) (b : bool) k : p ++ l `prefix_of` p ++ k <-> l `prefix_of` k.
Proof. split; [by apply prefix_app_inv|by apply prefix_app]. Qed.

(** [label_common_prefix_len] on a whole key *)
Lemma same_upto_min (a k : list bool) : same_upto (take (Nat.min (length a) (length k)) a) (take (Nat.min (length a) (length k)) k) = same_upto a k.
Proof. revert k. induction a as [|x a IH]; intros [|y k]; try done. cbn. by rewrite IH. Qed.
Lemma same_upto_take_l (a k : list bool) : same_upto (take (length k) a) k = same_upto a k.
Proof. revert k. induction a as [|x a IH]; intros [|y k]; try done. cbn. by rewrite IH. Qed.
Lemma common_prefix_key lp l payload refs key : label_at lp l payload refs ->
  label_common_prefix_len lp key (length key) = same_upto l key.
Proof.
  intros Hlp. unfold label_common_prefix_len. rewrite (at_bits _ _ _ _ Hlp).
  destruct (at_rest _ _ _ _ Hlp) as [(-> & _ & Hs)|(Hne & _ & Hl & _)].
  - cbn [Z.eqb]. unfold slice_common_prefix_len. rewrite (proj1 (slice_is_size _ _ _ Hs)), (is_bits _ _ _ Hs).
    rewrite length_app, (Nat.min_r (length l + length payload)) by lia. rewrite take_app_le by lia. apply same_upto_min.
  - rewrite (proj2 (Z.eqb_neq _ _)) by done. rewrite memscan_same_upto, Nat.min_comm, <- take_replicate, same_upto_take_l. by rewrite <- Hl.
Qed.
Lemma same_upto_self (l r : list bool) : same_upto (l ++ r) l = length l.
Proof. rewrite <- (app_nil_r l) at 2. rewrite same_upto_prefix. destruct r; cbn; lia. Qed.

(** ** The interface *)

Section denote.
Context `{ShaI : Sha256} {St : Type} `{IoI : CellIO St} (Inv : St -> Prop) (Exc : exc -> St -> Prop).
Context (N : nat) (HN : (N + 12 <= max_bits)%nat).
Notation ok := (safe Inv Exc).

(** [K n c l f]: at [n] bits from the end of the key, the cell [c] has the label [l] and denotes
    [f]; [V] is what is known about values. *)
Context (V : value -> Prop) (K : nat -> Cell -> list bool -> keyfun -> Prop).

(** What follows a label, [m] bits from the end *)
Definition below (m : nat) (p : list bool) (r : list Cell) (g : keyfun) : Prop :=
  match m with
  | O => V (p, r) /\ g [] = Some (p, r)
  | S m => p = [] /\ exists c0 c1 l0 l1 f0 f1, r = [c0; c1] /\ K m c0 l0 f0 /\ K m c1 l1 f1 /\
             forall k, length k = m -> g (false :: k) = f0 k /\ g (true :: k) = f1 k
  end.
Record edge (n : nat) (l p : list bool) (r : list Cell) (f : keyfun) : Prop := mkEdge {
  ed_length : (length l <= n)%nat;
  ed_out : forall k, length k = n -> ~ (l `prefix_of` k) -> f k = None;
  ed_below : below (n - length l) p r (fun k => f (l ++ k))
}.
Record Denotation : Prop := mkDenotation {
  dn_open n c l f : K n c l f -> (n <= N)%nat ->
    ok (read_label c n chk_all) (fun lp => exists p r, label_at lp l p r /\ edge n l p r f);
  dn_close n l p r f cs : edge n l p r f -> (n <= N)%nat -> slice_is cs p r ->
    ok (cb <- store_or_ov (append_cellslice_bool cs) (mkBuilder (hm_label n l) []) ;; finalize_builder cb)
       (fun c => K n c l f);
  dn_create n l p r f : edge n l p r f -> (n <= N)%nat ->
    ok (finalize_builder (mkBuilder (hm_label n l ++ p) r)) (fun c => K n c l f)
}.
Hypothesis D : Denotation.

Definition Kopt (n : nat) (o : option Cell) (f : keyfun) : Prop :=
  match o with Some c => exists l, K n c l f | None => forall k, length k = n -> f k = None end.

Lemma edge_ext n l p r f f' : edge n l p r f -> (forall k, length k = n -> f k = f' k) -> edge n l p r f'.
Proof.
  intros [Hl Ho Hb] He. split; [done|intros k Hk Hp; rewrite <- He; auto|].
  unfold below in *. destruct (n - length l)%nat as [|m] eqn:Em.
  - destruct Hb as [? Hg]. split; [done|]. rewrite <- He; [done|]. rewrite length_app. cbn. lia.
  - destruct Hb as (-> & c0 & c1 & l0 & l1 & f0 & f1 & -> & H0 & H1 & Hg). split; [done|].
    exists c0, c1, l0, l1, f0, f1. split_and!; try done. intros k Hk. rewrite <- !He; [by apply Hg|..]; rewrite length_app; cbn; lia.
Qed.

(** Nodes with another label over the same payload *)
Lemma edge_relabel n l p r f n' l' f' : edge n l p r f -> (n' + length l = n + length l')%nat -> (length l' <= n')%nat ->
  (forall k, length k = n' -> ~ (l' `prefix_of` k) -> f' k = None) ->
  (forall k, length k = (n - length l)%nat -> f' (l' ++ k) = f (l ++ k)) -> edge n' l' p r f'.
Proof.
  intros [Hl _ Hb] Hn Hl' Hout Hin. split; [done|done|]. replace (n' - length l')%nat with (n - length l)%nat by lia.
  unfold below in *. destruct (n - length l)%nat as [|m] eqn:Em.
  - destruct Hb as [? Hg]. split; [done|]. by rewrite Hin.
  - destruct Hb as (-> & c0 & c1 & l0 & l1 & f0 & f1 & -> & H0 & H1 & Hg). split; [done|].
    exists c0, c1, l0, l1, f0, f1. split_and!; try done. intros k Hk. rewrite !Hin by (cbn; lia). by apply Hg.
Qed.

Lemma label_run l n (cont : CellBuilder -> M St Cell) R : (length l <= n <= N)%nat -> ok (cont (mkBuilder (hm_label n l) [])) R ->
  ok (cb <- append_dict_label l n empty_builder ;; cont cb) R.
Proof using HN.
  intros Hl Hc s Hs. wp_step. eapply wp_run_to; [apply append_dict_label_run; lia|]. by apply Hc.
Qed.

Lemma ok_edge n l p r f cs : edge n l p r f -> (n <= N)%nat -> slice_is cs p r -> ok (create_edge l n cs) (fun c => K n c l f).
Proof using HN D. intros He Hn Hcs. apply label_run; [destruct He; lia|]. by apply (dn_close D _ _ p r). Qed.

Lemma edge_fork n l c0 c1 l0 l1 g0 g1 : (length l < n)%nat -> K (n - length l - 1) c0 l0 g0 -> K (n - length l - 1) c1 l1 g1 ->
  edge n l [] [c0; c1] (fork_fun l g0 g1).
Proof.
  intros Hl H0 H1. split; [lia|intros; by apply fork_fun_out|]. unfold below. destruct (n - length l)%nat as [|m] eqn:Em; [lia|].
  replace (S m - 1)%nat with m in * by lia. split; [done|]. exists c0, c1, l0, l1, g0, g1. split_and!; try done.
  intros k _. by rewrite !fork_fun_at.
Qed.
Lemma ok_finish_fork n l c0 c1 l0 l1 g0 g1 m : (length l < n <= N)%nat -> (0 < m)%nat ->
  K (n - length l - 1) c0 l0 g0 -> K (n - length l - 1) c1 l1 g1 ->
  ok (finish_create_fork (mkBuilder (hm_label n l) []) c0 c1 m) (fun c => K n c l (fork_fun l g0 g1)).
Proof using HN D.
  intros Hl Hm H0 H1. unfold finish_create_fork. rewrite (proj2 (Nat.ltb_lt _ _) Hm). intros s Hs. wp_step. apply wp_assert_ub; [done|].
  unfold store_ref_bool. cbn [cb_refs length max_refs Nat.ltb Nat.leb or_dict_err]. wp_step. wp_step. cbn [cb_refs length max_refs Nat.ltb Nat.leb or_dict_err cb_bits app].
  wp_step. wp_step. rewrite <- (app_nil_r (hm_label n l)). apply (dn_create D); [eapply edge_fork; [lia|done..]|lia|done].
Qed.
Lemma ok_fork n l c0 c1 l0 l1 g0 g1 : (length l < n <= N)%nat ->
  K (n - length l - 1) c0 l0 g0 -> K (n - length l - 1) c1 l1 g1 ->
  ok (create_fork l n c0 c1) (fun c => K n c l (fork_fun l g0 g1)).
Proof using HN D. intros Hl H0 H1. apply label_run; [lia|]. eapply ok_finish_fork; (done || lia). Qed.

(** One child is gone. *)
Lemma ok_merge n l (b : bool) c l0 g g0 g1 : (length l < n <= N)%nat -> K (n - length l - 1) c l0 g ->
  (if b then g1 else g0) = g -> (forall k, length k = (n - length l - 1)%nat -> (if b then g0 else g1) k = None) ->
  ok (merge_edge l b c n chk_all) (fun r => exists l', K n r l' (fork_fun l g0 g1)).
Proof using HN D.
  intros Hl Hc Hg Hnone. unfold merge_edge. eapply safe_bind; [apply (dn_open D _ _ _ _ Hc); lia|].
  intros lp (p & r & Hlp & He). destruct (extract_label_at _ _ _ _ Hlp) as (rest & -> & Hrest).
  pose proof (ed_length _ _ _ _ _ He) as Hl0.
  eapply safe_bind; [apply safe_assert; apply Nat.leb_le; rewrite length_app; cbn; unfold max_key_bits, max_bits in *; lia|]. intros _ _.
  eapply safe_weaken; [eapply (ok_edge n (l ++ b :: l0) p r (fork_fun l g0 g1))|intros c' Hc'; eexists; exact Hc']; [|lia|done].
  eapply (edge_relabel _ _ _ _ _ n _ _ He); [rewrite length_app; cbn; lia..| |].
  - intros k Hk Hp. destruct (at_node n l k Hk ltac:(lia)) as [?|(x & k' & -> & Hk')]; [by apply fork_fun_out|].
    rewrite fork_fun_at. destruct (decide (x = b)) as [->|Hx].
    + rewrite Hg. apply (ed_out _ _ _ _ _ He); [done|]. intros Hp'. apply Hp. apply prefix_app. by apply prefix_cons.
    + replace (if x then g1 else g0) with (if b then g0 else g1) by (by destruct x, b). by apply Hnone.
  - intros k Hk. rewrite <- app_assoc. cbn [app]. by rewrite fork_fun_at, Hg.
Qed.

(** ** Combination *)

Context (combine_func : combine_func_t) (mode : Z) (R : value -> value -> option value -> Prop) (fails : value -> value -> Prop).
Hypothesis func : forall n l cs1 cs2 p1 r1 p2 r2 key, length l = n -> (n <= N)%nat ->
  slice_is cs1 p1 r1 -> slice_is cs2 p2 r2 -> V (p1, r1) -> V (p2, r2) ->
  match combine_func (mkBuilder (hm_label n l) []) cs1 cs2 key with
  | None => fails (p1, r1) (p2, r2)
  | Some None => R (p1, r1) (p2, r2) None
  | Some (Some cb) => exists p r, cb = mkBuilder (hm_label n l ++ p) r /\ V (p, r) /\ R (p1, r1) (p2, r2) (Some (p, r))
  end.

(** The entry under a key, from those in the two dictionaries *)
Definition combined (x y z : option value) : Prop :=
  match x, y with
  | None, None => z = None
  | None, Some v => Z.testbit mode 0 = false /\ z = Some v
  | Some v, None => Z.testbit mode 1 = false /\ z = Some v
  | Some v1, Some v2 => R v1 v2 z
  end.
(** When there is [CombineError] *)
Definition conflict (x y : option value) : Prop :=
  match x, y with
  | None, None => False
  | None, Some _ => Z.testbit mode 0 = true
  | Some _, None => Z.testbit mode 1 = true
  | Some v1, Some v2 => fails v1 v2
  end.
Lemma mode_clear : Z.land mode 3 = 0 -> Z.testbit mode 0 = false /\ Z.testbit mode 1 = false.
Proof.
  intros E. split.
  - replace (Z.testbit mode 0) with (Z.testbit (Z.land mode 3) 0) by (rewrite Z.land_spec; by rewrite andb_true_r). by rewrite E.
  - replace (Z.testbit mode 1) with (Z.testbit (Z.land mode 3) 1) by (rewrite Z.land_spec; by rewrite andb_true_r). by rewrite E.
Qed.
Lemma mode_set : Z.land mode 3 <> 0 -> Z.testbit mode 0 = true \/ Z.testbit mode 1 = true.
Proof.
  intros Hm. destruct (Z.testbit mode 0) eqn:E0; [by left|]. destruct (Z.testbit mode 1) eqn:E1; [by right|]. destruct Hm.
  apply Z.bits_inj'. intros i Hi. rewrite Z.land_spec, Z.bits_0. destruct (Z.eq_dec i 0) as [->|]; [by rewrite E0|].
  destruct (Z.eq_dec i 1) as [->|]; [by rewrite E1|]. rewrite (Z.bits_above_log2 3 i) by (cbn; lia). apply andb_false_r.
Qed.
(** Every tree has a key; this holds of dictionaries only. *)
Definition alive : Prop := forall n c l f, K n c l f -> exists k v, length k = n /\ f k = Some v.

Lemma combined_fork n (l : list bool) (F1 F2 g0 g1 : keyfun) : (length l < n)%nat ->
  (forall k, length k = n -> ~ (l `prefix_of` k) -> F1 k = None /\ F2 k = None) ->
  (forall (b : bool) k, length k = (n - length l - 1)%nat -> combined (F1 (l ++ b :: k)) (F2 (l ++ b :: k)) ((if b then g1 else g0) k)) ->
  forall k, length k = n -> combined (F1 k) (F2 k) (fork_fun l g0 g1 k).
Proof.
  intros Hl Hout Hin k Hk. destruct (at_node n l k Hk Hl) as [Hp|(b & k' & -> & Hk')].
  - destruct (Hout k Hk Hp) as [-> ->]. by rewrite fork_fun_out.
  - rewrite fork_fun_at. by apply Hin.
Qed.

(** A result, for the functions [F1] and [F2] *)
Definition result (n : nat) (F1 F2 : keyfun) (o : option (option Cell)) : Prop :=
  match o with
  | None => alive -> exists k, length k = n /\ conflict (F1 k) (F2 k)
  | Some r => exists f, Kopt n r f /\ forall k, length k = n -> combined (F1 k) (F2 k) (f k)
  end.
Lemma ok_combine_bind {A B} (m : M St (option A)) (k : A -> M St (option B)) (Q : option A -> Prop) (Q' : option B -> Prop) :
  ok m Q -> (Q None -> Q' None) -> (forall a, Q (Some a) -> ok (k a) Q') -> ok (combine_bind m k) Q'.
Proof. intros Hm Hn Hk. eapply safe_bind; [exact Hm|]. intros [a|] Ha; [by apply Hk|apply safe_ret; auto]. Qed.
Lemma ok_some (m : M St Cell) n F1 F2 f : ok m (fun c => exists l, K n c l f) ->
  (forall k, length k = n -> combined (F1 k) (F2 k) (f k)) -> ok (c <- m ;; ret (Some (Some c))) (result n F1 F2).
Proof. intros Hm Hf. eapply safe_bind; [exact Hm|]. intros c Hc. apply safe_ret. by exists f. Qed.

(** The two trees part inside their labels. *)
Lemma ok_diverge n (q : list bool) (b : bool) a' b' p1 r1 p2 r2 cs1 cs2 (F1 F2 : keyfun) :
  (n <= N)%nat -> edge n (q ++ negb b :: a') p1 r1 F1 -> edge n (q ++ b :: b') p2 r2 F2 ->
  slice_is cs1 p1 r1 -> slice_is cs2 p2 r2 -> Z.land mode 3 = 0 ->
  ok (c1 <- create_edge a' (n - length q - 1) cs1 ;; c2 <- create_edge b' (n - length q - 1) cs2 ;;
      c <- create_fork q n (if b then c1 else c2) (if b then c2 else c1) ;; ret (Some (Some c))) (result n F1 F2).
Proof using HN D.
  intros Hn He1 He2 Hs1 Hs2 [M0 M1]%mode_clear. pose proof (ed_length _ _ _ _ _ He1) as Hl1. pose proof (ed_length _ _ _ _ _ He2) as Hl2.
  rewrite length_app in Hl1, Hl2. cbn [length] in Hl1, Hl2.
  assert (forall b0 x p r cs F, edge n (q ++ b0 :: x) p r F -> slice_is cs p r -> (length x <= n - length q - 1)%nat ->
    ok (create_edge x (n - length q - 1) cs) (fun c => K (n - length q - 1) c x (fun k => F (q ++ b0 :: k)))) as Hcut.
  { intros b0 x p r cs F He Hs Hx. eapply ok_edge; [|lia|exact Hs]. eapply (edge_relabel _ _ _ _ _ _ _ _ He).
    - rewrite length_app. cbn. lia.
    - done.
    - intros k Hk Hp. apply (ed_out _ _ _ _ _ He); [rewrite length_app; cbn; lia|]. intros Hp'. apply Hp.
      apply prefix_app_inv in Hp'. by apply prefix_cons_inv_2 in Hp'.
    - intros k Hk. by rewrite <- app_assoc. }
  eapply safe_bind; [by eapply Hcut; [exact He1|exact Hs1|lia]|]. intros c1 H1.
  eapply safe_bind; [by eapply Hcut; [exact He2|exact Hs2|lia]|]. intros c2 H2. cbv beta in H1, H2.
  set (g1 := fun k => F1 (q ++ negb b :: k)) in *. set (g2 := fun k => F2 (q ++ b :: k)) in *.
  eapply ok_some.
  { eapply safe_weaken; [eapply (ok_fork n q _ _ (if b then a' else b') (if b then b' else a') (if b then g1 else g2) (if b then g2 else g1))|intros c Hc; eexists; exact Hc]; [lia|by destruct b..]. }
  apply combined_fork; [lia| |].
  - intros k Hk Hp. split; [apply (ed_out _ _ _ _ _ He1)|apply (ed_out _ _ _ _ _ He2)]; try done; intros [z ->]; apply Hp; rewrite <- app_assoc; by eexists.
  - intros x k Hk. destruct (decide (x = b)) as [->|Hx].
    + rewrite (ed_out _ _ _ _ _ He1).
      * replace ((if b then if b then g2 else g1 else if b then g1 else g2) k) with (F2 (q ++ b :: k)) by (by destruct b).
        unfold combined. by destruct (F2 _).
      * rewrite length_app. cbn. lia.
      * intros Hp%prefix_app_inv%prefix_cons_inv_1. by destruct b.
    + assert (x = negb b) as -> by (by destruct x, b). rewrite (ed_out _ _ _ _ _ He2).
      * replace ((if negb b then if b then g2 else g1 else if b then g1 else g2) k) with (F1 (q ++ negb b :: k)) by (by destruct b).
        unfold combined. by destruct (F1 _).
      * rewrite length_app. cbn. lia.
      * intros Hp%prefix_app_inv%prefix_cons_inv_1. by destruct b.
Qed.

Lemma ok_join n l (sw : bool) o0 o1 g0 g1 F1 F2 : (length l < n <= N)%nat ->
  Kopt (n - length l - 1) o0 g0 -> Kopt (n - length l - 1) o1 g1 -> is_Some (if sw then o0 else o1) ->
  (forall k, length k = n -> combined (F1 k) (F2 k) (fork_fun l g0 g1 k)) ->
  ok (join_children l sw o0 o1 n) (result n F1 F2).
Proof using HN D.
  intros Hl H0 H1 [c Hc] Hf. unfold join_children.
  assert (forall c l0 g, (if sw then o1 else o0) = None -> K (n - length l - 1) c l0 g -> (if sw then g0 else g1) = g ->
    ok (c <- merge_edge l (negb sw) c n chk_all ;; ret (Some (Some c))) (result n F1 F2)) as Hmerge.
  { intros c' l0 g Hn Hc' Hg. eapply ok_some; [|exact Hf]. eapply ok_merge; [done|exact Hc'|by destruct sw|].
    destruct sw; cbn in *; subst; done. }
  destruct o0 as [c0|], o1 as [c1|]; cbn [Kopt] in *.
  - destruct H0 as [l0 H0], H1 as [l1 H1]. eapply ok_some; [|exact Hf]. eapply safe_weaken; [by eapply ok_fork|]. by eexists.
  - destruct sw; [|done]. destruct H0 as [l0 H0]. by eapply Hmerge.
  - destruct sw; [done|]. destruct H1 as [l1 H1]. by eapply Hmerge.
  - by destruct sw.
Qed.

(** A tree without the first bits of its keys *)
Lemma edge_strip n p0 l p r f : edge (n + length p0) (p0 ++ l) p r f -> edge n l p r (fun k => f (p0 ++ k)).
Proof.
  intros He. pose proof (ed_length _ _ _ _ _ He) as Hl. rewrite length_app in Hl. eapply (edge_relabel _ _ _ _ _ _ _ _ He).
  - rewrite length_app. lia.
  - lia.
  - intros k Hk Hp. apply (ed_out _ _ _ _ _ He); [rewrite length_app; lia|]. by intros ?%prefix_app_inv.
  - intros k _. by rewrite app_assoc.
Qed.

Lemma below_children n l p r f : edge n l p r f -> (length l < n)%nat -> exists c0 c1 l0 l1 f0 f1,
  r = [c0; c1] /\ K (n - length l - 1) c0 l0 f0 /\ K (n - length l - 1) c1 l1 f1 /\
  forall (b : bool) k, length k = (n - length l - 1)%nat -> f (l ++ b :: k) = (if b then f1 else f0) k.
Proof.
  intros [_ _ Hb] Hl. unfold below in Hb. destruct (n - length l)%nat as [|m] eqn:Em; [lia|].
  destruct Hb as (_ & c0 & c1 & l0 & l1 & f0 & f1 & -> & H0 & H1 & Hg). replace (S m - 1)%nat with m by lia.
  exists c0, c1, l0, l1, f0, f1. split_and!; try done. intros b k Hk. destruct (Hg k Hk). by destruct b.
Qed.

Lemma leaf_edge n l p r f : edge n l p r f -> length l = n ->
  V (p, r) /\ forall k, length k = n -> f k = if decide (k = l) then Some (p, r) else None.
Proof.
  intros [_ Ho Hb] Hl. rewrite Hl, Nat.sub_diag in Hb. destruct Hb as [Hv Hf]. rewrite app_nil_r in Hf. split; [done|].
  intros k Hk. destruct (decide (k = l)) as [->|Hne]; [done|]. apply Ho; [done|]. intros [z ->]. apply Hne.
  rewrite length_app in Hk. destruct z; [by rewrite app_nil_r|cbn in Hk; lia].
Qed.
Lemma edge_leaf n l p r : length l = n -> V (p, r) -> edge n l p r (fun k => if decide (k = l) then Some (p, r) else None).
Proof.
  intros Hl Hv. split; [lia| |].
  - intros k _ Hp. rewrite decide_False; [done|]. intros ->. by apply Hp.
  - rewrite Hl, Nat.sub_diag. split; [done|]. by rewrite app_nil_r, decide_True.
Qed.

(** The labels are equal, and so are the keys. *)
Lemma ok_leaves n a pay1 ref1 pay2 ref2 cs1 cs2 F1 F2 pre : (n <= N)%nat -> length a = n ->
  edge n a pay1 ref1 F1 -> edge n a pay2 ref2 F2 -> slice_is cs1 pay1 ref1 -> slice_is cs2 pay2 ref2 ->
  ok match combine_func (mkBuilder (hm_label n a) []) cs1 cs2 (pre ++ a) with
     | None => ret None
     | Some None => ret (Some None)
     | Some (Some cb) => c <- finalize_builder cb ;; ret (Some (Some c))
     end (result n F1 F2).
Proof using HN D func.
  intros Hn Ha [V1 E1]%leaf_edge [V2 E2]%leaf_edge Hs1 Hs2; [|done..].
  pose proof (func n a cs1 cs2 pay1 ref1 pay2 ref2 (pre ++ a) Ha Hn Hs1 Hs2 V1 V2) as Hf.
  destruct (combine_func _ _ _ _) as [[cb|]|].
  - destruct Hf as (p & r & -> & Hv & Hr). eapply ok_some.
    + eapply safe_weaken; [eapply (dn_create D); [by apply edge_leaf|done]|]. intros c Hc. eexists. exact Hc.
    + intros k Hk. cbv beta. rewrite E1, E2 by done. by destruct (decide (k = a)).
  - apply safe_ret. exists (fun _ => None). split; [done|]. intros k Hk. rewrite E1, E2 by done. by destruct (decide (k = a)).
  - apply safe_ret. intros _. exists a. split; [done|]. rewrite E1, E2, !decide_True by done. exact Hf.
Qed.

(** A tree whose keys start with [p] *)
Definition Kpre (n : nat) (o : option Cell) (p : list bool) (f : keyfun) : Prop :=
  match o with Some c => exists l, K n c (p ++ l) f | None => forall k, length k = n -> f k = None end.
Lemma Kpre_nil n o f : Kopt n o f -> Kpre (n + 0) o [] f.
Proof. rewrite Nat.add_0_r. by destruct o. Qed.

Definition combines (fuel : nat) : Prop := forall n d1 d2 pre p1 p2 f1 f2,
  (n < fuel)%nat -> (n + length p1 <= N)%nat -> (n + length p2 <= N)%nat -> p1 `suffix_of` pre -> p2 `suffix_of` pre ->
  Kpre (n + length p1) d1 p1 f1 -> Kpre (n + length p2) d2 p2 f2 -> (d1 = None -> p2 = []) -> (d2 = None -> p1 = []) ->
  ok (dict_combine_with fuel d1 d2 pre n combine_func mode (length p1) (length p2))
     (result n (fun k => f1 (p1 ++ k)) (fun k => f2 (p2 ++ k))).

Notation sub fuel o1 o2 pre n := (dict_combine_with fuel o1 o2 pre n combine_func mode 0 0).

(** The labels are equal, and there are subtrees. *)
Lemma ok_subtrees fuel n a pay1 ref1 pay2 ref2 cs1 cs2 F1 F2 pre : combines fuel -> (n <= N)%nat -> (length a < n)%nat -> (n <= fuel)%nat ->
  edge n a pay1 ref1 F1 -> edge n a pay2 ref2 F2 -> slice_is cs1 pay1 ref1 -> slice_is cs2 pay2 ref2 ->
  ok (combine_bind (sub fuel (prefetch_ref 0 cs1) (prefetch_ref 0 cs2) (pre ++ a ++ [false]) (n - length a - 1)) (fun c1 =>
      combine_bind (sub fuel (prefetch_ref 1 cs1) (prefetch_ref 1 cs2) (pre ++ a ++ [true]) (n - length a - 1)) (fun c2 =>
        match c1, c2 with
        | Some c1, Some c2 => c <- finish_create_fork (mkBuilder (hm_label n a) []) c1 c2 (n - length a) ;; ret (Some (Some c))
        | None, None => ret (Some None)
        | Some c1, None => c <- merge_edge a false c1 n chk_all ;; ret (Some (Some c))
        | None, Some c2 => c <- merge_edge a true c2 n chk_all ;; ret (Some (Some c))
        end))) (result n F1 F2).
Proof using HN D func.
  intros IH Hn Ha Hfuel He1 He2 Hs1 Hs2. rewrite !(slice_is_ref _ _ _ _ Hs1), !(slice_is_ref _ _ _ _ Hs2).
  destruct (below_children _ _ _ _ _ He1 Ha) as (c10 & c11 & l10 & l11 & f10 & f11 & -> & K10 & K11 & G1).
  destruct (below_children _ _ _ _ _ He2 Ha) as (c20 & c21 & l20 & l21 & f20 & f21 & -> & K20 & K21 & G2).
  cbn [lookup list_lookup]. set (m := (n - length a - 1)%nat) in *.
  assert (forall (b : bool) c1 c2 l1 l2 f1 f2, K m c1 l1 f1 -> K m c2 l2 f2 ->
    ok (sub fuel (Some c1) (Some c2) (pre ++ a ++ [b]) m) (result m f1 f2)) as Hsub.
  { intros b c1 c2 l1 l2 f1 f2 H1 H2. apply (IH m (Some c1) (Some c2) _ [] [] f1 f2); cbn; try lia; try done.
    - by apply suffix_nil.
    - by apply suffix_nil.
    - exists l1. by rewrite Nat.add_0_r.
    - exists l2. by rewrite Nat.add_0_r. }
  assert (forall (b : bool), result m (if b then f11 else f10) (if b then f21 else f20) None -> result n F1 F2 None) as Hstuck.
  { intros b Hst Hal. destruct (Hst Hal) as (k & Hk & Hc). exists (a ++ b :: k). rewrite G1, G2 by done. split; [rewrite length_app; cbn; lia|].
    by destruct b. }
  eapply ok_combine_bind; [by eapply Hsub|by apply (Hstuck false)|]. intros o0 (g0 & Hg0 & Hc0).
  eapply ok_combine_bind; [by eapply Hsub|by apply (Hstuck true)|]. intros o1 (g1 & Hg1 & Hc1).
  assert (forall k, length k = n -> combined (F1 k) (F2 k) (fork_fun a g0 g1 k)) as Hf.
  { apply combined_fork; [done| |].
    - intros k Hk Hp. split; [by apply (ed_out _ _ _ _ _ He1)|by apply (ed_out _ _ _ _ _ He2)].
    - intros b k Hk. rewrite G1, G2 by done. destruct b; auto. }
  destruct o0 as [c0|], o1 as [c1|]; cbn [Kopt] in Hg0, Hg1.
  - destruct Hg0 as [l0 Hg0], Hg1 as [l1 Hg1]. eapply ok_some; [|exact Hf].
    eapply safe_weaken; [eapply ok_finish_fork; [lia|lia|exact Hg0|exact Hg1]|]. intros c Hc. eexists. exact Hc.
  - destruct Hg0 as [l0 Hg0]. eapply ok_some; [|exact Hf]. eapply ok_merge; [lia|exact Hg0|done|done].
  - destruct Hg1 as [l1 Hg1]. eapply ok_some; [|exact Hf]. eapply ok_merge; [lia|exact Hg1|done|done].
  - apply safe_ret. exists (fork_fun a g0 g1). split; [|done]. intros k Hk.
    destruct (at_node n a k Hk Ha) as [?|(b & k' & -> & Hk')]; [by apply fork_fun_out|]. rewrite fork_fun_at. destruct b; auto.
Qed.

(** The label of the second tree is longer: it goes below one child of the first. *)
Lemma ok_below1 fuel n a (x : bool) b' pay1 ref1 cs1 F1 d2 p2 l2 f2 pre pay2 ref2 :
  combines fuel -> (n + length p2 <= N)%nat -> (n <= fuel)%nat -> p2 `suffix_of` pre -> Z.testbit mode 1 = false ->
  edge n a pay1 ref1 F1 -> slice_is cs1 pay1 ref1 -> l2 = a ++ x :: b' ->
  K (n + length p2) d2 (p2 ++ l2) f2 -> edge n l2 pay2 ref2 (fun k => f2 (p2 ++ k)) ->
  let c1 := prefetch_ref 0 cs1 in let c2 := prefetch_ref 1 cs1 in
  ok (combine_bind (dict_combine_with fuel (if x then c2 else c1) (Some d2) (pre ++ a ++ [x]) (n - length a - 1)
                      combine_func mode 0 (length p2 + length a + 1))
        (fun r => join_children a x (if x then c1 else r) (if x then r else c2) n)) (result n F1 (fun k => f2 (p2 ++ k))).
Proof using HN D func.
  intros IH Hn Hfuel Hsuf Hmode He1 Hs1 -> Hk2 He2. cbv zeta. rewrite !(slice_is_ref _ _ _ _ Hs1).
  pose proof (ed_length _ _ _ _ _ He2) as Hl2. rewrite length_app in Hl2. cbn [length] in Hl2.
  destruct (below_children _ _ _ _ _ He1 ltac:(lia)) as (c10 & c11 & l10 & l11 & f10 & f11 & -> & K10 & K11 & G1).
  cbn [lookup list_lookup]. set (m := (n - length a - 1)%nat) in *.
  eapply ok_combine_bind.
  - assert (length (p2 ++ a ++ [x]) = length p2 + length a + 1)%nat as Hlen by (rewrite !length_app; cbn; lia).
    rewrite <- Hlen. apply (IH m _ (Some d2) _ [] (p2 ++ a ++ [x]) (if x then f11 else f10) f2); rewrite ?Hlen; cbn [length]; try lia.
    + by apply suffix_nil.
    + destruct Hsuf as [z ->]. exists z. by rewrite <- app_assoc.
    + rewrite Nat.add_0_r. destruct x; by eexists.
    + exists b'. rewrite <- !app_assoc. cbn [app]. by replace (m + (length p2 + length a + 1))%nat with (n + length p2)%nat by lia.
    + by destruct x.
    + done.
  - intros Hst Hal. destruct (Hst Hal) as (k & Hk & Hc). exists (a ++ x :: k). rewrite (G1 x k Hk). split; [rewrite length_app; cbn; lia|].
    rewrite <- !app_assoc in Hc. exact Hc.
  - intros r (g & Hg & Hc). cbn [app] in Hc.
    apply (ok_join n a x _ _ (if x then f10 else g) (if x then g else f11)); [lia|destruct x; [by eexists|done]|destruct x; [done|by eexists]|by destruct x|].
    apply combined_fork; [lia| |].
    + intros k Hk Hp. split; [by apply (ed_out _ _ _ _ _ He1)|]. apply (ed_out _ _ _ _ _ He2 k Hk). intros [z ->]. apply Hp. rewrite <- app_assoc. by eexists.
    + intros y k Hk. rewrite (G1 y k Hk). destruct (decide (y = x)) as [->|Hy].
      * specialize (Hc k Hk). rewrite <- !app_assoc in Hc. cbn [app] in Hc. by destruct x.
      * rewrite (ed_out _ _ _ _ _ He2 (a ++ y :: k)).
        -- destruct x, y; try done; unfold combined; by destruct (_ k).
        -- rewrite length_app. cbn. lia.
        -- intros Hp%prefix_app_inv%prefix_cons_inv_1. congruence.
Qed.
(** The label of the first tree is longer. *)
Lemma ok_below2 fuel n b (x : bool) a' pay2 ref2 cs2 F2 d1 p1 l1 f1 pre pay1 ref1 :
  combines fuel -> (n + length p1 <= N)%nat -> (n <= fuel)%nat -> p1 `suffix_of` pre -> Z.testbit mode 0 = false ->
  edge n b pay2 ref2 F2 -> slice_is cs2 pay2 ref2 -> l1 = b ++ x :: a' ->
  K (n + length p1) d1 (p1 ++ l1) f1 -> edge n l1 pay1 ref1 (fun k => f1 (p1 ++ k)) ->
  let c1 := prefetch_ref 0 cs2 in let c2 := prefetch_ref 1 cs2 in
  ok (combine_bind (dict_combine_with fuel (Some d1) (if x then c2 else c1) (pre ++ b ++ [x]) (n - length b - 1)
                      combine_func mode (length p1 + length b + 1) 0)
        (fun r => join_children b x (if x then c1 else r) (if x then r else c2) n)) (result n (fun k => f1 (p1 ++ k)) F2).
Proof using HN D func.
  intros IH Hn Hfuel Hsuf Hmode He2 Hs2 -> Hk1 He1. cbv zeta. rewrite !(slice_is_ref _ _ _ _ Hs2).
  pose proof (ed_length _ _ _ _ _ He1) as Hl1. rewrite length_app in Hl1. cbn [length] in Hl1.
  destruct (below_children _ _ _ _ _ He2 ltac:(lia)) as (c20 & c21 & l20 & l21 & f20 & f21 & -> & K20 & K21 & G2).
  cbn [lookup list_lookup]. set (m := (n - length b - 1)%nat) in *.
  eapply ok_combine_bind.
  - assert (length (p1 ++ b ++ [x]) = length p1 + length b + 1)%nat as Hlen by (rewrite !length_app; cbn; lia).
    rewrite <- Hlen. apply (IH m (Some d1) _ _ (p1 ++ b ++ [x]) [] f1 (if x then f21 else f20)); rewrite ?Hlen; cbn [length]; try lia.
    + destruct Hsuf as [z ->]. exists z. by rewrite <- app_assoc.
    + by apply suffix_nil.
    + exists a'. rewrite <- !app_assoc. cbn [app]. by replace (m + (length p1 + length b + 1))%nat with (n + length p1)%nat by lia.
    + rewrite Nat.add_0_r. destruct x; by eexists.
    + done.
    + by destruct x.
  - intros Hst Hal. destruct (Hst Hal) as (k & Hk & Hc). exists (b ++ x :: k). rewrite (G2 x k Hk). split; [rewrite length_app; cbn; lia|].
    rewrite <- !app_assoc in Hc. exact Hc.
  - intros r (g & Hg & Hc). cbn [app] in Hc.
    apply (ok_join n b x _ _ (if x then f20 else g) (if x then g else f21)); [lia|destruct x; [by eexists|done]|destruct x; [done|by eexists]|by destruct x|].
    apply combined_fork; [lia| |].
    + intros k Hk Hp. split; [|by apply (ed_out _ _ _ _ _ He2)]. apply (ed_out _ _ _ _ _ He1 k Hk). intros [z ->]. apply Hp. rewrite <- app_assoc. by eexists.
    + intros y k Hk. rewrite (G2 y k Hk). destruct (decide (y = x)) as [->|Hy].
      * specialize (Hc k Hk). rewrite <- !app_assoc in Hc. cbn [app] in Hc. by destruct x.
      * rewrite (ed_out _ _ _ _ _ He1 (b ++ y :: k)).
        -- destruct x, y; try done; unfold combined; by destruct (_ k).
        -- rewrite length_app. cbn. lia.
        -- intros Hp%prefix_app_inv%prefix_cons_inv_1. congruence.
Qed.

(** Keys that only one of the trees has *)
Lemma other_key1 n a (x : bool) b' pay1 ref1 pay2 ref2 F1 F2 : alive -> edge n a pay1 ref1 F1 -> edge n (a ++ x :: b') pay2 ref2 F2 ->
  Z.testbit mode 1 = true -> exists k, length k = n /\ conflict (F1 k) (F2 k).
Proof.
  intros Hal He1 He2 Em. pose proof (ed_length _ _ _ _ _ He2) as Hl. rewrite length_app in Hl. cbn in Hl.
  destruct (below_children _ _ _ _ _ He1 ltac:(lia)) as (c0 & c1 & l0 & l1 & f0 & f1 & _ & K0 & K1 & G).
  assert (exists k v, length k = (n - length a - 1)%nat /\ (if negb x then f1 else f0) k = Some v) as (k & v & Hk & Hv).
  { destruct x; by eapply Hal. }
  exists (a ++ negb x :: k). split; [rewrite length_app; cbn; lia|]. rewrite G, Hv by done.
  rewrite (ed_out _ _ _ _ _ He2); [done|rewrite length_app; cbn; lia|]. intros Hp%prefix_app_inv%prefix_cons_inv_1. by destruct x.
Qed.
Lemma other_key2 n b (x : bool) a' pay1 ref1 pay2 ref2 F1 F2 : alive -> edge n (b ++ x :: a') pay1 ref1 F1 -> edge n b pay2 ref2 F2 ->
  Z.testbit mode 0 = true -> exists k, length k = n /\ conflict (F1 k) (F2 k).
Proof.
  intros Hal He1 He2 Em. pose proof (ed_length _ _ _ _ _ He1) as Hl. rewrite length_app in Hl. cbn in Hl.
  destruct (below_children _ _ _ _ _ He2 ltac:(lia)) as (c0 & c1 & l0 & l1 & f0 & f1 & _ & K0 & K1 & G).
  assert (exists k v, length k = (n - length b - 1)%nat /\ (if negb x then f1 else f0) k = Some v) as (k & v & Hk & Hv).
  { destruct x; by eapply Hal. }
  exists (b ++ negb x :: k). split; [rewrite length_app; cbn; lia|]. rewrite G, Hv by done.
  rewrite (ed_out _ _ _ _ _ He1); [done|rewrite length_app; cbn; lia|]. intros Hp%prefix_app_inv%prefix_cons_inv_1. by destruct x.
Qed.
Lemma stripped_key n c p l f : alive -> K (n + length p) c (p ++ l) f ->
  (forall k, length k = (n + length p)%nat -> ~ (p ++ l `prefix_of` k) -> f k = None) ->
  exists k v, length k = n /\ f (p ++ k) = Some v /\ l `prefix_of` k.
Proof.
  intros Hal HK Hout. destruct (Hal _ _ _ _ HK) as (k & v & Hk & Hv).
  destruct (decide (p ++ l `prefix_of` k)) as [[z ->]|Hp]; [|by rewrite Hout in Hv].
  exists (l ++ z), v. rewrite !length_app in Hk. rewrite app_assoc, length_app. split_and!; [lia|done|by exists z].
Qed.
Lemma diverge_prefix (q : list bool) x a' b' k : q ++ negb x :: a' `prefix_of` k -> q ++ x :: b' `prefix_of` k -> False.
Proof. intros [z ->] Hp. rewrite <- app_assoc in Hp. apply prefix_app_inv in Hp. apply prefix_cons_inv_1 in Hp. by destruct x. Qed.

Lemma before_suffix (p pre : list bool) : p `suffix_of` pre -> drop (length pre - length p) pre = p.
Proof. intros [z ->]. rewrite length_app. replace (length z + length p - length p)%nat with (length z) by lia. apply drop_app_length. Qed.

Lemma ok_dict_combine fuel : combines fuel.
Proof using HN D func.
  induction fuel as [|fuel IH]; intros n d1 d2 pre p1 p2 f1 f2 Hfuel HN1 HN2 Hsuf1 Hsuf2 Hd1 Hd2 Hnil1 Hnil2; [lia|].
  cbn [dict_combine_with]. destruct d1 as [d1|].
  2: { rewrite (Hnil1 eq_refl) in *. cbn [length Nat.eqb app] in *. rewrite Nat.add_0_r in Hd2.
    eapply safe_bind; [by apply safe_assert|]. intros _ _. cbn [Kpre] in Hd1.
    assert (forall k, length k = n -> f1 (p1 ++ k) = None) as H1 by (intros k Hk; apply Hd1; rewrite length_app; lia).
    destruct d2 as [d2|]; [destruct (Z.testbit mode 0) eqn:Em|]; apply safe_ret.
    - intros Hal. destruct Hd2 as [l2 Hd2]. destruct (Hal _ _ _ _ Hd2) as (k & v & Hk & Hv). exists k. split; [done|].
      by rewrite H1, Hv by done.
    - exists f2. split; [exact Hd2|]. intros k Hk. rewrite H1 by done. unfold combined. by destruct (f2 k).
    - exists f2. split; [exact Hd2|]. intros k Hk. rewrite H1 by done. cbn [Kpre] in Hd2. unfold combined. by rewrite (Hd2 k Hk). }
  destruct d2 as [d2|].
  2: { rewrite (Hnil2 eq_refl) in *. cbn [length Nat.eqb app] in *. rewrite Nat.add_0_r in Hd1.
    eapply safe_bind; [by apply safe_assert|]. intros _ _. cbn [Kpre] in Hd2.
    destruct (Z.testbit mode 1) eqn:Em; apply safe_ret.
    { intros Hal. destruct Hd1 as [l1 Hd1]. destruct (Hal _ _ _ _ Hd1) as (k & v & Hk & Hv). exists k. split; [done|].
      by rewrite Hv, Hd2 by (rewrite length_app; lia). }
    exists f1. split; [exact Hd1|]. intros k Hk. rewrite (Hd2 (p2 ++ k)) by (rewrite length_app; lia). unfold combined. by destruct (f1 k). }
  destruct Hd1 as [a Hd1], Hd2 as [b Hd2].
  eapply safe_bind; [by apply (dn_open D)|]. intros lp1 (pay1 & ref1 & Hlp1 & He1). pose proof (edge_strip _ _ _ _ _ _ He1) as Hs1.
  eapply safe_bind; [by apply (dn_open D)|]. intros lp2 (pay2 & ref2 & Hlp2 & He2). pose proof (edge_strip _ _ _ _ _ _ He2) as Hs2.
  pose proof (ed_length _ _ _ _ _ Hs1) as Hl1. pose proof (ed_length _ _ _ _ _ Hs2) as Hl2.
  rewrite (at_bits _ _ _ _ Hlp1), (at_bits _ _ _ _ Hlp2), !before_suffix by done. rewrite !length_app.
  eapply safe_bind; [apply safe_assert; rewrite !(proj2 (Nat.leb_le _ _)) by lia; done|]. intros _ _.
  eapply safe_bind; [apply safe_assert; rewrite (common_prefix_key _ _ _ _ _ Hlp1), same_upto_self, Nat.eqb_refl; apply orb_true_r|]. intros _ _.
  eapply safe_bind; [apply safe_assert; rewrite (common_prefix_key _ _ _ _ _ Hlp2), same_upto_self, Nat.eqb_refl; apply orb_true_r|]. intros _ _.
  destruct (extract_label_at _ _ _ _ Hlp1) as (rest1 & -> & Hr1). destruct (extract_label_at _ _ _ _ Hlp2) as (rest2 & -> & Hr2).
  rewrite !drop_app_length, <- length_app, (common_prefix_key _ _ _ _ _ Hlp2), same_upto_prefix.
  eapply safe_bind; [apply safe_assert; apply Nat.leb_le; lia|]. intros _ _.
  replace (length p2 + same_upto b a - length p2)%nat with (same_upto b a) by lia.
  replace (length p2 + length b - length p2)%nat with (length b) by lia.
  pose proof (same_upto_le b a) as Hle.
  eapply safe_bind; [apply safe_assert; rewrite !(proj2 (Nat.leb_le _ _)) by lia; done|]. intros _ _. clear Hle.
  destruct (label_cases a b) as [[[|x b'] ->]|[(q & x & a' & b' & -> & ->)|(r & Hr & ->)]].
  - rewrite app_nil_r in *. pose proof (same_upto_self a []) as Hc. rewrite app_nil_r in Hc. rewrite Hc, Nat.ltb_irrefl, Nat.eqb_refl.
    cbn [andb]. intros s Hs. wp_step. eapply wp_run_to; [apply append_dict_label_run; lia|]. revert s Hs.
    destruct (Nat.eqb_spec (length a) n) as [Hn|Hn]; [eapply ok_leaves; (done || lia)|].
    eapply safe_bind; [apply safe_assert; apply Nat.ltb_lt; lia|]. intros _ _. eapply ok_subtrees; (done || lia).
  - rewrite same_upto_self, length_app. cbn [length]. rewrite Nat.ltb_irrefl, Nat.eqb_refl. cbn [andb].
    rewrite (proj2 (Nat.eqb_neq _ _)) by lia. destruct (Z.testbit mode 1) eqn:Em.
    { apply safe_ret. intros Hal. by destruct (other_key1 _ _ _ _ _ _ _ _ _ _ Hal Hs1 Hs2 Em) as (k & ?); exists k. }
    intros s Hs. wp_step. eapply wp_of_option; [apply key_bit_at|]. revert s Hs.
    replace (take (length a + 1) (a ++ x :: b')) with (a ++ [x]).
    2: { change (a ++ x :: b') with (a ++ [x] ++ b'). rewrite app_assoc, take_app_length' by (by rewrite length_app). done. }
    by eapply ok_below1; [..|exact Hs2]; (done || lia).
  - assert (same_upto (q ++ x :: b') (q ++ negb x :: a') = length q) as ->.
    { pose proof (same_upto_diverge q (negb x) b' a') as Hc. by rewrite negb_involutive in Hc. }
    rewrite !length_app. cbn [length]. rewrite !(proj2 (Nat.ltb_lt _ _)) by lia. cbn [andb].
    destruct (Z.eqb_spec (Z.land mode 3) 0) as [Em|Em]; cbn [negb]; [|apply safe_ret; intros Hal].
    2: { destruct (mode_set Em) as [E0|E1].
      - destruct (stripped_key _ _ _ _ _ Hal Hd2 (ed_out _ _ _ _ _ He2)) as (k & v & Hk & Hv & Hp). exists k. split; [done|]. rewrite Hv.
        rewrite (ed_out _ _ _ _ _ Hs1 k Hk); [done|]. intros Hp'. by eapply (diverge_prefix q x).
      - destruct (stripped_key _ _ _ _ _ Hal Hd1 (ed_out _ _ _ _ _ He1)) as (k & v & Hk & Hv & Hp). exists k. split; [done|]. rewrite Hv.
        rewrite (ed_out _ _ _ _ _ Hs2 k Hk); [done|]. intros Hp'. by eapply (diverge_prefix q x). }
    replace (length q + 1)%nat with (S (length q)) by lia. rewrite !drop_bit, take_app_length.
    pose proof (ok_diverge n q x a' b' _ _ _ _ rest1 rest2 _ _ ltac:(lia) Hs1 Hs2 Hr1 Hr2 Em) as Hd.
    intros s Hs. specialize (Hd s Hs). unfold key_bit. rewrite key_bit_at. exact Hd.
  - destruct r as [|x a']; [done|]. rewrite same_upto_all, length_app. cbn [length]. rewrite Nat.ltb_irrefl, andb_false_r.
    rewrite (proj2 (Nat.eqb_neq (length b) (length b + _))) by lia. cbn [andb].
    destruct (Z.testbit mode 0) eqn:Em.
    { apply safe_ret. intros Hal. by destruct (other_key2 _ _ _ _ _ _ _ _ _ _ Hal Hs1 Hs2 Em) as (k & ?); exists k. }
    intros s Hs. wp_step. eapply wp_of_option; [apply key_bit_at|]. revert s Hs. rewrite take_app_length.
    replace (take (length b + 1) (b ++ x :: a')) with (b ++ [x]).
    2: { change (b ++ x :: a') with (b ++ [x] ++ a'). rewrite app_assoc, take_app_length' by (by rewrite length_app). done. }
    by eapply ok_below2; [..|exact Hs1]; (done || lia).
Qed.
End denote.
