(* ===== verification/DictCombineRefine.v ===== *)
(** * Combination of dictionaries refines the combination of maps

    The two instances of the interface of DictCombineSpec, and the theorems. *)
From S2P Require Import Prelude Int256 Cells DataCell Dict DictObj PfxDict DictLabel DictNode DictTree DictSpec DictOrder DictRefine DictSafety DictCombine DictCombineSpec.
From stdpp Require Import gmap.
Local Open Scope Z_scope.

(** ** Dictionaries *)

Section trees.
Context `{Sha256} {St : Type} `{CellLaws St} (E : nat -> list bool -> list bool -> Prop) `{!LabelEnc E}.
Context (N : nat) (HN : (N + 12 <= max_bits)%nat).

Definition tree_denotes (n : nat) (c : Cell) (l : list bool) (f : keyfun) : Prop :=
  exists t, l = label t /\ repr E n t c /\ all_values (value_ok N) t /\ forall k, length k = n -> f k = t_lookup t k.
Notation t_edge := (edge (value_ok N) tree_denotes).

Lemma tree_open n c l f (s : St) : tree_denotes n c l f -> (n <= N)%nat -> io_inv s ->
  wp (read_label c n chk_all) (fun lp s' => (exists p r, label_at lp l p r /\ t_edge n l p r f) /\ io_inv s') io_exc s.
Proof using HN LabelEnc0.
  intros (t & -> & Hr & Hv & Hf) Hn Hs. destruct (repr_node E N n t c HN Hn Hr Hv) as (e & payload & refs & Hnv).
  rewrite (nv_cell _ _ _ _ _ _ _ _ Hnv). eapply wp_mono; [eapply wp_read_label| |done].
  - apply (enc_sound _ _ _ (nv_enc _ _ _ _ _ _ _ _ Hnv)).
  - apply (nv_label _ _ _ _ _ _ _ _ Hnv).
  - apply (nv_fork _ _ _ _ _ _ _ _ Hnv).
  - done.
  - intros lp s' [Hlp Hi]. split; [|done]. exists payload, refs. split; [done|]. pose proof (nv_label _ _ _ _ _ _ _ _ Hnv) as Hl.
    split; [done| |].
    + intros k Hk Hp. rewrite Hf by done. by apply lookup_not_prefix.
    + pose proof (nv_data _ _ _ _ _ _ _ _ Hnv) as Hd. pose proof (nv_fork _ _ _ _ _ _ _ _ Hnv) as Hfk.
      pose proof (repr_wf _ _ _ _ Hr) as Hw. destruct t as [l v|l t0 t1]; cbn [label] in *.
      * rewrite Hw, Nat.sub_diag. subst v. split; [done|]. rewrite app_nil_r, Hf by done. by rewrite lookup_leaf, decide_True.
      * destruct Hw as (Hlt & _). destruct Hd as (c0 & c1 & -> & H0' & H1'). destruct Hv as [Hv0 Hv1].
        destruct (n - length l)%nat as [|m] eqn:Em; [lia|]. replace (S m - 1)%nat with m in * by lia.
        split; [by apply Hfk|]. exists c0, c1, (label t0), (label t1), (t_lookup t0), (t_lookup t1).
        split_and!; [done|by exists t0|by exists t1|]. intros k Hk. rewrite !Hf by (rewrite length_app; cbn; lia). by rewrite !lookup_fork.
Qed.

(** What is known of the parts of a node *)
Lemma tree_edge n l p r f : t_edge n l p r f -> (n <= N)%nat ->
  (N + len_bits N + 2 + length p <= max_bits)%nat /\ (length r <= max_refs)%nat /\ Forall valid0 r /\ depths_below max_depth r /\
  forall c, c = DataCell false (hm_label n l ++ p) r -> valid0 c -> tree_denotes n c l f.
Proof using HN LabelEnc0.
  intros [Hl Ho Hb] Hn. assert (E n l (hm_label n l)) as He by (apply enc_new; unfold max_key_bits, max_bits in *; lia).
  destruct (n - length l)%nat as [|m] eqn:Em; cbn [below] in Hb.
  - destruct Hb as [[V1 V2 V3 V4] Hf]. cbn [fst snd] in V1, V2, V3, V4. rewrite app_nil_r in Hf. split_and!; try done.
    + eapply list.Forall_impl; [exact V4|]. intros x Hx. cbv beta in Hx. lia.
    + intros c -> Hc. exists (Leaf l (p, r)). split_and!; [done| |done|].
      * split; [done|]. split; [lia|]. by exists (hm_label n l).
      * intros k Hk. rewrite lookup_leaf. destruct (decide (k = l)) as [->|Hne]; [done|]. apply Ho; [done|]. intros [z ->]. apply Hne.
        rewrite length_app in Hk. destruct z; [by rewrite app_nil_r|cbn in Hk; lia].
  - destruct Hb as (-> & c0 & c1 & ? & ? & f0 & f1 & -> & (t0 & -> & R0 & V0 & E0) & (t1 & -> & R1 & V1 & E1) & Hf).
    pose proof (repr_depth _ _ _ _ _ R0 V0). pose proof (repr_depth _ _ _ _ _ R1 V1). unfold max_bits in HN.
    pose proof (len_bits_small N ltac:(lia)). split_and!.
    + cbn. unfold max_bits. lia.
    + cbn. unfold max_refs. lia.
    + repeat constructor; by eapply repr_valid.
    + unfold depths_below. split_Forall; unfold max_depth in *; lia.
    + intros c -> Hc. rewrite app_nil_r in *. exists (Fork l t0 t1). split_and!; [done| |done|].
      * split; [done|]. split; [lia|]. exists (hm_label n l), c0, c1. rewrite Em. by replace (S m - 1)%nat with m by lia.
      * intros k Hk. destruct (at_node n l k Hk ltac:(lia)) as [Hp|(b & k' & -> & Hk')].
        -- rewrite Ho by done. symmetry. by apply lookup_not_prefix.
        -- rewrite Em in Hk'. destruct (Hf k' ltac:(lia)) as [G0 G1]. rewrite lookup_fork. destruct b; [rewrite G1; apply E1|rewrite G0; apply E0]; lia.
Qed.

Lemma tree_denotation : Denotation io_inv io_exc N (value_ok N) tree_denotes.
Proof using HN LabelEnc0.
  assert (forall n l p r f (s : St), t_edge n l p r f -> (n <= N)%nat -> io_inv s ->
    wp (finalize_builder (mkBuilder (hm_label n l ++ p) r)) (fun c s' => tree_denotes n c l f /\ io_inv s') io_exc s) as Hfin.
  { intros n l p r f s He Hn Hs. destruct (tree_edge _ _ _ _ _ He Hn) as (Hb & Hr & Hv & Hd & Hk). pose proof (ed_length _ _ _ _ _ _ _ He) as Hl.
    pose proof (hm_label_length n l Hl) as Hlen. pose proof (len_bits_mono _ _ Hn).
    eapply wp_mono; [apply wp_finalize| |done]; try done; [rewrite length_app; lia|]. intros c s' (-> & Hc & Hs'). split; [by apply Hk|done]. }
  split.
  - intros n c l f HK Hn s Hs. by apply tree_open.
  - intros n l p r f cs He Hn Hcs s Hs. destruct (tree_edge _ _ _ _ _ He Hn) as (Hb & Hr & _). pose proof (ed_length _ _ _ _ _ _ _ He) as Hl.
    pose proof (hm_label_length n l Hl) as Hlen. pose proof (len_bits_mono _ _ Hn).
    wp_step. unfold store_or_ov. rewrite (append_stores _ _ _ Hcs) by (cbn [fst snd length]; lia). wp_step. by apply Hfin.
  - intros n l p r f He Hn s Hs. by apply Hfin.
Qed.

(** The function of the code computes [g] on the values, where [None] is [CombineError]. *)
Definition combines_values (combine_func : combine_func_t) (g : value -> value -> option (option value)) : Prop :=
  forall n l cs1 cs2 v1 v2 key, length l = n -> (n <= N)%nat -> slice_is cs1 (fst v1) (snd v1) -> slice_is cs2 (fst v2) (snd v2) ->
  value_ok N v1 -> value_ok N v2 ->
  match combine_func (mkBuilder (hm_label n l) []) cs1 cs2 key with
  | None => g v1 v2 = None
  | Some None => g v1 v2 = Some None
  | Some (Some cb) => exists v, cb = mkBuilder (hm_label n l ++ fst v) (snd v) /\ value_ok N v /\ g v1 v2 = Some (Some v)
  end.
(** The entry of the combination, and keys for which there is none *)
Definition entry (g : value -> value -> option (option value)) (x y : option value) : option value :=
  match x, y with
  | Some v1, Some v2 => mjoin (g v1 v2)
  | Some _, None => x
  | None, _ => y
  end.
Definition clash (mode : Z) (g : value -> value -> option (option value)) (m1 m2 : gmap (list bool) value) : Prop :=
  exists k, conflict mode (fun v1 v2 => g v1 v2 = None) (m1 !! k) (m2 !! k).

Lemma is_dict_denotes m o : is_dict E N m o -> Kopt tree_denotes N o (fun k => m !! k).
Proof.
  destruct o as [c|]; cbn [is_dict Kopt].
  - intros (t & Hr & Hv & Hm). exists (label t), t. by split_and!.
  - intros -> k _. apply lookup_empty.
Qed.
Lemma denotes_is_dict m o f : Kopt tree_denotes N o f -> (forall k, length k = N -> f k = m !! k) ->
  (forall k v, m !! k = Some v -> length k = N) -> is_dict E N m o.
Proof.
  intros Hf Hm Hlen. destruct o as [c|]; cbn [is_dict Kopt] in *.
  - destruct Hf as (l & t & -> & Hr & Hv & Hf). exists t. split_and!; try done. intros k.
    destruct (decide (length k = N)) as [Hk|Hk]; [by rewrite <- Hm, Hf|].
    destruct (m !! k) eqn:E1; [by apply Hlen in E1|]. destruct (t_lookup t k) eqn:E2; [|done].
    exfalso. apply Hk. eapply lookup_length; [by eapply repr_wf|done].
  - apply map_eq. intros k. rewrite lookup_empty. destruct (m !! k) eqn:E1; [|done]. pose proof (Hlen _ _ E1). by rewrite <- Hm, Hf in E1.
Qed.
Lemma is_dict_length m o k v : is_dict E N m o -> m !! k = Some v -> length k = N.
Proof.
  destruct o as [c|]; cbn; [|intros ->; by rewrite lookup_empty].
  intros (t & Hr & _ & Hm) Hk. rewrite Hm in Hk. eapply lookup_length; [by eapply repr_wf|done].
Qed.
Lemma trees_alive : alive tree_denotes.
Proof.
  intros n c l f (t & _ & Hr & _ & Hf). destruct (has_key t) as (k & v & Hk). pose proof (lookup_length _ _ _ _ (repr_wf _ _ _ _ Hr) Hk).
  exists k, v. by rewrite Hf.
Qed.

Lemma wp_obj_combine combine_func mode g m1 m2 d1 d2 (s : St) :
  dict_obj E N m1 d1 -> dict_obj E N m2 d2 -> combines_values combine_func g -> io_inv s ->
  wp (combine_with combine_func mode d1 d2)
     (fun r s' => (if fst r then ~ clash mode g m1 m2 else clash mode g m1 m2) /\
        obj_ok E N (if fst r then merge (entry g) m1 m2 else m1) (snd r) /\ io_inv s') io_exc s.
Proof using HN LabelEnc0.
  intros Hd1 Hd2 Hg Hi. unfold combine_with. eapply wp_force_validate; [done|]. intros d1' H1'. eapply wp_force_validate; [done|]. intros d2' H2'.
  rewrite (oo_bits _ _ _ _ H1'), (oo_bits _ _ _ _ H2'), Z.eqb_refl, Nat2Z.id. wp_step. wp_step; [|done]. wp_step.
  pose proof (oo_dict _ _ _ _ H1') as D1. pose proof (oo_dict _ _ _ _ H2') as D2.
  eapply wp_mono; [eapply (ok_dict_combine io_inv io_exc N HN (value_ok N) tree_denotes tree_denotation combine_func mode
    (fun v1 v2 z => g v1 v2 = Some z) (fun v1 v2 => g v1 v2 = None)) with (p1 := []) (p2 := []) (f1 := fun k => m1 !! k) (f2 := fun k => m2 !! k)| |done].
  - intros n l cs1 cs2 p1 r1 p2 r2 key Hl Hn Hs1 Hs2 V1 V2. pose proof (Hg n l cs1 cs2 (p1, r1) (p2, r2) key Hl Hn Hs1 Hs2 V1 V2) as Hc.
    destruct (combine_func _ _ _ _) as [[cb|]|]; try done. destruct Hc as ([p r] & -> & Hv & Hc). by exists p, r.
  - lia.
  - cbn; lia.
  - cbn; lia.
  - by apply suffix_nil.
  - by apply suffix_nil.
  - apply Kpre_nil. by apply is_dict_denotes.
  - apply Kpre_nil. by apply is_dict_denotes.
  - done.
  - done.
  - done.
  - intros o s' [Hres Hi']. wp_step. cbn [app] in Hres. destruct o as [o|]; cbn [fst snd result] in *.
    + destruct Hres as (f & Hf & Hc). assert (forall k, length k = N -> f k = entry g (m1 !! k) (m2 !! k)) as He.
      { intros k Hk. specialize (Hc k Hk). unfold combined, entry in *. destruct (m1 !! k), (m2 !! k); try done; [by rewrite Hc|by destruct Hc..]. }
      split_and!; [|eapply obj_ok_set_root; [exact H1'|]|done].
      * intros [k Hk]. assert (length k = N) as Hlk.
        { unfold conflict in Hk. destruct (m1 !! k) eqn:E1; [by eapply is_dict_length; [exact D1|]|]. destruct (m2 !! k) eqn:E2; [|done].
          by eapply is_dict_length; [exact D2|]. }
        specialize (Hc k Hlk). unfold conflict, combined in *. destruct (m1 !! k), (m2 !! k); [congruence|destruct Hc; congruence..|done].
      * eapply denotes_is_dict; [exact Hf| |].
        -- intros k Hk. rewrite (He k Hk), lookup_merge. unfold diag_None. by destruct (m1 !! k), (m2 !! k).
        -- intros k v. rewrite lookup_merge. unfold diag_None. destruct (m1 !! k) eqn:E1; [intros _; by eapply is_dict_length; [exact D1|]|].
           destruct (m2 !! k) eqn:E2; [intros _; by eapply is_dict_length; [exact D2|]|done].
    + destruct (Hres trees_alive) as (k & _ & Hk). split_and!; [by exists k|done|done].
Qed.
End trees.

Section refines.
Context `{Sha256} (E : nat -> list bool -> list bool -> Prop) `{!LabelEnc E}.

Lemma combine_total (N : nat) (m1 m2 : gmap (list bool) value) d1 d2 combine_func mode g :
  (N + 12 <= max_bits)%nat -> dict_obj E N m1 d1 -> dict_obj E N m2 d2 -> combines_values N combine_func g ->
  exists ok d', combine_with combine_func mode d1 d2 tt = Ret (ok, d') tt /\ (ok = false <-> clash mode g m1 m2) /\
    obj_ok E N (if ok then merge (entry g) m1 m2 else m1) d'.
Proof.
  intros HN Hd1 Hd2 Hg. destruct (wp_total _ _ (wp_obj_combine E N HN combine_func mode g m1 m2 d1 d2 tt Hd1 Hd2 Hg no_vm_inv))
    as ([ok d'] & Hr & Hc & Ho & _). exists ok, d'. split_and!; [done| |done]. by destruct ok.
Qed.

(** C29: [combine_with] is the combination of two finite maps: a key of one dictionary keeps its value, the
    values of a key of both are combined by the given function, which may also drop the key. It
    fails, leaving the dictionary as it was, exactly when the function fails on the values of some key, or
    a key of one dictionary is missing in the other and the mode forbids that. *)
Theorem dict_combine_refines (N : nat) (m1 m2 : gmap (list bool) value) d1 d2 combine_func mode g :
  (N + 12 <= max_bits)%nat -> dict_obj E N m1 d1 -> dict_obj E N m2 d2 -> combines_values N combine_func g ->
  exists ok d', combine_with combine_func mode d1 d2 tt = Ret (ok, d') tt /\ (ok = false <-> clash mode g m1 m2) /\
    dict_obj E N (if ok then merge (entry g) m1 m2 else m1) d'.
Proof.
  intros HN Hd1 Hd2 Hg. destruct (combine_total N m1 m2 d1 d2 combine_func mode g HN Hd1 Hd2 Hg) as (ok & d' & Hr & Hc & Ho).
  exists ok, d'. split_and!; [done..|]. by apply obj_ok_dict_obj.
Qed.
End refines.

(** Two dictionaries in which a value of the first wins *)
Definition first_value : combine_func_t := fun cb cs1 _ _ => Some <$> append_cellslice_bool cs1 cb.
Lemma first_combines `{Sha256} N : combines_values N first_value (fun v1 _ => Some (Some v1)).
Proof.
  intros n l cs1 cs2 v1 v2 key Hl Hn Hs1 Hs2 Hv1 Hv2. unfold first_value. pose proof (hm_label_length n l ltac:(lia)) as Hlen.
  pose proof (len_bits_mono _ _ Hn). destruct Hv1 as [B1 B2 B3 B4] eqn:Hv1'. rewrite (append_stores _ _ _ Hs1) by (cbn [fst snd length]; lia).
  by exists v1.
Qed.
Lemma dict_combine_refines_witness :
  exists d', combine_with (H := toy_sha) first_value 0 ex_dict ex_dict tt = Ret (true, d') tt.
Proof.
  destruct (dict_combine_refines (H := toy_sha) canonical 2 ex_map ex_map ex_dict ex_dict first_value 0 (fun v1 _ => Some (Some v1)))
    as (ok & d' & Hr & Hc & _).
  - unfold max_bits. lia.
  - exact ex_dict_obj.
  - exact ex_dict_obj.
  - apply first_combines.
  - exists d'. destruct ok; [exact Hr|]. exfalso. destruct (proj1 Hc eq_refl) as [k Hk]. unfold conflict in Hk. by destruct (ex_map !! k).
Defined.

(** ** Arbitrary cells *)

Section cells.
Context `{Sha256}.
Notation any_inv := (fun _ : unit => True).
Notation any_exc := (fun (_ : exc) (_ : unit) => True).

(** What a lookup finds; a cell that cannot be read has no keys. *)
Definition found (c : Cell) (key : list bool) (n : nat) : option value :=
  match dict_lookup_loop (S n) c key n chk_all tt with
  | Ret (Some cs) _ => Some (slice_bits cs, slice_refs cs)
  | _ => None
  end.
Definition root_label (n : nat) (c : Cell) : list bool :=
  match parse_label (slice_of_cell c) n with Some lp => fst (extract_label lp) | None => [] end.
Definition cell_denotes (n : nat) (c : Cell) (l : list bool) (f : keyfun) : Prop :=
  l = root_label n c /\ forall k, length k = n -> f k = found c k n.
Notation c_edge := (edge (fun _ => True) cell_denotes).

Lemma parse_label_same cs n lp : parse_label cs n = Some lp -> l_same lp <> 0 -> s_bits lp = 0%nat.
Proof. unfold parse_label. repeat case_match; intros [= <-]; cbn; congruence. Qed.
Lemma parse_label_at cs n lp : slice_ok cs -> parse_label cs n = Some lp ->
  exists p r, label_at lp (fst (extract_label lp)) p r.
Proof.
  intros Hcs E. pose proof (parse_label_ok cs n lp Hcs E) as Hlp. destruct (extract_label_ok lp n Hlp) as (Hl & _).
  destruct Hlp as [_ Hr Hs]. assert (slice_is (remainder lp) (slice_bits (remainder lp)) (slice_refs (remainder lp))) as Hsl by done.
  unfold extract_label in *. destruct (Z.eqb_spec (l_same lp) 0) as [E0|E0]; cbn [fst] in *.
  - destruct (Hs E0) as [Hsb Hlen]. exists (drop (l_bits lp) (slice_bits (remainder lp))), (slice_refs (remainder lp)).
    split; [done|]. left. split_and!; [done|by rewrite Hl|]. by rewrite take_drop.
  - exists (slice_bits (remainder lp)), (slice_refs (remainder lp)). split; [done|]. right.
    split_and!; [done|by eapply parse_label_same|by rewrite length_replicate|done].
Qed.

Lemma read_label_inv c n : match read_label c n chk_all tt with
  | Ret lp _ => exists p r, label_at lp (root_label n c) p r /\ (length (root_label n c) <= n)%nat /\
      ((length (root_label n c) < n)%nat -> p = [] /\ length r = 2%nat)
  | Exn _ _ => True
  | Undef => False
  end.
Proof.
  unfold read_label, root_label. cbn [load_cell_slice_ref no_vm]. unfold no_vm_load, bind.
  destruct (cell_special c); [done|]. unfold ret; cbv beta iota. destruct (parse_label _ n) as [lp|] eqn:E; [|done].
  destruct (parse_label_at _ n lp (is_ok _ _ _ (slice_of_cell_is c)) E) as (p & r & Hlp). unfold validate_label, bind, unless_throw.
  destruct (Nat.leb_spec (l_bits lp) n) as [Hl|]; [|done]. unfold ret. cbv beta iota. destruct (_ || _) eqn:Ef; [|done].
  pose proof (at_bits _ _ _ _ Hlp) as Hb. exists p, r. split_and!; [done|by rewrite <- Hb|]. rewrite <- Hb. intros Hlt. rewrite (proj2 (Nat.ltb_lt _ _) Hlt) in Ef. cbn in Ef.
  apply andb_true_iff in Ef as [E1%Nat.eqb_eq E2%Nat.eqb_eq].
  destruct (at_rest _ _ _ _ Hlp) as [(_ & Hs & Hsl)|(_ & Hs & _ & Hsl)]; destruct (slice_is_size _ _ _ Hsl) as [S1 S2]; rewrite Hs, S1 in E1; rewrite S2 in E2.
  - rewrite length_app in E1. destruct p; [done|cbn in E1; lia].
  - by destruct p.
Qed.

Lemma lookup_fuel fuel fuel' n c key : (n < fuel)%nat -> (n < fuel')%nat ->
  dict_lookup_loop fuel c key n chk_all tt = dict_lookup_loop fuel' c key n chk_all tt.
Proof.
  revert fuel' n c key. induction fuel as [|fuel IH]; intros fuel' n c key H1 H2; [lia|]. destruct fuel' as [|fuel']; [lia|].
  cbn [dict_lookup_loop]. unfold bind. destruct (read_label c n chk_all tt) as [lp []| |]; [|done..].
  destruct (negb _); [done|]. destruct (_ =? 0)%nat eqn:E; [done|]. apply Nat.eqb_neq in E.
  unfold key_bit, of_option. destruct (key !! l_bits lp) as [b|]; [|done]. cbn. destruct (prefetch_ref _ _) as [c'|]; [|done]. cbn. apply IH; lia.
Qed.

Section node.
Context (c : Cell) (n : nat) (lp : LabelParser) (l p : list bool) (r : list Cell).
Hypothesis read : read_label c n chk_all tt = Ret lp tt.
Hypothesis Hlp : label_at lp l p r.
Hypothesis Hl : (length l <= n)%nat.

Lemma found_out k : length k = n -> ~ (l `prefix_of` k) -> found c k n = None.
Proof using All.
  intros Hk Hp. unfold found. cbn [dict_lookup_loop]. unfold bind. rewrite read, (is_prefix_of_at _ _ _ _ Hlp) by done.
  destruct (Nat.eqb_spec (same_upto l k) (length l)) as [E|E]; [|done]. exfalso. apply Hp.
  apply same_upto_full in E; [|lia]. rewrite <- E. exists (drop (length l) k). by rewrite take_drop.
Qed.
Lemma found_leaf : length l = n -> found c l n = Some (p, r).
Proof using All.
  intros Hn. unfold found. cbn [dict_lookup_loop]. unfold bind. rewrite read, (is_prefix_of_at _ _ _ _ Hlp) by done.
  pose proof (same_upto_all l []) as Hs. rewrite app_nil_r in Hs. rewrite Hs, Nat.eqb_refl, (at_bits _ _ _ _ Hlp), Hn, Nat.sub_diag. cbn.
  destruct (skip_label_at _ _ _ _ Hlp) as [-> -> _]. done.
Qed.
Lemma found_fork c0 c1 (b : bool) k : (length l < n)%nat -> r = [c0; c1] -> length k = (n - length l - 1)%nat ->
  found c (l ++ b :: k) n = found (if b then c1 else c0) k (n - length l - 1).
Proof using All.
  intros Hlt -> Hk. assert (length (l ++ b :: k) = n) as Hlen by (rewrite length_app; cbn; lia).
  unfold found. rewrite (lookup_fuel (S (n - length l - 1)) n) by lia. destruct n as [|n'] eqn:En; [lia|]. rewrite <- En in *.
  assert (dict_lookup_loop (S n) c (l ++ b :: k) n chk_all tt = dict_lookup_loop n (if b then c1 else c0) k (n - length l - 1) chk_all tt) as ->; [|done].
  cbn [dict_lookup_loop]. unfold bind at 1. rewrite read, (is_prefix_of_at _ _ _ _ Hlp) by done.
  rewrite same_upto_all, Nat.eqb_refl, (at_bits _ _ _ _ Hlp). cbn [negb]. rewrite (proj2 (Nat.eqb_neq _ _)) by lia.
  unfold bind, key_bit. rewrite key_bit_at. unfold of_option, ret; cbv beta iota. rewrite (label_ref _ _ _ _ _ Hlp). rewrite drop_bit. by destruct b.
Qed.
End node.

Lemma cell_open n c l f : cell_denotes n c l f ->
  safe any_inv any_exc (read_label c n chk_all) (fun lp => exists p r, label_at lp l p r /\ c_edge n l p r f).
Proof.
  intros [-> Hf] [] _. unfold wp. pose proof (read_label_inv c n) as Hinv. destruct (read_label c n chk_all tt) as [lp []| |] eqn:E; [|done..].
  destruct Hinv as (p & r & Hlp & Hl & Hfk). split; [|done]. exists p, r. split; [done|]. set (l := root_label n c) in *. split; [done| |].
  - intros k Hk Hp. rewrite Hf by done. by eapply found_out.
  - destruct (n - length l)%nat as [|m] eqn:Em.
    + split; [done|]. rewrite app_nil_r, Hf by lia. eapply found_leaf; (done || lia).
    + destruct Hfk as [-> Hr]; [lia|]. destruct r as [|c0 [|c1 [|]]]; try done. split; [done|].
      exists c0, c1, (root_label m c0), (root_label m c1), (fun k => found c0 k m), (fun k => found c1 k m). split_and!; try done.
      intros k Hk. rewrite !Hf by (rewrite length_app; cbn; lia). replace m with (n - length l - 1)%nat in * by lia.
      split; [by rewrite (found_fork c n lp l [] _ E Hlp Hl c0 c1 false k) by (done || lia)|by rewrite (found_fork c n lp l [] _ E Hlp Hl c0 c1 true k) by (done || lia)].
Qed.

Lemma cell_new n l p r f : c_edge n l p r f -> (n <= max_key_bits)%nat -> cell_denotes n (DataCell false (hm_label n l ++ p) r) l f.
Proof.
  intros He Hn. set (c := DataCell false _ r). destruct He as [Hl Ho Hb].
  assert (exists lp, read_label c n chk_all tt = Ret lp tt /\ label_at lp l p r) as (lp & E & Hlp).
  { destruct (wp_total _ _ (wp_read_label n chk_all l (hm_label n l) p r tt (hm_label_encodes n l ltac:(unfold max_key_bits in *; lia)) Hl
      ltac:(intros Hlt; destruct (n - length l)%nat as [|m] eqn:Em; [lia|]; destruct Hb as (-> & c0 & c1 & ? & ? & ? & ? & -> & _); done) no_vm_inv)) as (lp & E & Hlp & _).
    by exists lp. }
  pose proof (read_label_inv c n) as Hinv. rewrite E in Hinv. destruct Hinv as (p' & r' & Hlp' & _).
  assert (l = root_label n c) as Hlab.
  { destruct (extract_label_at _ _ _ _ Hlp) as (? & E1 & _). destruct (extract_label_at _ _ _ _ Hlp') as (? & E2 & _). congruence. }
  split; [done|]. intros k Hk. destruct (decide (l `prefix_of` k)) as [[z ->]|Hp].
  2: { rewrite Ho by done. symmetry. by apply (found_out c n lp l p r E Hlp Hl k). }
  rewrite length_app in Hk. destruct (n - length l)%nat as [|m] eqn:Em.
  - destruct z; [|cbn in Hk; lia]. destruct Hb as [_ Hf]. rewrite Hf, app_nil_r. symmetry. apply (found_leaf c n lp l p r E Hlp Hl); lia.
  - destruct z as [|b k]; [cbn in Hk; lia|]. destruct Hb as (-> & c0 & c1 & ? & ? & f0 & f1 & Hr & [_ H0] & [_ H1] & Hf). cbn in Hk.
    replace m with (n - length l - 1)%nat in * by lia. destruct (Hf k ltac:(lia)) as [G0 G1].
    rewrite (found_fork c n lp l [] r E Hlp Hl c0 c1 b k) by (done || lia). destruct b; [rewrite G1; apply H1|rewrite G0; apply H0]; lia.
Qed.

Lemma cell_denotation N : (N <= max_key_bits)%nat -> Denotation any_inv any_exc N (fun _ => True) cell_denotes.
Proof.
  intros HN. assert (forall n l p r f cb, c_edge n l p r f -> (n <= N)%nat -> cb = mkBuilder (hm_label n l ++ p) r ->
    safe any_inv any_exc (finalize_builder cb) (fun c => cell_denotes n c l f)) as Hfin.
  { intros n l p r f cb He Hn -> [] _. unfold finalize_builder, wp, bind. cbn. unfold create.
    destruct (cell_info _); [|done]. cbn. split; [|done]. apply cell_new; [done|lia]. }
  split.
  - intros n c l f HK _. by apply cell_open.
  - intros n l p r f cs He Hn Hcs. eapply (safe_bind _ _ _ _ (fun cb => cb = mkBuilder (hm_label n l ++ p) r)).
    + unfold store_or_ov, append_cellslice_bool. destruct (can_extend_by _ _ _); [|by intros [] _]. apply safe_ret. cbn.
      by rewrite (is_bits _ _ _ Hcs), (is_refs _ _ _ Hcs).
    + intros cb Hcb. by eapply Hfin.
  - intros n l p r f He Hn. by eapply Hfin.
Qed.
End cells.
