(* ===== verification/VmTypes.v ===== *)
(** * Data of the virtual machine (crypto/vm/stack.hpp, continuation.h, vm.h)

    Stack entries, continuations with their saved control registers, gas limits
    and the state of the machine.  Nullable [Ref<T>]s are [option]s; a reference
    that the code never leaves null is the object itself.  Objects behind a [Ref]
    are copied on write in the code ([Ref::write]), so they are values here. *)
From S2P Require Import Prelude Int256 Cells.

(** ** Stack entries and continuations *)

Inductive StackEntry : Type :=
| t_null
| t_int (x : int256)
| t_cell (c : Cell)
| t_builder (b : CellBuilder)
| t_slice (s : CellSlice)
| t_vmcont (k : Continuation)
| t_tuple (t : list StackEntry)
| t_stack (t : list StackEntry)
| t_string (s : list Z)
| t_bytes (s : list Z)
| t_bitstring (b : list bool)
| t_box (addr : nat)
| t_atom (idx : Z)
| t_object (id : nat)

with Continuation : Type :=
| QuitCont (exit_code : Z)
| ExcQuitCont
| PushIntCont (push_val : Z) (next : Continuation)
| RepeatCont (body after : Continuation) (count : Z)
| AgainCont (body : Continuation)
| UntilCont (body after : Continuation)
| WhileCont (cond body after : Continuation) (chkcond : bool)
| ArgContExt (data : ControlData) (ext : Continuation)
| OrdCont (data : ControlData) (code : option CellSlice)

with ControlRegs : Type :=
| mkRegs (c0 c1 c2 c3 : option Continuation) (d0 d1 : option Cell)
         (c7 : option (list StackEntry))

with ControlData : Type :=
| mkCData (stack : option (list StackEntry)) (save : ControlRegs) (nargs cp : Z).

(** The stack, top entry first (the C++ vector has it last). *)
Notation Stack := (list StackEntry).
Notation Tuple := (list StackEntry).

Definition regs_c0 (r : ControlRegs) := let 'mkRegs c0 _ _ _ _ _ _ := r in c0.
Definition regs_c1 (r : ControlRegs) := let 'mkRegs _ c1 _ _ _ _ _ := r in c1.
Definition regs_c2 (r : ControlRegs) := let 'mkRegs _ _ c2 _ _ _ _ := r in c2.
Definition regs_c3 (r : ControlRegs) := let 'mkRegs _ _ _ c3 _ _ _ := r in c3.
Definition regs_d0 (r : ControlRegs) := let 'mkRegs _ _ _ _ d0 _ _ := r in d0.
Definition regs_d1 (r : ControlRegs) := let 'mkRegs _ _ _ _ _ d1 _ := r in d1.
Definition regs_c7 (r : ControlRegs) := let 'mkRegs _ _ _ _ _ _ c7 := r in c7.

Definition empty_regs : ControlRegs := mkRegs None None None None None None None.

Definition cdata_stack (d : ControlData) := let 'mkCData s _ _ _ := d in s.
Definition cdata_save (d : ControlData) := let 'mkCData _ s _ _ := d in s.
Definition cdata_nargs (d : ControlData) := let 'mkCData _ _ n _ := d in n.
Definition cdata_cp (d : ControlData) := let 'mkCData _ _ _ c := d in c.

(** [Continuation::get_cdata]: only [ArgContExt] and [OrdCont] have control data. *)
Definition get_cdata (k : Continuation) : option ControlData :=
  match k with
  | ArgContExt data _ => Some data
  | OrdCont data _ => Some data
  | _ => None
  end.

(** ** Gas *)

Record GasLimits : Type := mkGas {
  gas_max : Z; gas_limit : Z; gas_credit : Z; gas_remaining : Z; gas_base : Z
}.

Definition gas_infty : Z := 2 ^ 63 - 1.

(** [GasLimits(limit, max, credit)]. *)
Definition new_gas (limit max credit : Z) : GasLimits :=
  mkGas max limit credit (limit + credit) (limit + credit).

Definition gas_consumed (g : GasLimits) : Z := gas_base g - gas_remaining g.
Definition final_ok (g : GasLimits) : bool := gas_credit g <=? gas_remaining g.

Record CommittedState : Type := mkCommitted {
  com_c4 : option Cell; com_c5 : option Cell; committed : bool
}.

(** ** The machine

    The fields of [VmState] that the modelled code reads or writes; the log, the
    debugging switches and the dispatch table (a function of [cp]) are left out.
    Sets of hashes are lists.  [parent] is the machine that runs this one as a
    child ([RUNVM]). *)
Inductive VmState : Type := mkVm {
  code : option CellSlice;
  stack : Stack;
  cr : ControlRegs;
  cstate : CommittedState;
  cp : Z;
  steps : Z;
  gas : GasLimits;
  libraries : list Cell;
  loaded_libraries : list (list bool);
  max_library_loads : option Z;
  loaded_cells : list (list bool);
  chksig_always_succeed : bool;
  stop_on_accept_message : bool;
  missing_library : option (list bool);
  max_data_depth : Z;
  global_version : Z;
  chksgn_counter : Z;
  get_extra_balance_counter : Z;
  free_gas_consumed : Z;
  parent : option ParentVmState
}
with ParentVmState : Type := mkParent {
  p_state : VmState;
  return_data : bool;
  return_actions : bool;
  return_gas : bool;
  isolate_gas : bool;
  ret_vals : Z
}.

Definition set_stack (v : Stack) (s : VmState) : VmState :=
  mkVm (code s) v (cr s) (cstate s) (cp s) (steps s) (gas s) (libraries s) (loaded_libraries s)
    (max_library_loads s) (loaded_cells s) (chksig_always_succeed s) (stop_on_accept_message s) (missing_library s)
    (max_data_depth s) (global_version s) (chksgn_counter s) (get_extra_balance_counter s)
    (free_gas_consumed s) (parent s).
Definition set_gas (v : GasLimits) (s : VmState) : VmState :=
  mkVm (code s) (stack s) (cr s) (cstate s) (cp s) (steps s) v (libraries s) (loaded_libraries
    s) (max_library_loads s) (loaded_cells s) (chksig_always_succeed s) (stop_on_accept_message s) (missing_library s)
    (max_data_depth s) (global_version s) (chksgn_counter s) (get_extra_balance_counter s)
    (free_gas_consumed s) (parent s).
Definition set_code_field (v : option CellSlice) (s : VmState) : VmState :=
  mkVm v (stack s) (cr s) (cstate s) (cp s) (steps s) (gas s) (libraries s) (loaded_libraries s)
    (max_library_loads s) (loaded_cells s) (chksig_always_succeed s) (stop_on_accept_message s) (missing_library s)
    (max_data_depth s) (global_version s) (chksgn_counter s) (get_extra_balance_counter s)
    (free_gas_consumed s) (parent s).
Definition set_cr (v : ControlRegs) (s : VmState) : VmState :=
  mkVm (code s) (stack s) v (cstate s) (cp s) (steps s) (gas s) (libraries s) (loaded_libraries
    s) (max_library_loads s) (loaded_cells s) (chksig_always_succeed s) (stop_on_accept_message s) (missing_library s)
    (max_data_depth s) (global_version s) (chksgn_counter s) (get_extra_balance_counter s)
    (free_gas_consumed s) (parent s).
Definition set_cstate (v : CommittedState) (s : VmState) : VmState :=
  mkVm (code s) (stack s) (cr s) v (cp s) (steps s) (gas s) (libraries s) (loaded_libraries s)
    (max_library_loads s) (loaded_cells s) (chksig_always_succeed s) (stop_on_accept_message s) (missing_library s)
    (max_data_depth s) (global_version s) (chksgn_counter s) (get_extra_balance_counter s)
    (free_gas_consumed s) (parent s).
Definition set_cp_field (v : Z) (s : VmState) : VmState :=
  mkVm (code s) (stack s) (cr s) (cstate s) v (steps s) (gas s) (libraries s) (loaded_libraries
    s) (max_library_loads s) (loaded_cells s) (chksig_always_succeed s) (stop_on_accept_message s) (missing_library s)
    (max_data_depth s) (global_version s) (chksgn_counter s) (get_extra_balance_counter s)
    (free_gas_consumed s) (parent s).
Definition set_steps (v : Z) (s : VmState) : VmState :=
  mkVm (code s) (stack s) (cr s) (cstate s) (cp s) v (gas s) (libraries s) (loaded_libraries s)
    (max_library_loads s) (loaded_cells s) (chksig_always_succeed s) (stop_on_accept_message s) (missing_library s)
    (max_data_depth s) (global_version s) (chksgn_counter s) (get_extra_balance_counter s)
    (free_gas_consumed s) (parent s).
Definition set_libraries (v : list Cell) (s : VmState) : VmState :=
  mkVm (code s) (stack s) (cr s) (cstate s) (cp s) (steps s) (gas s) v (loaded_libraries s)
    (max_library_loads s) (loaded_cells s) (chksig_always_succeed s) (stop_on_accept_message s) (missing_library s)
    (max_data_depth s) (global_version s) (chksgn_counter s) (get_extra_balance_counter s)
    (free_gas_consumed s) (parent s).
Definition set_loaded_libraries (v : list (list bool)) (s : VmState) : VmState :=
  mkVm (code s) (stack s) (cr s) (cstate s) (cp s) (steps s) (gas s) (libraries s) v
    (max_library_loads s) (loaded_cells s) (chksig_always_succeed s) (stop_on_accept_message s) (missing_library s)
    (max_data_depth s) (global_version s) (chksgn_counter s) (get_extra_balance_counter s)
    (free_gas_consumed s) (parent s).
Definition set_max_library_loads (v : option Z) (s : VmState) : VmState :=
  mkVm (code s) (stack s) (cr s) (cstate s) (cp s) (steps s) (gas s) (libraries s)
    (loaded_libraries s) v (loaded_cells s) (chksig_always_succeed s) (stop_on_accept_message s) (missing_library s)
    (max_data_depth s) (global_version s) (chksgn_counter s) (get_extra_balance_counter s)
    (free_gas_consumed s) (parent s).
Definition set_loaded_cells (v : list (list bool)) (s : VmState) : VmState :=
  mkVm (code s) (stack s) (cr s) (cstate s) (cp s) (steps s) (gas s) (libraries s)
    (loaded_libraries s) (max_library_loads s) v (chksig_always_succeed s) (stop_on_accept_message s) (missing_library s)
    (max_data_depth s) (global_version s) (chksgn_counter s) (get_extra_balance_counter s)
    (free_gas_consumed s) (parent s).
Definition set_chksig (v : bool) (s : VmState) : VmState :=
  mkVm (code s) (stack s) (cr s) (cstate s) (cp s) (steps s) (gas s) (libraries s)
    (loaded_libraries s) (max_library_loads s) (loaded_cells s) v (stop_on_accept_message s) (missing_library s)
    (max_data_depth s) (global_version s) (chksgn_counter s) (get_extra_balance_counter s)
    (free_gas_consumed s) (parent s).
Definition set_stop_on_accept (v : bool) (s : VmState) : VmState :=
  mkVm (code s) (stack s) (cr s) (cstate s) (cp s) (steps s) (gas s) (libraries s)
    (loaded_libraries s) (max_library_loads s) (loaded_cells s) (chksig_always_succeed s) v
    (missing_library s) (max_data_depth s) (global_version s) (chksgn_counter s)
    (get_extra_balance_counter s) (free_gas_consumed s) (parent s).
Definition set_missing_library (v : option (list bool)) (s : VmState) : VmState :=
  mkVm (code s) (stack s) (cr s) (cstate s) (cp s) (steps s) (gas s) (libraries s)
    (loaded_libraries s) (max_library_loads s) (loaded_cells s) (chksig_always_succeed s) (stop_on_accept_message s) v
    (max_data_depth s) (global_version s) (chksgn_counter s) (get_extra_balance_counter s)
    (free_gas_consumed s) (parent s).
Definition set_max_data_depth (v : Z) (s : VmState) : VmState :=
  mkVm (code s) (stack s) (cr s) (cstate s) (cp s) (steps s) (gas s) (libraries s)
    (loaded_libraries s) (max_library_loads s) (loaded_cells s) (chksig_always_succeed s) (stop_on_accept_message s)
    (missing_library s) v (global_version s) (chksgn_counter s) (get_extra_balance_counter s)
    (free_gas_consumed s) (parent s).
Definition set_chksgn_counter (v : Z) (s : VmState) : VmState :=
  mkVm (code s) (stack s) (cr s) (cstate s) (cp s) (steps s) (gas s) (libraries s)
    (loaded_libraries s) (max_library_loads s) (loaded_cells s) (chksig_always_succeed s) (stop_on_accept_message s)
    (missing_library s) (max_data_depth s) (global_version s) v (get_extra_balance_counter s)
    (free_gas_consumed s) (parent s).
Definition set_extra_balance_counter (v : Z) (s : VmState) : VmState :=
  mkVm (code s) (stack s) (cr s) (cstate s) (cp s) (steps s) (gas s) (libraries s)
    (loaded_libraries s) (max_library_loads s) (loaded_cells s) (chksig_always_succeed s) (stop_on_accept_message s)
    (missing_library s) (max_data_depth s) (global_version s) (chksgn_counter s) v
    (free_gas_consumed s) (parent s).
Definition set_free_gas_consumed (v : Z) (s : VmState) : VmState :=
  mkVm (code s) (stack s) (cr s) (cstate s) (cp s) (steps s) (gas s) (libraries s)
    (loaded_libraries s) (max_library_loads s) (loaded_cells s) (chksig_always_succeed s) (stop_on_accept_message s)
    (missing_library s) (max_data_depth s) (global_version s) (chksgn_counter s)
    (get_extra_balance_counter s) v (parent s).
Definition set_parent (v : option ParentVmState) (s : VmState) : VmState :=
  mkVm (code s) (stack s) (cr s) (cstate s) (cp s) (steps s) (gas s) (libraries s)
    (loaded_libraries s) (max_library_loads s) (loaded_cells s) (chksig_always_succeed s) (stop_on_accept_message s)
    (missing_library s) (max_data_depth s) (global_version s) (chksgn_counter s)
    (get_extra_balance_counter s) (free_gas_consumed s) v.

(** Run stack code on the stack of the machine ([st->get_stack()]). *)
Definition on_stack {A} (m : M Stack A) : M VmState A := fun s =>
  match m (stack s) with
  | Ret a v => Ret a (set_stack v s)
  | Exn e v => Exn e (set_stack v s)
  | Undef => Undef
  end.

Lemma wp_on_stack {A} (m : M Stack A) (Q : A -> VmState -> Prop) (E : exc -> VmState -> Prop) s :
  wp m (fun a v => Q a (set_stack v s)) (fun e v => E e (set_stack v s)) (stack s) ->
  wp (on_stack m) Q E s.
Proof. unfold wp, on_stack. by destruct (m (stack s)). Qed.

Lemma stack_set_stack v s : stack (set_stack v s) = v.
Proof. done. Qed.
Lemma set_stack_id s : set_stack (stack s) s = s.
Proof. by destruct s. Qed.
Lemma set_stack_twice v w s : set_stack v (set_stack w s) = set_stack v s.
Proof. done. Qed.

(** ** Gas accounting (crypto/vm/vm.h, vm.cpp) *)

(** [gas_remaining -= amount] on [long long]; overflow is undefined. *)
Definition gas_consume (amount : Z) : M VmState unit := fun s =>
  let g := gas s in
  let r := gas_remaining g - amount in
  if fits_s 64 r then
    Ret tt (set_gas (mkGas (gas_max g) (gas_limit g) (gas_credit g) r (gas_base g)) s)
  else Undef.

(** [gas_exception(gas_remaining >= 0)] *)
Definition gas_check : M VmState unit :=
  r <- gets (fun s => gas_remaining (gas s)) ;;
  unless_throw (0 <=? r) VmNoGas.

(** [consume_chk] *)
Definition consume_gas_chk (amount : Z) : M VmState unit :=
  gas_consume amount ;; gas_check.

(** [VmState::consume_gas]: checked at once since version 4. *)
Definition consume_gas (amount : Z) : M VmState unit :=
  v <- gets global_version ;;
  if 4 <=? v then consume_gas_chk amount else gas_consume amount.

Definition tuple_entry_gas_price : Z := 1.
(** The arguments are converted to [unsigned]. *)
Definition consume_tuple_gas (len : Z) : M VmState unit :=
  consume_gas (wrap_u 32 len * tuple_entry_gas_price).
Definition free_stack_depth : Z := 32.
Definition stack_entry_gas_price : Z := 1.
Definition consume_stack_gas (depth : Z) : M VmState unit :=
  consume_gas ((Z.max (wrap_u 32 depth) free_stack_depth - free_stack_depth) *
               stack_entry_gas_price).

Definition set_remaining (r : Z) (g : GasLimits) : GasLimits :=
  mkGas (gas_max g) (gas_limit g) (gas_credit g) r (gas_base g).

(** The machine after [amount] units of gas are spent. *)
Definition spend (amount : Z) (s : VmState) : VmState :=
  set_gas (set_remaining (gas_remaining (gas s) - amount) (gas s)) s.

(** The gas counter is far from the ends of the [long long] range. *)
Definition gas_room (s : VmState) : Prop := - 2 ^ 62 <= gas_remaining (gas s) < 2 ^ 63.

Lemma wp_consume_gas amount (Q : unit -> VmState -> Prop) (E : exc -> VmState -> Prop) s :
  0 <= amount -> - 2 ^ 63 + amount <= gas_remaining (gas s) < 2 ^ 63 ->
  (amount <= gas_remaining (gas s) \/ global_version s < 4 -> Q tt (spend amount s)) ->
  (gas_remaining (gas s) < amount -> 4 <= global_version s -> E VmNoGas (spend amount s)) ->
  wp (consume_gas amount) Q E s.
Proof.
  intros Ha Hr HQ HE. unfold consume_gas. apply wp_bind, wp_gets.
  assert (forall Q', Q' tt (spend amount s) -> wp (gas_consume amount) Q' E s) as Hc.
  { intros Q' HQ'. unfold wp, gas_consume. rewrite (proj2 (fits_s_spec 64 _)); [done|simpl; lia]. }
  destruct (Z.leb_spec 4 (global_version s)); [|apply Hc, HQ; by right].
  unfold consume_gas_chk. apply wp_bind, Hc. unfold gas_check. apply wp_bind, wp_gets.
  apply wp_unless_throw; cbn.
  - rewrite Z.leb_le. intros. apply HQ. left. lia.
  - rewrite Z.leb_gt. intros. apply HE; lia.
Qed.
