(* ===== verification/Stack.v ===== *)
(** * The value stack: class [Stack] (crypto/vm/stack.hpp, stack.cpp)

    The methods of [Stack] as code on a list of entries, top first: [stack[i]] is
    the element at position [i].  An access outside the vector is undefined
    behaviour ([Undef]), an underflow check that fails throws [stk_und]. *)
From S2P Require Import Prelude BigInt Int256 Cells VmTypes.

Definition depth (s : Stack) : Z := Z.of_nat (length s).

Definition at_least (s : Stack) (req : Z) : bool := req <=? depth s.
Definition more_than (s : Stack) (req : Z) : bool := req <? depth s.

(** [check_underflow(args...)] and [check_underflow_p(args...)]. *)
Definition check_underflow (reqs : list Z) : M Stack unit :=
  b <- gets (fun s => forallb (at_least s) reqs) ;; unless_throw b (VmError Exc_stk_und).
Definition check_underflow_p (reqs : list Z) : M Stack unit :=
  b <- gets (fun s => forallb (more_than s) reqs) ;; unless_throw b (VmError Exc_stk_und).

(** [stack[idx]] / [fetch(idx)] *)
Definition fetch (idx : Z) : M Stack StackEntry :=
  s <- gets (fun s => s) ;;
  of_option (if idx <? 0 then None else s !! Z.to_nat idx).

(** [stack[idx] = v] *)
Definition assign (idx : Z) (v : StackEntry) : M Stack unit := fun s =>
  if (0 <=? idx) && (idx <? depth s) then Ret tt (<[Z.to_nat idx := v]> s) else Undef.

(** [swap(stack[i], stack[j])] *)
Definition swap (i j : Z) : M Stack unit := fun s =>
  if (i <? 0) || (j <? 0) then Undef
  else match list_swap (Z.to_nat i) (Z.to_nat j) s with
       | Some s' => Ret tt s'
       | None => Undef
       end.

Definition push (e : StackEntry) : M Stack unit := modify (fun s => e :: s).

(** [pop()]: the vector must not be empty. *)
Definition pop : M Stack StackEntry := fun s =>
  match s with [] => Undef | e :: s' => Ret e s' end.

(** [stack.pop(stack[x])]: the top entry is swapped into place [x], then removed. *)
Definition pop_to (x : Z) : M Stack unit := swap 0 x ;; pop ;; ret tt.

(** [pop_many(count)]: [resize(size() - count)]. *)
Definition pop_many (count : Z) : M Stack unit := fun s =>
  if count <? 0 then Ret tt (replicate (Z.to_nat (- count)) t_null ++ s)
  else if count <=? depth s then Ret tt (drop (Z.to_nat count) s)
  else Undef.

(** [pop_many(count, offs)]: remove [count] entries below the top [offs]. *)
Definition pop_many_offs (count offs : Z) : M Stack unit := fun s =>
  if (0 <=? count) && (0 <=? offs) && (count + offs <=? depth s) then
    Ret tt (take (Z.to_nat offs) s ++ drop (Z.to_nat (offs + count)) s)
  else Undef.

Definition drop_bottom (count : Z) : M Stack unit := fun s =>
  if (0 <=? count) && (count <=? depth s) then
    Ret tt (take (Z.to_nat (depth s - count)) s)
  else Undef.

(** [std::rotate(from_top(x + y), from_top(y), top())]: the top [y] entries and
    the [x] entries below them change places. *)
Definition rotate_blocks (x y : Z) : M Stack unit := fun s =>
  if (0 <=? x) && (0 <=? y) && (x + y <=? depth s) then
    let b := take (Z.to_nat y) s in let r := drop (Z.to_nat y) s in
    Ret tt (take (Z.to_nat x) r ++ b ++ drop (Z.to_nat x) r)
  else Undef.

(** [std::reverse(from_top(x + y), from_top(y))] *)
Definition reverse_block (x y : Z) : M Stack unit := fun s =>
  if (0 <=? x) && (0 <=? y) && (x + y <=? depth s) then
    let t := take (Z.to_nat y) s in let r := drop (Z.to_nat y) s in
    Ret tt (t ++ rev (take (Z.to_nat x) r) ++ drop (Z.to_nat x) r)
  else Undef.

(** ** Typed access *)

Definition type_chk : exc := VmError Exc_type_chk.

Definition pop_chk : M Stack StackEntry := check_underflow [1] ;; pop.

Definition pop_null : M Stack unit :=
  check_underflow [1] ;; e <- pop ;;
  match e with t_null => ret tt | _ => throw type_chk end.

Definition pop_int : M Stack int256 :=
  check_underflow [1] ;; e <- pop ;;
  match e with t_int x => ret x | _ => throw type_chk end.

Definition pop_int_finite : M Stack int256 :=
  x <- pop_int ;;
  unless_throw (is_valid256 x) (VmError Exc_int_ov) ;; ret x.

Definition pop_bool : M Stack bool :=
  x <- pop_int_finite ;; ret (negb (int_sgn x =? 0)).

Definition pop_long : M Stack Z := x <- pop_int ;; ret (int_to_long x).

Definition pop_long_range (max min : Z) : M Stack Z :=
  x <- pop_long ;;
  unless_throw (negb ((max <? x) || (x <? min))) (VmError Exc_range_chk) ;; ret x.

(** [pop_smallint_range]: the result is converted to [int]. *)
Definition pop_smallint_range (max min : Z) : M Stack Z :=
  x <- pop_long_range max min ;; ret (wrap_s 32 x).

Definition pop_cell : M Stack Cell :=
  check_underflow [1] ;; e <- pop ;;
  match e with t_cell x => ret x | _ => throw type_chk end.

Definition pop_maybe_cell : M Stack (option Cell) :=
  check_underflow [1] ;; e <- pop ;;
  match e with t_null => ret None | t_cell x => ret (Some x) | _ => throw type_chk end.

Definition pop_builder : M Stack CellBuilder :=
  check_underflow [1] ;; e <- pop ;;
  match e with t_builder x => ret x | _ => throw type_chk end.

Definition pop_cellslice : M Stack CellSlice :=
  check_underflow [1] ;; e <- pop ;;
  match e with t_slice x => ret x | _ => throw type_chk end.

Definition pop_cont : M Stack Continuation :=
  check_underflow [1] ;; e <- pop ;;
  match e with t_vmcont x => ret x | _ => throw type_chk end.

Definition pop_tuple : M Stack Tuple :=
  check_underflow [1] ;; e <- pop ;;
  match e with t_tuple x => ret x | _ => throw type_chk end.

(** [as_tuple_range(max_len, min_len)] *)
Definition as_tuple_range (max_len min_len : Z) (e : StackEntry) : option Tuple :=
  match e with
  | t_tuple t =>
      if (Z.of_nat (length t) <=? max_len) && (min_len <=? Z.of_nat (length t))
      then Some t else None
  | _ => None
  end.

Definition pop_tuple_range (max_len min_len : Z) : M Stack Tuple :=
  check_underflow [1] ;; e <- pop ;;
  match as_tuple_range max_len min_len e with Some t => ret t | None => throw type_chk end.

Definition pop_maybe_tuple : M Stack (option Tuple) :=
  check_underflow [1] ;; e <- pop ;;
  match e with t_null => ret None | t_tuple x => ret (Some x) | _ => throw type_chk end.

Definition pop_maybe_tuple_range (max_len : Z) : M Stack (option Tuple) :=
  check_underflow [1] ;; e <- pop ;;
  match e with
  | t_null => ret None
  | _ => match as_tuple_range max_len 0 e with
         | Some t => ret (Some t) | None => throw type_chk end
  end.

Definition push_null : M Stack unit := push t_null.

Definition push_int (x : int256) : M Stack unit :=
  unless_throw (signed_fits_bits x 257) (VmError Exc_int_ov) ;; push (t_int x).

Definition push_int_quiet (x : int256) (quiet : bool) : M Stack unit :=
  if negb (signed_fits_bits x 257) then
    if negb quiet then throw (VmError Exc_int_ov)
    else if is_valid256 x then push (t_int NaN)
    else push (t_int x)
  else push (t_int x).

Definition push_smallint (x : Z) : M Stack unit := push (t_int (Int x)).
Definition push_bool (b : bool) : M Stack unit := push_smallint (if b then -1 else 0).
Definition push_maybe_cell (c : option Cell) : M Stack unit :=
  push (match c with Some c => t_cell c | None => t_null end).
Definition push_maybe_tuple (t : option Tuple) : M Stack unit :=
  push (match t with Some t => t_tuple t | None => t_null end).

(** ** Moving entries between stacks *)

(** [this->push_from_stack(old, copy_elem, skip_top)] *)
Definition push_from_stack (old : Stack) (copy_elem skip_top : Z) : M Stack unit :=
  let n := depth old in
  unless_throw (negb ((n <? skip_top) || (n - skip_top <? copy_elem))) (VmError Exc_stk_und) ;;
  modify (fun s => take (Z.to_nat copy_elem) (drop (Z.to_nat skip_top) old) ++ s).

(** [new_stk.move_from_stack(old, copy_elem)]: run on the pair (new, old). *)
Definition move_from_stack (copy_elem : Z) : M (Stack * Stack) unit := fun '(new, old) =>
  if depth old <? copy_elem then Exn (VmError Exc_stk_und) (new, old)
  else Ret tt (take (Z.to_nat copy_elem) old ++ new, drop (Z.to_nat copy_elem) old).

(** [split_top(top_cnt, drop_cnt)]: the top entries move to a new stack, the
    next [drop_cnt] are dropped; [None] is the null result. *)
Definition split_top (top_cnt drop_cnt : Z) : M Stack (option Stack) := fun s =>
  let n := depth s in
  if (n <? top_cnt) || (n - top_cnt <? drop_cnt) then Ret None s
  else Ret (Some (take (Z.to_nat top_cnt) s)) (drop (Z.to_nat (top_cnt + drop_cnt)) s).

(** ** Rules for symbolic execution *)

Implicit Types (s : Stack) (E : exc -> Stack -> Prop).

Lemma depth_cons e s : depth (e :: s) = depth s + 1.
Proof. unfold depth. simpl length. lia. Qed.
Lemma depth_nonneg s : 0 <= depth s.
Proof. unfold depth. lia. Qed.
Lemma depth_nil : depth [] = 0.
Proof. done. Qed.

Lemma wp_check_underflow reqs (Q : unit -> Stack -> Prop) E s :
  (Forall (fun r => r <= depth s) reqs -> Q tt s) -> E (VmError Exc_stk_und) s ->
  wp (check_underflow reqs) Q E s.
Proof.
  intros HQ HE. unfold check_underflow. apply wp_bind, wp_gets, wp_unless_throw; [|done].
  intros H. apply HQ. clear HQ. induction reqs as [|r reqs IH]; [constructor|].
  apply andb_true_iff in H as [?%Z.leb_le ?]. constructor; auto.
Qed.

Lemma wp_check_underflow_p reqs (Q : unit -> Stack -> Prop) E s :
  (Forall (fun r => r < depth s) reqs -> Q tt s) -> E (VmError Exc_stk_und) s ->
  wp (check_underflow_p reqs) Q E s.
Proof.
  intros HQ HE. unfold check_underflow_p. apply wp_bind, wp_gets, wp_unless_throw; [|done].
  intros H. apply HQ. clear HQ. induction reqs as [|r reqs IH]; [constructor|].
  apply andb_true_iff in H as [?%Z.ltb_lt ?]. constructor; auto.
Qed.

Lemma wp_fetch idx (Q : StackEntry -> Stack -> Prop) E s :
  0 <= idx < depth s -> (forall e, s !! Z.to_nat idx = Some e -> Q e s) -> wp (fetch idx) Q E s.
Proof.
  intros Hi HQ. unfold fetch. apply wp_bind, wp_gets.
  rewrite (proj2 (Z.ltb_ge idx 0)) by lia.
  destruct (lookup_Z_some s idx) as [e He]; [unfold depth in *; lia|].
  rewrite He. apply HQ, He.
Qed.

Lemma wp_assign idx v (Q : unit -> Stack -> Prop) E s :
  0 <= idx < depth s -> Q tt (<[Z.to_nat idx := v]> s) -> wp (assign idx v) Q E s.
Proof.
  intros Hi HQ. unfold wp, assign.
  rewrite (proj2 (Z.leb_le 0 idx)), (proj2 (Z.ltb_lt idx (depth s))) by lia. done.
Qed.

Lemma wp_swap i j (Q : unit -> Stack -> Prop) E s :
  0 <= i < depth s -> 0 <= j < depth s ->
  (forall s', list_swap (Z.to_nat i) (Z.to_nat j) s = Some s' -> depth s' = depth s -> Q tt s') ->
  wp (swap i j) Q E s.
Proof.
  intros Hi Hj HQ. unfold wp, swap.
  rewrite (proj2 (Z.ltb_ge i 0)), (proj2 (Z.ltb_ge j 0)) by lia. cbn [orb].
  destruct (list_swap_some s (Z.to_nat i) (Z.to_nat j)) as [s' Hs]; [unfold depth in *; lia..|].
  rewrite Hs. apply HQ; [done|]. unfold depth. by rewrite (list_swap_length _ _ _ _ Hs).
Qed.

Lemma wp_push e (Q : unit -> Stack -> Prop) E s : Q tt (e :: s) -> wp (push e) Q E s.
Proof. done. Qed.

Lemma wp_pop (Q : StackEntry -> Stack -> Prop) E s :
  1 <= depth s -> (forall e s', s = e :: s' -> depth s' = depth s - 1 -> Q e s') -> wp pop Q E s.
Proof.
  intros H HQ. unfold wp, pop. destruct s as [|e s]; [done|].
  apply HQ; [done|]. rewrite depth_cons. lia.
Qed.

Lemma wp_pop_many n (Q : unit -> Stack -> Prop) E s :
  0 <= n <= depth s ->
  (depth (drop (Z.to_nat n) s) = depth s - n -> Q tt (drop (Z.to_nat n) s)) ->
  wp (pop_many n) Q E s.
Proof.
  intros H HQ. unfold wp, pop_many.
  rewrite (proj2 (Z.ltb_ge n 0)), (proj2 (Z.leb_le n (depth s))) by lia. apply HQ.
  unfold depth in *. rewrite length_drop. lia.
Qed.

Lemma wp_pop_to x (Q : unit -> Stack -> Prop) E s :
  0 <= x < depth s -> (forall s', depth s' = depth s - 1 -> Q tt s') -> wp (pop_to x) Q E s.
Proof.
  intros H HQ. unfold pop_to. apply wp_bind, wp_swap; [lia|lia|].
  intros s' _ Hd. apply wp_bind, wp_pop; [lia|]. intros e s'' -> Hd'.
  apply wp_ret, HQ. lia.
Qed.

(** A pop of a typed entry: it throws or leaves one entry less. *)
Definition pops {A} (m : M Stack A) (P : A -> Prop) : Prop :=
  forall (Q : A -> Stack -> Prop) E s,
    (forall a e s', P a -> s = e :: s' -> 0 <= depth s' -> depth s' = depth s - 1 -> Q a s') ->
    (forall e s', E e s') -> wp m Q E s.

Lemma pops_pop_with {A} (f : StackEntry -> M Stack A) (P : A -> Prop) :
  (forall e (Q : A -> Stack -> Prop) E s,
     (forall a, P a -> Q a s) -> (forall e s', E e s') -> wp (f e) Q E s) ->
  pops (check_underflow [1] ;; e <- pop ;; f e) P.
Proof.
  intros Hf Q E s HQ HE. apply wp_bind, wp_check_underflow; [|auto].
  intros [H _]%Forall_cons_1. apply wp_bind, wp_pop; [lia|].
  intros e s' -> Hd. apply Hf; [|auto]. intros a Ha. by apply (HQ a e); [| |apply depth_nonneg|].
Qed.

Lemma pops_bind_ret {A B} (m : M Stack A) (P : A -> Prop) (k : A -> M Stack B) (P' : B -> Prop) :
  pops m P ->
  (forall a (Q : B -> Stack -> Prop) E s, P a ->
     (forall b, P' b -> Q b s) -> (forall e s', E e s') -> wp (k a) Q E s) ->
  pops (bind m k) P'.
Proof.
  intros Hm Hk Q E s HQ HE. apply wp_bind, Hm; [|auto].
  intros a e s' Ha He H0 Hd. apply Hk; [done| |auto]. intros b Hb. by apply (HQ b e).
Qed.

Ltac solve_pops :=
  apply pops_pop_with; intros e Q E s HQ HE;
  destruct e; simpl; try (apply HQ; done); try apply HE;
  repeat case_match; try (apply HQ; done); try apply HE.

Lemma pops_pop_int : pops pop_int (fun _ => True).
Proof. solve_pops. Qed.
Lemma pops_pop_cell : pops pop_cell (fun _ => True).
Proof. solve_pops. Qed.
Lemma pops_pop_maybe_cell : pops pop_maybe_cell (fun _ => True).
Proof. solve_pops. Qed.
Lemma pops_pop_builder : pops pop_builder (fun _ => True).
Proof. solve_pops. Qed.
Lemma pops_pop_cellslice : pops pop_cellslice (fun _ => True).
Proof. solve_pops. Qed.
Lemma pops_pop_cont : pops pop_cont (fun _ => True).
Proof. solve_pops. Qed.
Lemma pops_pop_tuple : pops pop_tuple (fun _ => True).
Proof. solve_pops. Qed.
Lemma pops_pop_maybe_tuple : pops pop_maybe_tuple (fun _ => True).
Proof. solve_pops. Qed.
Lemma pops_pop_null : pops pop_null (fun _ => True).
Proof. solve_pops. Qed.

Lemma as_tuple_range_len max min e t :
  as_tuple_range max min e = Some t -> min <= Z.of_nat (length t) <= max.
Proof.
  destruct e; simpl; try done. case_match eqn:H; [|done]. intros [= ->].
  apply andb_true_iff in H as [?%Z.leb_le ?%Z.leb_le]. lia.
Qed.

Lemma pops_pop_tuple_range max min :
  pops (pop_tuple_range max min) (fun t => min <= Z.of_nat (length t) <= max).
Proof.
  apply pops_pop_with. intros e Q E s HQ HE.
  destruct (as_tuple_range max min e) eqn:H; [|apply HE].
  apply HQ. by eapply as_tuple_range_len.
Qed.
Lemma pops_pop_maybe_tuple_range max :
  pops (pop_maybe_tuple_range max) (fun o => forall t, o = Some t -> Z.of_nat (length t) <= max).
Proof.
  apply pops_pop_with. intros e Q E s HQ HE.
  destruct e as [| | | | | |t| | | | | | |]; try (apply HQ; done); try apply HE.
  change (wp (match as_tuple_range max 0 (t_tuple t) with
              | Some t => ret (Some t) | None => throw type_chk end) Q E s).
  destruct (as_tuple_range max 0 (t_tuple t)) eqn:H; [|apply HE].
  apply HQ. intros t' [= <-]. apply as_tuple_range_len in H. lia.
Qed.

Lemma int_to_long_range x : - 2 ^ 63 <= int_to_long x < 2 ^ 63.
Proof.
  unfold int_to_long, long_nan. destruct x as [|a]; [lia|].
  destruct (fits_s 64 a) eqn:H; [|lia]. by apply fits_s_spec in H.
Qed.

Lemma pops_pop_int_finite : pops pop_int_finite (fun x => is_valid256 x = true).
Proof.
  eapply pops_bind_ret; [apply pops_pop_int|]. intros x Q E s _ HQ HE.
  apply wp_bind, wp_unless_throw; [|auto]. intros H. by apply wp_ret, HQ.
Qed.
Lemma pops_pop_bool : pops pop_bool (fun _ => True).
Proof.
  eapply pops_bind_ret; [apply pops_pop_int_finite|]. intros x Q E s _ HQ HE. by apply HQ.
Qed.
Lemma pops_pop_long : pops pop_long (fun x => - 2 ^ 63 <= x < 2 ^ 63).
Proof.
  eapply pops_bind_ret; [apply pops_pop_int|]. intros x Q E s _ HQ HE. apply HQ, int_to_long_range.
Qed.
Lemma pops_pop_long_range max min : pops (pop_long_range max min) (fun x => min <= x <= max).
Proof.
  eapply pops_bind_ret; [apply pops_pop_long|]. intros x Q E s _ HQ HE.
  apply wp_bind, wp_unless_throw; [|auto]. intros H. apply wp_ret, HQ.
  apply negb_true_iff, orb_false_iff in H as [?%Z.ltb_ge ?%Z.ltb_ge]. lia.
Qed.
Lemma pops_pop_smallint_range max min :
  - 2 ^ 31 <= min -> max < 2 ^ 31 -> pops (pop_smallint_range max min) (fun x => min <= x <= max).
Proof.
  intros. eapply pops_bind_ret; [apply pops_pop_long_range|]. intros x Q E s Hx HQ HE.
  cbv beta in *.
  apply wp_ret, HQ. rewrite wrap_s_small; [lia|lia|]. change (32 - 1) with 31. lia.
Qed.

Lemma wp_push_int x (Q : unit -> Stack -> Prop) E s :
  Q tt (t_int x :: s) -> E (VmError Exc_int_ov) s -> wp (push_int x) Q E s.
Proof. intros. apply wp_bind, wp_unless_throw; intros; [by apply wp_push|done]. Qed.

Lemma wp_push_int_quiet x q (Q : unit -> Stack -> Prop) E s :
  (forall y, Q tt (t_int y :: s)) -> E (VmError Exc_int_ov) s -> wp (push_int_quiet x q) Q E s.
Proof.
  intros HQ HE. unfold push_int_quiet. repeat case_match; try apply wp_push, HQ. apply HE.
Qed.

Lemma wp_rotate_blocks x y (Q : unit -> Stack -> Prop) E s :
  0 <= x -> 0 <= y -> x + y <= depth s ->
  (let b := take (Z.to_nat y) s in let r := drop (Z.to_nat y) s in
   Q tt (take (Z.to_nat x) r ++ b ++ drop (Z.to_nat x) r)) ->
  wp (rotate_blocks x y) Q E s.
Proof.
  intros Hx Hy Hd HQ. unfold wp, rotate_blocks.
  by rewrite (proj2 (Z.leb_le 0 x)), (proj2 (Z.leb_le 0 y)), (proj2 (Z.leb_le (x + y) _)) by lia.
Qed.
Lemma wp_reverse_block x y (Q : unit -> Stack -> Prop) E s :
  0 <= x -> 0 <= y -> x + y <= depth s ->
  (let t := take (Z.to_nat y) s in let r := drop (Z.to_nat y) s in
   Q tt (t ++ rev (take (Z.to_nat x) r) ++ drop (Z.to_nat x) r)) ->
  wp (reverse_block x y) Q E s.
Proof.
  intros Hx Hy Hd HQ. unfold wp, reverse_block.
  by rewrite (proj2 (Z.leb_le 0 x)), (proj2 (Z.leb_le 0 y)), (proj2 (Z.leb_le (x + y) _)) by lia.
Qed.
Lemma wp_pop_many_offs count offs (Q : unit -> Stack -> Prop) E s :
  0 <= count -> 0 <= offs -> count + offs <= depth s ->
  Q tt (take (Z.to_nat offs) s ++ drop (Z.to_nat (offs + count)) s) ->
  wp (pop_many_offs count offs) Q E s.
Proof.
  intros Hx Hy Hd HQ. unfold wp, pop_many_offs.
  by rewrite (proj2 (Z.leb_le 0 _)), (proj2 (Z.leb_le 0 _)), (proj2 (Z.leb_le _ (depth s))) by lia.
Qed.

Lemma pops_use {A} (m : M Stack A) (P : A -> Prop) (Q : A -> Stack -> Prop) E s :
  pops m P ->
  (forall a e s', P a -> s = e :: s' -> 0 <= depth s' -> depth s' = depth s - 1 -> Q a s') ->
  (forall e s', E e s') -> wp m Q E s.
Proof. intros Hm. apply Hm. Qed.

#[export] Hint Resolve pops_pop_int pops_pop_cell pops_pop_maybe_cell pops_pop_builder
  pops_pop_cellslice pops_pop_cont pops_pop_tuple pops_pop_maybe_tuple pops_pop_null
  pops_pop_tuple_range pops_pop_maybe_tuple_range pops_pop_int_finite pops_pop_bool
  pops_pop_long pops_pop_long_range : wp.
#[export] Hint Extern 1 (pops (pop_smallint_range _ _) _) =>
  (eapply pops_pop_smallint_range; lia) : wp.

(** Split the conditions that a successful underflow check leaves. *)
Ltac split_checks :=
  repeat match goal with
    | H : Forall _ (_ :: _) |- _ => apply Forall_cons_1 in H as [? H]
    | H : Forall _ [] |- _ => clear H
    end; cbv beta in *.

Ltac depth_lia := rewrite ?depth_cons in *; lia.

(** Symbolic execution of stack code, for goals whose exceptional postcondition
    is trivial. *)
Ltac stack_step :=
  lazymatch goal with
  | |- wp (check_underflow _) _ _ _ =>
      apply wp_check_underflow; [intros ?; split_checks | done]
  | |- wp (check_underflow_p _) _ _ _ =>
      apply wp_check_underflow_p; [intros ?; split_checks | done]
  | |- wp (fetch _) _ _ _ => apply wp_fetch; [depth_lia | intros ? _]
  | |- wp (assign _ _) _ _ _ => apply wp_assign; [depth_lia |]
  | |- wp (swap _ _) _ _ _ => apply wp_swap; [depth_lia | depth_lia | intros ? _ ?]
  | |- wp (push _) _ _ _ => apply wp_push
  | |- wp push_null _ _ _ => apply wp_push
  | |- wp (push_smallint _) _ _ _ => apply wp_push
  | |- wp (push_bool _) _ _ _ => apply wp_push
  | |- wp (push_maybe_cell _) _ _ _ => apply wp_push
  | |- wp (push_maybe_tuple _) _ _ _ => apply wp_push
  | |- wp (push_int _) _ _ _ => apply wp_push_int; [| done]
  | |- wp (push_int_quiet _ _) _ _ _ => apply wp_push_int_quiet; [intros ? | done]
  | |- wp pop _ _ _ => apply wp_pop; [depth_lia | intros ? ? _ ?]
  | |- wp (pop_to _) _ _ _ => apply wp_pop_to; [depth_lia | intros ? ?]
  | |- wp (pop_many _) _ _ _ => apply wp_pop_many; [depth_lia | intros ?]
  | |- wp (pop_many_offs _ _) _ _ _ => apply wp_pop_many_offs; [depth_lia..|]
  | |- wp (rotate_blocks _ _) _ _ _ => apply wp_rotate_blocks; [depth_lia..|]; cbv zeta
  | |- wp (reverse_block _ _) _ _ _ => apply wp_reverse_block; [depth_lia..|]; cbv zeta
  | |- wp _ _ _ _ =>
      eapply pops_use;
      [solve [eauto with wp nocore] | intros ? ? ? ? ? ? ?; cbv beta in * | done]
  end.
