(* ===== verification/OpcodeTable.v ===== *)
(** * Opcode tables (crypto/vm/opctable.h, opctable.cpp)

    Instructions own a range of the 24-bit opcode space; a table collects them in
    a sorted map, refuses overlapping ranges, and [finalize] fills the gaps with
    dummy instructions so that a binary search finds the instruction of any
    opcode.  Instruction names and the [dump] functions of the disassembler are
    left out. *)
From S2P Require Import Prelude Cells VmTypes.

Definition max_opcode_bits : Z := 24.
Definition top_opcode : Z := 2 ^ max_opcode_bits.
Definition gas_per_instr : Z := 10.
Definition gas_per_bit : Z := 1.

(** The subclasses of [OpcodeInstr]; the [CellSlice& cs] that handlers receive is
    the code of the machine. *)
Inductive instr_body : Type :=
| OpcodeInstrDummy
| OpcodeInstrSimplest (opc_bits : Z) (exec : M VmState Z)
| OpcodeInstrFixed (opc_bits tot_bits : Z) (exec : Z -> M VmState Z)
| OpcodeInstrExt (opc_bits tot_bits : Z) (exec : Z -> Z -> M VmState Z)
| OpcodeInstrWithVersion (instr : instr_body) (required_version : Z).

Record OpcodeInstr : Type := mkInstr {
  min_opcode : Z; max_opcode : Z; body : instr_body
}.

(** ** Constructors; [None] is a failed [assert] *)

Definition mk_opcode (opcode bits : Z) (b : instr_body) : option OpcodeInstr :=
  if (opcode <? 2 ^ bits) && (bits <=? max_opcode_bits) then
    Some (mkInstr (Z.shiftl opcode (max_opcode_bits - bits))
                  (Z.shiftl (opcode + 1) (max_opcode_bits - bits)) b)
  else None.

Definition mk_range (opcode_min opcode_max tot_bits arg_bits : Z) (b : instr_body)
    : option OpcodeInstr :=
  if (arg_bits <=? tot_bits) && (tot_bits <=? max_opcode_bits) &&
     (opcode_min <? opcode_max) && (opcode_max <=? 2 ^ tot_bits) then
    Some (mkInstr (Z.shiftl opcode_min (max_opcode_bits - tot_bits))
                  (Z.shiftl opcode_max (max_opcode_bits - tot_bits)) b)
  else None.

Definition mksimple (opcode opc_bits : Z) (exec : M VmState Z) : option OpcodeInstr :=
  mk_opcode opcode opc_bits (OpcodeInstrSimplest opc_bits exec).

Definition mkfixed (opcode opc_bits arg_bits : Z) (exec : Z -> M VmState Z)
    : option OpcodeInstr :=
  if (arg_bits <=? max_opcode_bits) && (opc_bits <=? max_opcode_bits) &&
     (arg_bits + opc_bits <=? max_opcode_bits) then
    mk_opcode opcode opc_bits (OpcodeInstrFixed opc_bits (opc_bits + arg_bits) exec)
  else None.

Definition mkfixedrange (opcode_min opcode_max tot_bits arg_bits : Z) (exec : Z -> M VmState Z)
    : option OpcodeInstr :=
  mk_range opcode_min opcode_max tot_bits arg_bits
    (OpcodeInstrFixed (tot_bits - arg_bits) tot_bits exec).

Definition mkext (opcode opc_bits arg_bits : Z) (exec : Z -> Z -> M VmState Z)
    : option OpcodeInstr :=
  if (arg_bits <=? max_opcode_bits) && (opc_bits <=? max_opcode_bits) &&
     (arg_bits + opc_bits <=? max_opcode_bits) then
    mk_opcode opcode opc_bits (OpcodeInstrExt opc_bits (opc_bits + arg_bits) exec)
  else None.

Definition mkextrange (opcode_min opcode_max tot_bits arg_bits : Z)
    (exec : Z -> Z -> M VmState Z) : option OpcodeInstr :=
  mk_range opcode_min opcode_max tot_bits arg_bits
    (OpcodeInstrExt (tot_bits - arg_bits) tot_bits exec).

Definition require_version (v : Z) (i : option OpcodeInstr) : option OpcodeInstr :=
  match i with
  | Some i => Some (mkInstr (min_opcode i) (max_opcode i) (OpcodeInstrWithVersion (body i) v))
  | None => None
  end.

(** ** The table under construction: the map [instructions], in key order *)

Fixpoint lower_bound (key : Z) (t : list OpcodeInstr) : list OpcodeInstr * list OpcodeInstr :=
  match t with
  | [] => ([], [])
  | i :: t' =>
      if min_opcode i <? key then
        let (pre, post) := lower_bound key t' in (i :: pre, post)
      else ([], t)
  end.

(** The two occupancy tests of [insert_bool], on the entry at the lower bound and
    on the one before it. *)
Definition next_blocks (i : OpcodeInstr) (post : list OpcodeInstr) : bool :=
  match post with j :: _ => min_opcode j <? max_opcode i | [] => false end.
Definition prev_blocks (i : OpcodeInstr) (pre : list OpcodeInstr) : bool :=
  match list.last pre with Some p => min_opcode i <? max_opcode p | None => false end.

(** [insert_bool]: [None] is a failed [assert], [Some None] is [false]. *)
Definition insert_bool (i : OpcodeInstr) (t : list OpcodeInstr)
    : option (option (list OpcodeInstr)) :=
  if (min_opcode i <? max_opcode i) && (max_opcode i <=? top_opcode) then
    let (pre, post) := lower_bound (min_opcode i) t in
    if next_blocks i post then Some None
    else if prev_blocks i pre then Some None
    else Some (Some (pre ++ i :: post))
  else None.

(** [insert]: a rejected instruction is fatal. *)
Definition insert (i : option OpcodeInstr) (t : list OpcodeInstr) : option (list OpcodeInstr) :=
  match i with
  | Some i => match insert_bool i t with Some (Some t') => Some t' | _ => None end
  | None => None
  end.

Definition insert_all (instrs : list (option OpcodeInstr)) (t : list OpcodeInstr)
    : option (list OpcodeInstr) :=
  foldl (fun o i => match o with Some t => insert i t | None => None end) (Some t) instrs.

(** ** The final table *)

Definition dummy_instr (lo hi : Z) : OpcodeInstr := mkInstr lo hi OpcodeInstrDummy.

Fixpoint finalize_from (upto : Z) (t : list OpcodeInstr) : option (list OpcodeInstr) :=
  match t with
  | [] => Some (if upto <? top_opcode then [dummy_instr upto top_opcode] else [])
  | i :: t' =>
      if (min_opcode i <? max_opcode i) && (upto <=? min_opcode i) &&
         (max_opcode i <=? top_opcode) then
        match finalize_from (max_opcode i) t' with
        | Some l =>
            Some (if upto <? min_opcode i then dummy_instr upto (min_opcode i) :: i :: l
                  else i :: l)
        | None => None
        end
      else None
  end.
Definition finalize (t : list OpcodeInstr) : option (list OpcodeInstr) := finalize_from 0 t.

(** The binary search over [instruction_list]. *)
Fixpoint lookup_loop (fuel : nat) (l : list OpcodeInstr) (opcode : Z) (i j : nat)
    : option OpcodeInstr :=
  match fuel with
  | O => None
  | S fuel' =>
      if (1 <? j - i)%nat then
        let k := ((j + i) / 2)%nat in
        match l !! k with
        | Some e => if min_opcode e <=? opcode then lookup_loop fuel' l opcode k j
                    else lookup_loop fuel' l opcode i k
        | None => None
        end
      else l !! i
  end.
Definition lookup_instr (l : list OpcodeInstr) (opcode : Z) : option OpcodeInstr :=
  lookup_loop (S (length l)) l opcode 0 (length l).

(** The opcode at the start of the code: the number of bits available (at most 24)
    and these bits, padded with zeros. *)
Definition fetch_opcode (cs : CellSlice) : nat * Z :=
  let (bits, prefetch) := prefetch_top (Z.to_nat max_opcode_bits) cs in
  let opcode := Z.shiftr prefetch (64 - max_opcode_bits) in
  (bits, Z.land opcode (wrap_u 32 (Z.shiftr (- 2 ^ max_opcode_bits) (Z.of_nat bits)))).

(** ** Dispatch *)

(** [cs.advance(n)] on the code of the machine; the result is ignored. *)
Definition code_advance (n : Z) : M VmState unit := fun s =>
  match code s with
  | Some cs => Ret tt (set_code_field (Some (default cs (advance (Z.to_nat n) cs))) s)
  | None => Undef
  end.

(** The [CellSlice& cs] that the handlers of [OpcodeInstrExt] receive. *)
Definition code_slice : M VmState CellSlice := c <- gets code ;; of_option c.
Definition put_code (cs : CellSlice) : M VmState unit := modify (set_code_field (Some cs)).

(** The [dispatch] methods of the subclasses. *)
Definition dummy_dispatch : M VmState Z :=
  consume_gas gas_per_instr ;; throw (VmError Exc_inv_opcode).

Definition simplest_dispatch (opc_bits : Z) (exec : M VmState Z) (bits : Z) : M VmState Z :=
  consume_gas (gas_per_instr + opc_bits * gas_per_bit) ;;
  unless_throw (negb (bits <? opc_bits)) (VmError Exc_inv_opcode) ;;
  code_advance opc_bits ;;
  exec.

Definition fixed_dispatch (tot_bits : Z) (exec : Z -> M VmState Z) (opcode bits : Z)
    : M VmState Z :=
  consume_gas (gas_per_instr + tot_bits * gas_per_bit) ;;
  unless_throw (negb (bits <? tot_bits)) (VmError Exc_inv_opcode) ;;
  code_advance tot_bits ;;
  exec (Z.shiftr opcode (max_opcode_bits - tot_bits)).

Definition ext_dispatch (tot_bits : Z) (exec : Z -> Z -> M VmState Z) (opcode bits : Z)
    : M VmState Z :=
  consume_gas (gas_per_instr + tot_bits * gas_per_bit) ;;
  unless_throw (negb (bits <? tot_bits)) (VmError Exc_inv_opcode) ;;
  exec (Z.shiftr opcode (max_opcode_bits - tot_bits)) tot_bits.

Definition version_dispatch (required_version : Z) (instr : M VmState Z) : M VmState Z :=
  v <- gets global_version ;;
  if v <? required_version then
    consume_gas gas_per_instr ;; throw (VmError Exc_inv_opcode)
  else instr.

Fixpoint instr_dispatch (b : instr_body) (opcode bits : Z) : M VmState Z :=
  match b with
  | OpcodeInstrDummy => dummy_dispatch
  | OpcodeInstrSimplest opc_bits exec => simplest_dispatch opc_bits exec bits
  | OpcodeInstrFixed opc_bits tot_bits exec => fixed_dispatch tot_bits exec opcode bits
  | OpcodeInstrExt opc_bits tot_bits exec => ext_dispatch tot_bits exec opcode bits
  | OpcodeInstrWithVersion instr required_version =>
      version_dispatch required_version (instr_dispatch instr opcode bits)
  end.

Definition dispatch (l : list OpcodeInstr) : M VmState Z :=
  c <- gets code ;;
  cs <- of_option c ;;
  let (bits, opcode) := fetch_opcode cs in
  i <- of_option (lookup_instr l opcode) ;;
  instr_dispatch (body i) opcode (Z.of_nat bits).

(** ** Properties of the table *)

(** Ranges are non-empty, increasing, disjoint and below [top_opcode]. *)
Fixpoint table_ok (lo : Z) (t : list OpcodeInstr) : Prop :=
  match t with
  | [] => lo <= top_opcode
  | i :: t' => lo <= min_opcode i < max_opcode i /\ table_ok (max_opcode i) t'
  end.

Definition covers (i : OpcodeInstr) (opcode : Z) : Prop :=
  min_opcode i <= opcode < max_opcode i.
Definition overlaps (i j : OpcodeInstr) : Prop :=
  min_opcode i < max_opcode j /\ min_opcode j < max_opcode i.

Lemma table_ok_weaken lo lo' t : lo' <= lo -> table_ok lo t -> table_ok lo' t.
Proof. destruct t; simpl; intros; [lia|]. intuition lia. Qed.
Lemma table_ok_top lo t : table_ok lo t -> lo <= top_opcode.
Proof. revert lo. induction t as [|i t IH]; simpl; intros lo H; [done|]. destruct H as [? ?%IH]. lia. Qed.
Lemma table_ok_max lo t i : table_ok lo t -> i ∈ t -> lo <= min_opcode i < max_opcode i /\ max_opcode i <= top_opcode.
Proof.
  revert lo. induction t as [|j t IH]; simpl; intros lo H Hi; [by apply not_elem_of_nil in Hi|].
  destruct H as [Hj Ht]. pose proof (table_ok_top _ _ Ht).
  apply elem_of_cons in Hi as [->|Hi]; [lia|]. specialize (IH _ Ht Hi). lia.
Qed.

Lemma lower_bound_app key t pre post : lower_bound key t = (pre, post) -> t = pre ++ post.
Proof.
  revert pre post. induction t as [|i t IH]; simpl; intros pre post H; [by simplify_eq|].
  case_match; [|by simplify_eq]. destruct (lower_bound key t) as [p q].
  simplify_eq. simpl. f_equal. by apply IH.
Qed.
Lemma lower_bound_pre key t pre post j :
  lower_bound key t = (pre, post) -> j ∈ pre -> min_opcode j < key.
Proof.
  revert pre post. induction t as [|i t IH]; simpl; intros pre post H Hj.
  - simplify_eq. by apply not_elem_of_nil in Hj.
  - case_match eqn:E; [|simplify_eq; by apply not_elem_of_nil in Hj].
    destruct (lower_bound key t) as [p q]. simplify_eq.
    apply elem_of_cons in Hj as [->|Hj]; [by apply Z.ltb_lt|by eapply IH].
Qed.
Lemma lower_bound_post key t pre j post :
  lower_bound key t = (pre, j :: post) -> key <= min_opcode j.
Proof.
  revert pre. induction t as [|i t IH]; simpl; intros pre H; [by simplify_eq|].
  case_match eqn:E; [|simplify_eq; by apply Z.ltb_ge].
  destruct (lower_bound key t) as [p q]. simplify_eq. by eapply IH.
Qed.

Lemma table_ok_app lo pre post :
  table_ok lo (pre ++ post) <->
  table_ok lo pre /\ table_ok (match list.last pre with Some p => max_opcode p | None => lo end) post.
Proof.
  revert lo. induction pre as [|i pre IH]; intros lo.
  - simpl. split; [intros H; split; [by eapply table_ok_top|done]|tauto].
  - simpl app. simpl table_ok. rewrite IH. rewrite list.last_cons.
    destruct (list.last pre); tauto.
Qed.

Lemma table_ok_last lo t p j :
  table_ok lo t -> list.last t = Some p -> j ∈ t -> max_opcode j <= max_opcode p.
Proof.
  revert lo. induction t as [|i t IH]; intros lo H Hp Hj; [done|].
  destruct H as [Hi Ht]. rewrite list.last_cons in Hp. apply elem_of_cons in Hj as [->|Hj].
  - destruct (list.last t) as [q|] eqn:E; simplify_eq; [|done].
    assert (p ∈ t) as Hq by by apply list.last_Some_elem_of.
    pose proof (table_ok_max _ _ _ Ht Hq). lia.
  - destruct (list.last t) as [q|] eqn:E; simplify_eq; [by eapply IH|].
    apply list.last_None in E as ->. by apply not_elem_of_nil in Hj.
Qed.

(** [insert_bool] accepts an instruction exactly when its range is free. *)
Lemma insert_bool_spec i t :
  table_ok 0 t -> 0 <= min_opcode i < max_opcode i -> max_opcode i <= top_opcode ->
  match insert_bool i t with
  | None => False
  | Some None => Exists (overlaps i) t
  | Some (Some t') =>
      table_ok 0 t' /\ Forall (fun j => ~ overlaps i j) t /\ (forall j, j ∈ t' <-> j = i \/ j ∈ t)
  end.
Proof.
  intros Ht Hi Htop. unfold insert_bool.
  rewrite (proj2 (Z.ltb_lt _ _)), (proj2 (Z.leb_le _ _)) by lia. cbn [andb].
  destruct (lower_bound (min_opcode i) t) as [pre post] eqn:Hlb.
  pose proof (lower_bound_app _ _ _ _ Hlb) as ->.
  apply table_ok_app in Ht as [Hpre Hpost].
  assert (forall q, list.last pre = Some q -> q ∈ pre) as Hlast.
  { intros q. apply list.last_Some_elem_of. }
  destruct (next_blocks i post) eqn:E1; unfold next_blocks in E1.
  { destruct post as [|j post]; [done|]. apply Exists_app. right. left.
    apply lower_bound_post in Hlb. apply Z.ltb_lt in E1. simpl in Hpost. split; lia. }
  destruct (prev_blocks i pre) eqn:E2; unfold prev_blocks in E2.
  { destruct (list.last pre) as [q|] eqn:El; [|done]. apply Z.ltb_lt in E2.
    apply Exists_app. left. apply list.Exists_exists. exists q. specialize (Hlast q eq_refl).
    split; [done|]. split; [done|].
    pose proof (lower_bound_pre _ _ _ _ _ Hlb Hlast). lia. }
  assert (table_ok (max_opcode i) post) as Hpost'.
  { destruct post as [|j post]; [done|]. apply Z.ltb_ge in E1. simpl in *. intuition lia. }
  assert (forall j, j ∈ pre -> max_opcode j <= min_opcode i) as Hpre'.
  { intros j Hj. destruct (list.last pre) as [q|] eqn:El.
    - apply Z.ltb_ge in E2. pose proof (table_ok_last _ _ _ _ Hpre El Hj). lia.
    - apply list.last_None in El as ->. by apply not_elem_of_nil in Hj. }
  split_and!.
  - apply table_ok_app. split; [done|]. simpl. split; [|done].
    destruct (list.last pre) as [q|] eqn:El; [|lia]. specialize (Hpre' q (Hlast q eq_refl)). lia.
  - apply Forall_app. split; apply list.Forall_forall; intros j Hj [H1 H2].
    + specialize (Hpre' j Hj). lia.
    + pose proof (table_ok_max _ _ _ Hpost' Hj). lia.
  - intros j. rewrite elem_of_app, elem_of_cons, elem_of_app. tauto.
Qed.

(** ** The final list *)

Fixpoint contiguous (lo : Z) (l : list OpcodeInstr) : Prop :=
  match l with
  | [] => lo = top_opcode
  | i :: l' => lo = min_opcode i /\ min_opcode i < max_opcode i /\ contiguous (max_opcode i) l'
  end.

Lemma contiguous_range lo l k :
  contiguous lo l -> k ∈ l -> lo <= min_opcode k < max_opcode k.
Proof.
  revert lo. induction l as [|a l IH]; simpl; intros lo H Hk; [by apply not_elem_of_nil in Hk|].
  destruct H as (-> & ? & H). apply elem_of_cons in Hk as [->|Hk]; [lia|].
  specialize (IH _ H Hk). lia.
Qed.

Lemma finalize_from_spec lo t :
  table_ok lo t ->
  exists l, finalize_from lo t = Some l /\ contiguous lo l /\
    forall i, i ∈ l -> i ∈ t \/
      (body i = OpcodeInstrDummy /\ forall j, j ∈ t -> ~ overlaps i j).
Proof.
  revert lo. induction t as [|i t IH]; simpl; intros lo H.
  - eexists. split; [done|]. destruct (Z.ltb_spec lo top_opcode).
    + split; [simpl; lia|]. intros i ->%list_elem_of_singleton. right.
      split; [done|]. intros j Hj. by apply not_elem_of_nil in Hj.
    + split; [simpl; lia|]. intros i Hi. by apply not_elem_of_nil in Hi.
  - destruct H as [Hi Ht]. pose proof (table_ok_top _ _ Ht) as Htop.
    rewrite (proj2 (Z.ltb_lt _ _)), (proj2 (Z.leb_le lo _)), (proj2 (Z.leb_le _ top_opcode)) by lia.
    destruct (IH _ Ht) as (l & -> & Hl & Hin). simpl. eexists. split; [done|].
    assert (forall j, j ∈ i :: l -> j ∈ i :: t \/
      (body j = OpcodeInstrDummy /\ forall j', j' ∈ i :: t -> ~ overlaps j j')) as Hin'.
    { intros j Hj. apply elem_of_cons in Hj as [->|Hj]; [left; left|].
      destruct (Hin j Hj) as [?|[Hd Ho]]; [left; by right|]. right. split; [done|].
      intros j' [->|Hj']%elem_of_cons; [|by apply Ho].
      intros [H1 H2].
      pose proof (contiguous_range _ _ _ Hl Hj). lia. }
    destruct (Z.ltb_spec lo (min_opcode i)).
    + split; [simpl; intuition lia|]. intros j [->|Hj]%elem_of_cons; [|by apply Hin'].
      right. split; [done|]. intros j' Hj' [H1 H2]. simpl in *.
      apply elem_of_cons in Hj' as [->|Hj']; [lia|].
      pose proof (table_ok_max _ _ _ Ht Hj'). lia.
    + split; [simpl; intuition lia|done].
Qed.

Lemma contiguous_mono lo l a b x y :
  contiguous lo l -> l !! a = Some x -> l !! b = Some y -> (a < b)%nat ->
  max_opcode x <= min_opcode y.
Proof.
  revert lo a b. induction l as [|i l IH]; intros lo a b H Ha Hb Hab; [done|].
  destruct H as (-> & Hi & Hl), b as [|b]; [lia|]. simpl in Hb. destruct a as [|a]; simpl in Ha.
  - simplify_eq. clear IH Hab. revert Hl Hb. generalize (max_opcode x). clear.
    revert b. induction l as [|j l IH]; intros b z Hl Hb; [done|].
    destruct Hl as (-> & Hj & Hl), b as [|b]; simpl in Hb; simplify_eq; [lia|].
    specialize (IH _ _ Hl Hb). lia.
  - eapply IH; [done..|lia].
Qed.

Lemma contiguous_covered lo l opcode :
  contiguous lo l -> lo <= opcode < top_opcode -> exists k i, l !! k = Some i /\ covers i opcode.
Proof.
  revert lo. induction l as [|i l IH]; simpl; intros lo H Hop; [lia|].
  destruct H as (-> & Hi & Hl). destruct (Z.ltb_spec opcode (max_opcode i)).
  - exists 0%nat, i. split; [done|]. unfold covers. lia.
  - destruct (IH _ Hl) as (k & j & Hk & Hj); [lia|]. by exists (S k), j.
Qed.

(** The binary search keeps the sought index between its bounds. *)
Lemma lookup_loop_spec lo l opcode k e fuel i j :
  contiguous lo l -> l !! k = Some e -> covers e opcode ->
  (i <= k < j)%nat -> (j <= length l)%nat -> (j - i < fuel)%nat ->
  lookup_loop fuel l opcode i j = Some e.
Proof.
  intros Hl Hk He. revert i j. induction fuel as [|fuel IH]; intros i j Hij Hj Hf; [lia|].
  cbn [lookup_loop]. cbv zeta. destruct (Nat.ltb_spec 1 (j - i)); [|by replace i with k by lia].
  assert (i < (j + i) / 2 < j)%nat as Hm.
  { split; [apply Nat.div_le_lower_bound; lia|apply Nat.Div0.div_lt_upper_bound; lia]. }
  set (m := ((j + i) / 2)%nat) in *. clearbody m.
  destruct (l !! m) as [x|] eqn:Hx; [|apply lookup_ge_None in Hx; lia].
  destruct (Z.leb_spec (min_opcode x) opcode).
  - apply IH; [|lia|lia]. split; [|lia].
    destruct (Nat.le_gt_cases m k); [lia|].
    pose proof (contiguous_mono _ _ _ _ _ _ Hl Hk Hx). unfold covers in He. lia.
  - apply IH; [|lia|lia]. split; [lia|].
    destruct (Nat.lt_ge_cases k m) as [|Hge]; [lia|]. apply Nat.lt_eq_cases in Hge as [Hlt| ->].
    + pose proof (contiguous_mono _ _ _ _ _ _ Hl Hx Hk Hlt). unfold covers in He.
      assert (x ∈ l) as Hin by by eapply list_elem_of_lookup_2.
      pose proof (contiguous_range _ _ _ Hl Hin). lia.
    + simplify_eq. unfold covers in He. lia.
Qed.

Lemma lookup_instr_spec l opcode :
  contiguous 0 l -> 0 <= opcode < top_opcode ->
  exists i, lookup_instr l opcode = Some i /\ i ∈ l /\ covers i opcode.
Proof.
  intros Hl Hop. destruct (contiguous_covered _ _ _ Hl Hop) as (k & i & Hk & Hi).
  exists i. split_and!; [|by eapply list_elem_of_lookup_2|done].
  apply lookup_lt_Some in Hk as Hlt. eapply lookup_loop_spec; [done..|lia|lia|lia].
Qed.

Lemma insert_all_spec instrs t0 t :
  Forall (fun o => forall i, o = Some i -> 0 <= min_opcode i) instrs ->
  table_ok 0 t0 -> insert_all instrs t0 = Some t ->
  table_ok 0 t /\ (forall j, j ∈ t <-> Some j ∈ instrs \/ j ∈ t0).
Proof.
  revert t0. induction instrs as [|o instrs IH]; intros t0 Hpos Ht0 H.
  - injection H as <-. split; [done|]. intros j. rewrite elem_of_nil. tauto.
  - apply Forall_cons_1 in Hpos as [Ho Hpos]. unfold insert_all in *. simpl in H.
    assert (forall l, foldl (fun o i => match o with Some t => insert i t | None => None end)
             None l = None) as Hnone by (induction l; done).
    destruct o as [i|]; simpl in H; [|by rewrite Hnone in H].
    destruct (insert_bool i t0) as [[t1|]|] eqn:Hi; [|by rewrite Hnone in H..].
    assert (min_opcode i < max_opcode i /\ max_opcode i <= top_opcode) as [Hlt Hle].
    { unfold insert_bool in Hi. destruct ((_ <? _) && _) eqn:E; [|done].
      apply andb_true_iff in E as [?%Z.ltb_lt ?%Z.leb_le]. done. }
    pose proof (insert_bool_spec i t0 Ht0 (conj (Ho i eq_refl) Hlt) Hle) as Hs.
    rewrite Hi in Hs. destruct Hs as (Ht1 & _ & Hin).
    destruct (IH t1 Hpos Ht1 H) as [Ht Hmem]. split; [done|].
    intros j. rewrite Hmem, Hin, elem_of_cons. split.
    + intros [?|[->|?]]; tauto.
    + intros [[[= ->]|?]|?]; tauto.
Qed.

(** Lookup in the finalized table. *)
Lemma table_lookup instrs t opcode :
  Forall (fun o => forall i, o = Some i -> 0 <= min_opcode i) instrs ->
  insert_all instrs [] = Some t ->
  0 <= opcode < top_opcode ->
  exists l i, finalize t = Some l /\ lookup_instr l opcode = Some i /\ covers i opcode /\
    (Some i ∈ instrs \/
     body i = OpcodeInstrDummy /\ forall j, Some j ∈ instrs -> ~ covers j opcode).
Proof.
  intros Hpos Ht Hop.
  destruct (insert_all_spec _ _ _ Hpos (ltac:(done) : table_ok 0 []) Ht) as [Hok Hmem].
  destruct (finalize_from_spec _ _ Hok) as (l & Hl & Hc & Hin).
  destruct (lookup_instr_spec _ _ Hc Hop) as (i & Hi & Hil & Hcov).
  exists l, i. split_and!; [done..|].
  destruct (Hin i Hil) as [H|[Hd Ho]].
  - left. apply Hmem in H as [H|H]; [done|by apply not_elem_of_nil in H].
  - right. split; [done|]. intros j Hj Hcj. apply (Ho j); [apply Hmem; by left|].
    unfold overlaps, covers in *. lia.
Qed.

(** C38: whatever instructions a codepage registers, as long as the registration
    succeeds: [finalize] passes all its assertions, and the binary search of
    [lookup_instr] finds for every 24-bit opcode the one registered instruction
    whose range contains it, or a dummy when there is none. *)
Theorem opcode_lookup_correct instrs t opcode :
  Forall (fun o => forall i, o = Some i -> 0 <= min_opcode i) instrs ->
  insert_all instrs [] = Some t ->
  0 <= opcode < top_opcode ->
  exists l i, finalize t = Some l /\ lookup_instr l opcode = Some i /\ covers i opcode /\
    (Some i ∈ instrs \/
     body i = OpcodeInstrDummy /\ forall j, Some j ∈ instrs -> ~ covers j opcode).
Proof. apply table_lookup. Qed.

Lemma opcode_lookup_correct_witness :
  exists l i, finalize [dummy_instr 16 32] = Some l /\ lookup_instr l 20 = Some i /\
    covers i 20 /\ i = dummy_instr 16 32.
Proof.
  destruct (opcode_lookup_correct [Some (dummy_instr 16 32)] [dummy_instr 16 32] 20)
    as (l & i & Hl & Hi & Hc & H).
  - constructor; [|constructor]. intros i [= <-]. simpl. lia.
  - reflexivity.
  - unfold top_opcode, max_opcode_bits. lia.
  - exists l, i. split_and!; [done..|]. destruct H as [H|[_ H]].
    + apply list_elem_of_singleton in H. by injection H.
    + destruct (H (dummy_instr 16 32)); [by apply list_elem_of_singleton|]. split; simpl; lia.
Defined.

(** ** Specifications of instructions *)

(** What the machine guarantees when it dispatches an instruction. *)
Definition vm_pre (s : VmState) : Prop := gas_room s /\ code s <> None.

Definition any_exc : exc -> VmState -> Prop := fun _ _ => True.

(** [instr_spec P i]: dispatched on any opcode of its range, with any number of
    available code bits, the instruction never runs into undefined behaviour, and
    when it returns, [P opcode v s'] relates the stack [v] before to the machine
    [s'] after it. *)
Definition instr_spec (P : Z -> Stack -> VmState -> Prop) (i : OpcodeInstr) : Prop :=
  forall opcode bits s, covers i opcode -> 0 <= bits <= max_opcode_bits -> vm_pre s ->
    wp (instr_dispatch (body i) opcode bits) (fun _ s' => P opcode (stack s) s') any_exc s.

Definition registered_spec (P : Z -> Stack -> VmState -> Prop) (o : option OpcodeInstr) : Prop :=
  match o with Some i => instr_spec P i | None => False end.

(** Freedom from undefined behaviour alone. *)
Definition registered_safe : option OpcodeInstr -> Prop := registered_spec (fun _ _ _ => True).

Lemma wp_code_advance n (Q : unit -> VmState -> Prop) (E : exc -> VmState -> Prop) s :
  code s <> None -> (forall c, Q tt (set_code_field (Some c) s)) -> wp (code_advance n) Q E s.
Proof. intros Hc HQ. unfold wp, code_advance. destruct (code s); [apply HQ|done]. Qed.

(** The machine state at the start of a handler. *)
Definition handler_pre (s : VmState) : Prop :=
  - 2 ^ 62 - 100 <= gas_remaining (gas s) < 2 ^ 63 /\ code s <> None.

Section instr_spec.
Implicit Types (s : VmState).
Context (P : Z -> Stack -> VmState -> Prop).

Lemma simplest_spec lo hi n exec :
  0 <= n <= max_opcode_bits ->
  (forall opcode s, lo <= opcode < hi -> handler_pre s ->
     wp exec (fun _ s' => P opcode (stack s) s') any_exc s) ->
  instr_spec P (mkInstr lo hi (OpcodeInstrSimplest n exec)).
Proof.
  intros Hn Hs opcode bits s Hop _ [[Hl Hr] Hc]. unfold max_opcode_bits in *. simpl.
  unfold simplest_dispatch, gas_per_instr, gas_per_bit.
  apply wp_bind, wp_consume_gas; [lia|lia|intros _|done].
  apply wp_bind, wp_unless_throw; [intros _|done].
  apply wp_bind, wp_code_advance; [done|]. intros c.
  pose proof (Hs opcode (set_code_field (Some c) (spend (10 + n * 1) s)) Hop) as H.
  apply H. split; simpl; [lia|done].
Qed.

Lemma fixed_spec lo hi n tot exec :
  0 <= tot <= max_opcode_bits ->
  (forall opcode s, lo <= opcode < hi -> handler_pre s ->
     wp (exec (Z.shiftr opcode (max_opcode_bits - tot))) (fun _ s' => P opcode (stack s) s')
       any_exc s) ->
  instr_spec P (mkInstr lo hi (OpcodeInstrFixed n tot exec)).
Proof.
  intros Hn Hs opcode bits s Hop _ [[Hl Hr] Hc]. simpl.
  unfold fixed_dispatch, ext_dispatch, gas_per_instr, gas_per_bit, max_opcode_bits in *.
  apply wp_bind, wp_consume_gas; [lia|lia|intros _|done].
  apply wp_bind, wp_unless_throw; [intros _|done].
  apply wp_bind, wp_code_advance; [done|]. intros c.
  pose proof (Hs opcode (set_code_field (Some c) (spend (10 + tot * 1) s)) Hop) as H.
  apply H. split; simpl; [lia|done].
Qed.

Lemma ext_spec lo hi n tot exec :
  0 <= tot <= max_opcode_bits ->
  (forall opcode s, lo <= opcode < hi -> handler_pre s ->
     wp (exec (Z.shiftr opcode (max_opcode_bits - tot)) tot)
       (fun _ s' => P opcode (stack s) s') any_exc s) ->
  instr_spec P (mkInstr lo hi (OpcodeInstrExt n tot exec)).
Proof.
  intros Hn Hs opcode bits s Hop _ [[Hl Hr] Hc]. simpl.
  unfold fixed_dispatch, ext_dispatch, gas_per_instr, gas_per_bit, max_opcode_bits in *.
  apply wp_bind, wp_consume_gas; [lia|lia|intros _|done].
  apply wp_bind, wp_unless_throw; [intros _|done].
  pose proof (Hs opcode (spend (10 + tot * 1) s) Hop) as H.
  apply H. split; simpl; [lia|done].
Qed.

Lemma version_spec lo hi b v :
  instr_spec P (mkInstr lo hi b) -> instr_spec P (mkInstr lo hi (OpcodeInstrWithVersion b v)).
Proof.
  intros Hs opcode bits s Hop Hb Hpre. simpl. unfold version_dispatch. apply wp_bind, wp_gets.
  destruct (global_version s <? v); [|by apply Hs].
  destruct Hpre as [[Hl Hr] _]. unfold gas_per_instr.
  apply wp_bind, wp_consume_gas; [lia|lia|intros _|done]. done.
Qed.

Lemma shiftr_range a b n x :
  0 <= n -> Z.shiftl a n <= x < Z.shiftl b n -> a <= Z.shiftr x n < b.
Proof.
  intros Hn. rewrite !Z.shiftl_mul_pow2, Z.shiftr_div_pow2 by done. intros [H1 H2].
  pose proof (pow2_pos n Hn). split.
  - apply Z.div_le_lower_bound; lia.
  - apply Z.div_lt_upper_bound; lia.
Qed.

(** The specification of a registered instruction from its handler's: the side
    condition on the constants is the constructor's assertion. *)
Lemma mksimple_spec opcode bits exec :
  (opcode <? 2 ^ bits) && (bits <=? max_opcode_bits) && (0 <=? bits) = true ->
  (forall op s, Z.shiftl opcode (24 - bits) <= op < Z.shiftl (opcode + 1) (24 - bits) ->
     handler_pre s -> wp exec (fun _ s' => P op (stack s) s') any_exc s) ->
  registered_spec P (mksimple opcode bits exec).
Proof.
  intros [H ?%Z.leb_le]%andb_true_iff Hs. unfold mksimple, mk_opcode. rewrite H.
  apply andb_true_iff in H as [_ ?%Z.leb_le]. by apply simplest_spec.
Qed.

Lemma mkfixed_spec opcode opc_bits arg_bits exec :
  (opcode <? 2 ^ opc_bits) && (0 <=? opc_bits) && (0 <=? arg_bits) &&
    (opc_bits + arg_bits <=? max_opcode_bits) = true ->
  (forall op args s, Z.shiftl opcode (24 - opc_bits) <= op < Z.shiftl (opcode + 1) (24 - opc_bits) ->
     Z.shiftl opcode arg_bits <= args < Z.shiftl (opcode + 1) arg_bits ->
     handler_pre s -> wp (exec args) (fun _ s' => P op (stack s) s') any_exc s) ->
  registered_spec P (mkfixed opcode opc_bits arg_bits exec).
Proof.
  intros [[[Ho ?%Z.leb_le]%andb_true_iff ?%Z.leb_le]%andb_true_iff ?%Z.leb_le]%andb_true_iff Hs.
  unfold mkfixed, mk_opcode. rewrite Ho, !(proj2 (Z.leb_le _ _)) by lia. simpl.
  apply fixed_spec; [lia|]. intros x s Hx. apply Hs; [done|].
  apply shiftr_range; [lia|]. rewrite !Z.shiftl_shiftl by lia.
  by replace (arg_bits + (max_opcode_bits - (opc_bits + arg_bits)))
    with (max_opcode_bits - opc_bits) by lia.
Qed.

Lemma mkfixedrange_spec lo hi tot_bits arg_bits exec :
  (arg_bits <=? tot_bits) && (tot_bits <=? max_opcode_bits) && (lo <? hi) &&
    (hi <=? 2 ^ tot_bits) && (0 <=? tot_bits) = true ->
  (forall op args s, Z.shiftl lo (24 - tot_bits) <= op < Z.shiftl hi (24 - tot_bits) ->
     lo <= args < hi -> handler_pre s ->
     wp (exec args) (fun _ s' => P op (stack s) s') any_exc s) ->
  registered_spec P (mkfixedrange lo hi tot_bits arg_bits exec).
Proof.
  intros [H ?%Z.leb_le]%andb_true_iff Hs. unfold mkfixedrange, mk_range. rewrite H.
  rewrite !andb_true_iff, !Z.leb_le in H.
  apply fixed_spec; [lia|]. intros x s Hx. apply Hs; [done|]. apply shiftr_range; [lia|done].
Qed.

Lemma mkext_spec opcode opc_bits arg_bits exec :
  (opcode <? 2 ^ opc_bits) && (0 <=? opc_bits) && (0 <=? arg_bits) &&
    (opc_bits + arg_bits <=? max_opcode_bits) = true ->
  (forall op args s, Z.shiftl opcode (24 - opc_bits) <= op < Z.shiftl (opcode + 1) (24 - opc_bits) ->
     Z.shiftl opcode arg_bits <= args < Z.shiftl (opcode + 1) arg_bits ->
     handler_pre s ->
     wp (exec args (opc_bits + arg_bits)) (fun _ s' => P op (stack s) s') any_exc s) ->
  registered_spec P (mkext opcode opc_bits arg_bits exec).
Proof.
  intros [[[Ho ?%Z.leb_le]%andb_true_iff ?%Z.leb_le]%andb_true_iff ?%Z.leb_le]%andb_true_iff Hs.
  unfold mkext, mk_opcode. rewrite Ho, !(proj2 (Z.leb_le _ _)) by lia. simpl.
  apply ext_spec; [lia|]. intros x s Hx. apply Hs; [done|].
  apply shiftr_range; [lia|]. rewrite !Z.shiftl_shiftl by lia.
  by replace (arg_bits + (max_opcode_bits - (opc_bits + arg_bits)))
    with (max_opcode_bits - opc_bits) by lia.
Qed.

Lemma mkextrange_spec lo hi tot_bits arg_bits exec :
  (arg_bits <=? tot_bits) && (tot_bits <=? max_opcode_bits) && (lo <? hi) &&
    (hi <=? 2 ^ tot_bits) && (0 <=? tot_bits) = true ->
  (forall op args s, Z.shiftl lo (24 - tot_bits) <= op < Z.shiftl hi (24 - tot_bits) ->
     lo <= args < hi -> handler_pre s ->
     wp (exec args tot_bits) (fun _ s' => P op (stack s) s') any_exc s) ->
  registered_spec P (mkextrange lo hi tot_bits arg_bits exec).
Proof.
  intros [H ?%Z.leb_le]%andb_true_iff Hs. unfold mkextrange, mk_range. rewrite H.
  rewrite !andb_true_iff, !Z.leb_le in H.
  apply ext_spec; [lia|]. intros x s Hx. apply Hs; [done|]. apply shiftr_range; [lia|done].
Qed.

Lemma require_version_spec v o :
  registered_spec P o -> registered_spec P (require_version v o).
Proof. destruct o as [[lo hi b]|]; [apply version_spec|done]. Qed.
End instr_spec.

(** Reduce the specification of a registered instruction to its handler's. *)
Ltac norm_range H :=
  lazymatch type of H with
  | ?a <= ?x < ?b =>
      let a' := eval vm_compute in a in let b' := eval vm_compute in b in
      change (a' <= x < b') in H
  end.

Ltac instr_spec_tac :=
  unfold registered_safe;
  repeat apply require_version_spec;
  first
    [ apply mksimple_spec; [reflexivity | intros op s Hop Hpre; norm_range Hop]
    | apply mkfixed_spec;
      [reflexivity | intros op args s Hop Hargs Hpre; norm_range Hop; norm_range Hargs]
    | apply mkfixedrange_spec;
      [reflexivity | intros op args s Hop Hargs Hpre; norm_range Hop; norm_range Hargs]
    | apply mkext_spec;
      [reflexivity | intros op args s Hop Hargs Hpre; norm_range Hop; norm_range Hargs]
    | apply mkextrange_spec;
      [reflexivity | intros op args s Hop Hargs Hpre; norm_range Hop; norm_range Hargs] ].
