(* ===== verification/StackOps.v ===== *)
(** * Stack manipulation primitives (crypto/vm/stackops.cpp)

    Every [exec_*] handler of the file, and the part of codepage 0 that
    [register_stack_ops] fills. *)
From S2P Require Import Prelude BigInt Int256 Cells VmTypes Stack OpcodeTable.

(** [(args >> k) & 15] *)
Definition nibble (k args : Z) : Z := Z.land (Z.shiftr args k) 15.
Definition low_byte (args : Z) : Z := Z.land args 255.

(** Handlers that only touch the stack return 0. *)
Definition stack_op (m : M Stack unit) : M VmState Z := on_stack m ;; ret 0.

Definition exec_nop : M VmState Z := ret 0.

(** ** Basic primitives *)

Definition exec_swap : M VmState Z := stack_op (check_underflow [2] ;; swap 0 1).

Definition exec_xchg0 (args : Z) : M VmState Z :=
  let x := Z.land args 15 in stack_op (check_underflow_p [x] ;; swap 0 x).

Definition exec_xchg0_l (args : Z) : M VmState Z :=
  let x := low_byte args in stack_op (check_underflow_p [x] ;; swap 0 x).

Definition exec_xchg (args : Z) : M VmState Z :=
  let x := nibble 4 args in let y := Z.land args 15 in
  unless_throw (negb ((x =? 0) || (y <=? x))) (VmError Exc_inv_opcode) ;;
  stack_op (check_underflow_p [y] ;; swap x y).

Definition exec_xchg1 (args : Z) : M VmState Z :=
  let x := Z.land args 15 in
  assert_ub (2 <=? x) ;;
  stack_op (check_underflow_p [x] ;; swap 1 x).

Definition exec_dup : M VmState Z :=
  stack_op (check_underflow [1] ;; e <- fetch 0 ;; push e).

Definition exec_over : M VmState Z :=
  stack_op (check_underflow [2] ;; e <- fetch 1 ;; push e).

Definition exec_push (args : Z) : M VmState Z :=
  let x := Z.land args 15 in
  stack_op (check_underflow_p [x] ;; e <- fetch x ;; push e).

Definition exec_push_l (args : Z) : M VmState Z :=
  let x := low_byte args in
  stack_op (check_underflow_p [x] ;; e <- fetch x ;; push e).

Definition exec_drop : M VmState Z := stack_op (check_underflow [1] ;; pop ;; ret tt).

Definition exec_nip : M VmState Z := stack_op (check_underflow [2] ;; pop_to 1).

Definition exec_pop (args : Z) : M VmState Z :=
  let x := Z.land args 15 in stack_op (check_underflow_p [x] ;; pop_to x).

Definition exec_pop_l (args : Z) : M VmState Z :=
  let x := low_byte args in stack_op (check_underflow_p [x] ;; pop_to x).

(** ** Compound primitives *)

Definition exec_xchg2 (args : Z) : M VmState Z :=
  let x := nibble 4 args in let y := Z.land args 15 in
  stack_op (check_underflow_p [x; y; 1] ;; swap 1 x ;; swap 0 y).

Definition exec_xcpu (args : Z) : M VmState Z :=
  let x := nibble 4 args in let y := Z.land args 15 in
  stack_op (check_underflow_p [x; y] ;; swap 0 x ;; e <- fetch y ;; push e).

Definition exec_puxc (args : Z) : M VmState Z :=
  let x := nibble 4 args in let y := Z.land args 15 in
  stack_op (check_underflow_p [x] ;; check_underflow [y] ;;
            e <- fetch x ;; push e ;; swap 0 1 ;; swap 0 y).

Definition exec_push2 (args : Z) : M VmState Z :=
  let x := nibble 4 args in let y := Z.land args 15 in
  stack_op (check_underflow_p [x; y] ;;
            e <- fetch x ;; push e ;; e <- fetch (y + 1) ;; push e).

Definition exec_xchg3 (args : Z) : M VmState Z :=
  let x := nibble 8 args in let y := nibble 4 args in let z := Z.land args 15 in
  stack_op (check_underflow_p [x; y; z; 2] ;; swap 2 x ;; swap 1 y ;; swap 0 z).

Definition exec_xc2pu (args : Z) : M VmState Z :=
  let x := nibble 8 args in let y := nibble 4 args in let z := Z.land args 15 in
  stack_op (check_underflow_p [x; y; z; 1] ;; swap 1 x ;; swap 0 y ;; e <- fetch z ;; push e).

Definition exec_xcpuxc (args : Z) : M VmState Z :=
  let x := nibble 8 args in let y := nibble 4 args in let z := Z.land args 15 in
  stack_op (check_underflow_p [x; y; 1] ;; check_underflow [z] ;;
            swap 1 x ;; e <- fetch y ;; push e ;; swap 0 1 ;; swap 0 z).

Definition exec_xcpu2 (args : Z) : M VmState Z :=
  let x := nibble 8 args in let y := nibble 4 args in let z := Z.land args 15 in
  stack_op (check_underflow_p [x; y; z] ;;
            swap 0 x ;; e <- fetch y ;; push e ;; e <- fetch (z + 1) ;; push e).

Definition exec_puxc2 (args : Z) : M VmState Z :=
  let x := nibble 8 args in let y := nibble 4 args in let z := Z.land args 15 in
  stack_op (check_underflow_p [x; 1] ;; check_underflow [y; z] ;;
            e <- fetch x ;; push e ;; swap 2 0 ;; swap 1 y ;; swap 0 z).

Definition exec_puxcpu (args : Z) : M VmState Z :=
  let x := nibble 8 args in let y := nibble 4 args in let z := Z.land args 15 in
  stack_op (check_underflow_p [x] ;; check_underflow [y; z] ;;
            e <- fetch x ;; push e ;; swap 0 1 ;; swap 0 y ;; e <- fetch z ;; push e).

Definition exec_pu2xc (args : Z) : M VmState Z :=
  let x := nibble 8 args in let y := nibble 4 args in let z := Z.land args 15 in
  stack_op (check_underflow_p [x] ;; check_underflow [y; z - 1] ;;
            e <- fetch x ;; push e ;; swap 1 0 ;; e <- fetch y ;; push e ;;
            swap 1 0 ;; swap 0 z).

Definition exec_push3 (args : Z) : M VmState Z :=
  let x := nibble 8 args in let y := nibble 4 args in let z := Z.land args 15 in
  stack_op (check_underflow_p [x; y; z] ;;
            e <- fetch x ;; push e ;; e <- fetch (y + 1) ;; push e ;;
            e <- fetch (z + 2) ;; push e).

(** ** Exotic primitives *)

Definition exec_blkswap (args : Z) : M VmState Z :=
  let x := nibble 4 args + 1 in let y := Z.land args 15 + 1 in
  stack_op (check_underflow [x + y] ;; rotate_blocks x y).

Definition exec_rot : M VmState Z := stack_op (check_underflow [3] ;; swap 1 2 ;; swap 0 1).
Definition exec_rotrev : M VmState Z := stack_op (check_underflow [3] ;; swap 0 1 ;; swap 1 2).
Definition exec_2swap : M VmState Z := stack_op (check_underflow [4] ;; swap 1 3 ;; swap 0 2).
Definition exec_2drop : M VmState Z := stack_op (check_underflow [2] ;; pop ;; pop ;; ret tt).
Definition exec_2dup : M VmState Z :=
  stack_op (check_underflow [2] ;; e <- fetch 1 ;; push e ;; e <- fetch 1 ;; push e).
Definition exec_2over : M VmState Z :=
  stack_op (check_underflow [4] ;; e <- fetch 3 ;; push e ;; e <- fetch 3 ;; push e).

Definition exec_reverse (args : Z) : M VmState Z :=
  let x := nibble 4 args + 2 in let y := Z.land args 15 in
  stack_op (check_underflow [x + y] ;; reverse_block x y).

Definition exec_blkdrop (args : Z) : M VmState Z :=
  let x := Z.land args 15 in stack_op (check_underflow [x] ;; pop_many x).

Definition exec_blkdrop2 (args : Z) : M VmState Z :=
  let x := nibble 4 args in let y := Z.land args 15 in
  stack_op (check_underflow [x + y] ;; pop_many_offs x y).

(** [while (--x >= 0) stack.push(stack.fetch(y))] *)
Fixpoint blkpush_loop (x : nat) (y : Z) : M Stack unit :=
  match x with
  | O => ret tt
  | S x' => e <- fetch y ;; push e ;; blkpush_loop x' y
  end.
Definition exec_blkpush (args : Z) : M VmState Z :=
  let x := nibble 4 args in let y := Z.land args 15 in
  stack_op (check_underflow_p [y] ;; blkpush_loop (Z.to_nat x) y).

(** ** Primitives with arguments on the stack *)

(** [pop_smallint_range(version >= 4 ? (1 << 30) - 1 : 255)] *)
Definition smallint_max (v : Z) : Z := if 4 <=? v then 2 ^ 30 - 1 else 255.
Definition pop_index : M VmState Z :=
  v <- gets global_version ;; on_stack (pop_smallint_range (smallint_max v) 0).

Definition exec_pick : M VmState Z :=
  on_stack (check_underflow [1]) ;;
  x <- pop_index ;;
  stack_op (check_underflow_p [x] ;; e <- fetch x ;; push e).

(** [while (--x >= 0) swap(stack[x], stack[x + 1])] *)
Fixpoint roll_loop (x : nat) : M Stack unit :=
  match x with
  | O => ret tt
  | S x' => swap (Z.of_nat x') (Z.of_nat x' + 1) ;; roll_loop x'
  end.
Definition exec_roll : M VmState Z :=
  on_stack (check_underflow [1]) ;;
  x <- pop_index ;;
  on_stack (check_underflow_p [x]) ;;
  consume_gas (Z.max (x - 255) 0) ;;
  stack_op (roll_loop (Z.to_nat x)).

(** [for (i = 0; i < x; i++) swap(stack[i], stack[i + 1])], [n] steps from [i]. *)
Fixpoint rollrev_loop (i : Z) (n : nat) : M Stack unit :=
  match n with
  | O => ret tt
  | S n' => swap i (i + 1) ;; rollrev_loop (i + 1) n'
  end.
Definition exec_rollrev : M VmState Z :=
  on_stack (check_underflow [1]) ;;
  x <- pop_index ;;
  on_stack (check_underflow_p [x]) ;;
  consume_gas (Z.max (x - 255) 0) ;;
  stack_op (rollrev_loop 0 (Z.to_nat x)).

Definition exec_blkswap_x : M VmState Z :=
  on_stack (check_underflow [2]) ;;
  y <- pop_index ;;
  x <- pop_index ;;
  on_stack (check_underflow [x + y]) ;;
  (if (0 <? x) && (0 <? y) then
     v <- gets global_version ;;
     (if 4 <=? v then consume_gas (Z.max (x + y - 255) 0) else ret tt) ;;
     on_stack (rotate_blocks x y)
   else ret tt) ;;
  ret 0.

Definition exec_reverse_x : M VmState Z :=
  on_stack (check_underflow [2]) ;;
  y <- pop_index ;;
  x <- pop_index ;;
  on_stack (check_underflow [x + y]) ;;
  consume_gas (Z.max (x - 255) 0) ;;
  stack_op (reverse_block x y).

Definition exec_drop_x : M VmState Z :=
  on_stack (check_underflow [1]) ;;
  x <- pop_index ;;
  stack_op (check_underflow [x] ;; pop_many x).

Definition exec_tuck : M VmState Z :=
  stack_op (check_underflow [2] ;; swap 0 1 ;; e <- fetch 1 ;; push e).

Definition exec_xchg_x : M VmState Z :=
  on_stack (check_underflow [1]) ;;
  x <- pop_index ;;
  stack_op (check_underflow_p [x] ;; swap 0 x).

Definition exec_depth : M VmState Z :=
  stack_op (d <- gets depth ;; push_smallint d).

Definition exec_chkdepth : M VmState Z :=
  on_stack (check_underflow [1]) ;;
  x <- pop_index ;;
  stack_op (check_underflow [x]).

(** [for (i = n - 1; i >= d; i--) stack[i] = std::move(stack[i - d])], [k] steps
    from [i]; the entry moved from is left null. *)
Fixpoint onlytop_loop (i d : Z) (k : nat) : M Stack unit :=
  match k with
  | O => ret tt
  | S k' =>
      e <- fetch (i - d) ;; assign (i - d) t_null ;; assign i e ;;
      onlytop_loop (i - 1) d k'
  end.
Definition exec_onlytop_x : M VmState Z :=
  on_stack (check_underflow [1]) ;;
  x <- pop_index ;;
  on_stack (check_underflow [x]) ;;
  n <- gets (fun s => depth (stack s)) ;;
  let d := n - x in
  (if 0 <? d then
     consume_gas (Z.max (x - 255) 0) ;;
     on_stack (onlytop_loop (n - 1) d (Z.to_nat (n - d)))
   else ret tt) ;;
  stack_op (pop_many d).

Definition exec_only_x : M VmState Z :=
  on_stack (check_underflow [1]) ;;
  x <- pop_index ;;
  on_stack (check_underflow [x]) ;;
  n <- gets (fun s => depth (stack s)) ;;
  stack_op (pop_many (n - x)).

(** ** Registration *)

Definition register_stack_ops : list (option OpcodeInstr) := [
  mksimple 0x00 8 exec_nop;
  mksimple 0x01 8 exec_swap;
  mkfixedrange 0x02 0x10 8 4 exec_xchg0;
  mkfixed 0x10 8 8 exec_xchg;
  mkfixed 0x11 8 8 exec_xchg0_l;
  mkfixedrange 0x12 0x20 8 4 exec_xchg1;
  mksimple 0x20 8 exec_dup;
  mksimple 0x21 8 exec_over;
  mkfixedrange 0x22 0x30 8 4 exec_push;
  mksimple 0x30 8 exec_drop;
  mksimple 0x31 8 exec_nip;
  mkfixedrange 0x32 0x40 8 4 exec_pop;
  mkfixed 0x4 4 12 exec_xchg3;
  mkfixed 0x50 8 8 exec_xchg2;
  mkfixed 0x51 8 8 exec_xcpu;
  mkfixed 0x52 8 8 exec_puxc;
  mkfixed 0x53 8 8 exec_push2;
  mkfixed 0x540 12 12 exec_xchg3;
  mkfixed 0x541 12 12 exec_xc2pu;
  mkfixed 0x542 12 12 exec_xcpuxc;
  mkfixed 0x543 12 12 exec_xcpu2;
  mkfixed 0x544 12 12 exec_puxc2;
  mkfixed 0x545 12 12 exec_puxcpu;
  mkfixed 0x546 12 12 exec_pu2xc;
  mkfixed 0x547 12 12 exec_push3;
  mkfixed 0x55 8 8 exec_blkswap;
  mkfixed 0x56 8 8 exec_push_l;
  mkfixed 0x57 8 8 exec_pop_l;
  mksimple 0x58 8 exec_rot;
  mksimple 0x59 8 exec_rotrev;
  mksimple 0x5a 8 exec_2swap;
  mksimple 0x5b 8 exec_2drop;
  mksimple 0x5c 8 exec_2dup;
  mksimple 0x5d 8 exec_2over;
  mkfixed 0x5e 8 8 exec_reverse;
  mkfixed 0x5f0 12 4 exec_blkdrop;
  mkfixedrange 0x5f10 0x6000 16 8 exec_blkpush;
  mksimple 0x60 8 exec_pick;
  mksimple 0x61 8 exec_roll;
  mksimple 0x62 8 exec_rollrev;
  mksimple 0x63 8 exec_blkswap_x;
  mksimple 0x64 8 exec_reverse_x;
  mksimple 0x65 8 exec_drop_x;
  mksimple 0x66 8 exec_tuck;
  mksimple 0x67 8 exec_xchg_x;
  mksimple 0x68 8 exec_depth;
  mksimple 0x69 8 exec_chkdepth;
  mksimple 0x6a 8 exec_onlytop_x;
  mksimple 0x6b 8 exec_only_x;
  mkfixedrange 0x6c10 0x6d00 16 8 exec_blkdrop2
].

(** ** Freedom from undefined behaviour *)

Lemma land_ones_range a n : 0 <= n -> 0 <= Z.land a (Z.ones n) < 2 ^ n.
Proof. intros. rewrite Z.land_ones by done. apply Z.mod_pos_bound, pow2_pos. done. Qed.
Lemma land15_range a : 0 <= Z.land a 15 < 16.
Proof. apply (land_ones_range a 4). done. Qed.
Lemma nibble_range k a : 0 <= nibble k a < 16.
Proof. apply land15_range. Qed.
Lemma low_byte_range a : 0 <= low_byte a < 256.
Proof. apply (land_ones_range a 8). done. Qed.

Lemma wp_blkpush_loop x y (Q : unit -> Stack -> Prop) E v :
  0 <= y < depth v -> (forall v', Q tt v') -> wp (blkpush_loop x y) Q E v.
Proof.
  revert v. induction x as [|x IH]; intros v Hy HQ; simpl; [by apply wp_ret|].
  apply wp_bind, wp_fetch; [lia|]. intros e _. apply wp_bind, wp_push.
  apply IH; [|done]. depth_lia.
Qed.

(** ROLL brings the entry at depth [x] to the top. *)
Lemma roll_loop_run x e t r :
  length t = x -> roll_loop x (t ++ e :: r) = Ret tt (e :: t ++ r).
Proof.
  revert e t r. induction x as [|x IH]; intros e t r Ht.
  - by destruct t.
  - destruct (exists_last (l := t)) as (t' & a & ->); [by destruct t|].
    rewrite length_app in Ht. simpl in Ht. simpl roll_loop. unfold bind.
    assert (swap (Z.of_nat x) (Z.of_nat x + 1) ((t' ++ [a]) ++ e :: r) =
            Ret tt (t' ++ e :: a :: r)) as ->.
    { unfold swap. rewrite (proj2 (Z.ltb_ge _ 0)), (proj2 (Z.ltb_ge _ 0)) by lia. cbn [orb].
      unfold list_swap. rewrite <- app_assoc. simpl.
      replace (Z.to_nat (Z.of_nat x)) with (length t' + 0)%nat by lia.
      replace (Z.to_nat (Z.of_nat x + 1)) with (length t' + 1)%nat by lia.
      rewrite !lookup_app_plus. simpl. by rewrite !insert_app_r. }
    rewrite IH by lia. by rewrite <- app_assoc.
Qed.

(** ROLLREV moves the top entry to depth [x]. *)
Lemma rollrev_loop_run p e t r i :
  i = Z.of_nat (length p) ->
  rollrev_loop i (length t) (p ++ e :: t ++ r) = Ret tt (p ++ t ++ e :: r).
Proof.
  revert p e i. induction t as [|a t IH]; intros p e i ->; [done|].
  simpl length. simpl rollrev_loop. unfold bind.
  assert (swap (Z.of_nat (length p)) (Z.of_nat (length p) + 1) (p ++ e :: a :: t ++ r) =
          Ret tt ((p ++ [a]) ++ e :: t ++ r)) as ->.
  { unfold swap. rewrite (proj2 (Z.ltb_ge _ 0)), (proj2 (Z.ltb_ge _ 0)) by lia. cbn [orb].
    unfold list_swap. simpl.
    replace (Z.to_nat (Z.of_nat (length p))) with (length p + 0)%nat by lia.
    replace (Z.to_nat (Z.of_nat (length p) + 1)) with (length p + 1)%nat by lia.
    rewrite !lookup_app_plus. simpl. rewrite !insert_app_r. simpl. by rewrite <- app_assoc. }
  rewrite IH; [|rewrite length_app; simpl; lia]. by rewrite <- app_assoc.
Qed.

Lemma wp_run {S A} (m : M S A) Q E s a s' : m s = Ret a s' -> Q a s' -> wp m Q E s.
Proof. unfold wp. by intros ->. Qed.

Lemma wp_roll_loop x (Q : unit -> Stack -> Prop) E v :
  Z.of_nat x < depth v -> (forall v', Q tt v') -> wp (roll_loop x) Q E v.
Proof.
  intros Hx HQ. destruct (lookup_lt_is_Some_2 v x) as [e He]; [unfold depth in *; lia|].
  eapply wp_run; [|apply HQ].
  rewrite <- (take_drop_middle v x e He) at 1. apply roll_loop_run.
  apply lookup_lt_Some in He. rewrite length_take. lia.
Qed.

Lemma wp_rollrev_loop x (Q : unit -> Stack -> Prop) E v :
  Z.of_nat x < depth v -> (forall v', Q tt v') -> wp (rollrev_loop 0 x) Q E v.
Proof.
  intros Hx HQ. destruct v as [|e v]; [unfold depth in Hx; simpl in Hx; lia|].
  rewrite depth_cons in Hx. unfold depth in Hx.
  assert (length (take x v) = x) as Hl by (rewrite length_take; lia).
  eapply wp_run; [|apply HQ].
  rewrite <- (take_drop x v) at 1. rewrite <- Hl at 1. by apply (rollrev_loop_run []).
Qed.

Lemma wp_onlytop_loop k i d (Q : unit -> Stack -> Prop) E v :
  0 <= d -> Z.of_nat k <= i + 1 - d -> i < depth v ->
  (forall v', depth v' = depth v -> Q tt v') -> wp (onlytop_loop i d k) Q E v.
Proof.
  revert i v. induction k as [|k IH]; intros i v Hd Hk Hi HQ; simpl; [by apply wp_ret, HQ|].
  apply wp_bind, wp_fetch; [lia|]. intros e _.
  assert (forall j (a : StackEntry) v, depth (<[j:=a]> v) = depth v) as Hdep.
  { intros. unfold depth. by rewrite length_insert. }
  apply wp_bind, wp_assign; [lia|]. apply wp_bind, wp_assign; [rewrite Hdep; lia|].
  apply IH; rewrite ?Hdep; [lia..|]. intros v' Hv'. apply HQ. by rewrite Hv', ?Hdep.
Qed.

Lemma smallint_max_range v : 255 <= smallint_max v < 2 ^ 30.
Proof. unfold smallint_max. case_match; lia. Qed.

Lemma wp_pop_index (Q : Z -> VmState -> Prop) s :
  (forall x v, 0 <= x < 2 ^ 30 -> 0 <= depth v -> depth v = depth (stack s) - 1 ->
     Q x (set_stack v s)) ->
  wp pop_index Q any_exc s.
Proof.
  intros HQ. unfold pop_index. apply wp_bind, wp_gets, wp_on_stack.
  pose proof (smallint_max_range (global_version s)).
  eapply pops_use; [apply pops_pop_smallint_range; lia| |done].
  intros x e v Hx _ H0 Hd. apply HQ; [cbv beta in Hx; lia|done|done].
Qed.

(** Symbolic execution of a handler down to [True]. *)
Ltac vm_simpl := cbn [stack set_stack gas set_gas spend set_remaining gas_remaining
  global_version code set_code_field] in *.

Ltac handler_step :=
  first
    [ exact I
    | wp_step
    | lazymatch goal with
      | |- wp (stack_op _) _ _ _ => unfold stack_op
      | |- wp (on_stack _) _ _ _ => apply wp_on_stack; vm_simpl
      | |- wp (assert_ub _) _ _ _ => apply wp_assert_ub; [apply Z.leb_le; lia|]
      | |- wp pop_index _ _ _ => apply wp_pop_index; intros ? ? ? ? ?; vm_simpl
      | |- wp (consume_gas _) _ _ _ =>
          apply wp_consume_gas; [lia | vm_simpl; lia | intros _ | done]
      | |- wp (roll_loop _) _ _ _ => apply wp_roll_loop; [lia | intros ?]
      | |- wp (rollrev_loop _ _) _ _ _ => apply wp_rollrev_loop; [lia | intros ?]
      | |- wp (blkpush_loop _ _) _ _ _ => apply wp_blkpush_loop; [lia | intros ?]
      | |- wp (onlytop_loop _ _ _) _ _ _ => apply wp_onlytop_loop; [lia.. | intros ? ?]
      end
    | stack_step ].

Ltac name_args :=
  repeat match goal with
    | |- context [nibble ?k ?a] =>
        let x := fresh "x" in pose proof (nibble_range k a); set (x := nibble k a) in *; clearbody x
    | |- context [Z.land ?a 15] =>
        let x := fresh "x" in pose proof (land15_range a); set (x := Z.land a 15) in *; clearbody x
    | |- context [low_byte ?a] =>
        let x := fresh "x" in pose proof (low_byte_range a); set (x := low_byte a) in *; clearbody x
    end.

Lemma xchg1_arg args : 0x12 <= args < 0x20 -> 2 <= Z.land args 15.
Proof.
  intros H. change 15 with (Z.ones 4). rewrite Z.land_ones by done. change (2 ^ 4) with 16. div_lia.
Qed.

(** No instruction of the stack group runs into undefined behaviour: dispatched on
    any opcode of its range, in any machine state, it either returns or throws a
    VM exception; no vector access is out of range, no assertion (such as that of
    [exec_xchg1] on its argument) fails, and the gas counter does not overflow. *)
Lemma stack_ops_safe : Forall registered_safe register_stack_ops.
Proof.
  unfold register_stack_ops. split_Forall;
  instr_spec_tac; destruct Hpre as [Hgas _].
  all: try (pose proof (xchg1_arg args Hargs)).
  all: unfold_head; cbv zeta; name_args.
  all: repeat handler_step.
Qed.

(** ** Functional behaviour *)

Lemma check_underflow_ok reqs v :
  Forall (fun r => r <= depth v) reqs -> check_underflow reqs v = Ret tt v.
Proof.
  intros H. unfold check_underflow, bind, gets, unless_throw.
  assert (forallb (at_least v) reqs = true) as ->; [|done].
  induction H as [|r reqs Hr _ IH]; [done|]. simpl. rewrite IH, andb_true_r. by apply Z.leb_le.
Qed.
Lemma check_underflow_p_ok reqs v :
  Forall (fun r => r < depth v) reqs -> check_underflow_p reqs v = Ret tt v.
Proof.
  intros H. unfold check_underflow_p, bind, gets, unless_throw.
  assert (forallb (more_than v) reqs = true) as ->; [|done].
  induction H as [|r reqs Hr _ IH]; [done|]. simpl. rewrite IH, andb_true_r. by apply Z.ltb_lt.
Qed.
Lemma check_underflow_fail reqs v :
  ~ Forall (fun r => r <= depth v) reqs ->
  check_underflow reqs v = Exn (VmError Exc_stk_und) v.
Proof.
  intros H. unfold check_underflow, bind, gets, unless_throw.
  destruct (forallb (at_least v) reqs) eqn:E; [|done]. destruct H.
  induction reqs as [|r reqs IH]; [constructor|].
  apply andb_true_iff in E as [?%Z.leb_le ?]. constructor; auto.
Qed.
Lemma check_underflow_p_fail reqs v :
  ~ Forall (fun r => r < depth v) reqs ->
  check_underflow_p reqs v = Exn (VmError Exc_stk_und) v.
Proof.
  intros H. unfold check_underflow_p, bind, gets, unless_throw.
  destruct (forallb (more_than v) reqs) eqn:E; [|done]. destruct H.
  induction reqs as [|r reqs IH]; [constructor|].
  apply andb_true_iff in E as [?%Z.ltb_lt ?]. constructor; auto.
Qed.

Lemma swap_run i j v :
  0 <= i < depth v -> 0 <= j < depth v ->
  exists v', swap i j v = Ret tt v' /\ depth v' = depth v.
Proof.
  intros Hi Hj.
  assert (wp (swap i j) (fun _ v' => depth v' = depth v) (fun _ _ => False) v) as H.
  { apply wp_swap; auto. }
  unfold wp in H. destruct (swap i j v) as [[] v'| |]; [by exists v'|done..].
Qed.
Lemma fetch_run i v : 0 <= i < depth v -> exists e, fetch i v = Ret e v.
Proof.
  intros Hi. assert (wp (fetch i) (fun _ v' => v' = v) (fun _ _ => False) v) as H.
  { apply wp_fetch; auto. }
  unfold wp in H. destruct (fetch i v) as [e v'| |]; [subst; by exists e|done..].
Qed.

(** The two basic instructions that the compound ones abbreviate. *)
Definition xchg (i j : Z) : M Stack unit := check_underflow_p [i; j] ;; swap i j.
Definition push_s (i : Z) : M Stack unit :=
  check_underflow_p [i] ;; e <- fetch i ;; push e.

(** Two pieces of code with the same outcome: the same result and state, or the
    same exception. *)
Definition same_outcome {S A} (m1 m2 : M S A) (s : S) : Prop :=
  match m1 s, m2 s with
  | Ret a1 s1, Ret a2 s2 => a1 = a2 /\ s1 = s2
  | Exn e1 _, Exn e2 _ => e1 = e2
  | _, _ => False
  end.

Lemma same_outcome_stack_op m1 m2 s :
  same_outcome m1 m2 (stack s) -> same_outcome (stack_op m1) (stack_op m2) s.
Proof.
  unfold same_outcome, stack_op, on_stack, bind, ret.
  destruct (m1 (stack s)), (m2 (stack s)); naive_solver.
Qed.

(** Run both sides of an equation of stack code symbolically, splitting on every
    underflow check. *)
Ltac check_case ok fail r v P :=
  let H := fresh "Hchk" in
  destruct (decide (Forall P r)) as [H|H];
  [ rewrite !(ok r v H); split_checks
  | rewrite !(fail r v H); rewrite ?list.Forall_cons, list.Forall_nil in H ].

Ltac run_step :=
  match goal with
  | |- context [check_underflow_p ?r ?v] =>
      check_case check_underflow_p_ok check_underflow_p_fail r v (fun x => x < depth v)
  | |- context [check_underflow ?r ?v] =>
      check_case check_underflow_ok check_underflow_fail r v (fun x => x <= depth v)
  | |- context [swap ?i ?j ?v] =>
      let v' := fresh "v" in let E := fresh "E" in let D := fresh "D" in
      destruct (swap_run i j v) as (v' & E & D); [depth_lia | depth_lia | rewrite !E; clear E]
  | |- context [fetch ?i ?v] =>
      let e := fresh "e" in let E := fresh "E" in
      destruct (fetch_run i v) as (e & E); [depth_lia | rewrite !E; clear E]
  end;
  unfold push, modify; cbv beta iota; try (exfalso; depth_lia).

Ltac by_outcome :=
  apply same_outcome_stack_op; unfold xchg, push_s, same_outcome, bind;
  repeat run_step; done.

(** the compound stack primitives abbreviate sequences of XCHG and PUSH: with
    i, j, k the nibbles of the argument, each of XCHG2, XCPU, PUXC, PUSH2, XCHG3,
    XC2PU, XCPUXC, XCPU2, PUXC2, PUXCPU, PU2XC and PUSH3 leaves the same stack as its
    expansion, and fails with stack underflow exactly when the expansion does. *)
Theorem compound_ops_expand args s :
  let i2 := nibble 4 args in let j2 := Z.land args 15 in
  let i := nibble 8 args in let j := nibble 4 args in let k := Z.land args 15 in
  same_outcome (exec_xchg2 args) (stack_op (xchg 1 i2 ;; xchg 0 j2)) s /\
  same_outcome (exec_xcpu args) (stack_op (xchg 0 i2 ;; push_s j2)) s /\
  same_outcome (exec_puxc args) (stack_op (push_s i2 ;; xchg 0 1 ;; xchg 0 j2)) s /\
  same_outcome (exec_push2 args) (stack_op (push_s i2 ;; push_s (j2 + 1))) s /\
  same_outcome (exec_xchg3 args) (stack_op (xchg 2 i ;; xchg 1 j ;; xchg 0 k)) s /\
  same_outcome (exec_xc2pu args) (stack_op (xchg 1 i ;; xchg 0 j ;; push_s k)) s /\
  same_outcome (exec_xcpuxc args)
    (stack_op (xchg 1 i ;; push_s j ;; xchg 0 1 ;; xchg 0 k)) s /\
  same_outcome (exec_xcpu2 args) (stack_op (xchg 0 i ;; push_s j ;; push_s (k + 1))) s /\
  same_outcome (exec_puxc2 args)
    (stack_op (push_s i ;; xchg 2 0 ;; xchg 1 j ;; xchg 0 k)) s /\
  same_outcome (exec_puxcpu args)
    (stack_op (push_s i ;; xchg 0 1 ;; xchg 0 j ;; push_s k)) s /\
  same_outcome (exec_pu2xc args)
    (stack_op (push_s i ;; xchg 1 0 ;; push_s j ;; xchg 1 0 ;; xchg 0 k)) s /\
  same_outcome (exec_push3 args)
    (stack_op (push_s i ;; push_s (j + 1) ;; push_s (k + 2))) s.
Proof.
  unfold exec_xchg2, exec_xcpu, exec_puxc, exec_push2, exec_xchg3, exec_xc2pu, exec_xcpuxc,
    exec_xcpu2, exec_puxc2, exec_puxcpu, exec_pu2xc, exec_push3. cbv zeta.
  name_args. pose proof (depth_nonneg (stack s)).
  split_and!; by_outcome.
Qed.

Lemma pop_index_run s x v :
  stack s = t_int (Int x) :: v -> 0 <= x <= smallint_max (global_version s) ->
  pop_index s = Ret x (set_stack v s).
Proof.
  intros Hs Hx. pose proof (smallint_max_range (global_version s)).
  unfold pop_index, bind, gets, on_stack. rewrite Hs.
  unfold pop_smallint_range, pop_long_range, pop_long, pop_int, bind.
  rewrite check_underflow_ok by
    (apply Forall_cons_2; [rewrite depth_cons; pose proof (depth_nonneg v); lia|apply Forall_nil_2]).
  simpl. unfold ret, unless_throw, int_to_long.
  rewrite (proj2 (fits_s_spec 64 x)) by (simpl; lia).
  rewrite (proj2 (Z.ltb_ge _ x)), (proj2 (Z.ltb_ge x 0)) by lia. simpl.
  unfold ret. by rewrite wrap_s_small by (simpl; lia).
Qed.

Lemma stack_op_run m s v v' :
  stack s = v -> m v = Ret tt v' -> stack_op m s = Ret 0 (set_stack v' s).
Proof. intros Hs Hm. unfold stack_op, bind, on_stack. by rewrite Hs, Hm. Qed.

Lemma on_stack_check reqs s :
  Forall (fun r => r <= depth (stack s)) reqs ->
  on_stack (check_underflow reqs) s = Ret tt s.
Proof. intros H. unfold on_stack. by rewrite check_underflow_ok, set_stack_id. Qed.
Lemma on_stack_check_p reqs s :
  Forall (fun r => r < depth (stack s)) reqs ->
  on_stack (check_underflow_p reqs) s = Ret tt s.
Proof. intros H. unfold on_stack. by rewrite check_underflow_p_ok, set_stack_id. Qed.

Lemma consume_gas_run amount s :
  0 <= amount <= gas_remaining (gas s) -> gas_remaining (gas s) < 2 ^ 63 ->
  consume_gas amount s = Ret tt (spend amount s).
Proof.
  intros Ha Hr.
  assert (wp (consume_gas amount) (fun u s' => s' = spend amount s) (fun _ _ => False) s) as H.
  { apply wp_consume_gas; [lia|lia|done|lia]. }
  unfold wp in H. destruct (consume_gas amount s) as [[] ?| |]; naive_solver.
Qed.

Lemma spend_0 s : spend 0 s = s.
Proof.
  unfold spend, set_gas, set_remaining. rewrite Z.sub_0_r. destruct s as [? ? ? ? ? ? g]. by destruct g.
Qed.

Lemma depth_app v w : depth (v ++ w) = depth v + depth w.
Proof. unfold depth. rewrite length_app. lia. Qed.

(** Gas charged for moving [x] entries beyond the first 255. *)
Definition move_gas (x : Z) : Z := Z.max (x - 255) 0.

Lemma one_req (P : Z -> Prop) x : P x -> Forall P [x].
Proof. intros. by apply Forall_cons_2, Forall_nil_2. Qed.

(** A primitive that pops an index, checks the depth, pays and moves entries. *)
Lemma indexed_op_run (f : Z -> M Stack unit) s x v v' :
  x < depth v -> 0 <= x <= smallint_max (global_version s) ->
  move_gas x <= gas_remaining (gas s) -> gas_remaining (gas s) < 2 ^ 63 ->
  f x v = Ret tt v' ->
  (on_stack (check_underflow [1]) ;; x <- pop_index ;; on_stack (check_underflow_p [x]) ;;
   consume_gas (Z.max (x - 255) 0) ;; stack_op (f x))
    (set_stack (t_int (Int x) :: v) s) = Ret 0 (set_stack v' (spend (move_gas x) s)).
Proof.
  intros Hv Hx Hg Hg' Hf. pose proof (depth_nonneg v). unfold bind.
  rewrite on_stack_check by (apply one_req; cbn [stack set_stack]; depth_lia).
  rewrite (pop_index_run _ x v) by done.
  rewrite on_stack_check_p by (apply one_req; done).
  unfold move_gas in *. rewrite consume_gas_run by (cbn [gas set_stack]; lia).
  by rewrite (stack_op_run _ _ v v').
Qed.

(** ROLL and ROLLREV on an index x, with t the x entries above entry e: ROLL brings
    e to the top, ROLLREV moves the top entry below the x entries under it; both charge
    one unit of gas per entry moved beyond 255 and leave the rest of the machine alone.
    So each undoes the other. *)
Theorem roll_rollrev_spec s x e t r :
  depth t = x -> x <= smallint_max (global_version s) ->
  move_gas x <= gas_remaining (gas s) -> gas_remaining (gas s) < 2 ^ 63 ->
  exec_roll (set_stack (t_int (Int x) :: t ++ e :: r) s) =
    Ret 0 (set_stack (e :: t ++ r) (spend (move_gas x) s)) /\
  exec_rollrev (set_stack (t_int (Int x) :: e :: t ++ r) s) =
    Ret 0 (set_stack (t ++ e :: r) (spend (move_gas x) s)).
Proof.
  intros Ht Hx Hg Hg'. pose proof (depth_nonneg t). pose proof (depth_nonneg r).
  assert (Z.to_nat x = length t) as Hxn by (unfold depth in Ht; lia).
  split.
  - apply (indexed_op_run (fun x => roll_loop (Z.to_nat x))); [|lia|done|done|].
    + rewrite depth_app, depth_cons. lia.
    + by apply roll_loop_run.
  - apply (indexed_op_run (fun x => rollrev_loop 0 (Z.to_nat x))); [|lia|done|done|].
    + rewrite depth_cons, depth_app. lia.
    + rewrite Hxn. by apply (rollrev_loop_run []).
Qed.

(** A machine with the given stack: version 13, a million units of gas. *)
Definition test_vm (v : Stack) : VmState :=
  mkVm (Some (slice_of_cell (DataCell false [] []))) v empty_regs (mkCommitted None None false)
    0 0 (new_gas 1000000 1000000 0) [] [] None [] false false None 512 13 0 0 0 None.

Lemma roll_rollrev_spec_witness :
  exec_roll (test_vm [t_int (Int 2); t_int (Int 10); t_int (Int 11); t_null; t_int (Int 12)]) =
    Ret 0 (test_vm [t_null; t_int (Int 10); t_int (Int 11); t_int (Int 12)]).
Proof.
  exact (proj1 (roll_rollrev_spec (test_vm []) 2 t_null [t_int (Int 10); t_int (Int 11)]
    [t_int (Int 12)] eq_refl ltac:(vm_compute; congruence) ltac:(vm_compute; congruence)
    ltac:(vm_compute; congruence))).
Defined.

(** *** Blocks *)

Lemma rotate_blocks_run a b r :
  rotate_blocks (depth a) (depth b) (b ++ a ++ r) = Ret tt (a ++ b ++ r).
Proof.
  unfold rotate_blocks, depth. rewrite !length_app, !Nat2Z.id.
  rewrite !(proj2 (Z.leb_le _ _)) by lia. simpl.
  by rewrite take_app_length, drop_app_length, take_app_length, drop_app_length.
Qed.
Lemma reverse_block_run t a r :
  reverse_block (depth a) (depth t) (t ++ a ++ r) = Ret tt (t ++ rev a ++ r).
Proof.
  unfold reverse_block, depth. rewrite !length_app, !Nat2Z.id.
  rewrite !(proj2 (Z.leb_le _ _)) by lia. simpl.
  by rewrite take_app_length, drop_app_length, take_app_length, drop_app_length.
Qed.
Lemma pop_many_run a r : pop_many (depth a) (a ++ r) = Ret tt r.
Proof.
  unfold pop_many. rewrite depth_app. pose proof (depth_nonneg a). pose proof (depth_nonneg r).
  rewrite (proj2 (Z.ltb_ge _ 0)), (proj2 (Z.leb_le _ _)) by lia.
  unfold depth. by rewrite Nat2Z.id, drop_app_length.
Qed.
Lemma pop_many_offs_run t a r : pop_many_offs (depth a) (depth t) (t ++ a ++ r) = Ret tt (t ++ r).
Proof.
  unfold pop_many_offs, depth. rewrite !length_app.
  rewrite !(proj2 (Z.leb_le _ _)) by lia. simpl. rewrite Nat2Z.id, take_app_length.
  replace (Z.to_nat _) with (length t + length a)%nat by lia.
  by rewrite drop_app_add, drop_app_length.
Qed.

(** The block primitives with immediate arguments. With b the y + 1 top entries and a
    the x + 1 entries below, BLKSWAP exchanges the two blocks; REVERSE reverses x + 2
    entries below the top y; BLKDROP drops y entries; BLKDROP2 drops x entries below the
    top y. With fewer entries on the stack each throws stack underflow and changes
    nothing. *)
Theorem block_ops_spec args s :
  let x := nibble 4 args in let y := Z.land args 15 in
  (forall b a r, depth a = x + 1 -> depth b = y + 1 ->
     exec_blkswap args (set_stack (b ++ a ++ r) s) = Ret 0 (set_stack (a ++ b ++ r) s)) /\
  (forall t a r, depth a = x + 2 -> depth t = y ->
     exec_reverse args (set_stack (t ++ a ++ r) s) = Ret 0 (set_stack (t ++ rev a ++ r) s)) /\
  (forall a r, depth a = y ->
     exec_blkdrop args (set_stack (a ++ r) s) = Ret 0 (set_stack r s)) /\
  (forall t a r, depth a = x -> depth t = y ->
     exec_blkdrop2 args (set_stack (t ++ a ++ r) s) = Ret 0 (set_stack (t ++ r) s)) /\
  (depth (stack s) < x + y + 2 ->
     exec_blkswap args s = Exn (VmError Exc_stk_und) s /\
     exec_reverse args s = Exn (VmError Exc_stk_und) s) /\
  (depth (stack s) < y -> exec_blkdrop args s = Exn (VmError Exc_stk_und) s) /\
  (depth (stack s) < x + y -> exec_blkdrop2 args s = Exn (VmError Exc_stk_und) s).
Proof.
  cbv zeta. unfold exec_blkswap, exec_reverse, exec_blkdrop, exec_blkdrop2. cbv zeta. name_args.
  assert (forall n m v v', depth v >= n -> m v = Ret tt v' ->
    stack_op (check_underflow [n] ;; m) (set_stack v s) = Ret 0 (set_stack v' s)) as Hrun.
  { intros n m v v' Hn Hm. rewrite (stack_op_run _ _ v v'); [done|done|].
    unfold bind. rewrite check_underflow_ok; [done|]. apply one_req. lia. }
  assert (forall n m, depth (stack s) < n ->
    stack_op (check_underflow [n] ;; m) s = Exn (VmError Exc_stk_und) s) as Hfail.
  { intros n m Hn. unfold stack_op, on_stack, bind. rewrite check_underflow_fail.
    - by rewrite set_stack_id.
    - rewrite list.Forall_cons. lia. }
  split_and!.
  - intros b a r Ha Hb. pose proof (depth_nonneg r). apply Hrun.
    + rewrite !depth_app. lia.
    + rewrite <- Ha, <- Hb. apply rotate_blocks_run.
  - intros t a r Ha Ht. pose proof (depth_nonneg r). apply Hrun.
    + rewrite !depth_app. lia.
    + rewrite <- Ha, <- Ht. apply reverse_block_run.
  - intros a r <-. pose proof (depth_nonneg r). apply Hrun; [rewrite depth_app; lia|].
    apply pop_many_run.
  - intros t a r <- <-. pose proof (depth_nonneg r). apply Hrun; [rewrite !depth_app; lia|].
    apply pop_many_offs_run.
  - intros H1. split; apply Hfail; lia.
  - apply Hfail.
  - apply Hfail.
Qed.

(** *** ONLYTOPX and ONLYX *)

(** The move loop copies the top [k] entries [d] places down. *)
Lemma onlytop_loop_run k d (v : Stack) :
  0 < d -> (Z.to_nat d + k <= length v)%nat ->
  exists v', onlytop_loop (d + Z.of_nat k - 1) d k v = Ret tt v' /\ length v' = length v /\
    (forall j, (j < k)%nat -> v' !! (Z.to_nat d + j)%nat = v !! j) /\
    (forall j, (Z.to_nat d + k <= j)%nat -> v' !! j = v !! j).
Proof.
  intros Hd. revert v. induction k as [|k IH]; intros v Hk.
  { exists v. split_and!; [done|done|lia|done]. }
  replace (d + Z.of_nat (S k) - 1) with (d + Z.of_nat k) by lia. cbn [onlytop_loop]. unfold bind.
  destruct (lookup_lt_is_Some_2 v k) as [e He]; [lia|].
  assert (fetch (d + Z.of_nat k - d) v = Ret e v) as ->.
  { unfold fetch, bind, gets. replace (d + Z.of_nat k - d) with (Z.of_nat k) by lia.
    rewrite (proj2 (Z.ltb_ge _ 0)), Nat2Z.id by lia. by rewrite He. }
  assert (forall i a (w : Stack), 0 <= i < depth w -> assign i a w = Ret tt (<[Z.to_nat i:=a]> w))
    as Hassign.
  { intros i a w Hi. unfold assign. by rewrite (proj2 (Z.leb_le 0 i)), (proj2 (Z.ltb_lt i _)) by lia. }
  rewrite Hassign by (unfold depth; lia). rewrite Hassign by (unfold depth; rewrite length_insert; lia).
  replace (Z.to_nat (d + Z.of_nat k - d)) with k by lia.
  replace (Z.to_nat (d + Z.of_nat k)) with (Z.to_nat d + k)%nat by lia.
  destruct (IH (<[(Z.to_nat d + k)%nat:=e]> (<[k:=t_null]> v))) as (v' & Hrun & Hlen & Hlo & Hhi).
  { rewrite !length_insert. lia. }
  exists v'. rewrite !length_insert in Hlen. split_and!; [done|done| |].
  - intros j Hj. destruct (decide (j = k)) as [->|].
    + rewrite Hhi, list_lookup_insert_eq by (rewrite ?length_insert; lia). done.
    + rewrite Hlo by lia. by rewrite !list_lookup_insert_ne by lia.
  - intros j Hj. rewrite Hhi by lia. by rewrite !list_lookup_insert_ne by lia.
Qed.

Lemma onlytop_loop_drop (a r v' : Stack) :
  length v' = length (a ++ r) ->
  (forall j, (j < length a)%nat -> v' !! (length r + j)%nat = (a ++ r) !! j) ->
  drop (length r) v' = a.
Proof.
  intros Hlen H. apply list_eq_same_length with (length a); [done|rewrite length_drop, Hlen, length_app; lia|].
  intros j x y Hj. rewrite lookup_drop, H, lookup_app_l by done. congruence.
Qed.

(** The part common to the two: pop the count and check the depth. *)
Lemma counted_op_run (f : Z -> Z -> M VmState Z) s x v :
  x <= depth v -> 0 <= x <= smallint_max (global_version s) ->
  (on_stack (check_underflow [1]) ;; x <- pop_index ;; on_stack (check_underflow [x]) ;;
   n <- gets (fun s => depth (stack s)) ;; f n x)
    (set_stack (t_int (Int x) :: v) s) = f (depth v) x (set_stack v s).
Proof.
  intros Hv Hx. pose proof (depth_nonneg v). unfold bind.
  rewrite on_stack_check by (apply one_req; cbn [stack set_stack]; depth_lia).
  rewrite (pop_index_run _ x v) by done.
  by rewrite on_stack_check by (apply one_req; done).
Qed.

Lemma exec_onlytop_x_run s a r :
  r <> [] -> depth a <= smallint_max (global_version s) ->
  move_gas (depth a) <= gas_remaining (gas s) -> gas_remaining (gas s) < 2 ^ 63 ->
  exec_onlytop_x (set_stack (t_int (Int (depth a)) :: a ++ r) s) =
    Ret 0 (set_stack a (spend (move_gas (depth a)) s)).
Proof.
  intros Hr Hx Hg Hg'. pose proof (depth_nonneg a). pose proof (depth_nonneg r).
  assert (0 < depth r) by (unfold depth; destruct r; [done|simpl; lia]).
  unfold exec_onlytop_x.
  rewrite (counted_op_run (fun n x => (if 0 <? n - x then _ else _) ;; _)) by
    (rewrite ?depth_app; lia). rewrite depth_app.
  replace (depth a + depth r - depth a) with (depth r) by lia.
  rewrite (proj2 (Z.ltb_lt 0 (depth r))) by done. unfold bind. fold (move_gas (depth a)).
  rewrite consume_gas_run by (cbn [gas set_stack]; unfold move_gas in *; lia).
  destruct (onlytop_loop_run (length a) (depth r) (a ++ r)) as (v' & Hrun & Hlen & Hlo & _);
    [done|unfold depth; rewrite length_app; lia|].
  unfold on_stack. cbn [stack set_stack spend set_gas].
  replace (depth a + depth r - 1) with (depth r + Z.of_nat (length a) - 1) by (unfold depth; lia).
  replace (Z.to_nat (depth a + depth r - depth r)) with (length a) by (unfold depth; lia).
  rewrite Hrun. etransitivity; [apply (stack_op_run _ _ v' a); [done|]|done].
  unfold pop_many. rewrite (proj2 (Z.ltb_ge _ 0)), (proj2 (Z.leb_le _ _)) by
    (unfold depth in *; rewrite ?Hlen, ?length_app; lia).
  unfold depth. rewrite Nat2Z.id. rewrite (onlytop_loop_drop a r v'); [done|done|].
  intros j Hj. rewrite <- Hlo by done. unfold depth. by rewrite Nat2Z.id.
Qed.

(** With x the popped count and a the top (for ONLYX: bottom) x entries, ONLYTOPX keeps
    exactly a, although its loop moves entries within the vector and leaves nulls behind;
    it charges gas only when there is something to drop. ONLYX keeps the bottom x entries. *)
Theorem only_ops_spec s x a r :
  depth a = x -> x <= smallint_max (global_version s) ->
  move_gas x <= gas_remaining (gas s) -> gas_remaining (gas s) < 2 ^ 63 ->
  exec_onlytop_x (set_stack (t_int (Int x) :: a ++ r) s) =
    Ret 0 (set_stack a (spend (if decide (r = []) then 0 else move_gas x) s)) /\
  exec_only_x (set_stack (t_int (Int x) :: r ++ a) s) = Ret 0 (set_stack a s).
Proof.
  intros Ha Hx Hg Hg'. pose proof (depth_nonneg a). pose proof (depth_nonneg r). split.
  - case_decide as Er; [subst r|subst x; by apply exec_onlytop_x_run].
    rewrite app_nil_r, spend_0. unfold exec_onlytop_x.
    rewrite (counted_op_run (fun n x => (if 0 <? n - x then _ else _) ;; _)) by lia.
    rewrite Ha, Z.sub_diag. simpl. etransitivity; [apply (stack_op_run _ _ a a); [done|apply (pop_many_run [] a)]|done].
  - unfold exec_only_x.
    rewrite (counted_op_run (fun n x => stack_op (pop_many (n - x)))) by (rewrite ?depth_app; lia).
    rewrite depth_app, Ha. replace (depth r + x - x) with (depth r) by lia.
    etransitivity; [apply (stack_op_run _ _ (r ++ a) a); [done|apply pop_many_run]|done].
Qed.

Lemma only_ops_spec_witness :
  exec_onlytop_x (test_vm [t_int (Int 2); t_int (Int 10); t_null; t_int (Int 12); t_int (Int 13)]) =
    Ret 0 (test_vm [t_int (Int 10); t_null]).
Proof.
  exact (proj1 (only_ops_spec (test_vm []) 2 [t_int (Int 10); t_null]
    [t_int (Int 12); t_int (Int 13)] eq_refl ltac:(vm_compute; congruence)
    ltac:(vm_compute; congruence) ltac:(vm_compute; congruence))).
Defined.
