(* ===== verification/TupleOps.v ===== *)
(** * Tuple primitives (crypto/vm/tupleops.cpp)

    Every [exec_*] handler of the file, the helpers of crypto/vm/stack.cpp on tuples,
    and the part of codepage 0 that [register_tuple_ops] fills.  The first component
    of a tuple is the head of its list, while the head of a stack is its top. *)
From S2P Require Import Prelude BigInt Int256 Cells VmTypes Stack OpcodeTable StackOps.

(** ** Components (crypto/vm/stack.cpp) *)

Definition tuple_index (tup : Tuple) (idx : Z) : M Stack StackEntry :=
  match tup !! Z.to_nat idx with Some e => ret e | None => throw (VmError Exc_range_chk) end.

Definition tuple_extend_index (tup : option Tuple) (idx : Z) : StackEntry :=
  match tup with None => t_null | Some t => default t_null (t !! Z.to_nat idx) end.

Definition is_null (e : StackEntry) : bool := match e with t_null => true | _ => false end.

(** [resize(n)]: new components are null. *)
Definition tuple_resize (n : nat) (t : Tuple) : Tuple := t ++ replicate (n - length t) t_null.

(** [tuple_extend_set_index(tup, idx, value)] with [force] false: the new tuple and
    the number of components to pay for. *)
Definition tuple_extend_set_index (tup : option Tuple) (idx : Z) (value : StackEntry)
    : option Tuple * Z :=
  let i := Z.to_nat idx in
  match tup with
  | None =>
      if is_null value then (tup, 0)
      else (Some (<[i := value]> (replicate (S i) t_null)), idx + 1)
  | Some t =>
      if (length t <=? i)%nat then
        if is_null value then (tup, 0)
        else (Some (<[i := value]> (tuple_resize (S i) t)), idx + 1)
      else (Some (<[i := value]> t), Z.of_nat (length t))
  end.

(** ** Nulls *)

Definition exec_push_null : M VmState Z := stack_op (push t_null).
Definition exec_is_null : M VmState Z := stack_op (e <- pop_chk ;; push_bool (is_null e)).

(** [for (i = 0; i < depth; i++) swap(stack[i], stack[i + count])], from [i] on *)
Fixpoint null_swap_loop (i : Z) (n : nat) (count : Z) : M Stack unit :=
  match n with
  | O => ret tt
  | S n' => swap i (i + count) ;; null_swap_loop (i + 1) n' count
  end.
Fixpoint push_nulls (n : nat) : M Stack unit :=
  match n with O => ret tt | S n' => push t_null ;; push_nulls n' end.

Definition exec_null_swap_if (cond : bool) (depth : nat) : M VmState Z :=
  stack_op (check_underflow [Z.of_nat depth + 1] ;; x <- pop_int_finite ;;
            (if negb (Bool.eqb (int_sgn x =? 0) cond) then
               push t_null ;; null_swap_loop 0 depth 1
             else ret tt) ;;
            push_int x).
Definition exec_null_swap_if_many (cond : bool) (depth count : nat) : M VmState Z :=
  stack_op (check_underflow [Z.of_nat depth + 1] ;; x <- pop_int_finite ;;
            (if negb (Bool.eqb (int_sgn x =? 0) cond) then
               push_nulls count ;; null_swap_loop 0 depth (Z.of_nat count)
             else ret tt) ;;
            push_int x).

(** ** Construction and access *)

(** The loop of [exec_mktuple_common] copies the top [n] entries, deepest first. *)
Definition top_entries (n : Z) : M Stack Tuple := fun v =>
  if n <=? depth v then Ret (rev (take (Z.to_nat n) v)) v else Undef.

Definition exec_mktuple_common (n : Z) : M VmState Z :=
  t <- on_stack (check_underflow [n] ;; t <- top_entries n ;; pop_many n ;; ret t) ;;
  consume_tuple_gas n ;;
  stack_op (push (t_tuple t)).
Definition exec_mktuple (args : Z) : M VmState Z := exec_mktuple_common (Z.land args 15).
Definition exec_mktuple_var : M VmState Z :=
  n <- on_stack (pop_smallint_range 255 0) ;; exec_mktuple_common n.

Definition exec_tuple_index_common (n : Z) : M Stack unit :=
  t <- pop_tuple_range 255 0 ;; e <- tuple_index t n ;; push e.
Definition exec_tuple_index (args : Z) : M VmState Z :=
  stack_op (exec_tuple_index_common (Z.land args 15)).
Definition exec_tuple_index_var : M VmState Z :=
  stack_op (check_underflow [2] ;; n <- pop_smallint_range 254 0 ;; exec_tuple_index_common n).

Definition exec_tuple_quiet_index_common (n : Z) : M Stack unit :=
  t <- pop_maybe_tuple_range 255 ;; push (tuple_extend_index t n).
Definition exec_tuple_quiet_index (args : Z) : M VmState Z :=
  stack_op (exec_tuple_quiet_index_common (Z.land args 15)).
Definition exec_tuple_quiet_index_var : M VmState Z :=
  stack_op (check_underflow [2] ;; n <- pop_smallint_range 254 0 ;; exec_tuple_quiet_index_common n).

(** The first [n] components are pushed in order; fewer are out of range. *)
Definition do_explode_tuple (tuple : Tuple) (n : Z) : M VmState Z :=
  on_stack (fun v => if n <=? Z.of_nat (length tuple)
                     then Ret tt (rev (take (Z.to_nat n) tuple) ++ v) else Undef) ;;
  consume_tuple_gas n ;; ret 0.

Definition exec_untuple_common (n : Z) : M VmState Z :=
  t <- on_stack (pop_tuple_range n n) ;; do_explode_tuple t n.
Definition exec_untuple (args : Z) : M VmState Z := exec_untuple_common (Z.land args 15).
Definition exec_untuple_var : M VmState Z :=
  n <- on_stack (check_underflow [2] ;; pop_smallint_range 255 0) ;; exec_untuple_common n.

Definition exec_untuple_first_common (n : Z) : M VmState Z :=
  t <- on_stack (pop_tuple_range 255 n) ;; do_explode_tuple t n.
Definition exec_untuple_first (args : Z) : M VmState Z := exec_untuple_first_common (Z.land args 15).
Definition exec_untuple_first_var : M VmState Z :=
  n <- on_stack (check_underflow [2] ;; pop_smallint_range 255 0) ;; exec_untuple_first_common n.

Definition exec_explode_tuple_common (n : Z) : M VmState Z :=
  t <- on_stack (pop_tuple_range n 0) ;;
  let l := Z.of_nat (length t) in
  do_explode_tuple t l ;; stack_op (push_smallint l).
Definition exec_explode_tuple (args : Z) : M VmState Z := exec_explode_tuple_common (Z.land args 15).
Definition exec_explode_tuple_var : M VmState Z :=
  n <- on_stack (check_underflow [2] ;; pop_smallint_range 255 0) ;; exec_explode_tuple_common n.

(** ** Update *)

Definition exec_tuple_set_index_common (idx : Z) : M VmState Z :=
  t <- on_stack (x <- pop ;; t <- pop_tuple_range 255 0 ;;
                 unless_throw (negb (Z.of_nat (length t) <=? idx)) (VmError Exc_range_chk) ;;
                 ret (<[Z.to_nat idx := x]> t)) ;;
  consume_tuple_gas (Z.of_nat (length t)) ;;
  stack_op (push (t_tuple t)).
Definition exec_tuple_set_index (args : Z) : M VmState Z :=
  on_stack (check_underflow [2]) ;; exec_tuple_set_index_common (Z.land args 15).
Definition exec_tuple_set_index_var : M VmState Z :=
  n <- on_stack (check_underflow [3] ;; pop_smallint_range 254 0) ;; exec_tuple_set_index_common n.

Definition exec_tuple_quiet_set_index_common (idx : Z) : M VmState Z :=
  let* (t, tpay) :=
    on_stack (x <- pop ;; t <- pop_maybe_tuple_range 255 ;;
              unless_throw (negb (255 <=? idx)) (VmError Exc_range_chk) ;;
              ret (tuple_extend_set_index t idx x)) in
  (if 0 <? tpay then consume_tuple_gas tpay else ret tt) ;;
  stack_op (push_maybe_tuple t).
Definition exec_tuple_quiet_set_index (args : Z) : M VmState Z :=
  on_stack (check_underflow [2]) ;; exec_tuple_quiet_set_index_common (Z.land args 15).
Definition exec_tuple_quiet_set_index_var : M VmState Z :=
  n <- on_stack (check_underflow [3] ;; pop_smallint_range 254 0) ;;
  exec_tuple_quiet_set_index_common n.

(** ** Length and ends *)

Definition exec_tuple_length : M VmState Z :=
  stack_op (t <- pop_tuple_range 255 0 ;; push_smallint (Z.of_nat (length t))).
Definition exec_tuple_length_quiet : M VmState Z :=
  stack_op (e <- pop_chk ;;
            push_smallint (match e with t_tuple t => Z.of_nat (length t) | _ => -1 end)).
Definition exec_is_tuple : M VmState Z :=
  stack_op (e <- pop_chk ;; push_bool (match e with t_tuple _ => true | _ => false end)).
Definition exec_tuple_last : M VmState Z :=
  stack_op (t <- pop_tuple_range 255 1 ;; e <- of_option (list.last t) ;; push e).
Definition exec_tuple_push : M VmState Z :=
  t <- on_stack (check_underflow [2] ;; x <- pop ;; t <- pop_tuple_range 254 0 ;; ret (t ++ [x])) ;;
  consume_tuple_gas (Z.of_nat (length t)) ;;
  stack_op (push (t_tuple t)).
Definition exec_tuple_pop : M VmState Z :=
  let* (t, x) := on_stack (t <- pop_tuple_range 255 1 ;; x <- of_option (list.last t) ;;
                           ret (removelast t, x)) in
  consume_tuple_gas (Z.of_nat (length t)) ;;
  stack_op (push (t_tuple t) ;; push x).

(** [tuple_index(tup, idx).as_tuple_range(255)], null is a type error *)
Definition inner_tuple (tup : Tuple) (idx : Z) : M Stack Tuple :=
  e <- tuple_index tup idx ;;
  match as_tuple_range 255 0 e with Some t => ret t | None => throw type_chk end.
Definition exec_tuple_index2 (args : Z) : M VmState Z :=
  let i := Z.land (Z.shiftr args 2) 3 in let j := Z.land args 3 in
  stack_op (t <- pop_tuple_range 255 0 ;; t1 <- inner_tuple t i ;; e <- tuple_index t1 j ;; push e).
Definition exec_tuple_index3 (args : Z) : M VmState Z :=
  let i := Z.land (Z.shiftr args 4) 3 in let j := Z.land (Z.shiftr args 2) 3 in
  let k := Z.land args 3 in
  stack_op (t <- pop_tuple_range 255 0 ;; t1 <- inner_tuple t i ;; t2 <- inner_tuple t1 j ;;
            e <- tuple_index t2 k ;; push e).

Definition register_tuple_ops : list (option OpcodeInstr) :=
  [ mksimple 0x6d 8 exec_push_null;
    mksimple 0x6e 8 exec_is_null;
    mkfixed 0x6f0 12 4 exec_mktuple;
    mkfixed 0x6f1 12 4 exec_tuple_index;
    mkfixed 0x6f2 12 4 exec_untuple;
    mkfixed 0x6f3 12 4 exec_untuple_first;
    mkfixed 0x6f4 12 4 exec_explode_tuple;
    mkfixed 0x6f5 12 4 exec_tuple_set_index;
    mkfixed 0x6f6 12 4 exec_tuple_quiet_index;
    mkfixed 0x6f7 12 4 exec_tuple_quiet_set_index;
    mksimple 0x6f80 16 exec_mktuple_var;
    mksimple 0x6f81 16 exec_tuple_index_var;
    mksimple 0x6f82 16 exec_untuple_var;
    mksimple 0x6f83 16 exec_untuple_first_var;
    mksimple 0x6f84 16 exec_explode_tuple_var;
    mksimple 0x6f85 16 exec_tuple_set_index_var;
    mksimple 0x6f86 16 exec_tuple_quiet_index_var;
    mksimple 0x6f87 16 exec_tuple_quiet_set_index_var;
    mksimple 0x6f88 16 exec_tuple_length;
    mksimple 0x6f89 16 exec_tuple_length_quiet;
    mksimple 0x6f8a 16 exec_is_tuple;
    mksimple 0x6f8b 16 exec_tuple_last;
    mksimple 0x6f8c 16 exec_tuple_push;
    mksimple 0x6f8d 16 exec_tuple_pop;
    mksimple 0x6fa0 16 (exec_null_swap_if true 0);
    mksimple 0x6fa1 16 (exec_null_swap_if false 0);
    mksimple 0x6fa2 16 (exec_null_swap_if true 1);
    mksimple 0x6fa3 16 (exec_null_swap_if false 1);
    mksimple 0x6fa4 16 (exec_null_swap_if_many true 0 2);
    mksimple 0x6fa5 16 (exec_null_swap_if_many false 0 2);
    mksimple 0x6fa6 16 (exec_null_swap_if_many true 1 2);
    mksimple 0x6fa7 16 (exec_null_swap_if_many false 1 2);
    mkfixed 0x6fb 12 4 exec_tuple_index2;
    mkfixed (Z.shiftr 0x6fc 2) 10 6 exec_tuple_index3 ].

(** ** Functional behaviour *)

Lemma consume_tuple_gas_run n s :
  0 <= n < 2 ^ 32 -> n <= gas_remaining (gas s) < 2 ^ 63 -> consume_tuple_gas n s = Ret tt (spend n s).
Proof.
  intros Hn Hg. unfold consume_tuple_gas, tuple_entry_gas_price.
  rewrite wrap_u_small, Z.mul_1_r by done. apply consume_gas_run; lia.
Qed.

Lemma pop_tuple_range_run max min t v :
  min <= Z.of_nat (length t) <= max -> pop_tuple_range max min (t_tuple t :: v) = Ret t v.
Proof.
  intros Hl. pose proof (depth_nonneg v). unfold pop_tuple_range, bind.
  rewrite check_underflow_ok by (apply one_req; rewrite depth_cons; lia). cbn.
  rewrite !(proj2 (Z.leb_le _ _)) by lia. done.
Qed.
Lemma pop_maybe_tuple_range_run max o v :
  (forall t, o = Some t -> Z.of_nat (length t) <= max) ->
  pop_maybe_tuple_range max (match o with Some t => t_tuple t | None => t_null end :: v) = Ret o v.
Proof.
  intros Hl. pose proof (depth_nonneg v). unfold pop_maybe_tuple_range, bind.
  rewrite check_underflow_ok by (apply one_req; rewrite depth_cons; lia).
  destruct o as [t|]; cbn; [|done]. specialize (Hl t eq_refl).
  rewrite !(proj2 (Z.leb_le _ _)) by lia. done.
Qed.

(** TUPLE and UNTUPLE are inverse to each other, and so are TPUSH and TPOP.  TUPLE n
    makes a tuple of the top n entries, the deepest first, UNTUPLE n puts its
    components back; each costs a unit of gas per component.  A tuple of another
    length is a type error. *)
Theorem tuple_roundtrip s a r t x args :
  depth a = Z.land args 15 -> Z.of_nat (length t) < 255 -> 255 <= gas_remaining (gas s) < 2 ^ 63 ->
  let n := Z.land args 15 in let l := Z.of_nat (length t) in
  exec_mktuple args (set_stack (a ++ r) s) = Ret 0 (set_stack (t_tuple (rev a) :: r) (spend n s)) /\
  exec_untuple args (set_stack (t_tuple (rev a) :: r) s) = Ret 0 (set_stack (a ++ r) (spend n s)) /\
  (l <> n -> exec_untuple args (set_stack (t_tuple t :: r) s) = Exn (VmError Exc_type_chk) (set_stack r s)) /\
  exec_tuple_push (set_stack (x :: t_tuple t :: r) s) =
    Ret 0 (set_stack (t_tuple (t ++ [x]) :: r) (spend (l + 1) s)) /\
  exec_tuple_pop (set_stack (t_tuple (t ++ [x]) :: r) s) =
    Ret 0 (set_stack (x :: t_tuple t :: r) (spend l s)).
Proof.
  intros Ha Hl Hg. cbv zeta. pose proof (land15_range args) as Hn. pose proof (depth_nonneg r) as Hr.
  assert (length a = Z.to_nat (Z.land args 15)) as Hla by (unfold depth in Ha; lia).
  split_and!.
  - unfold exec_mktuple, exec_mktuple_common. unfold bind at 1. unfold on_stack. cbn [stack set_stack].
    unfold bind at 1. rewrite check_underflow_ok by (apply one_req; rewrite depth_app; lia).
    unfold bind, top_entries. rewrite (proj2 (Z.leb_le _ _)) by (rewrite depth_app; lia).
    unfold pop_many. rewrite (proj2 (Z.ltb_ge _ _)), (proj2 (Z.leb_le _ (depth (a ++ r)))) by (rewrite ?depth_app; lia).
    unfold ret. rewrite consume_tuple_gas_run by (cbn; lia). rewrite take_app_length', drop_app_length' by done. done.
  - unfold exec_untuple, exec_untuple_common, bind, on_stack. cbn [stack set_stack].
    rewrite pop_tuple_range_run by (rewrite length_rev; lia). unfold do_explode_tuple, bind, on_stack.
    rewrite (proj2 (Z.leb_le _ _)) by (rewrite length_rev; lia).
    rewrite consume_tuple_gas_run by (cbn; lia). cbn. unfold ret. rewrite firstn_all2 by (rewrite length_rev; lia).
    by rewrite rev_involutive.
  - intros Hne. unfold exec_untuple, exec_untuple_common, bind at 1, on_stack, pop_tuple_range. cbn [stack set_stack].
    unfold bind. rewrite check_underflow_ok by (apply one_req; rewrite depth_cons; lia). cbn.
    destruct (_ <=? _) eqn:E1; [|done]. destruct (_ <=? Z.of_nat _) eqn:E2; [|done].
    apply Z.leb_le in E1, E2. lia.
  - unfold exec_tuple_push. unfold bind at 1, on_stack. cbn [stack set_stack]. unfold bind at 1.
    rewrite check_underflow_ok by (apply one_req; rewrite !depth_cons; lia). unfold bind at 1 2. cbn [pop].
    rewrite pop_tuple_range_run by lia. unfold ret, bind. rewrite length_app. cbn [length].
    rewrite consume_tuple_gas_run by (cbn; lia). cbn. by replace (Z.of_nat (length t + 1)) with (Z.of_nat (length t) + 1) by lia.
  - unfold exec_tuple_pop. unfold bind at 1, on_stack. cbn [stack set_stack]. unfold bind at 1.
    rewrite pop_tuple_range_run by (rewrite length_app; simpl; lia).
    rewrite list.last_snoc, removelast_last. unfold of_option, bind, ret. rewrite consume_tuple_gas_run by (cbn; lia). done.
Qed.

Lemma tuple_roundtrip_witness :
  exec_mktuple 2 (test_vm [t_int (Int 1); t_null; t_int (Int 7)]) =
    Ret 0 (set_stack [t_tuple [t_null; t_int (Int 1)]; t_int (Int 7)] (spend 2 (test_vm []))).
Proof.
  refine (proj1 (tuple_roundtrip (test_vm []) [t_int (Int 1); t_null] [t_int (Int 7)] [] t_null 2 _ _ _));
    [reflexivity|reflexivity|split; [discriminate|reflexivity]].
Defined.

Definition maybe_entry (o : option Tuple) : StackEntry :=
  match o with Some t => t_tuple t | None => t_null end.

Lemma tuple_resize_lookup n (t : Tuple) j :
  default t_null (tuple_resize n t !! j) = default t_null (t !! j).
Proof.
  unfold tuple_resize. destruct (decide (j < length t)%nat).
  - by rewrite lookup_app_l.
  - rewrite lookup_app_r by lia. rewrite (lookup_ge_None_2 t) by lia.
    destruct (replicate _ _ !! _) eqn:E; [|done]. by apply lookup_replicate in E as [-> _].
Qed.
Lemma nulls_lookup n j : default t_null (replicate n t_null !! j) = t_null.
Proof. destruct (replicate _ _ !! _) eqn:E; [|done]. by apply lookup_replicate in E as [-> _]. Qed.

(** A tuple with its missing components read as null behaves like an array without
    bounds. *)
Lemma extend_set_index_lookup o i x j :
  0 <= i -> 0 <= j ->
  tuple_extend_index (tuple_extend_set_index o i x).1 j =
    if j =? i then x else tuple_extend_index o j.
Proof.
  intros Hi Hj. unfold tuple_extend_set_index. cbv zeta.
  assert (forall t : Tuple, (Z.to_nat i < length t)%nat ->
    default t_null (<[Z.to_nat i := x]> t !! Z.to_nat j) =
      if j =? i then x else default t_null (t !! Z.to_nat j)) as Hins.
  { intros t Hlt. destruct (Z.eqb_spec j i) as [->|Hne]; [by rewrite list_lookup_insert_eq|].
    rewrite list_lookup_insert_ne by lia. done. }
  assert (is_null x = true -> x = t_null) as Hnull by (by destruct x).
  destruct o as [t|]; cbn [tuple_extend_index].
  - destruct (length t <=? Z.to_nat i)%nat eqn:El; [apply Nat.leb_le in El|apply Nat.leb_gt in El].
    + destruct (is_null x) eqn:Ex; cbn [fst tuple_extend_index].
      * rewrite (Hnull eq_refl). destruct (Z.eqb_spec j i) as [->|]; [|done].
        by rewrite lookup_ge_None_2 by lia.
      * rewrite Hins; [|unfold tuple_resize; rewrite length_app, length_replicate; lia].
        by rewrite tuple_resize_lookup.
    + by apply Hins.
  - destruct (is_null x) eqn:Ex; cbn [fst tuple_extend_index].
    + rewrite (Hnull eq_refl). by destruct (j =? i).
    + rewrite Hins by (rewrite length_replicate; lia). by rewrite nulls_lookup.
Qed.
Lemma extend_set_index_len o i x :
  0 <= i < 255 -> (forall t, o = Some t -> Z.of_nat (length t) <= 255) ->
  0 <= (tuple_extend_set_index o i x).2 <= 255.
Proof.
  intros Hi Hl. unfold tuple_extend_set_index. cbv zeta.
  destruct o as [t|]; [specialize (Hl t eq_refl)|]; repeat case_match; cbn [snd]; lia.
Qed.

Lemma inner_set_index_run (i : Z) o x r s :
  0 <= i < 255 -> (forall t, o = Some t -> Z.of_nat (length t) <= 255) ->
  255 <= gas_remaining (gas s) < 2 ^ 63 ->
  exec_tuple_quiet_set_index_common i (set_stack (x :: maybe_entry o :: r) s) =
    let '(o', pay) := tuple_extend_set_index o i x in
    Ret 0 (set_stack (maybe_entry o' :: r) (spend pay s)).
Proof.
  intros Hi Hl Hg. pose proof (extend_set_index_len o i x Hi Hl) as Hp.
  unfold exec_tuple_quiet_set_index_common. unfold bind at 1, on_stack. cbn [stack set_stack].
  unfold bind at 1. cbn [pop]. unfold bind at 1, maybe_entry at 1. rewrite pop_maybe_tuple_range_run by done.
  rewrite (proj2 (Z.leb_gt 255 i)) by lia. unfold unless_throw, bind at 1, ret. cbn [negb].
  destruct (tuple_extend_set_index o i x) as [o' pay]. cbn [snd] in Hp.
  unfold bind. destruct (Z.ltb_spec 0 pay).
  - rewrite consume_tuple_gas_run by (cbn; lia). by destruct o'.
  - assert (pay = 0) as -> by lia. rewrite spend_0. by destruct o'.
Qed.

(** access to components.  INDEXQ and SETINDEXQ treat a tuple (or null) as an array
    without bounds that holds null where nothing was stored: SETINDEXQ i, paid by the
    length of the new tuple, changes component i and no other.  SETINDEX and INDEX do
    the same within the bounds and throw a range error beyond them. *)
Theorem tuple_set_get s o x r args :
  let i := Z.land args 15 in
  (forall t, o = Some t -> Z.of_nat (length t) <= 255) ->
  255 <= gas_remaining (gas s) < 2 ^ 63 ->
  exec_tuple_quiet_index args (set_stack (maybe_entry o :: r) s) =
    Ret 0 (set_stack (tuple_extend_index o i :: r) s) /\
  (exists o' pay,
     exec_tuple_quiet_set_index args (set_stack (x :: maybe_entry o :: r) s) =
       Ret 0 (set_stack (maybe_entry o' :: r) (spend pay s)) /\ 0 <= pay <= 255 /\
     forall j, 0 <= j -> tuple_extend_index o' j = if j =? i then x else tuple_extend_index o j) /\
  (forall t, o = Some t ->
     exec_tuple_index args (set_stack (t_tuple t :: r) s) =
       (if i <? Z.of_nat (length t) then Ret 0 (set_stack (tuple_extend_index o i :: r) s)
        else Exn (VmError Exc_range_chk) (set_stack r s)) /\
     exec_tuple_set_index args (set_stack (x :: t_tuple t :: r) s) =
       if i <? Z.of_nat (length t) then exec_tuple_quiet_set_index args (set_stack (x :: t_tuple t :: r) s)
       else Exn (VmError Exc_range_chk) (set_stack r s)).
Proof.
  cbv zeta. intros Hl Hg. pose proof (land15_range args) as Hn. set (i := Z.land args 15) in *.
  pose proof (depth_nonneg r) as Hr.
  assert (forall e, exec_tuple_quiet_set_index args (set_stack (x :: e :: r) s) =
    exec_tuple_quiet_set_index_common i (set_stack (x :: e :: r) s)) as Hq.
  { intros e. unfold exec_tuple_quiet_set_index, bind at 1, on_stack. cbn [stack set_stack].
    rewrite check_underflow_ok by (apply one_req; rewrite !depth_cons; lia). done. }
  split_and!.
  - unfold exec_tuple_quiet_index, exec_tuple_quiet_index_common, stack_op, bind, on_stack.
    cbn [stack set_stack]. unfold maybe_entry. by rewrite pop_maybe_tuple_range_run.
  - rewrite Hq, inner_set_index_run by (done || lia).
    pose proof (extend_set_index_len o i x ltac:(lia) Hl) as Hp.
    pose proof (extend_set_index_lookup o i x) as Hget.
    destruct (tuple_extend_set_index o i x) as [o' pay]. exists o', pay. split_and!; [done|cbn in Hp; lia..|].
    intros j Hj. by apply Hget; [lia|].
  - intros t ->. specialize (Hl t eq_refl). split.
    + unfold exec_tuple_index, exec_tuple_index_common, stack_op, bind, on_stack. cbn [stack set_stack].
      fold i. rewrite pop_tuple_range_run by lia. unfold tuple_index. cbn [tuple_extend_index].
      destruct (Z.ltb_spec i (Z.of_nat (length t))).
      * destruct (lookup_lt_is_Some_2 t (Z.to_nat i)) as [e ->]; [lia|done].
      * by rewrite lookup_ge_None_2 by lia.
    + rewrite Hq. unfold exec_tuple_set_index, exec_tuple_set_index_common. fold i.
      unfold bind at 1 2, on_stack. cbn [stack set_stack].
      rewrite check_underflow_ok by (apply one_req; rewrite !depth_cons; lia). cbn [stack set_stack].
      unfold bind at 1. cbn [pop]. unfold bind at 1. rewrite pop_tuple_range_run by lia.
      rewrite Z.ltb_antisym. destruct (Z.leb_spec (Z.of_nat (length t)) i); [done|]. cbn [negb].
      rewrite (inner_set_index_run i (Some t)) by (intros; simplify_eq; lia || lia).
      unfold tuple_extend_set_index. rewrite (proj2 (Nat.leb_gt _ _)) by lia.
      unfold bind, unless_throw, ret. rewrite length_insert.
      rewrite consume_tuple_gas_run by (cbn; lia). done.
Qed.
Lemma tuple_set_get_witness :
  exec_tuple_quiet_index 1 (test_vm [t_tuple [t_null; t_int (Int 4)]]) = Ret 0 (test_vm [t_int (Int 4)]).
Proof.
  refine (proj1 (tuple_set_get (test_vm []) (Some [t_null; t_int (Int 4)]) t_null [] 1 _ _)).
  - intros t E. injection E as <-. discriminate.
  - split; [discriminate|reflexivity].
Defined.
