(* ===== verification/ArithOps.v ===== *)
(** * Arithmetic primitives (crypto/vm/arithops.cpp)

    Every [exec_*] handler of the file on the value level of the integers, with the
    behaviour of every network version, and the part of codepage 0 that
    [register_arith_ops] fills. *)
From S2P Require Import Prelude BigInt Int256 Cells VmTypes Stack OpcodeTable StackOps.

(** [(signed char)args], [(short)args], [(args & 0xff) + 1] *)
Definition arg_s8 (args : Z) : Z := wrap_s 8 args.
Definition arg_s16 (args : Z) : Z := wrap_s 16 args.
Definition arg_len (args : Z) : Z := Z.land args 255 + 1.

(** ** Constants *)

Definition exec_push_tinyint4 (args : Z) : M VmState Z :=
  let x := Z.land (args + 5) 15 - 5 in stack_op (push_smallint x).

Definition exec_push_tinyint8 (args : Z) : M VmState Z := stack_op (push_smallint (arg_s8 args)).

Definition exec_push_smallint (args : Z) : M VmState Z := stack_op (push_smallint (arg_s16 args)).

Definition exec_push_int (args pfx_bits : Z) : M VmState Z :=
  let l := Z.land args 31 + 2 in
  cs <- code_slice ;;
  unless_throw (have (Z.to_nat (pfx_bits + 3 + l * 8)) cs) (VmError Exc_inv_opcode) ;;
  code_advance pfx_bits ;;
  cs <- code_slice ;;
  let* (x, cs') := of_option (fetch_int256 (Z.to_nat (3 + l * 8)) true cs) in
  put_code cs' ;;
  stack_op (push_int x).

Definition exec_push_pow2 (args : Z) : M VmState Z :=
  stack_op (push (t_int (set_pow2 word_cnt (arg_len args)))).

Definition exec_push_nan : M VmState Z := stack_op (push (t_int NaN)).

Definition exec_push_pow2dec (args : Z) : M VmState Z :=
  stack_op (push (t_int (int_add_tiny word_cnt (set_pow2 word_cnt (arg_len args)) (-1)))).

Definition exec_push_negpow2 (args : Z) : M VmState Z :=
  stack_op (push (t_int (int_neg word_cnt (set_pow2 word_cnt (arg_len args))))).

(** ** Addition and multiplication *)

Definition exec_add (quiet : bool) : M VmState Z :=
  stack_op (check_underflow [2] ;; y <- pop_int ;; x <- pop_int ;;
            push_int_quiet (int_add word_cnt x y) quiet).

Definition exec_sub (quiet : bool) : M VmState Z :=
  stack_op (check_underflow [2] ;; y <- pop_int ;; x <- pop_int ;;
            push_int_quiet (int_sub word_cnt x y) quiet).

Definition exec_subr (quiet : bool) : M VmState Z :=
  stack_op (check_underflow [2] ;; y <- pop_int ;; x <- pop_int ;;
            push_int_quiet (int_sub word_cnt y x) quiet).

Definition exec_negate (quiet : bool) : M VmState Z :=
  stack_op (check_underflow [1] ;; x <- pop_int ;; push_int_quiet (int_neg word_cnt x) quiet).

Definition exec_inc (quiet : bool) : M VmState Z :=
  stack_op (check_underflow [1] ;; x <- pop_int ;;
            push_int_quiet (int_add_tiny word_cnt x 1) quiet).

Definition exec_dec (quiet : bool) : M VmState Z :=
  stack_op (check_underflow [1] ;; x <- pop_int ;;
            push_int_quiet (int_add_tiny word_cnt x (-1)) quiet).

Definition exec_add_tinyint8 (quiet : bool) (args : Z) : M VmState Z :=
  stack_op (check_underflow [1] ;; x <- pop_int ;;
            push_int_quiet (int_add_tiny word_cnt x (arg_s8 args)) quiet).

Definition exec_mul_tinyint8 (quiet : bool) (args : Z) : M VmState Z :=
  stack_op (check_underflow [1] ;; x <- pop_int ;;
            push_int_quiet (int_mul_short word_cnt x (arg_s8 args)) quiet).

Definition exec_mul (quiet : bool) : M VmState Z :=
  stack_op (check_underflow [2] ;; y <- pop_int ;; x <- pop_int ;;
            push_int_quiet (int_mul word_cnt x y) quiet).

(** ** Division *)

(** The decoding at the start of the five division handlers: the rounding mode, the
    result mode [d] (1 quotient, 2 remainder, 3 both) and whether an addend is popped. *)
Definition div_args (v args : Z) : Z * Z * bool :=
  let round_mode := Z.land args 3 - 1 in
  let d := Z.land (Z.shiftr args 2) 3 in
  if (d =? 0) && (4 <=? v) then (round_mode, 3, true) else (round_mode, d, false).

(** [if (d == 0 || round_mode == 2) throw inv_opcode] *)
Definition check_div_args (d round_mode : Z) : M VmState unit :=
  unless_throw (negb ((d =? 0) || (round_mode =? 2))) (VmError Exc_inv_opcode).

(** [add ? stack.pop_int() : {}] *)
Definition pop_addend (add : bool) : M Stack (option int256) :=
  if add then w <- pop_int ;; ret (Some w) else ret None.

(** [w.not_null() && !w->is_valid()] *)
Definition addend_invalid (w : option int256) : bool :=
  match w with Some w => negb (is_valid256 w) | None => false end.

Definition addend_or (w : option int256) (z : int256) : int256 :=
  match w with Some w => w | None => z end.

(** Push the quotient, the remainder, or both. *)
Definition push_div_results (d : Z) (q r : int256) (quiet : bool) : M Stack unit :=
  if d =? 1 then push_int_quiet q quiet
  else if d =? 3 then push_int_quiet q quiet ;; push_int_quiet r quiet
  else if d =? 2 then push_int_quiet r quiet
  else ret tt.

Definition exec_divmod (quiet : bool) (args : Z) : M VmState Z :=
  v <- gets global_version ;;
  let '(round_mode, d, add) := div_args v args in
  check_div_args d round_mode ;;
  stack_op (
    check_underflow [if add then 3 else 2] ;;
    y <- pop_int ;; w <- pop_addend add ;; x <- pop_int ;;
    match w with
    | Some w =>
        let (q, r) := mod_div dbl (int_add dbl x w) y round_mode in
        push_int_quiet (to_int256 q) quiet ;; push_int_quiet (to_int256 r) quiet
    | None =>
        let (q, r) := mod_div word_cnt x y round_mode in push_div_results d q r quiet
    end).

(** The invalid results of the versions that check their operands. *)
Definition push_nans (d : Z) (quiet : bool) : M Stack unit :=
  push_int_quiet NaN quiet ;; if d =? 3 then push_int_quiet NaN quiet else ret tt.

Definition exec_shrmod (mode args : Z) : M VmState Z :=
  let quiet := Z.testbit mode 0 in let y_in_args := Z.testbit mode 1 in
  let y_arg := arg_len args in
  let args := if y_in_args then Z.shiftr args 8 else args in
  v <- gets global_version ;;
  let '(round_mode, d, add) := div_args v args in
  check_div_args d round_mode ;;
  let* (y, valid_shift) :=
    (if y_in_args then
       on_stack (check_underflow [if add then 2 else 1]) ;; ret (y_arg, true)
     else
       on_stack (check_underflow [if add then 3 else 2]) ;;
       y_stack <- on_stack pop_long ;;
       let valid_shift := (0 <=? y_stack) && (y_stack <=? 256) in
       unless_throw (negb (((v <? 14) || negb quiet) && negb valid_shift))
         (VmError Exc_range_chk) ;;
       ret (if valid_shift then y_stack else -1, valid_shift)) in
  w <- on_stack (pop_addend add) ;;
  x <- on_stack pop_int ;;
  if (14 <=? v) && (negb (is_valid256 x) || addend_invalid w || negb valid_shift) then
    stack_op (push_nans d quiet)
  else
    assert_ub valid_shift ;;
    let round_mode := if y =? 0 then -1 else round_mode in
    match w with
    | Some w =>
        let tmp := int_add dbl x w in
        stack_op (
          push_int_quiet (to_int256 (int_rshift dbl tmp y round_mode)) quiet ;;
          push_int_quiet (to_int256 (int_mod_pow2 dbl tmp y round_mode)) quiet)
    | None =>
        stack_op (push_div_results d (int_rshift word_cnt x y round_mode)
                    (int_mod_pow2 word_cnt x y round_mode) quiet)
    end.

Definition exec_muldivmod (quiet : bool) (args : Z) : M VmState Z :=
  v <- gets global_version ;;
  let '(round_mode, d, add) := div_args v args in
  check_div_args d round_mode ;;
  stack_op (
    check_underflow [if add then 4 else 3] ;;
    z <- pop_int ;; w <- pop_addend add ;; y <- pop_int ;; x <- pop_int ;;
    let tmp := int_add dbl (addend_or w (Int 0)) (int_mul dbl x y) in
    let (q, r) := mod_div dbl tmp z round_mode in
    push_div_results d (to_int256 q) (to_int256 r) quiet).

Definition exec_mulshrmod (mode args : Z) : M VmState Z :=
  let quiet := Z.testbit mode 0 in let z_in_args := Z.testbit mode 1 in
  let z_arg := arg_len args in
  let args := if z_in_args then Z.shiftr args 8 else args in
  v <- gets global_version ;;
  let '(round_mode, d, add) := div_args v args in
  check_div_args d round_mode ;;
  z <- (if z_in_args then
          on_stack (check_underflow [if add then 3 else 2]) ;; ret z_arg
        else
          on_stack (check_underflow [if add then 4 else 3]) ;;
          z <- on_stack pop_long ;;
          unless_throw (negb (((v <? 13) || negb quiet) && ((z <? 0) || (256 <? z))))
            (VmError Exc_range_chk) ;;
          ret z) ;;
  let round_mode := if z =? 0 then -1 else round_mode in
  w <- on_stack (pop_addend add) ;;
  y <- on_stack pop_int ;;
  x <- on_stack pop_int ;;
  if (13 <=? v) && (negb (is_valid256 x) || negb (is_valid256 y) || addend_invalid w ||
                    (z <? 0) || (256 <? z)) then
    stack_op (push_nans d quiet)
  else
    let tmp := int_add dbl (addend_or w (Int 0)) (int_mul dbl x y) in
    stack_op (push_div_results d (to_int256 (int_rshift dbl tmp z round_mode))
                (to_int256 (int_mod_pow2 dbl tmp z round_mode)) quiet).

Definition exec_shldivmod (mode args : Z) : M VmState Z :=
  let quiet := Z.testbit mode 0 in let y_in_args := Z.testbit mode 1 in
  let y_arg := arg_len args in
  let args := if y_in_args then Z.shiftr args 8 else args in
  v <- gets global_version ;;
  let '(round_mode, d, add) := div_args v args in
  check_div_args d round_mode ;;
  y <- (if y_in_args then
          on_stack (check_underflow [if add then 3 else 2]) ;; ret y_arg
        else
          on_stack (check_underflow [if add then 4 else 3]) ;;
          y <- on_stack pop_long ;;
          unless_throw (negb (((v <? 13) || negb quiet) && ((y <? 0) || (256 <? y))))
            (VmError Exc_range_chk) ;;
          ret y) ;;
  z <- on_stack pop_int ;;
  w <- on_stack (pop_addend add) ;;
  x <- on_stack pop_int ;;
  if (13 <=? v) && (negb (is_valid256 z) || negb (is_valid256 x) || addend_invalid w ||
                    (y <? 0) || (256 <? y)) then
    stack_op (push_nans d quiet)
  else
    let tmp := int_lshift dbl x y in
    let tmp := match w with Some w => int_add dbl tmp w | None => tmp end in
    let (q, r) := mod_div dbl tmp z round_mode in
    stack_op (push_div_results d (to_int256 q) (to_int256 r) quiet).

(** ** Shifts and logical operations *)

Definition exec_lshift_tinyint8 (quiet : bool) (args : Z) : M VmState Z :=
  let x := arg_len args in
  v <- gets global_version ;;
  stack_op (check_underflow [1] ;; a <- pop_int ;;
    push_int_quiet (if (14 <=? v) && negb (is_valid256 a) then NaN
                    else int_lshift word_cnt a x) quiet).

Definition exec_rshift_tinyint8 (quiet : bool) (args : Z) : M VmState Z :=
  let x := arg_len args in
  v <- gets global_version ;;
  stack_op (check_underflow [1] ;; a <- pop_int ;;
    push_int_quiet (if (14 <=? v) && negb (is_valid256 a) then NaN
                    else int_rshift word_cnt a x (-1)) quiet).

Definition exec_lshift (quiet : bool) : M VmState Z :=
  v <- gets global_version ;;
  stack_op (check_underflow [2] ;; shift <- pop_long ;;
    unless_throw (negb (((v <? 13) || negb quiet) && ((shift <? 0) || (1023 <? shift))))
      (VmError Exc_range_chk) ;;
    a <- pop_int ;;
    push_int_quiet
      (if (13 <=? v) && ((shift <? 0) || (1023 <? shift) || negb (is_valid256 a)) then NaN
       else int_lshift word_cnt a shift) quiet).

Definition exec_rshift (quiet : bool) : M VmState Z :=
  v <- gets global_version ;;
  stack_op (check_underflow [2] ;; shift <- pop_long ;;
    unless_throw (negb (((v <? 13) || negb quiet) && ((shift <? 0) || (1023 <? shift))))
      (VmError Exc_range_chk) ;;
    a <- pop_int ;;
    push_int_quiet
      (if (13 <=? v) && ((shift <? 0) || (1023 <? shift) || negb (is_valid256 a)) then NaN
       else int_rshift word_cnt a shift (-1)) quiet).

Definition exec_pow2 (quiet : bool) : M VmState Z :=
  v <- gets global_version ;;
  stack_op (check_underflow [1] ;; x <- pop_long ;;
    unless_throw (negb (((v <? 13) || negb quiet) && ((x <? 0) || (1023 <? x))))
      (VmError Exc_range_chk) ;;
    push_int_quiet (if (13 <=? v) && ((x <? 0) || (1023 <? x)) then NaN
                    else set_pow2 word_cnt x) quiet).

Definition exec_and (quiet : bool) : M VmState Z :=
  v <- gets global_version ;;
  stack_op (check_underflow [2] ;; y <- pop_int ;; x <- pop_int ;;
    push_int_quiet (if (13 <=? v) && (negb (is_valid256 x) || negb (is_valid256 y)) then NaN
                    else int_and word_cnt x y) quiet).

Definition exec_or (quiet : bool) : M VmState Z :=
  v <- gets global_version ;;
  stack_op (check_underflow [2] ;; y <- pop_int ;; x <- pop_int ;;
    push_int_quiet (if (13 <=? v) && (negb (is_valid256 x) || negb (is_valid256 y)) then NaN
                    else int_or word_cnt x y) quiet).

Definition exec_xor (quiet : bool) : M VmState Z :=
  stack_op (check_underflow [2] ;; y <- pop_int ;; x <- pop_int ;;
            push_int_quiet (int_xor word_cnt x y) quiet).

Definition exec_not (quiet : bool) : M VmState Z :=
  stack_op (check_underflow [1] ;; x <- pop_int ;; push_int_quiet (int_not word_cnt x) quiet).

(** [if (!fits) x.invalidate()] *)
Definition invalidate_unless (b : bool) (x : int256) : int256 := if b then x else NaN.

Definition exec_fits_tinyint8 (quiet : bool) (args : Z) : M VmState Z :=
  let y := arg_len args in
  stack_op (check_underflow [1] ;; x <- pop_int ;;
            push_int_quiet (invalidate_unless (signed_fits_bits x y) x) quiet).

Definition exec_ufits_tinyint8 (quiet : bool) (args : Z) : M VmState Z :=
  let y := arg_len args in
  stack_op (check_underflow [1] ;; x <- pop_int ;;
            push_int_quiet (invalidate_unless (unsigned_fits_bits x y) x) quiet).

Definition exec_fits (quiet : bool) : M VmState Z :=
  stack_op (check_underflow [2] ;; y <- pop_smallint_range 1023 0 ;; x <- pop_int ;;
            push_int_quiet (invalidate_unless (signed_fits_bits x y) x) quiet).

Definition exec_ufits (quiet : bool) : M VmState Z :=
  stack_op (check_underflow [2] ;; y <- pop_smallint_range 1023 0 ;; x <- pop_int ;;
            push_int_quiet (invalidate_unless (unsigned_fits_bits x y) x) quiet).

Definition exec_bitsize (sgnd quiet : bool) : M VmState Z :=
  stack_op (check_underflow [1] ;; x <- pop_int ;;
    let y := bit_size x sgnd in
    if y <? 0x7fffffff then push_smallint y
    else if negb quiet then throw (VmError Exc_range_chk)
    else push_int_quiet NaN quiet).

(** ** Minimum, maximum, absolute value *)

Definition exec_minmax (mode : Z) : M VmState Z :=
  stack_op (check_underflow [2] ;; x <- pop_int ;; y <- pop_int ;;
    let (x, y) :=
      if negb (is_valid256 x) then (x, x)
      else if negb (is_valid256 y) then (y, y)
      else if 0 <? int_cmp x y then (y, x) else (x, y) in
    (if Z.testbit mode 1 then push_int_quiet x (Z.testbit mode 0) else ret tt) ;;
    (if Z.testbit mode 2 then push_int_quiet y (Z.testbit mode 0) else ret tt)).

Definition exec_abs (quiet : bool) : M VmState Z :=
  stack_op (check_underflow [1] ;; x <- pop_int ;;
    if is_valid256 x && (int_sgn x <? 0) then push_int_quiet (int_neg word_cnt x) quiet
    else push_int_quiet x quiet).

(** ** Comparison *)

(** [((mode >> (4 + c * 4)) & 15) - 8] *)
Definition mode_result (mode c : Z) : Z := Z.land (Z.shiftr mode (4 + c * 4)) 15 - 8.

Definition exec_sgn (mode : Z) (quiet : bool) : M VmState Z :=
  stack_op (check_underflow [1] ;; x <- pop_int ;;
    if negb (is_valid256 x) then push_int_quiet x quiet
    else push_smallint (mode_result mode (int_sgn x))).

Definition exec_cmp (mode : Z) (quiet : bool) : M VmState Z :=
  stack_op (check_underflow [2] ;; y <- pop_int ;; x <- pop_int ;;
    if negb (is_valid256 x) || negb (is_valid256 y) then push_int_quiet NaN quiet
    else push_smallint (mode_result mode (int_cmp x y))).

Definition exec_cmp_int (mode : Z) (quiet : bool) (args : Z) : M VmState Z :=
  let y := arg_s8 args in
  stack_op (check_underflow [1] ;; x <- pop_int ;;
    if negb (is_valid256 x) then push_int_quiet x quiet
    else push_smallint (mode_result mode (int_cmp x (Int y)))).

Definition exec_is_nan : M VmState Z :=
  stack_op (check_underflow [1] ;; x <- pop_int ;;
            push_smallint (if is_valid256 x then 0 else -1)).

Definition exec_chk_nan : M VmState Z :=
  stack_op (check_underflow [1] ;; x <- pop_int ;; push_int x).

(** ** Registration *)

Definition register_int_const_ops : list (option OpcodeInstr) := [
  mkfixed 0x7 4 4 exec_push_tinyint4;
  mkfixed 0x80 8 8 exec_push_tinyint8;
  mkfixed 0x81 8 16 exec_push_smallint;
  mkextrange (Z.shiftl 0x82 5) (Z.shiftl 0x82 5 + 31) 13 5 exec_push_int;
  mkfixedrange 0x8300 0x83ff 16 8 exec_push_pow2;
  mksimple 0x83ff 16 exec_push_nan;
  mkfixed 0x84 8 8 exec_push_pow2dec;
  mkfixed 0x85 8 8 exec_push_negpow2
].

Definition register_add_mul_ops : list (option OpcodeInstr) := [
  mksimple 0xa0 8 (exec_add false);
  mksimple 0xa1 8 (exec_sub false);
  mksimple 0xa2 8 (exec_subr false);
  mksimple 0xa3 8 (exec_negate false);
  mksimple 0xa4 8 (exec_inc false);
  mksimple 0xa5 8 (exec_dec false);
  mkfixed 0xa6 8 8 (exec_add_tinyint8 false);
  mkfixed 0xa7 8 8 (exec_mul_tinyint8 false);
  mksimple 0xa8 8 (exec_mul false);
  mksimple 0xb7a0 16 (exec_add true);
  mksimple 0xb7a1 16 (exec_sub true);
  mksimple 0xb7a2 16 (exec_subr true);
  mksimple 0xb7a3 16 (exec_negate true);
  mksimple 0xb7a4 16 (exec_inc true);
  mksimple 0xb7a5 16 (exec_dec true);
  mkfixed 0xb7a6 16 8 (exec_add_tinyint8 true);
  mkfixed 0xb7a7 16 8 (exec_mul_tinyint8 true);
  mksimple 0xb7a8 16 (exec_mul true)
].

Definition register_div_ops : list (option OpcodeInstr) := [
  mkfixed 0xa90 12 4 (exec_divmod false);
  mkfixed 0xa92 12 4 (exec_shrmod 0);
  mkfixed 0xa93 12 12 (exec_shrmod 2);
  mkfixed 0xa98 12 4 (exec_muldivmod false);
  mkfixed 0xa9a 12 4 (exec_mulshrmod 0);
  mkfixed 0xa9b 12 12 (exec_mulshrmod 2);
  mkfixed 0xa9c 12 4 (exec_shldivmod 0);
  mkfixed 0xa9d 12 12 (exec_shldivmod 2);
  mkfixed 0xb7a90 20 4 (exec_divmod true);
  mkfixed 0xb7a92 20 4 (exec_shrmod 1);
  mkfixed 0xb7a98 20 4 (exec_muldivmod true);
  mkfixed 0xb7a9a 20 4 (exec_mulshrmod 1);
  mkfixed 0xb7a9c 20 4 (exec_shldivmod 1)
].

Definition register_shift_logic_ops : list (option OpcodeInstr) := [
  mkfixed 0xaa 8 8 (exec_lshift_tinyint8 false);
  mkfixed 0xab 8 8 (exec_rshift_tinyint8 false);
  mksimple 0xac 8 (exec_lshift false);
  mksimple 0xad 8 (exec_rshift false);
  mksimple 0xae 8 (exec_pow2 false);
  mksimple 0xb0 8 (exec_and false);
  mksimple 0xb1 8 (exec_or false);
  mksimple 0xb2 8 (exec_xor false);
  mksimple 0xb3 8 (exec_not false);
  mkfixed 0xb4 8 8 (exec_fits_tinyint8 false);
  mkfixed 0xb5 8 8 (exec_ufits_tinyint8 false);
  mksimple 0xb600 16 (exec_fits false);
  mksimple 0xb601 16 (exec_ufits false);
  mksimple 0xb602 16 (exec_bitsize true false);
  mksimple 0xb603 16 (exec_bitsize false false);
  mkfixed 0xb7aa 16 8 (exec_lshift_tinyint8 true);
  mkfixed 0xb7ab 16 8 (exec_rshift_tinyint8 true);
  mksimple 0xb7ac 16 (exec_lshift true);
  mksimple 0xb7ad 16 (exec_rshift true);
  mksimple 0xb7ae 16 (exec_pow2 true);
  mksimple 0xb7b0 16 (exec_and true);
  mksimple 0xb7b1 16 (exec_or true);
  mksimple 0xb7b2 16 (exec_xor true);
  mksimple 0xb7b3 16 (exec_not true);
  mkfixed 0xb7b4 16 8 (exec_fits_tinyint8 true);
  mkfixed 0xb7b5 16 8 (exec_ufits_tinyint8 true);
  mksimple 0xb7b600 24 (exec_fits true);
  mksimple 0xb7b601 24 (exec_ufits true);
  mksimple 0xb7b602 24 (exec_bitsize true true);
  mksimple 0xb7b603 24 (exec_bitsize false true)
].

Definition register_other_arith_ops : list (option OpcodeInstr) := [
  mksimple 0xb608 16 (exec_minmax 2);
  mksimple 0xb609 16 (exec_minmax 4);
  mksimple 0xb60a 16 (exec_minmax 6);
  mksimple 0xb60b 16 (exec_abs false);
  mksimple 0xb7b608 24 (exec_minmax 3);
  mksimple 0xb7b609 24 (exec_minmax 5);
  mksimple 0xb7b60a 24 (exec_minmax 7);
  mksimple 0xb7b60b 24 (exec_abs true)
].

Definition register_int_cmp_ops : list (option OpcodeInstr) := [
  mksimple 0xb8 8 (exec_sgn 0x987 false);
  mksimple 0xb9 8 (exec_cmp 0x887 false);
  mksimple 0xba 8 (exec_cmp 0x878 false);
  mksimple 0xbb 8 (exec_cmp 0x877 false);
  mksimple 0xbc 8 (exec_cmp 0x788 false);
  mksimple 0xbd 8 (exec_cmp 0x787 false);
  mksimple 0xbe 8 (exec_cmp 0x778 false);
  mksimple 0xbf 8 (exec_cmp 0x987 false);
  mkfixed 0xc0 8 8 (exec_cmp_int 0x878 false);
  mkfixed 0xc1 8 8 (exec_cmp_int 0x887 false);
  mkfixed 0xc2 8 8 (exec_cmp_int 0x788 false);
  mkfixed 0xc3 8 8 (exec_cmp_int 0x787 false);
  mksimple 0xc4 8 exec_is_nan;
  mksimple 0xc5 8 exec_chk_nan;
  mksimple 0xb7b8 16 (exec_sgn 0x987 true);
  mksimple 0xb7b9 16 (exec_cmp 0x887 true);
  mksimple 0xb7ba 16 (exec_cmp 0x878 true);
  mksimple 0xb7bb 16 (exec_cmp 0x877 true);
  mksimple 0xb7bc 16 (exec_cmp 0x788 true);
  mksimple 0xb7bd 16 (exec_cmp 0x787 true);
  mksimple 0xb7be 16 (exec_cmp 0x778 true);
  mksimple 0xb7bf 16 (exec_cmp 0x987 true);
  mkfixed 0xb7c0 16 8 (exec_cmp_int 0x878 true);
  mkfixed 0xb7c1 16 8 (exec_cmp_int 0x887 true);
  mkfixed 0xb7c2 16 8 (exec_cmp_int 0x788 true);
  mkfixed 0xb7c3 16 8 (exec_cmp_int 0x787 true)
].

Definition register_arith_ops : list (option OpcodeInstr) :=
  register_int_const_ops ++ register_add_mul_ops ++ register_div_ops ++
  register_shift_logic_ops ++ register_other_arith_ops ++ register_int_cmp_ops.

(** ** What the instructions push *)

(** A result: a 257-bit integer, or, when [q] allows it, [NaN]. *)
Definition result_ok (q : bool) (x : int256) : Prop :=
  match x with NaN => q = true | Int z => fits_s 257 z = true end.

(** The stack after an arithmetic instruction: results on top of what is left of the
    old stack. *)
Definition arith_post (q : bool) (v v' : Stack) : Prop :=
  exists p r, v' = (t_int <$> p) ++ r /\ r `suffix_of` v /\ Forall (result_ok q) p.

Lemma arith_post_push q v x v' :
  result_ok q x -> arith_post q v v' -> arith_post q v (t_int x :: v').
Proof.
  intros Hx (p & r & -> & Hr & Hp). exists (x :: p), r. split_and!; [done|done|by constructor].
Qed.
Lemma arith_post_done q v : arith_post q v v.
Proof. exists [], v. split_and!; [done|done|constructor]. Qed.
Lemma arith_post_pop q e v v' : arith_post q v v' -> arith_post q (e :: v) v'.
Proof.
  intros (p & r & -> & Hr & Hp). exists p, r. split_and!; [done|by apply suffix_cons_r|done].
Qed.

Lemma signed_fits_257 x : signed_fits_bits x 257 = true -> exists z, x = Int z /\ fits_s 257 z = true.
Proof.
  destruct x as [|z]; [done|]. simpl. destruct (Z.eqb_spec z 0) as [-> |]; intros H; [by exists 0|].
  by exists z.
Qed.

Lemma wp_push_int_quiet_ok x q (Q : unit -> Stack -> Prop) E v :
  (forall y, result_ok q y -> Q tt (t_int y :: v)) -> (forall e v, E e v) ->
  wp (push_int_quiet x q) Q E v.
Proof.
  intros HQ HE. unfold push_int_quiet.
  destruct (signed_fits_bits x 257) eqn:Hf; simpl.
  - apply signed_fits_257 in Hf as (z & -> & Hz). by apply wp_push, HQ.
  - destruct q; simpl; [|apply HE]. destruct (is_valid256 x) eqn:Hv; [by apply wp_push, HQ|].
    destruct x; [|done]. by apply wp_push, HQ.
Qed.

Lemma wp_push_int_ok x q (Q : unit -> Stack -> Prop) E v :
  (forall y, result_ok q y -> Q tt (t_int y :: v)) -> (forall e v, E e v) ->
  wp (push_int x) Q E v.
Proof.
  intros HQ HE. unfold push_int. apply wp_bind, wp_unless_throw; [|auto].
  intros (z & -> & Hz)%signed_fits_257. by apply wp_push, HQ.
Qed.

Lemma small_result q z : - 2 ^ 40 <= z <= 2 ^ 40 -> result_ok q (Int z).
Proof. intros. apply fits_s_spec. change (257 - 1) with 256. lia. Qed.

Lemma depth_result q (v : Stack) : - 2 ^ 40 <= depth v <= 2 ^ 40 -> result_ok q (Int (depth v)).
Proof. apply small_result. Qed.

Lemma arg_len_range args : 1 <= arg_len args <= 256.
Proof. unfold arg_len. pose proof (low_byte_range args). unfold low_byte in *. lia. Qed.

Lemma set_pow2_ok e : 0 <= e <= 256 -> set_pow2 word_cnt e = Int (2 ^ e).
Proof.
  intros He. unfold set_pow2, word_cnt, word_shift.
  rewrite (proj2 (Z.ltb_ge _ _)), (proj2 (Z.leb_gt _ _)) by lia. done.
Qed.

Lemma norm_ok z : - 2 ^ 257 <= z <= 2 ^ 257 -> norm word_cnt z = Int z.
Proof. intros H. unfold norm. by rewrite storage_257. Qed.

Lemma pow2_le a b : 0 <= a <= b -> 2 ^ a <= 2 ^ b.
Proof. intros. apply Z.pow_le_mono_r; lia. Qed.

Lemma pow2_result q e : 0 <= e <= 255 -> result_ok q (set_pow2 word_cnt e).
Proof.
  intros He. rewrite set_pow2_ok by lia. apply fits_s_spec. pose proof (pow2_pos e).
  pose proof (pow2_le e 255). change (257 - 1) with 256. lia.
Qed.
Lemma pow2dec_result q e :
  0 <= e <= 256 -> result_ok q (int_add_tiny word_cnt (set_pow2 word_cnt e) (-1)).
Proof.
  intros He. rewrite set_pow2_ok by lia. simpl. pose proof (pow2_pos e). pose proof (pow2_le e 256).
  rewrite norm_ok by lia. apply fits_s_spec. change (257 - 1) with 256. lia.
Qed.
Lemma negpow2_result q e :
  0 <= e <= 256 -> result_ok q (int_neg word_cnt (set_pow2 word_cnt e)).
Proof.
  intros He. rewrite set_pow2_ok by lia. simpl. pose proof (pow2_pos e). pose proof (pow2_le e 256).
  rewrite norm_ok by lia. apply fits_s_spec. change (257 - 1) with 256. lia.
Qed.

Lemma land_range a n : 0 <= n -> 0 <= Z.land a n.
Proof. intros. apply Z.land_nonneg. by right. Qed.

Lemma mode_result_range mode c : -8 <= mode_result mode c <= 7.
Proof. unfold mode_result. pose proof (land15_range (Z.shiftr mode (4 + c * 4))). lia. Qed.

Lemma bit_size_range x sgnd : bit_size x sgnd < 0x7fffffff -> 0 <= bit_size x sgnd.
Proof.
  destruct x as [|z]; simpl; [lia|]. pose proof (Z.log2_nonneg z).
  pose proof (Z.log2_nonneg (- z - 1)). destruct sgnd; simpl; repeat case_match; lia.
Qed.

Lemma arg_s8_range args : - 128 <= arg_s8 args <= 127.
Proof. unfold arg_s8. pose proof (wrap_s_range 8 args ltac:(lia)). change (8 - 1) with 7 in *. lia. Qed.
Lemma arg_s16_range args : - 32768 <= arg_s16 args <= 32767.
Proof. unfold arg_s16. pose proof (wrap_s_range 16 args ltac:(lia)). change (16 - 1) with 15 in *. lia. Qed.

Lemma tinyint4_range args : -5 <= Z.land (args + 5) 15 - 5 <= 10.
Proof. pose proof (land15_range (args + 5)). lia. Qed.

Lemma wp_pop_addend add (Q : option int256 -> Stack -> Prop) E v :
  (forall w e v', add = true -> v = e :: v' -> depth v' = depth v - 1 -> Q (Some w) v') ->
  (add = false -> Q None v) -> (forall e v', E e v') -> wp (pop_addend add) Q E v.
Proof.
  intros HQ HN HE. unfold pop_addend. destruct add; [|apply wp_ret; auto].
  apply wp_bind. eapply pops_use; [apply pops_pop_int| |auto]. intros w e v' _ He _ Hd.
  apply wp_ret. by eapply HQ.
Qed.

Lemma pow2_arg_range args : 0x8300 <= args < 0x83ff -> arg_len args <= 255.
Proof.
  intros H. unfold arg_len. change 255 with (Z.ones 8) at 1. rewrite Z.land_ones by lia.
  change (2 ^ 8) with 256. div_lia.
Qed.

Ltac result_tac :=
  first [ assumption
        | done
        | lazymatch goal with
          | |- context [arg_len ?a] => pose proof (arg_len_range a); try pose proof (pow2_arg_range a)
          end;
          first [apply pow2_result | apply pow2dec_result | apply negpow2_result]; lia
        | case_match; apply small_result; lia
        | match goal with |- result_ok _ (Int ?z) => apply small_result end;
          match goal with
          | |- context [mode_result ?m ?c] => pose proof (mode_result_range m c)
          | |- context [arg_s8 ?a] => pose proof (arg_s8_range a)
          | |- context [arg_s16 ?a] => pose proof (arg_s16_range a)
          | |- context [Z.land (?a + 5) 15] => pose proof (tinyint4_range a)
          | H : (?b <? 0x7fffffff) = true |- context [?b] =>
              apply Z.ltb_lt in H; pose proof (bit_size_range _ _ H)
          end; lia ].

(** The [CHECK(valid_shift)] of [exec_shrmod] holds. *)
Lemma shift_checked v q valid a b :
  negb (((v <? 14) || q) && negb valid) = true ->
  (14 <=? v) && (a || b || negb valid) = false -> valid = true.
Proof.
  destruct valid; [done|]. rewrite orb_true_r, !andb_true_r.
  destruct (Z.ltb_spec v 14), (Z.leb_spec 14 v); simpl; try done; lia.
Qed.

Ltac arith_step :=
  first
    [ wp_step
    | lazymatch goal with
      | |- wp (stack_op _) _ _ _ => unfold stack_op
      | |- wp (on_stack _) _ _ _ => apply wp_on_stack; cbn [stack set_stack] in *
      | |- wp (assert_ub _) _ _ _ => apply wp_assert_ub; [first [done | by eapply shift_checked]|]
      | |- wp (check_div_args _ _) _ _ _ => unfold check_div_args
      | |- wp (push_int_quiet _ _) _ _ _ => apply wp_push_int_quiet_ok; [intros ? ?|done]
      | |- wp (push_int _) _ _ _ => eapply wp_push_int_ok; [intros ? ?|done]
      | |- wp (pop_addend _) _ _ _ =>
          apply wp_pop_addend; [intros ? ? ? ? ? ?|intros ?|done]
      | |- wp (push_div_results _ _ _ _) _ _ _ => unfold push_div_results
      | |- wp (push_nans _ _) _ _ _ => unfold push_nans
      | |- wp (match ?w with Some _ => _ | None => _ end) _ _ _ => destruct w eqn:?
      | |- wp (match ?p with (_, _) => _ end) _ _ _ => destruct p as [? ?] eqn:?
      end
    | stack_step ].

(** The opcodes that may leave [NaN]: the quiet group and PUSHNAN. *)
Definition nan_allowed (opcode : Z) : bool :=
  (Z.shiftr opcode 16 =? 0xb7) || (Z.shiftr opcode 8 =? 0x83ff).

Lemma nan_allowed_quiet op : 0xb70000 <= op < 0xb80000 -> nan_allowed op = true.
Proof.
  intros H. unfold nan_allowed. apply orb_true_iff. left. apply Z.eqb_eq.
  pose proof (shiftr_range 0xb7 0xb8 16 op ltac:(lia) H). lia.
Qed.

Lemma nan_allowed_push op : 0x83ff00 <= op < 0x840000 -> nan_allowed op = true.
Proof.
  intros H. unfold nan_allowed. apply orb_true_iff. right. apply Z.eqb_eq.
  pose proof (shiftr_range 0x83ff 0x8400 8 op ltac:(lia) H). lia.
Qed.

Lemma result_weaken op q x :
  (q = true -> nan_allowed op = true) -> result_ok q x -> result_ok (nan_allowed op) x.
Proof. destruct x; simpl; auto. Qed.

Definition arith_instr_post (opcode : Z) (v : Stack) (s' : VmState) : Prop :=
  arith_post (nan_allowed opcode) v (stack s').

Lemma exec_push_int_ok args pfx (q : bool) s :
  code s <> None -> 0 <= pfx ->
  wp (exec_push_int args pfx) (fun _ s' => arith_post q (stack s) (stack s')) any_exc s.
Proof.
  intros Hc Hp. unfold exec_push_int, code_slice.
  pose proof (land_range args 31 ltac:(lia)). set (l := Z.land args 31 + 2). cbv zeta.
  assert (0 <= l) as Hl by (unfold l; lia). clearbody l.
  apply wp_bind, wp_bind, wp_gets. destruct (code s) as [cs|] eqn:Ecs; [|done].
  apply (wp_of_option _ cs); [done|].
  apply wp_bind, wp_unless_throw; [|done]. intros Hh.
  apply have_spec in Hh.
  destruct (advance_some (Z.to_nat pfx) cs) as (cs1 & Hadv & Hsz & _); [lia|].
  apply wp_bind. unfold wp at 1, code_advance. rewrite Ecs, Hadv.
  apply wp_bind, wp_bind, wp_gets, (wp_of_option _ cs1); [done|].
  assert (have (Z.to_nat (3 + l * 8)) cs1 = true) as Hh' by (apply have_spec; lia).
  apply wp_bind. unfold fetch_int256. rewrite Hh'. eapply wp_of_option; [done|].
  apply wp_bind, wp_modify. unfold stack_op. apply wp_bind, wp_on_stack.
  eapply wp_push_int_ok; [|done]. intros y Hy. apply wp_ret. simpl.
  apply arith_post_push; [exact Hy|apply arith_post_done].
Qed.

Ltac arith_finish :=
  unfold arith_instr_post; cbn [stack set_stack] in *;
  repeat first
    [ apply arith_post_push
    | apply arith_post_done
    | match goal with H : ?v = _ :: _ |- arith_post _ ?v _ => rewrite H; apply arith_post_pop end ];
  try first [ result_tac
            | eapply result_weaken; [|eassumption]; intros ?;
              first [done | apply nan_allowed_quiet; lia]
            | apply nan_allowed_quiet; lia
            | apply nan_allowed_push; lia ].

(** Safety and results of every arithmetic instruction. *)
Lemma arith_ops_spec :
  Forall (registered_spec arith_instr_post) register_arith_ops.
Proof.
  unfold register_arith_ops, register_int_const_ops, register_add_mul_ops, register_div_ops,
    register_shift_logic_ops, register_other_arith_ops, register_int_cmp_ops. simpl app.
  split_Forall; instr_spec_tac; destruct Hpre as [Hgas Hcode].
  all: try (apply exec_push_int_ok; [done|lia]).
  all: unfold_head; cbv zeta; simpl Z.testbit; cbv iota.
  all: repeat arith_step.
  all: arith_finish.
Qed.

(** C37: every arithmetic instruction, dispatched on any opcode of its range in any
    machine state, is free of undefined behaviour; when it returns, it has replaced
    the top of the stack by integers that fit 257 bits, or by NaN, which only the
    quiet instructions and PUSHNAN may leave. *)
Theorem arith_results_well_formed :
  Forall (registered_spec arith_instr_post) register_arith_ops.
Proof. exact arith_ops_spec. Qed.
