(* ===== verification/ArithSpec.v ===== *)
(** * Functional correctness of the arithmetic primitives

    The handlers of ArithOps against specifications over unbounded integers: a
    result that fits 257 bits is pushed, any other is an overflow, or [NaN] for
    the quiet variants. *)
From S2P Require Import Prelude BigInt Int256 Cells VmTypes Stack OpcodeTable StackOps ArithOps.

(** ** Specifications *)

(** An integer result; [None] is a division by zero. *)
Definition push_checked (quiet : bool) (o : option Z) : M Stack unit :=
  match o with
  | Some z =>
      if fits_s 257 z then push (t_int (Int z))
      else if quiet then push (t_int NaN) else throw (VmError Exc_int_ov)
  | None => if quiet then push (t_int NaN) else throw (VmError Exc_int_ov)
  end.

(** Division of [n] by [m] with rounding: the quotient, the remainder, or both. *)
Definition quotient (rm n m : Z) : option Z := if m =? 0 then None else Some (round_div rm n m).
Definition remainder (rm n m : Z) : option Z :=
  if m =? 0 then None else Some (n - round_div rm n m * m).
Definition divmod_spec (quiet : bool) (d rm n m : Z) : M Stack unit :=
  let q := push_checked quiet (quotient rm n m) in
  let r := push_checked quiet (remainder rm n m) in
  if d =? 1 then q else if d =? 3 then q ;; r else r.

(** ** Running the handlers *)

Lemma pop_int_run x v : pop_int (t_int x :: v) = Ret x v.
Proof.
  unfold pop_int, bind. rewrite check_underflow_ok; [done|].
  apply one_req. rewrite depth_cons. pose proof (depth_nonneg v). lia.
Qed.
Lemma pop_long_run z v : fits_s 64 z = true -> pop_long (t_int (Int z) :: v) = Ret z v.
Proof. intros Hz. unfold pop_long, bind. rewrite pop_int_run. simpl. by rewrite Hz. Qed.

Lemma push_int_quiet_norm z quiet v :
  push_int_quiet (norm word_cnt z) quiet v = push_checked quiet (Some z) v.
Proof.
  unfold push_int_quiet, push_checked, norm.
  destruct (fits_s 257 z) eqn:Hf.
  - apply fits_s_spec in Hf as Hr. change (257 - 1) with 256 in Hr.
    rewrite storage_257 by lia. simpl. rewrite Hf. by destruct (z =? 0).
  - destruct (storage_ok word_cnt z); simpl.
    + assert (z =? 0 = false) as -> by (destruct (Z.eqb_spec z 0) as [-> |]; [|done]; by vm_compute in Hf).
      rewrite Hf. by destruct quiet.
    + by destruct quiet.
Qed.
Lemma push_int_quiet_nan quiet v : push_int_quiet NaN quiet v = push_checked quiet None v.
Proof. by destruct quiet. Qed.
Lemma push_int_quiet_fits z quiet v :
  fits_s 257 z = true -> push_int_quiet (Int z) quiet v = push_checked quiet (Some z) v.
Proof.
  intros Hz. unfold push_int_quiet, push_checked. simpl. rewrite Hz. by destruct (z =? 0).
Qed.

(** Run the pops of a handler on a stack of known integers. *)
Ltac run_pops :=
  unfold bind at 1;
  rewrite check_underflow_ok by
    (apply one_req; rewrite !depth_cons;
     match goal with v : list StackEntry |- _ => pose proof (depth_nonneg v) end; lia);
  repeat (unfold bind at 1; rewrite pop_int_run).

(** Handlers that run stack code with the same outcome have the same outcome. *)
Lemma stack_op_eq m m' s v v' :
  m v = m' v' -> stack_op m (set_stack v s) = stack_op m' (set_stack v' s).
Proof. intros H. unfold stack_op, on_stack, bind. simpl. rewrite H. by destruct (m' v'). Qed.

(** ADD, SUB, SUBR, MUL, NEGATE, INC, DEC, ADDINT and MULINT on integers are exact: the
    mathematical result is pushed when it fits 257 bits, and otherwise the instruction
    throws an integer overflow, or pushes NaN in its quiet variant. *)
Theorem arith_exact quiet args s x y v :
  let c := arg_s8 args in
  let run2 m := m (set_stack (t_int (Int y) :: t_int (Int x) :: v) s) in
  let run1 m := m (set_stack (t_int (Int x) :: v) s) in
  let result z := stack_op (push_checked quiet (Some z)) (set_stack v s) in
  run2 (exec_add quiet) = result (x + y) /\
  run2 (exec_sub quiet) = result (x - y) /\
  run2 (exec_subr quiet) = result (y - x) /\
  run2 (exec_mul quiet) = result (x * y) /\
  run1 (exec_negate quiet) = result (- x) /\
  run1 (exec_inc quiet) = result (x + 1) /\
  run1 (exec_dec quiet) = result (x - 1) /\
  run1 (exec_add_tinyint8 quiet args) = result (x + c) /\
  run1 (exec_mul_tinyint8 quiet args) = result (x * c).
Proof.
  cbv zeta.
  split_and!; apply stack_op_eq; run_pops; apply push_int_quiet_norm.
Qed.

(** ** Division *)

Lemma round_div_abs rm n m :
  m <> 0 -> Z.abs (round_div rm n m) <= Z.abs n + 1 /\
  Z.abs (n - round_div rm n m * m) <= Z.abs m.
Proof.
  intros Hm. unfold round_div.
  destruct (rm <? 0); [|destruct (rm =? 0)].
  - pose proof (Z.div_mod n m Hm) as D. set (q := n / m) in *. clearbody q.
    destruct (Z.lt_total m 0) as [?|[?|?]]; [|done|].
    + pose proof (Z.mod_neg_bound n m). split; [nia|lia].
    + pose proof (Z.mod_pos_bound n m). split; [nia|lia].
  - pose proof (Z.div_mod (2 * n + m) (2 * m) ltac:(lia)) as D.
    set (q := (2 * n + m) / (2 * m)) in *. clearbody q.
    destruct (Z.lt_total m 0) as [?|[?|?]]; [|done|].
    + pose proof (Z.mod_neg_bound (2 * n + m) (2 * m)). split; [nia|lia].
    + pose proof (Z.mod_pos_bound (2 * n + m) (2 * m)). split; [nia|lia].
  - pose proof (Z.div_mod (- n) m Hm) as D. set (q := - n / m) in *. clearbody q.
    destruct (Z.lt_total m 0) as [?|[?|?]]; [|done|].
    + pose proof (Z.mod_neg_bound (- n) m). split; [nia|lia].
    + pose proof (Z.mod_pos_bound (- n) m). split; [nia|lia].
Qed.

Lemma storage_dbl z : - 2 ^ 516 <= z <= 2 ^ 516 -> storage_ok dbl z = true.
Proof.
  intros H. unfold storage_ok. rewrite andb_true_iff, !Z.leb_le.
  assert (2 ^ 516 <= (Half - 1) * ones_base dbl) by (vm_compute; discriminate).
  assert (- Half * ones_base dbl <= - 2 ^ 516) by (vm_compute; discriminate). lia.
Qed.
Lemma norm_dbl z : Z.abs z <= 2 ^ 516 -> norm dbl z = Int z.
Proof. intros H. unfold norm. by rewrite storage_dbl by lia. Qed.

Lemma fits_abs z : fits_s 257 z = true -> Z.abs z <= 2 ^ 256.
Proof. intros H%fits_s_spec. change (257 - 1) with 256 in H. lia. Qed.

(** The pair that [mod_div] computes, as pushed results. *)
Lemma push_div_results_spec quiet d rm n m q r v :
  d = 1 \/ d = 2 \/ d = 3 ->
  (forall w, push_int_quiet q quiet w = push_checked quiet (quotient rm n m) w) ->
  (forall w, push_int_quiet r quiet w = push_checked quiet (remainder rm n m) w) ->
  push_div_results d q r quiet v = divmod_spec quiet d rm n m v.
Proof.
  intros Hd Hq Hr. unfold push_div_results, divmod_spec.
  destruct Hd as [->|[->| ->]]; simpl; [apply Hq|apply Hr|].
  unfold bind. rewrite Hq. by destruct (push_checked quiet (quotient rm n m) v).
Qed.

Lemma mod_div_results quiet d rm n m v :
  d = 1 \/ d = 2 \/ d = 3 -> Z.abs n <= 2 ^ 515 -> Z.abs m <= 2 ^ 256 ->
  (let (q, r) := mod_div dbl (Int n) (Int m) rm in
   push_div_results d (to_int256 q) (to_int256 r) quiet v) = divmod_spec quiet d rm n m v.
Proof.
  intros Hd Hn Hm. unfold mod_div. unfold quotient, remainder.
  assert (2 ^ 256 + 2 ^ 515 + 1 <= 2 ^ 516) by (vm_compute; discriminate).
  destruct (Z.eqb_spec m 0) as [-> |Hz].
  - apply push_div_results_spec; [done|..]; intros w; apply push_int_quiet_nan.
  - destruct (round_div_abs rm n m Hz). rewrite !norm_dbl by lia.
    apply push_div_results_spec; [done|..]; intros w; unfold quotient, remainder;
    rewrite (proj2 (Z.eqb_neq m 0) Hz); apply push_int_quiet_norm.
Qed.

Lemma mod_div_results_short quiet d rm n m v :
  d = 1 \/ d = 2 \/ d = 3 -> Z.abs n <= 2 ^ 256 -> Z.abs m <= 2 ^ 256 ->
  (let (q, r) := mod_div word_cnt (Int n) (Int m) rm in push_div_results d q r quiet v) =
  divmod_spec quiet d rm n m v.
Proof.
  intros Hd Hn Hm. unfold mod_div.
  destruct (Z.eqb_spec m 0) as [-> |Hz].
  - apply push_div_results_spec; [done|..]; intros w; apply push_int_quiet_nan.
  - apply push_div_results_spec; [done|..]; intros w; unfold quotient, remainder;
    rewrite (proj2 (Z.eqb_neq m 0) Hz); apply push_int_quiet_norm.
Qed.

(** *** Shifts as divisions by powers of two *)

Lemma round_div_1 rm n : round_div rm n 1 = n.
Proof.
  unfold round_div. destruct (rm <? 0); [by rewrite Z.div_1_r|]. destruct (rm =? 0).
  - rewrite Z.mul_1_r. symmetry. apply Z.div_unique with 1; lia.
  - rewrite Z.div_1_r. lia.
Qed.

(** [mod_pow2] in the three rounding modes is the remainder of the rounded division. *)
Lemma mod_pow2_value rm a e :
  0 < e -> -1 <= rm <= 1 ->
  (if rm <? 0 then a mod 2 ^ e
   else if 0 <? rm then - ((- a) mod 2 ^ e)
   else if fits_s e a then a
   else let m := a mod 2 ^ e in if m <? 2 ^ (e - 1) then m else m - 2 ^ e) =
  a - round_div rm a (2 ^ e) * 2 ^ e.
Proof.
  intros He Hrm. pose proof (pow2_pos e ltac:(lia)). pose proof (pow2_pos (e - 1) ltac:(lia)).
  assert (2 ^ e = 2 * 2 ^ (e - 1)) as Hp by (rewrite <- Z.pow_succ_r by lia; f_equal; lia).
  unfold round_div. destruct (Z.ltb_spec rm 0).
  { pose proof (Z.div_mod a (2 ^ e)). lia. }
  destruct (Z.ltb_spec 0 rm).
  { rewrite (proj2 (Z.eqb_neq rm 0)) by lia. pose proof (Z.div_mod (- a) (2 ^ e)). lia. }
  replace rm with 0 by lia. simpl.
  assert (forall r q, a = q * 2 ^ e + r -> - 2 ^ (e - 1) <= r < 2 ^ (e - 1) ->
    r = a - (2 * a + 2 ^ e) / (2 * 2 ^ e) * 2 ^ e) as Huniq.
  { intros r q Ha Hr. assert ((2 * a + 2 ^ e) / (2 * 2 ^ e) = q) as ->; [|lia].
    symmetry. apply Z.div_unique with (2 * r + 2 ^ e); lia. }
  destruct (fits_s e a) eqn:Hf.
  - apply fits_s_spec in Hf. apply (Huniq a 0); lia.
  - pose proof (Z.div_mod a (2 ^ e)). pose proof (Z.mod_pos_bound a (2 ^ e)).
    destruct (Z.ltb_spec (a mod 2 ^ e) (2 ^ (e - 1))).
    + apply (Huniq _ (a / 2 ^ e)); lia.
    + apply (Huniq _ (a / 2 ^ e + 1)); lia.
Qed.

(** The value [mod_pow2] stores, for an exponent within the object. *)
Lemma int_mod_pow2_eq c a e rm :
  0 < e -> -1 <= rm <= 1 -> (forall z, Z.abs z <= Z.abs a + 2 ^ e -> norm c z = Int z) ->
  int_mod_pow2 c (Int a) e rm = Int (a - round_div rm a (2 ^ e) * 2 ^ e).
Proof.
  intros He Hrm Hn. pose proof (pow2_pos e ltac:(lia)).
  rewrite <- (mod_pow2_value rm a e) by lia. simpl. rewrite (proj2 (Z.leb_gt e 0)) by lia.
  pose proof (Z.mod_pos_bound a (2 ^ e)). pose proof (Z.mod_pos_bound (- a) (2 ^ e)).
  repeat case_match; try done; rewrite Hn; [done|lia|done|lia|done|lia|done|lia].
Qed.

Lemma pow2_256 k : 0 <= k <= 256 -> 1 <= 2 ^ k <= 2 ^ 256.
Proof. intros. pose proof (pow2_pos k). pose proof (pow2_le k 256). lia. Qed.

(** Quotient and remainder of the shift family. *)
Lemma shift_results quiet d rm n k v :
  d = 1 \/ d = 2 \/ d = 3 -> -1 <= rm <= 1 -> 0 <= k <= 256 -> Z.abs n <= 2 ^ 515 ->
  let rm' := if k =? 0 then -1 else rm in
  push_div_results d (to_int256 (int_rshift dbl (Int n) k rm'))
    (to_int256 (int_mod_pow2 dbl (Int n) k rm')) quiet v = divmod_spec quiet d rm n (2 ^ k) v.
Proof.
  intros Hd Hrm Hk Hn. cbv zeta. pose proof (pow2_256 k Hk).
  assert (2 ^ 256 + 2 ^ 515 + 1 <= 2 ^ 516) by (vm_compute; discriminate).
  assert (2 ^ k =? 0 = false) as Hnz by (apply Z.eqb_neq; lia).
  apply push_div_results_spec; [done|..]; intros w; unfold quotient, remainder; rewrite Hnz;
    unfold int_rshift; destruct (Z.eqb_spec k 0) as [-> |Hk0].
  - change (2 ^ 0) with 1. rewrite round_div_1. apply push_int_quiet_norm.
  - rewrite (proj2 (Z.ltb_ge k 0)) by lia. destruct (round_div_abs rm n (2 ^ k)); [lia|].
    rewrite norm_dbl by lia. apply push_int_quiet_norm.
  - change (2 ^ 0) with 1. rewrite round_div_1. replace (n - n * 1) with 0 by lia. apply push_int_quiet_norm.
  - rewrite int_mod_pow2_eq; [apply push_int_quiet_norm|lia|done|]. intros z Hz. apply norm_dbl. lia.
Qed.

Lemma shift_results_short quiet d rm n k v :
  d = 1 \/ d = 2 \/ d = 3 -> -1 <= rm <= 1 -> 0 <= k <= 256 -> fits_s 257 n = true ->
  let rm' := if k =? 0 then -1 else rm in
  push_div_results d (int_rshift word_cnt (Int n) k rm')
    (int_mod_pow2 word_cnt (Int n) k rm') quiet v = divmod_spec quiet d rm n (2 ^ k) v.
Proof.
  intros Hd Hrm Hk Hf. cbv zeta. pose proof (fits_abs n Hf). pose proof (pow2_256 k Hk).
  assert (2 ^ k =? 0 = false) as Hnz by (apply Z.eqb_neq; lia).
  assert (2 ^ 256 + 2 ^ 256 = 2 ^ 257) by done.
  apply push_div_results_spec; [done|..]; intros w; unfold quotient, remainder; rewrite Hnz;
    unfold int_rshift; destruct (Z.eqb_spec k 0) as [-> |Hk0].
  - change (2 ^ 0) with 1. rewrite round_div_1. by apply push_int_quiet_fits.
  - rewrite (proj2 (Z.ltb_ge k 0)) by lia. apply push_int_quiet_norm.
  - change (2 ^ 0) with 1. rewrite round_div_1. replace (n - n * 1) with 0 by lia. by apply push_int_quiet_fits.
  - rewrite int_mod_pow2_eq; [|lia|done|intros z Hz; apply norm_ok; lia].
    rewrite <- push_int_quiet_norm, norm_ok; [done|].
    destruct (round_div_abs rm n (2 ^ k)); lia.
Qed.

Lemma int_lshift_dbl x k :
  fits_s 257 x = true -> 0 <= k <= 256 -> int_lshift dbl (Int x) k = Int (x * 2 ^ k).
Proof.
  intros Hx Hk. pose proof (fits_abs x Hx). pose proof (pow2_256 k Hk).
  unfold int_lshift. rewrite (proj2 (Z.ltb_ge k 0)) by lia.
  destruct (Z.eqb_spec k 0) as [-> |]; [by rewrite Z.mul_1_r|].
  assert (size256 dbl x <= 5)%nat as Hs.
  { assert (storage_ok 5 x = true) by (apply storage_257; assert (2 ^ 256 <= 2 ^ 257) by done; lia).
    unfold size256, dbl. simpl. repeat (case_match; [lia|]). congruence. }
  assert (Z.to_nat (k / word_shift) <= 4)%nat.
  { unfold word_shift. div_lia. }
  assert (dbl = 10%nat) by done.
  rewrite (proj2 (Nat.ltb_ge dbl (size256 dbl x + Z.to_nat (k / word_shift)))) by lia.
  apply norm_dbl. assert (2 ^ 256 * 2 ^ 256 <= 2 ^ 516) by (vm_compute; discriminate). nia.
Qed.

(** *** The five division families *)

Lemma pop_addend_run add w v :
  pop_addend add ((if add : bool then [t_int (Int w)] else []) ++ v) =
    Ret (if add then Some (Int w) else None) v.
Proof. destruct add; simpl; [|done]. unfold pop_addend, bind. by rewrite pop_int_run. Qed.

(** The division handlers decode their argument to one of these. *)
Lemma div_args_cases v args rm d add :
  div_args v args = (rm, d, add) -> d <> 0 -> rm <> 2 ->
  (d = 1 \/ d = 2 \/ d = 3) /\ -1 <= rm <= 1 /\ (add = true -> d = 3).
Proof.
  unfold div_args. pose proof (land_ones_range args 2 ltac:(lia)) as H1.
  pose proof (land_ones_range (Z.shiftr args 2) 2 ltac:(lia)) as H2.
  change (Z.ones 2) with 3 in *. change (2 ^ 2) with 4 in *. intros H Hd Hr. case_match; simplify_eq; split_and!; try done; lia.
Qed.

Lemma check_div_args_run d rm s : d <> 0 -> rm <> 2 -> check_div_args d rm s = Ret tt s.
Proof.
  intros Hd Hr. unfold check_div_args.
  by rewrite (proj2 (Z.eqb_neq d 0) Hd), (proj2 (Z.eqb_neq rm 2) Hr).
Qed.

Lemma fits_64 k : 0 <= k <= 256 -> fits_s 64 k = true.
Proof. intros. apply fits_s_spec. simpl. lia. Qed.

Section division.
Context (s : VmState) (v : Stack) (args rm d : Z) (add : bool) (x y z w k : Z).
Hypothesis (Hargs : div_args (global_version s) args = (rm, d, add)).
Hypothesis (Hd : d <> 0) (Hrm : rm <> 2) (Hw0 : add = false -> w = 0).
Hypothesis (Hx : fits_s 257 x = true) (Hy : fits_s 257 y = true) (Hz : fits_s 257 z = true)
  (Hw : fits_s 257 w = true) (Hk : 0 <= k <= 256).

(** The addend on the stack, when there is one. *)
Let aw : Stack := if add then [t_int (Int w)] else [].

Lemma aw_depth u : depth (aw ++ u) = (if add then 1 else 0) + depth u.
Proof. unfold aw. destruct add; simpl; rewrite ?depth_cons; lia. Qed.

Lemma divmod_run quiet :
  exec_divmod quiet args (set_stack (t_int (Int y) :: aw ++ t_int (Int x) :: v) s) =
    stack_op (divmod_spec quiet d rm (x + w) y) (set_stack v s).
Proof.
  destruct (div_args_cases _ _ _ _ _ Hargs Hd Hrm) as (Hd' & Hrm' & Hadd).
  pose proof (fits_abs _ Hx). pose proof (fits_abs _ Hy). pose proof (fits_abs _ Hw).
  unfold exec_divmod, bind at 1, gets. cbn [global_version set_stack]. rewrite Hargs.
  unfold bind at 1. rewrite check_div_args_run by done. apply stack_op_eq.
  unfold bind at 1. rewrite check_underflow_ok; [|apply one_req; rewrite depth_cons, aw_depth, !depth_cons;
    pose proof (depth_nonneg v); destruct add; lia].
  unfold bind at 1. rewrite pop_int_run. unfold bind at 1. unfold aw. rewrite pop_addend_run.
  unfold bind at 1. rewrite pop_int_run. destruct add.
  - rewrite Hadd by done. unfold int_add, lift2. rewrite norm_dbl by
      (assert (2 ^ 256 + 2 ^ 256 <= 2 ^ 516) by (vm_compute; discriminate); lia).
    rewrite <- mod_div_results; [|by auto|
      assert (2 ^ 256 + 2 ^ 256 <= 2 ^ 515) by (vm_compute; discriminate); lia|done].
    by destruct (mod_div _ _ _ _).
  - rewrite Hw0, Z.add_0_r by done. rewrite <- mod_div_results_short by done.
    by destruct (mod_div _ _ _ _).
Qed.

Lemma mul_add_value n : 
  Z.abs n <= 2 ^ 256 -> int_add dbl (addend_or (if add then Some (Int w) else None) (Int 0))
    (int_mul dbl (Int x) (Int n)) = Int (x * n + w) /\ Z.abs (x * n + w) <= 2 ^ 515.
Proof.
  intros Hn. pose proof (fits_abs _ Hx). pose proof (fits_abs _ Hw).
  assert (2 ^ 256 * 2 ^ 256 + 2 ^ 256 <= 2 ^ 515) as Hb by (vm_compute; discriminate).
  assert (2 ^ 515 <= 2 ^ 516) by (vm_compute; discriminate).
  assert (Z.abs (x * n) <= 2 ^ 256 * 2 ^ 256) by (rewrite Z.abs_mul; apply Z.mul_le_mono_nonneg; lia).
  assert (Z.abs (x * n + w) <= 2 ^ 515) by lia. split; [|done].
  unfold int_mul, int_add, lift2. rewrite norm_dbl by lia. destruct add; simpl.
  - rewrite norm_dbl by lia. f_equal. lia.
  - rewrite Hw0 in * by done. rewrite norm_dbl by lia. f_equal. lia.
Qed.

Lemma muldivmod_run quiet :
  exec_muldivmod quiet args
      (set_stack (t_int (Int z) :: aw ++ t_int (Int y) :: t_int (Int x) :: v) s) =
    stack_op (divmod_spec quiet d rm (x * y + w) z) (set_stack v s).
Proof.
  destruct (div_args_cases _ _ _ _ _ Hargs Hd Hrm) as (Hd' & Hrm' & Hadd).
  destruct (mul_add_value y (fits_abs _ Hy)) as [Hv Hb].
  unfold exec_muldivmod, bind at 1, gets. cbn [global_version set_stack]. rewrite Hargs.
  unfold bind at 1. rewrite check_div_args_run by done. apply stack_op_eq.
  unfold bind at 1. rewrite check_underflow_ok; [|apply one_req; rewrite depth_cons, aw_depth, !depth_cons;
    pose proof (depth_nonneg v); destruct add; lia].
  unfold bind at 1. rewrite pop_int_run. unfold bind at 1. unfold aw. rewrite pop_addend_run.
  do 2 (unfold bind at 1; rewrite pop_int_run). rewrite Hv.
  rewrite <- mod_div_results; [|done|done|by apply fits_abs].
  by destruct (mod_div _ _ _ _).
Qed.
(** The shift amount is on the stack ([mode] 0 and 1) or in the argument ([mode] 2). *)
Definition shift_stack (mode : Z) (u : Stack) : Stack :=
  if Z.testbit mode 1 then u else t_int (Int k) :: u.
Definition shift_args (mode args' : Z) : Prop :=
  if Z.testbit mode 1 then Z.shiftr args' 8 = args /\ arg_len args' = k else args' = args.

Lemma aw_pops u : on_stack (pop_addend add) (set_stack (aw ++ u) s) =
  Ret (if add then Some (Int w) else None) (set_stack u s).
Proof. unfold on_stack, aw. cbn [stack set_stack]. by rewrite pop_addend_run. Qed.
Lemma int_pops i u : on_stack pop_int (set_stack (t_int i :: u) s) = Ret i (set_stack u s).
Proof. unfold on_stack. cbn [stack set_stack]. by rewrite pop_int_run. Qed.
Lemma long_pops u : on_stack pop_long (set_stack (t_int (Int k) :: u) s) = Ret k (set_stack u s).
Proof. unfold on_stack. cbn [stack set_stack]. by rewrite pop_long_run by by apply fits_64. Qed.
Lemma check_pops n u : n <= depth u ->
  on_stack (check_underflow [n]) (set_stack u s) = Ret tt (set_stack u s).
Proof. intros. by apply on_stack_check, one_req. Qed.

Lemma shift_in_range : (k <? 0) || (256 <? k) = false.
Proof. by rewrite (proj2 (Z.ltb_ge k 0)), (proj2 (Z.ltb_ge 256 k)) by lia. Qed.
Lemma addend_valid : addend_invalid (if add then Some (Int w) else None) = false.
Proof. by destruct add. Qed.

Ltac pop_step :=
  unfold bind at 1;
  first [ rewrite check_pops by
            (unfold shift_stack; rewrite ?depth_cons, ?aw_depth, ?depth_cons;
             pose proof (depth_nonneg v); destruct add; lia)
        | rewrite long_pops | rewrite int_pops | rewrite aw_pops ].

Lemma mulshrmod_run mode args' :
  shift_args mode args' ->
  exec_mulshrmod mode args'
      (set_stack (shift_stack mode (aw ++ t_int (Int y) :: t_int (Int x) :: v)) s) =
    stack_op (divmod_spec (Z.testbit mode 0) d rm (x * y + w) (2 ^ k)) (set_stack v s).
Proof.
  intros Hsh. destruct (div_args_cases _ _ _ _ _ Hargs Hd Hrm) as (Hd' & Hrm' & Hadd).
  destruct (mul_add_value y (fits_abs _ Hy)) as [Hv Hb].
  unfold exec_mulshrmod. cbv zeta. unfold bind at 1, gets. cbn [global_version set_stack].
  unfold shift_args, shift_stack in *.
  assert ((if Z.testbit mode 1 then Z.shiftr args' 8 else args') = args) as ->
    by (destruct (Z.testbit mode 1); naive_solver).
  rewrite Hargs. unfold bind at 1. rewrite check_div_args_run by done.
  match goal with |- context [bind ?m _ _] => assert (m (set_stack (if Z.testbit mode 1
    then aw ++ t_int (Int y) :: t_int (Int x) :: v
    else t_int (Int k) :: aw ++ t_int (Int y) :: t_int (Int x) :: v) s) =
    Ret k (set_stack (aw ++ t_int (Int y) :: t_int (Int x) :: v) s)) as Hshift end.
  { destruct (Z.testbit mode 1); [destruct Hsh as [_ <-]|subst args'].
    - by pop_step.
    - do 2 pop_step. unfold bind. by rewrite shift_in_range, andb_false_r. }
  unfold bind at 1. rewrite Hshift. do 3 pop_step.
  rewrite addend_valid, <- orb_assoc, shift_in_range, andb_false_r.
  apply stack_op_eq. rewrite Hv. by apply shift_results.
Qed.

Lemma shrmod_run mode args' :
  shift_args mode args' ->
  exec_shrmod mode args' (set_stack (shift_stack mode (aw ++ t_int (Int x) :: v)) s) =
    stack_op (divmod_spec (Z.testbit mode 0) d rm (x + w) (2 ^ k)) (set_stack v s).
Proof.
  intros Hsh. destruct (div_args_cases _ _ _ _ _ Hargs Hd Hrm) as (Hd' & Hrm' & Hadd).
  pose proof (fits_abs _ Hx). pose proof (fits_abs _ Hw).
  unfold exec_shrmod. cbv zeta. unfold bind at 1, gets. cbn [global_version set_stack].
  unfold shift_args, shift_stack in *.
  assert ((if Z.testbit mode 1 then Z.shiftr args' 8 else args') = args) as ->
    by (destruct (Z.testbit mode 1); naive_solver).
  rewrite Hargs. unfold bind at 1. rewrite check_div_args_run by done.
  match goal with |- context [bind ?m _ _] => assert (m (set_stack (if Z.testbit mode 1
    then aw ++ t_int (Int x) :: v else t_int (Int k) :: aw ++ t_int (Int x) :: v) s) =
    Ret (k, true) (set_stack (aw ++ t_int (Int x) :: v) s)) as Hshift end.
  { destruct (Z.testbit mode 1); [destruct Hsh as [_ <-]|subst args'].
    - by pop_step.
    - do 2 pop_step. rewrite !(proj2 (Z.leb_le _ _)) by lia. unfold bind.
      by rewrite andb_false_r. }
  unfold bind at 1. rewrite Hshift. do 2 pop_step.
  rewrite addend_valid, andb_false_r. unfold bind at 1. simpl assert_ub. unfold ret at 1.
  destruct add.
  - rewrite Hadd by done. unfold int_add, lift2. rewrite norm_dbl by
      (assert (2 ^ 256 + 2 ^ 256 <= 2 ^ 516) by (vm_compute; discriminate); lia).
    apply stack_op_eq. rewrite <- shift_results; [done|by auto|done|done|
      assert (2 ^ 256 + 2 ^ 256 <= 2 ^ 515) by (vm_compute; discriminate); lia].
  - rewrite Hw0, Z.add_0_r by done. apply stack_op_eq. by apply shift_results_short.
Qed.

Lemma shldivmod_run mode args' :
  shift_args mode args' ->
  exec_shldivmod mode args'
      (set_stack (shift_stack mode (t_int (Int z) :: aw ++ t_int (Int x) :: v)) s) =
    stack_op (divmod_spec (Z.testbit mode 0) d rm (x * 2 ^ k + w) z) (set_stack v s).
Proof.
  intros Hsh. destruct (div_args_cases _ _ _ _ _ Hargs Hd Hrm) as (Hd' & Hrm' & Hadd).
  pose proof (fits_abs _ Hx). pose proof (fits_abs _ Hw). pose proof (pow2_256 k Hk).
  unfold exec_shldivmod. cbv zeta. unfold bind at 1, gets. cbn [global_version set_stack].
  unfold shift_args, shift_stack in *.
  assert ((if Z.testbit mode 1 then Z.shiftr args' 8 else args') = args) as ->
    by (destruct (Z.testbit mode 1); naive_solver).
  rewrite Hargs. unfold bind at 1. rewrite check_div_args_run by done.
  match goal with |- context [bind ?m _ _] => assert (m (set_stack (if Z.testbit mode 1
    then t_int (Int z) :: aw ++ t_int (Int x) :: v
    else t_int (Int k) :: t_int (Int z) :: aw ++ t_int (Int x) :: v) s) =
    Ret k (set_stack (t_int (Int z) :: aw ++ t_int (Int x) :: v) s)) as Hshift end.
  { destruct (Z.testbit mode 1); [destruct Hsh as [_ <-]|subst args'].
    - by pop_step.
    - do 2 pop_step. unfold bind. by rewrite shift_in_range, andb_false_r. }
  unfold bind at 1. rewrite Hshift. do 3 pop_step.
  rewrite addend_valid, <- orb_assoc, shift_in_range, andb_false_r.
  rewrite int_lshift_dbl by done.
  assert (Z.abs (x * 2 ^ k) <= 2 ^ 256 * 2 ^ 256) by
    (rewrite Z.abs_mul; apply Z.mul_le_mono_nonneg; lia).
  assert (2 ^ 256 * 2 ^ 256 + 2 ^ 256 <= 2 ^ 515) by (vm_compute; discriminate).
  assert (2 ^ 515 <= 2 ^ 516) by (vm_compute; discriminate).
  assert ((match (if add then Some (Int w) else None) with
           | Some w => int_add dbl (Int (x * 2 ^ k)) w | None => Int (x * 2 ^ k) end) =
          Int (x * 2 ^ k + w)) as ->.
  { destruct add; [|by rewrite Hw0, Z.add_0_r by done].
    unfold int_add, lift2. by rewrite norm_dbl by lia. }
  destruct (mod_div dbl (Int (x * 2 ^ k + w)) (Int z) rm) as [q r] eqn:E.
  apply stack_op_eq. rewrite <- mod_div_results; [by rewrite E|done|lia|by apply fits_abs].
Qed.
End division.

(** The five families of division instructions (DIVMOD, MULDIVMOD, RSHIFTMOD,
    MULRSHIFTMOD and LSHIFTDIVMOD, with quotient, remainder or both, three rounding modes, an
    optional addend w, the shift on the stack or in the opcode, quiet or not) all compute one
    specification: the rounded quotient and the remainder of
    - x + w by y;  x * y + w by z;  x + w by 2^k;  x * y + w by 2^k;  x * 2^k + w by z,
    where the intermediate numerator, up to 514 bits, never overflows; results that do not
    fit 257 bits and divisions by zero are overflows (NaN when quiet). *)
Theorem division_families s v args args' rm d add x y z w k quiet mode :
  div_args (global_version s) args = (rm, d, add) -> d <> 0 -> rm <> 2 ->
  (add = false -> w = 0) ->
  Forall (fun i => fits_s 257 i = true) [x; y; z; w] -> 0 <= k <= 256 ->
  shift_args args k mode args' ->
  let aw := if add then [t_int (Int w)] else [] in
  let sh := shift_stack k mode in
  let result q n m := stack_op (divmod_spec q d rm n m) (set_stack v s) in
  exec_divmod quiet args (set_stack (t_int (Int y) :: aw ++ t_int (Int x) :: v) s) =
    result quiet (x + w) y /\
  exec_muldivmod quiet args
      (set_stack (t_int (Int z) :: aw ++ t_int (Int y) :: t_int (Int x) :: v) s) =
    result quiet (x * y + w) z /\
  exec_shrmod mode args' (set_stack (sh (aw ++ t_int (Int x) :: v)) s) =
    result (Z.testbit mode 0) (x + w) (2 ^ k) /\
  exec_mulshrmod mode args' (set_stack (sh (aw ++ t_int (Int y) :: t_int (Int x) :: v)) s) =
    result (Z.testbit mode 0) (x * y + w) (2 ^ k) /\
  exec_shldivmod mode args' (set_stack (sh (t_int (Int z) :: aw ++ t_int (Int x) :: v)) s) =
    result (Z.testbit mode 0) (x * 2 ^ k + w) z.
Proof.
  intros Hargs Hd Hrm Hw0 Hf Hk Hsh. cbv zeta.
  rewrite !list.Forall_cons in Hf. destruct Hf as (Hx & Hy & Hz & Hw & _).
  split_and!.
  - by apply divmod_run.
  - by apply muldivmod_run.
  - by apply (shrmod_run s v args).
  - by apply (mulshrmod_run s v args).
  - by apply (shldivmod_run s v args).
Qed.

Lemma division_families_witness :
  exec_mulshrmod 2 0xc07 (test_vm [t_int (Int 9); t_int (Int (-5)); t_null]) =
    Ret 0 (test_vm [t_int (Int 211); t_int (Int (-1)); t_null]).
Proof.
  destruct (division_families (test_vm []) [t_null] 0xc 0xc07 (-1) 3 false (-5) 9 1 0 8 false 2)
    as (_ & _ & _ & H & _); [done|done|done|done|repeat constructor|done|done|].
  etransitivity; [exact H|vm_compute; reflexivity].
Defined.

(** ** Shifts and logical operations *)

Lemma size_from_bound k n z :
  (k <= size_from k n z)%nat /\
  ((k < size_from k n z)%nat -> storage_ok (size_from k n z - 1) z = false) /\
  (size_from k n z <= k + n)%nat.
Proof.
  revert k. induction n as [|n IH]; intros k; simpl; [split_and!; lia|].
  destruct (storage_ok k z) eqn:E; [split_and!; lia|].
  destruct (IH (S k)) as (H1 & H2 & H3). split_and!; [lia| |lia]. intros _.
  destruct (Nat.eq_dec (size_from (S k) n z) (S k)) as [He|Hne].
  - rewrite He. simpl. by rewrite Nat.sub_0_r.
  - apply H2. lia.
Qed.

Lemma storage_small m z :
  (1 <= m <= 5)%nat -> storage_ok m z = false -> 2 ^ (52 * Z.of_nat m - 2) < Z.abs z.
Proof.
  intros Hm. unfold storage_ok. rewrite andb_false_iff, !Z.leb_gt. intros H.
  assert (2 ^ (52 * Z.of_nat m - 2) <= (Half - 1) * ones_base m /\
          (Half - 1) * ones_base m <= Half * ones_base m) as [? ?].
  { destruct m as [|[|[|[|[|[|m]]]]]]; try lia; split; vm_compute; discriminate. }
  lia.
Qed.

(** The capacity test of the left shift only rejects what does not fit anyway,
    except zero. *)
Lemma lshift_capacity x k :
  x <> 0 -> 0 <= k -> fits_s 257 (x * 2 ^ k) = true ->
  (word_cnt <? size256 word_cnt x + Z.to_nat (k / word_shift))%nat = false.
Proof.
  intros Hx Hk Hf%fits_abs. apply Nat.ltb_ge. change word_cnt with 5%nat in *.
  pose proof (pow2_pos k Hk). rewrite Z.abs_mul, (Z.abs_eq (2 ^ k)) in Hf by lia.
  destruct (size_from_bound 1 5 x) as (H1 & H2 & H3). fold (size256 5 x) in *.
  assert (k <= 256) as Hk'.
  { apply Z.nlt_ge. intros Hlt. pose proof (pow2_le 257 k ltac:(lia)).
    assert (2 ^ 256 < 2 ^ 257) by done. nia. }
  assert (k / word_shift * 52 <= k) by (unfold word_shift; div_lia).
  destruct (Nat.eq_dec (size256 5 x) 1%nat) as [->|Hne].
  { unfold word_shift in *. div_lia. }
  specialize (H2 ltac:(lia)). apply storage_small in H2; [|lia].
  set (m := (size256 5 x - 1)%nat) in *.
  assert (2 ^ (52 * Z.of_nat m - 2 + k) < 2 ^ 256) as Hpow.
  { rewrite Z.pow_add_r by lia. nia. }
  apply Z.pow_lt_mono_r_iff in Hpow; [|lia|lia].
  assert (Z.of_nat m + k / word_shift < 5) by nia.
  assert (0 <= k / word_shift) by (apply Z.div_pos; unfold word_shift; lia). lia.
Qed.

Lemma push_lshift x k quiet v :
  fits_s 257 x = true -> 0 <= k ->
  push_int_quiet (int_lshift word_cnt (Int x) k) quiet v =
  push_checked quiet (if (x =? 0) && (260 <=? k) then None else Some (x * 2 ^ k)) v.
Proof.
  intros Hx Hk. unfold int_lshift. rewrite (proj2 (Z.ltb_ge k 0)) by lia.
  destruct (Z.eqb_spec k 0) as [-> |Hk0].
  { rewrite andb_false_r, Z.mul_1_r. by apply push_int_quiet_fits. }
  destruct (Z.eqb_spec x 0) as [-> |Hx0].
  - change (size256 word_cnt 0) with 1%nat. change word_cnt with 5%nat. cbn [andb].
    destruct (Z.leb_spec 260 k).
    + assert ((5 <? 1 + Z.to_nat (k / word_shift))%nat = true) as ->; [|apply push_int_quiet_nan].
      apply Nat.ltb_lt. unfold word_shift. div_lia.
    + assert ((5 <? 1 + Z.to_nat (k / word_shift))%nat = false) as ->; [|apply push_int_quiet_norm].
      apply Nat.ltb_ge. unfold word_shift. div_lia.
  - cbn [andb]. destruct (fits_s 257 (x * 2 ^ k)) eqn:Hf.
    + rewrite lshift_capacity by done. apply push_int_quiet_norm.
    + destruct (word_cnt <? _)%nat; [|apply push_int_quiet_norm].
      rewrite push_int_quiet_nan. unfold push_checked. by rewrite Hf.
Qed.

(** Logical operations on 257-bit integers stay within 257 bits. *)
Lemma fits_iff_shiftr z : fits_s 257 z = true <-> Z.shiftr z 256 = 0 \/ Z.shiftr z 256 = -1.
Proof.
  rewrite fits_s_spec, Z.shiftr_div_pow2 by lia. change (257 - 1) with 256.
  pose proof (pow2_pos 256 ltac:(lia)). pose proof (Z.div_mod z (2 ^ 256)).
  pose proof (Z.mod_pos_bound z (2 ^ 256)). split; [|intros [H'|H']; nia].
  intros Hz. assert (-1 <= z / 2 ^ 256 < 1); [|lia].
  split; [apply Z.div_le_lower_bound|apply Z.div_lt_upper_bound]; lia.
Qed.

Lemma fits_logic f x y :
  (forall a b n, 0 <= n -> Z.shiftr (f a b) n = f (Z.shiftr a n) (Z.shiftr b n)) ->
  (forall a b, a = 0 \/ a = -1 -> b = 0 \/ b = -1 -> f a b = 0 \/ f a b = -1) ->
  fits_s 257 x = true -> fits_s 257 y = true -> fits_s 257 (f x y) = true.
Proof.
  intros Hs Hc. rewrite !fits_iff_shiftr. intros Hx Hy. rewrite Hs by lia. by apply Hc.
Qed.

Lemma fits_land x y : fits_s 257 x = true -> fits_s 257 y = true -> fits_s 257 (Z.land x y) = true.
Proof.
  apply fits_logic; [intros; by rewrite Z.shiftr_land|].
  intros a b [->| ->] [->| ->]; vm_compute; auto.
Qed.
Lemma fits_lor x y : fits_s 257 x = true -> fits_s 257 y = true -> fits_s 257 (Z.lor x y) = true.
Proof.
  apply fits_logic; [intros; by rewrite Z.shiftr_lor|].
  intros a b [->| ->] [->| ->]; vm_compute; auto.
Qed.
Lemma fits_lxor x y : fits_s 257 x = true -> fits_s 257 y = true -> fits_s 257 (Z.lxor x y) = true.
Proof.
  apply fits_logic; [intros; by rewrite Z.shiftr_lxor|].
  intros a b [->| ->] [->| ->]; vm_compute; auto.
Qed.

Lemma norm_fits z : fits_s 257 z = true -> norm word_cnt z = Int z.
Proof.
  intros H. apply norm_ok. apply fits_s_spec in H. change (257 - 1) with 256 in H.
  assert (2 ^ 256 <= 2 ^ 257) by done. lia.
Qed.

(** On valid operands the shortcuts of [log_op_any] agree with the operation. *)
Lemma log_op_value f zero neutral x y :
  (forall c a, zero = Some c -> f c a = c /\ f a c = c) ->
  (forall a, f neutral a = a /\ f a neutral = a) ->
  fits_s 257 (f x y) = true -> log_op word_cnt f zero neutral (Int x) (Int y) = Int (f x y).
Proof.
  intros Hz Hn Hf. unfold log_op.
  assert (forall o v, bool_decide (Int <$> o = Some (Int v)) = true -> o = Some v) as Heq.
  { intros [c|] v H%bool_decide_eq_true; by simplify_eq/=. }
  destruct (bool_decide (Int <$> zero = Some (Int x))) eqn:E1.
  { f_equal. symmetry. apply Hz, Heq, E1. }
  destruct (bool_decide (Int <$> Some neutral = Some (Int x))) eqn:E2.
  { apply Heq in E2 as [= <-]. f_equal. symmetry. apply Hn. }
  destruct (bool_decide (Int <$> zero = Some (Int y))) eqn:E3.
  { f_equal. symmetry. apply Hz, Heq, E3. }
  destruct (bool_decide (Int <$> Some neutral = Some (Int y))) eqn:E4.
  { apply Heq in E4 as [= <-]. f_equal. symmetry. apply Hn. }
  by apply norm_fits.
Qed.

Lemma int_and_value x y :
  fits_s 257 x = true -> fits_s 257 y = true -> int_and word_cnt (Int x) (Int y) = Int (Z.land x y).
Proof.
  intros Hx Hy. apply log_op_value; [| |by apply fits_land].
  - intros c a [= <-]. split; [apply Z.land_0_l|apply Z.land_0_r].
  - intros a. split; [apply Z.land_m1_l|apply Z.land_m1_r].
Qed.
Lemma int_or_value x y :
  fits_s 257 x = true -> fits_s 257 y = true -> int_or word_cnt (Int x) (Int y) = Int (Z.lor x y).
Proof.
  intros Hx Hy. apply log_op_value; [| |by apply fits_lor].
  - intros c a [= <-]. split; [apply Z.lor_m1_l|apply Z.lor_m1_r].
  - intros a. split; [apply Z.lor_0_l|apply Z.lor_0_r].
Qed.
Lemma int_xor_value x y :
  fits_s 257 x = true -> fits_s 257 y = true -> int_xor word_cnt (Int x) (Int y) = Int (Z.lxor x y).
Proof.
  intros Hx Hy. apply log_op_value; [done| |by apply fits_lxor].
  intros a. split; [apply Z.lxor_0_l|apply Z.lxor_0_r].
Qed.

Lemma push_rshift x k quiet v :
  fits_s 257 x = true -> 0 <= k ->
  push_int_quiet (int_rshift word_cnt (Int x) k (-1)) quiet v =
  push_checked quiet (Some (x / 2 ^ k)) v.
Proof.
  intros Hx Hk. unfold int_rshift. rewrite (proj2 (Z.ltb_ge k 0)) by lia.
  destruct (Z.eqb_spec k 0) as [-> |].
  - rewrite Z.div_1_r. by apply push_int_quiet_fits.
  - apply push_int_quiet_norm.
Qed.

(** LSHIFT, RSHIFT, AND, OR, XOR and NOT on integers, in every network version: LSHIFT pushes
    x * 2^k when it fits and overflows otherwise, except that zero shifted by 260 or more
    overflows too; RSHIFT pushes the floor of x / 2^k; the logical operations are those of
    two's complement. *)
Theorem shift_logic_exact quiet args s x y k v :
  fits_s 257 x = true -> fits_s 257 y = true -> 0 <= k <= 1023 ->
  let run2 m a := m (set_stack (t_int (Int a) :: t_int (Int x) :: v) s) in
  let run1 m := m (set_stack (t_int (Int x) :: v) s) in
  let result o := stack_op (push_checked quiet o) (set_stack v s) in
  run2 (exec_lshift quiet) k = result (if (x =? 0) && (260 <=? k) then None else Some (x * 2 ^ k)) /\
  run2 (exec_rshift quiet) k = result (Some (x / 2 ^ k)) /\
  run1 (exec_lshift_tinyint8 quiet args) = result (Some (x * 2 ^ arg_len args)) /\
  run1 (exec_rshift_tinyint8 quiet args) = result (Some (x / 2 ^ arg_len args)) /\
  run2 (exec_and quiet) y = result (Some (Z.land x y)) /\
  run2 (exec_or quiet) y = result (Some (Z.lor x y)) /\
  run2 (exec_xor quiet) y = result (Some (Z.lxor x y)) /\
  run1 (exec_not quiet) = result (Some (Z.lnot x)).
Proof.
  intros Hx Hy Hk. cbv zeta. pose proof (arg_len_range args) as Hl.
  assert (fits_s 64 k = true) as Hk64 by (apply fits_s_spec; simpl; lia).
  assert (((k <? 0) || (1023 <? k)) = false) as Hr
    by (by rewrite (proj2 (Z.ltb_ge k 0)), (proj2 (Z.ltb_ge 1023 k)) by lia).
  split_and!.
  - unfold exec_lshift, bind at 1, gets. apply stack_op_eq. run_pops.
    unfold bind at 1. rewrite pop_long_run by done. rewrite Hr, andb_false_r.
    unfold bind at 1. simpl unless_throw. unfold ret at 1. unfold bind at 1. rewrite pop_int_run.
    simpl orb. rewrite andb_false_r. apply push_lshift; [done|lia].
  - unfold exec_rshift, bind at 1, gets. apply stack_op_eq. run_pops.
    unfold bind at 1. rewrite pop_long_run by done. rewrite Hr, andb_false_r.
    unfold bind at 1. simpl unless_throw. unfold ret at 1. unfold bind at 1. rewrite pop_int_run.
    simpl orb. rewrite andb_false_r. apply push_rshift; [done|lia].
  - unfold exec_lshift_tinyint8. cbv zeta. unfold bind at 1, gets. apply stack_op_eq. run_pops.
    simpl negb. rewrite andb_false_r, push_lshift by (done || lia).
    by rewrite (proj2 (Z.leb_gt 260 (arg_len args))), andb_false_r by lia.
  - unfold exec_rshift_tinyint8. cbv zeta. unfold bind at 1, gets. apply stack_op_eq. run_pops.
    simpl negb. rewrite andb_false_r. apply push_rshift; [done|lia].
  - unfold exec_and, bind at 1, gets. apply stack_op_eq. run_pops. simpl negb.
    rewrite andb_false_r, int_and_value by done. by apply push_int_quiet_fits, fits_land.
  - unfold exec_or, bind at 1, gets. apply stack_op_eq. run_pops. simpl negb.
    rewrite andb_false_r, int_or_value by done. by apply push_int_quiet_fits, fits_lor.
  - apply stack_op_eq. run_pops. rewrite int_xor_value by done.
    by apply push_int_quiet_fits, fits_lxor.
  - apply stack_op_eq. run_pops. apply push_int_quiet_norm.
Qed.

Lemma shift_logic_exact_witness :
  exec_lshift false (test_vm [t_int (Int 260); t_int (Int 0)]) =
    Exn (VmError Exc_int_ov) (test_vm []).
Proof.
  destruct (shift_logic_exact false 0 (test_vm []) 0 0 260 []) as [H _];
    [done|done|lia|]. etransitivity; [exact H|vm_compute; reflexivity].
Defined.

(** ** Comparison, size and range *)

(** TVM truth values. *)
Definition truth (b : bool) : Z := if b then -1 else 0.

Lemma int_cmp_cases x y :
  (x < y /\ int_cmp (Int x) (Int y) = -1) \/ (x = y /\ int_cmp (Int x) (Int y) = 0) \/
  (y < x /\ int_cmp (Int x) (Int y) = 1).
Proof.
  simpl. destruct (Z.lt_trichotomy x y) as [H|[H|H]].
  - left. split; [done|]. apply Z.sgn_neg. lia.
  - right. left. split; [done|]. subst. by rewrite Z.sub_diag.
  - right. right. split; [done|]. apply Z.sgn_pos. lia.
Qed.

Ltac by_cmp x y :=
  destruct (int_cmp_cases x y) as [[? ->]|[[? ->]|[? ->]]];
  unfold truth; repeat case_match; try reflexivity; exfalso;
  repeat match goal with
    | H : (_ <? _) = true |- _ => apply Z.ltb_lt in H
    | H : (_ <? _) = false |- _ => apply Z.ltb_ge in H
    | H : (_ <=? _) = true |- _ => apply Z.leb_le in H
    | H : (_ <=? _) = false |- _ => apply Z.leb_gt in H
    | H : (_ =? _) = true |- _ => apply Z.eqb_eq in H
    | H : (_ =? _) = false |- _ => apply Z.eqb_neq in H
    end; lia.

Lemma mode_tables x y :
  let c := int_cmp (Int x) (Int y) in
  mode_result 0x887 c = truth (x <? y) /\ mode_result 0x878 c = truth (x =? y) /\
  mode_result 0x877 c = truth (x <=? y) /\ mode_result 0x788 c = truth (y <? x) /\
  mode_result 0x787 c = truth (negb (x =? y)) /\ mode_result 0x778 c = truth (y <=? x) /\
  mode_result 0x987 c = Z.sgn (x - y).
Proof.
  cbv zeta. split_and!; [by_cmp x y..|].
  destruct (int_cmp_cases x y) as [[? ->]|[[? ->]|[? ->]]]; symmetry.
  - apply Z.sgn_neg. lia.
  - subst. by rewrite Z.sub_diag.
  - apply Z.sgn_pos. lia.
Qed.

(** the comparison instructions with the mode words under which they are registered:
    LESS, EQUAL, LEQ, GREATER, NEQ, GEQ push the truth value (-1 or 0) of the comparison, CMP
    and SGN the sign; the INT variants compare with the signed byte of the opcode; and on a
    NaN operand each throws integer overflow (quiet: pushes NaN). *)
Theorem comparison_exact quiet args s x y v :
  let c := arg_s8 args in
  let cmp mode := exec_cmp mode quiet (set_stack (t_int (Int y) :: t_int (Int x) :: v) s) in
  let cmpi mode := exec_cmp_int mode quiet args (set_stack (t_int (Int x) :: v) s) in
  let result z := Ret 0 (set_stack (t_int (Int z) :: v) s) in
  cmp 0x887 = result (truth (x <? y)) /\ cmp 0x878 = result (truth (x =? y)) /\
  cmp 0x877 = result (truth (x <=? y)) /\ cmp 0x788 = result (truth (y <? x)) /\
  cmp 0x787 = result (truth (negb (x =? y))) /\ cmp 0x778 = result (truth (y <=? x)) /\
  cmp 0x987 = result (Z.sgn (x - y)) /\
  exec_sgn 0x987 quiet (set_stack (t_int (Int x) :: v) s) = result (Z.sgn x) /\
  cmpi 0x878 = result (truth (x =? c)) /\ cmpi 0x887 = result (truth (x <? c)) /\
  cmpi 0x788 = result (truth (c <? x)) /\ cmpi 0x787 = result (truth (negb (x =? c))) /\
  (forall mode a b, is_valid256 a && is_valid256 b = false ->
     exec_cmp mode quiet (set_stack (t_int b :: t_int a :: v) s) =
       stack_op (push_checked quiet None) (set_stack v s)).
Proof.
  cbv zeta.
  assert (forall mode, exec_cmp mode quiet (set_stack (t_int (Int y) :: t_int (Int x) :: v) s) =
    Ret 0 (set_stack (t_int (Int (mode_result mode (int_cmp (Int x) (Int y)))) :: v) s)) as Hc.
  { intros mode. etransitivity; [apply stack_op_eq with
      (m' := push_smallint (mode_result mode (int_cmp (Int x) (Int y)))) (v' := v)|done].
    run_pops. done. }
  assert (forall mode, exec_cmp_int mode quiet args (set_stack (t_int (Int x) :: v) s) =
    Ret 0 (set_stack (t_int (Int (mode_result mode (int_cmp (Int x) (Int (arg_s8 args))))) :: v) s))
    as Hi.
  { intros mode. etransitivity; [apply stack_op_eq with
      (m' := push_smallint (mode_result mode (int_cmp (Int x) (Int (arg_s8 args))))) (v' := v)|done].
    run_pops. done. }
  destruct (mode_tables x y) as (T1 & T2 & T3 & T4 & T5 & T6 & T7).
  destruct (mode_tables x (arg_s8 args)) as (U1 & U2 & _ & U4 & U5 & _).
  rewrite !Hc, !Hi, T1, T2, T3, T4, T5, T6, T7, U1, U2, U4, U5.
  split_and!; try done.
  - etransitivity; [apply stack_op_eq with (m' := push_smallint (Z.sgn x)) (v' := v)|done].
    run_pops. simpl. destruct (mode_tables x 0) as (_ & _ & _ & _ & _ & _ & H).
    simpl in H. rewrite Z.sub_0_r in H. by rewrite H.
  - intros mode a b Hab. apply stack_op_eq. run_pops.
    rewrite <- negb_andb, Hab. simpl. apply push_int_quiet_nan.
Qed.

(** The sizes in bits. *)
Lemma bit_size_signed a n :
  0 <= n -> bit_size (Int a) true <= n <-> signed_fits_bits (Int a) n = true.
Proof.
  intros Hn. simpl. destruct (Z.eqb_spec a 0) as [-> |Ha]; [lia|].
  assert (forall b, 0 < b -> Z.log2 b + 2 <= n <-> 0 < n /\ b < 2 ^ (n - 1)) as Hlog.
  { intros b Hb. pose proof (Z.log2_nonneg b). split.
    - intros Hl. split; [lia|]. apply Z.log2_lt_pow2; lia.
    - intros [Hn' Hl]. apply Z.log2_lt_pow2 in Hl; lia. }
  destruct (Z.ltb_spec 0 a).
  - replace (Z.log2 a + 1 + 1) with (Z.log2 a + 2) by lia. rewrite Hlog by lia.
    destruct (Z.leb_spec n 0); [split; [lia|done]|]. rewrite fits_s_spec.
    pose proof (pow2_pos (n - 1)). lia.
  - destruct (Z.eqb_spec a (-1)) as [-> |].
    + destruct (Z.leb_spec n 0); [split; [lia|done]|]. rewrite fits_s_spec.
      pose proof (pow2_pos (n - 1)). lia.
    + rewrite Hlog by lia. destruct (Z.leb_spec n 0); [split; [lia|done]|]. rewrite fits_s_spec.
      pose proof (pow2_pos (n - 1)). lia.
Qed.

Lemma bit_size_unsigned a n :
  0 <= a -> 0 <= n -> bit_size (Int a) false <= n <-> unsigned_fits_bits (Int a) n = true.
Proof.
  intros Ha Hn. simpl. rewrite (proj2 (Z.ltb_ge a 0)) by lia.
  destruct (Z.eqb_spec a 0) as [-> |]; [lia|]. rewrite (proj2 (Z.ltb_lt 0 a)) by lia.
  rewrite (proj2 (Z.ltb_ge n 0)), Z.ltb_lt by lia. pose proof (Z.log2_nonneg a).
  pose proof (Z.log2_lt_pow2 a n ltac:(lia)). simpl. lia.
Qed.

Lemma bit_size_small a : fits_s 257 a = true -> 0 <= bit_size (Int a) true <= 257.
Proof.
  intros Hf. split.
  - apply bit_size_range. assert (bit_size (Int a) true <= 257); [|lia].
    apply bit_size_signed; [lia|]. simpl. by destruct (a =? 0).
  - apply bit_size_signed; [lia|]. simpl. by destruct (a =? 0).
Qed.

(** BITSIZE pushes the least n such that the integer fits n signed bits, UBITSIZE the least
    number of unsigned bits of a non-negative one and a range error (quiet: NaN) for a
    negative one; FITS and UFITS pass the integer through exactly when it fits. *)
Theorem size_exact quiet args s x v :
  fits_s 257 x = true ->
  let run m := m (set_stack (t_int (Int x) :: v) s) in
  let result o := stack_op (push_checked quiet o) (set_stack v s) in
  (exists n, run (exec_bitsize true quiet) = Ret 0 (set_stack (t_int (Int n) :: v) s) /\
     0 <= n /\ forall m, 0 <= m -> n <= m <-> signed_fits_bits (Int x) m = true) /\
  (0 <= x ->
     exists n, run (exec_bitsize false quiet) = Ret 0 (set_stack (t_int (Int n) :: v) s) /\
       0 <= n /\ forall m, 0 <= m -> n <= m <-> unsigned_fits_bits (Int x) m = true) /\
  (x < 0 -> run (exec_bitsize false quiet) =
     if quiet then Ret 0 (set_stack (t_int NaN :: v) s)
     else Exn (VmError Exc_range_chk) (set_stack v s)) /\
  run (exec_fits_tinyint8 quiet args) =
    result (if signed_fits_bits (Int x) (arg_len args) then Some x else None) /\
  run (exec_ufits_tinyint8 quiet args) =
    result (if unsigned_fits_bits (Int x) (arg_len args) then Some x else None).
Proof.
  intros Hf. cbv zeta.
  assert (forall sgnd, bit_size (Int x) sgnd < 0x7fffffff -> exec_bitsize sgnd quiet
    (set_stack (t_int (Int x) :: v) s) =
    Ret 0 (set_stack (t_int (Int (bit_size (Int x) sgnd)) :: v) s)) as Hb.
  { intros sgnd Hlt. etransitivity; [apply stack_op_eq with
      (m' := push_smallint (bit_size (Int x) sgnd)) (v' := v)|done].
    run_pops. cbv zeta. by rewrite (proj2 (Z.ltb_lt _ _) Hlt). }
  pose proof (bit_size_small x Hf) as Hs.
  split_and!.
  - eexists. rewrite Hb by lia. split_and!; [done|lia|]. intros. by apply bit_size_signed.
  - intros Hx. assert (bit_size (Int x) false <= 257) as Hu.
    { apply bit_size_unsigned; [lia|lia|]. unfold unsigned_fits_bits.
      rewrite (proj2 (Z.ltb_ge x 0)) by lia. destruct (x =? 0); [done|]. apply Z.ltb_lt.
      pose proof (fits_abs x Hf). assert (2 ^ 256 < 2 ^ 257) by done. lia. }
    eexists. rewrite Hb by lia. split_and!; [done|apply bit_size_range; lia|].
    intros. by apply bit_size_unsigned.
  - intros Hx. unfold exec_bitsize, stack_op, on_stack, bind. cbn [stack set_stack].
    rewrite check_underflow_ok by (apply one_req; rewrite depth_cons; pose proof (depth_nonneg v); lia).
    rewrite pop_int_run. cbv zeta.
    assert (bit_size (Int x) false = 2 ^ 31 - 1) as ->; [|by destruct quiet].
    simpl. by rewrite (proj2 (Z.eqb_neq x 0)), (proj2 (Z.ltb_ge 0 x)) by lia.
  - apply stack_op_eq. run_pops. destruct (signed_fits_bits (Int x) (arg_len args));
      [by apply push_int_quiet_fits|apply push_int_quiet_nan].
  - apply stack_op_eq. run_pops. destruct (unsigned_fits_bits (Int x) (arg_len args));
      [by apply push_int_quiet_fits|apply push_int_quiet_nan].
Qed.

Lemma size_exact_witness :
  exists n, exec_bitsize true false (test_vm [t_int (Int (-128))]) =
    Ret 0 (test_vm [t_int (Int n)]) /\ n <= 8.
Proof.
  destruct (size_exact false 0 (test_vm []) (-128) [] eq_refl) as [(n & H & H0 & Hn) _].
  exists n. split; [exact H|]. apply Hn; [lia|reflexivity].
Defined.
