(* ===== verification/Vm.v ===== *)
(** * Control flow of the virtual machine (crypto/vm/vm.h, vm.cpp, continuation.cpp)

    Control registers, cell loading and its gas, jumps and calls of continuations,
    loops, exceptions, committed state, and the main loop.  SHA-256 and the
    dictionary lookup of library collections are parameters.

    Throughout the machine [cr.c[i]] may be null only for a moment inside an
    operation; dereferencing a null register is undefined behaviour ([Undef]). *)
From S2P Require Import Prelude BigInt Int256 Cells DataCell VmTypes Stack OpcodeTable.

(** ** Control registers (struct [ControlRegs]) *)

Definition set_c0 (k : option Continuation) (r : ControlRegs) : ControlRegs :=
  let 'mkRegs _ c1 c2 c3 d0 d1 c7 := r in mkRegs k c1 c2 c3 d0 d1 c7.
Definition set_c1 (k : option Continuation) (r : ControlRegs) : ControlRegs :=
  let 'mkRegs c0 _ c2 c3 d0 d1 c7 := r in mkRegs c0 k c2 c3 d0 d1 c7.
Definition set_c2 (k : option Continuation) (r : ControlRegs) : ControlRegs :=
  let 'mkRegs c0 c1 _ c3 d0 d1 c7 := r in mkRegs c0 c1 k c3 d0 d1 c7.
Definition set_c3 (k : option Continuation) (r : ControlRegs) : ControlRegs :=
  let 'mkRegs c0 c1 c2 _ d0 d1 c7 := r in mkRegs c0 c1 c2 k d0 d1 c7.
Definition set_c4 (c : option Cell) (r : ControlRegs) : ControlRegs :=
  let 'mkRegs c0 c1 c2 c3 _ d1 c7 := r in mkRegs c0 c1 c2 c3 c d1 c7.
Definition set_c5 (c : option Cell) (r : ControlRegs) : ControlRegs :=
  let 'mkRegs c0 c1 c2 c3 d0 _ c7 := r in mkRegs c0 c1 c2 c3 d0 c c7.
Definition set_c7 (t : option Tuple) (r : ControlRegs) : ControlRegs :=
  let 'mkRegs c0 c1 c2 c3 d0 d1 _ := r in mkRegs c0 c1 c2 c3 d0 d1 t.

(** [a ^= b] and [a &= b] on references. *)
Definition ref_xor {A} (a b : option A) : option A := match b with Some _ => b | None => a end.
Definition ref_clear {A B} (a : option A) (b : option B) : option A :=
  match b with Some _ => None | None => a end.

(** [operator^=]: registers present in [save] replace the current ones. *)
Definition regs_xor (r save : ControlRegs) : ControlRegs :=
  let 'mkRegs a0 a1 a2 a3 e0 e1 a7 := r in
  let 'mkRegs b0 b1 b2 b3 f0 f1 b7 := save in
  mkRegs (ref_xor a0 b0) (ref_xor a1 b1) (ref_xor a2 b2) (ref_xor a3 b3)
         (ref_xor e0 f0) (ref_xor e1 f1) (ref_xor a7 b7).
(** [operator&=]: registers present in [save] are cleared. *)
Definition regs_clear (r save : ControlRegs) : ControlRegs :=
  let 'mkRegs a0 a1 a2 a3 e0 e1 a7 := r in
  let 'mkRegs b0 b1 b2 b3 f0 f1 b7 := save in
  mkRegs (ref_clear a0 b0) (ref_clear a1 b1) (ref_clear a2 b2) (ref_clear a3 b3)
         (ref_clear e0 f0) (ref_clear e1 f1) (ref_clear a7 b7).

(** [get(idx)]: [None] is an entry made of a null reference; an index without a
    register gives the null entry. *)
Definition regs_get (idx : Z) (r : ControlRegs) : option StackEntry :=
  let 'mkRegs c0 c1 c2 c3 d0 d1 c7 := r in
  match idx with
  | 0 => t_vmcont <$> c0
  | 1 => t_vmcont <$> c1
  | 2 => t_vmcont <$> c2
  | 3 => t_vmcont <$> c3
  | 4 => t_cell <$> d0
  | 5 => t_cell <$> d1
  | 7 => t_tuple <$> c7
  | _ => Some t_null
  end.

Definition valid_idx (idx : Z) : bool :=
  (idx <? 4) || ((4 <=? idx) && (idx <? 6)) || (idx =? 7).

Definition as_cont (e : StackEntry) : option Continuation :=
  match e with t_vmcont k => Some k | _ => None end.
Definition as_cell (e : StackEntry) : option Cell :=
  match e with t_cell c => Some c | _ => None end.
Definition as_tuple (e : StackEntry) : option Tuple :=
  match e with t_tuple t => Some t | _ => None end.

(** [set(idx, value)]: [None] is [false]. *)
Definition regs_set (idx : Z) (v : StackEntry) (r : ControlRegs) : option ControlRegs :=
  let with_cont f := match as_cont v with Some k => Some (f (Some k) r) | None => None end in
  let with_cell f := match as_cell v with Some c => Some (f (Some c) r) | None => None end in
  match idx with
  | 0 => with_cont set_c0
  | 1 => with_cont set_c1
  | 2 => with_cont set_c2
  | 3 => with_cont set_c3
  | 4 => with_cell set_c4
  | 5 => with_cell set_c5
  | 7 => match as_tuple v with Some t => Some (set_c7 (Some t) r) | None => None end
  | _ => None
  end.

(** [define_c0] ... : set a register that is still null. *)
Definition define_c0 (k : option Continuation) (r : ControlRegs) : ControlRegs :=
  match regs_c0 r with None => set_c0 k r | Some _ => r end.
Definition define_c1 (k : option Continuation) (r : ControlRegs) : ControlRegs :=
  match regs_c1 r with None => set_c1 k r | Some _ => r end.
Definition define_c2 (k : option Continuation) (r : ControlRegs) : ControlRegs :=
  match regs_c2 r with None => set_c2 k r | Some _ => r end.

(** [define(idx, value, silent_if_set)]: the result and the registers. *)
Definition regs_define (idx : Z) (v : StackEntry) (silent_if_set : bool) (r : ControlRegs)
    : bool * ControlRegs :=
  let def {A} (cur new : option A) (f : option A -> ControlRegs -> ControlRegs) :=
    match new, cur with
    | None, _ => (false, r)
    | Some _, None => (true, f new r)
    | Some _, Some _ => (silent_if_set, r)
    end in
  match idx with
  | 0 => def (regs_c0 r) (as_cont v) set_c0
  | 1 => def (regs_c1 r) (as_cont v) set_c1
  | 2 => def (regs_c2 r) (as_cont v) set_c2
  | 3 => def (regs_c3 r) (as_cont v) set_c3
  | 4 => def (regs_d0 r) (as_cell v) set_c4
  | 5 => def (regs_d1 r) (as_cell v) set_c5
  | 7 => match as_tuple v with
         | None => (false, r)
         | Some t => (true, match regs_c7 r with None => set_c7 (Some t) r | Some _ => r end)
         end
  | _ => (false, r)
  end.

(** ** Continuations with control data *)

Definition has_c0 (k : Continuation) : bool :=
  match get_cdata k with
  | Some d => match regs_c0 (cdata_save d) with Some _ => true | None => false end
  | None => false
  end.

Definition empty_cdata : ControlData := mkCData None empty_regs (-1) (-1).

(** [force_cdata(cont)]: a continuation without control data is wrapped. *)
Definition force_cdata (k : Continuation) : ControlData * (ControlData -> Continuation) :=
  match k with
  | ArgContExt d ext => (d, fun d' => ArgContExt d' ext)
  | OrdCont d c => (d, fun d' => OrdCont d' c)
  | _ => (empty_cdata, fun d' => ArgContExt d' k)
  end.

Definition set_save (r : ControlRegs) (d : ControlData) : ControlData :=
  let 'mkCData st _ n c := d in mkCData st r n c.

(** Modify [*force_cregs(cont)]. *)
Definition with_cregs (f : ControlRegs -> ControlRegs) (k : Continuation) : Continuation :=
  let (d, wrap) := force_cdata k in wrap (set_save (f (cdata_save d)) d).

Definition ord_cont (c : option CellSlice) (cp : Z) : Continuation :=
  OrdCont (mkCData None empty_regs (-1) cp) c.

Definition quit0 : Continuation := QuitCont 0.
Definition quit1 : Continuation := QuitCont 1.

(** ** Access to the registers of the machine *)

Definition modify_cr (f : ControlRegs -> ControlRegs) : M VmState unit :=
  modify (fun s => set_cr (f (cr s)) s).
Definition adjust_cr (save : ControlRegs) : M VmState unit := modify_cr (fun r => regs_xor r save).
Definition preclear_cr (save : ControlRegs) : M VmState unit :=
  modify_cr (fun r => regs_clear r save).
Definition vm_set_c0 (k : option Continuation) : M VmState unit := modify_cr (set_c0 k).
Definition vm_set_c1 (k : option Continuation) : M VmState unit := modify_cr (set_c1 k).
Definition vm_set_c2 (k : option Continuation) : M VmState unit := modify_cr (set_c2 k).
Definition get_c0 : M VmState Continuation :=
  r <- gets cr ;; of_option (regs_c0 r).
Definition get_c1 : M VmState Continuation :=
  r <- gets cr ;; of_option (regs_c1 r).
Definition get_c2 : M VmState Continuation :=
  r <- gets cr ;; of_option (regs_c2 r).
Definition get_c3 : M VmState Continuation :=
  r <- gets cr ;; of_option (regs_c3 r).
Definition vm_get (idx : Z) : M VmState StackEntry :=
  r <- gets cr ;; of_option (regs_get idx r).
(** [set(idx, value)]: the returned flag. *)
Definition vm_set (idx : Z) (v : StackEntry) : M VmState bool := fun s =>
  match regs_set idx v (cr s) with
  | Some r => Ret true (set_cr r s)
  | None => Ret false s
  end.

(** ** Codepages: only codepage 0 is registered *)

Definition has_table (new_cp : Z) : bool := new_cp =? 0.
Definition init_cp (new_cp : Z) : M VmState bool :=
  if has_table new_cp then modify (set_cp_field new_cp) ;; ret true else ret false.
Definition set_cp (new_cp : Z) : M VmState bool :=
  c <- gets cp ;; if new_cp =? c then ret true else init_cp new_cp.
Definition force_cp (new_cp : Z) : M VmState unit :=
  ok <- set_cp new_cp ;; unless_throw ok (VmError Exc_inv_opcode).
Definition set_code (c : option CellSlice) (new_cp : Z) : M VmState unit :=
  modify (set_code_field c) ;; force_cp new_cp.

(** ** Gas limits (struct [GasLimits])

    The arithmetic is that of [long long]; [None] is an overflow. *)

Definition change_base (base : Z) (g : GasLimits) : option GasLimits :=
  let r := gas_remaining g + (base - gas_base g) in
  if fits_s 64 (base - gas_base g) && fits_s 64 r then
    Some (mkGas (gas_max g) (gas_limit g) (gas_credit g) r base)
  else None.
Definition set_limits (max limit credit : Z) (g : GasLimits) : option GasLimits :=
  if fits_s 64 (limit + credit) then
    change_base (limit + credit) (mkGas max limit credit (gas_remaining g) (gas_base g))
  else None.
Definition change_limit (limit : Z) (g : GasLimits) : option GasLimits :=
  let limit := Z.min (Z.max limit 0) (gas_max g) in
  change_base limit (mkGas (gas_max g) limit 0 (gas_remaining g) (gas_base g)).

(** [VmState::set_gas_limits] and [VmState::change_gas_limit] *)
Definition set_gas_limits (max limit credit : Z) : M VmState bool :=
  g <- gets gas ;;
  g' <- of_option (set_limits max limit credit g) ;;
  modify (set_gas g') ;; ret true.
Definition change_gas_limit (new_limit : Z) : M VmState unit :=
  g <- gets gas ;;
  g' <- of_option (change_limit new_limit g) ;;
  modify (set_gas g').

Definition cell_load_gas_price : Z := 100.
Definition cell_reload_gas_price : Z := 25.
Definition cell_create_gas_price : Z := 500.
Definition exception_gas_price : Z := 50.
Definition implicit_jmpref_gas_price : Z := 10.
Definition implicit_ret_gas_price : Z := 5.
Definition free_nested_cont_jump : Z := 8.
Definition runvm_gas_price : Z := 40.
Definition chksgn_free_count : Z := 10.
Definition chksgn_gas_price : Z := 4000.

(** ** Loading and creating cells *)

(** Look up a 256-bit key in a library dictionary ([Dictionary::lookup], then the
    first reference of the value; null when it throws): the hashes of the cells
    that the lookup loads, in order, and the result. *)
Class LibDict := lib_dict_lookup : list bool -> Cell -> list (list bool) * option Cell.

Section machine.
Context `{Sha256} `{LibDict}.

Definition register_cell_load (hash : list bool) : M VmState unit :=
  loaded <- gets loaded_cells ;;
  if bool_decide (hash ∈ loaded) then consume_gas cell_reload_gas_price
  else modify (set_loaded_cells (hash :: loaded)) ;; consume_gas cell_load_gas_price.

Definition register_cell_create : M VmState unit := consume_gas cell_create_gas_price.

Fixpoint register_cell_loads (hashes : list (list bool)) : M VmState unit :=
  match hashes with
  | [] => ret tt
  | h :: hashes' => register_cell_load h ;; register_cell_loads hashes'
  end.

(** [lookup_library_in]: the cell found must have the requested hash.  Before
    version 4 the lookup itself is charged. *)
Definition lookup_library_in (hash : list bool) (lib : Cell) : M VmState (option Cell) :=
  let (loads, r) := lib_dict_lookup hash lib in
  v <- gets global_version ;;
  (if 4 <=? v then ret tt else register_cell_loads loads) ;;
  ret (match r with
       | Some c => if bool_decide (get_hash c = hash) then Some c else None
       | None => None
       end).

Fixpoint find_library (hash : list bool) (libs : list Cell) : M VmState (option Cell) :=
  match libs with
  | [] => modify (set_missing_library (Some hash)) ;; ret None
  | lib :: libs' =>
      r <- lookup_library_in hash lib ;;
      match r with Some c => ret (Some c) | None => find_library hash libs' end
  end.

Definition load_library (hash : list bool) : M VmState (option Cell) :=
  limit <- gets max_library_loads ;;
  loaded <- gets loaded_libraries ;;
  libs <- gets libraries ;;
  match limit with
  | Some m =>
      if m =? Z.of_nat (length loaded) then
        if bool_decide (hash ∈ loaded) then find_library hash libs else ret None
      else
        (if bool_decide (hash ∈ loaded) then ret tt
         else modify (set_loaded_libraries (hash :: loaded))) ;;
        find_library hash libs
  | None => find_library hash libs
  end.

(** The loop of [load_cell_slice_impl] for the machine: [special_ok] is
    [can_be_special != nullptr]; the result is the loaded cell.  Since version 5
    it runs at most twice; before, libraries may refer to libraries, and 1024 such
    references are followed here. *)
Fixpoint load_cell_loop (fuel : nat) (c : Cell) (special_ok library_loaded : bool)
    : M VmState Cell :=
  match fuel with
  | O => undef
  | S fuel' =>
      (if library_loaded then ret tt else register_cell_load (get_hash c)) ;;
      if special_ok || negb (cell_special c) then ret c
      else
        match cell_type true (cell_bits c) with
        | Some Library =>
            v <- gets global_version ;;
            (if 5 <=? v then unless_throw (negb library_loaded) (VmError Exc_cell_und)
             else ret tt) ;;
            r <- load_library (take hash_bits (drop 8 (cell_bits c))) ;;
            match r with
            | Some c' => load_cell_loop fuel' c' false (library_loaded || (5 <=? v))
            | None => throw (VmError Exc_cell_und)
            end
        | _ => throw (VmError Exc_cell_und)
        end
  end.

Definition load_cell_fuel : nat := 1024.
Definition load_cell_slice (c : Cell) : M VmState CellSlice :=
  c' <- load_cell_loop load_cell_fuel c false false ;; ret (slice_of_cell c').
(** [load_cell_slice_special]: the slice and whether the cell is special. *)
Definition load_cell_slice_special (c : Cell) : M VmState (CellSlice * bool) :=
  c' <- load_cell_loop load_cell_fuel c true false ;; ret (slice_of_cell c', cell_special c').

Definition ref_to_cont (c : Cell) : M VmState Continuation :=
  cs <- load_cell_slice c ;; cp <- gets cp ;; ret (ord_cont (Some cs) cp).

(** ** Jumps *)

(** [new_stk.move_from_stack(get_stack(), copy)]: the result is the new stack. *)
Definition take_from_stack (new_stk : Stack) (copy : Z) : M VmState Stack := fun s =>
  match move_from_stack copy (new_stk, stack s) with
  | Ret _ (new, old) => Ret new (set_stack old s)
  | Exn e (new, old) => Exn e (set_stack old s)
  | Undef => Undef
  end.

Definition stack_underflow : exc := VmError Exc_stk_und.

(** [adjust_jump_cont(cont, pass_args)], which returns [cont]. *)
Definition adjust_jump_cont (k : Continuation) (pass_args : Z) : M VmState unit :=
  d <- gets (fun s => depth (stack s)) ;;
  match get_cdata k with
  | Some cdata =>
      let nargs := cdata_nargs cdata in
      unless_throw (negb ((d <? pass_args) || (d <? nargs))) stack_underflow ;;
      unless_throw (negb ((pass_args <? nargs) && (0 <=? pass_args))) stack_underflow ;;
      preclear_cr (cdata_save cdata) ;;
      let copy := if (0 <=? pass_args) && (nargs <? 0) then pass_args else nargs in
      match cdata_stack cdata with
      | Some (e :: rest) =>
          let copy := if copy <? 0 then d else copy in
          new_stk <- take_from_stack (e :: rest) copy ;;
          consume_stack_gas (depth new_stk) ;;
          modify (set_stack new_stk)
      | _ =>
          if (0 <=? copy) && (copy <? d) then
            on_stack (drop_bottom (d - copy)) ;; consume_stack_gas copy
          else ret tt
      end
  | None =>
      if 0 <=? pass_args then
        unless_throw (negb (d <? pass_args)) stack_underflow ;;
        if pass_args <? d then
          on_stack (drop_bottom (d - pass_args)) ;; consume_stack_gas pass_args
        else ret tt
      else ret tt
  end.

(** Whether a jump to [cont] has to move arguments. *)
Definition needs_adjust (k : Continuation) : bool :=
  match get_cdata k with
  | Some d => (match cdata_stack d with Some _ => true | None => false end) ||
              (0 <=? cdata_nargs d)
  | None => false
  end.

(** [ExcQuitCont::jump]: the exit code is popped from the stack. *)
Definition pop_exit_code : M VmState Z := fun s =>
  match pop_smallint_range 65535 0 (stack s) with
  | Ret n v => Ret n (set_stack v s)
  | Exn (VmError e) v => Ret (get_errno e) (set_stack v s)
  | Exn e v => Exn e (set_stack v s)
  | Undef => Undef
  end.

(** [jump(st, exitcode)] of each class of continuations: the next continuation
    ([None] is null) and the exit code, 0 if it is not set. *)
Definition QuitCont_jump (code : Z) : M VmState (option Continuation * Z) :=
  ret (None, Z.lnot code).
Definition ExcQuitCont_jump : M VmState (option Continuation * Z) :=
  n <- pop_exit_code ;; ret (None, Z.lnot n).
Definition PushIntCont_jump (v : Z) (next : Continuation) : M VmState (option Continuation * Z) :=
  on_stack (push_smallint v) ;; ret (Some next, 0).
Definition ArgContExt_jump (d : ControlData) (ext : Continuation)
    : M VmState (option Continuation * Z) :=
  adjust_cr (cdata_save d) ;;
  (if cdata_cp d =? -1 then ret tt else force_cp (cdata_cp d)) ;;
  ret (Some ext, 0).
Definition RepeatCont_jump (body after : Continuation) (count : Z)
    : M VmState (option Continuation * Z) :=
  if count <=? 0 then ret (Some after, 0)
  else if has_c0 body then ret (Some body, 0)
  else vm_set_c0 (Some (RepeatCont body after (count - 1))) ;; ret (Some body, 0).
Definition AgainCont_jump (body : Continuation) : M VmState (option Continuation * Z) :=
  (if has_c0 body then ret tt else vm_set_c0 (Some (AgainCont body))) ;; ret (Some body, 0).
Definition UntilCont_jump (body after : Continuation) : M VmState (option Continuation * Z) :=
  done <- on_stack pop_bool ;;
  if done then ret (Some after, 0)
  else (if has_c0 body then ret tt else vm_set_c0 (Some (UntilCont body after))) ;;
       ret (Some body, 0).
Definition WhileCont_jump (cond body after : Continuation) (chkcond : bool)
    : M VmState (option Continuation * Z) :=
  if chkcond then
    go <- on_stack pop_bool ;;
    if negb go then ret (Some after, 0)
    else
      (if has_c0 body then ret tt
       else vm_set_c0 (Some (WhileCont cond body after false))) ;;
      ret (Some body, 0)
  else
    (if has_c0 cond then ret tt
     else vm_set_c0 (Some (WhileCont cond body after true))) ;;
    ret (Some cond, 0).
Definition OrdCont_jump (d : ControlData) (code : option CellSlice)
    : M VmState (option Continuation * Z) :=
  adjust_cr (cdata_save d) ;; set_code code (cdata_cp d) ;; ret (None, 0).

(** The virtual call [cont->jump(st, exitcode)]. *)
Definition cont_jump (k : Continuation) : M VmState (option Continuation * Z) :=
  match k with
  | QuitCont code => QuitCont_jump code
  | ExcQuitCont => ExcQuitCont_jump
  | PushIntCont v next => PushIntCont_jump v next
  | ArgContExt d ext => ArgContExt_jump d ext
  | RepeatCont body after count => RepeatCont_jump body after count
  | AgainCont body => AgainCont_jump body
  | UntilCont body after => UntilCont_jump body after
  | WhileCont cond body after chkcond => WhileCont_jump cond body after chkcond
  | OrdCont d code => OrdCont_jump d code
  end.

(** Every jump leads to a continuation nested in the current one, so the loop of
    [jump_to] is bounded by the nesting height. *)
Fixpoint cont_height (k : Continuation) : nat :=
  match k with
  | QuitCont _ | ExcQuitCont | OrdCont _ _ => 0%nat
  | PushIntCont _ next => S (cont_height next)
  | RepeatCont body after _ => S (Nat.max (cont_height body) (cont_height after))
  | AgainCont body => S (cont_height body)
  | UntilCont body after => S (Nat.max (cont_height body) (cont_height after))
  | WhileCont cond body after _ =>
      S (Nat.max (cont_height cond) (Nat.max (cont_height body) (cont_height after)))
  | ArgContExt _ ext => S (cont_height ext)
  end.

(** What [jump_to] does after the jump number [cnt]. *)
Definition jump_overhead (cnt : Z) (next : option Continuation) : M VmState unit :=
  v <- gets global_version ;;
  (if (free_nested_cont_jump <? cnt) && (9 <=? v) then consume_gas 1 else ret tt) ;;
  match next with
  | Some k => if (9 <=? v) && needs_adjust k then adjust_jump_cont k (-1) else ret tt
  | None => ret tt
  end.

Fixpoint jump_loop (fuel : nat) (k : Continuation) (cnt : Z) : M VmState Z :=
  match fuel with
  | O => undef
  | S fuel' =>
      let* (next, res) := cont_jump k in
      jump_overhead (cnt + 1) next ;;
      match next with
      | Some k' => jump_loop fuel' k' (cnt + 1)
      | None => ret res
      end
  end.
Definition jump_to (k : Continuation) : M VmState Z := jump_loop (S (cont_height k)) k 0.

Definition jump_args (k : Continuation) (pass_args : Z) : M VmState Z :=
  adjust_jump_cont k pass_args ;; jump_to k.
Definition jump (k : Continuation) : M VmState Z :=
  if needs_adjust k then jump_args k (-1) else jump_to k.

(** ** Calls and returns *)

(** [Ref<OrdCont>{true, std::move(code), cp, stack, nargs}] with [save.c0] set. *)
Definition return_cont (stk : option Stack) (nargs : Z) (c0 : option Continuation)
    : M VmState Continuation := fun s =>
  Ret (OrdCont (mkCData stk (set_c0 c0 empty_regs) nargs (cp s)) (code s))
      (set_code_field None s).

(** The stack of the callee, made from the stack [st] that the continuation already
    has, the top [copy] entries of the current stack (all if negative), with the
    next [skip] dropped; and what remains of the current stack ([None] is null). *)
Definition call_stack (st : option Stack) (copy skip : Z) : M VmState (Stack * option Stack) :=
  match st with
  | Some (e :: st') =>
      d <- gets (fun s => depth (stack s)) ;;
      new_stk <- take_from_stack (e :: st') (if copy <? 0 then d else copy) ;;
      (if 0 <? skip then on_stack (pop_many skip) else ret tt) ;;
      consume_stack_gas (depth new_stk) ;;
      rest <- gets stack ;; ret (new_stk, Some rest)
  | _ =>
      if 0 <=? copy then
        o <- on_stack (split_top copy skip) ;;
        new_stk <- of_option o ;;
        consume_stack_gas (depth new_stk) ;;
        rest <- gets stack ;; ret (new_stk, Some rest)
      else
        st <- gets stack ;; ret (st, None)
  end.

(** The end of a call: the return continuation becomes c0. *)
Definition call_finish (k : Continuation) (new_stk : Stack) (rest : option Stack) (ret_args : Z)
    (old_c0 : option Continuation) : M VmState Z :=
  r <- return_cont rest ret_args old_c0 ;;
  modify (set_stack new_stk) ;;
  vm_set_c0 (Some r) ;;
  jump_to k.

(** [call(cont, pass_args, ret_args)] *)
Definition call_args (k : Continuation) (pass_args ret_args : Z) : M VmState Z :=
  match get_cdata k with
  | Some cdata =>
      if has_c0 k then jump_args k pass_args
      else
        d <- gets (fun s => depth (stack s)) ;;
        let nargs := cdata_nargs cdata in
        unless_throw (negb ((d <? pass_args) || (d <? nargs))) stack_underflow ;;
        unless_throw (negb ((pass_args <? nargs) && (0 <=? pass_args))) stack_underflow ;;
        old_c0 <- gets (fun s => regs_c0 (cr s)) ;;
        vm_set_c0 None ;;
        preclear_cr (cdata_save cdata) ;;
        let copy := if (0 <=? pass_args) && (nargs <? 0) then pass_args else nargs in
        let skip := if (0 <=? pass_args) && (0 <=? nargs) then pass_args - nargs else 0 in
        let* (new_stk, rest) := call_stack (cdata_stack cdata) copy skip in
        call_finish k new_stk rest ret_args old_c0
  | None =>
      d <- gets (fun s => depth (stack s)) ;;
      unless_throw (negb (d <? pass_args)) stack_underflow ;;
      let* (new_stk, rest) := call_stack None pass_args 0 in
      old_c0 <- gets (fun s => regs_c0 (cr s)) ;;
      call_finish k new_stk rest ret_args old_c0
  end.

(** [call(cont)] *)
Definition call (k : Continuation) : M VmState Z :=
  if has_c0 k then jump k
  else if needs_adjust k then call_args k (-1) (-1)
  else
    old_c0 <- gets (fun s => regs_c0 (cr s)) ;;
    r <- return_cont None (-1) old_c0 ;;
    vm_set_c0 (Some r) ;;
    jump_to k.

(** [ret()], [ret(ret_args)], [ret_alt()]: the register is replaced by the quit
    continuation. *)
Definition vm_ret : M VmState Z := k <- get_c0 ;; vm_set_c0 (Some quit0) ;; jump k.
Definition vm_ret_args (ret_args : Z) : M VmState Z :=
  k <- get_c0 ;; vm_set_c0 (Some quit0) ;; jump_args k ret_args.
Definition vm_ret_alt : M VmState Z := k <- get_c1 ;; vm_set_c1 (Some quit1) ;; jump k.

(** ** Current continuation and envelopes *)

(** [extract_cc(save_cr, stack_copy, cc_args)] *)
Definition extract_cc (save_cr stack_copy cc_args : Z) : M VmState Continuation :=
  d <- gets (fun s => depth (stack s)) ;;
  st <- gets stack ;;
  let* (new_stk, rest) :=
    if (stack_copy <? 0) || (stack_copy =? d) then ret (st, None)
    else if 0 <? stack_copy then
      on_stack (check_underflow [stack_copy]) ;;
      o <- on_stack (split_top stack_copy 0) ;;
      new_stk <- of_option o ;;
      consume_stack_gas (depth new_stk) ;;
      rest <- gets stack ;; ret (new_stk, Some rest)
    else ret ([], Some st) in
  r <- gets cr ;;
  let save0 := if Z.testbit save_cr 0 then regs_c0 r else None in
  let save1 := if Z.testbit save_cr 1 then regs_c1 r else None in
  let save2 := if Z.testbit save_cr 2 then regs_c2 r else None in
  c <- gets code ;;
  cp <- gets cp ;;
  modify (set_code_field None) ;;
  modify (set_stack new_stk) ;;
  (if Z.testbit save_cr 0 then vm_set_c0 (Some quit0) else ret tt) ;;
  (if Z.testbit save_cr 1 then vm_set_c1 (Some quit1) else ret tt) ;;
  (if Z.testbit save_cr 2 then vm_set_c2 None else ret tt) ;;
  ret (OrdCont (mkCData rest (mkRegs save0 save1 save2 None None None None) cc_args cp) c).

(** [c1_envelope(cont, save)] *)
Definition c1_envelope (k : Continuation) (save : bool) : M VmState Continuation :=
  r <- gets cr ;;
  let k' := if save then with_cregs (define_c0 (regs_c0 r)) (with_cregs (define_c1 (regs_c1 r)) k)
            else k in
  vm_set_c1 (Some k') ;; ret k'.
Definition c1_envelope_if (cond : bool) (k : Continuation) : M VmState Continuation :=
  if cond then c1_envelope k true else ret k.
Definition c1_save_set (save : bool) : M VmState unit :=
  k <- get_c0 ;;
  r <- gets cr ;;
  let k' := if save then with_cregs (define_c1 (regs_c1 r)) k else k in
  vm_set_c0 (Some k') ;; vm_set_c1 (Some k').

(** ** Loops *)

Definition vm_repeat (body after : Continuation) (count : Z) : M VmState Z :=
  if count <=? 0 then jump after else jump (RepeatCont body after count).
Definition vm_again (body : Continuation) : M VmState Z := jump (AgainCont body).
Definition vm_until (body after : Continuation) : M VmState Z :=
  (if has_c0 body then ret tt else vm_set_c0 (Some (UntilCont body after))) ;; jump body.
Definition loop_while (cond body after : Continuation) : M VmState Z :=
  (if has_c0 cond then ret tt else vm_set_c0 (Some (WhileCont cond body after true))) ;; jump cond.

(** ** Exceptions *)

Definition throw_exception_arg (excno : Z) (arg : StackEntry) : M VmState Z :=
  modify (set_stack [t_int (Int excno); arg]) ;;
  modify (set_code_field None) ;;
  consume_gas_chk exception_gas_price ;;
  k <- get_c2 ;; jump k.
Definition throw_exception (excno : Z) : M VmState Z :=
  throw_exception_arg excno (t_int (Int 0)).

(** ** Committed state *)

Definition committable (depth_limit : Z) (c : option Cell) : bool :=
  match c with
  | Some c => (get_depth c <=? depth_limit) && (get_cell_level c =? 0)%nat
  | None => false
  end.

Definition try_commit : M VmState bool := fun s =>
  let r := cr s in
  if committable (max_data_depth s) (regs_d0 r) && committable (max_data_depth s) (regs_d1 r) then
    Ret true (set_cstate (mkCommitted (regs_d0 r) (regs_d1 r) true) s)
  else Ret false s.
Definition force_commit : M VmState unit :=
  ok <- try_commit ;; unless_throw ok (VmError Exc_cell_ov).

(** [register_chksgn_call()] and [register_get_extra_balance_call()] *)
Definition register_chksgn_call : M VmState unit :=
  v <- gets global_version ;;
  if 4 <=? v then
    modify (fun s => set_chksgn_counter (chksgn_counter s + 1) s) ;;
    n <- gets chksgn_counter ;;
    if chksgn_free_count <? n then consume_gas chksgn_gas_price
    else modify (fun s => set_free_gas_consumed (free_gas_consumed s + chksgn_gas_price) s)
  else ret tt.

(** ** Starting a machine *)

(** The registers after [init_cregs(same_c3, push_0)], with [c4] and [c7] given. *)
Definition init_cregs (same_c3 : bool) (code : option CellSlice) (cp : Z)
    (data : option Cell) (c7 : option Tuple) : ControlRegs :=
  let empty_cell := DataCell false [] [] in
  mkRegs (Some quit0) (Some quit1) (Some ExcQuitCont)
    (Some (if same_c3 then ord_cont code cp else QuitCont 11))
    (Some (default empty_cell data)) (Some empty_cell) (Some (default [] c7)).

(** The constructor [VmState(code, version, stack, gas, flags, data, log, libraries, c7)]. *)
Definition new_vm (code : option CellSlice) (version : Z) (stk : Stack) (g : GasLimits)
    (flags : Z) (data : option Cell) (libs : list Cell) (c7 : option Tuple) : VmState :=
  let same_c3 := Z.testbit flags 0 in
  let push_0 := Z.testbit flags 1 in
  mkVm code (if same_c3 && push_0 then t_int (Int 0) :: stk else stk)
    (init_cregs same_c3 code 0 data c7) (mkCommitted None None false) 0 0 g
    libs [] None [] false false None 512 version 0 0 0 None.

(** ** Child machines *)

(** The machine [s] becomes the parent of [n], which takes over its libraries and
    counters; [libs], [loaded_libs] and [cells] were moved out of [s] before. *)
Definition install_child (n : VmState) (libs : list Cell) (loaded_libs cells : list (list bool))
    (p : VmState -> ParentVmState) (s : VmState) : VmState :=
  let n := set_libraries libs n in
  let n := set_loaded_libraries loaded_libs n in
  let n := set_max_library_loads (max_library_loads s) n in
  let n := set_max_data_depth (max_data_depth s) n in
  let n := if isolate_gas (p s) then n else set_loaded_cells cells n in
  let n := set_chksgn_counter (chksgn_counter s) n in
  let n := set_free_gas_consumed (free_gas_consumed s) n in
  let n := set_extra_balance_counter (get_extra_balance_counter s) n in
  let r := gas_remaining (gas s) in
  let n := if 10 <=? global_version s then
             set_gas (new_gas (Z.min (gas_limit (gas n)) r) (Z.min (gas_max (gas n)) r) 0) n
           else n in
  set_parent (Some (p s)) n.

(** [run_child_vm(new_state, ...)]: the child becomes the current machine and the
    current one its parent. *)
Definition run_child_vm (new_state : VmState)
    (return_data return_actions return_gas isolate_gas : bool) (ret_vals : Z) : M VmState unit :=
  v <- gets global_version ;;
  libs <- gets libraries ;;
  loaded_libs <- gets loaded_libraries ;;
  cells <- gets loaded_cells ;;
  (if v <? 10 then modify (set_libraries []) else ret tt) ;;
  modify (set_loaded_libraries []) ;;
  (if isolate_gas then
     free <- gets free_gas_consumed ;;
     consume_gas free ;;
     modify (set_chksgn_counter 0) ;;
     modify (set_extra_balance_counter 0) ;;
     modify (set_free_gas_consumed 0)
   else modify (set_loaded_cells [])) ;;
  (if 10 <=? v then modify (set_libraries []) else ret tt) ;;
  modify (install_child new_state libs loaded_libs cells
    (fun s => mkParent s return_data return_actions return_gas isolate_gas ret_vals)).

(** A cell of the committed state: before version 11 the state of a child that did
    not commit is a pair of null references, and an entry that holds one is outside
    the model. *)
Definition push_committed (absent : bool) (c : option Cell) : M VmState unit :=
  if absent then on_stack push_null
  else c <- of_option c ;; on_stack (push (t_cell c)).

(** [restore_parent_vm(res)] *)
Definition restore_parent_vm (res : Z) : M VmState unit := fun child =>
  match parent child with
  | None => Undef
  | Some p =>
      let s := p_state p in
      let s := set_libraries (libraries child) s in
      let s := set_loaded_libraries (loaded_libraries child) s in
      let s := set_steps (steps s + steps child) s in
      let s := if isolate_gas p then s else set_loaded_cells (loaded_cells child) s in
      let s := set_chksgn_counter (chksgn_counter child) s in
      let s := set_extra_balance_counter (get_extra_balance_counter child) s in
      let s := set_free_gas_consumed (free_gas_consumed child) s in
      (consume_gas (Z.min (gas_consumed (gas child)) (gas_limit (gas child) + 1)) ;;
       let child_depth := depth (stack child) in
       let* (ret_cnt, res) :=
         if (res =? 0) || (res =? 1) then
           if 0 <=? ret_vals p then
             if ret_vals p <=? child_depth then ret (ret_vals p, res)
             else on_stack (push_smallint 0) ;; ret (0, Z.lnot (get_errno Exc_stk_und))
           else ret (child_depth, res)
         else ret (Z.min child_depth 1, res) in
       consume_stack_gas ret_cnt ;;
       on_stack (modify (fun v => take (Z.to_nat ret_cnt) (stack child) ++ v)) ;;
       on_stack (push_smallint res) ;;
       v <- gets global_version ;;
       let absent := (11 <=? v) && negb (committed (cstate child)) in
       (if return_data p then push_committed absent (com_c4 (cstate child)) else ret tt) ;;
       (if return_actions p then push_committed absent (com_c5 (cstate child)) else ret tt) ;;
       (if return_gas p then on_stack (push_smallint (gas_consumed (gas child))) else ret tt)) s
  end.

(** ** The main loop; [table] is the dispatch table of codepage 0 *)

Section main_loop.
Context (table : list OpcodeInstr).

Definition step : M VmState Z :=
  modify (fun s => set_steps (steps s + 1) s) ;;
  c <- gets code ;;
  cs <- of_option c ;;
  if negb (size cs =? 0)%nat then
    cp <- gets cp ;;
    if has_table cp then dispatch table else throw (VmError Exc_inv_opcode)
  else if negb (size_refs cs =? 0)%nat then
    r <- of_option (prefetch_ref 0 cs) ;;
    consume_gas_chk implicit_jmpref_gas_price ;;
    k <- ref_to_cont r ;; jump k
  else
    consume_gas_chk implicit_ret_gas_price ;; vm_ret.

(** The [VmError] that the inner [catch] clauses make of an exception. *)
Definition as_vm_error (e : exc) : option Excno :=
  match e with
  | VmError n => Some n
  | CellWriteError | CellCreateError => Some Exc_cell_ov
  | CellReadError => Some Exc_cell_und
  | _ => None
  end.

(** One round of the loop of [run_inner]: [inl res] is the value of [res] at the end
    of the round, [inr code] a return from the function. *)
Definition run_round : M VmState (Z + Z) := fun s =>
  match (res <- step ;; gas_check ;; ret res) s with
  | Ret res s' => Ret (inl res) s'
  | Undef => Undef
  | Exn e s' =>
      match as_vm_error e with
      | None => Exn e s'
      | Some n =>
          match throw_exception (get_errno n) (set_steps (steps s' + 1) s') with
          | Ret res s'' => Ret (inl res) s''
          | Exn (VmError n2) s'' => Ret (inr (Z.lnot (get_errno n2))) s''
          | Exn e2 s'' => Exn e2 s''
          | Undef => Undef
          end
      end
  end.

(** After the loop: a normal exit ([res] is [~0] or [~1]) commits. *)
Definition finish_run (res : Z) : M VmState Z :=
  if Z.lor res 1 =? -1 then
    ok <- try_commit ;;
    if ok then ret res
    else
      modify (set_stack [t_int (Int 0)]) ;; ret (Z.lnot (get_errno Exc_cell_ov))
  else ret res.

(** [run_inner()]; [None]: not finished within [fuel] rounds. *)
Fixpoint run_inner (fuel : nat) (s : VmState) : option (res VmState Z) :=
  match fuel with
  | O => None
  | S fuel' =>
      match run_round s with
      | Ret (inl res) s' => if res =? 0 then run_inner fuel' s' else Some (finish_run res s')
      | Ret (inr code) s' => Some (Ret code s')
      | Exn e s' => Some (Exn e s')
      | Undef => Some Undef
      end
  end.

(** [run()]: run the machine, then its parents. *)
Definition out_of_gas_exit (s : VmState) : res VmState Z :=
  Ret (get_errno Exc_out_of_gas)
    (set_stack [t_int (Int (gas_consumed (gas s)))] (set_steps (steps s + 1) s)).

Fixpoint run_loop (fuel : nat) (restore : option Z) (s : VmState) : option (res VmState Z) :=
  match fuel with
  | O => None
  | S fuel' =>
      let r0 := match restore with
                | Some res => restore_parent_vm (Z.lnot res) s
                | None => Ret tt s
                end in
      let r1 := match r0 with
                | Ret _ s1 => run_inner fuel s1
                | Exn e s1 => Some (Exn e s1)
                | Undef => Some Undef
                end in
      let r2 := match r1 with
                | Some (Exn VmNoGas s2) => Some (out_of_gas_exit s2)
                | r => r
                end in
      match r2 with
      | Some (Ret res s3) =>
          match parent s3 with
          | None => Some (Ret res s3)
          | Some _ => run_loop fuel' (Some res) s3
          end
      | r => r
      end
  end.

Definition run (fuel : nat) (s : VmState) : option (res VmState Z) :=
  match code s with
  | None => Some (Ret (get_errno Exc_fatal) s)
  | Some _ => run_loop fuel None s
  end.
End main_loop.
End machine.
