(* ===== verification/ContOps.v ===== *)
(** * Continuation and control flow primitives (crypto/vm/contops.cpp)

    Every [exec_*] handler of the file, and the part of codepage 0 that
    [register_continuation_ops] and [register_codepage_ops] fill. *)
From S2P Require Import Prelude BigInt Int256 Cells DataCell VmTypes Stack OpcodeTable StackOps Vm.

Section cont_ops.
Context `{Sha256} `{LibDict}.

(** [((args + 1) & 15) - 1] *)
Definition nibble_or_all (args : Z) : Z := Z.land (args + 1) 15 - 1.

Definition push_cont (k : Continuation) : M Stack unit := push (t_vmcont k).
(** [push_code()]: a null code reference gives an entry outside the model. *)
Definition push_code : M VmState unit := cs <- code_slice ;; on_stack (push (t_slice cs)).

(** ** Jumps and calls *)

Definition exec_execute : M VmState Z := k <- on_stack pop_cont ;; call k.
Definition exec_callx_args (args : Z) : M VmState Z :=
  let params := nibble 4 args in let retvals := Z.land args 15 in
  k <- on_stack pop_cont ;; call_args k params retvals.
Definition exec_callx_args_p (args : Z) : M VmState Z :=
  let params := Z.land args 15 in
  k <- on_stack pop_cont ;; call_args k params (-1).
Definition exec_jmpx : M VmState Z := k <- on_stack pop_cont ;; jump k.
Definition exec_jmpx_args (args : Z) : M VmState Z :=
  let params := Z.land args 15 in
  k <- on_stack pop_cont ;; jump_args k params.
Definition exec_ret : M VmState Z := vm_ret.
Definition exec_ret_args (args : Z) : M VmState Z :=
  let params := Z.land args 15 in vm_ret_args params.
Definition exec_ret_alt : M VmState Z := vm_ret_alt.
Definition exec_ret_bool : M VmState Z :=
  b <- on_stack pop_bool ;; if b then vm_ret else vm_ret_alt.

Definition exec_callcc : M VmState Z :=
  k <- on_stack pop_cont ;;
  cc <- extract_cc 3 (-1) (-1) ;;
  on_stack (push_cont cc) ;;
  jump k.
Definition exec_jmpx_data : M VmState Z :=
  k <- on_stack pop_cont ;; push_code ;; jump k.
Definition exec_callcc_args (args : Z) : M VmState Z :=
  let params := nibble 4 args in let retvals := nibble_or_all args in
  k <- on_stack (check_underflow [params + 1] ;; pop_cont) ;;
  cc <- extract_cc 3 params retvals ;;
  on_stack (push_cont cc) ;;
  jump k.
Definition exec_callx_varargs : M VmState Z :=
  let* (retvals, params, k) :=
    on_stack (check_underflow [3] ;; retvals <- pop_smallint_range 254 (-1) ;;
              params <- pop_smallint_range 254 (-1) ;; k <- pop_cont ;; ret (retvals, params, k)) in
  call_args k params retvals.
Definition exec_ret_varargs : M VmState Z :=
  retvals <- on_stack (pop_smallint_range 254 (-1)) ;; vm_ret_args retvals.
Definition exec_jmpx_varargs : M VmState Z :=
  let* (params, k) :=
    on_stack (check_underflow [2] ;; params <- pop_smallint_range 254 (-1) ;;
              check_underflow [params + 1] ;; k <- pop_cont ;; ret (params, k)) in
  jump_args k params.
Definition exec_callcc_varargs : M VmState Z :=
  let* (retvals, params, k) :=
    on_stack (check_underflow [3] ;; retvals <- pop_smallint_range 254 (-1) ;;
              params <- pop_smallint_range 254 (-1) ;;
              check_underflow [params + 1] ;; k <- pop_cont ;; ret (retvals, params, k)) in
  cc <- extract_cc 3 params retvals ;;
  on_stack (push_cont cc) ;;
  jump k.

(** [if (!cs.have_refs(n)) throw; cs.advance(pfx_bits)] *)
Definition need_refs (n : nat) (pfx_bits : Z) : M VmState unit :=
  cs <- code_slice ;;
  unless_throw (have_refs n cs) (VmError Exc_inv_opcode) ;;
  code_advance pfx_bits.
(** [cs.fetch_ref()] on the code *)
Definition code_fetch_ref : M VmState Cell :=
  cs <- code_slice ;;
  let* (c, cs') := of_option (fetch_ref cs) in
  put_code cs' ;; ret c.

Definition exec_do_with_ref (func : Continuation -> M VmState Z) (args pfx_bits : Z)
    : M VmState Z :=
  need_refs 1 pfx_bits ;;
  c <- code_fetch_ref ;;
  k <- ref_to_cont c ;; func k.
Definition exec_do_with_cell (func : Cell -> M VmState Z) (args pfx_bits : Z) : M VmState Z :=
  need_refs 1 pfx_bits ;;
  c <- code_fetch_ref ;; func c.

Definition exec_ifelse_ref (mode : bool) (args pfx_bits : Z) : M VmState Z :=
  need_refs 1 pfx_bits ;;
  c <- code_fetch_ref ;;
  let* (k, b) := on_stack (check_underflow [2] ;; k <- pop_cont ;; b <- pop_bool ;; ret (k, b)) in
  k' <- (if Bool.eqb b mode then ref_to_cont c else ret k) ;;
  call k'.
Definition exec_ifref_elseref (args pfx_bits : Z) : M VmState Z :=
  need_refs 2 pfx_bits ;;
  c1 <- code_fetch_ref ;;
  c2 <- code_fetch_ref ;;
  b <- on_stack pop_bool ;;
  k <- ref_to_cont (if b then c1 else c2) ;; call k.
Definition exec_ret_data : M VmState Z := push_code ;; vm_ret.

(** ** Child machines *)

(** [n] entries popped one by one, top first. *)
Definition pop_block (n : Z) : M Stack Stack := fun v =>
  if n <=? depth v then Ret (take (Z.to_nat n) v) (drop (Z.to_nat n) v) else Undef.

Definition exec_runvm_common (mode : Z) : M VmState Z :=
  unless_throw (mode <? 512) (VmError Exc_range_chk) ;;
  consume_gas runvm_gas_price ;;
  let bit n := Z.testbit mode n in
  gas_max <- (if bit 6 then on_stack (pop_long_range gas_infty 0) else ret gas_infty) ;;
  gas_limit <- (if bit 3 then on_stack (pop_long_range gas_infty 0) else ret gas_infty) ;;
  let gas_max := if bit 6 then Z.max gas_max gas_limit else gas_limit in
  c7 <- (if bit 4 then t <- on_stack pop_tuple ;; ret (Some t) else ret None) ;;
  data <- (if bit 2 then c <- on_stack pop_cell ;; ret (Some c) else ret None) ;;
  ret_vals <- (if bit 8 then on_stack (pop_smallint_range (2 ^ 30) 0) else ret (-1)) ;;
  code <- on_stack pop_cellslice ;;
  d <- gets (fun s => depth (stack s)) ;;
  stack_size <- on_stack (pop_smallint_range (d - 1) 0) ;;
  new_stack <- on_stack (pop_block stack_size) ;;
  consume_stack_gas (depth new_stack) ;;
  r <- gets (fun s => gas_remaining (gas s)) ;;
  v <- gets global_version ;;
  always <- gets chksig_always_succeed ;;
  let g := new_gas (Z.min gas_limit r) (Z.min gas_max r) 0 in
  let new_state := set_chksig always (new_vm (Some code) v new_stack g (Z.land mode 3) data [] c7) in
  run_child_vm new_state (bit 2) (bit 5) (bit 3) (bit 7) ret_vals ;;
  ret 0.
Definition exec_runvm (args : Z) : M VmState Z := exec_runvm_common (Z.land args 4095).
Definition exec_runvmx : M VmState Z :=
  mode <- on_stack (pop_smallint_range 4095 0) ;; exec_runvm_common mode.

Definition register_continuation_jump_ops : list (option OpcodeInstr) :=
  [ mksimple 0xd8 8 exec_execute; mksimple 0xd9 8 exec_jmpx;
    mkfixed 0xda 8 8 exec_callx_args; mkfixed 0xdb0 12 4 exec_callx_args_p;
    mkfixed 0xdb1 12 4 exec_jmpx_args; mkfixed 0xdb2 12 4 exec_ret_args;
    mksimple 0xdb30 16 exec_ret; mksimple 0xdb31 16 exec_ret_alt;
    mksimple 0xdb32 16 exec_ret_bool; mksimple 0xdb34 16 exec_callcc;
    mksimple 0xdb35 16 exec_jmpx_data; mkfixed 0xdb36 16 8 exec_callcc_args;
    mksimple 0xdb38 16 exec_callx_varargs; mksimple 0xdb39 16 exec_ret_varargs;
    mksimple 0xdb3a 16 exec_jmpx_varargs; mksimple 0xdb3b 16 exec_callcc_varargs;
    mkext 0xdb3c 16 0 (exec_do_with_ref call); mkext 0xdb3d 16 0 (exec_do_with_ref jump);
    mkext 0xdb3e 16 0 (exec_do_with_ref (fun k => push_code ;; jump k));
    mksimple 0xdb3f 16 exec_ret_data;
    require_version 4 (mkfixed 0xdb4 12 12 exec_runvm);
    require_version 4 (mksimple 0xdb50 16 exec_runvmx) ].

(** ** Conditionals *)

Definition pop_cont_bool : M Stack (Continuation * bool) :=
  check_underflow [2] ;; k <- pop_cont ;; b <- pop_bool ;; ret (k, b).

Definition exec_if : M VmState Z :=
  let* (k, b) := on_stack pop_cont_bool in if b then call k else ret 0.
Definition exec_ifnot : M VmState Z :=
  let* (k, b) := on_stack pop_cont_bool in if negb b then call k else ret 0.
Definition exec_if_jmp : M VmState Z :=
  let* (k, b) := on_stack pop_cont_bool in if b then jump k else ret 0.
Definition exec_ifnot_jmp : M VmState Z :=
  let* (k, b) := on_stack pop_cont_bool in if negb b then jump k else ret 0.
Definition exec_ifret : M VmState Z := b <- on_stack pop_bool ;; if b then vm_ret else ret 0.
Definition exec_ifnotret : M VmState Z :=
  b <- on_stack pop_bool ;; if negb b then vm_ret else ret 0.
Definition exec_if_else : M VmState Z :=
  let* (k0, k1, b) :=
    on_stack (check_underflow [3] ;; k0 <- pop_cont ;; k1 <- pop_cont ;;
              b <- pop_bool ;; ret (k0, k1, b)) in
  call (if b then k1 else k0).
Definition exec_condsel : M VmState Z :=
  stack_op (check_underflow [3] ;; y <- pop ;; x <- pop ;; b <- pop_bool ;;
            push (if b then x else y)).

(** [StackEntry::type()] as a number. *)
Definition entry_type (e : StackEntry) : Z :=
  match e with
  | t_null => 0 | t_int _ => 1 | t_cell _ => 2 | t_builder _ => 3 | t_slice _ => 4
  | t_vmcont _ => 5 | t_tuple _ => 6 | t_stack _ => 7 | t_string _ => 8 | t_bytes _ => 9
  | t_bitstring _ => 10 | t_box _ => 11 | t_atom _ => 12 | t_object _ => 13
  end.
Definition exec_condsel_chk : M VmState Z :=
  stack_op (check_underflow [3] ;; y <- pop ;; x <- pop ;;
            unless_throw (entry_type x =? entry_type y) type_chk ;;
            b <- pop_bool ;; push (if b then x else y)).
Definition exec_ifretalt : M VmState Z :=
  b <- on_stack pop_bool ;; if b then vm_ret_alt else ret 0.
Definition exec_ifnotretalt : M VmState Z :=
  b <- on_stack pop_bool ;; if negb b then vm_ret_alt else ret 0.

Definition int_get_bit (x : int256) (bit : Z) : bool :=
  match x with Int z => Z.testbit z bit | NaN => false end.
Definition exec_if_bit_jmp (args : Z) : M VmState Z :=
  let negate := Z.testbit args 5 in let bit := Z.land args 31 in
  let* (k, val) :=
    on_stack (check_underflow [2] ;; k <- pop_cont ;; x <- pop_int_finite ;;
              push_int x ;; ret (k, int_get_bit x bit)) in
  if xorb val negate then jump k else ret 0.
Definition exec_if_bit_jmpref (args pfx_bits : Z) : M VmState Z :=
  need_refs 1 pfx_bits ;;
  c <- code_fetch_ref ;;
  let negate := Z.testbit args 5 in let bit := Z.land args 31 in
  val <- on_stack (x <- pop_int_finite ;; push_int x ;; ret (int_get_bit x bit)) ;;
  if xorb val negate then k <- ref_to_cont c ;; jump k else ret 0.

(** ** Loops *)

Definition int_max : Z := 2 ^ 31 - 1.
Definition int_min : Z := - 2 ^ 31.

Definition exec_repeat (brk : bool) : M VmState Z :=
  let* (k, c) :=
    on_stack (check_underflow [2] ;; k <- pop_cont ;;
              c <- pop_smallint_range int_max int_min ;; ret (k, c)) in
  if c <=? 0 then ret 0
  else cc <- extract_cc 1 (-1) (-1) ;; after <- c1_envelope_if brk cc ;; vm_repeat k after c.
Definition exec_repeat_end (brk : bool) : M VmState Z :=
  c <- on_stack (check_underflow [1] ;; pop_smallint_range int_max int_min) ;;
  if c <=? 0 then vm_ret
  else
    k <- extract_cc 0 (-1) (-1) ;;
    c0 <- get_c0 ;; after <- c1_envelope_if brk c0 ;; vm_repeat k after c.
Definition exec_until (brk : bool) : M VmState Z :=
  k <- on_stack pop_cont ;;
  cc <- extract_cc 1 (-1) (-1) ;; after <- c1_envelope_if brk cc ;; vm_until k after.
Definition exec_until_end (brk : bool) : M VmState Z :=
  k <- extract_cc 0 (-1) (-1) ;;
  c0 <- get_c0 ;; after <- c1_envelope_if brk c0 ;; vm_until k after.
Definition exec_while (brk : bool) : M VmState Z :=
  let* (body, cond) :=
    on_stack (check_underflow [2] ;; body <- pop_cont ;; cond <- pop_cont ;; ret (body, cond)) in
  cc <- extract_cc 1 (-1) (-1) ;; after <- c1_envelope_if brk cc ;; loop_while cond body after.
Definition exec_while_end (brk : bool) : M VmState Z :=
  cond <- on_stack pop_cont ;;
  body <- extract_cc 0 (-1) (-1) ;;
  c0 <- get_c0 ;; after <- c1_envelope_if brk c0 ;; loop_while cond body after.
Definition exec_again (brk : bool) : M VmState Z :=
  (if brk then cc <- extract_cc 3 (-1) (-1) ;; vm_set_c1 (Some cc) else ret tt) ;;
  k <- on_stack pop_cont ;; vm_again k.
Definition exec_again_end (brk : bool) : M VmState Z :=
  (if brk then c1_save_set true else ret tt) ;;
  k <- extract_cc 0 (-1) (-1) ;; vm_again k.

(** IFREF, IFNOTREF, IFJMPREF, IFNOTJMPREF *)
Definition if_cell (cond : bool) (go : Continuation -> M VmState Z) (c : Cell) : M VmState Z :=
  b <- on_stack pop_bool ;;
  if Bool.eqb b cond then k <- ref_to_cont c ;; go k else ret 0.

Definition register_continuation_cond_loop_ops : list (option OpcodeInstr) :=
  [ mksimple 0xdc 8 exec_ifret; mksimple 0xdd 8 exec_ifnotret;
    mksimple 0xde 8 exec_if; mksimple 0xdf 8 exec_ifnot;
    mksimple 0xe0 8 exec_if_jmp; mksimple 0xe1 8 exec_ifnot_jmp; mksimple 0xe2 8 exec_if_else;
    mkext 0xe300 16 0 (exec_do_with_cell (if_cell true call));
    mkext 0xe301 16 0 (exec_do_with_cell (if_cell false call));
    mkext 0xe302 16 0 (exec_do_with_cell (if_cell true jump));
    mkext 0xe303 16 0 (exec_do_with_cell (if_cell false jump));
    mksimple 0xe304 16 exec_condsel; mksimple 0xe305 16 exec_condsel_chk;
    mksimple 0xe308 16 exec_ifretalt; mksimple 0xe309 16 exec_ifnotretalt;
    mkext 0xe30d 16 0 (exec_ifelse_ref true); mkext 0xe30e 16 0 (exec_ifelse_ref false);
    mkext 0xe30f 16 0 exec_ifref_elseref;
    mkfixed (Z.shiftr 0xe380 6) 10 6 exec_if_bit_jmp;
    mkext (Z.shiftr 0xe3c0 6) 10 6 exec_if_bit_jmpref;
    mksimple 0xe4 8 (exec_repeat false); mksimple 0xe5 8 (exec_repeat_end false);
    mksimple 0xe6 8 (exec_until false); mksimple 0xe7 8 (exec_until_end false);
    mksimple 0xe8 8 (exec_while false); mksimple 0xe9 8 (exec_while_end false);
    mksimple 0xea 8 (exec_again false); mksimple 0xeb 8 (exec_again_end false);
    mksimple 0xe314 16 (exec_repeat true); mksimple 0xe315 16 (exec_repeat_end true);
    mksimple 0xe316 16 (exec_until true); mksimple 0xe317 16 (exec_until_end true);
    mksimple 0xe318 16 (exec_while true); mksimple 0xe319 16 (exec_while_end true);
    mksimple 0xe31a 16 (exec_again true); mksimple 0xe31b 16 (exec_again_end true) ].

(** ** Arguments of continuations *)

Definition stk_ov : exc := VmError Exc_stk_ov.
Definition set_nargs (n : Z) (d : ControlData) : ControlData :=
  let 'mkCData st r _ c := d in mkCData st r n c.
Definition set_cdata_stack (st : option Stack) (d : ControlData) : ControlData :=
  let 'mkCData _ r n c := d in mkCData st r n c.

(** [copy] arguments are passed now. *)
Definition use_nargs (copy : Z) (d : ControlData) : ControlData :=
  if 0 <=? cdata_nargs d then set_nargs (cdata_nargs d - copy) d else d.
(** [more] arguments are still accepted; 0x40000000 will cause a stack underflow. *)
Definition limit_nargs (more : Z) (d : ControlData) : ControlData :=
  if 0 <=? more then
    if more <? cdata_nargs d then set_nargs 0x40000000 d
    else if cdata_nargs d <? 0 then set_nargs more d else d
  else d.

Definition exec_setcontargs_common (copy more : Z) : M VmState Z :=
  k <- on_stack (check_underflow [copy + 1] ;; pop_cont) ;;
  k' <- (if negb (copy =? 0) || (0 <=? more) then
           let (d, wrap) := force_cdata k in
           d <- (if 0 <? copy then
                   unless_throw (negb ((0 <=? cdata_nargs d) && (cdata_nargs d <? copy))) stk_ov ;;
                   st <- match cdata_stack d with
                         | None => o <- on_stack (split_top copy 0) ;; of_option o
                         | Some st => take_from_stack st copy
                         end ;;
                   consume_stack_gas (depth st) ;;
                   ret (use_nargs copy (set_cdata_stack (Some st) d))
                 else ret d) ;;
           ret (wrap (limit_nargs more d))
         else ret k) ;;
  stack_op (push_cont k').
Definition exec_setcontargs (args : Z) : M VmState Z :=
  exec_setcontargs_common (nibble 4 args) (nibble_or_all args).
Definition exec_setcont_varargs : M VmState Z :=
  let* (more, copy) :=
    on_stack (check_underflow [2] ;; more <- pop_smallint_range 255 (-1) ;;
              copy <- pop_smallint_range 255 0 ;; ret (more, copy)) in
  exec_setcontargs_common copy more.
Definition exec_setnum_varargs : M VmState Z :=
  more <- on_stack (check_underflow [2] ;; pop_smallint_range 255 (-1)) ;;
  exec_setcontargs_common 0 more.

Definition exec_return_args_common (count : Z) : M VmState Z :=
  on_stack (check_underflow [count]) ;;
  d <- gets (fun s => depth (stack s)) ;;
  if d =? count then ret 0
  else
    let copy := d - count in
    o <- on_stack (split_top count 0) ;;
    top <- of_option o ;;
    alt_stk <- gets stack ;;
    modify (set_stack top) ;;
    k <- get_c0 ;;
    let (cd, wrap) := force_cdata k in
    unless_throw (negb ((0 <=? cdata_nargs cd) && (cdata_nargs cd <? copy))) stk_ov ;;
    st <- match cdata_stack cd with
          | None => ret alt_stk
          | Some st =>
              match move_from_stack copy (st, alt_stk) with
              | Ret _ (new, _) => ret new
              | Exn e _ => throw e
              | Undef => undef
              end
          end ;;
    consume_stack_gas (depth st) ;;
    vm_set_c0 (Some (wrap (use_nargs copy (set_cdata_stack (Some st) cd)))) ;; ret 0.
Definition exec_return_args (args : Z) : M VmState Z := exec_return_args_common (Z.land args 15).
Definition exec_return_varargs : M VmState Z :=
  count <- on_stack (pop_smallint_range 255 0) ;; exec_return_args_common count.

Definition exec_bless : M VmState Z :=
  cs <- on_stack pop_cellslice ;;
  c <- gets cp ;;
  stack_op (push_cont (ord_cont (Some cs) c)).
Definition exec_bless_args_common (copy more : Z) : M VmState Z :=
  cs <- on_stack (check_underflow [copy + 1] ;; pop_cellslice) ;;
  o <- on_stack (split_top copy 0) ;;
  new_stk <- of_option o ;;
  consume_stack_gas (depth new_stk) ;;
  c <- gets cp ;;
  stack_op (push_cont (OrdCont (mkCData (Some new_stk) empty_regs more c) (Some cs))).
Definition exec_bless_varargs : M VmState Z :=
  let* (more, copy) :=
    on_stack (check_underflow [2] ;; more <- pop_smallint_range 255 (-1) ;;
              copy <- pop_smallint_range 255 0 ;; ret (more, copy)) in
  exec_bless_args_common copy more.
Definition exec_bless_args (args : Z) : M VmState Z :=
  exec_bless_args_common (nibble 4 args) (nibble_or_all args).

(** ** Control registers *)

Definition throw_typechk (ok : bool) : M VmState unit := unless_throw ok type_chk.
Definition throw_rangechk (ok : bool) : M VmState unit := unless_throw ok (VmError Exc_range_chk).

(** [throw_typechk(force_cregs(cont)->define(idx, value, silent))]: the new [cont]. *)
Definition define_in (k : Continuation) (idx : Z) (v : StackEntry) (silent : bool)
    : bool * Continuation :=
  let (d, wrap) := force_cdata k in
  let (ok, r) := regs_define idx v silent (cdata_save d) in (ok, wrap (set_save r d)).
Definition define_chk (k : Continuation) (idx : Z) (v : StackEntry) : M VmState Continuation :=
  version <- gets global_version ;;
  let (ok, k') := define_in k idx v (14 <=? version) in
  throw_typechk ok ;; ret k'.

Definition exec_push_ctr (args : Z) : M VmState Z :=
  v <- vm_get (Z.land args 15) ;; stack_op (push v).
Definition exec_bless_pop_c3 : M VmState Z :=
  c <- on_stack (check_underflow [1] ;; pop_cell) ;;
  k <- ref_to_cont c ;;
  modify_cr (set_c3 (Some k)) ;; ret 0.
Definition exec_pop_ctr (args : Z) : M VmState Z :=
  v <- on_stack pop_chk ;;
  ok <- vm_set (Z.land args 15) v ;; throw_typechk ok ;; ret 0.
Definition exec_setcont_ctr (args : Z) : M VmState Z :=
  k <- on_stack (check_underflow [2] ;; pop_cont) ;;
  v <- on_stack pop_chk ;;
  k' <- define_chk k (Z.land args 15) v ;; stack_op (push_cont k').
Definition exec_setret_ctr (args : Z) : M VmState Z :=
  k <- get_c0 ;;
  v <- on_stack pop_chk ;;
  k' <- define_chk k (Z.land args 15) v ;; vm_set_c0 (Some k') ;; ret 0.
Definition exec_setalt_ctr (args : Z) : M VmState Z :=
  k <- get_c1 ;;
  v <- on_stack pop_chk ;;
  k' <- define_chk k (Z.land args 15) v ;; vm_set_c1 (Some k') ;; ret 0.
Definition exec_popsave_ctr (args : Z) : M VmState Z :=
  let idx := Z.land args 15 in
  val <- on_stack pop_chk ;;
  c0 <- get_c0 ;;
  throw_typechk (negb (idx =? 0) || (entry_type val =? 5)) ;;
  cur <- vm_get idx ;;
  let (_, c0') := define_in c0 idx cur false in
  if idx =? 0 then
    vm_set_c0 (Some c0') ;; ok <- vm_set idx val ;; throw_typechk ok ;; ret 0
  else
    ok <- vm_set idx val ;; throw_typechk ok ;; vm_set_c0 (Some c0') ;; ret 0.
Definition exec_save_ctr (args : Z) : M VmState Z :=
  let idx := Z.land args 15 in
  c0 <- get_c0 ;;
  cur <- vm_get idx ;;
  k <- define_chk c0 idx cur ;; vm_set_c0 (Some k) ;; ret 0.
Definition exec_samealt (save : bool) : M VmState Z :=
  c0 <- get_c0 ;;
  k <- (if save then
          r <- gets cr ;;
          let k := with_cregs (define_c1 (regs_c1 r)) c0 in
          vm_set_c0 (Some k) ;; ret k
        else ret c0) ;;
  vm_set_c1 (Some k) ;; ret 0.
Definition exec_savealt_ctr (args : Z) : M VmState Z :=
  let idx := Z.land args 15 in
  c1 <- get_c1 ;;
  cur <- vm_get idx ;;
  k <- define_chk c1 idx cur ;; vm_set_c1 (Some k) ;; ret 0.
Definition exec_saveboth_ctr (args : Z) : M VmState Z :=
  let idx := Z.land args 15 in
  c0 <- get_c0 ;; c1 <- get_c1 ;;
  val <- vm_get idx ;;
  let (_, c0') := define_in c0 idx val false in
  let (_, c1') := define_in c1 idx val false in
  vm_set_c0 (Some c0') ;; vm_set_c1 (Some c1') ;; ret 0.
Definition exec_push_ctr_var : M VmState Z :=
  idx <- on_stack (pop_smallint_range 16 0) ;;
  val <- vm_get idx ;;
  throw_rangechk (negb (entry_type val =? 0)) ;; stack_op (push val).
Definition exec_pop_ctr_var : M VmState Z :=
  idx <- on_stack (check_underflow [2] ;; pop_smallint_range 16 0) ;;
  throw_rangechk (valid_idx idx) ;;
  v <- on_stack pop_chk ;;
  ok <- vm_set idx v ;; throw_typechk ok ;; ret 0.
Definition exec_setcont_ctr_var : M VmState Z :=
  idx <- on_stack (check_underflow [3] ;; pop_smallint_range 16 0) ;;
  throw_rangechk (valid_idx idx) ;;
  k <- on_stack pop_cont ;;
  v <- on_stack pop_chk ;;
  k' <- define_chk k idx v ;; stack_op (push_cont k').

Fixpoint define_many (idxs : list Z) (mask : Z) (k : Continuation) : M VmState Continuation :=
  match idxs with
  | [] => ret k
  | i :: idxs' =>
      if Z.testbit mask i then
        v <- vm_get i ;; k' <- define_chk k i v ;; define_many idxs' mask k'
      else define_many idxs' mask k
  end.
Definition exec_setcont_ctr_many (args : Z) : M VmState Z :=
  let mask := low_byte args in
  throw_rangechk (negb (Z.testbit mask 6)) ;;
  k <- on_stack pop_cont ;;
  k' <- define_many [0; 1; 2; 3; 4; 5; 6; 7] mask k ;; stack_op (push_cont k').
Definition exec_setcont_ctr_many_var : M VmState Z :=
  mask <- on_stack (check_underflow [2] ;; pop_smallint_range 255 0) ;;
  throw_rangechk (negb (Z.testbit mask 6)) ;;
  k <- on_stack pop_cont ;;
  k' <- define_many [0; 1; 2; 3; 4; 5; 6; 7] mask k ;; stack_op (push_cont k').

Definition exec_compos (mask : Z) : M VmState Z :=
  let* (val, k) :=
    on_stack (check_underflow [2] ;; val <- pop_cont ;; k <- pop_cont ;; ret (val, k)) in
  let v := Some val in
  let f := match mask with
           | 1 => define_c0 v
           | 3 => fun r => define_c1 v (define_c0 v r)
           | 2 => define_c1 v
           | _ => fun r => r
           end in
  stack_op (push_cont (with_cregs f k)).
Definition exec_atexit : M VmState Z :=
  k <- on_stack pop_cont ;; r <- gets cr ;;
  vm_set_c0 (Some (with_cregs (define_c0 (regs_c0 r)) k)) ;; ret 0.
Definition exec_atexit_alt : M VmState Z :=
  k <- on_stack pop_cont ;; r <- gets cr ;;
  vm_set_c1 (Some (with_cregs (define_c1 (regs_c1 r)) k)) ;; ret 0.
Definition exec_setexit_alt : M VmState Z :=
  k <- on_stack pop_cont ;; r <- gets cr ;;
  vm_set_c1 (Some (with_cregs (fun x => define_c1 (regs_c1 r) (define_c0 (regs_c0 r) x)) k)) ;; ret 0.
Definition exec_thenret : M VmState Z :=
  k <- on_stack pop_cont ;; r <- gets cr ;;
  stack_op (push_cont (with_cregs (define_c0 (regs_c0 r)) k)).
Definition exec_thenret_alt : M VmState Z :=
  k <- on_stack pop_cont ;; r <- gets cr ;;
  stack_op (push_cont (with_cregs (define_c0 (regs_c1 r)) k)).
Definition exec_invert : M VmState Z :=
  r <- gets cr ;; vm_set_c0 (regs_c1 r) ;; vm_set_c1 (regs_c0 r) ;; ret 0.
Definition exec_booleval : M VmState Z :=
  k <- on_stack pop_cont ;;
  cc <- extract_cc 3 (-1) (-1) ;;
  vm_set_c0 (Some (PushIntCont (-1) cc)) ;;
  vm_set_c1 (Some (PushIntCont 0 cc)) ;;
  jump k.

Definition reg_ctr_oprange (opcode : Z) (exec_ctr : Z -> M VmState Z) : list (option OpcodeInstr) :=
  [ mkfixedrange opcode (opcode + 4) 16 4 exec_ctr;
    mkfixedrange (opcode + 4) (opcode + 6) 16 4 exec_ctr;
    mkfixedrange (opcode + 7) (opcode + 8) 16 4 exec_ctr ].

Definition register_continuation_change_ops : list (option OpcodeInstr) :=
  [ mkfixed 0xec 8 8 exec_setcontargs; mkfixed 0xed0 12 4 exec_return_args;
    mksimple 0xed10 16 exec_return_varargs; mksimple 0xed11 16 exec_setcont_varargs;
    mksimple 0xed12 16 exec_setnum_varargs; mksimple 0xed1e 16 exec_bless;
    mksimple 0xed1f 16 exec_bless_varargs ] ++
  reg_ctr_oprange 0xed40 exec_push_ctr ++ reg_ctr_oprange 0xed50 exec_pop_ctr ++
  reg_ctr_oprange 0xed60 exec_setcont_ctr ++ reg_ctr_oprange 0xed70 exec_setret_ctr ++
  reg_ctr_oprange 0xed80 exec_setalt_ctr ++ reg_ctr_oprange 0xed90 exec_popsave_ctr ++
  reg_ctr_oprange 0xeda0 exec_save_ctr ++ reg_ctr_oprange 0xedb0 exec_savealt_ctr ++
  reg_ctr_oprange 0xedc0 exec_saveboth_ctr ++
  [ mksimple 0xede0 16 exec_push_ctr_var; mksimple 0xede1 16 exec_pop_ctr_var;
    mksimple 0xede2 16 exec_setcont_ctr_var;
    require_version 9 (mkfixed 0xede3 16 8 exec_setcont_ctr_many);
    require_version 9 (mksimple 0xede4 16 exec_setcont_ctr_many_var);
    mksimple 0xedf0 16 (exec_compos 1); mksimple 0xedf1 16 (exec_compos 2);
    mksimple 0xedf2 16 (exec_compos 3); mksimple 0xedf3 16 exec_atexit;
    mksimple 0xedf4 16 exec_atexit_alt; mksimple 0xedf5 16 exec_setexit_alt;
    mksimple 0xedf6 16 exec_thenret; mksimple 0xedf7 16 exec_thenret_alt;
    mksimple 0xedf8 16 exec_invert; mksimple 0xedf9 16 exec_booleval;
    mksimple 0xedfa 16 (exec_samealt false); mksimple 0xedfb 16 (exec_samealt true);
    mkfixed 0xee 8 8 exec_bless_args ].

(** ** Calls through c3 *)

Definition exec_calldict_short (args : Z) : M VmState Z :=
  on_stack (push_smallint (Z.land args 255)) ;; k <- get_c3 ;; call k.
Definition exec_calldict (args : Z) : M VmState Z :=
  on_stack (push_smallint (Z.land args 0x3fff)) ;; k <- get_c3 ;; call k.
Definition exec_jmpdict (args : Z) : M VmState Z :=
  on_stack (push_smallint (Z.land args 0x3fff)) ;; k <- get_c3 ;; jump k.
Definition exec_preparedict (args : Z) : M VmState Z :=
  on_stack (push_smallint (Z.land args 0x3fff)) ;; k <- get_c3 ;; stack_op (push_cont k).

Definition register_continuation_dict_jump_ops : list (option OpcodeInstr) :=
  [ mkfixed 0xf0 8 8 exec_calldict_short; mkfixed (Z.shiftr 0xf100 6) 10 14 exec_calldict;
    mkfixed (Z.shiftr 0xf140 6) 10 14 exec_jmpdict;
    mkfixed (Z.shiftr 0xf180 6) 10 14 exec_preparedict ].

(** ** Exceptions *)

Definition exec_throw_fixed (mask mode args : Z) : M VmState Z :=
  let excno := Z.land args mask in
  b <- (if mode =? 0 then ret true
        else b <- on_stack pop_bool ;; ret (Bool.eqb b (Z.testbit mode 0))) ;;
  if b then throw_exception excno else ret 0.
Definition exec_throw_arg_fixed (mask mode args : Z) : M VmState Z :=
  let excno := Z.land args mask in
  b <- on_stack (check_underflow [if mode =? 0 then 1 else 2] ;;
                 if mode =? 0 then ret true
                 else b <- pop_bool ;; ret (Bool.eqb b (Z.testbit mode 0))) ;;
  arg <- on_stack pop ;;
  if b then throw_exception_arg excno arg else ret 0.
Definition exec_throw_any (args : Z) : M VmState Z :=
  let has_param := Z.testbit args 0 in
  let has_cond := negb (Z.land args 6 =? 0) in
  let throw_cond := Z.testbit args 1 in
  let* (flag, excno) :=
    on_stack (check_underflow [1 + Z.b2z has_cond + Z.b2z has_param] ;;
              flag <- (if has_cond then pop_bool else ret throw_cond) ;;
              excno <- pop_smallint_range 65535 0 ;; ret (flag, excno)) in
  if negb (Bool.eqb flag throw_cond) then
    (if has_param then on_stack pop ;; ret 0 else ret 0)
  else if has_param then arg <- on_stack pop ;; throw_exception_arg excno arg
  else throw_exception excno.

(** [exec_try(args)]; TRY passes [-1]. *)
Definition exec_try (args : Z) : M VmState Z :=
  let params := nibble 4 args in let retvals := Z.land args 15 in
  let* (handler, k) :=
    on_stack (check_underflow [if 0 <=? args then params + 2 else 2] ;;
              h <- pop_cont ;; k <- pop_cont ;; ret (h, k)) in
  old_c2 <- gets (fun s => regs_c2 (cr s)) ;;
  cc <- (if 0 <=? args then extract_cc 7 params retvals else extract_cc 7 (-1) (-1)) ;;
  let handler := with_cregs (fun r => define_c0 (Some cc) (define_c2 old_c2 r)) handler in
  vm_set_c0 (Some cc) ;;
  vm_set_c2 (Some handler) ;;
  jump k.

Definition register_exception_ops : list (option OpcodeInstr) :=
  [ mkfixed (Z.shiftr 0xf200 6) 10 6 (exec_throw_fixed 63 0);
    mkfixed (Z.shiftr 0xf240 6) 10 6 (exec_throw_fixed 63 3);
    mkfixed (Z.shiftr 0xf280 6) 10 6 (exec_throw_fixed 63 2);
    mkfixed (Z.shiftr 0xf2c0 3) 13 11 (exec_throw_fixed 0x7ff 0);
    mkfixed (Z.shiftr 0xf2c8 3) 13 11 (exec_throw_arg_fixed 0x7ff 0);
    mkfixed (Z.shiftr 0xf2d0 3) 13 11 (exec_throw_fixed 0x7ff 3);
    mkfixed (Z.shiftr 0xf2d8 3) 13 11 (exec_throw_arg_fixed 0x7ff 3);
    mkfixed (Z.shiftr 0xf2e0 3) 13 11 (exec_throw_fixed 0x7ff 2);
    mkfixed (Z.shiftr 0xf2e8 3) 13 11 (exec_throw_arg_fixed 0x7ff 2);
    mkfixedrange 0xf2f0 0xf2f6 16 3 exec_throw_any;
    mksimple 0xf2ff 16 (exec_try (-1)); mkfixed 0xf3 8 8 exec_try ].

(** ** Codepages *)

Definition exec_set_cp_generic (new_codepage : Z) : M VmState Z := force_cp new_codepage ;; ret 0.
Definition exec_set_cp (args : Z) : M VmState Z :=
  exec_set_cp_generic (Z.land (args + 16) 255 - 16).
Definition exec_set_cp_any : M VmState Z :=
  c <- on_stack (pop_smallint_range 32767 (-32768)) ;; exec_set_cp_generic c.

Definition register_codepage_ops : list (option OpcodeInstr) :=
  [ mkfixedrange 0xff00 0xfff0 16 8 exec_set_cp; mkfixedrange 0xfff1 0x10000 16 8 exec_set_cp;
    mksimple 0xfff0 16 exec_set_cp_any ].

Definition register_continuation_ops : list (option OpcodeInstr) :=
  register_continuation_jump_ops ++ register_continuation_cond_loop_ops ++
  register_continuation_change_ops ++ register_continuation_dict_jump_ops ++
  register_exception_ops.
End cont_ops.
