(* ===== verification/DictOps.v ===== *)
(** * Dictionary primitives (crypto/vm/dictops.cpp)

    The handlers of the instructions on dictionaries, over the objects of DictObj.v and
    PfxDict.v run inside of the machine, which charges for the cells that they load and
    create.  A key is [None] where the code has an invalid [BitSlice]. *)
From S2P Require Import Prelude Int256 Cells DataCell Dict DictObj PfxDict VmTypes Stack OpcodeTable StackOps Vm ContOps.

(** ** Cells in the machine, and libraries *)

#[export] Instance vm_cell_io `{Sha256} `{LibDict} : CellIO VmState :=
  { load_cell_slice_ref := load_cell_slice; register_create := register_cell_create }.

(** The lookup of a library: [lookup_library_in] runs outside of the machine, with a
    log of the cells that it loads.  What [Dictionary::lookup] throws is caught. *)
Definition logged_load `{Sha256} (c : Cell) : M (list (list bool)) CellSlice := fun log =>
  let log := log ++ [get_hash c] in
  if cell_special c then Exn (VmError Exc_cell_und) log else Ret (slice_of_cell c) log.
Definition logged_io `{Sha256} : CellIO (list (list bool)) :=
  {| load_cell_slice_ref := logged_load; register_create := ret tt |}.
Definition library_lookup `{Sha256} (key : list bool) (lib_root : Cell) : list (list bool) * option Cell :=
  match @DictObj.lookup _ logged_io key (dictionary_of_cell (Some lib_root) 256) [] with
  | Ret (Some val, _) log => (log, prefetch_ref 0 val)
  | Ret (None, _) log | Exn _ log => (log, None)
  | Undef => ([], None)
  end.
#[export] Instance library_dict `{Sha256} : LibDict := library_lookup.

Section dictops.
Context `{Sha256} `{LibDict}.

(** [args & bit] *)
Definition arg_bit (args : Z) (i : Z) : bool := Z.testbit args i.

Definition push_slice (cs : CellSlice) : M Stack unit := push (t_slice cs).
Definition push_dict (d : Dictionary) : M Stack unit := push_maybe_cell (root_cell d).

(** ** Dictionaries in slices *)

Definition exec_dict_empty : M VmState Z :=
  stack_op (dict <- pop_cellslice ;;
            unless_throw (have 1 dict) (VmError Exc_cell_und) ;;
            push_smallint (Z.lnot (prefetch_long 1 dict))).
Definition exec_store_dict : M VmState Z :=
  stack_op (check_underflow [2] ;; cb <- pop_builder ;; d <- pop_maybe_cell ;;
            match store_maybe_ref d cb with
            | Some cb => push (t_builder cb)
            | None => throw (VmError Exc_cell_ov)
            end).

(** -1 is [None]. *)
Definition dict_nonempty (dict : CellSlice) : option nat :=
  if negb (have 1 dict) then None
  else let res := Z.to_nat (prefetch_ulong 1 dict) in if have_refs res dict then Some res else None.
Definition dict_nonempty_chk (dict : CellSlice) : M Stack nat :=
  match dict_nonempty dict with Some res => ret res | None => throw (VmError Exc_cell_und) end.

Definition exec_skip_dict : M VmState Z :=
  stack_op (dict <- pop_cellslice ;; res <- dict_nonempty_chk dict ;;
            push_slice (default dict (advance_ext 1 res dict))).
Definition exec_load_optref : M VmState Z :=
  stack_op (dict <- pop_cellslice ;; res <- dict_nonempty_chk dict ;;
            let dict := default dict (advance 1 dict) in
            (if (res =? 0)%nat then push_slice dict
             else
               let* (cell, dict) := of_option (fetch_ref dict) in
               push_slice dict ;; push (t_cell cell)) ;;
            push_smallint (- Z.of_nat res)).
Definition exec_preload_optref : M VmState Z :=
  stack_op (dict <- pop_cellslice ;; res <- dict_nonempty_chk dict ;;
            (if (res =? 0)%nat then ret tt
             else c <- of_option (prefetch_ref 0 dict) ;; push (t_cell c)) ;;
            push_smallint (- Z.of_nat res)).
Definition exec_load_dict_slice (args : Z) : M VmState Z :=
  let preload := arg_bit args 0 in let quiet := arg_bit args 1 in
  stack_op (cs <- pop_cellslice ;;
            let res := dict_nonempty cs in
            match res with
            | None =>
                unless_throw quiet (VmError Exc_cell_und) ;;
                (if preload then ret tt else push_slice cs)
            | Some res =>
                if preload then sub <- of_option (prefetch_subslice 1 res cs) ;; push_slice sub
                else
                  let* (sub, cs) := of_option (fetch_subslice 1 res cs) in
                  push_slice sub ;; push_slice cs
            end ;;
            if quiet then push_bool (match res with Some _ => true | None => false end) else ret tt).
Definition exec_load_dict (args : Z) : M VmState Z :=
  let preload := arg_bit args 0 in let quiet := arg_bit args 1 in
  stack_op (cs <- pop_cellslice ;;
            let res := dict_nonempty cs in
            match res with
            | None =>
                unless_throw quiet (VmError Exc_cell_und) ;;
                (if preload then ret tt else push_slice cs)
            | Some res =>
                push_maybe_cell (if (res =? 0)%nat then None else prefetch_ref 0 cs) ;;
                if preload then ret tt else push_slice (default cs (advance_ext 1 res cs))
            end ;;
            if quiet then push_bool (match res with Some _ => true | None => false end) else ret tt).

(** ** Keys and dictionaries from the stack *)

Definition prefetch_bits (n : nat) (cs : CellSlice) : option (list bool) :=
  if have n cs then Some (take n (slice_bits cs)) else None.
(** [integer_key(x, n, sgnd, buffer, quiet = true)] and [integer_key_simple]. *)
Definition integer_key (x : int256) (n : nat) (sgnd : bool) : option (list bool) :=
  match x with
  | NaN => None
  | Int a =>
      if (if sgnd then signed_fits_bits x (Z.of_nat n) else unsigned_fits_bits x (Z.of_nat n))
      then Some (Z_to_bits n a) else None
  end.
Definition integer_key_chk (x : int256) (n : nat) (sgnd : bool) : M Stack (list bool) :=
  match integer_key x n sgnd with Some k => ret k | None => throw (VmError Exc_range_chk) end.

(** [n] and the dictionary, whose constructor checks it. *)
Definition pop_dict (max : Z) : M VmState (nat * Dictionary) :=
  let* (n, c) := on_stack (n <- pop_smallint_range max 0 ;; c <- pop_maybe_cell ;; ret (n, c)) in
  d <- force_validate (dictionary_of_cell c n) ;;
  ret (Z.to_nat n, d).
Definition max_keys : Z := Z.of_nat max_key_bits.

(** A key that must be there. *)
Definition need_key (key : option (list bool)) : M VmState (list bool) :=
  match key with Some key => ret key | None => throw (VmError Exc_cell_und) end.

(** ** Lookup *)

Definition push_found (value : option StackEntry) : M Stack unit :=
  match value with Some e => push e ;; push_smallint (-1) | None => push_smallint 0 end.

Definition exec_dict_get (args : Z) : M VmState Z :=
  on_stack (check_underflow [3]) ;;
  let* (n, dict) := pop_dict max_keys in
  let get key :=
    if arg_bit args 0 then
      let* (value, _) := DictObj.lookup_ref key dict in stack_op (push_found (option_map t_cell value))
    else
      let* (value, _) := DictObj.lookup key dict in stack_op (push_found (option_map t_slice value)) in
  if arg_bit args 2 then
    x <- on_stack pop_int_finite ;;
    match integer_key x n (negb (arg_bit args 1)) with
    | None => stack_op (push_smallint 0)
    | Some key => get key
    end
  else
    cs <- on_stack pop_cellslice ;;
    key <- need_key (prefetch_bits n cs) ;;
    get key.
Definition exec_dict_get_optref (args : Z) : M VmState Z :=
  on_stack (check_underflow [3]) ;;
  let* (n, dict) := pop_dict max_keys in
  let get key := let* (value, _) := DictObj.lookup_ref key dict in stack_op (push_maybe_cell value) in
  if arg_bit args 1 then
    x <- on_stack pop_int_finite ;;
    match integer_key x n (negb (arg_bit args 0)) with
    | None => stack_op push_null
    | Some key => get key
    end
  else
    cs <- on_stack pop_cellslice ;;
    key <- need_key (prefetch_bits n cs) ;;
    get key.

(** ** Insertion *)

(** The key of an insertion: an integer that does not fit throws. *)
Definition pop_key (int sgnd : bool) (n : nat) : M VmState (option (list bool)) :=
  on_stack (if int then x <- pop_int ;; k <- integer_key_chk x n sgnd ;; ret (Some k)
            else cs <- pop_cellslice ;; ret (prefetch_bits n cs)).

(** [args <<= (bld ? 1 : 0)] *)
Definition bld_args (args : Z) (bld : bool) : Z := Z.shiftl args (if bld then 1 else 0).

Definition exec_dict_set (mode : SetMode) (bld : bool) (args : Z) : M VmState Z :=
  let args := bld_args args bld in
  on_stack (check_underflow [4]) ;;
  let* (n, dict) := pop_dict max_keys in
  key <- pop_key (arg_bit args 2) (negb (arg_bit args 1)) n ;;
  let* (res, dict) :=
    if bld then
      new_value <- on_stack pop_builder ;; key <- need_key key ;; set_builder key new_value mode dict
    else if negb (arg_bit args 0) then
      new_value <- on_stack pop_cellslice ;; key <- need_key key ;; DictObj.set key new_value mode dict
    else
      new_value <- on_stack pop_cell ;; key <- need_key key ;; set_ref key new_value mode dict in
  on_stack (push_dict dict) ;;
  match mode with
  | Set_ => unless_throw res VmFatal ;; ret 0
  | _ => stack_op (push_bool res)
  end.

Definition exec_dict_setget (mode : SetMode) (bld : bool) (args : Z) : M VmState Z :=
  let args := bld_args args bld in
  let ok_f := match mode with Add => false | _ => true end in
  let finish (dict : Dictionary) (old : option StackEntry) : M VmState Z :=
    stack_op (push_dict dict ;;
              match old with
              | Some e => push e ;; push_bool ok_f
              | None => push_bool (negb ok_f)
              end) in
  on_stack (check_underflow [4]) ;;
  let* (n, dict) := pop_dict max_keys in
  key <- pop_key (arg_bit args 2) (negb (arg_bit args 1)) n ;;
  if bld then
    new_value <- on_stack pop_builder ;; key <- need_key key ;;
    let* (old, dict) := lookup_set_builder key new_value mode dict in finish dict (option_map t_slice old)
  else if negb (arg_bit args 0) then
    new_value <- on_stack pop_cellslice ;; key <- need_key key ;;
    let* (old, dict) := lookup_set key new_value mode dict in finish dict (option_map t_slice old)
  else
    new_value <- on_stack pop_cell ;; key <- need_key key ;;
    let* (old, dict) := lookup_set_ref key new_value mode dict in finish dict (option_map t_cell old).

Definition exec_dict_setget_optref (args : Z) : M VmState Z :=
  on_stack (check_underflow [4]) ;;
  let* (n, dict) := pop_dict max_keys in
  key <- pop_key (arg_bit args 1) (negb (arg_bit args 0)) n ;;
  new_value <- on_stack pop_maybe_cell ;;
  key <- need_key key ;;
  let* (value, dict) := match new_value with
    | Some c => lookup_set_ref key c Set_ dict
    | None => lookup_delete_ref key dict
    end in
  stack_op (push_dict dict ;; push_maybe_cell value).

(** ** Deletion: an integer key that does not fit throws here as well *)

Definition pop_key_finite (int sgnd : bool) (n : nat) : M VmState (list bool) :=
  if int then on_stack (x <- pop_int_finite ;; integer_key_chk x n sgnd)
  else cs <- on_stack pop_cellslice ;; need_key (prefetch_bits n cs).

Definition exec_dict_delete (args : Z) : M VmState Z :=
  on_stack (check_underflow [3]) ;;
  let* (n, dict) := pop_dict max_keys in
  key <- pop_key_finite (arg_bit args 1) (negb (arg_bit args 0)) n ;;
  let* (res, dict) := lookup_delete key dict in
  stack_op (push_dict dict ;; push_bool (match res with Some _ => true | None => false end)).
Definition exec_dict_deleteget (args : Z) : M VmState Z :=
  let finish (dict : Dictionary) (old : option StackEntry) : M VmState Z :=
    stack_op (push_dict dict ;;
              match old with Some e => push e | None => ret tt end ;;
              push_bool (match old with Some _ => true | None => false end)) in
  on_stack (check_underflow [3]) ;;
  let* (n, dict) := pop_dict max_keys in
  key <- pop_key_finite (arg_bit args 2) (negb (arg_bit args 1)) n ;;
  if negb (arg_bit args 0) then
    let* (old, dict) := lookup_delete key dict in finish dict (option_map t_slice old)
  else
    let* (old, dict) := lookup_delete_ref key dict in finish dict (option_map t_cell old).

(** ** Smallest, largest and nearest keys *)

(** The key as a slice of a new cell. *)
Definition push_key_slice (key : list bool) : M VmState unit :=
  cb <- store_bits key empty_builder ;;
  c <- finalize_builder cb ;;
  on_stack (push_slice (slice_of_cell c)).

Definition exec_dict_getmin (args : Z) : M VmState Z :=
  let int := arg_bit args 2 in let unsigned := arg_bit args 1 in let extract := arg_bit args 4 in
  let finish {A} (dict : Dictionary) (res : option (list bool * A)) (entry : A -> StackEntry) : M VmState Z :=
    (if extract then on_stack (push_dict dict) else ret tt) ;;
    match res with
    | None => stack_op (push_bool false)
    | Some (key, v) =>
        on_stack (push (entry v)) ;;
        (if int then on_stack (push_int (Int (bits_value (negb unsigned) key))) else push_key_slice key) ;;
        stack_op (push_bool true)
    end in
  on_stack (check_underflow [2]) ;;
  let* (n, dict) := pop_dict (if int then if unsigned then 256 else 257 else max_keys) in
  let flip_first := negb unsigned in
  if negb (arg_bit args 0) then
    let* (res, dict) := if extract then extract_minmax_key n (arg_bit args 3) flip_first dict
                        else get_minmax_key n (arg_bit args 3) flip_first dict in
    finish dict res t_slice
  else
    let* (res, dict) := if extract then extract_minmax_key_ref n (arg_bit args 3) flip_first dict
                        else get_minmax_key_ref n (arg_bit args 3) flip_first dict in
    finish dict res t_cell.

Definition exec_dict_getnear (args : Z) : M VmState Z :=
  on_stack (check_underflow [3]) ;;
  let int := arg_bit args 3 in
  let* (n, dict) := pop_dict (if int then if arg_bit args 2 then 256 else 257 else max_keys) in
  let sgnd := negb (arg_bit args 2) in let go_up := negb (arg_bit args 1) in let allow_eq := arg_bit args 0 in
  if negb int then
    cs <- on_stack pop_cellslice ;;
    key <- need_key (prefetch_bits n cs) ;;
    let* (res, _) := lookup_nearest_key key go_up allow_eq false dict in
    match res with
    | None => stack_op (push_bool false)
    | Some (key, v) => on_stack (push_slice v) ;; push_key_slice key ;; stack_op (push_bool true)
    end
  else
    x <- on_stack pop_int_finite ;;
    let* (res, _) :=
      match integer_key x n sgnd with
      | Some key => lookup_nearest_key key go_up allow_eq sgnd dict
      | None =>
          if xorb (0 <=? int_sgn x) go_up then get_minmax_key n (negb go_up) sgnd dict else ret (None, dict)
      end in
    match res with
    | None => stack_op (push_bool false)
    | Some (key, v) =>
        stack_op (push_slice v ;; push_int (Int (bits_value sgnd key)) ;; push_bool true)
    end.

(** ** Prefix code dictionaries *)

Definition exec_pfx_dict_set (mode : SetMode) : M VmState Z :=
  v <- gets global_version ;;
  on_stack (check_underflow [if 9 <=? v then 4 else 3]) ;;
  let* (n, dict) := pop_dict max_keys in
  let* (key_slice, new_value) :=
    on_stack (key_slice <- pop_cellslice ;; new_value <- pop_cellslice ;; ret (key_slice, new_value)) in
  let* (res, dict) := pfx_set (slice_bits key_slice) new_value mode dict in
  stack_op (push_dict dict ;; push_bool res).
Definition exec_pfx_dict_delete : M VmState Z :=
  v <- gets global_version ;;
  on_stack (check_underflow [if 9 <=? v then 3 else 2]) ;;
  let* (n, dict) := pop_dict max_keys in
  key_slice <- on_stack pop_cellslice ;;
  let* (res, dict) := pfx_lookup_delete (slice_bits key_slice) dict in
  stack_op (push_dict dict ;; push_bool (match res with Some _ => true | None => false end)).

(** [op]: 0 is quiet, 1 plain, 2 jump, 3 call. *)
Definition exec_pfx_dict_get (op : Z) : M VmState Z :=
  on_stack (check_underflow [3]) ;;
  let* (n, dict) := pop_dict max_keys in
  cs <- on_stack pop_cellslice ;;
  let* (res, matched, _) := pfx_lookup_prefix (slice_bits cs) dict in
  match res with
  | None =>
      unless_throw (negb (arg_bit op 0)) (VmError Exc_cell_und) ;;
      stack_op (push_slice cs ;; if op =? 0 then push_bool false else ret tt)
  | Some value =>
      let* (pfx, cs) := of_option (fetch_subslice matched 0 cs) in
      on_stack (push_slice pfx ;;
                (if arg_bit op 1 then ret tt else push_slice value) ;;
                push_slice cs) ;;
      if op =? 0 then stack_op (push_bool true)
      else if op =? 1 then ret 0
      else
        cp <- gets cp ;;
        if arg_bit op 0 then call (ord_cont (Some value) cp) else jump (ord_cont (Some value) cp)
  end.

(** ** Jumps through dictionaries, and dictionaries in code *)

Definition exec_dict_get_exec (args : Z) : M VmState Z :=
  on_stack (check_underflow [3]) ;;
  let* (n, dict) := pop_dict max_keys in
  idx <- on_stack pop_int_finite ;;
  r <- (match integer_key idx n (negb (arg_bit args 0)) with
        | Some key => let* (r, _) := DictObj.lookup key dict in ret r
        | None => ret None
        end) ;;
  match r with
  | Some value =>
      cp <- gets cp ;;
      if arg_bit args 1 then call (ord_cont (Some value) cp) else jump (ord_cont (Some value) cp)
  | None => stack_op (if arg_bit args 2 then push_int idx else ret tt)
  end.

(** The one-bit one-reference slice and the ten-bit number of an instruction. *)
Definition code_fetch_dict (pfx_bits : Z) : M VmState (CellSlice * Z) :=
  cs <- code_slice ;;
  unless_throw (have (Z.to_nat pfx_bits) cs) (VmError Exc_inv_opcode) ;;
  unless_throw (have_refs 1 cs) (VmError Exc_inv_opcode) ;;
  code_advance (pfx_bits - 11) ;;
  cs <- code_slice ;;
  let* (sub, cs) := of_option (fetch_subslice 1 1 cs) in
  let (n, cs) := fetch_ulong 10 cs in
  put_code cs ;; ret (sub, n).

Definition exec_push_const_dict (args pfx_bits : Z) : M VmState Z :=
  let* (sub, n) := code_fetch_dict pfx_bits in
  c <- of_option (prefetch_ref 0 sub) ;;
  stack_op (push (t_cell c) ;; push_smallint n).
Definition exec_const_pfx_dict_switch (args pfx_bits : Z) : M VmState Z :=
  let* (sub, n) := code_fetch_dict pfx_bits in
  dict <- force_validate (dictionary_of_slice (Some sub) n) ;;
  cs1 <- on_stack pop_cellslice ;;
  let* (res, matched, _) := pfx_lookup_prefix (slice_bits cs1) dict in
  match res with
  | None => stack_op (push_slice cs1)
  | Some value =>
      let* (pfx, cs1) := of_option (fetch_subslice matched 0 cs1) in
      on_stack (push_slice pfx ;; push_slice cs1) ;;
      cp <- gets cp ;;
      jump (ord_cont (Some value) cp)
  end.

Definition exec_subdict_get (args : Z) : M VmState Z :=
  on_stack (check_underflow [4]) ;;
  let* (n, dict) := pop_dict max_keys in
  let mk := if arg_bit args 1 then if arg_bit args 0 then 256 else 257 else max_keys in
  k <- on_stack (pop_smallint_range (Z.min mk (Z.of_nat n)) 0) ;;
  key <- (if arg_bit args 1 then x <- on_stack pop_int_finite ;; ret (integer_key x (Z.to_nat k) (negb (arg_bit args 0)))
          else cs <- on_stack pop_cellslice ;; ret (prefetch_bits (Z.to_nat k) cs)) ;;
  key <- need_key key ;;
  let* (ok, dict) := cut_prefix_subdict key (arg_bit args 2) dict in
  unless_throw ok (VmError Exc_dict_err) ;;
  stack_op (push_dict dict).

(** ** Registration *)

Definition register_dictionary_ops : list (option OpcodeInstr) :=
  [ mksimple 0xf400 16 exec_store_dict;
    mksimple 0xf401 16 exec_skip_dict;
    mksimple 0xf402 16 (exec_load_dict_slice 0);
    mksimple 0xf403 16 (exec_load_dict_slice 1);
    mksimple 0xf404 16 (exec_load_dict 0);
    mksimple 0xf405 16 (exec_load_dict 1);
    mksimple 0xf406 16 (exec_load_dict 2);
    mksimple 0xf407 16 (exec_load_dict 3);
    mkfixedrange 0xf40a 0xf410 16 3 exec_dict_get;
    mkfixedrange 0xf412 0xf418 16 3 (exec_dict_set Set_ false);
    mkfixedrange 0xf41a 0xf420 16 3 (exec_dict_setget Set_ false);
    mkfixedrange 0xf422 0xf428 16 3 (exec_dict_set Replace false);
    mkfixedrange 0xf42a 0xf430 16 3 (exec_dict_setget Replace false);
    mkfixedrange 0xf432 0xf438 16 3 (exec_dict_set Add false);
    mkfixedrange 0xf43a 0xf440 16 3 (exec_dict_setget Add false);
    mkfixedrange 0xf441 0xf444 16 2 (exec_dict_set Set_ true);
    mkfixedrange 0xf445 0xf448 16 2 (exec_dict_setget Set_ true);
    mkfixedrange 0xf449 0xf44c 16 2 (exec_dict_set Replace true);
    mkfixedrange 0xf44d 0xf450 16 2 (exec_dict_setget Replace true);
    mkfixedrange 0xf451 0xf454 16 2 (exec_dict_set Add true);
    mkfixedrange 0xf455 0xf458 16 2 (exec_dict_setget Add true);
    mkfixedrange 0xf459 0xf45c 16 2 exec_dict_delete;
    mkfixedrange 0xf462 0xf468 16 3 exec_dict_deleteget;
    mkfixedrange 0xf469 0xf46c 16 2 exec_dict_get_optref;
    mkfixedrange 0xf46d 0xf470 16 2 exec_dict_setget_optref;
    mksimple 0xf470 16 (exec_pfx_dict_set Set_);
    mksimple 0xf471 16 (exec_pfx_dict_set Replace);
    mksimple 0xf472 16 (exec_pfx_dict_set Add);
    mksimple 0xf473 16 exec_pfx_dict_delete;
    mkfixedrange 0xf474 0xf480 16 4 exec_dict_getnear;
    mkfixedrange 0xf482 0xf488 16 5 exec_dict_getmin;
    mkfixedrange 0xf48a 0xf490 16 5 exec_dict_getmin;
    mkfixedrange 0xf492 0xf498 16 5 exec_dict_getmin;
    mkfixedrange 0xf49a 0xf4a0 16 5 exec_dict_getmin;
    mkfixed (Z.shiftr 0xf4a0 2) 14 2 exec_dict_get_exec;
    mkextrange 0xf4a400 0xf4a800 24 11 exec_push_const_dict;
    mksimple 0xf4a8 16 (exec_pfx_dict_get 0);
    mksimple 0xf4a9 16 (exec_pfx_dict_get 1);
    mksimple 0xf4aa 16 (exec_pfx_dict_get 2);
    mksimple 0xf4ab 16 (exec_pfx_dict_get 3);
    mkextrange 0xf4ac00 0xf4b000 24 11 exec_const_pfx_dict_switch;
    mkfixedrange 0xf4b1 0xf4b4 16 3 exec_subdict_get;
    mkfixedrange 0xf4b5 0xf4b8 16 3 exec_subdict_get;
    mkfixed (Z.shiftr 0xf4bc 2) 14 2 exec_dict_get_exec ].
End dictops.
