(* ===== verification/DictOpsSpec.v ===== *)
(** * Integer keys of dictionary primitives

    What the primitives do with an integer key that does not fit into the keys of the
    dictionary. *)
From S2P Require Import Prelude BigInt Int256 Cells DataCell Dict DictObj VmTypes Stack OpcodeTable StackOps Vm ContOps DictOps.

(** A dictionary or null on the stack. *)
Definition dict_entry (c : option Cell) : StackEntry := match c with Some c => t_cell c | None => t_null end.

Lemma at_least_cons e v : at_least (e :: v) 1 = true.
Proof. unfold at_least, depth. apply Z.leb_le. cbn [length]. lia. Qed.
Lemma checked_pop {A} (k : StackEntry -> M Stack A) e v : (check_underflow [1] ;; e <- pop ;; k e) (e :: v) = k e v.
Proof. unfold check_underflow, bind, gets. cbn [forallb]. by rewrite at_least_cons. Qed.

Lemma pop_int_exact x v : pop_int (t_int x :: v) = Ret x v.
Proof. unfold pop_int. by rewrite checked_pop. Qed.
Lemma pop_int_finite_exact a v : pop_int_finite (t_int (Int a) :: v) = Ret (Int a) v.
Proof. unfold pop_int_finite, bind. by rewrite pop_int_exact. Qed.
Lemma pop_maybe_cell_exact c v : pop_maybe_cell (dict_entry c :: v) = Ret c v.
Proof. unfold pop_maybe_cell. rewrite checked_pop. by destruct c. Qed.
Lemma pop_smallint_exact max n v :
  0 <= n <= max -> max < 2 ^ 31 -> pop_smallint_range max 0 (t_int (Int n) :: v) = Ret n v.
Proof.
  intros Hn Hmax. unfold pop_smallint_range, pop_long_range, pop_long, bind. rewrite pop_int_exact.
  unfold int_to_long. rewrite (proj2 (fits_s_spec 64 n)) by lia. cbn [ret].
  rewrite !(proj2 (Z.ltb_ge _ _)) by lia. cbn. rewrite wrap_s_small; [done|lia|]. change (32 - 1) with 31. lia.
Qed.

Section keys.
Context `{Sha256} `{LibDict}.

(** A new object with a valid number of key bits is valid. *)
Lemma force_validate_new {S} c n (s : S) :
  0 <= n <= 1023 -> force_validate (dictionary_of_cell c n) s = Ret (mkDictionary None c n true false false) s.
Proof.
  intros Hn. unfold force_validate, validate. cbn [f_valid f_invalid key_bits dictionary_of_cell].
  change (Z.of_nat max_key_bits) with 1023. by rewrite !(proj2 (Z.ltb_ge _ _)) by lia.
Qed.
Lemma pop_dict_exact n c v s :
  0 <= n <= 1023 -> stack s = t_int (Int n) :: dict_entry c :: v ->
  pop_dict max_keys s = Ret (Z.to_nat n, mkDictionary None c n true false false) (set_stack v s).
Proof.
  intros Hn Hs. unfold pop_dict, on_stack, bind. rewrite Hs, pop_smallint_exact, pop_maybe_cell_exact by done.
  cbn [ret]. by rewrite force_validate_new.
Qed.
Lemma underflow_passes s k v : stack s = v -> at_least v k = true -> on_stack (check_underflow [k]) s = Ret tt s.
Proof.
  intros Hs Hk. unfold on_stack, check_underflow, bind, gets. rewrite Hs. cbn [forallb]. rewrite Hk. cbn.
  rewrite <- Hs. by destruct s.
Qed.

(** A value that is not among the integers of [n] bits; 0 is the one with no bits. *)
Definition key_out_of_range (unsigned : bool) (n x : Z) : Prop :=
  if unsigned then x < 0 \/ 2 ^ n <= x else x <> 0 /\ (n = 0 \/ x < - 2 ^ (n - 1) \/ 2 ^ (n - 1) <= x).
Lemma integer_key_none unsigned n x :
  0 <= n -> key_out_of_range unsigned n x -> integer_key (Int x) (Z.to_nat n) (negb unsigned) = None.
Proof.
  intros Hn Hx. unfold integer_key. rewrite Z2Nat.id by done. destruct unsigned; cbn [negb key_out_of_range] in *.
  - pose proof (pow2_pos n Hn). unfold unsigned_fits_bits. destruct (Z.ltb_spec x 0); [done|].
    destruct (Z.eqb_spec x 0); [lia|]. by rewrite (proj2 (Z.ltb_ge n 0)), (proj2 (Z.ltb_ge x _)) by lia.
  - destruct Hx as [Hx0 Hx]. unfold signed_fits_bits. rewrite (proj2 (Z.eqb_neq x 0)) by done.
    destruct (Z.leb_spec n 0); [done|]. destruct (fits_s n x) eqn:E; [|done]. apply fits_s_spec in E. lia.
Qed.

(** The dictionary and the integer are taken from the stack. *)
Lemma start_dict {A} n c x rest (k : nat * Dictionary -> M VmState A) s :
  0 <= n <= 1023 -> stack s = t_int (Int n) :: dict_entry c :: t_int (Int x) :: rest ->
  (on_stack (check_underflow [3]) ;; p <- pop_dict max_keys ;; k p) s =
  k (Z.to_nat n, mkDictionary None c n true false false) (set_stack (t_int (Int x) :: rest) s).
Proof.
  intros Hn Hs. unfold bind at 1. rewrite (underflow_passes s 3 _ Hs).
  - unfold bind at 1. by rewrite (pop_dict_exact n c _ s Hn Hs).
  - unfold at_least, depth. apply Z.leb_le. cbn [length]. lia.
Qed.
Lemma take_int {A B} a rest (m : int256 -> M Stack A) (k : A -> M VmState B) s :
  (i <- on_stack (i <- pop_int_finite ;; m i) ;; k i) (set_stack (t_int (Int a) :: rest) s) =
  (i <- on_stack (m (Int a)) ;; k i) (set_stack rest s).
Proof. unfold bind, on_stack. cbn [stack set_stack]. rewrite pop_int_finite_exact. by destruct s. Qed.
Lemma take_int_ret {B} a rest (k : int256 -> M VmState B) s :
  (i <- on_stack pop_int_finite ;; k i) (set_stack (t_int (Int a) :: rest) s) = k (Int a) (set_stack rest s).
Proof. unfold bind, on_stack. cbn [stack set_stack]. rewrite pop_int_finite_exact. by destruct s. Qed.
End keys.

(** C35: an integer key that does not fit into the keys of the dictionary is not found by
    the lookups DICTIGET, DICTUGET (with or without REF) and DICTIGETOPTREF, DICTUGETOPTREF,
    whatever the dictionary is, without loading any of it; the deletions DICTIDEL,
    DICTUDEL and DICTIDELGET, DICTUDELGET throw a range check error for it.  This is not
    what doc/tvm.tex says of the deletions ("simply returns D 0"): the code does have a
    branch that would leave the dictionary and 0, but an integer key never reaches it. *)
Theorem dict_key_out_of_range `{Sha256} `{LibDict} unsigned n c x rest s :
  0 <= n <= 1023 -> key_out_of_range unsigned n x ->
  stack s = t_int (Int n) :: dict_entry c :: t_int (Int x) :: rest ->
  (forall a, arg_bit a 2 = true -> arg_bit a 1 = unsigned ->
    exec_dict_get a s = Ret 0 (set_stack (t_int (Int 0) :: rest) s) /\
    exec_dict_deleteget a s = Exn (VmError Exc_range_chk) (set_stack rest s)) /\
  (forall a, arg_bit a 1 = true -> arg_bit a 0 = unsigned ->
    exec_dict_get_optref a s = Ret 0 (set_stack (t_null :: rest) s) /\
    exec_dict_delete a s = Exn (VmError Exc_range_chk) (set_stack rest s)).
Proof.
  intros Hn Hx Hs. apply integer_key_none in Hx; [|lia].
  split; intros a Ha <-; unfold exec_dict_get, exec_dict_deleteget, exec_dict_get_optref, exec_dict_delete, pop_key_finite;
    rewrite Ha; split; (etransitivity; [by apply (start_dict n c x rest)|]); cbv beta iota.
  - rewrite take_int_ret, Hx. by destruct s.
  - etransitivity; [apply (take_int x rest)|]. unfold integer_key_chk. rewrite Hx. by destruct s.
  - rewrite take_int_ret, Hx. by destruct s.
  - etransitivity; [apply (take_int x rest)|]. unfold integer_key_chk. rewrite Hx. by destruct s.
Qed.

#[local] Instance toy_hash : Sha256 := toy_sha.
(** 300 as an unsigned key of 8 bits in the empty dictionary. *)
Definition key_300 : VmState :=
  new_vm (Some get_empty_dictionary) 11 [t_int (Int 8); t_null; t_int (Int 300)] (new_gas 1000 1000 0) 0 None [] None.
Lemma dict_key_out_of_range_witness :
  exec_dict_get 6 key_300 = Ret 0 (set_stack [t_int (Int 0)] key_300) /\
  exec_dict_delete 3 key_300 = Exn (VmError Exc_range_chk) (set_stack [] key_300).
Proof.
  destruct (dict_key_out_of_range true 8 None 300 [] key_300) as [Hget Hdel];
    [lia|right; reflexivity || lia|reflexivity|].
  split; [apply (Hget 6); reflexivity|apply (Hdel 3); reflexivity].
Defined.
