(* ===== verification/CellOps.v ===== *)
(** * Cell primitives (crypto/vm/cellops.cpp)

    The handlers of the instructions that read and write cells.  Handlers that return
    through a helper on the stack ([exec_store_int_common] and the like) are stack code;
    those that load or create cells run in the machine, which charges for it. *)
From S2P Require Import Prelude BigInt Int256 Cells DataCell Dict VmTypes Stack OpcodeTable StackOps Vm ContOps DictOps.

Section cellops.
Context `{Sha256} `{LibDict}.

(** ** Constants in the code *)

(** [cs.have(pfx_bits + data_bits)], [cs.have_refs(refs)], [cs.advance(pfx_bits)],
    [cs.fetch_subslice(data_bits, refs)] on the code. *)
Definition code_fetch_subslice (data_bits : Z) (refs : nat) (pfx_bits : Z) : M VmState CellSlice :=
  cs <- code_slice ;;
  unless_throw (have (Z.to_nat (pfx_bits + data_bits)) cs) (VmError Exc_inv_opcode) ;;
  unless_throw (have_refs refs cs) (VmError Exc_inv_opcode) ;;
  code_advance pfx_bits ;;
  cs <- code_slice ;;
  let* (sub, cs) := of_option (fetch_subslice (Z.to_nat data_bits) refs cs) in
  put_code cs ;; ret sub.

Definition exec_push_ref (mode : Z) (args pfx_bits : Z) : M VmState Z :=
  need_refs 1 pfx_bits ;;
  cell <- code_fetch_ref ;;
  if mode =? 1 then cs <- load_cell_slice cell ;; stack_op (push_slice cs)
  else if mode =? 2 then k <- ref_to_cont cell ;; stack_op (push_cont k)
  else stack_op (push (t_cell cell)).

Definition exec_push_slice_common (data_bits : Z) (refs : nat) (pfx_bits : Z) : M VmState Z :=
  slice <- code_fetch_subslice data_bits refs pfx_bits ;;
  stack_op (push_slice (snd (remove_trailing slice))).
Definition exec_push_slice (args pfx_bits : Z) : M VmState Z :=
  exec_push_slice_common (Z.land args 15 * 8 + 4) 0 pfx_bits.
Definition exec_push_slice_r (args pfx_bits : Z) : M VmState Z :=
  let refs := Z.land (Z.shiftr args 5) 3 + 1 in
  let data_bits := Z.land args 31 * 8 + 1 in
  exec_push_slice_common data_bits (Z.to_nat refs) pfx_bits.
Definition exec_push_slice_r2 (args pfx_bits : Z) : M VmState Z :=
  let refs := Z.land (Z.shiftr args 7) 7 in
  let data_bits := Z.land args 127 * 8 + 6 in
  exec_push_slice_common data_bits (Z.to_nat refs) pfx_bits.

Definition push_ord_cont (slice : CellSlice) : M VmState Z :=
  cp <- gets cp ;; stack_op (push_cont (ord_cont (Some slice) cp)).
Definition exec_push_cont (args pfx_bits : Z) : M VmState Z :=
  let refs := Z.land (Z.shiftr args 7) 3 in
  let data_bits := Z.land args 127 * 8 in
  slice <- code_fetch_subslice data_bits (Z.to_nat refs) pfx_bits ;;
  push_ord_cont slice.
Definition exec_push_cont_simple (args pfx_bits : Z) : M VmState Z :=
  let data_bits := Z.land args 15 * 8 in
  slice <- code_fetch_subslice data_bits 0 pfx_bits ;;
  push_ord_cont slice.

Definition register_cell_const_ops : list (option OpcodeInstr) :=
  [ mkext 0x88 8 0 (exec_push_ref 0);
    mkext 0x89 8 0 (exec_push_ref 1);
    mkext 0x8a 8 0 (exec_push_ref 2);
    mkext 0x8b 8 4 exec_push_slice;
    mkext 0x8c 8 7 exec_push_slice_r;
    mkextrange (Z.shiftl (0x8d * 8) 7) (Z.shiftl (0x8d * 8 + 5) 7) 18 10 exec_push_slice_r2;
    mkext (0x8e / 2) 7 9 exec_push_cont;
    mkext 9 4 4 exec_push_cont_simple ].

(** ** Comparison *)

Definition exec_un_cs_cmp (func : CellSlice -> bool) : M VmState Z :=
  stack_op (check_underflow [1] ;; cs <- pop_cellslice ;; push_smallint (if func cs then -1 else 0)).
Definition exec_iun_cs_cmp (func : CellSlice -> Z) : M VmState Z :=
  stack_op (check_underflow [1] ;; cs <- pop_cellslice ;; push_smallint (func cs)).
Definition exec_bin_cs_cmp (func : CellSlice -> CellSlice -> bool) : M VmState Z :=
  stack_op (check_underflow [2] ;; cs2 <- pop_cellslice ;; cs1 <- pop_cellslice ;;
            push_smallint (if func cs1 cs2 then -1 else 0)).
Definition exec_ibin_cs_cmp (func : CellSlice -> CellSlice -> Z) : M VmState Z :=
  stack_op (check_underflow [2] ;; cs2 <- pop_cellslice ;; cs1 <- pop_cellslice ;; push_smallint (func cs1 cs2)).

(** [empty()] *)
Definition cs_empty (cs : CellSlice) : bool := (size cs =? 0)%nat.
Definition no_refs (cs : CellSlice) : bool := (size_refs cs =? 0)%nat.

Definition register_cell_cmp_ops : list (option OpcodeInstr) :=
  [ mksimple 0xc700 16 (exec_un_cs_cmp (fun cs => cs_empty cs && no_refs cs));
    mksimple 0xc701 16 (exec_un_cs_cmp cs_empty);
    mksimple 0xc702 16 (exec_un_cs_cmp no_refs);
    mksimple 0xc703 16 (exec_un_cs_cmp (fun cs => prefetch_long 1 cs =? -1));
    mksimple 0xc704 16 (exec_ibin_cs_cmp lex_cmp);
    mksimple 0xc705 16 (exec_bin_cs_cmp (fun cs1 cs2 => lex_cmp cs1 cs2 =? 0));
    mksimple 0xc708 16 (exec_bin_cs_cmp is_prefix_of);
    mksimple 0xc709 16 (exec_bin_cs_cmp (fun cs1 cs2 => is_prefix_of cs2 cs1));
    mksimple 0xc70a 16 (exec_bin_cs_cmp is_proper_prefix_of);
    mksimple 0xc70b 16 (exec_bin_cs_cmp (fun cs1 cs2 => is_proper_prefix_of cs2 cs1));
    mksimple 0xc70c 16 (exec_bin_cs_cmp is_suffix_of);
    mksimple 0xc70d 16 (exec_bin_cs_cmp (fun cs1 cs2 => is_suffix_of cs2 cs1));
    mksimple 0xc70e 16 (exec_bin_cs_cmp is_proper_suffix_of);
    mksimple 0xc70f 16 (exec_bin_cs_cmp (fun cs1 cs2 => is_proper_suffix_of cs2 cs1));
    mksimple 0xc710 16 (exec_iun_cs_cmp (fun cs => Z.of_nat (count_leading false cs)));
    mksimple 0xc711 16 (exec_iun_cs_cmp (fun cs => Z.of_nat (count_leading true cs)));
    mksimple 0xc712 16 (exec_iun_cs_cmp (fun cs => Z.of_nat (count_trailing false cs)));
    mksimple 0xc713 16 (exec_iun_cs_cmp (fun cs => Z.of_nat (count_trailing true cs))) ].

(** ** Serialisation *)

Definition push_builder (cb : CellBuilder) : M Stack unit := push (t_builder cb).

(** [finalize_copy(special)] *)
Definition finalize_copy (special : bool) (cb : CellBuilder) : M VmState Cell :=
  register_cell_create ;;
  match create (cb_bits cb) (cb_refs cb) special with Some c => ret c | None => throw CellWriteError end.
(** [finalize_novm()] *)
Definition finalize_novm (cb : CellBuilder) : M VmState Cell :=
  match create (cb_bits cb) (cb_refs cb) false with Some c => ret c | None => throw CellWriteError end.

Definition exec_new_builder : M VmState Z := stack_op (push_builder empty_builder).
Definition exec_builder_to_cell : M VmState Z :=
  cb <- on_stack (check_underflow [1] ;; pop_builder) ;;
  cell <- finalize_copy false cb ;;
  stack_op (push (t_cell cell)).
Definition exec_builder_to_special_cell : M VmState Z :=
  let* (special, cb) := on_stack (check_underflow [2] ;; special <- pop_bool ;; cb <- pop_builder ;; ret (special, cb)) in
  cell <- finalize_copy special cb ;;
  stack_op (push (t_cell cell)).

Definition check_space (builder : CellBuilder) (bits refs : nat) : M Stack unit :=
  unless_throw (can_extend_by bits refs builder) (VmError Exc_cell_ov).
(** Store methods that throw when they fail. *)
Definition ensure_stored (o : option CellBuilder) : M Stack CellBuilder :=
  match o with Some cb => ret cb | None => throw CellCreateError end.
Definition fits_bits (x : int256) (bits : Z) (sgnd : bool) : bool :=
  if sgnd then signed_fits_bits x bits else unsigned_fits_bits x bits.

Definition store_int_common_fail (code : Z) (builder : CellBuilder) (x : int256) (args : Z) : M Stack unit :=
  (if negb (arg_bit args 1) then push_int_quiet x true ;; push_builder builder
   else push_builder builder ;; push_int_quiet x true) ;;
  push_smallint code.
Definition exec_store_int_common (bits : Z) (args : Z) : M Stack unit :=
  let sgnd := negb (arg_bit args 0) in
  let* (builder, x) :=
    (if negb (arg_bit args 1) then builder <- pop_builder ;; x <- pop_int ;; ret (builder, x)
     else x <- pop_int ;; builder <- pop_builder ;; ret (builder, x)) in
  if negb (can_extend_by (Z.to_nat bits) 0 builder) then
    if arg_bit args 2 then store_int_common_fail (-1) builder x args else throw (VmError Exc_cell_ov)
  else if negb (fits_bits x bits sgnd) then
    if arg_bit args 2 then store_int_common_fail 1 builder x args else throw (VmError Exc_range_chk)
  else
    builder <- ensure_stored (store_int256_bool x (Z.to_nat bits) sgnd builder) ;;
    push_builder builder ;;
    if arg_bit args 2 then push_smallint 0 else ret tt.
Definition exec_store_int (sgnd : bool) (args : Z) : M VmState Z :=
  let bits := Z.land args 0xff + 1 in
  stack_op (check_underflow [2] ;; exec_store_int_common bits (Z.b2z (negb sgnd))).
Definition exec_store_int_var (args : Z) : M VmState Z :=
  let sgnd := negb (arg_bit args 0) in
  stack_op (check_underflow [3] ;; bits <- pop_smallint_range (256 + Z.b2z sgnd) 0 ;; exec_store_int_common bits args).
Definition exec_store_int_fixed (args : Z) : M VmState Z :=
  let bits := Z.land args 0xff + 1 in
  stack_op (check_underflow [2] ;; exec_store_int_common bits (Z.shiftr args 8)).

(** The end of a store: the operands come back when there is no space and [quiet] is set. *)
Definition store_checked (builder : CellBuilder) (bits refs : nat) (quiet : bool) (push_back : M Stack unit)
    (store : M Stack CellBuilder) : M Stack unit :=
  if negb (can_extend_by bits refs builder) then
    unless_throw quiet (VmError Exc_cell_ov) ;; push_back ;; push_smallint (-1)
  else
    builder <- store ;;
    push_builder builder ;;
    if quiet then push_smallint 0 else ret tt.

Definition exec_store_ref (quiet : bool) : M VmState Z :=
  stack_op (check_underflow [2] ;; builder <- pop_builder ;; cell <- pop_cell ;;
            store_checked builder 0 1 quiet (push (t_cell cell) ;; push_builder builder)
              (ensure_stored (store_ref_bool (Some cell) builder))).
Definition exec_store_ref_rev (quiet : bool) : M VmState Z :=
  stack_op (check_underflow [2] ;; cell <- pop_cell ;; builder <- pop_builder ;;
            store_checked builder 0 1 quiet (push_builder builder ;; push (t_cell cell))
              (ensure_stored (store_ref_bool (Some cell) builder))).
Definition exec_store_slice (quiet : bool) : M VmState Z :=
  stack_op (check_underflow [2] ;; builder <- pop_builder ;; cs <- pop_cellslice ;;
            store_checked builder (size cs) (size_refs cs) quiet (push_slice cs ;; push_builder builder)
              (ensure_stored (append_cellslice_bool cs builder))).
Definition exec_store_slice_rev (quiet : bool) : M VmState Z :=
  stack_op (check_underflow [2] ;; cs <- pop_cellslice ;; builder <- pop_builder ;;
            store_checked builder (size cs) (size_refs cs) quiet (push_builder builder ;; push_slice cs)
              (ensure_stored (append_cellslice_bool cs builder))).
Definition exec_store_builder (quiet : bool) : M VmState Z :=
  stack_op (check_underflow [2] ;; builder <- pop_builder ;; cb2 <- pop_builder ;;
            store_checked builder (length (cb_bits cb2)) (length (cb_refs cb2)) quiet
              (push_builder cb2 ;; push_builder builder) (ensure_stored (append_builder_bool cb2 builder))).
Definition exec_store_builder_rev (quiet : bool) : M VmState Z :=
  stack_op (check_underflow [2] ;; cb2 <- pop_builder ;; builder <- pop_builder ;;
            store_checked builder (length (cb_bits cb2)) (length (cb_refs cb2)) quiet
              (push_builder builder ;; push_builder cb2) (ensure_stored (append_builder_bool cb2 builder))).

(** A builder as a reference: the cell is created when there is space for it. *)
Definition store_as_ref (builder builder2 : CellBuilder) (quiet : bool) (push_back : M Stack unit) : M VmState Z :=
  if negb (can_extend_by 0 1 builder) then
    unless_throw quiet (VmError Exc_cell_ov) ;; stack_op (push_back ;; push_smallint (-1))
  else
    cell <- finalize_copy false builder2 ;;
    stack_op (builder <- ensure_stored (store_ref_bool (Some cell) builder) ;;
              push_builder builder ;; if quiet then push_smallint 0 else ret tt).
Definition exec_store_builder_as_ref (quiet : bool) : M VmState Z :=
  let* (builder, builder2) :=
    on_stack (check_underflow [2] ;; builder <- pop_builder ;; builder2 <- pop_builder ;; ret (builder, builder2)) in
  store_as_ref builder builder2 quiet (push_builder builder2 ;; push_builder builder).
Definition exec_store_builder_as_ref_rev (quiet : bool) : M VmState Z :=
  let* (builder2, builder) :=
    on_stack (check_underflow [2] ;; builder2 <- pop_builder ;; builder <- pop_builder ;; ret (builder2, builder)) in
  store_as_ref builder builder2 quiet (push_builder builder ;; push_builder builder2).

(** References of the code, one after the other. *)
Fixpoint store_code_refs (refs : nat) (builder : CellBuilder) : M VmState CellBuilder :=
  match refs with
  | O => ret builder
  | S refs' =>
      c <- code_fetch_ref ;;
      builder <- on_stack (ensure_stored (store_ref_bool (Some c) builder)) ;;
      store_code_refs refs' builder
  end.
Definition exec_store_const_ref (args pfx_bits : Z) : M VmState Z :=
  let refs := Z.to_nat (Z.land args 1 + 1) in
  need_refs refs pfx_bits ;;
  builder <- on_stack (check_underflow [1] ;; builder <- pop_builder ;; check_space builder 0 refs ;; ret builder) ;;
  builder <- store_code_refs refs builder ;;
  stack_op (push_builder builder).

(** [export_bytes_lsb] and [import_bytes_lsb]: bytes in the reverse order. *)
Fixpoint bytes_lsb (len : nat) (x : Z) : list bool :=
  match len with O => [] | S len' => Z_to_bits 8 x ++ bytes_lsb len' (Z.shiftr x 8) end.
Fixpoint reverse_bytes (len : nat) (bs : list bool) : list bool :=
  match len with O => [] | S len' => reverse_bytes len' (drop 8 bs) ++ take 8 bs end.

Definition exec_store_le_int (args : Z) : M VmState Z :=
  let len := if arg_bit args 1 then 8%nat else 4%nat in
  let bits := (8 * len)%nat in
  let sgnd := negb (arg_bit args 0) in
  stack_op (check_underflow [2] ;; builder <- pop_builder ;; x <- pop_int ;;
            check_space builder bits 0 ;;
            match x with
            | Int a =>
                unless_throw (fits_bits x (Z.of_nat bits) sgnd) (VmError Exc_range_chk) ;;
                builder <- ensure_stored (store_bits_bool (bytes_lsb len a) builder) ;;
                push_builder builder
            | NaN => throw (VmError Exc_range_chk)
            end).

Definition exec_int_builder_func (func : CellBuilder -> Z) : M VmState Z :=
  stack_op (check_underflow [1] ;; b <- pop_builder ;; push_smallint (func b)).
Definition exec_2int_builder_func (func : CellBuilder -> Z * Z) : M VmState Z :=
  stack_op (check_underflow [1] ;; b <- pop_builder ;; push_smallint (fst (func b)) ;; push_smallint (snd (func b))).
Definition exec_builder_chk_bits (quiet : bool) (args : Z) : M VmState Z :=
  let bits := Z.to_nat (Z.land args 0xff + 1) in
  stack_op (check_underflow [1] ;; builder <- pop_builder ;;
            if quiet then push_smallint (if can_extend_by bits 0 builder then -1 else 0)
            else check_space builder bits 0).
Definition exec_builder_chk_bits_refs (mode : Z) : M VmState Z :=
  stack_op (check_underflow [1 + Z.land mode 1 + Z.shiftr (Z.land mode 2) 1] ;;
            refs <- (if arg_bit mode 1 then pop_smallint_range 7 0 else ret 0) ;;
            bits <- (if arg_bit mode 0 then pop_smallint_range 1023 0 else ret 0) ;;
            builder <- pop_builder ;;
            let ok := can_extend_by (Z.to_nat bits) (Z.to_nat refs) builder in
            if arg_bit mode 2 then push_smallint (if ok then -1 else 0)
            else check_space builder (Z.to_nat bits) (Z.to_nat refs)).
(** [val < 0]: the bit is on the stack. *)
Definition exec_store_same (val : Z) : M VmState Z :=
  stack_op (check_underflow [2 + Z.b2z (val <? 0)] ;;
            val <- (if val <? 0 then pop_smallint_range 1 0 else ret val) ;;
            bits <- pop_smallint_range 1023 0 ;;
            builder <- pop_builder ;;
            check_space builder (Z.to_nat bits) 0 ;;
            push_builder (mkBuilder (cb_bits builder ++ replicate (Z.to_nat bits) (negb (val =? 0))) (cb_refs builder))).
Definition exec_builder_to_slice : M VmState Z :=
  cb <- on_stack (check_underflow [1] ;; pop_builder) ;;
  cell <- finalize_novm cb ;;
  stack_op (push_slice (slice_of_cell cell)).
Definition exec_store_const_slice (args pfx_bits : Z) : M VmState Z :=
  let refs := Z.land (Z.shiftr args 3) 3 in
  let data_bits := Z.land args 7 * 8 + 2 in
  slice <- code_fetch_subslice data_bits (Z.to_nat refs) pfx_bits ;;
  let slice := snd (remove_trailing slice) in
  stack_op (builder <- pop_builder ;;
            check_space builder (size slice) (size_refs slice) ;;
            builder <- ensure_stored (append_cellslice_bool slice builder) ;;
            push_builder builder).

(** [CellBuilder::get_depth] and [CellSlice::get_depth]. *)
Definition refs_max_depth (refs : list Cell) : Z :=
  wrap_u 16 (foldl (fun d c => Z.max d (1 + get_depth c)) 0 refs).
Definition builder_depth (cb : CellBuilder) : Z := refs_max_depth (cb_refs cb).
Definition slice_depth (cs : CellSlice) : Z := refs_max_depth (slice_refs cs).
Definition builder_size (cb : CellBuilder) : Z := Z.of_nat (length (cb_bits cb)).
Definition builder_refs (cb : CellBuilder) : Z := Z.of_nat (length (cb_refs cb)).
Definition builder_rem_bits (cb : CellBuilder) : Z := Z.of_nat (remaining_bits cb).
Definition builder_rem_refs (cb : CellBuilder) : Z := Z.of_nat (remaining_refs cb).

Definition register_cell_serialize_ops : list (option OpcodeInstr) :=
  [ mksimple 0xc8 8 exec_new_builder;
    mksimple 0xc9 8 exec_builder_to_cell;
    mkfixed 0xca 8 8 (exec_store_int true);
    mkfixed 0xcb 8 8 (exec_store_int false);
    mksimple 0xcc 8 (exec_store_ref false);
    mksimple 0xcd 8 (exec_store_builder_as_ref_rev false);
    mksimple 0xce 8 (exec_store_slice false);
    mkfixed (Z.shiftr 0xcf00 3) 13 3 exec_store_int_var;
    mkfixed (Z.shiftr 0xcf08 3) 13 11 exec_store_int_fixed;
    mksimple 0xcf10 16 (exec_store_ref false);
    mksimple 0xcf11 16 (exec_store_builder_as_ref false);
    mksimple 0xcf12 16 (exec_store_slice false);
    mksimple 0xcf13 16 (exec_store_builder false);
    mksimple 0xcf14 16 (exec_store_ref_rev false);
    mksimple 0xcf15 16 (exec_store_builder_as_ref_rev false);
    mksimple 0xcf16 16 (exec_store_slice_rev false);
    mksimple 0xcf17 16 (exec_store_builder_rev false);
    mksimple 0xcf18 16 (exec_store_ref true);
    mksimple 0xcf19 16 (exec_store_builder_as_ref true);
    mksimple 0xcf1a 16 (exec_store_slice true);
    mksimple 0xcf1b 16 (exec_store_builder true);
    mksimple 0xcf1c 16 (exec_store_ref_rev true);
    mksimple 0xcf1d 16 (exec_store_builder_as_ref_rev true);
    mksimple 0xcf1e 16 (exec_store_slice_rev true);
    mksimple 0xcf1f 16 (exec_store_builder_rev true);
    mkextrange 0xcf20 0xcf22 16 1 exec_store_const_ref;
    mksimple 0xcf23 16 exec_builder_to_special_cell;
    mkfixed (Z.shiftr 0xcf28 2) 14 2 exec_store_le_int;
    mksimple 0xcf30 16 (exec_int_builder_func builder_depth);
    mksimple 0xcf31 16 (exec_int_builder_func builder_size);
    mksimple 0xcf32 16 (exec_int_builder_func builder_refs);
    mksimple 0xcf33 16 (exec_2int_builder_func (fun b => (builder_size b, builder_refs b)));
    mksimple 0xcf35 16 (exec_int_builder_func builder_rem_bits);
    mksimple 0xcf36 16 (exec_int_builder_func builder_rem_refs);
    mksimple 0xcf37 16 (exec_2int_builder_func (fun b => (builder_rem_bits b, builder_rem_refs b)));
    mkfixed 0xcf38 16 8 (exec_builder_chk_bits false);
    mksimple 0xcf39 16 (exec_builder_chk_bits_refs 1);
    mksimple 0xcf3a 16 (exec_builder_chk_bits_refs 2);
    mksimple 0xcf3b 16 (exec_builder_chk_bits_refs 3);
    mkfixed 0xcf3c 16 8 (exec_builder_chk_bits true);
    mksimple 0xcf3d 16 (exec_builder_chk_bits_refs 5);
    mksimple 0xcf3e 16 (exec_builder_chk_bits_refs 6);
    mksimple 0xcf3f 16 (exec_builder_chk_bits_refs 7);
    mksimple 0xcf40 16 (exec_store_same 0);
    mksimple 0xcf41 16 (exec_store_same 1);
    mksimple 0xcf42 16 (exec_store_same (-1));
    require_version 12 (mksimple 0xcf50 16 exec_builder_to_slice);
    mkext (Z.shiftr 0xcf80 7) 9 5 exec_store_const_slice ].

(** ** Deserialisation *)

Definition exec_cell_to_slice : M VmState Z :=
  cell <- on_stack pop_cell ;;
  cs <- load_cell_slice cell ;;
  stack_op (push_slice cs).
Definition exec_cell_to_slice_maybe_special : M VmState Z :=
  cell <- on_stack pop_cell ;;
  let* (cs, is_special) := load_cell_slice_special cell in
  stack_op (push_slice cs ;; push_bool is_special).

(** A cell that cannot be loaded is an error, or [false] when [quiet] is set. *)
Definition xload_failed (quiet : bool) : M VmState Z :=
  unless_throw quiet (VmError Exc_cell_und) ;; stack_op (push_bool false).
Definition exec_load_special_cell (quiet : bool) : M VmState Z :=
  let finish (cell : Cell) : M VmState Z :=
    stack_op (push (t_cell cell) ;; if quiet then push_bool true else ret tt) in
  cell <- on_stack pop_cell ;;
  v <- gets global_version ;;
  if 5 <=? v then
    register_cell_load (get_hash cell) ;;
    if cell_special cell then
      match cell_type true (cell_bits cell) with
      | Some Library =>
          r <- load_library (take hash_bits (drop 8 (cell_bits cell))) ;;
          match r with Some cell => finish cell | None => xload_failed quiet end
      | _ => xload_failed quiet
      end
    else finish cell
  else finish cell.
Definition exec_slice_chk_empty : M VmState Z :=
  stack_op (cs <- pop_cellslice ;; unless_throw (cs_empty cs && no_refs cs) (VmError Exc_cell_und)).

Definition exec_load_int_common (bits : Z) (mode : Z) : M Stack unit :=
  cs <- pop_cellslice ;;
  if negb (have (Z.to_nat bits) cs) then
    unless_throw (arg_bit mode 2) (VmError Exc_cell_und) ;;
    (if negb (arg_bit mode 1) then push_slice cs else ret tt) ;;
    push_smallint 0
  else
    let sgnd := negb (arg_bit mode 0) in
    (if arg_bit mode 1 then x <- of_option (prefetch_int256 (Z.to_nat bits) sgnd cs) ;; push_int x
     else
       let* (x, cs) := of_option (fetch_int256 (Z.to_nat bits) sgnd cs) in
       push_int x ;; push_slice cs) ;;
    if arg_bit mode 2 then push_smallint (-1) else ret tt.
Definition exec_load_int_fixed (mode args : Z) : M VmState Z :=
  stack_op (exec_load_int_common (Z.land args 0xff + 1) mode).
Definition exec_load_int_var (args : Z) : M VmState Z :=
  stack_op (check_underflow [2] ;; bits <- pop_smallint_range (257 - Z.land args 1) 0 ;;
            exec_load_int_common bits (Z.land args 7)).
Definition exec_load_int_fixed2 (args : Z) : M VmState Z :=
  stack_op (exec_load_int_common (Z.land args 0xff + 1) (Z.land (Z.shiftr args 8) 7)).
(** [prefetch_int256_zeroext(bits, false)] *)
Definition prefetch_zeroext (bits : nat) (cs : CellSlice) : Z :=
  let ld_bits := Nat.min bits (size cs) in
  Z.shiftl (bits_to_Z (take ld_bits (slice_bits cs))) (Z.of_nat (bits - ld_bits)).
Definition exec_preload_uint_fixed_0e (args : Z) : M VmState Z :=
  let bits := Z.shiftl (Z.land args 7 + 1) 5 in
  stack_op (cs <- pop_cellslice ;; push_slice cs ;; push_int (Int (prefetch_zeroext (Z.to_nat bits) cs))).

Definition preload_ref_at (idx : Z) : M Stack unit :=
  cs <- pop_cellslice ;;
  unless_throw (have_refs (Z.to_nat idx + 1) cs) (VmError Exc_cell_und) ;;
  c <- of_option (prefetch_ref (Z.to_nat idx) cs) ;; push (t_cell c).
Definition exec_preload_ref_fixed (args : Z) : M VmState Z := stack_op (preload_ref_at (Z.land args 3)).
Definition exec_preload_ref : M VmState Z :=
  stack_op (check_underflow [2] ;; idx <- pop_smallint_range 3 0 ;; preload_ref_at idx).
Definition exec_load_ref (mode : Z) : M VmState Z :=
  stack_op (cs <- pop_cellslice ;;
            if negb (have_refs 1 cs) then
              unless_throw (arg_bit mode 2) (VmError Exc_cell_und) ;; push_smallint 0
            else
              (if arg_bit mode 1 then c <- of_option (prefetch_ref 0 cs) ;; push (t_cell c)
               else let* (c, cs) := of_option (fetch_ref cs) in push (t_cell c) ;; push_slice cs) ;;
              if arg_bit mode 2 then push_smallint (-1) else ret tt).
Definition exec_load_ref_rev_to_slice (mode : Z) : M VmState Z :=
  cs <- on_stack pop_cellslice ;;
  if negb (have_refs 1 cs) then
    unless_throw (arg_bit mode 2) (VmError Exc_cell_und) ;; stack_op (push_smallint 0)
  else
    (if arg_bit mode 1 then
       c <- of_option (prefetch_ref 0 cs) ;;
       sl <- load_cell_slice c ;; on_stack (push_slice sl)
     else
       let* (c, cs) := of_option (fetch_ref cs) in
       on_stack (push_slice cs) ;;
       sl <- load_cell_slice c ;; on_stack (push_slice sl)) ;;
    stack_op (if arg_bit mode 2 then push_smallint (-1) else ret tt).

Definition exec_load_slice_common (bits : Z) (mode : Z) : M Stack unit :=
  cs <- pop_cellslice ;;
  if negb (have (Z.to_nat bits) cs) then
    unless_throw (arg_bit mode 1) (VmError Exc_cell_und) ;;
    (if negb (arg_bit mode 0) then push_slice cs else ret tt) ;;
    push_smallint 0
  else
    (if arg_bit mode 0 then sub <- of_option (prefetch_subslice (Z.to_nat bits) 0 cs) ;; push_slice sub
     else
       let* (sub, cs) := of_option (fetch_subslice (Z.to_nat bits) 0 cs) in
       push_slice sub ;; push_slice cs) ;;
    if arg_bit mode 1 then push_smallint (-1) else ret tt.
Definition exec_load_slice_fixed (args : Z) : M VmState Z :=
  stack_op (exec_load_slice_common (Z.land args 0xff + 1) 0).
Definition exec_load_slice (args : Z) : M VmState Z :=
  stack_op (check_underflow [2] ;; bits <- pop_smallint_range 1023 0 ;; exec_load_slice_common bits args).
Definition exec_load_slice_fixed2 (args : Z) : M VmState Z :=
  stack_op (exec_load_slice_common (Z.land args 0xff + 1) (Z.shiftr args 8)).

(** Cuts: [func] gives the new slice, or fails. *)
Definition push_cut (o : option CellSlice) : M Stack unit :=
  match o with Some cs => push_slice cs | None => throw (VmError Exc_cell_und) end.
Definition exec_slice_op_args (max_arg1 : Z) (func : nat -> CellSlice -> option CellSlice) : M VmState Z :=
  stack_op (check_underflow [2] ;; x <- pop_smallint_range max_arg1 0 ;; cs <- pop_cellslice ;;
            push_cut (func (Z.to_nat x) cs)).
Definition exec_slice_op_args2 (max_arg1 max_arg2 : Z) (func : nat -> nat -> CellSlice -> option CellSlice)
    : M VmState Z :=
  stack_op (check_underflow [3] ;; y <- pop_smallint_range max_arg2 0 ;; x <- pop_smallint_range max_arg1 0 ;;
            cs <- pop_cellslice ;; push_cut (func (Z.to_nat x) (Z.to_nat y) cs)).
(** [cs.skip_first(offs) && cs.only_first(bits)] *)
Definition substr (offs bits : nat) (cs : CellSlice) : option CellSlice :=
  match skip_first offs 0 cs with Some cs => only_first bits 0 cs | None => None end.

Definition exec_slice_begins_with_common (cs2 : CellSlice) (quiet : bool) : M Stack unit :=
  cs <- pop_cellslice ;;
  if negb (is_prefix_of cs2 cs) then
    unless_throw quiet (VmError Exc_cell_und) ;; push_slice cs ;; push_smallint 0
  else
    push_slice (default cs (advance (size cs2) cs)) ;;
    if quiet then push_smallint (-1) else ret tt.
Definition exec_slice_begins_with (quiet : bool) : M VmState Z :=
  stack_op (check_underflow [2] ;; cs2 <- pop_cellslice ;; exec_slice_begins_with_common cs2 quiet).
Definition exec_slice_begins_with_const (args pfx_bits : Z) : M VmState Z :=
  let quiet := arg_bit args 7 in
  let data_bits := Z.land args 127 * 8 + 3 in
  slice <- code_fetch_subslice data_bits 0 pfx_bits ;;
  stack_op (exec_slice_begins_with_common (snd (remove_trailing slice)) quiet).

Definition exec_subslice : M VmState Z :=
  stack_op (check_underflow [5] ;;
            r2 <- pop_smallint_range 4 0 ;; l2 <- pop_smallint_range 1023 0 ;;
            r1 <- pop_smallint_range 4 0 ;; l1 <- pop_smallint_range 1023 0 ;;
            cs <- pop_cellslice ;;
            push_cut (match skip_first (Z.to_nat l1) (Z.to_nat r1) cs with
                      | Some cs => only_first (Z.to_nat l2) (Z.to_nat r2) cs
                      | None => None
                      end)).
Definition exec_split (quiet : bool) : M VmState Z :=
  stack_op (check_underflow [3] ;; refs <- pop_smallint_range 4 0 ;; bits <- pop_smallint_range 1023 0 ;;
            cs <- pop_cellslice ;;
            let bits := Z.to_nat bits in let refs := Z.to_nat refs in
            if negb (have bits cs) || negb (have_refs refs cs) then
              unless_throw quiet (VmError Exc_cell_und) ;; push_slice cs ;; push_smallint 0
            else
              push_slice (default cs (only_first bits refs cs)) ;;
              push_slice (default cs (skip_first bits refs cs)) ;;
              if quiet then push_smallint (-1) else ret tt).

Definition push_check (quiet res : bool) : M Stack unit :=
  if quiet then push_smallint (if res then -1 else 0) else unless_throw res (VmError Exc_cell_und).
Definition exec_slice_chk_op_args (max_arg1 : Z) (quiet : bool) (func : nat -> CellSlice -> bool) : M VmState Z :=
  stack_op (check_underflow [2] ;; x <- pop_smallint_range max_arg1 0 ;; cs <- pop_cellslice ;;
            push_check quiet (func (Z.to_nat x) cs)).
Definition exec_slice_chk_op_args2 (max_arg1 max_arg2 : Z) (quiet : bool) (func : nat -> nat -> CellSlice -> bool)
    : M VmState Z :=
  stack_op (check_underflow [3] ;; y <- pop_smallint_range max_arg2 0 ;; x <- pop_smallint_range max_arg1 0 ;;
            cs <- pop_cellslice ;; push_check quiet (func (Z.to_nat x) (Z.to_nat y) cs)).
Definition exec_slice_bits_refs (mode : Z) : M VmState Z :=
  stack_op (check_underflow [1] ;; cs <- pop_cellslice ;;
            (if arg_bit mode 0 then push_smallint (Z.of_nat (size cs)) else ret tt) ;;
            if arg_bit mode 1 then push_smallint (Z.of_nat (size_refs cs)) else ret tt).

Definition exec_load_le_int (args : Z) : M VmState Z :=
  let len := if arg_bit args 1 then 8%nat else 4%nat in
  let sgnd := negb (arg_bit args 0) in
  stack_op (check_underflow [1] ;; cs <- pop_cellslice ;;
            if negb (have (8 * len) cs) then
              unless_throw (arg_bit args 3) (VmError Exc_cell_und) ;;
              (if negb (arg_bit args 2) then push_slice cs else ret tt) ;;
              push_smallint 0
            else
              push_int (Int (bits_value sgnd (reverse_bytes len (take (8 * len) (slice_bits cs))))) ;;
              (if negb (arg_bit args 2) then cs <- of_option (advance (8 * len) cs) ;; push_slice cs else ret tt) ;;
              if arg_bit args 3 then push_smallint (-1) else ret tt).
Definition exec_load_same (x : Z) : M VmState Z :=
  stack_op (check_underflow [1 + Z.b2z (x <? 0)] ;;
            x <- (if x <? 0 then pop_smallint_range 1 0 else ret x) ;;
            cs <- pop_cellslice ;;
            let n := count_leading (negb (x =? 0)) cs in
            push_smallint (Z.of_nat n) ;;
            push_slice (if (0 <? n)%nat then default cs (advance n cs) else cs)).

(** ** Depths, levels and hashes *)

Definition exec_cell_depth : M VmState Z :=
  stack_op (c <- pop_maybe_cell ;; push_smallint (match c with Some c => get_depth c | None => 0 end)).
Definition exec_slice_depth : M VmState Z := stack_op (cs <- pop_cellslice ;; push_smallint (slice_depth cs)).
Definition exec_cell_level : M VmState Z :=
  stack_op (c <- pop_cell ;; push_smallint (Z.of_nat (get_cell_level c))).
(** [get_level_mask()], [get_hash(i)] and [get_depth(i)] of a cell. *)
Definition cell_level_mask (c : Cell) : Z := match cell_info c with Some i => ci_mask i | None => 0 end.
Definition cell_hash_at (i : nat) (c : Cell) : list bool :=
  match cell_info c with Some ci => info_hash i ci | None => [] end.
Definition cell_depth_at (i : nat) (c : Cell) : Z :=
  match cell_info c with Some ci => info_depth i ci | None => 0 end.
Definition exec_cell_level_mask : M VmState Z := stack_op (c <- pop_cell ;; push_smallint (cell_level_mask c)).
Definition exec_cell_hash_i (var : bool) (args : Z) : M VmState Z :=
  stack_op (i <- (if var then pop_smallint_range 3 0 else ret (Z.land args 3)) ;;
            c <- pop_cell ;; push_int (Int (bits_to_Z (cell_hash_at (Z.to_nat i) c)))).
Definition exec_cell_depth_i (var : bool) (args : Z) : M VmState Z :=
  stack_op (i <- (if var then pop_smallint_range 3 0 else ret (Z.land args 3)) ;;
            c <- pop_cell ;; push_smallint (cell_depth_at (Z.to_nat i) c)).

Definition register_cell_deserialize_ops : list (option OpcodeInstr) :=
  [ mksimple 0xd0 8 exec_cell_to_slice;
    mksimple 0xd1 8 exec_slice_chk_empty;
    mkfixed 0xd2 8 8 (exec_load_int_fixed 0);
    mkfixed 0xd3 8 8 (exec_load_int_fixed 1);
    mksimple 0xd4 8 (exec_load_ref 0);
    mksimple 0xd5 8 (exec_load_ref_rev_to_slice 0);
    mkfixed 0xd6 8 8 exec_load_slice_fixed;
    mkfixed (Z.shiftr 0xd700 3) 13 3 exec_load_int_var;
    mkfixed (Z.shiftr 0xd708 3) 13 11 exec_load_int_fixed2;
    mkfixed (Z.shiftr 0xd710 3) 13 3 exec_preload_uint_fixed_0e;
    mkfixed (Z.shiftr 0xd718 2) 14 2 exec_load_slice;
    mkfixed (Z.shiftr 0xd71c 2) 14 10 exec_load_slice_fixed2;
    mksimple 0xd720 16 (exec_slice_op_args 1023 (fun bits => only_first bits 0));
    mksimple 0xd721 16 (exec_slice_op_args 1023 (fun bits => skip_first bits 0));
    mksimple 0xd722 16 (exec_slice_op_args 1023 (fun bits => only_last bits 0));
    mksimple 0xd723 16 (exec_slice_op_args 1023 (fun bits => skip_last bits 0));
    mksimple 0xd724 16 (exec_slice_op_args2 1023 1023 substr);
    mksimple 0xd726 16 (exec_slice_begins_with false);
    mksimple 0xd727 16 (exec_slice_begins_with true);
    mkext (Z.shiftr 0xd728 3) 13 8 exec_slice_begins_with_const;
    mksimple 0xd730 16 (exec_slice_op_args2 1023 4 only_first);
    mksimple 0xd731 16 (exec_slice_op_args2 1023 4 skip_first);
    mksimple 0xd732 16 (exec_slice_op_args2 1023 4 only_last);
    mksimple 0xd733 16 (exec_slice_op_args2 1023 4 skip_last);
    mksimple 0xd734 16 exec_subslice;
    mksimple 0xd736 16 (exec_split false);
    mksimple 0xd737 16 (exec_split true);
    mksimple 0xd739 16 exec_cell_to_slice_maybe_special;
    mksimple 0xd73a 16 (exec_load_special_cell false);
    mksimple 0xd73b 16 (exec_load_special_cell true);
    mksimple 0xd741 16 (exec_slice_chk_op_args 1023 false have);
    mksimple 0xd742 16 (exec_slice_chk_op_args 1023 false have_refs);
    mksimple 0xd743 16 (exec_slice_chk_op_args2 1023 4 false have2);
    mksimple 0xd745 16 (exec_slice_chk_op_args 1023 true have);
    mksimple 0xd746 16 (exec_slice_chk_op_args 1023 true have_refs);
    mksimple 0xd747 16 (exec_slice_chk_op_args2 1023 4 true have2);
    mksimple 0xd748 16 exec_preload_ref;
    mksimple 0xd749 16 (exec_slice_bits_refs 1);
    mksimple 0xd74a 16 (exec_slice_bits_refs 2);
    mksimple 0xd74b 16 (exec_slice_bits_refs 3);
    mkfixed (Z.shiftr 0xd74c 2) 14 2 exec_preload_ref_fixed;
    mkfixed 0xd75 12 4 exec_load_le_int;
    mksimple 0xd760 16 (exec_load_same 0);
    mksimple 0xd761 16 (exec_load_same 1);
    mksimple 0xd762 16 (exec_load_same (-1));
    mksimple 0xd764 16 exec_slice_depth;
    mksimple 0xd765 16 exec_cell_depth;
    require_version 6 (mksimple 0xd766 16 exec_cell_level);
    require_version 6 (mksimple 0xd767 16 exec_cell_level_mask);
    require_version 6 (mkfixed (Z.shiftr 0xd768 2) 14 2 (exec_cell_hash_i false));
    require_version 6 (mkfixed (Z.shiftr 0xd76c 2) 14 2 (exec_cell_depth_i false));
    require_version 6 (mksimple 0xd770 16 (exec_cell_hash_i true 0));
    require_version 6 (mksimple 0xd771 16 (exec_cell_depth_i true 0)) ].

Definition register_cell_ops : list (option OpcodeInstr) :=
  register_cell_const_ops ++ register_cell_cmp_ops ++ register_cell_serialize_ops ++ register_cell_deserialize_ops.
End cellops.
