(* ===== verification/VmInvariant.v ===== *)
(** * The invariant of the virtual machine

    Well-formed entries, continuations, registers and machines; the stack
    operations keep them.  Control.v, InstrSafety.v, ContSafety.v and VmRun.v
    prove that the machine does. *)
From S2P Require Import Prelude BigInt Int256 Cells DataCell VmTypes Stack OpcodeTable Vm.

(** ** Well-formed data

    Slices lie within their cells, ordinary continuations have code, and the exit
    code of a quit continuation is not negative, so that its complement is neither
    0, which would look like "continue" to the main loop, nor positive, like the
    result of an unhandled out-of-gas exception. *)
Fixpoint entry_ok (e : StackEntry) : Prop :=
  let all := fix all (l : list StackEntry) : Prop :=
    match l with [] => True | x :: l' => entry_ok x /\ all l' end in
  match e with
  | t_slice cs => slice_ok cs
  | t_vmcont k => cont_ok k
  | t_tuple t => all t
  | t_stack t => all t
  | _ => True
  end

with cont_ok (k : Continuation) : Prop :=
  match k with
  | QuitCont code => 0 <= code
  | ExcQuitCont => True
  | PushIntCont _ next => cont_ok next
  | RepeatCont body after _ => cont_ok body /\ cont_ok after
  | AgainCont body => cont_ok body
  | UntilCont body after => cont_ok body /\ cont_ok after
  | WhileCont cond body after _ => cont_ok cond /\ cont_ok body /\ cont_ok after
  | ArgContExt d ext => cdata_ok d /\ cont_ok ext
  | OrdCont d code =>
      cdata_ok d /\ match code with Some cs => slice_ok cs | None => False end
  end

with cdata_ok (d : ControlData) : Prop :=
  let all := fix all (l : list StackEntry) : Prop :=
    match l with [] => True | x :: l' => entry_ok x /\ all l' end in
  let 'mkCData st save _ _ := d in
  match st with Some l => all l | None => True end /\ regs_ok save

with regs_ok (r : ControlRegs) : Prop :=
  let all := fix all (l : list StackEntry) : Prop :=
    match l with [] => True | x :: l' => entry_ok x /\ all l' end in
  let opt := fun o => match o with Some k => cont_ok k | None => True end in
  let 'mkRegs c0 c1 c2 c3 _ _ c7 := r in
  opt c0 /\ opt c1 /\ opt c2 /\ opt c3 /\ match c7 with Some t => all t | None => True end.

Definition stack_ok (v : Stack) : Prop := Forall entry_ok v.
Definition opt_ok {A} (P : A -> Prop) (o : option A) : Prop :=
  match o with Some a => P a | None => True end.

Lemma all_stack_ok v :
  (fix all (l : list StackEntry) : Prop :=
    match l with [] => True | x :: l' => entry_ok x /\ all l' end) v <-> stack_ok v.
Proof.
  induction v as [|e v IH]; [by split; [constructor|]|].
  unfold stack_ok. rewrite list.Forall_cons. unfold stack_ok in IH. by rewrite IH.
Qed.

Lemma entry_ok_tuple t : entry_ok (t_tuple t) <-> stack_ok t.
Proof. apply all_stack_ok. Qed.
Lemma cdata_ok_spec st save n c :
  cdata_ok (mkCData st save n c) <-> opt_ok stack_ok st /\ regs_ok save.
Proof. simpl. destruct st; simpl; [by rewrite all_stack_ok|done]. Qed.
Lemma regs_ok_spec c0 c1 c2 c3 d0 d1 c7 :
  regs_ok (mkRegs c0 c1 c2 c3 d0 d1 c7) <->
  opt_ok cont_ok c0 /\ opt_ok cont_ok c1 /\ opt_ok cont_ok c2 /\ opt_ok cont_ok c3 /\
  opt_ok stack_ok c7.
Proof. simpl. destruct c7; simpl; [by rewrite all_stack_ok|done]. Qed.

(** All registers are set. *)
Definition regs_full (r : ControlRegs) : Prop :=
  let 'mkRegs c0 c1 c2 c3 d0 d1 c7 := r in
  is_Some c0 /\ is_Some c1 /\ is_Some c2 /\ is_Some c3 /\ is_Some d0 /\ is_Some d1 /\ is_Some c7.

(** ** Stack operations keep well-formed stacks *)

(** Exception numbers other than those of normal termination. *)
Definition is_error (n : Excno) : bool := 2 <=? get_errno n.

(** [keeps m R]: started on a well-formed stack, [m] leaves one, its result
    satisfies [R], and it throws nothing but [VmError]s that stand for errors. *)
Definition keeps {A} (m : M Stack A) (R : A -> Prop) : Prop :=
  forall v, stack_ok v ->
    wlp m (fun a v' => stack_ok v' /\ R a)
          (fun e v' => stack_ok v' /\ exists n, e = VmError n /\ is_error n = true) v.

(** Split on the condition of the outermost [if]. *)
Ltac case_if :=
  match goal with |- context [match (if ?b then _ else _) with _ => _ end] => destruct b eqn:? end.

Section keeps.
Implicit Types (v : Stack).

Lemma keeps_ret {A} (a : A) (R : A -> Prop) : R a -> keeps (ret a) R.
Proof. intros HR v Hv. by split. Qed.
Lemma keeps_bind {A B} (m : M Stack A) (k : A -> M Stack B) R R' :
  keeps m R -> (forall a, R a -> keeps (k a) R') -> keeps (bind m k) R'.
Proof.
  intros Hm Hk v Hv. apply wlp_bind. eapply wlp_mono; [by apply Hm|..].
  - intros a v' [Hv' Ha]. by apply Hk.
  - done.
Qed.
Lemma keeps_weaken {A} (m : M Stack A) (R R' : A -> Prop) :
  keeps m R -> (forall a, R a -> R' a) -> keeps m R'.
Proof. intros Hm HR v Hv. eapply wlp_mono; [by apply Hm|naive_solver|done]. Qed.
Lemma keeps_throw {A} n (R : A -> Prop) : is_error n = true -> keeps (throw (VmError n)) R.
Proof. intros Hn v Hv. split; eauto. Qed.
Lemma keeps_undef {A} (R : A -> Prop) : keeps undef R.
Proof. by intros v Hv. Qed.
Lemma keeps_unless_throw b n (R : unit -> Prop) :
  is_error n = true -> R tt -> keeps (unless_throw b (VmError n)) R.
Proof. intros Hn HR. destruct b; [by apply keeps_ret|by apply keeps_throw]. Qed.
Lemma keeps_assert_ub b (R : unit -> Prop) : R tt -> keeps (assert_ub b) R.
Proof. intros HR. destruct b; [by apply keeps_ret|apply keeps_undef]. Qed.
Lemma keeps_of_option {A} (o : option A) (R : A -> Prop) :
  opt_ok R o -> keeps (of_option o) R.
Proof. intros Ho. destruct o; [by apply keeps_ret|apply keeps_undef]. Qed.
Lemma keeps_gets {A} (f : Stack -> A) (R : A -> Prop) :
  (forall v, stack_ok v -> R (f v)) -> keeps (gets f) R.
Proof. intros HR v Hv. split; [done|by apply HR]. Qed.
Lemma keeps_modify f : (forall v, stack_ok v -> stack_ok (f v)) -> keeps (modify f) (fun _ => True).
Proof. intros Hf v Hv. split; [by apply Hf|done]. Qed.

Lemma keeps_check_underflow reqs : keeps (check_underflow reqs) (fun _ => True).
Proof.
  eapply keeps_bind; [by apply (keeps_gets _ (fun _ => True))|]. intros. by apply keeps_unless_throw.
Qed.
Lemma keeps_check_underflow_p reqs : keeps (check_underflow_p reqs) (fun _ => True).
Proof.
  eapply keeps_bind; [by apply (keeps_gets _ (fun _ => True))|]. intros. by apply keeps_unless_throw.
Qed.
Lemma keeps_fetch i : keeps (fetch i) entry_ok.
Proof.
  intros v Hv. unfold fetch, bind, gets, wlp, of_option.
  destruct (i <? 0); [done|]. destruct (v !! Z.to_nat i) eqn:E; [|done].
  split; [done|]. by eapply Forall_lookup_1.
Qed.
Lemma keeps_assign i e : entry_ok e -> keeps (assign i e) (fun _ => True).
Proof.
  intros He v Hv. unfold assign, wlp. case_if; [|done]. split; [|done].
  by apply Forall_insert.
Qed.
Lemma list_swap_forall {A} (P : A -> Prop) i j l l' :
  list_swap i j l = Some l' -> Forall P l -> Forall P l'.
Proof. intros H%list_swap_perm Hl. by rewrite H. Qed.
Lemma keeps_swap i j : keeps (swap i j) (fun _ => True).
Proof.
  intros v Hv. unfold swap, wlp. case_if; [done|].
  destruct (list_swap _ _ v) eqn:E; [|done]. split; [|done]. by eapply list_swap_forall.
Qed.
Lemma keeps_push e : entry_ok e -> keeps (push e) (fun _ => True).
Proof. intros He. apply keeps_modify. intros v Hv. by constructor. Qed.
Lemma keeps_pop : keeps pop entry_ok.
Proof.
  intros v Hv. unfold pop, wlp. destruct v as [|e v]; [done|].
  apply Forall_cons_1 in Hv as [? ?]. by split.
Qed.
Lemma keeps_pop_to x : keeps (pop_to x) (fun _ => True).
Proof.
  eapply keeps_bind; [apply keeps_swap|intros _ _].
  eapply keeps_bind; [apply keeps_pop|intros ? _]. by apply keeps_ret.
Qed.
Lemma keeps_pop_many n : keeps (pop_many n) (fun _ => True).
Proof.
  intros v Hv. unfold pop_many, wlp. repeat case_if; try split; try done.
  - apply Forall_app. split; [by apply Forall_replicate|done].
  - by apply Forall_drop.
Qed.
Lemma keeps_pop_many_offs c o : keeps (pop_many_offs c o) (fun _ => True).
Proof.
  intros v Hv. unfold pop_many_offs, wlp. case_if; [|done]. split; [|done].
  apply Forall_app. split; [by apply Forall_take|by apply Forall_drop].
Qed.
Lemma keeps_drop_bottom n : keeps (drop_bottom n) (fun _ => True).
Proof.
  intros v Hv. unfold drop_bottom, wlp. case_if; [|done]. split; [by apply Forall_take|done].
Qed.
Lemma keeps_rotate_blocks x y : keeps (rotate_blocks x y) (fun _ => True).
Proof.
  intros v Hv. unfold rotate_blocks, wlp. case_if; [|done]. cbv zeta. split; [|done].
  repeat (apply Forall_app; split); auto using Forall_take, Forall_drop.
Qed.
Lemma keeps_reverse_block x y : keeps (reverse_block x y) (fun _ => True).
Proof.
  intros v Hv. unfold reverse_block, wlp. case_if; [|done]. cbv zeta. split; [|done].
  apply Forall_app; split; [by apply Forall_take|]. apply Forall_app; split.
  - apply Forall_rev. auto using Forall_take, Forall_drop.
  - auto using Forall_drop.
Qed.
Lemma keeps_split_top a b : keeps (split_top a b) (opt_ok stack_ok).
Proof.
  intros v Hv. unfold split_top, wlp. cbv zeta. case_if; [by split|].
  split; [by apply Forall_drop|by apply Forall_take].
Qed.
End keeps.

Create HintDb keeps discriminated.
#[export] Hint Resolve keeps_check_underflow keeps_check_underflow_p keeps_fetch keeps_swap keeps_pop
  keeps_pop_to keeps_pop_many keeps_pop_many_offs keeps_drop_bottom keeps_rotate_blocks
  keeps_reverse_block keeps_split_top : keeps.

(** A result of which nothing is known. *)
Definition any {A} (_ : A) : Prop := True.

Ltac keeps_step :=
  lazymatch goal with
  | |- keeps (bind _ _) _ => eapply keeps_bind; [|intros ? ?]
  | |- keeps (ret _) _ => first [apply (keeps_ret _ any); exact I | apply keeps_ret; try done]
  | |- keeps (throw _) _ => apply keeps_throw; reflexivity
  | |- keeps undef _ => apply keeps_undef
  | |- keeps (unless_throw _ _) _ => apply (keeps_unless_throw _ _ any); [reflexivity | exact I]
  | |- keeps (assert_ub _) _ => apply (keeps_assert_ub _ any); exact I
  | |- keeps (gets _) _ => apply (keeps_gets _ any); done
  | |- keeps (push _) _ => apply keeps_push; try done
  | |- keeps (assign _ _) _ => apply keeps_assign; try done
  | |- keeps (if ?b then _ else _) _ => destruct b eqn:?
  | |- keeps (match ?x with _ => _ end) _ => destruct x eqn:?
  | |- keeps (let _ := _ in _) _ => cbv zeta
  | |- keeps ?m _ =>
      first [ solve [eauto with keeps nocore]
            | eapply keeps_weaken; [solve [eauto with keeps nocore]|by intros ? ?]
            | let h := head_of m in unfold h ]
  end.
Ltac solve_keeps := repeat keeps_step.

Section typed.
Lemma keeps_pop_chk : keeps pop_chk entry_ok.
Proof. solve_keeps. Qed.
Lemma keeps_pop_null : keeps pop_null any.
Proof. solve_keeps. Qed.
Lemma keeps_pop_int : keeps pop_int any.
Proof. solve_keeps. Qed.
#[local] Hint Resolve keeps_pop_int : keeps.
Lemma keeps_pop_int_finite : keeps pop_int_finite any.
Proof. solve_keeps. Qed.
#[local] Hint Resolve keeps_pop_int_finite : keeps.
Lemma keeps_pop_bool : keeps pop_bool any.
Proof. solve_keeps. Qed.
Lemma keeps_pop_long : keeps pop_long any.
Proof. solve_keeps. Qed.
#[local] Hint Resolve keeps_pop_long : keeps.
Lemma keeps_pop_long_range max min : keeps (pop_long_range max min) (fun x => min <= x <= max).
Proof.
  unfold pop_long_range. eapply keeps_bind; [apply keeps_pop_long|]. intros x _ v Hv.
  unfold wlp, bind, unless_throw, ret, throw.
  destruct (negb _) eqn:E; [|by split; [|eexists]].
  apply negb_true_iff, orb_false_iff in E as [?%Z.ltb_ge ?%Z.ltb_ge]. split; [done|lia].
Qed.
#[local] Hint Resolve keeps_pop_long_range : keeps.
Lemma keeps_pop_smallint_range max min :
  - 2 ^ 31 <= min -> max < 2 ^ 31 -> keeps (pop_smallint_range max min) (fun x => min <= x <= max).
Proof.
  intros Hmin Hmax. unfold pop_smallint_range. eapply keeps_bind; [apply keeps_pop_long_range|].
  cbv beta. intros x Hx. apply keeps_ret. rewrite wrap_s_small; [lia|lia|]. change (32 - 1) with 31. lia.
Qed.
Lemma keeps_pop_smallint_any max min : keeps (pop_smallint_range max min) any.
Proof. solve_keeps. Qed.
Lemma keeps_pop_cell : keeps pop_cell any.
Proof. solve_keeps. Qed.
Lemma keeps_pop_maybe_cell : keeps pop_maybe_cell any.
Proof. solve_keeps. Qed.
Lemma keeps_pop_builder : keeps pop_builder any.
Proof. solve_keeps. Qed.
Lemma keeps_pop_cellslice : keeps pop_cellslice slice_ok.
Proof. solve_keeps. Qed.
Lemma keeps_pop_cont : keeps pop_cont cont_ok.
Proof. solve_keeps. Qed.
Lemma keeps_pop_tuple : keeps pop_tuple stack_ok.
Proof. solve_keeps. by apply entry_ok_tuple. Qed.

Lemma keeps_push_null : keeps push_null any.
Proof. by apply keeps_push. Qed.
Lemma keeps_push_int x : keeps (push_int x) any.
Proof. solve_keeps. Qed.
Lemma keeps_push_int_quiet x q : keeps (push_int_quiet x q) any.
Proof. solve_keeps. Qed.
Lemma keeps_push_smallint x : keeps (push_smallint x) any.
Proof. by apply keeps_push. Qed.
Lemma keeps_push_bool b : keeps (push_bool b) any.
Proof. by apply keeps_push. Qed.
End typed.

#[export] Hint Resolve keeps_pop_chk keeps_pop_null keeps_pop_int keeps_pop_int_finite keeps_pop_bool
  keeps_pop_long keeps_pop_long_range keeps_pop_smallint_any keeps_pop_cell keeps_pop_maybe_cell
  keeps_pop_builder keeps_pop_cellslice keeps_pop_cont keeps_pop_tuple keeps_push_null keeps_push_int
  keeps_push_int_quiet keeps_push_smallint keeps_push_bool : keeps.

(** ** Well-formed machines *)

(** The limit and the counter: at most [2^62], or at most [gas_max], to which an
    instruction may raise the limit.  The counter stays in the [long long] range. *)
Record gas_ok (g : GasLimits) : Prop := mkGasOk {
  gas_limit_ok : 0 <= gas_limit g <= Z.max (2 ^ 62) (gas_max g);
  gas_base_ok : gas_remaining g <= gas_base g <= Z.max (2 ^ 62) (gas_max g);
  gas_low : - 2 ^ 62 <= gas_remaining g;
  gas_max_ok : 0 <= gas_max g < 2 ^ 63
}.

Definition cstate_ok (c : CommittedState) : Prop :=
  committed c = true -> is_Some (com_c4 c) /\ is_Some (com_c5 c).

Definition code_ok (s : VmState) : Prop :=
  match code s with Some cs => slice_ok cs | None => False end.

(** The part that holds even when the gas has run out. *)
Record base_fields (version : Z) (g : GasLimits) (c : CommittedState) (free : Z) : Prop :=
  mkBaseFields {
    bl_version : 11 <= version;
    bl_gas : gas_ok g;
    bl_cstate : cstate_ok c;
    bl_free : 0 <= free <= 2 ^ 40
  }.
Definition base_local (s : VmState) : Prop :=
  base_fields (global_version s) (gas s) (cstate s) (free_gas_consumed s).

(** The part that holds while the machine runs, except that inside an operation
    some registers may be null. *)
Record run_fields (r : Z) (v : Stack) (c : ControlRegs) : Prop := mkRunFields {
  rl_gas : 0 <= r;
  rl_stack : stack_ok v;
  rl_regs : regs_ok c
}.
Definition run_local (s : VmState) : Prop := run_fields (gas_remaining (gas s)) (stack s) (cr s).

(** A child machine has no credit, and its parent has enough gas left to pay for all
    that the child may use, also after it has raised its limit. *)
Definition child_limits (g : GasLimits) (p : GasLimits) : Prop :=
  gas_base g = gas_limit g /\ gas_limit g <= gas_max g <= gas_remaining p.

(** A machine that waits for its child, and recursively its parents. *)
Fixpoint waiting_ok (s : VmState) : Prop :=
  base_local s /\ run_local s /\ regs_full (cr s) /\ code_ok s /\
  match parent s with
  | Some p => waiting_ok (p_state p) /\ child_limits (gas s) (gas (p_state p))
  | None => True
  end.

Definition parent_ok (s : VmState) : Prop :=
  match parent s with
  | Some p => waiting_ok (p_state p) /\ child_limits (gas s) (gas (p_state p))
  | None => True
  end.

(** The gas that the parent pays when the machine ends. *)
Definition gas_charged (g : GasLimits) : Z := Z.min (gas_consumed g) (gas_limit g + 1).

(** The gas that the machine may yet use: what remains, or what will remain after the
    limit has been raised to [gas_max]. *)
Definition gas_reserve (g : GasLimits) : Z := Z.max (gas_base g) (gas_max g) - gas_consumed g.

(** The gas that is left to the whole chain of machines, with one more unit for each
    parent: the measure of the termination proof. *)
Fixpoint chain_gas (s : VmState) : Z :=
  match parent s with
  | Some p => chain_gas (p_state p) + 1 - gas_charged (gas s)
  | None => gas_reserve (gas s)
  end.
Definition gas_left (s : VmState) : Z :=
  match parent s with
  | Some p => chain_gas (p_state p) + 1 - gas_charged (gas s)
  | None => gas_reserve (gas s)
  end.

(** At most [g] units of gas are left. *)
Definition base_ok (g : Z) (s : VmState) : Prop := base_local s /\ parent_ok s /\ gas_left s <= g.
Definition mach_ok (g : Z) (s : VmState) : Prop := base_ok g s /\ run_local s.
Definition vm_ok (g : Z) (s : VmState) : Prop := mach_ok g s /\ regs_full (cr s).

(** The machine has run out of gas. *)
Definition no_gas (g : Z) (s : VmState) : Prop := base_ok g s /\ gas_remaining (gas s) < 0.

(** What an exception leaves: a machine that can run an exception handler, unless
    it is out of gas. *)
Definition err_post (g : Z) (e : exc) (s : VmState) : Prop :=
  match e with
  | VmNoGas => no_gas g s
  | VmError n => is_error n = true /\ vm_ok g s
  | CellWriteError | CellCreateError => vm_ok g s
  | _ => False
  end.

(** What a handler leaves: with result 0 the machine can go on. *)
Definition handler_post (g : Z) (res : Z) (s : VmState) : Prop :=
  res <= 0 /\ mach_ok g s /\ (res = 0 -> vm_ok g s /\ code_ok s).

Definition handler_ok (m : M VmState Z) : Prop :=
  forall g s, vm_ok g s -> code_ok s -> wp m (handler_post g) (err_post g) s.

Lemma waiting_ok_unfold s :
  waiting_ok s <-> base_local s /\ run_local s /\ regs_full (cr s) /\ code_ok s /\ parent_ok s.
Proof. by destruct s. Qed.

Section monotone.
Context (g g' : Z) (Hg : g <= g').
Lemma base_ok_mono s : base_ok g s -> base_ok g' s.
Proof. intros (? & ? & ?). split_and!; [done|done|lia]. Qed.
Lemma vm_ok_mono s : vm_ok g s -> vm_ok g' s.
Proof. intros [[? ?] ?]. split; [split|]; [by apply base_ok_mono|done|done]. Qed.
Lemma handler_post_mono res s : handler_post g res s -> handler_post g' res s.
Proof.
  intros (? & [? ?] & Hz). split_and!; [done|split; [by apply base_ok_mono|done]|].
  intros [? ?]%Hz. eauto using vm_ok_mono.
Qed.
Lemma err_post_mono e s : err_post g e s -> err_post g' e s.
Proof.
  destruct e; try done; try apply vm_ok_mono; intros [? ?]; (split; [|done]) || (split; [done|]);
    eauto using vm_ok_mono, base_ok_mono.
Qed.
End monotone.

Lemma err_post_vm g n s : is_error n = true -> vm_ok g s -> err_post g (VmError n) s.
Proof. done. Qed.
Lemma handler_post_ok g s : vm_ok g s -> code_ok s -> handler_post g 0 s.
Proof. intros H Hc. split_and!; [done|apply H|done]. Qed.

(** *** Gas *)

Lemma chain_gas_eq s : chain_gas s = gas_left s.
Proof. by destruct s. Qed.

(** Spending gas: what the chain loses is the amount, unless the machine goes into
    debt, which costs what it had and one unit more. *)
Lemma gas_left_spend a s :
  0 <= a -> 0 <= gas_remaining (gas s) -> parent_ok s ->
  gas_left (spend a s) <= gas_left s - Z.min a (gas_remaining (gas s) + 1).
Proof.
  intros Ha Hr Hp. unfold gas_left, gas_charged, gas_reserve, gas_consumed, parent_ok, child_limits in *.
  cbn [parent spend set_gas gas set_remaining gas_base gas_remaining gas_limit gas_max].
  destruct (parent s); [destruct Hp as [_ [Hb _]]|]; lia.
Qed.

(** The amounts that the machine ever consumes at once. *)
Definition chargeable (a : Z) (s : VmState) : Prop :=
  0 <= a /\ (a <= 2 ^ 61 \/ a <= gas_remaining (gas s) + 1).

Lemma base_ok_spend g s a :
  chargeable a s -> 0 <= gas_remaining (gas s) -> base_ok g s ->
  base_ok (g - Z.min a (gas_remaining (gas s) + 1)) (spend a s).
Proof.
  intros [Ha Ha'] Hr ([Hv [Hl Hb Hlow Hmx] Hc Hf] & Hp & Hg). split_and!.
  - split; [done| |done|done]. split; simpl; lia.
  - unfold parent_ok, child_limits in *. cbn. by destruct (parent s).
  - pose proof (gas_left_spend a s Ha Hr Hp). lia.
Qed.

Lemma mach_ok_spend g s a :
  0 <= a <= gas_remaining (gas s) -> mach_ok g s -> mach_ok (g - a) (spend a s).
Proof.
  intros Ha [Hb [Hr Hs Hc]]. split; [|by split; [simpl; lia| |]].
  replace (g - a) with (g - Z.min a (gas_remaining (gas s) + 1)) by lia.
  apply base_ok_spend; [|done|done]. split; lia.
Qed.

(** Consume gas in any machine of the invariant; what is reached keeps the same
    code, stack and registers. *)
Lemma wp_consume_exact g a (Q : unit -> VmState -> Prop) (E : exc -> VmState -> Prop) s :
  chargeable a s -> mach_ok g s ->
  (mach_ok (g - a) (spend a s) -> Q tt (spend a s)) ->
  (no_gas (g - Z.min a (gas_remaining (gas s) + 1)) (spend a s) -> E VmNoGas (spend a s)) ->
  wp (consume_gas a) Q E s.
Proof.
  intros Ha Hm HQ HE. pose proof Hm as [Hb [Hr _ _]].
  destruct Hb as ([Hv [_ Hbase _ Hmx] _ _] & _ & _). pose proof Ha as [Ha0 Ha1].
  apply wp_consume_gas; [lia|lia|..].
  - intros [Hle|?]; [|lia]. apply HQ, mach_ok_spend; [lia|done].
  - intros Hlt _. apply HE. split; [apply base_ok_spend; [done|done|apply Hm]|cbn; lia].
Qed.

Lemma wp_consume_ok g a (Q : unit -> VmState -> Prop) (E : exc -> VmState -> Prop) s :
  0 <= a <= 2 ^ 61 -> mach_ok g s ->
  (mach_ok (g - a) (spend a s) -> Q tt (spend a s)) ->
  (forall s', no_gas g s' -> E VmNoGas s') ->
  wp (consume_gas a) Q E s.
Proof.
  intros Ha Hm HQ HE. apply (wp_consume_exact g); [split; lia|done|done|].
  intros [Hb Hlt]. apply HE. split; [|done]. eapply base_ok_mono; [|done].
  pose proof (rl_gas _ _ _ (proj2 Hm)). lia.
Qed.

Lemma consume_gas_chk_eq a s : 4 <= global_version s -> consume_gas_chk a s = consume_gas a s.
Proof.
  intros Hv. unfold consume_gas. unfold bind at 1. unfold gets.
  by rewrite (proj2 (Z.leb_le 4 _)) by done.
Qed.
Lemma wp_consume_chk_ok g a (Q : unit -> VmState -> Prop) (E : exc -> VmState -> Prop) s :
  0 <= a <= 2 ^ 61 -> mach_ok g s ->
  (mach_ok (g - a) (spend a s) -> Q tt (spend a s)) ->
  (forall s', no_gas g s' -> E VmNoGas s') ->
  wp (consume_gas_chk a) Q E s.
Proof.
  intros Ha Hm HQ HE. unfold wp.
  rewrite consume_gas_chk_eq by (destruct Hm as [[[Hv _ _ _] _] _]; lia).
  by apply (wp_consume_ok g).
Qed.

Lemma wrap_u32_bound x : 0 <= wrap_u 32 x < 2 ^ 32.
Proof. apply Z.mod_pos_bound. lia. Qed.

(** Stack and tuple gas is a 32-bit amount. *)
Lemma wp_consume_stack_ok g d (Q : unit -> VmState -> Prop) (E : exc -> VmState -> Prop) s :
  mach_ok g s ->
  (forall a, 0 <= a -> mach_ok g (spend a s) -> Q tt (spend a s)) ->
  (forall s', no_gas g s' -> E VmNoGas s') ->
  wp (consume_stack_gas d) Q E s.
Proof.
  intros Hm HQ HE. unfold consume_stack_gas, free_stack_depth, stack_entry_gas_price.
  pose proof (wrap_u32_bound d). set (a := (Z.max (wrap_u 32 d) 32 - 32) * 1).
  assert (0 <= a <= 2 ^ 61) as Ha by lia. apply (wp_consume_ok g); [done|done| |done].
  intros [Hb Hr]. apply HQ; [lia|]. split; [|done]. eapply base_ok_mono; [|done]. lia.
Qed.
