(* ===== verification/Control.v ===== *)
(** * Jumps, calls and returns keep the machine well-formed

    Specifications of the control flow operations of Vm.v against the invariant of
    VmInvariant.v: none of them runs into undefined behaviour (a null register or
    stack, running out of the nesting bound of [jump_to]), and after each the
    machine can go on or run an exception handler. *)
From S2P Require Import Prelude BigInt Int256 Cells DataCell VmTypes Stack OpcodeTable Vm VmInvariant.

(** ** Registers *)

Definition save_of (k : Continuation) : ControlRegs :=
  match get_cdata k with Some d => cdata_save d | None => empty_regs end.

(** Jumping to [k] now makes all registers non-null. *)
Definition ready (k : Continuation) (s : VmState) : Prop := regs_full (regs_xor (cr s) (save_of k)).

Ltac regs_cases :=
  repeat match goal with
    | r : ControlRegs |- _ => destruct r
    | o : option Continuation |- _ => destruct o
    | o : option Cell |- _ => destruct o
    | o : option (list StackEntry) |- _ => destruct o
    end.

Lemma regs_xor_empty r : regs_xor r empty_regs = r.
Proof. by destruct r. Qed.
Lemma regs_xor_full r save : regs_full r -> regs_full (regs_xor r save).
Proof.
  destruct r, save. simpl. unfold ref_xor. intros (? & ? & ? & ? & ? & ? & ?).
  split_and!; by case_match.
Qed.
Lemma regs_clear_xor_full r save : regs_full r -> regs_full (regs_xor (regs_clear r save) save).
Proof.
  destruct r, save. simpl. unfold ref_xor, ref_clear. intros (? & ? & ? & ? & ? & ? & ?).
  split_and!; by case_match.
Qed.
Lemma regs_xor_ok r save : regs_ok r -> regs_ok save -> regs_ok (regs_xor r save).
Proof.
  destruct r, save. cbn [regs_xor]. rewrite !regs_ok_spec. unfold ref_xor.
  intros (? & ? & ? & ? & ?) (? & ? & ? & ? & ?). split_and!; by case_match.
Qed.
Lemma regs_clear_ok r save : regs_ok r -> regs_ok (regs_clear r save).
Proof.
  destruct r, save. cbn [regs_clear]. rewrite !regs_ok_spec. unfold ref_clear.
  intros (? & ? & ? & ? & ?). split_and!; by case_match.
Qed.
Lemma ready_full k s : regs_full (cr s) -> ready k s.
Proof. apply regs_xor_full. Qed.

Lemma save_of_ok k : cont_ok k -> regs_ok (save_of k).
Proof.
  unfold save_of. destruct k; cbn [get_cdata cont_ok]; try done; intros [H _];
    destruct data; by apply cdata_ok_spec in H as [_ ?].
Qed.
Lemma cdata_stack_ok k d st : cont_ok k -> get_cdata k = Some d -> cdata_stack d = Some st -> stack_ok st.
Proof.
  destruct k; cbn [get_cdata cont_ok]; try done; intros [H _] [= <-];
    destruct data; apply cdata_ok_spec in H as [? _]; simpl; by intros ->.
Qed.
Lemma save_of_cdata k d : get_cdata k = Some d -> save_of k = cdata_save d.
Proof. unfold save_of. by intros ->. Qed.
Lemma save_of_none k : get_cdata k = None -> save_of k = empty_regs.
Proof. unfold save_of. by intros ->. Qed.

(** Replacing parts of a machine. *)
Lemma mach_set_stack g v s : stack_ok v -> mach_ok g s -> mach_ok g (set_stack v s).
Proof. intros Hv [Hb [Hr _ Hc]]. split; [exact Hb|]. by split. Qed.
Lemma mach_set_cr g r s : regs_ok r -> mach_ok g s -> mach_ok g (set_cr r s).
Proof. intros Hv [Hb [Hr Hs _]]. split; [exact Hb|]. by split. Qed.
Lemma mach_set_code g c s : mach_ok g s -> mach_ok g (set_code_field c s).
Proof. intros [Hb [Hr Hs Hc]]. split; [exact Hb|]. by split. Qed.
Lemma mach_set_cp g c s : mach_ok g s -> mach_ok g (set_cp_field c s).
Proof. intros [Hb [Hr Hs Hc]]. split; [exact Hb|]. by split. Qed.
Lemma mach_set_steps g n s : mach_ok g s -> mach_ok g (set_steps n s).
Proof. intros [Hb [Hr Hs Hc]]. split; [exact Hb|]. by split. Qed.
Lemma mach_mono g g' s : g <= g' -> mach_ok g s -> mach_ok g' s.
Proof. intros Hg [Hb Hr]. split; [by eapply base_ok_mono|done]. Qed.
Lemma vm_set_stack g v s : stack_ok v -> vm_ok g s -> vm_ok g (set_stack v s).
Proof. intros Hv [Hm Hf]. split; [by apply mach_set_stack|done]. Qed.

Create HintDb mach.
#[export] Hint Resolve mach_set_stack mach_set_cr mach_set_code mach_set_cp mach_set_steps
  regs_xor_ok regs_clear_ok regs_xor_full regs_clear_xor_full save_of_ok : mach.

(** Stack code inside the machine: total by [wp], and it keeps the stack
    well-formed by [keeps]. *)
Lemma wp_on_stack_ok {A} (m : M Stack A) R g (Q : A -> VmState -> Prop) (E : exc -> VmState -> Prop) s :
  keeps m R -> mach_ok g s -> m (stack s) <> Undef ->
  (forall a v, m (stack s) = Ret a v -> R a -> mach_ok g (set_stack v s) -> Q a (set_stack v s)) ->
  (forall n v, is_error n = true -> mach_ok g (set_stack v s) -> E (VmError n) (set_stack v s)) ->
  wp (on_stack m) Q E s.
Proof.
  intros Hk Hm Hu HQ HE. unfold wp, on_stack.
  specialize (Hk (stack s) (rl_stack _ _ _ (proj2 Hm))). unfold wlp in Hk.
  destruct (m (stack s)) as [a v|e v|]; [| |done].
  - destruct Hk as [Hv Ha]. eauto with mach.
  - destruct Hk as (Hv & n & -> & Hn). eauto with mach.
Qed.

Section control.
Context `{Sha256} `{LibDict}.
Implicit Types (s : VmState) (k : Continuation).

(** ** Passing arguments *)

Lemma wp_take_from_stack g st copy (Q : Stack -> VmState -> Prop) E s :
  copy <= depth (stack s) -> stack_ok st -> mach_ok g s ->
  (forall new old, stack_ok new -> mach_ok g (set_stack old s) ->
     old = drop (Z.to_nat copy) (stack s) -> Q new (set_stack old s)) ->
  wp (take_from_stack st copy) Q E s.
Proof.
  intros Hd Hst Hm HQ. unfold wp, take_from_stack, move_from_stack.
  rewrite (proj2 (Z.ltb_ge _ _)) by done.
  pose proof (rl_stack _ _ _ (proj2 Hm)) as Hs. apply HQ; [| |done].
  - apply Forall_app. split; [by apply Forall_take|done].
  - apply mach_set_stack; [by apply Forall_drop|done].
Qed.

Lemma wp_drop_bottom_ok g n (Q : unit -> VmState -> Prop) E s :
  0 <= n <= depth (stack s) -> mach_ok g s ->
  (forall v, mach_ok g (set_stack v s) -> Q tt (set_stack v s)) ->
  wp (on_stack (drop_bottom n)) Q E s.
Proof.
  intros Hn Hm HQ. unfold wp, on_stack, drop_bottom.
  rewrite (proj2 (Z.leb_le 0 n)), (proj2 (Z.leb_le n _)) by lia. cbn [andb].
  apply HQ, mach_set_stack; [apply Forall_take, Hm|done].
Qed.

(** The machine [s'] has the code of [s], and its registers are those of [s] with
    the ones saved in [k] possibly cleared. *)
Definition adjusted k s s' : Prop :=
  code s' = code s /\ (cr s' = cr s \/ cr s' = regs_clear (cr s) (save_of k)).

Lemma adjusted_ready k s s' : regs_full (cr s) -> adjusted k s s' -> ready k s'.
Proof.
  intros Hf [_ [E|E]]; unfold ready; rewrite E; auto with mach.
Qed.

Lemma adjust_jump_cont_ok g k n s :
  cont_ok k -> vm_ok g s ->
  wp (adjust_jump_cont k n) (fun _ s' => mach_ok g s' /\ adjusted k s s') (err_post g) s.
Proof.
  intros Hk Hs. unfold adjust_jump_cont, preclear_cr, modify_cr. apply wp_bind, wp_gets.
  pose proof (depth_nonneg (stack s)) as Hd0.
  assert (forall s', no_gas g s' -> err_post g VmNoGas s') as HE by done.
  destruct (get_cdata k) as [d|] eqn:Ek.
  - apply wp_bind, wp_unless_throw; [intros [H1 H2]%negb_true_iff%orb_false_iff|intros; by apply err_post_vm].
    apply Z.ltb_ge in H1, H2.
    apply wp_bind, wp_unless_throw; [intros H3%negb_true_iff|intros; by apply err_post_vm].
    apply wp_bind, wp_modify. rewrite <- (save_of_cdata _ _ Ek).
    set (s1 := set_cr _ s).
    assert (mach_ok g s1) as Hm1 by (apply mach_set_cr; [apply regs_clear_ok|]; apply Hs).
    set (copy := if _ && _ then n else cdata_nargs d).
    assert (copy <= depth (stack s)) as Hcopy by (unfold copy; case_match; lia).
    assert (forall r, mach_ok g r -> code r = code s1 -> cr r = cr s1 ->
      mach_ok g r /\ adjusted k s r) as Hdone.
    { intros r Hr Hc Hcr. split; [done|]. split; [by rewrite Hc|right; by rewrite Hcr]. }
    destruct (cdata_stack d) as [[|e st]|] eqn:Est.
    2: { apply wp_bind. eapply wp_take_from_stack; [| |done|].
         - cbn [stack s1 set_cr]. case_match; lia.
         - by eapply cdata_stack_ok.
         - intros new old Hnew Hm2 _. apply wp_bind, (wp_consume_stack_ok g); [done| |done].
           intros a _ Hm3. apply wp_modify. apply Hdone; [by apply mach_set_stack|done|done]. }
    all: destruct ((0 <=? copy) && (copy <? depth (stack s))) eqn:Ec; [|by apply wp_ret, Hdone].
    all: apply andb_true_iff in Ec as [Ec1%Z.leb_le Ec2%Z.ltb_lt].
    all: apply wp_bind, (wp_drop_bottom_ok g); [cbn [stack s1 set_cr]; lia|done|].
    all: intros v Hm2; apply (wp_consume_stack_ok g); [done| |done].
    all: intros a _ Hm3; apply Hdone; [done|done|done].
  - assert (forall r, mach_ok g r -> code r = code s -> cr r = cr s ->
      mach_ok g r /\ adjusted k s r) as Hdone.
    { intros r Hr Hc Hcr. split; [done|]. split; [done|by left]. }
    destruct (0 <=? n) eqn:En; [|apply wp_ret, Hdone; [apply Hs|done|done]].
    apply Z.leb_le in En.
    apply wp_bind, wp_unless_throw; [intros H1%negb_true_iff%Z.ltb_ge|intros; by apply err_post_vm].
    destruct (n <? depth (stack s)) eqn:Ec; [|apply wp_ret, Hdone; [apply Hs|done|done]].
    apply Z.ltb_lt in Ec.
    apply wp_bind, (wp_drop_bottom_ok g); [lia|apply Hs|]. intros v Hm2.
    apply (wp_consume_stack_ok g); [done| |done]. intros a _ Hm3. by apply Hdone.
Qed.

(** ** Jumps *)

Lemma get_errno_range n : 0 <= get_errno n < 2 ^ 16.
Proof. destruct n; simpl; lia. Qed.
Lemma lnot_exit n P : 0 <= n -> Z.lnot n <= 0 /\ (Z.lnot n = 0 -> P).
Proof. unfold Z.lnot. lia. Qed.

Lemma wp_set_c0_full g k (Q : unit -> VmState -> Prop) E s :
  cont_ok k -> vm_ok g s ->
  (vm_ok g (set_cr (set_c0 (Some k) (cr s)) s) -> Q tt (set_cr (set_c0 (Some k) (cr s)) s)) ->
  wp (vm_set_c0 (Some k)) Q E s.
Proof.
  intros Hk [Hm Hf] HQ. apply wp_modify, HQ. pose proof (rl_regs _ _ _ (proj2 Hm)) as Hr.
  split.
  - apply mach_set_cr; [|done]. destruct (cr s). cbn [set_c0]. rewrite regs_ok_spec in *. tauto.
  - simpl. destruct (cr s). simpl in *. split_and!; try tauto. done.
Qed.

(** A pop of a boolean in a well-formed machine. *)
Lemma wp_pop_bool_ok g (Q : bool -> VmState -> Prop) s :
  vm_ok g s -> (forall b v, vm_ok g (set_stack v s) -> Q b (set_stack v s)) ->
  wp (on_stack pop_bool) Q (err_post g) s.
Proof.
  intros [Hm Hf] HQ. apply (wp_on_stack_ok _ any g); [apply keeps_pop_bool|done|..].
  - eapply wp_not_undef, pops_pop_bool; [|by intros; exact I]. by intros; exact I.
  - intros b v _ _ Hm'. apply HQ. by split.
  - intros n v Hn Hm'. apply err_post_vm; [done|]. by split.
Qed.

Lemma force_cp_ok g c (Q : unit -> VmState -> Prop) s :
  vm_ok g s -> (forall c', Q tt (set_cp_field c' s)) -> Q tt s ->
  wp (force_cp c) Q (err_post g) s.
Proof.
  intros Hs HQ HQ'. unfold force_cp, set_cp. apply wp_bind, wp_bind, wp_gets.
  destruct (_ =? _); [by apply wp_ret|]. unfold init_cp.
  destruct (has_table c); [apply wp_bind, wp_modify, wp_ret, HQ|].
  apply wp_ret, wp_throw. by apply err_post_vm.
Qed.

(** One jump: all registers are set, and the next continuation is nested in this
    one; without a next one the machine has code or an exit code. *)
Definition jumped (g : Z) k (next : option Continuation) (res : Z) (s : VmState) : Prop :=
  vm_ok g s /\
  match next with
  | Some k' => cont_ok k' /\ (cont_height k' < cont_height k)%nat
  | None => res <= 0 /\ (res = 0 -> code_ok s)
  end.

Lemma wp_adjust_cr g k (Q : unit -> VmState -> Prop) E s :
  cont_ok k -> mach_ok g s -> ready k s ->
  (vm_ok g (set_cr (regs_xor (cr s) (save_of k)) s) ->
   Q tt (set_cr (regs_xor (cr s) (save_of k)) s)) ->
  wp (adjust_cr (save_of k)) Q E s.
Proof.
  intros Hk Hm Hr HQ. apply wp_modify, HQ. split; [|done].
  apply mach_set_cr; [|done]. apply regs_xor_ok; [apply Hm|by apply save_of_ok].
Qed.

Lemma jumped_some g k k' s :
  vm_ok g s -> cont_ok k' -> (cont_height k' < cont_height k)%nat -> jumped g k (Some k') 0 s.
Proof. intros. split; [done|]. by split. Qed.

(** Set c0 to a loop continuation unless the body has its own c0. *)
Lemma wp_loop_c0 g k l next (b : bool) s :
  cont_ok l -> cont_ok next -> (cont_height next < cont_height k)%nat -> vm_ok g s ->
  wp ((if b then ret tt else vm_set_c0 (Some l)) ;; ret (Some next, 0))
     (fun '(n, r) s' => jumped g k n r s') (err_post g) s.
Proof.
  intros Hl Hn Hh Hs. apply wp_bind. destruct b; [by apply wp_ret, wp_ret, jumped_some|].
  apply (wp_set_c0_full g); [done|done|]. intros Hs'. by apply wp_ret, jumped_some.
Qed.

Lemma cont_jump_ok g k s :
  cont_ok k -> mach_ok g s -> ready k s ->
  wp (cont_jump k) (fun '(next, res) s' => jumped g k next res s') (err_post g) s.
Proof.
  intros Hk Hm Hready.
  assert (get_cdata k = None -> vm_ok g s) as Hvm.
  { intros E. split; [done|]. unfold ready in Hready. rewrite save_of_none, regs_xor_empty in Hready; done. }
  destruct k as [c| |v n|body after count|body|body after|cond body after chk|d ext|d c];
    cbn [cont_jump]; cbn [get_cdata] in Hvm; try specialize (Hvm eq_refl); unfold_head.
  - apply wp_ret. split; [done|]. cbn [cont_ok] in Hk. by apply lnot_exit.
  - apply wp_bind. unfold wp, pop_exit_code.
    pose proof (keeps_pop_smallint_range 65535 0 ltac:(lia) ltac:(lia) (stack s)) as Hkeep.
    assert (pop_smallint_range 65535 0 (stack s) <> Undef) as Hu.
    { eapply wp_not_undef, pops_pop_smallint_range; [lia|lia| |]; by intros; exact I. }
    destruct Hvm as [Hm' Hf].
    specialize (Hkeep (rl_stack _ _ _ (proj2 Hm'))). unfold wlp in Hkeep.
    destruct (pop_smallint_range 65535 0 (stack s)) as [a w|e w|]; [| |done].
    + destruct Hkeep as [Hw Ha].
      change (jumped g ExcQuitCont None (Z.lnot a) (set_stack w s)).
      split; [split; [by apply mach_set_stack|done]|].
      apply lnot_exit. lia.
    + destruct Hkeep as (Hw & x & -> & _).
      change (jumped g ExcQuitCont None (Z.lnot (get_errno x)) (set_stack w s)).
      split; [split; [by apply mach_set_stack|done]|].
      apply lnot_exit, get_errno_range.
  - apply wp_bind. unfold wp, on_stack. cbn. apply jumped_some; [|done|simpl; lia].
    apply vm_set_stack; [|done]. constructor; [done|]. apply Hvm.
  - cbn [cont_ok] in Hk. destruct Hk as [Hb Ha].
    destruct (count <=? 0); [apply wp_ret, jumped_some; [done|done|simpl; lia]|].
    pose proof (wp_loop_c0 g (RepeatCont body after count) (RepeatCont body after (count - 1)) body
      (has_c0 body) s (conj Hb Ha) Hb ltac:(simpl; lia) Hvm) as HL.
    destruct (has_c0 body); exact HL.
  - apply wp_loop_c0; [done|done|simpl; lia|done].
  - cbn [cont_ok] in Hk. destruct Hk as [Hb Ha]. apply wp_bind, (wp_pop_bool_ok g); [done|].
    intros b w Hw. destruct b; [apply wp_ret, jumped_some; [done|done|simpl; lia]|].
    apply wp_loop_c0; [done|done|simpl; lia|done].
  - cbn [cont_ok] in Hk. destruct Hk as (Hc & Hb & Ha). destruct chk.
    + apply wp_bind, (wp_pop_bool_ok g); [done|]. intros b w Hw.
      destruct (negb b); [apply wp_ret, jumped_some; [done|done|simpl; lia]|].
      apply wp_loop_c0; [done|done|simpl; lia|done].
    + apply wp_loop_c0; [done|done|simpl; lia|done].
  - apply wp_bind. rewrite <- (save_of_cdata (ArgContExt d ext)) by done.
    apply (wp_adjust_cr g); [done|done|done|]. intros Hs. cbn [cont_ok] in Hk.
    assert (forall r, vm_ok g r -> wp (ret (Some ext, 0))
      (fun '(n, res) s' => jumped g (ArgContExt d ext) n res s') (err_post g) r) as Hdone.
    { intros r Hr. apply wp_ret, jumped_some; [done|apply Hk|simpl; lia]. }
    apply wp_bind. case_match; [by apply wp_ret, Hdone|].
    apply force_cp_ok; [done|intros; apply Hdone|by apply Hdone].
    split; [apply mach_set_cp|]; apply Hs.
  - apply wp_bind. rewrite <- (save_of_cdata (OrdCont d c)) by done.
    apply (wp_adjust_cr g); [done|done|done|]. intros Hs. cbn [cont_ok] in Hk.
    apply wp_bind. unfold set_code. apply wp_bind, wp_modify.
    set (s1 := set_cr _ s) in *.
    assert (vm_ok g (set_code_field c s1)) as Hs1 by (split; [apply mach_set_code|]; apply Hs).
    assert (code_ok (set_code_field c s1)) as Hcode by apply Hk.
    apply force_cp_ok; [done|..].
    + intros c'. apply wp_ret. split; [split; [apply mach_set_cp|]; apply Hs1|]. by split.
    + apply wp_ret. by split.
Qed.

Lemma jump_overhead_ok g cnt next s :
  vm_ok g s -> opt_ok cont_ok next ->
  wp (jump_overhead cnt next)
     (fun _ s' => mach_ok g s' /\ code s' = code s /\
        match next with Some k => ready k s' | None => regs_full (cr s') end)
     (err_post g) s.
Proof.
  intros Hs Hn. unfold jump_overhead. apply wp_bind, wp_gets. apply wp_bind.
  assert (forall s1, vm_ok g s1 -> code s1 = code s ->
    wp (match next with
        | Some k => if (9 <=? global_version s) && needs_adjust k then adjust_jump_cont k (-1) else ret tt
        | None => ret tt end)
      (fun _ s' => mach_ok g s' /\ code s' = code s /\
        match next with Some k => ready k s' | None => regs_full (cr s') end) (err_post g) s1) as Hrest.
  { intros s1 Hs1 Hc. destruct next as [k|]; [|apply wp_ret; split_and!; [apply Hs1|done|apply Hs1]].
    destruct (_ && _).
    - eapply wp_mono; [by apply adjust_jump_cont_ok| |done].
      intros _ s2 [Hm2 Ha]. split_and!; [done| |eapply adjusted_ready; [apply Hs1|done]].
      destruct Ha as [-> _]. done.
    - apply wp_ret. split_and!; [apply Hs1|done|apply ready_full, Hs1]. }
  destruct (_ && _); [|by apply wp_ret, Hrest].
  apply (wp_consume_ok g); [lia|apply Hs|..].
  - intros Hm. apply Hrest; [|done]. split; [eapply mach_mono; [|done]; lia|apply Hs].
  - by intros s' Hb.
Qed.

Lemma jump_loop_ok fuel : forall g k cnt s,
  cont_ok k -> mach_ok g s -> ready k s -> (cont_height k < fuel)%nat ->
  wp (jump_loop fuel k cnt) (handler_post g) (err_post g) s.
Proof.
  induction fuel as [|fuel IH]; intros g k cnt s Hk Hm Hr Hf; [lia|].
  cbn [jump_loop]. apply wp_bind. eapply wp_mono; [by apply cont_jump_ok| |done].
  intros [next res] s1 [Hs1 Hn]. apply wp_bind.
  eapply wp_mono; [apply jump_overhead_ok; [done|]| |done].
  - destruct next; [apply Hn|done].
  - intros _ s2 (Hm2 & Hc & Hnext). destruct next as [k'|].
    + destruct Hn as [Hk' Hh]. apply IH; [done|done|done|lia].
    + apply wp_ret. destruct Hn as [Hres Hn]. split_and!; [done|apply Hm2|].
      intros E. split; [by split|]. unfold code_ok in *. rewrite Hc. exact (Hn E).
Qed.

Lemma jump_to_ok g k s :
  cont_ok k -> mach_ok g s -> ready k s -> wp (jump_to k) (handler_post g) (err_post g) s.
Proof. intros. by apply jump_loop_ok; [| | |lia]. Qed.

Lemma jump_args_ok g k n s :
  cont_ok k -> vm_ok g s -> wp (jump_args k n) (handler_post g) (err_post g) s.
Proof.
  intros Hk Hs. apply wp_bind. eapply wp_mono; [by apply adjust_jump_cont_ok| |done].
  intros _ s1 [Hm Ha]. apply jump_to_ok; [done|done|]. eapply adjusted_ready; [apply Hs|done].
Qed.

Lemma jump_ok g k s : cont_ok k -> vm_ok g s -> wp (jump k) (handler_post g) (err_post g) s.
Proof.
  intros Hk Hs. unfold jump. case_match; [by apply jump_args_ok|].
  apply jump_to_ok; [done|apply Hs|apply ready_full, Hs].
Qed.

(** ** Calls *)

Lemma set_c0_ok (k : option Continuation) r : opt_ok cont_ok k -> regs_ok r -> regs_ok (set_c0 k r).
Proof. destruct r. cbn [set_c0]. rewrite !regs_ok_spec. tauto. Qed.
Lemma set_c1_ok (k : option Continuation) r : opt_ok cont_ok k -> regs_ok r -> regs_ok (set_c1 k r).
Proof. destruct r. cbn [set_c1]. rewrite !regs_ok_spec. tauto. Qed.
Lemma set_c2_ok (k : option Continuation) r : opt_ok cont_ok k -> regs_ok r -> regs_ok (set_c2 k r).
Proof. destruct r. cbn [set_c2]. rewrite !regs_ok_spec. tauto. Qed.
Lemma set_c3_ok (k : option Continuation) r : opt_ok cont_ok k -> regs_ok r -> regs_ok (set_c3 k r).
Proof. destruct r. cbn [set_c3]. rewrite !regs_ok_spec. tauto. Qed.
Lemma set_c0_full (k : option Continuation) r : is_Some k -> regs_full r -> regs_full (set_c0 k r).
Proof. destruct r. simpl. tauto. Qed.
Lemma set_c1_full (k : option Continuation) r : is_Some k -> regs_full r -> regs_full (set_c1 k r).
Proof. destruct r. simpl. tauto. Qed.
Lemma set_c2_full (k : option Continuation) r : is_Some k -> regs_full r -> regs_full (set_c2 k r).
Proof. destruct r. simpl. tauto. Qed.
Lemma set_c3_full (k : option Continuation) r : is_Some k -> regs_full r -> regs_full (set_c3 k r).
Proof. destruct r. simpl. tauto. Qed.
Lemma empty_regs_ok : regs_ok empty_regs.
Proof. by apply regs_ok_spec. Qed.
Lemma regs_c0_ok r : regs_ok r -> opt_ok cont_ok (regs_c0 r).
Proof. destruct r. rewrite regs_ok_spec. simpl. tauto. Qed.
Lemma regs_c1_ok r : regs_ok r -> opt_ok cont_ok (regs_c1 r).
Proof. destruct r. rewrite regs_ok_spec. simpl. tauto. Qed.
Lemma regs_c2_ok r : regs_ok r -> opt_ok cont_ok (regs_c2 r).
Proof. destruct r. rewrite regs_ok_spec. simpl. tauto. Qed.
Lemma regs_c3_ok r : regs_ok r -> opt_ok cont_ok (regs_c3 r).
Proof. destruct r. rewrite regs_ok_spec. simpl. tauto. Qed.
#[local] Hint Resolve set_c0_ok set_c1_ok set_c2_ok set_c3_ok set_c0_full set_c1_full set_c2_full
  set_c3_full empty_regs_ok regs_c0_ok regs_c1_ok regs_c2_ok regs_c3_ok : mach.

(** The end of a call. *)
Lemma call_finish_ok g k rest ret_args old_c0 new_stk s :
  cont_ok k -> mach_ok g s -> code_ok s -> stack_ok new_stk -> opt_ok stack_ok rest ->
  opt_ok cont_ok old_c0 ->
  (forall r, regs_full (regs_xor (set_c0 (Some r) (cr s)) (save_of k))) ->
  wp (call_finish k new_stk rest ret_args old_c0) (handler_post g) (err_post g) s.
Proof.
  intros Hk Hm Hc Hnew Hrest Hold Hready. apply wp_bind. unfold wp at 1, return_cont.
  apply wp_bind, wp_modify, wp_bind, wp_modify. apply jump_to_ok; [done| |apply Hready].
  apply mach_set_cr; [|by apply mach_set_stack, mach_set_code].
  apply set_c0_ok; [|apply Hm]. cbn [opt_ok cont_ok]. split; [|exact Hc].
  apply cdata_ok_spec. auto with mach.
Qed.

Lemma wp_split_top_ok g a b (Q : option Stack -> VmState -> Prop) E s :
  0 <= a -> 0 <= b -> a + b <= depth (stack s) -> mach_ok g s ->
  (forall new v, stack_ok new -> mach_ok g (set_stack v s) -> Q (Some new) (set_stack v s)) ->
  wp (on_stack (split_top a b)) Q E s.
Proof.
  intros Ha Hb Hd Hm HQ. unfold wp, on_stack, split_top. cbv zeta.
  rewrite (proj2 (Z.ltb_ge _ a)), (proj2 (Z.ltb_ge _ b)) by lia. cbn [orb].
  pose proof (rl_stack _ _ _ (proj2 Hm)). apply HQ; [by apply Forall_take|].
  apply mach_set_stack; [by apply Forall_drop|done].
Qed.

(** Only the stack and the gas change. *)
Definition same_control s s' : Prop := code s' = code s /\ cr s' = cr s.

Lemma call_stack_ok g st copy skip s :
  opt_ok stack_ok st -> mach_ok g s -> copy <= depth (stack s) -> 0 <= skip ->
  (0 <= copy -> copy + skip <= depth (stack s)) -> (copy < 0 -> skip = 0) ->
  wp (call_stack st copy skip)
     (fun '(new, rest) s' => mach_ok g s' /\ same_control s s' /\ stack_ok new /\ opt_ok stack_ok rest)
     (fun e s' => e = VmNoGas /\ no_gas g s') s.
Proof.
  intros Hst Hm Hc1 Hc2 Hc3 Hc4. unfold call_stack. pose proof (depth_nonneg (stack s)) as Hd0.
  assert (forall new s1, mach_ok g s1 -> same_control s s1 -> stack_ok new ->
    wp (consume_stack_gas (depth new) ;; rest <- gets stack ;; ret (new, Some rest))
      (fun '(new, rest) s' => mach_ok g s' /\ same_control s s' /\ stack_ok new /\ opt_ok stack_ok rest)
      (fun e s' => e = VmNoGas /\ no_gas g s') s1) as Hend.
  { intros new s1 Hm1 Hsc Hnew. apply wp_bind, (wp_consume_stack_ok g); [done| |done].
    intros a _ Hm2. apply wp_bind, wp_gets, wp_ret. split_and!; [done|done|done|apply Hm2]. }
  assert (wp (if 0 <=? copy then o <- on_stack (split_top copy skip) ;; new_stk <- of_option o ;;
        consume_stack_gas (depth new_stk) ;; rest <- gets stack ;; ret (new_stk, Some rest)
      else st <- gets stack ;; ret (st, None))
    (fun '(new, rest) s' => mach_ok g s' /\ same_control s s' /\ stack_ok new /\ opt_ok stack_ok rest)
    (fun e s' => e = VmNoGas /\ no_gas g s') s) as Hplain.
  { destruct (Z.leb_spec 0 copy).
    - apply wp_bind, (wp_split_top_ok g); [done|done|auto|done|]. intros new v Hnew Hm1.
      apply wp_bind, wp_ret, Hend; [done|by split|done].
    - apply wp_bind, wp_gets, wp_ret. split_and!; [done|by split|apply Hm|done]. }
  destruct st as [[|e st]|]; [exact Hplain| |exact Hplain].
  apply wp_bind, wp_gets, wp_bind. eapply wp_take_from_stack; [|done|done|].
  { destruct (Z.ltb_spec copy 0); lia. }
  intros new old Hnew Hm1 ->. apply wp_bind.
  destruct (Z.ltb_spec 0 skip); [|apply wp_ret, Hend; [done|by split|done]].
  rewrite (proj2 (Z.ltb_ge copy 0)) in * by lia.
  apply wp_on_stack. unfold wp, pop_many. rewrite (proj2 (Z.ltb_ge skip 0)) by lia.
  rewrite (proj2 (Z.leb_le skip _)).
  - apply Hend; [|by split|done]. apply mach_set_stack; [|done]. apply Forall_drop, Hm1.
  - cbn [stack set_stack]. unfold depth in *. rewrite length_drop. lia.
Qed.

Lemma cdata_ok_stack k d : cont_ok k -> get_cdata k = Some d -> opt_ok stack_ok (cdata_stack d).
Proof. intros Hk Hd. destruct (cdata_stack d) eqn:E; [by eapply cdata_stack_ok|done]. Qed.

Lemma call_args_ok g k p r s :
  cont_ok k -> vm_ok g s -> code_ok s -> wp (call_args k p r) (handler_post g) (err_post g) s.
Proof.
  intros Hk Hs Hcode. unfold call_args.
  assert (forall e s', e = VmNoGas /\ no_gas g s' -> err_post g e s') as HE by (by intros e s' [-> ?]).
  assert (opt_ok cont_ok (regs_c0 (cr s))) as Hold by apply regs_c0_ok, Hs.
  destruct (get_cdata k) as [d|] eqn:Ek.
  - destruct (has_c0 k); [by apply jump_args_ok|].
    apply wp_bind, wp_gets, wp_bind, wp_unless_throw; [|intros; by apply err_post_vm].
    intros [H1 H2]%negb_true_iff%orb_false_iff. apply Z.ltb_ge in H1, H2.
    apply wp_bind, wp_unless_throw; [|intros; by apply err_post_vm].
    intros H3%negb_true_iff%andb_false_iff.
    apply wp_bind, wp_gets, wp_bind, wp_modify, wp_bind, wp_modify.
    rewrite <- (save_of_cdata _ _ Ek). set (s1 := set_cr _ (set_cr _ s)).
    assert (mach_ok g s1) as Hm1.
    { apply mach_set_cr; [apply regs_clear_ok|apply mach_set_cr; [|apply Hs]];
        cbn [cr set_cr]; apply set_c0_ok; (done || apply Hs). }
    apply wp_bind. eapply wp_mono; [apply (call_stack_ok g)| |exact HE].
    + by eapply cdata_ok_stack.
    + done.
    + cbn [s1 stack set_cr]. case_match; lia.
    + destruct (_ && _) eqn:E; [|lia]. apply andb_true_iff in E as [?%Z.leb_le _].
      rewrite Z.ltb_ge, Z.leb_gt in H3. lia.
    + cbn [s1 stack set_cr]. destruct (Z.leb_spec 0 p), (Z.ltb_spec (cdata_nargs d) 0),
        (Z.leb_spec 0 (cdata_nargs d)); cbn [andb]; lia.
    + destruct (Z.leb_spec 0 p), (Z.ltb_spec (cdata_nargs d) 0),
        (Z.leb_spec 0 (cdata_nargs d)); cbn [andb]; lia.
    + intros [new rest] s2 (Hm2 & [Hco Hcr] & Hnew & Hrest).
      apply call_finish_ok; try done; [by unfold code_ok; rewrite Hco|].
      intros r0. rewrite Hcr. cbn [s1 cr set_cr]. destruct Hs as [_ Hf].
      destruct (cr s), (save_of k). simpl in *. unfold ref_xor, ref_clear.
      destruct Hf as (? & ? & ? & ? & ? & ? & ?). split_and!; by repeat case_match.
  - apply wp_bind, wp_gets, wp_bind, wp_unless_throw; [|intros; by apply err_post_vm].
    intros H1%negb_true_iff%Z.ltb_ge. apply wp_bind.
    eapply wp_mono; [apply (call_stack_ok g); [done|apply Hs|lia..]| |exact HE].
    intros [new rest] s2 (Hm2 & [Hco Hcr] & Hnew & Hrest). apply wp_bind, wp_gets.
    rewrite Hcr. apply call_finish_ok; try done; [by unfold code_ok; rewrite Hco|].
    intros r0. rewrite Hcr. apply regs_xor_full, set_c0_full; [done|apply Hs].
Qed.

Lemma call_ok g k s :
  cont_ok k -> vm_ok g s -> code_ok s -> wp (call k) (handler_post g) (err_post g) s.
Proof.
  intros Hk Hs Hcode. unfold call.
  destruct (has_c0 k); [by apply jump_ok|]. destruct (needs_adjust k); [by apply call_args_ok|].
  apply wp_bind, wp_gets.
  pose proof (call_finish_ok g k None (-1) (regs_c0 (cr s)) (stack s) s Hk (proj1 Hs) Hcode) as Hf.
  unfold call_finish in Hf. apply wp_bind. unfold wp at 1, return_cont.
  specialize (Hf ltac:(apply Hs) ltac:(done) ltac:(apply regs_c0_ok, Hs)
    ltac:(intros; apply regs_xor_full, set_c0_full; [done|apply Hs])).
  unfold wp, bind, return_cont, modify, vm_set_c0, modify_cr in *. by destruct s.
Qed.

Lemma full_c0 r : regs_full r -> exists k, regs_c0 r = Some k.
Proof. destruct r. simpl. intros ([k ->] & _). eauto. Qed.
Lemma full_c1 r : regs_full r -> exists k, regs_c1 r = Some k.
Proof. destruct r. simpl. intros (_ & [k ->] & _). eauto. Qed.
Lemma full_c2 r : regs_full r -> exists k, regs_c2 r = Some k.
Proof. destruct r. simpl. intros (_ & _ & [k ->] & _). eauto. Qed.
Lemma full_c3 r : regs_full r -> exists k, regs_c3 r = Some k.
Proof. destruct r. simpl. intros (_ & _ & _ & [k ->] & _). eauto. Qed.

(** Reading a register of a well-formed machine. *)
Lemma wp_get_reg (f : ControlRegs -> option Continuation) g (Q : Continuation -> VmState -> Prop) E s :
  (forall r, regs_full r -> exists k, f r = Some k) ->
  (forall r, regs_ok r -> opt_ok cont_ok (f r)) -> vm_ok g s ->
  (forall k, cont_ok k -> f (cr s) = Some k -> Q k s) ->
  wp (r <- gets cr ;; of_option (f r)) Q E s.
Proof.
  intros Hf Hok [Hm Hfull] HQ. apply wp_bind, wp_gets.
  destruct (Hf _ Hfull) as [k Hk]. apply (wp_of_option _ k); [done|]. apply HQ; [|done].
  specialize (Hok (cr s) (rl_regs _ _ _ (proj2 Hm))). by rewrite Hk in Hok.
Qed.

Lemma vm_set_regs g r s : regs_ok r -> regs_full r -> vm_ok g s -> vm_ok g (set_cr r s).
Proof. intros Hr Hf [Hm _]. split; [by apply mach_set_cr|done]. Qed.

Lemma quit_ok c : 0 <= c -> cont_ok (QuitCont c).
Proof. done. Qed.

Lemma vm_ret_ok g s : vm_ok g s -> wp vm_ret (handler_post g) (err_post g) s.
Proof.
  intros Hs. apply wp_bind. eapply wp_get_reg; [exact full_c0|exact regs_c0_ok|exact Hs|].
  intros k Hk _. apply wp_bind, wp_modify, jump_ok; [done|].
  apply vm_set_regs; [apply set_c0_ok; [done|apply Hs]|apply set_c0_full; [done|apply Hs]|done].
Qed.
Lemma vm_ret_args_ok g n s : vm_ok g s -> wp (vm_ret_args n) (handler_post g) (err_post g) s.
Proof.
  intros Hs. apply wp_bind. eapply wp_get_reg; [exact full_c0|exact regs_c0_ok|exact Hs|].
  intros k Hk _. apply wp_bind, wp_modify, jump_args_ok; [done|].
  apply vm_set_regs; [apply set_c0_ok; [done|apply Hs]|apply set_c0_full; [done|apply Hs]|done].
Qed.
Lemma vm_ret_alt_ok g s : vm_ok g s -> wp vm_ret_alt (handler_post g) (err_post g) s.
Proof.
  intros Hs. apply wp_bind. eapply wp_get_reg; [exact full_c1|exact regs_c1_ok|exact Hs|].
  intros k Hk _. apply wp_bind, wp_modify, jump_ok; [done|].
  apply vm_set_regs; [apply set_c1_ok; [done|apply Hs]|apply set_c1_full; [done|apply Hs]|done].
Qed.

(** ** Continuations with changed registers *)

Lemma force_cdata_ok k d wrap :
  force_cdata k = (d, wrap) -> cont_ok k ->
  cdata_ok d /\ (forall d', cdata_ok d' -> cont_ok (wrap d')).
Proof.
  intros Hf Hk. assert (cdata_ok empty_cdata) by (by apply cdata_ok_spec).
  destruct k; cbn [force_cdata] in Hf; simplify_eq; cbn [cont_ok] in *; naive_solver.
Qed.
Lemma cdata_ok_parts d : cdata_ok d -> opt_ok stack_ok (cdata_stack d) /\ regs_ok (cdata_save d).
Proof. destruct d. by rewrite cdata_ok_spec. Qed.
Lemma set_save_ok r d : cdata_ok d -> regs_ok r -> cdata_ok (set_save r d).
Proof. destruct d. rewrite cdata_ok_spec. intros [? ?] ?. by apply cdata_ok_spec. Qed.

Lemma with_cregs_ok f k :
  (forall r, regs_ok r -> regs_ok (f r)) -> cont_ok k -> cont_ok (with_cregs f k).
Proof.
  intros Hf Hk. unfold with_cregs. destruct (force_cdata k) as [d wrap] eqn:E.
  apply force_cdata_ok in E as [Hd Hw]; [|done]. apply Hw, set_save_ok; [done|].
  apply Hf. by apply cdata_ok_parts.
Qed.
Lemma define_c0_ok o r : opt_ok cont_ok o -> regs_ok r -> regs_ok (define_c0 o r).
Proof. unfold define_c0. case_match; auto with mach. Qed.
Lemma define_c1_ok o r : opt_ok cont_ok o -> regs_ok r -> regs_ok (define_c1 o r).
Proof. unfold define_c1. case_match; auto with mach. Qed.
Lemma define_c2_ok o r : opt_ok cont_ok o -> regs_ok r -> regs_ok (define_c2 o r).
Proof. unfold define_c2. case_match; auto with mach. Qed.
Lemma opt_some_ok k : cont_ok k -> opt_ok cont_ok (Some k).
Proof. done. Qed.
Lemma is_some_cont k : is_Some (Some k).
Proof. eauto. Qed.
#[local] Hint Resolve opt_some_ok is_some_cont : mach.
#[local] Hint Resolve with_cregs_ok define_c0_ok define_c1_ok define_c2_ok : mach.

(** ** The current continuation *)

Lemma vm_regs_ok g s : vm_ok g s -> regs_ok (cr s).
Proof. intros [[_ [_ _ ?]] _]. done. Qed.
Lemma vm_regs_full g s : vm_ok g s -> regs_full (cr s).
Proof. by intros [_ ?]. Qed.

(** Replace a register that may be null by a continuation. *)
Lemma wp_set_reg (set : option Continuation -> ControlRegs -> ControlRegs) g k
    (Q : unit -> VmState -> Prop) E s :
  (forall r, regs_ok r -> regs_ok (set (Some k) r)) ->
  (forall r, regs_full r -> regs_full (set (Some k) r)) -> vm_ok g s ->
  (forall s', vm_ok g s' -> code s' = code s -> stack s' = stack s -> s' = set_cr (set (Some k) (cr s)) s ->
     Q tt s') ->
  wp (modify_cr (set (Some k))) Q E s.
Proof.
  intros Hok Hfull Hs HQ. apply wp_modify, HQ; [|done..].
  apply vm_set_regs; [apply Hok; by eapply vm_regs_ok|apply Hfull; by eapply vm_regs_full|done].
Qed.

(** What [extract_cc] leaves: c2 is null if it was saved. *)
Definition extracted (g save_cr : Z) (cc : Continuation) (s : VmState) : Prop :=
  cont_ok cc /\ mach_ok g s /\
  (forall k, cont_ok k -> regs_full (if Z.testbit save_cr 2 then set_c2 (Some k) (cr s) else cr s)).

Lemma wp_when_set (b : bool) f (Q : unit -> VmState -> Prop) E s :
  Q tt (set_cr (if b then f (cr s) else cr s) s) -> wp (if b then modify_cr f else ret tt) Q E s.
Proof. destruct b; [done|]. by destruct s. Qed.

(** The second half of [extract_cc]. *)
Lemma extract_rest_ok g save_cr cc_args new_stk rest s :
  vm_ok g s -> code_ok s -> stack_ok new_stk -> opt_ok stack_ok rest ->
  wp (r <- gets cr ;;
      let save0 := if Z.testbit save_cr 0 then regs_c0 r else None in
      let save1 := if Z.testbit save_cr 1 then regs_c1 r else None in
      let save2 := if Z.testbit save_cr 2 then regs_c2 r else None in
      c <- gets code ;;
      cp <- gets cp ;;
      modify (set_code_field None) ;;
      modify (set_stack new_stk) ;;
      (if Z.testbit save_cr 0 then vm_set_c0 (Some quit0) else ret tt) ;;
      (if Z.testbit save_cr 1 then vm_set_c1 (Some quit1) else ret tt) ;;
      (if Z.testbit save_cr 2 then vm_set_c2 None else ret tt) ;;
      ret (OrdCont (mkCData rest (mkRegs save0 save1 save2 None None None None) cc_args cp) c))
    (extracted g save_cr) (err_post g) s.
Proof.
  intros Hs Hc Hn Hr. apply wp_bind, wp_gets. cbv zeta.
  apply wp_bind, wp_gets, wp_bind, wp_gets, wp_bind, wp_modify, wp_bind, wp_modify.
  pose proof (vm_regs_ok _ _ Hs) as Hro. pose proof (vm_regs_full _ _ Hs) as Hrf.
  assert (cont_ok (OrdCont (mkCData rest (mkRegs
      (if Z.testbit save_cr 0 then regs_c0 (cr s) else None)
      (if Z.testbit save_cr 1 then regs_c1 (cr s) else None)
      (if Z.testbit save_cr 2 then regs_c2 (cr s) else None) None None None None) cc_args (cp s))
      (code s))) as Hcc.
  { cbn [cont_ok]. split; [|exact Hc]. apply cdata_ok_spec. split; [done|]. apply regs_ok_spec.
    split_and!; try done; case_match; try done;
      [by apply regs_c0_ok|by apply regs_c1_ok|by apply regs_c2_ok]. }
  set (cc := OrdCont _ _) in *. set (s1 := set_stack _ _).
  assert (mach_ok g s1) as Hm by (apply mach_set_stack, mach_set_code, Hs; done).
  assert (forall r, regs_ok r ->
    (forall k, regs_full (if Z.testbit save_cr 2 then set_c2 (Some k) r else r)) ->
    extracted g save_cr cc (set_cr r s1)) as Hdone.
  { intros r Hr1 Hr2. split_and!; [done|by apply mach_set_cr|auto]. }
  assert (cont_ok quit0 /\ cont_ok quit1) as [? ?] by done.
  apply wp_bind, wp_when_set, wp_bind, wp_when_set, wp_bind, wp_when_set, wp_ret, Hdone;
    cbn [cr set_cr s1 set_stack set_code_field].
  - destruct (Z.testbit save_cr 0), (Z.testbit save_cr 1), (Z.testbit save_cr 2);
      repeat first [apply set_c0_ok; [done|] | apply set_c1_ok; [done|] | apply set_c2_ok; [done|]]; done.
  - intros k. clear -Hrf.
    destruct (Z.testbit save_cr 0), (Z.testbit save_cr 1), (Z.testbit save_cr 2), (cr s);
      simpl in *; naive_solver.
Qed.

Lemma extract_cc_ok g save_cr copy n s :
  vm_ok g s -> code_ok s -> wp (extract_cc save_cr copy n) (extracted g save_cr) (err_post g) s.
Proof.
  intros Hs Hc. unfold extract_cc. pose proof (depth_nonneg (stack s)) as Hd.
  apply wp_bind, wp_gets, wp_bind, wp_gets, wp_bind.
  destruct (_ || _); [apply wp_ret, extract_rest_ok; try done; apply Hs|].
  destruct (Z.ltb_spec 0 copy); [|apply wp_ret, extract_rest_ok; try done; [constructor|apply Hs]].
  apply wp_bind. unfold check_underflow at 1. apply wp_on_stack, wp_bind, wp_gets.
  apply wp_unless_throw; [|intros _; rewrite set_stack_id; by apply err_post_vm].
  intros Hcopy. rewrite set_stack_id. cbn [forallb] in Hcopy. rewrite andb_true_r in Hcopy.
  apply wp_bind, (wp_split_top_ok g); [lia|lia| |apply Hs|].
  { unfold at_least in Hcopy. apply Z.leb_le in Hcopy. lia. }
  intros new v Hnew Hm. apply wp_bind, wp_ret, wp_bind, (wp_consume_stack_ok g); [done| |by intros s' ?].
  intros a _ Hm'. apply wp_bind, wp_gets, wp_ret, extract_rest_ok; [split; [done|apply Hs]|exact Hc|done|].
  apply Hm'.
Qed.

(** ** Envelopes and loops *)

Lemma c1_envelope_ok g k b s :
  cont_ok k -> vm_ok g s ->
  wp (c1_envelope_if b k) (fun k' s' => cont_ok k' /\ vm_ok g s') (err_post g) s.
Proof.
  intros Hk Hs. destruct b; [|by apply wp_ret].
  unfold c1_envelope_if, c1_envelope. apply wp_bind, wp_gets. cbv zeta.
  pose proof (vm_regs_ok _ _ Hs) as Hr.
  assert (cont_ok (with_cregs (define_c0 (regs_c0 (cr s)))
    (with_cregs (define_c1 (regs_c1 (cr s))) k))) as Hk' by auto 10 with mach.
  apply wp_bind, (wp_set_reg set_c1 g); auto with mach. intros s1 Hs1 _ _ _. by apply wp_ret.
Qed.

Lemma c1_save_set_ok g b s :
  vm_ok g s -> wp (c1_save_set b) (fun _ s' => vm_ok g s' /\ code s' = code s) (err_post g) s.
Proof.
  intros Hs. pose proof (vm_regs_ok _ _ Hs) as Hr.
  apply wp_bind. eapply wp_get_reg; [exact full_c0|exact regs_c0_ok|exact Hs|].
  intros k Hk _. apply wp_bind, wp_gets. cbv zeta.
  set (k' := if b then _ else _).
  assert (cont_ok k') as Hk' by (unfold k'; case_match; auto with mach).
  apply wp_bind, (wp_set_reg set_c0 g); auto with mach. intros s1 Hs1 Hc1 _ _.
  apply (wp_set_reg set_c1 g); auto with mach. intros s2 Hs2 Hc2 _ _. by rewrite Hc2.
Qed.

Lemma vm_repeat_ok g body after n s :
  cont_ok body -> cont_ok after -> vm_ok g s ->
  wp (vm_repeat body after n) (handler_post g) (err_post g) s.
Proof. intros. unfold vm_repeat. by case_match; apply jump_ok. Qed.
Lemma vm_again_ok g body s :
  cont_ok body -> vm_ok g s -> wp (vm_again body) (handler_post g) (err_post g) s.
Proof. intros. by apply jump_ok. Qed.

(** Enter a loop: its continuation becomes c0 unless [k] has its own. *)
Lemma enter_loop_ok g loop k s :
  cont_ok loop -> cont_ok k -> vm_ok g s ->
  wp ((if has_c0 k then ret tt else vm_set_c0 (Some loop)) ;; jump k) (handler_post g) (err_post g) s.
Proof.
  intros Hl Hk Hs. apply wp_bind. destruct (has_c0 k); [by apply wp_ret, jump_ok|].
  apply (wp_set_reg set_c0 g); auto with mach. intros s1 Hs1 _ _ _. by apply jump_ok.
Qed.
Lemma vm_until_ok g body after s :
  cont_ok body -> cont_ok after -> vm_ok g s ->
  wp (vm_until body after) (handler_post g) (err_post g) s.
Proof. intros. by apply enter_loop_ok. Qed.
Lemma loop_while_ok g cond body after s :
  cont_ok cond -> cont_ok body -> cont_ok after -> vm_ok g s ->
  wp (loop_while cond body after) (handler_post g) (err_post g) s.
Proof. intros. by apply enter_loop_ok. Qed.

(** ** Exceptions *)

Lemma throw_exception_arg_ok g n arg s :
  entry_ok arg -> vm_ok g s ->
  wp (throw_exception_arg n arg) (handler_post (g - 50)) (err_post g) s.
Proof.
  intros Harg Hs. apply wp_bind, wp_modify, wp_bind, wp_modify, wp_bind.
  apply (wp_consume_chk_ok g); [unfold exception_gas_price; lia| |..].
  - apply mach_set_code, mach_set_stack; [|apply Hs]. by repeat constructor.
  - intros Hm. set (s1 := spend _ _) in *. assert (vm_ok (g - 50) s1) as Hs1 by (split; [done|apply Hs]).
    apply wp_bind. eapply wp_get_reg; [exact full_c2|exact regs_c2_ok|exact Hs1|]. intros k Hk _.
    eapply wp_mono; [by apply jump_ok|done|]. intros e s'. apply err_post_mono. lia.
  - by intros s' Hb.
Qed.
Lemma throw_exception_ok g n s :
  vm_ok g s -> wp (throw_exception n) (handler_post (g - 50)) (err_post g) s.
Proof. by apply throw_exception_arg_ok. Qed.

(** ** Loading cells *)

(** Only the gas and the bookkeeping of loaded cells and libraries change. *)
Definition same_core s s' : Prop :=
  code s' = code s /\ cr s' = cr s /\ stack s' = stack s /\ cp s' = cp s.

Lemma same_core_refl s : same_core s s.
Proof. done. Qed.
Lemma same_core_trans s1 s2 s3 : same_core s1 s2 -> same_core s2 s3 -> same_core s1 s3.
Proof. intros (? & ? & ? & ?) (? & ? & ? & ?). split_and!; congruence. Qed.
Lemma same_core_full g s s' : vm_ok g s -> mach_ok g s' -> same_core s s' -> vm_ok g s'.
Proof. intros [_ Hf] Hm (_ & Hcr & _). split; [done|]. by rewrite Hcr. Qed.
Lemma same_core_code s s' : same_core s s' -> code_ok s -> code_ok s'.
Proof. intros (Hc & _) ?. unfold code_ok. by rewrite Hc. Qed.

Definition same_libs s s' : Prop := same_core s s' /\ libraries s' = libraries s.
Lemma same_libs_trans s1 s2 s3 : same_libs s1 s2 -> same_libs s2 s3 -> same_libs s1 s3.
Proof. intros [Hc ?] [Hc' ?]. split; [by eapply same_core_trans|congruence]. Qed.

Lemma register_cell_load_ok g h (Q : unit -> VmState -> Prop) s :
  vm_ok g s -> (forall s', vm_ok g s' -> same_libs s s' -> Q tt s') ->
  wp (register_cell_load h) Q (err_post g) s.
Proof.
  intros Hs HQ. apply wp_bind, wp_gets.
  assert (forall a s1, 0 <= a <= 100 -> vm_ok g s1 -> same_libs s s1 ->
    wp (consume_gas a) Q (err_post g) s1) as Hpay.
  { intros a s1 Ha Hs1 Hc. apply (wp_consume_ok g); [lia|apply Hs1| |by intros s' Hb].
    intros Hm. apply HQ; [|done]. split; [eapply mach_mono; [|done]; lia|apply Hs1]. }
  unfold cell_reload_gas_price, cell_load_gas_price.
  case_bool_decide; [by apply Hpay; [lia| |]|].
  apply wp_bind, wp_modify, Hpay; [lia| |done]. exact Hs.
Qed.

(** The library with a hash, and what loading a cell shows: both depend on the
    libraries of the machine only. *)
Fixpoint library_of (h : list bool) (libs : list Cell) : option Cell :=
  match libs with
  | [] => None
  | lib :: libs' =>
      match snd (lib_dict_lookup h lib) with
      | Some c => if bool_decide (get_hash c = h) then Some c else library_of h libs'
      | None => library_of h libs'
      end
  end.
Definition resolved (libs : list Cell) (c : Cell) : option Cell :=
  if negb (cell_special c) then Some c
  else match cell_type true (cell_bits c) with
       | Some Library =>
           match library_of (take hash_bits (drop 8 (cell_bits c))) libs with
           | Some c' => if negb (cell_special c') then Some c' else None
           | None => None
           end
       | _ => None
       end.
Definition shown (libs : list Cell) (c : Cell) : option CellSlice := slice_of_cell <$> resolved libs c.

Lemma find_library_ok g h libs (Q : option Cell -> VmState -> Prop) s :
  vm_ok g s -> (forall s', vm_ok g s' -> same_libs s s' -> Q (library_of h libs) s') ->
  wp (find_library h libs) Q (err_post g) s.
Proof.
  intros Hs. induction libs as [|lib libs IH]; cbn [find_library library_of]; intros HQ.
  - apply wp_bind, wp_modify, wp_ret, HQ; [exact Hs|done].
  - apply wp_bind. unfold lookup_library_in. destruct (lib_dict_lookup h lib) as [loads r]. cbn [snd] in HQ.
    apply wp_bind, wp_gets, wp_bind. destruct (Z.leb_spec 4 (global_version s)) as [Hv|Hv].
    2: { exfalso. destruct Hs as [[[[? _ _ _] _] _] _]. lia. }
    apply wp_ret, wp_ret. destruct r as [c|]; [|by apply IH].
    case_bool_decide; [by apply wp_ret, HQ|by apply IH].
Qed.

(** The limit on the number of libraries may hide a library. *)
Lemma load_library_ok g h (Q : option Cell -> VmState -> Prop) s :
  vm_ok g s ->
  (forall o s', (is_Some o -> library_of h (libraries s) = o) -> vm_ok g s' -> same_libs s s' -> Q o s') ->
  wp (load_library h) Q (err_post g) s.
Proof.
  intros Hs HQ. apply wp_bind, wp_gets, wp_bind, wp_gets, wp_bind, wp_gets.
  assert (wp (find_library h (libraries s)) Q (err_post g) s) as Hfind.
  { apply (find_library_ok g); [done|]. intros s' Hs' Hc. by apply HQ. }
  destruct (max_library_loads s); [|done].
  destruct (_ =? _); case_bool_decide.
  - done.
  - apply wp_ret, HQ; [by intros []|done|done].
  - by apply wp_bind, wp_ret.
  - apply wp_bind, wp_modify, (find_library_ok g); [exact Hs|]. intros s' Hs' Hc. by apply HQ.
Qed.

(** Since version 5 a library may not lead to another library, so two rounds of the
    loop are enough. *)
Lemma load_cell_loop_ok g n c special s (Q : Cell -> VmState -> Prop) :
  vm_ok g s ->
  (forall c' s', (special = false -> resolved (libraries s) c = Some c') -> vm_ok g s' -> same_libs s s' -> Q c' s') ->
  wp (load_cell_loop (S (S n)) c special false) Q (err_post g) s.
Proof.
  intros Hs HQ. cbn [load_cell_loop]. apply wp_bind, (register_cell_load_ok g); [done|].
  intros s1 Hs1 [Hc1 Hl1]. destruct (_ || _) eqn:Esp.
  { apply wp_ret, HQ; [|done|done]. intros ->. unfold resolved. cbn [orb] in Esp. by rewrite Esp. }
  apply orb_false_iff in Esp as [-> Esp]. unfold resolved in HQ. rewrite Esp in HQ.
  assert (5 <= global_version s1) as Hv by (destruct Hs1 as [[[[? _ _ _] _] _] _]; lia).
  destruct (cell_type true (cell_bits c)) as [[]|]; try (by apply wp_throw, err_post_vm).
  apply wp_bind, wp_gets. rewrite (proj2 (Z.leb_le _ _) Hv). apply wp_bind, wp_ret, wp_bind.
  apply (load_library_ok g); [done|]. intros [c'|] s2 Ho Hs2 Hc2; [|by apply wp_throw, err_post_vm].
  rewrite <- Hl1, Ho in HQ by done. cbn [orb]. apply wp_bind, wp_ret.
  destruct (negb (cell_special c')); [apply wp_ret, HQ; [done|done|by eapply same_libs_trans]|].
  destruct (cell_type true (cell_bits c')) as [[]|]; try (by apply wp_throw, err_post_vm).
  apply wp_bind, wp_gets, wp_bind.
  assert (5 <= global_version s2) as Hv2 by (destruct Hs2 as [[[[? _ _ _] _] _] _]; lia).
  rewrite (proj2 (Z.leb_le _ _) Hv2). by apply wp_throw, err_post_vm.
Qed.

Lemma slice_of_cell_ok c : slice_ok (slice_of_cell c).
Proof. unfold slice_ok, slice_of_cell. simpl. lia. Qed.
Lemma shown_ok libs c cs : shown libs c = Some cs -> slice_ok cs.
Proof. unfold shown. destruct (resolved libs c); [|done]. intros [= <-]. apply slice_of_cell_ok. Qed.

Lemma load_cell_slice_shown g c (Q : CellSlice -> VmState -> Prop) s :
  vm_ok g s -> (forall cs s', shown (libraries s) c = Some cs -> vm_ok g s' -> same_libs s s' -> Q cs s') ->
  wp (load_cell_slice c) Q (err_post g) s.
Proof.
  intros Hs HQ. apply wp_bind. unfold load_cell_fuel. apply (load_cell_loop_ok g); [done|].
  intros c' s' Hr Hs' Hc. apply wp_ret, HQ; [|done|done]. unfold shown. by rewrite Hr.
Qed.
Lemma load_cell_slice_ok g c (Q : CellSlice -> VmState -> Prop) s :
  vm_ok g s -> (forall cs s', slice_ok cs -> vm_ok g s' -> same_core s s' -> Q cs s') ->
  wp (load_cell_slice c) Q (err_post g) s.
Proof.
  intros Hs HQ. apply (load_cell_slice_shown g); [done|]. intros cs s' Hcs Hs' [Hc _].
  apply HQ; [by eapply shown_ok|done|done].
Qed.

Lemma ref_to_cont_ok g c (Q : Continuation -> VmState -> Prop) s :
  vm_ok g s -> (forall k s', cont_ok k -> vm_ok g s' -> same_core s s' -> Q k s') ->
  wp (ref_to_cont c) Q (err_post g) s.
Proof.
  intros Hs HQ. apply wp_bind, (load_cell_slice_ok g); [done|]. intros cs s' Hcs Hs' Hc.
  apply wp_bind, wp_gets, wp_ret, HQ; [|done|done].
  cbn [ord_cont cont_ok]. split; [by apply cdata_ok_spec|done].
Qed.

(** ** The committed state *)

Lemma base_set_cstate g c s : cstate_ok c -> base_ok g s -> base_ok g (set_cstate c s).
Proof. intros Hc ([? ? ? ?] & ? & ?). split_and!; [by split|done|done]. Qed.

Lemma try_commit_ok g (Q : bool -> VmState -> Prop) E s :
  base_ok g s -> (forall b s', base_ok g s' -> same_core s s' -> gas s' = gas s -> Q b s') ->
  wp try_commit Q E s.
Proof.
  intros Hs HQ. unfold wp, try_commit, committable.
  destruct (regs_d0 (cr s)), (regs_d1 (cr s)); try (by apply HQ; try rewrite andb_false_r).
  2: { rewrite andb_false_r. by apply HQ. }
  destruct (_ && _); [|by apply HQ]. apply HQ; [|done|done]. by apply base_set_cstate.
Qed.

(** ** Child machines *)

(** A machine that has just been built. *)
Record fresh_ok (n : VmState) : Prop := mkFresh {
  fr_stack : stack_ok (stack n);
  fr_regs : regs_ok (cr n);
  fr_full : regs_full (cr n);
  fr_code : code_ok n;
  fr_cstate : cstate_ok (cstate n);
  fr_version : 11 <= global_version n;
  fr_limit : 0 <= gas_limit (gas n)
}.

Lemma install_child_ok g n libs loaded cells p s :
  fresh_ok n -> gas_limit (gas n) <= gas_max (gas n) -> vm_ok (g - 1) s -> code_ok s -> p_state (p s) = s ->
  handler_post g 0 (install_child n libs loaded cells p s).
Proof.
  intros [Hst Hr Hf Hc Hcs Hv Hl] Hlm [[([Hv' [Hl' Hb Hlow Hmx] Hcs' Hfree] & Hp & Hg) Hrun] Hfull] Hcode Ep.
  pose proof (rl_gas _ _ _ Hrun) as Hrem.
  assert (waiting_ok (p_state (p s))) as Hw.
  { rewrite Ep. apply waiting_ok_unfold. split_and!; [|done..]. by split. }
  unfold install_child. rewrite (proj2 (Z.leb_le 10 _)) by lia. cbv zeta.
  set (n1 := if isolate_gas (p s) then _ else _).
  assert (fresh_ok n1) as [Hst1 Hr1 Hf1 Hc1 Hcs1 Hv1 Hl1] by (unfold n1; by case_match).
  assert (gas_limit (gas n1) <= gas_max (gas n1)) as Hlm1 by (unfold n1; by case_match).
  assert (base_ok g (set_parent (Some (p s)) (set_gas (new_gas (Z.min (gas_limit (gas n1))
    (gas_remaining (gas s))) (Z.min (gas_max (gas n1)) (gas_remaining (gas s))) 0)
    (set_extra_balance_counter (get_extra_balance_counter s)
      (set_free_gas_consumed (free_gas_consumed s) (set_chksgn_counter (chksgn_counter s) n1))))))
    as Hbase.
  { unfold base_ok, base_local, parent_ok, child_limits, gas_left. cbn [set_parent parent].
    rewrite chain_gas_eq, Ep in *. unfold gas_charged, gas_consumed. split_and!; try done.
    - split; [done| |done|done]. split; cbn; lia.
    - cbn. lia.
    - cbn. lia.
    - cbn. lia.
    - cbn. lia. }
  assert (mach_ok g (set_parent (Some (p s)) (set_gas (new_gas (Z.min (gas_limit (gas n1))
    (gas_remaining (gas s))) (Z.min (gas_max (gas n1)) (gas_remaining (gas s))) 0)
    (set_extra_balance_counter (get_extra_balance_counter s)
      (set_free_gas_consumed (free_gas_consumed s) (set_chksgn_counter (chksgn_counter s) n1))))))
    as Hmach by (split; [done|]; split; [cbn; lia|done|done]).
  split_and!; [done|done|]. intros _. by split; [split|].
Qed.

Lemma run_child_vm_ok g n rd ra rg ig rv s :
  fresh_ok n -> gas_limit (gas n) <= gas_max (gas n) -> vm_ok (g - 1) s -> code_ok s ->
  wp (run_child_vm n rd ra rg ig rv) (fun _ s' => handler_post g 0 s') (err_post (g - 1)) s.
Proof.
  intros Hn Hlm Hs Hcode. unfold run_child_vm. apply wp_bind, wp_gets.
  assert (11 <= global_version s) as Hv by (destruct Hs as [[[[? _ _ _] _] _] _]; done).
  rewrite (proj2 (Z.ltb_ge _ _)), (proj2 (Z.leb_le _ _)) by lia.
  apply wp_bind, wp_gets, wp_bind, wp_gets, wp_bind, wp_gets, wp_bind, wp_ret, wp_bind, wp_modify.
  set (final := modify (install_child _ _ _ _ _)).
  assert (forall s1, vm_ok (g - 1) s1 -> code_ok s1 ->
    wp (modify (set_libraries []) ;; final) (fun _ s' => handler_post g 0 s') (err_post (g - 1)) s1) as Hend.
  { intros s1 Hs1 Hc1. apply wp_bind, wp_modify, wp_modify, install_child_ok; done. }
  clearbody final. apply wp_bind. destruct ig; [|by apply wp_modify, Hend].
  apply wp_bind, wp_gets, wp_bind. pose proof Hs as [[[[_ _ _ Hfree] _] _] _].
  apply (wp_consume_ok (g - 1)); [cbn; lia|exact (proj1 Hs)|..].
  - intros Hm. apply wp_bind, wp_modify, wp_bind, wp_modify, wp_modify, Hend; [|exact Hcode].
    assert (vm_ok (g - 1) (spend (free_gas_consumed s) (set_loaded_libraries [] s))) as [[Hb Hr] Hf].
    { split; [eapply mach_mono; [|done]; cbn; lia|apply Hs]. }
    destruct Hb as ([? ? ? ?] & ? & ?). split; [split|]; [|done|done].
    split_and!; [by split|done|done].
  - by intros s' Hb.
Qed.

(** The parent takes over; it can pay for what its child has used. *)
Lemma restore_charge_ok g (m : M VmState unit) (Q : unit -> VmState -> Prop) E c p s :
  base_ok g c -> parent c = Some p -> same_core (p_state p) s -> gas s = gas (p_state p) ->
  parent s = parent (p_state p) -> base_local s ->
  (forall s', vm_ok (g - 1) s' -> code_ok s' -> wp m Q E s') ->
  (forall s', no_gas (g - 1) s' -> E VmNoGas s') ->
  wp (consume_gas (Z.min (gas_consumed (gas c)) (gas_limit (gas c) + 1)) ;; m) Q E s.
Proof.
  intros ([_ [Hl Hb _ _] _ _] & Hp & Hg) Ep Hc Eg Epp Hbl HQ HE.
  unfold parent_ok in Hp. rewrite Ep in Hp. destruct Hp as [Hw [Hbl1 Hbl2]].
  apply waiting_ok_unfold in Hw as (Hwb & Hwr & Hwf & Hwc & Hwp).
  unfold gas_left in Hg. rewrite Ep, chain_gas_eq in Hg.
  assert (0 <= gas_charged (gas c) <= gas_remaining (gas s) + 1) as Ha.
  { rewrite Eg. unfold gas_charged, gas_consumed. lia. }
  fold (gas_charged (gas c)). set (a := gas_charged (gas c)) in *. clearbody a.
  destruct Hc as (Hc1 & Hc2 & Hc3 & _).
  assert (mach_ok (g - 1 + a) s) as Hm.
  { split; [split_and!; [done| |]|].
    - unfold parent_ok. rewrite Epp, Eg. exact Hwp.
    - unfold gas_left in *. rewrite Epp, Eg. lia.
    - unfold run_local. by rewrite Eg, Hc3, Hc2. }
  apply wp_bind, (wp_consume_exact (g - 1 + a)); [split; [lia|right; lia]|done|..].
  - intros Hm'. apply HQ.
    + split; [eapply mach_mono; [|done]; lia|]. cbn. by rewrite Hc2.
    + unfold code_ok. cbn. by rewrite Hc1.
  - intros [Hb' Hlt]. apply HE. split; [|done]. eapply base_ok_mono; [|done]. lia.
Qed.

Lemma vm_push g e s : entry_ok e -> vm_ok g s -> vm_ok g (set_stack (e :: stack s) s).
Proof. intros He Hs. apply vm_set_stack; [constructor; [done|]|done]. apply Hs. Qed.

(** The results of the child are pushed one after another. *)
Lemma push_committed_ok g (b : bool) c absent s (Q : unit -> VmState -> Prop) E :
  vm_ok g s -> code_ok s -> (absent = false -> is_Some c) ->
  (forall s', vm_ok g s' -> code_ok s' -> global_version s' = global_version s -> Q tt s') ->
  wp (if b then push_committed absent c else ret tt) Q E s.
Proof.
  intros Hs Hc Hcom HQ. destruct b; [|by apply wp_ret, HQ]. unfold push_committed.
  destruct absent; [|destruct Hcom as [x ->]; [done|]; apply wp_bind, wp_ret].
  all: apply wp_on_stack, wp_modify, HQ; [by apply vm_push|exact Hc|done].
Qed.

Lemma restore_parent_vm_ok g res s p :
  base_ok g s -> stack_ok (stack s) -> parent s = Some p ->
  wp (restore_parent_vm res) (fun _ s' => vm_ok (g - 1) s' /\ code_ok s')
     (fun e s' => e = VmNoGas /\ no_gas (g - 1) s') s.
Proof.
  intros Hs Hst Ep. unfold wp, restore_parent_vm. rewrite Ep.
  match goal with |- match ?m ?x with _ => _ end =>
    change (wp m (fun _ s' => vm_ok (g - 1) s' /\ code_ok s')
      (fun e s' => e = VmNoGas /\ no_gas (g - 1) s') x) end.
  cbv zeta. set (s0 := set_free_gas_consumed _ _).
  pose proof Hs as ([Hv _ Hcst Hfree] & Hp & _). unfold parent_ok in Hp. rewrite Ep in Hp.
  destruct Hp as [Hw _]. apply waiting_ok_unfold in Hw as ([Hv1 Hg1 Hcs1 _] & _).
  apply (restore_charge_ok g) with (p := p); try done;
    try (by unfold s0; destruct (isolate_gas p)).
  clear s0. intros s1 Hs1 Hc1. apply wp_bind.
  assert (forall s2 n r, vm_ok (g - 1) s2 -> code_ok s2 ->
    wp (consume_stack_gas n ;;
        on_stack (modify (fun v => take (Z.to_nat n) (stack s) ++ v)) ;;
        on_stack (push_smallint r) ;;
        v <- gets global_version ;;
        (if return_data p then
           push_committed ((11 <=? v) && negb (committed (cstate s))) (com_c4 (cstate s))
         else ret tt) ;;
        (if return_actions p then
           push_committed ((11 <=? v) && negb (committed (cstate s))) (com_c5 (cstate s))
         else ret tt) ;;
        (if return_gas p then on_stack (push_smallint (gas_consumed (gas s))) else ret tt))
      (fun _ s' => vm_ok (g - 1) s' /\ code_ok s')
      (fun e s' => e = VmNoGas /\ no_gas (g - 1) s') s2) as Hend.
  { intros s2 n r Hs2 Hc2. apply wp_bind, (wp_consume_stack_ok (g - 1)); [apply Hs2| |done].
    intros a _ Hm3. apply wp_bind, wp_on_stack, wp_modify, wp_bind, wp_on_stack, wp_modify.
    apply wp_bind, wp_gets. set (s3 := set_stack _ _).
    assert (vm_ok (g - 1) s3) as Hs3.
    { apply vm_set_stack; [constructor; [done|]|split; [|apply Hs2]].
      - apply Forall_app. split; [by apply Forall_take|apply Hs2].
      - by apply mach_set_stack, Hm3; apply Forall_app; split; [by apply Forall_take|apply Hs2]. }
    assert (11 <= global_version s3) by (destruct Hs3 as [[[[? _ _ _] _] _] _]; done).
    rewrite (proj2 (Z.leb_le _ _)) by done. cbn [andb].
    assert (negb (committed (cstate s)) = false ->
      is_Some (com_c4 (cstate s)) /\ is_Some (com_c5 (cstate s))) as Hcom.
    { intros E%negb_false_iff. by apply Hcst. }
    apply wp_bind, (push_committed_ok (g - 1)); [done|exact Hc2|naive_solver|]. intros s4 Hs4 Hc4 _.
    apply wp_bind, (push_committed_ok (g - 1)); [done|done|naive_solver|]. intros s5 Hs5 Hc5 _.
    destruct (return_gas p); [|by apply wp_ret].
    apply wp_on_stack, wp_modify. split; [by apply vm_push|done]. }
  destruct (_ || _); [|by apply wp_ret, Hend].
  destruct (0 <=? ret_vals p); [|by apply wp_ret, Hend].
  destruct (_ <=? _); [by apply wp_ret, Hend|].
  apply wp_bind, wp_on_stack, wp_modify, wp_ret, Hend; [by apply vm_push|done].
Qed.
End control.

(** ** Jumps do not build cells

    They throw none of the exceptions of cell builders, which instructions may throw. *)

Definition cell_exc (e : exc) : bool := match e with CellWriteError | CellCreateError => true | _ => false end.
Definition no_cell_exc {S A} (m : M S A) : Prop :=
  forall s, wlp m (fun _ _ => True) (fun e _ => cell_exc e = false) s.

Section no_cell_exc.
Lemma nce_bind {S A B} (m : M S A) (k : A -> M S B) :
  no_cell_exc m -> (forall a, no_cell_exc (k a)) -> no_cell_exc (bind m k).
Proof. intros Hm Hk s. apply wlp_bind. eapply wlp_mono; [apply Hm| |done]. intros a s' _. apply Hk. Qed.
Lemma nce_ret {S A} (a : A) : no_cell_exc (S := S) (ret a).
Proof. done. Qed.
Lemma nce_throw {S A} e : cell_exc e = false -> no_cell_exc (S := S) (A := A) (throw e).
Proof. by intros He s. Qed.
Lemma nce_unless_throw {S} b e : cell_exc e = false -> no_cell_exc (S := S) (unless_throw b e).
Proof. intros He. destruct b; [done|by apply nce_throw]. Qed.
Lemma nce_on_stack {A} (m : M Stack A) : no_cell_exc m -> no_cell_exc (on_stack m).
Proof. intros Hm s. specialize (Hm (stack s)). unfold wlp, on_stack in *. by destruct (m (stack s)). Qed.
Lemma nce_gets {S A} (f : S -> A) : no_cell_exc (gets f).
Proof. intros s. exact I. Qed.
Lemma nce_modify {S} (f : S -> S) : no_cell_exc (modify f).
Proof. intros s. exact I. Qed.
Lemma nce_gas_consume n : no_cell_exc (gas_consume n).
Proof. intros s. unfold wlp, gas_consume. by destruct (fits_s _ _). Qed.
End no_cell_exc.

Ltac nce_step :=
  lazymatch goal with
  | |- no_cell_exc (bind _ _) => apply nce_bind; [|intros ?]
  | |- no_cell_exc (ret _) => apply nce_ret
  | |- no_cell_exc (throw _) => by apply nce_throw
  | |- no_cell_exc (unless_throw _ _) => by apply nce_unless_throw
  | |- no_cell_exc (on_stack _) => apply nce_on_stack
  | |- no_cell_exc (gets _) => apply nce_gets
  | |- no_cell_exc (modify _) => apply nce_modify
  | |- no_cell_exc (gas_consume _) => apply nce_gas_consume
  | |- no_cell_exc undef => done
  | |- no_cell_exc (assert_ub ?b) => destruct b
  | |- no_cell_exc (of_option ?o) => destruct o
  | |- no_cell_exc (if ?b then _ else _) => destruct b
  | |- no_cell_exc (match ?x with _ => _ end) => destruct x
  | |- no_cell_exc (let _ := _ in _) => cbv zeta
  | |- no_cell_exc (fun _ => _) => intros ?; unfold wlp; repeat case_match; simplify_eq; try done
  | |- no_cell_exc ?m => let h := head_of m in unfold h
  end.
Ltac solve_nce := repeat nce_step.
Section jumps_nce.
Context `{Sha256} `{LibDict}.
Lemma take_from_stack_nce new copy : no_cell_exc (take_from_stack new copy).
Proof.
  intros s. unfold wlp, take_from_stack.
  assert (no_cell_exc (move_from_stack copy)) as Hm by solve_nce.
  specialize (Hm (new, stack s)). unfold wlp in Hm. by destruct (move_from_stack _ _) as [? []|? []|].
Qed.
Lemma adjust_jump_cont_nce k n : no_cell_exc (adjust_jump_cont k n).
Proof.
  unfold adjust_jump_cont.
  repeat lazymatch goal with |- no_cell_exc (take_from_stack _ _) => apply take_from_stack_nce | |- _ => nce_step end.
Qed.
Lemma cont_jump_nce k : no_cell_exc (cont_jump k).
Proof.
  assert (no_cell_exc pop_exit_code).
  { intros s. unfold wlp, pop_exit_code. assert (no_cell_exc (pop_smallint_range 65535 0)) as Hm by solve_nce.
    specialize (Hm (stack s)). unfold wlp in Hm. destruct (pop_smallint_range _ _ _) as [| [] |]; done. }
  unfold cont_jump. repeat lazymatch goal with |- no_cell_exc pop_exit_code => done | |- _ => nce_step end.
Qed.
Lemma jump_nce k : no_cell_exc (jump k).
Proof.
  assert (forall f k c, no_cell_exc (jump_loop f k c)) as Hl.
  { induction f as [|f IH]; intros k' c; [done|]. cbn [jump_loop]. apply nce_bind; [apply cont_jump_nce|]. intros [next res].
    apply nce_bind; [|intros _; destruct next; [apply IH|done]].
    unfold jump_overhead.
    repeat lazymatch goal with |- no_cell_exc (adjust_jump_cont _ _) => apply adjust_jump_cont_nce | |- _ => nce_step end. }
  unfold jump, jump_args, jump_to. destruct (needs_adjust k); [apply nce_bind; [apply adjust_jump_cont_nce|intros _]|]; apply Hl.
Qed.
Lemma throw_exception_nce n : no_cell_exc (throw_exception n).
Proof.
  unfold throw_exception, throw_exception_arg.
  apply nce_bind; [apply nce_modify|intros _].
  apply nce_bind; [apply nce_modify|intros _].
  apply nce_bind; [|intros _]. { unfold consume_gas_chk. apply nce_bind; [apply nce_gas_consume|intros _]. solve_nce. }
  apply nce_bind; [|intros k]. { unfold get_c2. apply nce_bind; [apply nce_gets|]. intros r. by destruct (regs_c2 r). }
  apply jump_nce.
Qed.
End jumps_nce.
