(* ===== verification/InstrSafety.v ===== *)
(** * Instructions keep the machine well-formed

    Dispatch of an instruction against the invariant of VmInvariant.v, and the
    handlers of StackOps.v and ArithOps.v: what each of them leaves is well-formed
    again.  Their freedom from undefined behaviour is proved in these files; here
    both are put together. *)
From S2P Require Import Prelude BigInt Int256 Cells DataCell VmTypes Stack OpcodeTable StackOps ArithOps Vm VmInvariant Control.

(** ** Correctness up to undefined behaviour

    [wpu u] is [wp] when [u] is [False] and [wlp] when it is [True]. *)
Definition wpu {S A} (u : Prop) (m : M S A) (Q : A -> S -> Prop) (E : exc -> S -> Prop) (s : S) : Prop :=
  match m s with
  | Ret a s' => Q a s'
  | Exn e s' => E e s'
  | Undef => u
  end.

Lemma wpu_bind {S A B} u (m : M S A) (k : A -> M S B) Q E s :
  wpu u m (fun a s' => wpu u (k a) Q E s') E s -> wpu u (bind m k) Q E s.
Proof. unfold wpu, bind. by destruct (m s). Qed.
Lemma wpu_wp {S A} u (m : M S A) Q E s : wp m Q E s -> wpu u m Q E s.
Proof. unfold wpu, wp. by destruct (m s). Qed.
Lemma wpu_mono {S A} u (m : M S A) (Q Q' : A -> S -> Prop) (E E' : exc -> S -> Prop) s :
  wpu u m Q E s -> (forall a s', Q a s' -> Q' a s') -> (forall e s', E e s' -> E' e s') ->
  wpu u m Q' E' s.
Proof. unfold wpu. destruct (m s); naive_solver. Qed.
Lemma wp_of_wpu {S A} (m : M S A) Q E Q' E' s :
  wp m Q' E' s -> wpu True m Q E s -> wp m Q E s.
Proof. unfold wp, wpu. by destruct (m s). Qed.

(** ** Handlers and instructions *)

Definition handled (u : Prop) (m : M VmState Z) : Prop :=
  forall g s, vm_ok g s -> code_ok s -> wpu u m (handler_post g) (err_post g) s.

(** An instruction takes at least 10 units of gas. *)
Definition body_handled (u : Prop) (b : instr_body) : Prop :=
  forall opcode bits g s, vm_ok g s -> code_ok s ->
    wpu u (instr_dispatch b opcode bits) (handler_post (g - 10)) (err_post g) s.
Definition registered_handled (u : Prop) (o : option OpcodeInstr) : Prop :=
  match o with Some i => body_handled u (body i) | None => False end.

Lemma advance_ok n cs cs' : advance n cs = Some cs' -> slice_ok cs -> slice_ok cs'.
Proof.
  unfold advance, have, size, slice_ok. intros E [? ?]. destruct (_ <=? _)%nat eqn:Eh; simplify_eq.
  apply Nat.leb_le in Eh. simpl. lia.
Qed.

Lemma vm_set_code g c s : vm_ok g s -> vm_ok g (set_code_field c s).
Proof. intros [Hm Hf]. split; [by apply mach_set_code|done]. Qed.

Lemma wp_code_advance_ok g n (Q : unit -> VmState -> Prop) E s :
  vm_ok g s -> code_ok s -> (forall s', vm_ok g s' -> code_ok s' -> stack s' = stack s -> Q tt s') ->
  wp (code_advance n) Q E s.
Proof.
  intros Hs Hc HQ. unfold wp, code_advance. unfold code_ok in Hc.
  destruct (code s) as [cs|]; [|done]. apply HQ; [by apply vm_set_code| |done].
  unfold code_ok. cbn. destruct (advance (Z.to_nat n) cs) eqn:E'; [by eapply advance_ok|done].
Qed.

Section dispatch.
Context (u : Prop).

(** The gas of an instruction, then its handler. *)
Lemma wpu_instr_gas n (m : M VmState Z) g s :
  0 <= n <= max_opcode_bits -> vm_ok g s -> code_ok s ->
  (forall s', vm_ok (g - 10) s' -> code_ok s' -> wpu u m (handler_post (g - 10)) (err_post (g - 10)) s') ->
  wpu u (consume_gas (gas_per_instr + n * gas_per_bit) ;; m) (handler_post (g - 10)) (err_post g) s.
Proof.
  unfold gas_per_instr, gas_per_bit, max_opcode_bits. intros Hn Hs Hc Hm.
  apply wpu_bind, wpu_wp, (wp_consume_ok g); [lia|apply Hs| |by intros s' Hb].
  intros Hs'. eapply wpu_mono; [apply Hm; [|exact Hc]|done|].
  - split; [eapply mach_mono; [|done]; lia|apply Hs].
  - intros e s'. apply err_post_mono. lia.
Qed.

Lemma wpu_length_check b (m : M VmState Z) g s :
  vm_ok g s -> wpu u m (handler_post g) (err_post g) s ->
  wpu u (unless_throw b (VmError Exc_inv_opcode) ;; m) (handler_post g) (err_post g) s.
Proof.
  intros Hs Hm. apply wpu_bind. destruct b; [exact Hm|]. by apply (err_post_vm _ Exc_inv_opcode).
Qed.

Lemma simplest_handled n exec :
  0 <= n <= max_opcode_bits -> handled u exec -> body_handled u (OpcodeInstrSimplest n exec).
Proof.
  intros Hn He opcode bits g s Hs Hc. apply wpu_instr_gas; [done..|]. intros s1 Hs1 Hc1.
  apply wpu_length_check; [done|]. apply wpu_bind, wpu_wp, (wp_code_advance_ok (g - 10)); [done..|].
  intros s2 Hs2 Hc2 _. by apply He.
Qed.
Lemma fixed_handled n tot exec :
  0 <= tot <= max_opcode_bits -> (forall args, handled u (exec args)) ->
  body_handled u (OpcodeInstrFixed n tot exec).
Proof.
  intros Hn He opcode bits g s Hs Hc. apply wpu_instr_gas; [done..|]. intros s1 Hs1 Hc1.
  apply wpu_length_check; [done|]. apply wpu_bind, wpu_wp, (wp_code_advance_ok (g - 10)); [done..|].
  intros s2 Hs2 Hc2 _. by apply He.
Qed.
Lemma ext_handled n tot exec :
  0 <= tot <= max_opcode_bits -> (forall args, handled u (exec args tot)) ->
  body_handled u (OpcodeInstrExt n tot exec).
Proof.
  intros Hn He opcode bits g s Hs Hc. apply wpu_instr_gas; [done..|]. intros s1 Hs1 Hc1.
  apply wpu_length_check; [done|]. by apply He.
Qed.

(** An invalid opcode costs the gas of an instruction. *)
Lemma wpu_invalid g s :
  vm_ok g s -> code_ok s ->
  wpu u (consume_gas gas_per_instr ;; throw (VmError Exc_inv_opcode)) (handler_post (g - 10))
    (err_post g) s.
Proof.
  intros Hs Hc. apply (wpu_instr_gas 0); [unfold max_opcode_bits; lia|done|done|].
  intros s1 Hs1 _. by apply (err_post_vm _ Exc_inv_opcode).
Qed.
Lemma version_handled b v : body_handled u b -> body_handled u (OpcodeInstrWithVersion b v).
Proof.
  intros Hb opcode bits g s Hs Hc. cbn [instr_dispatch]. unfold version_dispatch.
  apply wpu_bind. unfold wpu at 1, gets. destruct (_ <? _); [by apply wpu_invalid|by apply Hb].
Qed.
Lemma dummy_handled : body_handled u OpcodeInstrDummy.
Proof. intros opcode bits g s Hs Hc. by apply wpu_invalid. Qed.

Lemma mksimple_handled opcode bits exec :
  (opcode <? 2 ^ bits) && (bits <=? max_opcode_bits) && (0 <=? bits) = true ->
  handled u exec -> registered_handled u (mksimple opcode bits exec).
Proof.
  intros [H ?%Z.leb_le]%andb_true_iff He. unfold mksimple, mk_opcode. rewrite H.
  apply andb_true_iff in H as [_ ?%Z.leb_le]. by apply simplest_handled.
Qed.
Lemma mkfixed_handled opcode opc_bits arg_bits exec :
  (opcode <? 2 ^ opc_bits) && (0 <=? opc_bits) && (0 <=? arg_bits) &&
    (opc_bits + arg_bits <=? max_opcode_bits) = true ->
  (forall args, handled u (exec args)) -> registered_handled u (mkfixed opcode opc_bits arg_bits exec).
Proof.
  intros [[[Ho ?%Z.leb_le]%andb_true_iff ?%Z.leb_le]%andb_true_iff ?%Z.leb_le]%andb_true_iff He.
  unfold mkfixed, mk_opcode. rewrite Ho, !(proj2 (Z.leb_le _ _)) by lia. simpl.
  apply fixed_handled; [lia|done].
Qed.
Lemma mkfixedrange_handled lo hi tot_bits arg_bits exec :
  (arg_bits <=? tot_bits) && (tot_bits <=? max_opcode_bits) && (lo <? hi) &&
    (hi <=? 2 ^ tot_bits) && (0 <=? tot_bits) = true ->
  (forall args, handled u (exec args)) ->
  registered_handled u (mkfixedrange lo hi tot_bits arg_bits exec).
Proof.
  intros [H ?%Z.leb_le]%andb_true_iff He. unfold mkfixedrange, mk_range. rewrite H.
  rewrite !andb_true_iff, !Z.leb_le in H. apply fixed_handled; [lia|done].
Qed.
Lemma mkext_handled opcode opc_bits arg_bits exec :
  (opcode <? 2 ^ opc_bits) && (0 <=? opc_bits) && (0 <=? arg_bits) &&
    (opc_bits + arg_bits <=? max_opcode_bits) = true ->
  (forall args, handled u (exec args (opc_bits + arg_bits))) ->
  registered_handled u (mkext opcode opc_bits arg_bits exec).
Proof.
  intros [[[Ho ?%Z.leb_le]%andb_true_iff ?%Z.leb_le]%andb_true_iff ?%Z.leb_le]%andb_true_iff He.
  unfold mkext, mk_opcode. rewrite Ho, !(proj2 (Z.leb_le _ _)) by lia. simpl.
  apply ext_handled; [lia|done].
Qed.
Lemma mkextrange_handled lo hi tot_bits arg_bits exec :
  (arg_bits <=? tot_bits) && (tot_bits <=? max_opcode_bits) && (lo <? hi) &&
    (hi <=? 2 ^ tot_bits) && (0 <=? tot_bits) = true ->
  (forall args, handled u (exec args tot_bits)) ->
  registered_handled u (mkextrange lo hi tot_bits arg_bits exec).
Proof.
  intros [H ?%Z.leb_le]%andb_true_iff He. unfold mkextrange, mk_range. rewrite H.
  rewrite !andb_true_iff, !Z.leb_le in H. apply ext_handled; [lia|done].
Qed.
Lemma require_version_handled v o :
  registered_handled u o -> registered_handled u (require_version v o).
Proof. destruct o as [[lo hi b]|]; [apply version_handled|done]. Qed.
End dispatch.

(** Reduce a registered instruction to its handler. *)
Ltac registered_tac :=
  repeat apply require_version_handled;
  first
    [ apply mksimple_handled; [reflexivity|]
    | apply mkfixed_handled; [reflexivity | intros args]
    | apply mkfixedrange_handled; [reflexivity | intros args]
    | apply mkext_handled; [reflexivity | intros args]
    | apply mkextrange_handled; [reflexivity | intros args] ].

(** A registered instruction that is safe in the invariant: dispatched on an opcode of
    its range it is free of undefined behaviour and keeps the machine well-formed. *)
Definition instr_good (i : OpcodeInstr) : Prop :=
  forall opcode bits g s, covers i opcode -> 0 <= bits <= max_opcode_bits -> vm_ok g s -> code_ok s ->
    wp (instr_dispatch (body i) opcode bits) (handler_post (g - 10)) (err_post g) s.
Definition registered_good (o : option OpcodeInstr) : Prop :=
  match o with Some i => instr_good i | None => False end.

Lemma vm_ok_pre g s : vm_ok g s -> code_ok s -> vm_pre s.
Proof.
  intros [[[[_ [_ Hb Hlow Hmx] _ _] _] _] _] Hc. split; [split; lia|].
  unfold code_ok in Hc. by destruct (code s).
Qed.
Lemma good_of_safe P o : registered_spec P o -> registered_handled True o -> registered_good o.
Proof.
  destruct o as [i|]; [|done]. intros Hsafe Hk opcode bits g s Hop Hbits Hs Hc.
  eapply wp_of_wpu; [by eapply Hsafe; [..|eapply vm_ok_pre]|by apply Hk].
Qed.
Lemma good_of_handled o : registered_handled False o -> registered_good o.
Proof. destruct o as [i|]; [|done]. intros Hk opcode bits g s Hop Hbits Hs Hc. by apply Hk. Qed.

(** ** Instructions that may also change the gas limit

    They may leave a negative counter, which the main loop turns into an out-of-gas
    exception, and SETGASLIMIT throws this exception with gas left.  [oog] is what
    holds of the gas whenever the exception is thrown. *)
Definition step_post (g : Z) (res : Z) (s : VmState) : Prop :=
  base_ok g s /\ (0 <= gas_remaining (gas s) -> handler_post g res s).
Definition step_err (oog : GasLimits -> Prop) (g : Z) (e : exc) (s : VmState) : Prop :=
  match e with
  | VmNoGas => base_ok g s /\ oog (gas s)
  | _ => err_post g e s
  end.
Definition instr_ok (oog : GasLimits -> Prop) (i : OpcodeInstr) : Prop :=
  forall opcode bits g s, covers i opcode -> 0 <= bits <= max_opcode_bits -> vm_ok g s -> code_ok s ->
    wp (instr_dispatch (body i) opcode bits) (step_post (g - 10)) (step_err oog g) s.
Definition registered_ok (oog : GasLimits -> Prop) (o : option OpcodeInstr) : Prop :=
  match o with Some i => instr_ok oog i | None => False end.

(** The counter is negative. *)
Definition overdrawn (g : GasLimits) : Prop := gas_remaining g < 0.
(** Nothing is known. *)
Definition any_gas (_ : GasLimits) : Prop := True.

Section step.
Context (oog : GasLimits -> Prop) (Hoog : forall g, overdrawn g -> oog g).

Lemma handler_step_post g res s : handler_post g res s -> step_post g res s.
Proof. intros Hp. split; [|done]. by destruct Hp as (_ & [Hb _] & _). Qed.
Lemma err_step g e s : err_post g e s -> step_err oog g e s.
Proof using Hoog. destruct e; try done. intros [Hb Hlt]. split; [done|by apply Hoog]. Qed.
Lemma step_post_mono g g' res s : g <= g' -> step_post g res s -> step_post g' res s.
Proof.
  intros Hg [Hb Hp]. split; [by eapply base_ok_mono|]. intros Hr. eapply handler_post_mono; [done|auto].
Qed.
Lemma step_err_mono g g' e s : g <= g' -> step_err oog g e s -> step_err oog g' e s.
Proof.
  intros Hg. destruct e; try by apply err_post_mono. intros [Hb ?]. split; [by eapply base_ok_mono|done].
Qed.
Lemma registered_good_ok o : registered_good o -> registered_ok oog o.
Proof using Hoog.
  destruct o as [i|]; [|done]. intros Hi opcode bits g s Hop Hbits Hs Hc.
  eapply wp_mono; [by apply Hi|intros; by apply handler_step_post|intros; by apply err_step].
Qed.

(** An instruction without arguments. *)
Lemma mksimple_ok opcode bits exec :
  (opcode <? 2 ^ bits) && (bits <=? max_opcode_bits) && (0 <=? bits) = true ->
  (forall g s, vm_ok g s -> code_ok s -> wp exec (step_post g) (step_err oog g) s) ->
  registered_ok oog (mksimple opcode bits exec).
Proof using Hoog.
  intros [H Hb%Z.leb_le]%andb_true_iff He. unfold mksimple, mk_opcode. rewrite H.
  apply andb_true_iff in H as [_ Hb'%Z.leb_le]. intros op nbits g s _ _ Hs Hc.
  cbn [body instr_dispatch]. unfold simplest_dispatch, gas_per_instr, gas_per_bit, max_opcode_bits in *.
  apply wp_bind, (wp_consume_ok g); [lia|exact (proj1 Hs)| |by intros s' Hng; apply err_step].
  intros Hm. set (s1 := spend _ s) in *.
  assert (vm_ok (g - 10) s1) as Hs1 by (split; [eapply mach_mono; [|done]; lia|apply Hs]).
  assert (code_ok s1) as Hc1 by exact Hc. clearbody s1.
  eapply (wp_mono _ _ (step_post (g - 10)) (step_err oog (g - 10)));
    [|done|intros e s'; apply step_err_mono; lia].
  apply wp_bind, wp_unless_throw; [intros _|intros _; by apply err_step, err_post_vm].
  apply wp_bind, (wp_code_advance_ok (g - 10)); [done..|]. intros s2 Hs2 Hc2 _. by apply He.
Qed.
End step.

(** ** Handlers that only touch the stack, the code and the gas *)

(** [vm_keeps m R]: what [m] leaves is a well-formed machine with code, and its result
    satisfies [R]. *)
Definition vm_keeps {A} (m : M VmState A) (R : A -> Prop) : Prop :=
  forall g s, vm_ok g s -> code_ok s ->
    wlp m (fun a s' => vm_ok g s' /\ code_ok s' /\ R a) (err_post g) s.

Section vm_keeps.
Lemma vm_keeps_handled m : vm_keeps m (eq 0) -> handled True m.
Proof.
  intros Hm g s Hs Hc. eapply (wlp_mono m); [by apply Hm| |done].
  intros a s' (Hs' & Hc' & <-). by apply handler_post_ok.
Qed.
Lemma vm_keeps_ret {A} (a : A) (R : A -> Prop) : R a -> vm_keeps (ret a) R.
Proof. by intros HR g s Hs Hc. Qed.
Lemma vm_keeps_bind {A B} (m : M VmState A) (k : A -> M VmState B) R R' :
  vm_keeps m R -> (forall a, R a -> vm_keeps (k a) R') -> vm_keeps (bind m k) R'.
Proof.
  intros Hm Hk g s Hs Hc. apply wlp_bind. eapply wlp_mono; [by apply Hm| |done].
  intros a s' (Hs' & Hc' & Ha). by apply Hk.
Qed.
Lemma vm_keeps_throw {A} n (R : A -> Prop) : is_error n = true -> vm_keeps (throw (VmError n)) R.
Proof. intros Hn g s Hs Hc. by apply err_post_vm. Qed.
Lemma vm_keeps_unless_throw b n : is_error n = true -> vm_keeps (unless_throw b (VmError n)) any.
Proof. intros Hn. destruct b; [by apply vm_keeps_ret|by apply vm_keeps_throw]. Qed.
Lemma vm_keeps_assert_ub b : vm_keeps (assert_ub b) any.
Proof. by destruct b. Qed.
Lemma vm_keeps_gets {A} (f : VmState -> A) : vm_keeps (gets f) any.
Proof. by intros g s Hs Hc. Qed.
Lemma vm_keeps_of_option {A} (o : option A) (R : A -> Prop) : opt_ok R o -> vm_keeps (of_option o) R.
Proof. intros Ho. by destruct o. Qed.
Lemma vm_keeps_on_stack {A} (m : M Stack A) R : keeps m R -> vm_keeps (on_stack m) R.
Proof.
  intros Hk g s Hs Hc. specialize (Hk (stack s) (rl_stack _ _ _ (proj2 (proj1 Hs)))).
  unfold wlp, on_stack in *. destruct (m (stack s)) as [a v|e v|]; [| |done].
  - destruct Hk as [Hv Ha]. split_and!; [by apply vm_set_stack|exact Hc|done].
  - destruct Hk as (Hv & n & -> & Hn). by apply err_post_vm; [|apply vm_set_stack].
Qed.
Lemma vm_keeps_consume a : 0 <= a <= 2 ^ 61 -> vm_keeps (consume_gas a) any.
Proof.
  intros Ha g s Hs Hc. apply wp_is_wlp, (wp_consume_ok g); [done|apply Hs| |by intros s' Hb].
  intros Hm. split_and!; [|exact Hc|done]. split; [eapply mach_mono; [|done]; lia|apply Hs].
Qed.
Lemma vm_keeps_code_slice : vm_keeps code_slice slice_ok.
Proof.
  intros g s Hs Hc. unfold wlp, code_slice, bind, gets. unfold code_ok in *.
  destruct (code s) as [cs|] eqn:E; [|done]. cbn. rewrite E. by split_and!.
Qed.
Lemma vm_keeps_put_code cs : slice_ok cs -> vm_keeps (put_code cs) any.
Proof. intros Hcs g s Hs Hc. split_and!; [by apply vm_set_code|exact Hcs|done]. Qed.
Lemma vm_keeps_code_advance n : vm_keeps (code_advance n) any.
Proof. intros g s Hs Hc. by apply wp_is_wlp, (wp_code_advance_ok g). Qed.
Lemma vm_keeps_pop_index : vm_keeps pop_index (fun x => 0 <= x < 2 ^ 30).
Proof.
  eapply vm_keeps_bind; [apply vm_keeps_gets|]. intros v _. pose proof (smallint_max_range v).
  apply vm_keeps_on_stack. eapply keeps_weaken; [apply keeps_pop_smallint_range; lia|].
  cbv beta. lia.
Qed.

Lemma fetch_int256_ok n sgnd cs : slice_ok cs -> opt_ok (fun p => slice_ok (snd p)) (fetch_int256 n sgnd cs).
Proof.
  intros Hcs. unfold fetch_int256. destruct (have n cs) eqn:Hh; [|done]. cbn.
  destruct (advance n cs) eqn:E; [by eapply advance_ok|done].
Qed.

Lemma keeps_roll_loop x : keeps (roll_loop x) any.
Proof. induction x; cbn [roll_loop]; solve_keeps. Qed.
Lemma keeps_rollrev_loop n : forall i, keeps (rollrev_loop i n) any.
Proof. induction n; intros i; cbn [rollrev_loop]; [by apply keeps_ret|]. eapply keeps_bind; [solve_keeps|auto]. Qed.
Lemma keeps_blkpush_loop x : forall y, keeps (blkpush_loop x y) any.
Proof. induction x; intros y; cbn [blkpush_loop]; solve_keeps. Qed.
Lemma keeps_onlytop_loop k : forall i d, keeps (onlytop_loop i d k) any.
Proof. induction k; intros i d; cbn [onlytop_loop]; solve_keeps. Qed.
End vm_keeps.
#[export] Hint Resolve keeps_roll_loop keeps_rollrev_loop keeps_blkpush_loop keeps_onlytop_loop : keeps.

Ltac vm_keeps_step :=
  lazymatch goal with
  | |- vm_keeps (bind _ _) _ => eapply vm_keeps_bind; [|intros ? ?; cbv beta in *]
  | |- vm_keeps (ret _) _ =>
      first [apply (vm_keeps_ret _ any); exact I | apply vm_keeps_ret; try done]
  | |- vm_keeps (throw _) _ => apply vm_keeps_throw; reflexivity
  | |- vm_keeps (unless_throw _ _) _ => apply vm_keeps_unless_throw; reflexivity
  | |- vm_keeps (assert_ub _) _ => apply vm_keeps_assert_ub
  | |- vm_keeps (gets _) _ => apply vm_keeps_gets
  | |- vm_keeps (on_stack _) _ => eapply (vm_keeps_on_stack _ any); solve_keeps
  | |- vm_keeps pop_index _ => apply vm_keeps_pop_index
  | |- vm_keeps (consume_gas _) _ => apply vm_keeps_consume; lia
  | |- vm_keeps (code_advance _) _ => apply vm_keeps_code_advance
  | |- vm_keeps code_slice _ => apply vm_keeps_code_slice
  | |- vm_keeps (if ?b then _ else _) _ => destruct b eqn:?
  | |- vm_keeps (match ?x with _ => _ end) _ => destruct x eqn:?
  | |- vm_keeps (let _ := _ in _) _ => cbv zeta
  | |- vm_keeps ?m _ => let h := head_of m in unfold h
  end.
Ltac solve_vm_keeps := repeat vm_keeps_step.

Lemma exec_push_int_keeps args pfx : vm_keeps (exec_push_int args pfx) (eq 0).
Proof.
  unfold exec_push_int. cbv zeta.
  eapply vm_keeps_bind; [apply vm_keeps_code_slice|intros cs _].
  eapply vm_keeps_bind; [by apply vm_keeps_unless_throw|intros _ _].
  eapply vm_keeps_bind; [apply vm_keeps_code_advance|intros _ _].
  eapply vm_keeps_bind; [apply vm_keeps_code_slice|intros cs' Hcs'].
  eapply vm_keeps_bind; [by apply vm_keeps_of_option, fetch_int256_ok|intros [x cs''] Hcs''].
  eapply vm_keeps_bind; [by apply vm_keeps_put_code|intros _ _]. solve_vm_keeps.
Qed.

Lemma stack_ops_keep : Forall (registered_handled True) register_stack_ops.
Proof.
  unfold register_stack_ops. split_Forall; registered_tac; apply vm_keeps_handled.
  all: solve_vm_keeps.
Qed.

Lemma arith_ops_keep : Forall (registered_handled True) register_arith_ops.
Proof.
  unfold register_arith_ops, register_int_const_ops, register_add_mul_ops, register_div_ops,
    register_shift_logic_ops, register_other_arith_ops, register_int_cmp_ops. simpl app.
  split_Forall; registered_tac; apply vm_keeps_handled.
  all: try apply exec_push_int_keeps.
  all: solve_vm_keeps.
Qed.

Lemma stack_ops_good : Forall registered_good register_stack_ops.
Proof.
  apply list.Forall_forall. intros o Ho.
  eapply good_of_safe.
  - apply (proj1 (list.Forall_forall _ _) stack_ops_safe _ Ho).
  - by apply (proj1 (list.Forall_forall _ _) stack_ops_keep).
Qed.
Lemma arith_ops_good : Forall registered_good register_arith_ops.
Proof.
  apply list.Forall_forall. intros o Ho. eapply good_of_safe.
  - apply (proj1 (list.Forall_forall _ _) arith_ops_spec _ Ho).
  - by apply (proj1 (list.Forall_forall _ _) arith_ops_keep).
Qed.
