(* ===== verification/ContSafety.v ===== *)
(** * The continuation primitives keep the machine well-formed

    Each handler of ContOps.v against the invariant of VmInvariant.v: it is free of
    undefined behaviour, and what it leaves, by returning or by an exception, is
    well-formed again. *)
From S2P Require Import Prelude BigInt Int256 Cells DataCell VmTypes Stack OpcodeTable StackOps Vm ContOps VmInvariant Control InstrSafety.

(** ** Stack code in handlers *)

(** Stack code that is free of undefined behaviour on every stack. *)
Definition total {A} (m : M Stack A) : Prop := forall v, m v <> Undef.

Ltac solve_total :=
  intros ?v; eapply (wp_not_undef _ (fun _ _ => True) (fun _ _ => True));
  repeat first [handler_step | exact I | unfold_head].

Lemma wp_stack {A} (m : M Stack A) (R : A -> Prop) g (Q : A -> VmState -> Prop) s :
  keeps m R -> total m -> vm_ok g s ->
  (forall a v, R a -> vm_ok g (set_stack v s) -> Q a (set_stack v s)) ->
  wp (on_stack m) Q (err_post g) s.
Proof.
  intros Hk Ht [Hm Hf] HQ. apply (wp_on_stack_ok m R g); [done|done|apply Ht|..].
  - intros a v _ Ha Hm'. apply HQ; [done|]. by split.
  - intros n v Hn Hm'. apply err_post_vm; [done|]. by split.
Qed.

(** A handler ends after stack code. *)
Lemma stack_op_handled m : keeps m any -> total m -> handled False (stack_op m).
Proof.
  intros Hk Ht g s Hs Hc. apply (wp_bind (on_stack m)), (wp_stack m any g); [done..|].
  intros a v _ Hs'. by apply wp_ret, handler_post_ok.
Qed.

Create HintDb cont discriminated.

(** Run stack code whose result satisfies [R]. *)
Tactic Notation "stack_run" uconstr(R) :=
  first [apply wp_bind | idtac];
  lazymatch goal with
  | Hs : vm_ok ?g ?s |- wp (on_stack ?m) _ _ ?s =>
      apply (wp_stack m R g); [solve_keeps | solve_total | exact Hs |]
  end.

Section cont_ops.
Context `{Sha256} `{LibDict}.

(** *** Jumps and calls *)

Lemma exec_execute_ok : handled False exec_execute.
Proof. intros g s Hs Hc. stack_run cont_ok. intros k v Hk Hs'. by apply call_ok. Qed.
Lemma exec_callx_args_ok args : handled False (exec_callx_args args).
Proof. intros g s Hs Hc. stack_run cont_ok. intros k v Hk Hs'. by apply call_args_ok. Qed.
Lemma exec_callx_args_p_ok args : handled False (exec_callx_args_p args).
Proof. intros g s Hs Hc. stack_run cont_ok. intros k v Hk Hs'. by apply call_args_ok. Qed.
Lemma exec_jmpx_ok : handled False exec_jmpx.
Proof. intros g s Hs Hc. stack_run cont_ok. intros k v Hk Hs'. by apply jump_ok. Qed.
Lemma exec_jmpx_args_ok args : handled False (exec_jmpx_args args).
Proof. intros g s Hs Hc. stack_run cont_ok. intros k v Hk Hs'. by apply jump_args_ok. Qed.
Lemma exec_ret_ok : handled False exec_ret.
Proof. intros g s Hs Hc. by apply vm_ret_ok. Qed.
Lemma exec_ret_args_ok args : handled False (exec_ret_args args).
Proof. intros g s Hs Hc. by apply vm_ret_args_ok. Qed.
Lemma exec_ret_alt_ok : handled False exec_ret_alt.
Proof. intros g s Hs Hc. by apply vm_ret_alt_ok. Qed.
Lemma exec_ret_bool_ok : handled False exec_ret_bool.
Proof.
  intros g s Hs Hc. stack_run any. intros b v _ Hs'.
  destruct b; [by apply vm_ret_ok|by apply vm_ret_alt_ok].
Qed.

(** After [extract_cc] without c2. *)
Lemma extract_vm_ok g n copy args (Q : Continuation -> VmState -> Prop) s :
  Z.testbit n 2 = false -> vm_ok g s -> code_ok s ->
  (forall cc s', cont_ok cc -> vm_ok g s' -> Q cc s') ->
  wp (extract_cc n copy args) Q (err_post g) s.
Proof.
  intros Hn Hs Hc HQ. eapply wp_mono; [by apply extract_cc_ok| |done].
  intros cc s' (Hcc & Hm & Hf). apply HQ; [done|]. rewrite Hn in Hf. split; [done|].
  by apply (Hf quit0).
Qed.

(** CALLCC: the current continuation is pushed and [k] is run. *)
Lemma callcc_ok g k copy args s :
  cont_ok k -> vm_ok g s -> code_ok s ->
  wp (cc <- extract_cc 3 copy args ;; on_stack (push_cont cc) ;; jump k)
    (handler_post g) (err_post g) s.
Proof.
  intros Hk Hs Hc. apply wp_bind, (extract_vm_ok g); [done..|]. intros cc s1 Hcc Hs1.
  stack_run any. intros _ v _ Hs2. by apply jump_ok.
Qed.
Lemma exec_callcc_ok : handled False exec_callcc.
Proof. intros g s Hs Hc. stack_run cont_ok. intros k v Hk Hs'. by apply callcc_ok. Qed.
Lemma exec_callcc_args_ok args : handled False (exec_callcc_args args).
Proof. intros g s Hs Hc. unfold exec_callcc_args. cbv zeta. stack_run cont_ok. intros k v Hk Hs'. by apply callcc_ok. Qed.
Lemma exec_callcc_varargs_ok : handled False exec_callcc_varargs.
Proof.
  intros g s Hs Hc. stack_run (fun '(_, _, k) => cont_ok k).
  intros [[r p] k] v Hk Hs'. by apply callcc_ok.
Qed.

Lemma push_code_ok g s :
  vm_ok g s -> code_ok s -> wp push_code (fun _ s' => vm_ok g s' /\ code s' = code s) (err_post g) s.
Proof.
  intros Hs Hc. apply wp_bind. unfold wp, code_slice, bind, gets. unfold code_ok in Hc.
  destruct (code s) as [cs|] eqn:E; [|done]. cbn. split; [|by rewrite E]. by apply vm_push.
Qed.
Lemma push_code_jump_ok g k s :
  cont_ok k -> vm_ok g s -> code_ok s -> wp (push_code ;; jump k) (handler_post g) (err_post g) s.
Proof.
  intros Hk Hs Hc. apply wp_bind. eapply wp_mono; [by apply push_code_ok| |done].
  intros _ s' [Hs' _]. by apply jump_ok.
Qed.
Lemma exec_jmpx_data_ok : handled False exec_jmpx_data.
Proof. intros g s Hs Hc. stack_run cont_ok. intros k v Hk Hs'. by apply push_code_jump_ok. Qed.
Lemma exec_ret_data_ok : handled False exec_ret_data.
Proof.
  intros g s Hs Hc. apply (wp_bind push_code). eapply wp_mono; [by apply push_code_ok| |done].
  intros _ s' [Hs' _]. by apply vm_ret_ok.
Qed.
Lemma exec_callx_varargs_ok : handled False exec_callx_varargs.
Proof.
  intros g s Hs Hc. stack_run (fun '(_, _, k) => cont_ok k).
  intros [[r p] k] v Hk Hs'. by apply call_args_ok.
Qed.
Lemma exec_ret_varargs_ok : handled False exec_ret_varargs.
Proof. intros g s Hs Hc. stack_run any. intros n v _ Hs'. by apply vm_ret_args_ok. Qed.
Lemma exec_jmpx_varargs_ok : handled False exec_jmpx_varargs.
Proof.
  intros g s Hs Hc. stack_run (fun '(_, k) => cont_ok k). intros [p k] v Hk Hs'. by apply jump_args_ok.
Qed.

(** *** Continuations in references of the code *)

Definition code_refs (n : nat) (s : VmState) : Prop :=
  exists cs, code s = Some cs /\ slice_ok cs /\ (n <= size_refs cs)%nat.

Lemma code_refs_ok n s : code_refs n s -> code_ok s.
Proof. intros (cs & E & Hcs & _). unfold code_ok. by rewrite E. Qed.

Lemma need_refs_ok g n pfx (Q : unit -> VmState -> Prop) s :
  vm_ok g s -> code_ok s -> (forall s', vm_ok g s' -> code_refs n s' -> Q tt s') ->
  wp (need_refs n pfx) Q (err_post g) s.
Proof.
  intros Hs Hc HQ. unfold need_refs, code_slice. apply wp_bind, wp_bind, wp_gets.
  unfold code_ok in Hc. destruct (code s) as [cs|] eqn:E; [|done]. apply wp_ret, wp_bind.
  apply wp_unless_throw; [intros Hr%Nat.leb_le|intros _; by apply err_post_vm].
  unfold wp, code_advance. rewrite E. apply HQ; [by apply vm_set_code|].
  eexists. split; [done|]. destruct (advance (Z.to_nat pfx) cs) as [cs'|] eqn:Ea; [|done].
  split; [by eapply advance_ok|]. unfold advance in Ea. by destruct (have _ cs); simplify_eq.
Qed.

Lemma code_fetch_ref_ok g n (Q : Cell -> VmState -> Prop) E s :
  vm_ok g s -> code_refs (S n) s -> (forall c s', vm_ok g s' -> code_refs n s' -> Q c s') ->
  wp code_fetch_ref Q E s.
Proof.
  intros Hs (cs & Ec & [Hb Hr] & Hn) HQ. unfold size_refs in Hn.
  unfold code_fetch_ref, code_slice. apply wp_bind, wp_bind, wp_gets. rewrite Ec. apply wp_ret, wp_bind.
  unfold fetch_ref, have_refs. rewrite (proj2 (Nat.leb_le 1 _)) by (unfold size_refs; lia).
  destruct (cell_refs (cs_cell cs) !! refs_st cs) as [c|] eqn:El.
  2: { apply lookup_ge_None in El. lia. }
  apply wp_ret, wp_bind, wp_modify, wp_ret, HQ; [by apply vm_set_code|].
  eexists. split; [done|]. unfold slice_ok, size_refs. simpl. lia.
Qed.

Lemma exec_do_with_ref_ok func args pfx :
  (forall k g s, cont_ok k -> vm_ok g s -> code_ok s -> wp (func k) (handler_post g) (err_post g) s) ->
  handled False (exec_do_with_ref func args pfx).
Proof.
  intros Hf g s Hs Hc. apply (wp_bind (need_refs 1 pfx)), (need_refs_ok g); [done..|].
  intros s1 Hs1 Hr1. apply wp_bind, (code_fetch_ref_ok g 0); [done..|]. intros c s2 Hs2 Hr2%code_refs_ok.
  apply wp_bind, (ref_to_cont_ok g); [done|]. intros k s3 Hk Hs3 Hsc.
  apply Hf; [done|done|by eapply same_core_code].
Qed.
Lemma exec_do_with_cell_ok func args pfx :
  (forall c, handled False (func c)) -> handled False (exec_do_with_cell func args pfx).
Proof.
  intros Hf g s Hs Hc. apply (wp_bind (need_refs 1 pfx)), (need_refs_ok g); [done..|].
  intros s1 Hs1 Hr1. apply wp_bind, (code_fetch_ref_ok g 0); [done..|]. intros c s2 Hs2 Hr2%code_refs_ok.
  by apply Hf.
Qed.

(** Load a continuation, then call it or jump to it. *)
Lemma ref_call_ok g c s :
  vm_ok g s -> code_ok s -> wp (k <- ref_to_cont c ;; call k) (handler_post g) (err_post g) s.
Proof.
  intros Hs Hc. apply wp_bind, (ref_to_cont_ok g); [done|]. intros k s' Hk Hs' Hsc.
  apply call_ok; [done|done|by eapply same_core_code].
Qed.
Lemma ref_jump_ok g c s :
  vm_ok g s -> wp (k <- ref_to_cont c ;; jump k) (handler_post g) (err_post g) s.
Proof.
  intros Hs. apply wp_bind, (ref_to_cont_ok g); [done|]. intros k s' Hk Hs' Hsc. by apply jump_ok.
Qed.

Lemma exec_ifelse_ref_ok mode args pfx : handled False (exec_ifelse_ref mode args pfx).
Proof.
  intros g s Hs Hc. apply (wp_bind (need_refs 1 pfx)), (need_refs_ok g); [done..|].
  intros s1 Hs1 Hr1. apply wp_bind, (code_fetch_ref_ok g 0); [done..|]. intros c s2 Hs2 Hc2%code_refs_ok.
  stack_run (fun '(k, _) => cont_ok k). intros [k b] v Hk Hs3. apply wp_bind.
  destruct (Bool.eqb b mode); [|by apply wp_ret, call_ok].
  apply (ref_to_cont_ok g); [done|]. intros k' s' Hk' Hs' Hsc.
  apply call_ok; [done|done|by eapply same_core_code].
Qed.
Lemma exec_ifref_elseref_ok args pfx : handled False (exec_ifref_elseref args pfx).
Proof.
  intros g s Hs Hc. apply (wp_bind (need_refs 2 pfx)), (need_refs_ok g); [done..|].
  intros s1 Hs1 Hr1. apply wp_bind, (code_fetch_ref_ok g 1); [done..|]. intros c1 s2 Hs2 Hr2.
  apply wp_bind, (code_fetch_ref_ok g 0); [done..|]. intros c2 s3 Hs3 Hr3%code_refs_ok.
  stack_run any. intros b v _ Hs4. by apply ref_call_ok.
Qed.

(** *** Child machines *)

Lemma new_vm_fresh code v stk gl flags data libs c7 always :
  slice_ok code -> 11 <= v -> stack_ok stk -> 0 <= gas_limit gl -> opt_ok stack_ok c7 ->
  fresh_ok (set_chksig always (new_vm (Some code) v stk gl flags data libs c7)).
Proof.
  intros Hcode Hv Hstk Hl Hc7. split; try done.
  - cbn. destruct (_ && _); [by constructor|done].
  - cbn [cr new_vm set_chksig]. apply regs_ok_spec. split_and!; try done.
    + destruct (Z.testbit flags 0); [|done]. split; [by apply cdata_ok_spec|done].
    + destruct c7; [done|constructor].
Qed.

(** Optional arguments of RUNVM. *)
Lemma wp_optional {A} (b : bool) (m : M Stack A) (d : A) (R : A -> Prop) g
    (Q : A -> VmState -> Prop) s :
  keeps m R -> total m -> R d -> vm_ok g s ->
  (forall a v, R a -> vm_ok g (set_stack v s) -> Q a (set_stack v s)) ->
  wp (if b then on_stack m else ret d) Q (err_post g) s.
Proof.
  intros Hk Ht Hd Hs HQ. destruct b; [by apply (wp_stack m R g)|]. apply wp_ret.
  specialize (HQ d (stack s)). rewrite set_stack_id in HQ. by apply HQ.
Qed.
Lemma wp_optional_some {A} (b : bool) (m : M Stack A) (R : A -> Prop) g
    (Q : option A -> VmState -> Prop) s :
  keeps m R -> total m -> vm_ok g s ->
  (forall a v, opt_ok R a -> vm_ok g (set_stack v s) -> Q a (set_stack v s)) ->
  wp (if b then a <- on_stack m ;; ret (Some a) else ret None) Q (err_post g) s.
Proof.
  intros Hk Ht Hs HQ. destruct b.
  - apply wp_bind, (wp_stack m R g); [done..|]. intros a v Ha Hs'. by apply wp_ret, HQ.
  - apply wp_ret. specialize (HQ None (stack s)). rewrite set_stack_id in HQ. by apply HQ.
Qed.

Lemma pop_block_ok g n (Q : Stack -> VmState -> Prop) E s :
  n <= depth (stack s) -> vm_ok g s ->
  (forall b v, stack_ok b -> vm_ok g (set_stack v s) -> Q b (set_stack v s)) ->
  wp (on_stack (pop_block n)) Q E s.
Proof.
  intros Hn Hs HQ. unfold wp, on_stack, pop_block. rewrite (proj2 (Z.leb_le _ _)) by done.
  pose proof (rl_stack _ _ _ (proj2 (proj1 Hs))). apply HQ; [by apply Forall_take|].
  apply vm_set_stack; [by apply Forall_drop|done].
Qed.

Lemma wrap_s32_le x : 0 <= x -> wrap_s 32 x <= x.
Proof. intros Hx. unfold wrap_s. change (2 ^ 32) with 4294967296. change (2 ^ (32 - 1)) with 2147483648. div_lia. Qed.

(** The number of arguments is popped last; it is at most what is then left. *)
Lemma pop_stack_size_ok g (Q : Z -> VmState -> Prop) s :
  vm_ok g s -> (forall n v, n <= depth v -> vm_ok g (set_stack v s) -> Q n (set_stack v s)) ->
  wp (on_stack (pop_smallint_range (depth (stack s) - 1) 0)) Q (err_post g) s.
Proof.
  intros [Hm Hf] HQ.
  assert (wp (pop_smallint_range (depth (stack s) - 1) 0)
    (fun n v => n <= depth v) (fun _ _ => True) (stack s)) as Hw.
  { apply wp_bind. eapply pops_use; [apply pops_pop_long_range| |done].
    intros n e v Hn _ _ Hv. cbv beta in Hn. apply wp_ret. pose proof (wrap_s32_le n). lia. }
  apply (wp_on_stack_ok _ any g); [apply keeps_pop_smallint_any|done|by eapply wp_not_undef|..].
  - intros n v En _ Hm'. unfold wp in Hw. rewrite En in Hw. apply HQ; [done|by split].
  - intros n v Hn Hm'. apply err_post_vm; [done|]. by split.
Qed.

Lemma exec_runvm_common_ok mode : handled False (exec_runvm_common mode).
Proof.
  intros g s Hs Hc. unfold exec_runvm_common. cbv zeta.
  apply (wp_bind (unless_throw _ _)), wp_unless_throw; [intros _|intros _; by apply err_post_vm].
  unfold runvm_gas_price. apply wp_bind, (wp_consume_ok g); [lia|apply Hs| |by intros s' Hb].
  intros Hm. set (s0 := spend 40 s) in *.
  assert (vm_ok (g - 1) s0) as Hs0 by (split; [eapply mach_mono; [|done]; lia|apply Hs]).
  assert (code_ok s0) as Hc0 by exact Hc. clearbody s0. clear Hm Hs Hc s.
  assert (forall e s', err_post (g - 1) e s' -> err_post g e s') as HE.
  { intros e s'. apply err_post_mono. lia. }
  assert (0 <= gas_infty) as Hinf by (unfold gas_infty; lia).
  eapply wp_mono; [|done|exact HE].
  apply wp_bind, (wp_optional _ _ _ (fun x => 0 <= x <= gas_infty) (g - 1));
    [solve_keeps|solve_total|lia|done|]. intros gmax v1 Hgmax Hs1.
  apply wp_bind, (wp_optional _ _ _ (fun x => 0 <= x <= gas_infty) (g - 1));
    [solve_keeps|solve_total|lia|done|]. intros glim v2 Hglim Hs2.
  apply wp_bind, (wp_optional_some _ _ stack_ok (g - 1)); [solve_keeps|solve_total|done|].
  intros c7 v3 Hc7 Hs3.
  apply wp_bind, (wp_optional_some _ _ any (g - 1)); [solve_keeps|solve_total|done|].
  intros data v4 _ Hs4.
  apply wp_bind, (wp_optional _ _ _ any (g - 1)); [solve_keeps|solve_total|done|done|].
  intros rv v5 _ Hs5.
  apply wp_bind, (wp_stack _ slice_ok (g - 1)); [solve_keeps|solve_total|done|]. intros code v6 Hcode Hs6.
  apply wp_bind, wp_gets, wp_bind, (pop_stack_size_ok (g - 1)); [done|]. intros n v7 Hn Hs7.
  apply wp_bind, (pop_block_ok (g - 1)); [done|done|]. intros new v8 Hnew Hs8.
  apply wp_bind, (wp_consume_stack_ok (g - 1)); [apply Hs8| |by intros s' Hb].
  intros a _ Hm9. set (s9 := spend a _) in *.
  assert (vm_ok (g - 1) s9) as Hs9 by (split; [done|apply Hs8]).
  assert (code_ok s9) as Hc9 by exact Hc0. clearbody s9. clear -Hs9 Hc9 Hnew Hcode Hc7 Hglim Hinf.
  apply wp_bind, wp_gets, wp_bind, wp_gets, wp_bind, wp_gets, wp_bind.
  pose proof (rl_gas _ _ _ (proj2 (proj1 Hs9))) as Hrem.
  eapply wp_mono; [apply (run_child_vm_ok g); [| |done|done]|by intros [] s' Hp; apply wp_ret|done].
  2: { cbn. case_match; lia. }
  apply new_vm_fresh; [done| |done|cbn; lia|done]. by destruct Hs9 as [[[[? _ _ _] _] _] _].
Qed.
Lemma exec_runvm_ok args : handled False (exec_runvm args).
Proof. apply exec_runvm_common_ok. Qed.
Lemma exec_runvmx_ok : handled False exec_runvmx.
Proof. intros g s Hs Hc. stack_run any. intros mode v _ Hs'. by apply exec_runvm_common_ok. Qed.

(** *** Conditionals *)

Lemma end_ok g s : vm_ok g s -> code_ok s -> wp (ret 0) (handler_post g) (err_post g) s.
Proof. intros. by apply wp_ret, handler_post_ok. Qed.
#[local] Hint Resolve end_ok : cont.

Lemma exec_if_ok : handled False exec_if.
Proof.
  intros g s Hs Hc. stack_run (fun '(k, _) => cont_ok k). intros [k b] v Hk Hs'.
  destruct b; [by apply call_ok|by apply end_ok].
Qed.
Lemma exec_ifnot_ok : handled False exec_ifnot.
Proof.
  intros g s Hs Hc. stack_run (fun '(k, _) => cont_ok k). intros [k b] v Hk Hs'.
  destruct b; [by apply end_ok|by apply call_ok].
Qed.
Lemma exec_if_jmp_ok : handled False exec_if_jmp.
Proof.
  intros g s Hs Hc. stack_run (fun '(k, _) => cont_ok k). intros [k b] v Hk Hs'.
  destruct b; [by apply jump_ok|by apply end_ok].
Qed.
Lemma exec_ifnot_jmp_ok : handled False exec_ifnot_jmp.
Proof.
  intros g s Hs Hc. stack_run (fun '(k, _) => cont_ok k). intros [k b] v Hk Hs'.
  destruct b; [by apply end_ok|by apply jump_ok].
Qed.
Lemma exec_ifret_ok : handled False exec_ifret.
Proof. intros g s Hs Hc. stack_run any. intros b v _ Hs'. destruct b; [by apply vm_ret_ok|by apply end_ok]. Qed.
Lemma exec_ifnotret_ok : handled False exec_ifnotret.
Proof. intros g s Hs Hc. stack_run any. intros b v _ Hs'. destruct b; [by apply end_ok|by apply vm_ret_ok]. Qed.
Lemma exec_ifretalt_ok : handled False exec_ifretalt.
Proof. intros g s Hs Hc. stack_run any. intros b v _ Hs'. destruct b; [by apply vm_ret_alt_ok|by apply end_ok]. Qed.
Lemma exec_ifnotretalt_ok : handled False exec_ifnotretalt.
Proof. intros g s Hs Hc. stack_run any. intros b v _ Hs'. destruct b; [by apply end_ok|by apply vm_ret_alt_ok]. Qed.
Lemma exec_if_else_ok : handled False exec_if_else.
Proof.
  intros g s Hs Hc. stack_run (fun '(k0, k1, _) => cont_ok k0 /\ cont_ok k1).
  intros [[k0 k1] b] v [Hk0 Hk1] Hs'. apply call_ok; [by destruct b|done|done].
Qed.
Lemma exec_condsel_ok : handled False exec_condsel.
Proof. apply stack_op_handled; [solve_keeps; by case_match|solve_total]. Qed.
Lemma exec_condsel_chk_ok : handled False exec_condsel_chk.
Proof. apply stack_op_handled; [solve_keeps; by case_match|solve_total]. Qed.
Lemma exec_if_bit_jmp_ok args : handled False (exec_if_bit_jmp args).
Proof.
  intros g s Hs Hc. unfold exec_if_bit_jmp. cbv zeta. stack_run (fun '(k, _) => cont_ok k).
  intros [k b] v Hk Hs'. destruct (xorb _ _); [by apply jump_ok|by apply end_ok].
Qed.
Lemma exec_if_bit_jmpref_ok args pfx : handled False (exec_if_bit_jmpref args pfx).
Proof.
  intros g s Hs Hc. apply (wp_bind (need_refs 1 pfx)), (need_refs_ok g); [done..|].
  intros s1 Hs1 Hr1. apply wp_bind, (code_fetch_ref_ok g 0); [done..|]. intros c s2 Hs2 Hc2%code_refs_ok.
  cbv zeta. stack_run any. intros b v _ Hs3.
  destruct (xorb _ _); [by apply ref_jump_ok|by apply end_ok].
Qed.

Lemma if_call_ok b c : handled False (if_cell b call c).
Proof.
  intros g s Hs Hc. stack_run any. intros x v _ Hs'.
  destruct (Bool.eqb x b); [by apply ref_call_ok|by apply end_ok].
Qed.
Lemma if_jump_ok b c : handled False (if_cell b jump c).
Proof.
  intros g s Hs Hc. stack_run any. intros x v _ Hs'.
  destruct (Bool.eqb x b); [by apply ref_jump_ok|by apply end_ok].
Qed.

(** *** Loops *)

(** The continuation after the loop: the rest of the code, or c0. *)
Lemma loop_after_ok g brk (m : Continuation -> M VmState Z) s :
  vm_ok g s -> code_ok s ->
  (forall after s', cont_ok after -> vm_ok g s' -> wp (m after) (handler_post g) (err_post g) s') ->
  wp (cc <- extract_cc 1 (-1) (-1) ;; after <- c1_envelope_if brk cc ;; m after)
    (handler_post g) (err_post g) s.
Proof.
  intros Hs Hc Hm. apply wp_bind, (extract_vm_ok g); [done..|]. intros cc s1 Hcc Hs1.
  apply wp_bind. eapply wp_mono; [by apply c1_envelope_ok| |done].
  intros after s2 [Ha Hs2]. by apply Hm.
Qed.
(** The rest of the code is the body of the loop. *)
Lemma loop_end_ok g brk (m : Continuation -> Continuation -> M VmState Z) s :
  vm_ok g s -> code_ok s ->
  (forall body after s', cont_ok body -> cont_ok after -> vm_ok g s' ->
     wp (m body after) (handler_post g) (err_post g) s') ->
  wp (k <- extract_cc 0 (-1) (-1) ;; c0 <- get_c0 ;; after <- c1_envelope_if brk c0 ;; m k after)
    (handler_post g) (err_post g) s.
Proof.
  intros Hs Hc Hm. apply wp_bind, (extract_vm_ok g); [done..|]. intros k s1 Hk Hs1.
  apply wp_bind. eapply wp_get_reg; [exact full_c0|exact regs_c0_ok|exact Hs1|]. intros c0 Hc0 _.
  apply wp_bind. eapply wp_mono; [by apply c1_envelope_ok| |done].
  intros after s2 [Ha Hs2]. by apply Hm.
Qed.

Lemma exec_repeat_ok brk : handled False (exec_repeat brk).
Proof.
  intros g s Hs Hc. stack_run (fun '(k, _) => cont_ok k). intros [k n] v Hk Hs'.
  destruct (n <=? 0); [by apply end_ok|]. apply loop_after_ok; [done|done|].
  intros after s1 Ha Hs1. by apply vm_repeat_ok.
Qed.
Lemma exec_repeat_end_ok brk : handled False (exec_repeat_end brk).
Proof.
  intros g s Hs Hc. stack_run any. intros n v _ Hs'.
  destruct (n <=? 0); [by apply vm_ret_ok|].
  apply (loop_end_ok g brk (fun k after => vm_repeat k after n)); [done|done|].
  intros body after s1 Hb Ha Hs1. by apply vm_repeat_ok.
Qed.
Lemma exec_until_ok brk : handled False (exec_until brk).
Proof.
  intros g s Hs Hc. stack_run cont_ok. intros k v Hk Hs'. apply loop_after_ok; [done|done|].
  intros after s1 Ha Hs1. by apply vm_until_ok.
Qed.
Lemma exec_until_end_ok brk : handled False (exec_until_end brk).
Proof.
  intros g s Hs Hc. apply (loop_end_ok g brk vm_until); [done|done|].
  intros body after s1 Hb Ha Hs1. by apply vm_until_ok.
Qed.
Lemma exec_while_ok brk : handled False (exec_while brk).
Proof.
  intros g s Hs Hc. stack_run (fun '(k, c) => cont_ok k /\ cont_ok c). intros [k c] v [Hk Hcond] Hs'.
  apply loop_after_ok; [done|done|]. intros after s1 Ha Hs1. by apply loop_while_ok.
Qed.
Lemma exec_while_end_ok brk : handled False (exec_while_end brk).
Proof.
  intros g s Hs Hc. stack_run cont_ok. intros c v Hcond Hs'.
  apply (loop_end_ok g brk (loop_while c)); [done|done|].
  intros body after s1 Hb Ha Hs1. by apply loop_while_ok.
Qed.
Lemma exec_again_ok brk : handled False (exec_again brk).
Proof.
  intros g s Hs Hc.
  assert (forall s1, vm_ok g s1 -> wp (k <- on_stack pop_cont ;; vm_again k)
    (handler_post g) (err_post g) s1) as Hend.
  { intros s1 Hs1. stack_run cont_ok. intros k v Hk Hs'. by apply vm_again_ok. }
  unfold exec_again. destruct brk.
  - apply (wp_bind (bind _ _)), wp_bind, (extract_vm_ok g); [done..|]. intros cc s1 Hcc Hs1.
    apply (wp_set_reg set_c1 g); [..|done|].
    + intros r Hr. by apply set_c1_ok.
    + intros r Hr. by apply set_c1_full.
    + intros s2 Hs2 _ _ _. by apply Hend.
  - by apply (wp_bind (ret tt)), wp_ret, Hend.
Qed.
Lemma exec_again_end_ok brk : handled False (exec_again_end brk).
Proof.
  intros g s Hs Hc. unfold exec_again_end.
  assert (forall s1, vm_ok g s1 -> code_ok s1 -> wp (k <- extract_cc 0 (-1) (-1) ;; vm_again k)
    (handler_post g) (err_post g) s1) as Hend.
  { intros s1 Hs1 Hc1. apply wp_bind, (extract_vm_ok g); [done..|]. intros k s2 Hk Hs2.
    by apply vm_again_ok. }
  destruct brk; [|by apply (wp_bind (ret tt)), wp_ret, Hend].
  apply (wp_bind (c1_save_set true)). eapply wp_mono; [by apply c1_save_set_ok| |done].
  intros _ s1 [Hs1 E1]. apply Hend; [done|]. unfold code_ok. by rewrite E1.
Qed.

(** *** Arguments of continuations *)

(** Like [wp_stack], with what is known of the stack that is left. *)
Lemma wp_stack_left {A} (m : M Stack A) (R : A -> Prop) (P : A -> Stack -> Prop) g
    (Q : A -> VmState -> Prop) s :
  keeps m R -> wp m P (fun _ _ => True) (stack s) -> vm_ok g s ->
  (forall a v, R a -> P a v -> vm_ok g (set_stack v s) -> Q a (set_stack v s)) ->
  wp (on_stack m) Q (err_post g) s.
Proof.
  intros Hk Hw [Hm Hf] HQ. apply (wp_on_stack_ok m R g); [done|done|by eapply wp_not_undef|..].
  - intros a v E Ha Hm'. unfold wp in Hw. rewrite E in Hw. apply HQ; [done|done|by split].
  - intros n v Hn Hm'. apply err_post_vm; [done|]. by split.
Qed.

Lemma pop_cont_left n v :
  wp (check_underflow [n + 1] ;; pop_cont) (fun _ v' => n <= depth v') (fun _ _ => True) v.
Proof.
  apply wp_bind. stack_step. eapply pops_use; [apply pops_pop_cont| |done]. intros. lia.
Qed.
Lemma pop_cellslice_left n v :
  wp (check_underflow [n + 1] ;; pop_cellslice) (fun _ v' => n <= depth v') (fun _ _ => True) v.
Proof.
  apply wp_bind. stack_step. eapply pops_use; [apply pops_pop_cellslice| |done]. intros. lia.
Qed.

Lemma set_cdata_stack_ok st d : stack_ok st -> cdata_ok d -> cdata_ok (set_cdata_stack (Some st) d).
Proof. destruct d. intros Hst. rewrite cdata_ok_spec. intros [_ ?]. by apply cdata_ok_spec. Qed.
Lemma set_nargs_ok n d : cdata_ok d -> cdata_ok (set_nargs n d).
Proof. destruct d. cbn [set_nargs]. intros H1%cdata_ok_spec. by apply cdata_ok_spec. Qed.

Lemma use_nargs_ok copy d : cdata_ok d -> cdata_ok (use_nargs copy d).
Proof. unfold use_nargs. intros Hd. destruct (0 <=? _); [by apply set_nargs_ok|done]. Qed.
Lemma limit_nargs_ok more d : cdata_ok d -> cdata_ok (limit_nargs more d).
Proof. unfold limit_nargs. intros Hd. by repeat case_match; try apply set_nargs_ok. Qed.

(** The arguments move from the machine to the stack of the continuation. *)
Lemma attach_args_ok g copy d (Q : ControlData -> VmState -> Prop) s :
  0 < copy <= depth (stack s) -> cdata_ok d -> vm_ok g s -> code_ok s ->
  (forall d' s', cdata_ok d' -> vm_ok g s' -> code_ok s' -> Q d' s') ->
  wp (st <- match cdata_stack d with
            | None => o <- on_stack (split_top copy 0) ;; of_option o
            | Some st => take_from_stack st copy
            end ;;
      consume_stack_gas (depth st) ;; ret (use_nargs copy (set_cdata_stack (Some st) d)))
    Q (err_post g) s.
Proof.
  intros Hd Hcd Hs Hc HQ. apply wp_bind.
  assert (forall st s', stack_ok st -> mach_ok g s' -> regs_full (cr s') -> code_ok s' ->
    wp (consume_stack_gas (depth st) ;; ret (use_nargs copy (set_cdata_stack (Some st) d)))
      Q (err_post g) s') as Hst.
  { intros st s' Hst Hm' Hf' Hc'. apply wp_bind, (wp_consume_stack_ok g); [done| |by intros s1 Hb].
    intros a _ Hm2. apply wp_ret, HQ; [|by split|done]. by apply use_nargs_ok, set_cdata_stack_ok. }
  destruct (cdata_stack d) as [st|] eqn:E.
  - eapply wp_take_from_stack; [lia| |apply Hs|].
    + apply cdata_ok_parts in Hcd as [Hcs _]. by rewrite E in Hcs.
    + intros new old Hnew Hm2 _. apply Hst; [done|done|apply Hs|exact Hc].
  - apply wp_bind, (wp_split_top_ok g); [lia|lia|lia|apply Hs|].
    intros new w Hnew Hm2. apply wp_ret, Hst; [done|done|apply Hs|exact Hc].
Qed.

Lemma exec_setcontargs_common_ok copy more : handled False (exec_setcontargs_common copy more).
Proof.
  intros g s Hs Hc. unfold exec_setcontargs_common.
  apply (wp_bind (on_stack _)), (wp_stack_left _ cont_ok (fun _ v => copy <= depth v) g);
    [solve_keeps|apply pop_cont_left|done|]. intros k v Hk Hd Hs1.
  assert (forall k' s', cont_ok k' -> vm_ok g s' -> code_ok s' ->
    wp (stack_op (push_cont k')) (handler_post g) (err_post g) s') as Hend.
  { intros k' s' Hk' Hs' Hc'. apply stack_op_handled; [solve_keeps|solve_total|done|done]. }
  apply wp_bind. destruct (_ || _); [|by apply wp_ret, Hend].
  destruct (force_cdata k) as [d wrap] eqn:Ek. apply force_cdata_ok in Ek as [Hcd Hw]; [|done].
  apply wp_bind. destruct (Z.ltb_spec 0 copy).
  - apply wp_bind, wp_unless_throw; [intros _|intros _; by apply err_post_vm].
    apply (attach_args_ok g); [by split|done|done|exact Hc|].
    intros d' s' Hd' Hs' Hc'. by apply wp_ret, Hend; [apply Hw, limit_nargs_ok| |].
  - by apply wp_ret, wp_ret, Hend; [apply Hw, limit_nargs_ok| |].
Qed.
Lemma exec_setcontargs_ok args : handled False (exec_setcontargs args).
Proof. apply exec_setcontargs_common_ok. Qed.
Lemma exec_setcont_varargs_ok : handled False exec_setcont_varargs.
Proof. intros g s Hs Hc. stack_run any. intros [m c] v _ Hs'. by apply exec_setcontargs_common_ok. Qed.
Lemma exec_setnum_varargs_ok : handled False exec_setnum_varargs.
Proof. intros g s Hs Hc. stack_run any. intros m v _ Hs'. by apply exec_setcontargs_common_ok. Qed.

Lemma exec_return_args_common_ok count : 0 <= count -> handled False (exec_return_args_common count).
Proof.
  intros Hcount g s Hs Hc. unfold exec_return_args_common. apply (wp_bind (on_stack _)).
  apply (wp_stack_left _ any (fun _ v => v = stack s /\ count <= depth v) g);
    [solve_keeps|by stack_step|done|]. intros _ v _ [-> Hd] Hs0. rewrite set_stack_id in *.
  apply wp_bind, wp_gets. destruct (_ =? count); [by apply end_ok|]. cbv zeta.
  apply wp_bind, (wp_stack_left _ (opt_ok stack_ok)
    (fun o v => exists t, o = Some t /\ depth v = depth (stack s) - count) g); [solve_keeps| |done|].
  { unfold wp, split_top. cbv zeta. rewrite (proj2 (Z.ltb_ge _ _)), (proj2 (Z.ltb_ge _ 0)) by lia.
    eexists. split; [done|]. unfold depth in *. rewrite length_drop. lia. }
  intros o v Ho (t & -> & Hv) Hs1. apply wp_bind, wp_ret, wp_bind, wp_gets, wp_bind, wp_modify.
  assert (vm_ok g (set_stack t (set_stack v s))) as Hs2 by by apply vm_set_stack.
  apply wp_bind. eapply wp_get_reg; [exact full_c0|exact regs_c0_ok|exact Hs2|]. intros k Hk _.
  destruct (force_cdata k) as [d wrap] eqn:Ek. apply force_cdata_ok in Ek as [Hcd Hw]; [|done].
  apply wp_bind, wp_unless_throw; [intros _|intros _; by apply err_post_vm].
  assert (forall st, stack_ok st -> wp (consume_stack_gas (depth st) ;;
    vm_set_c0 (Some (wrap (use_nargs (depth (stack s) - count) (set_cdata_stack (Some st) d)))) ;; ret 0)
    (handler_post g) (err_post g) (set_stack t (set_stack v s))) as Hst.
  { intros st Hst. apply wp_bind, (wp_consume_stack_ok g); [apply Hs2| |by intros s1 Hb].
    intros a _ Hm2. apply wp_bind, (wp_set_c0_full g); [|by split; [|apply Hs2]|].
    - by apply Hw, use_nargs_ok, set_cdata_stack_ok.
    - intros Hs3. by apply end_ok. }
  assert (stack_ok v) as Hstv by apply Hs1.
  apply cdata_ok_parts in Hcd as Hcs. destruct Hcs as [Hcs _].
  apply wp_bind. destruct (cdata_stack d) as [st|]; [|by apply wp_ret, Hst].
  unfold move_from_stack. cbn [stack set_stack]. rewrite (proj2 (Z.ltb_ge _ _)) by lia.
  apply wp_ret, Hst. apply Forall_app. split; [by apply Forall_take|done].
Qed.
Lemma exec_return_args_ok args : handled False (exec_return_args args).
Proof. apply exec_return_args_common_ok. pose proof (land15_range args). lia. Qed.
Lemma exec_return_varargs_ok : handled False exec_return_varargs.
Proof.
  intros g s Hs Hc. apply (wp_bind (on_stack _)), (wp_stack _ (fun n => 0 <= n <= 255) g);
    [apply keeps_pop_smallint_range; lia|solve_total|done|].
  intros n v Hn Hs'. by apply exec_return_args_common_ok; [lia| |].
Qed.

Lemma ord_cont_ok st save n c cs :
  opt_ok stack_ok st -> regs_ok save -> slice_ok cs -> cont_ok (OrdCont (mkCData st save n c) (Some cs)).
Proof. intros. split; [by apply cdata_ok_spec|done]. Qed.
Lemma push_cont_ok k : cont_ok k -> handled False (stack_op (push_cont k)).
Proof. intros Hk. apply stack_op_handled; [solve_keeps|solve_total]. Qed.

Lemma exec_bless_ok : handled False exec_bless.
Proof.
  intros g s Hs Hc. stack_run slice_ok. intros cs v Hcs Hs'. apply wp_bind, wp_gets.
  by apply push_cont_ok; [apply ord_cont_ok|..].
Qed.
Lemma exec_bless_args_common_ok copy more : 0 <= copy -> handled False (exec_bless_args_common copy more).
Proof.
  intros Hcopy g s Hs Hc. unfold exec_bless_args_common.
  apply (wp_bind (on_stack _)), (wp_stack_left _ slice_ok (fun _ v => copy <= depth v) g);
    [solve_keeps|apply pop_cellslice_left|done|]. intros cs v Hcs Hd Hs1.
  apply wp_bind, (wp_split_top_ok g); [lia|lia|cbn [stack set_stack]; lia|apply Hs1|].
  intros new w Hnew Hm2. apply wp_bind, wp_ret, wp_bind, (wp_consume_stack_ok g); [done| |by intros s1 Hb].
  intros a _ Hm3. apply wp_bind, wp_gets. apply push_cont_ok; [by apply ord_cont_ok| |exact Hc].
  split; [done|apply Hs1].
Qed.
Lemma exec_bless_varargs_ok : handled False exec_bless_varargs.
Proof.
  intros g s Hs Hc. apply (wp_bind (on_stack _)), (wp_stack _ (fun '(_, c) => 0 <= c) g);
    [|solve_total|done|].
  - eapply keeps_bind; [apply keeps_check_underflow|intros _ _].
    eapply keeps_bind; [apply keeps_pop_smallint_any|intros m _].
    eapply keeps_bind; [apply keeps_pop_smallint_range; lia|cbv beta; intros c Hc'].
    apply keeps_ret. lia.
  - intros [m c] v Hc' Hs'. by apply exec_bless_args_common_ok.
Qed.
Lemma exec_bless_args_ok args : handled False (exec_bless_args args).
Proof. apply exec_bless_args_common_ok. pose proof (nibble_range 4 args). lia. Qed.

(** *** Control registers *)

Lemma regs_get_full idx r : regs_full r -> exists v, regs_get idx r = Some v.
Proof.
  destruct r. simpl. intros ([? ->] & [? ->] & [? ->] & [? ->] & [? ->] & [? ->] & [? ->]).
  repeat case_match; simpl; eauto.
Qed.
Lemma regs_get_ok idx r v : regs_ok r -> regs_get idx r = Some v -> entry_ok v.
Proof.
  destruct r. rewrite regs_ok_spec. intros (? & ? & ? & ? & ?). unfold regs_get.
  repeat case_match; intros E; apply fmap_Some in E as (? & ? & ?) || simplify_eq; simplify_eq; try done.
  by apply entry_ok_tuple.
Qed.
Lemma set_c4_ok c r : regs_ok r -> regs_ok (set_c4 c r).
Proof. destruct r. cbn [set_c4]. by rewrite !regs_ok_spec. Qed.
Lemma set_c5_ok c r : regs_ok r -> regs_ok (set_c5 c r).
Proof. destruct r. cbn [set_c5]. by rewrite !regs_ok_spec. Qed.
Lemma set_c7_ok t r : stack_ok t -> regs_ok r -> regs_ok (set_c7 (Some t) r).
Proof. destruct r. cbn [set_c7]. rewrite !regs_ok_spec. tauto. Qed.
Lemma set_c4_full c r : regs_full r -> regs_full (set_c4 (Some c) r).
Proof. destruct r. simpl. intuition eauto. Qed.
Lemma set_c5_full c r : regs_full r -> regs_full (set_c5 (Some c) r).
Proof. destruct r. simpl. intuition eauto. Qed.
Lemma set_c7_full t r : regs_full r -> regs_full (set_c7 (Some t) r).
Proof. destruct r. simpl. intuition eauto. Qed.

Lemma regs_set_ok idx v r r' :
  regs_set idx v r = Some r' -> entry_ok v -> regs_ok r -> regs_ok r'.
Proof.
  intros E Hv Hr. unfold regs_set in E.
  repeat case_match; simplify_eq; destruct v; simplify_eq/=;
    auto using set_c0_ok, set_c1_ok, set_c2_ok, set_c3_ok, set_c4_ok, set_c5_ok.
  apply set_c7_ok; [by apply entry_ok_tuple|done].
Qed.
Lemma regs_set_full idx v r r' : regs_set idx v r = Some r' -> regs_full r -> regs_full r'.
Proof.
  intros E Hr. unfold regs_set in E.
  repeat case_match; simplify_eq; destruct v; simplify_eq/=;
    eauto using set_c0_full, set_c1_full, set_c2_full, set_c3_full, set_c4_full, set_c5_full, set_c7_full.
Qed.
Lemma regs_define_ok idx v silent r :
  entry_ok v -> regs_ok r -> regs_ok (snd (regs_define idx v silent r)).
Proof.
  intros Hv Hr. unfold regs_define. repeat case_match; simplify_eq; destruct v; simplify_eq/=;
    auto using set_c0_ok, set_c1_ok, set_c2_ok, set_c3_ok, set_c4_ok, set_c5_ok.
  apply set_c7_ok; [by apply entry_ok_tuple|done].
Qed.

Lemma wp_vm_get g idx (Q : StackEntry -> VmState -> Prop) E s :
  vm_ok g s -> (forall v, entry_ok v -> Q v s) -> wp (vm_get idx) Q E s.
Proof.
  intros Hs HQ. apply wp_bind, wp_gets.
  destruct (regs_get_full idx _ (vm_regs_full _ _ Hs)) as [v Hv].
  eapply wp_of_option; [done|]. eapply HQ, regs_get_ok; [|done]. by eapply vm_regs_ok.
Qed.
(** [vm_set], then the check of its result. *)
Lemma wp_vm_set g idx v (Q : unit -> VmState -> Prop) s :
  entry_ok v -> vm_ok g s ->
  (forall s', vm_ok g s' -> code s' = code s -> Q tt s') ->
  wp (ok <- vm_set idx v ;; throw_typechk ok) Q (err_post g) s.
Proof.
  intros Hv Hs HQ. apply wp_bind. unfold wp at 1, vm_set.
  destruct (regs_set idx v (cr s)) as [r|] eqn:E; [|by apply err_post_vm].
  apply wp_ret, HQ; [|done]. apply vm_set_regs; [| |done].
  - eapply regs_set_ok; [done..|]. by eapply vm_regs_ok.
  - eapply regs_set_full; [done|]. by eapply vm_regs_full.
Qed.
Lemma wp_vm_set_k g idx v (m : M VmState Z) s :
  entry_ok v -> vm_ok g s ->
  (forall s', vm_ok g s' -> code s' = code s -> wp m (handler_post g) (err_post g) s') ->
  wp (ok <- vm_set idx v ;; throw_typechk ok ;; m) (handler_post g) (err_post g) s.
Proof.
  intros Hv Hs Hm. pose proof (wp_vm_set g idx v (fun _ s' => wp m (handler_post g) (err_post g) s') s
    Hv Hs Hm) as Hw. apply wp_bind. unfold wp at 1 in Hw. unfold wp at 1. unfold bind in Hw.
  destruct (vm_set idx v s) as [ok s'|e s'|]; [|done|done]. apply wp_bind. exact Hw.
Qed.

Lemma define_in_ok k idx v silent :
  cont_ok k -> entry_ok v -> cont_ok (snd (define_in k idx v silent)).
Proof.
  intros Hk Hv. unfold define_in. destruct (force_cdata k) as [d wrap] eqn:Ek.
  apply force_cdata_ok in Ek as [Hcd Hw]; [|done]. apply cdata_ok_parts in Hcd as Hp.
  pose proof (regs_define_ok idx v silent (cdata_save d) Hv (proj2 Hp)) as Hr.
  destruct (regs_define idx v silent (cdata_save d)). by apply Hw, set_save_ok.
Qed.
Lemma wp_define_chk g k idx v (Q : Continuation -> VmState -> Prop) s :
  cont_ok k -> entry_ok v -> vm_ok g s -> (forall k', cont_ok k' -> Q k' s) ->
  wp (define_chk k idx v) Q (err_post g) s.
Proof.
  intros Hk Hv Hs HQ. apply wp_bind, wp_gets. pose proof (define_in_ok k idx v (14 <=? global_version s) Hk Hv).
  destruct (define_in _ _ _ _) as [ok k']. apply wp_bind, wp_unless_throw; [intros _|intros _; by apply err_post_vm].
  by apply wp_ret, HQ.
Qed.

(** Set c0 or c1 and end. *)
Lemma set_c0_end_ok g k s :
  cont_ok k -> vm_ok g s -> code_ok s -> wp (vm_set_c0 (Some k) ;; ret 0) (handler_post g) (err_post g) s.
Proof.
  intros Hk Hs Hc. apply wp_bind, (wp_set_reg set_c0 g); [..|done|].
  - intros r Hr. by apply set_c0_ok.
  - intros r Hr. by apply set_c0_full.
  - intros s' Hs' E _ _. apply end_ok; [done|]. unfold code_ok. by rewrite E.
Qed.
Lemma set_c1_end_ok g k s :
  cont_ok k -> vm_ok g s -> code_ok s -> wp (vm_set_c1 (Some k) ;; ret 0) (handler_post g) (err_post g) s.
Proof.
  intros Hk Hs Hc. apply wp_bind, (wp_set_reg set_c1 g); [..|done|].
  - intros r Hr. by apply set_c1_ok.
  - intros r Hr. by apply set_c1_full.
  - intros s' Hs' E _ _. apply end_ok; [done|]. unfold code_ok. by rewrite E.
Qed.
Lemma set_c0_then_ok g k (m : M VmState Z) s :
  cont_ok k -> vm_ok g s ->
  (forall s', vm_ok g s' -> code s' = code s -> wp m (handler_post g) (err_post g) s') ->
  wp (vm_set_c0 (Some k) ;; m) (handler_post g) (err_post g) s.
Proof.
  intros Hk Hs Hm. apply wp_bind, (wp_set_reg set_c0 g); [..|done|].
  - intros r Hr. by apply set_c0_ok.
  - intros r Hr. by apply set_c0_full.
  - intros s' Hs' E _ _. by apply Hm.
Qed.
Lemma code_ok_eq s s' : code s' = code s -> code_ok s -> code_ok s'.
Proof. unfold code_ok. by intros ->. Qed.

Lemma exec_push_ctr_ok args : handled False (exec_push_ctr args).
Proof.
  intros g s Hs Hc. apply (wp_bind (vm_get _)), (wp_vm_get g); [done|]. intros v Hv.
  by apply stack_op_handled; [solve_keeps|solve_total|..].
Qed.
Lemma exec_pop_ctr_ok args : handled False (exec_pop_ctr args).
Proof.
  intros g s Hs Hc. stack_run entry_ok. intros e v He Hs'. apply wp_vm_set_k; [done..|].
  intros s1 Hs1 E1. apply end_ok; [done|by eapply code_ok_eq].
Qed.
Lemma exec_setcont_ctr_ok args : handled False (exec_setcont_ctr args).
Proof.
  intros g s Hs Hc. stack_run cont_ok. intros k v Hk Hs'. stack_run entry_ok. intros e w He Hs2.
  apply wp_bind, (wp_define_chk g); [done..|]. intros k' Hk'. by apply push_cont_ok.
Qed.
Lemma exec_setret_ctr_ok args : handled False (exec_setret_ctr args).
Proof.
  intros g s Hs Hc. apply (wp_bind get_c0).
  eapply wp_get_reg; [exact full_c0|exact regs_c0_ok|exact Hs|]. intros k Hk _.
  stack_run entry_ok. intros e w He Hs2.
  apply wp_bind, (wp_define_chk g); [done..|]. intros k' Hk'. by apply set_c0_end_ok.
Qed.
Lemma exec_setalt_ctr_ok args : handled False (exec_setalt_ctr args).
Proof.
  intros g s Hs Hc. apply (wp_bind get_c1).
  eapply wp_get_reg; [exact full_c1|exact regs_c1_ok|exact Hs|]. intros k Hk _.
  stack_run entry_ok. intros e w He Hs2.
  apply wp_bind, (wp_define_chk g); [done..|]. intros k' Hk'. by apply set_c1_end_ok.
Qed.
Lemma exec_popsave_ctr_ok args : handled False (exec_popsave_ctr args).
Proof.
  intros g s Hs Hc. unfold exec_popsave_ctr. cbv zeta. stack_run entry_ok. intros e v He Hs1.
  apply wp_bind. eapply wp_get_reg; [exact full_c0|exact regs_c0_ok|exact Hs1|]. intros k Hk _.
  apply wp_bind, wp_unless_throw; [intros _|intros _; by apply err_post_vm].
  apply wp_bind, (wp_vm_get g); [done|]. intros cur Hcur.
  pose proof (define_in_ok k (Z.land args 15) cur false Hk Hcur) as Hk'.
  destruct (define_in _ _ _ _) as [ok k']. simpl in Hk'. destruct (_ =? 0).
  - apply set_c0_then_ok; [done..|]. intros s2 Hs2 E2. apply wp_vm_set_k; [done..|].
    intros s3 Hs3 E3. apply end_ok; [done|]. eapply code_ok_eq; [done|]. by eapply code_ok_eq.
  - apply wp_vm_set_k; [done..|]. intros s2 Hs2 E2.
    apply set_c0_end_ok; [done|done|]. by eapply code_ok_eq.
Qed.
Lemma exec_save_ctr_ok args : handled False (exec_save_ctr args).
Proof.
  intros g s Hs Hc. apply (wp_bind get_c0).
  eapply wp_get_reg; [exact full_c0|exact regs_c0_ok|exact Hs|]. intros k Hk _.
  apply wp_bind, (wp_vm_get g); [done|]. intros cur Hcur.
  apply wp_bind, (wp_define_chk g); [done..|]. intros k' Hk'. by apply set_c0_end_ok.
Qed.
Lemma exec_savealt_ctr_ok args : handled False (exec_savealt_ctr args).
Proof.
  intros g s Hs Hc. apply (wp_bind get_c1).
  eapply wp_get_reg; [exact full_c1|exact regs_c1_ok|exact Hs|]. intros k Hk _.
  apply wp_bind, (wp_vm_get g); [done|]. intros cur Hcur.
  apply wp_bind, (wp_define_chk g); [done..|]. intros k' Hk'. by apply set_c1_end_ok.
Qed.
Lemma exec_saveboth_ctr_ok args : handled False (exec_saveboth_ctr args).
Proof.
  intros g s Hs Hc. apply (wp_bind get_c0).
  eapply wp_get_reg; [exact full_c0|exact regs_c0_ok|exact Hs|]. intros k Hk _.
  apply wp_bind. eapply wp_get_reg; [exact full_c1|exact regs_c1_ok|exact Hs|]. intros k1 Hk1 _.
  apply wp_bind, (wp_vm_get g); [done|]. intros cur Hcur.
  pose proof (define_in_ok k (Z.land args 15) cur false Hk Hcur) as Hk'.
  pose proof (define_in_ok k1 (Z.land args 15) cur false Hk1 Hcur) as Hk1'.
  destruct (define_in k _ _ _) as [? k'], (define_in k1 _ _ _) as [? k1']. simpl in *.
  apply set_c0_then_ok; [done..|]. intros s2 Hs2 E2. apply set_c1_end_ok; [done|done|].
  by eapply code_ok_eq.
Qed.
Lemma exec_samealt_ok save : handled False (exec_samealt save).
Proof.
  intros g s Hs Hc. pose proof (vm_regs_ok _ _ Hs) as Hr. apply (wp_bind get_c0).
  eapply wp_get_reg; [exact full_c0|exact regs_c0_ok|exact Hs|]. intros k Hk _.
  unfold exec_samealt. destruct save.
  - apply wp_bind, wp_bind, wp_gets. cbv zeta.
    assert (cont_ok (with_cregs (define_c1 (regs_c1 (cr s))) k)) as Hk'.
    { apply with_cregs_ok; [|done]. intros. by apply define_c1_ok; [apply regs_c1_ok|]. }
    apply wp_bind, (wp_set_c0_full g); [done|done|]. intros Hs'. apply wp_ret.
    by apply set_c1_end_ok.
  - apply wp_bind, wp_ret. by apply set_c1_end_ok.
Qed.
Lemma exec_push_ctr_var_ok : handled False exec_push_ctr_var.
Proof.
  intros g s Hs Hc. stack_run any. intros idx v _ Hs1. apply wp_bind, (wp_vm_get g); [done|].
  intros e He. apply wp_bind, wp_unless_throw; [intros _|intros _; by apply err_post_vm].
  by apply stack_op_handled; [solve_keeps|solve_total|..].
Qed.
Lemma exec_pop_ctr_var_ok : handled False exec_pop_ctr_var.
Proof.
  intros g s Hs Hc. stack_run any. intros idx v _ Hs1.
  apply wp_bind, wp_unless_throw; [intros _|intros _; by apply err_post_vm].
  stack_run entry_ok. intros e w He Hs2. apply wp_vm_set_k; [done..|].
  intros s3 Hs3 E3. apply end_ok; [done|by eapply code_ok_eq].
Qed.
Lemma exec_setcont_ctr_var_ok : handled False exec_setcont_ctr_var.
Proof.
  intros g s Hs Hc. stack_run any. intros idx v _ Hs1.
  apply wp_bind, wp_unless_throw; [intros _|intros _; by apply err_post_vm].
  stack_run cont_ok. intros k w Hk Hs2. stack_run entry_ok. intros e x He Hs3.
  apply wp_bind, (wp_define_chk g); [done..|]. intros k' Hk'. by apply push_cont_ok.
Qed.

Lemma define_many_ok g mask s (Q : Continuation -> VmState -> Prop) idxs : forall k,
  cont_ok k -> vm_ok g s -> (forall k', cont_ok k' -> Q k' s) ->
  wp (define_many idxs mask k) Q (err_post g) s.
Proof.
  induction idxs as [|i idxs IH]; intros k Hk Hs HQ; cbn [define_many]; [by apply wp_ret, HQ|].
  destruct (Z.testbit mask i); [|by apply IH].
  apply wp_bind, (wp_vm_get g); [done|]. intros v Hv.
  apply wp_bind, (wp_define_chk g); [done..|]. intros k' Hk'. by apply IH.
Qed.
Lemma setcont_many_ok g mask s :
  vm_ok g s -> code_ok s ->
  wp (throw_rangechk (negb (Z.testbit mask 6)) ;; k <- on_stack pop_cont ;;
      k' <- define_many [0; 1; 2; 3; 4; 5; 6; 7] mask k ;; stack_op (push_cont k'))
    (handler_post g) (err_post g) s.
Proof.
  intros Hs Hc. apply wp_bind, wp_unless_throw; [intros _|intros _; by apply err_post_vm].
  stack_run cont_ok. intros k v Hk Hs1. apply wp_bind, (define_many_ok g); [done..|].
  intros k' Hk'. by apply push_cont_ok.
Qed.
Lemma exec_setcont_ctr_many_ok args : handled False (exec_setcont_ctr_many args).
Proof. intros g s Hs Hc. by apply setcont_many_ok. Qed.
Lemma exec_setcont_ctr_many_var_ok : handled False exec_setcont_ctr_many_var.
Proof. intros g s Hs Hc. stack_run any. intros mask v _ Hs1. by apply setcont_many_ok. Qed.

Lemma exec_compos_ok mask : handled False (exec_compos mask).
Proof.
  intros g s Hs Hc. stack_run (fun '(v, k) => cont_ok v /\ cont_ok k). intros [x k] v [Hx Hk] Hs1.
  cbv zeta. apply push_cont_ok; [|done|done]. apply with_cregs_ok; [|done]. intros r Hr.
  repeat case_match; auto using define_c0_ok, define_c1_ok.
Qed.

(** Handlers that pop a continuation and give it registers of the machine. *)
Lemma with_machine_regs g k f s :
  cont_ok k -> vm_ok g s ->
  (forall r, regs_ok r -> regs_ok (f (cr s) r)) -> cont_ok (with_cregs (f (cr s)) k).
Proof. intros Hk Hs Hf. by apply with_cregs_ok. Qed.
Ltac machine_regs Hs :=
  apply with_cregs_ok; [|done]; intros; pose proof (vm_regs_ok _ _ Hs);
  auto using define_c0_ok, define_c1_ok, regs_c0_ok, regs_c1_ok.

Lemma exec_atexit_ok : handled False exec_atexit.
Proof.
  intros g s Hs Hc. stack_run cont_ok. intros k v Hk Hs1. apply wp_bind, wp_gets.
  apply set_c0_end_ok; [machine_regs Hs1|done|done].
Qed.
Lemma exec_atexit_alt_ok : handled False exec_atexit_alt.
Proof.
  intros g s Hs Hc. stack_run cont_ok. intros k v Hk Hs1. apply wp_bind, wp_gets.
  apply set_c1_end_ok; [machine_regs Hs1|done|done].
Qed.
Lemma exec_setexit_alt_ok : handled False exec_setexit_alt.
Proof.
  intros g s Hs Hc. stack_run cont_ok. intros k v Hk Hs1. apply wp_bind, wp_gets.
  apply set_c1_end_ok; [machine_regs Hs1|done|done].
Qed.
Lemma exec_thenret_ok : handled False exec_thenret.
Proof.
  intros g s Hs Hc. stack_run cont_ok. intros k v Hk Hs1. apply wp_bind, wp_gets.
  apply push_cont_ok; [machine_regs Hs1|done|done].
Qed.
Lemma exec_thenret_alt_ok : handled False exec_thenret_alt.
Proof.
  intros g s Hs Hc. stack_run cont_ok. intros k v Hk Hs1. apply wp_bind, wp_gets.
  apply push_cont_ok; [machine_regs Hs1|done|done].
Qed.
Lemma exec_invert_ok : handled False exec_invert.
Proof.
  intros g s Hs Hc. pose proof (vm_regs_ok _ _ Hs) as Hr. unfold exec_invert.
  destruct (full_c0 _ (vm_regs_full _ _ Hs)) as [k0 E0].
  destruct (full_c1 _ (vm_regs_full _ _ Hs)) as [k1 E1].
  apply regs_c0_ok in Hr as Hk0. apply regs_c1_ok in Hr as Hk1. rewrite E0 in Hk0. rewrite E1 in Hk1.
  apply (wp_bind (gets cr)), wp_gets. rewrite E0, E1. apply set_c0_then_ok; [done..|].
  intros s1 Hs1 Ec. apply set_c1_end_ok; [done|done|by eapply code_ok_eq].
Qed.
Lemma exec_booleval_ok : handled False exec_booleval.
Proof.
  intros g s Hs Hc. stack_run cont_ok. intros k v Hk Hs1.
  apply wp_bind, (extract_vm_ok g); [done..|]. intros cc s2 Hcc Hs2.
  apply set_c0_then_ok; [done..|]. intros s3 Hs3 _.
  apply wp_bind, (wp_set_reg set_c1 g); [..|done|].
  - intros r Hr. by apply set_c1_ok.
  - intros r Hr. by apply set_c1_full.
  - intros s4 Hs4 _ _ _. by apply jump_ok.
Qed.

(** *** Calls through c3 *)

Lemma push_c3_ok g x (m : Continuation -> M VmState Z) s :
  vm_ok g s -> code_ok s ->
  (forall k s', cont_ok k -> vm_ok g s' -> code_ok s' -> wp (m k) (handler_post g) (err_post g) s') ->
  wp (on_stack (push_smallint x) ;; k <- get_c3 ;; m k) (handler_post g) (err_post g) s.
Proof.
  intros Hs Hc Hm. stack_run any. intros _ v _ Hs1.
  apply wp_bind. eapply wp_get_reg; [exact full_c3|exact regs_c3_ok|exact Hs1|]. intros k Hk _.
  by apply Hm.
Qed.
Lemma exec_calldict_short_ok args : handled False (exec_calldict_short args).
Proof. intros g s Hs Hc. apply push_c3_ok; [done|done|]. intros. by apply call_ok. Qed.
Lemma exec_calldict_ok args : handled False (exec_calldict args).
Proof. intros g s Hs Hc. apply push_c3_ok; [done|done|]. intros. by apply call_ok. Qed.
Lemma exec_jmpdict_ok args : handled False (exec_jmpdict args).
Proof. intros g s Hs Hc. apply push_c3_ok; [done|done|]. intros. by apply jump_ok. Qed.
Lemma exec_preparedict_ok args : handled False (exec_preparedict args).
Proof. intros g s Hs Hc. apply push_c3_ok; [done|done|]. intros. by apply push_cont_ok. Qed.

(** *** Exceptions *)

Lemma throw_arg_ok g n arg s :
  entry_ok arg -> vm_ok g s -> wp (throw_exception_arg n arg) (handler_post g) (err_post g) s.
Proof.
  intros Ha Hs. eapply wp_mono; [by apply throw_exception_arg_ok| |done].
  intros r s'. apply handler_post_mono. lia.
Qed.
Lemma throw_ok g n s : vm_ok g s -> wp (throw_exception n) (handler_post g) (err_post g) s.
Proof. by apply throw_arg_ok. Qed.

Lemma exec_throw_fixed_ok mask mode args : handled False (exec_throw_fixed mask mode args).
Proof.
  intros g s Hs Hc. unfold exec_throw_fixed. cbv zeta.
  assert (forall (b : bool) s', vm_ok g s' -> code_ok s' ->
    wp (if b then throw_exception (Z.land args mask) else ret 0) (handler_post g) (err_post g) s') as Hend.
  { intros b s' Hs' Hc'. destruct b; [by apply throw_ok|by apply end_ok]. }
  apply (wp_bind (if mode =? 0 then _ else _)). destruct (mode =? 0); [by apply wp_ret, (Hend true)|].
  stack_run any. intros b v _ Hs1. by apply wp_ret, Hend.
Qed.
Lemma exec_throw_arg_fixed_ok mask mode args : handled False (exec_throw_arg_fixed mask mode args).
Proof.
  intros g s Hs Hc. unfold exec_throw_arg_fixed. cbv zeta.
  apply (wp_bind (on_stack _)), (wp_stack_left _ any (fun _ v => 1 <= depth v) g);
    [solve_keeps| |done|].
  { destruct (mode =? 0); apply wp_bind; stack_step; [by apply wp_ret|].
    apply wp_bind. eapply pops_use; [apply pops_pop_bool| |done]. intros. apply wp_ret. lia. }
  intros b v _ Hd Hs1. apply wp_bind, (wp_stack_left _ entry_ok (fun _ _ => True) g); [solve_keeps| |done|].
  { apply wp_pop; [cbn [stack set_stack]; lia|done]. }
  intros arg w Harg _ Hs2. destruct b; [by apply throw_arg_ok|by apply end_ok].
Qed.

(** The arguments of THROWANY: with a parameter, one entry is left for it. *)
Lemma throw_any_args (has_param has_cond throw_cond : bool) v :
  wp (check_underflow [1 + Z.b2z has_cond + Z.b2z has_param] ;;
      flag <- (if has_cond then pop_bool else ret throw_cond) ;;
      excno <- pop_smallint_range 65535 0 ;; ret (flag, excno))
    (fun _ v' => Z.b2z has_param <= depth v') (fun _ _ => True) v.
Proof.
  apply wp_bind. stack_step. apply wp_bind.
  assert (forall (flag : bool) v', Z.b2z has_param + 1 <= depth v' ->
    wp (excno <- pop_smallint_range 65535 0 ;; ret (flag, excno))
      (fun _ v' => Z.b2z has_param <= depth v') (fun _ _ => True) v') as Hend.
  { intros flag v' Hv'. apply wp_bind. eapply pops_use; [apply pops_pop_smallint_range; lia| |done].
    intros. apply wp_ret. lia. }
  destruct has_cond; cbn [Z.b2z] in *; [|apply wp_ret, Hend; lia].
  eapply pops_use; [apply pops_pop_bool| |done]. intros. apply Hend. lia.
Qed.
Lemma pop_param_ok g (m : StackEntry -> M VmState Z) s :
  1 <= depth (stack s) -> vm_ok g s ->
  (forall e v, entry_ok e -> vm_ok g (set_stack v s) ->
     wp (m e) (handler_post g) (err_post g) (set_stack v s)) ->
  wp (e <- on_stack pop ;; m e) (handler_post g) (err_post g) s.
Proof.
  intros Hd Hs Hm. apply wp_bind, (wp_stack_left _ entry_ok (fun _ _ => True) g); [solve_keeps| |done|].
  - by apply wp_pop; [lia|].
  - intros e v He _ Hs'. by apply Hm.
Qed.
Lemma exec_throw_any_ok args : handled False (exec_throw_any args).
Proof.
  intros g s Hs Hc. unfold exec_throw_any. cbv zeta.
  set (has_param := Z.testbit args 0). set (has_cond := negb _).
  apply (wp_bind (on_stack _)), (wp_stack_left _ any (fun _ v => Z.b2z has_param <= depth v) g);
    [solve_keeps|apply throw_any_args|done|].
  intros [flag n] v _ Hd Hs1. destruct (negb (Bool.eqb flag _)), has_param; cbn [Z.b2z] in Hd.
  - apply (pop_param_ok g (fun _ => ret 0)); [done|done|]. intros e w He Hs2. by apply end_ok.
  - by apply end_ok.
  - apply pop_param_ok; [done|done|]. intros e w He Hs2. by apply throw_arg_ok.
  - by apply throw_ok.
Qed.

Lemma exec_try_ok args : handled False (exec_try args).
Proof.
  intros g s Hs Hc. unfold exec_try. cbv zeta.
  stack_run (fun '(h, k) => cont_ok h /\ cont_ok k). intros [h k] v [Hh Hk] Hs1.
  apply wp_bind, wp_gets. apply wp_bind.
  assert (forall cc s', extracted g 7 cc s' ->
    wp (vm_set_c0 (Some cc) ;;
        vm_set_c2 (Some (with_cregs (fun r => define_c0 (Some cc) (define_c2 (regs_c2 (cr s)) r)) h)) ;;
        jump k) (handler_post g) (err_post g) s') as Hend.
  { intros cc s' (Hcc & Hm & Hf). set (h' := with_cregs _ h).
    assert (cont_ok h') as Hh'.
    { apply with_cregs_ok; [|done]. intros r Hr. apply define_c0_ok; [done|].
      apply define_c2_ok; [|done]. by eapply regs_c2_ok, vm_regs_ok. }
    apply wp_bind, wp_modify, wp_bind, wp_modify. apply jump_ok; [done|]. split.
    - apply mach_set_cr; [|apply mach_set_cr; [|done]]; cbn [cr set_cr];
        repeat first [apply set_c2_ok; [done|] | apply set_c0_ok; [done|]]; apply Hm.
    - specialize (Hf h' Hh'). change (Z.testbit 7 2) with true in Hf. cbn [cr set_cr].
      destruct (cr s'). simpl in *. intuition eauto. }
  destruct (0 <=? args); (eapply wp_mono; [by apply extract_cc_ok| |done]); intros; by apply Hend.
Qed.

(** *** Codepages *)

Lemma exec_set_cp_generic_ok n : handled False (exec_set_cp_generic n).
Proof.
  intros g s Hs Hc. apply (wp_bind (force_cp n)), (force_cp_ok g); [done| |].
  - intros c'. apply end_ok; [|exact Hc]. split; [by apply mach_set_cp, Hs|apply Hs].
  - by apply end_ok.
Qed.
Lemma exec_set_cp_ok args : handled False (exec_set_cp args).
Proof. apply exec_set_cp_generic_ok. Qed.
Lemma exec_set_cp_any_ok : handled False exec_set_cp_any.
Proof. intros g s Hs Hc. stack_run any. intros n v _ Hs1. by apply exec_set_cp_generic_ok. Qed.

(** ** All registered instructions *)

#[local] Hint Resolve exec_execute_ok exec_callx_args_ok exec_callx_args_p_ok exec_jmpx_ok exec_jmpx_args_ok
  exec_ret_ok exec_ret_args_ok exec_ret_alt_ok exec_ret_bool_ok exec_callcc_ok exec_callcc_args_ok
  exec_callcc_varargs_ok exec_jmpx_data_ok exec_ret_data_ok exec_callx_varargs_ok exec_ret_varargs_ok
  exec_jmpx_varargs_ok exec_runvm_ok exec_runvmx_ok exec_if_ok exec_ifnot_ok exec_if_jmp_ok
  exec_ifnot_jmp_ok exec_ifret_ok exec_ifnotret_ok exec_ifretalt_ok exec_ifnotretalt_ok exec_if_else_ok
  exec_condsel_ok exec_condsel_chk_ok exec_if_bit_jmp_ok exec_if_bit_jmpref_ok exec_ifelse_ref_ok
  exec_ifref_elseref_ok exec_repeat_ok exec_repeat_end_ok exec_until_ok exec_until_end_ok exec_while_ok
  exec_while_end_ok exec_again_ok exec_again_end_ok exec_setcontargs_ok exec_setcont_varargs_ok
  exec_setnum_varargs_ok exec_return_args_ok exec_return_varargs_ok exec_bless_ok exec_bless_varargs_ok
  exec_bless_args_ok exec_push_ctr_ok exec_pop_ctr_ok exec_setcont_ctr_ok exec_setret_ctr_ok
  exec_setalt_ctr_ok exec_popsave_ctr_ok exec_save_ctr_ok exec_savealt_ctr_ok exec_saveboth_ctr_ok
  exec_samealt_ok exec_push_ctr_var_ok exec_pop_ctr_var_ok exec_setcont_ctr_var_ok
  exec_setcont_ctr_many_ok exec_setcont_ctr_many_var_ok exec_compos_ok exec_atexit_ok exec_atexit_alt_ok
  exec_setexit_alt_ok exec_thenret_ok exec_thenret_alt_ok exec_invert_ok exec_booleval_ok
  exec_calldict_short_ok exec_calldict_ok exec_jmpdict_ok exec_preparedict_ok exec_throw_fixed_ok
  exec_throw_arg_fixed_ok exec_throw_any_ok exec_try_ok exec_set_cp_ok exec_set_cp_any_ok
  if_call_ok if_jump_ok : cont.

Lemma cont_ops_good : Forall registered_good (register_continuation_ops ++ register_codepage_ops).
Proof.
  unfold register_continuation_ops, register_continuation_jump_ops, register_continuation_cond_loop_ops,
    register_continuation_change_ops, register_continuation_dict_jump_ops, register_exception_ops,
    register_codepage_ops, reg_ctr_oprange.
  cbn [app]. split_Forall; apply good_of_handled; registered_tac.
  all: try solve [auto with cont nocore].
  all: try (apply exec_do_with_cell_ok; auto with cont nocore).
  all: apply exec_do_with_ref_ok; intros k g s Hk Hs Hc.
  - by apply call_ok.
  - by apply jump_ok.
  - by apply push_code_jump_ok.
Qed.
End cont_ops.
