(* ===== verification/GasOps.v ===== *)
(** * Instructions that change the gas limit

    ACCEPT, SETGASLIMIT, GASCONSUMED and COMMIT of crypto/vm/tonops.cpp, and why they are
    safe: the limit never exceeds [gas_max], and what a machine may yet use of it
    ([gas_reserve]) never grows. *)
From S2P Require Import Prelude BigInt Int256 Cells DataCell VmTypes Stack OpcodeTable Vm VmInvariant Control InstrSafety ContSafety.

(** ** The instructions *)

Section gas_ops.
Context `{Sha256}.

Definition exec_set_gas_generic (new_gas_limit : Z) : M VmState Z :=
  consumed <- gets (fun s => gas_consumed (gas s)) ;;
  unless_throw (consumed <=? new_gas_limit) VmNoGas ;;
  change_gas_limit new_gas_limit ;;
  stop <- gets stop_on_accept_message ;;
  if stop then jump (QuitCont 0) else ret 0.

Definition exec_accept : M VmState Z := exec_set_gas_generic gas_infty.

Definition exec_set_gas_limit : M VmState Z :=
  x <- on_stack pop_int_finite ;;
  exec_set_gas_generic
    (if 0 <? int_sgn x then
       if unsigned_fits_bits x 63 then int_to_long x else gas_infty
     else 0).

Definition exec_gas_consumed : M VmState Z :=
  consumed <- gets (fun s => gas_consumed (gas s)) ;;
  on_stack (push_smallint consumed) ;; ret 0.

Definition exec_commit : M VmState Z := force_commit ;; ret 0.

Definition register_basic_gas_ops : list (option OpcodeInstr) :=
  [ mksimple 0xf800 16 exec_accept;
    mksimple 0xf801 16 exec_set_gas_limit;
    require_version 4 (mksimple 0xf807 16 exec_gas_consumed);
    mksimple 0xf80f 16 exec_commit ].

(** ** The limit stays below [gas_max] *)

(** What [change_limit] leaves: the same consumption under a new limit. *)
Definition limit_changed (limit : Z) (g g' : GasLimits) : Prop :=
  gas_max g' = gas_max g /\ gas_limit g' = limit /\ gas_base g' = limit /\
  gas_remaining g' = limit - gas_consumed g.

(** A limit that covers the consumption, cut to [gas_max], changes the gas without
    overflow, and keeps the bounds. *)
Lemma change_limit_ok limit g :
  gas_ok g -> 0 <= gas_remaining g -> gas_consumed g <= limit ->
  exists g', change_limit limit g = Some g' /\ limit_changed (Z.min limit (gas_max g)) g g' /\ gas_ok g'.
Proof.
  intros [Hl Hb Hlow Hmx] Hr Hc. unfold gas_consumed in Hc. unfold change_limit. cbv zeta.
  rewrite Z.max_l by lia. set (l := Z.min limit (gas_max g)).
  assert (0 <= l <= gas_max g /\ (gas_base g - gas_remaining g <= l \/ l = gas_max g)) as [Hl1 Hl2] by lia.
  unfold change_base. cbn [gas_remaining gas_base gas_max gas_limit gas_credit].
  unfold fits_s. rewrite !(proj2 (Z.leb_le _ _)), !(proj2 (Z.ltb_lt _ _)) by (change (64 - 1) with 63; lia).
  eexists. split; [done|]. unfold limit_changed, gas_consumed. split; [cbn; lia|split; cbn; lia].
Qed.

(** A machine with another limit: nothing is gained on [gas_reserve]. *)
Lemma base_set_limit g limit g' s :
  mach_ok g s -> gas_consumed (gas s) <= limit ->
  limit_changed (Z.min limit (gas_max (gas s))) (gas s) g' -> gas_ok g' -> base_ok g (set_gas g' s).
Proof.
  intros [([Hv [Hl Hb Hlow Hmx] Hcs Hfree] & Hp & Hg) [Hr _ _]] Hc (E1 & E2 & E3 & E4) Hg'.
  split_and!; [by split| |].
  - unfold parent_ok, child_limits in *. cbn [parent set_gas gas]. destruct (parent s); [|done].
    destruct Hp as [Hw [Hc1 Hc2]]. split; [done|]. lia.
  - unfold gas_left, gas_charged, gas_reserve, gas_consumed, parent_ok, child_limits in *.
    cbn [parent set_gas gas]. rewrite E1, E2, E3, E4. destruct (parent s); [|lia]. lia.
Qed.

Lemma jump_quit_eq s : jump (QuitCont 0) s = Ret (-1) s.
Proof. reflexivity. Qed.

Lemma exec_set_gas_generic_ok limit g s :
  vm_ok g s -> code_ok s -> wp (exec_set_gas_generic limit) (step_post g) (step_err any_gas g) s.
Proof.
  intros Hs Hc. pose proof (proj1 Hs) as Hm. pose proof (rl_gas _ _ _ (proj2 Hm)) as Hr.
  apply wp_bind, wp_gets, wp_bind, wp_unless_throw; [intros Hle%Z.leb_le|intros _; by split; [apply Hm|]].
  destruct (change_limit_ok limit (gas s)) as (g' & Eg & Hch & Hok); [apply Hm|done|done|].
  apply wp_bind, wp_bind, wp_gets, wp_bind, (wp_of_option _ g'); [done|]. apply wp_modify, wp_bind, wp_gets.
  pose proof (base_set_limit g limit g' s Hm Hle Hch Hok) as Hb. set (s1 := set_gas g' s) in *.
  assert (0 <= gas_remaining (gas s1) -> vm_ok g s1) as Hs1.
  { intros Hr1. split; [split; [done|]|apply Hs]. split; [done|apply Hm..]. }
  destruct (stop_on_accept_message s1).
  - unfold wp. rewrite jump_quit_eq. split; [done|]. intros Hr1. by split_and!; [|apply Hs1|].
  - apply wp_ret. split; [done|]. intros Hr1. by apply handler_post_ok; [apply Hs1|].
Qed.

Lemma exec_set_gas_limit_ok g s :
  vm_ok g s -> code_ok s -> wp exec_set_gas_limit (step_post g) (step_err any_gas g) s.
Proof.
  intros Hs Hc. apply wp_bind. eapply wp_mono;
    [apply (wp_stack _ any g (fun _ s' => vm_ok g s' /\ code_ok s')); [solve_keeps|solve_total|done|by intros]| |].
  - intros x s' [Hs' Hc']. by apply exec_set_gas_generic_ok.
  - intros e s'. by apply err_step.
Qed.

Lemma exec_gas_consumed_ok : handled False exec_gas_consumed.
Proof.
  intros g s Hs Hc. apply (wp_bind (gets _)), wp_gets, wp_bind, wp_on_stack, wp_modify, wp_ret.
  apply handler_post_ok; [by apply vm_push|exact Hc].
Qed.
Lemma exec_commit_ok : handled False exec_commit.
Proof.
  intros g s Hs Hc. apply (wp_bind force_commit), wp_bind, (try_commit_ok g); [apply Hs|].
  intros b s' Hb' (Ec & Er & Est & _) Eg. assert (vm_ok g s') as Hs'.
  { split; [split; [done|]|by rewrite Er; apply Hs]. unfold run_local. rewrite Eg, Est, Er. apply Hs. }
  apply wp_unless_throw; [intros _|intros _; by apply err_post_vm].
  apply wp_ret, handler_post_ok; [done|]. unfold code_ok. by rewrite Ec.
Qed.

Lemma gas_ops_ok : Forall (registered_ok any_gas) register_basic_gas_ops.
Proof.
  unfold register_basic_gas_ops. split_Forall.
  - apply mksimple_ok; [done|reflexivity|]. intros g s Hs Hc. by apply exec_set_gas_generic_ok.
  - apply mksimple_ok; [done|reflexivity|apply exec_set_gas_limit_ok].
  - apply registered_good_ok, good_of_handled; [done|]. registered_tac. apply exec_gas_consumed_ok.
  - apply registered_good_ok, good_of_handled; [done|]. registered_tac. apply exec_commit_ok.
Qed.
End gas_ops.
