(* ===== verification/TupleSafety.v ===== *)
(** * The tuple primitives keep the machine well-formed

    Each handler of TupleOps.v against the invariant of VmInvariant.v, in the way of
    ContSafety.v. *)
From S2P Require Import Prelude BigInt Int256 Cells DataCell VmTypes Stack OpcodeTable StackOps TupleOps Vm VmInvariant Control InstrSafety ContSafety.

(** ** Stack code *)

Lemma as_tuple_range_ok max min e t : entry_ok e -> as_tuple_range max min e = Some t -> stack_ok t.
Proof.
  destruct e; try done. simpl. intros He. case_match; intros; simplify_eq. by apply entry_ok_tuple.
Qed.
Lemma keeps_pop_tuple_len max min :
  keeps (pop_tuple_range max min) (fun t => stack_ok t /\ min <= Z.of_nat (length t) <= max).
Proof.
  unfold pop_tuple_range. solve_keeps. split; [by eapply as_tuple_range_ok|].
  by eapply as_tuple_range_len.
Qed.
Lemma keeps_pop_tuple_range max min : keeps (pop_tuple_range max min) stack_ok.
Proof. eapply keeps_weaken; [apply keeps_pop_tuple_len|]. by intros t [Ht _]. Qed.
Lemma keeps_pop_maybe_tuple_range max : keeps (pop_maybe_tuple_range max) (opt_ok stack_ok).
Proof.
  unfold pop_maybe_tuple_range. solve_keeps.
  all: match goal with H : as_tuple_range _ _ _ = Some _ |- _ => by eapply as_tuple_range_ok in H end.
Qed.
Lemma keeps_tuple_index t n : stack_ok t -> keeps (tuple_index t n) entry_ok.
Proof. intros Ht. unfold tuple_index. solve_keeps. by eapply Forall_lookup_1. Qed.
Lemma keeps_inner_tuple t n : stack_ok t -> keeps (inner_tuple t n) stack_ok.
Proof.
  intros Ht. unfold inner_tuple. eapply keeps_bind; [by apply keeps_tuple_index|].
  intros e He. solve_keeps. by eapply as_tuple_range_ok.
Qed.
#[export] Hint Resolve keeps_pop_tuple_range keeps_pop_maybe_tuple_range keeps_tuple_index
  keeps_inner_tuple : keeps.

Lemma entry_ok_index t n e : stack_ok t -> t !! n = Some e -> entry_ok e.
Proof. intros Ht Hn. by eapply Forall_lookup_1. Qed.
Lemma tuple_extend_index_ok t n : opt_ok stack_ok t -> entry_ok (tuple_extend_index t n).
Proof.
  destruct t as [t|]; [|done]. simpl. intros Ht. destruct (t !! _) eqn:E; [|done].
  by eapply entry_ok_index.
Qed.
Lemma stack_ok_nulls n : stack_ok (replicate n t_null).
Proof. by apply Forall_replicate. Qed.
Lemma stack_ok_insert i e t : entry_ok e -> stack_ok t -> stack_ok (<[i := e]> t).
Proof. intros He Ht. by apply Forall_insert. Qed.
Lemma tuple_extend_set_index_ok t n e :
  opt_ok stack_ok t -> entry_ok e -> opt_ok stack_ok (tuple_extend_set_index t n e).1.
Proof.
  intros Ht He. unfold tuple_extend_set_index. cbv zeta.
  destruct t as [t|]; repeat case_match; try done; simpl;
    try (apply stack_ok_insert; [done|]); try done.
  - apply Forall_app. split; [done|apply stack_ok_nulls].
  - apply (stack_ok_nulls (S _)).
Qed.

Lemma wp_consume_tuple_ok g n (Q : unit -> VmState -> Prop) s :
  vm_ok g s -> (forall s', vm_ok g s' -> code s' = code s -> Q tt s') ->
  wp (consume_tuple_gas n) Q (err_post g) s.
Proof.
  intros Hs HQ. unfold consume_tuple_gas, tuple_entry_gas_price. pose proof (wrap_u32_bound n).
  apply (wp_consume_ok g); [lia|apply Hs| |by intros s' Hb]. intros Hm. apply HQ; [|done].
  split; [eapply mach_mono; [|done]; lia|apply Hs].
Qed.

(** Finish stack code after the last rule of [solve_keeps]. *)
Ltac keeps_end :=
  solve_keeps;
  try first [ by apply tuple_extend_index_ok | by apply entry_ok_tuple ].

Lemma keeps_null_swap_loop n : forall i c, keeps (null_swap_loop i n c) any.
Proof. induction n; intros i c; cbn [null_swap_loop]; solve_keeps. Qed.
Lemma keeps_push_nulls n : keeps (push_nulls n) any.
Proof. induction n; cbn [push_nulls]; solve_keeps. Qed.
#[export] Hint Resolve keeps_null_swap_loop keeps_push_nulls : keeps.

(** A tuple is built or changed, paid for, and pushed. *)
Lemma push_tuple_ok g t n s :
  stack_ok t -> vm_ok g s -> code_ok s ->
  wp (consume_tuple_gas n ;; stack_op (push (t_tuple t))) (handler_post g) (err_post g) s.
Proof.
  intros Ht Hs Hc. apply wp_bind, wp_consume_tuple_ok; [done|]. intros s1 Hs1 Ec.
  apply stack_op_handled; [|done|done|unfold code_ok; by rewrite Ec].
  apply keeps_push. by apply entry_ok_tuple.
Qed.


(** TUPLE and TUPLEVAR *)
Lemma exec_mktuple_common_ok n : 0 <= n -> handled False (exec_mktuple_common n).
Proof.
  intros Hn g s Hs Hc. unfold exec_mktuple_common. apply (wp_bind (on_stack _)).
  apply (wp_stack _ stack_ok g); [| |done|intros t v Ht Hs'; by apply push_tuple_ok].
  - eapply keeps_bind; [solve_keeps|intros _ _]. eapply keeps_bind with (R := stack_ok); [|intros t Ht; solve_keeps].
    intros v Hv. unfold wlp, top_entries. case_if; [|done]. split; [done|].
    by apply Forall_rev, Forall_take.
  - intros v. apply (wp_not_undef _ (fun _ _ => True) (fun _ _ => True)).
    apply wp_bind. stack_step. apply wp_bind. unfold wp at 1, top_entries.
    rewrite (proj2 (Z.leb_le _ _)) by lia. apply wp_bind. stack_step. by apply wp_ret.
Qed.
Lemma exec_mktuple_ok args : handled False (exec_mktuple args).
Proof. apply exec_mktuple_common_ok, land15_range. Qed.
Lemma exec_mktuple_var_ok : handled False exec_mktuple_var.
Proof.
  intros g s Hs Hc. apply (wp_bind (on_stack _)).
  apply (wp_stack _ (fun n => 0 <= n <= 255) g); [|solve_total|done|].
  - apply keeps_pop_smallint_range; lia.
  - intros n v Hn Hs'. apply exec_mktuple_common_ok; [lia|done|done].
Qed.

(** UNTUPLE, UNPACKFIRST, EXPLODE *)
Lemma do_explode_tuple_ok t n g (Q : Z -> VmState -> Prop) s :
  stack_ok t -> n <= Z.of_nat (length t) -> vm_ok g s -> code_ok s ->
  (forall s', vm_ok g s' -> code_ok s' -> Q 0 s') ->
  wp (do_explode_tuple t n) Q (err_post g) s.
Proof.
  intros Ht Hn Hs Hc HQ. unfold do_explode_tuple. apply wp_bind, (wp_stack _ any g); [| |done|].
  - intros v Hv. unfold wlp. case_if; [|done]. split; [|done].
    apply Forall_app. split; [by apply Forall_rev, Forall_take|done].
  - intros v. by rewrite (proj2 (Z.leb_le _ _)).
  - intros _ v _ Hs'. apply wp_bind, wp_consume_tuple_ok; [done|]. intros s2 Hs2 Ec.
    apply wp_ret, HQ; [done|]. unfold code_ok. by rewrite Ec.
Qed.

(** The tuple is popped with the length [min] to [max], and the rest of the handler runs. *)
Lemma wp_pop_tuple g max min (k : Tuple -> M VmState Z) s :
  vm_ok g s -> code_ok s ->
  (forall t s', stack_ok t -> min <= Z.of_nat (length t) <= max -> vm_ok g s' -> code_ok s' ->
     wp (k t) (handler_post g) (err_post g) s') ->
  wp (t <- on_stack (pop_tuple_range max min) ;; k t) (handler_post g) (err_post g) s.
Proof.
  intros Hs Hc Hk. apply wp_bind.
  apply (wp_stack _ (fun t => stack_ok t /\ min <= Z.of_nat (length t) <= max) g);
    [apply keeps_pop_tuple_len|solve_total|done|].
  intros t v [Ht Hl] Hs'. by apply Hk.
Qed.
Lemma exec_untuple_common_ok n : handled False (exec_untuple_common n).
Proof.
  intros g s Hs Hc. apply wp_pop_tuple; [done..|]. intros t s' Ht Hl Hs' Hc'.
  apply do_explode_tuple_ok; [done|lia|done|done|]. intros. by apply handler_post_ok.
Qed.
Lemma exec_untuple_first_common_ok n : handled False (exec_untuple_first_common n).
Proof.
  intros g s Hs Hc. apply wp_pop_tuple; [done..|]. intros t s' Ht Hl Hs' Hc'.
  apply do_explode_tuple_ok; [done|lia|done|done|]. intros. by apply handler_post_ok.
Qed.
Lemma exec_explode_tuple_common_ok n : handled False (exec_explode_tuple_common n).
Proof.
  intros g s Hs Hc. apply wp_pop_tuple; [done..|]. intros t s' Ht Hl Hs' Hc'. cbv zeta.
  apply wp_bind, do_explode_tuple_ok; [done|lia|done|done|]. intros s2 Hs2 Hc2.
  apply stack_op_handled; [solve_keeps|solve_total|done|done].
Qed.

(** The argument comes from the stack. *)
Lemma var_handled n (m : M Stack Z) (k : Z -> M VmState Z) :
  m = (check_underflow [n] ;; pop_smallint_range 254 0) \/
  m = (check_underflow [n] ;; pop_smallint_range 255 0) ->
  (forall x, handled False (k x)) -> handled False (x <- on_stack m ;; k x).
Proof.
  intros Hm Hk g s Hs Hc. apply (wp_bind (on_stack m)), (wp_stack m any g); [| |done|].
  - destruct Hm as [-> | ->]; solve_keeps.
  - destruct Hm as [-> | ->]; solve_total.
  - intros x v _ Hs'. by apply Hk.
Qed.

(** SETINDEX, SETINDEXQ: the entries that they pop are there. *)
Definition two_entries (s : VmState) : Prop := 2 <= depth (stack s).

Lemma exec_tuple_set_index_common_ok n g s :
  0 <= n -> vm_ok g s -> code_ok s -> two_entries s ->
  wp (exec_tuple_set_index_common n) (handler_post g) (err_post g) s.
Proof.
  intros Hn Hs Hc Hd. unfold exec_tuple_set_index_common. apply wp_bind.
  apply (wp_on_stack_ok _ stack_ok g); [|apply Hs|..].
  - eapply keeps_bind; [solve_keeps|intros x Hx]. eapply keeps_bind; [apply keeps_pop_tuple_range|].
    intros t Ht. eapply keeps_bind; [solve_keeps|intros _ _]. apply keeps_ret. by apply stack_ok_insert.
  - apply (wp_not_undef _ (fun _ _ => True) (fun _ _ => True)). unfold two_entries in Hd.
    repeat first [handler_step | exact I].
  - intros t v _ Ht Hm. apply push_tuple_ok; [done|by split; [|apply Hs]|done].
  - intros e v He Hm. apply err_post_vm; [done|]. by split; [|apply Hs].
Qed.
Lemma exec_tuple_quiet_set_index_common_ok n g s :
  0 <= n -> vm_ok g s -> code_ok s -> two_entries s ->
  wp (exec_tuple_quiet_set_index_common n) (handler_post g) (err_post g) s.
Proof.
  intros Hn Hs Hc Hd. unfold exec_tuple_quiet_set_index_common. apply wp_bind.
  apply (wp_on_stack_ok _ (fun p => opt_ok stack_ok p.1) g); [|apply Hs|..].
  - eapply keeps_bind; [solve_keeps|intros x Hx].
    eapply keeps_bind; [apply keeps_pop_maybe_tuple_range|]. intros t Ht.
    eapply keeps_bind; [solve_keeps|intros _ _]. apply keeps_ret. by apply tuple_extend_set_index_ok.
  - apply (wp_not_undef _ (fun _ _ => True) (fun _ _ => True)). unfold two_entries in Hd.
    repeat first [handler_step | exact I].
  - intros [t p] v _ Ht Hm. cbn [fst] in Ht. apply wp_bind.
    assert (vm_ok g (set_stack v s)) as Hs1 by (by split; [|apply Hs]).
    assert (forall s', vm_ok g s' -> code_ok s' ->
      wp (stack_op (push_maybe_tuple t)) (handler_post g) (err_post g) s') as Hend.
    { intros s' Hs' Hc'. apply stack_op_handled; [|done|done|done]. apply keeps_push.
      destruct t; [|done]. by apply entry_ok_tuple. }
    destruct (0 <? p); [|by apply wp_ret, Hend]. apply wp_consume_tuple_ok; [done|].
    intros s2 Hs2 Ec. apply Hend; [done|]. unfold code_ok. by rewrite Ec.
  - intros e v He Hm. apply err_post_vm; [done|]. by split; [|apply Hs].
Qed.
Lemma set_index_handled (k : Z -> M VmState Z) n :
  0 <= n ->
  (forall g s, vm_ok g s -> code_ok s -> two_entries s -> wp (k n) (handler_post g) (err_post g) s) ->
  handled False (on_stack (check_underflow [2]) ;; k n).
Proof.
  intros Hn Hk g s Hs Hc. apply (wp_bind (on_stack _)). apply wp_on_stack, wp_check_underflow.
  - intros Hd%Forall_inv. rewrite set_stack_id.
    apply Hk; [done|done|exact Hd].
  - apply err_post_vm; [done|]. by rewrite set_stack_id.
Qed.
Lemma set_index_var_handled (k : Z -> M VmState Z) :
  (forall n g s, 0 <= n -> vm_ok g s -> code_ok s -> two_entries s ->
     wp (k n) (handler_post g) (err_post g) s) ->
  handled False (n <- on_stack (check_underflow [3] ;; pop_smallint_range 254 0) ;; k n).
Proof.
  intros Hk g s Hs Hc. apply (wp_bind (on_stack _)).
  assert (keeps (check_underflow [3] ;; pop_smallint_range 254 0) (fun n => 0 <= n <= 254)) as Hkp.
  { eapply keeps_bind; [solve_keeps|intros _ _]. apply keeps_pop_smallint_range; lia. }
  apply wp_on_stack. pose proof (Hkp (stack s) (rl_stack _ _ _ (proj2 (proj1 Hs)))) as Hk'.
  assert (wp (check_underflow [3] ;; pop_smallint_range 254 0)
    (fun _ v => 2 <= depth v) (fun _ _ => True) (stack s)) as Hw.
  { apply wp_bind. stack_step. stack_step. lia. }
  unfold wp, wlp in *. destruct ((check_underflow [3] ;; _) (stack s)) as [n v|e v|]; [| |done].
  - destruct Hk' as [Hv Hn]. apply Hk; [lia|by apply vm_set_stack|exact Hc|exact Hw].
  - destruct Hk' as (Hv & x & -> & Hx). by apply err_post_vm; [|apply vm_set_stack].
Qed.

(** TPUSH, TPOP *)
Lemma stack_ok_last t e : stack_ok t -> list.last t = Some e -> entry_ok e.
Proof. intros Ht He. by apply (proj1 (list.Forall_forall _ _) Ht), list.last_Some_elem_of. Qed.
Lemma last_some {A} (t : list A) : 1 <= Z.of_nat (length t) -> is_Some (list.last t).
Proof. destruct t; [simpl; lia|]. intros _. by apply list.last_is_Some. Qed.

Lemma exec_tuple_push_ok : handled False exec_tuple_push.
Proof.
  intros g s Hs Hc. unfold exec_tuple_push. apply (wp_bind (on_stack _)).
  apply (wp_stack _ stack_ok g); [|solve_total|done|intros t v Ht Hs'; by apply push_tuple_ok].
  eapply keeps_bind; [solve_keeps|intros _ _]. eapply keeps_bind; [solve_keeps|intros x Hx].
  eapply keeps_bind; [apply keeps_pop_tuple_range|intros t Ht]. apply keeps_ret.
  apply Forall_app. split; [done|by constructor].
Qed.

(** The last component of the popped tuple. *)
Lemma wp_pop_last {A} (k : Tuple -> StackEntry -> M Stack A) g (R : A -> Prop) s
    (Q : A -> VmState -> Prop) :
  vm_ok g s ->
  (forall t e, stack_ok t -> entry_ok e -> keeps (k t e) R) ->
  (forall t e v, k t e v <> Undef) ->
  (forall a v, R a -> vm_ok g (set_stack v s) -> Q a (set_stack v s)) ->
  wp (on_stack (t <- pop_tuple_range 255 1 ;; x <- of_option (list.last t) ;; k t x)) Q (err_post g) s.
Proof.
  intros Hs Hk Ht HQ. apply (wp_stack _ R g); [| |done|done].
  - eapply keeps_bind; [apply keeps_pop_tuple_len|]. intros t [Htok Hl].
    eapply keeps_bind; [|intros e He; by apply Hk]. unfold of_option.
    destruct (list.last t) eqn:E; [|apply keeps_undef]. apply keeps_ret. by eapply stack_ok_last.
  - intros v. apply (wp_not_undef _ (fun _ _ => True) (fun _ _ => True)). apply wp_bind.
    eapply pops_use; [apply pops_pop_tuple_range| |done]. cbv beta. intros t e0 v' Hl _ _ _.
    apply wp_bind. destruct (last_some t) as [e E]; [lia|]. rewrite E. apply wp_ret.
    unfold wp. destruct (k t e v') eqn:Ek; try done. by destruct (Ht t e v' Ek).
Qed.
Lemma exec_tuple_last_ok : handled False exec_tuple_last.
Proof.
  intros g s Hs Hc. apply (wp_bind (on_stack _)), (wp_pop_last _ g any); [done|..].
  - intros t e Ht He. by apply keeps_push.
  - done.
  - intros a v _ Hs'. by apply wp_ret, handler_post_ok.
Qed.
Lemma exec_tuple_pop_ok : handled False exec_tuple_pop.
Proof.
  intros g s Hs Hc. apply (wp_bind (on_stack _)).
  apply (wp_pop_last _ g (fun p => stack_ok p.1 /\ entry_ok p.2)); [done|..].
  - intros t e Ht He. apply keeps_ret. split; [|done]. cbn. rewrite removelast_firstn_len.
    by apply Forall_take.
  - done.
  - intros [t e] v [Ht He] Hs'. apply wp_bind, wp_consume_tuple_ok; [done|]. intros s2 Hs2 Ec.
    apply stack_op_handled; [|done|done|unfold code_ok; by rewrite Ec].
    eapply keeps_bind; [apply keeps_push; by apply entry_ok_tuple|]. intros _ _. by apply keeps_push.
Qed.

(** *** Handlers that only touch the stack *)

Lemma wp_tuple_index t n (Q : StackEntry -> Stack -> Prop) v :
  (forall e, Q e v) -> wp (tuple_index t n) Q (fun _ _ => True) v.
Proof. intros HQ. unfold wp, tuple_index. destruct (t !! _); [apply HQ|done]. Qed.
Lemma wp_inner_tuple t n (Q : Tuple -> Stack -> Prop) v :
  (forall t', Q t' v) -> wp (inner_tuple t n) Q (fun _ _ => True) v.
Proof.
  intros HQ. apply wp_bind, wp_tuple_index. intros e. destruct (as_tuple_range _ _ e); [apply HQ|done].
Qed.

Ltac tuple_total :=
  intros ?v; eapply (wp_not_undef _ (fun _ _ => True) (fun _ _ => True));
  repeat first
    [ apply wp_tuple_index; intros ? | apply wp_inner_tuple; intros ? | handler_step | exact I
    | unfold_head ].

Lemma exec_null_swap_if_ok cond d : (d <= 1)%nat -> handled False (exec_null_swap_if cond d).
Proof.
  intros Hd. apply stack_op_handled; [solve_keeps|].
  destruct d as [|[|d]]; [..|lia]; cbn [null_swap_loop]; tuple_total.
Qed.
Lemma exec_null_swap_if_many_ok cond d : (d <= 1)%nat -> handled False (exec_null_swap_if_many cond d 2).
Proof.
  intros Hd. apply stack_op_handled; [solve_keeps|].
  destruct d as [|[|d]]; [..|lia]; cbn [null_swap_loop push_nulls]; tuple_total.
Qed.

Lemma tuple_ops_good : Forall registered_good register_tuple_ops.
Proof.
  eapply Forall_impl; [apply good_of_handled|].
  unfold register_tuple_ops. split_Forall; registered_tac.
  all: try (apply exec_null_swap_if_ok; lia).
  all: try (apply exec_null_swap_if_many_ok; lia).
  all: try first
    [ apply exec_mktuple_ok | apply exec_mktuple_var_ok | apply exec_untuple_common_ok
    | apply exec_untuple_first_common_ok | apply exec_explode_tuple_common_ok
    | apply exec_tuple_push_ok | apply exec_tuple_pop_ok | apply exec_tuple_last_ok
    | apply (var_handled 2); [auto|]; first
        [ apply exec_untuple_common_ok | apply exec_untuple_first_common_ok
        | apply exec_explode_tuple_common_ok ]
    | apply set_index_handled; [apply land15_range|]; intros; first
        [ by apply exec_tuple_set_index_common_ok; [apply land15_range|..]
        | by apply exec_tuple_quiet_set_index_common_ok; [apply land15_range|..] ]
    | apply set_index_var_handled; first
        [ apply exec_tuple_set_index_common_ok | apply exec_tuple_quiet_set_index_common_ok ] ].
  all: apply stack_op_handled; [keeps_end|tuple_total].
Qed.
