(* ===== verification/DictOpsSafety.v ===== *)
(** * The dictionary primitives keep the machine well-formed

    The handlers of DictOps.v against the invariant of VmInvariant.v, with the lemmas of
    DictSafety.v for the dictionaries that they work on, which may be any cells. *)
From S2P Require Import Prelude BigInt Int256 Cells DataCell Dict DictObj PfxDict DictSafety VmTypes Stack OpcodeTable StackOps Vm ContOps DictOps VmInvariant Control InstrSafety ContSafety.

(** ** Stack code *)

(** Stack code that is free of undefined behaviour on well-formed stacks and leaves one;
    its result satisfies [R]. *)
Definition runs {A} (m : M Stack A) (R : A -> Prop) : Prop :=
  forall v, stack_ok v ->
    wp m (fun a v' => stack_ok v' /\ R a)
         (fun e v' => stack_ok v' /\ exists n, e = VmError n /\ is_error n = true) v.

Section runs.
Lemma runs_of {A} (m : M Stack A) R : keeps m R -> total m -> runs m R.
Proof. intros Hk Ht v Hv. specialize (Hk v Hv). specialize (Ht v). unfold wlp, wp in *. by destruct (m v). Qed.
Lemma runs_ret {A} (a : A) (R : A -> Prop) : R a -> runs (ret a) R.
Proof. intros Ha v Hv. by split. Qed.
Lemma runs_bind {A B} (m : M Stack A) (k : A -> M Stack B) R R' :
  runs m R -> (forall a, R a -> runs (k a) R') -> runs (bind m k) R'.
Proof. intros Hm Hk v Hv. apply wp_bind. eapply wp_mono; [by apply Hm| |done]. intros a v' [Hv' Ha]. by apply Hk. Qed.
Lemma runs_throw {A} n (R : A -> Prop) : is_error n = true -> runs (throw (VmError n)) R.
Proof. intros Hn v Hv. split; [done|]. by eexists. Qed.
Lemma runs_unless_throw b n : is_error n = true -> runs (unless_throw b (VmError n)) (fun _ => b = true).
Proof. intros Hn. destruct b; [by apply runs_ret|by apply runs_throw]. Qed.
Lemma runs_of_option {A} (o : option A) (R : A -> Prop) a : o = Some a -> R a -> runs (of_option o) R.
Proof. intros -> Ha. by apply runs_ret. Qed.
Lemma runs_push e : entry_ok e -> runs (push e) any.
Proof. intros He. apply runs_of; [by apply keeps_push|solve_total]. Qed.
Lemma runs_pop_cellslice : runs pop_cellslice slice_ok.
Proof. apply runs_of; [apply keeps_pop_cellslice|solve_total]. Qed.
Lemma runs_push_maybe_cell c : runs (push_maybe_cell c) any.
Proof. by destruct c; apply runs_push. Qed.
Lemma runs_pop_smallint max min :
  - 2 ^ 31 <= min -> max < 2 ^ 31 -> runs (pop_smallint_range max min) (fun x => min <= x <= max).
Proof. intros ? ?. apply runs_of; [by apply keeps_pop_smallint_range|solve_total]. Qed.
End runs.

(** Stack code without conditions on the results. *)
Ltac plain_runs := solve [apply (runs_of _ any); [solve_keeps | solve_total]].
Ltac runs_step :=
  lazymatch goal with
  | |- runs (bind _ _) _ => eapply runs_bind; [|intros ? ?; cbv beta in *]
  | |- runs (ret _) _ => first [apply (runs_ret _ any); exact I | apply runs_ret; try done]
  | |- runs (throw _) _ => apply runs_throw; reflexivity
  | |- runs (unless_throw _ _) _ => first [apply runs_unless_throw; reflexivity | plain_runs]
  | |- runs (push _) _ => apply runs_push; try done
  | |- runs (push_maybe_cell _) _ => apply runs_push_maybe_cell
  | |- runs pop_cellslice _ => apply runs_pop_cellslice
  | |- runs (if ?b then _ else _) _ => destruct b eqn:?
  | |- runs (match ?x with _ => _ end) _ => destruct x eqn:?
  | |- runs (let _ := _ in _) _ => cbv zeta
  | |- runs _ _ => first [plain_runs | match goal with |- runs ?m _ => let h := head_of m in unfold h end]
  end.
Ltac solve_runs := repeat runs_step.

(** ** Code of the machine *)

Definition vm_runs {A} (m : M VmState A) (R : A -> Prop) : Prop :=
  forall g s, vm_ok g s -> code_ok s -> wp m (fun a s' => R a /\ vm_ok g s' /\ code_ok s') (err_post g) s.

Section vm_runs.
Lemma vm_runs_ret {A} (a : A) (R : A -> Prop) : R a -> vm_runs (ret a) R.
Proof. by intros Ha g s Hs Hc. Qed.
Lemma vm_runs_bind {A B} (m : M VmState A) (k : A -> M VmState B) R R' :
  vm_runs m R -> (forall a, R a -> vm_runs (k a) R') -> vm_runs (bind m k) R'.
Proof.
  intros Hm Hk g s Hs Hc. apply wp_bind. eapply wp_mono; [by apply Hm| |done]. intros a s' (Ha & Hs' & Hc'). by apply Hk.
Qed.
Lemma vm_runs_throw {A} n (R : A -> Prop) : is_error n = true -> vm_runs (throw (VmError n)) R.
Proof. intros Hn g s Hs Hc. by apply err_post_vm. Qed.
Lemma vm_runs_unless_throw b n : is_error n = true -> vm_runs (unless_throw b (VmError n)) (fun _ => b = true).
Proof. intros Hn. destruct b; [by apply vm_runs_ret|by apply vm_runs_throw]. Qed.
Lemma vm_runs_of_option {A} (o : option A) (R : A -> Prop) a : o = Some a -> R a -> vm_runs (of_option o) R.
Proof. intros -> Ha. by apply vm_runs_ret. Qed.
Lemma vm_runs_gets {A} (f : VmState -> A) : vm_runs (gets f) any.
Proof. by intros g s Hs Hc. Qed.
Lemma vm_runs_on_stack {A} (m : M Stack A) R : runs m R -> vm_runs (on_stack m) R.
Proof.
  intros Hm g s Hs Hc. specialize (Hm (stack s) (rl_stack _ _ _ (proj2 (proj1 Hs)))).
  unfold wp, on_stack in *. destruct (m (stack s)) as [a v|e v|]; [| |done].
  - destruct Hm as [Hv Ha]. split_and!; [done|by apply vm_set_stack|exact Hc].
  - destruct Hm as (Hv & n & -> & Hn). by apply err_post_vm; [|apply vm_set_stack].
Qed.

(** Handlers begin with such code. *)
Lemma handled_bind {A} (m : M VmState A) (k : A -> M VmState Z) R :
  vm_runs m R -> (forall a, R a -> handled False (k a)) -> handled False (bind m k).
Proof.
  intros Hm Hk g s Hs Hc. apply (wp_bind m k). eapply wp_mono; [by apply Hm| |done].
  intros a s' (Ha & Hs' & Hc'). by apply Hk.
Qed.
Lemma handled_stack m : runs m any -> handled False (stack_op m).
Proof.
  intros Hm. eapply handled_bind; [by apply vm_runs_on_stack|]. intros a _ g s Hs Hc. by apply handler_post_ok.
Qed.
Lemma handled_ret : handled False (ret 0).
Proof. intros g s Hs Hc. by apply handler_post_ok. Qed.
End vm_runs.

Section dict_ops.
Context `{Sha256} `{LibDict}.

(** ** Dictionaries in the machine *)

Definition vm_inv (g : Z) (s0 s : VmState) : Prop := vm_ok g s /\ same_libs s0 s.
Lemma vm_safe_io g s0 : safe_io (vm_inv g s0) (err_post g) (shown (libraries s0)).
Proof.
  split.
  - intros c s [Hs Hl]. apply (load_cell_slice_shown g); [done|]. intros cs s' Hcs Hs' Hl'.
    rewrite (proj2 Hl) in Hcs. split; [done|]. split; [done|by eapply same_libs_trans].
  - intros s [Hs Hl]. unfold register_create, vm_cell_io, register_cell_create, cell_create_gas_price.
    apply (wp_consume_ok g); [lia|apply Hs| |by intros s' Hb]. intros Hm. split; [|done].
    split; [eapply mach_mono; [|done]; lia|apply Hs].
  - intros e s He [Hs _]. destruct e as [n| | | | | | |]; try done. by destruct n.
  - intros c cs. apply shown_ok.
Qed.
Lemma vm_runs_safe {A} (m : M VmState A) R :
  (forall Inv Exc view, safe_io Inv Exc view -> safe Inv Exc m R) -> vm_runs m R.
Proof.
  intros Hm g s Hs Hc. eapply wp_mono; [apply (Hm _ _ _ (vm_safe_io g s)); by split| |done].
  intros a s' [Ha [Hs' [Hl _]]]. split_and!; [done|done|by eapply same_core_code].
Qed.

(** A method of a dictionary, by a lemma of DictSafety.v. *)
Ltac method lem := apply vm_runs_safe; intros Inv Exc view Hio; eapply lem; eauto.

(** ** Slices *)

Lemma fetch_subslice_some n r cs :
  slice_ok cs -> (n <= size cs)%nat -> (r <= size_refs cs)%nat ->
  exists sub rest, fetch_subslice n r cs = Some (sub, rest) /\ slice_ok sub /\ slice_ok rest /\
    size_refs sub = r /\ size rest = (size cs - n)%nat.
Proof.
  intros Hcs Hn Hr. unfold fetch_subslice, have2, have, have_refs, advance. unfold have.
  rewrite !(proj2 (Nat.leb_le _ _)) by done. cbn [andb default]. unfold advance_refs, have_refs.
  rewrite (proj2 (Nat.leb_le _ _)) by done. do 2 eexists. split; [done|].
  unfold slice_ok, sub_first, size, size_refs in *. cbn. lia.
Qed.
Lemma prefetch_subslice_some n r cs :
  slice_ok cs -> (n <= size cs)%nat -> (r <= size_refs cs)%nat ->
  exists sub, prefetch_subslice n r cs = Some sub /\ slice_ok sub.
Proof.
  intros Hcs Hn Hr. unfold prefetch_subslice, have2, have, have_refs. rewrite !(proj2 (Nat.leb_le _ _)) by done.
  eexists. split; [done|]. unfold slice_ok, sub_first, size, size_refs in *. cbn. lia.
Qed.
Lemma advance_ext_ok n r cs : slice_ok cs -> slice_ok (default cs (advance_ext n r cs)).
Proof.
  intros Hcs. unfold advance_ext, have, have_refs. destruct (_ && _) eqn:E; [|done].
  apply andb_true_iff in E as [Hn%Nat.leb_le Hr%Nat.leb_le]. unfold advance, have.
  destruct (_ <=? _)%nat; [|done]. unfold slice_ok, size, size_refs in *. cbn. lia.
Qed.
Lemma prefetch_ref_some i cs : slice_ok cs -> (i < size_refs cs)%nat -> is_Some (prefetch_ref i cs).
Proof.
  intros Hcs Hi. unfold prefetch_ref. rewrite (proj2 (Nat.ltb_lt _ _)) by done. apply lookup_lt_is_Some_2.
  unfold slice_ok, size_refs in *. lia.
Qed.
Lemma fetch_ref_some cs : slice_ok cs -> (1 <= size_refs cs)%nat ->
  exists c rest, fetch_ref cs = Some (c, rest) /\ slice_ok rest.
Proof.
  intros Hcs Hr. unfold fetch_ref, have_refs. rewrite (proj2 (Nat.leb_le _ _)) by done.
  destruct (cell_refs (cs_cell cs) !! refs_st cs) as [c|] eqn:E.
  - do 2 eexists. split; [done|]. unfold slice_ok, size_refs in *. cbn. lia.
  - apply lookup_ge_None in E. unfold slice_ok, size_refs in *. lia.
Qed.

Lemma dict_nonempty_spec cs r : dict_nonempty cs = Some r -> (1 <= size cs /\ r <= size_refs cs)%nat.
Proof.
  unfold dict_nonempty. destruct (have 1 cs) eqn:E; [|done]. cbn [negb]. apply have_spec in E.
  destruct (have_refs _ cs) eqn:Er; [|done]. apply Nat.leb_le in Er. intros [= <-]. done.
Qed.
Lemma runs_dict_nonempty_chk cs : runs (dict_nonempty_chk cs) (fun r => (1 <= size cs /\ r <= size_refs cs)%nat).
Proof.
  unfold dict_nonempty_chk. destruct (dict_nonempty cs) eqn:E; [|by apply runs_throw].
  by apply runs_ret, dict_nonempty_spec.
Qed.

Lemma exec_store_dict_ok : handled False exec_store_dict.
Proof. apply handled_stack. solve_runs. Qed.
Lemma exec_skip_dict_ok : handled False exec_skip_dict.
Proof.
  apply handled_stack. eapply runs_bind; [apply runs_pop_cellslice|]. intros cs Hcs.
  eapply runs_bind; [apply runs_dict_nonempty_chk|]. intros r _. by apply runs_push, advance_ext_ok.
Qed.
Lemma exec_load_dict_slice_ok args : handled False (exec_load_dict_slice args).
Proof.
  apply handled_stack. eapply runs_bind; [apply runs_pop_cellslice|]. intros cs Hcs. cbv zeta.
  eapply (runs_bind _ _ any); [|intros; solve_runs].
  destruct (dict_nonempty cs) as [r|] eqn:E; [|solve_runs]. apply dict_nonempty_spec in E as [Hb Hr].
  destruct (arg_bit args 0).
  - destruct (prefetch_subslice_some 1 r cs) as (sub & -> & Hsub); [done..|].
    eapply runs_bind; [by apply (runs_of_option _ slice_ok sub)|]. intros sub' Hsub'. by apply runs_push.
  - destruct (fetch_subslice_some 1 r cs) as (sub & rest & -> & Hsub & Hrest & _); [done..|].
    eapply runs_bind; [by apply (runs_of_option _ (fun p => slice_ok (fst p) /\ slice_ok (snd p)) (sub, rest))|].
    intros [sub' rest'] [Hsub' Hrest']. eapply runs_bind; [by apply runs_push|]. intros _ _. by apply runs_push.
Qed.
Lemma exec_load_dict_ok args : handled False (exec_load_dict args).
Proof.
  apply handled_stack. eapply runs_bind; [apply runs_pop_cellslice|]. intros cs Hcs. cbv zeta.
  eapply (runs_bind _ _ any); [|intros; solve_runs].
  destruct (dict_nonempty cs) as [r|] eqn:E; [|solve_runs].
  eapply runs_bind; [apply runs_push_maybe_cell|]. intros _ _. destruct (arg_bit args 0); [by apply runs_ret|].
  by apply runs_push, advance_ext_ok.
Qed.

(** ** Keys and dictionaries *)

Lemma prefetch_bits_length n cs key : slice_ok cs -> prefetch_bits n cs = Some key -> length key = n.
Proof.
  intros Hcs. unfold prefetch_bits. destruct (have n cs) eqn:E; [|done]. apply have_spec in E. intros [= <-].
  rewrite length_take, slice_bits_length by done. lia.
Qed.
Lemma integer_key_length x n sgnd key : integer_key x n sgnd = Some key -> length key = n.
Proof. unfold integer_key. destruct x; [done|]. case_match; [|done]. intros [= <-]. apply Z_to_bits_length. Qed.

(** A key, if there is one, has [n] bits. *)
Definition key_ok (n : nat) (o : option (list bool)) : Prop := forall k, o = Some k -> length k = n.

Definition popped (max : Z) (p : nat * Dictionary) : Prop :=
  dict_ok (snd p) /\ key_bits (snd p) = Z.of_nat (fst p) /\ Z.of_nat (fst p) <= max.
Lemma vm_runs_pop_dict max : max <= 1023 -> vm_runs (pop_dict max) (popped max).
Proof.
  intros Hmax. unfold pop_dict. eapply (vm_runs_bind _ _ (fun p => 0 <= fst p <= max)).
  - apply vm_runs_on_stack. eapply runs_bind; [apply runs_pop_smallint; lia|]. intros n Hn. cbv beta in Hn.
    eapply runs_bind; [plain_runs|]. intros c _. by apply runs_ret.
  - intros [n c] Hn. cbn [fst] in Hn. eapply vm_runs_bind; [method @safe_force_validate|].
    intros d [Hd Hk]. cbn in Hk. apply vm_runs_ret. split; [done|]. cbn [fst snd]. lia.
Qed.
Lemma vm_runs_need_key n o : key_ok n o -> vm_runs (need_key o) (fun k => length k = n).
Proof. intros Ho. unfold need_key. destruct o as [k|]; [apply vm_runs_ret; by apply Ho|by apply vm_runs_throw]. Qed.

(** Handlers begin with a check of the depth and a dictionary. *)
Lemma with_dict reqs max (k : nat * Dictionary -> M VmState Z) :
  max <= 1023 -> (forall p, popped max p -> handled False (k p)) ->
  handled False (on_stack (check_underflow reqs) ;; bind (pop_dict max) k).
Proof.
  intros Hmax Hk. eapply handled_bind; [apply vm_runs_on_stack; plain_runs|]. intros _ _.
  eapply handled_bind; [by apply vm_runs_pop_dict|]. done.
Qed.
Lemma with_int (k : int256 -> M VmState Z) :
  (forall x, handled False (k x)) -> handled False (bind (on_stack pop_int_finite) k).
Proof. intros Hk. eapply handled_bind; [apply vm_runs_on_stack; plain_runs|]. intros x _. done. Qed.
Lemma with_slice (k : CellSlice -> M VmState Z) :
  (forall cs, slice_ok cs -> handled False (k cs)) -> handled False (bind (on_stack pop_cellslice) k).
Proof. intros Hk. eapply handled_bind; [apply vm_runs_on_stack, runs_pop_cellslice|]. done. Qed.
Lemma with_slice_key n (k : list bool -> M VmState Z) :
  (forall key, length key = n -> handled False (k key)) ->
  handled False (cs <- on_stack pop_cellslice ;; key <- need_key (prefetch_bits n cs) ;; k key).
Proof.
  intros Hk. apply with_slice. intros cs Hcs. eapply handled_bind; [|exact Hk].
  apply vm_runs_need_key. intros key. by apply prefetch_bits_length.
Qed.

Lemma runs_push_opt_slice (o : option CellSlice) (m1 m2 : M Stack unit) :
  opt_slice_ok o -> runs m1 any -> runs m2 any ->
  runs (match option_map t_slice o with Some e => push e ;; m1 | None => m2 end) any.
Proof. intros Ho H1 H2. destruct o; cbn; [|done]. eapply runs_bind; [by apply runs_push|]. done. Qed.

Lemma exec_dict_get_ok args : handled False (exec_dict_get args).
Proof.
  apply with_dict; [done|]. intros [n d] (Hd & _ & _).
  match goal with |- context [let get := ?f in _] => assert (forall key, handled False (f key)) as Hget end.
  { intros key. cbv beta. destruct (arg_bit args 0).
    - eapply handled_bind; [method @safe_lookup_ref|]. intros [[c|] d'] _; apply handled_stack; cbn [option_map push_found]; solve_runs.
    - eapply handled_bind; [method @safe_lookup|]. intros [v d'] Hv. apply handled_stack.
      apply runs_push_opt_slice; [done|solve_runs..]. }
  cbv zeta in *. destruct (arg_bit args 2).
  - apply with_int. intros x. destruct (integer_key _ _ _); [apply Hget|apply handled_stack; solve_runs].
  - apply with_slice_key. intros key _. apply Hget.
Qed.
Lemma exec_dict_get_optref_ok args : handled False (exec_dict_get_optref args).
Proof.
  apply with_dict; [done|]. intros [n d] (Hd & _ & _).
  match goal with |- context [let get := ?f in _] => assert (forall key, handled False (f key)) as Hget end.
  { intros key. cbv beta. eapply handled_bind; [method @safe_lookup_ref|]. intros [v d'] _. apply handled_stack. solve_runs. }
  cbv zeta in *. destruct (arg_bit args 1).
  - apply with_int. intros x. destruct (integer_key _ _ _); [apply Hget|apply handled_stack; solve_runs].
  - apply with_slice_key. intros key _. apply Hget.
Qed.

(** ** Insertion and deletion *)

Lemma runs_integer_key_chk x n sgnd : runs (integer_key_chk x n sgnd) (fun k => length k = n).
Proof.
  unfold integer_key_chk. destruct (integer_key x n sgnd) eqn:E; [|by apply runs_throw].
  by eapply runs_ret, integer_key_length.
Qed.
Lemma vm_runs_pop_key int sgnd n : vm_runs (pop_key int sgnd n) (key_ok n).
Proof.
  apply vm_runs_on_stack. destruct int.
  - eapply runs_bind; [plain_runs|]. intros x _. eapply runs_bind; [apply runs_integer_key_chk|].
    intros k Hk. apply runs_ret. by intros k' [= <-].
  - eapply runs_bind; [apply runs_pop_cellslice|]. intros cs Hcs. apply runs_ret. intros k. by apply prefetch_bits_length.
Qed.
Lemma vm_runs_pop_key_finite int sgnd n : vm_runs (pop_key_finite int sgnd n) (fun k => length k = n).
Proof.
  unfold pop_key_finite. destruct int.
  - apply vm_runs_on_stack. eapply runs_bind; [plain_runs|]. intros x _. apply runs_integer_key_chk.
  - eapply vm_runs_bind; [apply vm_runs_on_stack, runs_pop_cellslice|]. intros cs Hcs.
    apply vm_runs_need_key. intros k. by apply prefetch_bits_length.
Qed.

(** A value from the stack, then the key, then a method of the dictionary. *)
Lemma with_value {A B} (pop : M Stack A) (P : A -> Prop) n key (k : A -> list bool -> M VmState B) R :
  runs pop P -> key_ok n key -> (forall a key, length key = n -> vm_runs (k a key) R) ->
  vm_runs (a <- on_stack pop ;; key <- need_key key ;; k a key) R.
Proof.
  intros Hp Hkey Hk. eapply vm_runs_bind; [by apply vm_runs_on_stack|]. intros a _.
  eapply vm_runs_bind; [by apply vm_runs_need_key|]. intros key' Hkey'. by apply Hk.
Qed.
Lemma handled_value {A B} (pop : M Stack A) (P : A -> Prop) n key (m : A -> list bool -> M VmState B)
    (k : B -> M VmState Z) R :
  runs pop P -> key_ok n key -> (forall a key, vm_runs (m a key) R) -> (forall b, R b -> handled False (k b)) ->
  handled False (a <- on_stack pop ;; key <- need_key key ;; b <- m a key ;; k b).
Proof.
  intros Hp Hkey Hm Hk. eapply handled_bind; [by apply vm_runs_on_stack|]. intros a _.
  eapply handled_bind; [by apply vm_runs_need_key|]. intros key' _. by eapply handled_bind; [apply Hm|].
Qed.

Lemma vm_runs_set n d key f mode :
  dict_ok d -> key_bits d = Z.of_nat n -> length key = n ->
  vm_runs (set_gen key f mode d) (fun r => mode = Set_ -> fst r = true).
Proof.
  intros Hd Hn Hk. apply vm_runs_safe. intros Inv Exc view Hio.
  eapply safe_weaken; [by eapply safe_set_gen|]. intros r Hr Hmode. apply Hr; [|done].
  unfold key_fits. apply Z.eqb_eq. lia.
Qed.
Lemma exec_dict_set_ok mode bld args : handled False (exec_dict_set mode bld args).
Proof.
  unfold exec_dict_set. cbv zeta. generalize (bld_args args bld) as a. intros a.
  apply with_dict; [done|]. intros [n d] (Hd & Hn & _). cbn [fst snd] in *.
  eapply handled_bind; [apply vm_runs_pop_key|]. intros key Hkey.
  eapply (handled_bind _ _ (fun r => mode = Set_ -> fst r = true)).
  - destruct bld; [|destruct (negb _)]; (eapply with_value; [plain_runs|done|]); intros v k Hk; by eapply vm_runs_set.
  - intros [res d'] Hres. cbn [fst] in Hres. eapply handled_bind; [apply vm_runs_on_stack, runs_push_maybe_cell|].
    intros _ _. destruct mode; [|apply handled_stack; solve_runs..]. rewrite Hres by done.
    eapply handled_bind; [by apply (vm_runs_ret tt any)|]. intros _ _. apply handled_ret.
Qed.

(** The dictionary, then the old value, if any, and a flag. *)
Lemma runs_old {A} (m : M Stack A) (e : option StackEntry) (m1 m2 : M Stack unit) R :
  runs m R -> match e with Some e => entry_ok e | None => True end -> runs m1 any -> runs m2 any ->
  runs (m ;; match e with Some e => push e ;; m1 | None => m2 end) any.
Proof.
  intros Hm He H1 H2. eapply runs_bind; [done|]. intros _ _. destruct e; [|done].
  eapply runs_bind; [by apply runs_push|]. done.
Qed.
Lemma exec_dict_setget_ok mode bld args : handled False (exec_dict_setget mode bld args).
Proof.
  unfold exec_dict_setget. cbv zeta. generalize (bld_args args bld) as a. intros a.
  apply with_dict; [done|]. intros [n d] (Hd & _ & _). cbn [fst snd] in *.
  eapply handled_bind; [apply vm_runs_pop_key|]. intros key Hkey.
  destruct bld; [|destruct (negb _)].
  - eapply handled_value; [plain_runs|done|intros v k; method @safe_lookup_set_gen|]. intros [old d'] Ho.
    apply handled_stack. eapply runs_old; [apply runs_push_maybe_cell|by destruct old|solve_runs..].
  - eapply handled_value; [plain_runs|done|intros v k; method @safe_lookup_set_gen|]. intros [old d'] Ho.
    apply handled_stack. eapply runs_old; [apply runs_push_maybe_cell|by destruct old|solve_runs..].
  - eapply handled_value; [plain_runs|done|intros v k; method @safe_lookup_set_ref|]. intros [old d'] _.
    apply handled_stack. eapply runs_old; [apply runs_push_maybe_cell|by destruct old|solve_runs..].
Qed.
Lemma exec_dict_setget_optref_ok args : handled False (exec_dict_setget_optref args).
Proof.
  apply with_dict; [done|]. intros [n d] (Hd & _ & _). cbn [fst snd] in *.
  eapply handled_bind; [apply vm_runs_pop_key|]. intros key Hkey.
  eapply handled_value; [plain_runs|done| |].
  - intros [c|] k; [method @safe_lookup_set_ref|method @safe_lookup_delete_ref].
  - intros [v d'] _. apply handled_stack. solve_runs.
Qed.

Lemma exec_dict_delete_ok args : handled False (exec_dict_delete args).
Proof.
  apply with_dict; [done|]. intros [n d] (Hd & _ & _). cbn [fst snd] in *.
  eapply handled_bind; [apply vm_runs_pop_key_finite|]. intros key _.
  eapply handled_bind; [method @safe_lookup_delete|]. intros [res d'] _. apply handled_stack. solve_runs.
Qed.
Lemma exec_dict_deleteget_ok args : handled False (exec_dict_deleteget args).
Proof.
  apply with_dict; [done|]. intros [n d] (Hd & _ & _). cbn [fst snd] in *.
  eapply handled_bind; [apply vm_runs_pop_key_finite|]. intros key _. destruct (negb _).
  - eapply handled_bind; [method @safe_lookup_delete|]. intros [[old|] d'] Ho; apply handled_stack; cbn [option_map]; solve_runs.
  - eapply handled_bind; [method @safe_lookup_delete_ref|]. intros [[old|] d'] _; apply handled_stack; cbn [option_map]; solve_runs.
Qed.

(** ** Search *)

Lemma vm_runs_push_key_slice key : vm_runs (push_key_slice key) any.
Proof.
  unfold push_key_slice. eapply vm_runs_bind; [method @safe_store_bits|]. intros cb _.
  eapply vm_runs_bind; [method @safe_finalize|]. intros c _.
  apply vm_runs_on_stack, runs_push, slice_of_cell_ok.
Qed.

Lemma getmin_max (int unsigned : bool) : (if int then if unsigned then 256 else 257 else max_keys) <= 1023.
Proof. by destruct int, unsigned. Qed.
Lemma exec_dict_getmin_ok args : handled False (exec_dict_getmin args).
Proof.
  cbv beta delta [exec_dict_getmin].
  match goal with |- handled _ (let x := ?a in let y := ?b in let z := ?c in @?k x y z) =>
    change (handled False (k a b c)); cbv beta end.
  match goal with |- context [let finish := ?f in _] =>
    assert (forall A d (res : option (list bool * A)) entry,
      match res with Some (_, v) => entry_ok (entry v) | None => True end -> handled False (f A d res entry)) as Hfin end.
  { intros A d res entry Hres. eapply (handled_bind _ _ any).
    - destruct (arg_bit args 4); [apply vm_runs_on_stack, runs_push_maybe_cell|by apply vm_runs_ret].
    - intros _ _. destruct res as [[key v]|]; [|apply handled_stack; solve_runs].
      eapply handled_bind; [by apply vm_runs_on_stack, runs_push|]. intros _ _.
      eapply (handled_bind _ _ any); [|intros _ _; apply handled_stack; solve_runs].
      destruct (arg_bit args 2); [apply vm_runs_on_stack; solve_runs|apply vm_runs_push_key_slice]. }
  cbv zeta in *. apply with_dict; [apply getmin_max|]. intros [n d] (Hd & _ & _). cbn [fst snd] in *.
  destruct (negb (arg_bit args 0)).
  - eapply (handled_bind _ _ (key_value_ok n)).
    + destruct (arg_bit args 4); [method @safe_extract_minmax_key|method @safe_get_minmax_key].
    + intros [res d'] Hr. apply Hfin. destruct res as [[k v]|]; [apply Hr|done].
  - eapply (handled_bind _ _ (key_ref_ok n)).
    + destruct (arg_bit args 4); [method @safe_extract_minmax_key_ref|method @safe_get_minmax_key_ref].
    + intros [res d'] _. apply Hfin. by destruct res as [[k v]|].
Qed.

(** What a search near a key finds. *)
Definition value_found (r : option (list bool * CellSlice) * Dictionary) : Prop :=
  match fst r with Some (_, v) => slice_ok v | None => True end.
Lemma key_value_found n r : key_value_ok n r -> value_found r.
Proof. destruct r as [[[k v]|] d]; [by intros []|done]. Qed.
Lemma vm_runs_near d key up eq inv : dict_ok d -> vm_runs (lookup_nearest_key key up eq inv d) value_found.
Proof.
  intros Hd. apply vm_runs_safe. intros Inv Exc view Hio.
  eapply safe_weaken; [by eapply safe_lookup_nearest_key|]. intros r. apply key_value_found.
Qed.
Lemma exec_dict_getnear_ok args : handled False (exec_dict_getnear args).
Proof.
  apply (with_dict [3]); [apply getmin_max|]. intros [n d] (Hd & _ & _). cbn [fst snd] in *. cbv zeta.
  destruct (negb (arg_bit args 3)).
  - apply with_slice_key. intros key _. eapply handled_bind; [by apply vm_runs_near|].
    intros [[[k v]|] d'] Hv; [|apply handled_stack; solve_runs].
    eapply handled_bind; [by apply vm_runs_on_stack, runs_push|]. intros _ _.
    eapply handled_bind; [apply vm_runs_push_key_slice|]. intros _ _. apply handled_stack. solve_runs.
  - apply with_int. intros x. eapply (handled_bind _ _ value_found).
    + destruct (integer_key _ _ _); [by apply vm_runs_near|]. destruct (xorb _ _); [|by apply vm_runs_ret].
      apply vm_runs_safe. intros Inv Exc view Hio. eapply safe_weaken; [by eapply safe_get_minmax_key|].
      intros r. apply key_value_found.
    + intros [[[k v]|] d'] Hv; apply handled_stack; solve_runs.
Qed.

(** ** Prefix code dictionaries *)

Lemma vm_runs_version (k : Z -> M VmState Z) : (forall v, handled False (k v)) -> handled False (bind (gets global_version) k).
Proof. intros Hk. eapply handled_bind; [apply vm_runs_gets|]. intros v _. apply Hk. Qed.
Lemma exec_pfx_dict_set_ok mode : handled False (exec_pfx_dict_set mode).
Proof.
  apply vm_runs_version. intros v. apply with_dict; [done|]. intros [n d] (Hd & _ & _). cbn [fst snd] in *.
  eapply handled_bind; [apply vm_runs_on_stack; plain_runs|]. intros [key value] _.
  eapply handled_bind; [method @safe_pfx_set_gen|]. intros [res d'] _. apply handled_stack. solve_runs.
Qed.
Lemma exec_pfx_dict_delete_ok : handled False exec_pfx_dict_delete.
Proof.
  apply vm_runs_version. intros v. apply with_dict; [done|]. intros [n d] (Hd & _ & _). cbn [fst snd] in *.
  apply with_slice. intros cs Hcs. eapply handled_bind; [method @safe_pfx_lookup_delete|].
  intros [res d'] _. apply handled_stack. solve_runs.
Qed.

Lemma jump_handled value cp : slice_ok value -> handled False (jump (ord_cont (Some value) cp)).
Proof. intros Hv g s Hs Hc. apply jump_ok; [|done]. by apply ord_cont_ok. Qed.
Lemma call_handled value cp : slice_ok value -> handled False (call (ord_cont (Some value) cp)).
Proof. intros Hv g s Hs Hc. apply call_ok; [|done|done]. by apply ord_cont_ok. Qed.
(** The matched part of a slice and the rest. *)
Lemma with_matched {n : nat} cs (k : CellSlice * CellSlice -> M VmState Z) :
  slice_ok cs -> (n <= length (slice_bits cs))%nat ->
  (forall p, slice_ok (fst p) -> slice_ok (snd p) -> handled False (k p)) ->
  handled False (bind (of_option (fetch_subslice n 0 cs)) k).
Proof.
  intros Hcs Hn Hk. rewrite slice_bits_length in Hn by done.
  destruct (fetch_subslice_some n 0 cs) as (sub & rest & -> & Hsub & Hrest & _); [done|done|lia|].
  eapply (handled_bind _ _ (eq (sub, rest))); [by apply vm_runs_ret|]. intros p <-. by apply Hk.
Qed.

Lemma exec_pfx_dict_get_ok op : handled False (exec_pfx_dict_get op).
Proof.
  apply with_dict; [done|]. intros [n d] (Hd & _ & _). cbn [fst snd] in *.
  apply with_slice. intros cs Hcs. eapply handled_bind; [method @safe_pfx_lookup_prefix|].
  intros [[[value|] matched] d'] [Hv Hm]; cbn [fst snd] in *.
  - apply with_matched; [done|done|]. intros [pfx rest] Hp Hr. cbn [fst snd] in *.
    eapply handled_bind; [apply vm_runs_on_stack; solve_runs|]. intros _ _.
    destruct (op =? 0); [apply handled_stack; solve_runs|]. destruct (op =? 1); [apply handled_ret|].
    eapply handled_bind; [apply vm_runs_gets|]. intros cp _.
    destruct (arg_bit op 0); [by apply call_handled|by apply jump_handled].
  - eapply handled_bind; [by apply vm_runs_unless_throw|]. intros _ _. apply handled_stack. solve_runs.
Qed.

Lemma exec_dict_get_exec_ok args : handled False (exec_dict_get_exec args).
Proof.
  apply with_dict; [done|]. intros [n d] (Hd & _ & _). cbn [fst snd] in *. apply with_int. intros x.
  eapply (handled_bind _ _ opt_slice_ok).
  - destruct (integer_key _ _ _); [|by apply vm_runs_ret].
    eapply vm_runs_bind; [method @safe_lookup|]. intros [r d'] Hr. by apply vm_runs_ret.
  - intros [value|] Hv; [|apply handled_stack; solve_runs].
    eapply handled_bind; [apply vm_runs_gets|]. intros cp _.
    destruct (arg_bit args 1); [by apply call_handled|by apply jump_handled].
Qed.

(** ** Dictionaries in code, subdictionaries *)

Lemma vm_runs_code_slice : vm_runs code_slice slice_ok.
Proof.
  intros g s Hs Hc. unfold wp, code_slice, bind, gets. unfold code_ok in Hc.
  destruct (code s) as [cs|] eqn:E; [|done]. cbn. split_and!; [done|done|]. unfold code_ok. by rewrite E.
Qed.
Lemma vm_runs_code_fetch_dict :
  vm_runs (code_fetch_dict 24) (fun p => slice_ok (fst p) /\ size_refs (fst p) = 1%nat).
Proof.
  intros g s Hs Hc. unfold code_fetch_dict, code_slice. unfold code_ok in Hc.
  destruct (code s) as [cs|] eqn:E; [|done]. apply wp_bind, wp_bind, wp_gets. rewrite E. apply wp_ret.
  apply wp_bind, wp_unless_throw; [intros Hb%have_spec|intros _; by apply err_post_vm].
  apply wp_bind, wp_unless_throw; [intros Hr%Nat.leb_le|intros _; by apply err_post_vm].
  change (Z.to_nat 24) with 24%nat in Hb.
  apply wp_bind. unfold wp at 1, code_advance. rewrite E. change (Z.to_nat (24 - 11)) with 13%nat.
  unfold advance. rewrite (proj2 (have_spec 13 cs)) by lia. cbn [default].
  apply wp_bind, wp_bind, wp_gets. cbn [code set_code_field]. apply wp_ret, wp_bind.
  match goal with |- context [fetch_subslice 1 1 ?c] => set (cs1 := c) end.
  assert (slice_ok cs1) as Hcs1 by (unfold slice_ok, cs1, size in *; cbn; lia).
  destruct (fetch_subslice_some 1 1 cs1) as (sub & rest & -> & Hsub & Hrest & Hn & _);
    [done|unfold cs1, size in *; cbn; lia|exact Hr|].
  apply wp_ret. pose proof (fetch_ulong_ok 10 _ Hrest) as Hrest'. destruct (fetch_ulong 10 rest) as [x rest'].
  apply wp_bind, wp_modify, wp_ret. split; [done|]. split; [|exact Hrest'].
  by apply vm_set_code, vm_set_code.
Qed.
Lemma exec_push_const_dict_ok args : handled False (exec_push_const_dict args 24).
Proof.
  eapply handled_bind; [apply vm_runs_code_fetch_dict|]. intros [sub n] [Hsub Hr]. cbn [fst] in *.
  destruct (prefetch_ref_some 0 sub Hsub) as [c Hc]; [lia|]. rewrite Hc.
  eapply handled_bind; [by apply (vm_runs_ret c any)|]. intros c' _. apply handled_stack. solve_runs.
Qed.
Lemma exec_const_pfx_dict_switch_ok args : handled False (exec_const_pfx_dict_switch args 24).
Proof.
  eapply handled_bind; [apply vm_runs_code_fetch_dict|]. intros [sub n] _.
  eapply handled_bind; [method @safe_force_validate|]. intros d [Hd _].
  apply with_slice. intros cs Hcs. eapply handled_bind; [method @safe_pfx_lookup_prefix|].
  intros [[[value|] matched] d'] [Hv Hm]; cbn [fst snd] in *; [|apply handled_stack; solve_runs].
  apply with_matched; [done|done|]. intros [pfx rest] Hp Hr. cbn [fst snd] in *.
  eapply handled_bind; [apply vm_runs_on_stack; solve_runs|]. intros _ _.
  eapply handled_bind; [apply vm_runs_gets|]. intros cp _. by apply jump_handled.
Qed.
Lemma exec_subdict_get_ok args : handled False (exec_subdict_get args).
Proof.
  apply with_dict; [done|]. intros [n d] (Hd & _ & _). cbn [fst snd] in *. cbv zeta.
  eapply handled_bind; [apply vm_runs_on_stack; plain_runs|]. intros k _.
  eapply (handled_bind _ _ (key_ok (Z.to_nat k))).
  - destruct (arg_bit args 1).
    + eapply vm_runs_bind; [apply vm_runs_on_stack; plain_runs|]. intros x _. apply vm_runs_ret.
      intros key. apply integer_key_length.
    + eapply vm_runs_bind; [apply vm_runs_on_stack, runs_pop_cellslice|]. intros cs Hcs. apply vm_runs_ret.
      intros key. by apply prefetch_bits_length.
  - intros key Hkey. eapply handled_bind; [by apply vm_runs_need_key|]. intros key' _.
    eapply handled_bind; [method @safe_cut_prefix_subdict|]. intros [ok d'] _.
    eapply handled_bind; [by apply vm_runs_unless_throw|]. intros _ _. apply handled_stack. solve_runs.
Qed.

Lemma dict_ops_good : Forall registered_good register_dictionary_ops.
Proof.
  unfold register_dictionary_ops. split_Forall; apply good_of_handled; registered_tac.
  all: eauto using exec_store_dict_ok, exec_skip_dict_ok, exec_load_dict_slice_ok, exec_load_dict_ok, exec_dict_get_ok,
    exec_dict_set_ok, exec_dict_setget_ok, exec_dict_delete_ok, exec_dict_deleteget_ok, exec_dict_get_optref_ok,
    exec_dict_setget_optref_ok, exec_pfx_dict_set_ok, exec_pfx_dict_delete_ok, exec_dict_getnear_ok, exec_dict_getmin_ok,
    exec_dict_get_exec_ok, exec_push_const_dict_ok, exec_pfx_dict_get_ok, exec_const_pfx_dict_switch_ok, exec_subdict_get_ok.
Qed.
End dict_ops.
