(* ===== verification/CellOpsSafety.v ===== *)
(** * The cell primitives keep the machine well-formed

    The handlers of CellOps.v against the invariant of VmInvariant.v.  In particular
    the stores that throw never do, behind the checks of the handlers. *)
From S2P Require Import Prelude BigInt Int256 Cells DataCell Dict DictSafety VmTypes Stack OpcodeTable StackOps Vm ContOps DictOps CellOps VmInvariant Control InstrSafety ContSafety DictOpsSafety.

(** ** Slices *)

Lemma skip_first_ok n r cs cs' : slice_ok cs -> skip_first n r cs = Some cs' -> slice_ok cs'.
Proof.
  intros Hcs. unfold skip_first, have2, have, have_refs. destruct (_ && _) eqn:E; [|done].
  apply andb_true_iff in E as [Hn%Nat.leb_le Hr%Nat.leb_le]. unfold advance, have. destruct (_ <=? _)%nat; [|done].
  intros [= <-]. unfold slice_ok, size, size_refs in *. cbn. lia.
Qed.
Lemma only_first_ok n r cs cs' : slice_ok cs -> only_first n r cs = Some cs' -> slice_ok cs'.
Proof.
  intros Hcs. unfold only_first, have2, have, have_refs. destruct (_ && _) eqn:E; [|done].
  apply andb_true_iff in E as [Hn%Nat.leb_le Hr%Nat.leb_le]. intros [= <-].
  unfold slice_ok, sub_first, size, size_refs in *. cbn. lia.
Qed.
Lemma only_last_ok n r cs cs' : slice_ok cs -> only_last n r cs = Some cs' -> slice_ok cs'.
Proof.
  intros Hcs. unfold only_last, have2, have, have_refs. destruct (_ && _) eqn:E; [|done].
  apply andb_true_iff in E as [Hn%Nat.leb_le Hr%Nat.leb_le]. unfold advance, have. destruct (_ <=? _)%nat; [|done].
  intros [= <-]. unfold slice_ok, size, size_refs in *. cbn. lia.
Qed.
Lemma skip_last_ok n r cs cs' : slice_ok cs -> skip_last n r cs = Some cs' -> slice_ok cs'.
Proof.
  intros Hcs. unfold skip_last, have2, have, have_refs. destruct (_ && _) eqn:E; [|done].
  apply andb_true_iff in E as [Hn%Nat.leb_le Hr%Nat.leb_le]. intros [= <-].
  unfold slice_ok, size, size_refs in *. cbn. lia.
Qed.
Lemma substr_ok o n cs cs' : slice_ok cs -> substr o n cs = Some cs' -> slice_ok cs'.
Proof.
  intros Hcs. unfold substr. destruct (skip_first o 0 cs) as [cs1|] eqn:E; [|done].
  apply only_first_ok. by eapply skip_first_ok.
Qed.
Lemma remove_trailing_ok cs : slice_ok cs -> slice_ok (snd (remove_trailing cs)).
Proof.
  intros Hcs. unfold remove_trailing. destruct (_ =? _)%nat; [done|]. cbn [snd].
  pose proof (DictLabel.memscan_le false (rev (slice_bits cs))) as Hm. rewrite length_rev, slice_bits_length in Hm by done.
  destruct (Nat.eqb_spec (memscan false (rev (slice_bits cs))) (size cs)); unfold slice_ok, size in *; cbn; lia.
Qed.

(** ** Stores behind their checks *)

Lemma can_extend_spec n r cb :
  can_extend_by n r cb = true -> (n <= remaining_bits cb)%nat /\ (r <= remaining_refs cb)%nat.
Proof. unfold can_extend_by. by intros [Hn%Nat.leb_le Hr%Nat.leb_le]%andb_true_iff. Qed.
Lemma store_ref_some c cb : can_extend_by 0 1 cb = true -> is_Some (store_ref_bool (Some c) cb).
Proof.
  intros [_ Hr]%can_extend_spec. unfold store_ref_bool. rewrite (proj2 (Nat.ltb_lt _ _)); [done|].
  unfold remaining_refs in Hr. lia.
Qed.
Lemma append_slice_some cs cb : can_extend_by (size cs) (size_refs cs) cb = true -> is_Some (append_cellslice_bool cs cb).
Proof. intros Hc. unfold append_cellslice_bool. by rewrite Hc. Qed.
Lemma append_builder_some cb2 cb :
  can_extend_by (length (cb_bits cb2)) (length (cb_refs cb2)) cb = true -> is_Some (append_builder_bool cb2 cb).
Proof. intros Hc. unfold append_builder_bool. by rewrite Hc. Qed.
Lemma store_int_some x n sgnd cb :
  0 <= n -> can_extend_by (Z.to_nat n) 0 cb = true -> fits_bits x n sgnd = true ->
  is_Some (store_int256_bool x (Z.to_nat n) sgnd cb).
Proof.
  intros Hn [Hb _]%can_extend_spec Hf. unfold store_int256_bool. rewrite (proj2 (Nat.leb_le _ _) Hb).
  unfold fits_bits in Hf. destruct x as [|a]; [by destruct sgnd|]. rewrite Z2Nat.id by done. cbn [andb].
  destruct sgnd; cbn in Hf.
  - destruct (Z.eqb_spec a 0) as [->|Ha].
    + destruct (Nat.eqb_spec (Z.to_nat n) 0); [done|]. rewrite (proj2 (fits_s_spec n 0)); [done|].
      pose proof (pow2_pos (n - 1) ltac:(lia)). lia.
    + destruct (Z.leb_spec n 0); [done|]. rewrite (proj2 (Nat.eqb_neq _ _)) by lia. by rewrite Hf.
  - pose proof (pow2_pos n Hn). rewrite (proj2 (fits_u_spec n a)); [done|]. destruct (Z.ltb_spec a 0); [done|].
    destruct (Z.eqb_spec a 0); [lia|]. destruct (n <? 0); [done|]. apply Z.ltb_lt in Hf. lia.
Qed.
Lemma bytes_lsb_length len : forall x, length (bytes_lsb len x) = (8 * len)%nat.
Proof. induction len as [|len IH]; intros x; [done|]. cbn [bytes_lsb]. rewrite length_app, Z_to_bits_length, IH. lia. Qed.
Lemma store_bytes_some len x cb :
  can_extend_by (8 * len) 0 cb = true -> is_Some (store_bits_bool (bytes_lsb len x) cb).
Proof.
  intros [Hb _]%can_extend_spec. unfold store_bits_bool. rewrite bytes_lsb_length.
  by rewrite (proj2 (Nat.leb_le _ _)).
Qed.
Lemma runs_ensure_stored o : is_Some o -> runs (ensure_stored o) any.
Proof. intros [cb ->]. by apply runs_ret. Qed.

(** ** Stack code of the handlers *)

Lemma runs_push_slice cs : slice_ok cs -> runs (push_slice cs) any.
Proof. intros Hcs. by apply runs_push. Qed.
Lemma runs_push_cut o : (forall cs, o = Some cs -> slice_ok cs) -> runs (push_cut o) any.
Proof. intros Ho. unfold push_cut. destruct o; [apply runs_push; by apply Ho|by apply runs_throw]. Qed.
Lemma runs_check_space cb n r : runs (check_space cb n r) (fun _ => can_extend_by n r cb = true).
Proof. by apply runs_unless_throw. Qed.
Lemma runs_if (b : bool) (m1 m2 : M Stack unit) : runs m1 any -> runs m2 any -> runs (if b then m1 else m2) any.
Proof. by destruct b. Qed.

Lemma runs_store_checked cb n r quiet back (store : M Stack CellBuilder) :
  runs back any -> (can_extend_by n r cb = true -> runs store any) -> runs (store_checked cb n r quiet back store) any.
Proof.
  intros Hb Hs. unfold store_checked. destruct (can_extend_by n r cb) eqn:E; cbn [negb].
  - eapply runs_bind; [by apply Hs|]. intros cb' _. solve_runs.
  - eapply runs_bind; [by apply runs_unless_throw|]. intros _ _. eapply runs_bind; [done|]. intros _ _. solve_runs.
Qed.

Lemma runs_store_int_common bits args : 0 <= bits -> runs (exec_store_int_common bits args) any.
Proof.
  intros Hbits. unfold exec_store_int_common. cbv zeta. eapply (runs_bind _ _ any); [solve_runs|]. intros [cb x] _.
  destruct (can_extend_by _ _ cb) eqn:Ec; cbn [negb]; [|solve_runs].
  destruct (fits_bits x bits _) eqn:Ef; cbn [negb]; [|solve_runs].
  eapply runs_bind; [by apply runs_ensure_stored, store_int_some|]. intros cb' _. solve_runs.
Qed.
Lemma runs_load_int_common bits mode : runs (exec_load_int_common bits mode) any.
Proof.
  unfold exec_load_int_common. eapply runs_bind; [apply runs_pop_cellslice|]. intros cs Hcs.
  destruct (have _ cs) eqn:Eh; cbn [negb]; [|solve_runs]. cbv zeta.
  eapply (runs_bind _ _ any); [|intros _ _; solve_runs]. destruct (arg_bit mode 1).
  - unfold prefetch_int256. rewrite Eh. eapply (runs_bind _ _ any); [by apply runs_ret|]. intros x _. solve_runs.
  - pose proof (fetch_int256_ok (Z.to_nat bits) (negb (arg_bit mode 0)) cs Hcs) as Hf. unfold fetch_int256 in *.
    rewrite Eh in *. eapply (runs_bind _ _ (fun p => slice_ok (snd p))); [by apply runs_ret|]. intros [x cs'] Hcs'.
    solve_runs.
Qed.
Lemma runs_load_slice_common bits mode : runs (exec_load_slice_common bits mode) any.
Proof.
  unfold exec_load_slice_common. eapply runs_bind; [apply runs_pop_cellslice|]. intros cs Hcs.
  destruct (have _ cs) eqn:Eh; cbn [negb]; [|solve_runs]. apply have_spec in Eh.
  eapply (runs_bind _ _ any); [|intros _ _; solve_runs]. destruct (arg_bit mode 0).
  - destruct (prefetch_subslice_some (Z.to_nat bits) 0 cs) as (sub & -> & Hsub); [done|done|lia|].
    eapply (runs_bind _ _ slice_ok); [by apply runs_ret|]. intros sub' Hsub'. by apply runs_push.
  - destruct (fetch_subslice_some (Z.to_nat bits) 0 cs) as (sub & rest & -> & Hsub & Hrest & _); [done|done|lia|].
    eapply (runs_bind _ _ (eq (sub, rest))); [by apply runs_ret|]. intros p <-. solve_runs.
Qed.
Lemma runs_begins_with cs2 quiet : runs (exec_slice_begins_with_common cs2 quiet) any.
Proof.
  unfold exec_slice_begins_with_common. eapply runs_bind; [apply runs_pop_cellslice|]. intros cs Hcs.
  destruct (is_prefix_of cs2 cs); cbn [negb]; [|solve_runs].
  eapply runs_bind; [by apply runs_push, adv_ok|]. intros _ _. solve_runs.
Qed.
Lemma runs_preload_ref_at idx : runs (preload_ref_at idx) any.
Proof.
  unfold preload_ref_at. eapply runs_bind; [apply runs_pop_cellslice|]. intros cs Hcs.
  eapply runs_bind; [by apply runs_unless_throw|]. intros ? Hr. apply Nat.leb_le in Hr.
  destruct (prefetch_ref_some (Z.to_nat idx) cs Hcs) as [c Hc]; [lia|]. rewrite Hc.
  eapply (runs_bind _ _ any); [by apply runs_ret|]. intros c' _. solve_runs.
Qed.

Section cell_ops.
Context `{Sha256} `{LibDict}.

(** ** Cells and code *)

Lemma vm_runs_load_cell_slice c : vm_runs (load_cell_slice c) slice_ok.
Proof.
  intros g s Hs Hc. apply (load_cell_slice_ok g); [done|]. intros cs s' Hcs Hs' Hsc.
  split_and!; [done|done|by eapply same_core_code].
Qed.
Lemma vm_runs_load_special c : vm_runs (load_cell_slice_special c) (fun p => slice_ok (fst p)).
Proof.
  intros g s Hs Hc. apply wp_bind. unfold load_cell_fuel. apply (load_cell_loop_ok g); [done|].
  intros c' s' _ Hs' [Hsc _]. apply wp_ret. split_and!; [apply slice_of_cell_ok|done|by eapply same_core_code].
Qed.
Lemma vm_runs_ref_to_cont c : vm_runs (ref_to_cont c) cont_ok.
Proof.
  intros g s Hs Hc. apply (ref_to_cont_ok g); [done|]. intros k s' Hk Hs' Hsc.
  split_and!; [done|done|by eapply same_core_code].
Qed.
Lemma vm_runs_register_cell_load h : vm_runs (register_cell_load h) any.
Proof.
  intros g s Hs Hc. apply (register_cell_load_ok g); [done|]. intros s' Hs' [Hsc _].
  split_and!; [done|done|by eapply same_core_code].
Qed.
Lemma vm_runs_load_library h : vm_runs (load_library h) any.
Proof.
  intros g s Hs Hc. apply (load_library_ok g); [done|]. intros o s' _ Hs' [Hsc _].
  split_and!; [done|done|by eapply same_core_code].
Qed.
Lemma vm_runs_create cb special :
  vm_runs (match create (cb_bits cb) (cb_refs cb) special with Some c => ret c | None => throw CellWriteError end) any.
Proof. intros g s Hs Hc. by destruct (create _ _ _). Qed.
Lemma vm_runs_finalize_copy special cb : vm_runs (finalize_copy special cb) any.
Proof.
  intros g s Hs Hc. unfold finalize_copy, register_cell_create, cell_create_gas_price.
  apply wp_bind, (wp_consume_ok g); [lia|apply Hs| |by intros s' Hb]. intros Hm. apply vm_runs_create; [|exact Hc].
  split; [eapply mach_mono; [|done]; lia|apply Hs].
Qed.

Lemma vm_runs_code_fetch_subslice n r pfx :
  0 <= n -> 0 <= pfx -> vm_runs (code_fetch_subslice n r pfx) slice_ok.
Proof.
  intros Hn Hp g s Hs Hc. unfold code_fetch_subslice, code_slice. unfold code_ok in Hc.
  destruct (code s) as [cs|] eqn:E; [|done]. apply wp_bind, wp_bind, wp_gets. rewrite E. apply wp_ret.
  apply wp_bind, wp_unless_throw; [intros Hb%have_spec|intros _; by apply err_post_vm].
  apply wp_bind, wp_unless_throw; [intros Hr%Nat.leb_le|intros _; by apply err_post_vm].
  apply wp_bind. unfold wp at 1, code_advance. rewrite E. unfold advance.
  rewrite (proj2 (have_spec _ cs)) by lia. cbn [default].
  apply wp_bind, wp_bind, wp_gets. cbn [code set_code_field]. apply wp_ret, wp_bind.
  match goal with |- context [fetch_subslice _ _ ?c] => set (cs1 := c) end.
  assert (slice_ok cs1) as Hcs1 by (unfold slice_ok, cs1, size in *; cbn; lia).
  destruct (fetch_subslice_some (Z.to_nat n) r cs1) as (sub & rest & -> & Hsub & Hrest & _);
    [done|unfold cs1, size in *; cbn; lia|exact Hr|].
  apply wp_ret, wp_bind, wp_modify, wp_ret. split; [done|]. split; [|exact Hrest]. by apply vm_set_code, vm_set_code.
Qed.

Lemma exec_push_ref_ok mode args pfx : handled False (exec_push_ref mode args pfx).
Proof.
  intros g s Hs Hc. apply (wp_bind (need_refs 1 pfx)), (need_refs_ok g); [done..|].
  intros s1 Hs1 Hr1. apply wp_bind, (code_fetch_ref_ok g 0); [done..|]. intros c s2 Hs2 Hr2%code_refs_ok.
  clear s s1 Hs Hc Hs1 Hr1. revert g s2 Hs2 Hr2. change (handled False
    (if mode =? 1 then cs <- load_cell_slice c ;; stack_op (push_slice cs)
     else if mode =? 2 then k <- ref_to_cont c ;; stack_op (push_cont k) else stack_op (push (t_cell c)))).
  destruct (mode =? 1); [|destruct (mode =? 2)].
  - eapply handled_bind; [apply vm_runs_load_cell_slice|]. intros cs Hcs. by apply handled_stack, runs_push.
  - eapply handled_bind; [apply vm_runs_ref_to_cont|]. intros k Hk. by apply handled_stack, runs_push.
  - apply handled_stack. solve_runs.
Qed.

Lemma land_nonneg a m : 0 <= m -> 0 <= Z.land a m.
Proof. intros Hm. apply Z.land_nonneg. by right. Qed.
Ltac bits_nonneg := pose proof land_nonneg; repeat apply Z.add_nonneg_nonneg; try apply Z.mul_nonneg_nonneg; auto with zarith.

Lemma exec_push_slice_common_ok n r pfx : 0 <= n -> 0 <= pfx -> handled False (exec_push_slice_common n r pfx).
Proof.
  intros Hn Hp. eapply handled_bind; [by apply vm_runs_code_fetch_subslice|]. intros cs Hcs.
  by apply handled_stack, runs_push, remove_trailing_ok.
Qed.
Lemma push_ord_cont_ok cs : slice_ok cs -> handled False (push_ord_cont cs).
Proof.
  intros Hcs. eapply handled_bind; [apply vm_runs_gets|]. intros c _. apply handled_stack, runs_push.
  by apply ord_cont_ok.
Qed.
Lemma exec_push_slice_ok args pfx : 0 <= pfx -> handled False (exec_push_slice args pfx).
Proof. intros Hp. apply exec_push_slice_common_ok; [bits_nonneg|done]. Qed.
Lemma exec_push_slice_r_ok args pfx : 0 <= pfx -> handled False (exec_push_slice_r args pfx).
Proof. intros Hp. apply exec_push_slice_common_ok; [bits_nonneg|done]. Qed.
Lemma exec_push_slice_r2_ok args pfx : 0 <= pfx -> handled False (exec_push_slice_r2 args pfx).
Proof. intros Hp. apply exec_push_slice_common_ok; [bits_nonneg|done]. Qed.
Lemma exec_push_cont_ok args pfx : 0 <= pfx -> handled False (exec_push_cont args pfx).
Proof.
  intros Hp. eapply handled_bind; [apply vm_runs_code_fetch_subslice; [bits_nonneg|done]|]. intros cs Hcs.
  by apply push_ord_cont_ok.
Qed.
Lemma exec_push_cont_simple_ok args pfx : 0 <= pfx -> handled False (exec_push_cont_simple args pfx).
Proof.
  intros Hp. eapply handled_bind; [apply vm_runs_code_fetch_subslice; [bits_nonneg|done]|]. intros cs Hcs.
  by apply push_ord_cont_ok.
Qed.

Lemma cell_const_ops_good : Forall registered_good register_cell_const_ops.
Proof.
  unfold register_cell_const_ops. split_Forall; apply good_of_handled; registered_tac.
  all: eauto using exec_push_ref_ok, exec_push_slice_ok, exec_push_slice_r_ok, exec_push_slice_r2_ok, exec_push_cont_ok,
    exec_push_cont_simple_ok with zarith.
Qed.
Lemma cell_cmp_ops_good : Forall registered_good register_cell_cmp_ops.
Proof.
  unfold register_cell_cmp_ops. split_Forall; apply good_of_handled; registered_tac; apply handled_stack; solve_runs.
Qed.

(** ** Serialisation *)

Lemma exec_builder_to_cell_ok : handled False exec_builder_to_cell.
Proof.
  eapply handled_bind; [apply vm_runs_on_stack; solve_runs|]. intros cb _.
  eapply handled_bind; [apply vm_runs_finalize_copy|]. intros c _. apply handled_stack. solve_runs.
Qed.
Lemma exec_builder_to_special_cell_ok : handled False exec_builder_to_special_cell.
Proof.
  eapply (handled_bind _ _ any); [apply vm_runs_on_stack; solve_runs|]. intros [special cb] _.
  eapply handled_bind; [apply vm_runs_finalize_copy|]. intros c _. apply handled_stack. solve_runs.
Qed.
Lemma exec_store_int_ok sgnd args : handled False (exec_store_int sgnd args).
Proof.
  apply handled_stack. eapply (runs_bind _ _ any); [plain_runs|]. intros _ _. apply runs_store_int_common. bits_nonneg.
Qed.
Lemma exec_store_int_var_ok args : handled False (exec_store_int_var args).
Proof.
  apply handled_stack. eapply (runs_bind _ _ any); [plain_runs|]. intros _ _.
  eapply runs_bind; [apply runs_pop_smallint; [lia|by destruct (negb (arg_bit args 0))]|]. intros n Hn. cbv beta in Hn.
  apply runs_store_int_common. lia.
Qed.
Lemma exec_store_int_fixed_ok args : handled False (exec_store_int_fixed args).
Proof.
  apply handled_stack. eapply (runs_bind _ _ any); [plain_runs|]. intros _ _. apply runs_store_int_common. bits_nonneg.
Qed.

(** Operands from the stack, then a checked store. *)
Ltac store_handler lem :=
  apply handled_stack; eapply (runs_bind _ _ any); [plain_runs|]; intros _ _;
  eapply runs_bind; [solve_runs|]; intros ? ?; eapply runs_bind; [solve_runs|]; intros ? ?;
  apply runs_store_checked; [solve_runs|intros ?; by apply runs_ensure_stored, lem].
Lemma exec_store_ref_ok quiet : handled False (exec_store_ref quiet).
Proof. store_handler store_ref_some. Qed.
Lemma exec_store_ref_rev_ok quiet : handled False (exec_store_ref_rev quiet).
Proof. store_handler store_ref_some. Qed.
Lemma exec_store_slice_ok quiet : handled False (exec_store_slice quiet).
Proof. store_handler append_slice_some. Qed.
Lemma exec_store_slice_rev_ok quiet : handled False (exec_store_slice_rev quiet).
Proof. store_handler append_slice_some. Qed.
Lemma exec_store_builder_ok quiet : handled False (exec_store_builder quiet).
Proof. store_handler append_builder_some. Qed.
Lemma exec_store_builder_rev_ok quiet : handled False (exec_store_builder_rev quiet).
Proof. store_handler append_builder_some. Qed.

Lemma store_as_ref_ok cb cb2 quiet back : runs back any -> handled False (store_as_ref cb cb2 quiet back).
Proof.
  intros Hb. unfold store_as_ref. destruct (can_extend_by 0 1 cb) eqn:E; cbn [negb].
  - eapply handled_bind; [apply vm_runs_finalize_copy|]. intros c _. apply handled_stack.
    eapply runs_bind; [by apply runs_ensure_stored, store_ref_some|]. intros cb' _. solve_runs.
  - eapply handled_bind; [by apply vm_runs_unless_throw|]. intros _ _. apply handled_stack.
    eapply runs_bind; [done|]. intros _ _. solve_runs.
Qed.
Lemma exec_store_builder_as_ref_ok quiet : handled False (exec_store_builder_as_ref quiet).
Proof.
  eapply (handled_bind _ _ any); [apply vm_runs_on_stack; solve_runs|]. intros [cb cb2] _.
  apply store_as_ref_ok. solve_runs.
Qed.
Lemma exec_store_builder_as_ref_rev_ok quiet : handled False (exec_store_builder_as_ref_rev quiet).
Proof.
  eapply (handled_bind _ _ any); [apply vm_runs_on_stack; solve_runs|]. intros [cb2 cb] _.
  apply store_as_ref_ok. solve_runs.
Qed.

Lemma store_code_refs_ok g n : forall cb s (Q : CellBuilder -> VmState -> Prop),
  vm_ok g s -> code_refs n s -> can_extend_by 0 n cb = true ->
  (forall cb' s', vm_ok g s' -> code_ok s' -> Q cb' s') -> wp (store_code_refs n cb) Q (err_post g) s.
Proof.
  induction n as [|n IH]; intros cb s Q Hs Hr Hc HQ; cbn [store_code_refs].
  - apply wp_ret, HQ; [done|by eapply code_refs_ok].
  - apply wp_bind, (code_fetch_ref_ok g n); [done..|]. intros c s1 Hs1 Hr1.
    apply can_extend_spec in Hc as [Hb Hn]. unfold remaining_refs in Hn.
    unfold store_ref_bool. rewrite (proj2 (Nat.ltb_lt _ _)) by lia.
    apply wp_bind. unfold wp at 1, on_stack. cbn [ensure_stored ret]. apply IH.
    + by destruct s1.
    + by destruct s1.
    + unfold can_extend_by, remaining_refs, remaining_bits. cbn [cb_refs cb_bits]. rewrite length_app. cbn [length].
      rewrite !(proj2 (Nat.leb_le _ _)) by (try lia; apply Nat.le_0_l). done.
    + done.
Qed.
Lemma exec_store_const_ref_ok args pfx : handled False (exec_store_const_ref args pfx).
Proof.
  intros g s Hs Hc. unfold exec_store_const_ref. cbv zeta. set (n := Z.to_nat (Z.land args 1 + 1)).
  apply (wp_bind (need_refs n pfx)), (need_refs_ok g); [done..|]. intros s1 Hs1 Hr1.
  assert (runs (check_underflow [1] ;; builder <- pop_builder ;; check_space builder 0 n ;; ret builder)
    (fun cb => can_extend_by 0 n cb = true)) as Hpop.
  { eapply (runs_bind _ _ any); [plain_runs|]. intros _ _. eapply (runs_bind _ _ any); [plain_runs|]. intros cb _.
    eapply runs_bind; [apply runs_check_space|]. intros ? Hcb. by apply runs_ret. }
  specialize (Hpop (stack s1) (rl_stack _ _ _ (proj2 (proj1 Hs1)))). apply wp_bind. unfold wp at 1, on_stack. unfold wp in Hpop.
  match type of Hpop with match ?m with _ => _ end => destruct m as [cb v|e v|] end; [|destruct Hpop as (Hv & n' & -> & Hn'); by apply err_post_vm; [|apply vm_set_stack]|done].
  destruct Hpop as [Hv Hcb]. apply wp_bind, (store_code_refs_ok g n); [by apply vm_set_stack|exact Hr1|done|].
  intros cb' s' Hs' Hc'. apply (handled_stack (push_builder cb')); [solve_runs|done|done].
Qed.

Lemma exec_store_le_int_ok args : handled False (exec_store_le_int args).
Proof.
  apply handled_stack. eapply (runs_bind _ _ any); [plain_runs|]. intros _ _.
  eapply (runs_bind _ _ any); [plain_runs|]. intros cb _. eapply (runs_bind _ _ any); [plain_runs|]. intros x _.
  eapply runs_bind; [apply runs_check_space|]. intros ? Hc. destruct x as [|z]; [by apply runs_throw|].
  eapply runs_bind; [by apply runs_unless_throw|]. intros _ _.
  eapply runs_bind; [by apply runs_ensure_stored, store_bytes_some|]. intros cb' _. solve_runs.
Qed.
Lemma exec_builder_to_slice_ok : handled False exec_builder_to_slice.
Proof.
  eapply handled_bind; [apply vm_runs_on_stack; solve_runs|]. intros cb _.
  eapply handled_bind; [apply vm_runs_create|]. intros c _. apply handled_stack, runs_push, slice_of_cell_ok.
Qed.
Lemma exec_store_const_slice_ok args pfx : 0 <= pfx -> handled False (exec_store_const_slice args pfx).
Proof.
  intros Hp. eapply handled_bind; [apply vm_runs_code_fetch_subslice; [bits_nonneg|done]|]. intros cs Hcs. cbv zeta.
  apply handled_stack. eapply (runs_bind _ _ any); [plain_runs|]. intros cb _.
  eapply runs_bind; [apply runs_check_space|]. intros ? Hc.
  eapply runs_bind; [by apply runs_ensure_stored, append_slice_some|]. intros cb' _. solve_runs.
Qed.

Lemma cell_serialize_ops_good : Forall registered_good register_cell_serialize_ops.
Proof.
  unfold register_cell_serialize_ops. split_Forall; apply good_of_handled; registered_tac.
  all: try solve [eauto using exec_builder_to_cell_ok, exec_builder_to_special_cell_ok, exec_store_int_ok,
    exec_store_int_var_ok, exec_store_int_fixed_ok, exec_store_ref_ok, exec_store_ref_rev_ok, exec_store_slice_ok,
    exec_store_slice_rev_ok, exec_store_builder_ok, exec_store_builder_rev_ok, exec_store_builder_as_ref_ok,
    exec_store_builder_as_ref_rev_ok, exec_store_const_ref_ok, exec_store_le_int_ok, exec_builder_to_slice_ok,
    exec_store_const_slice_ok with zarith].
  all: apply handled_stack; solve_runs.
Qed.

(** ** Deserialisation *)

Lemma exec_cell_to_slice_ok : handled False exec_cell_to_slice.
Proof.
  eapply (handled_bind _ _ any); [apply vm_runs_on_stack; plain_runs|]. intros c _.
  eapply handled_bind; [apply vm_runs_load_cell_slice|]. intros cs Hcs. by apply handled_stack, runs_push.
Qed.
Lemma exec_cell_to_slice_maybe_special_ok : handled False exec_cell_to_slice_maybe_special.
Proof.
  eapply (handled_bind _ _ any); [apply vm_runs_on_stack; plain_runs|]. intros c _.
  eapply handled_bind; [apply vm_runs_load_special|]. intros [cs special] Hcs. apply handled_stack. solve_runs.
Qed.
Lemma exec_load_special_cell_ok quiet : handled False (exec_load_special_cell quiet).
Proof.
  match goal with |- context [exec_load_special_cell] => cbv beta delta [exec_load_special_cell] end.
  match goal with |- context [let finish := ?f in _] => assert (forall c, handled False (f c)) as Hfin end.
  { intros c. apply handled_stack. solve_runs. }
  cbv zeta in *.
  assert (handled False (xload_failed quiet)) as Hfail.
  { eapply handled_bind; [by apply vm_runs_unless_throw|]. intros _ _. apply handled_stack. solve_runs. }
  eapply (handled_bind _ _ any); [apply vm_runs_on_stack; plain_runs|]. intros c _.
  eapply handled_bind; [apply vm_runs_gets|]. intros v _. destruct (5 <=? v); [|apply Hfin].
  eapply handled_bind; [apply vm_runs_register_cell_load|]. intros _ _.
  destruct (cell_special c); [|apply Hfin]. destruct (cell_type true (cell_bits c)) as [[]|]; try exact Hfail.
  eapply handled_bind; [apply vm_runs_load_library|]. intros [c'|] _; [apply Hfin|exact Hfail].
Qed.

Lemma exec_load_int_fixed_ok mode args : handled False (exec_load_int_fixed mode args).
Proof. apply handled_stack, runs_load_int_common. Qed.
Lemma exec_load_int_fixed2_ok args : handled False (exec_load_int_fixed2 args).
Proof. apply handled_stack, runs_load_int_common. Qed.
Lemma exec_load_int_var_ok args : handled False (exec_load_int_var args).
Proof.
  apply handled_stack. eapply (runs_bind _ _ any); [plain_runs|]. intros _ _. eapply (runs_bind _ _ any); [plain_runs|].
  intros n _. apply runs_load_int_common.
Qed.
Lemma exec_load_slice_fixed_ok args : handled False (exec_load_slice_fixed args).
Proof. apply handled_stack, runs_load_slice_common. Qed.
Lemma exec_load_slice_fixed2_ok args : handled False (exec_load_slice_fixed2 args).
Proof. apply handled_stack, runs_load_slice_common. Qed.
Lemma exec_load_slice_ok args : handled False (exec_load_slice args).
Proof.
  apply handled_stack. eapply (runs_bind _ _ any); [plain_runs|]. intros _ _. eapply (runs_bind _ _ any); [plain_runs|].
  intros n _. apply runs_load_slice_common.
Qed.
Lemma exec_preload_ref_fixed_ok args : handled False (exec_preload_ref_fixed args).
Proof. apply handled_stack, runs_preload_ref_at. Qed.
Lemma exec_preload_ref_ok : handled False exec_preload_ref.
Proof.
  apply handled_stack. eapply (runs_bind _ _ any); [plain_runs|]. intros _ _. eapply (runs_bind _ _ any); [plain_runs|].
  intros n _. apply runs_preload_ref_at.
Qed.
Lemma exec_load_ref_ok mode : handled False (exec_load_ref mode).
Proof.
  apply handled_stack. eapply runs_bind; [apply runs_pop_cellslice|]. intros cs Hcs.
  destruct (have_refs 1 cs) eqn:Er; cbn [negb]; [|solve_runs]. apply Nat.leb_le in Er.
  eapply (runs_bind _ _ any); [|intros _ _; solve_runs]. destruct (arg_bit mode 1).
  - destruct (prefetch_ref_some 0 cs Hcs) as [c ->]; [lia|]. eapply (runs_bind _ _ any); [by apply runs_ret|].
    intros c' _. solve_runs.
  - destruct (fetch_ref_some cs Hcs Er) as (c & rest & -> & Hrest).
    eapply (runs_bind _ _ (eq (c, rest))); [by apply runs_ret|]. intros p <-. solve_runs.
Qed.
Lemma exec_load_ref_rev_to_slice_ok mode : handled False (exec_load_ref_rev_to_slice mode).
Proof.
  eapply handled_bind; [apply vm_runs_on_stack, runs_pop_cellslice|]. intros cs Hcs.
  destruct (have_refs 1 cs) eqn:Er; cbn [negb].
  - apply Nat.leb_le in Er. eapply (handled_bind _ _ any); [|intros _ _; apply handled_stack; solve_runs].
    destruct (arg_bit mode 1).
    + destruct (prefetch_ref_some 0 cs Hcs) as [c ->]; [lia|]. eapply (vm_runs_bind _ _ any); [by apply vm_runs_ret|].
      intros c' _. eapply vm_runs_bind; [apply vm_runs_load_cell_slice|]. intros sl Hsl. by apply vm_runs_on_stack, runs_push.
    + destruct (fetch_ref_some cs Hcs Er) as (c & rest & -> & Hrest).
      eapply (vm_runs_bind _ _ (eq (c, rest))); [by apply vm_runs_ret|]. intros p <-.
      eapply vm_runs_bind; [by apply vm_runs_on_stack, runs_push|]. intros _ _.
      eapply vm_runs_bind; [apply vm_runs_load_cell_slice|]. intros sl Hsl. by apply vm_runs_on_stack, runs_push.
  - eapply handled_bind; [by apply vm_runs_unless_throw|]. intros _ _. apply handled_stack. solve_runs.
Qed.

(** Cuts. *)
Lemma exec_slice_op_args_ok max func :
  (forall n cs cs', slice_ok cs -> func n cs = Some cs' -> slice_ok cs') -> handled False (exec_slice_op_args max func).
Proof.
  intros Hf. apply handled_stack. eapply (runs_bind _ _ any); [plain_runs|]. intros _ _.
  eapply (runs_bind _ _ any); [plain_runs|]. intros n _. eapply runs_bind; [apply runs_pop_cellslice|]. intros cs Hcs.
  apply runs_push_cut. intros cs'. by apply Hf.
Qed.
Lemma exec_slice_op_args2_ok max max2 func :
  (forall n m cs cs', slice_ok cs -> func n m cs = Some cs' -> slice_ok cs') ->
  handled False (exec_slice_op_args2 max max2 func).
Proof.
  intros Hf. apply handled_stack. eapply (runs_bind _ _ any); [plain_runs|]. intros _ _.
  eapply (runs_bind _ _ any); [plain_runs|]. intros m _. eapply (runs_bind _ _ any); [plain_runs|]. intros n _.
  eapply runs_bind; [apply runs_pop_cellslice|]. intros cs Hcs. apply runs_push_cut. intros cs'. by apply Hf.
Qed.
Lemma exec_slice_begins_with_ok quiet : handled False (exec_slice_begins_with quiet).
Proof.
  apply handled_stack. eapply (runs_bind _ _ any); [plain_runs|]. intros _ _.
  eapply runs_bind; [apply runs_pop_cellslice|]. intros cs _. apply runs_begins_with.
Qed.
Lemma exec_slice_begins_with_const_ok args pfx : 0 <= pfx -> handled False (exec_slice_begins_with_const args pfx).
Proof.
  intros Hp. eapply handled_bind; [apply vm_runs_code_fetch_subslice; [bits_nonneg|done]|]. intros cs Hcs.
  apply handled_stack, runs_begins_with.
Qed.
Lemma exec_subslice_ok : handled False exec_subslice.
Proof.
  apply handled_stack. eapply (runs_bind _ _ any); [plain_runs|]. intros _ _.
  do 4 (eapply (runs_bind _ _ any); [plain_runs|]; intros ? _).
  eapply runs_bind; [apply runs_pop_cellslice|]. intros cs Hcs. apply runs_push_cut. intros cs'.
  destruct (skip_first _ _ cs) eqn:E; [|done]. apply only_first_ok. by eapply skip_first_ok.
Qed.
Lemma exec_split_ok quiet : handled False (exec_split quiet).
Proof.
  apply handled_stack. eapply (runs_bind _ _ any); [plain_runs|]. intros _ _.
  do 2 (eapply (runs_bind _ _ any); [plain_runs|]; intros ? _).
  eapply runs_bind; [apply runs_pop_cellslice|]. intros cs Hcs. cbv zeta. destruct (_ || _); [solve_runs|].
  eapply runs_bind; [apply runs_push; destruct (only_first _ _ cs) eqn:E; [by eapply only_first_ok|done]|]. intros _ _.
  eapply runs_bind; [apply runs_push; destruct (skip_first _ _ cs) eqn:E; [by eapply skip_first_ok|done]|]. intros _ _.
  solve_runs.
Qed.
Lemma exec_load_le_int_ok args : handled False (exec_load_le_int args).
Proof.
  apply handled_stack. eapply (runs_bind _ _ any); [plain_runs|]. intros _ _.
  eapply runs_bind; [apply runs_pop_cellslice|]. intros cs Hcs. set (len := if arg_bit args 1 then 8%nat else 4%nat).
  destruct (have (8 * len) cs) eqn:Eh; cbn [negb]; [|solve_runs].
  eapply (runs_bind _ _ any); [plain_runs|]. intros _ _. eapply (runs_bind _ _ any); [|intros _ _; solve_runs].
  destruct (arg_bit args 2); cbn [negb]; [by apply runs_ret|]. pose proof (adv_ok (8 * len) cs Hcs) as Ha.
  unfold advance in *. rewrite Eh in *. eapply (runs_bind _ _ slice_ok); [by apply runs_ret|]. intros cs' Hcs'.
  by apply runs_push.
Qed.
Lemma exec_load_same_ok x : handled False (exec_load_same x).
Proof.
  apply handled_stack. eapply (runs_bind _ _ any); [plain_runs|]. intros _ _.
  eapply (runs_bind _ _ any); [solve_runs|]. intros b _.
  eapply runs_bind; [apply runs_pop_cellslice|]. intros cs Hcs. cbv zeta.
  eapply runs_bind; [plain_runs|]. intros _ _. apply runs_push. case_match; [by apply adv_ok|done].
Qed.

Lemma cell_deserialize_ops_good : Forall registered_good register_cell_deserialize_ops.
Proof.
  unfold register_cell_deserialize_ops. split_Forall; apply good_of_handled; registered_tac.
  all: try solve [eauto using exec_cell_to_slice_ok, exec_cell_to_slice_maybe_special_ok, exec_load_special_cell_ok,
    exec_load_int_fixed_ok, exec_load_int_fixed2_ok, exec_load_int_var_ok, exec_load_slice_fixed_ok,
    exec_load_slice_fixed2_ok, exec_load_slice_ok, exec_preload_ref_fixed_ok, exec_preload_ref_ok, exec_load_ref_ok,
    exec_load_ref_rev_to_slice_ok, exec_slice_begins_with_ok, exec_slice_begins_with_const_ok, exec_subslice_ok,
    exec_split_ok, exec_load_le_int_ok, exec_load_same_ok with zarith].
  all: try (apply exec_slice_op_args_ok; eauto using only_first_ok, skip_first_ok, only_last_ok, skip_last_ok; fail).
  all: try (apply exec_slice_op_args2_ok; eauto using only_first_ok, skip_first_ok, only_last_ok, skip_last_ok, substr_ok; fail).
  all: apply handled_stack; solve_runs.
Qed.
Lemma cell_ops_good : Forall registered_good register_cell_ops.
Proof.
  unfold register_cell_ops. rewrite !Forall_app.
  auto using cell_const_ops_good, cell_cmp_ops_good, cell_serialize_ops_good, cell_deserialize_ops_good.
Qed.
End cell_ops.
