(* ===== verification/CellOpsSpec.v ===== *)
(** * Writing data to a cell and reading it back

    Integers, references and bit strings are stored into a builder, the builder becomes
    a cell, the cell a slice, and the same fields are loaded: the instructions give
    back what was stored. *)
From S2P Require Import Prelude BigInt Int256 Cells DataCell Dict DictLabel DictNode DictObj DictSafety VmTypes Stack OpcodeTable StackOps Vm ContOps DictOps DictOpsSpec CellOps VmInvariant Control InstrSafety ContSafety DictOpsSafety CellOpsSafety.

(** ** Integers as bits *)

Lemma int_bits_value x n sgnd :
  fits_bits (Int x) (Z.of_nat n) sgnd = true -> bits_value sgnd (Z_to_bits n x) = x.
Proof.
  unfold fits_bits, bits_value. intros Hf. pose proof (bits_to_Z_of_Z n x) as Hz. destruct sgnd; cbn in Hf.
  - destruct n as [|n].
    { destruct (Z.eqb_spec x 0); [by subst|done]. }
    assert (- 2 ^ Z.of_nat n <= x < 2 ^ Z.of_nat n) as Hx.
    { destruct (Z.eqb_spec x 0) as [->|]; [pose proof (pow2_pos (Z.of_nat n)); lia|].
      destruct (_ <=? _); [done|]. apply fits_s_spec in Hf. by replace (Z.of_nat (S n) - 1) with (Z.of_nat n) in Hf by lia. }
    pose proof (pow2_pos (Z.of_nat n) ltac:(lia)) as Hp.
    assert (2 ^ Z.of_nat (S n) = 2 * 2 ^ Z.of_nat n) as Hpow by (rewrite Nat2Z.inj_succ, Z.pow_succ_r; lia).
    cbn [Z_to_bits] in *. unfold bits_to_Z_signed. cbn [length]. rewrite Z_to_bits_length.
    assert (Z.testbit x (Z.of_nat n) = (x <? 0)) as Hb.
    { destruct (Z.ltb_spec x 0).
      - apply Z.testbit_true; [lia|].
        replace (x / 2 ^ Z.of_nat n) with (-1); [done|]. apply (Z.div_unique _ _ _ (x + 2 ^ Z.of_nat n)); lia.
      - apply Z.testbit_false; [lia|]. by rewrite Z.div_small by lia. }
    rewrite Hb in *. destruct (Z.ltb_spec x 0); rewrite Hz, Hpow.
    + rewrite <- (Z.mod_unique x (2 * 2 ^ Z.of_nat n) (-1) (x + 2 * 2 ^ Z.of_nat n)) by lia. lia.
    + apply Z.mod_small. lia.
  - rewrite Hz. apply Z.mod_small. pose proof (pow2_pos (Z.of_nat n) ltac:(lia)). destruct (Z.ltb_spec x 0); [done|].
    destruct (Z.eqb_spec x 0); [lia|]. destruct (_ <? _) in Hf; [done|]. apply Z.ltb_lt in Hf. lia.
Qed.

(** ** Fields *)

Inductive field : Type :=
| FInt (sgnd : bool) (n : nat) (x : Z)
| FRef (c : Cell)
| FBits (cs : CellSlice).

Definition field_ok (f : field) : Prop :=
  match f with
  | FInt sgnd n x => Z.of_nat n <= 256 + Z.b2z sgnd /\ fits_bits (Int x) (Z.of_nat n) sgnd = true
  | FRef _ => True
  | FBits cs => slice_ok cs /\ size_refs cs = 0%nat
  end.
Definition field_bits (f : field) : list bool :=
  match f with FInt _ n x => Z_to_bits n x | FRef _ => [] | FBits cs => slice_bits cs end.
Definition field_refs (f : field) : list Cell := match f with FRef c => [c] | _ => [] end.

(** What a load puts on the stack: the integer, the cell, or a slice with the bits. *)
Definition field_entry (f : field) (e : StackEntry) : Prop :=
  match f with
  | FInt _ _ x => e = t_int (Int x)
  | FRef c => e = t_cell c
  | FBits cs => exists cs', e = t_slice cs' /\ slice_is cs' (slice_bits cs) []
  end.

Section programs.
Context `{Sha256} `{LibDict}.

(** STIXR or STUXR, STREFR, STSLICER; LDIX or LDUX, LDREF, LDSLICEX. *)
Definition store_field (f : field) : M VmState Z :=
  match f with
  | FInt sgnd n x =>
      on_stack (push (t_int (Int x)) ;; push_smallint (Z.of_nat n)) ;; exec_store_int_var (2 + Z.b2z (negb sgnd))
  | FRef c => on_stack (push (t_cell c)) ;; exec_store_ref_rev false
  | FBits cs => on_stack (push_slice cs) ;; exec_store_slice_rev false
  end.
Definition load_field (f : field) : M VmState Z :=
  match f with
  | FInt sgnd n _ => on_stack (push_smallint (Z.of_nat n)) ;; exec_load_int_var (Z.b2z (negb sgnd))
  | FRef _ => exec_load_ref 0
  | FBits cs => on_stack (push_smallint (Z.of_nat (size cs))) ;; exec_load_slice 0
  end.
Fixpoint each {A} (m : A -> M VmState Z) (l : list A) : M VmState Z :=
  match l with [] => ret 0 | a :: l' => m a ;; each m l' end.

(** NEWC, the stores, ENDC, CTOS, the loads, ENDS. *)
Definition write_and_read (fs : list field) : M VmState Z :=
  exec_new_builder ;; each store_field fs ;; exec_builder_to_cell ;;
  exec_cell_to_slice ;; each load_field fs ;; exec_slice_chk_empty.

(** *** Exact runs *)

Lemma stack_op_exact m v v' s : m v = Ret tt v' -> stack_op m (set_stack v s) = Ret 0 (set_stack v' s).
Proof. intros Hm. unfold stack_op, bind, on_stack. cbn [stack set_stack]. rewrite Hm. by destruct s. Qed.
Lemma on_stack_exact {A B} (m : M Stack A) a (k : A -> M VmState B) v v' s :
  m v = Ret a v' -> (x <- on_stack m ;; k x) (set_stack v s) = k a (set_stack v' s).
Proof. intros Hm. unfold bind, on_stack. cbn [stack set_stack]. rewrite Hm. by destruct s. Qed.
Lemma underflow_run {A} k (m : M Stack A) v : at_least v k = true -> (check_underflow [k] ;; m) v = m v.
Proof. intros Hk. unfold check_underflow, bind, gets. cbn [forallb]. by rewrite Hk. Qed.
Lemma pop_builder_exact cb v : pop_builder (t_builder cb :: v) = Ret cb v.
Proof. unfold pop_builder. by rewrite checked_pop. Qed.
Lemma pop_cell_exact c v : pop_cell (t_cell c :: v) = Ret c v.
Proof. unfold pop_cell. by rewrite checked_pop. Qed.
Lemma pop_cellslice_exact cs v : pop_cellslice (t_slice cs :: v) = Ret cs v.
Proof. unfold pop_cellslice. by rewrite checked_pop. Qed.
Lemma at_least_2 e e' v : at_least (e :: e' :: v) 2 = true.
Proof. unfold at_least, depth. apply Z.leb_le. cbn [length]. lia. Qed.
Lemma at_least_3 e e' e2 v : at_least (e :: e' :: e2 :: v) 3 = true.
Proof. unfold at_least, depth. apply Z.leb_le. cbn [length]. lia. Qed.

(** A store appends the field. *)
Lemma store_field_run f bits refs v s :
  field_ok f -> (length bits + length (field_bits f) <= max_bits)%nat ->
  (length refs + length (field_refs f) <= max_refs)%nat ->
  store_field f (set_stack (t_builder (mkBuilder bits refs) :: v) s) =
  Ret 0 (set_stack (t_builder (mkBuilder (bits ++ field_bits f) (refs ++ field_refs f)) :: v) s).
Proof.
  intros Hf Hb Hr.
  assert (forall n m : nat, (length bits + n <= max_bits)%nat -> (length refs + m <= max_refs)%nat ->
    can_extend_by n m (mkBuilder bits refs) = true) as Hroom.
  { intros n m Hn Hm. unfold can_extend_by, remaining_bits, remaining_refs. cbn [cb_bits cb_refs].
    by rewrite !(proj2 (Nat.leb_le _ _)) by lia. }
  destruct f as [sgnd n x|c|cs]; cbn [store_field field_bits field_refs field_ok length] in *.
  - destruct Hf as [Hn Hf]. rewrite Z_to_bits_length in Hb.
    etransitivity; [by apply on_stack_exact|]. apply stack_op_exact.
    assert (arg_bit (2 + Z.b2z (negb sgnd)) 0 = negb sgnd /\ arg_bit (2 + Z.b2z (negb sgnd)) 1 = true /\
      arg_bit (2 + Z.b2z (negb sgnd)) 2 = false) as (A0 & A1 & A2) by (by destruct sgnd).
    rewrite underflow_run by apply at_least_3. unfold exec_store_int_common. rewrite A0, A1, A2, negb_involutive.
    unfold bind. rewrite pop_smallint_exact by (destruct sgnd; cbn in *; lia). cbn [negb].
    rewrite pop_int_exact, pop_builder_exact. cbn [ret]. rewrite Nat2Z.id, Hroom, Hf by lia. cbn [negb].
    destruct (store_int_some (Int x) (Z.of_nat n) sgnd (mkBuilder bits refs)) as [cb' Hs];
      [lia|rewrite Nat2Z.id; apply Hroom; lia|done|]. rewrite Nat2Z.id in Hs. rewrite Hs. cbn.
    unfold store_int256_bool in Hs. destruct (_ && _) in Hs; [|done]. injection Hs as <-. by rewrite app_nil_r.
  - etransitivity; [by apply on_stack_exact|]. apply stack_op_exact. rewrite underflow_run by apply at_least_2.
    unfold bind. rewrite pop_cell_exact, pop_builder_exact. unfold store_checked. rewrite Hroom by lia. cbn [negb].
    unfold bind, store_ref_bool. cbn [cb_refs cb_bits]. rewrite (proj2 (Nat.ltb_lt _ _)) by lia. cbn. by rewrite app_nil_r.
  - destruct Hf as [Hcs Hr0]. rewrite slice_bits_length in Hb by done.
    etransitivity; [by apply on_stack_exact|]. apply stack_op_exact. rewrite underflow_run by apply at_least_2.
    unfold bind. rewrite pop_cellslice_exact, pop_builder_exact. unfold store_checked.
    rewrite Hroom by lia. cbn [negb]. unfold bind, append_cellslice_bool. rewrite Hroom by lia. cbn.
    assert (slice_refs cs = []) as ->; [|done]. apply nil_length_inv. by rewrite slice_refs_length.
Qed.

(** *** Loads *)

Lemma slice_is_fetch_ref cs bits c refs :
  slice_is cs bits (c :: refs) -> exists cs', fetch_ref cs = Some (c, cs') /\ slice_is cs' bits refs.
Proof.
  intros Hcs. pose proof (slice_is_size _ _ _ Hcs) as [_ Hs]. pose proof (slice_is_ref cs _ _ 0 Hcs) as Hc.
  destruct Hcs as [Hb Hr Hok]. cbn [length] in Hs. unfold prefetch_ref in Hc.
  rewrite (proj2 (Nat.ltb_lt _ _)), Nat.add_0_r in Hc by lia. cbn in Hc.
  unfold fetch_ref, have_refs. rewrite (proj2 (Nat.leb_le _ _)), Hc by lia. eexists. split; [done|].
  unfold size_refs in Hs. split; [done| |unfold slice_ok in *; cbn; lia].
  unfold slice_refs in *. cbn. rewrite (drop_S _ _ _ Hc) in Hr.
  replace (refs_en cs - refs_st cs)%nat with (S (refs_en cs - S (refs_st cs))) in Hr by lia. by injection Hr.
Qed.
Lemma slice_is_fetch_subslice cs n bits refs :
  slice_is cs bits refs -> (n <= length bits)%nat ->
  exists sub cs', fetch_subslice n 0 cs = Some (sub, cs') /\ slice_is sub (take n bits) [] /\ slice_is cs' (drop n bits) refs.
Proof.
  intros Hcs Hn. pose proof (slice_is_adv _ _ _ _ Hcs Hn) as Ha. pose proof (slice_is_size _ _ _ Hcs) as [Hs _].
  unfold fetch_subslice, have2. rewrite (slice_is_have _ _ _ _ Hcs Hn). cbn [andb have_refs Nat.leb].
  do 2 eexists. split; [done|]. destruct Hcs as [Hb Hr [Hok1 Hok2]]. split.
  - unfold size in Hs. split; [|unfold slice_refs; cbn; by rewrite Nat.add_0_r, Nat.sub_diag|unfold slice_ok; cbn; lia].
    rewrite <- Hb. unfold slice_bits. cbn. replace (bits_st cs + n - bits_st cs)%nat with n by lia.
    rewrite take_take. f_equal. lia.
  - unfold advance_refs. cbn [have_refs Nat.leb default]. set (cs1 := default cs (advance n cs)) in *.
    destruct Ha as [Hb' Hr' Hok']. split.
    + done.
    + rewrite <- Hr'. unfold slice_refs. cbn. by rewrite Nat.add_0_r.
    + unfold slice_ok in *. cbn. lia.
Qed.

Lemma push_int_257 x v : fits_s 257 x = true -> push_int (Int x) v = Ret tt (t_int (Int x) :: v).
Proof. intros Hf. unfold push_int, bind, signed_fits_bits. rewrite Hf. by destruct (x =? 0). Qed.
Lemma field_int_257 sgnd n x :
  Z.of_nat n <= 256 + Z.b2z sgnd -> fits_bits (Int x) (Z.of_nat n) sgnd = true -> fits_s 257 x = true.
Proof.
  intros Hn Hf. apply fits_s_spec. change (257 - 1) with 256. unfold fits_bits in Hf. destruct sgnd; cbn in Hf, Hn.
  - destruct (Z.eqb_spec x 0); [lia|]. destruct (Z.leb_spec (Z.of_nat n) 0); [done|]. apply fits_s_spec in Hf.
    pose proof (Z.pow_le_mono_r 2 (Z.of_nat n - 1) 256 ltac:(lia) ltac:(lia)). lia.
  - destruct (Z.ltb_spec x 0); [done|]. destruct (Z.eqb_spec x 0); [lia|]. destruct (_ <? _) in Hf; [done|].
    apply Z.ltb_lt in Hf. pose proof (Z.pow_le_mono_r 2 (Z.of_nat n) 256 ltac:(lia) ltac:(lia)). lia.
Qed.

(** A load gives back the field and the rest of the slice. *)
Lemma load_field_run f cs bits refs v s :
  field_ok f -> slice_is cs (field_bits f ++ bits) (field_refs f ++ refs) -> (size cs <= 1023)%nat ->
  exists e cs', load_field f (set_stack (t_slice cs :: v) s) = Ret 0 (set_stack (t_slice cs' :: e :: v) s) /\
    field_entry f e /\ slice_is cs' bits refs.
Proof.
  intros Hf Hcs Hsz. pose proof (slice_is_size _ _ _ Hcs) as [Hs1 Hs2].
  destruct f as [sgnd n x|c|cs0]; cbn [load_field field_bits field_refs field_ok field_entry app] in *.
  - destruct Hf as [Hn Hf]. rewrite length_app, Z_to_bits_length in Hs1.
    pose proof (slice_is_have cs n _ _ Hcs) as Hh. rewrite length_app, Z_to_bits_length in Hh. specialize (Hh ltac:(lia)).
    pose proof (slice_is_adv cs n _ _ Hcs) as Ha. rewrite length_app, Z_to_bits_length in Ha. specialize (Ha ltac:(lia)).
    rewrite drop_app_length' in Ha by (by rewrite Z_to_bits_length).
    exists (t_int (Int x)), (default cs (advance n cs)). split; [|done].
    etransitivity; [by apply on_stack_exact|]. apply stack_op_exact.
    assert (arg_bit (Z.land (Z.b2z (negb sgnd)) 7) 0 = negb sgnd /\ arg_bit (Z.land (Z.b2z (negb sgnd)) 7) 1 = false /\
      arg_bit (Z.land (Z.b2z (negb sgnd)) 7) 2 = false) as (A0 & A1 & A2) by (by destruct sgnd).
    rewrite underflow_run by apply at_least_2. unfold exec_load_int_common. rewrite A0, A1, A2, negb_involutive.
    replace (257 - Z.land (Z.b2z (negb sgnd)) 1) with (256 + Z.b2z sgnd) by (by destruct sgnd).
    unfold bind. rewrite pop_smallint_exact by (destruct sgnd; cbn [Z.b2z] in *; lia). rewrite pop_cellslice_exact.
    rewrite Nat2Z.id, Hh. cbn [negb]. unfold fetch_int256. rewrite Hh. cbn [of_option ret].
    rewrite (is_bits _ _ _ Hcs), take_app_length' by (by rewrite Z_to_bits_length). rewrite int_bits_value by done.
    by rewrite push_int_257 by (by eapply field_int_257).
  - destruct (slice_is_fetch_ref _ _ _ _ Hcs) as (cs' & Hfetch & Hcs'). exists (t_cell c), cs'. split; [|done].
    apply stack_op_exact. unfold bind. rewrite pop_cellslice_exact. unfold have_refs.
    rewrite (proj2 (Nat.leb_le 1 _)) by (rewrite Hs2; cbn; lia). cbn [negb]. rewrite Hfetch. done.
  - destruct Hf as [Hok Hr]. rewrite length_app, slice_bits_length in Hs1 by done.
    destruct (slice_is_fetch_subslice cs (size cs0) _ _ Hcs) as (sub & cs' & Hfetch & Hsub & Hcs');
      [rewrite length_app, slice_bits_length by done; lia|].
    rewrite take_app_length', drop_app_length' in * by (by rewrite slice_bits_length).
    exists (t_slice sub), cs'. split; [|split; [by exists sub|done]].
    etransitivity; [by apply on_stack_exact|]. apply stack_op_exact. rewrite underflow_run by apply at_least_2.
    unfold exec_load_slice_common, bind. rewrite pop_smallint_exact by lia. rewrite pop_cellslice_exact, Nat2Z.id.
    rewrite (proj2 (have_spec _ cs)) by lia. cbn [negb]. rewrite Hfetch. done.
Qed.

(** *** The whole program *)

Definition all_bits (fs : list field) : list bool := concat (map field_bits fs).
Definition all_refs (fs : list field) : list Cell := concat (map field_refs fs).

Lemma each_cons {A} (m : A -> M VmState Z) a l s s' : m a s = Ret 0 s' -> each m (a :: l) s = each m l s'.
Proof. intros Hm. cbn [each]. unfold bind. by rewrite Hm. Qed.
Lemma store_fields_run fs : forall bits refs v s,
  Forall field_ok fs -> (length bits + length (all_bits fs) <= max_bits)%nat ->
  (length refs + length (all_refs fs) <= max_refs)%nat ->
  each store_field fs (set_stack (t_builder (mkBuilder bits refs) :: v) s) =
  Ret 0 (set_stack (t_builder (mkBuilder (bits ++ all_bits fs) (refs ++ all_refs fs)) :: v) s).
Proof.
  unfold all_bits, all_refs. induction fs as [|f fs IH]; intros bits refs v s Hok Hb Hr; cbn [map concat] in *.
  { by rewrite !app_nil_r. }
  apply Forall_cons_1 in Hok as [Hf Hok]. rewrite !length_app in *.
  rewrite (each_cons _ _ _ _ _ (store_field_run f bits refs v s Hf ltac:(lia) ltac:(lia))).
  rewrite IH by (try done; rewrite length_app; lia). by rewrite !app_assoc.
Qed.
Lemma load_fields_run fs : forall cs v s,
  Forall field_ok fs -> slice_is cs (all_bits fs) (all_refs fs) -> (size cs <= 1023)%nat ->
  exists es cs', each load_field fs (set_stack (t_slice cs :: v) s) = Ret 0 (set_stack (t_slice cs' :: rev es ++ v) s) /\
    Forall2 field_entry fs es /\ slice_is cs' [] [].
Proof.
  unfold all_bits, all_refs. induction fs as [|f fs IH]; intros cs v s Hok Hcs Hsz; cbn [map concat] in *.
  { exists [], cs. split; [done|]. by split; [constructor|]. }
  apply Forall_cons_1 in Hok as [Hf Hok].
  destruct (load_field_run f cs _ _ v s Hf Hcs Hsz) as (e & cs1 & Hrun & He & Hcs1).
  assert (size cs1 <= 1023)%nat as Hsz1.
  { rewrite (proj1 (slice_is_size _ _ _ Hcs1)). rewrite (proj1 (slice_is_size _ _ _ Hcs)), length_app in Hsz. lia. }
  destruct (IH cs1 (e :: v) s Hok Hcs1 Hsz1) as (es & cs' & Hrun' & Hes & Hcs').
  exists (e :: es), cs'. split; [|by split; [constructor|]].
  rewrite (each_cons _ _ _ _ _ Hrun), Hrun'. cbn [rev]. by rewrite <- app_assoc.
Qed.

Lemma create_sizes bits refs c :
  create bits refs false = Some c ->
  c = DataCell false bits refs /\ (length bits <= max_bits)%nat /\ (length refs <= max_refs)%nat.
Proof.
  unfold create. destruct (cell_info _) as [i|] eqn:E; [|done]. intros [= <-]. split; [done|].
  cbn [cell_info] in E. destruct (mapM id _); [|done]. destruct (_ || _) eqn:Es; [done|].
  apply orb_false_iff in Es as [?%Nat.ltb_ge ?%Nat.ltb_ge]. done.
Qed.

(** The price of loading a cell. *)
Definition load_price (c : Cell) (s : VmState) : Z :=
  if bool_decide (get_hash c ∈ loaded_cells s) then cell_reload_gas_price else cell_load_gas_price.

Lemma wp_make_cell cb c v (k : M VmState Z) (Q : Z -> VmState -> Prop) E s :
  create (cb_bits cb) (cb_refs cb) false = Some c -> 500 <= gas_remaining (gas s) < 2 ^ 63 ->
  wp k Q E (set_stack (t_cell c :: v) (spend 500 s)) ->
  wp (exec_builder_to_cell ;; k) Q E (set_stack (t_builder cb :: v) s).
Proof.
  intros Hc Hg Hk. apply wp_bind. unfold exec_builder_to_cell. unfold wp.
  rewrite (on_stack_exact _ cb _ _ v); [|rewrite underflow_run by apply at_least_cons; apply pop_builder_exact].
  unfold finalize_copy, register_cell_create, cell_create_gas_price. rewrite Hc.
  apply wp_bind, wp_bind, wp_consume_gas; [lia|cbn; lia| |cbn; lia]. intros _. apply wp_ret. destruct s. exact Hk.
Qed.
(** An ordinary cell is loaded in one round. *)
Lemma load_loop_ordinary fuel bits refs :
  let c := DataCell false bits refs in
  load_cell_loop (S fuel) c false false = (register_cell_load (get_hash c) ;; ret c).
Proof. done. Qed.
Lemma wp_open_cell bits refs v (k : M VmState Z) (Q : Z -> VmState -> Prop) E s :
  let c := DataCell false bits refs in
  100 <= gas_remaining (gas s) < 2 ^ 63 ->
  (forall s', code s' = code s -> cr s' = cr s -> gas_remaining (gas s') = gas_remaining (gas s) - load_price c s ->
     wp k Q E (set_stack (t_slice (slice_of_cell c) :: v) s')) ->
  wp (exec_cell_to_slice ;; k) Q E (set_stack (t_cell c :: v) s).
Proof.
  intros c Hg Hk. apply wp_bind. unfold exec_cell_to_slice. unfold wp.
  rewrite (on_stack_exact _ c _ _ v) by apply pop_cell_exact. unfold load_cell_slice.
  assert (exists fuel, load_cell_fuel = S fuel) as [fuel ->] by (by eexists). unfold c. rewrite load_loop_ordinary. fold c.
  apply wp_bind, wp_bind, wp_bind, wp_bind, wp_gets.
  unfold load_price in Hk. change (loaded_cells (set_stack v s)) with (loaded_cells s).
  unfold cell_reload_gas_price, cell_load_gas_price in *.
  case_bool_decide.
  - apply wp_consume_gas; [lia|cbn; lia| |cbn; lia]. intros _. apply wp_ret.
    apply (Hk (spend 25 s)); by destruct s.
  - apply wp_bind, wp_modify, wp_consume_gas; [lia|cbn; lia| |cbn; lia]. intros _. apply wp_ret.
    apply (Hk (spend 100 (set_loaded_cells (get_hash c :: loaded_cells s) s))); by destruct s.
Qed.
End programs.

Section roundtrip.
Context `{Sha256} `{LibDict}.

Lemma chk_empty_run cs v s :
  slice_is cs [] [] -> exec_slice_chk_empty (set_stack (t_slice cs :: v) s) = Ret 0 (set_stack v s).
Proof.
  intros [Hs Hr]%slice_is_size. apply stack_op_exact. unfold bind. rewrite pop_cellslice_exact.
  unfold cs_empty, no_refs. by rewrite Hs, Hr.
Qed.
Lemma wp_exact {A B} (m : M VmState A) a (k : A -> M VmState B) (Q : B -> VmState -> Prop) E s s' :
  m s = Ret a s' -> wp (k a) Q E s' -> wp (bind m k) Q E s.
Proof. intros Hm Hk. unfold wp, bind in *. by rewrite Hm. Qed.
End roundtrip.

(** C34: storing fields into a builder and loading them from the cell it becomes is the
    identity. For any list of fields (integers of any width that fit it, references,
    bit strings) whose bits and references make a valid cell, the program NEWC, STIXR or
    STUXR, STREFR or STSLICER for each field, ENDC, CTOS, LDIX or LDUX, LDREF or LDSLICEX
    for each field, ENDS returns normally with exactly the values stored on the stack, in
    order, over what was there; ENDS finds the slice empty. Code and registers are as
    before, and the gas spent beyond the instructions' own is 500 for the new cell and
    100 or 25 for loading it. *)
Theorem cell_fields_roundtrip `{Sha256} `{LibDict} fs c s :
  Forall field_ok fs -> create (all_bits fs) (all_refs fs) false = Some c ->
  600 <= gas_remaining (gas s) < 2 ^ 63 ->
  exists es s', write_and_read fs s = Ret 0 s' /\ Forall2 field_entry fs es /\
    stack s' = rev es ++ stack s /\ code s' = code s /\ cr s' = cr s /\
    gas_remaining (gas s') = gas_remaining (gas s) - 500 - load_price c s.
Proof.
  intros Hok Hc Hg. destruct (create_sizes _ _ _ Hc) as (Hcell & Hb & Hr).
  enough (wp (write_and_read fs) (fun z s' => z = 0 /\ exists es, Forall2 field_entry fs es /\
    stack s' = rev es ++ stack s /\ code s' = code s /\ cr s' = cr s /\
    gas_remaining (gas s') = gas_remaining (gas s) - 500 - load_price c s) (fun _ _ => False)
    (set_stack (stack s) s)) as Hwp.
  { replace (set_stack (stack s) s) with s in Hwp by (by destruct s).
    unfold wp in Hwp. destruct (write_and_read fs s) as [z s'| |]; [|done..].
    destruct Hwp as [-> (es & Hes & Hs')]. by exists es, s'. }
  unfold write_and_read. eapply wp_exact; [by apply stack_op_exact|].
  eapply wp_exact; [by apply (store_fields_run fs [] [] (stack s) s Hok)|]. cbn [app].
  apply (wp_make_cell _ c); [done|lia|]. subst c. apply wp_open_cell; [destruct s; cbn in *; lia|].
  intros s1 Hcode Hcr Hgas.
  destruct (load_fields_run fs (slice_of_cell (DataCell false (all_bits fs) (all_refs fs))) (stack s) s1 Hok)
    as (es & cs & Hload & Hes & Hcs); [apply slice_of_cell_is|by rewrite (proj1 (slice_is_size _ _ _ (slice_of_cell_is _)))|].
  eapply wp_exact; [exact Hload|]. unfold wp. rewrite chk_empty_run by done.
  split; [done|]. exists es. destruct s, s1; cbn in *. by repeat split.
Qed.

#[local] Instance toy_hash : Sha256 := toy_sha.
(** A signed integer of 8 bits, an unsigned one of 16, and a reference. *)
Definition example_fields : list field :=
  [FInt true 8 (-5); FInt false 16 40000; FRef (DataCell false [true] []); FBits (slice_of_cell (DataCell false [true; false] []))].
Definition example_vm : VmState := new_vm (Some get_empty_dictionary) 11 [t_null] (new_gas 1000 1000 0) 0 None [] None.
Lemma cell_fields_roundtrip_witness :
  exists es s', write_and_read example_fields example_vm = Ret 0 s' /\ Forall2 field_entry example_fields es /\
    stack s' = rev es ++ [t_null] /\ gas_remaining (gas s') = 400.
Proof.
  destruct (cell_fields_roundtrip example_fields
    (DataCell false (all_bits example_fields) (all_refs example_fields)) example_vm) as (es & s' & Hrun & Hes & Hs & _ & _ & Hg).
  - repeat constructor; vm_compute; congruence || lia.
  - vm_compute. reflexivity.
  - vm_compute. split; congruence.
  - exists es, s'. split; [exact Hrun|]. split; [exact Hes|]. split; [exact Hs|]. rewrite Hg. vm_compute. reflexivity.
Defined.
