(* ===== verification/VmRun.v ===== *)
(** * Runs of the virtual machine

    The main loop against the invariant: every round is free of undefined behaviour
    and keeps the machine well-formed, gas bounds the number of rounds, and a run
    with its child machines always ends in an exit code.

    The codepage is an interface ([GoodTable]): the theorems hold for every dispatch
    table whose instructions are safe in the sense of InstrSafety.v ([instr_ok]), also
    those that raise the gas limit; the table made of the modelled groups of
    instructions is an instance, without and with the gas instructions. *)
From stdpp Require Import relations.
From S2P Require Import Prelude BigInt Int256 Cells DataCell VmTypes Stack OpcodeTable StackOps TupleOps ArithOps Vm ContOps DictOps CellOps VmInvariant Control InstrSafety ContSafety GasOps TupleSafety DictOpsSafety CellOpsSafety.

(** ** Codepages *)

(** What the machine needs from its dispatch table: every opcode leads to an instruction
    that is safe on it.  [oog] holds of the gas when an instruction throws out-of-gas;
    it must hold of overdrawn gas. *)
Class GoodTable (oog : GasLimits -> Prop) (table : list OpcodeInstr) : Prop := {
  good_oog : forall g, overdrawn g -> oog g;
  good_lookup : forall opcode, 0 <= opcode < top_opcode ->
    exists i, lookup_instr table opcode = Some i /\ covers i opcode /\ instr_ok oog i
}.

(** Any registered groups of instructions with a property, which the dummies that fill
    the gaps have too, make a table of such instructions. *)
Lemma registered_table (P : OpcodeInstr -> Prop) instrs t table opcode :
  Forall (fun o => match o with Some i => P i | None => False end) instrs ->
  (forall i, body i = OpcodeInstrDummy -> P i) ->
  Forall (fun o => forall i, o = Some i -> 0 <= min_opcode i) instrs ->
  insert_all instrs [] = Some t -> finalize t = Some table -> 0 <= opcode < top_opcode ->
  exists i, lookup_instr table opcode = Some i /\ covers i opcode /\ P i.
Proof.
  intros Hgood Hdummy Hpos Ht Hf Hop.
  destruct (table_lookup instrs t opcode Hpos Ht Hop) as (l & i & Hl & Hi & Hc & Hin).
  rewrite Hf in Hl. simplify_eq. exists i. split_and!; [done|done|].
  destruct Hin as [Hin|[Hd _]]; [|by apply Hdummy].
  by apply (proj1 (list.Forall_forall _ _) Hgood) in Hin.
Qed.
Lemma dummy_good i : body i = OpcodeInstrDummy -> instr_good i.
Proof. intros Hd op bits g s _ _ Hs Hc. rewrite Hd. by apply dummy_handled. Qed.
Lemma dummy_ok oog i : (forall g, overdrawn g -> oog g) -> body i = OpcodeInstrDummy -> instr_ok oog i.
Proof. intros Hoog Hd. by apply (registered_good_ok oog Hoog (Some i)), dummy_good. Qed.

(** The 24-bit opcode at the start of the code. *)
Lemma fetch_opcode_range cs bits opcode :
  fetch_opcode cs = (bits, opcode) -> 0 <= opcode < top_opcode /\ Z.of_nat bits <= max_opcode_bits.
Proof.
  unfold fetch_opcode, prefetch_top. cbv zeta. intros E. simplify_eq.
  change (Z.to_nat max_opcode_bits) with 24%nat. unfold top_opcode, max_opcode_bits.
  set (n := Nat.min 24 (size cs)). assert (n <= 24)%nat as Hn by lia. split; [|lia].
  pose proof (bits_to_Z_range (take n (slice_bits cs))) as Hb. set (x := bits_to_Z _) in *.
  assert (0 <= x < 2 ^ Z.of_nat n) as Hx.
  { split; [apply Hb|]. eapply Z.lt_le_trans; [apply Hb|]. apply Z.pow_le_mono_r; [lia|].
    rewrite length_take. lia. }
  clearbody x. clear Hb.
  assert (x * 2 ^ (64 - Z.of_nat n) < 2 ^ 64) as Hy.
  { replace 64 with (Z.of_nat n + (64 - Z.of_nat n)) at 2 by lia.
    rewrite Z.pow_add_r by lia. apply Z.mul_lt_mono_pos_r; [apply pow2_pos|]; lia. }
  pose proof (pow2_pos (64 - Z.of_nat n) ltac:(lia)).
  assert (0 <= x * 2 ^ (64 - Z.of_nat n)) as Hy0 by nia.
  set (y := x * 2 ^ (64 - Z.of_nat n)) in *. clearbody y.
  set (m := wrap_u 32 _). assert (0 <= m) by (apply Z.mod_pos_bound; lia).
  assert (0 <= Z.shiftr y (64 - 24) < 2 ^ 24) as Hz.
  { rewrite Z.shiftr_div_pow2 by lia. change (64 - 24) with 40. split; [apply Z.div_pos; lia|].
    apply Z.div_lt_upper_bound; [lia|]. by change (2 ^ 40 * 2 ^ 24) with (2 ^ 64). }
  split; [apply Z.land_nonneg; left; lia|].
  destruct (Z.eq_dec (Z.land (Z.shiftr y (64 - 24)) m) 0) as [->|Hne]; [lia|].
  apply Z.log2_lt_cancel. rewrite Z.log2_pow2 by lia.
  eapply Z.le_lt_trans; [apply Z.log2_land; lia|].
  apply Z.lt_le_trans with 24; [|lia]. destruct (Z.eq_dec (Z.shiftr y (64 - 24)) 0) as [->|].
  - cbn. lia.
  - assert (Z.log2 (Z.shiftr y (64 - 24)) < 24) by (apply Z.log2_lt_pow2; lia). lia.
Qed.

(** ** The measure *)

Lemma waiting_gas s : waiting_ok s -> 0 <= gas_remaining (gas s) <= chain_gas s.
Proof.
  revert s. fix IH 1. intros s (Hb & Hr & _ & _ & Hp)%waiting_ok_unfold.
  pose proof (rl_gas _ _ _ Hr) as Hrem. split; [done|]. rewrite chain_gas_eq.
  destruct s as [? ? ? ? ? ? gs ? ? ? ? ? ? ? ? ? ? ? ? [[ps ? ? ? ? ?]|]];
    unfold gas_left, gas_reserve, parent_ok in *; cbn [parent p_state gas] in *;
    [|unfold gas_consumed; lia].
  destruct Hp as [Hw [Hl1 Hl2]]. specialize (IH ps Hw).
  unfold gas_charged, gas_consumed. lia.
Qed.

Lemma running_gas g s : mach_ok g s -> 0 <= gas_left s <= g.
Proof.
  intros [(_ & Hp & Hg) [Hr _ _]]. split; [|done]. unfold gas_left, parent_ok in *.
  destruct (parent s) as [p|]; [|unfold gas_reserve, gas_consumed; lia]. destruct Hp as [Hw [Hl1 Hl2]].
  apply waiting_gas in Hw. unfold gas_charged, gas_consumed. lia.
Qed.
Lemma ended_gas g s p : base_ok g s -> parent s = Some p -> 0 <= g.
Proof.
  intros (_ & Hp & Hg) E. unfold gas_left, parent_ok in *. rewrite E in *.
  destruct Hp as [Hw [Hl1 Hl2]]. apply waiting_gas in Hw. unfold gas_charged in *. lia.
Qed.

(** ** The main loop *)

Section run.
Context `{Sha256} `{LibDict} {oog : GasLimits -> Prop} (table : list OpcodeInstr)
  {Htable : GoodTable oog table}.

Lemma dispatch_ok g s :
  vm_ok g s -> code_ok s -> wp (dispatch table) (step_post (g - 10)) (step_err oog g) s.
Proof using Htable.
  intros Hs Hc. unfold dispatch. apply wp_bind, wp_gets. unfold code_ok in Hc.
  destruct (code s) as [cs|] eqn:E; [|done]. apply wp_bind, wp_ret.
  destruct (fetch_opcode cs) as [bits opcode] eqn:Ef. apply fetch_opcode_range in Ef as [Hop Hbits].
  destruct (good_lookup opcode Hop) as (i & Hi & Hcov & Hgood).
  apply wp_bind, (wp_of_option _ i); [done|]. apply Hgood; [done|lia|done|].
  unfold code_ok. by rewrite E.
Qed.

(** A step takes at least 5 units of gas, unless it throws. *)
Lemma step_ok g s :
  vm_ok g s -> code_ok s -> wp (step table) (step_post (g - 5)) (step_err oog g) s.
Proof using Htable.
  pose proof good_oog as Hoog.
  intros Hs Hc. apply wp_bind, wp_modify, wp_bind, wp_gets. cbn [code set_steps].
  set (s1 := set_steps _ s). assert (vm_ok g s1) as Hs1 by (split; [apply mach_set_steps|]; apply Hs).
  assert (code_ok s1) as Hc1 by exact Hc. assert (code s1 = code s) as E1 by done. clearbody s1.
  unfold code_ok in Hc. destruct (code s) as [cs|]; [|done]. apply wp_bind, wp_ret.
  destruct (negb _).
  - apply wp_bind, wp_gets. destruct (has_table _); [|by apply wp_throw, err_step, err_post_vm].
    eapply wp_mono; [by apply dispatch_ok| |done]. intros r s'. apply step_post_mono. lia.
  - destruct (negb _) eqn:Er.
    + apply negb_true_iff, Nat.eqb_neq in Er. destruct Hc as [_ Hrefs]. unfold size_refs in Er.
      unfold prefetch_ref. rewrite (proj2 (Nat.ltb_lt 0 _)) by (unfold size_refs; lia).
      destruct (cell_refs (cs_cell cs) !! (refs_st cs + 0)%nat) as [c|] eqn:El.
      2: { apply lookup_ge_None in El. lia. }
      apply wp_bind, wp_ret. unfold implicit_jmpref_gas_price.
      apply wp_bind, (wp_consume_chk_ok g); [lia|apply Hs1| |by intros s' Hb; apply err_step]. intros Hm.
      eapply wp_mono; [apply (ref_jump_ok (g - 10))|..].
      * split; [done|apply Hs1].
      * intros r s' Hp. eapply step_post_mono, handler_step_post, Hp. lia.
      * intros e s' Hp. eapply step_err_mono, err_step, Hp; [lia|done].
    + unfold implicit_ret_gas_price. apply wp_bind, (wp_consume_chk_ok g); [lia|apply Hs1| |by intros s' Hb; apply err_step].
      intros Hm. eapply wp_mono; [apply (vm_ret_ok (g - 5))|..].
      * split; [done|apply Hs1].
      * intros r s'. apply handler_step_post.
      * intros e s' Hp. eapply step_err_mono, err_step, Hp; [lia|done].
Qed.

(** What a round of the loop leaves. *)
Definition round_post (g : Z) (r : Z + Z) (s : VmState) : Prop :=
  match r with
  | inl res => handler_post (g - 5) res s
  | inr res => res < -2 /\ mach_ok g s
  end.
Definition out_of_gas (g : Z) (e : exc) (s : VmState) : Prop := e = VmNoGas /\ base_ok g s /\ oog (gas s).

Lemma run_round_ok g s :
  vm_ok g s -> code_ok s -> wp (run_round table) (round_post g) (out_of_gas g) s.
Proof using Htable.
  intros Hs Hc.
  assert (wp (res <- step table ;; gas_check ;; ret res) (handler_post (g - 5)) (step_err oog g) s) as Hstep.
  { apply wp_bind. eapply wp_mono; [by apply step_ok| |done]. intros r s' [Hb Hp].
    apply wp_bind, wp_bind, wp_gets, wp_unless_throw; [intros Hr%Z.leb_le; by apply wp_ret, Hp|].
    intros Hneg%Z.leb_gt. split; [|by apply good_oog]. eapply base_ok_mono; [|exact Hb]. lia. }
  unfold wp, run_round. unfold wp in Hstep.
  destruct ((res <- step table ;; gas_check ;; ret res) s) as [r s1|e s1|]; [exact Hstep| |done].
  assert (forall n, vm_ok g s1 ->
    match throw_exception (get_errno n) (set_steps (steps s1 + 1) s1) with
    | Ret res s'' => round_post g (inl res) s''
    | Exn (VmError n2) s'' => round_post g (inr (Z.lnot (get_errno n2))) s''
    | Exn e2 s'' => out_of_gas g e2 s''
    | Undef => False
    end) as Hthrow.
  { intros n He.
    assert (vm_ok g (set_steps (steps s1 + 1) s1)) as Hs1 by (split; [apply mach_set_steps|]; apply He).
    pose proof (throw_exception_ok g (get_errno n) _ Hs1) as Ht. unfold wp in Ht.
    pose proof (throw_exception_nce (get_errno n) (set_steps (steps s1 + 1) s1)) as Hnc. unfold wlp in Hnc.
    destruct (throw_exception _ _) as [r s2|e2 s2|]; [| |done].
    - eapply handler_post_mono; [|exact Ht]. lia.
    - destruct e2 as [n2| | | | | | |]; try done.
      + destruct Ht as [Hn2%Z.leb_le He2]. split; [|apply He2]. unfold Z.lnot. lia.
      + destruct Ht as [Hb Hlt]. by split_and!; [|done|apply good_oog]. }
  destruct e as [n| | | | | | |]; try done; cbn [as_vm_error].
  all: first [specialize (Hthrow n) | specialize (Hthrow Exc_cell_ov)].
  all: destruct (throw_exception _ _) as [r s2|[] s2|]; apply Hthrow; first [apply Hstep | done].
Qed.

(** A machine that has ended normally or by an exception: exit codes 0 and 1 mean
    that the final data and actions are committed. *)
Definition commit_ok (res : Z) (s : VmState) : Prop :=
  - 2 <= res -> committed (cstate s) = true /\ com_c4 (cstate s) = regs_d0 (cr s) /\
    com_c5 (cstate s) = regs_d1 (cr s) /\
    committable (max_data_depth s) (regs_d0 (cr s)) = true /\
    committable (max_data_depth s) (regs_d1 (cr s)) = true.
Definition exited (g res : Z) (s : VmState) : Prop := res < 0 /\ mach_ok g s /\ commit_ok res s.

Lemma lor_1_exit res : res < 0 -> Z.lor res 1 = -1 <-> -2 <= res.
Proof.
  intros Hneg. split; intros E.
  - assert (Z.shiftr res 1 = -1) as Hs.
    { rewrite <- (Z.lor_0_r (Z.shiftr res 1)). change 0 with (Z.shiftr 1 1).
      by rewrite <- Z.shiftr_lor, E. }
    rewrite Z.shiftr_div_pow2 in Hs by lia. change (2 ^ 1) with 2 in Hs. div_lia.
  - by assert (res = -1 \/ res = -2) as [-> | ->] by lia.
Qed.

Lemma try_commit_cases g s :
  mach_ok g s ->
  wp try_commit (fun ok s' => mach_ok g s' /\ stack s' = stack s /\
      (ok = true -> committed (cstate s') = true /\ com_c4 (cstate s') = regs_d0 (cr s') /\
        com_c5 (cstate s') = regs_d1 (cr s') /\
        committable (max_data_depth s') (regs_d0 (cr s')) = true /\
        committable (max_data_depth s') (regs_d1 (cr s')) = true)) (out_of_gas g) s.
Proof.
  intros Hm. unfold wp, try_commit. destruct (_ && _) eqn:E; [|done].
  apply andb_true_iff in E as [E0 E1]. destruct Hm as [Hb Hr]. split; [|done].
  split; [|done]. apply base_set_cstate; [|done]. intros _. unfold committable in *. cbn.
  by destruct (regs_d0 (cr s)), (regs_d1 (cr s)).
Qed.

Lemma finish_run_ok g res s :
  res < 0 -> mach_ok g s -> wp (finish_run res) (exited g) (out_of_gas g) s.
Proof.
  intros Hres Hm. unfold finish_run. pose proof (lor_1_exit res Hres) as Hlor.
  destruct (Z.eqb_spec (Z.lor res 1) (-1)) as [E|E].
  - apply wp_bind. eapply wp_mono; [by apply (try_commit_cases g)| |done].
    intros ok s' (Hm' & Hst & Hok). destruct ok.
    + apply wp_ret. split_and!; [done|done|]. intros _. by apply Hok.
    + apply wp_bind, wp_modify, wp_ret. split_and!; [done| |].
      * apply mach_set_stack; [by repeat constructor|done].
      * intros Hc. by vm_compute in Hc.
  - apply wp_ret. split_and!; [done|done|]. intros Hc. by apply Hlor in Hc.
Qed.

(** Enough fuel: every round that goes on takes gas. *)
Lemma run_inner_ok fuel : forall g s,
  vm_ok g s -> code_ok s -> g < Z.of_nat fuel ->
  exists r, run_inner table fuel s = Some r /\
    match r with
    | Ret res s' => exited g res s'
    | Exn e s' => out_of_gas g e s'
    | Undef => False
    end.
Proof using Htable.
  induction fuel as [|fuel IH]; intros g s Hs Hc Hf.
  { destruct (running_gas g s (proj1 Hs)). lia. }
  cbn [run_inner]. pose proof (run_round_ok g s Hs Hc) as Hr. unfold wp in Hr.
  destruct (run_round table s) as [[res|res] s1|e s1|]; [| |by eexists|done].
  - destruct Hr as (Hle & Hm & Hz). destruct (Z.eqb_spec res 0) as [->|Hne].
    + destruct (Hz eq_refl) as [Hs1 Hc1]. destruct (IH (g - 5) s1) as (r & Hr & Hpost); [done|done|lia|].
      exists r. split; [done|]. destruct r as [res s'|e s'|]; [| |done].
      * destruct Hpost as (? & ? & ?). split_and!; [done| |done]. eapply mach_mono; [|done]. lia.
      * destruct Hpost as [-> [? ?]]. split; [done|]. split; [|done]. eapply base_ok_mono; [|done]. lia.
    + eexists. split; [done|]. pose proof (finish_run_ok g res s1) as Hfin. unfold wp in Hfin.
      apply Hfin; [lia|]. eapply mach_mono; [|done]. lia.
  - eexists. split; [done|]. destruct Hr as [Hres Hm]. split_and!; [lia|done|]. unfold commit_ok. lia.
Qed.

(** ** Whole runs *)

(** How a run ends: with the complement of a non-negative exit code and gas left, or
    with 13 after an unhandled out-of-gas exception, which leaves the consumed gas on
    the stack. *)
Definition exit_post (res : Z) (s : VmState) : Prop :=
  res < 0 /\ 0 <= gas_remaining (gas s) /\ commit_ok res s \/
  res = get_errno Exc_out_of_gas /\ oog (gas s) /\
  stack s = [t_int (Int (gas_consumed (gas s)))].

(** One machine of a chain has ended. *)
Definition ended (g : Z) (o : option (res VmState Z)) : Prop :=
  exists r s, o = Some (Ret r s) /\ exit_post r s /\ base_ok g s /\ stack_ok (stack s).

Lemma out_of_gas_ended g s : base_ok g s -> oog (gas s) -> ended g (Some (out_of_gas_exit s)).
Proof.
  intros Hb Hlt. eexists _, _. split; [done|]. split_and!; [by right|done|by repeat constructor].
Qed.

(** [run_inner], with the out-of-gas exception caught. *)
Definition catch_no_gas (o : option (res VmState Z)) : option (res VmState Z) :=
  match o with
  | Some (Exn VmNoGas s2) => Some (out_of_gas_exit s2)
  | r => r
  end.

Lemma run_inner_ended fuel g s :
  vm_ok g s -> code_ok s -> g < Z.of_nat fuel -> ended g (catch_no_gas (run_inner table fuel s)).
Proof using Htable.
  intros Hs Hc Hf. destruct (run_inner_ok fuel g s Hs Hc Hf) as (r & -> & Hr).
  destruct r as [res s'|e s'|]; [| |done].
  - destruct Hr as (? & [? [? ? ?]] & ?). exists res, s'. split_and!; [done|by left|done|done].
  - destruct Hr as (-> & Hb & ?). by apply out_of_gas_ended.
Qed.

(** The parent goes on after its child has ended. *)
Lemma restored_ended fuel g res s p :
  base_ok g s -> stack_ok (stack s) -> parent s = Some p -> g < Z.of_nat fuel ->
  ended (g - 1) (catch_no_gas match restore_parent_vm (Z.lnot res) s with
                              | Ret _ s1 => run_inner table fuel s1
                              | Exn e s1 => Some (Exn e s1)
                              | Undef => Some Undef
                              end).
Proof using Htable.
  intros Hb Hst Ep Hf. pose proof (restore_parent_vm_ok g (Z.lnot res) s p Hb Hst Ep) as Hr.
  unfold wp in Hr. destruct (restore_parent_vm _ s) as [[] s1|e s1|]; [| |done].
  - destruct Hr as [Hs1 Hc1]. apply run_inner_ended; [done|done|lia].
  - destruct Hr as (-> & Hb1 & Hlt). apply out_of_gas_ended; [done|by apply good_oog].
Qed.

(** The whole chain has ended. *)
Definition run_done (o : option (res VmState Z)) : Prop :=
  exists r s, o = Some (Ret r s) /\ exit_post r s /\ parent s = None /\ base_local s /\ stack_ok (stack s).

Lemma run_loop_restored fuel : forall g res s p,
  base_ok g s -> stack_ok (stack s) -> parent s = Some p -> g < Z.of_nat fuel ->
  run_done (run_loop table fuel (Some res) s).
Proof using Htable.
  induction fuel as [|fuel IH]; intros g res s p Hb Hst Ep Hf.
  { pose proof (ended_gas g s p Hb Ep). lia. }
  cbn [run_loop]. pose proof (restored_ended (S fuel) g res s p Hb Hst Ep Hf) as He.
  unfold catch_no_gas in He. destruct He as (r & s1 & -> & He & Hb1 & Hst1).
  destruct (parent s1) as [p1|] eqn:Ep1.
  - eapply (IH (g - 1)); [done|done|done|lia].
  - exists r, s1. split_and!; [done|done|done|apply Hb1|done].
Qed.

Lemma run_ok fuel g s :
  vm_ok g s -> code_ok s -> g + 1 < Z.of_nat fuel -> run_done (run table fuel s).
Proof using Htable.
  intros Hs Hc Hf. unfold run. unfold code_ok in Hc. destruct (code s) eqn:Ec; [|done].
  destruct fuel as [|fuel]; [destruct (running_gas g s (proj1 Hs)); lia|].
  cbn [run_loop]. assert (code_ok s) as Hc' by (unfold code_ok; by rewrite Ec).
  pose proof (run_inner_ended (S fuel) g s Hs Hc' ltac:(lia)) as He.
  unfold catch_no_gas in He. destruct He as (r & s1 & -> & He & Hb1 & Hst1).
  destruct (parent s1) as [p1|] eqn:Ep1.
  - eapply (run_loop_restored fuel g); [done|done|done|lia].
  - exists r, s1. split_and!; [done|done|done|apply Hb1|done].
Qed.

(** More fuel gives the same result. *)
Lemma run_inner_mono fuel : forall fuel' s r,
  run_inner table fuel s = Some r -> (fuel <= fuel')%nat -> run_inner table fuel' s = Some r.
Proof.
  induction fuel as [|fuel IH]; intros fuel' s r Hr Hf; [done|]. destruct fuel' as [|fuel']; [lia|].
  cbn [run_inner] in *. destruct (run_round table s) as [[res|res] s1|e s1|]; try done.
  destruct (res =? 0); [|done]. apply IH; [done|lia].
Qed.
Lemma run_loop_mono fuel : forall fuel' o s r,
  run_loop table fuel o s = Some r -> (fuel <= fuel')%nat -> run_loop table fuel' o s = Some r.
Proof.
  induction fuel as [|fuel IH]; intros fuel' o s r Hr Hf; [done|]. destruct fuel' as [|fuel']; [lia|].
  pose proof (fun s r E => run_inner_mono (S fuel) (S fuel') s r E Hf) as Hmono. cbn [run_loop] in *.
  destruct (match o with Some res => restore_parent_vm (Z.lnot res) s | None => Ret tt s end)
    as [[] s1|e s1|].
  - destruct (run_inner table (S fuel) s1) as [r1|] eqn:E1; [|done]. rewrite (Hmono _ _ E1).
    destruct r1 as [res s2|[] s2|]; try done.
    + destruct (parent s2); [|done]. apply IH; [done|lia].
    + destruct (out_of_gas_exit s2) as [res s3|e3 s3|]; try done.
      destruct (parent s3); [|done]. apply IH; [done|lia].
  - destruct e; try done. destruct (out_of_gas_exit s1) as [res s3|e3 s3|]; try done.
    destruct (parent s3); [|done]. apply IH; [done|lia].
  - done.
Qed.
Lemma run_mono fuel fuel' s r :
  run table fuel s = Some r -> (fuel <= fuel')%nat -> run table fuel' s = Some r.
Proof. unfold run. destruct (code s); [apply run_loop_mono|done]. Qed.

(** So what is known of a run with enough fuel is known of every run that returns. *)
Lemma run_returned fuel g s res s' :
  vm_ok g s -> code_ok s -> run table fuel s = Some (Ret res s') -> exit_post res s'.
Proof using Htable.
  intros Hs Hc Hr. set (fuel' := (fuel + Z.to_nat (g + 2))%nat).
  destruct (run_ok fuel' g s Hs Hc) as (r & s1 & E & He & _); [lia|].
  rewrite (run_mono _ fuel' _ _ Hr) in E by lia. by simplify_eq.
Qed.
End run.

(** ** The modelled part of codepage 0 *)

Section cp0.
Context `{Sha256} `{LibDict}.

(** [init_op_cp0], without the groups that are not modelled: an opcode of these is
    invalid here. *)
Definition cp0_instrs : list (option OpcodeInstr) :=
  register_stack_ops ++ register_tuple_ops ++ register_arith_ops ++ register_cell_ops ++
  register_continuation_ops ++ register_dictionary_ops ++ register_codepage_ops.
Definition cp0_table : list OpcodeInstr :=
  match insert_all cp0_instrs [] with
  | Some t => default [] (finalize t)
  | None => []
  end.

Lemma cp0_registered : exists t, insert_all cp0_instrs [] = Some t.
Proof.
  assert (match insert_all cp0_instrs [] with Some _ => true | None => false end = true) as E
    by (vm_compute; reflexivity).
  destruct (insert_all cp0_instrs []) as [t|]; [by exists t|done].
Qed.
Lemma cp0_positive : Forall (fun o => forall i, o = Some i -> 0 <= min_opcode i) cp0_instrs.
Proof.
  assert (forallb (fun o => match o with Some i => 0 <=? min_opcode i | None => true end) cp0_instrs
    = true) as E by (vm_compute; reflexivity).
  apply list.Forall_forall. intros o Ho i ->.
  rewrite forallb_forall in E. apply list_elem_of_In in Ho. apply E in Ho. by apply Z.leb_le.
Qed.
Lemma cp0_good : Forall registered_good cp0_instrs.
Proof.
  unfold cp0_instrs.
  apply Forall_app. split; [apply stack_ops_good|]. apply Forall_app. split; [apply tuple_ops_good|].
  apply Forall_app. split; [apply arith_ops_good|]. apply Forall_app. split; [apply cell_ops_good|].
  pose proof cont_ops_good as [Hcont Hcp]%Forall_app. apply Forall_app. split; [done|].
  apply Forall_app. split; [apply dict_ops_good|done].
Qed.

Lemma cp0_lookup opcode :
  0 <= opcode < top_opcode ->
  exists i, lookup_instr cp0_table opcode = Some i /\ covers i opcode /\ instr_good i.
Proof.
  intros Hop. destruct cp0_registered as [t Ht]. pose proof cp0_positive as Hpos.
  destruct (table_lookup _ _ 0 Hpos Ht ltac:(unfold top_opcode, max_opcode_bits; lia)) as (l & _ & Hl & _).
  unfold cp0_table. rewrite Ht, Hl. eapply registered_table; [apply cp0_good|apply dummy_good|done..].
Qed.
#[global] Instance cp0_good_table : GoodTable overdrawn cp0_table.
Proof.
  split; [done|]. intros opcode (i & Hi & Hc & Hg)%cp0_lookup. exists i. split_and!; [done|done|].
  by apply (registered_good_ok overdrawn ltac:(done) (Some i)).
Qed.

(** The same with ACCEPT, SETGASLIMIT, GASCONSUMED and COMMIT. *)
Definition cp0_gas_instrs : list (option OpcodeInstr) := cp0_instrs ++ register_basic_gas_ops.
Definition cp0_gas_table : list OpcodeInstr :=
  match insert_all cp0_gas_instrs [] with
  | Some t => default [] (finalize t)
  | None => []
  end.
Lemma cp0_gas_registered : exists t, insert_all cp0_gas_instrs [] = Some t.
Proof.
  assert (match insert_all cp0_gas_instrs [] with Some _ => true | None => false end = true) as E
    by (vm_compute; reflexivity).
  destruct (insert_all cp0_gas_instrs []) as [t|]; [by exists t|done].
Qed.
Lemma cp0_gas_positive : Forall (fun o => forall i, o = Some i -> 0 <= min_opcode i) cp0_gas_instrs.
Proof.
  apply Forall_app. split; [apply cp0_positive|]. unfold register_basic_gas_ops.
  split_Forall; intros i [= <-]; by apply Z.leb_le.
Qed.
#[global] Instance cp0_gas_good_table : GoodTable any_gas cp0_gas_table.
Proof.
  split; [done|]. intros opcode Hop. destruct cp0_gas_registered as [t Ht].
  pose proof cp0_gas_positive as Hpos.
  destruct (table_lookup _ _ 0 Hpos Ht ltac:(unfold top_opcode, max_opcode_bits; lia)) as (l & _ & Hl & _).
  unfold cp0_gas_table. rewrite Ht, Hl.
  eapply registered_table; [|intros; by apply dummy_ok|done..]. apply Forall_app. split; [|apply gas_ops_ok].
  eapply list.Forall_impl; [apply cp0_good|]. intros o. by apply registered_good_ok.
Qed.
End cp0.

(** ** Properties *)

(** The arguments of the constructor that the theorems allow: version 11 or later,
    well-formed code, stack and c7, a limit and a credit of at most [2^62] units of
    gas, and any non-negative [gas_max]. *)
Record start_ok (code : CellSlice) (v : Z) (stk : Stack) (limit max credit : Z) (c7 : option Tuple) : Prop :=
  mkStart {
    st_code : slice_ok code;
    st_version : 11 <= v;
    st_stack : stack_ok stk;
    st_c7 : opt_ok stack_ok c7;
    st_limit : 0 <= limit;
    st_credit : 0 <= credit;
    st_gas : limit + credit <= 2 ^ 62;
    st_max : 0 <= max < 2 ^ 63
  }.

(** A machine built by the constructor of [VmState], with [stop_on_accept_message] set
    or not, satisfies the invariant. *)
Lemma new_vm_ok code v stk limit max credit flags data libs c7 stop :
  start_ok code v stk limit max credit c7 ->
  let s := set_stop_on_accept stop
    (new_vm (Some code) v stk (new_gas limit max credit) flags data libs c7) in
  vm_ok (Z.max (limit + credit) max) s /\ code_ok s.
Proof.
  intros [Hcode Hv Hstk Hc7 Hl Hcr Hsum Hmax]. cbv zeta.
  destruct (new_vm_fresh code v stk (new_gas limit max credit) flags data libs c7 false) as
    [Hst Hr Hf Hc Hcs _ _]; [done|done|done|done|done|].
  split; [|exact Hc]. split; [split|exact Hf].
  - split_and!; [|done|unfold gas_left, gas_reserve, gas_consumed; cbn; lia].
    split; [done| |done|cbn; lia]. split; cbn; lia.
  - split; [cbn; lia|exact Hst|exact Hr].
Qed.

(** A round of the main loop after which the loop goes on. *)
Inductive round_step `{Sha256} `{LibDict} (table : list OpcodeInstr) (s s' : VmState) : Prop :=
| round_continue : run_round table s = Ret (inl 0) s' -> round_step table s s'.

Lemma rounds_ok `{Sha256} `{LibDict} {oog} table `{GoodTable oog table} n : forall g s s',
  vm_ok g s -> code_ok s -> nsteps (round_step table) n s s' ->
  vm_ok (g - 5 * Z.of_nat n) s' /\ code_ok s'.
Proof.
  induction n as [|n IH]; intros g s s' Hs Hc Hn; inversion Hn as [|? ? s1 ? Hstep Hrest]; subst.
  - split; [eapply vm_ok_mono; [|done]; lia|done].
  - destruct Hstep as [Hr]. pose proof (run_round_ok table g s Hs Hc) as Hp. unfold wp in Hp.
    rewrite Hr in Hp. destruct Hp as (_ & _ & Hz). destruct (Hz eq_refl) as [Hs1 Hc1].
    destruct (IH (g - 5) s1 s' Hs1 Hc1 Hrest) as [Hs' Hc']. split; [|done].
    eapply vm_ok_mono; [|done]. lia.
Qed.

(** C4: invariant of the machine.  From a machine built by the constructor, with any
    good codepage, every state that rounds of the main loop reach is well-formed
    (all control registers are set, slices lie within their cells, the gas counter is
    not negative and within 64 bits, waiting parents can pay for their children), and
    the next round is free of undefined behaviour.  The codepage may have instructions
    that raise the gas limit (ACCEPT, SETGASLIMIT); still, every round takes at least 5
    units of the gas that the machine may ever use, the larger of [limit + credit] and
    [gas_max], so that a fifth of it bounds the number of rounds. *)
Theorem machine_invariant `{Sha256} `{LibDict} oog table `{GoodTable oog table}
    code v stk limit max credit flags data libs c7 stop n s :
  start_ok code v stk limit max credit c7 ->
  nsteps (round_step table) n
    (set_stop_on_accept stop (new_vm (Some code) v stk (new_gas limit max credit) flags data libs c7)) s ->
  vm_ok (Z.max (limit + credit) max - 5 * Z.of_nat n) s /\ code_ok s /\ run_round table s <> Undef /\
  5 * Z.of_nat n <= Z.max (limit + credit) max.
Proof.
  intros Hst Hn.
  destruct (new_vm_ok code v stk limit max credit flags data libs c7 stop Hst) as [Hs Hc].
  destruct (rounds_ok table n _ _ _ Hs Hc Hn) as [Hs' Hc']. split_and!; [done|done| |].
  - by eapply wp_not_undef, run_round_ok.
  - destruct (running_gas _ _ (proj1 Hs')). lia.
Qed.


(** C18: exit codes.  A run that returns ends with the complement of a non-negative exit
    code and without debt, or with 13: only an unhandled out-of-gas exception gives 13;
    then the gas is overdrawn, and the consumed gas is the only entry of the stack.  No
    program can fake it.  (The codepage is one whose instructions throw out-of-gas only
    when the gas is overdrawn: SETGASLIMIT, which throws it for a limit below the
    consumption, is left out.) *)
Theorem exit_code_not_faked `{Sha256} `{LibDict} table `{GoodTable overdrawn table}
    code v stk limit max credit flags data libs c7 stop fuel res s :
  start_ok code v stk limit max credit c7 ->
  run table fuel
    (set_stop_on_accept stop (new_vm (Some code) v stk (new_gas limit max credit) flags data libs c7))
    = Some (Ret res s) ->
  res < 0 /\ 0 <= gas_remaining (gas s) \/
  res = 13 /\ gas_remaining (gas s) < 0 /\ stack s = [t_int (Int (gas_consumed (gas s)))].
Proof.
  intros Hst Hrun.
  destruct (new_vm_ok code v stk limit max credit flags data libs c7 stop Hst) as [Hs Hc].
  destruct (run_returned table _ _ _ _ _ Hs Hc Hrun) as [(? & ? & _)|?]; [by left|by right].
Qed.

(** C17: commit.  Exit codes 0 and 1 (results [~0] and [~1]) mean success: the machine
    that ended has committed its data (c4) and actions (c5), which are cells of level 0
    no deeper than [max_data_depth]. *)
Theorem success_commits `{Sha256} `{LibDict} oog table `{GoodTable oog table}
    code v stk limit max credit flags data libs c7 stop fuel res s :
  start_ok code v stk limit max credit c7 ->
  run table fuel
    (set_stop_on_accept stop (new_vm (Some code) v stk (new_gas limit max credit) flags data libs c7))
    = Some (Ret res s) ->
  res = Z.lnot 0 \/ res = Z.lnot 1 ->
  exists c4 c5, cstate s = mkCommitted (Some c4) (Some c5) true /\
    regs_d0 (cr s) = Some c4 /\ regs_d1 (cr s) = Some c5 /\
    get_depth c4 <= max_data_depth s /\ get_depth c5 <= max_data_depth s /\
    get_cell_level c4 = 0%nat /\ get_cell_level c5 = 0%nat.
Proof.
  intros Hst Hrun Hres.
  destruct (new_vm_ok code v stk limit max credit flags data libs c7 stop Hst) as [Hs Hc].
  pose proof (run_returned table _ _ _ _ _ Hs Hc Hrun) as He. rename s into s1.
  unfold Z.lnot in Hres. destruct He as [(_ & _ & Hcom)|[-> _]]; [|cbn in Hres; lia].
  destruct Hcom as (Hc1 & Hc2 & Hc3 & H4 & H5); [lia|]. unfold committable in *.
  destruct (regs_d0 (cr s1)) as [c4|]; [|done]. destruct (regs_d1 (cr s1)) as [c5|]; [|done].
  apply andb_true_iff in H4 as [?%Z.leb_le ?%Nat.eqb_eq], H5 as [?%Z.leb_le ?%Nat.eqb_eq].
  exists c4, c5. split_and!; try done. destruct (cstate s1). simpl in *. by subst.
Qed.

(** C22: instructions.  In the modelled part of codepage 0, every 24-bit opcode leads to
    an instruction (or a dummy) that, in any well-formed machine and with any number
    of code bits available, is free of undefined behaviour, takes at least 10 units of
    gas when it returns, leaves a well-formed machine, and throws nothing but a VM
    error or an exception of the cell builder, after which an exception handler can
    run, or out-of-gas. *)
Theorem codepage_instructions_safe `{Sha256} `{LibDict} opcode bits g s :
  0 <= opcode < top_opcode -> 0 <= bits <= max_opcode_bits -> vm_ok g s -> code_ok s ->
  exists i, lookup_instr cp0_table opcode = Some i /\
    wp (instr_dispatch (body i) opcode bits) (handler_post (g - 10)) (err_post g) s.
Proof.
  intros Hop Hbits Hs Hc. destruct (cp0_lookup opcode Hop) as (i & Hi & Hcov & Hg).
  exists i. split; [done|]. by apply Hg.
Qed.

(** *** Examples *)

#[local] Instance toy_hash : Sha256 := toy_sha.
#[local] Instance no_libraries : LibDict := fun _ _ => ([], None).
(** ACCEPT; PUSHINT 2; PUSHINT 3; ADD; THROWIF 5: with 100 units of gas, of which ACCEPT
    makes 1000. *)
Definition demo_code : CellSlice :=
  slice_of_cell (DataCell false (concat (map (Z_to_bits 8) [0xf8; 0x00; 0x72; 0x73; 0xa0; 0xf2; 0x45])) []).
Definition demo_vm : VmState :=
  new_vm (Some demo_code) 11 [] (new_gas 100 1000 0) 0 None [] None.

Lemma demo_start : start_ok demo_code 11 [] 100 1000 0 None.
Proof. split; try done; try lia; [vm_compute; lia|constructor]. Qed.

Lemma machine_invariant_witness :
  exists s, run_round cp0_gas_table demo_vm = Ret (inl 0) s /\ vm_ok 995 s /\ gas_remaining (gas s) = 974.
Proof.
  assert (match run_round cp0_gas_table demo_vm with
          | Ret (inl r) s => r = 0 /\ gas_remaining (gas s) = 974 | _ => False end) as E0
    by (vm_compute; auto).
  destruct (run_round cp0_gas_table demo_vm) as [[r|r] s|e s|] eqn:E; [|destruct E0..].
  destruct E0 as [-> Eg]. exists s. split; [reflexivity|]. split; [|exact Eg].
  destruct (machine_invariant any_gas cp0_gas_table demo_code 11 [] 100 1000 0 0 None [] None false 1 s)
    as [Hs _]; [exact demo_start| |exact Hs].
  eapply nsteps_l; [constructor; exact E|constructor].
Defined.


(** PUSHINT 2; PUSHINT 3; ADD; THROWIF 5, with 20 units of gas. *)
Definition poor_code : CellSlice :=
  slice_of_cell (DataCell false (concat (map (Z_to_bits 8) [0x72; 0x73; 0xa0; 0xf2; 0x45])) []).
Definition poor_vm : VmState := new_vm (Some poor_code) 11 [] (new_gas 20 20 0) 0 None [] None.
Lemma poor_start : start_ok poor_code 11 [] 20 20 0 None.
Proof. split; try done; try lia; [vm_compute; lia|constructor]. Qed.
Lemma exit_code_not_faked_witness :
  exists s, run cp0_table 22 poor_vm = Some (Ret 13 s) /\
    stack s = [t_int (Int (gas_consumed (gas s)))].
Proof.
  assert (match run cp0_table 22 poor_vm with Some (Ret r _) => r = 13 | _ => False end) as E13
    by (vm_compute; reflexivity).
  destruct (run cp0_table 22 poor_vm) as [[r s|e s|]|] eqn:E; [|destruct E13..].
  subst r. exists s. split; [reflexivity|].
  destruct (exit_code_not_faked cp0_table poor_code 11 [] 20 20 0 0 None [] None false 22 13 s)
    as [[Hneg _]|(_ & _ & Hs)]; [exact poor_start|exact E|lia|exact Hs].
Defined.

(** ACCEPT; PUSHINT 2; PUSHINT 3: the implicit return ends the run with exit code 0. *)
Definition ok_code : CellSlice :=
  slice_of_cell (DataCell false (concat (map (Z_to_bits 8) [0xf8; 0x00; 0x72; 0x73])) []).
Definition ok_vm : VmState := new_vm (Some ok_code) 11 [] (new_gas 30 100 0) 0 None [] None.
Lemma ok_start : start_ok ok_code 11 [] 30 100 0 None.
Proof. split; try done; try lia; [vm_compute; lia|constructor]. Qed.
Lemma success_commits_witness :
  exists s, run cp0_gas_table 102 ok_vm = Some (Ret (-1) s) /\ committed (cstate s) = true.
Proof.
  assert (match run cp0_gas_table 102 ok_vm with Some (Ret r _) => r = -1 | _ => False end) as E1
    by (vm_compute; reflexivity).
  destruct (run cp0_gas_table 102 ok_vm) as [[r s|e s|]|] eqn:E; [|destruct E1..].
  subst r. exists s. split; [reflexivity|].
  destruct (success_commits any_gas cp0_gas_table ok_code 11 [] 30 100 0 0 None [] None false 102 (-1) s)
    as (c4 & c5 & Hc & _); [exact ok_start|exact E|left; reflexivity|]. rewrite Hc. reflexivity.
Defined.

Lemma codepage_instructions_safe_witness :
  exists i, lookup_instr cp0_table 0xa00000 = Some i /\
    wp (instr_dispatch (body i) 0xa00000 24) (handler_post 990) (err_post 1000) demo_vm.
Proof.
  apply (codepage_instructions_safe 0xa00000 24 1000 demo_vm).
  - unfold top_opcode, max_opcode_bits. lia.
  - unfold max_opcode_bits. lia.
  - exact (proj1 (new_vm_ok demo_code 11 [] 100 1000 0 0 None [] None false demo_start)).
  - exact (proj2 (new_vm_ok demo_code 11 [] 100 1000 0 0 None [] None false demo_start)).
Defined.
