(* ===== verification/ControlSpec.v ===== *)
(** * Calls, returns and exceptions

    Functional specifications of the control flow of Vm.v and ContOps.v: a call
    followed by a return restores the caller, with the arguments and results that
    were asked for; TRY gives exceptions of its body to its handler and then
    continues after it; a child machine has no effect on its parent beyond the
    results that it returns and the gas it used. *)
From S2P Require Import Prelude BigInt Int256 Cells DataCell VmTypes Stack OpcodeTable StackOps Vm ContOps.

Section control_spec.
Context `{Sha256} `{LibDict}.
Implicit Types (s : VmState) (k : Continuation).

(** ** Jumps to code *)

Lemma set_cp_id s : set_cp_field (cp s) s = s.
Proof. by destruct s. Qed.

Lemma force_cp_run c s : has_table c = true -> force_cp c s = Ret tt (set_cp_field c s).
Proof.
  intros Hc. unfold force_cp, set_cp, init_cp, bind, gets, ret, unless_throw, modify.
  destruct (Z.eqb_spec c (cp s)) as [->|]; [by rewrite set_cp_id|]. by rewrite Hc.
Qed.

(** The machine at the start of the code [cs] of codepage [c], with the registers
    [save] restored. *)
Definition at_code (cs : option CellSlice) (c : Z) (save : ControlRegs) s : VmState :=
  set_cp_field c (set_code_field cs (set_cr (regs_xor (cr s) save) s)).

Lemma jump_to_code d cs s :
  has_table (cdata_cp d) = true ->
  jump_to (OrdCont d cs) s = Ret 0 (at_code cs (cdata_cp d) (cdata_save d) s).
Proof.
  intros Hc. unfold jump_to. cbn [cont_height jump_loop cont_jump]. unfold OrdCont_jump, set_code.
  unfold bind, adjust_cr, modify_cr, modify. rewrite force_cp_run by done. cbn.
  unfold jump_overhead, bind, gets, ret. by rewrite andb_false_l.
Qed.

Lemma jump_simple save c cs s :
  has_table c = true ->
  jump (OrdCont (mkCData None save (-1) c) cs) s = Ret 0 (at_code cs c save s).
Proof. intros Hc. unfold jump, needs_adjust. simpl. by rewrite jump_to_code. Qed.

(** ** Calls *)

(** The part of the machine that a callee may not rely on changing: after a return the
    caller's code, codepage and c0 are back, everything else is as the callee left it. *)
Definition returned (caller callee s : VmState) : Prop :=
  code s = code caller /\ cp s = cp caller /\ cr s = set_c0 (regs_c0 (cr caller)) (cr callee).

Lemma regs_xor_c0 k0 r : regs_xor (set_c0 (Some quit0) r) (set_c0 (Some k0) empty_regs) = set_c0 (Some k0) r.
Proof. by destruct r. Qed.
Lemma regs_c0_set o r : regs_c0 (set_c0 o r) = o.
Proof. by destruct r. Qed.
Lemma regs_c0_xor r save : regs_c0 save = None -> regs_c0 (regs_xor r save) = regs_c0 r.
Proof. destruct r, save. simpl. by intros ->. Qed.

(** call and return.  Calling a continuation without saved c0 and without argument
    limits starts its code on the same stack.  Whatever the callee does, if c0 is what
    the call left in it when it returns, the caller goes on where it called, with its
    own c0 and codepage, on the callee's stack; neither the call nor the return takes
    gas of its own. *)
Theorem call_return s save c cs k0 :
  regs_c0 save = None -> has_table c = true -> has_table (cp s) = true ->
  regs_c0 (cr s) = Some k0 ->
  exists s1, call (OrdCont (mkCData None save (-1) c) (Some cs)) s = Ret 0 s1 /\
    code s1 = Some cs /\ cp s1 = c /\ stack s1 = stack s /\ gas s1 = gas s /\
    forall s2, regs_c0 (cr s2) = regs_c0 (cr s1) ->
      exists s3, vm_ret s2 = Ret 0 s3 /\ returned s s2 s3 /\ stack s3 = stack s2 /\ gas s3 = gas s2.
Proof.
  intros Hsave Hc Hcp Hc0. unfold call, has_c0, needs_adjust. cbn [get_cdata cdata_save cdata_stack cdata_nargs].
  rewrite Hsave. change (false || (0 <=? -1)) with false. cbv iota. unfold bind, gets, return_cont, vm_set_c0, modify_cr, modify.
  rewrite jump_to_code by done. cbn [cdata_cp cdata_save]. rewrite Hc0.
  eexists. split; [done|]. split_and!; [done..|]. intros s2 Hs2. cbn in Hs2.
  rewrite regs_c0_xor, regs_c0_set in Hs2 by done.
  unfold vm_ret, get_c0, bind, gets. rewrite Hs2. cbn [of_option]. unfold ret, vm_set_c0, modify_cr, modify.
  rewrite jump_simple by done. eexists. split; [done|]. unfold returned. cbn.
  rewrite Hc0. split_and!; try done. apply regs_xor_c0.
Qed.

(** *** Arguments and results *)

(** The gas for a stack of [n] entries. *)
Definition stack_cost (n : Z) : Z := Z.max n free_stack_depth - free_stack_depth.

Lemma consume_stack_gas_run n s :
  0 <= n < 2 ^ 32 -> stack_cost n <= gas_remaining (gas s) < 2 ^ 63 ->
  consume_stack_gas n s = Ret tt (spend (stack_cost n) s).
Proof.
  intros Hn Hg. unfold consume_stack_gas. rewrite wrap_u_small by done.
  unfold stack_entry_gas_price. rewrite Z.mul_1_r. unfold stack_cost, free_stack_depth in *.
  apply consume_gas_run; lia.
Qed.

Lemma split_top_run n v :
  0 <= n <= depth v -> split_top n 0 v = Ret (Some (take (Z.to_nat n) v)) (drop (Z.to_nat n) v).
Proof.
  intros Hn. unfold split_top. cbv zeta.
  rewrite (proj2 (Z.ltb_ge _ n)), (proj2 (Z.ltb_ge _ 0)) by lia. cbn [orb]. by rewrite Z.add_0_r.
Qed.
Lemma depth_take n (v : Stack) : 0 <= n <= depth v -> depth (take (Z.to_nat n) v) = n.
Proof. unfold depth. intros ?. rewrite length_take. lia. Qed.
Lemma depth_drop n (v : Stack) : 0 <= n <= depth v -> depth (drop (Z.to_nat n) v) = depth v - n.
Proof. unfold depth. intros ?. rewrite length_drop. lia. Qed.

(** Return to a continuation that takes [r] results onto the stack [rest]. *)
Lemma ret_with_results s2 rest r k0 c cs :
  regs_c0 (cr s2) = Some (OrdCont (mkCData (Some rest) (set_c0 (Some k0) empty_regs) r c) cs) ->
  has_table c = true -> 0 <= r <= depth (stack s2) ->
  r + depth rest < 2 ^ 32 -> stack_cost (r + depth rest) <= gas_remaining (gas s2) < 2 ^ 63 ->
  exists s3, vm_ret s2 = Ret 0 s3 /\ code s3 = cs /\ cp s3 = c /\
    cr s3 = set_c0 (Some k0) (cr s2) /\ stack s3 = take (Z.to_nat r) (stack s2) ++ rest.
Proof.
  intros Hc0 Hc Hr Hlen Hgas. unfold vm_ret, get_c0. unfold bind at 1 2, gets. rewrite Hc0.
  cbn [of_option]. unfold ret at 1. unfold bind, vm_set_c0, modify_cr, modify.
  unfold jump. cbn [needs_adjust get_cdata cdata_stack orb]. unfold jump_args.
  set (s1 := set_cr _ s2). pose proof (depth_nonneg rest) as Hrest.
  assert (exists s', adjust_jump_cont (OrdCont (mkCData (Some rest) (set_c0 (Some k0) empty_regs) r c) cs)
      (-1) s1 = Ret tt s' /\ code s' = code s1 /\ cp s' = cp s1 /\
      cr s' = regs_clear (cr s1) (set_c0 (Some k0) empty_regs) /\
      stack s' = take (Z.to_nat r) (stack s2) ++ rest) as (s' & E & _ & _ & Ecr & Est).
  { unfold adjust_jump_cont. cbn [get_cdata cdata_nargs cdata_save cdata_stack].
    unfold bind at 1, gets. cbn [stack s1 set_cr].
    rewrite (proj2 (Z.ltb_ge _ (-1))), (proj2 (Z.ltb_ge _ r)) by lia. cbn [orb negb].
    rewrite andb_false_r, andb_false_l. cbn [negb]. unfold unless_throw, bind, ret, preclear_cr, modify_cr, modify.
    fold s1. destruct rest as [|e rest].
    - rewrite (proj2 (Z.leb_le 0 r)) by lia. cbn [andb]. change (depth []) with 0 in *.
      rewrite app_nil_r. destruct (Z.ltb_spec r (depth (stack s2))).
      + unfold on_stack, drop_bottom. cbn [stack set_cr s1].
        rewrite (proj2 (Z.leb_le 0 _)), (proj2 (Z.leb_le _ (depth _))) by lia. cbn [andb].
        rewrite consume_stack_gas_run; [|lia|cbn; rewrite Z.add_0_r in Hgas; lia].
        eexists. split; [done|]. split_and!; [done..|]. cbn. f_equal. unfold depth in *. lia.
      + eexists. split; [done|]. split_and!; [done..|]. cbn. rewrite take_ge; [done|]. unfold depth in *. lia.
    - rewrite (proj2 (Z.ltb_ge r 0)) by lia. unfold take_from_stack, move_from_stack. cbn [stack set_cr s1].
      rewrite (proj2 (Z.ltb_ge _ r)) by lia.
      assert (depth (take (Z.to_nat r) (stack s2) ++ e :: rest) = r + depth (e :: rest)) as Ed.
      { rewrite depth_app, depth_take by lia. done. }
      rewrite consume_stack_gas_run; rewrite Ed; [|lia|cbn; lia]. eexists. split; [done|]. by split_and!. }
  unfold bind. rewrite E, jump_to_code by done. eexists. split; [done|]. cbn. split_and!; [done|done| |done].
  rewrite Ecr. cbn. by destruct (cr s2).
Qed.

(** Call with arguments.  CALLXARGS p, r on a continuation without saved c0 and
    without argument limits: with fewer than [p] entries it is a stack underflow that
    changes nothing; otherwise the callee sees exactly the top [p] entries.  When it
    returns with c0 as the call left it and at least [r] entries, the caller finds
    the top [r] of them on top of the entries that it had not passed. *)
Theorem call_args_return s save c cs k0 p r :
  regs_c0 save = None -> has_table c = true -> has_table (cp s) = true -> regs_c0 (cr s) = Some k0 ->
  0 <= p -> 0 <= r -> depth (stack s) + r < 2 ^ 32 ->
  stack_cost p <= gas_remaining (gas s) < 2 ^ 63 ->
  let k := OrdCont (mkCData None save (-1) c) (Some cs) in
  if depth (stack s) <? p then call_args k p r s = Exn (VmError Exc_stk_und) s
  else
    exists s1, call_args k p r s = Ret 0 s1 /\
      code s1 = Some cs /\ cp s1 = c /\ stack s1 = take (Z.to_nat p) (stack s) /\
      forall s2, regs_c0 (cr s2) = regs_c0 (cr s1) -> r <= depth (stack s2) ->
        stack_cost (depth (stack s) - p + r) <= gas_remaining (gas s2) < 2 ^ 63 ->
        exists s3, vm_ret s2 = Ret 0 s3 /\ returned s s2 s3 /\
          stack s3 = take (Z.to_nat r) (stack s2) ++ drop (Z.to_nat p) (stack s).
Proof.
  intros Hsave Hc Hcp Hc0 Hp Hr Hlen Hgas. cbv zeta. unfold call_args, has_c0.
  cbn [get_cdata cdata_save cdata_nargs cdata_stack]. rewrite Hsave.
  pose proof (depth_nonneg (stack s)) as Hd.
  rewrite (proj2 (Z.leb_le 0 p)), (proj2 (Z.ltb_ge p (-1))) by lia.
  change (true && (-1 <? 0)) with true. change (true && (0 <=? -1)) with false. cbv iota.
  destruct (Z.ltb_spec (depth (stack s)) p) as [Hlt|Hle].
  { unfold bind, gets. by rewrite (proj2 (Z.ltb_lt _ _) Hlt). }
  unfold bind, gets, vm_set_c0, preclear_cr, modify_cr, modify.
  rewrite (proj2 (Z.ltb_ge (depth (stack s)) p)), (proj2 (Z.ltb_ge (depth (stack s)) (-1))) by lia.
  cbn [orb andb negb unless_throw]. unfold ret.
  unfold call_stack. rewrite (proj2 (Z.leb_le 0 p)) by done.
  unfold bind, on_stack. cbn [stack set_cr]. rewrite split_top_run by done. cbn [of_option]. unfold ret.
  rewrite consume_stack_gas_run; [|rewrite depth_take by done; lia|rewrite depth_take by done; cbn; lia].
  rewrite depth_take by done. cbv beta iota. unfold call_finish, bind, return_cont, vm_set_c0, modify_cr, modify.
  unfold gets. cbv beta iota.
  rewrite jump_to_code by done. eexists. split; [done|]. split_and!; [done..|].
  intros s2 Hs2 Hr2 Hg2. cbn in Hs2. rewrite regs_c0_xor, regs_c0_set, Hc0 in Hs2 by done.
  assert (depth (drop (Z.to_nat p) (stack s)) = depth (stack s) - p) as Ed by (apply depth_drop; lia).
  destruct (ret_with_results s2 _ r k0 (cp s) (code s) Hs2) as (s3 & E & E1 & E2 & E3 & E4);
    [done|lia|rewrite Ed; lia|rewrite Ed; rewrite Z.add_comm in Hg2; exact Hg2|].
  exists s3. split_and!; [done| |done]. unfold returned. by rewrite Hc0.
Qed.

(** ** TRY *)

Lemma pop_two_conts h k v :
  (check_underflow [2] ;; h <- pop_cont ;; k <- pop_cont ;; ret (h, k)) (t_vmcont h :: t_vmcont k :: v)
    = Ret (h, k) v.
Proof.
  pose proof (depth_nonneg v). unfold bind at 1. rewrite check_underflow_ok.
  2: { apply one_req. unfold depth in *. simpl. lia. }
  unfold pop_cont. unfold bind at 1 2. rewrite check_underflow_ok.
  2: { apply one_req. unfold depth in *. simpl. lia. }
  cbn. unfold bind. rewrite check_underflow_ok; [done|]. apply one_req. unfold depth in *. simpl. lia.
Qed.

(** The registers c0, c1 and c2 of [r], the others of [r']. *)
Definition with_c012 (r r' : ControlRegs) : ControlRegs :=
  set_c0 (regs_c0 r) (set_c1 (regs_c1 r) (set_c2 (regs_c2 r) r')).

(** The continuation of the code after TRY. *)
Definition after_try s : Continuation :=
  OrdCont (mkCData None (mkRegs (regs_c0 (cr s)) (regs_c1 (cr s)) (regs_c2 (cr s)) None None None None)
    (-1) (cp s)) (code s).

Lemma extract_cc_7 s :
  extract_cc 7 (-1) (-1) s =
    Ret (after_try s) (set_cr (set_c2 None (set_c1 (Some quit1) (set_c0 (Some quit0) (cr s))))
      (set_code_field None s)).
Proof. unfold extract_cc, after_try. by destruct s. Qed.

Lemma ret_after_try s s2 k0 k1 k2 :
  has_table (cp s) = true -> regs_c0 (cr s2) = Some (after_try s) ->
  regs_c0 (cr s) = Some k0 -> regs_c1 (cr s) = Some k1 -> regs_c2 (cr s) = Some k2 ->
  exists s3, vm_ret s2 = Ret 0 s3 /\ code s3 = code s /\ cp s3 = cp s /\
    cr s3 = with_c012 (cr s) (cr s2) /\ stack s3 = stack s2 /\ gas s3 = gas s2.
Proof.
  intros Hcp Hs2 H0' H1' H2'. unfold vm_ret, get_c0, bind, gets. rewrite Hs2. cbn [of_option].
  unfold ret, vm_set_c0, modify_cr, modify, after_try. rewrite jump_simple by done.
  eexists. split; [done|]. cbn. split_and!; try done. unfold with_c012. rewrite H0', H1', H2'.
  by destruct (cr s2).
Qed.

(** C23: TRY.  The body starts on the rest of the stack.  If it returns (with c0 as TRY
    left it), the code after TRY goes on, with c0, c1 and c2 of the caller restored and
    the body's stack.  If it throws (with c2 as TRY left it) and there is gas for the
    exception, the handler starts on a stack with just the number and the argument of
    the exception, with c2 restored, so that its own exceptions go to the outer
    handler, and with the code after TRY as its return address. *)
Theorem try_catches s h hsave hc b bsave bc v k0 k1 k2 :
  stack s = t_vmcont (OrdCont (mkCData None hsave (-1) hc) (Some h))
            :: t_vmcont (OrdCont (mkCData None bsave (-1) bc) (Some b)) :: v ->
  regs_c0 hsave = None -> regs_c2 hsave = None -> regs_c0 bsave = None -> regs_c2 bsave = None ->
  has_table hc = true -> has_table bc = true -> has_table (cp s) = true ->
  regs_c0 (cr s) = Some k0 -> regs_c1 (cr s) = Some k1 -> regs_c2 (cr s) = Some k2 ->
  exists s1, exec_try (-1) s = Ret 0 s1 /\ code s1 = Some b /\ cp s1 = bc /\ stack s1 = v /\
    (forall s2, regs_c0 (cr s2) = regs_c0 (cr s1) ->
       exists s3, vm_ret s2 = Ret 0 s3 /\ code s3 = code s /\ cp s3 = cp s /\
         cr s3 = with_c012 (cr s) (cr s2) /\ stack s3 = stack s2) /\
    (forall s2 n arg, regs_c2 (cr s2) = regs_c2 (cr s1) -> 50 <= gas_remaining (gas s2) < 2 ^ 63 ->
       exists s3, throw_exception_arg n arg s2 = Ret 0 s3 /\ code s3 = Some h /\ cp s3 = hc /\
         stack s3 = [t_int (Int n); arg] /\ regs_c2 (cr s3) = Some k2 /\
         regs_c0 (cr s3) = regs_c0 (cr s1)).
Proof.
  intros Hst Hh0 Hh2 Hk0 Hk2 Hhc Hkc Hcp E0 E1 E2. unfold exec_try. cbv zeta.
  unfold bind at 1, on_stack. rewrite Hst. change (0 <=? -1) with false. cbv iota.
  rewrite pop_two_conts. unfold bind at 1, gets. cbv beta iota. unfold bind at 1. rewrite extract_cc_7.
  unfold bind, vm_set_c0, vm_set_c2, modify_cr, modify. cbn [cr set_cr set_stack set_code_field].
  rewrite jump_simple by done. eexists. split; [done|]. split_and!; [done..| |].
  - intros s2 Hs2. cbn in Hs2. rewrite regs_c0_xor in Hs2 by done. destruct (cr s) eqn:Ecr.
    destruct (ret_after_try (set_stack v s) s2 k0 k1 k2) as (s3 & E & ? & ? & ? & ? & _);
      [done| |by cbn; rewrite Ecr..|].
    { rewrite Hs2. unfold after_try. cbn. by rewrite Ecr. }
    exists s3. split_and!; try done. cbn in *. by rewrite Ecr in *.
  - intros s2 n arg Hs2 Hgas. unfold throw_exception_arg, bind, modify. cbv beta iota.
    assert (consume_gas_chk exception_gas_price (set_code_field None (set_stack [t_int (Int n); arg] s2))
      = Ret tt (spend 50 (set_code_field None (set_stack [t_int (Int n); arg] s2)))) as ->.
    { unfold consume_gas_chk, bind, gas_consume, exception_gas_price. cbn.
      rewrite (proj2 (fits_s_spec 64 _)) by (cbn; lia). cbn.
      by rewrite (proj2 (Z.leb_le 0 _)) by lia. }
    unfold get_c2, bind, gets. cbn [cr spend set_gas set_code_field set_stack].
    assert (regs_c2 (cr s2) = Some (OrdCont (mkCData None
      (set_c0 (Some (after_try (set_stack v s))) (set_c2 (Some k2) hsave)) (-1) hc) (Some h))) as ->.
    { rewrite Hs2. destruct bsave, (cr s), hsave. simpl in *. by subst. }
    cbn [of_option]. unfold ret. rewrite jump_simple by done. eexists. split; [done|].
    split_and!; [done..| |]; unfold at_code; cbn [cr set_cp_field set_code_field set_cr].
    + by destruct hsave, (cr (spend _ _)).
    + rewrite (regs_c0_xor _ bsave) by done. by destruct hsave, (cr (spend _ _)), (cr s).
Qed.

(** ** RUNVM *)

(** What a child machine that ended with the exit code [res] leaves on the stack of its
    parent: from the bottom, the values, the exit code, then the new data, the actions
    and the gas that were asked for. *)
Definition child_values (p : ParentVmState) child (res : Z) : list StackEntry * Z :=
  if negb ((res =? 0) || (res =? 1)) then (take 1 (stack child), res)
  else if ret_vals p <? 0 then (stack child, res)
  else if ret_vals p <=? depth (stack child) then (take (Z.to_nat (ret_vals p)) (stack child), res)
  else ([t_int (Int 0)], -3).
Definition committed_entry child (c : option Cell) : StackEntry :=
  if committed (cstate child) then match c with Some c => t_cell c | None => t_null end else t_null.
Definition child_results (p : ParentVmState) child (res : Z) : list StackEntry :=
  let '(vals, code) := child_values p child res in
  (if return_gas p then [t_int (Int (gas_consumed (gas child)))] else []) ++
  (if return_actions p then [committed_entry child (com_c5 (cstate child))] else []) ++
  (if return_data p then [committed_entry child (com_c4 (cstate child))] else []) ++
  t_int (Int code) :: vals.

(** The part of a machine that a child cannot touch. *)
Definition same_context s s' : Prop :=
  code s' = code s /\ cr s' = cr s /\ cp s' = cp s /\ cstate s' = cstate s /\ parent s' = parent s.

Definition child_charge child : Z := Z.min (gas_consumed (gas child)) (gas_limit (gas child) + 1).

Lemma same_context_trans s1 s2 s3 : same_context s1 s2 -> same_context s2 s3 -> same_context s1 s3.
Proof. unfold same_context. intros (?&?&?&?&?) (?&?&?&?&?). split_and!; congruence. Qed.

Lemma push_committed_run (b : bool) child c s :
  (committed (cstate child) = true -> is_Some c) ->
  (if b then push_committed (negb (committed (cstate child))) c else ret tt) s =
    Ret tt (set_stack ((if b then [committed_entry child c] else []) ++ stack s) s).
Proof.
  intros Hc. destruct b; [|by destruct s]. unfold push_committed, committed_entry.
  destruct (committed _); [|done]. destruct Hc as [x ->]; done.
Qed.

(** The end of [restore_parent_vm]: [n] entries of the child's stack, the exit code [r]
    and the other results go to the parent. *)
Definition hand_over (p : ParentVmState) child (n r : Z) : M VmState unit :=
  consume_stack_gas n ;;
  on_stack (modify (fun v => take (Z.to_nat n) (stack child) ++ v)) ;;
  on_stack (push_smallint r) ;;
  v <- gets global_version ;;
  let absent := (11 <=? v) && negb (committed (cstate child)) in
  (if return_data p then push_committed absent (com_c4 (cstate child)) else ret tt) ;;
  (if return_actions p then push_committed absent (com_c5 (cstate child)) else ret tt) ;;
  (if return_gas p then on_stack (push_smallint (gas_consumed (gas child))) else ret tt).

Lemma push_results_run p child n r s :
  11 <= global_version s -> 0 <= n < 2 ^ 32 -> stack_cost n <= gas_remaining (gas s) < 2 ^ 63 ->
  (committed (cstate child) = true -> is_Some (com_c4 (cstate child)) /\ is_Some (com_c5 (cstate child))) ->
  exists s',
 hand_over p child n r s = Ret tt s' /\
  same_context s s' /\ gas s' = gas (spend (stack_cost n) s) /\
  stack s' = (if return_gas p then [t_int (Int (gas_consumed (gas child)))] else []) ++
    (if return_actions p then [committed_entry child (com_c5 (cstate child))] else []) ++
    (if return_data p then [committed_entry child (com_c4 (cstate child))] else []) ++
    t_int (Int r) :: take (Z.to_nat n) (stack child) ++ stack s.
Proof.
  intros Hv Hn Hg Hc. unfold hand_over, bind at 1. rewrite consume_stack_gas_run by done.
  unfold bind at 1 2 3, on_stack, modify, push_smallint, push, gets. cbv zeta.
  cbn [stack set_stack spend set_gas global_version]. unfold modify.
  rewrite (proj2 (Z.leb_le 11 _)) by done. cbn [andb].
  unfold bind. rewrite push_committed_run by naive_solver. rewrite push_committed_run by naive_solver.
  destruct (return_gas p); (eexists; split; [done|]; by split_and!).
Qed.

(** The number of values and the exit code that [restore_parent_vm] computes. *)
Lemma count_results p child res s :
  depth (stack child) < 2 ^ 32 ->
  exists n r extra, 0 <= n < 2 ^ 32 /\
    child_values p child res = (take (Z.to_nat n) (stack child) ++ extra, r) /\
    stack_cost n = stack_cost (depth (child_values p child res).1) /\
    (if (res =? 0) || (res =? 1) then
       if 0 <=? ret_vals p then
         if ret_vals p <=? depth (stack child) then ret (ret_vals p, res)
         else on_stack (push_smallint 0) ;; ret (0, Z.lnot (get_errno Exc_stk_und))
       else ret (depth (stack child), res)
     else ret (Z.min (depth (stack child)) 1, res)) s = Ret (n, r) (set_stack (extra ++ stack s) s).
Proof.
  intros Hlen. pose proof (depth_nonneg (stack child)) as Hd. unfold child_values.
  assert (set_stack (stack s) s = s) as Hid by (by destruct s).
  destruct (_ || _); cbn [negb].
  - rewrite Z.ltb_antisym. destruct (Z.leb_spec 0 (ret_vals p)); cbn [negb].
    + destruct (Z.leb_spec (ret_vals p) (depth (stack child))).
      * exists (ret_vals p), res, []. cbn [fst app]. rewrite app_nil_r, depth_take, Hid by lia. split_and!; [lia|lia|done..].
      * exists 0, (-3), [t_int (Int 0)]. by split_and!.
    + exists (depth (stack child)), res, []. cbn [fst app]. rewrite app_nil_r, Hid.
      unfold depth at 3. rewrite Nat2Z.id, firstn_all. by split_and!.
  - exists (Z.min (depth (stack child)) 1), res, []. cbn [fst app]. rewrite app_nil_r, Hid.
    destruct (stack child) as [|e v]; [by split_and!|]. rewrite depth_cons in *.
    pose proof (depth_nonneg v). rewrite Z.min_r by lia. split_and!; [lia|lia|done..].
Qed.

(** C16: RUNVM.  When a child machine ends, its parent (version 11 or later) gets back
    exactly the results that it asked for: [ret_vals] values of a successful child, or
    0 and the code of a stack underflow if it left fewer, the exception's argument of
    a failed one, then the exit code, the committed data and actions (null if nothing
    was committed) and the gas used.  Its code, registers, codepage, committed state
    and own parent are untouched, and it pays the gas that the child used, at most the
    child's limit and one unit more. *)
Theorem runvm_returns child p res :
  parent child = Some p -> 11 <= global_version (p_state p) ->
  depth (stack child) < 2 ^ 32 -> 0 <= child_charge child ->
  child_charge child + stack_cost (depth (child_values p child res).1)
    <= gas_remaining (gas (p_state p)) < 2 ^ 63 ->
  (committed (cstate child) = true -> is_Some (com_c4 (cstate child)) /\ is_Some (com_c5 (cstate child))) ->
  exists s, restore_parent_vm res child = Ret tt s /\ same_context (p_state p) s /\
    stack s = child_results p child res ++ stack (p_state p) /\
    gas_remaining (gas s) = gas_remaining (gas (p_state p)) - child_charge child
      - stack_cost (depth (child_values p child res).1).
Proof.
  intros Hp Hv Hlen Hch Hg Hc. unfold restore_parent_vm. rewrite Hp. cbv zeta.
  fold (child_charge child). set (s0 := set_free_gas_consumed _ _).
  assert (same_context (p_state p) s0 /\ gas s0 = gas (p_state p) /\ stack s0 = stack (p_state p) /\
    global_version s0 = global_version (p_state p)) as (Hctx & Eg & Est & Ev).
  { unfold s0. destruct (isolate_gas p); by split_and!. }
  clearbody s0.
  assert (0 <= stack_cost (depth (child_values p child res).1)) as Hsc by (unfold stack_cost; lia).
  unfold bind at 1. rewrite consume_gas_run by (rewrite Eg; lia). unfold bind at 1.
  destruct (count_results p child res (spend (child_charge child) s0)) as (n & r & extra & Hn & E & Hsn & ->);
    [done|]. rewrite <- Hsn in Hg |- *.
  destruct (push_results_run p child n r (set_stack (extra ++ stack s0) (spend (child_charge child) s0)))
    as (s & Er & Hcx & Egs & Ess); [by cbn; rewrite Ev|done|cbn; rewrite Eg; lia|done|].
  exists s. split; [exact Er|]. split; [by apply (same_context_trans _ s0)|].
  split; [|rewrite Egs; cbn; rewrite Eg; lia].
  rewrite Ess. unfold child_results. rewrite E. cbn [stack spend set_gas set_stack]. rewrite Est.
  by rewrite <- !(assoc_L (++)), <- app_comm_cons, <- (assoc_L (++)).
Qed.
End control_spec.

(** ** Examples *)

#[local] Instance toy_hash : Sha256 := toy_sha.
#[local] Instance no_libraries : LibDict := fun _ _ => ([], None).

Definition code_of (bytes : list Z) : CellSlice :=
  slice_of_cell (DataCell false (concat (map (Z_to_bits 8) bytes)) []).
Definition cont_of (bytes : list Z) : Continuation :=
  OrdCont (mkCData None empty_regs (-1) 0) (Some (code_of bytes)).
(** A machine of version 11 with a thousand units of gas, at the code [0x70]. *)
Definition caller_vm (v : Stack) : VmState :=
  new_vm (Some (code_of [0x70])) 11 v (new_gas 1000 1000 0) 0 None [] None.

Lemma call_return_witness :
  exists s1, call (cont_of [0x71]) (caller_vm [t_null]) = Ret 0 s1 /\
    exists s3, vm_ret s1 = Ret 0 s3 /\ returned (caller_vm [t_null]) s1 s3 /\ stack s3 = [t_null].
Proof.
  destruct (call_return (caller_vm [t_null]) empty_regs 0 (code_of [0x71]) quit0)
    as (s1 & E & _ & _ & Est & _ & Hret); [reflexivity..|].
  exists s1. split; [exact E|]. destruct (Hret s1) as (s3 & E3 & Hr & Es & _); [reflexivity|].
  exists s3. split; [exact E3|]. split; [exact Hr|]. rewrite Es, Est. reflexivity.
Defined.

Lemma call_args_return_witness :
  exists s1, call_args (cont_of [0x71]) 1 1 (caller_vm [t_null; t_int (Int 5)]) = Ret 0 s1 /\
    exists s3, vm_ret s1 = Ret 0 s3 /\ stack s3 = [t_null; t_int (Int 5)].
Proof.
  destruct (call_args_return (caller_vm [t_null; t_int (Int 5)]) empty_regs 0 (code_of [0x71]) quit0 1 1)
    as (s1 & E & _ & _ & Est & Hret); [reflexivity..|lia|lia|reflexivity|split; [discriminate|reflexivity]|].
  exists s1. split; [exact E|].
  assert (gas s1 = new_gas 1000 1000 0) as Eg by (vm_compute in E; injection E as <-; reflexivity).
  destruct (Hret s1) as (s3 & E3 & _ & Es);
    [reflexivity|rewrite Est; discriminate|rewrite Eg; split; [discriminate|reflexivity]|].
  exists s3. split; [exact E3|]. rewrite Es, Est. reflexivity.
Defined.

Lemma try_catches_witness :
  exists s1, exec_try (-1) (caller_vm [t_vmcont (cont_of [0x72]); t_vmcont (cont_of [0x71]); t_null]) = Ret 0 s1 /\
    stack s1 = [t_null] /\
    exists s3, throw_exception_arg 5 (t_int (Int 0)) s1 = Ret 0 s3 /\
      code s3 = Some (code_of [0x72]) /\ stack s3 = [t_int (Int 5); t_int (Int 0)].
Proof.
  destruct (try_catches (caller_vm [t_vmcont (cont_of [0x72]); t_vmcont (cont_of [0x71]); t_null])
    (code_of [0x72]) empty_regs 0 (code_of [0x71]) empty_regs 0 [t_null] quit0 quit1 ExcQuitCont)
    as (s1 & E & _ & _ & Est & _ & Hthrow); [reflexivity..|].
  exists s1. split; [exact E|]. split; [exact Est|].
  assert (gas s1 = new_gas 1000 1000 0) as Eg by (vm_compute in E; injection E as <-; reflexivity).
  destruct (Hthrow s1 5 (t_int (Int 0))) as (s3 & E3 & Ec & _ & Es & _);
    [reflexivity|rewrite Eg; split; [discriminate|reflexivity]|].
  exists s3. split; [exact E3|]. split; [exact Ec|exact Es].
Defined.

(** A child that used 100 of its 500 units and left three values, of which its parent
    asked for two. *)
Definition child_vm : VmState :=
  set_parent (Some (mkParent (caller_vm [t_null]) true false true false 2))
    (set_gas (mkGas 500 500 0 400 500)
       (new_vm (Some (code_of [])) 11 [t_int (Int 1); t_int (Int 2); t_int (Int 3)] (new_gas 500 500 0) 0 None [] None)).
Lemma runvm_returns_witness :
  exists s, restore_parent_vm 0 child_vm = Ret tt s /\
    stack s = [t_int (Int 100); t_null; t_int (Int 0); t_int (Int 1); t_int (Int 2); t_null] /\
    gas_remaining (gas s) = 900.
Proof.
  destruct (runvm_returns child_vm (mkParent (caller_vm [t_null]) true false true false 2) 0)
    as (s & E & _ & Es & Eg);
    [reflexivity|discriminate|reflexivity|discriminate|split; [discriminate|reflexivity]|discriminate|].
  exists s. split; [exact E|]. rewrite Es, Eg. split; reflexivity.
Defined.
