(* ===== verification/Simplex.v ===== *)
(** * Simplex consensus: votes, certificates, slots

    The data of validator/consensus/simplex: the three kinds of votes, signed votes and
    certificates (votes.h, certificate.cpp), the votes that one validator has cast for a
    slot (class [Tsentrizbirkom] of pool.cpp), the certificates of a slot
    ([CertificateBundle]) and the map from slots to their states (state.h).  Slots are
    [uint32], weights [uint64]. *)
From S2P Require Import Prelude.
From stdpp Require Export gmap.
#[global] Open Scope Z_scope.
#[global] Open Scope code_scope.

(** ** Candidates and votes *)

(** [struct CandidateId]: the slot and a 256-bit hash, compared in that order. *)
Record CandidateId : Type := mkCandidateId { id_slot : Z; id_hash : Z }.
#[export] Instance CandidateId_eq_dec : EqDecision CandidateId.
Proof. solve_decision. Defined.
#[export] Instance CandidateId_countable : Countable CandidateId.
Proof.
  apply (inj_countable' (fun i => (id_slot i, id_hash i)) (fun p => mkCandidateId p.1 p.2)). by intros [].
Defined.
Definition candidate_geb (a b : CandidateId) : bool :=
  (id_slot b <? id_slot a) || ((id_slot a =? id_slot b) && (id_hash b <=? id_hash a)).

(** [using ParentId = std::optional<CandidateId>]; an empty optional is the least. *)
Definition ParentId : Type := option CandidateId.
Definition parent_geb (a b : ParentId) : bool :=
  match a, b with
  | _, None => true
  | None, Some _ => false
  | Some a, Some b => candidate_geb a b
  end.

Inductive Vote : Type :=
| NotarizeVote (id : CandidateId)
| FinalizeVote (id : CandidateId)
| SkipVote (slot : Z).
#[export] Instance Vote_eq_dec : EqDecision Vote.
Proof. solve_decision. Defined.
Definition referenced_slot (v : Vote) : Z :=
  match v with NotarizeVote id | FinalizeVote id => id_slot id | SkipVote slot => slot end.

(** The type of a vote, which selects one of three fields in the templates of pool.cpp. *)
Inductive VoteType : Type := TNotarize | TSkip | TFinalize.
#[export] Instance VoteType_eq_dec : EqDecision VoteType.
Proof. solve_decision. Defined.
Definition vote_type (v : Vote) : VoteType :=
  match v with NotarizeVote _ => TNotarize | FinalizeVote _ => TFinalize | SkipVote _ => TSkip end.

Definition Signature : Type := list Byte.byte.
#[export] Instance byte_eq_dec : EqDecision Byte.byte := Byte.byte_eq_dec.

Record Signed : Type := mkSigned { sg_validator : nat; sg_vote : Vote; sg_signature : Signature }.
Record Certificate : Type := mkCertificate { cert_vote : Vote; signatures : list (nat * Signature) }.
#[export] Instance Signed_eq_dec : EqDecision Signed.
Proof. solve_decision. Defined.
#[export] Instance Certificate_eq_dec : EqDecision Certificate.
Proof. solve_decision. Defined.

(** ** The bus

    The validators of the session in order, with their weights; the length of a leader
    window; and the check of a signature under a validator's key, which stands for the
    library of signatures. *)
Class Bus : Type := {
  validator_set : list Z;
  slots_per_leader_window : Z;
  check_signature : nat -> Vote -> Signature -> bool;
}.

Section bus.
Context `{Bus}.
Definition validators : nat := length validator_set.
Definition weight (idx : nat) : Z := default 0 (validator_set !! idx).
(** The sum of the weights (bridge.cpp), in [uint64]. *)
Definition total_weight : Z := foldl (fun t w => wrap_u 64 (t + w)) 0 validator_set.
Definition weight_threshold : Z := wrap_u 64 (wrap_u 64 (total_weight * 2) / 3 + 1).

(** *** Reading votes and certificates from messages *)

(** [Signed::from_tl] *)
Definition signed_from_tl (v : Vote) (sig : Signature) (validator : nat) : option Signed :=
  if check_signature validator v sig then Some (mkSigned validator v sig) else None.

(** The first loop of [Certificate::from_tl]: indices in range, none twice; the weight. *)
Fixpoint collect_signatures (votes : list (nat * Signature)) (voted : list bool) (voted_weight : Z) : option Z :=
  match votes with
  | [] => Some voted_weight
  | (who, _) :: votes' =>
      match voted !! who with
      | None | Some true => None
      | Some false => collect_signatures votes' (<[who := true]> voted) (wrap_u 64 (voted_weight + weight who))
      end
  end.
Definition certificate_from_tl (v : Vote) (votes : list (nat * Signature)) : option Certificate :=
  match collect_signatures votes (replicate validators false) 0 with
  | None => None
  | Some voted_weight =>
      if voted_weight <? weight_threshold then None
      else if forallb (fun '(who, sig) => check_signature who v sig) votes then Some (mkCertificate v votes)
      else None
  end.
End bus.

(** ** The votes of one validator for a slot *)

(** [struct Proven]: a vote with its signature, or with a certificate that has one. *)
Inductive Proof : Type :=
| by_signature (s : Signed)
| by_certificate (c : Certificate).
Record Proven : Type := mkProven { pv_vote : Vote; pv_proof : Proof }.
Definition proven_signed (s : Signed) : Proven := mkProven (sg_vote s) (by_signature s).
Definition proven_cert (c : Certificate) : Proven := mkProven (cert_vote c) (by_certificate c).

Record Tsentrizbirkom : Type := mkVotes {
  notarize_ : option Proven; skip_ : option Proven; finalize_ : option Proven }.
Definition no_votes : Tsentrizbirkom := mkVotes None None None.
Definition stored_vote (ty : VoteType) (t : Tsentrizbirkom) : option Proven :=
  match ty with TNotarize => notarize_ t | TSkip => skip_ t | TFinalize => finalize_ t end.
Definition store_vote (ty : VoteType) (p : Proven) (t : Tsentrizbirkom) : Tsentrizbirkom :=
  match ty with
  | TNotarize => mkVotes (Some p) (skip_ t) (finalize_ t)
  | TSkip => mkVotes (notarize_ t) (Some p) (finalize_ t)
  | TFinalize => mkVotes (notarize_ t) (skip_ t) (Some p)
  end.

(** [ConflictingVotes] with its two proofs, and [ConflictingCandidateAndCertificate]. *)
Inductive Misbehavior : Type :=
| ConflictingVotes (vote1 vote2 : Proven)
| ConflictingCandidateAndCertificate.
Inductive AddVoteResult : Type :=
| misbehavior (m : Misbehavior)
| is_applied (b : bool).

Definition wants (v : Vote) (t : Tsentrizbirkom) : bool :=
  match stored_vote (vote_type v) t with Some _ => false | None => true end.

(** The identifier that a notarize or finalize vote is for. *)
Definition vote_id (v : Vote) : option CandidateId :=
  match v with NotarizeVote id | FinalizeVote id => Some id | SkipVote _ => None end.

Definition check_invariants (t : Tsentrizbirkom) : option Misbehavior :=
  match notarize_ t, finalize_ t, skip_ t with
  | Some n, Some f, sk =>
      if bool_decide (vote_id (pv_vote n) <> vote_id (pv_vote f)) then Some (ConflictingVotes n f)
      else match sk with Some s => Some (ConflictingVotes f s) | None => None end
  | None, Some f, Some s => Some (ConflictingVotes f s)
  | _, _, _ => None
  end.

(** The three overloads of [add_vote]; that for [SkipVote] does not compare. *)
Definition add_vote (p : Proven) (t : Tsentrizbirkom) : AddVoteResult * Tsentrizbirkom :=
  let ty := vote_type (pv_vote p) in
  match stored_vote ty t with
  | Some q =>
      if bool_decide (ty <> TSkip /\ pv_vote q <> pv_vote p) then (misbehavior (ConflictingVotes p q), t)
      else (is_applied false, t)
  | None =>
      let t' := store_vote ty p t in
      match check_invariants t' with
      | Some m => (misbehavior m, t)
      | None => (is_applied true, t')
      end
  end.

(** ** The certificates of a slot *)

Record CertAndFlag : Type := mkCertAndFlag { being_saved : bool; cert : option Certificate }.
Record CertificateBundle : Type := mkBundle { notar_ : CertAndFlag; skip_cert_ : CertAndFlag; final_ : CertAndFlag }.
Definition no_cert : CertAndFlag := mkCertAndFlag false None.
Definition no_certs : CertificateBundle := mkBundle no_cert no_cert no_cert.
Definition bundle_get (ty : VoteType) (b : CertificateBundle) : CertAndFlag :=
  match ty with TNotarize => notar_ b | TSkip => skip_cert_ b | TFinalize => final_ b end.
Definition bundle_set (ty : VoteType) (c : CertAndFlag) (b : CertificateBundle) : CertificateBundle :=
  match ty with
  | TNotarize => mkBundle c (skip_cert_ b) (final_ b)
  | TSkip => mkBundle (notar_ b) c (final_ b)
  | TFinalize => mkBundle (notar_ b) (skip_cert_ b) c
  end.

Definition has_cert (ty : VoteType) (b : CertificateBundle) : bool :=
  match cert (bundle_get ty b) with Some _ => true | None => false end.
Definition needs (v : Vote) (b : CertificateBundle) : bool :=
  negb (has_cert (vote_type v) b) && negb (being_saved (bundle_get (vote_type v) b)).
(** [remember_prospective] is only called when [needs] holds, which it checks. *)
Definition remember_prospective (v : Vote) (b : CertificateBundle) : option CertificateBundle :=
  if needs v b then Some (bundle_set (vote_type v) (mkCertAndFlag true None) b) else None.
(** [store]: the new bundle, or nothing when there is a certificate already. *)
Definition store_cert (c : Certificate) (b : CertificateBundle) : option CertificateBundle :=
  let ty := vote_type (cert_vote c) in
  match cert (bundle_get ty b) with
  | Some _ => None
  | None => Some (bundle_set ty (mkCertAndFlag (being_saved (bundle_get ty b)) (Some c)) b)
  end.

(** ** The state of a slot *)

Record SlotState : Type := mkSlotState {
  votes : list Tsentrizbirkom;
  certs : CertificateBundle;
  skip_weight : Z;
  notarize_weight : gmap CandidateId Z;
  finalize_weight : gmap CandidateId Z;
  available_base : option ParentId }.
Definition new_slot (n : nat) : SlotState := mkSlotState (replicate n no_votes) no_certs 0 ∅ ∅ None.

Definition set_votes vs (s : SlotState) : SlotState :=
  mkSlotState vs (certs s) (skip_weight s) (notarize_weight s) (finalize_weight s) (available_base s).
Definition set_certs cs (s : SlotState) : SlotState :=
  mkSlotState (votes s) cs (skip_weight s) (notarize_weight s) (finalize_weight s) (available_base s).
Definition set_base b (s : SlotState) : SlotState :=
  mkSlotState (votes s) (certs s) (skip_weight s) (notarize_weight s) (finalize_weight s) b.

Definition is_notarized (s : SlotState) : bool := has_cert TNotarize (certs s).
Definition is_skipped (s : SlotState) : bool := has_cert TSkip (certs s).
Definition is_finalized (s : SlotState) : bool := has_cert TFinalize (certs s).
(** [will_be_notarized], [will_be_skipped], [will_be_finalized] *)
Definition will_have_cert (ty : VoteType) (s : SlotState) : bool :=
  has_cert ty (certs s) || being_saved (bundle_get ty (certs s)).
Definition notarized_block (s : SlotState) : option CandidateId :=
  match cert (notar_ (certs s)) with
  | Some c => vote_id (cert_vote c)
  | None => match cert (final_ (certs s)) with Some c => vote_id (cert_vote c) | None => None end
  end.
Definition add_available_base (parent : ParentId) (s : SlotState) : SlotState :=
  match available_base s with
  | None => set_base (Some parent) s
  | Some b => if parent_geb parent b then set_base (Some parent) s else s
  end.

(** The weight of the votes for [v], and the same after one more vote of weight [w]
    ([skip_weight += w], [notarize_weight[id] += w], [finalize_weight[id] += w]). *)
Definition weight_for (v : Vote) (s : SlotState) : Z :=
  match v with
  | NotarizeVote id => default 0 (notarize_weight s !! id)
  | FinalizeVote id => default 0 (finalize_weight s !! id)
  | SkipVote _ => skip_weight s
  end.
Definition add_weight (v : Vote) (w : Z) (s : SlotState) : SlotState :=
  let new := wrap_u 64 (weight_for v s + w) in
  match v with
  | NotarizeVote id =>
      mkSlotState (votes s) (certs s) (skip_weight s) (<[id := new]> (notarize_weight s)) (finalize_weight s) (available_base s)
  | FinalizeVote id =>
      mkSlotState (votes s) (certs s) (skip_weight s) (notarize_weight s) (<[id := new]> (finalize_weight s)) (available_base s)
  | SkipVote _ => mkSlotState (votes s) (certs s) new (notarize_weight s) (finalize_weight s) (available_base s)
  end.

(** [Proven::to_signature]: undefined ([None]) when an equal vote is not proven by a
    signature. *)
Definition to_signature (v : Vote) (t : Tsentrizbirkom) : option (option (nat * Signature)) :=
  match stored_vote (vote_type v) t with
  | None => Some None
  | Some p =>
      if bool_decide (v = pv_vote p) then
        match pv_proof p with
        | by_signature s => Some (Some (sg_validator s, sg_signature s))
        | by_certificate _ => None
        end
      else Some None
  end.
Fixpoint collect_votes (v : Vote) (ts : list Tsentrizbirkom) : option (list (nat * Signature)) :=
  match ts with
  | [] => Some []
  | t :: ts' =>
      match to_signature v t, collect_votes v ts' with
      | Some (Some sig), Some sigs => Some (sig :: sigs)
      | Some None, Some sigs => Some sigs
      | _, _ => None
      end
  end.
Definition create_cert (v : Vote) (s : SlotState) : option Certificate :=
  match collect_votes v (votes s) with Some sigs => Some (mkCertificate v sigs) | None => None end.

(** ** Slots (class [ConsensusState])

    [objects_] holds the state objects of the slots.  The map [slots_] of the code is
    its part from [first_non_finalized_slot_] on; an object below has been erased from
    [slots_], but a suspended coroutine may still hold a reference to it. *)
Record ConsensusState (A : Type) : Type := mkConsensusState {
  first_non_finalized_slot_ : Z;
  objects_ : gmap Z A }.
Arguments mkConsensusState {A} _ _.
Arguments first_non_finalized_slot_ {A} _.
Arguments objects_ {A} _.

Section slots.
Context {A : Type} (new : A).
Implicit Types st : ConsensusState A.
Definition empty_state : ConsensusState A := mkConsensusState 0 ∅.
(** The object behind a reference. *)
Definition deref (slot : Z) st : A := default new (objects_ st !! slot).
Definition update_slot (f : A -> A) (slot : Z) st : ConsensusState A :=
  mkConsensusState (first_non_finalized_slot_ st) (<[slot := f (deref slot st)]> (objects_ st)).
(** [slot_at]: a reference to the slot, created when missing, or nothing. *)
Definition slot_at (slot : Z) st : option Z * ConsensusState A :=
  if slot <? first_non_finalized_slot_ st then (None, st)
  else match objects_ st !! slot with
       | Some _ => (Some slot, st)
       | None => (Some slot, update_slot id slot st)
       end.
Definition notify_finalized (slot : Z) st : ConsensusState A :=
  mkConsensusState (Z.max (first_non_finalized_slot_ st) (wrap_u 32 (slot + 1))) (objects_ st).
Definition tracked_slots_interval st : Z * Z :=
  let first := first_non_finalized_slot_ st in
  let keys := filter (fun k => first <= k) (map fst (map_to_list (objects_ st))) in
  (first, match keys with [] => first | k :: ks => wrap_u 32 (foldr Z.max k ks + 1) end).
End slots.

(** [std::set::set_lower_bound]: the least element that is not less than [x]. *)
Definition set_lower_bound (x : Z) (s : gset Z) : option Z :=
  match filter (fun k => x <= k) (elements s) with [] => None | k :: ks => Some (foldr Z.min k ks) end.
