(* ===== verification/SimplexPool.v ===== *)
(** * The vote pool

    The actor [PoolImpl] of validator/consensus/simplex/pool.cpp: it collects votes and
    certificates of all validators, forms certificates, follows the present slot and
    tells when a candidate's parent is settled.  A handler is a computation on the
    pool; a failed [CHECK] is undefined behaviour.  What the actor publishes on the bus
    is appended to [published].  The coroutines that wait for the keyring
    ([handle_our_vote]) or the database ([handle_prospective_certificate]) are kept in
    [signing] and [saving], and their continuations are definitions of their own.
    Logging, tracing and the timing of the standstill broadcast are left out. *)
From S2P Require Import Prelude Simplex.

(** Results of [maybe_resolve_request] through the promise of a request. *)
Inductive Resolution : Type :=
| ParentReady
| ParentMisbehavior (m : Misbehavior)
| SlotFinalized.

Inductive BusEvent : Type :=
| OutgoingVote (s : Signed)
| OutgoingCertificate (c : Certificate)
| NotarizationObserved (id : CandidateId)
| FinalizationObserved (id : CandidateId)
| LeaderWindowObserved (start_slot : Z) (base : ParentId)
| MisbehaviorReport (idx : nat) (m : Misbehavior)
| RequestResolved (id : CandidateId) (parent : ParentId) (r : Resolution).

Record Request : Type := mkRequest { rq_id : CandidateId; rq_parent : ParentId }.
Record OurVote : Type := mkOurVote { ov_vote : Vote; tolerate_conflicts : bool; suppress_vote_broadcast : bool }.

Record Pool : Type := mkPool {
  max_leader_window_desync : Z;
  bad_signature_ban_duration : Z;
  state_ : ConsensusState SlotState;
  suppress_certificate_broadcast_ : bool;
  is_started_ : bool;
  now_ : Z;
  skip_intervals_ : gset Z;
  first_nonannounced_window_ : Z;
  last_finalized_block_ : ParentId;
  last_final_cert_ : option Certificate;
  first_nonfinalized_slot_ : Z;
  bad_signature_bans_ : gmap nat Z;
  requests_ : list Request;
  seen_broadcasts_ : gmap Z Z;
  signing : list OurVote;
  saving : list Certificate;
  published : list BusEvent }.

Definition set_state x (p : Pool) : Pool :=
  mkPool (max_leader_window_desync p) (bad_signature_ban_duration p) x (suppress_certificate_broadcast_ p)
    (is_started_ p) (now_ p) (skip_intervals_ p) (first_nonannounced_window_ p) (last_finalized_block_ p)
    (last_final_cert_ p) (first_nonfinalized_slot_ p) (bad_signature_bans_ p) (requests_ p) (seen_broadcasts_ p)
    (signing p) (saving p) (published p).
Definition set_suppress x (p : Pool) : Pool :=
  mkPool (max_leader_window_desync p) (bad_signature_ban_duration p) (state_ p) x (is_started_ p) (now_ p)
    (skip_intervals_ p) (first_nonannounced_window_ p) (last_finalized_block_ p) (last_final_cert_ p)
    (first_nonfinalized_slot_ p) (bad_signature_bans_ p) (requests_ p) (seen_broadcasts_ p) (signing p) (saving p)
    (published p).
Definition set_started x (p : Pool) : Pool :=
  mkPool (max_leader_window_desync p) (bad_signature_ban_duration p) (state_ p) (suppress_certificate_broadcast_ p) x
    (now_ p) (skip_intervals_ p) (first_nonannounced_window_ p) (last_finalized_block_ p) (last_final_cert_ p)
    (first_nonfinalized_slot_ p) (bad_signature_bans_ p) (requests_ p) (seen_broadcasts_ p) (signing p) (saving p)
    (published p).
Definition set_now x (p : Pool) : Pool :=
  mkPool (max_leader_window_desync p) (bad_signature_ban_duration p) (state_ p) (suppress_certificate_broadcast_ p)
    (is_started_ p) x (skip_intervals_ p) (first_nonannounced_window_ p) (last_finalized_block_ p) (last_final_cert_
    p) (first_nonfinalized_slot_ p) (bad_signature_bans_ p) (requests_ p) (seen_broadcasts_ p) (signing p) (saving p)
    (published p).
Definition set_skips x (p : Pool) : Pool :=
  mkPool (max_leader_window_desync p) (bad_signature_ban_duration p) (state_ p) (suppress_certificate_broadcast_ p)
    (is_started_ p) (now_ p) x (first_nonannounced_window_ p) (last_finalized_block_ p) (last_final_cert_ p)
    (first_nonfinalized_slot_ p) (bad_signature_bans_ p) (requests_ p) (seen_broadcasts_ p) (signing p) (saving p)
    (published p).
Definition set_window x (p : Pool) : Pool :=
  mkPool (max_leader_window_desync p) (bad_signature_ban_duration p) (state_ p) (suppress_certificate_broadcast_ p)
    (is_started_ p) (now_ p) (skip_intervals_ p) x (last_finalized_block_ p) (last_final_cert_ p)
    (first_nonfinalized_slot_ p) (bad_signature_bans_ p) (requests_ p) (seen_broadcasts_ p) (signing p) (saving p)
    (published p).
(** [last_finalized_block_], [last_final_cert_] and [first_nonfinalized_slot_]. *)
Definition set_final id c first (p : Pool) : Pool :=
  mkPool (max_leader_window_desync p) (bad_signature_ban_duration p) (state_ p) (suppress_certificate_broadcast_ p)
    (is_started_ p) (now_ p) (skip_intervals_ p) (first_nonannounced_window_ p) id c first (bad_signature_bans_ p)
    (requests_ p) (seen_broadcasts_ p) (signing p) (saving p) (published p).
Definition set_bans x (p : Pool) : Pool :=
  mkPool (max_leader_window_desync p) (bad_signature_ban_duration p) (state_ p) (suppress_certificate_broadcast_ p)
    (is_started_ p) (now_ p) (skip_intervals_ p) (first_nonannounced_window_ p) (last_finalized_block_ p)
    (last_final_cert_ p) (first_nonfinalized_slot_ p) x (requests_ p) (seen_broadcasts_ p) (signing p) (saving p)
    (published p).
Definition set_requests x (p : Pool) : Pool :=
  mkPool (max_leader_window_desync p) (bad_signature_ban_duration p) (state_ p) (suppress_certificate_broadcast_ p)
    (is_started_ p) (now_ p) (skip_intervals_ p) (first_nonannounced_window_ p) (last_finalized_block_ p)
    (last_final_cert_ p) (first_nonfinalized_slot_ p) (bad_signature_bans_ p) x (seen_broadcasts_ p) (signing p)
    (saving p) (published p).
Definition set_seen x (p : Pool) : Pool :=
  mkPool (max_leader_window_desync p) (bad_signature_ban_duration p) (state_ p) (suppress_certificate_broadcast_ p)
    (is_started_ p) (now_ p) (skip_intervals_ p) (first_nonannounced_window_ p) (last_finalized_block_ p)
    (last_final_cert_ p) (first_nonfinalized_slot_ p) (bad_signature_bans_ p) (requests_ p) x (signing p) (saving p)
    (published p).
Definition set_signing x (p : Pool) : Pool :=
  mkPool (max_leader_window_desync p) (bad_signature_ban_duration p) (state_ p) (suppress_certificate_broadcast_ p)
    (is_started_ p) (now_ p) (skip_intervals_ p) (first_nonannounced_window_ p) (last_finalized_block_ p)
    (last_final_cert_ p) (first_nonfinalized_slot_ p) (bad_signature_bans_ p) (requests_ p) (seen_broadcasts_ p) x
    (saving p) (published p).
Definition set_saving x (p : Pool) : Pool :=
  mkPool (max_leader_window_desync p) (bad_signature_ban_duration p) (state_ p) (suppress_certificate_broadcast_ p)
    (is_started_ p) (now_ p) (skip_intervals_ p) (first_nonannounced_window_ p) (last_finalized_block_ p)
    (last_final_cert_ p) (first_nonfinalized_slot_ p) (bad_signature_bans_ p) (requests_ p) (seen_broadcasts_ p)
    (signing p) x (published p).
Definition set_published x (p : Pool) : Pool :=
  mkPool (max_leader_window_desync p) (bad_signature_ban_duration p) (state_ p) (suppress_certificate_broadcast_ p)
    (is_started_ p) (now_ p) (skip_intervals_ p) (first_nonannounced_window_ p) (last_finalized_block_ p)
    (last_final_cert_ p) (first_nonfinalized_slot_ p) (bad_signature_bans_ p) (requests_ p) (seen_broadcasts_ p)
    (signing p) (saving p) x.
Definition set_params desync ban_duration (p : Pool) : Pool :=
  mkPool desync ban_duration (state_ p) (suppress_certificate_broadcast_ p) (is_started_ p) (now_ p) (skip_intervals_
    p) (first_nonannounced_window_ p) (last_finalized_block_ p) (last_final_cert_ p) (first_nonfinalized_slot_ p)
    (bad_signature_bans_ p) (requests_ p) (seen_broadcasts_ p) (signing p) (saving p) (published p).

Definition publish (e : BusEvent) : M Pool unit := modify (fun p => set_published (published p ++ [e]) p).

Section pool.
Context `{Bus} (local_id : nat).

(** ** Slots of the pool *)

Definition pool_slot_at (slot : Z) : M Pool (option Z) := fun p =>
  let '(r, st) := slot_at (new_slot validators) slot (state_ p) in Ret r (set_state st p).
Definition slot_of (slot : Z) (p : Pool) : SlotState := deref (new_slot validators) slot (state_ p).
Definition the_slot (slot : Z) : M Pool SlotState := gets (slot_of slot).
Definition change_slot (slot : Z) (f : SlotState -> SlotState) : M Pool unit :=
  modify (fun p => set_state (update_slot (new_slot validators) f slot (state_ p)) p).

(** [state_->slot_at(slot)->...]: the slot must be there. *)
Definition get_slot_at (slot : Z) : M Pool Z := r <- pool_slot_at slot ;; of_option r.

(** ** Bookkeeping *)

(** [++now_] over the slots that are notarized or skipped. *)
Fixpoint advance_now (fuel : nat) : M Pool unit :=
  match fuel with
  | O => undef
  | S fuel' =>
      now <- gets now_ ;;
      i <- get_slot_at now ;;
      s <- the_slot i ;;
      if is_notarized s || is_skipped s then modify (set_now (wrap_u 32 (now + 1))) ;; advance_now fuel'
      else ret tt
  end.
(** Every turn but the last finds another slot that has a certificate. *)
Definition present_fuel (p : Pool) : nat := S (size (objects_ (state_ p))).

Definition advance_present : M Pool unit :=
  started <- gets is_started_ ;;
  if negb started then ret tt
  else
    fuel <- gets present_fuel ;;
    advance_now fuel ;;
    now <- gets now_ ;;
    assert_ub (negb (slots_per_leader_window =? 0)) ;;
    let new_window := now / slots_per_leader_window in
    first <- gets first_nonannounced_window_ ;;
    if new_window <? first then ret tt
    else
      modify (set_window (wrap_u 32 (new_window + 1))) ;;
      base <- (if now =? 0 then ret None
               else i <- get_slot_at now ;; s <- the_slot i ;; of_option (available_base s)) ;;
      publish (LeaderWindowObserved now base).

(** The parameter is an [int]. *)
Definition next_nonskipped_slot_after (slot : Z) : M Pool Z :=
  let slot := wrap_s 32 slot in
  assert_ub (slot <? 2 ^ 31 - 1) ;;
  let next := wrap_u 32 (slot + 1) in
  next_slot <- pool_slot_at next ;;
  i <- of_option next_slot ;;
  s <- the_slot i ;;
  if is_skipped s then
    skips <- gets skip_intervals_ ;;
    e <- of_option (set_lower_bound next skips) ;;
    get_slot_at e
  else ret i.

(** ** Requests for the parent of a candidate *)

Definition resolve_with (r : Request) (res : Resolution) : M Pool bool :=
  publish (RequestResolved (rq_id r) (rq_parent r) res) ;; ret true.

Definition maybe_resolve_request (r : Request) : M Pool bool :=
  let id := rq_id r in
  let parent := rq_parent r in
  let next_slot_after_parent := match parent with Some q => wrap_u 32 (id_slot q + 1) | None => 0 end in
  first <- gets first_nonfinalized_slot_ ;;
  if id_slot id <? first then resolve_with r SlotFinalized
  else if next_slot_after_parent <? first then resolve_with r (ParentMisbehavior ConflictingCandidateAndCertificate)
  else
    i <- get_slot_at (id_slot id) ;;
    slot <- the_slot i ;;
    if match notarized_block slot with Some b => bool_decide (b <> id) | None => false end then
      resolve_with r (ParentMisbehavior ConflictingCandidateAndCertificate)
    else
      (* whether the parent is settled: yes, no, or not yet *)
      settled <-
        (if next_slot_after_parent =? first then
           last <- gets last_finalized_block_ ;;
           if bool_decide (last <> parent) then assert_ub (negb (first =? 0)) ;; ret (Some false)
           else ret (Some true)
         else
           q <- of_option parent ;;
           j <- get_slot_at (id_slot q) ;;
           parent_slot <- the_slot j ;;
           if is_notarized parent_slot then ret (Some (bool_decide (notarized_block parent_slot = parent)))
           else ret None) ;;
      match settled with
      | None => ret false
      | Some false => resolve_with r (ParentMisbehavior ConflictingCandidateAndCertificate)
      | Some true =>
          if next_slot_after_parent =? id_slot id then resolve_with r ParentReady
          else
            j <- get_slot_at next_slot_after_parent ;;
            next_slot <- the_slot j ;;
            if negb (is_skipped next_slot) then ret false
            else
              skips <- gets skip_intervals_ ;;
              e <- of_option (set_lower_bound next_slot_after_parent skips) ;;
              if id_slot id <=? e then resolve_with r ParentReady else ret false
      end.

(** The loop of [maybe_resolve_requests]: a resolved request is replaced by the last. *)
Fixpoint resolve_loop (fuel i : nat) : M Pool unit :=
  match fuel with
  | O => ret tt
  | S fuel' =>
      rs <- gets requests_ ;;
      match rs !! i with
      | None => ret tt
      | Some r =>
          b <- maybe_resolve_request r ;;
          if b then
            rs <- gets requests_ ;;
            let rs' := match list.last rs with Some l => <[i := l]> rs | None => rs end in
            modify (set_requests (take (length rs - 1) rs')) ;;
            resolve_loop fuel' i
          else resolve_loop fuel' (S i)
      end
  end.
Definition maybe_resolve_requests : M Pool unit := n <- gets (fun p => length (requests_ p)) ;; resolve_loop n 0.

(** ** Certificates *)

(** The three overloads of [handle_typed_saved_certificate]. *)
Definition saved_notarization (id : CandidateId) : M Pool unit :=
  publish (NotarizationObserved id) ;;
  next <- next_nonskipped_slot_after (id_slot id) ;;
  change_slot next (add_available_base (Some id)) ;;
  advance_present.

Definition saved_skip (i : Z) : M Pool unit :=
  next <- next_nonskipped_slot_after i ;;
  modify (fun p => set_skips (skip_intervals_ p ∖ {[i]}) p) ;;
  (if next =? wrap_u 32 (i + 1) then modify (fun p => set_skips ({[wrap_u 32 (i + 1)]} ∪ skip_intervals_ p) p) else ret tt) ;;
  s <- the_slot i ;;
  (match available_base s with Some base => change_slot next (add_available_base base) | None => ret tt end) ;;
  advance_present.

Definition saved_finalization (i : Z) (id : CandidateId) (c : Certificate) : M Pool unit :=
  s <- the_slot i ;;
  assert_ub (negb (is_skipped s)) ;;
  assert_ub (bool_decide (default id (notarized_block s) = id)) ;;
  (if negb (is_notarized s) then
     next <- next_nonskipped_slot_after (id_slot id) ;; change_slot next (add_available_base (Some id))
   else ret tt) ;;
  modify (set_final (Some id) (Some c) (wrap_u 32 (id_slot id + 1))) ;;
  publish (FinalizationObserved id) ;;
  now <- gets now_ ;;
  (if now <=? id_slot id then modify (set_now (wrap_u 32 (id_slot id + 1))) ;; advance_present else ret tt) ;;
  modify (fun p => set_skips (filter (fun k => id_slot id < k) (skip_intervals_ p)) p) ;;
  modify (fun p => set_state (notify_finalized (id_slot id) (state_ p)) p).

Definition handle_typed_saved_certificate (i : Z) (c : Certificate) : M Pool unit :=
  match cert_vote c with
  | NotarizeVote id => saved_notarization id
  | SkipVote _ => saved_skip i
  | FinalizeVote id => saved_finalization i id c
  end.

Definition handle_saved_certificate (i : Z) (c : Certificate) : M Pool unit :=
  s <- the_slot i ;;
  cs <- of_option (store_cert c (certs s)) ;;
  change_slot i (set_certs cs) ;;
  suppress <- gets suppress_certificate_broadcast_ ;;
  (if suppress then ret tt else publish (OutgoingCertificate c)) ;;
  handle_typed_saved_certificate i c ;;
  maybe_resolve_requests.

Definition handle_certificate (c : Certificate) : M Pool unit :=
  slot <- pool_slot_at (referenced_slot (cert_vote c)) ;;
  match slot with
  | None => ret tt
  | Some i =>
      s <- the_slot i ;;
      if negb (needs (cert_vote c) (certs s)) then ret tt
      else
        cs <- of_option (remember_prospective (cert_vote c) (certs s)) ;;
        change_slot i (set_certs cs) ;;
        modify (fun p => set_saving (saving p ++ [c]) p)
  end.

(** The votes of a certificate are those of its signers. *)
Fixpoint add_certificate_votes (i : Z) (c : Certificate) (sigs : list (nat * Signature)) : M Pool unit :=
  match sigs with
  | [] => ret tt
  | (idx, _) :: sigs' =>
      s <- the_slot i ;;
      t <- of_option (votes s !! idx) ;;
      let '(r, t') := add_vote (proven_cert c) t in
      change_slot i (set_votes (<[idx := t']> (votes s))) ;;
      (match r with misbehavior m => publish (MisbehaviorReport idx m) | is_applied _ => ret tt end) ;;
      add_certificate_votes i c sigs'
  end.

(** [handle_prospective_certificate] after the [k]-th pending certificate was saved. *)
Definition certificate_saved (k : nat) : M Pool unit :=
  cs <- gets saving ;;
  match cs !! k with
  | None => ret tt
  | Some c =>
      modify (set_saving (delete k cs)) ;;
      slot <- pool_slot_at (referenced_slot (cert_vote c)) ;;
      match slot with
      | None => ret tt
      | Some i => add_certificate_votes i c (signatures c) ;; handle_saved_certificate i c
      end
  end.

(** ** Votes *)

(** The three overloads of [handle_typed_vote]. *)
Definition handle_typed_vote (validator : nat) (v : Vote) (i : Z) : M Pool unit :=
  change_slot i (add_weight v (weight validator)) ;;
  s <- the_slot i ;;
  if negb (will_have_cert (vote_type v) s) && (weight_threshold <=? weight_for v s) then
    c <- of_option (create_cert v s) ;; handle_certificate c
  else ret tt.

Definition handle_vote (validator : nat) (sv : Signed) (tolerate : bool) : M Pool bool :=
  let v := sg_vote sv in
  slot <- pool_slot_at (referenced_slot v) ;;
  match slot with
  | None => ret false
  | Some i =>
      s <- the_slot i ;;
      t <- of_option (votes s !! validator) ;;
      let '(r, t') := add_vote (proven_signed sv) t in
      change_slot i (set_votes (<[validator := t']> (votes s))) ;;
      match r with
      | misbehavior m =>
          assert_ub (negb (validator =? local_id)%nat || tolerate) ;;
          publish (MisbehaviorReport validator m) ;;
          ret false
      | is_applied true => handle_typed_vote validator v i ;; ret true
      | is_applied false => ret false
      end
  end.

Definition handle_our_vote (v : Vote) (tolerate suppress : bool) : M Pool unit :=
  modify (fun p => set_signing (signing p ++ [mkOurVote v tolerate suppress]) p).
(** [handle_our_vote] after the [k]-th pending vote was signed. *)
Definition our_vote_signed (k : nat) (sig : Signature) : M Pool unit :=
  vs <- gets signing ;;
  match vs !! k with
  | None => ret tt
  | Some ov =>
      modify (set_signing (delete k vs)) ;;
      let sv := mkSigned local_id (ov_vote ov) sig in
      b <- handle_vote local_id sv (tolerate_conflicts ov) ;;
      if b && negb (suppress_vote_broadcast ov) then publish (OutgoingVote sv) else ret tt
  end.

(** ** Bans for bad signatures, at the time [t] *)

Definition ban (t : Z) (peer : nat) : M Pool unit :=
  modify (fun p => set_bans (<[peer := t + bad_signature_ban_duration p]> (bad_signature_bans_ p)) p).
Definition is_banned (t : Z) (peer : nat) : M Pool bool :=
  bans <- gets bad_signature_bans_ ;;
  match bans !! peer with
  | None => ret false
  | Some until =>
      if until <=? t then modify (set_bans (delete peer bans)) ;; ret false
      else ret true
  end.

(** ** Event handlers *)

(** A message is a vote, a certificate, or neither. *)
Inductive ProtocolMessage : Type :=
| tl_vote (v : Vote) (sig : Signature)
| tl_certificate (v : Vote) (votes : list (nat * Signature))
| tl_other.

Definition first_too_new_slot (p : Pool) : Z :=
  wrap_u 32 (wrap_u 32 (now_ p / slots_per_leader_window + max_leader_window_desync p + 1) * slots_per_leader_window).

Definition handle_incoming_vote (t : Z) (source : nat) (v : Vote) (sig : Signature) : M Pool unit :=
  too_new <- gets first_too_new_slot ;;
  first <- gets first_nonfinalized_slot_ ;;
  if (too_new <=? referenced_slot v) || (referenced_slot v <? first) then ret tt
  else
    i <- get_slot_at (referenced_slot v) ;;
    s <- the_slot i ;;
    tz <- of_option (votes s !! source) ;;
    if negb (wants v tz) then ret tt
    else
      match signed_from_tl v sig source with
      | None => ban t source
      | Some sv => handle_vote source sv false ;; ret tt
      end.

(** [slot->state->certs.needs(raw_vote)] for a slot that must be there. *)
Definition slot_needs (v : Vote) (i : Z) : M Pool bool := s <- the_slot i ;; ret (needs v (certs s)).
Definition handle_incoming_certificate (t : Z) (source : nat) (v : Vote) (sigs : list (nat * Signature)) : M Pool unit :=
  too_new <- gets first_too_new_slot ;;
  let is_too_new := too_new <=? referenced_slot v in
  go <- (if is_too_new then ret true
         else slot <- pool_slot_at (referenced_slot v) ;;
              match slot with None => ret false | Some i => slot_needs v i end) ;;
  if negb go then ret tt
  else
    match certificate_from_tl v sigs with
    | None => ban t source
    | Some c =>
        go <- (if is_too_new then i <- get_slot_at (referenced_slot v) ;; slot_needs v i else ret true) ;;
        if go then handle_certificate c else ret tt
    end.

Definition handle_IncomingProtocolMessage (t : Z) (source : nat) (msg : ProtocolMessage) : M Pool unit :=
  banned <- is_banned t source ;;
  if banned then ret tt
  else
    assert_ub (negb (slots_per_leader_window =? 0)) ;;
    match msg with
    | tl_vote v sig => handle_incoming_vote t source v sig
    | tl_certificate v sigs => handle_incoming_certificate t source v sigs
    | tl_other => ret tt
    end.

Definition handle_NoncriticalParamsUpdated (desync ban_duration : Z) : M Pool unit := modify (set_params desync ban_duration).
Definition handle_Start : M Pool unit := modify (set_started true) ;; advance_present.
Definition handle_BroadcastVote (v : Vote) : M Pool unit := handle_our_vote v false false.

Definition process_WaitForParent (id : CandidateId) (parent : ParentId) : M Pool unit :=
  assert_ub (match parent with Some q => id_slot q <? id_slot id | None => true end) ;;
  let r := mkRequest id parent in
  modify (fun p => set_requests (requests_ p ++ [r]) p) ;;
  b <- maybe_resolve_request r ;;
  if b then modify (fun p => set_requests (take (length (requests_ p) - 1) (requests_ p)) p) else ret tt.

(** [None]: accepted; otherwise the candidate broadcast is refused. *)
Inductive PrecheckError : Type := SlotAlreadyFinalized | SlotTooFar | DuplicateBroadcast.
Definition process_PrecheckCandidateBroadcast (slot broadcast_id : Z) (signature_checked : bool) : M Pool (option PrecheckError) :=
  p <- gets id ;;
  if slot <? first_nonfinalized_slot_ p then ret (Some SlotAlreadyFinalized)
  else if wrap_u 32 (now_ p + wrap_u 32 (max_leader_window_desync p * slots_per_leader_window)) <? slot then ret (Some SlotTooFar)
  else
    match seen_broadcasts_ p !! slot with
    | Some b => ret (if bool_decide (b <> broadcast_id) then Some DuplicateBroadcast else None)
    | None =>
        (if signature_checked then modify (set_seen (<[slot := broadcast_id]> (seen_broadcasts_ p))) else ret tt) ;;
        ret None
    end.

(** The promises of the pending requests get an error. *)
Definition tear_down : M Pool unit := modify (set_requests []).

(** *** Standstill: the messages that are sent again for a slot *)

(** [Proven::serialize_to] needs a signature. *)
Definition own_message (ty : VoteType) (s : SlotState) : M Pool (list BusEvent) :=
  t <- of_option (votes s !! local_id) ;;
  match stored_vote ty t with
  | Some p =>
      if has_cert ty (certs s) then ret []
      else match pv_proof p with by_signature sv => ret [OutgoingVote sv] | by_certificate _ => undef end
  | None => ret []
  end.
Definition cert_message (ty : VoteType) (s : SlotState) : list BusEvent :=
  match cert (bundle_get ty (certs s)) with Some c => [OutgoingCertificate c] | None => [] end.
Definition standstill_slot (slot : Z) : M Pool (list BusEvent) :=
  i <- get_slot_at slot ;;
  s <- the_slot i ;;
  n <- own_message TNotarize s ;;
  k <- own_message TSkip s ;;
  f <- own_message TFinalize s ;;
  ret (cert_message TNotarize s ++ cert_message TSkip s ++ cert_message TFinalize s ++ n ++ k ++ f).

(** ** Start *)

Fixpoint load_certificates (cs : list Certificate) : M Pool unit :=
  match cs with
  | [] => ret tt
  | c :: cs' =>
      slot <- pool_slot_at (referenced_slot (cert_vote c)) ;;
      (match slot with None => ret tt | Some i => handle_saved_certificate i c end) ;;
      load_certificates cs'
  end.
Fixpoint load_votes (vs : list Vote) : M Pool unit :=
  match vs with
  | [] => ret tt
  | v :: vs' =>
      slot <- pool_slot_at (referenced_slot v) ;;
      (match slot with None => ret tt | Some _ => handle_our_vote v true true end) ;;
      load_votes vs'
  end.

(** The pool as constructed. *)
Definition new_pool (desync ban_duration : Z) : Pool :=
  mkPool desync ban_duration empty_state true false 0 ∅ 0 None None 0 ∅ [] ∅ [] [] [].
Definition start_up (first_nonannounced_window : Z) (bootstrap_certificates : list Certificate) (bootstrap_votes : list Vote)
    : M Pool unit :=
  i <- get_slot_at 0 ;;
  change_slot i (set_base (Some None)) ;;
  modify (set_window first_nonannounced_window) ;;
  load_certificates bootstrap_certificates ;;
  modify (set_suppress false) ;;
  load_votes bootstrap_votes.
End pool.
