(* ===== verification/SimplexConsensus.v ===== *)
(** * Voting

    The actor [ConsensusImpl] of validator/consensus/simplex/consensus.cpp, which decides
    what this validator votes for, and the actor [DbImpl] of db.cpp, which makes votes
    durable before the pool signs them.  The coroutine [try_notarize] is split at its
    suspension points: [notarizing] says for each slot what it waits for, and the
    continuations are definitions of their own; it holds a reference to its slot, which
    outlives the slot's removal from the map.  Timeouts are left out: the alarm may go
    off at any time once it has been set. *)
From S2P Require Import Prelude Simplex SimplexPool.

Record Candidate : Type := mkCandidate { cd_id : CandidateId; cd_parent : ParentId; cd_leader : nat }.

Record VoteState : Type := mkVoteState {
  pending_block : option Candidate;
  voted_notar : option CandidateId;
  notar_cert : option CandidateId;
  voted_skip : bool;
  voted_final : bool }.
Definition new_vote_state : VoteState := mkVoteState None None None false false.
Definition set_pending x (s : VoteState) : VoteState := mkVoteState x (voted_notar s) (notar_cert s) (voted_skip s) (voted_final s).
Definition set_voted_notar x (s : VoteState) : VoteState := mkVoteState (pending_block s) x (notar_cert s) (voted_skip s) (voted_final s).
Definition set_notar_cert x (s : VoteState) : VoteState := mkVoteState (pending_block s) (voted_notar s) x (voted_skip s) (voted_final s).
Definition set_voted_skip x (s : VoteState) : VoteState := mkVoteState (pending_block s) (voted_notar s) (notar_cert s) x (voted_final s).
Definition set_voted_final x (s : VoteState) : VoteState := mkVoteState (pending_block s) (voted_notar s) (notar_cert s) (voted_skip s) x.

(** What a [try_notarize] waits for. *)
Inductive Stage : Type := AwaitParent | AwaitState | AwaitTime | AwaitValidation | AwaitStore.

(** What the actor asks of others. *)
Inductive Demand : Type :=
| BroadcastVote (v : Vote)
| WaitForParent (id : CandidateId) (parent : ParentId)
| OurLeaderWindowStarted (base : ParentId) (start_slot end_slot : Z)
| ReportCandidate (leader : nat) (m : Misbehavior).

Record Consensus : Type := mkConsensus {
  c_desync : Z;
  c_state_ : ConsensusState VoteState;
  timeout_slot_ : Z;
  alarm_set : bool;
  previous_window_had_skip_ : bool;
  current_window_ : Z;
  notarizing : gmap Z Stage;
  generating : list (ParentId * Z);
  demands : list Demand }.
Definition c_set_desync x (c : Consensus) : Consensus :=
  mkConsensus x (c_state_ c) (timeout_slot_ c) (alarm_set c) (previous_window_had_skip_ c) (current_window_ c)
    (notarizing c) (generating c) (demands c).
Definition c_set_state x (c : Consensus) : Consensus :=
  mkConsensus (c_desync c) x (timeout_slot_ c) (alarm_set c) (previous_window_had_skip_ c) (current_window_ c)
    (notarizing c) (generating c) (demands c).
Definition set_timeout slot alarm (c : Consensus) : Consensus :=
  mkConsensus (c_desync c) (c_state_ c) slot alarm (previous_window_had_skip_ c) (current_window_ c) (notarizing c)
    (generating c) (demands c).
Definition set_had_skip x (c : Consensus) : Consensus :=
  mkConsensus (c_desync c) (c_state_ c) (timeout_slot_ c) (alarm_set c) x (current_window_ c) (notarizing c)
    (generating c) (demands c).
Definition set_current x (c : Consensus) : Consensus :=
  mkConsensus (c_desync c) (c_state_ c) (timeout_slot_ c) (alarm_set c) (previous_window_had_skip_ c) x (notarizing c)
    (generating c) (demands c).
Definition set_notarizing x (c : Consensus) : Consensus :=
  mkConsensus (c_desync c) (c_state_ c) (timeout_slot_ c) (alarm_set c) (previous_window_had_skip_ c) (current_window_
    c) x (generating c) (demands c).
Definition set_generating x (c : Consensus) : Consensus :=
  mkConsensus (c_desync c) (c_state_ c) (timeout_slot_ c) (alarm_set c) (previous_window_had_skip_ c) (current_window_
    c) (notarizing c) x (demands c).
Definition set_demands x (c : Consensus) : Consensus :=
  mkConsensus (c_desync c) (c_state_ c) (timeout_slot_ c) (alarm_set c) (previous_window_had_skip_ c) (current_window_
    c) (notarizing c) (generating c) x.

Definition demand (d : Demand) : M Consensus unit := modify (fun c => set_demands (demands c ++ [d]) c).

Section consensus.
Context `{Bus} (local_id : nat).

Definition c_slot_at (slot : Z) : M Consensus (option Z) := fun c =>
  let '(r, st) := slot_at new_vote_state slot (c_state_ c) in Ret r (c_set_state st c).
Definition vote_state_of (slot : Z) (c : Consensus) : VoteState := deref new_vote_state slot (c_state_ c).
Definition the_votes (slot : Z) : M Consensus VoteState := gets (vote_state_of slot).
Definition change_votes (slot : Z) (f : VoteState -> VoteState) : M Consensus unit :=
  modify (fun c => c_set_state (update_slot new_vote_state f slot (c_state_ c)) c).

(** [for (i = a; i < b; ++i)] *)
Definition slots_from (a b : Z) : list Z := map (fun k => a + Z.of_nat k) (seq 0 (Z.to_nat (b - a))).

(** ** Final votes *)

Definition try_vote_final (i : Z) : M Consensus unit :=
  s <- the_votes i ;;
  assert_ub (match voted_notar s, notar_cert s with None, None => false | _, _ => true end) ;;
  if negb (voted_skip s) && negb (voted_final s) && bool_decide (voted_notar s = notar_cert s) then
    id <- of_option (voted_notar s) ;;
    demand (BroadcastVote (FinalizeVote id)) ;;
    change_votes i (set_voted_final true)
  else ret tt.

(** [process_notarization_observed] *)
Definition c_notarization_observed (id : CandidateId) : M Consensus unit :=
  slot <- c_slot_at (id_slot id) ;;
  match slot with
  | None => ret tt
  | Some i =>
      timeout <- gets timeout_slot_ ;;
      let next := wrap_u 32 (id_slot id + 1) in
      (if timeout <=? next then
         modify (set_timeout (if next mod slots_per_leader_window =? 0 then next else wrap_u 32 (id_slot id + 2)) true)
       else ret tt) ;;
      change_votes i (set_notar_cert (Some id)) ;;
      try_vote_final i
  end.
Definition c_finalization_observed (id : CandidateId) : M Consensus unit :=
  modify (fun c => c_set_state (notify_finalized (id_slot id) (c_state_ c)) c).

(** ** Skip votes *)

Fixpoint vote_skip (slots : list Z) : M Consensus unit :=
  match slots with
  | [] => ret tt
  | i :: slots' =>
      slot <- c_slot_at i ;;
      (match slot with
       | None => ret tt
       | Some i =>
           s <- the_votes i ;;
           if voted_final s then ret tt
           else demand (BroadcastVote (SkipVote i)) ;; change_votes i (set_voted_skip true) ;; modify (set_had_skip true)
       end) ;;
      vote_skip slots'
  end.

Definition alarm : M Consensus unit :=
  set <- gets alarm_set ;;
  if negb set then ret tt
  else
    timeout <- gets timeout_slot_ ;;
    let range_start := wrap_u 32 (timeout - 1) in
    let window_start := range_start - range_start mod slots_per_leader_window in
    let window_end := wrap_u 32 (window_start + slots_per_leader_window) in
    vote_skip (slots_from range_start window_end) ;;
    modify (set_timeout window_end false).

(** ** Leader windows *)

Definition expected_collator_for (slot : Z) : Z := slot / slots_per_leader_window mod Z.of_nat validators.
Definition c_leader_window_observed (start_slot : Z) (base : ParentId) : M Consensus unit :=
  modify (set_current (start_slot / slots_per_leader_window)) ;;
  (if start_slot mod slots_per_leader_window =? 0 then
     modify (set_had_skip false) ;;
     if expected_collator_for start_slot =? Z.of_nat local_id then
       modify (fun c => set_generating (generating c ++ [(base, start_slot)]) c)
     else ret tt
   else ret tt) ;;
  timeout <- gets timeout_slot_ ;;
  if timeout <=? start_slot then modify (set_timeout (wrap_u 32 (start_slot + 1)) true) else ret tt.

(** [start_generation] after the state of the base was resolved. *)
Definition generation_resolved (k : nat) : M Consensus unit :=
  gs <- gets generating ;;
  match gs !! k with
  | None => ret tt
  | Some (base, start_slot) =>
      modify (set_generating (delete k gs)) ;;
      current <- gets current_window_ ;;
      if current =? start_slot / slots_per_leader_window then
        demand (OurLeaderWindowStarted base start_slot (wrap_u 32 (start_slot + slots_per_leader_window)))
      else ret tt
  end.

(** ** Notarize votes *)

Definition c_candidate_received (cd : Candidate) : M Consensus unit :=
  c <- gets id ;;
  let too_new := wrap_u 32 (wrap_u 32 (current_window_ c + c_desync c + 1) * slots_per_leader_window) in
  let slot_idx := id_slot (cd_id cd) in
  if too_new <=? slot_idx then ret tt
  else
    slot <- c_slot_at slot_idx ;;
    match slot with
    | None => ret tt
    | Some i =>
        s <- the_votes i ;;
        if match voted_notar s with Some _ => true | None => false end
           || match cd_parent cd with Some q => slot_idx <=? id_slot q | None => false end
           || match pending_block s with Some _ => true | None => false end
        then ret tt
        else
          change_votes i (set_pending (Some cd)) ;;
          modify (fun c => set_notarizing (<[i := AwaitParent]> (notarizing c)) c) ;;
          demand (WaitForParent (cd_id cd) (cd_parent cd))
    end.

(** The coroutine of slot [i] goes on, or ends. *)
Definition notarize_next (i : Z) (stage : Stage) : M Consensus unit :=
  modify (fun c => set_notarizing (<[i := stage]> (notarizing c)) c).
Definition notarize_end (i : Z) : M Consensus unit := modify (fun c => set_notarizing (delete i (notarizing c)) c).

(** [try_notarize] after its [WaitForParent] for [id] and [parent] was answered. *)
Definition parent_resolved (id : CandidateId) (parent : ParentId) (r : Resolution) : M Consensus unit :=
  let i := id_slot id in
  c <- gets (fun c => c) ;;
  match notarizing c !! i, pending_block (vote_state_of i c) with
  | Some AwaitParent, Some cd =>
      if bool_decide (cd_id cd = id /\ cd_parent cd = parent) then
        match r with
        | ParentReady => notarize_next i AwaitState
        | ParentMisbehavior m => demand (ReportCandidate (cd_leader cd) m) ;; notarize_end i
        | SlotFinalized => notarize_end i
        end
      else ret tt
  | _, _ => ret tt
  end.
(** [try_notarize] after another answer: the state of the parent was resolved, enough
    time has passed, the candidate was accepted, it was stored; [ok] is [false] when the
    answer is an error or the candidate was rejected. *)
Definition notarize_step (i : Z) (ok : bool) : M Consensus unit :=
  c <- gets (fun c => c) ;;
  match notarizing c !! i with
  | None | Some AwaitParent => ret tt
  | Some stage =>
      if negb ok then notarize_end i
      else
        match stage with
        | AwaitParent => ret tt
        | AwaitState => notarize_next i AwaitTime
        | AwaitTime => notarize_next i AwaitValidation
        | AwaitValidation => notarize_next i AwaitStore
        | AwaitStore =>
            notarize_end i ;;
            cd <- of_option (pending_block (vote_state_of i c)) ;;
            change_votes i (set_voted_notar (Some (cd_id cd))) ;;
            demand (BroadcastVote (NotarizeVote (cd_id cd))) ;;
            try_vote_final i
        end
  end.

(** ** Start *)

Definition load_vote (v : Vote) : M Consensus unit :=
  slot <- c_slot_at (referenced_slot v) ;;
  match slot with
  | None => ret tt
  | Some i =>
      s <- the_votes i ;;
      match v with
      | NotarizeVote id =>
          if match voted_notar s with Some id' => bool_decide (id' <> id) | None => false end then ret tt
          else change_votes i (set_voted_notar (Some id))
      | FinalizeVote id =>
          if voted_skip s || match voted_notar s with Some id' => bool_decide (id' <> id) | None => false end then ret tt
          else change_votes i (set_voted_final true)
      | SkipVote _ => if voted_final s then ret tt else change_votes i (set_voted_skip true)
      end
  end.
Fixpoint load_own_votes (vs : list Vote) : M Consensus unit :=
  match vs with [] => ret tt | v :: vs' => load_vote v ;; load_own_votes vs' end.

(** The slots of the last announced window that have no final vote are skipped. *)
Fixpoint skip_announced (slots : list Z) : M Consensus unit :=
  match slots with
  | [] => ret tt
  | i :: slots' =>
      slot <- c_slot_at i ;;
      (match slot with
       | None => ret tt
       | Some i =>
           s <- the_votes i ;;
           if voted_final s then ret tt
           else change_votes i (set_voted_skip true) ;; demand (BroadcastVote (SkipVote i))
       end) ;;
      skip_announced slots'
  end.

Definition new_consensus (desync : Z) : Consensus := mkConsensus desync empty_state 0 false false 0 ∅ [] [].
Definition c_start_up (first_nonannounced_window : Z) (bootstrap_votes : list Vote) : M Consensus unit :=
  load_own_votes bootstrap_votes ;;
  if first_nonannounced_window =? 0 then ret tt
  else
    let start_slot := wrap_u 32 (wrap_u 32 (first_nonannounced_window - 1) * slots_per_leader_window) in
    let end_slot := wrap_u 32 (first_nonannounced_window * slots_per_leader_window) in
    skip_announced (slots_from start_slot end_slot).
End consensus.

(** ** The database

    Votes in the order of their sequence numbers, certificates, the first window that
    was not announced, and the hashes of all saved votes and certificates.  [tl_hash] is
    the SHA-256 hash of the serialised object. *)
Class TlHash : Type := tl_hash : Vote + Certificate -> Z.

Record Db : Type := mkDb {
  db_votes : list Vote; db_certs : list Certificate; db_window : Z; saved_votes : gset Z }.
Definition empty_db : Db := mkDb [] [] 0 ∅.

Section db.
Context `{Bus} `{TlHash}.
(** The answer is [false] for an error. *)
Definition process_BroadcastVote (v : Vote) : M Db bool :=
  d <- gets (fun d => d) ;;
  let hash := tl_hash (inl v) in
  if bool_decide (hash ∈ saved_votes d) then ret false
  else modify (fun d => mkDb (db_votes d ++ [v]) (db_certs d) (db_window d) ({[hash]} ∪ saved_votes d)) ;; ret true.
Definition process_SaveCertificate (c : Certificate) : M Db bool :=
  d <- gets (fun d => d) ;;
  let hash := tl_hash (inr c) in
  if bool_decide (hash ∈ saved_votes d) then ret false
  else modify (fun d => mkDb (db_votes d) (db_certs d ++ [c]) (db_window d) ({[hash]} ∪ saved_votes d)) ;; ret true.
Definition process_LeaderWindowObserved (start_slot : Z) : M Db unit :=
  let window := start_slot / slots_per_leader_window in
  first <- gets db_window ;;
  assert_ub (first <=? window) ;;
  modify (fun d => mkDb (db_votes d) (db_certs d) (wrap_u 32 (window + 1)) (saved_votes d)).
(** [init_pool_state] and [init_votes]: what a new process finds. *)
Definition reload (d : Db) : Db :=
  mkDb (db_votes d) (db_certs d) (db_window d)
    (list_to_set (map (fun v => tl_hash (inl v)) (db_votes d)) ∪ list_to_set (map (fun c => tl_hash (inr c)) (db_certs d))).
End db.
