(* ===== verification/SimplexNode.v ===== *)
(** * A validator

    [Node] puts the pool, the consensus actor and the database of one validator together,
    with the bus between them: votes go through the database to the pool, certificates
    through the database back to the pool, announced windows through the database to the
    consensus actor (BusRuntime.h asks the actor that processes a request first, and
    hands the event to the others when it succeeded).  [node_step] is what the node does
    when one of these messages, or one from the network, arrives; the order is up to the
    environment. *)
From S2P Require Import Prelude Simplex SimplexPool SimplexConsensus.

Record Node : Type := mkNode {
  n_pool : Pool;
  n_cons : Consensus;
  n_db : Db;
  vote_queue : list Vote;                       (* votes on their way to the database *)
  window_queue : list (Z * ParentId);           (* announced windows, likewise *)
  parent_queue : list (CandidateId * ParentId); (* questions on their way to the pool *)
  events : list BusEvent;                       (* what the pool has published *)
  signed_votes : list Vote }.                   (* votes that the keyring has signed *)
Definition set_n_pool x (n : Node) : Node :=
  mkNode x (n_cons n) (n_db n) (vote_queue n) (window_queue n) (parent_queue n) (events n) (signed_votes n).
Definition set_n_cons x (n : Node) : Node :=
  mkNode (n_pool n) x (n_db n) (vote_queue n) (window_queue n) (parent_queue n) (events n) (signed_votes n).
Definition set_n_db x (n : Node) : Node :=
  mkNode (n_pool n) (n_cons n) x (vote_queue n) (window_queue n) (parent_queue n) (events n) (signed_votes n).
Definition set_vote_queue x (n : Node) : Node :=
  mkNode (n_pool n) (n_cons n) (n_db n) x (window_queue n) (parent_queue n) (events n) (signed_votes n).
Definition set_window_queue x (n : Node) : Node :=
  mkNode (n_pool n) (n_cons n) (n_db n) (vote_queue n) x (parent_queue n) (events n) (signed_votes n).
Definition set_parent_queue x (n : Node) : Node :=
  mkNode (n_pool n) (n_cons n) (n_db n) (vote_queue n) (window_queue n) x (events n) (signed_votes n).
Definition set_events x (n : Node) : Node :=
  mkNode (n_pool n) (n_cons n) (n_db n) (vote_queue n) (window_queue n) (parent_queue n) x (signed_votes n).
Definition set_signed x (n : Node) : Node :=
  mkNode (n_pool n) (n_cons n) (n_db n) (vote_queue n) (window_queue n) (parent_queue n) (events n) x.

(** ** The bus of a node *)

Definition windows_of (es : list BusEvent) : list (Z * ParentId) :=
  omap (fun e => match e with LeaderWindowObserved i b => Some (i, b) | _ => None end) es.
Definition others_of (es : list BusEvent) : list BusEvent :=
  omap (fun e => match e with LeaderWindowObserved _ _ => None | _ => Some e end) es.
Definition votes_of (ds : list Demand) : list Vote :=
  omap (fun d => match d with BroadcastVote v => Some v | _ => None end) ds.
Definition parents_of (ds : list Demand) : list (CandidateId * ParentId) :=
  omap (fun d => match d with WaitForParent id q => Some (id, q) | _ => None end) ds.

(** Run an actor, and hand out what it has published. *)
Definition on_pool {A} (m : M Pool A) : M Node A := fun n =>
  match m (set_published [] (n_pool n)) with
  | Ret a p =>
      let es := published p in
      Ret a (mkNode (set_published [] p) (n_cons n) (n_db n) (vote_queue n) (window_queue n ++ windows_of es)
               (parent_queue n) (events n ++ others_of es) (signed_votes n))
  | Exn e p => Exn e (set_n_pool p n)
  | Undef => Undef
  end.
Definition on_cons {A} (m : M Consensus A) : M Node A := fun n =>
  match m (set_demands [] (n_cons n)) with
  | Ret a c =>
      let ds := demands c in
      Ret a (mkNode (n_pool n) (set_demands [] c) (n_db n) (vote_queue n ++ votes_of ds) (window_queue n)
               (parent_queue n ++ parents_of ds) (events n) (signed_votes n))
  | Exn e c => Exn e (set_n_cons c n)
  | Undef => Undef
  end.
Definition on_db {A} (m : M Db A) : M Node A := fun n =>
  match m (n_db n) with
  | Ret a d => Ret a (set_n_db d n)
  | Exn e d => Exn e (set_n_db d n)
  | Undef => Undef
  end.

(** ** Events *)

Inductive NodeEvent : Type :=
| EvStart
| EvMessage (t : Z) (source : nat) (msg : ProtocolMessage)
| EvParams (desync ban_duration : Z)
| EvSigned (k : nat) (sig : Signature)
| EvVoteSaved
| EvCertSaved (k : nat)
| EvWindowSaved
| EvParentAsked (k : nat)
| EvDelivered (k : nat)
| EvCandidate (cd : Candidate)
| EvNotarize (slot : Z) (ok : bool)
| EvGeneration (k : nat)
| EvAlarm
| EvStandstill (slot : Z)
| EvPrecheck (slot broadcast_id : Z) (signature_checked : bool)
| EvRestart (certificates : list Certificate) (desync ban_duration : Z).

Section node.
Context `{Bus} `{TlHash} (me : nat).

(** The consensus actor receives an event of the pool. *)
Definition deliver (e : BusEvent) : M Consensus unit :=
  match e with
  | NotarizationObserved id => c_notarization_observed id
  | FinalizationObserved id => c_finalization_observed id
  | LeaderWindowObserved i base => c_leader_window_observed me i base
  | RequestResolved id parent r => parent_resolved id parent r
  | _ => ret tt
  end.

(** The certificates in the database are read like those in messages, and must be right. *)
Definition read_certificates (cs : list Certificate) : option (list Certificate) :=
  mapM (fun c => certificate_from_tl (cert_vote c) (signatures c)) cs.
(** A new process on the same database. *)
Definition restart (certificates : list Certificate) (desync ban_duration : Z) : M Node unit :=
  modify (fun n => mkNode (new_pool desync ban_duration) (new_consensus desync) (reload (n_db n)) [] [] [] [] (signed_votes n)) ;;
  d <- gets n_db ;;
  certificates <- of_option (read_certificates certificates) ;;
  on_pool (start_up (db_window d) certificates (db_votes d)) ;;
  on_cons (c_start_up (db_window d) (db_votes d)).

Definition node_step (e : NodeEvent) : M Node unit :=
  match e with
  | EvStart => on_pool handle_Start
  | EvMessage t source msg => on_pool (handle_IncomingProtocolMessage me t source msg)
  | EvParams desync ban_duration =>
      on_pool (handle_NoncriticalParamsUpdated desync ban_duration) ;; on_cons (modify (c_set_desync desync))
  | EvSigned k sig =>
      vs <- gets (fun n => signing (n_pool n)) ;;
      (match vs !! k with
       | Some ov => modify (fun n => set_signed (ov_vote ov :: signed_votes n) n)
       | None => ret tt
       end) ;;
      on_pool (our_vote_signed me k sig)
  | EvVoteSaved =>
      q <- gets vote_queue ;;
      match q with
      | [] => ret tt
      | v :: q' =>
          modify (set_vote_queue q') ;;
          ok <- on_db (process_BroadcastVote v) ;;
          if ok then on_pool (handle_BroadcastVote v) else ret tt
      end
  | EvCertSaved k =>
      cs <- gets (fun n => saving (n_pool n)) ;;
      match cs !! k with
      | None => ret tt
      | Some c =>
          ok <- on_db (process_SaveCertificate c) ;;
          if ok then on_pool (certificate_saved k) else on_pool (modify (set_saving (delete k cs)))
      end
  | EvWindowSaved =>
      q <- gets window_queue ;;
      match q with
      | [] => ret tt
      | (i, base) :: q' =>
          modify (set_window_queue q') ;;
          on_db (process_LeaderWindowObserved i) ;;
          modify (fun n => set_events (events n ++ [LeaderWindowObserved i base]) n)
      end
  | EvParentAsked k =>
      q <- gets parent_queue ;;
      match q !! k with
      | None => ret tt
      | Some (id, parent) => modify (set_parent_queue (delete k q)) ;; on_pool (process_WaitForParent id parent)
      end
  | EvDelivered k =>
      es <- gets events ;;
      match es !! k with None => ret tt | Some e => on_cons (deliver e) end
  | EvCandidate cd => on_cons (c_candidate_received cd)
  | EvNotarize slot ok => on_cons (notarize_step slot ok)
  | EvGeneration k => on_cons (generation_resolved k)
  | EvAlarm => on_cons alarm
  | EvStandstill slot =>
      let* (a, b) := gets (fun n => tracked_slots_interval (state_ (n_pool n))) in
      if (a <=? slot) && (slot <? b) then on_pool (standstill_slot me slot) ;; ret tt else ret tt
  | EvPrecheck slot broadcast_id signature_checked =>
      on_pool (process_PrecheckCandidateBroadcast slot broadcast_id signature_checked) ;; ret tt
  | EvRestart certificates desync ban_duration => restart certificates desync ban_duration
  end.

(** A node that has just been set up, on an empty database. *)
Definition blank_node : Node :=
  mkNode (new_pool 0 0) (new_consensus 0) empty_db [] [] [] [] [].
End node.
