(* ===== verification/SimplexQuorum.v ===== *)
(** * Quorums

    Why a quorum is enough: when at most a third of the weight is Byzantine, two
    certificates of a session never contradict each other, and every block that is
    notarized after a finalized one descends from it.  All of it is about an abstract
    relation [S], "validator [i] has signed [v]", which the network instantiates. *)
From S2P Require Import Prelude Simplex.

Section weights.
Context `{Bus}.

Definition weigh (l : list nat) : Z := foldr (fun i t => weight i + t) 0 l.

Lemma weigh_app l1 l2 : weigh (l1 ++ l2) = weigh l1 + weigh l2.
Proof. induction l1 as [|i l1 IH]; cbn; [done|]. unfold weigh in *. lia. Qed.
#[export] Instance weigh_perm : Proper ((≡ₚ) ==> (=)) weigh.
Proof. induction 1; cbn in *; [done|unfold weigh in *; cbn; lia..|congruence]. Qed.
End weights.

(** A session: [honest] are validators, the weights are not negative, their sum is
    capped, and the validators outside of [honest] have at most a third of it. *)
Class Session `{Bus} (honest : gset nat) : Prop := {
  honest_members : forall i, i ∈ honest -> (i < validators)%nat;
  weights_nonneg : Forall (fun w => 0 <= w) validator_set;
  weights_capped : weigh (seq 0 validators) <= 2 ^ 61;
  byzantine_third : 3 * weigh (filter (fun i => i ∉ honest) (seq 0 validators)) <= weigh (seq 0 validators);
}.

Section session.
Context `{Bus} (honest : gset nat) `{!Session honest}.

Lemma weight_nonneg i : 0 <= weight i.
Proof.
  unfold weight. destruct (validator_set !! i) as [w|] eqn:E; cbn; [|lia].
  by apply (proj1 (Forall_lookup _ _) weights_nonneg i w).
Qed.
Lemma weigh_nonneg l : 0 <= weigh l.
Proof. induction l as [|i l IH]; cbn; [lia|]. pose proof (weight_nonneg i). unfold weigh in *. lia. Qed.

(** [total_weight] is the sum. *)
Lemma weights_sum l t :
  Forall (fun w => 0 <= w) l -> 0 <= t -> t + foldr Z.add 0 l <= 2 ^ 61 ->
  foldl (fun t w => wrap_u 64 (t + w)) t l = t + foldr Z.add 0 l.
Proof.
  revert t. induction l as [|w l IH]; intros t Hl Ht Hs; cbn in *; [lia|]. apply Forall_cons_1 in Hl as [Hw Hl].
  assert (0 <= foldr Z.add 0 l) as Hp by (clear -Hl; induction Hl; cbn; lia).
  assert (wrap_u 64 (t + w) = t + w) as -> by (apply Z.mod_small; lia). rewrite IH by (done || lia). lia.
Qed.
Lemma weigh_all : weigh (seq 0 validators) = foldr Z.add 0 validator_set.
Proof.
  unfold weigh, weight, validators.
  enough (forall l k, (forall j, validator_set !! (k + j)%nat = l !! j) ->
    foldr (fun i t => default 0 (validator_set !! i) + t) 0 (seq k (length l)) = foldr Z.add 0 l) as He
    by (by apply (He validator_set 0%nat)).
  intros l. induction l as [|w l IH]; intros k Hl; cbn; [done|].
  pose proof (Hl 0%nat) as H0. rewrite Nat.add_0_r in H0. rewrite H0. cbn. f_equal. apply IH.
  intros j. etransitivity; [|apply (Hl (S j))]. f_equal. lia.
Qed.
Lemma total_weight_sum : total_weight = weigh (seq 0 validators).
Proof.
  pose proof weights_capped. rewrite weigh_all in *. unfold total_weight.
  rewrite weights_sum; [lia|apply weights_nonneg|lia|lia].
Qed.
Lemma threshold_value : weight_threshold = total_weight * 2 / 3 + 1.
Proof.
  unfold weight_threshold. pose proof weights_capped. pose proof (weigh_nonneg (seq 0 validators)) as Hn.
  rewrite <- total_weight_sum in *. unfold wrap_u. rewrite (Z.mod_small (total_weight * 2)) by lia.
  apply Z.mod_small. assert (total_weight * 2 / 3 <= 2 ^ 61) by (apply Z.div_le_upper_bound; lia).
  pose proof (Z.div_pos (total_weight * 2) 3). lia.
Qed.

(** *** Sets of validators *)

Lemma weigh_members l :
  NoDup l -> (forall i, i ∈ l -> (i < validators)%nat) -> weigh l = weigh (filter (fun i => i ∈ l) (seq 0 validators)).
Proof.
  intros Hd Hl. apply weigh_perm, NoDup_Permutation; [done|apply NoDup_filter, NoDup_seq|].
  intros i. rewrite list_elem_of_filter, elem_of_seq. split; [intros Hi; split; [done|]|tauto]. pose proof (Hl i Hi). lia.
Qed.
Lemma weigh_filter_split (P Q : nat -> Prop) `{!forall i, Decision (P i), !forall i, Decision (Q i)} l :
  weigh (filter P l) + weigh (filter Q l) <= weigh l + weigh (filter (fun i => P i /\ Q i) l).
Proof.
  induction l as [|i l IH]; [done|]. rewrite !filter_cons. pose proof (weight_nonneg i).
  repeat case_decide; cbn; unfold weigh in *; try tauto; lia.
Qed.
Lemma weigh_filter_mono (P Q : nat -> Prop) `{!forall i, Decision (P i), !forall i, Decision (Q i)} l :
  (forall i, P i -> Q i) -> weigh (filter P l) <= weigh (filter Q l).
Proof.
  intros HPQ. induction l as [|i l IH]; [done|]. rewrite !filter_cons. pose proof (weight_nonneg i). pose proof (HPQ i).
  repeat case_decide; cbn; unfold weigh in *; try tauto; lia.
Qed.
Lemma weigh_filter_le (P : nat -> Prop) `{!forall i, Decision (P i)} l : weigh (filter P l) <= weigh l.
Proof. induction l as [|i l IH]; [done|]. rewrite filter_cons. pose proof (weight_nonneg i). case_decide; cbn; unfold weigh in *; lia. Qed.
Lemma weigh_le_total l :
  NoDup l -> (forall i, i ∈ l -> (i < validators)%nat) -> weigh l <= total_weight.
Proof. intros Hd Hl. rewrite weigh_members, total_weight_sum by done. apply weigh_filter_le. Qed.

(** ** Certified votes *)

Implicit Types (S : nat -> Vote -> Prop) (v : Vote).

Definition quorum (l : list nat) : Prop :=
  NoDup l /\ (forall i, i ∈ l -> (i < validators)%nat) /\ weight_threshold <= weigh l.
Definition certified S v : Prop := exists l, quorum l /\ forall i, i ∈ l -> S i v.

Lemma certified_mono S S' v : (forall i v, S i v -> S' i v) -> certified S v -> certified S' v.
Proof. intros HS (l & Hq & Hl). exists l. naive_solver. Qed.

(** Two quorums share an honest validator. *)
Lemma quorums_meet l1 l2 : quorum l1 -> quorum l2 -> exists i, i ∈ honest /\ i ∈ l1 /\ i ∈ l2.
Proof.
  intros (Hd1 & Hr1 & Hw1) (Hd2 & Hr2 & Hw2). rewrite weigh_members in Hw1, Hw2 by done.
  pose proof (weigh_filter_split (fun i => i ∈ l1) (fun i => i ∈ l2) (seq 0 validators)) as Hs. cbv beta in Hs.
  pose proof byzantine_third as Hbyz. rewrite threshold_value in Hw1, Hw2. pose proof total_weight_sum as Ht.
  destruct (filter (fun i => i ∈ honest) (filter (fun i => i ∈ l1 /\ i ∈ l2) (seq 0 validators))) as [|i l] eqn:E.
  - exfalso. assert (weigh (filter (fun i => i ∈ l1 /\ i ∈ l2) (seq 0 validators)) <=
      weigh (filter (fun i => i ∉ honest) (seq 0 validators))) as Hle.
    { rewrite list_filter_filter in E. clear - E Session0. induction (seq 0 validators) as [|i l IH]; [done|].
      rewrite !filter_cons in *. pose proof (weight_nonneg i).
      repeat case_decide; cbn; unfold weigh in *; try (by exfalso; tauto); try (discriminate E); specialize (IH E); lia. }
    pose proof (Z.mul_succ_div_gt (total_weight * 2) 3 ltac:(lia)). lia.
  - exists i. assert (i ∈ i :: l) as Hi by (by constructor). rewrite <- E in Hi.
    rewrite !list_elem_of_filter in Hi. tauto.
Qed.
Lemma quorum_honest l : quorum l -> exists i, i ∈ honest /\ i ∈ l.
Proof. intros Hq. destruct (quorums_meet l l Hq Hq) as (i & ? & ? & _). by exists i. Qed.

(** *** Votes that one validator may cast together *)

Definition compatible (v w : Vote) : Prop :=
  referenced_slot v = referenced_slot w ->
  match v, w with
  | SkipVote _, FinalizeVote _ | FinalizeVote _, SkipVote _ => False
  | SkipVote _, _ | _, SkipVote _ => True
  | _, _ => vote_id v = vote_id w
  end.
Definition consistent S : Prop := forall i v w, i ∈ honest -> S i v -> S i w -> compatible v w.

Lemma certified_compatible S v w : consistent S -> certified S v -> certified S w -> compatible v w.
Proof.
  intros HS (l1 & Hq1 & H1) (l2 & Hq2 & H2). destruct (quorums_meet l1 l2 Hq1 Hq2) as (i & Hi & Hi1 & Hi2).
  apply (HS i); auto.
Qed.
Lemma certified_honest S v : certified S v -> exists i, i ∈ honest /\ S i v.
Proof. intros (l & Hq & Hl). destruct (quorum_honest l Hq) as (i & Hi & Hil). eauto. Qed.
End session.

(** ** Chains *)

Section chain.
Context `{Bus}.
Implicit Types S : nat -> Vote -> Prop.

Definition slot_after (parent : ParentId) : Z := match parent with Some q => id_slot q + 1 | None => 0 end.

(** A candidate for slot [n] may extend [parent]: the parent was notarized or finalized
    (or is the genesis), and all slots in between are skipped. *)
Definition settled S (n : Z) (parent : ParentId) : Prop :=
  slot_after parent <= n /\
  match parent with Some q => certified S (NotarizeVote q) \/ certified S (FinalizeVote q) | None => True end /\
  forall z, slot_after parent <= z < n -> certified S (SkipVote z).

Lemma settled_mono S S' n parent : (forall i v, S i v -> S' i v) -> settled S n parent -> settled S' n parent.
Proof.
  intros HS (Hn & Hp & Hz). pose proof (fun v => certified_mono S S' v HS) as Hm. split; [done|].
  split; [destruct parent; naive_solver|auto].
Qed.

Context (honest : gset nat) `{!Session honest} (parent_of : CandidateId -> ParentId).

(** Honest validators vote only for candidates that extend their parent. *)
Definition extending S : Prop :=
  forall i v id, i ∈ honest -> S i v -> vote_id v = Some id -> settled S (id_slot id) (parent_of id).

(** [b] descends from [a]. *)
Definition parent_step (x y : CandidateId) : Prop := parent_of x = Some y.
Definition descends (b a : CandidateId) : Prop := rtc parent_step b a.

Lemma finalized_prefix S a b :
  consistent honest S -> extending S -> 0 <= id_slot a ->
  certified S (FinalizeVote a) -> certified S (NotarizeVote b) \/ certified S (FinalizeVote b) ->
  id_slot a <= id_slot b -> descends b a.
Proof.
  intros HS Hext Ha Hfa. remember (Z.to_nat (id_slot b)) as n eqn:En. revert b En.
  induction (lt_wf n) as [n _ IH]. intros b -> Hb Hle.
  assert (exists w, (w = NotarizeVote b \/ w = FinalizeVote b) /\ certified S w) as (w & Hw & Hcw)
    by (destruct Hb; eauto).
  destruct (decide (id_slot a = id_slot b)) as [He|Hne].
  { pose proof (certified_compatible honest S _ _ HS Hfa Hcw) as Hcomp. unfold compatible in Hcomp.
    destruct Hw as [-> | ->]; cbn in Hcomp; injection (Hcomp He) as <-; apply rtc_refl. }
  destruct (certified_honest honest S w Hcw) as (i & Hi & Hsi).
  destruct (Hext i w b Hi Hsi) as (Hn & Hp & Hz); [by destruct Hw as [-> | ->]|].
  assert (~ certified S (SkipVote (id_slot a))) as Hns.
  { intros Hsk. by apply (certified_compatible honest S _ _ HS Hfa Hsk). }
  destruct (parent_of b) as [q|] eqn:Eq; cbn [slot_after] in *; [|exfalso; apply Hns, Hz; lia].
  destruct (decide (id_slot q < id_slot a)); [exfalso; apply Hns, Hz; lia|].
  eapply rtc_l; [exact Eq|]. apply (IH (Z.to_nat (id_slot q))); [lia|done|done|lia].
Qed.
End chain.
