(* ===== verification/SimplexInvariant.v ===== *)
(** * The invariant of the pool

    What the pool knows is true: its certificates are backed by quorums, the bases that
    it offers and the parents that it approves are settled, the validators that it
    reports are Byzantine.  And it never runs into a failed [CHECK]. *)
From S2P Require Import Prelude Simplex SimplexPool SimplexQuorum.

Definition no_exn {S} : exc -> S -> Prop := fun _ _ => False.

(** ** Slots *)

Section slots.
Context `{Bus}.
Implicit Types (p : Pool) (i j : Z).

(** [q] is [p] up to slot objects without content. *)
Definition same_slots (st st' : ConsensusState SlotState) : Prop :=
  first_non_finalized_slot_ st' = first_non_finalized_slot_ st /\
  forall i, deref (new_slot validators) i st' = deref (new_slot validators) i st.

Lemma same_slots_refl st : same_slots st st.
Proof. done. Qed.
Lemma same_slots_trans st1 st2 st3 : same_slots st1 st2 -> same_slots st2 st3 -> same_slots st1 st3.
Proof. intros [H1 H2] [H3 H4]. split; [congruence|]. intros i. by rewrite H4. Qed.
Lemma deref_update {A} (new : A) f i j st :
  deref new j (update_slot new f i st) = if decide (i = j) then f (deref new i st) else deref new j st.
Proof.
  unfold deref, update_slot. cbn. destruct (decide (i = j)) as [->|]; [by rewrite lookup_insert_eq|by rewrite lookup_insert_ne].
Qed.
Lemma slot_at_spec {A} (new : A) i st :
  let '(r, st') := slot_at new i st in
  r = (if i <? first_non_finalized_slot_ st then None else Some i) /\
  first_non_finalized_slot_ st' = first_non_finalized_slot_ st /\ forall j, deref new j st' = deref new j st.
Proof.
  unfold slot_at. destruct (_ <? _); [done|]. destruct (objects_ st !! i) eqn:E; [done|].
  split; [done|]. split; [done|]. intros j. rewrite deref_update. unfold id. by case_decide; subst.
Qed.
Lemma wp_pool_slot_at i (Q : option Z -> Pool -> Prop) E p :
  (forall st, same_slots (state_ p) st ->
     Q (if i <? first_non_finalized_slot_ (state_ p) then None else Some i) (set_state st p)) ->
  wp (pool_slot_at i) Q E p.
Proof.
  intros HQ. unfold wp, pool_slot_at. pose proof (slot_at_spec (new_slot validators) i (state_ p)) as Hs.
  destruct (slot_at _ i (state_ p)) as [r st]. destruct Hs as (-> & Hf & Hd). by apply HQ.
Qed.
Lemma wp_get_slot_at i (Q : Z -> Pool -> Prop) E p :
  first_non_finalized_slot_ (state_ p) <= i ->
  (forall st, same_slots (state_ p) st -> Q i (set_state st p)) -> wp (get_slot_at i) Q E p.
Proof.
  intros Hi HQ. apply wp_bind, wp_pool_slot_at. intros st Hst. rewrite (proj2 (Z.ltb_ge _ _)) by done. by apply HQ.
Qed.
Lemma slot_of_change i j f p :
  slot_of j (set_state (update_slot (new_slot validators) f i (state_ p)) p) =
  if decide (i = j) then f (slot_of i p) else slot_of j p.
Proof. apply deref_update. Qed.

(** *** [set_lower_bound] *)

Lemma foldr_min k ks : foldr Z.min k ks ∈ k :: ks /\ forall x, x ∈ k :: ks -> foldr Z.min k ks <= x.
Proof.
  induction ks as [|a ks [IH1 IH2]]; cbn.
  - split; [by constructor|]. intros x [->|Hx]%elem_of_cons; [lia|by apply elem_of_nil in Hx].
  - split.
    + destruct (Z.min_spec a (foldr Z.min k ks)) as [[_ ->]|[_ ->]].
      * by apply list_elem_of_further, list_elem_of_here.
      * apply elem_of_cons in IH1 as [->|IH1]; [by apply list_elem_of_here|by do 2 apply list_elem_of_further].
    + intros x [->|[->|Hx]%elem_of_cons]%elem_of_cons.
      * specialize (IH2 k (list_elem_of_here _ _)). lia.
      * lia.
      * specialize (IH2 x (list_elem_of_further _ _ _ Hx)). lia.
Qed.
Lemma lower_bound_spec x (s : gset Z) :
  match set_lower_bound x s with
  | Some y => y ∈ s /\ x <= y /\ forall z, z ∈ s -> x <= z -> y <= z
  | None => forall z, z ∈ s -> z < x
  end.
Proof.
  unfold set_lower_bound. destruct (filter _ (elements s)) as [|k ks] eqn:E.
  - intros z Hz. destruct (decide (x <= z)); [|lia].
    assert (z ∈ filter (fun k => x <= k) (elements s)) as Hin by (apply list_elem_of_filter; by rewrite elem_of_elements).
    rewrite E in Hin. by apply elem_of_nil in Hin.
  - destruct (foldr_min k ks) as [H1 H2]. rewrite <- E, list_elem_of_filter, elem_of_elements in H1. split; [tauto|].
    split; [tauto|]. intros z Hz Hx. apply H2. by rewrite <- E, list_elem_of_filter, elem_of_elements.
Qed.

(** *** Skipped slots *)

Definition sk p i : Prop := is_skipped (slot_of i p) = true.
Definition nt p i : Prop := is_notarized (slot_of i p) = true.
#[export] Instance sk_dec p i : Decision (sk p i) := bool_eq_dec _ _.
#[export] Instance nt_dec p i : Decision (nt p i) := bool_eq_dec _ _.

(** Only slots with an object have certificates. *)
Lemma certificate_object i p : sk p i \/ nt p i -> i ∈ dom (objects_ (state_ p)).
Proof.
  unfold sk, nt, slot_of, deref. intros Hi. apply elem_of_dom. destruct (objects_ (state_ p) !! i); [done|].
  by destruct Hi.
Qed.
Lemma skips_end i p : exists e, i <= e /\ ~ sk p e /\ forall z, i <= z < e -> sk p z.
Proof.
  set (X := filter (fun k => i <= k) (dom (objects_ (state_ p)))).
  remember (size X) as n eqn:En. revert i X En. induction n as [n IH] using lt_wf_ind. intros i X ->.
  destruct (decide (sk p i)) as [Hs|Hn]; [|exists i; split; [lia|]; split; [done|lia]].
  destruct (IH (size (filter (fun k => i + 1 <= k) (dom (objects_ (state_ p))))) ) with (i := i + 1) as (e & He & Hne & Hz); [|done|].
  - apply subset_size. split; [intros z; unfold X; rewrite !elem_of_filter; intros [? ?]; split; [lia|done]|].
    intros Hsub. specialize (Hsub i). unfold X in Hsub. rewrite !elem_of_filter in Hsub.
    destruct Hsub as [? _]; [|lia]. split; [lia|]. apply certificate_object. by left.
  - exists e. split; [lia|]. split; [done|]. intros z Hr. destruct (decide (z = i)) as [->|]; [done|]. apply Hz. lia.
Qed.

(** The end of the interval of skipped slots that starts at [j]. *)
Lemma lower_bound_end j p :
  (forall e, j <= e -> e ∈ skip_intervals_ p -> ~ sk p e) ->
  (forall e, j + 1 <= e -> sk p (e - 1) -> ~ sk p e -> e ∈ skip_intervals_ p) -> sk p j ->
  exists e, set_lower_bound j (skip_intervals_ p) = Some e /\ j < e /\ ~ sk p e /\ forall z, j <= z < e -> sk p z.
Proof.
  intros Hin Hout Hj. pose proof (lower_bound_spec j (skip_intervals_ p)) as Hl.
  destruct (skips_end j p) as (e & He & Hne & Hz). assert (e <> j) as Hej by (by intros ->).
  assert (e ∈ skip_intervals_ p) as Hes by (apply Hout; [lia|apply Hz; lia|done]).
  destruct (set_lower_bound _ _) as [y|]; [|specialize (Hl e Hes); lia]. destruct Hl as (Hy & Hiy & Hmin).
  pose proof (Hmin e Hes He) as Hye. pose proof (Hin y Hiy Hy) as Hny. assert (y <> j) by congruence.
  exists y. repeat split; [lia|done|]. intros z Hr. apply Hz. lia.
Qed.

(** [next_nonskipped_slot_after] finds the first slot after [i] that is not skipped, when
    [skip_intervals_] is right from [i] on. *)
Lemma wp_next_nonskipped i (Q : Z -> Pool -> Prop) E p :
  0 <= i < 2 ^ 31 - 1 -> first_non_finalized_slot_ (state_ p) <= i + 1 ->
  (forall e, i + 1 <= e -> e ∈ skip_intervals_ p -> ~ sk p e) ->
  (forall e, i + 2 <= e -> sk p (e - 1) -> ~ sk p e -> e ∈ skip_intervals_ p) ->
  (forall n st, same_slots (state_ p) st -> i < n -> ~ sk p n -> (forall z, i < z < n -> sk p z) -> Q n (set_state st p)) ->
  wp (next_nonskipped_slot_after i) Q E p.
Proof.
  intros Hi Hf Hin Hout HQ. unfold next_nonskipped_slot_after.
  assert (wrap_s 32 i = i) as ->. { unfold wrap_s. rewrite Z.mod_small; lia. }
  apply wp_bind, wp_assert_ub; [apply Z.ltb_lt; lia|].
  assert (wrap_u 32 (i + 1) = i + 1) as -> by (apply Z.mod_small; lia).
  apply wp_bind, wp_pool_slot_at. intros st Hst. rewrite (proj2 (Z.ltb_ge _ _)) by done.
  apply wp_bind, wp_ret, wp_bind, wp_gets.
  assert (slot_of (i + 1) (set_state st p) = slot_of (i + 1) p) as -> by apply Hst.
  destruct (is_skipped (slot_of (i + 1) p)) eqn:Es.
  - apply wp_bind, wp_gets. cbn [skip_intervals_ set_state].
    destruct (lower_bound_end (i + 1) p) as (y & -> & Hy & Hny & Hz); [done|intros e He; apply Hout; lia|done|].
    apply wp_bind, wp_ret, wp_get_slot_at; [cbn; rewrite (proj1 Hst); lia|]. intros st' Hst'.
    apply (HQ y st' (same_slots_trans _ _ _ Hst Hst')); [lia|done|]. intros z Hr. apply Hz. lia.
  - apply wp_ret, HQ; [done|lia|unfold sk; congruence|lia].
Qed.
End slots.

(** ** What the pool knows

    [limit] bounds the slots that honest validators vote for in the session; the
    arithmetic on slots does not wrap around below it. *)
Class SlotLimits `{Bus} (limit max_desync : Z) : Prop := {
  window_positive : 0 < slots_per_leader_window;
  limit_int : 0 <= limit < 2 ^ 31 - 1;
  limit_window : limit + (max_desync + 1) * slots_per_leader_window < 2 ^ 32;
}.

Section knowledge.
Context `{Bus} (honest : gset nat) (limit max_desync : Z).
Implicit Types (S : nat -> Vote -> Prop) (p : Pool).

(** A certificate with valid signatures of a quorum. *)
Record cert_ok S (c : Certificate) : Prop := {
  co_nodup : NoDup (signatures c).*1;
  co_signers : forall idx sig, (idx, sig) ∈ signatures c ->
    (idx < validators)%nat /\ S idx (cert_vote c) /\ check_signature idx (cert_vote c) sig = true;
  co_weight : weight_threshold <= weigh (signatures c).*1;
}.

(** A vote of validator [idx]; one that is proven by a certificate only needs it to be
    there. *)
Definition proof_ok idx (q : Proven) (covered : bool) : Prop :=
  match pv_proof q with
  | by_signature sg => sg_validator sg = idx /\ sg_vote sg = pv_vote q /\ check_signature idx (pv_vote q) (sg_signature sg) = true
  | by_certificate c => covered = true
  end.

Definition voted_for (v : Vote) (s : SlotState) (idx : nat) : bool :=
  match votes s !! idx with
  | Some t => match stored_vote (vote_type v) t with Some q => bool_decide (pv_vote q = v) | None => false end
  | None => false
  end.
Definition voters (v : Vote) (s : SlotState) : list nat := filter (fun idx => voted_for v s idx = true) (seq 0 validators).

(** Slot [i]; [pend] is the type of a certificate whose votes are being added. *)
Record slot_ok S (pend : option VoteType) (i : Z) (s : SlotState) : Prop := {
  so_length : length (votes s) = validators;
  so_votes : forall idx t ty q, votes s !! idx = Some t -> stored_vote ty t = Some q ->
    vote_type (pv_vote q) = ty /\ referenced_slot (pv_vote q) = i /\ S idx (pv_vote q) /\
    proof_ok idx q (has_cert ty (certs s) || bool_decide (pend = Some ty));
  so_certs : forall ty c, cert (bundle_get ty (certs s)) = Some c ->
    vote_type (cert_vote c) = ty /\ referenced_slot (cert_vote c) = i /\ cert_ok S c;
  so_weights : forall v, referenced_slot v = i -> will_have_cert (vote_type v) s = false -> weight_for v s = weigh (voters v s);
}.

(** What contradicts a candidate: another block with a certificate in its slot, a
    finalized block that it goes past, or another block in the slot of its parent. *)
Definition block_certified S (b : CandidateId) : Prop := certified S (NotarizeVote b) \/ certified S (FinalizeVote b).
Definition contradicted S (id : CandidateId) (parent : ParentId) : Prop :=
  (exists b, b <> id /\ id_slot b = id_slot id /\ block_certified S b) \/
  (exists f, slot_after parent <= id_slot f < id_slot id /\ certified S (FinalizeVote f)) \/
  (exists b q, parent = Some q /\ b <> q /\ id_slot b = id_slot q /\ block_certified S b).

Definition event_ok S (e : BusEvent) : Prop :=
  match e with
  | OutgoingVote sg => S (sg_validator sg) (sg_vote sg)
  | OutgoingCertificate c => cert_ok S c
  | NotarizationObserved id => certified S (NotarizeVote id)
  | FinalizationObserved id => certified S (FinalizeVote id)
  | LeaderWindowObserved n base => 0 <= n <= limit /\ settled S n base
  | MisbehaviorReport idx m => idx ∉ honest
  | RequestResolved id parent ParentReady => settled S (id_slot id) parent
  | RequestResolved id parent (ParentMisbehavior _) => contradicted S id parent
  | RequestResolved _ _ SlotFinalized => True
  end.

Definition request_ok (r : Request) : Prop :=
  0 <= id_slot (rq_id r) < 2 ^ 32 /\
  match rq_parent r with Some q => 0 <= id_slot q < id_slot (rq_id r) | None => True end.
Definition cert_key (c : Certificate) : Z * VoteType := (referenced_slot (cert_vote c), vote_type (cert_vote c)).
Definition first p : Z := first_nonfinalized_slot_ p.

(** Everything but the bookkeeping of skipped slots and bases.  [pend] is the type of a
    certificate of a slot whose votes are being added. *)
Record pool_core S (pend : Z -> option VoteType) p : Prop := {
  pc_first : first p = slot_after (last_finalized_block_ p);
  pc_state : first_non_finalized_slot_ (state_ p) = first p;
  pc_last : forall b, last_finalized_block_ p = Some b -> certified S (FinalizeVote b);
  pc_slots : forall i, slot_ok S (pend i) i (slot_of i p);
  pc_now : first p <= now_ p /\ forall x, first p <= x < now_ p -> nt p x \/ sk p x;
  pc_settled : forall x b, first p <= x -> available_base (slot_of x p) = Some b -> settled S x b;
  pc_requests : Forall request_ok (requests_ p);
  pc_saving : forall c, c ∈ saving p -> cert_ok S c /\
    (first p <= referenced_slot (cert_vote c) ->
     let f := bundle_get (vote_type (cert_vote c)) (certs (slot_of (referenced_slot (cert_vote c)) p)) in
     being_saved f = true /\ cert f = None);
  pc_saving_nodup : NoDup (map cert_key (saving p));
  pc_published : Forall (event_ok S) (published p);
  pc_desync : 0 <= max_leader_window_desync p <= max_desync;
}.
(** [skip_intervals_] holds the ends of the intervals of skipped slots. *)
Definition skips_ok p : Prop := forall e, e ∈ skip_intervals_ p <-> first p <= e - 1 /\ sk p (e - 1) /\ ~ sk p e.
(** A slot that can be reached from a certified block over skipped slots has a base. *)
Definition bases_ok p : Prop := forall x y,
  ~ sk p x -> first p - 1 <= y < x -> y = first p - 1 \/ nt p y ->
  (forall z, y < z < x -> sk p z) -> available_base (slot_of x p) <> None.
Record pool_ok S p : Prop := {
  po_core :> pool_core S (fun _ => None) p;
  po_skips : skips_ok p;
  po_base : bases_ok p;
}.

(** Only the contents of the slots count. *)
Record same_view p p' : Prop := {
  sv_slots : same_slots (state_ p) (state_ p');
  sv_first : first p' = first p;
  sv_last : last_finalized_block_ p' = last_finalized_block_ p;
  sv_now : now_ p' = now_ p;
  sv_skips : skip_intervals_ p' = skip_intervals_ p;
  sv_requests : requests_ p' = requests_ p;
  sv_saving : saving p' = saving p;
  sv_published : published p' = published p;
  sv_desync : max_leader_window_desync p' = max_leader_window_desync p;
}.
Lemma view_slot_of p p' i : same_view p p' -> slot_of i p' = slot_of i p.
Proof. intros Hv. apply (sv_slots _ _ Hv). Qed.
Lemma view_sk p p' i : same_view p p' -> sk p' i <-> sk p i.
Proof. intros Hv. unfold sk. by rewrite (view_slot_of p p'). Qed.
Lemma view_nt p p' i : same_view p p' -> nt p' i <-> nt p i.
Proof. intros Hv. unfold nt. by rewrite (view_slot_of p p'). Qed.
Lemma pool_core_view S pend p p' : same_view p p' -> pool_core S pend p -> pool_core S pend p'.
Proof.
  intros Hv Hp. pose proof (fun i => view_slot_of p p' i Hv) as Hd. destruct Hv as [[Hf Hs] E1 E2 E3 E4 E5 E6 E7 E8], Hp.
  split; unfold sk, nt in *; rewrite ?E1, ?E2, ?E3, ?E4, ?E5, ?E6, ?E7, ?E8, ?Hf; try done.
  - intros i. by rewrite Hd.
  - destruct pc_now0 as [H1 H2]. split; [done|]. intros x. rewrite Hd. apply H2.
  - intros x b. rewrite Hd. apply pc_settled0.
  - intros c Hc. rewrite Hd. by apply pc_saving0.
Qed.
Lemma pool_ok_view S p p' : same_view p p' -> pool_ok S p -> pool_ok S p'.
Proof.
  intros Hv [Hc Hs Hb]. split; [by apply (pool_core_view S _ p)| |].
  - intros e. rewrite (sv_skips _ _ Hv), (sv_first _ _ Hv), !(view_sk p p') by done. apply Hs.
  - intros x y. rewrite (sv_first _ _ Hv), (view_sk p p'), (view_nt p p'), (view_slot_of p p') by done.
    intros Hx Hy Hn Hz. apply (Hb x y Hx Hy Hn). intros z Hr. apply (view_sk p p'); [done|]. by apply Hz.
Qed.
Lemma set_state_view p st : same_slots (state_ p) st -> same_view p (set_state st p).
Proof. done. Qed.
Lemma pool_ok_slots S p st : same_slots (state_ p) st -> pool_ok S p -> pool_ok S (set_state st p).
Proof. intros Hst. by apply pool_ok_view, set_state_view. Qed.
Lemma pool_core_publish S pend p e : event_ok S e -> pool_core S pend p -> pool_core S pend (set_published (published p ++ [e]) p).
Proof. intros He Hp. destruct Hp. split; try done. cbn. apply Forall_app. split; [done|]. by constructor. Qed.
Lemma pool_ok_publish S p e : event_ok S e -> pool_ok S p -> pool_ok S (set_published (published p ++ [e]) p).
Proof. intros He [Hc Hs Hb]. split; [by apply pool_core_publish|done..]. Qed.

(** *** More signatures keep it true *)

Lemma cert_ok_mono S S' c : (forall i v, S i v -> S' i v) -> cert_ok S c -> cert_ok S' c.
Proof. intros HS [H1 H2 H3]. split; [done| |done]. intros idx sig Hin. destruct (H2 idx sig Hin) as (? & ? & ?). auto. Qed.
Lemma block_certified_mono S S' b : (forall i v, S i v -> S' i v) -> block_certified S b -> block_certified S' b.
Proof. intros HS [Hb|Hb]; [left|right]; by apply (certified_mono S S'). Qed.
Lemma event_ok_mono S S' e : (forall i v, S i v -> S' i v) -> event_ok S e -> event_ok S' e.
Proof.
  intros HS. pose proof (fun v => certified_mono S S' v HS) as Hm. pose proof (fun b => block_certified_mono S S' b HS) as Hb.
  destruct e as [sg|c|id|id|n base|idx m|id parent [|m|]]; cbn; [by apply HS|by apply cert_ok_mono|by apply Hm|by apply Hm| |done|..|done].
  - intros [Hn Hs]. split; [done|]. by apply (settled_mono S S').
  - by apply settled_mono.
  - intros [(b & ? & ? & ?)|[(f & ? & ?)|(b & q & ? & ? & ? & ?)]]; [left|right; left|right; right]; eauto 10.
Qed.
Lemma slot_ok_mono S S' pend i s : (forall i v, S i v -> S' i v) -> slot_ok S pend i s -> slot_ok S' pend i s.
Proof.
  intros HS [H1 H2 H3 H4]. split; [done| | |done].
  - intros idx t ty q Ht Hq. destruct (H2 idx t ty q Ht Hq) as (? & ? & ? & ?). auto.
  - intros ty c Hc. destruct (H3 ty c Hc) as (? & ? & ?). eauto using cert_ok_mono.
Qed.
Lemma pool_ok_mono S S' p : (forall i v, S i v -> S' i v) -> pool_ok S p -> pool_ok S' p.
Proof.
  intros HS [Hp Hsk Hb]. split; [|done..]. destruct Hp. split; try done.
  - intros b Hl. by apply (certified_mono S S'), pc_last0.
  - intros i. by apply (slot_ok_mono S S').
  - intros x b Hx Hbx. by apply (settled_mono S S'), pc_settled0.
  - intros c Hc. destruct (pc_saving0 c Hc) as [? ?]. split; [by apply (cert_ok_mono S S')|done].
  - eapply Forall_impl; [done|]. intros e. by apply event_ok_mono.
Qed.
End knowledge.

Arguments so_length {_ _ _ _ _} _.
Arguments so_votes {_ _ _ _ _} _.
Arguments so_certs {_ _ _ _ _} _.
Arguments so_weights {_ _ _ _ _} _.
Arguments pc_first {_ _ _ _ _ _ _} _.
Arguments pc_state {_ _ _ _ _ _ _} _.
Arguments pc_last {_ _ _ _ _ _ _} _.
Arguments pc_slots {_ _ _ _ _ _ _} _.
Arguments pc_now {_ _ _ _ _ _ _} _.
Arguments pc_settled {_ _ _ _ _ _ _} _.
Arguments pc_requests {_ _ _ _ _ _ _} _.
Arguments pc_saving {_ _ _ _ _ _ _} _.
Arguments pc_saving_nodup {_ _ _ _ _ _ _} _.
Arguments pc_published {_ _ _ _ _ _ _} _.
Arguments pc_desync {_ _ _ _ _ _ _} _.
Arguments po_skips {_ _ _ _ _ _} _.
Arguments po_base {_ _ _ _ _ _} _.
