(* ===== verification/SimplexPoolSafe.v ===== *)
(** * The pool keeps its invariant

    Every handler of the pool, run on a pool that satisfies [pool_ok], returns without a
    failed [CHECK] and leaves a pool that satisfies it. *)
From S2P Require Import Prelude Simplex SimplexPool SimplexQuorum SimplexInvariant.

Section safe.
Context `{Bus} (honest : gset nat) `{!Session honest} (limit max_desync : Z) `{!SlotLimits limit max_desync}.
Context (S : nat -> Vote -> Prop) (HS : consistent honest S)
  (Hlim : forall i v, i ∈ honest -> S i v -> 0 <= referenced_slot v < limit).
Implicit Types p : Pool.
#[local] Notation ok := (pool_ok honest limit max_desync S).

(** ** Certificates in slots *)

Lemma certified_limit v : certified S v -> 0 <= referenced_slot v < limit.
Proof using HS Hlim Session0. intros (i & Hi & Hs)%(certified_honest honest). by apply (Hlim i). Qed.
Lemma cert_ok_certified c : cert_ok S c -> certified S (cert_vote c).
Proof.
  intros [H1 H2 H3]. exists (signatures c).*1. split; [split; [done|split; [|done]]|].
  all: intros i [[j sig] [-> Hin]]%list_elem_of_fmap; by apply (H2 j sig).
Qed.
Lemma has_cert_some ty b : has_cert ty b = true -> exists c, cert (bundle_get ty b) = Some c.
Proof. unfold has_cert. destruct (cert _) eqn:E; [eauto|done]. Qed.

Lemma skip_certified pend p i : slot_ok S pend i (slot_of i p) -> sk p i -> certified S (SkipVote i).
Proof.
  intros Hs [c Hc]%has_cert_some. destruct (so_certs Hs TSkip c Hc) as (Ht & Hr & Hok).
  apply cert_ok_certified in Hok. destruct (cert_vote c); try done. cbn in Hr. by subst.
Qed.
Lemma notarized_block_certified pend i s b :
  slot_ok S pend i s -> notarized_block s = Some b -> id_slot b = i /\ block_certified S b.
Proof.
  intros Hs. unfold notarized_block. destruct (cert (notar_ _)) as [c|] eqn:E1; [|destruct (cert (final_ _)) as [c|] eqn:E2; [|done]].
  - destruct (so_certs Hs TNotarize c E1) as (Ht & Hr & Hok%cert_ok_certified).
    destruct (cert_vote c); try done. cbn. intros [= <-]. split; [done|by left].
  - destruct (so_certs Hs TFinalize c E2) as (Ht & Hr & Hok%cert_ok_certified).
    destruct (cert_vote c); try done. cbn. intros [= <-]. split; [done|by right].
Qed.
Lemma notarized_id i s c :
  slot_ok S None i s -> cert (bundle_get TNotarize (certs s)) = Some c -> exists id, cert_vote c = NotarizeVote id /\ id_slot id = i.
Proof.
  intros Hs Hc. destruct (so_certs Hs TNotarize c Hc) as (Ht & Hr & _). destruct (cert_vote c); try done. eauto.
Qed.

(** Certified slots lie below the limit. *)
Lemma cert_slot_limit p i : (forall j, slot_ok S None j (slot_of j p)) -> sk p i \/ nt p i -> 0 <= i < limit.
Proof using HS Hlim Session0.
  intros Hs [Hi|[c Hc]%has_cert_some].
  - by apply (certified_limit (SkipVote i)), (skip_certified None p).
  - destruct (so_certs (Hs i) TNotarize c Hc) as (_ & <- & Hok%cert_ok_certified). by apply certified_limit.
Qed.
Lemma ok_first_limit p : ok p -> 0 <= first p <= limit.
Proof using HS Hlim Session0 SlotLimits0.
  intros Hp. rewrite (pc_first Hp). pose proof limit_int. destruct (last_finalized_block_ p) as [b|] eqn:E; cbn; [|lia].
  pose proof (certified_limit _ (pc_last Hp b E)) as Hb. cbn in Hb. lia.
Qed.
Lemma ok_now_limit p : ok p -> 0 <= now_ p <= limit.
Proof using HS Hlim Session0 SlotLimits0.
  intros Hp. pose proof (ok_first_limit p Hp). destruct (pc_now Hp) as [H1 H2].
  destruct (decide (now_ p = first p)); [lia|].
  assert (0 <= now_ p - 1 < limit); [|lia]. apply (cert_slot_limit p); [apply (pc_slots Hp)|].
  destruct (H2 (now_ p - 1)); [lia|tauto..].
Qed.

(** ** The present *)

Lemma wp_advance_now fuel : forall p X (Q : unit -> Pool -> Prop) E,
  (forall j, slot_ok S None j (slot_of j p)) -> first_non_finalized_slot_ (state_ p) <= now_ p ->
  (forall z, sk p z \/ nt p z -> z ∈ X) -> (size (filter (fun k => (now_ p <= k)%Z) (X : gset Z)) < fuel)%nat ->
  (forall n st, same_slots (state_ p) st -> now_ p <= n -> (forall z, now_ p <= z < n -> nt p z \/ sk p z) ->
     ~ nt p n -> ~ sk p n -> Q tt (set_now n (set_state st p))) ->
  wp (advance_now fuel) Q E p.
Proof using HS Hlim Session0 SlotLimits0.
  induction fuel as [|fuel IH]; intros p X Q E Hs Hf HX Hfuel HQ; [lia|]. cbn [advance_now].
  apply wp_bind, wp_gets, wp_bind, wp_get_slot_at; [done|]. intros st Hst. apply wp_bind, wp_gets.
  assert (forall j, slot_of j (set_state st p) = slot_of j p) as Hd by apply Hst. rewrite Hd.
  destruct (is_notarized (slot_of (now_ p) p) || is_skipped (slot_of (now_ p) p)) eqn:Ec.
  - apply orb_true_iff in Ec. assert (sk p (now_ p) \/ nt p (now_ p)) as Hc by (unfold sk, nt; tauto).
    pose proof (cert_slot_limit p _ Hs Hc) as Hn. pose proof limit_int.
    apply wp_bind, wp_modify.
    assert (wrap_u 32 (now_ p + 1) = now_ p + 1) as -> by (apply Z.mod_small; lia).
    apply (IH _ X).
    + intros j. change (slot_of j (set_now _ _)) with (slot_of j (set_state st p)). by rewrite Hd.
    + cbn. rewrite (proj1 Hst). lia.
    + intros z. unfold sk, nt. change (slot_of z (set_now _ _)) with (slot_of z (set_state st p)). rewrite Hd. apply HX.
    + cbn. enough (size (filter (fun k => (now_ p + 1 <= k)%Z) X) < size (filter (fun k => (now_ p <= k)%Z) X))%nat by lia.
      apply subset_size. split; [intros z; rewrite !elem_of_filter; intros [? ?]; split; [lia|done]|].
      intros Hsub. specialize (Hsub (now_ p)). rewrite !elem_of_filter in Hsub. destruct Hsub as [? _]; [|lia].
      split; [lia|by apply HX].
    + intros n st' [H1 H2] Hn' Hz Hnt Hsk. cbn in Hn', Hz.
      assert (forall z, slot_of z (set_now (now_ p + 1) (set_state st p)) = slot_of z p) as Hd' by apply Hst.
      unfold nt, sk in Hz, Hnt, Hsk. setoid_rewrite Hd' in Hz. rewrite Hd' in Hnt, Hsk.
      apply (HQ n st'); [split; [rewrite H1; apply Hst|intros j; rewrite H2; apply Hst]|lia| |done|done].
      intros z Hr. destruct (decide (z = now_ p)) as [->|]; [tauto|apply Hz; lia].
  - apply orb_false_iff in Ec as [E1 E2]. apply wp_ret.
    assert (Q tt (set_now (now_ p) (set_state st p))) as HQ'; [|exact HQ'].
    apply HQ; [done|lia|lia|unfold nt; congruence|unfold sk; congruence].
Qed.

(** What [advance_present] may change. *)
Definition announced p (n : Z) (win : Z) (ev : list BusEvent) : Prop :=
  (ev = [] /\ win = first_nonannounced_window_ p) \/
  exists base, ev = [LeaderWindowObserved n base] /\ first_nonannounced_window_ p <= n / slots_per_leader_window /\
    win = n / slots_per_leader_window + 1 /\
    ((n = 0 /\ base = None) \/ available_base (slot_of n p) = Some base).
Definition advanced p (n win : Z) ev st : Pool := set_published (published p ++ ev) (set_window win (set_now n (set_state st p))).

Lemma wp_advance_present p (Q : unit -> Pool -> Prop) E :
  (forall j, slot_ok S None j (slot_of j p)) -> first_non_finalized_slot_ (state_ p) <= now_ p -> 0 <= now_ p <= limit ->
  (forall n, now_ p <= n -> n <> 0 -> (forall z, now_ p <= z < n -> nt p z \/ sk p z) -> ~ sk p n -> available_base (slot_of n p) <> None) ->
  (forall n st win ev, same_slots (state_ p) st -> now_ p <= n <= limit -> (forall z, now_ p <= z < n -> nt p z \/ sk p z) ->
     announced p n win ev -> (is_started_ p = true -> ~ nt p n /\ ~ sk p n /\ n / slots_per_leader_window < win) ->
     Q tt (advanced p n win ev st)) ->
  wp advance_present Q E p.
Proof using HS Hlim Session0 SlotLimits0.
  intros Hs Hf Hnl Hb HQ. unfold advance_present. apply wp_bind, wp_gets. destruct (is_started_ p) eqn:Est; cbn [negb].
  2:{ apply wp_ret. specialize (HQ (now_ p) (state_ p) (first_nonannounced_window_ p) [] (same_slots_refl _)).
      unfold advanced in HQ. rewrite app_nil_r in HQ. replace p with (set_published (published p)
        (set_window (first_nonannounced_window_ p) (set_now (now_ p) (set_state (state_ p) p)))) by (by destruct p).
      apply HQ; [lia|lia|by left|done]. }
  apply wp_bind, wp_gets, wp_bind.
  apply (wp_advance_now _ p (dom (objects_ (state_ p)))); [done|done|intros z; apply certificate_object| |].
  { unfold present_fuel. rewrite <- (size_dom (D := gset Z)).
    enough (size (filter (fun k => (now_ p <= k)%Z) (dom (objects_ (state_ p)))) <= size (dom (objects_ (state_ p))))%nat by lia.
    apply subseteq_size. set_solver. }
  intros n st Hst Hn Hz Hnt Hsk. apply wp_bind, wp_gets, wp_bind.
  pose proof window_positive as Hw. pose proof limit_int. apply wp_assert_ub; [by rewrite (proj2 (Z.eqb_neq _ _)) by lia|].
  cbn [now_ set_now]. cbv zeta. apply wp_bind, wp_gets. cbn [first_nonannounced_window_ set_now set_state].
  assert (n <= limit) as Hnl'.
  { destruct (decide (n = now_ p)); [lia|]. enough (0 <= n - 1 < limit) by lia.
    apply (cert_slot_limit p); [done|]. destruct (Hz (n - 1)); [lia|tauto..]. }
  destruct (n / slots_per_leader_window <? first_nonannounced_window_ p) eqn:Ew.
  { apply wp_ret. specialize (HQ n st (first_nonannounced_window_ p) [] Hst ltac:(lia) Hz (or_introl (conj eq_refl eq_refl))).
    unfold advanced in HQ. rewrite app_nil_r in HQ. apply HQ. intros _. split; [done|]. split; [done|]. by apply Z.ltb_lt. }
  apply Z.ltb_ge in Ew. apply wp_bind, wp_modify.
  assert (wrap_u 32 (n / slots_per_leader_window + 1) = n / slots_per_leader_window + 1) as Ewr.
  { apply Z.mod_small. assert (0 <= n / slots_per_leader_window) by (apply Z.div_pos; lia).
    assert (n / slots_per_leader_window <= n) by (apply Z.div_le_upper_bound; nia). lia. }
  rewrite Ewr. destruct (Z.eqb_spec n 0) as [->|Hn0].
  - apply wp_bind, wp_ret. unfold publish. apply wp_modify.
    apply (HQ 0 st); [done|lia|done| |intros _; split; [done|]; split; [done|lia]]. right. exists None. by repeat split; [..|left].
  - apply wp_bind, wp_bind, wp_get_slot_at; [cbn; rewrite (proj1 Hst); lia|]. intros st' [Hs1 Hs2].
    assert (same_slots (state_ p) st') as Hst' by exact (same_slots_trans _ _ _ Hst (conj Hs1 Hs2)).
    apply wp_bind, wp_gets. pose proof (Hb n Hn Hn0 Hz Hsk) as Hbn.
    assert (slot_of n (set_state st' (set_window (n / slots_per_leader_window + 1) (set_now n (set_state st p)))) = slot_of n p)
      as -> by apply Hst'.
    destruct (available_base (slot_of n p)) as [base|] eqn:Eb; [|done].
    apply wp_ret. unfold publish. apply wp_modify.
    apply (HQ n st'); [done|lia|done| |intros _; split; [done|]; split; [done|apply Z.lt_succ_diag_r]]. right. exists base. by repeat split; [..|right].
Qed.

(** The base of the first slot without a certificate. *)
Lemma last_base p n :
  first p <= n -> (forall z, first p <= z < n -> nt p z \/ sk p z) ->
  exists y, first p - 1 <= y < n /\ (y = first p - 1 \/ nt p y) /\ forall z, y < z < n -> sk p z.
Proof.
  intros Hn. revert n Hn. apply (Zlt_lower_bound_ind (fun n => (forall z, first p <= z < n -> nt p z \/ sk p z) ->
    exists y, first p - 1 <= y < n /\ (y = first p - 1 \/ nt p y) /\ forall z, y < z < n -> sk p z)).
  intros n IH Hn Hz. destruct (decide (n = first p)) as [->|]; [exists (first p - 1); repeat split; lia|].
  destruct (Hz (n - 1)) as [Hnt|Hsk]; [lia| |].
  - exists (n - 1). repeat split; [lia|lia|by right|lia].
  - destruct (IH (n - 1)) as (y & Hy & Hyn & Hys); [lia|intros z Hr; apply Hz; lia|].
    exists y. repeat split; [lia|lia|done|]. intros z Hr. destruct (decide (z = n - 1)) as [->|]; [done|apply Hys; lia].
Qed.
Lemma ok_advanced p n win ev st :
  ok p -> same_slots (state_ p) st -> now_ p <= n <= limit -> (forall z, now_ p <= z < n -> nt p z \/ sk p z) ->
  announced p n win ev -> ok (advanced p n win ev st).
Proof using HS Hlim Session0 SlotLimits0.
  intros Hp Hst Hn Hz Hev. pose proof (ok_first_limit p Hp). destruct (pc_now Hp) as [Hn1 Hn2].
  assert (ok (set_now n p)) as Hp1.
  { destruct Hp as [Hc Hsk Hb]. split; [|done..]. destruct Hc. split; try done. change (first (set_now n p)) with (first p).
    cbn [now_ set_now]. split; [lia|]. intros x Hx. destruct (decide (x < now_ p)); [apply Hn2; lia|apply Hz; lia]. }
  assert (Forall (event_ok honest limit S) (published p ++ ev)) as Hpub.
  { apply Forall_app. split; [apply Hp|]. destruct Hev as [[-> _]|(base & -> & _ & _ & Hbase)]; [constructor|].
    constructor; [|constructor]. cbn. split; [lia|]. destruct Hbase as [[-> ->]|Hbase].
    - split; [cbn; lia|]. split; [done|]. cbn. lia.
    - apply (pc_settled Hp); [lia|done]. }
  assert (ok (set_published (published p ++ ev) (set_now n p))) as Hp2.
  { destruct Hp1 as [Hc Hsk Hb]. split; [|done..]. destruct Hc. by split. }
  by eapply pool_ok_view; [|exact Hp2].
Qed.
Lemma advance_present_ok p (Q : unit -> Pool -> Prop) E :
  ok p -> (forall n st win ev, announced p n win ev -> ok (advanced p n win ev st) -> Q tt (advanced p n win ev st)) ->
  wp advance_present Q E p.
Proof using HS Hlim Session0 SlotLimits0.
  intros Hp HQ. destruct (pc_now Hp) as [Hn1 Hn2]. apply wp_advance_present.
  - apply (pc_slots Hp).
  - by rewrite (pc_state Hp).
  - by apply ok_now_limit.
  - intros n Hn _ Hz Hsk. destruct (last_base p n) as (y & Hy & Hyn & Hys); [lia| |].
    + intros z Hr. destruct (decide (z < now_ p)); [apply Hn2; lia|apply Hz; lia].
    + by apply (po_base Hp n y).
  - intros n st win ev Hst Hn Hz Hev _. apply HQ; [done|]. by apply ok_advanced.
Qed.

(** ** What the handlers leave alone

    The windows that are announced go up; [chain] says so for the database. *)
Fixpoint chain (a : Z) (ws : list (Z * ParentId)) (b : Z) : Prop :=
  match ws with
  | [] => a = b
  | (i, _) :: ws' => 0 <= i <= limit /\ a <= i / slots_per_leader_window /\ chain (i / slots_per_leader_window + 1) ws' b
  end.
Lemma chain_app a ws b ws' c : chain a ws b -> chain b ws' c -> chain a (ws ++ ws') c.
Proof. revert a. induction ws as [|[i q] ws IH]; intros a; cbn; [by intros ->|]. intros (? & ? & ?) ?. eauto. Qed.

Definition announcements (es : list BusEvent) : list (Z * ParentId) :=
  omap (fun e => match e with LeaderWindowObserved i b => Some (i, b) | _ => None end) es.
(** A slot has its certificate of a type, or does not need it any more. *)
Definition closed p (k : Z * VoteType) : Prop := k.1 < first p \/ has_cert k.2 (certs (slot_of k.1 p)) = true.
Definition keeps p p' : Prop := (forall k, closed p k -> closed p' k) /\ saving p' = saving p.
Lemma keeps_certs p p' :
  saving p' = saving p -> first p <= first p' -> (forall j, certs (slot_of j p') = certs (slot_of j p)) -> keeps p p'.
Proof. intros E Hf Hc. split; [|done]. intros k [Hk|Hk]; [left; lia|right]. by rewrite Hc. Qed.
Lemma keeps_state p p' : saving p' = saving p -> first p' = first p -> same_slots (state_ p) (state_ p') -> keeps p p'.
Proof. intros E Hf [_ Hc]. apply keeps_certs; [done|lia|]. intros j. unfold slot_of. by rewrite Hc. Qed.
Record frame p p' : Prop := {
  fr_signing : signing p' = signing p;
  fr_published : exists ev, published p' = published p ++ ev /\
    chain (first_nonannounced_window_ p) (announcements ev) (first_nonannounced_window_ p');
  fr_closed : forall k, closed p k -> closed p' k;
  fr_saving : forall c, c ∈ saving p' -> c ∈ saving p \/ ~ closed p (cert_key c);
}.
Lemma frame_refl p : frame p p.
Proof. split; [done| |done|by left]. exists []. by rewrite app_nil_r. Qed.
Lemma frame_trans p1 p2 p3 : frame p1 p2 -> frame p2 p3 -> frame p1 p3.
Proof.
  intros [E1 (ev1 & P1 & C1) K1 S1] [E2 (ev2 & P2 & C2) K2 S2]. split; [congruence| |by auto|].
  - exists (ev1 ++ ev2). rewrite P2, P1, app_assoc. split; [done|]. unfold announcements. rewrite omap_app. by eapply chain_app.
  - intros c [Hc|Hc]%S2; [by apply S1|right]. intros Hk. by apply Hc, K1.
Qed.
(** The usual case: nothing that is announced. *)
Lemma frame_same p p' ev :
  signing p' = signing p -> published p' = published p ++ ev -> announcements ev = [] ->
  first_nonannounced_window_ p' = first_nonannounced_window_ p -> keeps p p' -> frame p p'.
Proof.
  intros E1 E2 E3 E4 [K1 K2]. split; [done| |done|]. { exists ev. by rewrite E3. }
  intros c. rewrite K2. by left.
Qed.
Lemma frame_quiet p p' :
  signing p' = signing p -> published p' = published p -> first_nonannounced_window_ p' = first_nonannounced_window_ p ->
  keeps p p' -> frame p p'.
Proof. intros E1 E2 E3 K. apply (frame_same p p' []); [done|by rewrite app_nil_r|done..]. Qed.
#[local] Hint Extern 0 (keeps _ _) => (apply keeps_state; done) : core.
Lemma frame_advanced p n win ev st :
  same_slots (state_ p) st -> now_ p <= n <= limit -> 0 <= now_ p -> announced p n win ev -> frame p (advanced p n win ev st).
Proof.
  intros Hst Hn H0 Hev.
  assert (keeps p (advanced p n win ev st)) as [K1 K2] by auto.
  split; [done| |done|intros c; by left]. exists ev. split; [done|].
  destruct Hev as [[-> ->]|(base & -> & Hw & -> & _)]; cbn; repeat split; lia.
Qed.
#[local] Hint Resolve frame_refl : core.
(** Good results: the invariant and the frame. *)
Definition good {A} p (_ : A) p' : Prop := ok p' /\ frame p p'.
Lemma good_step {A} (m : M Pool A) p p1 : frame p p1 -> wp m (good p1) no_exn p1 -> wp m (good p) no_exn p1.
Proof.
  intros Hf Hm. eapply wp_mono; [exact Hm| |done]. intros a p2 [Hok Hf2]. split; [done|]. by eapply frame_trans.
Qed.
Lemma advance_present_good p : ok p -> wp advance_present (good p) no_exn p.
Proof using HS Hlim Session0 SlotLimits0.
  intros Hp. pose proof (ok_now_limit p Hp). apply wp_advance_present.
  - apply (pc_slots Hp).
  - rewrite (pc_state Hp). apply (pc_now Hp).
  - done.
  - intros n Hn _ Hz Hsk. destruct (pc_now Hp) as [Hn1 Hn2]. destruct (last_base p n) as (y & Hy & Hyn & Hys); [lia| |].
    + intros z Hr. destruct (decide (z < now_ p)); [apply Hn2; lia|apply Hz; lia].
    + by apply (po_base Hp n y).
  - intros n st win ev Hst Hn Hz Hev _. split; [by apply ok_advanced|]. apply frame_advanced; [done|done|lia|done].
Qed.

(** ** Storing a certificate *)

Lemma store_cert_get c b cs :
  store_cert c b = Some cs ->
  cert (bundle_get (vote_type (cert_vote c)) b) = None /\
  forall ty, bundle_get ty cs = if decide (ty = vote_type (cert_vote c))
    then mkCertAndFlag (being_saved (bundle_get ty b)) (Some c) else bundle_get ty b.
Proof.
  unfold store_cert. destruct (cert _) eqn:E; [done|]. intros [= <-]. split; [done|]. intros ty.
  by destruct ty, (vote_type (cert_vote c)).
Qed.
Lemma store_slot_ok pend i s c cs :
  slot_ok S pend i s -> cert_ok S c -> referenced_slot (cert_vote c) = i -> pend = None \/ pend = Some (vote_type (cert_vote c)) ->
  store_cert c (certs s) = Some cs -> slot_ok S None i (set_certs cs s).
Proof.
  intros [H1 H2 H3 H4] Hc Hi Hpend [Hn Hcs]%store_cert_get. split; [done| | |].
  - intros idx t ty q Ht Hq. destruct (H2 idx t ty q Ht Hq) as (? & ? & ? & Hpf). do 3 (split; [done|]).
    unfold proof_ok in *. destruct (pv_proof q); [done|]. unfold has_cert in *. cbn [certs set_certs].
    rewrite Hcs. destruct (decide (ty = vote_type (cert_vote c))); [done|].
    rewrite bool_decide_eq_false_2 in Hpf by (destruct Hpend as [->| ->]; congruence). by rewrite bool_decide_eq_false_2.
  - intros ty c'. cbn. rewrite Hcs. case_decide as Hty; [|apply H3]. cbn. intros [= <-]. subst ty. done.
  - intros v Hv. unfold will_have_cert, has_cert. cbn. rewrite Hcs. case_decide as Hty; [done|]. by apply H4.
Qed.

(** The pool [p1] after certificate [c] was stored for slot [i] of [p]. *)
Record stored p p1 (i : Z) (c : Certificate) : Prop := {
  sr_core : pool_core honest limit max_desync S (fun _ => None) p1;
  sr_sk : forall j, sk p1 j <-> sk p j \/ (j = i /\ vote_type (cert_vote c) = TSkip);
  sr_nt : forall j, nt p1 j <-> nt p j \/ (j = i /\ vote_type (cert_vote c) = TNotarize);
  sr_base : forall j, available_base (slot_of j p1) = available_base (slot_of j p);
  sr_skips : skip_intervals_ p1 = skip_intervals_ p;
  sr_first : first p1 = first p;
  sr_frame : frame p p1;
  sr_closed : closed p1 (cert_key c);
}.
Lemma store_ok p pend i c cs ev :
  pool_core honest limit max_desync S pend p -> (forall j, j <> i -> pend j = None) ->
  pend i = None \/ pend i = Some (vote_type (cert_vote c)) ->
  cert_ok S c -> referenced_slot (cert_vote c) = i -> cert_key c ∉ map cert_key (saving p) ->
  store_cert c (certs (slot_of i p)) = Some cs -> Forall (event_ok honest limit S) ev -> announcements ev = [] ->
  stored p (set_published (published p ++ ev) (set_state (update_slot (new_slot validators) (set_certs cs) i (state_ p)) p)) i c.
Proof.
  intros Hp Hpend Hpi Hc Hi Hkey Hcs Hev Han.
  set (p1 := set_published _ _).
  assert (forall j, slot_of j p1 = if decide (i = j) then set_certs cs (slot_of i p) else slot_of j p) as Hd
    by (intros j; apply slot_of_change).
  destruct (store_cert_get _ _ _ Hcs) as [Hn Hget].
  assert (forall ty j, has_cert ty (certs (slot_of j p1)) = true <->
    has_cert ty (certs (slot_of j p)) = true \/ (j = i /\ vote_type (cert_vote c) = ty)) as Hcert.
  { intros ty j. rewrite Hd. case_decide as Hj; [subst j|naive_solver]. unfold has_cert. cbn. rewrite Hget.
    case_decide as Hty; [subst ty; cbn; naive_solver|naive_solver]. }
  assert (forall j, available_base (slot_of j p1) = available_base (slot_of j p)) as Hb
    by (intros j; rewrite Hd; case_decide; by subst).
  split; [|intros j; apply Hcert|intros j; apply Hcert|done|done|done| |].
  3:{ right. apply Hcert. right. unfold cert_key. cbn. done. }
  2:{ apply (frame_same p p1 ev); [done..|]. split; [|done]. intros k [Hk|Hk]; [by left|right]. apply Hcert. by left. }
  destruct Hp. split; try done.
  - intros j. rewrite Hd. case_decide as Hj; [subst j; by eapply store_slot_ok|]. rewrite <- (Hpend j) by done. apply pc_slots.
  - destruct pc_now as [H1 H2]. split; [done|]. intros x Hx. destruct (H2 x Hx); [left|right]; apply Hcert; by left.
  - intros x b Hx. rewrite Hb. by apply pc_settled.
  - intros c' Hc'. destruct (pc_saving c' Hc') as [H1 H2]. split; [done|]. intros Hf. specialize (H2 Hf). cbv zeta in *.
    rewrite Hd. case_decide as Hj; [|done]. cbn. rewrite Hget. case_decide as Hty; [|by rewrite Hj].
    exfalso. apply Hkey. apply list_elem_of_fmap. exists c'. split; [|done]. unfold cert_key. congruence.
  - by apply Forall_app.
Qed.

(** ** Bases *)

Definition with_base p (n : Z) (b : ParentId) : Pool :=
  set_state (update_slot (new_slot validators) (add_available_base b) n (state_ p)) p.
Lemma add_base_some b s :
  exists b', available_base (add_available_base b s) = Some b' /\ (b' = b \/ available_base s = Some b').
Proof. unfold add_available_base. destruct (available_base s) as [b0|] eqn:E; [|by eexists; auto]. destruct (parent_geb b b0); eauto. Qed.
Lemma add_base_rest b s :
  votes (add_available_base b s) = votes s /\ certs (add_available_base b s) = certs s /\
  forall v, weight_for v (add_available_base b s) = weight_for v s.
Proof. unfold add_available_base. destruct (available_base s) as [b0|]; [destruct (parent_geb b b0)|]; by repeat split; intros []. Qed.
Lemma with_base_certs p n b j : certs (slot_of j (with_base p n b)) = certs (slot_of j p).
Proof. unfold with_base. rewrite slot_of_change. case_decide; [subst; apply add_base_rest|done]. Qed.
Lemma with_base_sk p n b j : sk (with_base p n b) j <-> sk p j.
Proof. unfold sk, is_skipped. by rewrite with_base_certs. Qed.
Lemma with_base_nt p n b j : nt (with_base p n b) j <-> nt p j.
Proof. unfold nt, is_notarized. by rewrite with_base_certs. Qed.
Lemma with_base_keeps p n b j : available_base (slot_of j p) <> None -> available_base (slot_of j (with_base p n b)) <> None.
Proof.
  unfold with_base. rewrite slot_of_change. case_decide; [subst|done]. by destruct (add_base_some b (slot_of j p)) as (b' & -> & _).
Qed.
Lemma with_base_new p n b : available_base (slot_of n (with_base p n b)) <> None.
Proof. unfold with_base. rewrite slot_of_change, decide_True by done. by destruct (add_base_some b (slot_of n p)) as (b' & -> & _). Qed.
Lemma slot_ok_same pend i s s' :
  votes s' = votes s -> certs s' = certs s -> (forall v, weight_for v s' = weight_for v s) -> slot_ok S pend i s -> slot_ok S pend i s'.
Proof.
  intros E1 E2 E3 [H1 H2 H3 H4]. split; rewrite ?E1, ?E2; try done.
  intros v Hv Hw. rewrite E3. unfold will_have_cert in Hw. rewrite E2 in Hw. rewrite (H4 v Hv Hw). f_equal.
  unfold voters, voted_for. by rewrite E1.
Qed.
Lemma with_base_core pend p n b :
  pool_core honest limit max_desync S pend p -> (first p <= n -> settled S n b) ->
  pool_core honest limit max_desync S pend (with_base p n b).
Proof.
  intros Hp Hb. destruct Hp. split; try done.
  - intros j. unfold with_base. rewrite slot_of_change. case_decide; [subst j|apply pc_slots].
    destruct (add_base_rest b (slot_of n p)) as (? & ? & ?). by apply (slot_ok_same _ _ (slot_of n p)).
  - destruct pc_now as [H1 H2]. split; [done|]. intros x Hx. rewrite with_base_nt, with_base_sk. by apply H2.
  - intros x b'. unfold with_base. rewrite slot_of_change. case_decide; [subst x|apply pc_settled].
    intros Hx Hb'. destruct (add_base_some b (slot_of n p)) as (b2 & E & [->|E2]); rewrite E in Hb'; injection Hb' as <-; [by apply Hb|].
    by apply pc_settled.
  - intros c Hc. destruct (pc_saving c Hc) as [H1 H2]. split; [done|]. by rewrite with_base_certs.
Qed.
Lemma keeps_base p p1 n b : keeps p p1 -> keeps p (with_base p1 n b).
Proof. intros [K1 K2]. split; [|done]. intros k Hk%K1. unfold closed. by rewrite with_base_certs. Qed.
#[local] Hint Extern 0 (keeps _ (with_base _ _ _)) => (apply keeps_base, keeps_state; done) : core.
Lemma skips_ok_same p p' :
  skip_intervals_ p' = skip_intervals_ p -> first p' = first p -> (forall j, sk p' j <-> sk p j) -> skips_ok p -> skips_ok p'.
Proof. intros E1 E2 Hs Hp e. rewrite E1, E2, !Hs. apply Hp. Qed.
Lemma skips_lookup p i : skips_ok p -> first p <= i + 1 ->
  (forall e, i + 1 <= e -> e ∈ skip_intervals_ p -> ~ sk p e) /\
  (forall e, i + 2 <= e -> sk p (e - 1) -> ~ sk p e -> e ∈ skip_intervals_ p).
Proof. intros Hs Hf. split; intros e He; [by intros (_ & _ & ?)%Hs|]. intros H1 H2. apply Hs. split; [lia|done]. Qed.

(** A settled base stays settled over skipped slots. *)
Lemma settled_over p i n b :
  (forall j, slot_ok S None j (slot_of j p)) -> settled S i b -> i < n -> (forall z, i <= z < n -> sk p z) -> settled S n b.
Proof.
  intros Hs (H1 & H2 & H3) Hn Hz. split; [lia|]. split; [done|]. intros z Hr.
  destruct (decide (z < i)); [apply H3; lia|]. apply (skip_certified None p); [done|]. apply Hz. lia.
Qed.
Lemma settled_block p id n :
  (forall j, slot_ok S None j (slot_of j p)) -> block_certified S id -> id_slot id < n ->
  (forall z, id_slot id < z < n -> sk p z) -> settled S n (Some id).
Proof.
  intros Hs Hb Hn Hz. split; [cbn; lia|]. split; [done|]. cbn. intros z Hr.
  apply (skip_certified None p); [done|]. apply Hz. lia.
Qed.

(** ** Saved certificates *)

Lemma saved_notarization_ok p p1 id c :
  skips_ok p -> bases_ok p -> cert_vote c = NotarizeVote id -> cert_ok S c -> first p <= id_slot id ->
  stored p p1 (id_slot id) c -> wp (saved_notarization id) (good p1) no_exn p1.
Proof using HS Hlim Session0 SlotLimits0.
  intros Hsk Hb Ec Hc Hf Hst. pose proof (cert_ok_certified c Hc) as Hcert. rewrite Ec in Hcert.
  pose proof (certified_limit _ Hcert) as Hl. cbn in Hl. pose proof limit_int.
  set (p2 := set_published (published p1 ++ [NotarizationObserved id]) p1).
  assert (pool_core honest limit max_desync S (fun _ => None) p2) as Hcore by (apply pool_core_publish; [done|apply Hst]).
  assert (forall j, sk p2 j <-> sk p j) as Hsk2 by (intros j; etransitivity; [apply Hst|]; rewrite Ec; naive_solver).
  assert (skips_ok p2) as Hskips.
  { apply (skips_ok_same p); [apply Hst|apply Hst|done|done]. }
  assert (first p2 = first p) as Hf2 by apply Hst.
  apply wp_bind. unfold publish. apply wp_modify, wp_bind.
  assert (first_non_finalized_slot_ (state_ p1) = first p) as Hfs by (rewrite (pc_state (sr_core _ _ _ _ Hst)); apply Hst).
  destruct (skips_lookup p2 (id_slot id) Hskips ltac:(lia)) as [Hl1 Hl2].
  apply wp_next_nonskipped; [lia|cbn; lia|exact Hl1|exact Hl2|].
  intros n st Hslots Hn Hsn Hz. apply wp_bind, wp_modify.
  assert (same_view p2 (set_state st p2)) as Hview by done.
  eapply (good_step _ p1 (with_base (set_state st p2) n (Some id)));
    [eapply frame_trans; [by apply (frame_same p1 p2 [NotarizationObserved id])|by apply frame_quiet]|].
  apply advance_present_good. split.
  - apply with_base_core; [by apply (pool_core_view _ _ _ _ _ p2)|]. intros _.
    apply (settled_block p2); [apply (pc_slots Hcore)|by left|done|done].
  - apply (skips_ok_same p2); [done|done| |done]. intros j. rewrite with_base_sk. by apply view_sk.
  - intros x y. rewrite !with_base_sk, with_base_nt, (view_sk p2), (view_nt p2) by done.
    setoid_rewrite with_base_sk. setoid_rewrite (view_sk p2); [|done].
    change (first (with_base (set_state st p2) n (Some id))) with (first p1). rewrite (sr_first _ _ _ _ Hst).
    intros Hx Hy Hyn Hzs. destruct (decide (x = n)) as [->|Hxn]; [apply with_base_new|]. apply with_base_keeps.
    rewrite (view_slot_of p2) by done. change (slot_of x p2) with (slot_of x p1). rewrite (sr_base _ _ _ _ Hst).
    apply (Hb x y); [by rewrite <- Hsk2|done| |intros z Hr; by apply Hsk2, Hzs].
    destruct Hyn as [?|Hyn]; [by left|]. right. apply (sr_nt _ _ _ _ Hst) in Hyn as [?|[-> _]]; [done|].
    exfalso. apply Hxn. destruct (Z.lt_trichotomy x n) as [Hlt|[?|Hgt]]; [|done|].
    + destruct Hx. apply Hz. lia.
    + destruct Hsn. apply Hzs. lia.
Qed.

(** Slot [i] has become skipped; [n] is the next slot that is not. *)
Lemma skip_skips p p2 i n :
  skips_ok p -> first p <= i -> ~ sk p i -> (forall j, sk p2 j <-> sk p j \/ j = i) -> first p2 = first p ->
  skip_intervals_ p2 = (if n =? i + 1 then {[i + 1]} else ∅) ∪ (skip_intervals_ p ∖ {[i]}) ->
  i < n -> ~ sk p2 n -> (forall z, i < z < n -> sk p2 z) -> skips_ok p2.
Proof.
  intros Hsk Hf Hni Hsk2 Hf2 E2 Hn Hsn Hz e. assert (~ sk p n) as Hsn' by (intros Hs; apply Hsn, Hsk2; by left).
  rewrite E2, Hf2, !Hsk2, elem_of_union, elem_of_difference, elem_of_singleton, (Hsk e).
  destruct (Z.eqb_spec n (i + 1)) as [->|Hne].
  - rewrite elem_of_singleton. destruct (decide (e = i + 1)) as [->|]; [split; [|tauto]|].
    + intros _. replace (i + 1 - 1) with i by lia. split; [lia|]. split; [tauto|]. intros [?|?]; [done|lia].
    + destruct (decide (e = i)) as [->|]; [split; [naive_solver lia|naive_solver lia]|]. assert (e - 1 <> i) by lia. tauto.
  - rewrite elem_of_empty. destruct (decide (e = i)) as [->|]; [naive_solver|].
    destruct (decide (e = i + 1)) as [->|]; [|assert (e - 1 <> i) by lia; tauto].
    assert (sk p (i + 1)) by (destruct (proj1 (Hsk2 (i + 1))) as [?|?]; [apply Hz; lia|done|lia]). tauto.
Qed.
Lemma skip_bases p p2 i n x y :
  bases_ok p -> (forall j, sk p2 j <-> sk p j \/ j = i) -> (forall j, nt p2 j <-> nt p j) -> first p2 = first p ->
  i < n -> ~ sk p2 n -> (forall z, i < z < n -> sk p2 z) ->
  ~ sk p2 x -> first p2 - 1 <= y < x -> y = first p2 - 1 \/ nt p2 y -> (forall z, y < z < x -> sk p2 z) ->
  x = n /\ y < i \/ available_base (slot_of x p) <> None.
Proof.
  intros Hb Hsk2 Hnt2 Hf2 Hn Hsn Hz Hx Hy Hyn Hzs. destruct (decide (y < i < x)) as [Hyi|Hyi].
  - left. split; [|lia]. destruct (Z.lt_trichotomy x n) as [Hlt|[?|Hgt]]; [|done|].
    + destruct Hx. apply Hz. lia.
    + destruct Hsn. apply Hzs. lia.
  - right. apply (Hb x y); [rewrite Hsk2 in Hx; tauto|by rewrite <- Hf2|rewrite <- Hf2, <- Hnt2; done|].
    intros z Hr. destruct (proj1 (Hsk2 z) (Hzs z Hr)) as [?| ->]; [done|]. exfalso.
    destruct (decide (x = i)) as [->|]; [apply Hx, Hsk2; by right|lia].
Qed.

Lemma saved_skip_ok p p1 i c :
  skips_ok p -> bases_ok p -> cert_vote c = SkipVote i -> cert_ok S c -> first p <= i -> ~ sk p i ->
  stored p p1 i c -> wp (saved_skip i) (good p1) no_exn p1.
Proof using HS Hlim Session0 SlotLimits0.
  intros Hsk Hb Ec Hc Hf Hni Hst. pose proof (cert_ok_certified c Hc) as Hcert. rewrite Ec in Hcert.
  pose proof (certified_limit _ Hcert) as Hl. cbn in Hl. pose proof limit_int.
  pose proof (sr_core _ _ _ _ Hst) as Hcore.
  assert (forall j, sk p1 j <-> sk p j \/ j = i) as Hsk1 by (intros j; etransitivity; [apply Hst|]; rewrite Ec; naive_solver).
  assert (forall j, nt p1 j <-> nt p j) as Hnt1 by (intros j; etransitivity; [apply Hst|]; rewrite Ec; naive_solver).
  assert (wrap_u 32 (i + 1) = i + 1) as Hwr by (apply Z.mod_small; lia).
  unfold saved_skip. rewrite Hwr. apply wp_bind, wp_next_nonskipped; [lia|rewrite (pc_state Hcore), (sr_first _ _ _ _ Hst); lia|..].
  { intros e He. rewrite (sr_skips _ _ _ _ Hst), Hsk1. intros (H1 & H2 & H3)%Hsk. intros [?| ->]; [done|lia]. }
  { intros e He. rewrite (sr_skips _ _ _ _ Hst), !Hsk1. intros [H1|?] H2; [|lia]. apply Hsk. split; [lia|]. split; [done|tauto]. }
  intros n st Hslots Hn Hsn Hz. apply wp_bind, wp_modify, wp_bind.
  set (p2 := set_skips ((if n =? i + 1 then {[i + 1]} else ∅) ∪ (skip_intervals_ p1 ∖ {[i]})) (set_state st p1)).
  enough (wp (s <- the_slot i;;
    (match available_base s with Some base => change_slot n (add_available_base base) | None => ret tt end) ;;
    advance_present) (good p1) no_exn p2) as Hwp.
  { unfold p2 in Hwp. destruct (n =? i + 1) eqn:En; [exact Hwp|]. rewrite union_empty_l_L in Hwp. exact Hwp. }
  assert (forall j, slot_of j p2 = slot_of j p1) as Hd by apply Hslots.
  assert (pool_core honest limit max_desync S (fun _ => None) p2) as Hcore2.
  { assert (pool_core honest limit max_desync S (fun _ => None) (set_state st p1)) as Hc1 by (by apply (pool_core_view _ _ _ _ _ p1)).
    destruct Hc1. by split. }
  assert (forall j, sk p2 j <-> sk p j \/ j = i) as Hsk2 by (intros j; unfold sk; rewrite Hd; apply Hsk1).
  assert (forall j, nt p2 j <-> nt p j) as Hnt2 by (intros j; unfold nt; rewrite Hd; apply Hnt1).
  assert (first p2 = first p) as Hf2 by apply Hst.
  assert (~ sk p2 n) as Hsn2 by (unfold sk; rewrite Hd; exact Hsn).
  assert (forall z, i < z < n -> sk p2 z) as Hz2 by (intros z Hr; unfold sk; rewrite Hd; by apply Hz).
  assert (skips_ok p2) as Hskips.
  { apply (skip_skips p p2 i n); try done. cbn [skip_intervals_ set_skips p2]. by rewrite (sr_skips _ _ _ _ Hst). }
  pose proof (fun x y => skip_bases p p2 i n x y Hb Hsk2 Hnt2 Hf2 Hn Hsn2 Hz2) as Hbases.
  apply wp_bind, wp_gets, wp_bind. rewrite Hd, (sr_base _ _ _ _ Hst).
  destruct (available_base (slot_of i p)) as [b|] eqn:Eb.
  - apply wp_modify. eapply (good_step _ p1 (with_base p2 n b)); [by apply frame_quiet|]. apply advance_present_good. split.
    + apply with_base_core; [done|]. intros _. apply (settled_over p1 i); [apply (pc_slots Hcore)| |done|].
      * apply (pc_settled Hcore); [rewrite (sr_first _ _ _ _ Hst); lia|]. by rewrite (sr_base _ _ _ _ Hst).
      * intros z Hr. destruct (decide (z = i)) as [->|]; [apply Hsk1; by right|]. apply Hz. lia.
    + apply (skips_ok_same p2); [done|done| |done]. intros j. apply with_base_sk.
    + intros x y. rewrite with_base_sk, with_base_nt. setoid_rewrite with_base_sk.
      change (first (with_base p2 n b)) with (first p2). intros Hx Hy Hyn Hzs.
      destruct (Hbases x y Hx Hy Hyn Hzs) as [[-> _]|Hbx]; [apply with_base_new|]. apply with_base_keeps.
      by rewrite Hd, (sr_base _ _ _ _ Hst).
  - apply wp_ret. eapply (good_step _ p1 p2); [by apply frame_quiet|]. apply advance_present_good. split; [done|done|].
    intros x y Hx Hy Hyn Hzs. rewrite Hd, (sr_base _ _ _ _ Hst).
    destruct (Hbases x y Hx Hy Hyn Hzs) as [[-> Hyi]|Hbx]; [|done]. exfalso.
    apply (Hb i y Hni); [rewrite <- Hf2; lia|rewrite <- Hf2, <- Hnt2; done| |done].
    intros z Hr. destruct (proj1 (Hsk2 z) (Hzs z ltac:(lia))) as [?|?]; [done|lia].
Qed.

(** The pool of [saved_finalization] before the present advances, with the slots up to
    [i] dropped. *)
Definition finalized p (id : CandidateId) (c : Certificate) : Pool :=
  set_state (notify_finalized (id_slot id) (state_ p)) (set_skips (filter (fun k => id_slot id < k) (skip_intervals_ p))
    (set_final (Some id) (Some c) (wrap_u 32 (id_slot id + 1)) (set_published (published p ++ [FinalizationObserved id]) p))).
Lemma finalized_ok p n id c :
  pool_core honest limit max_desync S (fun _ => None) p -> skips_ok p -> bases_ok p -> certified S (FinalizeVote id) ->
  first p <= id_slot id -> ~ sk p (id_slot id) ->
  (forall x, ~ sk p x -> id_slot id < x -> (forall z, id_slot id < z < x -> sk p z) -> available_base (slot_of x p) <> None) ->
  id_slot id < n -> n = id_slot id + 1 \/ n = now_ p -> ok (set_now n (finalized p id c)).
Proof using HS Hlim Session0 SlotLimits0.
  intros Hp Hs Hb Hid Hf Hni Hnext Hn Hnow. pose proof (certified_limit _ Hid) as Hl. cbn in Hl. pose proof limit_int.
  assert (wrap_u 32 (id_slot id + 1) = id_slot id + 1) as Hwr by (apply Z.mod_small; lia).
  assert (first (set_now n (finalized p id c)) = id_slot id + 1) as Hf' by exact Hwr.
  split; [split|..]; rewrite ?Hf'; try apply Hp.
  - done.
  - cbn. rewrite Hwr, (pc_state Hp). lia.
  - intros b [= <-]. done.
  - cbn [now_ set_now]. split; [lia|]. intros x Hx. destruct Hnow as [->| ->]; [lia|]. apply (pc_now Hp). lia.
  - intros x b Hx Hbx. apply (pc_settled Hp); [lia|done].
  - intros c' Hc'. destruct (pc_saving Hp c' Hc') as [H1 H2]. split; [done|]. intros Hc2. apply H2. lia.
  - apply Forall_app. split; [apply Hp|]. by constructor.
  - intros e. rewrite Hf'. change (skip_intervals_ (set_now n (finalized p id c))) with (filter (fun k => id_slot id < k) (skip_intervals_ p)).
    rewrite elem_of_filter, (Hs e). change (sk (set_now n (finalized p id c))) with (sk p).
    split; [|intros (? & ? & ?); split; [lia|split; [lia|done]]]. intros (H1 & H2 & H3 & H4). split; [|done].
    assert (e - 1 <> id_slot id) by congruence. lia.
  - intros x y. rewrite Hf'. change (sk (set_now n (finalized p id c))) with (sk p). change (nt (set_now n (finalized p id c))) with (nt p).
    change (slot_of x (set_now n (finalized p id c))) with (slot_of x p). intros Hx Hy Hyn Hz.
    destruct (decide (y = id_slot id)) as [->|]; [apply Hnext; [done|lia|done]|].
    apply (Hb x y); [done|lia|right; destruct Hyn; [lia|done]|done].
Qed.

(** The rest of [saved_finalization], once the next slot has its base. *)
Definition finish_finalization (id : CandidateId) (c : Certificate) : M Pool unit :=
  modify (set_final (Some id) (Some c) (wrap_u 32 (id_slot id + 1))) ;;
  publish (FinalizationObserved id) ;;
  now <- gets now_ ;;
  (if now <=? id_slot id then modify (set_now (wrap_u 32 (id_slot id + 1))) ;; advance_present else ret tt) ;;
  modify (fun p => set_skips (filter (fun k => id_slot id < k) (skip_intervals_ p)) p) ;;
  modify (fun p => set_state (notify_finalized (id_slot id) (state_ p)) p).
Lemma finish_finalization_ok p1 p2 id c :
  certified S (FinalizeVote id) -> first p2 <= id_slot id ->
  pool_core honest limit max_desync S (fun _ => None) p2 -> skips_ok p2 -> bases_ok p2 -> ~ sk p2 (id_slot id) -> frame p1 p2 ->
  (forall x, ~ sk p2 x -> id_slot id < x -> (forall z, id_slot id < z < x -> sk p2 z) -> available_base (slot_of x p2) <> None) ->
  wp (finish_finalization id c) (good p1) no_exn p2.
Proof using HS Hlim Session0 SlotLimits0.
  intros Hcert Hf2 Hc2 Hs2 Hb2 Hni2 Hfr Hnext. pose proof (certified_limit _ Hcert) as Hl. cbn in Hl. pose proof limit_int.
  assert (wrap_u 32 (id_slot id + 1) = id_slot id + 1) as Hwr by (apply Z.mod_small; lia).
  apply wp_bind, wp_modify, wp_bind. unfold publish. apply wp_modify, wp_bind, wp_gets, wp_bind. cbn [now_ set_published set_final].
  rewrite Hwr. destruct (now_ p2 <=? id_slot id) eqn:Enow.
  - apply wp_bind, wp_modify.
    assert (ok (set_now (id_slot id + 1) (finalized p2 id c))) as Hok by (apply finalized_ok; try done; lia).
    set (p4 := set_now (id_slot id + 1) _). assert (now_ p4 = id_slot id + 1) as Hn4 by done.
    apply wp_advance_present.
    + apply (pc_slots Hok).
    + rewrite Hn4. change (state_ p4) with (state_ p2). rewrite (pc_state Hc2). lia.
    + lia.
    + intros n Hn _ Hz Hsn. assert (first (set_now (id_slot id + 1) (finalized p2 id c)) = id_slot id + 1) as Hff by exact Hwr.
      destruct (last_base (set_now (id_slot id + 1) (finalized p2 id c)) n) as (y & Hy & Hyn & Hys); [lia|rewrite Hff; exact Hz|].
      exact (po_base Hok n y Hsn Hy Hyn Hys).
    + intros n st win ev Hst4 Hn Hz Hev _. apply wp_bind, wp_modify, wp_modify.
      assert (ok (advanced (set_now (id_slot id + 1) (finalized p2 id c)) n win ev (notify_finalized (id_slot id) st))) as Hfin.
      { apply ok_advanced; [done| |done|done|done]. destruct Hst4 as [Hs41 Hs42]. split; [cbn; by rewrite Hs41|done]. }
      unfold finalized in Hfin. rewrite Hwr in Hfin. split; [exact Hfin|].
      eapply frame_trans; [exact Hfr|]. eapply frame_trans; [apply (frame_same p2 p4 [FinalizationObserved id]); [done..|by apply keeps_certs; [|cbn; lia|]]|].
      eapply frame_trans; [apply (frame_advanced p4 n win ev st); [done|done|lia|done]|]. by apply frame_quiet.
  - apply Z.leb_gt in Enow. apply wp_ret, wp_bind, wp_modify, wp_modify.
    assert (ok (set_now (now_ p2) (finalized p2 id c))) as Hok by (apply finalized_ok; try done; lia).
    unfold finalized in Hok. rewrite Hwr in Hok. split; [exact Hok|]. eapply frame_trans; [exact Hfr|].
    apply (frame_same _ _ [FinalizationObserved id]); [done..|]. apply keeps_certs; [done|cbn; lia|done].
Qed.
Lemma saved_finalization_ok p p1 id c :
  skips_ok p -> bases_ok p -> cert_vote c = FinalizeVote id -> cert_ok S c -> first p <= id_slot id ->
  stored p p1 (id_slot id) c -> cert (bundle_get TFinalize (certs (slot_of (id_slot id) p1))) = Some c ->
  wp (saved_finalization (id_slot id) id c) (good p1) no_exn p1.
Proof using HS Hlim Session0 SlotLimits0.
  intros Hsk Hb Ec Hc Hf Hst Hstored. pose proof (cert_ok_certified c Hc) as Hcert. rewrite Ec in Hcert.
  pose proof (certified_limit _ Hcert) as Hl. cbn in Hl. pose proof limit_int.
  pose proof (sr_core _ _ _ _ Hst) as Hcore. pose proof (sr_first _ _ _ _ Hst) as Hf1.
  assert (forall j, sk p1 j <-> sk p j) as Hsk1 by (intros j; etransitivity; [apply Hst|]; rewrite Ec; naive_solver).
  assert (forall j, nt p1 j <-> nt p j) as Hnt1 by (intros j; etransitivity; [apply Hst|]; rewrite Ec; naive_solver).
  assert (skips_ok p1) as Hskips by (apply (skips_ok_same p); [apply Hst|apply Hst|done|done]).
  assert (bases_ok p1) as Hbases.
  { intros x y. rewrite Hsk1, Hnt1, Hf1, (sr_base _ _ _ _ Hst). intros Hx Hy Hyn Hz. apply (Hb x y Hx Hy Hyn). intros z Hr. by apply Hsk1, Hz. }
  assert (~ sk p1 (id_slot id)) as Hni.
  { intros Hs%(skip_certified None p1); [|apply (pc_slots Hcore)]. by apply (certified_compatible honest S _ _ HS Hcert Hs). }
  unfold saved_finalization. apply wp_bind, wp_gets, wp_bind, wp_assert_ub.
  { destruct (is_skipped _) eqn:E; [by destruct Hni|done]. }
  apply wp_bind, wp_assert_ub.
  { apply bool_decide_eq_true. destruct (notarized_block _) as [b|] eqn:E; [|done]. cbn.
    destruct (notarized_block_certified None (id_slot id) _ b (pc_slots Hcore _) E) as [Hbi Hbc].
    destruct Hbc as [Hbc|Hbc]; pose proof (certified_compatible honest S _ _ HS Hbc Hcert Hbi) as Heq; by injection Heq. }
  apply wp_bind.
  destruct (is_notarized (slot_of (id_slot id) p1)) eqn:En; cbn [negb].
  - apply wp_ret, finish_finalization_ok; try done; [lia|]. intros x Hx Hix Hz. apply (Hbases x (id_slot id) Hx); [lia|by right|done].
  - destruct (skips_lookup p1 (id_slot id) Hskips ltac:(lia)) as [Hl1 Hl2].
    apply wp_bind, wp_next_nonskipped; [lia|rewrite (pc_state Hcore); lia|exact Hl1|exact Hl2|].
    intros n st Hslots Hn Hsn Hz. apply wp_modify. assert (same_view p1 (set_state st p1)) as Hview by done.
    assert (forall j, sk (with_base (set_state st p1) n (Some id)) j <-> sk p1 j) as Hsk2
      by (intros j; rewrite with_base_sk; by apply view_sk).
    assert (forall j, nt (with_base (set_state st p1) n (Some id)) j <-> nt p1 j) as Hnt2
      by (intros j; rewrite with_base_nt; by apply view_nt).
    apply (finish_finalization_ok p1 (with_base (set_state st p1) n (Some id)));
    [done|change (first p1 <= id_slot id); lia| | | |by rewrite Hsk2|by apply frame_quiet|].
    + apply with_base_core; [by apply (pool_core_view _ _ _ _ _ p1)|]. intros _.
      apply (settled_block p1); [apply (pc_slots Hcore)|by right|done|done].
    + by apply (skips_ok_same p1).
    + intros x y. rewrite Hsk2, Hnt2. setoid_rewrite Hsk2. intros Hx Hy Hyn Hzs. apply with_base_keeps.
      rewrite (view_slot_of p1) by done. by apply (Hbases x y).
    + intros x. rewrite Hsk2. setoid_rewrite Hsk2. intros Hx Hix Hzs.
      destruct (Z.lt_trichotomy x n) as [Hlt|[->|Hgt]]; [|apply with_base_new|].
      * destruct Hx. apply Hz. lia.
      * destruct Hsn. apply Hzs. lia.
Qed.

(** ** Requests *)

Lemma ok_requests p rs : ok p -> Forall request_ok rs -> ok (set_requests rs p).
Proof. intros [Hc Hs Hb] Hrs. split; [|done..]. destruct Hc. by split. Qed.

Lemma resolve_with_good p p1 r res :
  ok p1 -> frame p p1 -> event_ok honest limit S (RequestResolved (rq_id r) (rq_parent r) res) ->
  wp (resolve_with r res) (good p) no_exn p1.
Proof.
  intros Hp Hf He. unfold resolve_with, publish. apply wp_bind, wp_modify, wp_ret. split; [by apply pool_ok_publish|].
  eapply frame_trans; [exact Hf|]. by apply (frame_same p1 _ [RequestResolved (rq_id r) (rq_parent r) res]).
Qed.

(** The answer once the parent is known to be good. *)
Lemma resolve_ready_good p p1 r :
  ok p1 -> frame p p1 -> request_ok r -> first p1 <= slot_after (rq_parent r) -> slot_after (rq_parent r) <= id_slot (rq_id r) ->
  match rq_parent r with Some q => block_certified S q | None => True end ->
  wp (if slot_after (rq_parent r) =? id_slot (rq_id r) then resolve_with r ParentReady
      else
        j <- get_slot_at (slot_after (rq_parent r)) ;;
        next_slot <- the_slot j ;;
        if negb (is_skipped next_slot) then ret false
        else
          skips <- gets skip_intervals_ ;;
          e <- of_option (set_lower_bound (slot_after (rq_parent r)) skips) ;;
          if id_slot (rq_id r) <=? e then resolve_with r ParentReady else ret false) (good p) no_exn p1.
Proof.
  intros Hp Hf Hr Hfirst Hle Hpar. destruct (Z.eqb_spec (slot_after (rq_parent r)) (id_slot (rq_id r))) as [Heq|Hne].
  { apply resolve_with_good; [done..|]. cbn. split; [lia|]. split; [done|]. lia. }
  apply wp_bind, wp_get_slot_at; [by rewrite (pc_state Hp)|]. intros st Hst. apply wp_bind, wp_gets.
  set (j := slot_after (rq_parent r)) in *. assert (same_view p1 (set_state st p1)) as Hview by done.
  assert (ok (set_state st p1)) as Hp2 by (by apply pool_ok_slots).
  assert (frame p (set_state st p1)) as Hf2 by (eapply frame_trans; [exact Hf|by apply frame_quiet]).
  rewrite (view_slot_of p1) by done. destruct (is_skipped (slot_of j p1)) eqn:Es; cbn [negb]; [|by apply wp_ret].
  apply wp_bind, wp_gets. cbn [skip_intervals_ set_state]. pose proof (po_skips Hp) as Hsk.
  destruct (lower_bound_end j p1) as (e & -> & He & Hne2 & Hz); [by intros e He (_ & _ & ?)%Hsk| |done|].
  { intros e He H1 H2. apply Hsk. split; [lia|done]. }
  apply wp_bind, wp_ret. destruct (Z.leb_spec (id_slot (rq_id r)) e); [|by apply wp_ret].
  apply resolve_with_good; [done..|]. cbn. split; [done|]. split; [done|]. intros z Hr2.
  apply (skip_certified None p1); [apply (pc_slots Hp)|]. apply Hz. lia.
Qed.

Lemma maybe_resolve_request_good p r : ok p -> request_ok r -> wp (maybe_resolve_request r) (good p) no_exn p.
Proof using HS Hlim Session0 SlotLimits0.
  intros Hp Hr. pose proof (ok_first_limit p Hp) as Hfl. destruct r as [id parent]. destruct (Hr) as [Hid Hpar].
  unfold maybe_resolve_request. cbn [rq_id rq_parent] in *. cbv zeta.
  assert (match parent with Some q => wrap_u 32 (id_slot q + 1) | None => 0 end = slot_after parent) as ->.
  { destruct parent as [q|]; [|done]. cbn in Hpar, Hid. apply Z.mod_small. cbn [slot_after]. lia. }
  assert (slot_after parent <= id_slot id) as Hle by (destruct parent; cbn in *; lia).
  apply wp_bind, wp_gets. fold (first p). destruct (Z.ltb_spec (id_slot id) (first p)) as [?|Hidf].
  { by apply resolve_with_good. }
  destruct (Z.ltb_spec (slot_after parent) (first p)) as [Hlt|Hge].
  { apply resolve_with_good; [done..|]. cbn. right. left. pose proof (pc_first Hp) as Hpf.
    destruct (last_finalized_block_ p) as [f|] eqn:Ef; cbn in Hpf.
    - exists f. split; [lia|by apply (pc_last Hp)].
    - exfalso. destruct parent; cbn in Hlt; lia. }
  apply wp_bind, wp_get_slot_at; [by rewrite (pc_state Hp)|]. intros st Hst. apply wp_bind, wp_gets.
  set (p1 := set_state st p). assert (same_view p p1) as Hview by done.
  assert (ok p1) as Hp1 by (by apply pool_ok_slots). assert (frame p p1) as Hf1 by (by apply frame_quiet).
  rewrite (view_slot_of p) by done. destruct (match notarized_block _ with Some b => _ | None => false end) eqn:Enb.
  { destruct (notarized_block (slot_of (id_slot id) p)) as [b|] eqn:Eb; [|done]. apply bool_decide_eq_true in Enb.
    apply resolve_with_good; [done..|]. cbn. left. exists b. split; [done|].
    by apply (notarized_block_certified None _ _ _ (pc_slots Hp _)). }
  apply wp_bind. destruct (Z.eqb_spec (slot_after parent) (first p)) as [Heq|Hne].
  - apply wp_bind, wp_gets. pose proof (pc_first Hp) as Hpf. change (last_finalized_block_ p1) with (last_finalized_block_ p).
    case_bool_decide as Hlast.
    + apply wp_bind, wp_assert_ub.
      { apply negb_true_iff, Z.eqb_neq. intros H0. rewrite Hpf in *. apply Hlast.
        destruct (last_finalized_block_ p) as [f|] eqn:Ef, parent as [q|]; cbn in *; try lia; try done.
        pose proof (certified_limit _ (pc_last Hp f Ef)) as Hb. cbn in Hb. lia. }
      apply wp_ret, resolve_with_good; [done..|]. cbn. right. right.
      destruct (last_finalized_block_ p) as [f|] eqn:Ef, parent as [q|]; cbn in Hpf, Heq; try lia; try done.
      * exists f, q. split; [done|]. split; [congruence|]. split; [lia|]. right. by apply (pc_last Hp).
      * pose proof (certified_limit _ (pc_last Hp f Ef)) as Hb. cbn in Hb. lia.
    + apply wp_ret. apply (resolve_ready_good p p1 (mkRequest id parent)); try done.
      cbn [rq_parent]. rewrite <- Hlast. destruct (last_finalized_block_ p) eqn:Ef; [|done]. right. by apply (pc_last Hp).
  - destruct parent as [q|]; [|cbn in Hne, Hge; lia]. cbn [slot_after] in *.
    apply wp_bind, wp_ret, wp_bind, wp_get_slot_at; [change (first_non_finalized_slot_ (state_ p1)) with (first_non_finalized_slot_ st);
      rewrite (proj1 Hst), (pc_state Hp); lia|].
    intros st2 Hst2. apply wp_bind, wp_gets. assert (same_view p (set_state st2 p1)) as Hview2.
    { split; try done. exact (same_slots_trans _ _ _ Hst Hst2). }
    assert (ok (set_state st2 p1)) as Hp2 by (by apply (pool_ok_view _ _ _ _ p)).
    assert (frame p (set_state st2 p1)) as Hf2 by (apply frame_quiet; [done..|]; by apply keeps_state, sv_slots).
    rewrite (view_slot_of p) by done. destruct (is_notarized (slot_of (id_slot q) p)) eqn:En; [|by do 2 apply wp_ret].
    apply wp_ret. apply has_cert_some in En as [c Hc]. destruct (notarized_id _ _ c (pc_slots Hp _) Hc) as (b & Hcb & Hb).
    assert (notarized_block (slot_of (id_slot q) p) = Some b) as Enb'. { unfold notarized_block. cbn in Hc. by rewrite Hc, Hcb. }
    pose proof (notarized_block_certified None _ _ _ (pc_slots Hp _) Enb') as [_ Hbc].
    case_bool_decide as Heqb.
    + apply (resolve_ready_good p (set_state st2 p1) (mkRequest id (Some q)) Hp2 Hf2 Hr); cbn [rq_parent rq_id slot_after]; [|lia|].
      * change (first (set_state st2 p1)) with (first p). lia.
      * congruence.
    + apply resolve_with_good; [done..|]. cbn. right. right. exists b, q. split; [done|]. split; [congruence|done].
Qed.

Lemma resolve_loop_good fuel : forall p i, ok p -> wp (resolve_loop fuel i) (good p) no_exn p.
Proof using HS Hlim Session0 SlotLimits0.
  induction fuel as [|fuel IH]; intros p i Hp; cbn [resolve_loop]; [by apply wp_ret|].
  apply wp_bind, wp_gets. destruct (requests_ p !! i) as [r|] eqn:Er; [|by apply wp_ret].
  pose proof (proj1 (Forall_lookup _ _) (pc_requests Hp) i r Er) as Hr.
  apply wp_bind. eapply wp_mono; [by apply maybe_resolve_request_good| |done]. intros b p1 [Hp1 Hf1].
  destruct b; [|apply (good_step _ _ p1); [done|by apply IH]].
  apply wp_bind, wp_gets, wp_bind, wp_modify. eapply good_step; [|apply IH, ok_requests; [done|]].
  { eapply frame_trans; [exact Hf1|by apply frame_quiet]. }
  apply Forall_take. destruct (list.last (requests_ p1)) as [l|] eqn:El; [|apply (pc_requests Hp1)].
  apply Forall_insert; [apply (pc_requests Hp1)|].
  apply last_Some_elem_of in El. by apply (proj1 (list.Forall_forall _ _) (pc_requests Hp1)).
Qed.
Lemma maybe_resolve_requests_good p : ok p -> wp maybe_resolve_requests (good p) no_exn p.
Proof using HS Hlim Session0 SlotLimits0. intros Hp. apply wp_bind, wp_gets. by apply resolve_loop_good. Qed.

Lemma process_WaitForParent_good p id parent :
  ok p -> request_ok (mkRequest id parent) -> wp (process_WaitForParent id parent) (good p) no_exn p.
Proof using HS Hlim Session0 SlotLimits0.
  intros Hp Hr. unfold process_WaitForParent. apply wp_bind, wp_assert_ub.
  { destruct parent; [|done]. apply Z.ltb_lt. apply Hr. }
  apply wp_bind, wp_modify, wp_bind.
  eapply wp_mono; [apply maybe_resolve_request_good; [|done]| |done].
  { apply ok_requests; [done|]. apply Forall_app. split; [apply (pc_requests Hp)|by constructor]. }
  intros b p1 [Hp1 Hf1]. assert (frame p p1) as Hf by (eapply frame_trans; [|exact Hf1]; by apply frame_quiet).
  destruct b; [|by apply wp_ret]. apply wp_modify. split; [|eapply frame_trans; [exact Hf|by apply frame_quiet]].
  apply ok_requests; [done|]. apply Forall_take, (pc_requests Hp1).
Qed.

(** ** Certificates *)

Lemma handle_saved_certificate_good p pend i c :
  pool_core honest limit max_desync S pend p -> (forall j, j <> i -> pend j = None) ->
  pend i = None \/ pend i = Some (vote_type (cert_vote c)) -> skips_ok p -> bases_ok p ->
  cert_ok S c -> referenced_slot (cert_vote c) = i -> first p <= i -> cert_key c ∉ map cert_key (saving p) ->
  cert (bundle_get (vote_type (cert_vote c)) (certs (slot_of i p))) = None ->
  wp (handle_saved_certificate i c) (fun a p' => good p a p' /\ closed p' (cert_key c)) no_exn p.
Proof using HS Hlim Session0 SlotLimits0.
  intros Hp Hpend Hpi Hsk Hb Hc Hi Hf Hkey Hnone. unfold handle_saved_certificate. apply wp_bind, wp_gets, wp_bind.
  destruct (store_cert c (certs (slot_of i p))) as [cs|] eqn:Ecs; [|unfold store_cert in Ecs; by rewrite Hnone in Ecs].
  apply wp_ret, wp_bind, wp_modify, wp_bind, wp_gets.
  set (ev := if suppress_certificate_broadcast_ p then [] else [OutgoingCertificate c]).
  set (p1 := set_published (published p ++ ev) (set_state (update_slot (new_slot validators) (set_certs cs) i (state_ p)) p)).
  assert (stored p p1 i c) as Hst.
  { apply (store_ok p pend); try done; unfold ev; destruct (suppress_certificate_broadcast_ p); split_Forall; done. }
  enough (wp (handle_typed_saved_certificate i c;; maybe_resolve_requests) (fun a p' => good p a p' /\ closed p' (cert_key c)) no_exn p1) as Hwp.
  { cbn [suppress_certificate_broadcast_ set_state]. unfold p1, ev in Hwp. apply wp_bind.
    destruct (suppress_certificate_broadcast_ p).
    - apply wp_ret. rewrite app_nil_r in Hwp. exact Hwp.
    - unfold publish. apply wp_modify. exact Hwp. }
  enough (wp (handle_typed_saved_certificate i c;; maybe_resolve_requests) (good p1) no_exn p1) as Hwp.
  { eapply wp_mono; [exact Hwp| |done]. intros a p2 [Hp2 Hf2]. split; [|apply (fr_closed _ _ Hf2), (sr_closed _ _ _ _ Hst)].
    split; [done|]. eapply frame_trans; [apply Hst|done]. }
  apply wp_bind. enough (wp (handle_typed_saved_certificate i c) (good p1) no_exn p1) as Hwp.
  { eapply wp_mono; [exact Hwp| |done]. intros _ p2 [Hp2 Hf2]. apply (good_step _ p1 p2 Hf2). by apply maybe_resolve_requests_good. }
  unfold handle_typed_saved_certificate. destruct (cert_vote c) as [id|id|j] eqn:Ec; cbn in Hi; subst i.
  - by apply (saved_notarization_ok p p1 id c).
  - apply (saved_finalization_ok p p1 id c); try done.
    change (slot_of (id_slot id) p1) with (slot_of (id_slot id) (set_state (update_slot (new_slot validators) (set_certs cs) (id_slot id) (state_ p)) p)).
    rewrite slot_of_change, decide_True by done. cbn [certs set_certs].
    rewrite (proj2 (store_cert_get _ _ _ Ecs)), Ec. done.
  - apply (saved_skip_ok p p1 j c); try done. unfold sk, is_skipped, has_cert. cbn in Hnone |- *. by rewrite Hnone.
Qed.

Lemma handle_certificate_good p c : ok p -> cert_ok S c -> wp (handle_certificate c) (good p) no_exn p.
Proof.
  intros Hp Hc. unfold handle_certificate. set (i := referenced_slot (cert_vote c)). apply wp_bind, wp_pool_slot_at.
  intros st Hst. assert (same_view p (set_state st p)) as Hview by done.
  assert (ok (set_state st p)) as Hp1 by (by apply pool_ok_slots). assert (frame p (set_state st p)) as Hf1 by (by apply frame_quiet).
  rewrite (pc_state Hp). destruct (Z.ltb_spec i (first p)) as [|Hi]; [by apply wp_ret|]. apply wp_bind, wp_gets.
  destruct (needs (cert_vote c) _) eqn:En; cbn [negb]; [|by apply wp_ret]. unfold remember_prospective. rewrite En.
  apply andb_true_iff in En as [En1%negb_true_iff En2%negb_true_iff].
  apply wp_bind, wp_ret, wp_bind, wp_modify, wp_modify.
  set (p1 := set_state st p) in *. set (b := bundle_set _ _ _). set (p2 := set_saving _ _).
  assert (forall j, slot_of j p2 = if decide (i = j) then set_certs b (slot_of i p1) else slot_of j p1) as Hd
    by (intros j; apply slot_of_change).
  assert (forall ty, bundle_get ty b = if decide (ty = vote_type (cert_vote c)) then mkCertAndFlag true None
    else bundle_get ty (certs (slot_of i p1))) as Hget by (intros ty; unfold b; by destruct ty, (vote_type (cert_vote c))).
  assert (forall ty j, cert (bundle_get ty (certs (slot_of j p2))) = cert (bundle_get ty (certs (slot_of j p1)))) as Hcert.
  { intros ty j. rewrite Hd. case_decide as Hj; [subst j|done]. cbn. rewrite Hget. case_decide; [subst ty|done]. cbn.
    unfold has_cert in En1. by destruct (cert _). }
  assert (forall j, sk p2 j <-> sk p1 j) as Hsk by (intros j; unfold sk, is_skipped, has_cert; by rewrite Hcert).
  assert (forall j, nt p2 j <-> nt p1 j) as Hnt by (intros j; unfold nt, is_notarized, has_cert; by rewrite Hcert).
  assert (forall j, available_base (slot_of j p2) = available_base (slot_of j p1)) as Hb
    by (intros j; rewrite Hd; case_decide; by subst).
  split.
  2:{ apply (frame_trans p p1 p2 Hf1). split; [done|exists []; by rewrite app_nil_r|..].
      - intros k [Hk|Hk]; [by left|right]. unfold has_cert. by rewrite Hcert.
      - intros c' [Hc'|[-> |Hc']%elem_of_cons]%elem_of_app; [by left|right|by apply elem_of_nil in Hc'].
        intros [Hk|Hk]; [unfold cert_key in Hk; cbn [fst] in Hk; fold i in Hk; change (first p1) with (first p) in Hk; lia|].
        cbn [fst snd cert_key] in Hk. fold i in Hk. congruence. }
  destruct Hp1 as [Hc1 Hs1 Hb1]. split.
  - pose proof Hc1 as Hc1'. destruct Hc1'. split; try done.
    + intros j. rewrite Hd. case_decide as Hj; [subst j|apply pc_slots]. destruct (pc_slots i) as [H1 H2 H3 H4]. split; [done| | |].
      * intros idx t ty q Ht Hq. destruct (H2 idx t ty q Ht Hq) as (? & ? & ? & Hpf). do 3 (split; [done|]).
        unfold proof_ok in *. destruct (pv_proof q); [done|]. unfold has_cert in *. specialize (Hcert ty i).
        rewrite Hd, decide_True in Hcert by done. by rewrite Hcert.
      * intros ty c' Hc'. specialize (Hcert ty i). rewrite Hd, decide_True in Hcert by done. rewrite Hcert in Hc'. by apply H3.
      * intros v Hv. unfold will_have_cert, has_cert. cbn [certs set_certs]. rewrite Hget. case_decide; [done|]. by apply H4.
    + destruct pc_now as [H1 H2]. split; [done|]. intros x Hx. rewrite Hnt, Hsk. by apply H2.
    + intros x b'. rewrite Hb. apply pc_settled.
    + intros c' [Hc'|[-> |Hc']%elem_of_cons]%elem_of_app; [| |by apply elem_of_nil in Hc'].
      * destruct (pc_saving c' Hc') as [H1 H2]. split; [done|]. intros Hfc. specialize (H2 Hfc). cbv zeta in *.
        rewrite Hcert. split; [|apply H2]. rewrite Hd. case_decide as Hj; [|apply H2]. cbn. rewrite Hget. case_decide; [done|].
        rewrite <- Hj in H2. apply H2.
      * split; [done|]. intros _. cbv zeta. fold i. rewrite Hd, decide_True by done. cbn. rewrite Hget, decide_True by done. done.
    + change (saving p2) with (saving p ++ [c]). rewrite fmap_app. apply NoDup_app. split; [exact pc_saving_nodup|]. split; [|apply NoDup_singleton].
      intros k (c' & -> & Hc')%list_elem_of_fmap Hk. apply list_elem_of_singleton in Hk.
      destruct (pc_saving c' Hc') as [_ H2]. unfold cert_key in Hk. injection Hk as Hk1 Hk2. rewrite Hk1, Hk2 in H2. fold i in H2.
      destruct (H2 Hi) as [H3 _]. congruence.
  - by apply (skips_ok_same p1).
  - intros x y. rewrite Hsk, Hnt, Hb. setoid_rewrite Hsk. apply Hb1.
Qed.

(** ** Votes *)

Definition tally_ok (idx : nat) (i : Z) (t : Tsentrizbirkom) : Prop :=
  forall ty q, stored_vote ty t = Some q -> vote_type (pv_vote q) = ty /\ referenced_slot (pv_vote q) = i /\ S idx (pv_vote q).
Lemma stored_store ty ty' q t : stored_vote ty (store_vote ty' q t) = if decide (ty = ty') then Some q else stored_vote ty t.
Proof. by destruct ty, ty'. Qed.

(** Misbehaviour is only found in Byzantine validators. *)
Lemma check_invariants_honest idx i t : idx ∈ honest -> tally_ok idx i t -> check_invariants t = None.
Proof using HS.
  intros Hidx Ht. unfold check_invariants.
  assert (forall ty1 ty2 q1 q2, stored_vote ty1 t = Some q1 -> stored_vote ty2 t = Some q2 ->
    vote_type (pv_vote q1) = ty1 /\ vote_type (pv_vote q2) = ty2 /\ referenced_slot (pv_vote q1) = referenced_slot (pv_vote q2) /\
    compatible (pv_vote q1) (pv_vote q2)) as Hpair.
  { intros ty1 ty2 q1 q2 (H1 & H2 & H3)%Ht (H4 & H5 & H6)%Ht. repeat split; [done|done|congruence|]. by apply (HS idx). }
  destruct (finalize_ t) as [f|] eqn:Ef; [|by destruct (notarize_ t)].
  assert (skip_ t = None) as ->.
  { destruct (skip_ t) as [k|] eqn:Ek; [|done]. destruct (Hpair TFinalize TSkip f k Ef Ek) as (H1 & H2 & H3 & H4). exfalso.
    specialize (H4 H3). by destruct (pv_vote f), (pv_vote k). }
  destruct (notarize_ t) as [n|] eqn:En; [|done].
  destruct (Hpair TFinalize TNotarize f n Ef En) as (H1 & H2 & H3 & H4). specialize (H4 H3).
  rewrite bool_decide_eq_false_2; [done|]. intros Hne. apply Hne. by destruct (pv_vote f), (pv_vote n).
Qed.
Lemma add_vote_spec idx i q t :
  tally_ok idx i t -> S idx (pv_vote q) -> referenced_slot (pv_vote q) = i ->
  match add_vote q t with
  | (misbehavior m, t') => idx ∉ honest /\ t' = t
  | (is_applied true, t') => stored_vote (vote_type (pv_vote q)) t = None /\ t' = store_vote (vote_type (pv_vote q)) q t
  | (is_applied false, t') => t' = t
  end.
Proof using HS.
  intros Ht Hq Hi. unfold add_vote. destruct (stored_vote _ t) as [q'|] eqn:Eq.
  - case_bool_decide as Hne; [|done]. split; [|done]. intros Hidx. destruct Hne as [Hty Hne]. destruct (Ht _ _ Eq) as (H1 & H2 & H3).
    assert (compatible (pv_vote q') (pv_vote q)) as Hcomp by (by apply (HS idx)). specialize (Hcomp ltac:(congruence)).
    destruct (pv_vote q'), (pv_vote q); try done; cbn in Hcomp; injection Hcomp as ->; by apply Hne.
  - destruct (check_invariants _) as [m|] eqn:Ec; [|done]. split; [|done]. intros Hidx.
    rewrite (check_invariants_honest idx i) in Ec; [done|done|]. intros ty q'. rewrite stored_store.
    case_decide; [|apply Ht]. by intros [= <-].
Qed.
Lemma add_vote_same_votes q t :
  match add_vote q t with (misbehavior _, t') => t' = t | (is_applied false, t') => t' = t | _ => True end.
Proof.
  unfold add_vote. destruct (stored_vote _ t); [by case_bool_decide|]. by destruct (check_invariants _).
Qed.

(** A slot in which validator [idx] has cast the vote [q]. *)
Lemma voted_for_insert v s s' idx t q :
  votes s !! idx = Some t -> stored_vote (vote_type (pv_vote q)) t = None ->
  votes s' = <[idx := store_vote (vote_type (pv_vote q)) q t]> (votes s) ->
  forall j, voted_for v s' j = if decide (j = idx /\ pv_vote q = v) then true else voted_for v s j.
Proof using Type.
  clear Hlim.
  intros Ht Hq E j. unfold voted_for. rewrite E. destruct (decide (j = idx)) as [->|Hj].
  - rewrite list_lookup_insert_eq by (by eapply lookup_lt_Some). rewrite Ht, stored_store.
    case_decide as Hty.
    + destruct (decide (pv_vote q = v)) as [Hv|Hv].
      * rewrite decide_True, bool_decide_eq_true_2 by done. done.
      * rewrite decide_False, bool_decide_eq_false_2 by naive_solver. by rewrite Hty, Hq.
    + rewrite decide_False; [done|]. intros [_ <-]. done.
  - rewrite list_lookup_insert_ne by done. rewrite decide_False by naive_solver. done.
Qed.
Lemma insert_votes_ok pend i s s' idx t q :
  slot_ok S pend i s -> votes s !! idx = Some t -> stored_vote (vote_type (pv_vote q)) t = None ->
  votes s' = <[idx := store_vote (vote_type (pv_vote q)) q t]> (votes s) -> certs s' = certs s ->
  S idx (pv_vote q) -> referenced_slot (pv_vote q) = i ->
  proof_ok idx q (has_cert (vote_type (pv_vote q)) (certs s) || bool_decide (pend = Some (vote_type (pv_vote q)))) ->
  (forall v, referenced_slot v = i -> will_have_cert (vote_type v) s = false ->
     weight_for v s' = weight_for v s + (if decide (pv_vote q = v) then weight idx else 0)) ->
  slot_ok S pend i s'.
Proof using Type.
  clear Hlim.
  intros [H1 H2 H3 H4] Ht Hq E Ec HSq Hi Hpf Hw. split; rewrite ?Ec; [|..|done|].
  - by rewrite E, length_insert.
  - rewrite E. intros j t' ty q'. destruct (decide (j = idx)) as [->|Hj].
    + rewrite list_lookup_insert_eq by (by eapply lookup_lt_Some). intros [= <-]. rewrite stored_store.
      destruct (decide (ty = vote_type (pv_vote q))) as [Hty|]; [|by apply H2]. intros [= <-]. subst ty. done.
    + rewrite list_lookup_insert_ne by done. apply H2.
  - intros v Hv Hwill. assert (will_have_cert (vote_type v) s = false) as Hwill' by (unfold will_have_cert in *; by rewrite Ec in Hwill).
    rewrite (Hw v Hv Hwill'), (H4 v Hv Hwill'). pose proof (voted_for_insert v s s' idx t q Ht Hq E) as Hvf.
    assert (idx < validators)%nat as Hlt by (rewrite <- H1; by eapply lookup_lt_Some).
    destruct (decide (pv_vote q = v)) as [<-|Hne].
    + assert (voted_for (pv_vote q) s idx = false) as Hn by (unfold voted_for; by rewrite Ht, Hq).
      transitivity (weigh (idx :: voters (pv_vote q) s)); [cbn; unfold weigh; lia|]. apply weigh_perm. symmetry.
      apply NoDup_Permutation; [apply NoDup_filter, NoDup_seq| |].
      { constructor; [|apply NoDup_filter, NoDup_seq]. unfold voters. rewrite list_elem_of_filter, Hn. naive_solver. }
      intros j. unfold voters. rewrite elem_of_cons, !list_elem_of_filter, Hvf, elem_of_seq. destruct (decide (j = idx)) as [->|Hj].
      * rewrite decide_True by done. split; [tauto|]. intros _. split; [done|lia].
      * rewrite decide_False by naive_solver. naive_solver.
    + rewrite Z.add_0_r. f_equal. unfold voters. apply list_filter_iff. intros j. rewrite Hvf, decide_False by naive_solver. done.
Qed.

(** The certificate that the votes of a slot make. *)
Lemma collect_votes_ok v i s :
  slot_ok S None i s -> has_cert (vote_type v) (certs s) = false -> forall ts k,
  (forall j t, ts !! j = Some t -> votes s !! (k + j)%nat = Some t) ->
  exists sigs, collect_votes v ts = Some sigs /\ sigs.*1 = filter (fun idx => voted_for v s idx = true) (seq k (length ts)) /\
    forall idx sig, (idx, sig) ∈ sigs -> S idx v /\ check_signature idx v sig = true.
Proof.
  intros Hs Hn ts. induction ts as [|t ts IH]; intros k Hts.
  { exists []. split; [done|]. split; [done|]. intros idx sig Hin. by apply elem_of_nil in Hin. }
  destruct (IH (k + 1)%nat) as (sigs & Hc & Hfst & Hok). { intros j t' Hj. rewrite <- (Hts (j + 1)%nat t'); [f_equal; lia|]. by rewrite Nat.add_1_r. }
  pose proof (Hts 0%nat t eq_refl) as Ht. rewrite Nat.add_0_r in Ht. cbn [collect_votes length seq]. rewrite Hc.
  rewrite filter_cons. unfold to_signature. replace (Datatypes.S k) with (k + 1)%nat by lia.
  assert (voted_for v s k = match stored_vote (vote_type v) t with Some q => bool_decide (pv_vote q = v) | None => false end) as Hvk
    by (unfold voted_for; by rewrite Ht).
  destruct (stored_vote (vote_type v) t) as [q|] eqn:Eq; [|rewrite decide_False by congruence; by exists sigs].
  destruct (so_votes Hs _ _ _ _ Ht Eq) as (_ & _ & HSq & Hpf). destruct (decide (v = pv_vote q)) as [Hv|Hv].
  - rewrite bool_decide_eq_true_2 by done. rewrite bool_decide_eq_true_2 in Hvk by done. rewrite decide_True by done.
    unfold proof_ok in Hpf. destruct (pv_proof q) as [sg|c]; [|by rewrite Hn, bool_decide_eq_false_2 in Hpf].
    destruct Hpf as (Hsv & _ & Hcheck). eexists. split; [done|]. split; [cbn; by rewrite Hsv, Hfst|].
    intros idx sig [[= -> ->]|Hin]%elem_of_cons; [|by apply Hok]. rewrite Hsv, Hv. by split.
  - rewrite bool_decide_eq_false_2 by done. rewrite bool_decide_eq_false_2 in Hvk by congruence.
    rewrite decide_False by congruence. by exists sigs.
Qed.
Lemma create_cert_ok v i s :
  slot_ok S None i s -> referenced_slot v = i -> will_have_cert (vote_type v) s = false -> weight_threshold <= weight_for v s ->
  exists c, create_cert v s = Some c /\ cert_vote c = v /\ cert_ok S c.
Proof.
  intros Hs Hv Hw Hthr. pose proof Hw as [Hn _]%orb_false_iff. rewrite (so_weights Hs v Hv Hw) in Hthr.
  destruct (collect_votes_ok v i s Hs Hn (votes s) 0) as (sigs & Hc & Hfst & Hok); [done|]. rewrite (so_length Hs) in Hfst.
  exists (mkCertificate v sigs). unfold create_cert. rewrite Hc. split; [done|]. split; [done|]. split; cbn.
  - rewrite Hfst. apply NoDup_filter, NoDup_seq.
  - intros idx sig Hin. destruct (Hok idx sig Hin) as [H1 H2]. split; [|done].
    assert (idx ∈ sigs.*1) as Hi by (apply list_elem_of_fmap; by exists (idx, sig)).
    rewrite Hfst, list_elem_of_filter, elem_of_seq in Hi. lia.
  - by rewrite Hfst.
Qed.

(** A change of a slot that touches neither certificates nor base. *)
Definition with_slot p (i : Z) (f : SlotState -> SlotState) : Pool := set_state (update_slot (new_slot validators) f i (state_ p)) p.
Lemma frame_slot p st i f ev p' :
  same_slots (state_ p) st -> certs (f (slot_of i (set_state st p))) = certs (slot_of i (set_state st p)) ->
  same_slots (state_ (with_slot (set_state st p) i f)) (state_ p') -> first p' = first p -> saving p' = saving p ->
  signing p' = signing p -> published p' = published p ++ ev -> announcements ev = [] ->
  first_nonannounced_window_ p' = first_nonannounced_window_ p -> frame p p'.
Proof.
  intros Hst Hc Hst' Hf ? ? ? ? ?. apply (frame_same p p' ev); [done..|]. apply keeps_certs; [done|lia|]. intros j.
  unfold slot_of at 1. rewrite (proj2 Hst'). transitivity (certs (slot_of j (with_slot (set_state st p) i f))); [done|].
  transitivity (certs (slot_of j (set_state st p))); [|unfold slot_of; cbn [state_ set_state]; by rewrite (proj2 Hst)].
  unfold with_slot. rewrite slot_of_change. case_decide; by subst.
Qed.
Lemma with_slot_ok pend p i f :
  pool_core honest limit max_desync S pend p -> skips_ok p -> bases_ok p ->
  certs (f (slot_of i p)) = certs (slot_of i p) -> available_base (f (slot_of i p)) = available_base (slot_of i p) ->
  slot_ok S (pend i) i (f (slot_of i p)) ->
  pool_core honest limit max_desync S pend (with_slot p i f) /\ skips_ok (with_slot p i f) /\ bases_ok (with_slot p i f).
Proof.
  intros Hc Hs Hb Ec Eb Hf.
  assert (forall j, certs (slot_of j (with_slot p i f)) = certs (slot_of j p)) as Hcerts
    by (intros j; unfold with_slot; rewrite slot_of_change; by case_decide; subst).
  assert (forall j, available_base (slot_of j (with_slot p i f)) = available_base (slot_of j p)) as Hbase
    by (intros j; unfold with_slot; rewrite slot_of_change; by case_decide; subst).
  assert (forall j, sk (with_slot p i f) j <-> sk p j) as Hsk by (intros j; unfold sk, is_skipped; by rewrite Hcerts).
  assert (forall j, nt (with_slot p i f) j <-> nt p j) as Hnt by (intros j; unfold nt, is_notarized; by rewrite Hcerts).
  split; [|split].
  - destruct Hc. split; try done.
    + intros j. unfold with_slot. rewrite slot_of_change. by case_decide; [subst j|].
    + destruct pc_now as [H1 H2]. split; [done|]. intros x Hx. rewrite Hnt, Hsk. by apply H2.
    + intros x b. rewrite Hbase. apply pc_settled.
    + intros c Hc. rewrite Hcerts. by apply pc_saving.
  - by apply (skips_ok_same p).
  - intros x y. rewrite Hsk, Hnt, Hbase. setoid_rewrite Hsk. apply Hb.
Qed.

Lemma add_weight_rest v w s :
  votes (add_weight v w s) = votes s /\ certs (add_weight v w s) = certs s /\ available_base (add_weight v w s) = available_base s.
Proof. by destruct v. Qed.
Lemma weight_for_add v v' w s :
  referenced_slot v = referenced_slot v' ->
  weight_for v' (add_weight v w s) = if decide (v = v') then wrap_u 64 (weight_for v s + w) else weight_for v' s.
Proof.
  intros Hslot. destruct v as [a|a|a], v' as [b|b|b]; cbn in *; try (by rewrite decide_False by done).
  - destruct (decide (a = b)) as [->|]; [by rewrite lookup_insert_eq, decide_True|by rewrite lookup_insert_ne, decide_False by congruence].
  - destruct (decide (a = b)) as [->|]; [by rewrite lookup_insert_eq, decide_True|by rewrite lookup_insert_ne, decide_False by congruence].
  - subst b. by rewrite decide_True.
Qed.
Lemma voters_weight i s v idx :
  slot_ok S None i s -> (idx < validators)%nat -> voted_for v s idx = false -> 0 <= weigh (voters v s) + weight idx < 2 ^ 64.
Proof using HS Hlim Session0 SlotLimits0.
  intros Hs Hi Hn. pose proof (weigh_nonneg honest (voters v s)). pose proof (weight_nonneg honest idx). split; [lia|].
  enough (weigh (idx :: voters v s) <= 2 ^ 61) by (cbn in *; unfold weigh in *; lia).
  etransitivity; [apply (weigh_le_total honest)|rewrite (total_weight_sum honest); apply weights_capped].
  - constructor; [|apply NoDup_filter, NoDup_seq]. unfold voters. rewrite list_elem_of_filter, Hn. naive_solver.
  - intros j [->|Hj]%elem_of_cons; [done|]. unfold voters in Hj. rewrite list_elem_of_filter, elem_of_seq in Hj. lia.
Qed.
Lemma voted_slot_ok i s idx t sg :
  slot_ok S None i s -> votes s !! idx = Some t -> stored_vote (vote_type (sg_vote sg)) t = None ->
  sg_validator sg = idx -> S idx (sg_vote sg) -> referenced_slot (sg_vote sg) = i ->
  check_signature idx (sg_vote sg) (sg_signature sg) = true ->
  slot_ok S None i (add_weight (sg_vote sg) (weight idx)
    (set_votes (<[idx := store_vote (vote_type (sg_vote sg)) (proven_signed sg) t]> (votes s)) s)).
Proof using HS Hlim Session0 SlotLimits0.
  intros Hs Ht Hq Hv HSv Hi Hck. apply (insert_votes_ok None i s _ idx t (proven_signed sg)); try done.
  - apply add_weight_rest.
  - exact (proj1 (proj2 (add_weight_rest _ _ _))).
  - intros v Hvi Hw. rewrite weight_for_add by (cbn; congruence). cbn [proven_signed pv_vote].
    change (weight_for ?x (set_votes _ s)) with (weight_for x s).
    destruct (decide (sg_vote sg = v)) as [Hsv|Hsv]; [|by rewrite Z.add_0_r]. rewrite Hsv. apply Z.mod_small.
    rewrite (so_weights Hs v Hvi Hw). apply (voters_weight i); [done| |].
    + rewrite <- (so_length Hs). by eapply lookup_lt_Some.
    + unfold voted_for. by rewrite Ht, <- Hsv, Hq.
Qed.

Definition vote_message_ok (source : nat) (v : Vote) (sig : Signature) : Prop :=
  (source < validators)%nat /\ check_signature source v sig = true /\ S source v.
Lemma tally_of i s idx t : slot_ok S None i s -> votes s !! idx = Some t -> tally_ok idx i t.
Proof. intros Hs Ht ty q Hq. destruct (so_votes Hs idx t ty q Ht Hq) as (? & ? & ? & _). done. Qed.

Lemma handle_vote_good p local validator v sig tolerate :
  ok p -> vote_message_ok validator v sig -> local ∈ honest ->
  wp (handle_vote local validator (mkSigned validator v sig) tolerate) (good p) no_exn p.
Proof using HS Hlim Session0 SlotLimits0.
  intros Hp (Hval & Hck & HSv) Hlocal. unfold handle_vote. cbn [sg_vote]. set (i := referenced_slot v).
  apply wp_bind, wp_pool_slot_at. intros st Hst. assert (same_view p (set_state st p)) as Hview by done.
  set (p1 := set_state st p) in *.
  assert (ok p1) as Hp1 by (by apply pool_ok_slots). assert (frame p p1) as Hf1 by (by apply frame_quiet).
  rewrite (pc_state Hp). destruct (Z.ltb_spec i (first p)) as [|Hi]; [by apply wp_ret|]. apply wp_bind, wp_gets.
  set (s := slot_of i p1). pose proof (pc_slots Hp1 i) as Hs. fold s in Hs. apply wp_bind.
  destruct (lookup_lt_is_Some_2 (votes s) validator) as [t Ht]; [by rewrite (so_length Hs)|]. rewrite Ht. apply wp_ret.
  pose proof (add_vote_spec validator i (proven_signed (mkSigned validator v sig)) t (tally_of i s validator t Hs Ht) HSv eq_refl) as Ha.
  assert (ok (with_slot p1 i (set_votes (<[validator := t]> (votes s))))) as Hsame.
  { rewrite list_insert_id by done.
    destruct (with_slot_ok (fun _ => None) p1 i (set_votes (votes s))) as (? & ? & ?); [apply Hp1..|done|done| |by split].
    by apply (slot_ok_same _ _ s). }
  destruct (add_vote _ t) as [[m|[]] t'].
  - destruct Ha as [Hbyz ->]. apply wp_bind, wp_modify, wp_bind, wp_assert_ub.
    { apply orb_true_iff. left. apply negb_true_iff, Nat.eqb_neq. intros ->. done. }
    apply wp_bind. unfold publish. apply wp_modify, wp_ret. split; [by apply pool_ok_publish|].
    by apply (frame_slot p st i (set_votes (<[validator := t]> (votes s))) [MisbehaviorReport validator m]).
  - destruct Ha as [Hnone ->]. apply wp_bind, wp_modify, wp_bind. unfold handle_typed_vote. apply wp_bind, wp_modify, wp_bind, wp_gets.
    pose proof (voted_slot_ok i s validator t (mkSigned validator v sig) Hs Ht Hnone eq_refl HSv eq_refl Hck) as Hnew. cbn [sg_vote] in Hnew.
    set (s' := add_weight v _ _) in Hnew. set (p2 := set_state _ _).
    assert (forall j, slot_of j p2 = if decide (i = j) then s' else slot_of j p1) as Hd.
    { intros j. unfold p2. rewrite slot_of_change. destruct (decide (i = j)) as [<-|]; [|by rewrite slot_of_change, decide_False].
      by rewrite slot_of_change, decide_True. }
    destruct (add_weight_rest v (weight validator) (set_votes (<[validator := store_vote (vote_type v) (proven_signed (mkSigned validator v sig)) t]> (votes s)) s))
      as (_ & Ec & Eb).
    assert (ok (with_slot p1 i (fun _ => s'))) as Hok2.
    { destruct (with_slot_ok (fun _ => None) p1 i (fun _ => s')) as (? & ? & ?); [apply Hp1..|done|done|done|by split]. }
    assert (ok p2) as Hp2.
    { apply (pool_ok_view _ _ _ _ (with_slot p1 i (fun _ => s'))); [|done]. split; try done. split; [done|]. intros j.
      change (slot_of j p2 = slot_of j (with_slot p1 i (fun _ => s'))). unfold with_slot. by rewrite Hd, slot_of_change. }
    assert (frame p p2) as Hf2.
    { apply (frame_slot p st i (fun _ => s') []); try done; [|by rewrite app_nil_r]. split; [done|]. intros j.
      change (slot_of j p2 = slot_of j (with_slot p1 i (fun _ => s'))). unfold with_slot. by rewrite Hd, slot_of_change. }
    rewrite Hd, decide_True by done.
    destruct (negb (will_have_cert (vote_type v) s') && (weight_threshold <=? weight_for v s')) eqn:Ew; [|by do 2 apply wp_ret].
    apply andb_true_iff in Ew as [Ew1%negb_true_iff Ew2%Z.leb_le].
    destruct (create_cert_ok v i s' Hnew eq_refl Ew1 Ew2) as (c & -> & Hcv & Hcok). apply wp_bind, wp_ret.
    eapply wp_mono; [by apply (good_step _ p p2 Hf2), handle_certificate_good| |done]. intros u p3 Hg. by apply wp_ret.
  - subst t'. apply wp_bind, wp_modify, wp_ret. split; [done|].
    apply (frame_slot p st i (set_votes (<[validator := t]> (votes s))) []); try done. by rewrite app_nil_r.
Qed.
End safe.
