(* ===== verification/SimplexPoolEvents.v ===== *)
(** * The handlers of the pool

    Every message, answer of the keyring or of the database, and start of the pool keeps
    the invariant; the assumptions are those of the network: signatures that verify were
    made by their validators. *)
From S2P Require Import Prelude Simplex SimplexPool SimplexQuorum SimplexInvariant SimplexPoolSafe.

Section events.
Context `{Bus} (honest : gset nat) `{!Session honest} (limit max_desync : Z) `{!SlotLimits limit max_desync}.
Context (S : nat -> Vote -> Prop) (HS : consistent honest S)
  (Hlim : forall i v, i ∈ honest -> S i v -> 0 <= referenced_slot v < limit).
Implicit Types p : Pool.
#[local] Notation ok := (pool_ok honest limit max_desync S).
#[local] Notation core := (pool_core honest limit max_desync S).
#[local] Notation good := (good honest limit max_desync S).
#[local] Notation frame := (frame limit).
#[local] Hint Extern 0 (keeps _ _) => (apply keeps_state; done) : core.
#[local] Hint Resolve frame_refl : core.

(** ** Votes of a certificate *)

Lemma slot_ok_pend pend i s : slot_ok S None i s -> slot_ok S pend i s.
Proof.
  intros [H1 H2 H3 H4]. split; [done| |done|done]. intros idx t ty q Ht Hq. destruct (H2 idx t ty q Ht Hq) as (? & ? & ? & Hpf).
  do 3 (split; [done|]). unfold proof_ok in *. destruct (pv_proof q); [done|].
  rewrite bool_decide_eq_false_2, orb_false_r in Hpf by done. by rewrite Hpf.
Qed.
Lemma pool_core_pend pend p : core (fun _ => None) p -> core pend p.
Proof. intros Hp. destruct Hp. split; try done. intros i. by apply slot_ok_pend. Qed.

Lemma publish_nothing p : set_published (published p ++ []) p = p.
Proof. rewrite app_nil_r. by destruct p. Qed.
(** What adding votes leaves alone. *)
Record votes_added pend p p' (i : Z) : Prop := {
  va_core : core pend p';
  va_skips : skips_ok p';
  va_bases : bases_ok p';
  va_frame : frame p p';
  va_saving : saving p' = saving p;
  va_first : first p' = first p;
  va_certs : certs (slot_of i p') = certs (slot_of i p);
}.
Lemma votes_added_step pend p p1 p2 i : frame p p1 -> saving p1 = saving p -> first p1 = first p ->
  certs (slot_of i p1) = certs (slot_of i p) -> votes_added pend p1 p2 i -> votes_added pend p p2 i.
Proof. intros Hf E1 E2 E3 []. split; try done; try congruence. by eapply frame_trans. Qed.

Lemma certificate_slot_ok pend i s idx t c :
  slot_ok S (pend i) i s -> votes s !! idx = Some t -> stored_vote (vote_type (cert_vote c)) t = None ->
  S idx (cert_vote c) -> referenced_slot (cert_vote c) = i -> pend i = Some (vote_type (cert_vote c)) ->
  will_have_cert (vote_type (cert_vote c)) s = true ->
  slot_ok S (pend i) i (set_votes (<[idx := store_vote (vote_type (cert_vote c)) (proven_cert c) t]> (votes s)) s).
Proof.
  intros Hs Ht Hq HSv Hi Hpend Hw. apply (insert_votes_ok S (pend i) i s _ idx t (proven_cert c)); try done.
  - cbn. rewrite Hpend. rewrite bool_decide_eq_true_2 by done. apply orb_true_r.
  - intros v Hv Hn. cbn [proven_cert pv_vote]. rewrite decide_False by congruence. change (weight_for v s = weight_for v s + 0). lia.
Qed.
Lemma votes_slot_same pend i s idx t : slot_ok S pend i s -> votes s !! idx = Some t -> slot_ok S pend i (set_votes (<[idx := t]> (votes s)) s).
Proof. intros Hs Ht. rewrite list_insert_id by done. by apply (slot_ok_same S pend i s). Qed.

Lemma add_certificate_votes_ok pend i c sigs : forall p,
  core pend p -> skips_ok p -> bases_ok p -> pend i = Some (vote_type (cert_vote c)) ->
  referenced_slot (cert_vote c) = i -> will_have_cert (vote_type (cert_vote c)) (slot_of i p) = true ->
  (forall idx sig, (idx, sig) ∈ sigs -> (idx < validators)%nat /\ S idx (cert_vote c)) ->
  wp (add_certificate_votes i c sigs) (fun _ p' => votes_added pend p p' i) no_exn p.
Proof using HS.
  induction sigs as [|[idx sig] sigs IH]; intros p Hc Hsk Hb Hpend Hi Hw Hsigs; cbn [add_certificate_votes]; [by apply wp_ret|].
  apply wp_bind, wp_gets, wp_bind. pose proof (pc_slots Hc i) as Hs. set (s := slot_of i p) in *.
  destruct (Hsigs idx sig) as [Hidx HSi]; [by constructor|].
  destruct (lookup_lt_is_Some_2 (votes s) idx) as [t Ht]; [by rewrite (so_length Hs)|]. rewrite Ht. apply wp_ret.
  assert (tally_ok S idx i t) as Htal. { intros ty q Hq. destruct (so_votes Hs idx t ty q Ht Hq) as (? & ? & ? & _). done. }
  pose proof (add_vote_spec honest S HS idx i (proven_cert c) t Htal HSi Hi) as Ha.
  destruct (add_vote (proven_cert c) t) as [r t'].
  assert (slot_ok S (pend i) i (set_votes (<[idx := t']> (votes s)) s)) as Hs'.
  { destruct r as [m|[]]; [destruct Ha as [_ ->]|destruct Ha as [Hn ->]|subst t']; [by apply votes_slot_same| |by apply votes_slot_same].
    by apply certificate_slot_ok. }
  destruct (with_slot_ok honest limit max_desync S pend p i (set_votes (<[idx := t']> (votes s)))) as (Hc1 & Hsk1 & Hb1); try done.
  set (p1 := with_slot p i (set_votes (<[idx := t']> (votes s)))) in *.
  set (ev := match r with misbehavior m => [MisbehaviorReport idx m] | is_applied _ => [] end).
  set (p2 := set_published (published p1 ++ ev) p1).
  assert (core pend p2 /\ frame p p2) as [Hc2 Hf2].
  { split.
    - unfold p2, ev. destruct r as [m|b]; [apply pool_core_publish; [apply Ha|done]|by rewrite publish_nothing].
    - apply (frame_slot limit p (state_ p) i (set_votes (<[idx := t']> (votes s))) ev); try done. unfold ev. by destruct r. }
  apply wp_bind, wp_modify, wp_bind. fold p1.
  enough (wp (add_certificate_votes i c sigs) (fun _ p' => votes_added pend p p' i) no_exn p2) as Hwp.
  { unfold p2, ev in Hwp. destruct r as [m|b]; [by apply wp_modify|apply wp_ret]. by rewrite publish_nothing in Hwp. }
  assert (certs (slot_of i p2) = certs s) as Hcs.
  { change (certs (slot_of i p1) = certs s). unfold p1, with_slot. by rewrite slot_of_change, decide_True. }
  eapply wp_mono; [apply (IH p2); try done| |done].
  - unfold will_have_cert in *. by rewrite Hcs.
  - intros idx' sig' Hin. apply (Hsigs idx' sig'). by constructor.
  - intros u p3. by apply votes_added_step.
Qed.

(** ** Certificates *)

(** A certificate is no longer being saved. *)
Lemma unsave_ok p k c :
  ok p -> saving p !! k = Some c ->
  let p1 := set_saving (delete k (saving p)) p in ok p1 /\ frame p p1 /\ cert_key c ∉ map cert_key (saving p1).
Proof.
  intros Hp Hk p1. pose proof (delete_Permutation _ _ _ Hk) as Hperm.
  assert (forall c', c' ∈ saving p1 -> c' ∈ saving p) as Hsub by (intros c' Hc'; rewrite Hperm; by constructor).
  pose proof (pc_saving_nodup Hp) as Hnd. rewrite Hperm in Hnd. cbn [map] in Hnd. apply NoDup_cons in Hnd as [Hni Hnd].
  split; [|split; [|done]].
  - destruct Hp as [Hc Hs Hb]. split; [|done..]. destruct Hc. split; try done. intros c' Hc'. by apply pc_saving, Hsub.
  - split; [done|exists []; by rewrite app_nil_r|done|]. intros c' Hc'. left. by apply Hsub.
Qed.
(** ** Messages *)

(** Whatever differs from [p] in other fields than those of the invariant. *)
Lemma ok_other p p' : ok p -> same_view p p' -> ok p'.
Proof. intros Hp Hv. by apply (pool_ok_view _ _ _ _ p). Qed.

(** [Certificate::from_tl] accepts what a quorum has signed, and nothing else. *)
Lemma collect_signatures_inv sigs : forall voted w w',
  collect_signatures sigs voted w = Some w' ->
  NoDup sigs.*1 /\ (forall idx, idx ∈ sigs.*1 -> voted !! idx = Some false) /\
  w' = foldl (fun t who => wrap_u 64 (t + weight who)) w sigs.*1.
Proof.
  induction sigs as [|[who sig] sigs IH]; intros voted w w'; cbn.
  { intros [= ->]. split; [constructor|]. split; [|done]. intros idx Hi. by apply elem_of_nil in Hi. }
  destruct (voted !! who) as [[]|] eqn:Ew; [done| |done]. intros (Hnd & Hv & Hw)%IH.
  assert (who ∉ sigs.*1) as Hni.
  { intros Hi%Hv. rewrite list_lookup_insert_eq in Hi by (by eapply lookup_lt_Some). done. }
  split; [by constructor|]. split; [|done]. intros idx [->|Hi]%elem_of_cons; [done|].
  rewrite <- (Hv idx Hi), list_lookup_insert_ne; [done|]. intros ->. done.
Qed.
Lemma collect_signatures_all sigs : forall voted w,
  NoDup sigs.*1 -> (forall idx, idx ∈ sigs.*1 -> voted !! idx = Some false) ->
  collect_signatures sigs voted w = Some (foldl (fun t who => wrap_u 64 (t + weight who)) w sigs.*1).
Proof.
  induction sigs as [|[who sig] sigs IH]; intros voted w Hnd Hv; [done|]. cbn in *. apply NoDup_cons in Hnd as [Hni Hnd].
  rewrite Hv by constructor. apply IH; [done|]. intros idx Hi. rewrite list_lookup_insert_ne by congruence. apply Hv. by constructor.
Qed.
Lemma weigh_foldl l : forall w, 0 <= w -> w + weigh l < 2 ^ 64 -> foldl (fun t who => wrap_u 64 (t + weight who)) w l = w + weigh l.
Proof using Session0.
  induction l as [|who l IH]; intros w Hw Hl; cbn in *; [lia|]. fold (weigh l) in *.
  pose proof (weight_nonneg honest who). pose proof (weigh_nonneg honest l).
  assert (wrap_u 64 (w + weight who) = w + weight who) as -> by (apply Z.mod_small; lia). rewrite IH; lia.
Qed.
Lemma weigh_signers l : NoDup l -> (forall idx, idx ∈ l -> (idx < validators)%nat) -> foldl (fun t who => wrap_u 64 (t + weight who)) 0 l = weigh l.
Proof using Session0.
  intros Hnd Hr. rewrite weigh_foldl; [lia|lia|]. pose proof (weigh_le_total honest l Hnd Hr) as Hle.
  rewrite (total_weight_sum honest) in Hle. pose proof weights_capped. lia.
Qed.
Lemma from_tl_ok v sigs c :
  (forall idx sig, (idx, sig) ∈ sigs -> check_signature idx v sig = true -> S idx v) -> certificate_from_tl v sigs = Some c ->
  c = mkCertificate v sigs /\ cert_ok S c.
Proof using Session0.
  intros Hv. unfold certificate_from_tl. destruct (collect_signatures _ _ _) as [w|] eqn:Ew; [|done].
  destruct (Z.ltb_spec w weight_threshold) as [|Hw]; [done|]. destruct (forallb _ sigs) eqn:Ef; [|done]. intros [= <-]. split; [done|].
  apply collect_signatures_inv in Ew as (Hnd & Hr & ->).
  assert (forall idx, idx ∈ sigs.*1 -> (idx < validators)%nat) as Hlt.
  { intros idx Hi%Hr%lookup_lt_Some. by rewrite length_replicate in Hi. }
  rewrite weigh_signers in Hw by done. split; [done| |done]. cbn. intros idx sig Hin.
  assert (check_signature idx v sig = true) as Hck.
  { rewrite forallb_forall in Ef. apply (Ef (idx, sig)). by apply list_elem_of_In. }
  split; [|split; [by eapply Hv|done]]. apply Hlt, list_elem_of_fmap. by exists (idx, sig).
Qed.
Lemma from_tl_complete c : cert_ok S c -> certificate_from_tl (cert_vote c) (signatures c) = Some c.
Proof using Session0.
  intros [Hnd Hs Hw]. unfold certificate_from_tl.
  assert (forall idx, idx ∈ (signatures c).*1 -> (idx < validators)%nat) as Hlt.
  { intros idx ([i sig] & -> & Hin)%list_elem_of_fmap. by apply (Hs i sig). }
  rewrite collect_signatures_all, weigh_signers; [|done..|].
  2:{ intros idx Hi%Hlt. by apply lookup_replicate_2. }
  rewrite (proj2 (Z.ltb_ge _ _)) by done.
  replace (forallb _ (signatures c)) with true; [by destruct c|]. symmetry. apply forallb_forall.
  intros [idx sig] Hin%list_elem_of_In. by apply (Hs idx sig).
Qed.

(** The signatures of a message that verify were made by their validators. *)
Definition message_ok (source : nat) (msg : ProtocolMessage) : Prop :=
  (source < validators)%nat /\
  match msg with
  | tl_vote v sig => check_signature source v sig = true -> S source v
  | tl_certificate v sigs => forall idx sig, (idx, sig) ∈ sigs -> check_signature idx v sig = true -> S idx v
  | tl_other => True
  end.

Lemma our_vote_signed_good p local k ov sig :
  ok p -> local ∈ honest -> (local < validators)%nat -> signing p !! k = Some ov -> check_signature local (ov_vote ov) sig = true -> S local (ov_vote ov) ->
  wp (our_vote_signed local k sig) (good (set_signing (delete k (signing p)) p)) no_exn p.
Proof using HS Hlim Session0 SlotLimits0.
  intros Hp Hlocal Hval Hk Hck HSv. unfold our_vote_signed. apply wp_bind, wp_gets. rewrite Hk. apply wp_bind, wp_modify, wp_bind.
  set (p1 := set_signing _ p). assert (ok p1) as Hp1 by (by apply (ok_other p)).
  eapply wp_mono; [eapply handle_vote_good; [done..| |done]; repeat split; done| |done].
  intros b p2 [Hp2 Hf2]. destruct (b && _); [|by apply wp_ret]. unfold publish. apply wp_modify. split.
  - by apply pool_ok_publish.
  - eapply frame_trans; [exact Hf2|]. by apply (frame_same limit p2 _ [OutgoingVote (mkSigned local (ov_vote ov) sig)]).
Qed.

Lemma ban_good p p1 t peer : ok p1 -> frame p p1 -> wp (ban t peer) (good p) no_exn p1.
Proof. intros Hp Hf. apply wp_modify. split; [by apply (ok_other p1)|]. eapply frame_trans; [exact Hf|by apply frame_quiet]. Qed.

Lemma handle_incoming_vote_good p local t source v sig :
  ok p -> local ∈ honest -> message_ok source (tl_vote v sig) -> wp (handle_incoming_vote local t source v sig) (good p) no_exn p.
Proof using HS Hlim Session0 SlotLimits0.
  intros Hp Hlocal [Hsrc Hmsg]. unfold handle_incoming_vote. apply wp_bind, wp_gets, wp_bind, wp_gets. fold (first p).
  destruct ((_ <=? _) || _) eqn:Eg; [by apply wp_ret|]. apply orb_false_iff in Eg as [_ Hi%Z.ltb_ge].
  apply wp_bind, wp_get_slot_at; [by rewrite (pc_state Hp)|]. intros st Hst. apply wp_bind, wp_gets, wp_bind.
  assert (ok (set_state st p)) as Hp1 by (by apply pool_ok_slots). assert (frame p (set_state st p)) as Hf1 by (by apply frame_quiet).
  destruct (lookup_lt_is_Some_2 (votes (slot_of (referenced_slot v) (set_state st p))) source) as [tz Ht].
  { by rewrite (so_length (pc_slots Hp1 _)). }
  rewrite Ht. apply wp_ret. destruct (wants v tz); [|by apply wp_ret]. cbn [negb]. unfold signed_from_tl.
  destruct (check_signature source v sig) eqn:Eck; [|by apply ban_good]. apply wp_bind.
  eapply wp_mono; [apply (good_step honest limit max_desync S _ p (set_state st p) Hf1); eapply handle_vote_good; try done;
    repeat split; [done|done|by apply Hmsg]| |done]. intros b p2 Hg. by apply wp_ret.
Qed.

(** A slot that is too new lies after the present. *)
Lemma too_new_after p : ok p -> now_ p < first_too_new_slot p.
Proof using HS Hlim Session0 SlotLimits0.
  intros Hp. pose proof (ok_now_limit honest limit max_desync S HS Hlim p Hp) as Hn. pose proof (pc_desync Hp) as Hd.
  pose proof window_positive as Hw. pose proof limit_window as Hl. pose proof limit_int.
  unfold first_too_new_slot. set (w := slots_per_leader_window) in *. pose proof (Z.div_mod (now_ p) w ltac:(lia)) as Hdm.
  pose proof (Z.mod_pos_bound (now_ p) w Hw). assert (0 <= now_ p / w <= now_ p) by (split; [apply Z.div_pos; lia|apply Z.div_le_upper_bound; nia]).
  assert ((now_ p / w + max_leader_window_desync p + 1) * w <= limit + (max_desync + 1) * w) as Hle by nia.
  assert (0 <= now_ p / w + max_leader_window_desync p + 1 < 2 ^ 32) by nia.
  assert (wrap_u 32 (now_ p / w + max_leader_window_desync p + 1) = now_ p / w + max_leader_window_desync p + 1) as -> by (apply Z.mod_small; lia).
  unfold wrap_u. rewrite Z.mod_small; nia.
Qed.

(** The slot is asked for, and needs the certificate or does not. *)
Lemma slot_needs_good p v i (Q : bool -> Pool -> Prop) :
  ok p -> first p <= i -> (forall b st, same_slots (state_ p) st -> Q b (set_state st p)) ->
  wp (j <- get_slot_at i ;; slot_needs v j) Q no_exn p.
Proof.
  intros Hp Hi HQ. apply wp_bind, wp_get_slot_at; [by rewrite (pc_state Hp)|]. intros st Hst. apply wp_bind, wp_gets, wp_ret. by apply HQ.
Qed.
Lemma handle_incoming_certificate_good p t source v sigs :
  ok p -> message_ok source (tl_certificate v sigs) -> wp (handle_incoming_certificate t source v sigs) (good p) no_exn p.
Proof using HS Hlim Session0 SlotLimits0.
  intros Hp [_ Hmsg]. unfold handle_incoming_certificate. apply wp_bind, wp_gets. cbv zeta. apply wp_bind.
  pose proof (too_new_after p Hp) as Htn. destruct (pc_now Hp) as [Hnow _]. pose proof (fun c => from_tl_ok v sigs c Hmsg) as Htl.
  destruct (Z.leb_spec (first_too_new_slot p) (referenced_slot v)) as [Hge|_].
  - apply wp_ret. cbn [negb]. destruct (certificate_from_tl v sigs) as [c|]; [|by apply ban_good]. destruct (Htl c eq_refl) as [_ Hc].
    apply wp_bind, slot_needs_good; [done|lia|]. intros b st Hst.
    assert (ok (set_state st p)) as Hp1 by (by apply pool_ok_slots). assert (frame p (set_state st p)) as Hf1 by (by apply frame_quiet).
    destruct b; [|by apply wp_ret]. eapply good_step; [exact Hf1|]. by apply handle_certificate_good.
  - apply wp_bind, wp_pool_slot_at. intros st Hst.
    assert (ok (set_state st p)) as Hp1 by (by apply pool_ok_slots). assert (frame p (set_state st p)) as Hf1 by (by apply frame_quiet).
    destruct (referenced_slot v <? _); [by do 2 apply wp_ret|]. apply wp_bind, wp_gets, wp_ret.
    destruct (needs v _); [|by apply wp_ret]. cbn [negb]. destruct (certificate_from_tl v sigs) as [c|]; [|by apply ban_good].
    destruct (Htl c eq_refl) as [_ Hc]. apply wp_bind, wp_ret. eapply good_step; [exact Hf1|]. by apply handle_certificate_good.
Qed.

Lemma handle_message_good p local t source msg :
  ok p -> local ∈ honest -> message_ok source msg -> wp (handle_IncomingProtocolMessage local t source msg) (good p) no_exn p.
Proof using HS Hlim Session0 SlotLimits0.
  intros Hp Hlocal Hsrc. unfold handle_IncomingProtocolMessage. apply wp_bind.
  assert (wp (is_banned t source) (good p) no_exn p) as Hban.
  { unfold is_banned. apply wp_bind, wp_gets. destruct (bad_signature_bans_ p !! source) as [until|]; [|by apply wp_ret].
    destruct (until <=? t); [|by apply wp_ret]. apply wp_bind, wp_modify, wp_ret. split; [by apply (ok_other p)|by apply frame_quiet]. }
  eapply wp_mono; [exact Hban| |done]. intros b p1 [Hp1 Hf1]. destruct b; [by apply wp_ret|]. pose proof window_positive.
  apply wp_bind, wp_assert_ub; [by rewrite (proj2 (Z.eqb_neq _ _)) by lia|]. eapply good_step; [exact Hf1|].
  destruct msg as [v sig|v sigs|]; [by apply handle_incoming_vote_good|by apply handle_incoming_certificate_good|by apply wp_ret].
Qed.

(** ** Other events *)

Lemma handle_Start_good p : ok p -> wp handle_Start (good p) no_exn p.
Proof using HS Hlim Session0 SlotLimits0.
  intros Hp. apply wp_bind, wp_modify. eapply good_step; [by apply frame_quiet|]. apply advance_present_good; try done. by apply (ok_other p).
Qed.
Lemma handle_params_good p desync ban : ok p -> 0 <= desync <= max_desync -> wp (handle_NoncriticalParamsUpdated desync ban) (good p) no_exn p.
Proof. intros [Hc Hs Hb] Hd. apply wp_modify. split; [|by apply frame_quiet]. split; [|done..]. destruct Hc. by split. Qed.
Lemma handle_BroadcastVote_good p v :
  ok p -> wp (handle_BroadcastVote v) (good (set_signing (signing p ++ [mkOurVote v false false]) p)) no_exn p.
Proof. intros Hp. apply wp_modify. split; [by apply (ok_other p)|done]. Qed.
Lemma precheck_good p slot b checked : ok p -> wp (process_PrecheckCandidateBroadcast slot b checked) (good p) no_exn p.
Proof.
  intros Hp. unfold process_PrecheckCandidateBroadcast. apply wp_bind, wp_gets. unfold id. destruct (slot <? _); [by apply wp_ret|].
  destruct (_ <? slot); [by apply wp_ret|]. destruct (seen_broadcasts_ p !! slot); [by apply wp_ret|]. apply wp_bind.
  destruct checked; [apply wp_modify|]; apply wp_ret; [|done]. split; [by apply (ok_other p)|by apply frame_quiet].
Qed.

Lemma own_message_ok p i local ty :
  ok p -> (local < validators)%nat ->
  wp (own_message local ty (slot_of i p)) (fun l p' => p' = p /\ Forall (event_ok honest limit S) l) no_exn p.
Proof.
  intros Hp Hl. unfold own_message. apply wp_bind. pose proof (pc_slots Hp i) as Hs.
  destruct (lookup_lt_is_Some_2 (votes (slot_of i p)) local) as [t Ht]; [by rewrite (so_length Hs)|]. rewrite Ht. apply wp_ret.
  destruct (stored_vote ty t) as [q|] eqn:Eq; [|by apply wp_ret]. destruct (so_votes Hs local t ty q Ht Eq) as (_ & _ & HSv & Hpf).
  destruct (has_cert ty _) eqn:Ec; [by apply wp_ret|]. unfold proof_ok in Hpf. rewrite bool_decide_eq_false_2 in Hpf by done.
  destruct (pv_proof q) as [sg|]; [|done]. apply wp_ret. destruct Hpf as (E1 & E2 & _). split; [done|]. constructor; [|done]. cbn. by rewrite E1, E2.
Qed.
Lemma cert_message_ok p i ty : ok p -> Forall (event_ok honest limit S) (cert_message ty (slot_of i p)).
Proof.
  intros Hp. unfold cert_message. destruct (cert _) as [c|] eqn:Ec; [|done]. constructor; [|done].
  by apply (so_certs (pc_slots Hp i) ty c Ec).
Qed.
Lemma standstill_slot_good p local slot :
  ok p -> (local < validators)%nat -> first p <= slot ->
  wp (standstill_slot local slot) (fun l p' => good p l p' /\ Forall (event_ok honest limit S) l) no_exn p.
Proof.
  intros Hp Hl Hs. unfold standstill_slot. apply wp_bind, wp_get_slot_at; [by rewrite (pc_state Hp)|]. intros st Hst.
  set (p1 := set_state st p). assert (ok p1) as Hp1 by (by apply pool_ok_slots). apply wp_bind, wp_gets.
  apply wp_bind. eapply wp_mono; [by apply own_message_ok| |done]. intros n ? [-> Hn].
  apply wp_bind. eapply wp_mono; [by apply own_message_ok| |done]. intros k ? [-> Hk].
  apply wp_bind. eapply wp_mono; [by apply own_message_ok| |done]. intros f ? [-> Hf].
  apply wp_ret. split; [split; [done|by apply frame_quiet]|]. repeat (apply Forall_app; split); try done; by apply cert_message_ok.
Qed.

(** ** Saved certificates *)

(** Nothing is being saved while the pool loads its certificates, and it gets no others. *)
Definition same_certs p p' : Prop := saving p' = saving p /\ forall j, certs (slot_of j p') = certs (slot_of j p).
Definition saves_nothing {A} (m : M Pool A) : Prop :=
  forall p, match m p with Ret _ p' | Exn _ p' => same_certs p p' | Undef => True end.
Lemma saves_bind {A B} (m : M Pool A) (k : A -> M Pool B) :
  saves_nothing m -> (forall a, saves_nothing (k a)) -> saves_nothing (a <- m ;; k a).
Proof.
  intros Hm Hk p. unfold bind. specialize (Hm p). destruct (m p) as [a p1|e p1|]; [|done|done]. specialize (Hk a p1).
  destruct Hm as [Hm1 Hm2]. destruct (k a p1); [| |done]; destruct Hk as [Hk1 Hk2]; (split; [congruence|]); intros j; by rewrite Hk2.
Qed.
Lemma saves_ret {A} (a : A) : saves_nothing (ret a).
Proof. done. Qed.
Lemma saves_gets {A} (f : Pool -> A) : saves_nothing (gets f).
Proof. done. Qed.
Lemma saves_modify f : (forall p, same_certs p (f p)) -> saves_nothing (modify f).
Proof. intros Hf p. apply Hf. Qed.
Lemma saves_option {A} (o : option A) : saves_nothing (of_option o).
Proof. by destruct o. Qed.
Lemma saves_assert b : saves_nothing (assert_ub b).
Proof. by destruct b. Qed.
Lemma saves_slot_at i : saves_nothing (pool_slot_at i).
Proof.
  intros p. unfold pool_slot_at. pose proof (slot_at_spec (new_slot validators) i (state_ p)) as Hs.
  destruct (slot_at _ _ _) as [r st]. destruct Hs as (_ & _ & Hd). split; [done|]. intros j. unfold slot_of. cbn. by rewrite Hd.
Qed.
Lemma saves_base n b : saves_nothing (change_slot n (add_available_base b)).
Proof. apply saves_modify. intros p. split; [done|]. intros j. apply (with_base_certs p n b j). Qed.
Create HintDb saves.
#[local] Hint Resolve saves_ret saves_gets saves_option saves_assert saves_slot_at saves_base : saves.
#[local] Ltac saves :=
  repeat first
    [ solve [auto with saves]
    | apply saves_bind; [|intros ?] | apply saves_modify; done
    | progress unfold the_slot, publish, get_slot_at, next_nonskipped_slot_after, resolve_with
    | match goal with |- saves_nothing (match ?x with _ => _ end) => destruct x end
    | match goal with |- saves_nothing (let '(_, _) := ?x in _) => destruct x end ].
Lemma saves_advance_now fuel : saves_nothing (advance_now fuel).
Proof. induction fuel as [|fuel IH]; cbn; [done|]. saves. Qed.
#[local] Hint Resolve saves_advance_now : saves.
Lemma saves_advance_present : saves_nothing advance_present.
Proof. unfold advance_present. saves. Qed.
Lemma saves_resolve r : saves_nothing (maybe_resolve_request r).
Proof. unfold maybe_resolve_request. saves. Qed.
#[local] Hint Resolve saves_advance_present saves_resolve : saves.
Lemma saves_resolve_loop fuel : forall i, saves_nothing (resolve_loop fuel i).
Proof. induction fuel as [|fuel IH]; intros i; cbn; saves. Qed.
#[local] Hint Resolve saves_resolve_loop : saves.
Lemma saves_typed i c : saves_nothing (handle_typed_saved_certificate i c).
Proof. unfold handle_typed_saved_certificate, saved_notarization, saved_skip, saved_finalization. saves. Qed.
#[local] Hint Resolve saves_typed : saves.

Lemma saved_certificate_certs i c p a p' :
  handle_saved_certificate i c p = Ret a p' ->
  saving p' = saving p /\ forall j ty, (j, ty) <> (i, vote_type (cert_vote c)) -> bundle_get ty (certs (slot_of j p')) = bundle_get ty (certs (slot_of j p)).
Proof.
  intros Hr. destruct (store_cert c (certs (slot_of i p))) as [cs|] eqn:Ecs.
  2:{ unfold handle_saved_certificate, bind, the_slot, gets in Hr. by rewrite Ecs in Hr. }
  destruct (store_cert_get _ _ _ Ecs) as [_ Hget]. set (p1 := set_state (update_slot (new_slot validators) (set_certs cs) i (state_ p)) p).
  set (m := suppress <- gets suppress_certificate_broadcast_ ;;
    (if suppress then ret tt else publish (OutgoingCertificate c)) ;; handle_typed_saved_certificate i c ;; maybe_resolve_requests).
  assert (m p1 = Ret a p') as Hm1 by (rewrite <- Hr;
    change (handle_saved_certificate i c p) with (bind (of_option (store_cert c (certs (slot_of i p)))) (fun cs => change_slot i (set_certs cs) ;; m) p); by rewrite Ecs).
  assert (saves_nothing m) as Hm by (unfold m, maybe_resolve_requests; saves). specialize (Hm p1). rewrite Hm1 in Hm. destruct Hm as [-> Hc].
  split; [done|]. intros j ty Hne. rewrite Hc. unfold p1. rewrite slot_of_change. case_decide as Hj; [subst j|done]. cbn [certs set_certs].
  rewrite Hget, decide_False; [done|]. congruence.
Qed.

Lemma wp_ret_eq {A} (m : M Pool A) Q E p : wp m Q E p -> wp m (fun a p' => Q a p' /\ m p = Ret a p') E p.
Proof. unfold wp. by destruct (m p). Qed.
(** The certificate at [k] was saved. *)
Lemma certificate_saved_good p k c :
  ok p -> saving p !! k = Some c ->
  wp (certificate_saved k) (fun a p' => good p a p' /\ closed p' (cert_key c) /\ saving p' = delete k (saving p)) no_exn p.
Proof using HS Hlim Session0 SlotLimits0.
  intros Hp Hk. unfold certificate_saved. apply wp_bind, wp_gets. rewrite Hk. apply wp_bind, wp_modify.
  destruct (unsave_ok p k c Hp Hk) as (Hp1 & Hf1 & Hkey). set (p1 := set_saving _ p) in *.
  destruct (pc_saving Hp c) as [Hc Hflag]; [by eapply list_elem_of_lookup_2|].
  set (i := referenced_slot (cert_vote c)) in *. apply wp_bind, wp_pool_slot_at. intros st Hst.
  assert (ok (set_state st p1)) as Hp2 by (by apply pool_ok_slots).
  assert (frame p (set_state st p1)) as Hf2 by (eapply frame_trans; [exact Hf1|by apply frame_quiet]).
  rewrite (pc_state Hp1). destruct (Z.ltb_spec i (first p1)) as [Hi|Hi]; [apply wp_ret; split; [done|]; split; [by left|done]|].
  destruct (Hflag Hi) as [Hsaved Hnone].
  set (ty := vote_type (cert_vote c)) in *. set (pend := fun j => if decide (j = i) then Some ty else None).
  assert (pend i = Some ty) as Hpi by (unfold pend; by rewrite decide_True).
  assert (slot_of i (set_state st p1) = slot_of i p) as Hslot by apply Hst.
  apply wp_bind. eapply wp_mono; [apply (add_certificate_votes_ok pend); try done| |done].
  - apply pool_core_pend, Hp2.
  - apply Hp2.
  - apply Hp2.
  - rewrite Hslot. fold ty. unfold will_have_cert. rewrite Hsaved. apply orb_true_r.
  - intros idx sig Hin. destruct (co_signers _ _ Hc idx sig Hin) as (? & ? & ?). done.
  - intros u p3 [Hc3 Hs3 Hb3 Hf3 Hsv3 Hfi3 Hce3]. eapply wp_mono; [apply wp_ret_eq, (handle_saved_certificate_good honest limit max_desync S HS Hlim p3 pend)| |done]; try done.
    + intros j Hj. unfold pend. by rewrite decide_False.
    + by right.
    + by rewrite Hfi3.
    + by rewrite Hsv3.
    + by rewrite Hce3, Hslot.
    + intros u' p4 [[[Hok4 Hf4] Hcl] Hret]. split; [|split; [done|]].
      * split; [done|]. eapply frame_trans; [exact Hf2|]. by eapply frame_trans.
      * by rewrite (proj1 (saved_certificate_certs i c p3 u' p4 Hret)), Hsv3.
Qed.

(** ** Start *)

(** A pool that loads the certificates [cs]. *)
Record loadable p (cs : list Certificate) : Prop := {
  ld_ok : ok p;
  ld_saving : saving p = [];
  ld_nodup : NoDup (map cert_key cs);
  ld_certs : forall c, c ∈ cs -> cert_ok S c /\ cert (bundle_get (vote_type (cert_vote c)) (certs (slot_of (referenced_slot (cert_vote c)) p))) = None;
}.
Lemma load_certificates_good cs : forall p, loadable p cs ->
  wp (load_certificates cs) (fun a p' => good p a p' /\ saving p' = [] /\ forall c, c ∈ cs -> closed p' (cert_key c)) no_exn p.
Proof using HS Hlim Session0 SlotLimits0.
  induction cs as [|c cs IH]; intros p [Hp Hsv Hnd Hcs]; cbn [load_certificates].
  { apply wp_ret. split; [done|]. split; [done|]. intros c Hc. by apply elem_of_nil in Hc. }
  cbn in Hnd. apply NoDup_cons in Hnd as [Hni Hnd]. destruct (Hcs c) as [Hc Hnone]; [by constructor|].
  set (i := referenced_slot (cert_vote c)) in *. apply wp_bind, wp_pool_slot_at. intros st Hst. set (p1 := set_state st p).
  assert (ok p1) as Hp1 by (by apply pool_ok_slots). assert (frame p p1) as Hf1 by (by apply frame_quiet).
  assert (forall j, slot_of j p1 = slot_of j p) as Hd by apply Hst. rewrite (pc_state Hp).
  set (m := match _ with None => _ | Some _ => _ end).
  assert (wp m (fun a p2 => (good p a p2 /\ closed p2 (cert_key c)) /\ loadable p2 cs) no_exn p1) as Hm.
  { unfold m. destruct (Z.ltb_spec i (first p)) as [Hi|Hi].
    - apply wp_ret. split; [split; [done|by left]|]. split; try done. intros c' Hc'. rewrite Hd. apply Hcs. by constructor.
    - assert (wp (handle_saved_certificate i c) (fun a p' => good p1 a p' /\ closed p' (cert_key c)) no_exn p1) as Hw.
      { apply (handle_saved_certificate_good honest limit max_desync S HS Hlim p1 (fun _ => None)); try done.
        - apply Hp1.
        - by left.
        - apply Hp1.
        - apply Hp1.
        - rewrite (Hsv : saving p1 = []). cbn. apply not_elem_of_nil.
        - by rewrite Hd. }
      unfold wp in *. destruct (handle_saved_certificate i c p1) as [a p2| |] eqn:Eh; [|done|done].
      destruct (saved_certificate_certs i c p1 a p2 Eh) as [E1 E2]. destruct Hw as [[Hok Hfr] Hcl].
      split; [split; [split; [done|by eapply frame_trans]|done]|]. split; [done|by rewrite E1|done|].
      intros c' Hc'. destruct (Hcs c') as [Hc1 Hc2]; [by constructor|]. split; [done|]. rewrite E2, Hd; [done|].
      intros [= E3 E4]. apply Hni, list_elem_of_fmap. exists c'. split; [|done]. unfold cert_key. by rewrite E3, E4. }
  apply wp_bind. eapply wp_mono; [exact Hm| |done]. intros a p2 [[[Hp2 Hf2] Hcl2] Hload].
  eapply wp_mono; [by apply IH| |done]. intros a' p3 [[Hp3 Hf3] [Hsv3 Hcl3]]. split; [split; [done|by eapply frame_trans]|].
  split; [done|]. intros c' [->|Hc']%elem_of_cons; [by apply (fr_closed _ _ _ Hf3)|by apply Hcl3].
Qed.

Lemma load_votes_good vs : forall p, ok p ->
  wp (load_votes vs) (fun _ p' => exists vs', (forall v, v ∈ vs' -> v ∈ vs) /\
    let q := set_signing (signing p ++ map (fun v => mkOurVote v true true) vs') p in
    ok p' /\ frame q p' /\ saving p' = saving p) no_exn p.
Proof.
  induction vs as [|v vs IH]; intros p Hp; cbn [load_votes].
  { apply wp_ret. exists []. split; [done|]. cbn. rewrite app_nil_r. split; [done|]. split; [by destruct p|done]. }
  apply wp_bind, wp_pool_slot_at. intros st Hst. apply wp_bind.
  assert (ok (set_state st p)) as Hp1 by (by apply pool_ok_slots). destruct (referenced_slot v <? _).
  - apply wp_ret. eapply wp_mono; [by apply IH| |done]. intros u p' (vs' & Hin & Hok & Hf & Hsv). exists vs'.
    split; [intros v' Hv'; constructor; by apply Hin|]. split; [done|]. split; [|done]. eapply frame_trans; [|exact Hf]. by apply frame_quiet.
  - apply wp_modify. set (p1 := set_signing _ _). assert (ok p1) as Hp2 by (by apply (ok_other (set_state st p))).
    eapply wp_mono; [by apply IH| |done]. intros u p' (vs' & Hin & Hok & Hf & Hsv). exists (v :: vs').
    split; [intros v' [->|Hv']%elem_of_cons; constructor; by apply Hin|]. split; [done|]. split; [|done]. eapply frame_trans; [|exact Hf].
    cbn [signing set_signing p1 set_state map]. rewrite <- app_assoc. by apply frame_quiet.
Qed.

(** *** The first slot *)

Lemma new_slot_ok pend i : slot_ok S pend i (new_slot validators).
Proof.
  split; cbn.
  - apply length_replicate.
  - intros idx t ty q [-> _]%lookup_replicate Hq. by destruct ty.
  - by intros [].
  - intros v _ _. replace (weight_for v (new_slot validators)) with 0 by (destruct v; cbn; by rewrite ?lookup_empty).
    destruct (voters v (new_slot validators)) as [|idx l] eqn:E; [done|]. assert (idx ∈ idx :: l) as Hi by constructor.
    rewrite <- E in Hi. unfold voters in Hi. rewrite list_elem_of_filter in Hi. destruct Hi as [Hi _]. unfold voted_for in Hi. cbn in Hi.
    destruct (replicate _ _ !! idx) as [t|] eqn:Et; [|done]. apply lookup_replicate in Et as [-> _]. by destruct v.
Qed.
Definition booted (w desync ban : Z) (st : ConsensusState SlotState) : Pool :=
  set_window w (set_state (update_slot (new_slot validators) (set_base (Some None)) 0 st) (new_pool desync ban)).
Lemma booted_ok w desync ban st :
  same_slots (state_ (new_pool desync ban)) st -> 0 <= desync <= max_desync -> ok (booted w desync ban st).
Proof.
  intros Hst Hd. set (p := booted w desync ban st).
  assert (forall j, slot_of j p = if decide (0 = j) then set_base (Some None) (new_slot validators) else new_slot validators) as Hslot.
  { intros j. unfold slot_of, p, booted. cbn [state_ set_window set_state]. rewrite deref_update, !(proj2 Hst). unfold deref. cbn.
    by rewrite !lookup_empty. }
  assert (forall j, ~ sk p j) as Hsk by (intros j; unfold sk; rewrite Hslot; by case_decide).
  assert (forall j, ~ nt p j) as Hnt by (intros j; unfold nt; rewrite Hslot; by case_decide).
  assert (first p = 0) as Hf by done.
  split; [split; try done|..].
  - apply Hst.
  - intros j. rewrite Hslot. case_decide; [|apply new_slot_ok].
    apply (slot_ok_same S None j (new_slot validators)); [done..|]. apply new_slot_ok.
  - split; [done|]. intros x Hx. cbn in Hx. lia.
  - intros x b Hx. rewrite Hslot. case_decide; [|done]. cbn. intros [= <-]. subst x. split; [cbn; lia|]. split; [done|]. cbn. lia.
  - intros c Hc. by apply elem_of_nil in Hc.
  - constructor.
  - intros e. split; [intros He; by apply elem_of_empty in He|]. intros (_ & Hs & _). by destruct (Hsk (e - 1)).
  - intros x y _ Hy [->|Hn] Hz; [|by destruct (Hnt y)]. rewrite Hslot. destruct (decide (0 = x)) as [|Hx]; [done|].
    destruct (Hsk 0). apply Hz. rewrite Hf in *. lia.
Qed.
Lemma start_up_good w cs vs desync ban :
  0 <= desync <= max_desync -> NoDup (map cert_key cs) -> Forall (cert_ok S) cs ->
  wp (start_up w cs vs) (fun _ p' => exists vs', (forall v, v ∈ vs' -> v ∈ vs) /\ ok p' /\
    signing p' = map (fun v => mkOurVote v true true) vs' /\ chain limit w (announcements (published p')) (first_nonannounced_window_ p') /\
    saving p' = [] /\ forall c, c ∈ cs -> closed p' (cert_key c)) no_exn (new_pool desync ban).
Proof using HS Hlim Session0 SlotLimits0.
  intros Hd Hnd Hcs. unfold start_up. apply wp_bind, wp_get_slot_at; [done|]. intros st Hst.
  apply wp_bind, wp_modify, wp_bind, wp_modify.
  pose proof (booted_ok w desync ban st Hst Hd) as Hp. set (p := booted w desync ban st) in *.
  apply wp_bind. eapply wp_mono; [apply (load_certificates_good cs p)| |done].
  { split; try done. intros c Hc. split; [by apply (proj1 (Forall_forall _ _) Hcs)|]. unfold p, booted, slot_of.
    cbn [state_ set_window set_state]. rewrite deref_update, !(proj2 Hst). unfold deref. cbn. rewrite !lookup_empty.
    by case_decide; destruct (vote_type _). }
  intros u p1 [[Hp1 Hf1] [Hsv1 Hcl1]]. apply wp_bind, wp_modify. set (p2 := set_suppress false p1).
  assert (ok p2) as Hp2 by (by apply (ok_other p1)). eapply wp_mono; [by apply load_votes_good| |done].
  intros u' p3 (vs' & Hin & Hok & Hf & Hsv). exists vs'. split; [done|]. split; [done|]. pose proof (fr_signing _ _ _ Hf1) as E1.
  split; [|split; [|split]].
  - rewrite (fr_signing _ _ _ Hf). cbn. by rewrite E1.
  - destruct (fr_published _ _ _ Hf1) as (ev1 & P1 & C1), (fr_published _ _ _ Hf) as (ev & P & C). rewrite P. cbn [published set_signing p2 set_suppress].
    rewrite P1. unfold announcements. rewrite !omap_app. eapply chain_app; [|exact C]. exact C1.
  - by rewrite Hsv.
  - intros c Hc. by apply (fr_closed _ _ _ Hf), Hcl1.
Qed.
End events.
