(* ===== verification/SimplexVoting.v ===== *)
(** * A validator votes consistently

    The invariant of the consensus actor: its slots record exactly the votes that it has
    cast, it never casts two votes that contradict each other, and it votes only for
    candidates whose parent is settled.  The votes in the database are enough to go on
    after a crash. *)
From S2P Require Import Prelude Simplex SimplexPool SimplexConsensus SimplexNode SimplexQuorum SimplexInvariant.

(** ** Lists of votes that one validator may cast *)

Record well_cast (V : list Vote) : Prop := {
  wc_notarize : forall id id', NotarizeVote id ∈ V -> NotarizeVote id' ∈ V -> id_slot id = id_slot id' -> id = id';
  wc_finalize : forall V1 id V2, V = V1 ++ FinalizeVote id :: V2 -> NotarizeVote id ∈ V1;
  wc_skip : forall id, FinalizeVote id ∈ V -> SkipVote (id_slot id) ∉ V;
  wc_slots : forall v, v ∈ V -> 0 <= referenced_slot v;
}.

Lemma well_cast_nil : well_cast [].
Proof. split; try (intros; by match goal with H : _ ∈ [] |- _ => apply elem_of_nil in H end). by intros [|? ?]. Qed.
Lemma well_cast_prefix V V' : well_cast (V ++ V') -> well_cast V.
Proof.
  intros [H1 H2 H3 H4]. split.
  - intros id id' Hi Hi'. apply H1; apply elem_of_app; by left.
  - intros V1 id V2 ->. apply (H2 V1 id (V2 ++ V')). by rewrite <- app_assoc.
  - intros id Hf Hs. apply (H3 id); apply elem_of_app; by left.
  - intros v Hv. apply H4, elem_of_app. by left.
Qed.
(** The final vote for a block comes after its notarize vote. *)
Lemma well_cast_final V id : well_cast V -> FinalizeVote id ∈ V -> NotarizeVote id ∈ V.
Proof. intros Hw (V1 & V2 & E)%list_elem_of_split. rewrite E. apply elem_of_app. left. by apply (wc_finalize _ Hw V1 id V2). Qed.
Lemma well_cast_compatible V v w : well_cast V -> v ∈ V -> w ∈ V -> compatible v w.
Proof.
  intros Hw Hv Hw' Hs.
  assert (forall id id', NotarizeVote id ∈ V -> NotarizeVote id' ∈ V -> id_slot id = id_slot id' -> Some id = Some id') as He.
  { intros id id' H1 H2 H3. f_equal. by apply (wc_notarize _ Hw). }
  destruct v as [a|a|a] eqn:Ev, w as [b|b|b] eqn:Ew; cbn in Hs |- *; try done.
  all: try (apply He; [by auto using well_cast_final..|done]).
  - apply (wc_skip _ Hw a Hv). congruence.
  - apply (wc_skip _ Hw b Hw'). congruence.
Qed.
(** One more vote. *)
Definition castable (V : list Vote) (v : Vote) : Prop :=
  match v with
  | NotarizeVote id => forall id', NotarizeVote id' ∈ V -> id_slot id' = id_slot id -> id' = id
  | FinalizeVote id => NotarizeVote id ∈ V /\ SkipVote (id_slot id) ∉ V
  | SkipVote i => forall id, FinalizeVote id ∈ V -> id_slot id <> i
  end.
Lemma well_cast_castable V v : well_cast (V ++ [v]) -> castable V v.
Proof.
  intros Hw. assert (v ∈ V ++ [v]) as Hv by (apply elem_of_app; right; by constructor).
  assert (forall x, x ∈ V -> x ∈ V ++ [v]) as Hin by (intros x Hx; apply elem_of_app; by left).
  destruct v as [id|id|i]; cbn.
  - intros id' Hi. by apply (wc_notarize _ Hw); [apply Hin|].
  - split; [by apply (wc_finalize _ Hw V id [])|]. intros Hs. by apply (wc_skip _ Hw id Hv), Hin.
  - intros id Hi <-. by apply (wc_skip _ Hw id (Hin _ Hi)).
Qed.
Lemma well_cast_snoc V v : well_cast V -> 0 <= referenced_slot v -> castable V v -> well_cast (V ++ [v]).
Proof.
  intros Hw H0 Hv. split.
  - intros id id' [Hi|Hi%list_elem_of_singleton]%elem_of_app [Hi'|Hi'%list_elem_of_singleton]%elem_of_app Hs; subst; cbn in *; simplify_eq; try done.
    + by apply (wc_notarize _ Hw).
    + by apply Hv.
    + symmetry. by apply Hv.
  - intros V1 id V2 E. destruct V2 as [|x V3 _] using rev_ind.
    + apply app_inj_tail in E as [-> ->]. apply Hv.
    + rewrite app_comm_cons, app_assoc in E. apply app_inj_tail in E as [-> _]. by apply (wc_finalize _ Hw V1 id V3).
  - intros id [Hi|Hi%list_elem_of_singleton]%elem_of_app [Hi'|Hi'%list_elem_of_singleton]%elem_of_app; subst; cbn in *; simplify_eq; try done.
    + by apply (wc_skip _ Hw id).
    + by apply (Hv id).
    + by apply Hv.
  - intros w [Hi|Hi%list_elem_of_singleton]%elem_of_app; [by apply (wc_slots _ Hw)|by subst].
Qed.
(** A vote that was cast before is not needed a second time. *)
Lemma well_cast_again V1 v V2 : v ∈ V1 -> well_cast (V1 ++ v :: V2) -> well_cast (V1 ++ V2).
Proof.
  intros Hv Hw. assert (forall x, x ∈ V1 ++ V2 -> x ∈ V1 ++ v :: V2) as Hsub by (intros x; rewrite !elem_of_app, elem_of_cons; naive_solver).
  split.
  - intros id id' Hi Hi'. by apply (wc_notarize _ Hw); apply Hsub.
  - intros U1 id U2 E. destruct (app_eq_inv _ _ _ _ E) as [(K & -> & EK)|(K & -> & EK)].
    + destruct K as [|y K]; cbn in EK.
      * subst V2. rewrite app_nil_r in *. pose proof (wc_finalize _ Hw (U1 ++ [v]) id U2) as Hf. rewrite <- app_assoc in Hf.
        specialize (Hf eq_refl). apply elem_of_app in Hf as [Hf|Hf%list_elem_of_singleton]; [done|by rewrite Hf].
      * injection EK as <- ->. apply (wc_finalize _ Hw U1 id (K ++ v :: V2)). by rewrite <- app_assoc.
    + pose proof (wc_finalize _ Hw (V1 ++ v :: K) id U2) as Hf. rewrite <- app_assoc, EK in Hf. specialize (Hf eq_refl).
      rewrite elem_of_app in *. destruct Hf as [Hf|[Hf|Hf]%elem_of_cons]; [by left|left; by rewrite Hf|by right].
  - intros id Hf Hs. by apply (wc_skip _ Hw id); apply Hsub.
  - intros x Hx. by apply (wc_slots _ Hw), Hsub.
Qed.

(** ** The invariant of the actor *)

Section voting.
Context `{Bus} (parent_of : CandidateId -> ParentId) (S : nat -> Vote -> Prop).
Implicit Types (c : Consensus) (V : list Vote).

(** The slots record the votes [V]. *)
Record records c V : Prop := {
  rc_notar : forall i id, voted_notar (vote_state_of i c) = Some id <-> NotarizeVote id ∈ V /\ id_slot id = i;
  rc_final : forall i, voted_final (vote_state_of i c) = true <-> exists id, FinalizeVote id ∈ V /\ id_slot id = i;
  rc_skip : forall i, voted_skip (vote_state_of i c) = true <-> SkipVote i ∈ V;
}.

(** Candidates come with a hash that covers their parent. *)
Definition candidate_ok (cd : Candidate) : Prop :=
  0 <= id_slot (cd_id cd) < 2 ^ 32 /\ match cd_parent cd with Some q => 0 <= id_slot q | None => True end /\
  cd_parent cd = parent_of (cd_id cd).

(** A [try_notarize] of slot [i]. *)
Definition running c (i : Z) (stage : Stage) : Prop :=
  voted_notar (vote_state_of i c) = None /\
  exists cd, pending_block (vote_state_of i c) = Some cd /\ id_slot (cd_id cd) = i /\ candidate_ok cd /\
    (stage <> AwaitParent -> settled S i (cd_parent cd)).

(** [V0] are the votes that the actor has handed over already. *)
Record cons_ok V0 c : Prop := {
  cn_cast : well_cast (V0 ++ votes_of (demands c));
  cn_records : records c (V0 ++ votes_of (demands c));
  cn_settled : forall id, NotarizeVote id ∈ V0 ++ votes_of (demands c) -> settled S (id_slot id) (parent_of id);
  cn_running : forall i stage, notarizing c !! i = Some stage -> running c i stage;
  cn_parents : Forall (fun '(id, parent) => request_ok (mkRequest id parent)) (parents_of (demands c));
}.

Lemma records_set c V V' : (forall v, v ∈ V <-> v ∈ V') -> records c V -> records c V'.
Proof. intros He [H1 H2 H3]. split; intros; rewrite ?H1, ?H2, ?H3; [by rewrite He|by setoid_rewrite He|apply He]. Qed.

(** *** Changes that are not votes *)

Record same_votes c c' : Prop := {
  sm_demands : votes_of (demands c') = votes_of (demands c);
  sm_slots : forall j, voted_notar (vote_state_of j c') = voted_notar (vote_state_of j c) /\
    voted_final (vote_state_of j c') = voted_final (vote_state_of j c) /\ voted_skip (vote_state_of j c') = voted_skip (vote_state_of j c);
}.
Lemma cons_ok_same V0 c c' :
  cons_ok V0 c -> same_votes c c' ->
  (forall i stage, notarizing c' !! i = Some stage -> running c' i stage) ->
  Forall (fun '(id, parent) => request_ok (mkRequest id parent)) (parents_of (demands c')) -> cons_ok V0 c'.
Proof.
  intros [H1 [R1 R2 R3] H3 H4 H5] [Ed Es] Hr Hp. split; rewrite ?Ed; try done.
  split; intros i; destruct (Es i) as (E1 & E2 & E3); rewrite ?E1, ?E2, ?E3; [apply R1|apply R2|apply R3].
Qed.
Lemma running_same c c' i stage :
  voted_notar (vote_state_of i c') = voted_notar (vote_state_of i c) -> pending_block (vote_state_of i c') = pending_block (vote_state_of i c) ->
  running c i stage -> running c' i stage.
Proof. unfold running. by intros -> ->. Qed.

Definition same_states (st st' : ConsensusState VoteState) : Prop := forall j, deref new_vote_state j st' = deref new_vote_state j st.
Lemma cons_ok_view V0 c c' :
  cons_ok V0 c -> demands c' = demands c -> notarizing c' = notarizing c -> same_states (c_state_ c) (c_state_ c') -> cons_ok V0 c'.
Proof.
  intros Hc Ed En Es. assert (forall j, vote_state_of j c' = vote_state_of j c) as Hs by exact Es.
  apply (cons_ok_same V0 c); [done| | |].
  - split; [by rewrite Ed|]. intros j. by rewrite Hs.
  - intros i stage. rewrite En. intros Hi%(cn_running _ _ Hc). apply (running_same c); [by rewrite Hs..|done].
  - rewrite Ed. apply Hc.
Qed.
Lemma wp_c_slot_at_first i (Q : option Z -> Consensus -> Prop) E c :
  (forall st, same_states (c_state_ c) st -> first_non_finalized_slot_ st = first_non_finalized_slot_ (c_state_ c) ->
     Q (if i <? first_non_finalized_slot_ (c_state_ c) then None else Some i) (c_set_state st c)) ->
  wp (c_slot_at i) Q E c.
Proof.
  intros HQ. unfold wp, c_slot_at. pose proof (slot_at_spec new_vote_state i (c_state_ c)) as Hs.
  destruct (slot_at _ i (c_state_ c)) as [r st]. destruct Hs as (-> & Hf & Hd). by apply HQ.
Qed.
Lemma wp_c_slot_at i (Q : option Z -> Consensus -> Prop) E c :
  (forall st, same_states (c_state_ c) st -> Q (if i <? first_non_finalized_slot_ (c_state_ c) then None else Some i) (c_set_state st c)) ->
  wp (c_slot_at i) Q E c.
Proof. intros HQ. apply wp_c_slot_at_first. intros st Hst _. by apply HQ. Qed.

(** *** A vote *)

(** What a slot records of a vote. *)
Definition mark (v : Vote) (s : VoteState) : VoteState :=
  match v with
  | NotarizeVote id => set_voted_notar (Some id) s
  | FinalizeVote _ => set_voted_final true s
  | SkipVote _ => set_voted_skip true s
  end.
Definition may_cast V (v : Vote) : Prop :=
  castable V v /\ match v with NotarizeVote id => settled S (id_slot id) (parent_of id) | _ => True end.
Lemma records_mark c c' V v :
  records c V -> castable V v ->
  (forall j, vote_state_of j c' = if decide (referenced_slot v = j) then mark v (vote_state_of j c) else vote_state_of j c) ->
  records c' (V ++ [v]).
Proof.
  intros [R1 R2 R3] Hm Hd.
  assert (forall x, x ∈ V ++ [v] <-> x ∈ V \/ x = v) as Hin by (intros x; by rewrite elem_of_app, list_elem_of_singleton).
  split.
  - intros j id. rewrite Hd, Hin. destruct v as [w|w|w]; cbn in *; case_decide as Hj; cbn; rewrite ?R1; naive_solver.
  - intros j. rewrite Hd. setoid_rewrite Hin. destruct v as [w|w|w]; cbn in *; case_decide as Hj; cbn; rewrite ?R2; naive_solver.
  - intros j. rewrite Hd, Hin. destruct v as [w|w|w]; cbn in *; case_decide as Hj; cbn; rewrite ?R3; naive_solver.
Qed.
Lemma votes_of_snoc ds v : votes_of (ds ++ [BroadcastVote v]) = votes_of ds ++ [v].
Proof. unfold votes_of. by rewrite omap_app. Qed.
Lemma cast_ok V0 c c' v :
  cons_ok V0 c -> 0 <= referenced_slot v -> may_cast (V0 ++ votes_of (demands c)) v ->
  (forall j, vote_state_of j c' = if decide (referenced_slot v = j) then mark v (vote_state_of j c) else vote_state_of j c) ->
  demands c' = demands c ++ [BroadcastVote v] ->
  (forall i stage, notarizing c' !! i = Some stage -> notarizing c !! i = Some stage /\ (vote_type v = TNotarize -> i <> referenced_slot v)) ->
  cons_ok V0 c'.
Proof.
  intros [H1 H2 H3 H4 H5] Hv0 Hm Hd Ed Hn. split; rewrite ?Ed, ?votes_of_snoc, ?app_assoc.
  - apply well_cast_snoc; [done|done|apply Hm].
  - apply (records_mark c); [done|apply Hm|done].
  - intros id [Hi|Hi%list_elem_of_singleton]%elem_of_app; [by apply H3|]. subst v. apply Hm.
  - intros i stage (Hi & Hne)%Hn. apply H4 in Hi. apply (running_same c); [..|done].
    + rewrite Hd. case_decide as Hj; [|done]. destruct v; cbn; try done. by destruct (Hne eq_refl).
    + rewrite Hd. case_decide as Hj; [|done]. by destruct v.
  - unfold parents_of in *. rewrite omap_app. cbn. by rewrite app_nil_r.
Qed.

(** ** The handlers *)

Lemma vote_state_change i j f c :
  vote_state_of j (c_set_state (update_slot new_vote_state f i (c_state_ c)) c) =
  if decide (i = j) then f (vote_state_of i c) else vote_state_of j c.
Proof. apply deref_update. Qed.

Lemma try_vote_final_ok V0 c i :
  cons_ok V0 c -> voted_notar (vote_state_of i c) <> None \/ notar_cert (vote_state_of i c) <> None ->
  wp (try_vote_final i) (fun _ => cons_ok V0) no_exn c.
Proof.
  intros Hc Hn. unfold try_vote_final. apply wp_bind, wp_gets, wp_bind, wp_assert_ub.
  { destruct (voted_notar _), (notar_cert _); try done. by destruct Hn. }
  set (s := vote_state_of i c) in *. destruct (_ && _) eqn:Eb; [|by apply wp_ret].
  apply andb_true_iff in Eb as [[Hs%negb_true_iff Hf%negb_true_iff]%andb_true_iff He%bool_decide_eq_true].
  destruct (voted_notar s) as [id|] eqn:En; [|rewrite <- He in Hn; by destruct Hn].
  apply wp_bind, wp_ret, wp_bind. unfold demand. apply wp_modify, wp_modify.
  destruct (proj1 (rc_notar _ _ (cn_records _ _ Hc) i id) En) as [Hid Hi].
  apply (cast_ok V0 c _ (FinalizeVote id)); try done.
  - by apply (wc_slots _ (cn_cast _ _ Hc)) in Hid.
  - split; [|done]. split; [done|]. rewrite Hi. intros Hk%(rc_skip _ _ (cn_records _ _ Hc) i). fold s in Hk. congruence.
  - intros j. cbn [referenced_slot]. rewrite Hi. etransitivity; [apply (vote_state_change i j)|]. by case_decide; [subst j|].
Qed.

Lemma c_notarization_observed_ok V0 c id :
  cons_ok V0 c -> wp (c_notarization_observed id) (fun _ => cons_ok V0) no_exn c.
Proof.
  intros Hc. unfold c_notarization_observed. apply wp_bind, wp_c_slot_at. intros st Hst.
  set (c1 := c_set_state st c). assert (cons_ok V0 c1) as Hc1 by (by apply (cons_ok_view V0 c)).
  destruct (_ <? _); [by apply wp_ret|]. set (i := id_slot id). apply wp_bind, wp_gets. cbv zeta. apply wp_bind.
  enough (forall c2, cons_ok V0 c2 -> wp (change_votes i (set_notar_cert (Some id)) ;; try_vote_final i) (fun _ => cons_ok V0) no_exn c2) as Hw.
  { destruct (_ <=? _); [apply wp_modify|apply wp_ret]; apply Hw; [by apply (cons_ok_view V0 c1)|done]. }
  intros c2 Hc2. apply wp_bind, wp_modify. set (c3 := c_set_state _ c2).
  assert (forall j, vote_state_of j c3 = if decide (i = j) then set_notar_cert (Some id) (vote_state_of i c2) else vote_state_of j c2) as Hd
    by (intros j; apply vote_state_change).
  apply try_vote_final_ok; [|right; by rewrite Hd, decide_True]. apply (cons_ok_same V0 c2); [done| | |apply Hc2].
  - split; [done|]. intros j. rewrite Hd. by case_decide; [subst j|].
  - intros j stage Hj%(cn_running _ _ Hc2). apply (running_same c2); [..|done]; rewrite Hd; by case_decide; [subst j|].
Qed.

Lemma cast_skip_ok V0 c c' i :
  cons_ok V0 c -> 0 <= i -> voted_final (vote_state_of i c) = false -> demands c' = demands c ++ [BroadcastVote (SkipVote i)] ->
  notarizing c' = notarizing c -> same_states (update_slot new_vote_state (set_voted_skip true) i (c_state_ c)) (c_state_ c') -> cons_ok V0 c'.
Proof.
  intros Hc Hi Hf Ed En Es. apply (cast_ok V0 c _ (SkipVote i)); try done.
  - split; [|done]. intros id Hid Hs. enough (voted_final (vote_state_of i c) = true) by congruence. apply (rc_final _ _ (cn_records _ _ Hc)). by exists id.
  - intros j. etransitivity; [apply Es|]. etransitivity; [apply (vote_state_change i j)|]. cbn. by case_decide; [subst j|].
  - intros j stage Hj. rewrite En in Hj. done.
Qed.
Lemma vote_skip_ok V0 slots : forall c, cons_ok V0 c -> Forall (fun i => 0 <= i) slots -> wp (vote_skip slots) (fun _ => cons_ok V0) no_exn c.
Proof.
  induction slots as [|i slots IH]; intros c Hc Hs; cbn [vote_skip]; [by apply wp_ret|]. apply Forall_cons_1 in Hs as [Hi Hs].
  apply wp_bind, wp_c_slot_at. intros st Hst. set (c1 := c_set_state st c). assert (cons_ok V0 c1) as Hc1 by (by apply (cons_ok_view V0 c)).
  apply wp_bind. destruct (_ <? _); [apply wp_ret; by apply IH|]. apply wp_bind, wp_gets.
  destruct (voted_final (vote_state_of i c1)) eqn:Ef; [apply wp_ret; by apply IH|].
  apply wp_bind. unfold demand. apply wp_modify, wp_bind, wp_modify, wp_modify. apply IH; [|done]. by apply (cast_skip_ok V0 c1 _ i).
Qed.
Lemma skip_announced_ok V0 slots : forall c, cons_ok V0 c -> Forall (fun i => 0 <= i) slots -> wp (skip_announced slots) (fun _ => cons_ok V0) no_exn c.
Proof.
  induction slots as [|i slots IH]; intros c Hc Hs; cbn [skip_announced]; [by apply wp_ret|]. apply Forall_cons_1 in Hs as [Hi Hs].
  apply wp_bind, wp_c_slot_at. intros st Hst. set (c1 := c_set_state st c). assert (cons_ok V0 c1) as Hc1 by (by apply (cons_ok_view V0 c)).
  apply wp_bind. destruct (_ <? _); [apply wp_ret; by apply IH|]. apply wp_bind, wp_gets.
  destruct (voted_final (vote_state_of i c1)) eqn:Ef; [apply wp_ret; by apply IH|].
  apply wp_bind. unfold demand. apply wp_modify, wp_modify. apply IH; [|done]. by apply (cast_skip_ok V0 c1 _ i).
Qed.
Lemma slots_from_nonneg a b : 0 <= a -> Forall (fun i => 0 <= i) (slots_from a b).
Proof. intros Ha. apply Forall_forall. intros i (k & -> & _)%list_elem_of_fmap. lia. Qed.
Lemma alarm_ok V0 c : cons_ok V0 c -> wp alarm (fun _ => cons_ok V0) no_exn c.
Proof.
  intros Hc. unfold alarm. apply wp_bind, wp_gets. destruct (alarm_set c); [|by apply wp_ret]. cbn [negb]. apply wp_bind, wp_gets. cbv zeta.
  apply wp_bind. eapply wp_mono; [apply vote_skip_ok; [done|apply slots_from_nonneg, Z.mod_pos_bound; lia]| |done].
  intros u c1 Hc1. apply wp_modify. by apply (cons_ok_view V0 c1).
Qed.

Lemma c_leader_window_ok V0 c local start base : cons_ok V0 c -> wp (c_leader_window_observed local start base) (fun _ => cons_ok V0) no_exn c.
Proof.
  intros Hc. unfold c_leader_window_observed. apply wp_bind, wp_modify, wp_bind.
  enough (forall c1, demands c1 = demands c -> notarizing c1 = notarizing c -> c_state_ c1 = c_state_ c ->
    wp (timeout <- gets timeout_slot_;; (if timeout <=? start then modify (set_timeout (wrap_u 32 (start + 1)) true) else ret ()))
      (fun _ => cons_ok V0) no_exn c1) as Hw.
  { destruct (_ =? 0); [|by apply wp_ret, Hw]. apply wp_bind, wp_modify. destruct (_ =? _); [apply wp_modify|apply wp_ret]; by apply Hw. }
  intros c1 E1 E2 E3. assert (cons_ok V0 c1) as Hc1 by (apply (cons_ok_view V0 c); [done..|by rewrite E3]).
  apply wp_bind, wp_gets. destruct (_ <=? _); [apply wp_modify|by apply wp_ret]. by apply (cons_ok_view V0 c1).
Qed.
Lemma generation_resolved_ok V0 c k : cons_ok V0 c -> wp (generation_resolved k) (fun _ => cons_ok V0) no_exn c.
Proof.
  intros Hc. unfold generation_resolved. apply wp_bind, wp_gets. destruct (generating c !! k) as [[base start]|]; [|by apply wp_ret].
  apply wp_bind, wp_modify, wp_bind, wp_gets. destruct (_ =? _); [|apply wp_ret; by apply (cons_ok_view V0 c)].
  unfold demand. apply wp_modify. apply (cons_ok_same V0 c); [done| |apply Hc|].
  - split; [|done]. cbn [demands set_demands]. unfold votes_of. rewrite omap_app. by rewrite app_nil_r.
  - cbn [demands set_demands]. unfold parents_of. rewrite omap_app, app_nil_r. apply Hc.
Qed.

Lemma c_candidate_received_ok V0 c cd : cons_ok V0 c -> candidate_ok cd -> wp (c_candidate_received cd) (fun _ => cons_ok V0) no_exn c.
Proof.
  intros Hc (Hr & Hq & Hp). unfold c_candidate_received. apply wp_bind, wp_gets. cbv zeta. destruct (_ <=? _); [by apply wp_ret|].
  set (i := id_slot (cd_id cd)) in *. apply wp_bind, wp_c_slot_at. intros st Hst. unfold id. set (c1 := c_set_state st c).
  assert (cons_ok V0 c1) as Hc1 by (by apply (cons_ok_view V0 c)). destruct (_ <? _); [by apply wp_ret|]. apply wp_bind, wp_gets.
  destruct (_ || _) eqn:Eb; [by apply wp_ret|]. apply orb_false_iff in Eb as [[Ev Eq]%orb_false_iff _].
  apply wp_bind, wp_modify, wp_bind, wp_modify. unfold demand. apply wp_modify. set (c2 := set_demands _ _).
  assert (forall j, vote_state_of j c2 = if decide (i = j) then set_pending (Some cd) (vote_state_of i c1) else vote_state_of j c1) as Hd
    by (intros j; apply vote_state_change).
  apply (cons_ok_same V0 c1); [done| | |].
  - split; [cbn; unfold votes_of; by rewrite omap_app, app_nil_r|]. intros j. rewrite Hd. by case_decide; [subst j|].
  - intros j stage Hj. cbn in Hj. destruct (decide (i = j)) as [<-|Hne].
    + rewrite lookup_insert_eq in Hj. injection Hj as <-. split; [rewrite Hd, decide_True by done; cbn; by destruct (voted_notar _)|].
      exists cd. rewrite Hd, decide_True by done. repeat split; try done; lia.
    + rewrite lookup_insert_ne in Hj by done. apply (cn_running _ _ Hc1) in Hj.
      apply (running_same c1); [..|done]; by rewrite Hd, decide_False.
  - cbn. unfold parents_of. rewrite omap_app. apply Forall_app. split; [apply Hc1|]. constructor; [|done]. split; [done|]. cbn.
    destruct (cd_parent cd) as [q|]; [|done]. apply Z.leb_gt in Eq. split; [done|]. fold i. lia.
Qed.

(** The coroutine of slot [i] goes on, or ends. *)
Lemma notarize_next_ok V0 c i stage stage' :
  cons_ok V0 c -> notarizing c !! i = Some stage -> (stage = AwaitParent -> running c i stage') ->
  wp (notarize_next i stage') (fun _ => cons_ok V0) no_exn c.
Proof.
  intros Hc Hi Hs. apply wp_modify. apply (cons_ok_same V0 c); [done|done| |apply Hc]. intros j st Hj. cbn in Hj.
  destruct (decide (i = j)) as [<-|Hne]; [|rewrite lookup_insert_ne in Hj by done; by apply (cn_running _ _ Hc)].
  rewrite lookup_insert_eq in Hj. injection Hj as <-. pose proof (cn_running _ _ Hc i stage Hi) as Hrun.
  destruct stage; [by apply Hs|..]; destruct Hrun as (Hn & cd & E1 & E2 & E3 & E4); (split; [done|]; exists cd; do 3 (split; [done|]); intros _; by apply E4).
Qed.
Lemma notarize_end_ok V0 c i : cons_ok V0 c -> wp (notarize_end i) (fun _ => cons_ok V0) no_exn c.
Proof.
  intros Hc. apply wp_modify. apply (cons_ok_same V0 c); [done|done| |apply Hc]. intros j st Hj. cbn in Hj.
  apply lookup_delete_Some in Hj as [_ Hj]. by apply (cn_running _ _ Hc).
Qed.
Lemma parent_resolved_ok V0 c id parent r :
  cons_ok V0 c -> (r = ParentReady -> settled S (id_slot id) parent) -> wp (parent_resolved id parent r) (fun _ => cons_ok V0) no_exn c.
Proof.
  intros Hc Hr. unfold parent_resolved. apply wp_bind, wp_gets. set (i := id_slot id) in *.
  destruct (notarizing c !! i) as [[]|] eqn:En; try (by apply wp_ret).
  destruct (pending_block (vote_state_of i c)) as [cd|] eqn:Ep; [|by apply wp_ret].
  case_bool_decide as Hcd; [|by apply wp_ret]. destruct Hcd as [Hid Hpar]. destruct r as [|m|].
  - eapply notarize_next_ok; [done|done|]. intros _. destruct (cn_running _ _ Hc i _ En) as (Hn & cd' & E1 & E2 & E3 & E4).
    split; [done|]. exists cd'. rewrite Ep in E1. injection E1 as <-. do 3 (split; [done|]).
    intros _. rewrite Hpar. by apply Hr.
  - apply wp_bind. unfold demand. apply wp_modify, notarize_end_ok. apply (cons_ok_same V0 c); [done| |apply Hc|].
    + split; [|done]. cbn. unfold votes_of. by rewrite omap_app, app_nil_r.
    + cbn. unfold parents_of. rewrite omap_app, app_nil_r. apply Hc.
  - by apply notarize_end_ok.
Qed.
Lemma notarize_vote_ok V0 c i cd :
  cons_ok V0 c -> notarizing c !! i = Some AwaitStore -> pending_block (vote_state_of i c) = Some cd ->
  wp (notarize_end i ;; cd <- of_option (pending_block (vote_state_of i c)) ;; change_votes i (set_voted_notar (Some (cd_id cd))) ;;
      demand (BroadcastVote (NotarizeVote (cd_id cd))) ;; try_vote_final i) (fun _ => cons_ok V0) no_exn c.
Proof.
  intros Hc Hn Hp. destruct (cn_running _ _ Hc i _ Hn) as (Hvn & cd' & E1 & E2 & E3 & E4). rewrite Hp in E1. injection E1 as <-.
  apply wp_bind, wp_modify, wp_bind. rewrite Hp. apply wp_ret, wp_bind, wp_modify, wp_bind. unfold demand. apply wp_modify.
  set (c2 := set_demands _ _).
  assert (forall j, vote_state_of j c2 = if decide (i = j) then set_voted_notar (Some (cd_id cd)) (vote_state_of i c) else vote_state_of j c) as Hd
    by (intros j; exact (vote_state_change i j (set_voted_notar (Some (cd_id cd))) c)).
  apply try_vote_final_ok; [|left; by rewrite Hd, decide_True]. destruct E3 as (Er & Eq & Ep).
  apply (cast_ok V0 c _ (NotarizeVote (cd_id cd))); [done|cbn; lia| | |done|].
  - split; [|rewrite <- Ep, E2; by apply E4]. intros id' Hid' Hs. exfalso.
    enough (voted_notar (vote_state_of i c) = Some id') by congruence. apply (rc_notar _ _ (cn_records _ _ Hc)). split; [done|congruence].
  - intros j. rewrite Hd. cbn [referenced_slot]. rewrite E2. by case_decide; [subst j|].
  - intros j st Hj. cbn in Hj. apply lookup_delete_Some in Hj as [Hne Hj]. split; [done|]. intros _. cbn [referenced_slot]. congruence.
Qed.
Lemma notarize_step_ok V0 c i ok : cons_ok V0 c -> wp (notarize_step i ok) (fun _ => cons_ok V0) no_exn c.
Proof.
  intros Hc. unfold notarize_step. apply wp_bind, wp_gets. destruct (notarizing c !! i) as [stage|] eqn:En; [|by apply wp_ret].
  destruct stage eqn:Es; [by apply wp_ret|..]; (destruct ok; [cbn [negb]|by apply notarize_end_ok]);
    try (by eapply notarize_next_ok; [done..|]).
  destruct (cn_running _ _ Hc i _ En) as (_ & cd & Hp & _). by apply (notarize_vote_ok V0 c i cd).
Qed.

(** ** Start *)

Definition quiet c : Prop := demands c = [] /\ notarizing c = ∅ /\ first_non_finalized_slot_ (c_state_ c) = 0.
Lemma records_nil desync : records (new_consensus desync) [].
Proof.
  split; intros; unfold vote_state_of, deref; cbn; rewrite lookup_empty; cbn.
  - split; [done|]. intros [Hi _]. by apply elem_of_nil in Hi.
  - split; [done|]. intros (? & Hi & _). by apply elem_of_nil in Hi.
  - split; [done|]. intros Hi. by apply elem_of_nil in Hi.
Qed.
Lemma load_vote_ok P v c :
  well_cast (P ++ [v]) -> records c P -> quiet c -> wp (load_vote v) (fun _ c' => records c' (P ++ [v]) /\ quiet c') no_exn c.
Proof.
  intros Hw Hr (Q1 & Q2 & Q3). unfold load_vote. apply wp_bind, wp_c_slot_at_first. intros st Hst Hfst. rewrite Q3 in *.
  assert (0 <= referenced_slot v) as H0 by (apply (wc_slots _ Hw), elem_of_app; right; by constructor).
  rewrite (proj2 (Z.ltb_ge _ _)) by done. apply wp_bind, wp_gets. set (c1 := c_set_state st c). set (i := referenced_slot v).
  assert (vote_state_of i c1 = vote_state_of i c) as -> by apply Hst.
  pose proof (well_cast_castable P v Hw) as Hcast. destruct Hr as [R1 R2 R3].
  enough (wp (change_votes i (mark v)) (fun _ c' => records c' (P ++ [v]) /\ quiet c') no_exn c1) as Hmark.
  { destruct v as [id|id|k]; cbn in *.
    - destruct (voted_notar _) as [id'|] eqn:En; [|done]. apply R1 in En as [En Es]. by rewrite (Hcast id' En Es), bool_decide_eq_false_2 by tauto.
    - destruct (voted_skip _) eqn:Es; [by apply R3 in Es; destruct Hcast|]. cbn.
      destruct (voted_notar _) as [id'|] eqn:En; [|done]. apply R1 in En as [En Ei].
      rewrite bool_decide_eq_false_2; [done|]. intros Hne. apply Hne. apply (wc_notarize _ Hw); [..|done]; apply elem_of_app; left; [done|apply Hcast].
    - destruct (voted_final _) eqn:Ef; [|done]. apply R2 in Ef as (id & Hi & Hs). by destruct (Hcast id Hi). }
  apply wp_modify. split; [|done]. apply (records_mark c); [by split|done|]. intros j. etransitivity; [apply (vote_state_change i j)|].
  fold i. case_decide as Hj; [subst j; f_equal|]; apply Hst.
Qed.
Lemma load_own_votes_ok vs : forall P c,
  well_cast (P ++ vs) -> records c P -> quiet c -> wp (load_own_votes vs) (fun _ c' => records c' (P ++ vs) /\ quiet c') no_exn c.
Proof.
  induction vs as [|v vs IH]; intros P c Hw Hr Hq; cbn [load_own_votes]; [rewrite app_nil_r; by apply wp_ret|].
  rewrite cons_middle, app_assoc in *. apply wp_bind. eapply wp_mono; [apply (load_vote_ok P v)| |done]; [by eapply well_cast_prefix|done|done|].
  intros u c1 [Hr1 Hq1]. by apply IH.
Qed.
Lemma c_start_up_ok V desync w :
  well_cast V -> (forall id, NotarizeVote id ∈ V -> settled S (id_slot id) (parent_of id)) ->
  wp (c_start_up w V) (fun _ => cons_ok V) no_exn (new_consensus desync).
Proof.
  intros Hw Hs. unfold c_start_up. apply wp_bind. eapply wp_mono; [apply (load_own_votes_ok V [])| |done]; [done|apply records_nil|done|].
  intros u c1 [Hr (Q1 & Q2 & Q3)]. cbn [app] in Hr. assert (cons_ok V c1) as Hc.
  { split; rewrite ?Q1; cbn; rewrite ?app_nil_r; try done. intros i stage. by rewrite Q2, lookup_empty. }
  destruct (_ =? 0); [by apply wp_ret|]. cbv zeta. apply skip_announced_ok; [done|]. apply slots_from_nonneg, Z.mod_pos_bound. lia.
Qed.
End voting.
