(* ===== verification/SimplexNodeSafe.v ===== *)
(** * A validator keeps its invariant

    The pool, the consensus actor and the database of a validator, and the messages
    between them.  What is in the database is enough to restore the invariant after a
    crash. *)
From S2P Require Import Prelude Simplex SimplexPool SimplexConsensus SimplexNode SimplexQuorum SimplexInvariant SimplexPoolSafe SimplexPoolEvents SimplexVoting.

(** SHA-256 has no collisions. *)
Class CollisionFree `{TlHash} : Prop := tl_hash_inj :: Inj (=) (=) tl_hash.

Section node.
Context `{Bus} `{TlHash} {Hcf : CollisionFree} (honest : gset nat) `{!Session honest} (limit max_desync : Z) `{!SlotLimits limit max_desync}.
Context (parent_of : CandidateId -> ParentId).
Implicit Types (S : nat -> Vote -> Prop) (n : Node).

(** ** The invariant *)

(** What survives a crash: the votes and certificates, and that every vote was saved
    before it was signed. *)
Record db_ok S (d : Db) (signed : list Vote) : Prop := {
  do_cast : well_cast (db_votes d);
  do_settled : forall id, NotarizeVote id ∈ db_votes d -> settled S (id_slot id) (parent_of id);
  do_certs : Forall (cert_ok S) (db_certs d);
  do_keys : NoDup (map cert_key (db_certs d));
  do_signed : forall v, v ∈ signed -> v ∈ db_votes d;
}.
Record node_core S n : Prop := {
  nd_db : db_ok S (n_db n) (signed_votes n);
  nd_saved : forall h, h ∈ saved_votes (n_db n) ->
    (exists v, v ∈ db_votes (n_db n) /\ h = tl_hash (inl v)) \/
    exists c, c ∈ db_certs (n_db n) /\ h = tl_hash (inr c);
  nd_pool : pool_ok honest limit max_desync S (n_pool n);
  nd_published : published (n_pool n) = [];
  nd_signing : forall ov, ov ∈ signing (n_pool n) -> ov_vote ov ∈ db_votes (n_db n);
  nd_windows : chain limit (db_window (n_db n)) (window_queue n) (first_nonannounced_window_ (n_pool n));
  nd_window_queue : Forall (fun '(i, base) => event_ok honest limit S (LeaderWindowObserved i base)) (window_queue n);
  nd_parents : Forall (fun '(id, parent) => request_ok (mkRequest id parent)) (parent_queue n);
  nd_events : Forall (event_ok honest limit S) (events n);
}.
Record node_ok S n : Prop := {
  nd_core :> node_core S n;
  nd_cons : cons_ok parent_of S (db_votes (n_db n) ++ vote_queue n) (n_cons n);
  nd_demands : demands (n_cons n) = [];
  nd_closed : forall c, c ∈ db_certs (n_db n) -> closed (n_pool n) (cert_key c);
  nd_fresh : forall c, c ∈ saving (n_pool n) -> cert_key c ∉ map cert_key (db_certs (n_db n));
}.

(** *** More signatures keep it true *)

Lemma db_ok_mono S S' d signed : (forall i v, S i v -> S' i v) -> db_ok S d signed -> db_ok S' d signed.
Proof.
  intros HS []. split; try done.
  - intros id Hid. by apply (settled_mono S S'), do_settled0.
  - eapply Forall_impl; [done|]. intros c. by apply cert_ok_mono.
Qed.
Lemma cons_ok_mono S S' V c : (forall i v, S i v -> S' i v) -> cons_ok parent_of S V c -> cons_ok parent_of S' V c.
Proof.
  intros HS []. split; try done.
  - intros id Hid. by apply (settled_mono S S'), cn_settled.
  - intros i stage (Hn & cd & E1 & E2 & E3 & E4)%cn_running. split; [done|]. exists cd. do 3 (split; [done|]).
    intros Hs. by apply (settled_mono S S'), E4.
Qed.
Lemma node_ok_mono S S' n : (forall i v, S i v -> S' i v) -> node_ok S n -> node_ok S' n.
Proof.
  intros HS [[] ? ? ? ?]. split; [|by apply (cons_ok_mono S S')|done..]. split; try done.
  - by apply (db_ok_mono S S').
  - by apply (pool_ok_mono honest limit max_desync S S').
  - eapply Forall_impl; [done|]. intros [i base]. by apply event_ok_mono.
  - eapply Forall_impl; [done|]. intros e. by apply event_ok_mono.
Qed.

(** ** Running the actors *)

Context (S : nat -> Vote -> Prop) (HS : consistent honest S)
  (Hlim : forall i v, i ∈ honest -> S i v -> 0 <= referenced_slot v < limit).
#[local] Notation ok := (pool_ok honest limit max_desync S).
#[local] Notation good := (good honest limit max_desync S).
#[local] Notation frame := (frame limit).

Lemma windows_events es :
  Forall (event_ok honest limit S) es -> Forall (fun '(i, base) => event_ok honest limit S (LeaderWindowObserved i base)) (windows_of es).
Proof. induction 1 as [|e es He _ IH]; [constructor|]. destruct e; cbn; try done. by constructor. Qed.
Lemma others_events es : Forall (event_ok honest limit S) es -> Forall (event_ok honest limit S) (others_of es).
Proof. induction 1 as [|e es He _ IH]; [constructor|]. destruct e; cbn; try done; by constructor. Qed.

(** What the pool has done to the node: the pool is [p']. *)
Definition pool_ran n p' n' : Prop :=
  n_pool n' = set_published [] p' /\ n_db n' = n_db n /\ n_cons n' = n_cons n /\
  vote_queue n' = vote_queue n /\ signed_votes n' = signed_votes n.
Lemma on_pool_ok {A} (m : M Pool A) sg n (R : A -> Pool -> Prop) :
  node_core S n -> (forall ov, ov ∈ sg -> ov_vote ov ∈ db_votes (n_db n)) ->
  wp m (fun a p' => good (set_signing sg (n_pool n)) a p' /\ R a p') no_exn (n_pool n) ->
  wp (on_pool m) (fun a n' => node_core S n' /\ exists p', good (set_signing sg (n_pool n)) a p' /\ R a p' /\ pool_ran n p' n') no_exn n.
Proof.
  intros [] Hsg Hm. unfold wp, on_pool in *. assert (set_published [] (n_pool n) = n_pool n) as -> by (rewrite <- nd_published0; by destruct (n_pool n)).
  destruct (m (n_pool n)) as [a p'|? ?|]; [|done|done]. destruct Hm as [[Hok Hf] HR].
  destruct (fr_published _ _ _ Hf) as (ev & Hev & Hch). cbn in Hev. rewrite nd_published0 in Hev. cbn in Hev.
  pose proof (pc_published Hok) as Hpub. rewrite Hev in *. split; [|by exists p'].
  split; try done; cbn.
  - destruct Hok as [Hc Hs Hb]. split; [|done..]. destruct Hc. by split.
  - intros ov. rewrite (fr_signing _ _ _ Hf). apply Hsg.
  - eapply chain_app; [done|exact Hch].
  - apply Forall_app. split; [done|]. by apply windows_events.
  - apply Forall_app. split; [done|]. by apply others_events.
Qed.
(** The database has not changed. *)
Lemma on_pool_good {A} (m : M Pool A) sg n :
  node_ok S n -> (forall ov, ov ∈ sg -> ov_vote ov ∈ db_votes (n_db n)) -> wp m (good (set_signing sg (n_pool n))) no_exn (n_pool n) ->
  wp (on_pool m) (fun _ n' => node_ok S n' /\ signed_votes n' = signed_votes n) no_exn n.
Proof.
  intros [Hn Hc Hd Hcl Hfr] Hsg Hm. eapply wp_mono; [apply (on_pool_ok m sg n (fun _ _ => True)); [done..|]| |done].
  { eapply wp_mono; [exact Hm| |done]. done. }
  intros a n' (Hn' & p' & [Hok Hf] & _ & (E1 & E2 & E3 & E4 & E5)). split; [|done]. split; [done|..]; rewrite ?E1, ?E2, ?E3, ?E4; [done..| |].
  - intros c Hc'. by apply (fr_closed _ _ _ Hf), Hcl.
  - intros c [Hs|Hs]%(fr_saving _ _ _ Hf); [by apply Hfr|]. intros (c' & E & Hc')%list_elem_of_fmap. apply Hs. rewrite E. by apply Hcl.
Qed.
Lemma on_pool_same {A} (m : M Pool A) n :
  node_ok S n -> wp m (good (n_pool n)) no_exn (n_pool n) ->
  wp (on_pool m) (fun _ n' => node_ok S n' /\ signed_votes n' = signed_votes n) no_exn n.
Proof.
  intros Hn Hm. apply (on_pool_good m (signing (n_pool n))); [done|apply Hn|].
  replace (set_signing (signing (n_pool n)) (n_pool n)) with (n_pool n); [done|]. by destruct (n_pool n).
Qed.
Lemma on_cons_ok {A} (m : M Consensus A) n :
  node_core S n -> (forall c, c ∈ db_certs (n_db n) -> closed (n_pool n) (cert_key c)) ->
  (forall c, c ∈ saving (n_pool n) -> cert_key c ∉ map cert_key (db_certs (n_db n))) -> demands (n_cons n) = [] ->
  wp m (fun _ => cons_ok parent_of S (db_votes (n_db n) ++ vote_queue n)) no_exn (n_cons n) ->
  wp (on_cons m) (fun _ n' => node_ok S n' /\ signed_votes n' = signed_votes n) no_exn n.
Proof.
  intros [] Hcl Hfr Hd Hm. unfold wp, on_cons in *. assert (set_demands [] (n_cons n) = n_cons n) as -> by (rewrite <- Hd; by destruct (n_cons n)).
  destruct (m (n_cons n)) as [a c|? ?|]; [|done|done]. split; [|done]. split; try done.
  - split; try done. cbn. apply Forall_app. split; [done|apply Hm].
  - destruct Hm as [C1 C2 C3 C4 C5]. cbn. rewrite app_assoc. split; cbn; rewrite ?app_nil_r; try done. by destruct C2.
Qed.
Lemma on_cons_good {A} (m : M Consensus A) n :
  node_ok S n -> (cons_ok parent_of S (db_votes (n_db n) ++ vote_queue n) (n_cons n) ->
    wp m (fun _ => cons_ok parent_of S (db_votes (n_db n) ++ vote_queue n)) no_exn (n_cons n)) ->
  wp (on_cons m) (fun _ n' => node_ok S n' /\ signed_votes n' = signed_votes n) no_exn n.
Proof. intros [] Hm. apply on_cons_ok; try done. by apply Hm. Qed.

(** ** The events *)

#[local] Notation stays n := (fun _ n' => node_ok S n' /\ signed_votes n' = signed_votes n).

Lemma on_db_wp {A} (m : M Db A) n (Q : A -> Node -> Prop) :
  wp m (fun a d => Q a (set_n_db d n)) no_exn (n_db n) -> wp (on_db m) Q no_exn n.
Proof. unfold wp, on_db. destruct (m (n_db n)); done. Qed.

(** A vote is saved, or was saved before. *)
Lemma vote_saved_ok n v q :
  node_ok S n -> vote_queue n = v :: q ->
  wp (on_db (process_BroadcastVote v)) (fun ok n' => node_ok S n' /\ signed_votes n' = signed_votes n /\ v ∈ db_votes (n_db n'))
    no_exn (set_vote_queue q n).
Proof.
  intros [[] Hcons Hdem Hcl Hfr] Hq. apply on_db_wp. unfold process_BroadcastVote. apply wp_bind, wp_gets. rewrite Hq in *. cbn [n_db set_vote_queue].
  case_bool_decide as Hh.
  - apply wp_ret. assert (v ∈ db_votes (n_db n)) as Hv.
    { apply nd_saved0 in Hh as [(w & Hw & E)|(c & _ & E)]; apply (inj tl_hash) in E; [|done]. by injection E as ->. }
    split; [|by split]. split; [done| |done..]. cbn.
    destruct Hcons as [C1 C2 C3 C4 C5]. rewrite Hdem in C1, C2, C3. cbn in C1, C2, C3. rewrite app_nil_r in C1, C2, C3.
    assert (forall x, x ∈ db_votes (n_db n) ++ v :: q <-> x ∈ db_votes (n_db n) ++ q) as Hin
      by (intros x; rewrite !elem_of_app, elem_of_cons; naive_solver).
    split; rewrite ?Hdem; cbn; rewrite ?app_nil_r; try done.
    + by apply (well_cast_again _ v).
    + by apply (records_set _ (db_votes (n_db n) ++ v :: q)).
    + intros id Hid. by apply C3, Hin.
  - apply wp_bind, wp_modify, wp_ret. split; [|split; [done|cbn; apply elem_of_app; right; by constructor]].
    assert (db_votes (n_db n) ++ v :: q = (db_votes (n_db n) ++ [v]) ++ q) as E by (by rewrite <- app_assoc).
    split; [|cbn; by rewrite <- E|done..]. destruct nd_db0.
    split; try done; cbn.
    + split; cbn; try done.
      * eapply well_cast_prefix. rewrite <- app_assoc. cbn. pose proof (cn_cast _ _ _ _ Hcons) as Hw. rewrite Hdem in Hw. cbn in Hw.
        by rewrite app_nil_r in Hw.
      * intros id Hid. apply (cn_settled _ _ _ _ Hcons). rewrite Hdem. cbn. rewrite app_nil_r, E. apply elem_of_app. by left.
      * intros w Hw. apply elem_of_app. left. by apply do_signed0.
    + intros h [Eh%elem_of_singleton|Hin]%elem_of_union; [subst h; left; exists v; split; [apply elem_of_app; right; by constructor|done]|].
      destruct (nd_saved0 h Hin) as [(w & Hw & ->)|?]; [left; exists w; split; [apply elem_of_app; by left|done]|by right].
    + intros ov Hov. apply elem_of_app. left. by apply nd_signing0.
Qed.
Lemma EvVoteSaved_ok me n : node_ok S n -> wp (node_step me EvVoteSaved) (stays n) no_exn n.
Proof.
  intros Hn. cbn [node_step]. apply wp_bind, wp_gets. destruct (vote_queue n) as [|v q] eqn:Eq; [by apply wp_ret|].
  apply wp_bind, wp_modify, wp_bind. eapply wp_mono; [by apply vote_saved_ok| |done]. intros b n1 (Hn1 & E1 & Hv).
  destruct b; [|by apply wp_ret]. eapply wp_mono; [apply (on_pool_good _ (signing (n_pool n1) ++ [mkOurVote v false false])); [done|..]| |done].
  - intros ov [Hov|Hov%list_elem_of_singleton]%elem_of_app; [by apply (nd_signing _ _ Hn1)|by subst].
  - apply handle_BroadcastVote_good, Hn1.
  - intros u n2 [Hn2 E2]. split; [done|congruence].
Qed.

Lemma EvCertSaved_ok me n k :
  node_ok S n -> wp (node_step me (EvCertSaved k)) (fun _ n' => (node_ok S n' /\ signed_votes n' = signed_votes n) /\
    forall c, saving (n_pool n) !! k = Some c -> c ∈ db_certs (n_db n')) no_exn n.
Proof using HS Hlim Session0 SlotLimits0 Hcf.
  intros Hn. cbn [node_step]. apply wp_bind, wp_gets. destruct (saving (n_pool n) !! k) as [c|] eqn:Ek; [|by apply wp_ret].
  assert (c ∈ saving (n_pool n)) as Hc by (by eapply list_elem_of_lookup_2).
  apply wp_bind, on_db_wp. unfold process_SaveCertificate. apply wp_bind, wp_gets. case_bool_decide as Hh.
  { exfalso. destruct (nd_saved _ _ Hn _ Hh) as [(v & _ & E)|(c' & Hc' & E)]; apply (inj tl_hash) in E; [done|injection E as <-].
    apply (nd_fresh _ _ Hn c Hc), list_elem_of_fmap. by exists c. }
  apply wp_bind, wp_modify, wp_ret. set (n1 := set_n_db _ n). destruct Hn as [[] Hcons Hdem Hcl Hfr].
  destruct (pc_saving nd_pool0 c Hc) as [Hcok _].
  assert (node_core S n1) as Hn1.
  { split; try done; cbn.
    - destruct nd_db0. split; cbn; try done; [apply Forall_app; split; [done|by constructor]|].
      rewrite fmap_app. apply NoDup_app. split; [done|]. split; [|apply NoDup_singleton]. intros x Hx Ex%list_elem_of_singleton.
      subst x. by apply (Hfr c Hc).
    - intros h [Eh%elem_of_singleton|Hin]%elem_of_union; [right; exists c; split; [apply elem_of_app; right; by constructor|done]|].
      destruct (nd_saved0 h Hin) as [?|(c' & Hc' & ->)]; [by left|right; exists c'; split; [apply elem_of_app; by left|done]]. }
  eapply wp_mono; [apply (on_pool_ok (certificate_saved k) (signing (n_pool n1)) n1 (fun _ p' =>
    closed p' (cert_key c) /\ saving p' = delete k (saving (n_pool n))))| |done].
  - done.
  - apply Hn1.
  - replace (set_signing (signing (n_pool n1)) (n_pool n1)) with (n_pool n) by (cbn; by destruct (n_pool n)).
    by apply certificate_saved_good.
  - replace (set_signing (signing (n_pool n1)) (n_pool n1)) with (n_pool n) by (cbn; by destruct (n_pool n)).
    intros a n2 (Hn2 & p' & [Hok Hf] & [Hclc Hsv] & (E1 & E2 & E3 & E4 & E5)). split; [split; [|done]|].
    2:{ intros c0 [= <-]. rewrite E2. cbn. apply elem_of_app. right. by constructor. }
    split; [done|..]; rewrite ?E1, ?E2, ?E3, ?E4; cbn; [done..| |].
    + intros c' [Hc'|Hc'%list_elem_of_singleton]%elem_of_app; [by apply (fr_closed _ _ _ Hf), Hcl|by subst].
    + intros c'. rewrite Hsv. intros Hc'. pose proof (delete_Permutation _ _ _ Ek) as Hperm. rewrite fmap_app, elem_of_app. intros [Hin|Hin].
      * apply (Hfr c'); [rewrite Hperm; by constructor|done].
      * apply list_elem_of_singleton in Hin. pose proof (pc_saving_nodup nd_pool0) as Hnd. rewrite Hperm in Hnd. cbn in Hnd.
        apply NoDup_cons in Hnd as [Hni _]. apply Hni. rewrite <- Hin. apply list_elem_of_fmap. by exists c'.
Qed.

Lemma EvWindowSaved_ok me n : node_ok S n -> wp (node_step me EvWindowSaved) (stays n) no_exn n.
Proof using SlotLimits0.
  intros Hn. cbn [node_step]. apply wp_bind, wp_gets. destruct (window_queue n) as [|[i base] q] eqn:Eq; [by apply wp_ret|].
  destruct Hn as [[] Hcons Hdem Hcl Hfr]. rewrite Eq in *.
  apply wp_bind, wp_modify, wp_bind, on_db_wp. unfold process_LeaderWindowObserved. cbv zeta. apply wp_bind, wp_gets, wp_bind.
  cbn in nd_windows0. destruct nd_windows0 as (Hi & Hw & Hch). apply wp_assert_ub; [by apply Z.leb_le|]. apply wp_modify, wp_modify.
  apply Forall_cons_1 in nd_window_queue0 as [He Hq]. pose proof window_positive. pose proof limit_int.
  assert (wrap_u 32 (i / slots_per_leader_window + 1) = i / slots_per_leader_window + 1) as ->.
  { assert (0 <= i / slots_per_leader_window <= i) by (split; [apply Z.div_pos; lia|apply Z.div_le_upper_bound; nia]). apply Z.mod_small. lia. }
  split; [|done]. split; [|done..]. destruct nd_db0. split; try done. cbn. apply Forall_app. split; [done|by constructor].
Qed.
Lemma EvParentAsked_ok me n k : node_ok S n -> wp (node_step me (EvParentAsked k)) (stays n) no_exn n.
Proof using HS Hlim Session0 SlotLimits0.
  intros Hn. cbn [node_step]. apply wp_bind, wp_gets. destruct (parent_queue n !! k) as [[id parent]|] eqn:Ek; [|by apply wp_ret].
  apply wp_bind, wp_modify. pose proof (nd_parents _ _ Hn) as Hp. pose proof (proj1 (Forall_lookup _ _) Hp k _ Ek) as Hr.
  eapply wp_mono; [apply on_pool_same| |done].
  - destruct Hn as [[] ? ? ? ?]. split; [|done..]. split; try done. by apply Forall_delete.
  - apply process_WaitForParent_good; try done. apply Hn.
  - done.
Qed.
Lemma deliver_ok V c me e : cons_ok parent_of S V c -> event_ok honest limit S e -> wp (deliver me e) (fun _ => cons_ok parent_of S V) no_exn c.
Proof.
  intros Hc He. destruct e as [| |id|id|i base| |id parent r]; cbn [deliver]; try (by apply wp_ret).
  - by apply c_notarization_observed_ok.
  - apply wp_modify. by apply (cons_ok_view _ _ V c).
  - by apply c_leader_window_ok.
  - apply parent_resolved_ok; [done|]. by intros ->.
Qed.

(** A new process reads the database. *)
Lemma read_certificates_ok cs : Forall (cert_ok S) cs -> read_certificates cs = Some cs.
Proof using Session0.
  unfold read_certificates. induction 1 as [|c cs Hc _ IH]; [done|]. cbn. rewrite (from_tl_complete honest S c Hc). cbn. by rewrite IH.
Qed.
Lemma restart_ok n certificates desync ban :
  db_ok S (n_db n) (signed_votes n) -> certificates ≡ₚ db_certs (n_db n) -> 0 <= desync <= max_desync ->
  wp (restart certificates desync ban) (stays n) no_exn n.
Proof using HS Hlim Session0 SlotLimits0.
  intros Hd Hperm Hdes. unfold restart. apply wp_bind, wp_modify, wp_bind, wp_gets. cbn [n_db reload]. set (n0 := mkNode _ _ _ _ _ _ _ _).
  assert (Forall (cert_ok S) certificates) as Hco by (rewrite Hperm; apply Hd).
  apply wp_bind. rewrite (read_certificates_ok certificates Hco). apply wp_ret.
  apply wp_bind. unfold on_pool at 1, wp at 1. cbn [n_pool n0]. change (set_published [] (new_pool desync ban)) with (new_pool desync ban).
  pose proof (start_up_good honest limit max_desync S HS Hlim (db_window (n_db n)) certificates (db_votes (n_db n)) desync ban Hdes) as Hst.
  assert (NoDup (map cert_key certificates)) as Hnd by (rewrite Hperm; apply Hd).
  specialize (Hst Hnd Hco). unfold wp in Hst.
  destruct (start_up _ _ _ _) as [u p'|? ?|]; [|done|done]. destruct Hst as (vs' & Hin & Hok & Hsg & Hch & Hsv & Hcl).
  pose proof (pc_published Hok) as Hpub. set (n1 := mkNode _ _ _ _ _ _ _ _).
  pose proof (c_start_up_ok parent_of S (db_votes (n_db n)) desync (db_window (n_db n)) (do_cast _ _ _ Hd) (do_settled _ _ _ Hd)) as Hcs.
  eapply wp_mono; [apply (on_cons_ok (c_start_up (db_window (n_db n)) (db_votes (n_db n))) n1)| |done].
  - split; try done.
    + destruct Hd. by split.
    + cbn. intros h [Hh|Hh]%elem_of_union; apply elem_of_list_to_set, list_elem_of_fmap in Hh as (x & -> & Hx); [left; by exists x|right; by exists x].
    + destruct Hok as [Hc1 Hs Hb]. split; [|done..]. destruct Hc1. by split.
    + cbn. rewrite Hsg. intros ov (v & -> & Hv)%list_elem_of_fmap. by apply Hin.
    + by apply windows_events.
    + by apply others_events.
  - cbn. intros c Hc. apply Hcl. by rewrite Hperm.
  - cbn. rewrite Hsv. intros c Hc. by apply elem_of_nil in Hc.
  - done.
  - cbn. rewrite app_nil_r. exact Hcs.
  - done.
Qed.

(** *** One event *)

(** What the environment promises: signatures that verify were made by their validators,
    the keyring signs (votes below the limit), candidates come with their parents, the parameters stay within
    their limits, and a restart finds the certificates of the database. *)
Definition admissible (me : nat) n (e : NodeEvent) : Prop :=
  match e with
  | EvMessage _ source msg => message_ok S source msg
  | EvParams desync _ => 0 <= desync <= max_desync
  | EvSigned k sig => forall ov, signing (n_pool n) !! k = Some ov -> check_signature me (ov_vote ov) sig = true /\ referenced_slot (ov_vote ov) < limit
  | EvCandidate cd => candidate_ok parent_of cd
  | EvRestart certificates desync _ => certificates ≡ₚ db_certs (n_db n) /\ 0 <= desync <= max_desync
  | _ => True
  end.
(** The votes that the keyring has signed after [e]. *)
Definition signs n (e : NodeEvent) : list Vote :=
  match e with
  | EvSigned k _ => match signing (n_pool n) !! k with Some ov => ov_vote ov :: signed_votes n | None => signed_votes n end
  | _ => signed_votes n
  end.

Lemma signs_saved n e v : node_core S n -> v ∈ signs n e -> v ∈ db_votes (n_db n).
Proof.
  intros Hn. destruct e; try apply (do_signed _ _ _ (nd_db _ _ Hn)). cbn. destruct (_ !! k) as [ov|] eqn:Ek; [|apply (do_signed _ _ _ (nd_db _ _ Hn))].
  intros [->|Hv]%elem_of_cons; [apply (nd_signing _ _ Hn); by eapply list_elem_of_lookup_2|by apply (do_signed _ _ _ (nd_db _ _ Hn))].
Qed.
Lemma EvSigned_ok me n k sig :
  node_ok S n -> me ∈ honest -> (me < validators)%nat -> admissible me n (EvSigned k sig) -> (forall v, v ∈ signs n (EvSigned k sig) -> S me v) ->
  wp (node_step me (EvSigned k sig)) (fun _ n' => node_ok S n' /\ signed_votes n' = signs n (EvSigned k sig)) no_exn n.
Proof using HS Hlim Session0 SlotLimits0.
  intros Hn Hme Hval Hadm Hsigns. cbn [node_step signs] in *. apply wp_bind, wp_gets, wp_bind. destruct (signing (n_pool n) !! k) as [ov|] eqn:Ek.
  - destruct (Hadm ov Ek) as [Hck _]. assert (S me (ov_vote ov)) as HSv by (apply Hsigns; by constructor). apply wp_modify. set (n1 := set_signed _ n).
    assert (node_ok S n1) as Hn1.
    { pose proof (nd_signing _ _ Hn) as Hsg. destruct Hn as [[] ? ? ? ?]. split; [|done..]. split; try done. destruct nd_db0. split; try done.
      intros v [->|Hv]%elem_of_cons; [apply Hsg; by eapply list_elem_of_lookup_2|by apply do_signed0]. }
    eapply wp_mono; [apply (on_pool_good _ (delete k (signing (n_pool n1)))); [done|..]| |done].
    + intros ov' Hov. apply (nd_signing _ _ Hn). rewrite (delete_Permutation _ _ _ Ek). by constructor.
    + eapply our_vote_signed_good; try done. apply Hn1.
    + intros u n2 [Hn2 E2]. split; [done|by rewrite E2].
  - apply wp_ret, on_pool_same; [done|]. unfold our_vote_signed. apply wp_bind, wp_gets. rewrite Ek. apply wp_ret. split; [apply Hn|apply frame_refl].
Qed.

Lemma node_step_ok me n e :
  node_ok S n -> me ∈ honest -> (me < validators)%nat -> admissible me n e -> (forall v, v ∈ signs n e -> S me v) ->
  wp (node_step me e) (fun _ n' => node_ok S n' /\ signed_votes n' = signs n e) no_exn n.
Proof using HS Hlim Session0 SlotLimits0 Hcf.
  intros Hn Hme Hval Hadm Hsigns. pose proof (nd_pool _ _ Hn) as Hp. destruct e as [|t source msg|desync bans|k sig| |k| |k|k|cd|slot b|k| |slot|slot b checked|cs desync bans].
  - apply on_pool_same; [done|]. by apply handle_Start_good.
  - apply on_pool_same; [done|]. by apply handle_message_good.
  - cbn [node_step signs]. apply wp_bind. eapply wp_mono; [apply on_pool_same; [done|by apply handle_params_good]| |done]. intros u n1 [Hn1 E1].
    eapply wp_mono; [apply on_cons_good; [done|]| |done].
    + intros Hc. apply wp_modify. by apply (cons_ok_view _ _ _ (n_cons n1)).
    + intros u' n2 [Hn2 E2]. split; [done|congruence].
  - by apply EvSigned_ok.
  - by apply EvVoteSaved_ok.
  - eapply wp_mono; [by apply EvCertSaved_ok| |done]. by intros u n' [? _].
  - by apply EvWindowSaved_ok.
  - by apply EvParentAsked_ok.
  - cbn [node_step signs]. apply wp_bind, wp_gets. destruct (events n !! k) as [e|] eqn:Ee; [|by apply wp_ret].
    apply on_cons_good; [done|]. intros Hc. apply deliver_ok; [done|]. by apply (proj1 (Forall_lookup _ _) (nd_events _ _ Hn) k).
  - apply on_cons_good; [done|]. intros Hc. by apply c_candidate_received_ok.
  - apply on_cons_good; [done|]. intros Hc. by apply notarize_step_ok.
  - apply on_cons_good; [done|]. intros Hc. by apply generation_resolved_ok.
  - apply on_cons_good; [done|]. intros Hc. by apply alarm_ok.
  - cbn [node_step signs]. apply wp_bind, wp_gets. unfold tracked_slots_interval. cbv beta iota zeta. destruct (_ && _) eqn:Eb; [|by apply wp_ret].
    apply andb_true_iff in Eb as [Eb%Z.leb_le _]. apply wp_bind. eapply wp_mono; [apply on_pool_same; [done|]| |done].
    + eapply wp_mono; [apply (standstill_slot_good honest limit max_desync S); [done|done|by rewrite <- (pc_state Hp)]| |done]. by intros l p' [? _].
    + intros l n' Hn'. by apply wp_ret.
  - cbn [node_step signs]. apply wp_bind. eapply wp_mono; [apply on_pool_same; [done|by apply precheck_good]| |done]. intros r n' Hn'. by apply wp_ret.
  - destruct Hadm as [Hperm Hd]. apply restart_ok; [apply Hn|done|done].
Qed.
End node.
