(* ===== verification/SimplexNetwork.v ===== *)
(** * A network of validators

    The validators of [honest] run the code of SimplexNode.v; the others send whatever
    they can.  [net_step] lets one honest validator handle one event; messages may be lost,
    delayed, repeated or made up by Byzantine validators, but signatures cannot be forged;
    a validator may crash and restart at any time.  The theorems hold in every state that
    such a network can reach. *)
From stdpp Require Import functions.
From S2P Require Import Prelude Simplex SimplexPool SimplexConsensus SimplexNode SimplexQuorum SimplexInvariant SimplexPoolSafe SimplexPoolEvents SimplexVoting SimplexNodeSafe.

Notation Net := (nat -> Node).

Section network.
Context `{Bus} `{TlHash} (honest : gset nat) (limit max_desync : Z) (parent_of : CandidateId -> ParentId).
Implicit Types net : Net.

(** Who has signed what: Byzantine validators may sign anything. *)
Definition signed_by net (i : nat) (v : Vote) : Prop := i ∉ honest \/ v ∈ signed_votes (net i).

(** The honest validators have started on empty databases. *)
Definition booted_net net : Prop := forall i, i ∈ honest ->
  exists desync bans, 0 <= desync <= max_desync /\ node_step i (EvRestart [] desync bans) blank_node = Ret tt (net i).
Definition allowed net (i : nat) (e : NodeEvent) : Prop := admissible limit max_desync parent_of (signed_by net) i (net i) e.
Inductive net_step net : Net -> Prop :=
| node_steps i e n' : i ∈ honest -> allowed net i e -> node_step i e (net i) = Ret tt n' -> net_step net (<[i := n']> net).
Definition reachable net : Prop := exists net0, booted_net net0 /\ rtc net_step net0 net.

Context {Hcf : CollisionFree} `{!Session honest} `{!SlotLimits limit max_desync}.

(** ** The invariant *)

Record net_ok net : Prop := {
  nt_node : forall i, i ∈ honest -> node_ok honest limit max_desync parent_of (signed_by net) (net i);
  nt_limit : forall i v, i ∈ honest -> v ∈ signed_votes (net i) -> referenced_slot v < limit;
}.

Lemma net_cast net i (V : list Vote) : net_ok net -> i ∈ honest -> (forall v, v ∈ V -> v ∈ db_votes (n_db (net i))) ->
  forall v w, v ∈ V -> w ∈ V -> compatible v w.
Proof.
  intros Hn Hi HV v w Hv Hw. eapply well_cast_compatible; [|by apply HV|by apply HV]. apply (do_cast _ _ _ _ (nd_db _ _ _ _ _ _ (nt_node _ Hn i Hi))).
Qed.
Lemma net_saved net i v : net_ok net -> i ∈ honest -> v ∈ signed_votes (net i) -> v ∈ db_votes (n_db (net i)).
Proof. intros Hn Hi. apply (do_signed _ _ _ _ (nd_db _ _ _ _ _ _ (nt_node _ Hn i Hi))). Qed.
Lemma net_consistent net : net_ok net -> consistent honest (signed_by net).
Proof.
  intros Hn i v w Hi [?|Hv] [?|Hw]; try done. apply (net_cast net i (signed_votes (net i))); try done. intros x. by apply net_saved.
Qed.
Lemma net_limit net i v : net_ok net -> i ∈ honest -> signed_by net i v -> 0 <= referenced_slot v < limit.
Proof.
  intros Hn Hi [?|Hv]; [done|]. split; [|by apply (nt_limit _ Hn i)].
  apply (wc_slots _ (do_cast _ _ _ _ (nd_db _ _ _ _ _ _ (nt_node _ Hn i Hi)))). by apply net_saved.
Qed.
Lemma net_extending net : net_ok net -> extending honest parent_of (signed_by net).
Proof.
  intros Hn i v id Hi [?|Hv] Hid; [done|]. pose proof (nd_db _ _ _ _ _ _ (nt_node _ Hn i Hi)) as Hd. apply (do_settled _ _ _ _ Hd).
  apply (net_saved net i v Hn Hi) in Hv. destruct v as [w|w|k]; cbn in Hid; simplify_eq; [done|]. apply well_cast_final; [apply Hd|done].
Qed.

(** An event, with the votes that it signs. *)
Definition after net i e : nat -> Vote -> Prop := fun j v => j ∉ honest \/ v ∈ if decide (j = i) then signs (net i) e else signed_votes (net j).
Lemma after_more net i e j v : signed_by net j v -> after net i e j v.
Proof.
  intros [?|Hv]; [by left|right]. case_decide as Hj; [|done]. subst j. destruct e; try done. cbn. destruct (_ !! k); [by constructor|done].
Qed.
Lemma after_consistent net i e : net_ok net -> i ∈ honest -> consistent honest (after net i e).
Proof.
  intros Hn Hi j v w Hj [?|Hv] [?|Hw]; try done.
  apply (net_cast net j (if decide (j = i) then signs (net i) e else signed_votes (net j))); try done.
  intros x. case_decide as Hji; [subst j|by apply net_saved]. apply (signs_saved honest limit max_desync parent_of (signed_by net)), (nt_node _ Hn i Hi).
Qed.
Lemma after_limit net i e j v : net_ok net -> i ∈ honest -> allowed net i e -> j ∈ honest -> after net i e j v -> 0 <= referenced_slot v < limit.
Proof.
  intros Hn Hi Ha Hj [?|Hv]; [done|]. case_decide as Hji; [subst j|apply (net_limit net j); [done|done|by right]]. split.
  - apply (wc_slots _ (do_cast _ _ _ _ (nd_db _ _ _ _ _ _ (nt_node _ Hn i Hi)))).
    eapply signs_saved; [apply (nt_node _ Hn i Hi)|exact Hv].
  - destruct e; try (by apply (nt_limit _ Hn i)). cbn in *. destruct (_ !! k) as [ov|]; [|by apply (nt_limit _ Hn i)].
    apply elem_of_cons in Hv as [->|Hv]; [by apply Ha|by apply (nt_limit _ Hn i)].
Qed.
Lemma admissible_more S S' i n e :
  (forall j v, S j v -> S' j v) -> admissible limit max_desync parent_of S i n e -> admissible limit max_desync parent_of S' i n e.
Proof.
  intros HS. destruct e; try done. cbn. intros [Hs Hm]. split; [done|]. destruct msg; [by auto|by eauto|done].
Qed.

Lemma net_step_ok net i e :
  net_ok net -> i ∈ honest -> allowed net i e ->
  exists n', node_step i e (net i) = Ret tt n' /\ net_ok (<[i := n']> net).
Proof using Hcf Session0 SlotLimits0.
  intros Hn Hi Ha. set (S := after net i e). pose proof (after_more net i e) as Hmore.
  assert (forall j, j ∈ honest -> node_ok honest limit max_desync parent_of S (net j)) as Hok.
  { intros j Hj. by apply (node_ok_mono _ _ _ _ (signed_by net)), (nt_node _ Hn). }
  assert (wp (node_step i e) (fun _ n' => node_ok honest limit max_desync parent_of S n' /\ signed_votes n' = signs (net i) e) no_exn (net i)) as Hw.
  { apply (node_step_ok honest limit max_desync parent_of S (after_consistent net i e Hn Hi)
      (fun j v => after_limit net i e j v Hn Hi Ha)); [by apply Hok|done|by apply honest_members| |].
    - by apply (admissible_more (signed_by net)).
    - intros v Hv. right. by rewrite decide_True. }
  unfold wp in Hw. destruct (node_step i e (net i)) as [[] n'|? ?|]; [|done|done]. destruct Hw as [Hn' Es]. exists n'. split; [done|].
  assert (forall j, signed_votes (<[i := n']> net j) = if decide (j = i) then signs (net i) e else signed_votes (net j)) as Hsv.
  { intros j. destruct (decide (j = i)) as [->|]; [by rewrite fn_lookup_insert|by rewrite fn_lookup_insert_ne]. }
  assert (forall j v, S j v -> signed_by (<[i := n']> net) j v) as Hto by (intros j v; unfold signed_by; by rewrite Hsv).
  split.
  - intros j Hj. apply (node_ok_mono _ _ _ _ S); [done|]. destruct (decide (j = i)) as [->|]; [by rewrite fn_lookup_insert|].
    rewrite fn_lookup_insert_ne by done. by apply Hok.
  - intros j v Hj. rewrite Hsv. intros Hv. apply (after_limit net i e j); try done. by right.
Qed.
Lemma booted_net_ok net : booted_net net -> net_ok net.
Proof using Hcf Session0 SlotLimits0.
  intros Hb. set (S0 := fun (i : nat) (_ : Vote) => i ∉ honest).
  assert (forall i, i ∈ honest -> node_ok honest limit max_desync parent_of S0 (net i) /\ signed_votes (net i) = []) as Hi.
  { intros i Hi. destruct (Hb i Hi) as (desync & bans & Hd & Hr).
    assert (wp (restart [] desync bans) (fun _ n' => node_ok honest limit max_desync parent_of S0 n' /\ signed_votes n' = []) no_exn blank_node) as Hw.
    { apply (restart_ok honest limit max_desync parent_of S0); [|..|done|done].
      - intros j v w Hj HSj. by destruct (HSj Hj).
      - intros j v Hj HSj. by destruct (HSj Hj).
      - split; cbn; [apply well_cast_nil|intros id Hid; by apply elem_of_nil in Hid|constructor|constructor|done]. }
    unfold wp in Hw. cbn [node_step] in Hr. rewrite Hr in Hw. exact Hw. }
  split.
  - intros i Hh. apply (node_ok_mono _ _ _ _ S0); [by left|by apply Hi].
  - intros i v Hh. destruct (Hi i Hh) as [_ ->]. intros Hv. by apply elem_of_nil in Hv.
Qed.
Lemma reachable_ok net : reachable net -> net_ok net.
Proof using Hcf Session0 SlotLimits0.
  intros (net0 & Hb & Hr). apply booted_net_ok in Hb. induction Hr as [net|net1 net2 net3 Hs _ IH]; [done|]. apply IH. clear IH.
  destruct Hs as [i e n' Hi Ha Hst]. destruct (net_step_ok net1 i e Hb Hi Ha) as (n2 & E & Hok). congruence.
Qed.

(** What the events of an honest validator say is true. *)
Lemma event_true net i e : reachable net -> i ∈ honest -> e ∈ events (net i) -> event_ok honest limit (signed_by net) e.
Proof using Hcf Session0 SlotLimits0.
  intros Hr Hi He. eapply Forall_forall; [|exact He]. by apply (nd_events _ _ _ _ _ _ (nt_node _ (reachable_ok net Hr) i Hi)).
Qed.
(** Signatures are never taken back. *)
Lemma signed_more net net' : net_ok net -> rtc net_step net net' -> net_ok net' /\ forall i v, signed_by net i v -> signed_by net' i v.
Proof using Hcf Session0 SlotLimits0.
  intros Hn Hr. induction Hr as [net|net1 net2 net3 Hs _ IH]; [done|]. destruct Hs as [i e n' Hi Ha Hst].
  destruct (net_step_ok net1 i e Hn Hi Ha) as (n2 & E & Hok). rewrite E in Hst. injection Hst as ->. destruct (IH Hok) as [IH1 IH2].
  split; [done|]. intros j v Hv. apply IH2. apply (after_more net1 i e) in Hv as [?|Hv]; [by left|right].
  assert (signed_votes n' = signs (net1 i) e) as Es.
  { assert (wp (node_step i e) (fun _ n' => signed_votes n' = signs (net1 i) e) no_exn (net1 i)) as Hw.
    { eapply wp_mono; [apply (node_step_ok honest limit max_desync parent_of _ (after_consistent net1 i e Hn Hi)
        (fun j v => after_limit net1 i e j v Hn Hi Ha)); [|done|by apply honest_members|..]| |done].
      - apply (node_ok_mono _ _ _ _ (signed_by net1)); [intros ? ?; apply after_more|by apply (nt_node _ Hn)].
      - apply (admissible_more (signed_by net1)); [intros ? ?; apply after_more|done].
      - intros w Hw. right. by rewrite decide_True.
      - by intros u n2 [_ ?]. }
    unfold wp in Hw. by rewrite E in Hw. }
  destruct (decide (j = i)) as [->|]; [by rewrite fn_lookup_insert, Es|by rewrite fn_lookup_insert_ne].
Qed.
(** A candidate that contradicts certificates is never certified. *)
Lemma contradicted_never net id : net_ok net -> contradicted (signed_by net) id (parent_of id) ->
  ~ certified (signed_by net) (NotarizeVote id) /\ ~ certified (signed_by net) (FinalizeVote id).
Proof using Hcf Session0 SlotLimits0.
  intros Hn Hc. pose proof (net_consistent net Hn) as HS. pose proof (certified_compatible honest (signed_by net)) as Hcomp.
  assert (forall w b v c, certified (signed_by net) w -> certified (signed_by net) v -> vote_id w = Some b -> vote_id v = Some c -> id_slot b = id_slot c -> b = c) as Hsame.
  { intros w b v c Hw Hv E1 E2 Es. specialize (Hcomp w v HS Hw Hv). destruct w, v; cbn in E1, E2; simplify_eq; cbn in Hcomp; by injection (Hcomp Es). }
  assert (forall b, block_certified (signed_by net) b -> exists w, certified (signed_by net) w /\ vote_id w = Some b) as Hbc.
  { intros b [Hb|Hb]; by eexists. }
  enough (forall v, certified (signed_by net) v -> vote_id v = Some id -> False) as Hno by (split; intros Hv; by eapply Hno).
  intros v Hv Hid. destruct (certified_honest honest (signed_by net) v Hv) as (i & Hi & Hs).
  destruct (net_extending net Hn i v id Hi Hs Hid) as (Hsl & Hpar & Hskip).
  destruct Hc as [(b & Hne & Hb & (w & Hw & Ew)%Hbc)|[(f & Hf & Hcf')|(b & q & Ep & Hne & Hb & (w & Hw & Ew)%Hbc)]].
  - apply Hne. by apply (Hsame w b v id).
  - specialize (Hskip (id_slot f) Hf). by apply (Hcomp _ _ HS Hcf' Hskip).
  - rewrite Ep in Hpar. destruct (Hbc q Hpar) as (w' & Hw' & Ew'). apply Hne. by apply (Hsame w b w' q).
Qed.

(** ** The theorems *)

(** C1: agreement on a chain.  Whatever the Byzantine validators send, a block that one
    honest validator has seen finalized is an ancestor of every block, at its slot or
    later, that any honest validator has seen notarized or finalized. *)
Theorem finalized_chain net i j a b :
  reachable net -> i ∈ honest -> j ∈ honest -> FinalizationObserved a ∈ events (net i) ->
  NotarizationObserved b ∈ events (net j) \/ FinalizationObserved b ∈ events (net j) -> id_slot a <= id_slot b ->
  descends parent_of b a.
Proof using Hcf Session0 SlotLimits0.
  intros Hr Hi Hj Ha Hb Hle. pose proof (reachable_ok net Hr) as Hn. apply (event_true net i _ Hr Hi) in Ha. cbn in Ha.
  apply (finalized_prefix honest parent_of (signed_by net)); try done.
  - by apply net_consistent.
  - by apply net_extending.
  - destruct (certified_honest honest _ _ Ha) as (k & Hk & Hs). by apply (net_limit net k _ Hn Hk Hs).
  - destruct Hb as [Hb|Hb]; apply (event_true net j _ Hr Hj) in Hb; [by left|by right].
Qed.

(** C7: no failed [CHECK], no exception, no endless loop: whatever an honest validator
    receives, its handler returns. *)
Theorem handlers_return net i e :
  reachable net -> i ∈ honest -> allowed net i e -> exists n', node_step i e (net i) = Ret tt n' /\ reachable (<[i := n']> net).
Proof using Hcf Session0 SlotLimits0.
  intros Hr Hi Ha. destruct (net_step_ok net i e (reachable_ok net Hr) Hi Ha) as (n' & E & _). exists n'. split; [done|].
  destruct Hr as (net0 & Hb & Hs). exists net0. split; [done|]. eapply rtc_r; [exact Hs|]. by econstructor.
Qed.

(** C8: an honest validator never signs two votes that contradict each other, also when
    it crashes and restarts in between, and it saves a vote before it signs it. *)
Theorem honest_votes net i v w :
  reachable net -> i ∈ honest -> v ∈ signed_votes (net i) -> w ∈ signed_votes (net i) ->
  compatible v w /\ v ∈ db_votes (n_db (net i)).
Proof using Hcf Session0 SlotLimits0.
  intros Hr%reachable_ok Hi Hv Hw. split; [apply (net_consistent net Hr i); [done|by right|by right]|by apply net_saved].
Qed.

(** C9: the certificates that honest validators keep do not contradict each other, and
    every validator accepts them. *)
Theorem certificates_agree net i j ty ty' slot c d :
  reachable net -> i ∈ honest -> j ∈ honest ->
  cert (bundle_get ty (certs (slot_of slot (n_pool (net i))))) = Some c ->
  cert (bundle_get ty' (certs (slot_of slot (n_pool (net j))))) = Some d ->
  compatible (cert_vote c) (cert_vote d) /\ referenced_slot (cert_vote c) = slot /\
  certificate_from_tl (cert_vote c) (signatures c) = Some c.
Proof using Hcf Session0 SlotLimits0.
  intros Hr%reachable_ok Hi Hj Hc Hd.
  destruct (so_certs (pc_slots (nd_pool _ _ _ _ _ _ (nt_node _ Hr i Hi)) slot) ty c Hc) as (_ & Hs & Hok).
  destruct (so_certs (pc_slots (nd_pool _ _ _ _ _ _ (nt_node _ Hr j Hj)) slot) ty' d Hd) as (_ & _ & Hok').
  split; [|split; [done|by apply (from_tl_complete honest (signed_by net))]].
  apply (certified_compatible honest (signed_by net)); [by apply net_consistent|by apply cert_ok_certified..].
Qed.

(** Only Byzantine validators are reported for conflicting votes. *)
Theorem reports_are_true net i idx m : reachable net -> i ∈ honest -> MisbehaviorReport idx m ∈ events (net i) -> idx ∉ honest.
Proof using Hcf Session0 SlotLimits0. intros Hr Hi He. by apply (event_true net i _ Hr Hi) in He. Qed.

(** C19: when the pool answers a request for a candidate's parent with success, the parent
    is certified (or the genesis) and all slots between are skipped; when it reports
    misbehaviour, the candidate is never notarized nor finalized, now or later. *)
Theorem parent_answers net i id parent r net' :
  reachable net -> i ∈ honest -> RequestResolved id parent r ∈ events (net i) -> rtc net_step net net' ->
  match r with
  | ParentReady => settled (signed_by net) (id_slot id) parent
  | ParentMisbehavior _ => parent = parent_of id ->
      ~ certified (signed_by net') (NotarizeVote id) /\ ~ certified (signed_by net') (FinalizeVote id)
  | SlotFinalized => True
  end.
Proof using Hcf Session0 SlotLimits0.
  intros Hr Hi He Hs. pose proof (event_true net i _ Hr Hi He) as Hok. destruct r as [|m|]; [done| |done]. intros ->.
  destruct (signed_more net net' (reachable_ok net Hr) Hs) as [Hn' Hmore]. apply contradicted_never; [done|].
  exact (event_ok_mono honest limit _ _ (RequestResolved id (parent_of id) (ParentMisbehavior m)) Hmore Hok).
Qed.

(** C21: the base of an announced leader window is settled: a block for its first slot may
    extend it. *)
Theorem windows_are_settled net i slot base :
  reachable net -> i ∈ honest -> LeaderWindowObserved slot base ∈ events (net i) -> settled (signed_by net) slot base.
Proof using Hcf Session0 SlotLimits0. intros Hr Hi He. by apply (event_true net i _ Hr Hi) in He as [_ He]. Qed.
End network.
