(* ===== verification/SimplexProgress.v ===== *)
(** * Progress

    A quorum of votes makes a certificate: when the last vote that was missing arrives,
    the certificate is formed, and once the database has saved it the slot has it.  The
    present is the first slot without a certificate. *)
From stdpp Require Import functions.
From S2P Require Import Prelude Simplex SimplexPool SimplexConsensus SimplexNode SimplexQuorum SimplexInvariant SimplexPoolSafe SimplexPoolEvents SimplexVoting SimplexNodeSafe SimplexNetwork.

(** A certificate for [v] is on its way to the database. *)
Definition pending_at (k : nat) (v : Vote) (p : Pool) : Prop := exists c, saving p !! k = Some c /\ cert_vote c = v.

Section pool.
Context `{Bus} (honest : gset nat) `{!Session honest} (limit max_desync : Z) `{!SlotLimits limit max_desync}.
Context (S : nat -> Vote -> Prop) (HS : consistent honest S)
  (Hlim : forall i v, i ∈ honest -> S i v -> 0 <= referenced_slot v < limit).
Implicit Types p : Pool.
#[local] Notation ok := (pool_ok honest limit max_desync S).

(** The vote [v] of [idx] does not contradict the votes in the slot that [idx] has cast before, nor replaces one. *)
Definition no_conflict (s : SlotState) (idx : nat) (v : Vote) (sig : Signature) : Prop := forall t, votes s !! idx = Some t ->
  fst (add_vote (proven_signed (mkSigned idx v sig)) t) = is_applied true.
(** The vote [v] of [idx] completes a quorum.  An honest validator does not contradict itself. *)
Record completes p (idx : nat) (v : Vote) (sig : Signature) : Prop := {
  cm_fair : idx ∈ honest \/ no_conflict (slot_of (referenced_slot v) p) idx v sig;
  cm_slot : first p <= referenced_slot v;
  cm_new : voted_for v (slot_of (referenced_slot v) p) idx = false;
  cm_missing : will_have_cert (vote_type v) (slot_of (referenced_slot v) p) = false;
  cm_weight : weight_threshold <= weigh (voters v (slot_of (referenced_slot v) p)) + weight idx;
}.
Lemma completes_slots p st idx v sig : same_slots (state_ p) st -> completes p idx v sig -> completes (set_state st p) idx v sig.
Proof. intros Hst []. assert (slot_of (referenced_slot v) (set_state st p) = slot_of (referenced_slot v) p) as E by apply Hst. by split; rewrite ?E. Qed.

(** The vote is counted: an honest validator has not voted differently. *)
Lemma completes_stored p idx v sig t :
  ok p -> S idx v -> completes p idx v sig -> votes (slot_of (referenced_slot v) p) !! idx = Some t ->
  stored_vote (vote_type v) t = None.
Proof using HS.
  intros Hp HSv [Hidx _ Hn _ _] Ht. destruct Hidx as [Hidx|Hc].
  2: { specialize (Hc t Ht). unfold add_vote in Hc. cbn [proven_signed pv_vote sg_vote] in Hc. destruct (stored_vote (vote_type v) t); [|done].
       by destruct (bool_decide _). } destruct (stored_vote (vote_type v) t) as [q|] eqn:Eq; [|done]. exfalso.
  destruct (so_votes (pc_slots Hp _) idx t _ q Ht Eq) as (H1 & H2 & H3 & _). unfold voted_for in Hn. rewrite Ht, Eq in Hn.
  apply bool_decide_eq_false in Hn. apply Hn. pose proof (HS idx _ _ Hidx H3 HSv H2) as Hc.
  destruct (pv_vote q), v; try done; cbn in *; congruence.
Qed.

Lemma handle_certificate_pending p c :
  first_non_finalized_slot_ (state_ p) <= referenced_slot (cert_vote c) -> needs (cert_vote c) (certs (slot_of (referenced_slot (cert_vote c)) p)) = true ->
  wp (handle_certificate c) (fun _ p' => pending_at (length (saving p)) (cert_vote c) p') no_exn p.
Proof.
  intros Hf Hneeds. unfold handle_certificate. apply wp_bind, wp_pool_slot_at. intros st Hst.
  rewrite (proj2 (Z.ltb_ge _ _)) by done. apply wp_bind, wp_gets.
  assert (slot_of (referenced_slot (cert_vote c)) (set_state st p) = slot_of (referenced_slot (cert_vote c)) p) as -> by apply Hst.
  rewrite Hneeds. cbn [negb]. unfold remember_prospective. rewrite Hneeds. apply wp_bind, wp_ret, wp_bind, wp_modify, wp_modify.
  exists c. split; [|done]. cbn. by apply list_lookup_middle.
Qed.

Lemma handle_vote_pending p local idx v sig tolerate :
  ok p -> vote_message_ok S idx v sig -> completes p idx v sig ->
  wp (handle_vote local idx (mkSigned idx v sig) tolerate) (fun _ p' => pending_at (length (saving p)) v p') no_exn p.
Proof using HS Hlim Session0 SlotLimits0.
  intros Hp (Hval & Hck & HSv) Hcomp. unfold handle_vote. cbn [sg_vote]. set (i := referenced_slot v).
  apply wp_bind, wp_pool_slot_at. intros st Hst. set (p1 := set_state st p). assert (ok p1) as Hp1 by (by apply pool_ok_slots).
  pose proof (completes_slots p st idx v sig Hst Hcomp) as Hcomp1. fold p1 in Hcomp1. destruct (Hcomp1) as [Hfair Hsl Hnew Hmiss Hwt]. fold i in Hfair, Hsl, Hnew, Hmiss, Hwt.
  rewrite (pc_state Hp), (proj2 (Z.ltb_ge _ _)) by done. apply wp_bind, wp_gets.
  set (s := slot_of i p1) in *. pose proof (pc_slots Hp1 i) as Hs. fold s in Hs. apply wp_bind.
  destruct (lookup_lt_is_Some_2 (votes s) idx) as [t Ht]; [by rewrite (so_length Hs)|]. rewrite Ht. apply wp_ret.
  pose proof (completes_stored p1 idx v sig t Hp1 HSv Hcomp1 Ht) as Hnone.
  pose proof (add_vote_spec honest S HS idx i (proven_signed (mkSigned idx v sig)) t (tally_of S i s idx t Hs Ht) HSv eq_refl) as Ha.
  assert (exists t', add_vote (proven_signed (mkSigned idx v sig)) t = (is_applied true, t')) as [t' Eadd].
  { destruct Hfair as [Hidx|Hc].
    - unfold add_vote in *. cbn [proven_signed pv_vote sg_vote] in *. rewrite Hnone in *. destruct (check_invariants _); [by destruct Ha|by eexists].
    - specialize (Hc t Ht). destruct (add_vote _ t) as [r t']. cbn in Hc. subst r. by exists t'. }
  rewrite Eadd in *. destruct Ha as [_ ->]. apply wp_bind, wp_modify, wp_bind. unfold handle_typed_vote. apply wp_bind, wp_modify, wp_bind, wp_gets.
  pose proof (voted_slot_ok honest limit max_desync S HS Hlim i s idx t (mkSigned idx v sig) Hs Ht Hnone eq_refl HSv eq_refl Hck) as Hs'. cbn [sg_vote] in Hs'.
  set (s' := add_weight v _ _) in Hs'. set (p2 := set_state _ _).
  assert (slot_of i p2 = s') as Hslot by (unfold p2; by rewrite slot_of_change, decide_True, slot_of_change, decide_True).
  rewrite Hslot. destruct (add_weight_rest v (weight idx) (set_votes (<[idx := store_vote (vote_type v) (proven_signed (mkSigned idx v sig)) t]> (votes s)) s))
    as (_ & Ec & _). fold s' in Ec.
  assert (will_have_cert (vote_type v) s' = false) as Hmiss' by (unfold will_have_cert in *; by rewrite Ec).
  assert (weight_threshold <= weight_for v s') as Hwt'.
  { unfold s'. rewrite weight_for_add, decide_True by done. change (weight_for v (set_votes _ s)) with (weight_for v s).
    rewrite (so_weights Hs v eq_refl Hmiss). unfold wrap_u. rewrite Z.mod_small; [done|].
    by apply (voters_weight honest limit max_desync S HS Hlim i s v idx Hs Hval). }
  rewrite Hmiss', (proj2 (Z.leb_le _ _)) by done. cbn [negb andb].
  destruct (create_cert_ok S v i s' Hs' eq_refl Hmiss' Hwt') as (c & -> & <- & _). apply wp_bind, wp_ret.
  eapply wp_mono; [apply handle_certificate_pending| |done].
  - cbn. rewrite (proj1 Hst), (pc_state Hp). done.
  - fold i. rewrite Hslot. unfold needs. apply orb_false_iff in Hmiss' as [-> ->]. done.
  - intros u p3 Hpend. by apply wp_ret.
Qed.

(** The message with the vote. *)
Lemma message_pending p local t idx v sig :
  ok p -> message_ok S idx (tl_vote v sig) -> check_signature idx v sig = true -> completes p idx v sig ->
  referenced_slot v < first_too_new_slot p -> bad_signature_bans_ p !! idx = None ->
  wp (handle_IncomingProtocolMessage local t idx (tl_vote v sig)) (fun _ p' => pending_at (length (saving p)) v p') no_exn p.
Proof using HS Hlim Session0 SlotLimits0.
  intros Hp [Hval HSv] Hck Hcomp Hnew Hban. specialize (HSv Hck). unfold handle_IncomingProtocolMessage. apply wp_bind. unfold is_banned.
  apply wp_bind, wp_gets. rewrite Hban. apply wp_ret. pose proof window_positive. apply wp_bind, wp_assert_ub; [by rewrite (proj2 (Z.eqb_neq _ _)) by lia|].
  unfold handle_incoming_vote. apply wp_bind, wp_gets, wp_bind, wp_gets. fold (first p).
  rewrite (proj2 (Z.leb_gt _ _)), (proj2 (Z.ltb_ge _ _)) by (done || apply Hcomp). cbn [orb].
  apply wp_bind, wp_get_slot_at; [rewrite (pc_state Hp); apply Hcomp|]. intros st Hst. apply wp_bind, wp_gets, wp_bind. set (p1 := set_state st p).
  assert (ok p1) as Hp1 by (by apply pool_ok_slots). pose proof (completes_slots p st idx v sig Hst Hcomp) as Hcomp1. fold p1 in Hcomp1.
  destruct (lookup_lt_is_Some_2 (votes (slot_of (referenced_slot v) p1)) idx) as [tz Ht]; [by rewrite (so_length (pc_slots Hp1 _))|].
  rewrite Ht. apply wp_ret. unfold wants. rewrite (completes_stored p1 idx v sig tz Hp1 HSv Hcomp1 Ht). cbn [negb]. unfold signed_from_tl. rewrite Hck.
  apply wp_bind. eapply wp_mono; [apply handle_vote_pending; try done; by repeat split| |done]. intros b p2 Hpend. by apply wp_ret.
Qed.

(** The present after [advance_present]. *)
Record advances p p' : Prop := {
  ad_forward : now_ p <= now_ p';
  ad_passed : forall z, now_ p <= z < now_ p' -> nt p z \/ sk p z;
  ad_stops : ~ nt p (now_ p') /\ ~ sk p (now_ p');
  ad_announced : now_ p' / slots_per_leader_window < first_nonannounced_window_ p';
  ad_window : first_nonannounced_window_ p <= now_ p' / slots_per_leader_window ->
    exists base, published p' = published p ++ [LeaderWindowObserved (now_ p') base] /\ settled S (now_ p') base;
}.
Lemma advance_present_exact p :
  ok p -> is_started_ p = true ->
  wp advance_present (fun _ => advances p) no_exn p.
Proof using HS Hlim Session0 SlotLimits0.
  intros Hp Hst. pose proof (ok_now_limit honest limit max_desync S HS Hlim p Hp). destruct (pc_now Hp) as [Hn1 Hn2].
  eapply wp_advance_present; try done.
  - apply (pc_slots Hp).
  - by rewrite (pc_state Hp).
  - intros n Hn _ Hz Hsk. destruct (last_base p n) as (y & Hy & Hyn & Hys); [lia| |by apply (po_base Hp n y)].
    intros z Hr. destruct (decide (z < now_ p)); [apply Hn2; lia|apply Hz; lia].
  - intros n st win ev Hss Hn Hz Hev Hex. destruct (Hex Hst) as (Hnt & Hsk & Hw). split; cbn; [lia|done|done|done|].
    intros Hfw. destruct Hev as [[_ ->]|(base & -> & _ & _ & Hb)]; [lia|]. exists base. split; [done|]. destruct Hb as [[-> ->]|Hb].
    + split; [cbn; lia|]. split; [done|]. cbn. lia.
    + apply (pc_settled Hp); [lia|done].
Qed.
End pool.

(** ** In a network *)

Section network.
Context `{Bus} `{TlHash} (honest : gset nat) (limit max_desync : Z) (parent_of : CandidateId -> ParentId).
Context {Hcf : CollisionFree} `{!Session honest} `{!SlotLimits limit max_desync}.
#[local] Notation reachable := (reachable honest limit max_desync parent_of).

Lemma net_pool net i : reachable net -> i ∈ honest -> pool_ok honest limit max_desync (signed_by honest net) (n_pool (net i)).
Proof using Hcf Session0 SlotLimits0.
  intros Hr Hi. exact (nd_pool _ _ _ _ _ _ (nt_node _ _ _ _ _ (reachable_ok honest limit max_desync parent_of net Hr) i Hi)).
Qed.
Lemma on_pool_run {A} (m : M Pool A) n Q : published (n_pool n) = [] -> wp m Q no_exn (n_pool n) ->
  exists a p' n', on_pool m n = Ret a n' /\ Q a p' /\ n_pool n' = set_published [] p'.
Proof.
  intros Hp Hm. unfold on_pool, wp in *. assert (set_published [] (n_pool n) = n_pool n) as -> by (rewrite <- Hp; by destruct (n_pool n)).
  destruct (m (n_pool n)) as [a p'|? ?|]; [|done|done]. by eexists a, p', _.
Qed.

(** C20: a quorum makes a certificate.  An honest validator receives, with a valid signature, the vote of any validator,
    honest or Byzantine, that completes a quorum, for a slot that is neither finalized nor too far ahead; the sender is
    not banned, and when it is Byzantine the vote does not contradict its votes that the receiver has counted for the slot.  Then the certificate
    goes to the database, and when this has saved it the slot has the certificate (or has been finalized). *)
Theorem quorum_makes_certificate net i idx v sig t :
  reachable net -> i ∈ honest -> (idx < validators)%nat -> signed_by honest net idx v -> check_signature idx v sig = true ->
  completes honest (n_pool (net i)) idx v sig -> referenced_slot v < first_too_new_slot (n_pool (net i)) ->
  bad_signature_bans_ (n_pool (net i)) !! idx = None ->
  exists n1 k n2, node_step i (EvMessage t idx (tl_vote v sig)) (net i) = Ret tt n1 /\ pending_at k v (n_pool n1) /\
    node_step i (EvCertSaved k) n1 = Ret tt n2 /\ closed (n_pool n2) (referenced_slot v, vote_type v).
Proof using Hcf Session0 SlotLimits0.
  intros Hr Hi Hval Hv Hck Hcomp Hnew Hban. pose proof (reachable_ok honest limit max_desync parent_of net Hr) as Hn.
  set (e := EvMessage t idx (tl_vote v sig)).
  assert (allowed honest limit max_desync parent_of net i e) as Ha by (by split).
  destruct (net_step_ok honest limit max_desync parent_of net i e Hn Hi Ha) as (n1 & E1 & Hn1).
  destruct (on_pool_run (handle_IncomingProtocolMessage i t idx (tl_vote v sig)) (net i) (fun _ p' => pending_at (length (saving (n_pool (net i)))) v p'))
    as (u & p' & n' & E & (c & Hk & Hcv) & Ep).
  - apply (nd_published _ _ _ _ _ _ (nt_node _ _ _ _ _ Hn i Hi)).
  - apply (message_pending honest limit max_desync (signed_by honest net)); try done.
    + by apply (net_consistent honest limit max_desync parent_of).
    + intros j w Hj. by apply (net_limit honest limit max_desync parent_of).
    + by apply net_pool.
  - cbn [node_step e] in E1. rewrite E1 in E. injection E as _ <-. set (k := length (saving (n_pool (net i)))) in *.
    assert (saving (n_pool n1) !! k = Some c) as Hk1 by (by rewrite Ep).
    pose proof (nt_node _ _ _ _ _ Hn1 i Hi) as Hok. rewrite fn_lookup_insert in Hok.
    assert (wp (node_step i (EvCertSaved k)) (fun _ n2 => closed (n_pool n2) (cert_key c)) no_exn n1) as Hw.
    { eapply wp_mono; [apply (EvCertSaved_ok honest limit max_desync parent_of (signed_by honest (<[i := n1]> net))); [..|exact Hok]| |done].
      - by apply (net_consistent honest limit max_desync parent_of).
      - intros j w Hj. by apply (net_limit honest limit max_desync parent_of).
      - intros u2 n2 [[Hn2 _] Hc]. by apply (nd_closed _ _ _ _ _ _ Hn2), Hc. }
    unfold wp in Hw. destruct (node_step i (EvCertSaved k) n1) as [[] n2|? ?|] eqn:E2; [|done|done].
    exists n1, k, n2. split; [done|]. split; [by exists c|]. split; [done|]. by rewrite <- Hcv.
Qed.

(** The present.  When a started validator advances, its present becomes the first slot
    from there on that is neither notarized nor skipped; a window that it enters is
    announced, with a settled base. *)
Theorem present_is_exact net i :
  reachable net -> i ∈ honest -> is_started_ (n_pool (net i)) = true ->
  exists p', advance_present (n_pool (net i)) = Ret tt p' /\ advances (signed_by honest net) (n_pool (net i)) p'.
Proof using Hcf Session0 SlotLimits0.
  intros Hr Hi Hst. pose proof (reachable_ok honest limit max_desync parent_of net Hr) as Hn.
  pose proof (advance_present_exact honest limit max_desync (signed_by honest net)
    (net_consistent honest limit max_desync parent_of net Hn) (fun j w => net_limit honest limit max_desync parent_of net j w Hn)
    (n_pool (net i)) (net_pool net i Hr Hi) Hst) as Hw.
  unfold wp in Hw. destruct (advance_present (n_pool (net i))) as [[] p'|? ?|]; [|done|done]. by exists p'.
Qed.
End network.
