(* ===== verification/SimplexExample.v ===== *)
(** * A session with four validators

    Four validators of equal weight, one of them Byzantine, windows of two slots.  A run
    in which the honest ones notarize and finalize a block of slot 0 and notarize a block
    of slot 1 shows that the hypotheses of the theorems on networks can hold. *)
From stdpp Require Import functions.
From S2P Require Import Prelude Simplex SimplexPool SimplexConsensus SimplexNode SimplexQuorum SimplexInvariant SimplexPoolSafe SimplexPoolEvents SimplexVoting SimplexNodeSafe SimplexNetwork SimplexProgress.

Definition demo_signature (i : nat) : Signature := match Byte.of_nat i with Some b => [b] | None => [] end.
Definition demo_bus : Bus := {|
  validator_set := [1; 1; 1; 1];
  slots_per_leader_window := 2;
  check_signature := fun i _ sig => bool_decide (sig = demo_signature i);
|}.
Definition demo_honest : gset nat := {[0; 1; 2]}%nat.
Definition demo_limit : Z := 1000.
Definition demo_desync : Z := 10.

(** An injective encoding in place of the hash. *)
#[export] Instance byte_countable : Countable Byte.byte.
Proof. apply (inj_countable Byte.to_N Byte.of_N). intros b. apply Byte.of_to_N. Defined.
#[export] Instance Vote_countable : Countable Vote.
Proof.
  apply (inj_countable'
    (fun v => match v with NotarizeVote id => inl (inl id) | FinalizeVote id => inl (inr id) | SkipVote i => inr i end)
    (fun x => match x with inl (inl id) => NotarizeVote id | inl (inr id) => FinalizeVote id | inr i => SkipVote i end)).
  by intros [].
Defined.
#[export] Instance Certificate_countable : Countable Certificate.
Proof. apply (inj_countable' (fun c => (cert_vote c, signatures c)) (fun p => mkCertificate p.1 p.2)). by intros []. Defined.
Definition demo_hash : TlHash := fun x => Zpos (encode x).

#[local] Existing Instances demo_bus demo_hash.

#[local] Instance demo_collision_free : CollisionFree.
Proof. intros x y Hxy. unfold tl_hash, demo_hash in Hxy. injection Hxy. apply encode_inj. Qed.
#[local] Instance demo_session : Session demo_honest.
Proof.
  split.
  - unfold demo_honest. intros i Hi. assert (i = 0 \/ i = 1 \/ i = 2)%nat as Hc by set_solver. unfold validators. cbn. lia.
  - repeat constructor; lia.
  - vm_compute. discriminate.
  - vm_compute. discriminate.
Qed.
#[local] Instance demo_limits : SlotLimits demo_limit demo_desync.
Proof. split; vm_compute; try done; split; done. Qed.

(** ** The blocks *)

Definition block0 : CandidateId := mkCandidateId 0 100.
Definition block1 : CandidateId := mkCandidateId 1 101.
Definition demo_parent (id : CandidateId) : ParentId := if bool_decide (id = block1) then Some block0 else None.
Definition candidate0 : Candidate := mkCandidate block0 None 0.
Definition candidate1 : Candidate := mkCandidate block1 (Some block0) 0.
Definition candidate2 : Candidate := mkCandidate (mkCandidateId 2 102) None 1.

(** ** Running a script *)

#[export] Instance Candidate_eq_dec : EqDecision Candidate.
Proof. solve_decision. Defined.

Definition signed_byb (net : nat -> Node) (i : nat) (v : Vote) : bool :=
  bool_decide (i ∉ demo_honest) || bool_decide (v ∈ signed_votes (net i)).
Definition allowedb (net : nat -> Node) (i : nat) (e : NodeEvent) : bool :=
  match e with
  | EvMessage _ source msg =>
      (source <? validators)%nat &&
      match msg with
      | tl_vote v _ => signed_byb net source v
      | tl_certificate v sigs => forallb (fun '(idx, _) => signed_byb net idx v) sigs
      | tl_other => true
      end
  | EvSigned k sig =>
      match signing (n_pool (net i)) !! k with
      | Some ov => check_signature i (ov_vote ov) sig && (referenced_slot (ov_vote ov) <? demo_limit)
      | None => true
      end
  | EvCandidate cd => bool_decide (cd ∈ [candidate0; candidate1; candidate2])
  | EvParams _ _ => false
  | EvRestart certificates desync _ => bool_decide (certificates = db_certs (n_db (net i))) && (0 <=? desync) && (desync <=? demo_desync)
  | _ => true
  end.

Definition run_event (me : nat) (e : NodeEvent) (net : nat -> Node) : option (nat -> Node) :=
  if bool_decide (me ∈ demo_honest) && allowedb net me e then
    match node_step me e (net me) with Ret _ n' => Some (<[me := n']> net) | _ => None end
  else None.
Fixpoint run_script (script : list (nat * NodeEvent)) (net : nat -> Node) : option (nat -> Node) :=
  match script with
  | [] => Some net
  | (i, e) :: script' => match run_event i e net with Some net' => run_script script' net' | None => None end
  end.

Definition each (es : list NodeEvent) : list (nat * NodeEvent) := flat_map (fun i => map (pair i) es) [0; 1; 2]%nat.
(** The vote [v] of every honest validator reaches every other one. *)
Definition exchange (v : Vote) : list (nat * NodeEvent) :=
  flat_map (fun dst => flat_map (fun src =>
    if (src =? dst)%nat then [] else [(dst, EvMessage 0 src (tl_vote v (demo_signature src)))]) [0; 1; 2]%nat) [0; 1; 2]%nat.
(** The database saves the next vote, and the keyring signs it. *)
Definition sign : list (nat * NodeEvent) := flat_map (fun i => [(i, EvVoteSaved); (i, EvSigned 0 (demo_signature i))]) [0; 1; 2]%nat.
Definition notarize (cd : Candidate) (answer : nat) : list (nat * NodeEvent) :=
  let i := id_slot (cd_id cd) in
  each [EvCandidate cd; EvParentAsked 0; EvDelivered answer; EvNotarize i true; EvNotarize i true; EvNotarize i true; EvNotarize i true] ++
  sign ++ exchange (NotarizeVote (cd_id cd)) ++ each [EvCertSaved 0].

Definition demo_start : nat -> Node := fun i =>
  match node_step i (EvRestart [] 1 1) blank_node with Ret _ n => n | _ => blank_node end.
(** A candidate of slot 2 that goes past the finalized block, votes of the Byzantine
    validator that contradict each other, and a crash. *)
Definition demo_certificate (v : Vote) : Certificate := mkCertificate v (map (fun i => (i, demo_signature i)) [0; 1; 2]%nat).
Definition trouble : list (nat * NodeEvent) :=
  [(0, EvCandidate candidate2); (0, EvParentAsked 0); (0, EvMessage 0 3 (tl_vote (SkipVote 2) (demo_signature 3)));
   (0, EvMessage 0 3 (tl_vote (FinalizeVote (mkCandidateId 2 102)) (demo_signature 3)));
   (2, EvRestart (map demo_certificate [NotarizeVote block0; FinalizeVote block0; NotarizeVote block1]) 1 1); (2, EvStart)]%nat.
Definition demo_script : list (nat * NodeEvent) :=
  each [EvStart; EvWindowSaved; EvDelivered 0] ++ notarize candidate0 1 ++
  each [EvDelivered 4] ++ sign ++ exchange (FinalizeVote block0) ++ each [EvCertSaved 0; EvDelivered 7] ++
  notarize candidate1 8 ++ trouble.
Definition demo_net : nat -> Node := default demo_start (run_script demo_script demo_start).

#[local] Notation demo_reachable := (reachable demo_honest demo_limit demo_desync demo_parent).

Lemma allowedb_spec net i e : allowedb net i e = true -> allowed demo_honest demo_limit demo_desync demo_parent net i e.
Proof.
  assert (forall j v, signed_byb net j v = true -> signed_by demo_honest net j v) as Hs
    by (intros j v [Hj%bool_decide_eq_true|Hj%bool_decide_eq_true]%orb_true_iff; [by left|by right]).
  unfold allowed. destruct e as [|t source msg| |k sig| | | | | |cd| | | | | |cs desync bans]; cbn [allowedb admissible]; try done.
  - intros [Hv%Nat.ltb_lt Hm]%andb_true_iff. split; [done|]. destruct msg as [v sig|v sigs|]; [by auto| |done].
    intros idx sig Hin _. rewrite forallb_forall in Hm. apply Hs, (Hm (idx, sig)). by apply list_elem_of_In.
  - intros Hk ov E. rewrite E in Hk. apply andb_true_iff in Hk as [? ?%Z.ltb_lt]. done.
  - intros Hcd%bool_decide_eq_true. rewrite !elem_of_cons in Hcd. destruct Hcd as [->|[->|[->|Hcd]]]; [done..|by apply elem_of_nil in Hcd].
  - intros [[->%bool_decide_eq_true ?%Z.leb_le]%andb_true_iff ?%Z.leb_le]%andb_true_iff. done.
Qed.
Lemma run_steps script : forall net net', run_script script net = Some net' -> rtc (net_step demo_honest demo_limit demo_desync demo_parent) net net'.
Proof.
  induction script as [|[i e] script IH]; intros net net' Hr; cbn in Hr; [injection Hr as ->; apply rtc_refl|].
  unfold run_event in Hr. destruct (bool_decide _ && _) eqn:Eb; [|done]. apply andb_true_iff in Eb as [Hi%bool_decide_eq_true Ha%allowedb_spec].
  destruct (node_step i e (net i)) as [[] n'|? ?|] eqn:En; [|done|done]. eapply rtc_l; [by econstructor|]. by apply IH.
Qed.
Lemma demo_booted : booted_net demo_honest demo_desync demo_start.
Proof. intros i _. exists 1, 1. split; [done|]. unfold demo_start. vm_compute. reflexivity. Qed.
Lemma demo_runs : run_script demo_script demo_start = Some demo_net.
Proof.
  unfold demo_net. assert (bool_decide (is_Some (run_script demo_script demo_start)) = true) as Hs by (vm_compute; reflexivity).
  apply bool_decide_eq_true in Hs as [net Hn]. by rewrite Hn.
Qed.
Lemma demo_is_reachable : demo_reachable demo_net.
Proof. exists demo_start. split; [apply demo_booted|]. apply (run_steps demo_script), demo_runs. Qed.
Lemma demo_event i k e : events (demo_net i) !! k = Some e -> e ∈ events (demo_net i).
Proof. apply list_elem_of_lookup_2. Qed.
Lemma honest0 : 0%nat ∈ demo_honest.
Proof. set_solver. Qed.
Lemma honest1 : 1%nat ∈ demo_honest.
Proof. set_solver. Qed.
Lemma honest2 : 2%nat ∈ demo_honest.
Proof. set_solver. Qed.

(** Before the last notarize vote for [block0] reaches validator 0. *)
Definition demo_early : nat -> Node :=
  default demo_start (run_script (take 37 demo_script) demo_start).
Lemma demo_early_reachable : demo_reachable demo_early.
Proof.
  exists demo_start. split; [apply demo_booted|]. apply (run_steps (take 37 demo_script)). unfold demo_early.
  assert (bool_decide (is_Some (run_script (take 37 demo_script) demo_start)) = true) as Hs by (vm_compute; reflexivity).
  apply bool_decide_eq_true in Hs as [net Hn]. by rewrite Hn.
Qed.

(** ** The theorems at work *)

Lemma finalized_chain_witness : descends demo_parent block1 block0.
Proof.
  apply (finalized_chain demo_honest demo_limit demo_desync demo_parent demo_net 0 1 block0 block1 demo_is_reachable honest0 honest1).
  - apply (demo_event 0 7). vm_compute. reflexivity.
  - left. apply (demo_event 1 11). vm_compute. reflexivity.
  - vm_compute. discriminate.
Defined.
Lemma handlers_return_witness : exists n', node_step 1 EvAlarm (demo_net 1) = Ret tt n' /\ demo_reachable (<[1%nat := n']> demo_net).
Proof. exact (handlers_return demo_honest demo_limit demo_desync demo_parent demo_net 1 EvAlarm demo_is_reachable honest1 I). Defined.
Lemma honest_votes_witness :
  compatible (FinalizeVote block0) (NotarizeVote block1) /\ FinalizeVote block0 ∈ db_votes (n_db (demo_net 2)).
Proof.
  apply (honest_votes demo_honest demo_limit demo_desync demo_parent demo_net 2 (FinalizeVote block0) (NotarizeVote block1) demo_is_reachable honest2).
  - apply list_elem_of_lookup_2 with 1%nat. vm_compute. reflexivity.
  - apply list_elem_of_lookup_2 with 0%nat. vm_compute. reflexivity.
Defined.
Lemma certificates_agree_witness :
  compatible (NotarizeVote block1) (NotarizeVote block1) /\ 1 = 1 /\
  certificate_from_tl (NotarizeVote block1) (signatures (demo_certificate (NotarizeVote block1))) = Some (demo_certificate (NotarizeVote block1)).
Proof.
  apply (certificates_agree demo_honest demo_limit demo_desync demo_parent demo_net 0 2 TNotarize TNotarize 1
    (demo_certificate (NotarizeVote block1)) (demo_certificate (NotarizeVote block1)) demo_is_reachable honest0 honest2); vm_compute; reflexivity.
Defined.
Lemma reports_are_true_witness : 3%nat ∉ demo_honest.
Proof.
  eapply (reports_are_true demo_honest demo_limit demo_desync demo_parent demo_net 0 3 _ demo_is_reachable honest0).
  apply (demo_event 0 13). vm_compute. reflexivity.
Defined.
Lemma parent_answers_witness :
  ~ certified (signed_by demo_honest demo_net) (NotarizeVote (mkCandidateId 2 102)) /\
  ~ certified (signed_by demo_honest demo_net) (FinalizeVote (mkCandidateId 2 102)).
Proof.
  apply (parent_answers demo_honest demo_limit demo_desync demo_parent demo_net 0 (mkCandidateId 2 102) None
    (ParentMisbehavior ConflictingCandidateAndCertificate) demo_net demo_is_reachable honest0).
  - apply (demo_event 0 12). vm_compute. reflexivity.
  - apply rtc_refl.
  - reflexivity.
Defined.
Lemma windows_are_settled_witness : settled (signed_by demo_honest demo_net) 0 None.
Proof.
  apply (windows_are_settled demo_honest demo_limit demo_desync demo_parent demo_net 1 0 None demo_is_reachable honest1).
  apply (demo_event 1 0). vm_compute. reflexivity.
Defined.
Lemma quorum_makes_certificate_witness :
  exists n1 k n2, node_step 0 (EvMessage 0 2 (tl_vote (NotarizeVote block0) (demo_signature 2))) (demo_early 0) = Ret tt n1 /\
    pending_at k (NotarizeVote block0) (n_pool n1) /\ node_step 0 (EvCertSaved k) n1 = Ret tt n2 /\ closed (n_pool n2) (0, TNotarize).
Proof.
  apply (quorum_makes_certificate demo_honest demo_limit demo_desync demo_parent demo_early 0 2 (NotarizeVote block0) (demo_signature 2) 0
    demo_early_reachable honest0).
  - vm_compute. lia.
  - right. apply list_elem_of_lookup_2 with 0%nat. vm_compute. reflexivity.
  - reflexivity.
  - split; [left; exact honest2|vm_compute; (reflexivity || discriminate)..].
  - vm_compute. reflexivity.
  - vm_compute. reflexivity.
Defined.
Lemma present_is_exact_witness :
  exists p', advance_present (n_pool (demo_net 0)) = Ret tt p' /\ advances (signed_by demo_honest demo_net) (n_pool (demo_net 0)) p'.
Proof.
  apply (present_is_exact demo_honest demo_limit demo_desync demo_parent demo_net 0 demo_is_reachable honest0). vm_compute. reflexivity.
Defined.
