(* ===== verification/Uint128.v ===== *)
(** * 128-bit words: [td::uint128] (tdutils/td/utils/uint128.h)

    The integers of crypto/common multiply their digits, and the prices of messages are
    computed, in words of 128 bits.  Where the compiler has none, [uint128_emulated]
    builds them from two words of 64 bits; [uint128_intrinsic] is the built-in type.
    The theorems of this file show that the first computes what the second does. *)
From S2P Require Import Prelude.

Record uint128 : Type := mkU128 { u_hi : Z; u_lo : Z }.

(** Result of an operation on [uint64]. *)
Definition u64 (x : Z) : Z := wrap_u 64 x.

Definition from_signed (x : Z) : uint128 :=
  if 0 <=? x then mkU128 0 x else mkU128 (2 ^ 64 - 1) (u64 x).
Definition from_unsigned (x : Z) : uint128 := mkU128 0 x.

Definition u_add (x other : uint128) : uint128 :=
  let lo := u64 (u_lo other + u_lo x) in
  let hi := u64 (u_hi other + u_hi x) in
  mkU128 (if lo <? u_lo x then u64 (hi + 1) else hi) lo.

Definition u_shl (x : uint128) (cnt : Z) : uint128 :=
  if cnt =? 0 then x
  else if cnt <? 64 then
    mkU128 (Z.lor (u64 (Z.shiftl (u_hi x) cnt)) (Z.shiftr (u_lo x) (64 - cnt)))
      (u64 (Z.shiftl (u_lo x) cnt))
  else if cnt <? 128 then mkU128 (u64 (Z.shiftl (u_lo x) (cnt - 64))) 0
  else mkU128 0 0.

Definition u_shr (x : uint128) (cnt : Z) : uint128 :=
  if cnt =? 0 then x
  else if cnt <? 64 then
    mkU128 (Z.shiftr (u_hi x) cnt)
      (Z.lor (Z.shiftr (u_lo x) cnt) (u64 (Z.shiftl (u_hi x) (64 - cnt))))
  else if cnt <? 128 then mkU128 0 (Z.shiftr (u_hi x) (cnt - 64))
  else mkU128 0 0.

Definition u_mult (x other : uint128) : uint128 :=
  let a_lo := Z.land (u_lo x) (2 ^ 32 - 1) in
  let a_hi := Z.shiftr (u_lo x) 32 in
  let b_lo := Z.land (u_lo other) (2 ^ 32 - 1) in
  let b_hi := Z.shiftr (u_lo other) 32 in
  let res := mkU128 (u64 (u_lo x * u_hi other + u_hi x * u_lo other + a_hi * b_hi))
               (u64 (a_lo * b_lo)) in
  let add1 := mkU128 0 (u64 (a_lo * b_hi)) in
  let add2 := mkU128 0 (u64 (a_hi * b_lo)) in
  u_add (u_add res (u_shl add1 32)) (u_shl add2 32).
Definition u_mult_word (x : uint128) (other : Z) : uint128 := u_mult x (mkU128 0 other).
Definition u_mult_signed (x : uint128) (other : Z) : uint128 := u_mult x (from_signed other).

Definition u_is_zero (x : uint128) : bool := (u_lo x =? 0) && (u_hi x =? 0).

Definition u_sub (x other : uint128) : uint128 :=
  let carry := if u_lo x <? u_lo other then 1 else 0 in
  mkU128 (u64 (u_hi x - u_hi other - carry)) (u64 (u_lo x - u_lo other)).

(** [count_leading_zeroes64]. *)
Definition clz64 (x : Z) : Z := if x =? 0 then 64 else 63 - Z.log2 x.
Definition u_clz (x : uint128) : Z :=
  if u_hi x =? 0 then 64 + clz64 (u_lo x) else clz64 (u_hi x).
Definition set_lower_bit (x : uint128) : uint128 := mkU128 (u_hi x) (Z.lor (u_lo x) 1).
Definition greater_or_equal (x other : uint128) : bool :=
  (u_hi other <? u_hi x) || ((u_hi x =? u_hi other) && (u_lo other <=? u_lo x)).

(** The loop of [divmod], for [i] from [shift] down to 0; the count is [i + 1]. *)
Fixpoint divmod_loop (cnt : nat) (other from res : uint128) : uint128 * uint128 :=
  match cnt with
  | O => (res, from)
  | S i =>
      let sub := u_shl other (Z.of_nat i) in
      let res := u_shl res 1 in
      if greater_or_equal from sub then divmod_loop i other (u_sub from sub) (set_lower_bit res)
      else divmod_loop i other from res
  end.

(** The pair of quotient and remainder; [None] is the failed [CHECK(!other.is_zero())]. *)
Definition u_divmod (x other : uint128) : option (uint128 * uint128) :=
  if u_is_zero other then None
  else
    let ctz := u_clz x in
    let other_ctz := u_clz other in
    if other_ctz <? ctz then Some (mkU128 0 0, x)
    else Some (divmod_loop (Z.to_nat (other_ctz - ctz + 1)) other x (mkU128 0 0)).

Definition u_is_negative (x : uint128) : bool := Z.shiftr (u_hi x) 63 =? 1.
Definition u_negate (x : uint128) : uint128 :=
  let lo := u64 (2 ^ 64 - 1 - u_lo x + 1) in
  let hi := 2 ^ 64 - 1 - u_hi x in
  if lo =? 0 then mkU128 (u64 (hi + 1)) 0 else mkU128 hi lo.

(** [divmod_signed]: the pair of quotient and remainder as [int64]. *)
Definition u_divmod_signed (x : uint128) (y : Z) : option (Z * Z) :=
  if y =? 0 then None
  else
    let x_sgn := u_is_negative x in
    let y_sgn := y <? 0 in
    let x := if x_sgn then u_negate x else x in
    let uy := from_signed y in
    let uy := if u_is_negative uy then u_negate uy else uy in
    match u_divmod x uy with
    | None => None
    | Some (t_quot, t_mod) =>
        let quot := wrap_s 64 (u_lo t_quot) in
        let rem := wrap_s 64 (u_lo t_mod) in
        Some (if xorb x_sgn y_sgn then wrap_s 64 (- quot) else quot,
              if x_sgn then wrap_s 64 (- rem) else rem)
    end.

(** ** Values *)

Definition u_val (x : uint128) : Z := u_hi x * 2 ^ 64 + u_lo x.
Definition u_ok (x : uint128) : Prop := 0 <= u_hi x < 2 ^ 64 /\ 0 <= u_lo x < 2 ^ 64.

(** The two's complement reading. *)
Definition u_signed (x : uint128) : Z := wrap_s 128 (u_val x).

Ltac u_consts :=
  change (2 ^ 64) with 18446744073709551616 in *;
  change (2 ^ 128) with 340282366920938463463374607431768211456 in *;
  change (2 ^ 32) with 4294967296 in *.
Ltac u_solve := unfold u_ok, u_val, u64, wrap_u in *; cbn [u_hi u_lo] in *; u_consts; div_lia.

Lemma u_val_range x : u_ok x -> 0 <= u_val x < 2 ^ 128.
Proof. u_solve. Qed.
Lemma u_val_inj x y : u_ok x -> u_ok y -> u_val x = u_val y -> x = y.
Proof. destruct x, y. intros. f_equal; u_solve. Qed.

(** [r] is the word of 128 bits with the low bits of [v]. *)
Definition represents (r : uint128) (v : Z) : Prop := u_ok r /\ u_val r = v mod 2 ^ 128.

Lemma represents_small r v : represents r v -> 0 <= v < 2 ^ 128 -> u_val r = v.
Proof. intros [_ H] ?. rewrite H. by apply Z.mod_small. Qed.

Lemma u_add_spec x y : u_ok x -> u_ok y -> represents (u_add x y) (u_val x + u_val y).
Proof.
  intros Hx Hy. unfold represents, u_add. destruct (u64 (u_lo y + u_lo x) <? u_lo x) eqn:E.
  all: apply Z.ltb_lt in E || apply Z.ltb_ge in E; split; u_solve.
Qed.
Lemma u_sub_spec x y : u_ok x -> u_ok y -> represents (u_sub x y) (u_val x - u_val y).
Proof.
  intros Hx Hy. unfold represents, u_sub. destruct (u_lo x <? u_lo y) eqn:E.
  all: apply Z.ltb_lt in E || apply Z.ltb_ge in E; split; u_solve.
Qed.

(** The two halves of a shifted word do not overlap. *)
Lemma lor_disjoint a b k : 0 <= k -> 0 <= b < 2 ^ k -> Z.lor (a * 2 ^ k) b = a * 2 ^ k + b.
Proof.
  intros Hk Hb. assert (Z.land (a * 2 ^ k) b = 0) as Hland.
  { apply Z.bits_inj'. intros i Hi. rewrite Z.land_spec, Z.bits_0, <- Z.shiftl_mul_pow2 by done.
    destruct (Z.lt_ge_cases i k); [by rewrite Z.shiftl_spec_low|].
    rewrite <- (Z.mod_small b (2 ^ k)), Z.mod_pow2_bits_high by lia. apply andb_false_r. }
  symmetry. by rewrite Z.add_nocarry_lxor, Z.lxor_lor.
Qed.

(** Multiplication by a power of two, cut to [m + k] bits, moves the low [m] bits up. *)
Lemma shift_mod a m k : 0 <= m -> 0 <= k -> (a * 2 ^ k) mod 2 ^ (m + k) = (a mod 2 ^ m) * 2 ^ k.
Proof.
  intros. rewrite Z.pow_add_r by done. rewrite Zmult_mod_distr_r. done.
Qed.

Lemma u_shl_spec x cnt : u_ok x -> 0 <= cnt < 128 -> represents (u_shl x cnt) (u_val x * 2 ^ cnt).
Proof.
  intros Hx Hc. pose proof (u_val_range _ Hx). unfold represents, u_shl.
  destruct (Z.eqb_spec cnt 0) as [->|]; [rewrite Z.mul_1_r; split; [done|u_solve]|].
  unfold u64, wrap_u. destruct (Z.ltb_spec cnt 64).
  - set (m := 64 - cnt). assert (2 ^ 64 = 2 ^ m * 2 ^ cnt) as E64.
    { rewrite <- Z.pow_add_r by lia. f_equal. lia. }
    pose proof (pow2_pos m ltac:(lia)) as Hm. pose proof (pow2_pos cnt ltac:(lia)) as Hp.
    rewrite !Z.shiftl_mul_pow2, Z.shiftr_div_pow2 by lia.
    replace (2 ^ 64) with (2 ^ (m + cnt)) by (f_equal; lia). rewrite !shift_mod by lia.
    destruct Hx as [Hh Hl]. pose proof (Z.mod_pos_bound (u_hi x) (2 ^ m) Hm).
    pose proof (Z.mod_pos_bound (u_lo x) (2 ^ m) Hm).
    assert (0 <= u_lo x / 2 ^ m < 2 ^ cnt).
    { split; [apply Z.div_pos; lia|]. apply Z.div_lt_upper_bound; lia. }
    rewrite lor_disjoint by lia. split; [unfold u_ok; cbn; nia|].
    unfold u_val. cbn [u_hi u_lo]. rewrite E64.
    replace (2 ^ 128) with (2 ^ m * (2 ^ m * 2 ^ cnt) * 2 ^ cnt)
      by (rewrite <- !Z.pow_add_r by lia; f_equal; lia).
    rewrite Zmult_mod_distr_r. set (P := 2 ^ m) in *. set (Q := 2 ^ cnt) in *.
    assert ((u_hi x * (P * Q) + u_lo x) mod (P * (P * Q)) = (u_hi x mod P) * (P * Q) + u_lo x) as ->.
    { symmetry. pose proof (Z.div_mod (u_hi x) P).
      apply Z.mod_unique_pos with (u_hi x / P); nia. }
    pose proof (Z.div_mod (u_lo x) P). nia.
  - destruct (Z.ltb_spec cnt 128); [|lia].
    set (k := cnt - 64). set (m := 64 - k). rewrite Z.shiftl_mul_pow2 by lia.
    replace (2 ^ 64) with (2 ^ (m + k)) by (f_equal; lia). rewrite shift_mod by lia.
    pose proof (pow2_pos m ltac:(lia)) as Hm. pose proof (pow2_pos k ltac:(lia)) as Hk.
    pose proof (Z.mod_pos_bound (u_lo x) (2 ^ m) Hm).
    assert (2 ^ 64 = 2 ^ m * 2 ^ k) as E64 by (rewrite <- Z.pow_add_r by lia; f_equal; lia).
    split; [unfold u_ok; cbn [u_hi u_lo]; nia|]. unfold u_val. cbn [u_hi u_lo]. rewrite Z.add_0_r.
    replace (2 ^ cnt) with (2 ^ k * 2 ^ 64) by (rewrite <- Z.pow_add_r by lia; f_equal; lia).
    replace (2 ^ 128) with (2 ^ m * (2 ^ k * 2 ^ 64)) by (rewrite <- !Z.pow_add_r by lia; f_equal; lia).
    rewrite Zmult_mod_distr_r, <- Z.mul_assoc. f_equal.
    rewrite E64, Z.mul_assoc, (Z.mul_comm _ (2 ^ k)), Z.mul_assoc, Z.add_comm.
    by rewrite Z_mod_plus_full.
Qed.

Lemma u_shr_spec x cnt : u_ok x -> 0 <= cnt < 128 -> represents (u_shr x cnt) (u_val x / 2 ^ cnt).
Proof.
  intros Hx Hc. pose proof (u_val_range _ Hx). unfold represents, u_shr.
  assert (0 <= u_val x / 2 ^ cnt < 2 ^ 128) as Hr.
  { pose proof (pow2_pos cnt ltac:(lia)). split; [apply Z.div_pos; lia|].
    apply Z.div_lt_upper_bound; nia. }
  rewrite (Z.mod_small _ _ Hr).
  destruct (Z.eqb_spec cnt 0) as [->|]; [rewrite Z.div_1_r; done|].
  unfold u64, wrap_u. destruct Hx as [Hh Hl]. destruct (Z.ltb_spec cnt 64).
  - set (m := 64 - cnt). assert (2 ^ 64 = 2 ^ cnt * 2 ^ m) as E64.
    { rewrite <- Z.pow_add_r by lia. f_equal. lia. }
    pose proof (pow2_pos m ltac:(lia)) as Hm. pose proof (pow2_pos cnt ltac:(lia)) as Hp.
    rewrite Z.shiftl_mul_pow2, !Z.shiftr_div_pow2 by lia.
    replace (2 ^ 64) with (2 ^ (cnt + m)) by (f_equal; lia). rewrite shift_mod by lia.
    pose proof (Z.mod_pos_bound (u_hi x) (2 ^ cnt) Hp).
    assert (0 <= u_lo x / 2 ^ cnt < 2 ^ m).
    { split; [apply Z.div_pos; lia|]. apply Z.div_lt_upper_bound; lia. }
    assert (0 <= u_hi x / 2 ^ cnt < 2 ^ 64).
    { split; [apply Z.div_pos; lia|]. apply Z.div_lt_upper_bound; nia. }
    assert (u_hi x mod 2 ^ cnt * 2 ^ m <= (2 ^ cnt - 1) * 2 ^ m) by (apply Z.mul_le_mono_nonneg_r; lia).
    rewrite Z.lor_comm, lor_disjoint by lia.
    split; [unfold u_ok; cbn [u_hi u_lo]; split; [lia|split; [nia|lia]]|].
    unfold u_val. cbn [u_hi u_lo]. rewrite E64.
    rewrite (Z.div_mod (u_hi x) (2 ^ cnt)) at 3 by lia.
    set (P := 2 ^ cnt) in *. set (Q := 2 ^ m) in *.
    replace ((P * (u_hi x / P) + u_hi x mod P) * (P * Q) + u_lo x)
      with (u_lo x + (u_hi x / P * (P * Q) + u_hi x mod P * Q) * P) by ring.
    rewrite Z.div_add by lia. ring.
  - destruct (Z.ltb_spec cnt 128); [|lia].
    set (k := cnt - 64). rewrite Z.shiftr_div_pow2 by lia. pose proof (pow2_pos k ltac:(lia)).
    assert (0 <= u_hi x / 2 ^ k < 2 ^ 64).
    { split; [apply Z.div_pos; lia|]. apply Z.div_lt_upper_bound; nia. }
    split; [unfold u_ok; cbn [u_hi u_lo]; lia|]. unfold u_val. cbn [u_hi u_lo].
    replace (2 ^ cnt) with (2 ^ 64 * 2 ^ k) by (rewrite <- Z.pow_add_r by lia; f_equal; lia).
    rewrite <- Z.div_div by lia. rewrite Z.div_add_l, (Z.div_small (u_lo x)) by lia.
    by rewrite Z.add_0_r.
Qed.

Lemma represents_cong r v : represents r v <-> u_ok r /\ exists k, u_val r = v + k * 2 ^ 128.
Proof.
  unfold represents. split; intros [Hr H]; (split; [done|]).
  - exists (- (v / 2 ^ 128)). pose proof (Z.div_mod v (2 ^ 128)). lia.
  - destruct H as [k Hk]. pose proof (u_val_range _ Hr).
    rewrite <- (Z_mod_plus_full v k), <- Hk. symmetry. by apply Z.mod_small.
Qed.

Lemma u_mult_spec x y : u_ok x -> u_ok y -> represents (u_mult x y) (u_val x * u_val y).
Proof.
  intros Hx Hy. unfold u_mult.
  change (2 ^ 32 - 1) with (Z.ones 32). rewrite !Z.land_ones, !Z.shiftr_div_pow2 by lia.
  set (al := u_lo x mod 2 ^ 32). set (ah := u_lo x / 2 ^ 32).
  set (bl := u_lo y mod 2 ^ 32). set (bh := u_lo y / 2 ^ 32).
  assert (0 <= al < 2 ^ 32 /\ 0 <= ah < 2 ^ 32 /\ u_lo x = ah * 2 ^ 32 + al) as (Hal & Hah & Ex)
    by (subst al ah; u_solve).
  assert (0 <= bl < 2 ^ 32 /\ 0 <= bh < 2 ^ 32 /\ u_lo y = bh * 2 ^ 32 + bl) as (Hbl & Hbh & Ey)
    by (subst bl bh; u_solve).
  clearbody al ah bl bh. assert (forall a b, 0 <= a < 2 ^ 32 -> 0 <= b < 2 ^ 32 -> 0 <= a * b < 2 ^ 64) as Hp
    by (intros; u_consts; nia).
  unfold u64. rewrite !(wrap_u_small _ (_ * _)) by (apply Hp; lia). unfold wrap_u.
  set (h := u_lo x * u_hi y + u_hi x * u_lo y + ah * bh).
  pose proof (Z.mod_pos_bound h (2 ^ 64) ltac:(lia)).
  assert (u_ok (mkU128 (h mod 2 ^ 64) (al * bl))) as H0 by (split; [done|by apply Hp]).
  assert (forall a b, 0 <= a < 2 ^ 32 -> 0 <= b < 2 ^ 32 -> u_ok (mkU128 0 (a * b))) as Hok
    by (intros; split; [done|by apply Hp]).
  pose proof (u_shl_spec _ 32 (Hok _ _ Hal Hbh) ltac:(lia)) as [H1 [k1 E1]]%represents_cong.
  pose proof (u_shl_spec _ 32 (Hok _ _ Hah Hbl) ltac:(lia)) as [H2 [k2 E2]]%represents_cong.
  pose proof (u_add_spec _ _ H0 H1) as [H3 [k3 E3]]%represents_cong.
  pose proof (u_add_spec _ _ H3 H2) as [H4 [k4 E4]]%represents_cong.
  apply represents_cong. split; [done|]. rewrite E4, E3, E1, E2. clear E1 E2 E3 E4 H1 H2 H3 H4.
  unfold u_val. cbn [u_hi u_lo].
  replace (h mod 2 ^ 64) with (h - h / 2 ^ 64 * 2 ^ 64) by (pose proof (Z.div_mod h (2 ^ 64)); lia).
  exists (- (h / 2 ^ 64) - u_hi x * u_hi y + k1 + k2 + k3 + k4).
  set (q := h / 2 ^ 64). clearbody q. subst h. rewrite Ex, Ey. u_consts. ring.
Qed.

Lemma from_signed_spec x : - 2 ^ 63 <= x < 2 ^ 63 -> represents (from_signed x) x.
Proof.
  intros. unfold represents, from_signed. change (2 ^ 63) with 9223372036854775808 in *.
  destruct (Z.leb_spec 0 x); split; u_solve.
Qed.

Lemma u_mult_signed_spec x y :
  - 2 ^ 63 <= x < 2 ^ 63 -> - 2 ^ 63 <= y < 2 ^ 63 ->
  represents (u_mult_signed (from_signed x) y) (x * y).
Proof.
  intros Hx Hy. destruct (from_signed_spec x Hx) as [Ox Ex], (from_signed_spec y Hy) as [Oy Ey].
  destruct (u_mult_spec _ _ Ox Oy) as [O E]. split; [done|]. unfold u_mult_signed.
  rewrite E, Ex, Ey. by rewrite Zmult_mod_idemp_l, Zmult_mod_idemp_r.
Qed.

(** *** Division *)

Lemma clz64_spec x : 0 <= x < 2 ^ 64 ->
  0 <= clz64 x <= 64 /\ x < 2 ^ (64 - clz64 x) /\ (0 < x -> 2 ^ (63 - clz64 x) <= x).
Proof.
  intros Hx. unfold clz64. destruct (Z.eqb_spec x 0) as [->|]; [lia|].
  pose proof (Z.log2_spec x ltac:(lia)) as [H1 H2]. pose proof (Z.log2_nonneg x).
  assert (Z.log2 x < 64) by (apply Z.log2_lt_pow2; lia).
  replace (64 - (63 - Z.log2 x)) with (Z.succ (Z.log2 x)) by lia.
  replace (63 - (63 - Z.log2 x)) with (Z.log2 x) by lia. lia.
Qed.

Lemma u_clz_spec x : u_ok x ->
  0 <= u_clz x <= 128 /\ u_val x < 2 ^ (128 - u_clz x) /\ (0 < u_val x -> 2 ^ (127 - u_clz x) <= u_val x).
Proof.
  intros [Hh Hl]. unfold u_clz, u_val. destruct (Z.eqb_spec (u_hi x) 0) as [->|].
  - destruct (clz64_spec _ Hl) as (? & ? & ?).
    replace (128 - (64 + clz64 (u_lo x))) with (64 - clz64 (u_lo x)) by lia.
    replace (127 - (64 + clz64 (u_lo x))) with (63 - clz64 (u_lo x)) by lia. lia.
  - destruct (clz64_spec _ Hh) as (Hr & H1 & H2). specialize (H2 ltac:(lia)).
    assert (clz64 (u_hi x) < 64).
    { unfold clz64. destruct (Z.eqb_spec (u_hi x) 0); [done|]. pose proof (Z.log2_nonneg (u_hi x)). lia. }
    replace (128 - clz64 (u_hi x)) with ((64 - clz64 (u_hi x)) + 64) by lia.
    replace (127 - clz64 (u_hi x)) with ((63 - clz64 (u_hi x)) + 64) by lia.
    rewrite !Z.pow_add_r by lia. nia.
Qed.

Lemma greater_or_equal_spec x y : u_ok x -> u_ok y -> greater_or_equal x y = (u_val y <=? u_val x).
Proof.
  intros Hx Hy. apply eq_true_iff_eq. unfold greater_or_equal.
  rewrite orb_true_iff, andb_true_iff, Z.ltb_lt, Z.eqb_eq, !Z.leb_le. u_solve.
Qed.

Lemma set_lower_bit_spec x v : u_ok x -> u_val x = 2 * v ->
  u_ok (set_lower_bit x) /\ u_val (set_lower_bit x) = 2 * v + 1.
Proof.
  intros Hx E. assert (exists w, u_lo x = w * 2) as [w Ew].
  { exists (u_lo x / 2). u_solve. }
  unfold u_ok, u_val, set_lower_bit in *. cbn [u_hi u_lo].
  change 2 with (2 ^ 1) in Ew. rewrite Ew in *. rewrite lor_disjoint by lia. u_consts. lia.
Qed.

Lemma divmod_loop_spec cnt other from res :
  u_ok other -> u_ok from -> u_ok res -> 0 < u_val other ->
  u_val from < u_val other * 2 ^ Z.of_nat cnt -> u_val other * 2 ^ Z.of_nat cnt < 2 ^ 129 ->
  (u_val res + 1) * 2 ^ Z.of_nat cnt <= 2 ^ 128 ->
  let '(q, r) := divmod_loop cnt other from res in
  u_ok q /\ u_ok r /\ 0 <= u_val r < u_val other /\
  u_val res * 2 ^ Z.of_nat cnt * u_val other + u_val from = u_val q * u_val other + u_val r.
Proof.
  revert from res. induction cnt as [|i IH]; intros from res Ho Hf Hr Hpos Hfrom Hoth Hres.
  { cbn [divmod_loop]. pose proof (u_val_range _ Hf). cbn in *. split_and!; [done..|lia|lia|lia]. }
  cbn [divmod_loop]. pose proof (pow2_pos (Z.of_nat i) ltac:(lia)) as Hp.
  rewrite Nat2Z.inj_succ, Z.pow_succ_r in * by lia.
  pose proof (u_val_range _ Hf). pose proof (u_val_range _ Hr). pose proof (u_val_range _ Ho).
  assert (u_val other * 2 ^ Z.of_nat i < 2 ^ 128) by lia.
  assert (Z.of_nat i < 128) by (apply (Z.pow_lt_mono_r_iff 2); [lia..|nia]).
  pose proof (u_shl_spec other (Z.of_nat i) Ho ltac:(lia)) as Hs.
  pose proof (represents_small _ _ Hs ltac:(nia)) as Es. destruct Hs as [Os _].
  pose proof (u_shl_spec res 1 Hr ltac:(lia)) as Hs.
  pose proof (represents_small _ _ Hs ltac:(nia)) as Er. destruct Hs as [Or _].
  rewrite greater_or_equal_spec by done. destruct (Z.leb_spec (u_val (u_shl other (Z.of_nat i))) (u_val from)) as [Hle|Hlt].
  - pose proof (u_sub_spec from _ Hf Os) as Hs.
    pose proof (represents_small _ _ Hs ltac:(lia)) as Ed. destruct Hs as [Od _].
    destruct (set_lower_bit_spec _ (u_val res) Or) as [Ob Eb]; [lia|].
    specialize (IH _ _ Ho Od Ob Hpos). destruct (divmod_loop i other _ _) as [q r].
    rewrite Es in Ed, Hle. rewrite Ed, Eb in IH. clear Es Er Ed Eb.
    set (p := 2 ^ Z.of_nat i) in *. clearbody p.
    destruct IH as (? & ? & ? & E); [lia|lia|lia|]. split_and!; [done..|lia|lia|]. lia.
  - specialize (IH _ _ Ho Hf Or Hpos). destruct (divmod_loop i other _ _) as [q r].
    rewrite Es in Hlt. rewrite Er in IH. clear Es Er. set (p := 2 ^ Z.of_nat i) in *. clearbody p.
    destruct IH as (? & ? & ? & E); [lia|lia|lia|]. split_and!; [done..|lia|lia|]. lia.
Qed.

Lemma u_divmod_spec x y : u_ok x -> u_ok y -> u_val y <> 0 ->
  exists q r, u_divmod x y = Some (q, r) /\ u_ok q /\ u_ok r /\
    u_val q = u_val x / u_val y /\ u_val r = u_val x mod u_val y.
Proof.
  intros Hx Hy Hnz. pose proof (u_val_range _ Hx). pose proof (u_val_range _ Hy).
  destruct (u_clz_spec _ Hx) as (Rx & Ux & Lx). destruct (u_clz_spec _ Hy) as (Ry & Uy & Ly).
  specialize (Ly ltac:(lia)). unfold u_divmod.
  assert (u_is_zero y = false) as ->.
  { apply not_true_iff_false. unfold u_is_zero. rewrite andb_true_iff, !Z.eqb_eq.
    unfold u_val in Hnz. lia. }
  destruct (Z.ltb_spec (u_clz y) (u_clz x)) as [Hlt|Hge].
  - assert (u_val x < u_val y).
    { assert (2 ^ (128 - u_clz x) <= 2 ^ (127 - u_clz y)) by (apply Z.pow_le_mono_r; lia). lia. }
    eexists _, _. split_and!; [done|split; cbn; lia|done|..]; rewrite ?Z.div_small, ?Z.mod_small by lia; done.
  - pose proof (divmod_loop_spec (Z.to_nat (u_clz y - u_clz x + 1)) y x (mkU128 0 0)) as Hl.
    destruct (divmod_loop _ _ _ _) as [q r]. rewrite Z2Nat.id in Hl by lia.
    assert (u_clz y < 128).
    { destruct (Z.eq_dec (u_clz y) 128) as [E|]; [|lia]. rewrite E in Uy. change (2 ^ (128 - 128)) with 1 in Uy. lia. }
    assert (2 ^ (128 - u_clz x) = 2 ^ (127 - u_clz y) * 2 ^ (u_clz y - u_clz x + 1)) as E1
      by (rewrite <- Z.pow_add_r by lia; f_equal; lia).
    assert (2 ^ 129 = 2 ^ (128 - u_clz y) * 2 ^ (u_clz y + 1)) as E2
      by (rewrite <- Z.pow_add_r by lia; f_equal; lia).
    pose proof (pow2_pos (u_clz y - u_clz x + 1) ltac:(lia)).
    assert (2 ^ (u_clz y - u_clz x + 1) <= 2 ^ (u_clz y + 1)) by (apply Z.pow_le_mono_r; lia).
    assert (2 ^ (u_clz y - u_clz x + 1) <= 2 ^ 128) by (apply Z.pow_le_mono_r; lia).
    set (p := 2 ^ (u_clz y - u_clz x + 1)) in *. set (c := 2 ^ (127 - u_clz y)) in *.
    set (d := 2 ^ (128 - u_clz y)) in *. pose proof (pow2_pos (128 - u_clz y) ltac:(lia)).
    assert (u_val y * p < d * p) by (apply Z.mul_lt_mono_pos_r; lia).
    assert (d * p <= d * 2 ^ (u_clz y + 1)) by (apply Z.mul_le_mono_nonneg_l; lia).
    assert (c * p <= u_val y * p) by (apply Z.mul_le_mono_nonneg_r; lia).
    destruct Hl as (Oq & Or & Hr & E); [done..|split; cbn; lia|lia|lia|lia|unfold u_val; cbn [u_hi u_lo]; lia|].
    change (u_val (mkU128 0 0)) with 0 in E. eexists _, _. split_and!; [done..| |].
    + apply Z.div_unique_pos with (u_val r); lia.
    + apply Z.mod_unique_pos with (u_val q); lia.
Qed.

Lemma u_is_negative_spec x : u_ok x -> u_is_negative x = (2 ^ 127 <=? u_val x).
Proof.
  intros Hx. apply eq_true_iff_eq. unfold u_is_negative.
  rewrite Z.eqb_eq, Z.leb_le, Z.shiftr_div_pow2 by lia.
  change (2 ^ 127) with (9223372036854775808 * 18446744073709551616).
  change (2 ^ 63) with 9223372036854775808. u_solve.
Qed.
Lemma u_negate_spec x : u_ok x -> represents (u_negate x) (- u_val x).
Proof.
  intros Hx. unfold represents, u_negate.
  destruct (Z.eqb_spec (u64 (2 ^ 64 - 1 - u_lo x + 1)) 0); split; u_solve.
Qed.

(** [signed_value()] of the built-in type. *)
Lemma u_signed_cases x : u_ok x ->
  u_signed x = if u_is_negative x then u_val x - 2 ^ 128 else u_val x.
Proof.
  intros Hx. pose proof (u_val_range _ Hx). rewrite u_is_negative_spec by done. unfold u_signed, wrap_s.
  change (2 ^ (128 - 1)) with (2 ^ 127). change (2 ^ 128) with (2 * 2 ^ 127) in *.
  destruct (Z.leb_spec (2 ^ 127) (u_val x)).
  - rewrite <- (Z.mod_unique_pos _ (2 * 2 ^ 127) 1 (u_val x - 2 ^ 127)) by lia. lia.
  - rewrite Z.mod_small; lia.
Qed.

Lemma u_abs_spec x : u_ok x ->
  let a := if u_is_negative x then u_negate x else x in u_ok a /\ u_val a = Z.abs (u_signed x).
Proof.
  intros Hx. pose proof (u_val_range _ Hx). rewrite u_signed_cases by done.
  pose proof (u_is_negative_spec x Hx) as E. destruct (u_is_negative x); cbv zeta.
  - symmetry in E. apply Z.leb_le in E.
    pose proof (u_negate_spec x Hx) as [k Hk]%represents_cong. destruct Hk as [j Hj].
    pose proof (u_val_range _ k). split; [done|]. assert (j = 1) by nia. lia.
  - split; [done|]. lia.
Qed.

(** The low word of a small value, as [int64]. *)
Lemma low_word w : u_ok w -> 0 <= u_val w < 2 ^ 63 -> wrap_s 64 (u_lo w) = u_val w.
Proof.
  intros Hw ?. change (2 ^ 63) with 9223372036854775808 in *.
  assert (u_lo w = u_val w) as -> by u_solve. apply wrap_s_small; [lia|].
  change (2 ^ (64 - 1)) with 9223372036854775808. lia.
Qed.

Lemma u_divmod_signed_spec x y :
  u_ok x -> - 2 ^ 63 <= y < 2 ^ 63 -> y <> 0 -> Z.abs (Z.quot (u_signed x) y) < 2 ^ 63 ->
  u_divmod_signed x y = Some (Z.quot (u_signed x) y, Z.rem (u_signed x) y).
Proof.
  intros Hx Hy Hnz Hq. unfold u_divmod_signed.
  destruct (Z.eqb_spec y 0); [done|]. destruct (from_signed_spec y Hy) as [Ofy Efy].
  assert (u_signed (from_signed y) = y) as Esy.
  { unfold u_signed. rewrite Efy. unfold wrap_s. rewrite Zplus_mod_idemp_l.
    apply (wrap_s_small 128); [lia|]. change (2 ^ (128 - 1)) with (2 ^ 64 * 2 ^ 63). lia. }
  destruct (u_abs_spec x Hx) as [Oa Ea]. destruct (u_abs_spec _ Ofy) as [Ob Eb].
  rewrite Esy in Eb. set (a := if u_is_negative x then _ else _) in *.
  set (b := if u_is_negative (from_signed y) then _ else _) in *.
  destruct (u_divmod_spec a b Oa Ob) as (q & r & -> & Oq & Or & Eq & Er); [lia|].
  rewrite Ea, Eb in Eq, Er.
  assert (Z.abs (u_signed x) / Z.abs y = Z.abs (Z.quot (u_signed x) y)) as E1.
  { rewrite <- Z.quot_abs by done. symmetry. apply Z.quot_div_nonneg; lia. }
  assert (Z.abs (u_signed x) mod Z.abs y = Z.abs (Z.rem (u_signed x) y)) as E2.
  { rewrite <- Z.rem_abs by done. symmetry. apply Z.rem_mod_nonneg; lia. }
  pose proof (Z.rem_bound_abs (u_signed x) y Hnz).
  rewrite !low_word by (done || lia). rewrite Eq, Er, E1, E2.
  rewrite !(wrap_s_small 64) by (try change (64 - 1) with 63; lia).
  assert (u_is_negative x = (u_signed x <? 0)) as ->.
  { rewrite u_signed_cases by done. pose proof (u_val_range _ Hx). rewrite u_is_negative_spec by done.
    symmetry. destruct (Z.leb_spec (2 ^ 127) (u_val x)); [apply Z.ltb_lt|apply Z.ltb_ge]; lia. }
  clear -Hnz. revert Hnz. generalize (u_signed x) as v. intros v Hnz.
  destruct (Z.ltb_spec v 0), (Z.ltb_spec y 0); cbn [xorb]; f_equal; f_equal.
  all: Z.to_euclidean_division_equations; nia.
Qed.

(** The emulation of 128-bit words by pairs of 64-bit words is exact: addition, subtraction and
    multiplication modulo 2^128, shifts, the product of two signed words, and division with
    remainder, unsigned and signed, give what the built-in type gives. *)
Theorem emulated_is_exact x y cnt s t :
  u_ok x -> u_ok y -> 0 <= cnt < 128 -> - 2 ^ 63 <= s < 2 ^ 63 -> - 2 ^ 63 <= t < 2 ^ 63 ->
  represents (u_add x y) (u_val x + u_val y) /\
  represents (u_sub x y) (u_val x - u_val y) /\
  represents (u_mult x y) (u_val x * u_val y) /\
  represents (u_shl x cnt) (u_val x * 2 ^ cnt) /\
  represents (u_shr x cnt) (u_val x / 2 ^ cnt) /\
  represents (u_mult_signed (from_signed s) t) (s * t) /\
  (u_val y <> 0 -> exists q r, u_divmod x y = Some (q, r) /\
     represents q (u_val x / u_val y) /\ represents r (u_val x mod u_val y)) /\
  (t <> 0 -> Z.abs (Z.quot (u_signed x) t) < 2 ^ 63 ->
     u_divmod_signed x t = Some (Z.quot (u_signed x) t, Z.rem (u_signed x) t)).
Proof.
  intros Hx Hy Hc Hs Ht. split_and!.
  - by apply u_add_spec.
  - by apply u_sub_spec.
  - by apply u_mult_spec.
  - by apply u_shl_spec.
  - by apply u_shr_spec.
  - by apply u_mult_signed_spec.
  - intros Hnz. destruct (u_divmod_spec x y Hx Hy Hnz) as (q & r & E & Oq & Or & Eq & Er).
    eexists _, _. split_and!; [done|..].
    + split; [done|]. rewrite <- Eq. symmetry. apply Z.mod_small. by apply u_val_range.
    + split; [done|]. rewrite <- Er. symmetry. apply Z.mod_small. by apply u_val_range.
  - intros. by apply u_divmod_signed_spec.
Qed.

Lemma emulated_is_exact_witness :
  represents (u_mult (mkU128 0 (2 ^ 63 + 5)) (mkU128 1 7)) ((2 ^ 63 + 5) * (2 ^ 64 + 7)) /\
  u_divmod_signed (from_signed (-100)) 7 = Some (-14, -2).
Proof.
  destruct (emulated_is_exact (mkU128 0 (2 ^ 63 + 5)) (mkU128 1 7) 3 (-100) 7)
    as (_ & _ & H & _); [split; vm_compute; split; congruence || reflexivity..|lia|lia|lia|].
  destruct (emulated_is_exact (from_signed (-100)) (mkU128 1 7) 3 (-100) 7)
    as (_ & _ & _ & _ & _ & _ & _ & H'); [split; vm_compute; split; congruence || reflexivity..|lia|lia|lia|].
  split; [exact H|]. exact (H' ltac:(done) ltac:(vm_compute; reflexivity)).
Defined.
