(* ===== verification/Fees.v ===== *)
(** * Prices and fees (crypto/block/mc-config.h, crypto/block/transaction.cpp)

    What an account pays for storage, gas and messages.  Amounts are [td::RefInt256] in
    the code; here they are integers, since with prices of 64 bits and times of 32 bits
    none comes near the 257 bits of that type ([storage_fees_bound] and the other bounds
    of this file).  A price of type [uint64] that meets an operator with a [long long]
    operand is converted ([ll]). *)
From stdpp Require Import sorting.
From S2P Require Import Prelude BigInt Int256 Uint128.

(** Conversion of a [uint64] to [long long]. *)
Definition ll (x : Z) : Z := wrap_s 64 x.

(** ** Storage *)

Record StorageUsed : Type := mkStorageUsed { su_cells : Z; su_bits : Z }.

Record StoragePrices : Type := mkStoragePrices {
  valid_since : Z;
  bit_price : Z; cell_price : Z;
  mc_bit_price : Z; mc_cell_price : Z
}.

(** [None] is [false]. *)
Definition add_partial_storage_payment (payment delta : Z) (prices : StoragePrices)
    (storage_used : StorageUsed) (is_mc : bool) : option Z :=
  let c := ll (su_cells storage_used) in
  let b := ll (su_bits storage_used) in
  let c := c * ll (if is_mc then mc_cell_price prices else cell_price prices) in
  let b := b * ll (if is_mc then mc_bit_price prices else bit_price prices) in
  let b := b + c in
  let b := b * delta in
  if 0 <=? b then Some (payment + b) else None.

(** [while (i && pricing[i - 1].valid_since > last_paid) --i;] *)
Fixpoint storage_start (pricing : list StoragePrices) (last_paid : Z) (i : nat) : nat :=
  match i with
  | O => O
  | S j =>
      match pricing !! j with
      | Some p => if last_paid <? valid_since p then storage_start pricing last_paid j else i
      | None => i
      end
  end.

(** The loop over [pricing[i]], [pricing[i + 1]], ...; [None] is the null reference that
    a failed check returns. *)
Fixpoint storage_loop (now : Z) (storage_used : StorageUsed) (is_masterchain : bool)
    (prices : list StoragePrices) (upto total : Z) : option Z :=
  match prices with
  | [] => Some total
  | p :: rest =>
      if upto <? now then
        let valid_until := match rest with [] => now | q :: _ => Z.min now (valid_since q) end in
        if upto <? valid_until then
          if valid_since p <=? upto then
            match add_partial_storage_payment total (valid_until - upto) p storage_used
                    is_masterchain with
            | Some total' => storage_loop now storage_used is_masterchain rest valid_until total'
            | None => None
            end
          else None
        else storage_loop now storage_used is_masterchain rest valid_until total
      else Some total
  end.

Definition compute_storage_fees (now : Z) (pricing : list StoragePrices) (storage_used : StorageUsed)
    (last_paid : Z) (is_special is_masterchain : bool) : option Z :=
  match pricing with
  | [] => Some 0
  | p0 :: _ =>
      if (now <=? last_paid) || (last_paid =? 0) || is_special || (now <=? valid_since p0) then Some 0
      else
        let i := storage_start pricing last_paid (length pricing) in
        let i := match i with O => O | S j => j end in
        let upto := Z.max last_paid (valid_since p0) in
        match storage_loop now storage_used is_masterchain (drop i pricing) upto 0 with
        | Some total => Some (round_div 1 total (2 ^ 16))
        | None => None
        end
  end.

(** ** Gas *)

(** The part of [ComputePhaseConfig] (and of [GasLimitsPrices]) that prices gas. *)
Record GasPrices : Type := mkGasPrices {
  gp_gas_price : Z;
  gp_gas_limit : Z;
  gp_flat_gas_limit : Z;
  gp_flat_gas_price : Z
}.

Definition compute_max_gas_threshold (gas_price256 gas_limit flat_gas_limit flat_gas_price : Z) : Z :=
  if flat_gas_limit <? gas_limit then
    round_div 1 (gas_price256 * ll (gas_limit - flat_gas_limit)) (2 ^ 16) + flat_gas_price
  else flat_gas_price.

(** [gas_price256] and [max_gas_threshold], as [compute_threshold] sets them. *)
Definition compute_threshold (g : GasPrices) : Z :=
  compute_max_gas_threshold (gp_gas_price g) (gp_gas_limit g) (gp_flat_gas_limit g) (gp_flat_gas_price g).

(** [gas_bought_for] with a given limit; [None] stands for a null reference.  The division
    by a zero price would give an invalid number, whose [to_long] is [long_nan]. *)
Definition gas_bought_upto (g : GasPrices) (gas_limit max_gas_threshold : Z) (nanograms : option Z) : Z :=
  match nanograms with
  | None => 0
  | Some n =>
      if n <? 0 then 0
      else if max_gas_threshold <=? n then gas_limit
      else if n <? ll (gp_flat_gas_price g) then 0
      else
        let res := if gp_gas_price g =? 0 then long_nan
                   else int_to_long (Int (Z.shiftl (n - ll (gp_flat_gas_price g)) 16 / gp_gas_price g)) in
        u64 (res + gp_flat_gas_limit g)
  end.

Definition gas_bought_for (g : GasPrices) (nanograms : option Z) : Z :=
  gas_bought_upto g (gp_gas_limit g) (compute_threshold g) nanograms.

Definition compute_gas_price (g : GasPrices) (gas_used : Z) : Z :=
  if gas_used <=? gp_flat_gas_limit g then gp_flat_gas_price g
  else round_div 1 (gp_gas_price g * ll (gas_used - gp_flat_gas_limit g)) (2 ^ 16)
       + ll (gp_flat_gas_price g).

(** ** Messages *)

Record MsgPrices : Type := mkMsgPrices {
  lump_price : Z; mp_bit_price : Z; mp_cell_price : Z;
  ihr_factor : Z; first_frac : Z; next_frac : Z
}.

Definition compute_fwd_fees (mp : MsgPrices) (cells bits : Z) : Z :=
  u64 (lump_price mp +
       u_lo (u_shr (u_add (u_add (u_mult_word (from_unsigned (mp_bit_price mp)) bits)
                             (u_mult_word (from_unsigned (mp_cell_price mp)) cells))
                      (from_unsigned (2 ^ 16 - 1))) 16)).

Definition compute_fwd_fees256 (mp : MsgPrices) (cells bits : Z) : Z :=
  lump_price mp + round_div 1 (mp_bit_price mp * ll bits + mp_cell_price mp * ll cells) (2 ^ 16).

Definition compute_fwd_ihr_fees (mp : MsgPrices) (cells bits : Z) (ihr_disabled : bool) : Z * Z :=
  let fwd := compute_fwd_fees mp cells bits in
  if ihr_disabled then (fwd, 0)
  else (fwd, u_lo (u_shr (u_mult_word (from_unsigned fwd) (ihr_factor mp)) 16)).

(** The overloads of [get_first_part] for [RefInt256] and [uint64]. *)
Definition get_first_part (mp : MsgPrices) (total : Z) : Z := Z.shiftr (total * first_frac mp) 16.
Definition get_first_part_u64 (mp : MsgPrices) (total : Z) : Z :=
  u_lo (u_shr (u_mult_word (from_unsigned total) (first_frac mp)) 16).
Definition get_next_part (mp : MsgPrices) (total : Z) : Z := Z.shiftr (total * next_frac mp) 16.

(** ** Storage: the price of every second *)

Definition storage_rate (p : StoragePrices) (u : StorageUsed) (mc : bool) : Z :=
  su_bits u * (if mc then mc_bit_price p else bit_price p) +
  su_cells u * (if mc then mc_cell_price p else cell_price p).

(** The price in force at time [t]: that of the last entry that is valid since [t] or earlier. *)
Definition rate_at (pricing : list StoragePrices) (u : StorageUsed) (mc : bool) (t : Z) : Z :=
  foldl (fun r p => if valid_since p <=? t then storage_rate p u mc else r) 0 pricing.

Fixpoint sum_from (f : Z -> Z) (a : Z) (n : nat) : Z :=
  match n with O => 0 | S n' => f a + sum_from f (a + 1) n' end.
(** The sum of [f t] for [a <= t < b]. *)
Definition sum_between (f : Z -> Z) (a b : Z) : Z := sum_from f a (Z.to_nat (b - a)).

Lemma sum_from_app f a n m : sum_from f a (n + m) = sum_from f a n + sum_from f (a + Z.of_nat n) m.
Proof.
  revert a. induction n as [|n IH]; intros a; cbn [Nat.add sum_from].
  - by rewrite Z.add_0_r.
  - rewrite IH. replace (a + Z.of_nat (S n)) with (a + 1 + Z.of_nat n) by lia. lia.
Qed.
Lemma sum_between_split f a b c : a <= b <= c ->
  sum_between f a c = sum_between f a b + sum_between f b c.
Proof.
  intros. unfold sum_between. replace (Z.to_nat (c - a)) with (Z.to_nat (b - a) + Z.to_nat (c - b))%nat by lia.
  rewrite sum_from_app. do 2 f_equal. lia.
Qed.
Lemma sum_from_ext f g a n :
  (forall t, a <= t < a + Z.of_nat n -> f t = g t) -> sum_from f a n = sum_from g a n.
Proof.
  revert a. induction n as [|n IH]; intros a H; [done|]. cbn [sum_from]. f_equal; [apply H; lia|]. apply IH. intros. apply H. lia.
Qed.
Lemma sum_between_ext f g a b :
  (forall t, a <= t < b -> f t = g t) -> sum_between f a b = sum_between g a b.
Proof. intros. apply sum_from_ext. intros. apply H. lia. Qed.
Lemma sum_from_const c a n : sum_from (fun _ => c) a n = c * Z.of_nat n.
Proof. revert a. induction n as [|n IH]; intros a; cbn [sum_from]; [|rewrite IH]; lia. Qed.
Lemma sum_between_const c a b : a <= b -> sum_between (fun _ => c) a b = c * (b - a).
Proof. intros. unfold sum_between. rewrite sum_from_const. f_equal. lia. Qed.
Lemma sum_between_nonneg f a b : (forall t, 0 <= f t) -> 0 <= sum_between f a b.
Proof.
  intros Hf. unfold sum_between. generalize (Z.to_nat (b - a)) as n. intros n. revert a.
  induction n as [|n IH]; intros a; cbn; [lia|]. specialize (Hf a). specialize (IH (a + 1)). lia.
Qed.
Lemma sum_between_empty f a b : b <= a -> sum_between f a b = 0.
Proof. intros. unfold sum_between. by replace (Z.to_nat (b - a)) with 0%nat by lia. Qed.

(** Prices as the configuration lists them: below 2^63, with increasing times. *)
Definition price_ok (x : Z) : Prop := 0 <= x < 2 ^ 63.
Definition storage_price_ok (p : StoragePrices) : Prop :=
  0 <= valid_since p < 2 ^ 32 /\ price_ok (bit_price p) /\ price_ok (cell_price p) /\
  price_ok (mc_bit_price p) /\ price_ok (mc_cell_price p).
Definition pricing_ok (pricing : list StoragePrices) : Prop :=
  Forall storage_price_ok pricing /\ StronglySorted (fun p q => valid_since p <= valid_since q) pricing.
Definition storage_used_ok (u : StorageUsed) : Prop := price_ok (su_cells u) /\ price_ok (su_bits u).

Lemma ll_id x : price_ok x -> ll x = x.
Proof. intros ?. apply wrap_s_small; [lia|]. unfold price_ok in *. change (64 - 1) with 63. lia. Qed.

Lemma storage_rate_nonneg p u mc : storage_price_ok p -> storage_used_ok u -> 0 <= storage_rate p u mc.
Proof. intros (_ & [] & [] & [] & []) [[] []]. unfold storage_rate. destruct mc; nia. Qed.

Lemma add_partial_ok payment delta p u mc :
  storage_price_ok p -> storage_used_ok u -> 0 <= delta ->
  add_partial_storage_payment payment delta p u mc = Some (payment + storage_rate p u mc * delta).
Proof.
  intros Hp Hu Hd. pose proof (storage_rate_nonneg p u mc Hp Hu) as Hr.
  destruct Hp as (_ & ? & ? & ? & ?), Hu. unfold add_partial_storage_payment, storage_rate in *.
  rewrite !ll_id by (try destruct mc; done). rewrite (proj2 (Z.leb_le _ _)) by nia. done.
Qed.

Lemma rate_at_app l1 p l2 u mc t : valid_since p <= t ->
  rate_at (l1 ++ p :: l2) u mc t = rate_at (p :: l2) u mc t.
Proof.
  intros. unfold rate_at. rewrite foldl_app. cbn. by rewrite (proj2 (Z.leb_le _ _)) by done.
Qed.

Lemma rate_at_cons p l u mc t : valid_since p <= t ->
  rate_at (p :: l) u mc t =
    foldl (fun r p => if valid_since p <=? t then storage_rate p u mc else r) (storage_rate p u mc) l.
Proof. intros. unfold rate_at. simpl. by rewrite (proj2 (Z.leb_le _ _)) by done. Qed.

(** Entries that become valid later do not count. *)
Lemma rate_at_later l u mc t r : Forall (fun q => t < valid_since q) l ->
  foldl (fun r p => if valid_since p <=? t then storage_rate p u mc else r) r l = r.
Proof.
  intros H. induction H as [|q l Hq _ IH]; [done|]. cbn. by rewrite (proj2 (Z.leb_gt _ _)) by done.
Qed.

Lemma storage_loop_cons now u mc p rest upto total :
  storage_loop now u mc (p :: rest) upto total =
    if upto <? now then
      let valid_until := match rest with [] => now | q :: _ => Z.min now (valid_since q) end in
      if upto <? valid_until then
        if valid_since p <=? upto then
          total' ← add_partial_storage_payment total (valid_until - upto) p u mc;
          storage_loop now u mc rest valid_until total'
        else None
      else storage_loop now u mc rest valid_until total
    else Some total.
Proof. reflexivity. Qed.

Lemma storage_loop_ok now u mc p rest upto total :
  pricing_ok (p :: rest) -> storage_used_ok u -> valid_since p <= upto <= now ->
  (forall q, head rest = Some q -> upto <= valid_since q) ->
  storage_loop now u mc (p :: rest) upto total =
    Some (total + sum_between (rate_at (p :: rest) u mc) upto now).
Proof.
  revert p upto total. induction rest as [|q rest IH]; intros p upto total [Hok Hs] Hu Hupto Hq.
  all: inversion Hok as [|? ? Hp Hr]; subst; inversion Hs as [|? ? Hs' Hle]; subst.
  - cbn [storage_loop]. rewrite (sum_between_ext _ (fun _ => storage_rate p u mc)), sum_between_const.
    2: lia. 2: { intros. unfold rate_at. cbn. by rewrite (proj2 (Z.leb_le _ _)) by lia. }
    destruct (Z.ltb_spec upto now); [|replace now with upto by lia; by rewrite Z.sub_diag, Z.mul_0_r, Z.add_0_r].
    rewrite (proj2 (Z.leb_le _ _)) by lia. rewrite add_partial_ok by (done || lia). done.
  - specialize (Hq q eq_refl). rewrite storage_loop_cons. cbv zeta. set (until := Z.min now (valid_since q)).
    assert (sum_between (rate_at (p :: q :: rest) u mc) upto now =
      storage_rate p u mc * (until - upto) + sum_between (rate_at (q :: rest) u mc) until now) as ->.
    { rewrite (sum_between_split _ _ until) by lia. f_equal.
      - rewrite (sum_between_ext _ (fun _ => storage_rate p u mc)); [apply sum_between_const; lia|].
        intros t Ht. rewrite rate_at_cons by lia. apply rate_at_later.
        inversion Hs' as [|? ? _ Hq']; subst. constructor; [lia|].
        revert Hq'. apply Forall_impl. cbn. lia.
      - destruct (Z.lt_ge_cases (valid_since q) now).
        + apply sum_between_ext. intros t ?. apply (rate_at_app [p] q). lia.
        + rewrite !sum_between_empty; lia. }
    assert (forall tot, storage_loop now u mc (q :: rest) until tot =
      Some (tot + sum_between (rate_at (q :: rest) u mc) until now)) as Hloop.
    { intros tot. destruct (Z.lt_ge_cases (valid_since q) now).
      - apply IH; [by split|done|lia|]. intros q' Eq'. destruct rest; [done|]. injection Eq' as ->.
        inversion Hs' as [|? ? _ Hq']; subst. inversion Hq'; subst. lia.
      - cbn [storage_loop]. rewrite (proj2 (Z.ltb_ge _ _)) by lia. rewrite sum_between_empty by lia.
        by rewrite Z.add_0_r. }
    destruct (Z.ltb_spec upto now).
    + destruct (Z.ltb_spec upto until).
      * rewrite (proj2 (Z.leb_le _ _)) by lia. rewrite add_partial_ok by (done || lia).
        cbn [mbind option_bind]. rewrite Hloop. f_equal. lia.
      * rewrite Hloop. replace (until - upto) with 0 by lia. f_equal. lia.
    + rewrite sum_between_empty by lia. replace (until - upto) with 0 by lia. f_equal. lia.
Qed.

Lemma storage_start_spec pricing last_paid n :
  StronglySorted (fun p q => valid_since p <= valid_since q) pricing -> (n <= length pricing)%nat ->
  let i := storage_start pricing last_paid n in
  (i <= n)%nat /\
  (forall p j, pricing !! j = Some p -> (j < i)%nat -> (i = S j) -> valid_since p <= last_paid) /\
  (forall p j, pricing !! j = Some p -> (i <= j < n)%nat -> last_paid < valid_since p).
Proof.
  intros Hs. induction n as [|n IH]; intros Hn; cbn [storage_start].
  { split_and!; intros; lia. }
  destruct (lookup_lt_is_Some_2 pricing n) as [p Hp]; [lia|]. rewrite Hp.
  destruct (Z.ltb_spec last_paid (valid_since p)) as [Hlt|Hge].
  - destruct IH as (H1 & H2 & H3); [lia|]. split_and!; [lia|done|].
    intros p' j Hj ?. destruct (decide (j = n)) as [->|]; [by simplify_eq|]. eapply H3; [done|lia].
  - split_and!; [lia| |intros; lia]. intros p' j Hj _ [= ->]. by simplify_eq.
Qed.

Lemma rate_at_early p0 rest u mc t :
  StronglySorted (fun p q => valid_since p <= valid_since q) (p0 :: rest) -> t < valid_since p0 ->
  rate_at (p0 :: rest) u mc t = 0.
Proof.
  intros Hs Ht. inversion Hs as [|? ? _ Hle]; subst. apply rate_at_later. constructor; [done|].
  revert Hle. apply Forall_impl. cbn. lia.
Qed.

Lemma storage_fees_sum now pricing u last_paid mc :
  pricing_ok pricing -> storage_used_ok u -> 0 < last_paid < now ->
  compute_storage_fees now pricing u last_paid false mc =
    Some (round_div 1 (sum_between (rate_at pricing u mc) last_paid now) (2 ^ 16)).
Proof.
  intros Hp Hu Hl. destruct pricing as [|p0 rest]; [|].
  { cbn. by rewrite (sum_between_ext _ (fun _ => 0)), sum_between_const by (done || lia). }
  unfold compute_storage_fees. rewrite (proj2 (Z.leb_gt now last_paid)), (proj2 (Z.eqb_neq _ _)) by lia.
  cbn [orb]. destruct Hp as [Hok Hs]. destruct (Z.leb_spec now (valid_since p0)) as [Hearly|Hlate].
  { rewrite (sum_between_ext _ (fun _ => 0)), sum_between_const by lia || (intros; apply rate_at_early; [done|lia]).
    done. }
  set (pricing := p0 :: rest) in *. set (upto := Z.max last_paid (valid_since p0)).
  destruct (storage_start_spec pricing last_paid (length pricing) Hs) as (H1 & H2 & H3); [done|].
  set (i := storage_start pricing last_paid (length pricing)) in *. clearbody i.
  set (j := match i with O => O | S j => j end).
  assert (j < length pricing)%nat as [p Hj]%lookup_lt_is_Some_2 by (destruct i; cbn in *; lia).
  assert (forall q k, pricing !! k = Some q -> valid_since p0 <= valid_since q) as Hfirst.
  { intros q [|k] Hk; [by simplify_eq/=|]. inversion Hs as [|? ? _ Hle]; subst.
    rewrite Forall_lookup in Hle. by apply (Hle k). }
  rewrite (drop_S _ _ _ Hj).
  assert (pricing = take j pricing ++ p :: drop (S j) pricing) as Esplit
    by (rewrite <- (drop_S _ _ _ Hj); by rewrite take_drop).
  assert (valid_since p <= upto) as Hpu.
  { destruct i as [|i']; [by simplify_eq/=; lia|]. specialize (H2 p i' Hj). lia. }
  rewrite storage_loop_ok; [|split|done|lia|].
  - do 2 f_equal. rewrite Z.add_0_l, (sum_between_split _ last_paid upto now) by lia.
    rewrite (sum_between_ext (rate_at pricing u mc) (fun _ => 0) last_paid upto).
    2: { intros. apply rate_at_early; [done|lia]. }
    rewrite sum_between_const by lia. rewrite Z.mul_0_l, Z.add_0_l.
    apply sum_between_ext. intros. rewrite Esplit at 2. symmetry. apply rate_at_app. lia.
  - rewrite Esplit in Hok. by apply Forall_app in Hok as [_ ?].
  - rewrite Esplit in Hs. by apply StronglySorted_app_1_r in Hs.
  - intros q Hq. assert (pricing !! S j = Some q) as Hq'.
    { rewrite <- (Nat.add_0_r (S j)), <- lookup_drop, <- Hq. by destruct (drop (S j) pricing). }
    pose proof (Hfirst _ _ Hq'). pose proof (lookup_lt_Some _ _ _ Hq').
    specialize (H3 q (S j) Hq'). destruct i; cbn in *; lia.
Qed.

(** C25: The storage fee is the exact sum, over every second since the last payment, of the price in
    force at that second, rounded up to a whole nanogram once at the end. *)
Theorem storage_fees_exact now pricing u last_paid mc :
  pricing_ok pricing -> storage_used_ok u -> 0 < last_paid < now ->
  compute_storage_fees now pricing u last_paid false mc =
    Some (round_div 1 (sum_between (rate_at pricing u mc) last_paid now) (2 ^ 16)).
Proof. apply storage_fees_sum. Qed.

Lemma storage_fees_exact_witness :
  compute_storage_fees 1000 [mkStoragePrices 0 1 500 1000 500000; mkStoragePrices 400 2 700 1000 500000]
    (mkStorageUsed 3 1500) 100 false false = Some (round_div 1 (3000 * 300 + 5100 * 600) (2 ^ 16)).
Proof.
  rewrite storage_fees_exact; [vm_compute; reflexivity|split|split; split; vm_compute; congruence|lia].
  - repeat constructor; vm_compute; congruence.
  - repeat constructor; vm_compute; congruence.
Defined.

(** ** Rounding up *)

Lemma ceil_spec a b q : 0 < b -> (round_div 1 a b <= q <-> a <= q * b).
Proof.
  intros Hb. unfold round_div. cbn. pose proof (Z.div_mod (- a) b). pose proof (Z.mod_pos_bound (- a) b).
  split; intros; nia.
Qed.
Lemma ceil_add a c b : 0 < b ->
  round_div 1 (a + c) b <= round_div 1 a b + round_div 1 c b <= round_div 1 (a + c) b + 1.
Proof.
  intros Hb. split; [rewrite ceil_spec by done|]; unfold round_div; cbn;
    pose proof (Z.div_mod (- a) b); pose proof (Z.mod_pos_bound (- a) b);
    pose proof (Z.div_mod (- c) b); pose proof (Z.mod_pos_bound (- c) b); [nia|].
  pose proof (Z.div_mod (- (a + c)) b). pose proof (Z.mod_pos_bound (- (a + c)) b). nia.
Qed.
Lemma ceil_mono a c b : 0 < b -> a <= c -> round_div 1 a b <= round_div 1 c b.
Proof. intros. rewrite ceil_spec by done. pose proof (proj1 (ceil_spec c b _ H) (Z.le_refl _)). lia. Qed.
Lemma ceil_nonneg a b : 0 < b -> 0 <= a -> 0 <= round_div 1 a b.
Proof. intros ? ?. replace 0 with (round_div 1 0 b) by (unfold round_div; cbn; by rewrite Z.div_0_l by lia).
  by apply ceil_mono. Qed.

Lemma rate_at_nonneg pricing u mc t :
  Forall storage_price_ok pricing -> storage_used_ok u -> 0 <= rate_at pricing u mc t.
Proof.
  intros Hp Hu. unfold rate_at. assert (0 <= 0) as H0 by lia. revert H0. generalize 0 at 2 4 as r.
  induction Hp as [|p l Hp _ IH]; intros r Hr; [done|]. cbn. apply IH.
  case_match; [by apply storage_rate_nonneg|done].
Qed.

(** Paying in two instalments costs as much as paying at once, up to one nanogram, and a later
    payment is never cheaper. *)
Theorem storage_fees_additive pricing u mc t1 t2 t3 f12 f23 f13 :
  pricing_ok pricing -> storage_used_ok u -> 0 < t1 -> t1 < t2 -> t2 < t3 ->
  compute_storage_fees t2 pricing u t1 false mc = Some f12 ->
  compute_storage_fees t3 pricing u t2 false mc = Some f23 ->
  compute_storage_fees t3 pricing u t1 false mc = Some f13 ->
  0 <= f12 /\ 0 <= f23 /\ f12 <= f13 /\ f13 <= f12 + f23 <= f13 + 1.
Proof.
  intros Hp Hu H1 H2 H3. rewrite !storage_fees_sum by (done || lia). intros [= <-] [= <-] [= <-].
  set (r := rate_at pricing u mc). assert (forall t, 0 <= r t) by (intros; apply rate_at_nonneg; [apply Hp|done]).
  pose proof (sum_between_nonneg r t1 t2 H). pose proof (sum_between_nonneg r t2 t3 H).
  rewrite (sum_between_split r t1 t2 t3) by lia.
  split_and!; [apply ceil_nonneg; lia..|apply ceil_mono; lia|apply ceil_add; lia|apply ceil_add; lia].
Qed.

Lemma storage_fees_additive_witness :
  exists f12 f23 f13, 0 <= f12 /\ 0 <= f23 /\ f12 <= f13 /\ f13 <= f12 + f23 <= f13 + 1 /\ f13 = 17.
Proof.
  pose proof (storage_fees_additive [mkStoragePrices 0 1 500 1000 500000] (mkStorageUsed 3 1500) false
    100 200 463 _ _ _ ltac:(repeat constructor; vm_compute; congruence)
    ltac:(split; split; vm_compute; congruence) ltac:(lia) ltac:(lia) ltac:(lia) eq_refl eq_refl eq_refl)
    as (H1 & H2 & H3 & H4).
  eexists _, _, _. split_and!; [exact H1|exact H2|exact H3|apply H4|apply H4|vm_compute; reflexivity].
Defined.

(** ** Gas *)

Definition gas_prices_ok (g : GasPrices) : Prop :=
  price_ok (gp_gas_price g) /\ price_ok (gp_gas_limit g) /\
  price_ok (gp_flat_gas_limit g) /\ price_ok (gp_flat_gas_price g).

Lemma compute_gas_price_eq g gas : gas_prices_ok g -> price_ok gas ->
  compute_gas_price g gas =
    gp_flat_gas_price g +
    (if gas <=? gp_flat_gas_limit g then 0
     else round_div 1 (gp_gas_price g * (gas - gp_flat_gas_limit g)) (2 ^ 16)).
Proof.
  intros (_ & _ & Hl & Hp) Hg. unfold compute_gas_price. destruct (Z.leb_spec gas (gp_flat_gas_limit g)); [lia|].
  rewrite (ll_id (gp_flat_gas_price g)) by done. rewrite ll_id by (unfold price_ok in *; lia). lia.
Qed.
Lemma compute_gas_price_nonneg g gas : gas_prices_ok g -> price_ok gas -> 0 <= compute_gas_price g gas.
Proof.
  intros Hok Hg. rewrite compute_gas_price_eq by done. destruct Hok as ([] & _ & [] & []).
  destruct (Z.leb_spec gas (gp_flat_gas_limit g)); [lia|].
  pose proof (ceil_nonneg (gp_gas_price g * (gas - gp_flat_gas_limit g)) (2 ^ 16)). nia.
Qed.
Lemma compute_gas_price_mono g a b : gas_prices_ok g -> price_ok a -> price_ok b -> a <= b ->
  compute_gas_price g a <= compute_gas_price g b.
Proof.
  intros Hok Ha Hb Hab. rewrite !compute_gas_price_eq by done. destruct Hok as ([] & _ & [] & []).
  destruct (Z.leb_spec a (gp_flat_gas_limit g)), (Z.leb_spec b (gp_flat_gas_limit g)); try lia.
  - pose proof (ceil_nonneg (gp_gas_price g * (b - gp_flat_gas_limit g)) (2 ^ 16)). nia.
  - pose proof (ceil_mono (gp_gas_price g * (a - gp_flat_gas_limit g))
      (gp_gas_price g * (b - gp_flat_gas_limit g)) (2 ^ 16)). nia.
Qed.

(** What [gas_bought_upto] does once its two guards have passed. *)
Lemma gas_bought_between g limit n :
  gas_prices_ok g -> price_ok limit ->
  gp_flat_gas_price g <= n ->
  n < compute_max_gas_threshold (gp_gas_price g) limit (gp_flat_gas_limit g) (gp_flat_gas_price g) ->
  0 < gp_gas_price g /\ gp_flat_gas_limit g < limit /\
  let q := (n - gp_flat_gas_price g) * 2 ^ 16 / gp_gas_price g in
  0 <= q < limit - gp_flat_gas_limit g /\
  (forall x, x <= q <-> round_div 1 (gp_gas_price g * x) (2 ^ 16) <= n - gp_flat_gas_price g).
Proof.
  intros ([] & _ & [] & []) [] Hlo Hhi. unfold compute_max_gas_threshold in Hhi.
  destruct (Z.ltb_spec (gp_flat_gas_limit g) limit); [|lia].
  rewrite ll_id in Hhi by (unfold price_ok; lia).
  assert (~ round_div 1 (gp_gas_price g * (limit - gp_flat_gas_limit g)) (2 ^ 16) <= n - gp_flat_gas_price g) as Hn by lia.
  rewrite ceil_spec in Hn by lia. assert (0 < gp_gas_price g) by nia.
  split_and!; [done..|]. intros q. split.
  - split; [apply Z.div_pos; lia|]. apply Z.div_lt_upper_bound; lia.
  - intros x. rewrite ceil_spec by lia. split; intros Hx.
    + pose proof (Z.mul_div_le ((n - gp_flat_gas_price g) * 2 ^ 16) (gp_gas_price g)). nia.
    + apply Z.div_le_lower_bound; lia.
Qed.

Lemma gas_bought_upto_spec g limit n :
  gas_prices_ok g -> price_ok limit ->
  let bought := gas_bought_upto g limit
    (compute_max_gas_threshold (gp_gas_price g) limit (gp_flat_gas_limit g) (gp_flat_gas_price g)) (Some n) in
  0 <= bought <= limit /\
  (forall gas, 0 < gas <= limit -> (compute_gas_price g gas <= n <-> gas <= bought)).
Proof.
  intros Hok Hl. unfold gas_bought_upto. set (thr := compute_max_gas_threshold _ _ _ _).
  assert (forall gas, 0 < gas <= limit -> price_ok gas) as Hg by (unfold price_ok in *; lia).
  rewrite ll_id by apply Hok.
  destruct (Z.ltb_spec n 0).
  { split; [unfold price_ok in *; lia|]. intros gas Hgas. pose proof (compute_gas_price_nonneg g gas Hok (Hg _ Hgas)). lia. }
  destruct (Z.leb_spec thr n).
  { split; [unfold price_ok in *; lia|]. intros gas Hgas. split; [lia|]. intros _.
    assert (compute_gas_price g limit <= thr).
    { rewrite compute_gas_price_eq by done. unfold thr, compute_max_gas_threshold.
      destruct (Z.leb_spec limit (gp_flat_gas_limit g)), (Z.ltb_spec (gp_flat_gas_limit g) limit); try lia.
      rewrite ll_id; [lia|]. destruct Hok as (_ & _ & [] & _). unfold price_ok in *; lia. }
    pose proof (compute_gas_price_mono g gas limit Hok (Hg _ Hgas) Hl). lia. }
  destruct (Z.ltb_spec n (gp_flat_gas_price g)).
  { split; [unfold price_ok in *; lia|]. intros gas Hgas. rewrite compute_gas_price_eq by auto.
    destruct (Z.leb_spec gas (gp_flat_gas_limit g)); [lia|]. destruct Hok as ([] & _ & [] & []).
    pose proof (ceil_nonneg (gp_gas_price g * (gas - gp_flat_gas_limit g)) (2 ^ 16)). nia. }
  destruct (gas_bought_between g limit n Hok Hl) as (Hp & HF & Hq & Hx); [done|done|].
  rewrite (proj2 (Z.eqb_neq (gp_gas_price g) 0)) by lia. rewrite Z.shiftl_mul_pow2 by lia.
  set (q := (n - gp_flat_gas_price g) * 2 ^ 16 / gp_gas_price g) in *. clearbody q.
  destruct Hok as (Hok1 & Hok2 & HokF & HokP). unfold price_ok in *.
  assert (u64 (int_to_long (Int q) + gp_flat_gas_limit g) = q + gp_flat_gas_limit g) as ->.
  { unfold int_to_long. rewrite (proj2 (fits_s_spec 64 q)) by lia. apply wrap_u_small. lia. }
  split; [lia|]. intros gas Hgas. rewrite compute_gas_price_eq by (repeat split; unfold price_ok; lia).
  specialize (Hx (gas - gp_flat_gas_limit g)).
  destruct (Z.leb_spec gas (gp_flat_gas_limit g)); [lia|]. lia.
Qed.

(** C26: Buying gas and pricing it are adjoint: an amount buys [g] units of gas, up to the limit, exactly
    when it pays for them.  In particular the gas bought never costs more than the amount, and
    one unit more would. *)
Theorem gas_bought_is_affordable g n gas :
  gas_prices_ok g -> 0 < gas <= gp_gas_limit g ->
  0 <= gas_bought_for g (Some n) <= gp_gas_limit g /\
  (compute_gas_price g gas <= n <-> gas <= gas_bought_for g (Some n)).
Proof.
  intros Hok Hg. destruct (gas_bought_upto_spec g (gp_gas_limit g) n Hok) as [H1 H2]; [apply Hok|].
  split; [exact H1|]. exact (H2 gas Hg).
Qed.

Lemma gas_bought_is_affordable_witness :
  let g := mkGasPrices 26214400 1000000 100 40000 in
  gas_bought_for g (Some 1000000) = 2500 /\ compute_gas_price g 2500 <= 1000000 /\
  ~ compute_gas_price g 2501 <= 1000000.
Proof.
  intros g. assert (gas_prices_ok g) as Hok by (split_and!; split; vm_compute; congruence).
  assert (gas_bought_for g (Some 1000000) = 2500) as E by (vm_compute; reflexivity).
  split_and!; [exact E| |].
  - apply (gas_bought_is_affordable g 1000000 2500 Hok); [subst g; cbn; lia|]. rewrite E. lia.
  - rewrite (proj2 (gas_bought_is_affordable g 1000000 2501 Hok ltac:(subst g; cbn; lia))), E. lia.
Defined.

(** ** Messages *)

Definition word_ok (x : Z) : Prop := 0 <= x < 2 ^ 64.
Definition msg_prices_ok (mp : MsgPrices) : Prop :=
  word_ok (lump_price mp) /\ word_ok (mp_bit_price mp) /\ word_ok (mp_cell_price mp) /\
  0 <= ihr_factor mp < 2 ^ 32 /\ 0 <= first_frac mp <= 2 ^ 16 /\ 0 <= next_frac mp <= 2 ^ 16.

Lemma u_word x : word_ok x -> u_ok (mkU128 0 x) /\ u_val (mkU128 0 x) = x.
Proof. intros. unfold u_ok, u_val, word_ok in *. cbn [u_hi u_lo]. lia. Qed.
Lemma u_mult_words x y : word_ok x -> word_ok y ->
  u_ok (u_mult_word (from_unsigned x) y) /\ u_val (u_mult_word (from_unsigned x) y) = x * y.
Proof.
  intros Hx Hy. destruct (u_word x Hx) as [Ox Ex], (u_word y Hy) as [Oy Ey].
  pose proof (u_mult_spec _ _ Ox Oy) as H. rewrite Ex, Ey in H.
  split; [apply H|]. apply represents_small; [exact H|]. unfold word_ok in *. u_consts. nia.
Qed.
Lemma u_shr16 x : u_ok x -> u_lo (u_shr x 16) = u64 (u_val x / 2 ^ 16).
Proof.
  intros Hx. destruct (u_shr_spec x 16 Hx) as [O E]; [lia|]. pose proof (u_val_range _ Hx).
  rewrite Z.mod_small in E by (u_consts; change (2 ^ 16) with 65536; div_lia).
  rewrite <- E. u_solve.
Qed.

(** The fee of a message in 64-bit arithmetic is the one in unbounded arithmetic whenever that fits 64
    bits, [lump_price + ceil((bits * bit_price + cells * cell_price) / 2^16)]. *)
Theorem fwd_fees_agree mp cells bits :
  msg_prices_ok mp -> price_ok cells -> price_ok bits ->
  compute_fwd_fees256 mp cells bits < 2 ^ 64 ->
  compute_fwd_fees mp cells bits = compute_fwd_fees256 mp cells bits.
Proof.
  intros (Hl & Hb & Hc & _) Hcells Hbits Hfit.
  unfold compute_fwd_fees, compute_fwd_fees256 in *. rewrite !ll_id in * by done.
  assert (word_ok bits /\ word_ok cells) as [Wb Wc] by (unfold word_ok, price_ok in *; lia).
  destruct (u_mult_words _ _ Hb Wb) as [O1 E1], (u_mult_words _ _ Hc Wc) as [O2 E2].
  set (v := mp_bit_price mp * bits + mp_cell_price mp * cells) in *.
  assert (0 <= v /\ v <= (2 ^ 64 - 1) * 2 ^ 16) as [Hv0 Hv].
  { unfold word_ok, price_ok in *. split; [unfold v; nia|]. apply ceil_spec; lia. }
  pose proof (u_add_spec _ _ O1 O2) as H3. rewrite E1, E2 in H3. fold v in H3.
  pose proof (represents_small _ _ H3 ltac:(u_consts; lia)) as E3. destruct H3 as [O3 _].
  destruct (u_word (2 ^ 16 - 1)) as [O4 E4]; [unfold word_ok; lia|].
  pose proof (u_add_spec _ _ O3 O4) as H5. rewrite E3, E4 in H5.
  pose proof (represents_small _ _ H5 ltac:(u_consts; change (2 ^ 16) with 65536 in *; lia)) as E5. destruct H5 as [O5 _].
  change (from_unsigned (2 ^ 16 - 1)) with (mkU128 0 (2 ^ 16 - 1)). rewrite u_shr16, E5 by exact O5.
  assert (round_div 1 v (2 ^ 16) = (v + (2 ^ 16 - 1)) / 2 ^ 16) as Er.
  { unfold round_div. cbn [Z.ltb Z.eqb Z.compare]. change (2 ^ 16) with 65536. div_lia. }
  rewrite Er in *. unfold word_ok in *. set (c := (v + (2 ^ 16 - 1)) / 2 ^ 16) in *.
  assert (0 <= c) by (apply Z.div_pos; lia). clearbody c.
  unfold u64. rewrite (wrap_u_small _ c) by lia. apply wrap_u_small. lia.
Qed.

Lemma fwd_fees_agree_witness :
  compute_fwd_fees (mkMsgPrices 400000 26214400 2621440000 98304 21845 21845) 2 1000 = 880000 /\
  compute_fwd_fees (mkMsgPrices 400000 26214400 2621440000 98304 21845 21845) 2 1000 =
    compute_fwd_fees256 (mkMsgPrices 400000 26214400 2621440000 98304 21845 21845) 2 1000.
Proof.
  split; [vm_compute; reflexivity|].
  apply fwd_fees_agree; [split_and!; try split; vm_compute; congruence|split; vm_compute; congruence..|vm_compute; reflexivity].
Defined.

(** The two overloads agree, and a part is never more than the whole. *)
Lemma first_part_bound mp total : msg_prices_ok mp -> 0 <= total -> 0 <= get_first_part mp total <= total.
Proof.
  intros (_ & _ & _ & _ & Hf & _) Ht. unfold get_first_part. rewrite Z.shiftr_div_pow2 by lia.
  split; [apply Z.div_pos; nia|]. apply Z.div_le_upper_bound; nia.
Qed.
Lemma first_part_u64 mp total : msg_prices_ok mp -> word_ok total ->
  get_first_part_u64 mp total = get_first_part mp total.
Proof.
  intros Hok Ht. pose proof (first_part_bound mp total Hok ltac:(unfold word_ok in *; lia)) as Hb.
  destruct Hok as (_ & _ & _ & _ & Hf & _). unfold get_first_part_u64, get_first_part in *.
  destruct (u_mult_words total (first_frac mp)) as [O E]; [done|unfold word_ok in *; lia|].
  rewrite u_shr16, E by done. rewrite Z.shiftr_div_pow2 in * by lia.
  apply wrap_u_small. unfold word_ok in *. lia.
Qed.

Lemma compute_fwd_fees_word mp cells bits : word_ok (compute_fwd_fees mp cells bits).
Proof. unfold word_ok, compute_fwd_fees, u64, wrap_u. apply Z.mod_pos_bound. lia. Qed.

(** ** Bounds

    No amount of this file needs more than 160 bits, so that the 257-bit arithmetic of the
    code is exact. *)

Lemma storage_rate_bound p u mc : storage_price_ok p -> storage_used_ok u -> storage_rate p u mc <= 2 ^ 127.
Proof.
  intros (_ & [] & [] & [] & []) [[] []]. unfold storage_rate.
  change (2 ^ 127) with (2 ^ 63 * 2 ^ 63 + 2 ^ 63 * 2 ^ 63). destruct mc; nia.
Qed.
Lemma rate_at_bound pricing u mc t :
  Forall storage_price_ok pricing -> storage_used_ok u -> rate_at pricing u mc t <= 2 ^ 127.
Proof.
  intros Hp Hu. unfold rate_at. assert (0 <= 2 ^ 127) as H0 by lia. revert H0. generalize 0 as r.
  induction Hp as [|p l Hp _ IH]; intros r Hr; [done|]. cbn [foldl]. apply IH.
  case_match; [by apply storage_rate_bound|done].
Qed.
Lemma sum_from_le f c a n : (forall t, f t <= c) -> sum_from f a n <= c * Z.of_nat n.
Proof.
  intros Hf. revert a. induction n as [|n IH]; intros a; cbn [sum_from]; [lia|].
  specialize (Hf a). specialize (IH (a + 1)). lia.
Qed.

Lemma storage_fees_bound now pricing u last_paid mc f :
  pricing_ok pricing -> storage_used_ok u -> 0 < last_paid < now -> now < 2 ^ 32 ->
  compute_storage_fees now pricing u last_paid false mc = Some f -> 0 <= f <= 2 ^ 143.
Proof.
  intros Hp Hu Hl Hn. rewrite storage_fees_sum by done. intros [= <-]. split.
  - apply ceil_nonneg; [lia|]. apply sum_between_nonneg. intros. apply rate_at_nonneg; [apply Hp|done].
  - apply ceil_spec; [lia|]. unfold sum_between.
    pose proof (sum_from_le (rate_at pricing u mc) (2 ^ 127) last_paid (Z.to_nat (now - last_paid))) as H.
    rewrite Z2Nat.id in H by lia.
    assert (2 ^ 127 * (now - last_paid) <= 2 ^ 143 * 2 ^ 16) by
      (change (2 ^ 143 * 2 ^ 16) with (2 ^ 127 * 2 ^ 32); apply Z.mul_le_mono_nonneg_l; lia).
    etransitivity; [apply H|done]. intros. apply rate_at_bound; [apply Hp|done].
Qed.
Lemma compute_gas_price_bound g gas : gas_prices_ok g -> price_ok gas -> compute_gas_price g gas <= 2 ^ 111.
Proof.
  intros Hok Hg. rewrite compute_gas_price_eq by done. destruct Hok as ([] & _ & [] & []), Hg.
  destruct (Z.leb_spec gas (gp_flat_gas_limit g)); [lia|].
  assert (round_div 1 (gp_gas_price g * (gas - gp_flat_gas_limit g)) (2 ^ 16) <= 2 ^ 110); [|lia].
  apply ceil_spec; [lia|]. change (2 ^ 110 * 2 ^ 16) with (2 ^ 63 * 2 ^ 63). nia.
Qed.
