(* ===== verification/Currency.v ===== *)
(** * Amounts of currency (crypto/block/block-parse.cpp, block.cpp)

    The encodings [VarUInteger n] and [Grams], and [CurrencyCollection]: an amount of
    nanograms with a dictionary of extra currencies.  The operations on that dictionary
    are behind class [ExtraDict], of which ExtraCurrency has the instance that the code
    uses; class [ExtraLaws], proved in ExtraSpec, says what they do to the amount of every
    currency.  A [td::RefInt256] that is not null is an integer here
    (Fees explains why its bound is not reached). *)
From S2P Require Import Prelude BigInt Int256 Cells DataCell Dict DictLabel DictNode DictTree DictSpec DictOrder.

Definition empty_ext (cs : CellSlice) : bool := (size cs =? 0)%nat && (size_refs cs =? 0)%nat.

(** ** [VarUInteger n] *)

(** [ln = 32 - count_leading_zeroes32(n - 1)] *)
Definition var_ln (n : Z) : nat := Z.to_nat (Z.log2 (n - 1) + 1).

Definition as_integer_skip (n : Z) (cs : CellSlice) : option (Z * CellSlice) :=
  let '(v, cs) := fetch_ulong (var_ln n) cs in
  let len := wrap_s 32 v in
  if (0 <=? len) && (len <? n) && ((len =? 0) || negb (prefetch_ulong 8 cs =? 0)) then
    match fetch_int256 (Z.to_nat (len * 8)) false cs with
    | Some (Int x, cs) => Some (x, cs)
    | _ => None
    end
  else None.

(** [as_integer(cs)] of [TLB_Complex]: the whole slice. *)
Definition as_integer (n : Z) (cs : CellSlice) : option Z :=
  match as_integer_skip n cs with
  | Some (x, cs) => if empty_ext cs then Some x else None
  | None => None
  end.

Definition store_integer_value (n : Z) (value : Z) (cb : CellBuilder) : option CellBuilder :=
  let k := bit_size (Int value) false in
  if k <=? (n - 1) * 8 then
    cb ← store_long_bool (Z.shiftr (k + 7) 3) (var_ln n) cb;
    store_int256_bool (Int value) (Z.to_nat (Z.land (k + 7) (-8))) false cb
  else None.
Definition store_integer_ref (n : Z) (value : option Z) (cb : CellBuilder) : option CellBuilder :=
  x ← value; store_integer_value n x cb.
Definition store_long (n : Z) (value : Z) (cb : CellBuilder) : option CellBuilder :=
  store_integer_value n (wrap_s 64 value) cb.

(** [t_Grams] is [VarUInteger 16]. *)
Definition t_Grams : Z := 16.

Section cells.
Context `{Sha256}.

(** [cb.finalize()]; [None] is the exception [CellWriteError]. *)
Definition finalize (cb : CellBuilder) : option Cell := create (cb_bits cb) (cb_refs cb) false.
(** [load_cell_slice_ref(cb.finalize())] *)
Definition finalize_slice (cb : CellBuilder) : option CellSlice := slice_of_cell <$> finalize cb.

Definition pack_integer (n : Z) (value : option Z) : option CellSlice :=
  cb ← store_integer_ref n value empty_builder; finalize_slice cb.
End cells.

(** ** Extra currencies

    [HashmapE 32 (VarUInteger 32)]: the functions that go through the dictionary.  A
    [Ref<Cell>] that may be null is an [option Cell]; the outer [option] is the failure
    of the operation. *)
Class ExtraDict := {
  add_values_ref : Cell -> Cell -> option (option Cell);
  sub_values_ref : Cell -> Cell -> option (option Cell);
  (** the loop of [CurrencyCollection::clamp] over the entries of the first dictionary *)
  clamp_extra : option Cell -> option Cell -> option (option Cell);
  (** [check_extra_currency_limit] and [remove_zero_extra_currencies] *)
  extra_currency_limit : option Cell -> Z -> bool;
  remove_zero_extra : option Cell -> Z -> option (option Cell);
  (** [t_ExtraCurrencyCollection.validate_skip] on the slice after the nanograms *)
  validate_extra_skip : CellSlice -> option CellSlice
}.

(** The amount of a currency in a dictionary of extra currencies. *)
Class ExtraLaws `{ExtraDict} := {
  extra_amount : option Cell -> Z -> Z;
  extra_amount_none : forall id, extra_amount None id = 0;
  add_values_amount : forall a b e id, add_values_ref a b = Some e ->
    extra_amount e id = extra_amount (Some a) id + extra_amount (Some b) id;
  sub_values_amount : forall a b e id, sub_values_ref a b = Some e ->
    extra_amount e id = extra_amount (Some a) id - extra_amount (Some b) id
}.

Record CurrencyCollection : Type := mkCC { grams : option Z; extra : option Cell }.

Section currency.
Context `{Sha256} `{ExtraDict}.

Definition add_extra_currency (extra1 extra2 : option Cell) : option (option Cell) :=
  match extra2, extra1 with
  | None, _ => Some extra1
  | _, None => Some extra2
  | Some e2, Some e1 => add_values_ref e1 e2
  end.
Definition sub_extra_currency (extra1 extra2 : option Cell) : option (option Cell) :=
  match extra2, extra1 with
  | None, _ => Some extra1
  | _, None => None
  | Some e2, Some e1 => sub_values_ref e1 e2
  end.

Definition cc_zero : CurrencyCollection := mkCC (Some 0) None.
Definition cc_invalid : CurrencyCollection := mkCC None None.
Definition cc_is_valid (c : CurrencyCollection) : bool := bool_decide (is_Some (grams c)).
Definition has_extra (c : CurrencyCollection) : bool := bool_decide (is_Some (extra c)).
Definition cc_is_zero (c : CurrencyCollection) : bool :=
  match grams c, extra c with Some g, None => g =? 0 | _, _ => false end.

(** [a + b] and [a += b] (which leaves an invalid [a] as it is). *)
Definition cc_add (a b : CurrencyCollection) : CurrencyCollection :=
  match grams a, grams b with
  | Some x, Some y =>
      match add_extra_currency (extra a) (extra b) with
      | Some e => mkCC (Some (x + y)) e
      | None => cc_invalid
      end
  | _, _ => cc_invalid
  end.
Definition cc_add_to (a b : CurrencyCollection) : CurrencyCollection :=
  if cc_is_valid a then cc_add a b else a.
Definition cc_add_grams (a : CurrencyCollection) (y : option Z) : CurrencyCollection :=
  match grams a, y with
  | Some x, Some y => mkCC (Some (x + y)) (extra a)
  | Some _, None => cc_invalid
  | None, _ => a
  end.

Definition cc_sub (a b : CurrencyCollection) : CurrencyCollection :=
  match grams a, grams b with
  | Some x, Some y =>
      if 0 <=? x - y then
        match sub_extra_currency (extra a) (extra b) with
        | Some e => mkCC (Some (x - y)) e
        | None => cc_invalid
        end
      else cc_invalid
  | _, _ => cc_invalid
  end.
Definition cc_sub_from (a b : CurrencyCollection) : CurrencyCollection :=
  if cc_is_valid a then cc_sub a b else a.
Definition cc_sub_grams (a : CurrencyCollection) (y : option Z) : CurrencyCollection :=
  match grams a, y with
  | Some x, Some y => if 0 <=? x - y then mkCC (Some (x - y)) (extra a) else cc_invalid
  | Some _, None => cc_invalid
  | None, _ => a
  end.

(** [clamp]: the result and the collection after it. *)
Definition cc_clamp (a other : CurrencyCollection) : bool * CurrencyCollection :=
  match grams a, grams other with
  | Some x, Some y =>
      match clamp_extra (extra a) (extra other) with
      | Some e => (true, mkCC (Some (Z.min x y)) e)
      | None => (false, cc_invalid)
      end
  | _, _ => (false, cc_invalid)
  end.

(** [operator==]: dictionaries are compared by the hash of their root. *)
Definition cc_eqb (a b : CurrencyCollection) : bool :=
  match grams a, grams b with
  | Some x, Some y =>
      (x =? y) &&
      match extra a, extra b with
      | None, None => true
      | Some e, Some e' => bool_decide (get_hash e = get_hash e')
      | _, _ => false
      end
  | _, _ => false
  end.

(** [unpack_special(cs, grams, extra)] without rest *)
Definition unpack_CurrencyCollection (cs : CellSlice) : option CurrencyCollection :=
  match as_integer_skip t_Grams cs with
  | None => None
  | Some (balance, cs) =>
      let '(b, cs) := fetch_ulong 1 cs in
      if b =? 1 then
        match fetch_ref cs with
        | Some (e, cs) => if empty_ext cs then Some (mkCC (Some balance) (Some e)) else None
        | None => None
        end
      else if empty_ext cs then Some (mkCC (Some balance) None) else None
  end.
(** [CurrencyCollection::unpack] *)
Definition cc_unpack (cs : CellSlice) : CurrencyCollection :=
  default cc_invalid (unpack_CurrencyCollection cs).

(** [VarUInteger::validate_skip] *)
Definition validate_integer_skip (n : Z) (cs : CellSlice) : option CellSlice :=
  let '(v, cs) := fetch_ulong (var_ln n) cs in
  let len := wrap_s 32 v in
  if (0 <=? len) && (len <? n) && ((len =? 0) || negb (prefetch_ulong 8 cs =? 0)) then
    advance (Z.to_nat (len * 8)) cs
  else None.
(** [t_CurrencyCollection.validate_csr] *)
Definition validate_CurrencyCollection (cs : CellSlice) : bool :=
  match validate_integer_skip t_Grams cs with
  | Some cs =>
      match validate_extra_skip cs with Some cs => empty_ext cs | None => false end
  | None => false
  end.
(** [validate_unpack]: [validate_upto] does not look at what follows. *)
Definition cc_validate_unpack (cs : CellSlice) : option CurrencyCollection :=
  match validate_integer_skip t_Grams cs with
  | Some cs' =>
      match validate_extra_skip cs' with
      | Some _ => unpack_CurrencyCollection cs
      | None => None
      end
  | None => None
  end.

(** [HashmapE::store_ref], [store] and [pack] *)
Definition store_CurrencyCollection (c : CurrencyCollection) (cb : CellBuilder) : option CellBuilder :=
  cb ← store_integer_ref t_Grams (grams c) cb;
  match extra c with
  | None => store_long_bool 0 1 cb
  | Some e => cb ← store_long_bool 1 1 cb; store_ref_bool (Some e) cb
  end.
Definition cc_pack (c : CurrencyCollection) : option CellSlice :=
  cb ← store_CurrencyCollection c empty_builder; finalize_slice cb.
End currency.

(** ** Encodings *)

(** The bytes of a number, and its encoding. *)
Definition var_bytes (x : Z) : Z := Z.shiftr (bit_size (Int x) false + 7) 3.
Definition var_bits (n : Z) (x : Z) : list bool :=
  Z_to_bits (var_ln n) (var_bytes x) ++ Z_to_bits (Z.to_nat (8 * var_bytes x)) x.
Definition var_fits (n : Z) (x : Z) : Prop := 0 <= x < 2 ^ (8 * (n - 1)).

Lemma var_bytes_spec x : 0 <= x ->
  0 <= var_bytes x /\ x < 2 ^ (8 * var_bytes x) /\ (x <> 0 -> 0 < var_bytes x /\ 2 ^ (8 * (var_bytes x - 1)) <= x) /\
  Z.land (bit_size (Int x) false + 7) (-8) = 8 * var_bytes x.
Proof.
  intros Hx. unfold var_bytes, bit_size.
  assert (forall k, 0 <= k -> Z.land (k + 7) (-8) = 8 * Z.shiftr (k + 7) 3) as Hland.
  { intros k Hk. rewrite Z.shiftr_div_pow2 by lia. change (-8) with (Z.lnot (Z.ones 3)).
    rewrite <- Z.ldiff_land, Z.ldiff_ones_r, Z.shiftl_mul_pow2, Z.shiftr_div_pow2 by lia. lia. }
  destruct (Z.eqb_spec x 0) as [->|]; [split_and!; done|]. destruct (Z.ltb_spec 0 x); [|lia]. rewrite Z.add_0_r.
  pose proof (Z.log2_nonneg x). rewrite Hland by lia. rewrite Z.shiftr_div_pow2 by lia. change (2 ^ 3) with 8.
  pose proof (Z.log2_spec x ltac:(lia)) as [Hl Hu]. set (k := Z.log2 x) in *.
  split_and!; [apply Z.div_pos; lia| |intros _; split; [div_lia|]|done].
  - eapply Z.lt_le_trans; [exact Hu|]. apply Z.pow_le_mono_r; [lia|]. div_lia.
  - eapply Z.le_trans; [|exact Hl]. apply Z.pow_le_mono_r; [lia|]. div_lia.
Qed.

Lemma var_bytes_fits n x : 0 < n -> var_fits n x -> var_bytes x < n.
Proof.
  intros Hn [H0 H1]. destruct (var_bytes_spec x H0) as (_ & _ & H & _).
  destruct (Z.eq_dec x 0) as [->|Hx]; [change (var_bytes 0) with 0; lia|]. destruct (H Hx) as [_ Hle].
  destruct (Z.lt_ge_cases (var_bytes x) n); [done|].
  assert (2 ^ (8 * (n - 1)) <= 2 ^ (8 * (var_bytes x - 1))) by (apply Z.pow_le_mono_r; lia). lia.
Qed.

Lemma var_ln_spec n : 2 <= n -> n - 1 < 2 ^ Z.of_nat (var_ln n).
Proof.
  intros Hn. unfold var_ln. pose proof (Z.log2_nonneg (n - 1)).
  pose proof (Z.log2_spec (n - 1) ltac:(lia)) as [_ Hu]. rewrite Z2Nat.id by lia. by rewrite Z.add_1_r.
Qed.
Lemma var_ln_bound n : 2 <= n <= 32 -> (var_ln n <= 5)%nat.
Proof.
  intros Hn. unfold var_ln. assert (Z.log2 (n - 1) <= Z.log2 31) by (apply Z.log2_le_mono; lia).
  change (Z.log2 31) with 4 in *. lia.
Qed.

Lemma store_integer_spec n x cb :
  2 <= n <= 32 -> var_fits n x -> (length (cb_bits cb) + length (var_bits n x) <= max_bits)%nat ->
  store_integer_value n x cb = Some (mkBuilder (cb_bits cb ++ var_bits n x) (cb_refs cb)).
Proof.
  intros Hn [H0 H1] Hlen. destruct (var_bytes_spec x H0) as (Hb0 & Hb1 & _ & Hland).
  pose proof (var_bytes_fits n x ltac:(lia) (conj H0 H1)) as Hbn. pose proof (var_ln_bound n Hn).
  unfold var_bits in *. rewrite length_app, !Z_to_bits_length in Hlen.
  assert (bit_size (Int x) false <= (n - 1) * 8) as Hk.
  { unfold var_bytes in Hbn. rewrite Z.shiftr_div_pow2 in Hbn by lia. change (2 ^ 3) with 8 in Hbn. div_lia. }
  unfold store_integer_value. rewrite (proj2 (Z.leb_le _ _) Hk), Hland. fold (var_bytes x).
  unfold store_long_bool, store_bits_bool, remaining_bits. rewrite (proj2 (Nat.ltb_ge _ _)) by lia.
  rewrite Z_to_bits_length, (proj2 (Nat.leb_le _ _)) by lia. cbn [mbind option_bind].
  unfold store_int256_bool, remaining_bits. cbn [cb_bits cb_refs].
  rewrite length_app, Z_to_bits_length, (proj2 (Nat.leb_le _ _)) by lia.
  rewrite (proj2 (fits_u_spec _ _)) by (rewrite Z2Nat.id; lia). cbn [andb]. by rewrite app_assoc.
Qed.

(** What is stored fits. *)
Lemma store_integer_fits n x cb cb' : 2 <= n -> store_integer_value n x cb = Some cb' -> var_fits n x.
Proof.
  intros Hn. unfold store_integer_value. destruct (Z.leb_spec (bit_size (Int x) false) ((n - 1) * 8)) as [Hk|]; [|done].
  destruct (store_long_bool _ _ _) as [cb1|]; [|done]. cbn [mbind option_bind]. unfold store_int256_bool.
  destruct (_ && _) eqn:E; [|done]. intros _. apply andb_true_iff in E as [_ [H0 _]%fits_u_spec].
  destruct (var_bytes_spec x H0) as (_ & Hb & _). split; [done|]. eapply Z.lt_le_trans; [exact Hb|].
  apply Z.pow_le_mono_r; [lia|]. unfold var_bytes. rewrite Z.shiftr_div_pow2 by lia. change (2 ^ 3) with 8. div_lia.
Qed.

(** The first byte of a number that is not zero is not zero. *)
Lemma var_first_byte x rest : 0 < x ->
  bits_to_Z (take 8 (Z_to_bits (Z.to_nat (8 * var_bytes x)) x ++ rest)) <> 0.
Proof.
  intros Hx. destruct (var_bytes_spec x ltac:(lia)) as (_ & Hu & Hl & _).
  destruct (Hl ltac:(lia)) as [Hpos Hle]. set (l := Z_to_bits (Z.to_nat (8 * var_bytes x)) x).
  assert (length l = Z.to_nat (8 * var_bytes x)) as Hlen by apply Z_to_bits_length.
  rewrite take_app_le by lia. intros Hz.
  assert (bits_to_Z l = x) as Hv.
  { unfold l. rewrite bits_to_Z_of_Z, Z2Nat.id by lia. apply Z.mod_small. lia. }
  rewrite <- (take_drop 8 l), bits_to_Z_app, Hz in Hv.
  pose proof (bits_to_Z_range (drop 8 l)) as [_ Hd]. rewrite length_drop, Hlen in Hd.
  replace (Z.of_nat (Z.to_nat (8 * var_bytes x) - 8)) with (8 * (var_bytes x - 1)) in Hd by lia. lia.
Qed.

Lemma as_integer_skip_spec n x cs rest refs :
  2 <= n <= 32 -> var_fits n x -> slice_is cs (var_bits n x ++ rest) refs ->
  exists cs', as_integer_skip n cs = Some (x, cs') /\ slice_is cs' rest refs.
Proof.
  intros Hn Hx Hcs. pose proof (var_ln_bound n Hn) as Hln. destruct Hx as [H0 H1].
  destruct (var_bytes_spec x H0) as (Hb0 & Hb1 & _). pose proof (var_bytes_fits n x ltac:(lia) (conj H0 H1)) as Hbn.
  unfold var_bits in Hcs. rewrite <- app_assoc in Hcs. set (body := Z_to_bits (Z.to_nat (8 * var_bytes x)) x) in *.
  assert (length (Z_to_bits (var_ln n) (var_bytes x)) = var_ln n) as Hl1 by apply Z_to_bits_length.
  assert (length body = Z.to_nat (8 * var_bytes x)) as Hl2 by apply Z_to_bits_length.
  unfold as_integer_skip. rewrite (slice_is_fetch _ _ _ _ Hcs) by (rewrite ?length_app; lia).
  rewrite take_app_length' by done. rewrite bits_to_Z_of_Z.
  pose proof (var_ln_spec n ltac:(lia)). rewrite Z.mod_small by lia.
  pose proof (slice_is_adv _ (var_ln n) _ _ Hcs ltac:(rewrite length_app; lia)) as Hcs1.
  rewrite drop_app_length' in Hcs1 by done. set (cs1 := default cs (advance (var_ln n) cs)) in *. clearbody cs1.
  rewrite wrap_s_small by (change (2 ^ (32 - 1)) with 2147483648; lia).
  rewrite (proj2 (Z.leb_le _ _)), (proj2 (Z.ltb_lt _ _)) by lia. cbn [andb].
  assert ((var_bytes x =? 0) || negb (prefetch_ulong 8 cs1 =? 0) = true) as ->.
  { destruct (Z.eqb_spec (var_bytes x) 0) as [|Hnz]; [done|]. cbn [orb]. apply negb_true_iff, Z.eqb_neq.
    rewrite (slice_is_prefetch _ _ _ _ Hcs1) by (rewrite ?length_app; lia). apply var_first_byte.
    destruct (Z.eq_dec x 0) as [->|]; [by change (var_bytes 0) with 0 in Hnz|lia]. }
  replace (var_bytes x * 8) with (8 * var_bytes x) by lia.
  unfold fetch_int256. rewrite (slice_is_have _ _ _ _ Hcs1) by (rewrite length_app; lia).
  unfold bits_value. rewrite (is_bits _ _ _ Hcs1), take_app_length' by done.
  unfold body. rewrite bits_to_Z_of_Z, Z2Nat.id, Z.mod_small by lia.
  eexists. split; [done|]. pose proof (slice_is_adv _ (Z.to_nat (8 * var_bytes x)) _ _ Hcs1) as Hcs2.
  rewrite drop_app_length' in Hcs2 by done. apply Hcs2. rewrite length_app. lia.
Qed.

Lemma empty_ext_is cs : slice_is cs [] [] -> empty_ext cs = true.
Proof. intros H. destruct (slice_is_size _ _ _ H) as [E1 E2]. unfold empty_ext. by rewrite E1, E2. Qed.

Lemma as_integer_spec n x cs :
  2 <= n <= 32 -> var_fits n x -> slice_is cs (var_bits n x) [] -> as_integer n cs = Some x.
Proof.
  intros Hn Hx Hcs. rewrite <- (app_nil_r (var_bits n x)) in Hcs.
  destruct (as_integer_skip_spec n x cs [] [] Hn Hx Hcs) as (cs' & E & Hcs').
  unfold as_integer. by rewrite E, (empty_ext_is _ Hcs').
Qed.

Lemma var_bits_length n x : 2 <= n <= 32 -> var_fits n x -> (length (var_bits n x) <= 253)%nat.
Proof.
  intros Hn Hx. pose proof (var_ln_bound n Hn). pose proof (var_bytes_fits n x ltac:(lia) Hx).
  unfold var_bits. rewrite length_app, !Z_to_bits_length. lia.
Qed.

(** ** Collections *)

Definition cc_bits (g : Z) (e : option Cell) : list bool := var_bits t_Grams g ++ [bool_decide (is_Some e)].
Definition cc_refs (e : option Cell) : list Cell := match e with Some c => [c] | None => [] end.

Lemma unpack_spec cs g e :
  var_fits t_Grams g -> slice_is cs (cc_bits g e) (cc_refs e) ->
  unpack_CurrencyCollection cs = Some (mkCC (Some g) e).
Proof.
  intros Hg Hcs. unfold cc_bits in Hcs.
  destruct (as_integer_skip_spec t_Grams g cs _ _ ltac:(unfold t_Grams; lia) Hg Hcs) as (cs1 & E & Hcs1).
  unfold unpack_CurrencyCollection. rewrite E, (slice_is_fetch _ _ _ _ Hcs1) by (cbn; lia).
  pose proof (slice_is_adv _ 1 _ _ Hcs1 ltac:(cbn; lia)) as Hcs2. cbn [drop] in Hcs2.
  set (cs2 := default cs1 (advance 1 cs1)) in *. clearbody cs2. destruct e as [e|]; cbn.
  - unfold fetch_ref, have_refs. destruct (slice_is_size _ _ _ Hcs2) as [_ Hsr]. cbn in Hsr. rewrite Hsr. cbn.
    destruct Hcs2 as [Hb2 Hr2 [Ho1 Ho2]]. unfold slice_refs, size_refs in *. cbn in Hr2.
    destruct (cell_refs (cs_cell cs2) !! refs_st cs2) as [c|] eqn:Ec.
    2: { apply lookup_ge_None in Ec. lia. }
    rewrite (drop_S _ _ _ Ec), Hsr in Hr2. cbn in Hr2. injection Hr2 as ->.
    rewrite empty_ext_is; [done|]. split; [exact Hb2| |].
    + unfold slice_refs. cbn. by replace (refs_en cs2 - S (refs_st cs2))%nat with 0%nat by lia.
    + unfold slice_ok. cbn. lia.
  - by rewrite (empty_ext_is _ Hcs2).
Qed.

Lemma store_currency_spec g e cb :
  var_fits t_Grams g -> (length (cb_bits cb) + length (cc_bits g e) <= max_bits)%nat ->
  (length (cb_refs cb) + length (cc_refs e) <= max_refs)%nat ->
  store_CurrencyCollection (mkCC (Some g) e) cb =
    Some (mkBuilder (cb_bits cb ++ cc_bits g e) (cb_refs cb ++ cc_refs e)).
Proof.
  intros Hg Hb Hr. unfold cc_bits in *. rewrite length_app in Hb. cbn [length] in Hb.
  unfold store_CurrencyCollection, store_integer_ref. cbn [grams extra mbind option_bind].
  rewrite store_integer_spec; [|unfold t_Grams; lia|done|lia]. cbn [mbind option_bind].
  unfold store_long_bool, store_bits_bool, store_ref_bool, remaining_bits. change (64 <? 1)%nat with false. cbv iota.
  cbn [cb_bits cb_refs].
  destruct e as [e|]; cbn [length cc_refs] in *; rewrite ?Z_to_bits_length; cbn [cb_bits cb_refs].
  all: rewrite (proj2 (Nat.leb_le 1 _)) by (rewrite length_app; lia); cbn [mbind option_bind cb_bits cb_refs].
  - rewrite (proj2 (Nat.ltb_lt _ _)) by lia. by rewrite <- app_assoc.
  - by rewrite <- app_assoc, app_nil_r.
Qed.
Lemma store_currency_fits c cb cb' : store_CurrencyCollection c cb = Some cb' ->
  exists g, grams c = Some g /\ var_fits t_Grams g.
Proof.
  unfold store_CurrencyCollection, store_integer_ref. destruct (grams c) as [g|]; [|done].
  cbn [mbind option_bind]. destruct (store_integer_value t_Grams g cb) eqn:E; [|done]. intros _.
  exists g. split; [done|]. eapply store_integer_fits; [|exact E]. done.
Qed.

Section pack.
Context `{Sha256}.

Lemma finalize_slice_is cb cs : finalize_slice cb = Some cs -> slice_is cs (cb_bits cb) (cb_refs cb).
Proof.
  unfold finalize_slice, finalize, create. destruct (cell_info _); [|done]. cbn. intros [= <-].
  apply (slice_of_cell_is (DataCell false (cb_bits cb) (cb_refs cb))).
Qed.

Lemma pack_integer_spec n v cs : 2 <= n <= 32 -> pack_integer n v = Some cs ->
  exists x, v = Some x /\ var_fits n x /\ slice_is cs (var_bits n x) [].
Proof.
  intros Hn. unfold pack_integer, store_integer_ref. destruct v as [x|]; [|done]. cbn [mbind option_bind].
  destruct (store_integer_value n x empty_builder) as [cb|] eqn:E; [|done]. cbn [mbind option_bind].
  pose proof (store_integer_fits n x _ _ ltac:(lia) E) as Hx. intros Hf%finalize_slice_is.
  rewrite store_integer_spec in E; [|done..|]. 2: { pose proof (var_bits_length n x Hn Hx). cbn [cb_bits length empty_builder]. unfold max_bits. lia. }
  injection E as <-. exists x. split_and!; [done..|]. exact Hf.
Qed.

Lemma cc_pack_spec c cs : cc_pack c = Some cs ->
  exists g, grams c = Some g /\ var_fits t_Grams g /\ slice_is cs (cc_bits g (extra c)) (cc_refs (extra c)).
Proof.
  unfold cc_pack. destruct (store_CurrencyCollection c empty_builder) as [cb|] eqn:E; [|done].
  cbn [mbind option_bind]. intros Hf%finalize_slice_is. destruct (store_currency_fits _ _ _ E) as (g & Eg & Hg).
  exists g. split_and!; [done..|]. destruct c as [g' e]; cbn [grams extra] in *. subst g'.
  rewrite store_currency_spec in E; [|done|..].
  - injection E as <-. exact Hf.
  - pose proof (var_bits_length t_Grams g ltac:(done) Hg). unfold cc_bits. rewrite length_app.
    cbn [cb_bits length empty_builder]. unfold max_bits. lia.
  - destruct e; cbn; unfold max_refs; lia.
Qed.

(** C33: An amount of currency survives its encoding: what [pack] writes, [unpack] reads back, with the
    extra currencies; and [pack] writes exactly the amounts below 2^120, provided the cell can be
    made. *)
Theorem currency_roundtrip c :
  (forall cs, cc_pack c = Some cs -> cc_unpack cs = c) /\
  (forall g, grams c = Some g -> 0 <= g < 2 ^ 120 ->
     is_Some (create (cc_bits g (extra c)) (cc_refs (extra c)) false) -> is_Some (cc_pack c)) /\
  (is_Some (cc_pack c) -> exists g, grams c = Some g /\ 0 <= g < 2 ^ 120).
Proof.
  split_and!.
  - intros cs (g & Eg & Hg & Hcs)%cc_pack_spec. unfold cc_unpack. rewrite (unpack_spec cs g (extra c)) by done.
    destruct c; cbn in *. by subst.
  - intros g Eg Hg [cell Hcell]. destruct c as [g' e]; cbn [grams extra] in *. subst g'. unfold cc_pack.
    rewrite store_currency_spec; [|exact Hg|..].
    + cbn [mbind option_bind]. unfold finalize_slice, finalize. cbn [cb_bits cb_refs app empty_builder]. by rewrite Hcell.
    + pose proof (var_bits_length t_Grams g ltac:(done) Hg). unfold cc_bits. rewrite length_app.
      cbn [cb_bits length empty_builder]. unfold max_bits. lia.
    + destruct e; cbn; unfold max_refs; lia.
  - intros [cs (g & Eg & Hg & _)%cc_pack_spec]. by exists g.
Qed.
End pack.
