(* ===== verification/ExtraCurrency.v ===== *)
(** * Dictionaries of extra currencies (crypto/block/block-parse.cpp, block.cpp)

    [ExtraCurrencyCollection]: dictionaries from 32-bit identifiers to positive amounts, with
    their sum and difference, clamping, limits and validation: an instance of class
    [ExtraDict].  Failure ([None] or [false]) stands for the result [false] or for an exception of the
    dictionary code. *)
From S2P Require Import Prelude BigInt Int256 Cells DataCell Dict DictObj PfxDict DictLabel DictNode DictTree DictSpec DictOrder DictRefine DictSafety DictCombine Currency.

(** ** [VarUIntegerPos n] *)

Definition pos_as_integer_skip (n : Z) (cs : CellSlice) : option (Z * CellSlice) :=
  let '(v, cs) := fetch_ulong (var_ln n) cs in
  let len := wrap_s 32 v in
  if (0 <? len) && (len <? n) && negb (prefetch_ulong 8 cs =? 0) then
    match fetch_int256 (Z.to_nat (len * 8)) false cs with
    | Some (Int x, cs) => Some (x, cs)
    | _ => None
    end
  else None.
Definition pos_as_integer (n : Z) (cs : CellSlice) : option Z :=
  match pos_as_integer_skip n cs with
  | Some (x, cs) => if empty_ext cs then Some x else None
  | None => None
  end.
Definition pos_validate_skip (n : Z) (cs : CellSlice) : option CellSlice :=
  let '(v, cs) := fetch_ulong (var_ln n) cs in
  let len := wrap_s 32 v in
  if (0 <? len) && (len <? n) && negb (prefetch_ulong 8 cs =? 0) then advance (Z.to_nat (len * 8)) cs else None.
(** [store_pos_only] is false for [VarUIntegerPosRelaxed]. *)
Definition pos_store_integer_value (n : Z) (store_pos_only : bool) (value : Z) (cb : CellBuilder) : option CellBuilder :=
  if Z.b2z store_pos_only <=? Z.sgn value then store_integer_value n value cb else None.

(** [TLB::add_values] and [sub_values], as functions for [combine_with] *)
Definition add_values (n : Z) : combine_func_t := fun cb cs1 cs2 _ =>
  match pos_as_integer_skip n cs1, pos_as_integer_skip n cs2 with
  | Some (x, _), Some (y, _) => Some <$> pos_store_integer_value n true (x + y) cb
  | _, _ => None
  end.
Definition sub_values (n : Z) : combine_func_t := fun cb cs1 cs2 _ =>
  match pos_as_integer_skip n cs1, pos_as_integer_skip n cs2 with
  | Some (x, _), Some (y, _) =>
      cb ← pos_store_integer_value n false (x - y) cb;
      Some (if Z.sgn (x - y) =? 0 then None else Some cb)
  | _, _ => None
  end.

(** ** Validation *)

(** [HmLabel::validate_skip]: the length of the label *)
Definition fetch_uint_leq (upper_bound : nat) (cs : CellSlice) : option (nat * CellSlice) :=
  let bits := len_bits upper_bound in
  if (31 <? bits)%nat || negb (have bits cs) then None
  else
    let '(v, cs) := fetch_ulong bits cs in
    if v <=? Z.of_nat upper_bound then Some (Z.to_nat v, cs) else None.
Definition hm_label_validate_skip (m : nat) (cs : CellSlice) : option (nat * CellSlice) :=
  match prefetch_ulong 2 cs with
  | 0 | 1 =>
      cs ← advance 1 cs;
      let n := count_leading true cs in
      if (n <=? m)%nat then cs ← advance (2 * n + 1) cs; Some (n, cs) else None
  | 2 => cs ← advance 2 cs; '(n, cs) ← fetch_uint_leq m cs; cs ← advance n cs; Some (n, cs)
  | 3 => cs ← advance 3 cs; fetch_uint_leq m cs
  | _ => None
  end.
(** [validate_ref] of [Hashmap n (VarUIntegerPos 32)]; [ops] is the number of cells that may
    still be visited. *)
Fixpoint hashmap_validate_ref (fuel : nat) (n : nat) (ops : Z) (cell : option Cell) : option Z :=
  match fuel, cell with
  | O, _ | _, None => None
  | S fuel', Some c =>
      if ops <=? 0 then None
      else if cell_special c then None
      else
        '(l, cs) ← hm_label_validate_skip n (slice_of_cell c);
        '(ops, cs) ← (if (n - l =? 0)%nat then cs ← pos_validate_skip 32 cs; Some (ops - 1, cs)
                      else
                        ops ← hashmap_validate_ref fuel' (n - l - 1) (ops - 1) (prefetch_ref 0 cs);
                        ops ← hashmap_validate_ref fuel' (n - l - 1) ops (prefetch_ref 1 cs);
                        cs ← advance_refs 2 cs;
                        Some (ops, cs));
        if empty_ext cs then Some ops else None
  end.

(** ** Operations on collections *)

Section extra.
Context `{Sha256}.

Definition extra_dictionary (e : option Cell) : Dictionary := dictionary_of_cell e 32.

(** [HashmapE::add_values_ref] and [sub_values_ref] *)
Definition combine_ref (func : combine_func_t) (mode : Z) (arg1 arg2 : Cell) : option (option Cell) :=
  match combine_with func mode (extra_dictionary (Some arg1)) (extra_dictionary (Some arg2)) tt with
  | Ret (true, d) _ => Some (root_cell d)
  | _ => None
  end.

(** The function that [CurrencyCollection::clamp] applies to every entry; [dict1] changes. *)
Definition clamp_entry (dict2 : Dictionary) (cs1 : CellSlice) (key : list bool) (dict1 : Dictionary)
    : M unit (bool * Dictionary) :=
  let* (cs2, _) := DictObj.lookup key dict2 in
  match pos_as_integer 32 cs1, (match cs2 with Some cs => pos_as_integer 32 cs | None => Some 0 end) with
  | Some val1, Some val2 =>
      if val2 <? val1 then
        if val2 =? 0 then let* (_, dict1) := DictObj.lookup_delete key dict1 in ret (true, dict1)
        else match cs2 with
             | Some cs2 => let* (_, dict1) := DictObj.set key cs2 Set_ dict1 in ret (true, dict1)
             | None => undef
             end
      else ret (true, dict1)
  | _, _ => ret (false, dict1)
  end.
Definition clamp_dict (e1 e2 : option Cell) : option (option Cell) :=
  match check_for_each (clamp_entry (extra_dictionary e2)) false (extra_dictionary e1) (extra_dictionary e1) tt with
  | Ret (true, d) _ => Some (root_cell d)
  | _ => None
  end.

Definition check_extra_currency_limit (e : option Cell) (max_currencies : Z) : bool :=
  match check_for_each (fun _ _ count => let count := wrap_u 32 (count + 1) in ret (count <=? max_currencies, count))
          false (extra_dictionary e) 0 tt with
  | Ret (ok, _) _ => ok
  | _ => false
  end.

Definition zero_entry (max_currencies : Z) (cs : CellSlice) (_ : list bool) (count : Z) : M unit (Z * Z) :=
  let count := wrap_u 32 (count + 1) in
  if max_currencies <? count then ret (-1, count)
  else match as_integer 32 cs with
       | None => ret (-1, count)
       | Some val => ret (Z.b2z (0 <? Z.sgn val), count)
       end.
Definition remove_zero_extra_currencies (root : option Cell) (max_currencies : Z) : option (option Cell) :=
  match filter (zero_entry max_currencies) (extra_dictionary root) 0 tt with
  | Ret (res, d, _) _ => if res <? 0 then None else Some (root_cell d)
  | _ => None
  end.

(** [ExtraCurrencyCollection::validate_skip]: [validate] and [skip] *)
Definition extra_validate_skip (cs : CellSlice) : option CellSlice :=
  match prefetch_ulong 1 cs with
  | 0 => advance 1 cs
  | 1 => _ ← hashmap_validate_ref 33 32 1024 (prefetch_ref 0 cs); cs ← advance 1 cs; advance_refs 1 cs
  | _ => None
  end.

#[export] Instance extra_dict : ExtraDict := {
  add_values_ref := combine_ref (add_values 32) 0;
  sub_values_ref := combine_ref (sub_values 32) 1;
  clamp_extra := clamp_dict;
  extra_currency_limit := check_extra_currency_limit;
  remove_zero_extra := remove_zero_extra_currencies;
  validate_extra_skip := extra_validate_skip
}.
End extra.
