(* ===== verification/ExtraSpec.v ===== *)
(** * Sums and differences of extra currencies are exact

    For any two cells, and as a refinement of finite maps for dictionaries of amounts. *)
From S2P Require Import Prelude BigInt Int256 Cells DataCell Dict DictObj PfxDict DictLabel DictNode DictTree DictSpec DictOrder DictRefine DictSafety DictCombine DictCombineSpec DictCombineRefine Currency ExtraCurrency.
From stdpp Require Import gmap.
Local Open Scope Z_scope.

(** ** Values *)

Lemma fetch_ulong_content n cs cs' p r : slice_is cs p r -> slice_is cs' p r ->
  fst (fetch_ulong n cs) = fst (fetch_ulong n cs') /\
  exists p1, slice_is (snd (fetch_ulong n cs)) p1 r /\ slice_is (snd (fetch_ulong n cs')) p1 r.
Proof.
  intros H1 H2. destruct (slice_is_size _ _ _ H1) as [S1 _], (slice_is_size _ _ _ H2) as [S2 _].
  unfold fetch_ulong. unfold have. rewrite S1, S2, (is_bits _ _ _ H1), (is_bits _ _ _ H2). destruct (Nat.leb_spec n (length p)); cbn [negb orb].
  - destruct (64 <? n)%nat; cbn [fst snd]; [by eauto|]. split; [done|]. exists (drop n p). split; by apply slice_is_adv.
  - cbn [fst snd]. eauto.
Qed.
Lemma prefetch_content n cs cs' p r : slice_is cs p r -> slice_is cs' p r -> prefetch_ulong n cs = prefetch_ulong n cs'.
Proof.
  intros H1 H2. destruct (slice_is_size _ _ _ H1) as [S1 _], (slice_is_size _ _ _ H2) as [S2 _].
  unfold prefetch_ulong, have. by rewrite S1, S2, (is_bits _ _ _ H1), (is_bits _ _ _ H2).
Qed.
Lemma pos_content n cs cs' p r : slice_is cs p r -> slice_is cs' p r ->
  fst <$> pos_as_integer_skip n cs = fst <$> pos_as_integer_skip n cs'.
Proof.
  intros H1 H2. unfold pos_as_integer_skip. destruct (fetch_ulong_content (var_ln n) cs cs' p r H1 H2) as (E & p1 & H3 & H4).
  destruct (fetch_ulong _ cs) as [v cs1], (fetch_ulong _ cs') as [v' cs1']. cbn in E, H3, H4. subst v'.
  rewrite (prefetch_content 8 _ _ _ _ H3 H4). destruct (_ && _); [|done].
  destruct (slice_is_size _ _ _ H3) as [S1 _], (slice_is_size _ _ _ H4) as [S2 _].
  unfold fetch_int256, have. rewrite S1, S2, (is_bits _ _ _ H3), (is_bits _ _ _ H4). by destruct (_ <=? _)%nat.
Qed.

(** A positive number is read as by [VarUInteger]. *)
Lemma pos_of_integer n cs x cs' : as_integer_skip n cs = Some (x, cs') -> x <> 0 -> pos_as_integer_skip n cs = Some (x, cs').
Proof.
  unfold as_integer_skip, pos_as_integer_skip. destruct (fetch_ulong _ cs) as [v cs1]. set (len := wrap_s 32 v).
  destruct (Z.leb_spec 0 len); [|done]. cbn [andb]. destruct (len <? n); [|done]. cbn [andb].
  destruct (Z.eqb_spec len 0) as [->|Hl]; cbn [orb].
  - unfold fetch_int256. destruct (have _ cs1); [|done]. intros [= <- <-]. cbn. done.
  - rewrite (proj2 (Z.ltb_lt 0 len)) by lia. by cbn [andb].
Qed.

(** The amount that a value stands for *)
Definition pos_read (v : value) : option Z := fst <$> pos_as_integer_skip 32 (slice_of_cell (DataCell false (fst v) (snd v))).
Definition coins (v : value) : Z := default 0 (pos_read v).
Lemma read_content cs v : slice_is cs (fst v) (snd v) -> fst <$> pos_as_integer_skip 32 cs = pos_read v.
Proof. intros Hs. eapply pos_content; [exact Hs|]. apply (slice_of_cell_is (DataCell false (fst v) (snd v))). Qed.

Definition coin_value (x : Z) : value := (var_bits 32 x, []).
Lemma coin_read x : 0 < x < 2 ^ 248 -> pos_read (coin_value x) = Some x.
Proof.
  intros Hx. unfold pos_read. cbn [coin_value fst snd]. pose proof (slice_of_cell_is (DataCell false (var_bits 32 x) [])) as Hs.
  cbn [cell_bits cell_refs] in Hs. rewrite <- (app_nil_r (var_bits 32 x)) in Hs at 2.
  destruct (as_integer_skip_spec 32 x _ [] [] ltac:(lia) ltac:(unfold var_fits; lia) Hs) as (cs' & E & _).
  apply pos_of_integer in E; [|lia]. by rewrite E.
Qed.
Lemma coin_coins x : 0 < x < 2 ^ 248 -> coins (coin_value x) = x.
Proof. intros Hx. unfold coins. by rewrite coin_read. Qed.
Lemma coin_value_ok `{Sha256} x : 0 <= x < 2 ^ 248 -> value_ok 32 (coin_value x).
Proof.
  intros Hx. pose proof (var_bits_length 32 x ltac:(lia) ltac:(unfold var_fits; lia)) as Hl.
  split; cbn; [change (len_bits 32) with 6%nat; unfold max_bits; lia|lia|constructor|constructor].
Qed.

(** What is stored *)
Lemma pos_store_spec (pos : bool) x n l : (n <= 32)%nat -> length l = n ->
  pos_store_integer_value 32 pos x (mkBuilder (hm_label n l) []) =
  if (Z.b2z pos <=? x) && (x <? 2 ^ 248) then Some (mkBuilder (hm_label n l ++ fst (coin_value x)) (snd (coin_value x))) else None.
Proof.
  intros Hn Hl. unfold pos_store_integer_value. assert ((Z.b2z pos <=? Z.sgn x) = (Z.b2z pos <=? x)) as ->.
  { destruct pos, (Z.leb_spec 1 (Z.sgn x)), (Z.leb_spec 0 (Z.sgn x)), (Z.leb_spec 1 x), (Z.leb_spec 0 x); cbn; try done; lia. }
  destruct (Z.leb_spec (Z.b2z pos) x) as [H0|]; [|done]. cbn [andb]. assert (0 <= x) by (destruct pos; cbn in H0; lia).
  destruct (Z.ltb_spec x (2 ^ 248)) as [Hx|Hx].
  - assert (var_fits 32 x) as Hf by (unfold var_fits; lia). pose proof (var_bits_length 32 x ltac:(lia) Hf).
    pose proof (hm_label_length n l ltac:(lia)) as Hh. pose proof (len_bits_mono n 32 Hn) as Hb. change (len_bits 32) with 6%nat in Hb.
    rewrite store_integer_spec; [done|lia|done|]. cbn [cb_bits]. unfold max_bits. lia.
  - destruct (store_integer_value _ _ _) as [cb|] eqn:E; [|done]. apply store_integer_fits in E; [|lia]. unfold var_fits in E. lia.
Qed.

(** The functions of the code on values *)
Definition add_coins (v1 v2 : value) : option (option value) :=
  x ← pos_read v1; y ← pos_read v2;
  if (1 <=? x + y) && (x + y <? 2 ^ 248) then Some (Some (coin_value (x + y))) else None.
Definition sub_coins (v1 v2 : value) : option (option value) :=
  x ← pos_read v1; y ← pos_read v2;
  if (0 <=? x - y) && (x - y <? 2 ^ 248) then Some (if x - y =? 0 then None else Some (coin_value (x - y))) else None.

Definition stored (cb : CellBuilder) (v : value) : CellBuilder := mkBuilder (cb_bits cb ++ fst v) (snd v).
Lemma add_values_run n l cs1 cs2 v1 v2 key : length l = n -> (n <= 32)%nat -> slice_is cs1 (fst v1) (snd v1) -> slice_is cs2 (fst v2) (snd v2) ->
  let cb := mkBuilder (hm_label n l) [] in add_values 32 cb cs1 cs2 key = fmap (M := option) (stored cb) <$> add_coins v1 v2.
Proof.
  intros Hl Hn H1%read_content H2%read_content. cbv zeta. unfold add_values, add_coins. rewrite <- H1, <- H2.
  destruct (pos_as_integer_skip 32 cs1) as [[x ?]|]; [|done]. destruct (pos_as_integer_skip 32 cs2) as [[y ?]|]; [|done].
  cbn [fmap option_fmap option_map mbind option_bind fst]. rewrite pos_store_spec by done. change (Z.b2z true) with 1. by destruct (_ && _).
Qed.
Lemma sub_values_run n l cs1 cs2 v1 v2 key : length l = n -> (n <= 32)%nat -> slice_is cs1 (fst v1) (snd v1) -> slice_is cs2 (fst v2) (snd v2) ->
  let cb := mkBuilder (hm_label n l) [] in sub_values 32 cb cs1 cs2 key = fmap (M := option) (stored cb) <$> sub_coins v1 v2.
Proof.
  intros Hl Hn H1%read_content H2%read_content. cbv zeta. unfold sub_values, sub_coins. rewrite <- H1, <- H2.
  destruct (pos_as_integer_skip 32 cs1) as [[x ?]|]; [|done]. destruct (pos_as_integer_skip 32 cs2) as [[y ?]|]; [|done].
  cbn [fmap option_fmap option_map mbind option_bind fst]. rewrite pos_store_spec by done. change (Z.b2z false) with 0. destruct (_ && _); [|done].
  cbn [mbind option_bind fmap option_fmap option_map]. assert ((Z.sgn (x - y) =? 0) = (x - y =? 0)) as ->; [|by destruct (_ =? _)].
  destruct (Z.eqb_spec (Z.sgn (x - y)) 0), (Z.eqb_spec (x - y) 0); try done; lia.
Qed.

Lemma add_coins_exact v1 v2 z : add_coins v1 v2 = Some z -> from_option coins 0 z = coins v1 + coins v2.
Proof.
  unfold add_coins, coins at 2 3. destruct (pos_read v1) as [x|]; [|done]. destruct (pos_read v2) as [y|]; [|done].
  cbn [mbind option_bind]. destruct (_ && _) eqn:E; [|done]. intros [= <-]. apply andb_true_iff in E as [E1%Z.leb_le E2%Z.ltb_lt].
  cbn. rewrite coin_coins by lia. done.
Qed.
Lemma sub_coins_exact v1 v2 z : sub_coins v1 v2 = Some z -> from_option coins 0 z = coins v1 - coins v2.
Proof.
  unfold sub_coins, coins at 2 3. destruct (pos_read v1) as [x|]; [|done]. destruct (pos_read v2) as [y|]; [|done].
  cbn [mbind option_bind]. destruct (_ && _) eqn:E; [|done]. intros [= <-]. apply andb_true_iff in E as [E1%Z.leb_le E2%Z.ltb_lt].
  cbn. destruct (Z.eqb_spec (x - y) 0); cbn; [lia|]. rewrite coin_coins by lia. done.
Qed.

(** ** Any cells *)

Section cells.
Context `{Sha256}.

Definition found_opt (o : option Cell) (k : list bool) : option value := match o with Some c => found c k 32 | None => None end.
(** The amount of the currency [id] that a collection has *)
Definition extra_coins (e : option Cell) (id : Z) : Z :=
  match found_opt e (Z_to_bits 32 id) with Some v => coins v | None => 0 end.

Lemma force_extra e : force_validate (S := unit) (extra_dictionary e) = ret (mkDictionary None e 32 true false false).
Proof. reflexivity. Qed.

Lemma combine_extra func mode a b : combine_with func mode (extra_dictionary a) (extra_dictionary b) tt =
  let d := mkDictionary None a 32 true false false in
  match dict_combine_with (S (Z.to_nat 32)) a b [] (Z.to_nat 32) func mode 0 0 tt with
  | Ret (Some root) s => Ret (true, set_root_cell root d) s
  | Ret None s => Ret (false, d) s
  | Exn e s => Exn e s
  | Undef => Undef
  end.
Proof.
  unfold combine_with. rewrite !force_extra. generalize (@dict_combine_with _ unit _). intros dc. unfold bind, ret. cbn [key_bits root_cell].
  change (unless_throw (32 =? 32) (VmError Exc_dict_err) tt) with (@Ret unit unit tt tt). cbv beta iota zeta. by destruct (dc _ _ _ _ _ _ _ _ _ tt) as [[o|] s| |].
Qed.

(** The code never runs into undefined behaviour, and what it returns is the combination. *)
Lemma combine_ref_found func mode R a b :
  (forall n l cs1 cs2 p1 r1 p2 r2 key, length l = n -> (n <= 32)%nat -> slice_is cs1 p1 r1 -> slice_is cs2 p2 r2 ->
     match func (mkBuilder (hm_label n l) []) cs1 cs2 key with
     | None => True
     | Some None => R (p1, r1) (p2, r2) None
     | Some (Some cb) => exists p r, cb = mkBuilder (hm_label n l ++ p) r /\ R (p1, r1) (p2, r2) (Some (p, r))
     end) ->
  combine_with func mode (extra_dictionary (Some a)) (extra_dictionary (Some b)) tt <> Undef /\
  forall e, combine_ref func mode a b = Some e -> forall k, length k = 32%nat -> combined mode R (found a k 32) (found b k 32) (found_opt e k).
Proof.
  intros Hf. unfold combine_ref. rewrite combine_extra. cbv zeta.
  assert (forall n l cs1 cs2 p1 r1 p2 r2 key, length l = n -> (n <= 32)%nat -> slice_is cs1 p1 r1 -> slice_is cs2 p2 r2 -> True -> True ->
     match func (mkBuilder (hm_label n l) []) cs1 cs2 key with
     | None => True
     | Some None => R (p1, r1) (p2, r2) None
     | Some (Some cb) => exists p r, cb = mkBuilder (hm_label n l ++ p) r /\ True /\ R (p1, r1) (p2, r2) (Some (p, r))
     end) as Hf'.
  { intros n l cs1 cs2 p1 r1 p2 r2 key Hl Hn Hs1 Hs2 _ _. specialize (Hf n l cs1 cs2 p1 r1 p2 r2 key Hl Hn Hs1 Hs2).
    destruct (func _ _ _ _) as [[cb|]|]; [|done..]. destruct Hf as (p & r & ? & ?). by exists p, r. }
  assert (forall c, Kpre cell_denotes (Z.to_nat 32 + length (@nil bool)) (Some c) [] (fun k => found c k (Z.to_nat 32))) as HK.
  { intros c. exists (root_label (Z.to_nat 32) c). rewrite Nat.add_0_r. by split. }
  pose proof (ok_dict_combine (fun _ : unit => True) (fun _ _ => True) 32 ltac:(unfold max_bits; lia) (fun _ => True) cell_denotes
    (cell_denotation 32 ltac:(unfold max_key_bits; lia)) func mode R (fun _ _ => True) Hf' (S (Z.to_nat 32)) (Z.to_nat 32) (Some a) (Some b) [] [] []
    _ _ ltac:(lia) ltac:(cbn [length]; lia) ltac:(cbn [length]; lia) (suffix_nil _) (suffix_nil _) (HK a) (HK b) ltac:(done) ltac:(done) tt I) as Hok.
  cbn [length] in Hok. unfold wp in Hok. destruct (dict_combine_with (S (Z.to_nat 32)) (Some a) (Some b) [] (Z.to_nat 32) func mode 0 0 tt) as [o []| |]; [|by split|done].
  destruct Hok as [Hres _]. destruct o as [o|]; [|by split]. split; [done|]. intros e [= <-] k Hk.
  destruct Hres as (f & HKo & Hc). replace 32%nat with (Z.to_nat 32) by lia. specialize (Hc k ltac:(lia)). cbn [app] in Hc.
  unfold found_opt. destruct o as [c|]; cbn [Kopt] in HKo.
  - destruct HKo as (l & _ & Hfc). replace 32%nat with (Z.to_nat 32) by lia. rewrite <- Hfc by lia. done.
  - rewrite HKo in Hc by lia. done.
Qed.
End cells.

(** ** The laws of the interface *)

Section laws.
Context `{Sha256}.

Lemma combine_ref_exact func mode g (op : Z -> Z -> Z) a b e id :
  (forall n l cs1 cs2 v1 v2 key, length l = n -> (n <= 32)%nat -> slice_is cs1 (fst v1) (snd v1) -> slice_is cs2 (fst v2) (snd v2) ->
     let cb := mkBuilder (hm_label n l) [] in func cb cs1 cs2 key = fmap (M := option) (stored cb) <$> g v1 v2) ->
  (forall v1 v2 z, g v1 v2 = Some z -> from_option coins 0 z = op (coins v1) (coins v2)) ->
  (forall x, op x 0 = x) -> (Z.testbit mode 0 = false -> forall x, op 0 x = x) ->
  combine_ref func mode a b = Some e -> extra_coins e id = op (extra_coins (Some a) id) (extra_coins (Some b) id).
Proof.
  intros Hrun Hg H0 H0' He. destruct (combine_ref_found func mode (fun v1 v2 z => g v1 v2 = Some z) a b) as [_ Hc].
  { intros n l cs1 cs2 p1 r1 p2 r2 key Hl Hn Hs1 Hs2. rewrite (Hrun n l cs1 cs2 (p1, r1) (p2, r2) key) by done.
    destruct (g _ _) as [[[p r]|]|]; cbn; [|done..]. by exists p, r. }
  specialize (Hc e He (Z_to_bits 32 id) (Z_to_bits_length _ _)). unfold extra_coins. cbn [found_opt]. unfold combined in Hc.
  destruct (found a _ 32) as [v1|], (found b _ 32) as [v2|].
  - apply Hg in Hc. by destruct (found_opt e _).
  - destruct Hc as [_ ->]. by rewrite H0.
  - destruct Hc as [Hm ->]. by rewrite H0'.
  - rewrite Hc. by rewrite H0.
Qed.

#[export] Instance extra_laws : ExtraLaws (H := extra_dict).
Proof.
  refine {| extra_amount := extra_coins |}.
  - done.
  - intros a b e id. apply (combine_ref_exact _ _ add_coins Z.add); [exact add_values_run|exact add_coins_exact|lia|lia].
  - intros a b e id. apply (combine_ref_exact _ _ sub_coins Z.sub); [exact sub_values_run|exact sub_coins_exact|lia|done].
Defined.
End laws.

(** ** Dictionaries of amounts *)

Section refines.
Context `{Sha256} (E : nat -> list bool -> list bool -> Prop) `{!LabelEnc E}.

Definition coins_dict (m : gmap (list bool) Z) (e : option Cell) : Prop :=
  is_dict E 32 (coin_value <$> m) e /\ forall k x, m !! k = Some x -> 0 < x < 2 ^ 248.
Definition sub_entry (x y : option Z) : option Z :=
  match x, y with
  | Some x, Some y => if x - y =? 0 then None else Some (x - y)
  | Some _, None => x
  | None, _ => None
  end.

Lemma coins_obj m e : coins_dict m e -> dict_obj E 32 (coin_value <$> m) (extra_dictionary e).
Proof using LabelEnc0. intros [Hd _]. apply (dict_obj_of_cell E 32 (coin_value <$> m) e); [unfold max_key_bits; lia|done]. Qed.

Lemma combine_coins func mode g m1 m2 a b :
  (forall n l cs1 cs2 v1 v2 key, length l = n -> (n <= 32)%nat -> slice_is cs1 (fst v1) (snd v1) -> slice_is cs2 (fst v2) (snd v2) ->
     let cb := mkBuilder (hm_label n l) [] in func cb cs1 cs2 key = fmap (M := option) (stored cb) <$> g v1 v2) ->
  (forall v1 v2 v, g v1 v2 = Some (Some v) -> exists x, v = coin_value x /\ 0 < x < 2 ^ 248) ->
  coins_dict m1 (Some a) -> coins_dict m2 (Some b) ->
  let m1' := coin_value <$> m1 in let m2' := coin_value <$> m2 in
  match combine_ref func mode a b with
  | Some e => ~ clash mode g m1' m2' /\ is_dict E 32 (merge (entry g) m1' m2') e
  | None => clash mode g m1' m2'
  end.
Proof using LabelEnc0.
  intros Hrun Hg H1 H2. cbv zeta.
  destruct (combine_total E 32 _ _ _ _ func mode g ltac:(unfold max_bits; lia) (coins_obj _ _ H1) (coins_obj _ _ H2)) as (ok & d' & Hr & Hc & Ho).
  { intros n l cs1 cs2 v1 v2 key Hl Hn Hs1 Hs2 _ _. rewrite (Hrun n l cs1 cs2 v1 v2 key) by done.
    destruct (g v1 v2) as [[v|]|] eqn:Eg; cbn; [|done..]. destruct (Hg _ _ _ Eg) as (x & -> & Hx). exists (coin_value x).
    split_and!; [done|apply coin_value_ok; lia|done]. }
  unfold combine_ref. rewrite Hr. destruct ok; [|by apply Hc]. split; [intros Hcl%Hc; done|]. apply (oo_dict _ _ _ _ Ho).
Qed.

Lemma add_coins_some v1 v2 v : add_coins v1 v2 = Some (Some v) -> exists x, v = coin_value x /\ 0 < x < 2 ^ 248.
Proof.
  unfold add_coins. destruct (pos_read v1) as [x|]; [|done]. destruct (pos_read v2) as [y|]; [|done]. cbn.
  destruct (_ && _) eqn:Eb; [|done]. intros [= <-]. apply andb_true_iff in Eb as [E1%Z.leb_le E2%Z.ltb_lt]. exists (x + y). split; [done|lia].
Qed.
Lemma sub_coins_some v1 v2 v : sub_coins v1 v2 = Some (Some v) -> exists x, v = coin_value x /\ 0 < x < 2 ^ 248.
Proof.
  unfold sub_coins. destruct (pos_read v1) as [x|]; [|done]. destruct (pos_read v2) as [y|]; [|done]. cbn.
  destruct (_ && _) eqn:Eb; [|done]. destruct (Z.eqb_spec (x - y) 0); [done|]. intros [= <-].
  apply andb_true_iff in Eb as [E1%Z.leb_le E2%Z.ltb_lt]. exists (x - y). split; [done|lia].
Qed.
Lemma add_coin_values x y : 0 < x < 2 ^ 248 -> 0 < y < 2 ^ 248 ->
  add_coins (coin_value x) (coin_value y) = if x + y <? 2 ^ 248 then Some (Some (coin_value (x + y))) else None.
Proof. intros Hx Hy. unfold add_coins. rewrite !coin_read by done. cbn [mbind option_bind]. by rewrite (proj2 (Z.leb_le 1 _)) by lia. Qed.
Lemma sub_coin_values x y : 0 < x < 2 ^ 248 -> 0 < y < 2 ^ 248 ->
  sub_coins (coin_value x) (coin_value y) =
  if y <=? x then Some (if x - y =? 0 then None else Some (coin_value (x - y))) else None.
Proof.
  intros Hx Hy. unfold sub_coins. rewrite !coin_read by done. cbn [mbind option_bind]. rewrite (proj2 (Z.ltb_lt _ (2 ^ 248))) by lia.
  rewrite andb_true_r. by destruct (Z.leb_spec 0 (x - y)), (Z.leb_spec y x); try lia.
Qed.

Lemma add_refines m1 m2 a b : coins_dict m1 (Some a) -> coins_dict m2 (Some b) ->
  match combine_ref (add_values 32) 0 a b with
  | Some e => coins_dict (union_with (fun x y => Some (x + y)) m1 m2) e
  | None => exists k x y, m1 !! k = Some x /\ m2 !! k = Some y /\ 2 ^ 248 <= x + y
  end.
Proof using LabelEnc0.
  intros H1 H2. pose proof (combine_coins (add_values 32) 0 add_coins m1 m2 a b add_values_run add_coins_some H1 H2) as Hc. cbv zeta in Hc.
  destruct H1 as [_ P1], H2 as [_ P2]. destruct (combine_ref _ _ _ _) as [e|].
  - destruct Hc as [Hn Hd]. assert (forall k x y, m1 !! k = Some x -> m2 !! k = Some y -> x + y < 2 ^ 248) as Hlt.
    { intros k x y Hx Hy. destruct (Z.lt_ge_cases (x + y) (2 ^ 248)); [done|]. destruct Hn. exists k. rewrite !lookup_fmap, Hx, Hy. cbn.
      rewrite add_coin_values by eauto. by rewrite (proj2 (Z.ltb_ge _ _)). }
    split.
    + replace (coin_value <$> _) with (merge (entry add_coins) (coin_value <$> m1) (coin_value <$> m2)); [done|].
      apply map_eq. intros k. rewrite lookup_merge, !lookup_fmap, lookup_union_with.
      destruct (m1 !! k) as [x|] eqn:Ex, (m2 !! k) as [y|] eqn:Ey; cbn; try done. rewrite add_coin_values by eauto.
      by rewrite (proj2 (Z.ltb_lt _ _)) by eauto.
    + intros k z. rewrite lookup_union_with. destruct (m1 !! k) as [x|] eqn:Ex, (m2 !! k) as [y|] eqn:Ey; cbn; intros [= <-]; eauto.
      pose proof (P1 _ _ Ex). pose proof (P2 _ _ Ey). pose proof (Hlt _ _ _ Ex Ey). lia.
  - destruct Hc as [k Hk]. rewrite !lookup_fmap in Hk. destruct (m1 !! k) as [x|] eqn:Ex, (m2 !! k) as [y|] eqn:Ey; cbn in Hk; try done.
    rewrite add_coin_values in Hk by eauto. destruct (Z.ltb_spec (x + y) (2 ^ 248)); [done|]. by exists k, x, y.
Qed.
Lemma sub_refines m1 m2 a b : coins_dict m1 (Some a) -> coins_dict m2 (Some b) ->
  match combine_ref (sub_values 32) 1 a b with
  | Some e => coins_dict (merge sub_entry m1 m2) e /\ forall k, default 0 (m2 !! k) <= default 0 (m1 !! k)
  | None => exists k, default 0 (m1 !! k) < default 0 (m2 !! k)
  end.
Proof using LabelEnc0.
  intros H1 H2. pose proof (combine_coins (sub_values 32) 1 sub_coins m1 m2 a b sub_values_run sub_coins_some H1 H2) as Hc. cbv zeta in Hc.
  destruct H1 as [_ P1], H2 as [_ P2]. destruct (combine_ref _ _ _ _) as [e|].
  - destruct Hc as [Hn Hd]. assert (forall k, default 0 (m2 !! k) <= default 0 (m1 !! k)) as Hle.
    { intros k. destruct (Z.le_gt_cases (default 0 (m2 !! k)) (default 0 (m1 !! k))) as [|Hgt]; [done|]. destruct Hn. exists k. rewrite !lookup_fmap.
      destruct (m1 !! k) as [x|] eqn:Ex, (m2 !! k) as [y|] eqn:Ey; cbn in *; try done; [|pose proof (P1 _ _ Ex); lia].
      rewrite sub_coin_values by eauto. by rewrite (proj2 (Z.leb_gt _ _)). }
    split_and!; [split| exact Hle].
    + replace (coin_value <$> _) with (merge (entry sub_coins) (coin_value <$> m1) (coin_value <$> m2)); [done|].
      apply map_eq. intros k. rewrite lookup_merge, !lookup_fmap, lookup_merge. specialize (Hle k).
      destruct (m1 !! k) as [x|] eqn:Ex, (m2 !! k) as [y|] eqn:Ey; cbn in *; try done; [|pose proof (P2 _ _ Ey); lia].
      rewrite sub_coin_values by eauto. rewrite (proj2 (Z.leb_le _ _)) by done. by destruct (_ =? 0).
    + intros k z. rewrite lookup_merge. specialize (Hle k). destruct (m1 !! k) as [x|] eqn:Ex, (m2 !! k) as [y|] eqn:Ey; cbn in *; try done.
      * destruct (Z.eqb_spec (x - y) 0); [done|]. intros [= <-]. pose proof (P1 _ _ Ex). pose proof (P2 _ _ Ey). lia.
      * intros [= <-]. eauto.
  - destruct Hc as [k Hk]. exists k. rewrite !lookup_fmap in Hk. destruct (m1 !! k) as [x|] eqn:Ex, (m2 !! k) as [y|] eqn:Ey; cbn in *; try done.
    + rewrite sub_coin_values in Hk by eauto. by destruct (Z.leb_spec y x).
    + pose proof (P2 _ _ Ey). lia.
Qed.

(** C30: Adding and subtracting collections of extra currencies (dictionaries of positive amounts below
    2^248) is addition and subtraction of every currency. The sum fails only when an amount
    reaches 2^248; the difference fails exactly when the second collection has more of some currency, and
    currencies of which nothing is left disappear from it. *)
Theorem extra_currencies_refine m1 m2 a b : coins_dict m1 (Some a) -> coins_dict m2 (Some b) ->
  match add_values_ref (ExtraDict := extra_dict) a b with
  | Some e => coins_dict (union_with (fun x y => Some (x + y)) m1 m2) e
  | None => exists k x y, m1 !! k = Some x /\ m2 !! k = Some y /\ 2 ^ 248 <= x + y
  end /\
  match sub_values_ref (ExtraDict := extra_dict) a b with
  | Some e => coins_dict (merge sub_entry m1 m2) e /\ forall k, default 0 (m2 !! k) <= default 0 (m1 !! k)
  | None => exists k, default 0 (m1 !! k) < default 0 (m2 !! k)
  end.
Proof using LabelEnc0. intros H1 H2. split; [by apply add_refines|by apply sub_refines]. Qed.
End refines.

(** One currency with identifier 1: 5 of it, of which 3 are taken. *)
Definition ex_currency : list bool := replicate 31 false ++ [true].
Definition ex_coins (x : Z) : Cell := DataCell false (hm_label 32 ex_currency ++ var_bits 32 x) [].
Lemma ex_coins_dict x : x = 3 \/ x = 5 -> coins_dict (H := toy_sha) canonical {[ex_currency := x]} (Some (ex_coins x)).
Proof.
  intros Hx. split; [|intros k y; rewrite lookup_singleton_Some; intros [_ <-]; lia].
  exists (Leaf ex_currency (coin_value x)). split_and!.
  - split; [destruct Hx as [-> | ->]; eexists; split; vm_compute; reflexivity|]. split; [done|]. exists (hm_label 32 ex_currency).
    split; [|done]. split; [unfold max_key_bits; cbn; lia|done].
  - apply coin_value_ok. lia.
  - intros k. rewrite map_fmap_singleton, lookup_leaf. destruct (decide (k = ex_currency)) as [->|Hk];
      [by rewrite lookup_singleton_eq|by rewrite lookup_singleton_ne].
Qed.
Lemma extra_currencies_refine_witness : exists e,
  sub_values_ref (ExtraDict := extra_dict (H := toy_sha)) (ex_coins 5) (ex_coins 3) = Some e /\
  coins_dict (H := toy_sha) canonical (merge sub_entry {[ex_currency := 5]} {[ex_currency := 3]}) e.
Proof.
  destruct (extra_currencies_refine (H := toy_sha) canonical {[ex_currency := 5]} {[ex_currency := 3]} (ex_coins 5) (ex_coins 3)) as [_ Hs].
  - apply ex_coins_dict. lia.
  - apply ex_coins_dict. lia.
  - destruct (sub_values_ref _ _) as [e|]; [exists e; split; [reflexivity|exact (proj1 Hs)]|]. exfalso. destruct Hs as [k Hk].
    destruct (decide (k = ex_currency)) as [->|Hne]; [rewrite !lookup_singleton_eq in Hk; cbn in Hk; lia|].
    rewrite !lookup_singleton_ne in Hk by congruence. cbn in Hk. lia.
Defined.
