(* ===== verification/StorageStat.v ===== *)
(** * Size of a tree of cells: [vm::CellStorageStat] (crypto/vm/boc.cpp)

    The cells and bits of a message are what its sender pays for.  A cell that occurs
    several times is counted once: the hashes of the cells seen so far are kept, with the
    depth of Merkle cells below each. *)
From stdpp Require Import gmap.
From S2P Require Import Prelude Int256 Cells DataCell.

Record CellStorageStat : Type := mkStat {
  st_cells : Z;
  st_bits : Z;
  st_seen : gmap (list bool) Z;
  limit_cells : Z
}.

Definition no_limit : Z := 2 ^ 64 - 1.
Definition new_stat (limit : Z) : CellStorageStat := mkStat 0 0 ∅ limit.

Definition is_merkle (special : bool) (bits : list bool) : bool :=
  match cell_type special bits with
  | Some (MerkleProof | MerkleUpdate) => true
  | _ => false
  end.

Section stat.
Context `{Sha256}.

Definition see (h : list bool) (d : Z) (st : CellStorageStat) : CellStorageStat :=
  mkStat (st_cells st) (st_bits st) (<[h := d]> (st_seen st)) (limit_cells st).
Definition count_cell (st : CellStorageStat) : CellStorageStat :=
  mkStat (st_cells st + 1) (st_bits st) (st_seen st) (limit_cells st).
Definition count_bits (n : nat) (st : CellStorageStat) : CellStorageStat :=
  mkStat (st_cells st) (st_bits st + Z.of_nat n) (st_seen st) (limit_cells st).

(** [add_used_storage(Ref<Cell>, true)], with the loop over the references of the slice
    that it opens; the result is [max_merkle_depth], or [None] when the limit of cells is
    exceeded (there is no limit of bits). *)
Fixpoint add_used_cell (c : Cell) (st : CellStorageStat) : CellStorageStat * option Z :=
  let 'DataCell special bits refs := c in
  let h := get_hash c in
  match st_seen st !! h with
  | Some d => (st, Some d)
  | None =>
      let st := count_cell (see h 0 st) in
      if limit_cells st <? st_cells st then (st, None)
      else
        let st := count_bits (length bits) st in
        let children := fix children (l : list Cell) (st : CellStorageStat) (d : Z) :=
          match l with
          | [] => (st, Some d)
          | r :: l' =>
              match add_used_cell r st with
              | (st, Some d') => children l' st (Z.max d d')
              | (st, None) => (st, None)
              end
          end in
        match children refs st 0 with
        | (st, Some d) =>
            let d := if is_merkle special bits then d + 1 else d in (see h d st, Some d)
        | (st, None) => (st, None)
        end
  end.

(** [add_used_storage] of a span of cells, and the loop over the references of a slice. *)
Fixpoint add_used_cells (l : list Cell) (st : CellStorageStat) (d : Z) : CellStorageStat * option Z :=
  match l with
  | [] => (st, Some d)
  | r :: l' =>
      match add_used_cell r st with
      | (st, Some d') => add_used_cells l' st (Z.max d d')
      | (st, None) => (st, None)
      end
  end.

(** [add_used_storage(cs, true, skip_count_root)]: bit 0 of [skip_count_root] leaves the
    root cell out, bit 1 its bits. *)
Definition add_used_slice (cs : CellSlice) (skip_count_root : Z) (st : CellStorageStat)
    : CellStorageStat * option Z :=
  let st := if Z.testbit skip_count_root 0 then st else count_cell st in
  if negb (Z.testbit skip_count_root 0) && (limit_cells st <? st_cells st) then (st, None)
  else
    let st := if Z.testbit skip_count_root 1 then st else count_bits (size cs) st in
    match add_used_cells (slice_refs cs) st 0 with
    | (st, Some d) =>
        let 'DataCell special bits _ := cs_cell cs in
        (st, Some (if is_merkle special bits then d + 1 else d))
    | (st, None) => (st, None)
    end.

(** ** What is counted *)

Fixpoint subcells (c : Cell) : list Cell :=
  let 'DataCell _ _ refs := c in c :: concat (map subcells refs).

(** Cells are told apart by their hashes. *)
Definition no_collision (U : list Cell) : Prop :=
  forall a b, In a U -> In b U -> get_hash a = get_hash b -> a = b.
Definition total_bits (l : list Cell) : Z := foldr (fun c n => Z.of_nat (length (cell_bits c)) + n) 0 l.

(** [l] lists the cells that were counted, each once. *)
Record counts (l : list Cell) (st : CellStorageStat) : Prop := mkCounts {
  ct_nodup : NoDup (map get_hash l);
  ct_seen : forall h, is_Some (st_seen st !! h) <-> In h (map get_hash l);
  ct_cells : st_cells st = Z.of_nat (length l);
  ct_bits : st_bits st = total_bits l
}.

(** The outcome of counting the cells [new] in addition to [l]. *)
Definition counted (limit : Z) (l new : list Cell) (r : CellStorageStat * option Z) : Prop :=
  limit_cells (fst r) = limit /\
  match snd r with
  | Some _ => exists l', counts l' (fst r) /\ (forall x, In x l' <-> In x l \/ In x new) /\ (l' = l \/ Z.of_nat (length l') <= limit)
  | None => exists l', NoDup (map get_hash l') /\ (forall x, In x l' -> In x l \/ In x new) /\ limit < Z.of_nat (length l')
  end.

Lemma subcells_self c : In c (subcells c).
Proof. destruct c. by left. Qed.
Lemma subcells_cons sp bits refs x :
  In x (subcells (DataCell sp bits refs)) <-> x = DataCell sp bits refs \/ In x (concat (map subcells refs)).
Proof. cbn. split; intros [H1|H1]; auto. Qed.
Lemma in_subcells_list l x : In x (concat (map subcells l)) <-> exists r, In r l /\ In x (subcells r).
Proof.
  rewrite in_concat. split.
  - intros (y & Hy & Hx). apply in_map_iff in Hy as (r & <- & Hr). eauto.
  - intros (r & Hr & Hx). exists (subcells r). split; [by apply in_map|done].
Qed.

Fixpoint cell_size (c : Cell) : nat := let 'DataCell _ _ refs := c in S (sum_list_with cell_size refs).
Lemma sum_size_in refs r : In r refs -> (cell_size r <= sum_list_with cell_size refs)%nat.
Proof. induction refs as [|r' refs IH]; cbn; [done|]. intros [->|Hr]; [lia|]. specialize (IH Hr). lia. Qed.
Lemma subcells_size c x : In x (subcells c) -> (cell_size x <= cell_size c)%nat.
Proof.
  induction c as [sp bits refs IH] using Cell_ind'. rewrite subcells_cons. intros [->|Hx]; [done|].
  apply in_subcells_list in Hx as (r & Hr & Hx). rewrite Forall_forall in IH.
  specialize (IH r Hr Hx). pose proof (sum_size_in refs r Hr). cbn. lia.
Qed.
Lemma subcells_trans c x y : In x (subcells c) -> In y (subcells x) -> In y (subcells c).
Proof.
  induction c as [sp bits refs IH] using Cell_ind'. rewrite !subcells_cons. intros [->|Hx] Hy; [by rewrite <- subcells_cons|].
  right. apply in_subcells_list in Hx as (r & Hr & Hx). apply in_subcells_list. exists r. split; [done|].
  rewrite Forall_forall in IH. apply (IH r Hr Hx Hy).
Qed.
(** A cell does not occur below itself. *)
Lemma subcells_below sp bits refs : ~ In (DataCell sp bits refs) (concat (map subcells refs)).
Proof.
  intros (r & Hr & Hx)%in_subcells_list. apply subcells_size in Hx. pose proof (sum_size_in refs r Hr). cbn in Hx. lia.
Qed.

(** [l] has with a cell of [new] all that is below it. *)
Definition closed (l new : list Cell) : Prop :=
  forall x, In x new -> In x l -> forall y, In y (subcells x) -> In y l.

Lemma counts_lookup U l st c : no_collision U -> (forall x, In x l -> In x U) -> In c U -> counts l st ->
  (is_Some (st_seen st !! get_hash c) <-> In c l).
Proof.
  intros HU Hl Hc Hct. rewrite (ct_seen _ _ Hct), in_map_iff. split.
  - intros (x & E & Hx). by rewrite <- (HU x c (Hl x Hx) Hc E).
  - intros Hx. by exists c.
Qed.

(** The list of references, given the cells. *)
Lemma children_counted U limit refs l st d :
  no_collision U ->
  Forall (fun c => forall l st, (forall x, In x l -> In x U) -> (forall x, In x (subcells c) -> In x U) ->
    counts l st -> limit_cells st = limit -> closed l (subcells c) -> counted limit l (subcells c) (add_used_cell c st)) refs ->
  (forall x, In x l -> In x U) -> (forall x, In x (concat (map subcells refs)) -> In x U) ->
  counts l st -> limit_cells st = limit -> closed l (concat (map subcells refs)) ->
  counted limit l (concat (map subcells refs)) (add_used_cells refs st d).
Proof.
  intros HU Hall. revert l st d. induction Hall as [|r refs Hr _ IH]; intros l st d Hl Hnew Hct Hlim Hcl; cbn [add_used_cells].
  { split; [done|]. exists l. split; [done|]. cbn. tauto. }
  cbn [map concat] in *. assert (forall x, In x (subcells r) -> In x U) as Hr1 by (intros; apply Hnew, in_app_iff; auto).
  assert (forall x, In x (concat (map subcells refs)) -> In x U) as Hr2 by (intros; apply Hnew, in_app_iff; auto).
  assert (closed l (subcells r)) as Hcl1 by (intros x Hx; apply Hcl, in_app_iff; auto).
  destruct (Hr l st Hl Hr1 Hct Hlim Hcl1) as [Hlim1 Hres]. destruct (add_used_cell r st) as [st1 [d1|]]; cbn [fst snd] in *.
  - destruct Hres as (l1 & Hct1 & Hl1 & Hb1). specialize (IH l1 st1 (Z.max d d1)). destruct IH as [Hlim2 Hres2]; try done.
    { intros x [?|?]%Hl1; auto. }
    { intros x Hx Hxl y Hy. apply Hl1. apply Hl1 in Hxl as [Hxl|Hxr].
      - left. eapply Hcl; [|exact Hxl|exact Hy]. apply in_app_iff. auto.
      - right. by eapply subcells_trans. }
    split; [done|]. destruct (snd (add_used_cells refs st1 _)).
    + destruct Hres2 as (l2 & Hct2 & Hl2 & Hb2). exists l2. split_and!; [done| |].
      * intros x. rewrite Hl2, Hl1, in_app_iff. tauto.
      * destruct Hb2 as [->|?]; [done|by right].
    + destruct Hres2 as (l2 & Hnd & Hl2 & Hlt). exists l2. split_and!; [done| |done]. intros x [?%Hl1|?]%Hl2; rewrite in_app_iff; tauto.
  - split; [done|]. destruct Hres as (l1 & Hnd & Hl1 & Hlt). exists l1. split_and!; [done| |done].
    intros x [?|?]%Hl1; rewrite in_app_iff; tauto.
Qed.

(** The inner loop of [add_used_cell] is [add_used_cells]. *)
Lemma add_used_cell_eq sp bits refs st :
  add_used_cell (DataCell sp bits refs) st =
  let h := get_hash (DataCell sp bits refs) in
  match st_seen st !! h with
  | Some d => (st, Some d)
  | None =>
      let st := count_cell (see h 0 st) in
      if limit_cells st <? st_cells st then (st, None)
      else match add_used_cells refs (count_bits (length bits) st) 0 with
           | (st, Some d) => let d := if is_merkle sp bits then d + 1 else d in (see h d st, Some d)
           | (st, None) => (st, None)
           end
  end.
Proof.
  cbn [add_used_cell]. cbv zeta. destruct (st_seen st !! _); [done|]. destruct (_ <? _); [done|].
  set (children := fix children (l : list Cell) (st : CellStorageStat) (d : Z) := _).
  assert (forall l st d, children l st d = add_used_cells l st d) as ->; [|done].
  intros l. induction l as [|r l IH]; intros st' d; [done|]. cbn. destruct (add_used_cell r st') as [st1 [d1|]]; [apply IH|done].
Qed.

Lemma cell_counted U limit c l st :
  no_collision U -> (forall x, In x l -> In x U) -> (forall x, In x (subcells c) -> In x U) ->
  counts l st -> limit_cells st = limit -> closed l (subcells c) ->
  counted limit l (subcells c) (add_used_cell c st).
Proof.
  intros HU. revert l st. induction c as [sp bits refs IH] using Cell_ind'. intros l st Hl Hnew Hct Hlim Hcl.
  rewrite add_used_cell_eq. set (c := DataCell sp bits refs) in *. cbv zeta.
  assert (In c U) as Hc by apply Hnew, subcells_self.
  pose proof (counts_lookup U l st c HU Hl Hc Hct) as Hseen. destruct (st_seen st !! get_hash c) as [d|] eqn:El.
  { assert (In c l) as Hin by (apply Hseen; eauto). split; [done|]. exists l. split_and!; [done| |by left].
    intros x. split; [auto|]. intros [?|Hx]; [done|]. by apply (Hcl c (subcells_self c) Hin). }
  assert (~ In c l) as Hnin. { intros Hin%Hseen. by destruct Hin. }
  assert (counts (c :: l) (count_bits (length bits) (count_cell (see (get_hash c) 0 st)))) as Hct1.
  { destruct Hct as [Hnd Hs Hcs Hbs]. split; cbn.
    - constructor; [|done]. rewrite list_elem_of_In, <- Hs, El. by intros [].
    - intros h. rewrite <- Hs. destruct (decide (get_hash c = h)) as [<-|Hne].
      + rewrite lookup_insert_eq. split; [auto|]. eauto.
      + rewrite lookup_insert_ne by done. split; [auto|]. by intros [?|?].
    - rewrite Hcs. lia.
    - rewrite Hbs. cbn [total_bits foldr cell_bits c]. unfold c. cbn [cell_bits]. unfold total_bits. lia. }
  unfold count_cell at 1. cbn [limit_cells st_cells see count_cell]. rewrite Hlim.
  destruct (Z.ltb_spec limit (st_cells st + 1)) as [Hlt|Hfit].
  { split; [done|]. exists (c :: l). split_and!; [apply Hct1| |].
    - intros x [<-|?]; [right; apply subcells_self|auto].
    - rewrite (ct_cells _ _ Hct) in Hlt. cbn. lia. }
  assert (counted limit (c :: l) (concat (map subcells refs))
    (add_used_cells refs (count_bits (length bits) (count_cell (see (get_hash c) 0 st))) 0)) as [Hlim2 Hres].
  { apply (children_counted U); try done.
    - intros x [<-|?]; auto.
    - intros x Hx. apply Hnew, subcells_cons. auto.
    - intros x Hx [<-|Hxl] y Hy; [by apply subcells_below in Hx|].
      right. eapply Hcl; [apply subcells_cons; right; exact Hx|done..]. }
  destruct (add_used_cells refs _ 0) as [st2 [d|]]; cbn [fst snd] in *.
  - destruct Hres as (l2 & Hct2 & Hl2 & Hb2). split; [done|]. exists l2. cbn [fst]. split_and!.
    + destruct Hct2 as [Hnd Hs Hcs Hbs]. split; try done. intros h. rewrite <- Hs. cbn.
      destruct (decide (get_hash c = h)) as [<-|Hne]; [rewrite lookup_insert_eq|by rewrite lookup_insert_ne].
      split; [|eauto]. intros _. apply Hs, in_map, Hl2. left. by left.
    + intros x. rewrite Hl2. unfold c. rewrite subcells_cons. cbn. intuition congruence.
    + right. destruct Hb2 as [->|?]; [|done]. rewrite (ct_cells _ _ Hct) in Hfit. cbn. lia.
  - split; [done|]. destruct Hres as (l2 & Hnd & Hl2 & Hlt). exists l2. split_and!; try done.
    intros x [[<-|?]|?]%Hl2; [right; apply subcells_self|auto|right; apply subcells_cons; auto].
Qed.

(** C27: The size of a set of trees of cells counts every cell once: unless two different cells have the
    same hash, the result is the number of cells and of bits of a list without duplicates of all the
    cells of the trees, which are at most as many as the limit; and the count stops with an error
    exactly when there are more cells than the limit allows. *)
Theorem storage_stat_counts_once roots limit :
  no_collision (concat (map subcells roots)) ->
  let '(st, depth) := add_used_cells roots (new_stat limit) 0 in
  exists l, NoDup (map get_hash l) /\ (forall x, In x l -> In x (concat (map subcells roots))) /\
  match depth with
  | Some _ => (forall x, In x (concat (map subcells roots)) -> In x l) /\
              st_cells st = Z.of_nat (length l) /\ st_bits st = total_bits l /\ st_cells st <= Z.max 0 limit
  | None => limit < Z.of_nat (length l)
  end.
Proof.
  intros HU. set (U := concat (map subcells roots)) in *.
  assert (counted limit [] U (add_used_cells roots (new_stat limit) 0)) as [_ Hres].
  { apply (children_counted U); try done.
    - apply Forall_forall. intros c Hc l st ? ? ? ? ?. by apply (cell_counted U).
    - split; cbn; [constructor| |done..]. intros h. rewrite lookup_empty. split; [by intros []|done].
    - intros x _ []. }
  destruct (add_used_cells roots (new_stat limit) 0) as [st [d|]]; cbn [fst snd] in Hres.
  - destruct Hres as (l & Hct & Hl & Hb). exists l. split_and!; [apply Hct|intros x Hx; by apply Hl in Hx as [[]|?]| |apply Hct..|].
    + intros x Hx. apply Hl. auto.
    + rewrite (ct_cells _ _ Hct). destruct Hb as [->|?]; cbn; lia.
  - destruct Hres as (l & Hnd & Hl & Hlt). exists l. split_and!; try done. intros x Hx. by apply Hl in Hx as [[]|?].
Qed.
End stat.

(** A root with twice the same leaf has two cells. *)
Lemma storage_stat_counts_once_witness :
  let leaf := DataCell false [true; false] [] in
  let root := DataCell false [true] [leaf; leaf] in
  let '(st, depth) := @add_used_cells toy_sha [root] (new_stat 5) 0 in
  depth = Some 0 /\ st_cells st = 2 /\ st_bits st = 3 /\
  exists l, NoDup (map (@get_hash toy_sha) l) /\ length l = 2%nat /\ In root l /\ In leaf l.
Proof.
  intros leaf root. pose proof (@storage_stat_counts_once toy_sha [root] 5) as H.
  assert (@no_collision toy_sha (concat (map subcells [root]))) as Hno.
  { intros a b Ha Hb E. cbn in Ha, Hb.
    destruct Ha as [<-|[<-|[<-|[]]]], Hb as [<-|[<-|[<-|[]]]]; first [reflexivity | exfalso; vm_compute in E; discriminate E]. }
  specialize (H Hno).
  assert (snd (@add_used_cells toy_sha [root] (new_stat 5) 0) = Some 0) as Ed by (vm_compute; reflexivity).
  assert (st_cells (fst (@add_used_cells toy_sha [root] (new_stat 5) 0)) = 2) as Ec by (vm_compute; reflexivity).
  assert (st_bits (fst (@add_used_cells toy_sha [root] (new_stat 5) 0)) = 3) as Eb by (vm_compute; reflexivity).
  destruct (@add_used_cells toy_sha [root] (new_stat 5) 0) as [st depth]. cbn [fst snd] in *. subst depth.
  destruct H as (l & Hnd & _ & Hin & Hc & _). split_and!; [reflexivity|exact Ec|exact Eb|].
  exists l. split_and!; [exact Hnd|lia|apply Hin; cbn; auto..].
Defined.
