(* ===== verification/TxTypes.v ===== *)
(** * Transactions: data (crypto/block/transaction.h, mc-config.h)

    The records of a transaction and of its phases, the configurations, and the two
    interfaces of the component: [BlockTlb] stands for the code that is generated from
    the TL-B scheme block.tlb, [TransactionEnv] for what the transaction asks of the
    virtual machine, of the storage statistics of the account and of the precompiled
    contracts. *)
From coqutil Require Import Datatypes.RecordSetters.
From S2P Require Import Prelude Int256 Cells DataCell Fees Currency.

(** ** Records of the TL-B scheme *)

Record int_msg_info : Type := mkIntMsgInfo {
  ihr_disabled : bool; bounce : bool; bounced : bool;
  src : CellSlice; dest : CellSlice;
  value : CellSlice;
  extra_flags : CellSlice;
  fwd_fee : CellSlice;
  created_lt : Z; created_at : Z
}.
Record ext_out_msg_info : Type := mkExtOut {
  eo_src : CellSlice; eo_dest : CellSlice; eo_created_lt : Z; eo_created_at : Z
}.
Record ext_in_msg_info : Type := mkExtIn { ei_src : CellSlice; ei_dest : CellSlice }.
(** [CommonMsgInfo] *)
Inductive MsgTag : Type := tag_int_msg | tag_ext_in_msg | tag_other_msg.

Record MessageRelaxed : Type := mkMessage { m_info : CellSlice; m_init : CellSlice; m_body : CellSlice }.

Record StateInit : Type := mkStateInit {
  si_fixed_prefix_length : CellSlice;
  si_special : CellSlice;
  si_code : CellSlice; si_data : CellSlice; si_library : CellSlice
}.

(** [MsgAddressInt]: [addr_std] with [addr_len = 256], or [addr_var] *)
Inductive AddrTag : Type := tag_addr_std | tag_addr_var | tag_addr_other.
Record addr_var : Type := mkAddr {
  anycast : CellSlice; addr_len : Z; workchain_id : Z; address : list bool
}.

Inductive OutAction : Type :=
| action_send_msg | action_set_code | action_reserve_currency | action_change_library.
Record rec_send_msg : Type := mkSendMsg { sm_mode : Z; sm_out_msg : Cell }.
Record rec_reserve : Type := mkReserve { rc_mode : Z; rc_currency : CellSlice }.
Record rec_library : Type := mkLibrary { lb_mode : Z; lb_libref : CellSlice }.

(** Functions [unpack] return the record and the rest of the slice; [csr_unpack] and
    [unpack_cell] use all of it. *)
Class BlockTlb := {
  get_msg_tag : CellSlice -> MsgTag;
  unpack_int_msg_info : CellSlice -> option (int_msg_info * CellSlice);
  unpack_ext_in_msg_info : CellSlice -> option (ext_in_msg_info * CellSlice);
  get_addr_tag : CellSlice -> AddrTag;
  csr_unpack_addr_std : CellSlice -> option addr_var;
  csr_unpack_addr_var : CellSlice -> option addr_var;
  csr_pack_addr_var : addr_var -> option CellSlice;
  validate_MsgAddressInt : CellSlice -> bool;
  fetch_StateInit : CellSlice -> option (CellSlice * CellSlice);
  skip_Maybe_StateInit : CellSlice -> option CellSlice;
  validate_StateInitWithLibs : Cell -> bool;
  unpack_cell_StateInit : Cell -> option StateInit;
  validate_OutListNode : Cell -> bool;
  get_action_tag : CellSlice -> option OutAction;
  unpack_action_send_msg : CellSlice -> option rec_send_msg;
  unpack_action_set_code : CellSlice -> option Cell;
  unpack_action_reserve : CellSlice -> option rec_reserve;
  unpack_action_library : CellSlice -> option rec_library;
  unpack_MessageRelaxed : Cell -> option MessageRelaxed;
  validate_message_relaxed_libs : Cell -> bool;
  csr_unpack_int_relaxed : CellSlice -> option int_msg_info;
  csr_unpack_ext_out_relaxed : CellSlice -> option ext_out_msg_info;
  csr_pack_int_relaxed : int_msg_info -> option CellSlice;
  csr_pack_ext_out : ext_out_msg_info -> option CellSlice;
  (** [type_pack] into a new builder *)
  pack_MessageRelaxed : MessageRelaxed -> option CellBuilder;
  (** the hand-written and the generated check *)
  tlb_validate_Message : Cell -> bool;
  gen_validate_Message : Cell -> bool
}.

(** ** Configuration *)

Record SizeLimitsConfig : Type := mkSizeLimits {
  max_msg_bits : Z; max_msg_cells : Z; max_library_cells : Z;
  max_ext_msg_depth : Z;
  max_acc_state_cells : Z; max_mc_acc_state_cells : Z; max_acc_public_libraries : Z;
  max_msg_extra_currencies : Z; max_acc_fixed_prefix_length : Z;
  acc_state_cells_for_storage_dict : Z
}.

Record StoragePhaseConfig : Type := mkStorageCfg {
  sc_pricing : list StoragePrices;
  freeze_due_limit : Z; delete_due_limit : Z;
  enable_due_payment : bool;
  sc_global_version : Z
}.

Record ComputePhaseConfig : Type := mkComputeCfg {
  gas_prices : GasPrices;
  special_gas_limit : Z; cc_gas_credit : Z;
  special_gas_full : bool;
  cc_global_version : Z;
  cc_size_limits : SizeLimitsConfig;
  dont_run_precompiled : bool;
  allow_external_unfreeze : bool;
  cc_disable_anycast : bool
}.

Record WorkchainInfo : Type := mkWorkchain { accept_msgs : bool; is_valid_addr_len : Z -> bool }.

Record ActionPhaseConfig : Type := mkActionCfg {
  max_actions : Z;
  bounce_msg_body : Z;
  fwd_std : MsgPrices; fwd_mc : MsgPrices;
  size_limits : SizeLimitsConfig;
  workchains : Z -> option WorkchainInfo;
  action_fine_enabled : bool; bounce_on_fail_enabled : bool;
  message_skip_enabled : bool; disable_custom_fess : bool;
  reserve_extra_enabled : bool; extra_currency_v2 : bool; disable_ihr_flag : bool;
  mc_blackhole_addr : option (list bool);
  disable_anycast : bool;
  global_version : Z
}.
Definition fetch_msg_prices (cfg : ActionPhaseConfig) (is_masterchain : bool) : MsgPrices :=
  if is_masterchain then fwd_mc cfg else fwd_std cfg.

(** The flags that [FetchConfigParams::fetch_config_params] derives from the version. *)
Definition versioned_action_cfg (cfg : ActionPhaseConfig) : Prop :=
  let v := global_version cfg in
  action_fine_enabled cfg = (4 <=? v) /\ bounce_on_fail_enabled cfg = (4 <=? v) /\
  message_skip_enabled cfg = (8 <=? v) /\ disable_custom_fess cfg = (8 <=? v) /\
  reserve_extra_enabled cfg = (9 <=? v) /\ extra_currency_v2 cfg = (10 <=? v) /\
  disable_anycast cfg = (10 <=? v) /\ disable_ihr_flag cfg = (11 <=? v).

Definition masterchainId : Z := -1.

(** ** Phases *)

Record StoragePhase : Type := mkStoragePhase {
  fees_collected : Z; fees_due : Z; last_paid_updated : Z;
  sp_frozen : bool; sp_deleted : bool
}.
Record CreditPhase : Type := mkCreditPhase { due_fees_collected : Z; credit : CurrencyCollection }.

Inductive SkipReason : Type := sk_none | sk_no_state | sk_bad_state | sk_no_gas | sk_suspended.
#[global] Instance SkipReason_eq_dec : EqDecision SkipReason.
Proof. solve_decision. Defined.

Record ComputePhase : Type := mkComputePhase {
  skip_reason : SkipReason;
  cp_success : bool; accepted : bool; out_of_gas : bool;
  gas_fees : option Z;
  gas_used : Z; gas_max : Z; gas_limit : Z; gas_credit : Z;
  exit_code : Z; exit_arg : Z; vm_steps : Z;
  cp_new_data : option Cell; cp_actions : option Cell;
  precompiled_gas_usage : option Z
}.
Definition new_compute_phase : ComputePhase :=
  mkComputePhase sk_none false false false None 0 0 0 0 0 0 0 None None None.

Inductive AccStatusChange : Type := acst_unchanged | acst_frozen | acst_deleted.

Record ActionPhase : Type := mkActionPhase {
  ap_success : bool; ap_valid : bool; no_funds : bool; code_changed : bool;
  action_list_invalid : bool; acc_delete_req : bool; state_exceeds_limits : bool;
  acc_status_change : AccStatusChange;
  total_fwd_fees : Z; total_action_fees : Z;
  result_code : Z; result_arg : Z;
  tot_actions : Z; spec_actions : Z; skipped_actions : Z; msgs_created : Z;
  ap_new_code : option Cell;
  remaining_balance : CurrencyCollection; reserved_balance : CurrencyCollection;
  ap_out_msgs : list Cell;
  ap_end_lt : Z;
  tot_msg_bits : Z; tot_msg_cells : Z;
  action_fine : Z;
  need_bounce_on_fail : bool;
  ap_bounce : bool
}.

Record BouncePhase : Type := mkBouncePhase {
  bp_ok : bool; nofunds : bool;
  bp_msg_bits : Z; bp_msg_cells : Z;
  bp_fwd_fees : Z; fwd_fees_collected : Z
}.

(** ** Accounts and transactions *)

Inductive AccStatus : Type := acc_nonexist | acc_uninit | acc_frozen | acc_active | acc_deleted.
#[global] Instance AccStatus_eq_dec : EqDecision AccStatus.
Proof. solve_decision. Defined.

Record Account : Type := mkAccount {
  status : AccStatus;
  is_special : bool;
  acc_tick : bool; acc_tock : bool; fixed_prefix_length : Z;
  workchain : Z;
  addr_rewrite : list bool;
  addr_rewrite_length_set : bool; addr_rewrite_length : Z;
  addr : list bool; addr_orig : list bool;
  acc_my_addr : CellSlice; acc_my_addr_exact : CellSlice;
  last_trans_end_lt : Z; last_trans_lt : Z; last_trans_hash : list bool;
  acc_last_paid : Z;
  storage_used : StorageUsed;
  storage_dict_hash : option (list bool);
  acc_storage : option CellSlice;
  acc_balance : CurrencyCollection;
  acc_due_payment : option Z;
  state_hash : list bool;
  acc_code : option Cell; acc_data : option Cell; acc_library : option Cell;
  transactions : list (Z * Cell)
}.
Definition is_masterchain (a : Account) : bool := workchain a =? masterchainId.

Inductive TransType : Type := tr_ord | tr_tick | tr_tock.
#[global] Instance TransType_eq_dec : EqDecision TransType.
Proof. solve_decision. Defined.

Record Transaction : Type := mkTransaction {
  trans_type : TransType;
  account : Account;
  now : Z;
  in_msg : option Cell;
  start_lt : Z; end_lt : Z;
  acc_status : AccStatus;
  was_deleted : bool; was_frozen : bool; was_activated : bool;
  (** the inbound message *)
  in_msg_type : Z;
  bounce_enabled : bool; in_msg_extern : bool;
  in_msg_info : option int_msg_info;
  in_msg_extra_flags : Z;
  new_bounce_format : bool; new_bounce_format_full_body : bool;
  in_msg_state : option Cell; in_msg_library : option Cell;
  in_msg_body : CellSlice;
  (** money *)
  balance : CurrencyCollection; original_balance : CurrencyCollection;
  msg_balance_remaining : CurrencyCollection;
  due_payment : option Z;
  in_fwd_fee : Z;
  total_fees : CurrencyCollection;
  blackhole_burned : CurrencyCollection;
  last_paid : Z;
  (** the new state *)
  my_addr : CellSlice; my_addr_exact : CellSlice;
  new_tick : bool; new_tock : bool;
  new_fixed_prefix_length : Z; new_addr_rewrite_length : Z;
  orig_addr_rewrite : option (list bool);
  force_remove_anycast_address : bool;
  use_msg_state : bool;
  new_code : option Cell; new_data : option Cell; new_library : option Cell;
  gas_limit_overridden : bool;
  out_msgs : list Cell;
  (** the phases *)
  storage_phase : option StoragePhase;
  credit_phase : option CreditPhase;
  compute_phase : option ComputePhase;
  action_phase : option ActionPhase;
  bounce_phase : option BouncePhase
}.

(** ** The environment *)

(** What the machine leaves: the exit code, whether c4 and c5 were committed, and the gas
    counters ([gas_consumed()] and the fields of [GasLimits]). *)
Record VmOutcome : Type := mkVmOutcome {
  vo_exit_code : Z; vo_out_of_gas : bool; vo_committed : bool;
  vo_gas_consumed : Z; vo_gas_limit : Z; vo_gas_credit : Z;
  vo_steps : Z; vo_exit_arg : Z;
  vo_c4 : option Cell; vo_c5 : option Cell
}.
(** [PrecompiledSmartContract::run] *)
Record PrecompiledOutcome : Type := mkPrecompiled {
  po_exit_code : Z; po_accepted : bool; po_committed : bool; po_exit_arg : Z;
  po_c4 : option Cell; po_c5 : option Cell
}.
(** [td::Status] of the storage statistics: fine with that many cells, limits exceeded, or
    another error. *)
Inductive StatStatus : Type := stat_cells (n : Z) | stat_limits | stat_error.

Class TransactionEnv := {
  (** [prepare_vm_stack], [vm.run()] and what is read from the machine after it; [None] is
      a null stack *)
  run_vm : Transaction -> Z -> Z -> Z -> option VmOutcome;
  precompiled_contract : list bool -> option Z;
  precompiled_implementation : list bool -> option (Z * (Transaction -> PrecompiledOutcome));
  is_address_suspended : Z -> list bool -> bool;
  (** [storage_stat.replace_roots] on the roots of the new state *)
  replace_roots : Account -> list (option Cell) -> StatStatus;
  get_public_libraries_count : option Cell -> Z
}.
