(* ===== verification/TxPhases.v ===== *)
(** * Transactions: from the inbound message to the compute phase (crypto/block/transaction.cpp)

    A transaction is prepared in phases, each a function of the transaction so far.  A
    phase that returns [false], or throws, is [None]: the transaction is then dropped.
    The virtual machine is behind class [TransactionEnv]. *)
From coqutil Require Import Datatypes.RecordSetters.
From S2P Require Import Prelude BigInt Int256 Cells DataCell Uint128 Fees Currency StorageStat TxTypes.
Import TriangleBracketNotations.

(** [FAIL_UNLESS] *)
Definition fail_unless (b : bool) : option unit := if b then Some tt else None.

(** [load_cell_slice]: a special cell is an exception outside of the machine. *)
Definition load_ordinary (c : Cell) : option CellSlice :=
  if cell_special c then None else Some (slice_of_cell c).

Definition max_allowed_merkle_depth : Z := 2.

(** [c.grams = g] *)
Definition set_grams (c : CurrencyCollection) (g : option Z) : CurrencyCollection := mkCC g (extra c).

(** The constructor *)
Definition new_transaction (a : Account) (ttype : TransType) (req_start_lt now : Z) (inmsg : option Cell)
    : Transaction :=
  let start_lt := Z.max req_start_lt (last_trans_end_lt a) in
  {| trans_type := ttype; account := a; now := now; in_msg := inmsg;
     start_lt := start_lt; end_lt := u64 (start_lt + 1);
     acc_status := if decide (status a = acc_nonexist) then acc_uninit else status a;
     was_deleted := false; was_frozen := false; was_activated := false;
     in_msg_type := 0; bounce_enabled := false; in_msg_extern := false;
     in_msg_info := None; in_msg_extra_flags := 0;
     new_bounce_format := false; new_bounce_format_full_body := false;
     in_msg_state := None; in_msg_library := None; in_msg_body := slice_of_cell (DataCell false [] []);
     balance := acc_balance a; original_balance := acc_balance a; msg_balance_remaining := cc_invalid;
     due_payment := acc_due_payment a; in_fwd_fee := 0;
     total_fees := cc_zero; blackhole_burned := cc_zero; last_paid := acc_last_paid a;
     my_addr := acc_my_addr a; my_addr_exact := acc_my_addr_exact a;
     new_tick := acc_tick a; new_tock := acc_tock a;
     new_fixed_prefix_length := fixed_prefix_length a; new_addr_rewrite_length := -1;
     orig_addr_rewrite := None; force_remove_anycast_address := false; use_msg_state := false;
     new_code := acc_code a; new_data := acc_data a; new_library := acc_library a;
     gas_limit_overridden := false; out_msgs := [];
     storage_phase := None; credit_phase := None; compute_phase := None;
     action_phase := None; bounce_phase := None |}.

Section phases.
Context `{Sha256} `{ExtraDict} `{BlockTlb} `{TransactionEnv}.

(** ** The inbound message *)

(** [case gen::CommonMsgInfo::int_msg_info] *)
Definition unpack_int_msg (ihr_delivered : bool) (cfg : ActionPhaseConfig) (cs : CellSlice) (t : Transaction)
    : option (Transaction * CellSlice) :=
  '(info, cs) ← unpack_int_msg_info cs;
  let mbr := cc_unpack (value info) in
  _ ← fail_unless (cc_is_valid mbr);
  _ ← fail_unless (negb (ihr_disabled info && ihr_delivered));
  flags ← as_integer t_Grams (extra_flags info);
  let v12 := 12 <=? global_version cfg in
  let ihr_fee := if v12 then 0 else flags in
  let t := t <| in_msg_info := Some info |> <| bounce_enabled := bounce info |> <| in_msg_type := 1 |> in
  let t := if v12 then t <| in_msg_extra_flags := flags |>
                         <| new_bounce_format := Z.testbit flags 0 |>
                         <| new_bounce_format_full_body := Z.testbit flags 1 |>
           else t in
  let t := if ihr_delivered then t <| in_fwd_fee := ihr_fee |> <| msg_balance_remaining := mbr |>
           else t <| in_fwd_fee := 0 |> <| msg_balance_remaining := cc_add_grams mbr (Some ihr_fee) |> in
  let t := if start_lt t <=? created_lt info
           then t <| start_lt := u64 (created_lt info + 1) |> <| end_lt := u64 (created_lt info + 2) |>
           else t in
  Some (t, cs).

(** [case gen::CommonMsgInfo::ext_in_msg_info]; [msg] is the root of the message. *)
Definition unpack_ext_msg (cfg : ActionPhaseConfig) (msg : Cell) (cs : CellSlice) (t : Transaction)
    : option (Transaction * CellSlice) :=
  '(info, cs) ← unpack_ext_in_msg_info cs;
  _ ← fail_unless (if disable_anycast cfg then
                     match csr_unpack_addr_std (ei_dest info) with
                     | Some rec => (size (anycast rec) <=? 1)%nat
                     | None => false
                     end
                   else true);
  let t := t <| in_msg_type := 2 |> <| in_msg_extern := true |> in
  _ ← fail_unless (get_depth msg <=? max_ext_msg_depth (size_limits cfg));
  let '(sstat, depth) := add_used_slice cs 0 (new_stat no_limit) in
  max_merkle_depth ← depth;
  let bits := st_bits sstat - Z.of_nat (size cs) in
  let cells := st_cells sstat - 1 in
  _ ← fail_unless ((bits <=? max_msg_bits (size_limits cfg)) && (cells <=? max_msg_cells (size_limits cfg)));
  _ ← fail_unless (max_merkle_depth <=? max_allowed_merkle_depth);
  let msg_prices := fetch_msg_prices cfg (is_masterchain (account t)) in
  let fwd := if is_special (account t) then 0 else fst (compute_fwd_ihr_fees msg_prices cells bits true) in
  g ← grams (balance t);
  _ ← fail_unless (fwd <=? g);
  Some (t <| in_fwd_fee := fwd |> <| balance := cc_sub_grams (balance t) (Some fwd) |>
          <| msg_balance_remaining := cc_zero |>, cs).

(** [init:(Maybe (Either StateInit ^StateInit))] *)
Definition unpack_msg_init (cs : CellSlice) (t : Transaction) : option (Transaction * CellSlice) :=
  let k := prefetch_ulong 2 cs in
  if k =? 2 then
    cs ← advance 2 cs;
    '(si, cs) ← fetch_StateInit cs;
    cb ← append_cellslice_bool si empty_builder;
    c ← finalize cb;
    _ ← fail_unless (validate_StateInitWithLibs c);
    Some (t <| in_msg_state := Some c |>, cs)
  else if k =? 3 then
    cs ← advance 2 cs;
    '(c, cs) ← fetch_ref cs;
    _ ← fail_unless (validate_StateInitWithLibs c);
    Some (t <| in_msg_state := Some c |>, cs)
  else
    cs ← advance 1 cs;
    Some (t, cs).

(** [body:(Either X ^X)] *)
Definition unpack_msg_body (cs : CellSlice) (t : Transaction) : option Transaction :=
  let '(b, cs) := fetch_ulong 1 cs in
  if b =? 0 then Some (t <| in_msg_body := cs |>)
  else if b =? 1 then
    if (size cs =? 0)%nat && (size_refs cs =? 1)%nat then
      c ← prefetch_ref 0 cs;
      body ← load_ordinary c;
      Some (t <| in_msg_body := body |>)
    else None
  else None.

Definition is_blackhole (cfg : ActionPhaseConfig) (a : Account) : bool :=
  is_masterchain a && match mc_blackhole_addr cfg with Some x => bits_eqb x (addr a) | None => false end.

Definition unpack_input_msg (ihr_delivered : bool) (cfg : ActionPhaseConfig) (t : Transaction)
    : option Transaction :=
  msg ← in_msg t;
  _ ← fail_unless (in_msg_type t =? 0);
  cs ← load_ordinary msg;
  '(t, cs) ← match get_msg_tag cs with
             | tag_int_msg => unpack_int_msg ihr_delivered cfg cs t
             | tag_ext_in_msg => unpack_ext_msg cfg msg cs t
             | tag_other_msg => None
             end;
  '(t, cs) ← unpack_msg_init cs t;
  t ← unpack_msg_body cs t;
  let t := t <| total_fees := cc_add_grams (total_fees t) (Some (in_fwd_fee t)) |> in
  Some (if is_blackhole cfg (account t) then
          t <| blackhole_burned := set_grams (blackhole_burned t) (grams (msg_balance_remaining t)) |>
            <| msg_balance_remaining := set_grams (msg_balance_remaining t) (Some 0) |>
        else t).

(** ** Storage and credit *)

(** The last branch: the account cannot pay all of it.  (An account is deleted only when
    it has no extra currencies, so that there are none to collect.) *)
Definition collect_all (cfg : StoragePhaseConfig) (to_pay g : Z) (t : Transaction) : StoragePhase * Transaction :=
  let due := to_pay - g in
  let t := t <| balance := set_grams (balance t) (Some 0) |> in
  let sp := mkStoragePhase g due (last_paid t) false false in
  if is_special (account t) then (sp, t)
  else
    let '(sp, t) :=
      match acc_status t with
      | acc_uninit | acc_frozen =>
          if (delete_due_limit cfg <? due) && negb (has_extra (balance t)) then
            (mkStoragePhase g due (last_paid t) false true,
             t <| was_deleted := if 13 <=? sc_global_version cfg then true else was_deleted t |>
               <| acc_status := acc_deleted |>)
          else (sp, t)
      | acc_active =>
          if freeze_due_limit cfg <? due then
            (mkStoragePhase g due (last_paid t) true false,
             t <| was_frozen := true |> <| acc_status := acc_frozen |>)
          else (sp, t)
      | _ => (sp, t)
      end in
    (sp, if enable_due_payment cfg then t <| due_payment := Some due |> else t).

Definition prepare_storage_phase (cfg : StoragePhaseConfig) (force_collect adjust_msg_value : bool)
    (t : Transaction) : option Transaction :=
  let a := account t in
  _ ← fail_unless (acc_last_paid a <=? now t);
  fees ← compute_storage_fees (now t) (sc_pricing cfg) (storage_used a) (acc_last_paid a) (is_special a)
           (is_masterchain a);
  due ← due_payment t;
  let to_pay := fees + due in
  _ ← fail_unless (0 <=? to_pay);
  g ← grams (balance t);
  let paid := if is_special a then 0 else now t in
  let t := t <| last_paid := paid |> in
  let '(sp, t) :=
    if to_pay =? 0 then (mkStoragePhase 0 0 paid false false, t)
    else if to_pay <=? g then
      let t := t <| balance := cc_sub_grams (balance t) (Some to_pay) |> in
      (mkStoragePhase to_pay 0 paid false false,
       if 7 <=? sc_global_version cfg then t <| due_payment := Some 0 |> else t)
    else if bool_decide (acc_status t = acc_frozen) && negb force_collect && (to_pay <? delete_due_limit cfg) then
      (mkStoragePhase 0 0 (if is_special a then 0 else acc_last_paid a) false false, t)
    else collect_all cfg to_pay g t in
  t ← (if adjust_msg_value then
         m ← grams (msg_balance_remaining t);
         b ← grams (balance t);
         Some (if b <? m then t <| msg_balance_remaining := set_grams (msg_balance_remaining t) (Some b) |> else t)
       else Some t);
  Some (t <| total_fees := cc_add_grams (total_fees t) (Some (fees_collected sp)) |>
          <| storage_phase := Some sp |>).

Definition prepare_credit_phase (t : Transaction) : option Transaction :=
  let t := t <| credit_phase := Some (mkCreditPhase 0 (msg_balance_remaining t)) |> in
  _ ← fail_unless (cc_is_valid (msg_balance_remaining t));
  let t := t <| balance := cc_add_to (balance t) (msg_balance_remaining t) |> in
  _ ← fail_unless (cc_is_valid (balance t));
  Some t.

(** ** Gas limits *)

(** [override_gas_limit]: the accounts (of workchain 0) with their limits. *)
Definition overridden_accounts : list (Z * (Z * Z * Z)) :=
  [ (0xFFBFD8F5AE5B2E1C7C3614885CB02145483DFAEE575F0DD08A72C366369211CD, (70000000, 5, 1709164800));
    (0x5e4a5f9dba638789e6770c990d2959237aca3bc19d15a734782c26cb19343cc6, (70000000, 9, 1740787200));
    (0xb755c43ee37925c30f547e2991e7c4c18c1ce4ec63eea5743708dbad868369fa, (70000000, 9, 1740787200));
    (0x61c016fc8efa241af7eb787451a1e571236dfb3eb389832aec0212c0fb8ac10b, (70000000, 9, 1740787200));
    (0xa4a11a78384f92154a0c12761f2f7bc5e374f703335f5bc8f24c2e32ce4f1c26, (70000000, 9, 1740787200));
    (0x4de480ab6acefd53c158126ef5c2cdf89fe64d210d0b44da5c90e52c215dce79, (70000000, 9, 1740787200));
    (0x436a76c2794a88e3fbfec6b9c0374fc8db046f10868b835420d9937973a665d4, (225000000, 9, 1740787200)) ].
Definition override_gas_limit (cfg : ComputePhaseConfig) (now : Z) (a : Account) : option Z :=
  match find (fun e => (workchain a =? 0) && bits_eqb (Z_to_bits 256 (fst e)) (addr a)) overridden_accounts with
  | Some (_, (new_limit, from_version, until)) =>
      if (cc_global_version cfg <? from_version) || (until <=? now) then None else Some new_limit
  | None => None
  end.

(** [Transaction::gas_bought_for]: the gas, and the transaction with its flag. *)
Definition tx_gas_bought_for (cfg : ComputePhaseConfig) (nanograms : option Z) (t : Transaction)
    : Z * Transaction :=
  let g := gas_prices cfg in
  match override_gas_limit cfg (now t) (account t) with
  | Some gas_limit =>
      let max_gas_threshold := compute_max_gas_threshold (gp_gas_price g) gas_limit (gp_flat_gas_limit g)
                                 (gp_flat_gas_price g) in
      (gas_bought_upto g gas_limit max_gas_threshold nanograms, t <| gas_limit_overridden := true |>)
  | None => (gas_bought_for g nanograms, t)
  end.

(** [t_Message.is_internal] *)
Definition is_internal (cs : CellSlice) : bool :=
  let v := prefetch_ulong 2 cs in (v =? 0) || (v =? 1).

Definition compute_gas_limits (cp : ComputePhase) (cfg : ComputePhaseConfig) (t : Transaction)
    : option (ComputePhase * Transaction) :=
  let a := account t in
  let '(max, t) := if is_special a then (special_gas_limit cfg, t)
                   else tx_gas_bought_for cfg (grams (balance t)) t in
  let '(limit, t) :=
    if negb (bool_decide (trans_type t = tr_ord)) || (is_special a && special_gas_full cfg) then (max, t)
    else let '(g, t) := tx_gas_bought_for cfg (grams (msg_balance_remaining t)) t in (Z.min g max, t) in
  credit ← (if decide (trans_type t = tr_ord) then
              msg ← in_msg t;
              cs ← load_ordinary msg;
              Some (if is_internal cs then 0 else Z.min (cc_gas_credit cfg) max)
            else Some 0);
  Some (cp <| gas_max := max |> <| gas_limit := limit |> <| gas_credit := credit |>, t).

(** ** The state of the account *)

Definition cell_equal (a b : option Cell) : bool :=
  match a, b with
  | Some a, Some b => bits_eqb (get_hash a) (get_hash b)
  | None, None => true
  | _, _ => false
  end.

Inductive LimitStatus : Type := limits_ok | limits_exceeded | limits_error.

Definition check_state_limits (limits : SizeLimitsConfig) (version : Z) (t : Transaction) : LimitStatus :=
  let a := account t in
  if cell_equal (acc_code a) (new_code t) && cell_equal (acc_data a) (new_data t)
     && cell_equal (acc_library a) (new_library t) then limits_ok
  else
    match replace_roots a [new_code t; new_data t; new_library t] with
    | stat_error => limits_error
    | stat_limits => limits_exceeded
    | stat_cells n =>
        let max_cells := if is_masterchain a && (12 <=? version) then max_mc_acc_state_cells limits
                         else max_acc_state_cells limits in
        if max_cells <? n then limits_exceeded
        else if is_masterchain a && negb (cell_equal (acc_library a) (new_library t))
                && (max_acc_public_libraries limits <? get_public_libraries_count (new_library t))
        then limits_exceeded
        else limits_ok
    end.

(** [unpack_msg_state]: the result and the transaction after it. *)
Definition unpack_msg_state (cfg : ComputePhaseConfig) (lib_only forbid_public_libs : bool) (t : Transaction)
    : bool * Transaction :=
  match msg_state ← in_msg_state t; unpack_cell_StateInit msg_state with
  | None => (false, t)
  | Some state =>
      if lib_only then (true, t <| in_msg_library := prefetch_ref 0 (si_library state) |>)
      else
        let prefix := if (size (si_fixed_prefix_length state) =? 6)%nat
                      then wrap_s 8 (prefetch_ulong 6 (si_fixed_prefix_length state) - 32) else 0 in
        let t := t <| new_fixed_prefix_length := prefix |> in
        let t := if cc_disable_anycast cfg then t else t <| new_addr_rewrite_length := prefix |> in
        let z := wrap_s 32 (prefetch_ulong 3 (si_special state)) in
        let has_special := (1 <? size (si_special state))%nat in
        if has_special && (z <? 0) then (false, t)
        else
          let t := if has_special then t <| new_tick := Z.testbit z 1 |> <| new_tock := Z.testbit z 0 |> else t in
          let t' := t <| new_code := prefetch_ref 0 (si_code state) |>
                      <| new_data := prefetch_ref 0 (si_data state) |>
                      <| new_library := prefetch_ref 0 (si_library state) |> in
          let limits := cc_size_limits cfg in
          let limits := if forbid_public_libs then limits <| max_acc_public_libraries := 0 |> else limits in
          match check_state_limits limits (cc_global_version cfg) t' with
          | limits_ok => (true, t')
          | _ => (false, t)
          end
  end.

(** [Account::check_addr_rewrite_length] and [Account::recompute_tmp_addr] *)
Definition check_addr_rewrite_length (a : Account) (length : Z) : bool :=
  if addr_rewrite_length_set a then length =? addr_rewrite_length a else (0 <=? length) && (length <=? 30).
Definition recompute_tmp_addr (a : Account) (prefix : Z) (orig_rewrite : list bool) : option CellSlice :=
  if prefix =? 0 then Some (acc_my_addr_exact a)
  else if prefix =? addr_rewrite_length a then Some (acc_my_addr a)
  else if (prefix <? 0) || (30 <? prefix) then None
  else
    let d := Z.to_nat prefix in
    let std := (-128 <=? workchain a) && (workchain a <? 128) in
    cb ← store_long_bool (if std then 2 else 3) 2 empty_builder;
    cb ← store_long_bool 1 1 cb;
    cb ← store_long_bool prefix 5 cb;
    cb ← store_bits_bool (take d (addr a)) cb;
    cb ← (if std then store_long_bool (workchain a) 8 cb
          else cb ← store_long_bool 256 9 cb; store_long_bool (workchain a) 32 cb);
    cb ← store_bits_bool (take d orig_rewrite) cb;
    cb ← store_bits_bool (drop d (addr a)) cb;
    finalize_slice cb.

Definition check_in_msg_state_hash (cfg : ComputePhaseConfig) (t : Transaction) : option Transaction :=
  msg_state ← in_msg_state t;
  let d := new_fixed_prefix_length t in
  _ ← fail_unless ((0 <=? d) && (d <? 32));
  let in_state_hash := get_hash msg_state in
  _ ← fail_unless (bits_eqb (drop (Z.to_nat d) in_state_hash) (drop (Z.to_nat d) (addr (account t))));
  let t := t <| orig_addr_rewrite := Some (take 32 in_state_hash) |> in
  if cc_disable_anycast cfg then Some (t <| my_addr := my_addr_exact t |>)
  else a ← recompute_tmp_addr (account t) d in_state_hash; Some (t <| my_addr := a |>).

(** ** The compute phase *)

(** The end of the phase: an accepted transaction pays for its gas. *)
Definition charge_gas (cfg : ComputePhaseConfig) (cp : ComputePhase) (t : Transaction) : option Transaction :=
  if accepted cp then
    let fees := if is_special (account t) then 0 else compute_gas_price (gas_prices cfg) (gas_used cp) in
    let t := if is_special (account t) then t
             else t <| total_fees := cc_add_grams (total_fees t) (Some fees) |>
                    <| balance := cc_sub_grams (balance t) (Some fees) |> in
    g ← grams (balance t);
    _ ← fail_unless (0 <=? g);
    Some (t <| compute_phase := Some (cp <| gas_fees := Some fees |>) |>)
  else Some (t <| compute_phase := Some cp |>).

Definition activate (cp : ComputePhase) (t : Transaction) : Transaction :=
  if accepted cp && use_msg_state t then t <| was_activated := true |> <| acc_status := acc_active |> else t.

Definition run_precompiled_contract (cfg : ComputePhaseConfig) (run : Transaction -> PrecompiledOutcome)
    (cp : ComputePhase) (t : Transaction) : option Transaction :=
  gas_usage ← precompiled_gas_usage cp;
  let r := run t in
  let success := po_accepted r && po_committed r in
  let cp := cp <| exit_code := po_exit_code r |> <| out_of_gas := false |> <| vm_steps := 0 |>
               <| gas_used := gas_usage |> <| accepted := po_accepted r |> <| cp_success := success |> in
  let cp := if success then cp <| cp_new_data := po_c4 r |> <| cp_actions := po_c5 r |> else cp in
  let arg := po_exit_arg r in
  let cp := cp <| exit_arg := if negb success && bool_decide (wrap_s 32 arg = arg) then arg else 0 |> in
  charge_gas cfg cp (activate cp t).

(** From [vm.run()] on; [gas] are the limits given to the machine. *)
Definition run_tvm (cfg : ComputePhaseConfig) (precompiled : option Z) (limit max credit : Z)
    (cp : ComputePhase) (t : Transaction) : option Transaction :=
  r ← run_vm t limit max credit;
  let acc := vo_gas_credit r =? 0 in
  let success := acc && vo_committed r in
  let cp := cp <| exit_code := vo_exit_code r |> <| out_of_gas := vo_out_of_gas r |> <| vm_steps := vo_steps r |>
               <| gas_used := u64 (Z.min (vo_gas_consumed r) (vo_gas_limit r)) |>
               <| accepted := acc |> <| cp_success := success |> in
  let t := activate cp t in
  cp ← match precompiled with
       | Some gas_usage =>
           if out_of_gas cp then None else Some (cp <| gas_used := gas_usage |> <| vm_steps := 0 |>)
       | None => Some cp
       end;
  let cp := if success then cp <| cp_new_data := vo_c4 r |> <| cp_actions := vo_c5 r |> else cp in
  let cp := cp <| exit_arg := if success then 0 else vo_exit_arg r |> in
  charge_gas cfg cp t.

(** The state that the code runs from: [inl] when the phase is skipped. *)
Definition prepare_state (cfg : ComputePhaseConfig) (t : Transaction) : (SkipReason * Transaction) + Transaction :=
  let a := account t in
  let hash_is h := match in_msg_state t with Some c => bits_eqb (get_hash c) h | None => false end in
  let have_state := bool_decide (is_Some (in_msg_state t)) in
  let uninit := bool_decide (acc_status t = acc_uninit) in
  let step : (SkipReason * Transaction) + Transaction :=
    if have_state && (uninit || bool_decide (acc_status t = acc_frozen) && hash_is (state_hash a)) then
      if uninit && is_address_suspended (workchain a) (addr a) then inl (sk_suspended, t)
      else
        let t := t <| use_msg_state := true |> in
        let '(ok, t) := unpack_msg_state cfg false (uninit && is_masterchain a) t in
        if negb (ok && check_addr_rewrite_length a (new_fixed_prefix_length t)) then inl (sk_bad_state, t)
        else
          match (if uninit then check_in_msg_state_hash cfg t else Some t) with
          | None => inl (sk_bad_state, t)
          | Some t =>
              if cc_disable_anycast cfg && uninit
                 && (max_acc_fixed_prefix_length (cc_size_limits cfg) <? new_fixed_prefix_length t)
              then inl (sk_bad_state, t)
              else inr t
          end
    else if negb (bool_decide (acc_status t = acc_active)) then
      inl (if have_state then sk_bad_state else sk_no_state, t)
    else if have_state then
      if allow_external_unfreeze cfg && in_msg_extern t && negb (hash_is (addr a)) then inl (sk_bad_state, t)
      else inr (snd (unpack_msg_state cfg true false t))
    else inr t in
  match step with
  | inl r => inl r
  | inr t =>
      if negb (allow_external_unfreeze cfg) && in_msg_extern t && have_state && negb (hash_is (addr a))
      then inl (sk_bad_state, t)
      else inr (if cc_disable_anycast cfg then
                  t <| my_addr := my_addr_exact t |> <| new_addr_rewrite_length := 0 |>
                    <| force_remove_anycast_address := true |>
                else t)
  end.

(** The code runs: a contract that is listed as precompiled has a fixed price. *)
Definition run_contract (cfg : ComputePhaseConfig) (cp : ComputePhase) (t : Transaction) : option Transaction :=
  let hash := get_hash <$> new_code t in
  let precompiled := if decide (trans_type t = tr_ord) then h ← hash; precompiled_contract h else None in
  match precompiled with
  | Some gas_usage =>
      let cp := cp <| precompiled_gas_usage := Some gas_usage |> in
      if gas_limit cp <? gas_usage then Some (t <| compute_phase := Some (cp <| skip_reason := sk_no_gas |>) |>)
      else
        let impl := if dont_run_precompiled cfg then None
                    else h ← hash; '(required_version, run) ← precompiled_implementation h;
                         if required_version <=? cc_global_version cfg then Some run else None in
        match impl with
        | Some run => run_precompiled_contract cfg run cp t
        | None =>
            let limit := ll (if is_special (account t) then special_gas_limit cfg
                             else gp_gas_limit (gas_prices cfg)) in
            run_tvm cfg precompiled limit limit (if gas_credit cp =? 0 then 0 else limit) cp t
        end
  | None => run_tvm cfg None (ll (gas_limit cp)) (ll (gas_max cp)) (ll (gas_credit cp)) cp t
  end.

Definition prepare_compute_phase (cfg : ComputePhaseConfig) (t : Transaction) : option Transaction :=
  let skip reason cp (t : Transaction) := Some (t <| compute_phase := Some (cp <| skip_reason := reason |>) |>) in
  let cp := new_compute_phase in
  let t := t <| original_balance :=
                  if 9 <=? cc_global_version cfg then
                    if cc_is_valid (msg_balance_remaining t)
                    then cc_sub_from (balance t) (msg_balance_remaining t) else balance t
                  else cc_sub_from (original_balance t) (total_fees t) |> in
  g ← grams (balance t);
  if g <=? 0 then skip sk_no_gas cp t
  else
    '(cp, t) ← compute_gas_limits cp cfg t;
    if (gas_limit cp =? 0) && (gas_credit cp =? 0) then skip sk_no_gas cp t
    else
      match prepare_state cfg t with
      | inl (reason, t) => skip reason cp t
      | inr t => run_contract cfg cp t
      end.
End phases.
