(* ===== verification/TxLibrary.v ===== *)
(** * Transactions: changes of the libraries of an account (crypto/block/transaction.cpp)

    [try_action_change_library] works on the dictionary of libraries with the methods of
    class [Dictionary] (DictObj). *)
From coqutil Require Import Datatypes.RecordSetters.
From S2P Require Import Prelude BigInt Int256 Cells DataCell Dict DictObj Fees Currency StorageStat TxTypes TxPhases.
Import TriangleBracketNotations.

Section library.
Context `{Sha256} `{BlockTlb}.

(** The [try] block: the new root, or an error code; [None] is a library that is already in
    the required state. *)
Definition update_library (limits : SizeLimitsConfig) (mode : Z) (hash : list bool) (lib_ref root : option Cell)
    : M unit (Z + option (option Cell)) :=
  let dict := dictionary_of_cell root 256 in
  dict <- force_validate dict ;;
  if mode =? 0 then
    let* (_, dict) := lookup_delete hash dict in ret (inr (Some (root_cell dict)))
  else
    let* (val, dict) := DictObj.lookup hash dict in
    found <- match val with
             | Some cs =>
                 ref <- of_option (prefetch_ref 0 cs) ;;
                 if bits_eqb hash (get_hash ref)
                 then ret (Some ref, Z.b2z (negb (prefetch_ulong 1 cs =? 0)) =? Z.shiftr mode 1) else ret (lib_ref, false)
             | None => ret (lib_ref, false)
             end ;;
    let '(lib_ref, same) := found in
    if same then ret (inr None)
    else
      match lib_ref with
      | None => ret (inl 41)
      | Some lib =>
          let '(sstat, depth) := add_used_cell lib (new_stat no_limit) in
          merkle <- of_option depth ;;
          if (max_library_cells limits <? st_cells sstat) || (max_allowed_merkle_depth <? merkle) then ret (inl 43)
          else
            cb <- of_option (cb ← store_long_bool (Z.shiftr mode 1) 1 empty_builder; store_ref_bool (Some lib) cb) ;;
            let* (ok, dict) := set_builder hash cb Set_ dict in
            assert_ub ok ;;
            ret (inr (Some (root_cell dict)))
      end.

(** The error code (0: done) with the phase and the transaction; [None] is the code -666. *)
Definition try_action_change_library (cfg : ActionPhaseConfig) (cs : CellSlice) (ap : ActionPhase) (t : Transaction)
    : option (Z * ActionPhase * Transaction) :=
  match unpack_action_library cs with
  | None => Some (-1, ap, t)
  | Some rec =>
      let bounces := Z.testbit (lb_mode rec) 4 in
      if bounces && negb (bounce_on_fail_enabled cfg) then Some (-1, ap, t)
      else
        let ap := if bounces then ap <| need_bounce_on_fail := true |> else ap in
        let mode := if bounces then Z.land (lb_mode rec) (Z.lnot 16) else lb_mode rec in
        if 2 <? mode then Some (-1, ap, t)
        else
          let lib_ref := prefetch_ref 0 (lb_libref rec) in
          hash ← match lib_ref with
                 | Some c => Some (get_hash c)
                 | None =>
                     let '(b, cs) := fetch_ulong 1 (lb_libref rec) in
                     _ ← fail_unless ((b =? 0) && have 256 cs);
                     Some (take 256 (slice_bits cs))
                 end;
          match update_library (size_limits cfg) mode hash lib_ref (new_library t) tt with
          | Ret (inl code) _ => Some (code, ap, t)
          | Ret (inr None) _ => Some (0, ap <| spec_actions := spec_actions ap + 1 |>, t)
          | Ret (inr (Some root)) _ =>
              Some (0, ap <| spec_actions := spec_actions ap + 1 |>, t <| new_library := root |>)
          | Exn (VmError _) _ => Some (42, ap, t)
          | _ => None
          end
  end.
End library.
