(* ===== verification/TxActions.v ===== *)
(** * Transactions: the actions of a contract (crypto/block/transaction.cpp)

    The action phase goes through the list of actions that the code has left in register
    c5.  An action returns an error code (0: done, -2: to be tried again with parts of the
    message moved into cells of their own); [fatal] stands for the code -666, for a failed
    check and for an exception, which all end the transaction. *)
From coqutil Require Import Datatypes.RecordSetters.
From S2P Require Import Prelude BigInt Int256 Cells DataCell Uint128 Fees Currency StorageStat TxTypes TxPhases TxLibrary.
Import TriangleBracketNotations.

(** ** Outcome of a piece of an action *)

Inductive act (A : Type) : Type :=
| go (a : A)
| stop (code : Z) (ap : ActionPhase) (t : Transaction)
| fatal.
Arguments go {A} _.
Arguments stop {A} _ _ _.
Arguments fatal {A}.

#[global] Instance act_bind : MBind act := fun A B f m =>
  match m with go a => f a | stop code ap t => stop code ap t | fatal => fatal end.
(** [FAIL_UNLESS_ERRCODE] and null references *)
Definition must {A} (o : option A) : act A := match o with Some a => go a | None => fatal end.
Definition check (b : bool) : act unit := if b then go tt else fatal.

(** [check_skip_invalid] *)
Definition skip_invalid_code (cfg : ActionPhaseConfig) (skip_invalid : bool) (code : Z)
    (ap : ActionPhase) (t : Transaction) {A} : act A :=
  if skip_invalid then
    stop 0 (if message_skip_enabled cfg then ap <| skipped_actions := skipped_actions ap + 1 |> else ap) t
  else stop code ap t.

Definition null_slice : CellSlice := slice_of_cell (DataCell false [] []).

Section actions.
Context `{Sha256} `{ExtraDict} `{BlockTlb} `{TransactionEnv}.

(** ** Addresses *)

Definition contents_equal (cs cs2 : CellSlice) : bool :=
  bits_eqb (slice_bits cs) (slice_bits cs2)
  && bool_decide (map get_hash (slice_refs cs) = map get_hash (slice_refs cs2)).

(** [None] is [false]. *)
Definition check_replace_src_addr (src_addr : CellSlice) (t : Transaction) : option CellSlice :=
  let k := prefetch_ulong 2 src_addr in
  if (k =? 0) && (size src_addr =? 2)%nat && (size_refs src_addr =? 0)%nat then Some (my_addr t)
  else if negb (k =? 2) then None
  else if contents_equal src_addr (my_addr t) || contents_equal src_addr (my_addr_exact t) then Some src_addr
  else None.

(** The part of [check_rewrite_dest_addr] on the prefix of an anycast address: the prefix,
    and whether it was rewritten. *)
Definition rewrite_anycast (allow_anycast : bool) (any : CellSlice) (t : Transaction) : option (CellSlice * bool) :=
  if (1 <? size any)%nat then
    if negb allow_anycast then None
    else
      let '(v, cs) := fetch_ulong 6 any in
      let d := wrap_s 32 v - 32 in
      if (d <=? 0) || (30 <? d) then None
      else
        let pfx := prefetch_ulong (Z.to_nat d) cs mod 2 ^ 32 in
        let my_pfx := bits_to_Z (take (Z.to_nat d) (addr (account t))) in
        if pfx =? my_pfx then Some (any, false)
        else
          cb ← store_long_bool (32 + d) 6 empty_builder;
          cb ← store_long_bool my_pfx (Z.to_nat d) cb;
          any ← finalize_slice cb;
          Some (any, true)
  else Some (any, false).

Definition dest_workchain_ok (cfg : ActionPhaseConfig) (rec : addr_var) : bool :=
  if workchain_id rec =? masterchainId then addr_len rec =? 256
  else match workchains cfg (workchain_id rec) with
       | Some wc => accept_msgs wc && is_valid_addr_len wc (addr_len rec)
       | None => false
       end.

(** The new address and whether it is in the masterchain. *)
Definition check_rewrite_dest_addr (dest_addr : CellSlice) (cfg : ActionPhaseConfig) (allow_anycast : bool)
    (t : Transaction) : option (CellSlice * bool) :=
  if prefetch_ulong 1 dest_addr =? 0 then Some (dest_addr, false)
  else
    '(rec, repack) ←
      match get_addr_tag dest_addr with
      | tag_addr_var =>
          rec ← csr_unpack_addr_var dest_addr;
          Some (rec, (addr_len rec =? 256) && (-128 <=? workchain_id rec) && (workchain_id rec <? 128))
      | tag_addr_std => rec ← csr_unpack_addr_std dest_addr; Some (rec, false)
      | tag_addr_other => None
      end;
    _ ← fail_unless (dest_workchain_ok cfg rec);
    '(any, rewritten) ← rewrite_anycast allow_anycast (anycast rec) t;
    let is_mc := workchain_id rec =? masterchainId in
    if negb (repack || rewritten) then Some (dest_addr, is_mc)
    else
      dest ← (if (addr_len rec =? 256) && (-128 <=? workchain_id rec) && (workchain_id rec <? 128) then
                cb ← store_long_bool 2 2 empty_builder;
                cb ← append_cellslice_bool any cb;
                cb ← store_long_bool (workchain_id rec) 8 cb;
                cb ← store_bits_bool (address rec) cb;
                finalize_slice cb
              else csr_pack_addr_var (mkAddr any (addr_len rec) (workchain_id rec) (address rec)));
      _ ← fail_unless (validate_MsgAddressInt dest);
      Some (dest, is_mc).

(** ** Sending a message *)

(** A part of the message, in a cell of its own. *)
Definition move_to_cell (cs : CellSlice) (tag : Z) (tag_bits : nat) : option CellSlice :=
  cb ← append_cellslice_bool cs empty_builder;
  cell ← finalize cb;
  cb ← store_long_bool tag tag_bits empty_builder;
  cb ← store_ref_bool (Some cell) cb;
  finalize_slice cb.

(** [if (redoing >= 1)]: the message, and [redoing] after it. *)
Definition redo_message (redoing : Z) (msg : MessageRelaxed) : option (MessageRelaxed * Z) :=
  '(msg, redoing) ←
    (if 1 <=? redoing then
       if (2 <=? size_refs (m_init msg))%nat then
         let '(v, cs) := fetch_ulong 2 (m_init msg) in
         _ ← fail_unless (v =? 2);
         init ← move_to_cell cs 3 2;
         Some (mkMessage (m_info msg) init (m_body msg), redoing)
       else Some (msg, 2)
     else Some (msg, redoing));
  if (2 <=? redoing) && ((1 <? size (m_body msg))%nat || (0 <? size_refs (m_body msg))%nat)
     && (prefetch_ulong 1 (m_body msg) =? 0) then
    let '(v, cs) := fetch_ulong 1 (m_body msg) in
    _ ← fail_unless (v =? 0);
    body ← move_to_cell cs 1 1;
    Some (mkMessage (m_info msg) (m_init msg) body, redoing)
  else Some (msg, redoing).

(** What the rest of the action works on. *)
Record OutMsg : Type := mkOutMsg {
  om_ext : bool;
  om_info : int_msg_info;
  om_fwd_fee : Z; om_ihr_fee : Z
}.

(** The message as the contract suggests it. *)
Definition suggested_message (cfg : ActionPhaseConfig) (mode : Z) (msg : MessageRelaxed)
    (ap : ActionPhase) (t : Transaction) : act OutMsg :=
  let skip code := skip_invalid_code cfg (Z.testbit mode 1) code ap t in
  if negb (prefetch_ulong 1 (m_info msg) =? 0) then
    match csr_unpack_ext_out_relaxed (m_info msg) with
    | None => stop (-1) ap t
    | Some erec =>
        if negb (Z.land mode (Z.lnot 3) =? 0) then stop (-1) ap t
        else go (mkOutMsg true
                   (mkIntMsgInfo true false false (eo_src erec) (eo_dest erec) null_slice null_slice null_slice 0 0)
                   0 0)
    end
  else
    match csr_unpack_int_relaxed (m_info msg) with
    | None => stop (-1) ap t
    | Some info =>
        if negb (validate_CurrencyCollection (value info)) then stop (-1) ap t
        else
          match (if disable_custom_fess cfg then Some (0, 0)
                 else
                   fwd ← as_integer t_Grams (fwd_fee info);
                   ihr ← (if 12 <=? global_version cfg then Some 0 else as_integer t_Grams (extra_flags info));
                   Some (fwd, ihr)) with
          | None => stop (-1) ap t
          | Some (fwd, ihr) =>
              let info := if disable_ihr_flag cfg then info <| ihr_disabled := true |> else info in
              if 12 <=? global_version cfg then
                match as_integer t_Grams (extra_flags info) with
                | Some flags =>
                    if Z.land flags 3 =? flags then go (mkOutMsg false info fwd ihr) else skip 45
                | None => skip 45
                end
              else go (mkOutMsg false info fwd ihr)
          end
    end.

(** Source, destination and value; the result says whether the destination is in the
    masterchain. *)
Definition address_message (cfg : ActionPhaseConfig) (mode : Z) (om : OutMsg) (ap : ActionPhase) (t : Transaction)
    : act (OutMsg * bool) :=
  let skip code := skip_invalid_code cfg (Z.testbit mode 1) code ap t in
  let info := (om_info om) <| created_at := now t |> <| created_lt := ap_end_lt ap |> <| bounced := false |> in
  match check_replace_src_addr (src info) t with
  | None => if 13 <=? global_version cfg then skip 35 else stop 35 ap t
  | Some s =>
      match check_rewrite_dest_addr (dest info) cfg (negb (disable_anycast cfg)) t with
      | None => skip 36
      | Some (d, to_mc) =>
          let info := info <| src := s |> <| dest := d |> in
          let done info := go (om <| om_info := info |>, to_mc) in
          if negb (om_ext om) && extra_currency_v2 cfg then
            match unpack_CurrencyCollection (value info) with
            | None => skip 37
            | Some v =>
                match remove_zero_extra (extra v) (max_msg_extra_currencies (size_limits cfg)) with
                | None => skip 44
                | Some e => v ← must (cc_pack (mkCC (grams v) e)); done (info <| value := v |>)
                end
            end
          else done info
      end
  end.

(** The number of cells that the sender could pay the fine for. *)
Definition fine_per_cell (cfg : ActionPhaseConfig) (msg_prices : MsgPrices) (t : Transaction) : Z :=
  if action_fine_enabled cfg && negb (is_special (account t)) then Z.shiftr (mp_cell_price msg_prices) 16 / 4 else 0.

Definition affordable_cells (cfg : ActionPhaseConfig) (msg_prices : MsgPrices) (mode : Z) (om : OutMsg)
    (ap : ActionPhase) (t : Transaction) : act Z :=
  let skip code := skip_invalid_code cfg (Z.testbit mode 1) code ap t in
  let max_cells := max_msg_cells (size_limits cfg) in
  if action_fine_enabled cfg && negb (is_special (account t)) then
    let fine := fine_per_cell cfg msg_prices t in
    g ← must (grams (remaining_balance ap));
    funds ← (if negb (om_ext om) && negb (Z.testbit mode 7) && negb (Z.testbit mode 0) then
               if negb (validate_CurrencyCollection (value (om_info om))) then skip 37
               else
                 v ← must (unpack_CurrencyCollection (value (om_info om)));
                 new_funds ← must (grams v);
                 if Z.testbit mode 6 then
                   let new_funds := new_funds + default 0 (grams (msg_balance_remaining t)) in
                   fees ← must (match compute_phase t with Some cp => gas_fees cp | None => Some 0 end);
                   let new_funds := new_funds - fees - action_fine ap in
                   if new_funds <? 0 then skip 37 else go (Z.min g new_funds)
                 else go (Z.min g new_funds)
             else go g);
    go (if funds <? ll (u64 (max_cells * fine))
        then int_to_long (Int (funds / fine)) mod 2 ^ 32
        else max_cells)
  else go max_cells.

(** The size of the message; a part that is too large leaves the Merkle depth as it is. *)
Definition measure_part (m : CellStorageStat * option Z) (depth : Z) : CellStorageStat * Z :=
  (fst m, match snd m with Some d => Z.max depth d | None => depth end).
Definition measure_message (cfg : ActionPhaseConfig) (max_cells : Z) (msg : MessageRelaxed) (om : OutMsg)
    : CellStorageStat * Z :=
  let '(st, d) := measure_part (add_used_slice (m_init msg) 3 (new_stat max_cells)) 0 in
  let '(st, d) := measure_part (add_used_slice (m_body msg) 3 st) d in
  if negb (om_ext om) && negb (extra_currency_v2 cfg) then
    match prefetch_ref 0 (value (om_info om)) with
    | Some c => measure_part (add_used_cell c st) d
    | None => (st, d)
    end
  else (st, d).

(** [collect_fine] *)
Definition collect_fine (cfg : ActionPhaseConfig) (fine max_cells cells : Z) (t : Transaction) (ap : ActionPhase)
    : option ActionPhase :=
  if action_fine_enabled cfg && negb (is_special (account t)) then
    g ← grams (remaining_balance ap);
    let fine := u64 (fine * Z.min max_cells cells) in
    let fine := if g <? ll fine then u64 (int_to_long (Int g)) else fine in
    Some (ap <| action_fine := action_fine ap + ll fine |>
             <| remaining_balance := set_grams (remaining_balance ap) (Some (g - ll fine)) |>)
  else Some ap.

(** [collect_fine(); return check_skip_invalid(code);] *)
Definition fined (cfg : ActionPhaseConfig) (mode fine max_cells cells code : Z) (ap : ActionPhase) (t : Transaction)
    {A} : act A :=
  ap ← must (collect_fine cfg fine max_cells cells t ap);
  skip_invalid_code cfg (Z.testbit mode 1) code ap t.

(** The value that an internal message asks for. *)
Definition requested (cfg : ActionPhaseConfig) (mode : Z) (info : int_msg_info) (ap : ActionPhase) (t : Transaction)
    : act (option CurrencyCollection) :=
  req ← must (unpack_CurrencyCollection (value info));
  if Z.testbit mode 7 then
    go (Some (if extra_currency_v2 cfg then set_grams req (grams (remaining_balance ap)) else remaining_balance ap))
  else if Z.testbit mode 6 then
    req ← (if extra_currency_v2 cfg then
             x ← must (grams req); y ← must (grams (msg_balance_remaining t)); go (set_grams req (Some (x + y)))
           else go (cc_add_to req (msg_balance_remaining t)));
    if Z.testbit mode 0 then go (Some req)
    else
      let req := cc_sub_grams req (Some (action_fine ap)) in
      let req := match compute_phase t with Some cp => cc_sub_grams req (gas_fees cp) | None => req end in
      go (if cc_is_valid req then Some req else None)
  else go (Some req).

(** The end of both branches: the new message is checked and goes out. *)
Record Sent : Type := mkSent {
  s_msg : Cell; s_bits : Z; s_collected : Z; s_total : Z; s_ap : ActionPhase; s_tx : Transaction
}.

(** An outbound internal message; [fail code] is [fined] with the code. *)
Definition send_internal (cfg : ActionPhaseConfig) (msg_prices : MsgPrices) (mode redoing : Z) (msg : MessageRelaxed)
    (om : OutMsg) (fail : forall A, Z -> act A) (ap : ActionPhase) (t : Transaction) : act Sent :=
  let info := om_info om in
  let fwd := om_fwd_fee om in
  if negb (validate_CurrencyCollection (value info)) then fail _ 37
  else
    let ihr := if ihr_disabled info then 0 else om_ihr_fee om in
    r ← requested cfg mode info ap t;
    match r with
    | None => fail _ 37
    | Some req =>
        let pays := Z.testbit mode 0 && negb (Z.testbit mode 7) in
        g ← must (grams req);
        avail ← must (grams (remaining_balance ap));
        let fees_total := fwd + ihr in
        let brutto := if pays then g + fees_total else g in
        if negb pays && (g <? fees_total) then fail _ 37
        else
          let req := if pays then req else set_grams req (Some (g - fees_total)) in
          if avail <? brutto then fail _ 37
          else if extra_currency_v2 cfg
                  && negb (extra_currency_limit (extra req) (max_msg_extra_currencies (size_limits cfg)))
          then skip_invalid_code cfg (Z.testbit mode 1) 44 ap t
          else
            match sub_extra_currency (extra (remaining_balance ap)) (extra req) with
            | None => fail _ 38
            | Some new_extra =>
                let mine := get_first_part msg_prices fwd in
                v ← must (cc_pack req);
                ff ← must (pack_integer t_Grams (Some (fwd - mine)));
                ef ← (if global_version cfg <? 12 then must (pack_integer t_Grams (Some ihr))
                      else go (extra_flags info));
                let info := info <| value := v |> <| fwd_fee := ff |> <| extra_flags := ef |> in
                packed ← must (csr_pack_int_relaxed info);
                match pack_MessageRelaxed (mkMessage packed (m_init msg) (m_body msg)) with
                | None => if redoing =? 2 then fail _ 39 else stop (-2) ap t
                | Some cb =>
                    new_msg ← must (finalize cb);
                    let t := if Z.testbit mode 6 || Z.testbit mode 7 then
                               if extra_currency_v2 cfg
                               then t <| msg_balance_remaining := set_grams (msg_balance_remaining t) (Some 0) |>
                               else t <| msg_balance_remaining := cc_zero |>
                             else t in
                    let bal := cc_sub_grams (remaining_balance ap) (Some brutto) in
                    _ ← check (cc_is_valid bal);
                    go (mkSent new_msg (Z.of_nat (length (cb_bits cb))) mine fees_total
                          (ap <| remaining_balance := mkCC (grams bal) new_extra |>) t)
                end
            end
    end.

(** An outbound external message *)
Definition send_external (cfg : ActionPhaseConfig) (redoing : Z) (msg : MessageRelaxed)
    (om : OutMsg) (fail : forall A, Z -> act A) (ap : ActionPhase) (t : Transaction) : act Sent :=
  let info := om_info om in
  let fwd := om_fwd_fee om in
  avail ← must (grams (remaining_balance ap));
  if avail <? fwd then fail _ 37
  else
    packed ← must (csr_pack_ext_out (mkExtOut (src info) (dest info) (created_lt info) (created_at info)));
    match pack_MessageRelaxed (mkMessage packed (m_init msg) (m_body msg)) with
    | None => if redoing =? 2 then fail _ 39 else stop (-2) ap t
    | Some cb =>
        new_msg ← must (finalize cb);
        let bal := cc_sub_grams (remaining_balance ap) (Some fwd) in
        _ ← check (cc_is_valid bal);
        go (mkSent new_msg (Z.of_nat (length (cb_bits cb))) fwd fwd (ap <| remaining_balance := bal |>) t)
    end.

(** The fees of the message: at least the computed ones. *)
Definition raise_fee (given computed : Z) : Z :=
  if (0 <=? given) && (given <? 2 ^ 63) && (given <? ll computed) then computed else given.

(** After the message is made. *)
Definition finish_send (cfg : ActionPhaseConfig) (mode fine max_cells : Z) (sstat : CellStorageStat) (s : Sent)
    : act (ActionPhase * Transaction) :=
  let ap := s_ap s in
  if negb (tlb_validate_Message (s_msg s) && gen_validate_Message (s_msg s)) then
    ap ← must (collect_fine cfg fine max_cells (st_cells sstat) (s_tx s) ap); stop (-1) ap (s_tx s)
  else
    let ap := ap <| msgs_created := msgs_created ap + 1 |> <| ap_end_lt := u64 (ap_end_lt ap + 1) |>
                 <| ap_out_msgs := ap_out_msgs ap ++ [s_msg s] |>
                 <| total_action_fees := total_action_fees ap + s_collected s |>
                 <| total_fwd_fees := total_fwd_fees ap + s_total s |> in
    ap ← (if Z.testbit mode 5 && Z.testbit mode 7 then
            if extra_currency_v2 cfg then
              _ ← check (bool_decide (grams (remaining_balance ap) = Some 0));
              go (ap <| acc_delete_req := bool_decide (grams (reserved_balance ap) = Some 0) |>)
            else
              _ ← check (cc_is_zero (remaining_balance ap));
              go (ap <| acc_delete_req := cc_is_zero (reserved_balance ap) |>)
          else go ap);
    go (ap <| tot_msg_bits := tot_msg_bits ap + st_bits sstat + s_bits s |>
           <| tot_msg_cells := tot_msg_cells ap + st_cells sstat + 1 |>, s_tx s).

(** From the size of the message on. *)
Definition send_measured (cfg : ActionPhaseConfig) (mode redoing : Z) (msg : MessageRelaxed) (om : OutMsg)
    (to_mc : bool) (ap : ActionPhase) (t : Transaction) : act (ActionPhase * Transaction) :=
  let msg_prices := fetch_msg_prices cfg (to_mc || is_masterchain (account t)) in
  let fine := fine_per_cell cfg msg_prices t in
  max_cells ← affordable_cells cfg msg_prices mode om ap t;
  let '(sstat, depth) := measure_message cfg max_cells msg om in
  let cells := st_cells sstat in
  let fail A code : act A := fined cfg mode fine max_cells cells code ap t in
  if (max_cells <? cells) && (max_cells <? max_msg_cells (size_limits cfg)) then fail _ 40
  else if (max_msg_bits (size_limits cfg) <? st_bits sstat) || (max_cells <? cells) then fail _ 40
  else if max_allowed_merkle_depth <? depth then fail _ 40
  else
    let fees := compute_fwd_ihr_fees msg_prices cells (st_bits sstat) (ihr_disabled (om_info om)) in
    let '(fwd_c, ihr_c) := if is_special (account t) then (0, 0) else fees in
    let fwd := raise_fee (om_fwd_fee om) fwd_c in
    let ihr := if negb (ihr_c =? 0) then raise_fee (om_ihr_fee om) ihr_c else om_ihr_fee om in
    let om := om <| om_fwd_fee := fwd |> <| om_ihr_fee := ihr |> in
    s ← (if om_ext om then send_external cfg redoing msg om fail ap t
         else send_internal cfg msg_prices mode redoing msg om fail ap t);
    finish_send cfg mode fine max_cells sstat s.

Definition try_action_send_msg (cfg : ActionPhaseConfig) (cs : CellSlice) (redoing : Z) (ap : ActionPhase)
    (t : Transaction) : act (ActionPhase * Transaction) :=
  match unpack_action_send_msg cs with
  | None => stop (-1) ap t
  | Some act_rec =>
      let bounces := Z.testbit (sm_mode act_rec) 4 && bounce_on_fail_enabled cfg in
      let mode := if bounces then Z.land (sm_mode act_rec) (Z.lnot 16) else sm_mode act_rec in
      let ap := if bounces then ap <| need_bounce_on_fail := true |> else ap in
      let invalid := if 13 <=? global_version cfg then skip_invalid_code cfg (Z.testbit mode 1) (-1) ap t
                     else stop (-1) ap t in
      if negb (Z.land mode (Z.lnot 0xe3) =? 0) || (Z.land mode 0xc0 =? 0xc0) then invalid
      else
        match unpack_MessageRelaxed (sm_out_msg act_rec) with
        | None => stop (-1) ap t
        | Some msg =>
            if negb (validate_message_relaxed_libs (sm_out_msg act_rec)) then invalid
            else
              '(msg, redoing) ← must (redo_message redoing msg);
              om ← suggested_message cfg mode msg ap t;
              '(om, to_mc) ← address_message cfg mode om ap t;
              send_measured cfg mode redoing msg om to_mc ap t
        end
  end.
End actions.
