(* ===== verification/TxActionPhase.v ===== *)
(** * Transactions: the action and bounce phases (crypto/block/transaction.cpp) *)
From coqutil Require Import Datatypes.RecordSetters.
From S2P Require Import Prelude BigInt Int256 Cells DataCell Uint128 Fees Currency StorageStat TxTypes TxPhases TxLibrary TxActions.
Import TriangleBracketNotations.

Section phases.
Context `{Sha256} `{ExtraDict} `{BlockTlb} `{TransactionEnv}.

(** ** Other actions *)

Definition try_action_set_code (cs : CellSlice) (ap : ActionPhase) (t : Transaction)
    : act (ActionPhase * Transaction) :=
  match unpack_action_set_code cs with
  | None => stop (-1) ap t
  | Some code => go (ap <| ap_new_code := Some code |> <| code_changed := true |>
                        <| spec_actions := spec_actions ap + 1 |>, t)
  end.

(** The amount to reserve: [mode & 4] counts from the original balance.  [go None] is an
    invalid mode. *)
Definition reserve_base (cfg : ActionPhaseConfig) (mode : Z) (reserve : CurrencyCollection) (t : Transaction)
    : act (option CurrencyCollection) :=
  if Z.testbit mode 2 then
    if extra_currency_v2 cfg then
      o ← must (grams (original_balance t));
      r ← must (grams reserve);
      go (Some (set_grams reserve (Some (if Z.testbit mode 3 then o - r else r + o))))
    else go (Some (if Z.testbit mode 3 then cc_sub (original_balance t) reserve
                   else cc_add_to reserve (original_balance t)))
  else go (if Z.testbit mode 3 then None else Some reserve).

(** [mode & 2]: at most what there is; [None] is a failed [clamp]. *)
Definition reserve_clamp (cfg : ActionPhaseConfig) (mode : Z) (reserve remaining : CurrencyCollection)
    : option CurrencyCollection :=
  if Z.testbit mode 1 then
    if reserve_extra_enabled cfg then
      let '(ok, reserve) := cc_clamp reserve remaining in if ok then Some reserve else None
    else
      match grams reserve, grams remaining with
      | Some r, Some g => Some (set_grams reserve (Some (Z.min r g)))
      | _, _ => None
      end
  else Some reserve.

Definition try_action_reserve_currency (cfg : ActionPhaseConfig) (cs : CellSlice) (ap : ActionPhase)
    (t : Transaction) : act (ActionPhase * Transaction) :=
  match unpack_action_reserve cs with
  | None => stop (-1) ap t
  | Some rec =>
      let bounces := Z.testbit (rc_mode rec) 4 && bounce_on_fail_enabled cfg in
      let mode := if bounces then Z.land (rc_mode rec) (Z.lnot 16) else rc_mode rec in
      let ap := if bounces then ap <| need_bounce_on_fail := true |> else ap in
      if negb (Z.land mode (Z.lnot 15) =? 0) then stop (-1) ap t
      else
        match cc_validate_unpack (rc_currency rec) with
        | None => stop (-1) ap t
        | Some reserve =>
            if extra_currency_v2 cfg && has_extra reserve then stop (-1) ap t
            else
              r ← reserve_base cfg mode reserve t;
              match (reserve ← r; g ← grams reserve; if g <? 0 then None else Some reserve) with
              | None => stop (-1) ap t
              | Some reserve =>
                  match reserve_clamp cfg mode reserve (remaining_balance ap) with
                  | None => stop (-1) ap t
                  | Some reserve =>
                      r ← must (grams reserve);
                      g ← must (grams (remaining_balance ap));
                      if g <? r then stop 37 ap t
                      else
                        match sub_extra_currency (extra (remaining_balance ap)) (extra reserve) with
                        | None => stop 38 ap t
                        | Some new_extra =>
                            let newc := mkCC (Some (g - r)) new_extra in
                            let '(newc, reserve) :=
                              if Z.testbit mode 0 then
                                if extra_currency_v2 cfg
                                then (set_grams newc (Some r), set_grams reserve (Some (g - r)))
                                else (reserve, newc)
                              else (newc, reserve) in
                            let total := cc_add_to (reserved_balance ap) reserve in
                            _ ← check (cc_is_valid total);
                            go (ap <| remaining_balance := newc |> <| reserved_balance := total |>
                                   <| spec_actions := spec_actions ap + 1 |>, t)
                        end
                  end
              end
        end
  end.

(** ** The list of actions *)

(** The first loop: the cells of the list, last action first, or the error code with its
    argument. *)
Fixpoint action_list (max n : Z) (node : Cell) : (Z * Z) + list Cell :=
  let 'DataCell special bits refs := node in
  if special then inl (32, n)
  else
    match refs with
    | [] => if (length bits =? 0)%nat then inr [] else inl (32, n)
    | next :: _ =>
        if max <? n + 1 then inl (33, n + 1)
        else match action_list max (n + 1) next with
             | inl e => inl e
             | inr l => inr (node :: l)
             end
    end.

(** The second loop, over the actions in their order: an invalid message that may be skipped
    is forgotten ([None]). *)
Fixpoint preprocess (cfg : ActionPhaseConfig) (l : list Cell) (i : Z) (ap : ActionPhase)
    : ActionPhase * option (list (option Cell)) :=
  match l with
  | [] => (ap, Some [])
  | c :: l' =>
      let ap := ap <| result_arg := i |> in
      if validate_OutListNode c then
        let '(ap, r) := preprocess cfg l' (i + 1) ap in (ap, cons (Some c) <$> r)
      else
        let cs := slice_of_cell c in
        let '(tag, cs') := fetch_ulong 32 cs in
        let mode := prefetch_ulong 8 cs' in
        let readable := message_skip_enabled cfg && negb (cell_special c) && (40 <=? size cs)%nat
                        && (tag =? 0x0ec3c86d) in
        if readable && Z.testbit mode 1 then
          let '(ap, r) := preprocess cfg l' (i + 1) (ap <| skipped_actions := skipped_actions ap + 1 |>) in
          (ap, cons None <$> r)
        else
          let ap := if readable && Z.testbit mode 4 && bounce_on_fail_enabled cfg
                    then ap <| ap_bounce := true |> else ap in
          (ap <| result_code := 34 |> <| action_list_invalid := true |>, None)
  end.

(** [try_action_send_msg], again with the next [redoing] when the code is -2 *)
Definition retry_send (cfg : ActionPhaseConfig) (cs : CellSlice) (redoing : Z)
    (m : act (ActionPhase * Transaction)) : act (ActionPhase * Transaction) :=
  match m with
  | stop code ap t => if code =? -2 then try_action_send_msg cfg cs redoing ap t else m
  | _ => m
  end.
Definition send_with_retries (cfg : ActionPhaseConfig) (cs : CellSlice) (ap : ActionPhase) (t : Transaction)
    : act (ActionPhase * Transaction) :=
  retry_send cfg cs 2 (retry_send cfg cs 1 (try_action_send_msg cfg cs 0 ap t)).

Definition run_action (cfg : ActionPhaseConfig) (cs : CellSlice) (ap : ActionPhase) (t : Transaction)
    : act (ActionPhase * Transaction) :=
  tag ← must (get_action_tag cs);
  match tag with
  | action_set_code => try_action_set_code cs ap t
  | action_send_msg => send_with_retries cfg cs ap t
  | action_reserve_currency => try_action_reserve_currency cfg cs ap t
  | action_change_library =>
      '(code, ap, t) ← must (try_action_change_library cfg cs ap t);
      if code =? 0 then go (ap, t) else stop code ap t
  end.

(** The third loop; [stop] carries the error code of the action that failed. *)
Fixpoint run_actions (cfg : ActionPhaseConfig) (l : list (option Cell)) (i : Z) (ap : ActionPhase) (t : Transaction)
    : act (ActionPhase * Transaction) :=
  match l with
  | [] => go (ap, t)
  | None :: l' => run_actions cfg l' (i + 1) ap t
  | Some c :: l' =>
      let ap := ap <| result_arg := i |> <| need_bounce_on_fail := false |> in
      cs ← must (load_ordinary c);
      '(_, cs) ← must (fetch_ref cs);
      match run_action cfg cs ap t with
      | go (ap, t) => run_actions cfg l' (i + 1) ap t
      | stop code ap t => if code =? 0 then run_actions cfg l' (i + 1) ap t else stop code ap t
      | fatal => fatal
      end
  end.

(** ** The action phase *)

(** [enforce_state_limits]: false when the limits are exceeded and the changes of the state,
    which was that of [old], are undone; [None] is a fatal error. *)
Definition enforce_state_limits (cfg : ActionPhaseConfig) (old : Transaction) (ap : ActionPhase) (t : Transaction)
    : option (bool * ActionPhase * Transaction) :=
  if is_special (account t) then Some (true, ap, t)
  else
    match check_state_limits (size_limits cfg) (global_version cfg) t with
    | limits_ok => Some (true, ap, t)
    | limits_error => None
    | limits_exceeded =>
        Some (false, ap <| result_code := 50 |> <| state_exceeds_limits := true |>,
              t <| new_code := new_code old |> <| new_data := new_data old |> <| new_library := new_library old |>)
    end.

(** The fine of a failed action phase. *)
Definition take_fine (ap : ActionPhase) (t : Transaction) : option (ActionPhase * Transaction) :=
  g ← grams (balance t);
  let fine := Z.min (action_fine ap) g in
  Some (ap <| action_fine := fine |> <| total_action_fees := fine |>,
        t <| balance := set_grams (balance t) (Some (g - fine)) |>
          <| total_fees := cc_add_grams (total_fees t) (Some fine) |>).

Definition restore_msg_balance (cfg : ActionPhaseConfig) (old t : Transaction) : Transaction :=
  if 14 <=? global_version cfg then t <| msg_balance_remaining := msg_balance_remaining old |> else t.

(** [if (err_code)] *)
Definition action_failed (cfg : ActionPhaseConfig) (code : Z) (old : Transaction) (ap : ActionPhase) (t : Transaction)
    : option (ActionPhase * Transaction) :=
  let ap := ap <| result_code := if code =? -1 then 34 else code |> <| ap_end_lt := end_lt t |> in
  let ap := if (code =? -1) || (code =? 34) then ap <| action_list_invalid := true |> else ap in
  let ap := if (code =? 37) || (code =? 38) then ap <| no_funds := true |> else ap in
  '(_, ap, t) ← enforce_state_limits cfg old ap t;
  let t := restore_msg_balance cfg old t in
  '(ap, t) ← (if action_fine_enabled cfg then take_fine ap t else Some (ap, t));
  Some (if need_bounce_on_fail ap then ap <| ap_bounce := true |> else ap, t).

(** After the last action, when the new state exceeds the limits *)
Definition limits_failed (cfg : ActionPhaseConfig) (old : Transaction) (ap : ActionPhase) (t : Transaction)
    : option (ActionPhase * Transaction) :=
  let t := restore_msg_balance cfg old t in
  if extra_currency_v2 cfg then
    let ap := ap <| ap_end_lt := u64 (start_lt t + 1) |> in
    let t := t <| end_lt := u64 (start_lt t + 1) |> in
    if action_fine_enabled cfg then take_fine ap t else Some (ap, t)
  else Some (ap, t).

(** and when it does not *)
Definition actions_succeed (cfg : ActionPhaseConfig) (ap : ActionPhase) (t : Transaction)
    : option (ActionPhase * Transaction) :=
  g ← grams (remaining_balance ap);
  r ← grams (reserved_balance ap);
  _ ← fail_unless ((0 <=? g) && (0 <=? r));
  let bal := cc_add_to (remaining_balance ap) (reserved_balance ap) in
  _ ← fail_unless (cc_is_valid bal);
  let ap := ap <| result_arg := 0 |> <| result_code := 0 |> <| remaining_balance := bal |> in
  '(ap, t) ← (if acc_delete_req ap then
                _ ← fail_unless (if extra_currency_v2 cfg then bool_decide (grams bal = Some 0) else cc_is_zero bal);
                Some (ap <| acc_status_change := acst_deleted |>,
                      t <| acc_status := if cc_is_zero bal then acc_deleted else acc_uninit |>
                        <| was_deleted := true |>)
              else Some (ap, t));
  Some (ap <| ap_success := true |> <| ap_out_msgs := [] |>,
        t <| out_msgs := ap_out_msgs ap |>
          <| total_fees := cc_add_grams (total_fees t) (Some (total_action_fees ap)) |>
          <| balance := bal |>).

Definition actions_done (cfg : ActionPhaseConfig) (old : Transaction) (ap : ActionPhase) (t : Transaction)
    : option (ActionPhase * Transaction) :=
  cp ← compute_phase t;
  let ap := if action_fine_enabled cfg then ap <| total_action_fees := total_action_fees ap + action_fine ap |> else ap in
  let t := t <| end_lt := ap_end_lt ap |>
             <| new_code := match ap_new_code ap with Some c => Some c | None => new_code t end |>
             <| new_data := cp_new_data cp |> in
  '(ok, ap, t) ← enforce_state_limits cfg old ap t;
  if ok : bool then actions_succeed cfg ap t else limits_failed cfg old ap t.

Definition new_action_phase (t : Transaction) : ActionPhase :=
  {| ap_success := false; ap_valid := false; no_funds := false; code_changed := false;
     action_list_invalid := false; acc_delete_req := false; state_exceeds_limits := false;
     acc_status_change := acst_unchanged; total_fwd_fees := 0; total_action_fees := 0;
     result_code := -1; result_arg := 0;
     tot_actions := 0; spec_actions := 0; skipped_actions := 0; msgs_created := 0;
     ap_new_code := None; remaining_balance := balance t; reserved_balance := cc_zero;
     ap_out_msgs := []; ap_end_lt := end_lt t; tot_msg_bits := 0; tot_msg_cells := 0;
     action_fine := 0; need_bounce_on_fail := false; ap_bounce := false |}.

Definition prepare_action_phase (cfg : ActionPhaseConfig) (t : Transaction) : option Transaction :=
  let finish (r : ActionPhase * Transaction) := Some ((snd r) <| action_phase := Some (fst r) |>) in
  cp ← compute_phase t;
  _ ← fail_unless (cp_success cp);
  actions ← cp_actions cp;
  let ap := new_action_phase t in
  match action_list (max_actions cfg) 0 actions with
  | inl (code, arg) =>
      finish (ap <| result_code := code |> <| result_arg := arg |> <| action_list_invalid := true |>, t)
  | inr cells =>
      let ap := ap <| tot_actions := Z.of_nat (length cells) |> in
      match preprocess cfg (rev cells) 0 ap with
      | (ap, None) => finish (ap, t)
      | (ap, Some l) =>
          match run_actions cfg l 0 (ap <| ap_valid := true |>) t with
          | fatal => None
          | stop code ap t' => r ← action_failed cfg code t ap t'; finish r
          | go (ap, t') => r ← actions_done cfg t ap t'; finish r
          end
      end
  end.

(** ** The bounce phase *)

Definition skip_reason_code (r : SkipReason) : Z :=
  match r with sk_none => 0 | sk_no_state => 1 | sk_bad_state => 2 | sk_no_gas => 3 | sk_suspended => 4 end.

(** [body] in the new format *)
Definition new_bounce_body (t : Transaction) : option CellBuilder :=
  cp ← compute_phase t;
  info ← in_msg_info t;
  original ← (cb ← (if new_bounce_format_full_body t then append_cellslice_bool (in_msg_body t) empty_builder
                    else store_bits_bool (slice_bits (in_msg_body t)) empty_builder);
              finalize cb);
  original_info ← (cb ← append_cellslice_bool (value info) empty_builder;
                   cb ← store_long_bool (created_lt info) 64 cb;
                   cb ← store_long_bool (created_at info) 32 cb;
                   finalize cb);
  let skipped := negb (bool_decide (skip_reason cp = sk_none)) in
  '(phase, code) ← (if skipped then Some (0, - skip_reason_code (skip_reason cp))
                    else if negb (cp_success cp) then Some (1, exit_code cp)
                    else ap ← action_phase t; Some (2, result_code ap));
  cb ← store_long_bool 0xfffffffe 32 empty_builder;
  cb ← store_ref_bool (Some original) cb;
  cb ← store_ref_bool (Some original_info) cb;
  cb ← store_long_bool phase 8 cb;
  cb ← store_long_bool code 32 cb;
  if skipped then store_long_bool 0 1 cb
  else
    cb ← store_long_bool 1 1 cb;
    cb ← store_long_bool (gas_used cp) 32 cb;
    store_long_bool (vm_steps cp) 32 cb.

(** The bounced message *)
Definition bounced_message (src dest : CellSlice) (value : CurrencyCollection) (flags fwd_fees created_lt created_at : Z)
    (body : CellBuilder) : option Cell :=
  cb ← store_long_bool 5 4 empty_builder;
  cb ← append_cellslice_bool src cb;
  cb ← append_cellslice_bool dest cb;
  cb ← store_CurrencyCollection value cb;
  cb ← store_integer_value t_Grams (Z.land flags 3) cb;
  cb ← store_long t_Grams fwd_fees cb;
  cb ← store_long_bool created_lt 64 cb;
  cb ← store_long_bool created_at 32 cb;
  cb ← store_long_bool 0 1 cb;
  cb ← (if can_extend_by (1 + length (cb_bits body)) (length (cb_refs body)) cb then
          cb ← store_long_bool 0 1 cb; append_builder_bool body cb
        else
          cb ← store_long_bool 1 1 cb; c ← finalize body; store_ref_bool (Some c) cb);
  finalize cb.

Definition prepare_bounce_phase (cfg : ActionPhaseConfig) (t : Transaction) : option Transaction :=
  msg ← in_msg t;
  _ ← fail_unless (bounce_enabled t);
  cs ← load_ordinary msg;
  '(info, cs) ← unpack_int_msg_info cs;
  cs ← skip_Maybe_StateInit cs;
  _ ← fail_unless (have 1 cs && have_refs (Z.to_nat (prefetch_ulong 1 cs)) cs);
  let '(b, cs) := fetch_ulong 1 cs in
  cs ← (if b =? 0 then Some cs else c ← prefetch_ref 0 cs; load_ordinary c);
  body ← (if new_bounce_format t then new_bounce_body t
          else if bounce_msg_body cfg =? 0 then Some empty_builder
          else
            let body_bits := Z.to_nat (Z.min (Z.of_nat (size cs)) (bounce_msg_body cfg)) in
            cb ← store_long_bool (-1) 32 empty_builder;
            store_bits_bool (take body_bits (slice_bits cs)) cb);
  '(new_dest, to_mc) ← check_rewrite_dest_addr (src info) cfg true t;
  let msg_prices := fetch_msg_prices cfg (to_mc || is_masterchain (account t)) in
  let st := new_stat no_limit in
  let st := if negb (extra_currency_v2 cfg) || (global_version cfg <? 13) then
              match prefetch_ref 0 (value info) with Some c => fst (add_used_cell c st) | None => st end
            else st in
  let st := fst (add_used_cells (cb_refs body) st 0) in
  let fwd_fees := compute_fwd_fees msg_prices (st_cells st) (st_bits st) in
  let finish bp (t : Transaction) := Some (t <| bounce_phase := Some bp |>) in
  g ← grams (msg_balance_remaining t);
  let g := match compute_phase t with Some cp => g - default 0 (gas_fees cp) | None => g end in
  let g := match action_phase t with Some ap => g - action_fine ap | None => g end in
  if (g <? 0) || bool_decide (wrap_s 64 g = g) && (g <? ll fwd_fees) then
    finish (mkBouncePhase false true (st_bits st) (st_cells st) fwd_fees 0) t
  else
    let msg_balance := set_grams (msg_balance_remaining t) (Some g) in
    let bal := cc_sub_from (balance t) msg_balance in
    _ ← fail_unless (cc_is_valid bal);
    let collected := get_first_part_u64 msg_prices fwd_fees in
    let remaining := u64 (fwd_fees - collected) in
    let lt := u64 (start_lt t + 1 + Z.of_nat (length (out_msgs t))) in
    out ← bounced_message (dest info) new_dest (cc_sub_grams msg_balance (Some fwd_fees)) (in_msg_extra_flags t)
            remaining lt (now t) body;
    finish (mkBouncePhase true false (st_bits st) (st_cells st) remaining collected)
      (t <| balance := bal |> <| total_fees := cc_add_grams (total_fees t) (Some collected) |>
         <| end_lt := u64 (end_lt t + 1) |> <| out_msgs := out_msgs t ++ [out] |>).
End phases.
