(* ===== verification/Tx.v ===== *)
(** * Ordinary transactions (validator/impl/collator.cpp) and the flow of currency
      (validator/impl/validate-query.cpp)

    How the collator runs the phases, and the balance that the validator checks: what the
    account had with what the message brought is what the account has, with what the
    outbound messages carry, the fees and what was burned. *)
From coqutil Require Import Datatypes.RecordSetters.
From S2P Require Import Prelude BigInt Int256 Cells DataCell Uint128 Fees Currency StorageStat TxTypes TxPhases TxLibrary TxActions TxActionPhase.
Import TriangleBracketNotations.

Section collator.
Context `{Sha256} `{ExtraDict} `{BlockTlb} `{TransactionEnv}.

Definition unless {A} (o : option A) (code : Z) : Z + A := match o with Some a => inr a | None => inl code end.
#[local] Instance sum_bind {E} : MBind (sum E) := fun A B f m => match m with inl e => inl e | inr a => f a end.

(** [Collator::impl_create_ordinary_transaction], up to the serialization of the result. *)
Definition impl_create_ordinary_transaction (msg_root : Cell) (acc : Account) (utime lt : Z)
    (storage_cfg : StoragePhaseConfig) (compute_cfg : ComputePhaseConfig) (action_cfg : ActionPhaseConfig)
    (external : bool) (after_lt : Z) : Z + Transaction :=
  if (lt <=? last_trans_end_lt acc) && (length (transactions acc) =? 0)%nat then inl (-669)
  else
    let trans_min_lt := Z.max lt after_lt in
    let t := new_transaction acc tr_ord (u64 (trans_min_lt + 1)) utime (Some msg_root) in
    t ← unless (unpack_input_msg false action_cfg t) (if external then -701 else -669);
    let credit t := if external then Some t else prepare_credit_phase t in
    t ← unless (if bounce_enabled t
                then t ← prepare_storage_phase storage_cfg true false t; credit t
                else t ← credit t; prepare_storage_phase storage_cfg true true t) (-669);
    t ← unless (prepare_compute_phase compute_cfg t) (-669);
    cp ← unless (compute_phase t) (-669);
    if negb (accepted cp) && external then inl (-701)
    else if negb (accepted cp) && bool_decide (skip_reason cp = sk_none) then inl (-669)
    else
      t ← unless (if cp_success cp then prepare_action_phase action_cfg t else Some t) (-669);
      let bounces := negb (cp_success cp) ||
                     match action_phase t with Some ap => state_exceeds_limits ap || ap_bounce ap | None => false end in
      unless (if bounce_enabled t && bounces then prepare_bounce_phase action_cfg t else Some t) (-669).

Lemma unless_inr {A} (o : option A) code a : unless o code = inr a -> o = Some a.
Proof. destruct o; cbn; congruence. Qed.
Lemma sum_bind_inr {E A B} (m : E + A) (f : A -> E + B) b : m ≫= f = inr b -> exists a, m = inr a /\ f a = inr b.
Proof. destruct m as [e|a]; cbn; [done|]. eauto. Qed.

(** ** The validator's check *)

Definition get_ihr_fee (info : int_msg_info) (global_version : Z) : option Z :=
  if 12 <=? global_version then Some 0 else as_integer t_Grams (extra_flags info).

(** [money_imported] of an inbound message that is not delivered by IHR *)
Definition money_imported (version : Z) (msg : Cell) : option CurrencyCollection :=
  let cs := slice_of_cell msg in
  match get_msg_tag cs with
  | tag_int_msg =>
      '(info, _) ← unpack_int_msg_info cs;
      v ← cc_validate_unpack (value info);
      fee ← get_ihr_fee info version;
      Some (cc_add_grams v (Some fee))
  | _ => Some cc_zero
  end.

(** [msg_export_value] of an outbound message, in an envelope for which the whole
    [fwd_fee] of the message is remaining. *)
Definition msg_export_value (version : Z) (msg : Cell) : option CurrencyCollection :=
  let cs := slice_of_cell msg in
  match get_msg_tag cs with
  | tag_int_msg =>
      '(info, _) ← unpack_int_msg_info cs;
      v ← unpack_CurrencyCollection (value info);
      fee ← get_ihr_fee info version;
      remaining ← as_integer t_Grams (fwd_fee info);
      Some (cc_add_grams (cc_add_grams v (Some fee)) (Some remaining))
  | _ => Some cc_zero
  end.
End collator.
