(* ===== verification/TxCommit.v ===== *)
(** * Transactions: the new state of the account (crypto/block/transaction.cpp)

    [compute_state] serializes the account as the transaction leaves it, and [commit]
    makes it the account of the next transaction.  The storage statistics of an account
    and the code generated for the types of an account are behind class [StateEnv]. *)
From coqutil Require Import Datatypes.RecordSetters.
From S2P Require Import Prelude BigInt Int256 Cells DataCell Uint128 Fees Currency StorageStat TxTypes TxPhases.
Import TriangleBracketNotations.

Record SerializeConfig : Type := mkSerializeCfg {
  sz_global_version : Z;
  sz_extra_currency_v2 : bool; sz_disable_anycast : bool;
  store_storage_dict_hash : bool;
  sz_size_limits : SizeLimitsConfig
}.

(** [AccountStorage] and [CurrencyCollection] of the TL-B scheme *)
Record AccountStorage : Type := mkAccountStorage {
  as_last_trans_lt : Z; as_balance : CellSlice; as_state : CellSlice
}.
Record CurrencyRecord : Type := mkCurrencyRecord { cr_grams : CellSlice; cr_other : CellSlice }.

(** [AccountStorageStat] after [replace_roots]: the number of cells and bits, and
    [get_dict_hash] *)
Record AccountStat : Type := mkAccountStat {
  total_cells : Z; total_bits_used : Z; stat_dict_hash : option (list bool)
}.

Definition workchainInvalid : Z := - 2 ^ 31.

Class StateEnv := {
  csr_unpack_AccountStorage : CellSlice -> option AccountStorage;
  csr_pack_AccountStorage : AccountStorage -> option CellSlice;
  csr_unpack_Currency : CellSlice -> option CurrencyRecord;
  csr_pack_Currency : CurrencyRecord -> option CellSlice;
  validate_Account : Cell -> bool;
  account_stat : Account -> list Cell -> option AccountStat
}.

(** ** Addresses of an account *)

Definition forget_addr_rewrite_length (a : Account) : Account :=
  a <| addr_rewrite_length_set := false |> <| addr_rewrite_length := 0 |> <| addr_orig := addr a |>
    <| acc_my_addr := acc_my_addr_exact a |> <| addr_rewrite := take 32 (addr a) |>.

Definition set_addr_rewrite_length (new_length : Z) (a : Account) : option Account :=
  if (new_length <? 0) || (30 <? new_length) then None
  else if addr_rewrite_length_set a then
    if addr_rewrite_length a =? new_length then Some a else None
  else Some (a <| addr_rewrite_length := new_length |> <| addr_rewrite_length_set := true |>).

Definition store_maybe_anycast (a : Account) (cb : CellBuilder) : option CellBuilder :=
  if negb (addr_rewrite_length_set a) || (addr_rewrite_length a =? 0) then store_long_bool 0 1 cb
  else
    cb ← store_long_bool 1 1 cb;
    _ ← fail_unless (addr_rewrite_length a <=? 30);
    cb ← store_long_bool (addr_rewrite_length a) 5 cb;
    store_bits_bool (take (Z.to_nat (addr_rewrite_length a)) (addr_rewrite a)) cb.

(** A signed number that must fit *)
Definition store_long_rchk_bool (val : Z) (val_bits : nat) (cb : CellBuilder) : option CellBuilder :=
  _ ← fail_unless (negb (val_bits =? 0)%nat);
  let half := 2 ^ (Z.of_nat val_bits - 1) in
  _ ← fail_unless ((64 <=? val_bits)%nat || (- half <=? val) && (val <? half));
  store_long_bool val val_bits cb.

Section state.
Context `{Sha256} `{ExtraDict} `{StateEnv}.

(** [compute_my_addr(true)] *)
Definition compute_my_addr (a : Account) : option Account :=
  let std := (-128 <=? workchain a) && (workchain a <? 127) in
  _ ← fail_unless (negb (workchain a =? workchainInvalid));
  cell ← (cb ← store_long_bool (if std then 2 else 3) 2 empty_builder;
          cb ← store_maybe_anycast a cb;
          cb ← (if std then store_long_rchk_bool (workchain a) 8 cb
                else cb ← store_long_bool 256 9 cb; store_long_rchk_bool (workchain a) 32 cb);
          cb ← store_bits_bool (addr_orig a) cb;
          finalize_slice cb);
  cell2 ← (cb ← store_long_bool (if std then 4 else 6) 3 empty_builder;
           cb ← (if std then store_long_rchk_bool (workchain a) 8 cb
                 else cb ← store_long_bool 256 9 cb; store_long_rchk_bool (workchain a) 32 cb);
           cb ← store_bits_bool (addr a) cb;
           finalize_slice cb);
  Some (a <| acc_my_addr := cell |> <| acc_my_addr_exact := cell2 |>).

Definition init_rewrite_addr (rewrite_length : Z) (orig_addr_rewrite : list bool) (a : Account) : option Account :=
  _ ← fail_unless (negb (addr_rewrite_length_set a));
  a ← set_addr_rewrite_length rewrite_length a;
  let n := Z.to_nat rewrite_length in
  compute_my_addr (a <| addr_orig := take n orig_addr_rewrite ++ drop n (addr a) |>
                     <| addr_rewrite := take 32 (addr a) |>).

(** [Account(wc, addr)] followed by [init_new] *)
Definition init_new (wc : Z) (address : list bool) : option Account :=
  let std := (-128 <=? wc) && (wc <? 128) in
  _ ← fail_unless (negb (wc =? workchainInvalid));
  my_addr ← (cb ← (if std then cb ← store_long_bool 4 3 empty_builder; store_long_rchk_bool wc 8 cb
                   else cb ← store_long_bool 0xd00 12 empty_builder; store_long_rchk_bool wc 32 cb);
             cb ← store_bits_bool address cb;
             finalize_slice cb);
  Some {| status := acc_nonexist; is_special := false; acc_tick := false; acc_tock := false;
          fixed_prefix_length := 0; workchain := wc; addr_rewrite := take 32 address;
          addr_rewrite_length_set := false; addr_rewrite_length := 0; addr := address; addr_orig := address;
          acc_my_addr := my_addr; acc_my_addr_exact := my_addr;
          last_trans_end_lt := 0; last_trans_lt := 0; last_trans_hash := Z_to_bits 256 0; acc_last_paid := 0;
          storage_used := mkStorageUsed 0 0; storage_dict_hash := None; acc_storage := None;
          acc_balance := cc_zero; acc_due_payment := Some 0; state_hash := address;
          acc_code := None; acc_data := None; acc_library := None; transactions := [] |}.

(** ** The new state *)

(** What [compute_state] leaves in the transaction for [commit]; [ns_frozen_hash] is
    [frozen_hash], which the constructor sets for an account that was frozen. *)
Record NewState : Type := mkNewState {
  ns_total_state : Cell;
  ns_storage : option CellSlice;
  ns_storage_used : StorageUsed;
  ns_storage_dict_hash : option (list bool);
  ns_frozen_hash : list bool
}.

(** [fixed_prefix_length], [special], [code], [data] and [library] of a [StateInit]; in an
    active account a bit comes before. *)
Definition store_state_init (active : bool) (fixed_prefix_length : Z) (t : Transaction) (cb : CellBuilder)
    : option CellBuilder :=
  let ticktock := Z.b2z (new_tick t) * 2 + Z.b2z (new_tock t) in
  cb ← (if active then if fixed_prefix_length =? 0 then store_long_bool 2 2 cb
                       else store_long_bool (fixed_prefix_length + 96) 7 cb
        else if fixed_prefix_length =? 0 then store_long_bool 0 1 cb
             else store_long_bool (fixed_prefix_length + 32) 6 cb);
  cb ← (if ticktock =? 0 then store_long_bool 0 1 cb else store_long_bool (Z.lor ticktock 4) 3 cb);
  cb ← store_maybe_ref (new_code t) cb;
  cb ← store_maybe_ref (new_data t) cb;
  store_maybe_ref (new_library t) cb.

(** The first lines: an account without balance is not created, one with balance is not
    deleted. *)
Definition settle_status (t : Transaction) : Transaction :=
  let t := if bool_decide (acc_status t = acc_uninit) && negb (was_activated t) && cc_is_zero (balance t)
           then t <| acc_status := acc_nonexist |> else t in
  if bool_decide (acc_status t = acc_deleted) && negb (cc_is_zero (balance t))
  then t <| acc_status := acc_uninit |> else t.

(** The [state:AccountState] of the storage; also the transaction after it and the hash of
    a frozen state. *)
Definition store_account_state (cfg : SerializeConfig) (t : Transaction) (cb : CellBuilder)
    : option (CellBuilder * Transaction * list bool) :=
  let a := account t in
  let fixed_prefix_length := if sz_disable_anycast cfg then new_fixed_prefix_length t else addr_rewrite_length a in
  match acc_status t with
  | acc_uninit => cb ← store_long_bool 0 2 cb; Some (cb, t, state_hash a)
  | acc_frozen =>
      frozen_hash ← (if was_frozen t then
                       cb2 ← store_state_init false fixed_prefix_length t empty_builder;
                       get_hash <$> finalize cb2
                     else Some (state_hash a));
      let t := t <| new_code := None |> <| new_data := None |> <| new_library := None |> in
      if bits_eqb frozen_hash (addr_orig a) then
        cb ← store_long_bool 0 2 cb;
        Some (cb, if 13 <=? sz_global_version cfg then t <| acc_status := acc_uninit |> else t, frozen_hash)
      else
        cb ← store_long_bool 1 2 cb;
        cb ← store_bits_bool frozen_hash cb;
        Some (cb, t, frozen_hash)
  | acc_active =>
      _ ← fail_unless (negb (was_frozen t) && negb (was_deleted t));
      cb ← store_state_init true fixed_prefix_length t cb;
      Some (cb, t, state_hash a)
  | _ => None
  end.

(** [storage_without_extra_currencies] *)
Definition storage_without_extra_currencies (storage_cs : CellSlice) : option CellSlice :=
  rec ← csr_unpack_AccountStorage storage_cs;
  balance ← (if (0 <? size_refs (as_balance rec))%nat then
               b ← csr_unpack_Currency (as_balance rec);
               other ← (cb ← store_long_bool 0 1 empty_builder; finalize_slice cb);
               csr_pack_Currency (mkCurrencyRecord (cr_grams b) other)
             else Some (as_balance rec));
  csr_pack_AccountStorage (mkAccountStorage (as_last_trans_lt rec) balance (as_state rec)).

(** The storage that is measured, before and after. *)
Definition storages_for_stat (cfg : SerializeConfig) (old : option CellSlice) (new_storage : CellSlice)
    : option (option CellSlice * CellSlice) :=
  if sz_extra_currency_v2 cfg then
    new' ← storage_without_extra_currencies new_storage;
    match old with
    | None => Some (None, new')
    | Some o => o' ← storage_without_extra_currencies o; Some (Some o', new')
    end
  else if store_storage_dict_hash cfg then None
  else Some (old, new_storage).

Definition refs_changed (old : option CellSlice) (new_storage : CellSlice) : bool :=
  match old with
  | None => true
  | Some o => negb (bool_decide (map get_hash (slice_refs new_storage) = map get_hash (slice_refs o)))
  end.

(** [new_storage_used] and [new_storage_dict_hash] *)
Definition measure_storage (cfg : SerializeConfig) (a : Account) (new_storage : CellSlice)
    : option (StorageUsed * option (list bool)) :=
  '(old, new') ← storages_for_stat cfg (acc_storage a) new_storage;
  let store_hash := store_storage_dict_hash cfg && negb (is_masterchain a) in
  let used := storage_used a in
  if refs_changed old new'
     || store_hash && negb (bool_decide (is_Some (storage_dict_hash a))) && (25 <? su_cells used) then
    stats ← account_stat a (slice_refs new');
    let cells := u64 (total_cells stats + 1) in
    let bits := u64 (total_bits_used stats + Z.of_nat (size new')) in
    if store_hash && (acc_state_cells_for_storage_dict (sz_size_limits cfg) <=? cells) then
      h ← stat_dict_hash stats; Some (mkStorageUsed cells bits, Some h)
    else Some (mkStorageUsed cells bits, None)
  else
    o ← old;
    Some (mkStorageUsed (su_cells used) (u64 (su_bits used - Z.of_nat (size o) + Z.of_nat (size new'))),
          if store_hash then storage_dict_hash a else None).

(** The cell of the account *)
Definition store_account (cfg : SerializeConfig) (used : StorageUsed) (dict_hash : option (list bool))
    (new_storage : CellSlice) (t : Transaction) : option Cell :=
  cb ← store_long_bool 1 1 empty_builder;
  cb ← append_cellslice_bool (if sz_disable_anycast cfg then my_addr t else acc_my_addr (account t)) cb;
  cb ← Currency.store_long 7 (su_cells used) cb;
  cb ← Currency.store_long 7 (su_bits used) cb;
  cb ← store_long_bool (if bool_decide (is_Some dict_hash) then 1 else 0) 3 cb;
  cb ← match dict_hash with Some h => store_bits_bool h cb | None => Some cb end;
  cb ← store_long_bool (last_paid t) 32 cb;
  cb ← match due_payment t with
       | Some due => if due =? 0 then store_long_bool 0 1 cb
                     else cb ← store_long_bool 1 1 cb; store_integer_ref t_Grams (Some due) cb
       | None => store_long_bool 0 1 cb
       end;
  cb ← append_cellslice_bool new_storage cb;
  finalize cb.

Definition compute_state (cfg : SerializeConfig) (t : Transaction) : option (NewState * Transaction) :=
  let t := settle_status t in
  match acc_status t with
  | acc_nonexist | acc_deleted =>
      _ ← fail_unless (cc_is_zero (balance t));
      cb ← store_long_bool 0 1 empty_builder;
      total ← finalize cb;
      Some (mkNewState total None (mkStorageUsed 0 0) None (state_hash (account t)), t)
  | _ =>
      cb ← store_long_bool (end_lt t) 64 empty_builder;
      cb ← store_CurrencyCollection (balance t) cb;
      '(cb, t, frozen_hash) ← store_account_state cfg t cb;
      new_storage ← finalize_slice cb;
      '(used, dict_hash) ← measure_storage cfg (account t) new_storage;
      total ← store_account cfg used dict_hash new_storage t;
      _ ← fail_unless (validate_Account total);
      Some (mkNewState total (Some new_storage) used dict_hash frozen_hash, t)
  end.

(** ** Commit *)

Definition deactivate (a : Account) : option Account :=
  _ ← fail_unless (negb (bool_decide (status a = acc_active)));
  let a := a <| acc_tick := false |> <| acc_tock := false |> <| fixed_prefix_length := 0 |> in
  let a := if bool_decide (status a = acc_nonexist) || bool_decide (status a = acc_uninit)
           then (forget_addr_rewrite_length a) <| state_hash := addr a |> else a in
  let a := a <| acc_code := None |> <| acc_data := None |> <| acc_library := None |> in
  if bool_decide (status a = acc_nonexist) && negb (cc_is_zero (acc_balance a)) then None else Some a.

(** The address of the account after the transaction *)
Definition commit_address (t : Transaction) (acc : Account) : option Account :=
  if force_remove_anycast_address t then Some (forget_addr_rewrite_length acc)
  else
    match orig_addr_rewrite t with
    | Some orig =>
        if (0 <=? new_addr_rewrite_length t) && negb (bool_decide (status acc = acc_active))
           && bool_decide (acc_status t = acc_active)
        then init_rewrite_addr (new_addr_rewrite_length t) orig acc
        else Some acc
    | None => Some acc
    end.

(** [commit]: the account afterwards; [acc] is the account of the transaction, and [root] the
    serialized transaction. *)
Definition commit (root : Cell) (ns : NewState) (t : Transaction) (acc : Account) : option Account :=
  _ ← fail_unless ((last_trans_end_lt acc <=? start_lt t) && (start_lt t <? end_lt t));
  acc ← commit_address t acc;
  let acc := acc <| status := if bool_decide (acc_status t = acc_deleted) then acc_nonexist else acc_status t |>
                 <| last_trans_lt := start_lt t |> <| last_trans_end_lt := end_lt t |>
                 <| last_trans_hash := get_hash root |> <| acc_last_paid := last_paid t |>
                 <| storage_used := ns_storage_used ns |> <| storage_dict_hash := ns_storage_dict_hash ns |>
                 <| acc_storage := ns_storage ns |> <| acc_balance := balance t |>
                 <| acc_due_payment := due_payment t |>
                 <| state_hash := if was_frozen t then ns_frozen_hash ns else state_hash acc |>
                 <| acc_my_addr := my_addr t |>
                 <| acc_code := new_code t |> <| acc_data := new_data t |> <| acc_library := new_library t |> in
  acc ← (if bool_decide (status acc = acc_active) then
           Some (acc <| acc_tick := new_tick t |> <| acc_tock := new_tock t |>
                     <| fixed_prefix_length := new_fixed_prefix_length t |>)
         else deactivate acc);
  Some (acc <| transactions := transactions acc ++ [(start_lt t, root)] |>).
End state.
