(* ===== verification/Collator.v ===== *)
(** * Transactions of a block (validator/impl/collator.cpp)

    The collator keeps the accounts that the transactions of a block have touched, the
    messages that they sent, and the currency that was burned.  Block limits, statistics
    and the metadata of messages are left out. *)
From coqutil Require Import Datatypes.RecordSetters.
From stdpp Require Import gmap.
From S2P Require Import Prelude BigInt Int256 Cells DataCell Uint128 Fees Currency StorageStat TxTypes TxPhases TxLibrary TxActions TxActionPhase Tx TxCommit.
Import TriangleBracketNotations.

Record NewOutMsg : Type := mkNewOutMsg { nm_lt : Z; nm_msg : Cell; nm_trans : Cell; nm_idx : Z }.

(** [committed_txs] are the transactions with their inbound messages, for the theorems;
    [new_msgs] is a priority queue: here its elements, in the order in which they came. *)
Record Collator : Type := mkCollator {
  accounts : gmap (list bool) Account;
  new_msgs : list NewOutMsg;
  min_new_msg_lt : Z;
  max_lt : Z;
  burned : CurrencyCollection;
  committed_txs : list (option Cell * Transaction)
}.

(** The block and its configuration *)
Record BlockConfig : Type := mkBlockCfg {
  block_workchain : Z; block_now : Z; block_start_lt : Z;
  storage_phase_cfg : StoragePhaseConfig; compute_phase_cfg : ComputePhaseConfig;
  action_phase_cfg : ActionPhaseConfig; serialize_cfg : SerializeConfig
}.

(** [load_account] is an entry of the dictionary of accounts of the previous state, if there is
    one, as [Account::unpack] reads it; [serialize] writes the transaction once its new state is
    known. *)
Class CollatorEnv := {
  load_account : list bool -> option (option Account);
  belongs_to_shard : Account -> bool;
  extract_std_address : CellSlice -> option (Z * list bool);
  serialize : SerializeConfig -> NewState -> Transaction -> option Cell
}.

(** How [create_ordinary_transaction] ends: with a fatal error, without a transaction, or with
    one. *)
Inductive TxResult : Type := tx_fatal | tx_ignored (c : Collator) | tx_created (root : Cell) (c : Collator).

Section collator.
Context `{Sha256} `{ExtraDict} `{BlockTlb} `{TransactionEnv} `{StateEnv} `{CollatorEnv}.
Context (blk : BlockConfig).

Definition make_account_from (address : list bool) (entry : option (option Account)) (force_create : bool)
    : option Account :=
  match entry with
  | None => if force_create then init_new (block_workchain blk) address else None
  | Some a => a
  end.

(** [None] is an error, or the null pointer of an account that is not there. *)
Definition make_account (address : list bool) (force_create : bool) (c : Collator) : option (Account * Collator) :=
  match accounts c !! address with
  | Some a => Some (a, c)
  | None =>
      a ← make_account_from address (load_account address) force_create;
      _ ← fail_unless (belongs_to_shard a);
      Some (a, c <| accounts := <[address := a]> (accounts c) |>)
  end.

Definition update_max_lt (lt : Z) (c : Collator) : option Collator :=
  _ ← fail_unless (block_start_lt blk <=? lt);
  Some (if max_lt c <? lt then c <| max_lt := lt |> else c).

Definition register_new_msg (m : NewOutMsg) (c : Collator) : Collator :=
  c <| min_new_msg_lt := Z.min (min_new_msg_lt c) (nm_lt m) |> <| new_msgs := new_msgs c ++ [m] |>.

(** The messages of a transaction, from the index [i] on ([extract_out_msg_ext]) *)
Fixpoint register_new_msgs (root : Cell) (start_lt i : Z) (msgs : list Cell) (c : Collator) : Collator :=
  match msgs with
  | [] => c
  | m :: l =>
      register_new_msgs root start_lt (i + 1) l (register_new_msg (mkNewOutMsg (u64 (start_lt + i + 1)) m root i) c)
  end.

(** The end of both functions: the transaction is serialized and committed, and its messages
    are registered. *)
Definition finish_transaction (address : list bool) (acc : Account) (msg : option Cell) (t : Transaction)
    (c : Collator) : option (Cell * Collator) :=
  '(ns, t) ← compute_state (serialize_cfg blk) t;
  root ← serialize (serialize_cfg blk) ns t;
  acc ← commit root ns t acc;
  let c := c <| accounts := <[address := acc]> (accounts c) |> <| committed_txs := committed_txs c ++ [(msg, t)] |> in
  let c := register_new_msgs root (start_lt t) 0 (out_msgs t) c in
  c ← update_max_lt (last_trans_end_lt acc) c;
  Some (root, c).

(** [last_proc_lt] is the time of the last internal message that was processed, [emitted_lt]
    that of the last message emitted from the dispatch queue of the account. *)
Definition create_ordinary_transaction (msg_root : Cell) (after_lt last_proc_lt : Z) (emitted_lt : list bool -> option Z)
    (c : Collator) : TxResult :=
  match load_ordinary msg_root with
  | None => tx_fatal
  | Some cs =>
      match (match get_msg_tag cs with
             | tag_ext_in_msg =>
                 match unpack_ext_in_msg_info cs with
                 | Some (info, _) => inr (ei_dest info, true)
                 | None => inl (tx_ignored c)
                 end
             | tag_int_msg =>
                 match unpack_int_msg_info cs with
                 | Some (info, _) => inr (dest info, false)
                 | None => inl tx_fatal
                 end
             | tag_other_msg => inl tx_fatal
             end) with
      | inl r => r
      | inr (dest, external) =>
          match extract_std_address dest with
          | None => tx_ignored c
          | Some (wc, address) =>
              if negb (wc =? block_workchain blk) then tx_ignored c
              else
                match make_account address true c with
                | None => tx_fatal
                | Some (acc, c) =>
                    let after_lt := if external then Z.max after_lt last_proc_lt else after_lt in
                    let after_lt := match emitted_lt (addr acc) with Some l => Z.max after_lt l | None => after_lt end in
                    match impl_create_ordinary_transaction msg_root acc (block_now blk) (block_start_lt blk)
                            (storage_phase_cfg blk) (compute_phase_cfg blk) (action_phase_cfg blk) external after_lt with
                    | inl code => if code =? -701 then tx_ignored c else tx_fatal
                    | inr t =>
                        match finish_transaction address acc (Some msg_root) t c with
                        | Some (root, c) =>
                            tx_created root (c <| burned := cc_add_to (burned c) (blackhole_burned t) |>)
                        | None => tx_fatal
                        end
                    end
                end
          end
      end
  end.

(** The phases of a tick-tock transaction *)
Definition ticktock_phases (t : Transaction) : option Transaction :=
  t ← prepare_storage_phase (storage_phase_cfg blk) true false t;
  t ← prepare_compute_phase (compute_phase_cfg blk) t;
  cp ← compute_phase t;
  _ ← fail_unless (negb (negb (accepted cp) && bool_decide (skip_reason cp = sk_none)));
  if cp_success cp then prepare_action_phase (action_phase_cfg blk) t else Some t.

(** [None] is a fatal error. *)
Definition create_ticktock_transaction (smc_addr : list bool) (req_start_lt mask : Z) (emitted_lt : list bool -> option Z)
    (c : Collator) : option Collator :=
  '(acc, c) ← make_account smc_addr false c;
  if negb (bool_decide (status acc = acc_active)) then Some c
  else
    let lt := Z.max req_start_lt (u64 (block_start_lt blk + 1)) in
    let lt := match emitted_lt (addr acc) with Some l => Z.max lt (u64 (l + 1)) | None => lt end in
    _ ← fail_unless (negb ((block_start_lt blk <=? last_trans_end_lt acc) && (length (transactions acc) =? 0)%nat));
    t ← ticktock_phases (new_transaction acc (if mask =? 2 then tr_tick else tr_tock) lt (block_now blk) None);
    snd <$> finish_transaction smc_addr acc None t c.

(** The loop of [create_ticktock_transactions] over the special accounts of the configuration *)
Fixpoint ticktock_loop (special_smcs : list (list bool)) (get_smc_tick_tock : list bool -> Z)
    (req_lt mask : Z) (emitted_lt : list bool -> option Z) (c : Collator) : option Collator :=
  match special_smcs with
  | [] => Some c
  | smc_addr :: rest =>
      let ticktock := match accounts c !! smc_addr with
                      | Some a => Z.b2z (acc_tick a) * 2 + Z.b2z (acc_tock a)
                      | None => get_smc_tick_tock smc_addr
                      end in
      c ← (if (0 <=? ticktock) && negb (Z.land ticktock mask =? 0)
           then create_ticktock_transaction smc_addr req_lt mask emitted_lt c else Some c);
      ticktock_loop rest get_smc_tick_tock req_lt mask emitted_lt c
  end.
Definition create_ticktock_transactions (special_smcs : list (list bool)) (get_smc_tick_tock : list bool -> Z)
    (mask : Z) (emitted_lt : list bool -> option Z) (c : Collator) : option Collator :=
  let req_lt := if mask =? 2 then u64 (block_start_lt blk + 1) else max_lt c in
  ticktock_loop special_smcs get_smc_tick_tock req_lt mask emitted_lt c.
End collator.
