(* ===== verification/TxFlow.v ===== *)
(** * Conservation of currency in a transaction

    Every phase only moves currency between the balance of the account, the fees, what is
    burned and the outbound messages.  The amounts of extra currencies are those that class
    [ExtraLaws] gives to a dictionary; class [TlbLaws] says how the scheme lays out an
    internal message. *)
From coqutil Require Import Datatypes.RecordSetters.
From S2P Require Import Prelude BigInt Int256 Cells DataCell DictLabel Uint128 Fees Currency StorageStat TxTypes TxPhases TxLibrary TxActions TxActionPhase Tx.
Import TriangleBracketNotations.

(** ** Laws of the parameters *)

(** Slices with the same contents *)
Definition same_slice (cs cs' : CellSlice) : Prop := forall bits refs, slice_is cs bits refs -> slice_is cs' bits refs.

Definition int_msg_bits (flags : list bool) (src dest : CellSlice) (g : Z) (e : option Cell) (ef ff lt at_ : Z)
    : list bool :=
  false :: flags ++ slice_bits src ++ slice_bits dest ++ cc_bits g e ++ var_bits t_Grams ef ++ var_bits t_Grams ff
    ++ Z_to_bits 64 lt ++ Z_to_bits 32 at_.

(** Scheme [CommonMsgInfo] of block.tlb. *)
Class TlbLaws `{Sha256} `{BlockTlb} := {
  (** a packed and validated message is read back *)
  int_msg_roundtrip : forall info cs init body cb c,
    csr_pack_int_relaxed info = Some cs -> pack_MessageRelaxed (mkMessage cs init body) = Some cb ->
    finalize cb = Some c -> gen_validate_Message c = true ->
    get_msg_tag (slice_of_cell c) = tag_int_msg /\
    exists info' rest, unpack_int_msg_info (slice_of_cell c) = Some (info', rest) /\
      same_slice (value info) (value info') /\ same_slice (extra_flags info) (extra_flags info') /\
      same_slice (fwd_fee info) (fwd_fee info');
  ext_out_tag : forall info cs init body cb c,
    csr_pack_ext_out info = Some cs -> pack_MessageRelaxed (mkMessage cs init body) = Some cb ->
    finalize cb = Some c -> get_msg_tag (slice_of_cell c) = tag_other_msg;
  (** addresses of a message are valid *)
  int_msg_addresses : forall cs info rest, unpack_int_msg_info cs = Some (info, rest) ->
    validate_MsgAddressInt (src info) = true /\ validate_MsgAddressInt (dest info) = true;
  (** the layout of [int_msg_info$0] *)
  int_msg_layout : forall cs flags src dest g e ef ff lt at_ bits refs,
    length flags = 3%nat -> validate_MsgAddressInt src = true -> validate_MsgAddressInt dest = true ->
    var_fits t_Grams g -> var_fits t_Grams ef -> var_fits t_Grams ff ->
    slice_is cs (int_msg_bits flags src dest g e ef ff lt at_ ++ bits)
      (slice_refs src ++ slice_refs dest ++ cc_refs e ++ refs) ->
    get_msg_tag cs = tag_int_msg /\
    exists info' rest, unpack_int_msg_info cs = Some (info', rest) /\
      slice_is (value info') (cc_bits g e) (cc_refs e) /\
      slice_is (extra_flags info') (var_bits t_Grams ef) [] /\
      slice_is (fwd_fee info') (var_bits t_Grams ff) []
}.

(** ** Amounts *)

Section amounts.
Context `{ExtraLaws}.

(** A currency is the nanogram ([None]) or an extra currency. *)
Definition amount (k : option Z) (c : CurrencyCollection) : Z :=
  match k with
  | None => default 0 (grams c)
  | Some id => extra_amount (extra c) id
  end.
(** An amount of nanograms, as an amount of currency [k]. *)
Definition only_grams (k : option Z) (x : Z) : Z := match k with None => x | Some _ => 0 end.

Lemma only_grams_add k x y : only_grams k (x + y) = only_grams k x + only_grams k y.
Proof. by destruct k. Qed.
Lemma only_grams_sub k x y : only_grams k (x - y) = only_grams k x - only_grams k y.
Proof. by destruct k. Qed.
Lemma only_grams_0 k : only_grams k 0 = 0.
Proof. by destruct k. Qed.

Lemma amount_zero k : amount k cc_zero = 0.
Proof. destruct k; cbn; [apply extra_amount_none|done]. Qed.

Lemma add_extra_amount a b e id : add_extra_currency a b = Some e ->
  extra_amount e id = extra_amount a id + extra_amount b id.
Proof.
  destruct a as [a|], b as [b|]; cbn; intros E.
  - by apply add_values_amount.
  - injection E as <-. rewrite extra_amount_none. lia.
  - injection E as <-. rewrite extra_amount_none. lia.
  - injection E as <-. rewrite extra_amount_none. lia.
Qed.
Lemma sub_extra_amount a b e id : sub_extra_currency a b = Some e ->
  extra_amount e id = extra_amount a id - extra_amount b id.
Proof.
  destruct a as [a|], b as [b|]; cbn; intros E; try done.
  - by apply sub_values_amount.
  - injection E as <-. rewrite extra_amount_none. lia.
  - injection E as <-. rewrite extra_amount_none. lia.
Qed.

Lemma amount_add k a b : cc_is_valid (cc_add_to a b) = true ->
  amount k (cc_add_to a b) = amount k a + amount k b.
Proof.
  unfold cc_add_to, cc_add, cc_is_valid. destruct a as [[x|] ea], b as [[y|] eb]; cbn; try done.
  destruct (add_extra_currency ea eb) as [e|] eqn:E; cbn; [|done]. intros _.
  destruct k; cbn; [by apply add_extra_amount|done].
Qed.
Lemma amount_sub k a b : cc_is_valid (cc_sub_from a b) = true ->
  amount k (cc_sub_from a b) = amount k a - amount k b.
Proof.
  unfold cc_sub_from, cc_sub, cc_is_valid. destruct a as [[x|] ea], b as [[y|] eb]; cbn; try done.
  destruct (0 <=? x - y); [|done].
  destruct (sub_extra_currency ea eb) as [e|] eqn:E; cbn; [|done]. intros _.
  destruct k; cbn; [by apply sub_extra_amount|done].
Qed.
Lemma amount_add_grams k a y : cc_is_valid a = true ->
  amount k (cc_add_grams a (Some y)) = amount k a + only_grams k y /\ cc_is_valid (cc_add_grams a (Some y)) = true.
Proof. destruct a as [[x|] e], k; cbn; intros; try done; by rewrite ?Z.add_0_r. Qed.
Lemma amount_sub_grams k a y : cc_is_valid (cc_sub_grams a (Some y)) = true ->
  amount k (cc_sub_grams a (Some y)) = amount k a - only_grams k y.
Proof.
  unfold cc_sub_grams. destruct a as [[x|] e]; cbn; [|by destruct k].
  destruct (0 <=? x - y); [|done]. intros _. destruct k; cbn; lia.
Qed.
Lemma amount_set_grams k a g : amount k (set_grams a (Some g)) = amount k a - only_grams k (default 0 (grams a)) + only_grams k g.
Proof. destruct k; cbn; lia. Qed.
Lemma valid_grams a : cc_is_valid a = true <-> exists g, grams a = Some g.
Proof. unfold cc_is_valid. rewrite bool_decide_eq_true. done. Qed.
End amounts.

(** ** Inversion of code that returns an option *)

Lemma fail_unless_Some b u : fail_unless b = Some u -> b = true.
Proof. by destruct b. Qed.

Ltac obind H :=
  repeat (first
    [ apply bind_Some in H as ([? ?] & ? & H)
    | apply bind_Some in H as (? & ? & H) ];
    repeat match goal with
    | G : fail_unless _ = Some _ |- _ => apply fail_unless_Some in G
    end; cbv beta iota zeta in H).

Ltac opair H :=
  lazymatch type of H with
  | (_, _) = (_, _) => let H2 := fresh in apply pair_equal_spec in H as [H H2]; opair H; opair H2
  | ?a = ?b => first [subst b | subst a | idtac]
  end.
Ltac osome H := apply (inj Some) in H; opair H.

Ltac rsimp := try record.simp.

Section flow.
Context `{ShaI : Sha256} `{DictI : ExtraDict} `{LawsE : !ExtraLaws} `{TlbI : BlockTlb} `{LawsT : !TlbLaws} `{EnvI : TransactionEnv}.
Context (version : Z).

Definition exported_amount (k : option Z) (msg : Cell) : Z :=
  match msg_export_value version msg with Some c => amount k c | None => 0 end.
Fixpoint exported (k : option Z) (msgs : list Cell) : Z :=
  match msgs with [] => 0 | m :: l => exported_amount k m + exported k l end.
Definition exportable (msg : Cell) : Prop := exists v, msg_export_value version msg = Some v.

Lemma exported_app k l1 l2 : exported k (l1 ++ l2) = exported k l1 + exported k l2.
Proof. induction l1 as [|m l1 IH]; cbn; [done|]. rewrite IH. lia. Qed.

(** Only nanograms are burned. *)
Definition burned_ok (c : CurrencyCollection) : Prop := cc_is_valid c = true /\ extra c = None.
(** What the transaction holds of a currency. *)

Definition holdings (k : option Z) (t : Transaction) : Z :=
  amount k (balance t) + amount k (total_fees t) + amount k (blackhole_burned t) + exported k (out_msgs t).
Record tx_ok (t : Transaction) : Prop := mkTxOk {
  ok_balance : cc_is_valid (balance t) = true;
  ok_fees : cc_is_valid (total_fees t) = true;
  ok_exports : Forall exportable (out_msgs t);
  ok_flags : version < 12 -> in_msg_extra_flags t = 0;
  ok_burned : burned_ok (blackhole_burned t)
}.

(** Steps that move no currency *)
Record same_money (t t' : Transaction) : Prop := mkSame {
  sm_balance : balance t' = balance t;
  sm_fees : total_fees t' = total_fees t;
  sm_burned : blackhole_burned t' = blackhole_burned t;
  sm_out : out_msgs t' = out_msgs t;
  sm_flags : in_msg_extra_flags t' = in_msg_extra_flags t;
  sm_msg_balance : msg_balance_remaining t' = msg_balance_remaining t;
  sm_fwd_fee : in_fwd_fee t' = in_fwd_fee t;
  sm_account : account t' = account t
}.
Lemma same_money_refl t : same_money t t.
Proof. by split. Qed.
Lemma same_money_trans t1 t2 t3 : same_money t1 t2 -> same_money t2 t3 -> same_money t1 t3.
Proof. intros [] []. split; congruence. Qed.
Lemma same_money_ok t t' : same_money t t' -> tx_ok t -> tx_ok t'.
Proof. intros [Hb Hf Hbu Ho Hfl _ _ _] []. split; rewrite ?Hb, ?Hf, ?Ho, ?Hfl, ?Hbu; done. Qed.
Lemma same_money_holdings k t t' : same_money t t' -> holdings k t' = holdings k t.
Proof. intros [Hb Hf Hbu Ho _ _ _ _]. unfold holdings. by rewrite Hb, Hf, Hbu, Ho. Qed.

(** A phase that conserves what the transaction holds *)
Definition conserves (t t' : Transaction) : Prop :=
  tx_ok t' /\ (forall k, holdings k t' = holdings k t) /\ out_msgs t' = out_msgs t /\ blackhole_burned t' = blackhole_burned t.

Lemma credit_flow t t' : prepare_credit_phase t = Some t' -> tx_ok t ->
  tx_ok t' /\ (forall k, holdings k t' = holdings k t + amount k (msg_balance_remaining t)) /\ out_msgs t' = out_msgs t.
Proof.
  unfold prepare_credit_phase. intros E []. obind E. osome E. rsimp. split_and!; [|intros k|done].
  - split; rsimp; done.
  - unfold holdings. rsimp. rewrite amount_add by done. lia.
Qed.

Lemma collect_all_flow cfg to_pay g t sp t' k : collect_all cfg to_pay g t = (sp, t') -> grams (balance t) = Some g ->
  fees_collected sp = g /\ cc_is_valid (balance t') = true /\
  amount k (balance t') = amount k (balance t) - only_grams k g /\ total_fees t' = total_fees t /\
  blackhole_burned t' = blackhole_burned t /\ out_msgs t' = out_msgs t /\ in_msg_extra_flags t' = in_msg_extra_flags t /\
  msg_balance_remaining t' = msg_balance_remaining t.
Proof.
  unfold collect_all. intros E Hg. rsimp.
  assert (amount k (set_grams (balance t) (Some 0)) = amount k (balance t) - only_grams k g) as Ha.
  { rewrite amount_set_grams, Hg. cbn. rewrite only_grams_0. lia. }
  repeat case_match; simplify_eq; rsimp; cbn; repeat case_match; rsimp; done.
Qed.

(** Fees that go from the balance to [total_fees] *)
Lemma move_fees_flow t t' x :
  tx_ok t -> cc_is_valid (balance t') = true -> total_fees t' = cc_add_grams (total_fees t) (Some x) ->
  (forall k, amount k (balance t') = amount k (balance t) - only_grams k x) ->
  blackhole_burned t' = blackhole_burned t -> out_msgs t' = out_msgs t ->
  in_msg_extra_flags t' = in_msg_extra_flags t -> conserves t t'.
Proof.
  intros [] Hb Hf Ha Hbu Ho Hfl.
  assert (forall k, amount k (total_fees t') = amount k (total_fees t) + only_grams k x /\ cc_is_valid (total_fees t') = true) as Hfees.
  { intros k. rewrite Hf. by apply amount_add_grams. }
  split_and!; [|intros k|done|done].
  - split; rewrite ?Ho, ?Hfl, ?Hbu; [done|apply (Hfees None)|done..].
  - unfold holdings. rewrite Hbu, Ho, Ha. destruct (Hfees k) as [-> _]. lia.
Qed.

Lemma sub_grams_flow a x g : grams a = Some g -> x <= g ->
  cc_is_valid (cc_sub_grams a (Some x)) = true /\
  forall k, amount k (cc_sub_grams a (Some x)) = amount k a - only_grams k x.
Proof.
  intros Hg Hx. assert (cc_is_valid (cc_sub_grams a (Some x)) = true) as Hv.
  { unfold cc_sub_grams. rewrite Hg, (proj2 (Z.leb_le _ _)) by lia. done. }
  split; [done|]. intros k. by apply amount_sub_grams.
Qed.

Lemma storage_flow cfg f adj t t' : prepare_storage_phase cfg f adj t = Some t' -> tx_ok t ->
  conserves t t' /\ (adj = false -> msg_balance_remaining t' = msg_balance_remaining t).
Proof.
  unfold prepare_storage_phase. intros E Hok.
  apply bind_Some in E as (? & _ & E). apply bind_Some in E as (fees & _ & E).
  apply bind_Some in E as (due & _ & E). apply bind_Some in E as (? & _ & E).
  apply bind_Some in E as (g & Hg & E). cbv zeta in E. set (to_pay := fees + due) in *.
  destruct (if to_pay =? 0 then _ else _) as [sp t1] eqn:E1.
  assert (cc_is_valid (balance t1) = true /\ (forall k, amount k (balance t1) = amount k (balance t) - only_grams k (fees_collected sp)) /\
    total_fees t1 = total_fees t /\ blackhole_burned t1 = blackhole_burned t /\ out_msgs t1 = out_msgs t /\
    in_msg_extra_flags t1 = in_msg_extra_flags t /\ msg_balance_remaining t1 = msg_balance_remaining t)
    as (Hb & Ha & Hf & Hbu & Ho & Hfl & Hm).
  { assert (cc_is_valid (balance t) = true) by apply Hok. destruct (Z.eqb_spec to_pay 0).
    { apply pair_equal_spec in E1 as [<- <-]. rsimp. cbn [fees_collected]. split_and!; try done. intros k. rewrite only_grams_0. lia. }
    destruct (Z.leb_spec to_pay g).
    { destruct (sub_grams_flow _ _ _ Hg ltac:(eassumption)) as [Hv Ha].
      destruct (7 <=? _); apply pair_equal_spec in E1 as [<- <-]; rsimp; cbn [fees_collected]; done. }
    destruct (bool_decide _ && negb f && _).
    { apply pair_equal_spec in E1 as [<- <-]. rsimp. cbn [fees_collected]. split_and!; try done. intros k. rewrite only_grams_0. lia. }
    pose proof (fun k => collect_all_flow _ _ _ _ _ _ k E1 ltac:(rsimp; exact Hg)) as Hc. rsimp.
    destruct (Hc None) as (Hfc & ? & _ & ? & ? & ? & ? & ?). split_and!; try done. intros k. rewrite Hfc. apply Hc. }
  apply bind_Some in E as (t2 & E2 & E). osome E.
  assert (same_money t1 t2 \/ adj = true /\ exists m, t2 = t1 <| msg_balance_remaining := m |>) as Ht2.
  { destruct adj; [|osome E2; left; apply same_money_refl]. obind E2. osome E2. destruct (_ <? _) in |- *; [right; split; [done|by eexists]|left; apply same_money_refl]. }
  split.
  - apply (move_fees_flow t _ (fees_collected sp)); try done; rsimp.
    all: destruct Ht2 as [[]|[_ [m ->]]]; rsimp; try congruence.
    all: intros k; rewrite <- Ha; congruence.
  - intros ->. rsimp. destruct Ht2 as [[]|[? _]]; [congruence|done].
Qed.

(** ** The inbound message *)

Lemma unpack_init_money cs t t' cs' : unpack_msg_init cs t = Some (t', cs') -> same_money t t'.
Proof.
  unfold unpack_msg_init. intros E. destruct (_ =? 2); [|destruct (_ =? 3)]; obind E; osome E; split; rsimp; done.
Qed.
Lemma unpack_body_money cs t t' : unpack_msg_body cs t = Some t' -> same_money t t'.
Proof.
  unfold unpack_msg_body. destruct (fetch_ulong 1 cs) as [b cs']. intros E.
  destruct (b =? 0); [osome E; split; rsimp; done|]. destruct (b =? 1); [|done]. destruct (_ && _); [|done].
  obind E. osome E. split; rsimp; done.
Qed.

(** Before the message is credited: [msg_balance_remaining] is not in the balance yet. *)
Definition received (t t' : Transaction) (imp : option Z -> Z) : Prop :=
  cc_is_valid (balance t') = true /\ total_fees t' = total_fees t /\ blackhole_burned t' = blackhole_burned t /\
  out_msgs t' = out_msgs t /\ (version < 12 -> in_msg_extra_flags t' = 0) /\
  cc_is_valid (msg_balance_remaining t') = true /\
  forall k, amount k (balance t') + only_grams k (in_fwd_fee t') + amount k (msg_balance_remaining t')
            = amount k (balance t) + imp k.

Lemma unpack_int_flow cfg cs t t' cs' v info rest fee :
  global_version cfg = version -> tx_ok t ->
  unpack_int_msg false cfg cs t = Some (t', cs') -> unpack_int_msg_info cs = Some (info, rest) ->
  cc_validate_unpack (value info) = Some v -> get_ihr_fee info version = Some fee ->
  received t t' (fun k => amount k v + only_grams k fee).
Proof.
  intros Hv Hok E Ei Ev Ef. unfold unpack_int_msg in E. rewrite Ei in E. cbn [mbind option_bind] in E.
  obind E. osome E. rename x1 into flags.
  assert (cc_unpack (value info) = v) as Hu.
  { unfold cc_validate_unpack in Ev. unfold cc_unpack. repeat case_match; try done. by rewrite Ev. }
  assert ((if 12 <=? version then 0 else flags) = fee) as Hfee.
  { unfold get_ihr_fee in Ef. destruct (12 <=? version); congruence. }
  rewrite Hv, Hu in *. rewrite Hfee in *. pose proof (fun k => amount_add_grams k v fee ltac:(done)) as Ha.
  destruct Hok. unfold received. destruct (Z.leb_spec 12 version).
  all: destruct (_ <=? created_lt info); rsimp; split_and!; try done; try (intros; lia); try apply (Ha None).
  all: try (intros; apply ok_flags0; lia). all: intros k; rewrite only_grams_0; destruct (Ha k) as [-> _]; lia.
Qed.

Lemma unpack_ext_flow cfg msg cs t t' cs' : tx_ok t -> unpack_ext_msg cfg msg cs t = Some (t', cs') ->
  received t t' (fun _ => 0) /\ msg_balance_remaining t' = cc_zero.
Proof.
  intros [] E. unfold unpack_ext_msg in E. apply bind_Some in E as ([info cs1] & _ & E).
  apply bind_Some in E as (? & _ & E). cbv zeta in E. apply bind_Some in E as (? & _ & E).
  destruct (add_used_slice cs1 0 _) as [st d]. apply bind_Some in E as (? & _ & E).
  apply bind_Some in E as (? & _ & E). apply bind_Some in E as (? & _ & E). apply bind_Some in E as (g & Hg & E).
  apply bind_Some in E as (? & Hle%fail_unless_Some%Z.leb_le & E). osome E. rsimp.
  destruct (sub_grams_flow _ _ _ Hg Hle) as [Hval Ha]. rsimp.
  split; [|done]. unfold received. rsimp. split_and!; try done. intros k. rewrite Ha, amount_zero. lia.
Qed.

Lemma unpack_flow cfg t t' msg imp :
  global_version cfg = version -> tx_ok t -> blackhole_burned t = cc_zero -> in_msg t = Some msg ->
  money_imported version msg = Some imp -> unpack_input_msg false cfg t = Some t' ->
  tx_ok t' /\ (forall k, holdings k t' + amount k (msg_balance_remaining t') = holdings k t + amount k imp) /\
  out_msgs t' = out_msgs t /\
  (get_msg_tag (slice_of_cell msg) = tag_ext_in_msg -> forall k, amount k (msg_balance_remaining t') = 0).
Proof.
  intros Hv Hok Hbu Hm Himp E. unfold unpack_input_msg in E. rewrite Hm in E. cbn [mbind option_bind] in E.
  apply bind_Some in E as (? & _ & E). apply bind_Some in E as (cs & Hcs & E).
  assert (cs = slice_of_cell msg) as ->. { unfold load_ordinary in Hcs. by destruct (cell_special msg); simplify_eq. }
  apply bind_Some in E as ([t1 cs1] & E1 & E). apply bind_Some in E as ([t2 cs2] & E2%unpack_init_money & E).
  apply bind_Some in E as (t3 & E3%unpack_body_money & E). pose proof (same_money_trans _ _ _ E2 E3) as S23.
  assert (received t t1 (fun k => amount k imp) /\
    (get_msg_tag (slice_of_cell msg) = tag_ext_in_msg -> msg_balance_remaining t1 = cc_zero)) as [R Hext].
  { unfold money_imported in Himp. destruct (get_msg_tag (slice_of_cell msg)); [|..].
    - split; [|done]. apply bind_Some in Himp as ([info rest] & Ei & Himp). apply bind_Some in Himp as (v & Ev & Himp).
      apply bind_Some in Himp as (fee & Ef & Himp). osome Himp.
      pose proof (unpack_int_flow _ _ _ _ _ _ _ _ _ Hv Hok E1 Ei Ev Ef) as R. unfold received in *.
      destruct R as (? & ? & ? & ? & ? & ? & R). split_and!; try done. intros k. rewrite R.
      assert (cc_is_valid v = true) as Hval.
      { unfold cc_validate_unpack, unpack_CurrencyCollection in Ev. repeat case_match; simplify_eq; done. }
      destruct (amount_add_grams k v fee Hval) as [-> _]. lia.
    - osome Himp. destruct (unpack_ext_flow _ _ _ _ _ _ Hok E1) as [R Hz]. split; [|done].
      destruct R as (? & ? & ? & ? & ? & ? & R). unfold received. split_and!; try done. intros k. rewrite R, amount_zero. lia.
    - done. }
  destruct R as (Rb & Rf & Rbu & Ro & Rfl & Rm & R). destruct S23 as [Sb Sf Sbu So Sfl Sm Sw _]. destruct Hok.
  rewrite <- Sb, <- Sm, <- Sw in *. clear E1 E2 E3 Sb Sm.
  set (t4 := t3 <| total_fees := _ |>) in E.
  assert (forall k, amount k (total_fees t4) = amount k (total_fees t) + only_grams k (in_fwd_fee t3) /\
    cc_is_valid (total_fees t4) = true) as Hfees.
  { intros k. subst t4. rsimp. rewrite Sf, Rf. by apply amount_add_grams. }
  assert (burned_ok (blackhole_burned t')) as Hburn.
  { osome E. destruct (is_blackhole _ _); subst t4; rsimp; rewrite Sbu, Rbu; [|done].
    rewrite Hbu. split; [|done]. apply valid_grams in Rm as [m Em]. apply valid_grams. by exists m. }
  assert (tx_ok t') as Hok'.
  { osome E. destruct (is_blackhole _ _); split; subst t4; rsimp; rewrite ?So, ?Ro, ?Sfl; try done; apply (Hfees None). }
  assert (out_msgs t' = out_msgs t) as Ho'.
  { osome E. destruct (is_blackhole _ _); subst t4; rsimp; congruence. }
  split_and!; [done| |done|].
  - intros k. specialize (R k). destruct (Hfees k) as [Hf _]. unfold holdings. rewrite Ho', Hbu, amount_zero.
    assert (amount k (balance t') = amount k (balance t3) /\ amount k (total_fees t') = amount k (total_fees t4) /\
      amount k (blackhole_burned t') + amount k (msg_balance_remaining t') = amount k (msg_balance_remaining t3)) as (-> & -> & ?); [|lia].
    apply valid_grams in Rm as [m Em]. osome E.
    destruct (is_blackhole _ _); subst t4; rsimp; rewrite ?Sbu, ?Rbu, ?Hbu, ?Em, ?amount_set_grams; split_and!; try done.
    + rewrite amount_zero, Em. cbn [grams cc_zero default from_option id]. rewrite only_grams_0. unfold default, id. lia.
    + rewrite amount_zero. lia.
  - intros Ht k. specialize (Hext Ht). osome E.
    destruct (is_blackhole _ _); subst t4; rsimp; rewrite Hext, ?amount_set_grams, ?amount_zero; [|done].
    cbn [grams cc_zero default from_option id]. rewrite only_grams_0. unfold default, id. lia.
Qed.

(** ** The compute phase *)

Lemma same_money_conserves t t' : same_money t t' -> tx_ok t -> conserves t t'.
Proof.
  intros S Hok. split_and!; [by eapply same_money_ok|intros k; by apply same_money_holdings|apply S|apply S].
Qed.
Lemma conserves_trans t1 t2 t3 : conserves t1 t2 -> conserves t2 t3 -> conserves t1 t3.
Proof. intros (_ & H1 & E1 & B1) (? & H2 & E2 & B2). split_and!; [done|intros k; by rewrite H2|congruence..]. Qed.

Lemma tx_gas_bought_money cfg n t g t' : tx_gas_bought_for cfg n t = (g, t') -> same_money t t'.
Proof. unfold tx_gas_bought_for. intros E. case_match; apply pair_equal_spec in E as [_ <-]; split; rsimp; done. Qed.
Lemma gas_limits_money cp cfg t cp' t' : compute_gas_limits cp cfg t = Some (cp', t') -> same_money t t'.
Proof.
  unfold compute_gas_limits. intros E.
  destruct (if is_special (account t) then _ else _) as [max t1] eqn:E1.
  assert (same_money t t1) as S1.
  { destruct (is_special _); [apply pair_equal_spec in E1 as [_ <-]; apply same_money_refl|by eapply tx_gas_bought_money]. }
  destruct (if _ || _ then _ else _) as [limit t2] eqn:E2.
  assert (same_money t1 t2) as S2.
  { destruct (_ || _); [apply pair_equal_spec in E2 as [_ <-]; apply same_money_refl|].
    destruct (tx_gas_bought_for cfg _ t1) eqn:E3. apply pair_equal_spec in E2 as [_ <-]. by eapply tx_gas_bought_money. }
  apply bind_Some in E as (? & _ & E). osome E. by eapply same_money_trans.
Qed.
Lemma unpack_msg_state_money cfg l f t : same_money t (snd (unpack_msg_state cfg l f t)).
Proof.
  unfold unpack_msg_state. destruct (_ ← in_msg_state t; _) as [state|]; [|apply same_money_refl].
  destruct l; [split; rsimp; done|]. destruct (_ && _); cbn [snd].
  { destruct (cc_disable_anycast cfg); split; rsimp; done. }
  destruct (check_state_limits _ _ _), (1 <? size (si_special state))%nat, (cc_disable_anycast cfg); cbn [snd];
    split; rsimp; done.
Qed.
Lemma check_hash_money cfg t t' : check_in_msg_state_hash cfg t = Some t' -> same_money t t'.
Proof.
  unfold check_in_msg_state_hash. intros E. apply bind_Some in E as (? & _ & E). apply bind_Some in E as (? & _ & E).
  apply bind_Some in E as (? & _ & E). destruct (cc_disable_anycast cfg).
  - osome E. split; rsimp; done.
  - apply bind_Some in E as (? & _ & E). osome E. split; rsimp; done.
Qed.
Lemma prepare_state_money cfg t :
  match prepare_state cfg t with inl (_, t') | inr t' => same_money t t' end.
Proof.
  unfold prepare_state. set (step := if _ && _ then _ else _).
  assert (match step with inl (_, t') | inr t' => same_money t t' end) as Hs.
  { subst step. destruct (bool_decide _ && _).
    - destruct (_ && is_address_suspended _ _); [apply same_money_refl|].
      pose proof (unpack_msg_state_money cfg false (bool_decide (acc_status t = acc_uninit) && is_masterchain (account t))
        (t <| use_msg_state := true |>)) as S1.
      destruct (unpack_msg_state _ _ _ _) as [ok t1]. cbn [snd] in S1.
      assert (same_money t t1) by (eapply same_money_trans; [|exact S1]; split; rsimp; done).
      destruct (negb _); [done|].
      destruct (if bool_decide _ then _ else _) as [t2|] eqn:E2; [|done].
      assert (same_money t t2).
      { destruct (bool_decide _); [eapply same_money_trans; [done|by eapply check_hash_money]|by osome E2]. }
      by destruct (_ && _).
    - destruct (negb _); [apply same_money_refl|]. destruct (bool_decide _); [|apply same_money_refl].
      destruct (_ && _); [apply same_money_refl|]. apply unpack_msg_state_money. }
  destruct step as [[r t1]|t1]; [done|]. destruct (_ && _); [done|]. eapply same_money_trans; [exact Hs|].
  destruct (cc_disable_anycast cfg); [split; rsimp; done|apply same_money_refl].
Qed.

Lemma charge_gas_flow cfg cp t t' : charge_gas cfg cp t = Some t' -> tx_ok t -> conserves t t'.
Proof.
  unfold charge_gas. intros E Hok. destruct (accepted cp).
  2: { osome E. apply same_money_conserves; [split; rsimp; done|done]. }
  destruct (is_special (account t)).
  { obind E. osome E. apply same_money_conserves; [split; rsimp; done|done]. }
  obind E. osome E. rsimp. assert (cc_is_valid (cc_sub_grams (balance t) (Some (compute_gas_price (gas_prices cfg) (gas_used cp)))) = true).
  { apply valid_grams. eauto. }
  eapply (move_fees_flow t _ (compute_gas_price (gas_prices cfg) (gas_used cp))); rsimp; try done.
  intros k. by apply amount_sub_grams.
Qed.
Lemma activate_money cp t : same_money t (activate cp t).
Proof. unfold activate. destruct (_ && _); [split; rsimp; done|apply same_money_refl]. Qed.

Lemma run_tvm_flow cfg p l m c cp t t' : run_tvm cfg p l m c cp t = Some t' -> tx_ok t -> conserves t t'.
Proof.
  unfold run_tvm. intros E Hok. apply bind_Some in E as (r & _ & E). cbv zeta in E.
  apply bind_Some in E as (cp' & _ & E). set (t1 := activate _ t) in E.
  assert (conserves t t1) by (apply same_money_conserves; [apply activate_money|done]).
  eapply conserves_trans; [done|]. eapply charge_gas_flow; [exact E|]. by destruct H.
Qed.
Lemma run_precompiled_flow cfg run cp t t' : run_precompiled_contract cfg run cp t = Some t' -> tx_ok t -> conserves t t'.
Proof.
  unfold run_precompiled_contract. intros E Hok. apply bind_Some in E as (gas & _ & E). cbv zeta in E.
  match type of E with charge_gas _ _ ?t1 = _ => assert (conserves t t1) as Hc end.
  { apply same_money_conserves; [apply activate_money|done]. }
  eapply conserves_trans; [exact Hc|]. eapply charge_gas_flow; [exact E|]. by destruct Hc.
Qed.

Lemma compute_flow cfg t t' : prepare_compute_phase cfg t = Some t' -> tx_ok t -> conserves t t'.
Proof.
  unfold prepare_compute_phase. intros E Hok. cbv zeta in E. set (t1 := t <| original_balance := _ |>) in E.
  assert (same_money t t1) as S1 by (split; subst t1; rsimp; done). clearbody t1.
  assert (forall t2 cp, same_money t t2 -> conserves t (t2 <| compute_phase := cp |>)) as Hskip.
  { intros t2 cp S2. apply same_money_conserves; [|done]. eapply same_money_trans; [exact S2|]. split; rsimp; done. }
  apply bind_Some in E as (g & _ & E). destruct (g <=? 0); [osome E; by apply Hskip|].
  apply bind_Some in E as ([cp t2] & S2%gas_limits_money & E). pose proof (same_money_trans _ _ _ S1 S2) as S12.
  destruct (_ && _); [osome E; by apply Hskip|]. pose proof (prepare_state_money cfg t2) as S3.
  destruct (prepare_state cfg t2) as [[r t3]|t3]; pose proof (same_money_trans _ _ _ S12 S3) as S13.
  { osome E. by apply Hskip. }
  assert (conserves t t3) as Hc by by apply same_money_conserves. eapply conserves_trans; [exact Hc|].
  destruct Hc as [Hok3 _]. unfold run_contract in E. set (pre := if decide _ then _ else _) in E.
  destruct pre as [gas|]; [|by eapply run_tvm_flow].
  destruct (_ <? gas).
  { osome E. apply same_money_conserves; [split; rsimp; done|done]. }
  destruct (if dont_run_precompiled cfg then _ else _); [by eapply run_precompiled_flow|by eapply run_tvm_flow].
Qed.
End flow.
