(* ===== verification/TxActionFlow.v ===== *)
(** * Conservation of currency in the action phase

    What the phase has left ([remaining_balance]), has set aside ([reserved_balance]), has
    sent and has collected as fees and fines is the balance that it started from. *)
From coqutil Require Import Datatypes.RecordSetters.
From S2P Require Import Prelude BigInt Int256 Cells DataCell DictLabel Uint128 Fees Currency StorageStat TxTypes TxPhases TxLibrary TxActions TxActionPhase Tx TxFlow.
Import TriangleBracketNotations.

(** [m] ends in [Q] or stops in [E], unless it is fatal. *)
Definition acts {A} (m : act A) (Q : A -> Prop) (E : Z -> ActionPhase -> Transaction -> Prop) : Prop :=
  match m with go a => Q a | stop code ap t => E code ap t | fatal => True end.

Lemma acts_go {A} (a : A) (Q : A -> Prop) E : Q a -> acts (go a) Q E.
Proof. done. Qed.
Lemma acts_bind {A B} (m : act A) (f : A -> act B) Q E :
  acts m (fun a => acts (f a) Q E) E -> acts (m ≫= f) Q E.
Proof. by destruct m. Qed.
Lemma acts_must {A} (o : option A) (Q : A -> Prop) E : (forall a, o = Some a -> Q a) -> acts (must o) Q E.
Proof. destruct o; cbn; auto. Qed.
Lemma acts_check b (Q : unit -> Prop) E : (b = true -> Q tt) -> acts (check b) Q E.
Proof. destruct b; cbn; auto. Qed.
Lemma acts_mono {A} (m : act A) (Q Q' : A -> Prop) (E E' : Z -> ActionPhase -> Transaction -> Prop) :
  acts m Q E -> (forall a, Q a -> Q' a) -> (forall c ap t, E c ap t -> E' c ap t) -> acts m Q' E'.
Proof. destruct m; cbn; auto. Qed.

Section actions.
Context `{ShaI : Sha256} `{DictI : ExtraDict} `{LawsE : !ExtraLaws} `{TlbI : BlockTlb} `{LawsT : !TlbLaws} `{EnvI : TransactionEnv}.
Context (cfg : ActionPhaseConfig).
Notation version := (global_version cfg).

(** What an action changes of the transaction is [msg_balance_remaining] and the libraries. *)
Record act_frame (t t' : Transaction) : Prop := mkFrame {
  fr_balance : balance t' = balance t; fr_fees : total_fees t' = total_fees t;
  fr_burned : blackhole_burned t' = blackhole_burned t; fr_out : out_msgs t' = out_msgs t;
  fr_flags : in_msg_extra_flags t' = in_msg_extra_flags t;
  fr_account : account t' = account t; fr_compute : compute_phase t' = compute_phase t;
  fr_start : start_lt t' = start_lt t; fr_end : end_lt t' = end_lt t
}.
Lemma act_frame_refl t : act_frame t t.
Proof. by split. Qed.
Lemma act_frame_trans t1 t2 t3 : act_frame t1 t2 -> act_frame t2 t3 -> act_frame t1 t3.
Proof. intros [] []. split; congruence. Qed.

Definition ap_amount (k : option Z) (ap : ActionPhase) : Z :=
  amount k (remaining_balance ap) + amount k (reserved_balance ap) + exported version k (ap_out_msgs ap)
  + only_grams k (total_action_fees ap + action_fine ap).
(** [b] is the balance before the phase. *)
Record ap_inv (b : option Z -> Z) (ap : ActionPhase) : Prop := mkApInv {
  ai_remaining : cc_is_valid (remaining_balance ap) = true;
  ai_reserved : cc_is_valid (reserved_balance ap) = true;
  ai_exports : Forall (exportable version) (ap_out_msgs ap);
  ai_fine : action_fine_enabled cfg = false -> action_fine ap = 0;
  ai_amount : forall k, ap_amount k ap = b k
}.
(** How an action may stop: the invariant may be lost only when the phase fails. *)
Definition stops (b : option Z -> Z) (t : Transaction) (code : Z) (ap : ActionPhase) (t' : Transaction) : Prop :=
  act_frame t t' /\ (code <> -1 -> ap_inv b ap).

(** The invariant is about these fields only. *)
Lemma ap_inv_same b ap ap' : ap_inv b ap ->
  remaining_balance ap' = remaining_balance ap -> reserved_balance ap' = reserved_balance ap ->
  ap_out_msgs ap' = ap_out_msgs ap -> total_action_fees ap' = total_action_fees ap ->
  action_fine ap' = action_fine ap -> ap_inv b ap'.
Proof.
  intros [] E1 E2 E3 E4 E5. split; rewrite ?E1, ?E2, ?E3, ?E5; try done.
  intros k. rewrite <- ai_amount0. unfold ap_amount. by rewrite E1, E2, E3, E4, E5.
Qed.

Lemma skip_invalid_stops {A} (Q : A -> Prop) b t t' s code ap : ap_inv b ap -> act_frame t t' ->
  acts (skip_invalid_code cfg s code ap t') Q (stops b t).
Proof.
  intros Hi Hf. unfold skip_invalid_code. destruct s; cbn; [|by split]. split; [done|]. intros _.
  destruct (message_skip_enabled cfg); [|done]. eapply ap_inv_same; [exact Hi|..]; rsimp; done.
Qed.
Lemma collect_fine_inv b fine mc c t ap ap' : ap_inv b ap -> collect_fine cfg fine mc c t ap = Some ap' -> ap_inv b ap'.
Proof.
  intros Hi E. unfold collect_fine in E. destruct (action_fine_enabled cfg && negb (is_special (account t))) eqn:Een.
  2: { by osome E. }
  apply andb_true_iff in Een as [Een _]. destruct Hi as [Hr Hres He Hf Ha].
  apply bind_Some in E as (g & Hg & E). osome E. set (x := ll _).
  split; rsimp; try done; [by rewrite Een|]. intros k. rewrite <- (Ha k). unfold ap_amount. rsimp.
  rewrite amount_set_grams, Hg, !only_grams_add, only_grams_sub. cbn [default from_option id]. unfold default, id. lia.
Qed.
Lemma fined_stops {A} (Q : A -> Prop) b mode fine mc c code ap t t' : ap_inv b ap -> act_frame t t' ->
  acts (fined cfg mode fine mc c code ap t') Q (stops b t).
Proof.
  intros Hi Hf. unfold fined. apply acts_bind, acts_must. intros ap' E.
  apply skip_invalid_stops; [|done]. by eapply collect_fine_inv.
Qed.
Lemma stop_stops b t ap code : ap_inv b ap -> stops b t code ap t.
Proof. intros. split; [apply act_frame_refl|done]. Qed.

(** ** Sending *)

Hypothesis versioned : versioned_action_cfg cfg.

Definition ihr_off (om : OutMsg) : Prop := om_ext om = false -> 12 <= version -> ihr_disabled (om_info om) = true.

Lemma suggested_stops b mode msg ap t : ap_inv b ap ->
  acts (suggested_message cfg mode msg ap t) ihr_off (stops b t).
Proof.
  intros Hi. unfold suggested_message. pose proof (act_frame_refl t) as Hf. destruct (negb _).
  - destruct (csr_unpack_ext_out_relaxed _); [|by apply stop_stops]. destruct (negb _); [by apply stop_stops|]. done.
  - destruct (csr_unpack_int_relaxed _) as [info|]; [|by apply stop_stops]. destruct (negb _); [by apply stop_stops|].
    destruct (if disable_custom_fess cfg then _ else _) as [[fwd ihr]|]; [|by apply stop_stops].
    destruct versioned as (_ & _ & _ & _ & _ & _ & _ & Hihr).
    destruct (Z.leb_spec 12 version) as [Hv|].
    2: { intros _ ?. lia. }
    rewrite Hihr, (proj2 (Z.leb_le 11 _)) by lia.
    destruct (as_integer _ _); [destruct (_ =? _)|]; [|by apply skip_invalid_stops..].
    intros _ _. cbn [om_info]. rsimp. done.
Qed.

Lemma address_stops b mode om ap t : ap_inv b ap -> ihr_off om ->
  acts (address_message cfg mode om ap t) (fun r => ihr_off (fst r)) (stops b t).
Proof.
  intros Hi Hom. unfold address_message. pose proof (act_frame_refl t) as Hf.
  destruct (check_replace_src_addr _ _); [|destruct (13 <=? _); [by apply skip_invalid_stops|by apply stop_stops]].
  destruct (check_rewrite_dest_addr _ _ _ _) as [[d to_mc]|]; [|by apply skip_invalid_stops].
  destruct (_ && _).
  - destruct (unpack_CurrencyCollection _) as [v|]; [|by apply skip_invalid_stops].
    destruct (remove_zero_extra _ _) as [e|]; [|by apply skip_invalid_stops].
    apply acts_bind, acts_must. intros v' _. intros He Hv. rsimp. by apply Hom.
  - intros He Hv. cbn [fst] in *. rsimp. by apply Hom.
Qed.

Lemma affordable_stops b mp mode om ap t : ap_inv b ap ->
  acts (affordable_cells cfg mp mode om ap t) (fun _ => True) (stops b t).
Proof.
  intros Hi. unfold affordable_cells. pose proof (act_frame_refl t) as Hf. destruct (_ && _); [|done].
  apply acts_bind, acts_must. intros g _. apply acts_bind.
  assert (forall m : act Z, acts m (fun _ => True) (stops b t) ->
    acts m (fun a => acts (go (if a <? ll (u64 (max_msg_cells (size_limits cfg) * fine_per_cell cfg mp t))
      then int_to_long (Int (a / fine_per_cell cfg mp t)) mod 2 ^ 32 else max_msg_cells (size_limits cfg))) (fun _ => True) (stops b t)) (stops b t)) as Hm.
  { intros m Hm. eapply acts_mono; [exact Hm|done..]. }
  apply Hm. destruct (_ && _ && _); [|done]. destruct (negb _); [by apply skip_invalid_stops|].
  apply acts_bind, acts_must. intros v _. apply acts_bind, acts_must. intros n _. destruct (Z.testbit mode 6); [|done].
  apply acts_bind, acts_must. intros fees _. destruct (_ <? 0); [by apply skip_invalid_stops|done].
Qed.

(** A message that was made: its value and its fees have left the balance. *)
Record sent (t : Transaction) (ap : ActionPhase) (s : Sent) : Prop := mkSentOk {
  se_frame : act_frame t (s_tx s);
  se_ap : exists r, s_ap s = ap <| remaining_balance := r |> /\ cc_is_valid r = true /\
    (gen_validate_Message (s_msg s) = true ->
      exportable version (s_msg s) /\
      forall k, amount k r + exported_amount version k (s_msg s) + only_grams k (s_collected s)
                = amount k (remaining_balance ap))
}.

(** The value of a message that was packed. *)
Lemma packed_export info cs init body cb c v ff g e fwd ihr :
  csr_pack_int_relaxed info = Some cs -> pack_MessageRelaxed (mkMessage cs init body) = Some cb ->
  finalize cb = Some c -> gen_validate_Message c = true ->
  value info = v -> fwd_fee info = ff -> cc_pack (mkCC (Some g) e) = Some v -> pack_integer t_Grams (Some fwd) = Some ff ->
  (version < 12 -> pack_integer t_Grams (Some ihr) = Some (extra_flags info)) -> (12 <= version -> ihr = 0) ->
  exportable version c /\
  forall k, exported_amount version k c = amount k (mkCC (Some g) e) + only_grams k (ihr + fwd).
Proof.
  intros Hcs Hcb Hc Hval Hv Hff Epv Epf Epi Hihr. subst v ff.
  destruct (int_msg_roundtrip _ _ _ _ _ _ Hcs Hcb Hc Hval) as (Htag & info' & rest & Hu & Sv & Sef & Sff).
  assert (exists v', msg_export_value version c = Some v' /\
    forall k, amount k v' = amount k (mkCC (Some g) e) + only_grams k (ihr + fwd)) as (v' & Ev & Ha).
  { unfold msg_export_value. rewrite Htag, Hu. cbn [mbind option_bind].
    apply cc_pack_spec in Epv as (g' & Eg & Hg & Hsl%Sv). cbn [grams extra] in *. injection Eg as <-.
    rewrite (unpack_spec _ _ _ Hg Hsl). cbn [mbind option_bind].
    assert (get_ihr_fee info' version = Some ihr) as ->.
    { unfold get_ihr_fee. destruct (Z.leb_spec 12 version); [by rewrite Hihr|].
      apply pack_integer_spec in Epi as (x & Ex & Hx & Hsl'%Sef); [|done..]. injection Ex as <-.
      by apply as_integer_spec. }
    cbn [mbind option_bind].
    apply pack_integer_spec in Epf as (x & Ex & Hx & Hsl'%Sff); [|done]. injection Ex as <-.
    rewrite (as_integer_spec t_Grams fwd) by done. cbn [mbind option_bind]. eexists. split; [done|].
    intros k. cbn [cc_add_grams grams extra]. destruct k; cbn; lia. }
  split; [by eexists|]. intros k. unfold exported_amount. by rewrite Ev, Ha.
Qed.

Lemma requested_go mode info ap t code ap' t' : requested cfg mode info ap t <> stop code ap' t'.
Proof.
  unfold requested. destruct (unpack_CurrencyCollection _) as [req|]; cbn [must mbind act_bind]; [|done]. destruct (Z.testbit mode 7); [done|].
  destruct (Z.testbit mode 6); [|done]. destruct (extra_currency_v2 cfg).
  - destruct (grams req); cbn [must mbind act_bind]; [|done]. destruct (grams (msg_balance_remaining t)); cbn [must mbind act_bind]; [|done]. by destruct (Z.testbit mode 0).
  - cbn [mbind act_bind]. by destruct (Z.testbit mode 0).
Qed.

Lemma send_internal_sent b mp mode redoing msg om (fail : forall A : Set, Z -> act A) ap t :
  ap_inv b ap -> ihr_off om -> om_ext om = false ->
  (forall (A : Set) code (Q : A -> Prop), acts (fail A code) Q (stops b t)) ->
  acts (send_internal cfg mp mode redoing msg om fail ap t) (sent t ap) (stops b t).
Proof.
  intros Hi Hom Hext Hfail. unfold send_internal. destruct (negb _); [by apply Hfail|]. cbv zeta.
  set (ihr := if ihr_disabled _ then 0 else _). set (fwd := om_fwd_fee om).
  assert (12 <= version -> ihr = 0) as Hihr. { intros Hv. subst ihr. by rewrite (Hom Hext Hv). }
  clearbody ihr. apply acts_bind. destruct (requested cfg mode (om_info om) ap t) as [o|code ap' t'|] eqn:Ereq; [| |done].
  2: { by apply requested_go in Ereq. }
  clear Ereq. apply acts_go. destruct o as [req|]; [|by apply Hfail].
  apply acts_bind, acts_must. intros g Hg. apply acts_bind, acts_must. intros avail Hav.
  set (pays := Z.testbit mode 0 && _). set (brutto := if pays then _ else _).
  destruct (negb pays && _) eqn:Ep; [by apply Hfail|]. destruct (Z.ltb_spec avail brutto) as [|Hle]; [by apply Hfail|].
  set (req' := if pays then req else _).
  assert (exists g', req' = mkCC (Some g') (extra req) /\ g' + (fwd + ihr) = brutto) as (g' & -> & Hg').
  { subst req' brutto. destruct pays; [exists g|exists (g - (fwd + ihr))]; (split; [|lia]).
    - destruct req; cbn in *. by subst.
    - done. }
  clearbody brutto. clear pays Ep.
  destruct (_ && _); [apply skip_invalid_stops; [done|apply act_frame_refl]|]. cbn [extra].
  destruct (sub_extra_currency _ _) as [ne|] eqn:Ene; [|by apply Hfail].
  apply acts_bind, acts_must. intros v Ev. apply acts_bind, acts_must. intros ff Eff. apply acts_bind.
  set (efm := if version <? 12 then _ else _).
  assert (acts efm (fun ef => version < 12 -> pack_integer t_Grams (Some ihr) = Some ef) (stops b t)) as Hef.
  { subst efm. destruct (Z.ltb_spec version 12); [apply acts_must; auto|]. cbn. lia. }
  destruct efm as [ef| |]; [|done..]. apply acts_go. cbn [acts] in Hef.
  apply acts_bind, acts_must. intros packed Epk.
  destruct (pack_MessageRelaxed _) as [cb|] eqn:Ecb.
  2: { destruct (redoing =? 2); [by apply Hfail|by apply stop_stops]. }
  apply acts_bind, acts_must. intros c Ec. apply acts_bind, acts_check. intros Hval. apply acts_go.
  split; cbn [s_tx s_ap s_msg s_collected].
  - destruct (_ || _); [|apply act_frame_refl]. destruct (extra_currency_v2 cfg); split; rsimp; done.
  - eexists. split; [done|]. split; [done|]. intros Hgen.
    destruct (packed_export _ _ _ _ _ _ v ff g' (extra req) (fwd - get_first_part mp fwd) ihr Epk Ecb Ec Hgen) as [Hexp Ha];
      rsimp; try done.
    split; [done|]. intros k. rewrite Ha. unfold cc_sub_grams. rewrite Hav.
    destruct (Z.leb_spec 0 (avail - brutto)); [|lia]. destruct k as [id|]; cbn [amount grams extra only_grams].
    + rewrite (sub_extra_amount _ _ _ id Ene). lia.
    + rewrite Hav. cbn. lia.
Qed.

Lemma send_external_sent b redoing msg om (fail : forall A : Set, Z -> act A) ap t :
  ap_inv b ap -> (forall (A : Set) code (Q : A -> Prop), acts (fail A code) Q (stops b t)) ->
  acts (send_external cfg redoing msg om fail ap t) (sent t ap) (stops b t).
Proof.
  intros Hi Hfail. unfold send_external. cbv zeta. apply acts_bind, acts_must. intros avail Hav.
  destruct (Z.ltb_spec avail (om_fwd_fee om)) as [|Hle]; [by apply Hfail|].
  apply acts_bind, acts_must. intros packed Epk. destruct (pack_MessageRelaxed _) as [cb|] eqn:Ecb.
  2: { destruct (redoing =? 2); [by apply Hfail|by apply stop_stops]. }
  apply acts_bind, acts_must. intros c Ec. apply acts_bind, acts_check. intros Hval. apply acts_go.
  split; cbn [s_tx s_ap s_msg s_collected]; [apply act_frame_refl|]. eexists. split; [done|]. split; [done|]. intros _.
  assert (msg_export_value version c = Some cc_zero) as Ex.
  { unfold msg_export_value. by rewrite (ext_out_tag _ _ _ _ _ _ Epk Ecb Ec). }
  split; [by eexists|]. intros k. unfold exported_amount. rewrite Ex, amount_zero, amount_sub_grams by done. lia.
Qed.

Lemma finish_send_inv b mode fine mc st s ap t : ap_inv b ap -> sent t ap s ->
  acts (finish_send cfg mode fine mc st s) (fun r => ap_inv b (fst r) /\ act_frame t (snd r)) (stops b t).
Proof.
  intros Hi [Hf (r & Hap & Hr & Hs)]. unfold finish_send. cbv zeta. destruct (negb _) eqn:Ev.
  { apply acts_bind, acts_must. intros ap' _. by split. }
  apply negb_false_iff, andb_true_iff in Ev as [_ Hgen]. destruct (Hs Hgen) as [Hexp Ha]. clear Hs.
  set (ap1 := (s_ap s) <| msgs_created := _ |> <| ap_end_lt := _ |> <| ap_out_msgs := _ |> <| total_action_fees := _ |> <| total_fwd_fees := _ |>).
  assert (ap_inv b ap1) as Hi1.
  { destruct Hi as [Hrem Hres Hex Hfine Hamt]. subst ap1. rewrite Hap. split; rsimp; try done.
    - apply Forall_app. split; [done|]. by constructor.
    - intros k. rewrite <- (Hamt k). unfold ap_amount. rsimp. specialize (Ha k). rewrite exported_app, !only_grams_add. cbn. lia. }
  clearbody ap1. apply acts_bind.
  match goal with |- acts ?m _ _ => assert (acts m (ap_inv b) (stops b t)) as Hm end.
  { destruct (_ && _); [|done]. destruct (extra_currency_v2 cfg); apply acts_bind, acts_check; intros _; apply acts_go.
    all: eapply ap_inv_same; [exact Hi1|..]; rsimp; done. }
  eapply acts_mono; [exact Hm|cbv beta|done]. intros ap2 Hi2. apply acts_go. cbn [fst snd]. split; [|done].
  eapply ap_inv_same; [exact Hi2|..]; rsimp; done.
Qed.

Lemma send_inv b cs redoing ap t : ap_inv b ap ->
  acts (try_action_send_msg cfg cs redoing ap t) (fun r => ap_inv b (fst r) /\ act_frame t (snd r)) (stops b t).
Proof.
  intros Hi0. unfold try_action_send_msg. destruct (unpack_action_send_msg cs) as [rec|]; [|by apply stop_stops]. cbv zeta.
  set (bounces := Z.testbit _ 4 && _). set (ap1 := if bounces then ap <| need_bounce_on_fail := true |> else ap).
  assert (ap_inv b ap1) as Hi. { subst ap1. destruct bounces; [|done]. eapply ap_inv_same; [exact Hi0|..]; rsimp; done. }
  clearbody ap1. set (mode := if bounces then Z.land _ _ else _). clearbody mode. clear bounces.
  pose proof (act_frame_refl t) as Hf.
  match goal with |- context [if negb (Z.land _ _ =? 0) || _ then ?m else _] =>
    assert (acts m (fun r => ap_inv b (fst r) /\ act_frame t (snd r)) (stops b t)) as Hinv end.
  { destruct (13 <=? _); [by apply skip_invalid_stops|by apply stop_stops]. }
  destruct (_ || _); [exact Hinv|]. destruct (unpack_MessageRelaxed _) as [msg|]; [|by apply stop_stops].
  destruct (negb _); [exact Hinv|]. apply acts_bind, acts_must. intros [msg' redoing'] _.
  apply acts_bind. eapply acts_mono; [by apply suggested_stops|cbv beta|done]. intros om Hom.
  apply acts_bind. eapply acts_mono; [by apply address_stops|cbv beta|done]. intros [om' to_mc] Hom'. cbn [fst] in Hom'.
  unfold send_measured. apply acts_bind. eapply acts_mono; [by apply affordable_stops|cbv beta|done]. intros mc _.
  destruct (measure_message cfg mc msg' om') as [st depth].
  destruct (_ && _); [by apply fined_stops|]. destruct (_ || _); [by apply fined_stops|].
  destruct (_ <? depth); [by apply fined_stops|]. destruct (if is_special _ then _ else _) as [fwd_c ihr_c].
  apply acts_bind. eapply acts_mono; [|intros s Hs; by eapply finish_send_inv|done].
  set (om2 := om' <| om_fwd_fee := _ |> <| om_ihr_fee := _ |>).
  assert (ihr_off om2) as Hom2. { subst om2. intros He Hv. rsimp. by apply Hom'. }
  clearbody om2. destruct (om_ext om2) eqn:Eext.
  - apply send_external_sent; [done|]. intros A code Q. by apply fined_stops.
  - apply send_internal_sent; try done. intros A code Q. by apply fined_stops.
Qed.

Lemma retries_inv b cs ap t : ap_inv b ap ->
  acts (send_with_retries cfg cs ap t) (fun r => ap_inv b (fst r) /\ act_frame t (snd r)) (stops b t).
Proof.
  intros Hi. unfold send_with_retries.
  set (Q := fun r : ActionPhase * Transaction => ap_inv b (fst r) /\ act_frame t (snd r)).
  assert (forall m redoing, acts m Q (stops b t) -> acts (retry_send cfg cs redoing m) Q (stops b t)) as Hr.
  { intros m redoing Hm. unfold retry_send. destruct m as [|code ap' t'|]; [done| |done].
    destruct (Z.eqb_spec code (-2)) as [->|]; [|done]. destruct Hm as [Hf Hi']. specialize (Hi' ltac:(lia)).
    eapply acts_mono; [by apply send_inv|..].
    - intros r [? ?]. split; [done|]. by eapply act_frame_trans.
    - intros c ap2 t2 [? ?]. split; [|done]. by eapply act_frame_trans. }
  apply Hr, Hr. by apply send_inv.
Qed.

(** ** Other actions *)

Lemma set_code_inv b cs ap t : ap_inv b ap ->
  acts (try_action_set_code cs ap t) (fun r => ap_inv b (fst r) /\ act_frame t (snd r)) (stops b t).
Proof.
  intros Hi. unfold try_action_set_code. destruct (unpack_action_set_code cs); [|by apply stop_stops].
  split; [|apply act_frame_refl]. eapply ap_inv_same; [exact Hi|..]; cbn [fst]; rsimp; done.
Qed.

Lemma reserve_inv b cs ap t : ap_inv b ap ->
  acts (try_action_reserve_currency cfg cs ap t) (fun r => ap_inv b (fst r) /\ act_frame t (snd r)) (stops b t).
Proof.
  intros Hi0. unfold try_action_reserve_currency. destruct (unpack_action_reserve cs) as [rec|]; [|by apply stop_stops]. cbv zeta.
  set (bounces := Z.testbit _ 4 && _). set (ap1 := if bounces then ap <| need_bounce_on_fail := true |> else ap).
  assert (ap_inv b ap1) as Hi. { subst ap1. destruct bounces; [|done]. eapply ap_inv_same; [exact Hi0|..]; rsimp; done. }
  clearbody ap1. set (mode := if bounces then Z.land _ _ else _). clearbody mode. clear bounces.
  destruct (negb _); [by apply stop_stops|]. destruct (cc_validate_unpack _) as [r0|]; [|by apply stop_stops].
  destruct (_ && _); [by apply stop_stops|]. apply acts_bind.
  assert (acts (reserve_base cfg mode r0 t) (fun _ => True) (stops b t)) as Hb.
  { unfold reserve_base. destruct (Z.testbit mode 2); [|done]. destruct (extra_currency_v2 cfg); [|done].
    apply acts_bind, acts_must. intros ? _. apply acts_bind, acts_must. done. }
  eapply acts_mono; [exact Hb|cbv beta|done]. intros r1 _. clear Hb r0.
  destruct (_ ← r1; _) as [r2|]; [|by apply stop_stops].
  destruct (reserve_clamp cfg mode r2 _) as [res|]; [|by apply stop_stops].
  apply acts_bind, acts_must. intros r Hr. apply acts_bind, acts_must. intros g Hg.
  destruct (Z.ltb_spec g r); [by apply stop_stops|].
  destruct (sub_extra_currency _ _) as [ne|] eqn:Ene; [|by apply stop_stops].
  destruct (if Z.testbit mode 0 then _ else _) as [newc res'] eqn:Esw.
  assert (cc_is_valid newc = true /\ cc_is_valid res' = true /\
    forall k, amount k newc + amount k res' = amount k (remaining_balance ap1)) as (Hn & Hres' & Ha).
  { assert (forall k, amount k (mkCC (Some (g - r)) ne) + amount k res = amount k (remaining_balance ap1)) as Ha.
    { intros [id|]; cbn [amount extra grams]; [rewrite (sub_extra_amount _ _ _ id Ene)|rewrite Hr, Hg; cbn]; lia. }
    assert (cc_is_valid res = true) by (apply valid_grams; eauto).
    destruct (Z.testbit mode 0); [destruct (extra_currency_v2 cfg)|]; apply pair_equal_spec in Esw as [<- <-]; split_and!; try done.
    - intros k. rewrite <- (Ha k). destruct k; cbn; [done|]. rewrite Hr. cbn. lia.
    - intros k. rewrite <- (Ha k). lia. }
  apply acts_bind, acts_check. intros Hval. apply acts_go. split; cbn [fst snd]; [|apply act_frame_refl].
  destruct Hi as [Hrem Hres Hex Hfine Hamt]. split; rsimp; try done.
  intros k. rewrite <- (Hamt k). unfold ap_amount. rsimp. rewrite amount_add by done. specialize (Ha k). lia.
Qed.

Lemma library_inv b cs ap t code ap' t' : ap_inv b ap -> try_action_change_library cfg cs ap t = Some (code, ap', t') ->
  ap_inv b ap' /\ act_frame t t'.
Proof.
  intros Hi E. unfold try_action_change_library in E. pose proof (act_frame_refl t) as Hf.
  destruct (unpack_action_library cs) as [rec|].
  2: { by osome E. }
  destruct (_ && _). { osome E. done. }
  set (ap1 := if Z.testbit (lb_mode rec) 4 then ap <| need_bounce_on_fail := true |> else ap) in E.
  assert (ap_inv b ap1) as Hi1. { subst ap1. destruct (Z.testbit _ 4); [|done]. eapply ap_inv_same; [exact Hi|..]; rsimp; done. }
  clearbody ap1. set (mode := if Z.testbit _ 4 then _ else _) in E. clearbody mode.
  destruct (2 <? mode). { by osome E. }
  apply bind_Some in E as (hash & _ & E).
  assert (ap_inv b (ap1 <| spec_actions := spec_actions ap1 + 1 |>)) as Hi2.
  { eapply ap_inv_same; [exact Hi1|..]; rsimp; done. }
  destruct (update_library _ _ _ _ _ _) as [[c|[root|]] s|[] s|]; try done; osome E; done.
Qed.

(** ** The phase *)

Lemma run_action_inv b cs ap t : ap_inv b ap ->
  acts (run_action cfg cs ap t) (fun r => ap_inv b (fst r) /\ act_frame t (snd r)) (stops b t).
Proof.
  intros Hi. unfold run_action. apply acts_bind, acts_must. intros tag _. destruct tag.
  - by apply retries_inv.
  - by apply set_code_inv.
  - by apply reserve_inv.
  - apply acts_bind, acts_must. intros [[code ap'] t'] E. destruct (library_inv _ _ _ _ _ _ _ Hi E).
    by destruct (code =? 0).
Qed.

Lemma run_actions_inv b l i ap t : ap_inv b ap ->
  acts (run_actions cfg l i ap t) (fun r => ap_inv b (fst r) /\ act_frame t (snd r)) (fun _ _ t' => act_frame t t').
Proof.
  revert i ap t. induction l as [|[c|] l IH]; intros i ap t Hi; cbn [run_actions].
  - split; [done|apply act_frame_refl].
  - set (ap1 := ap <| result_arg := i |> <| need_bounce_on_fail := false |>).
    assert (ap_inv b ap1) as Hi1. { eapply ap_inv_same; [exact Hi|..]; subst ap1; rsimp; done. }
    clearbody ap1. apply acts_bind, acts_must. intros cs _. apply acts_bind, acts_must. intros [r cs'] _.
    pose proof (run_action_inv b cs' ap1 t Hi1) as Ha.
    assert (forall ap' t', ap_inv b ap' -> act_frame t t' -> acts (run_actions cfg l (i + 1) ap' t')
      (fun r => ap_inv b (fst r) /\ act_frame t (snd r)) (fun _ _ t' => act_frame t t')) as Hrest.
    { intros ap' t' Hi' Hf. eapply acts_mono; [by apply IH|..].
      - intros r' [? ?]. split; [done|]. by eapply act_frame_trans.
      - intros code2 ap2 t2 ?. by eapply act_frame_trans. }
    destruct (run_action cfg cs' ap1 t) as [[ap' t']|code ap' t'|]; [| |done].
    + destruct Ha. by apply Hrest.
    + destruct Ha as [Hf Hi']. destruct (Z.eqb_spec code 0) as [->|]; [|done]. apply Hrest; [by apply Hi'|done].
  - by apply IH.
Qed.

Lemma preprocess_inv b l i ap ap' r : ap_inv b ap -> preprocess cfg l i ap = (ap', r) -> ap_inv b ap'.
Proof.
  revert i ap ap' r. induction l as [|c l IH]; intros i ap ap' r Hi E; cbn [preprocess] in E; [by opair E|].
  set (ap1 := ap <| result_arg := i |>) in E.
  assert (ap_inv b ap1) as Hi1. { eapply ap_inv_same; [exact Hi|..]; subst ap1; rsimp; done. }
  clearbody ap1. destruct (validate_OutListNode c).
  { destruct (preprocess cfg l (i + 1) ap1) eqn:E1. opair E. by eapply IH. }
  destruct (fetch_ulong 32 _) as [tag cs]. destruct (_ && Z.testbit _ 1).
  - destruct (preprocess cfg l (i + 1) _) eqn:E1. opair E. eapply IH; [|exact E1].
    eapply ap_inv_same; [exact Hi1|..]; rsimp; done.
  - opair E. eapply ap_inv_same; [exact Hi1|..]; destruct (_ && _); rsimp; done.
Qed.

Lemma enforce_limits_frame old ap t ok ap' t' : enforce_state_limits cfg old ap t = Some (ok, ap', t') ->
  act_frame t t' /\ msg_balance_remaining t' = msg_balance_remaining t /\
  action_fine ap' = action_fine ap /\ (ok = true -> ap' = ap).
Proof.
  unfold enforce_state_limits. intros E. destruct (is_special _); [by osome E|].
  destruct (check_state_limits _ _ _); [by osome E| |done]. osome E. split_and!; try done; rsimp; done.
Qed.

Lemma act_frame_ok t t' : act_frame t t' -> tx_ok version t -> conserves version t t'.
Proof.
  intros [Hb Hf Hbu Ho Hfl] []. split_and!; [|intros k|done|done].
  - split; rewrite ?Hb, ?Hf, ?Ho, ?Hfl, ?Hbu; done.
  - unfold holdings. by rewrite Hb, Hf, Hbu, Ho.
Qed.

Lemma take_fine_flow ap t ap' t' : take_fine ap t = Some (ap', t') -> tx_ok version t -> conserves version t t'.
Proof.
  unfold take_fine. intros E Hok. apply bind_Some in E as (g & Hg & E). osome E.
  eapply (move_fees_flow version t _ (Z.min (action_fine ap) g)); rsimp; try done.
  intros k. rewrite amount_set_grams, Hg, only_grams_sub. cbn [default from_option id]. unfold default, id. lia.
Qed.

Lemma restore_frame old t : act_frame t (restore_msg_balance cfg old t).
Proof. unfold restore_msg_balance. destruct (14 <=? _); [split; rsimp; done|apply act_frame_refl]. Qed.

Lemma action_failed_flow code old ap t ap' t' : action_failed cfg code old ap t = Some (ap', t') -> tx_ok version t ->
  conserves version t t'.
Proof.
  unfold action_failed. intros E Hok. apply bind_Some in E as ([[ok ap1] t1] & E1 & E).
  apply enforce_limits_frame in E1 as [F1 _]. pose proof (act_frame_trans _ _ _ F1 (restore_frame old t1)) as F2.
  apply bind_Some in E as ([ap2 t2] & E2 & E). osome E. pose proof (act_frame_ok _ _ F2 Hok) as Hc.
  destruct (action_fine_enabled cfg); [|by osome E2].
  eapply conserves_trans; [exact Hc|]. eapply take_fine_flow; [exact E2|apply Hc].
Qed.

Lemma limits_failed_flow old ap t ap' t' : limits_failed cfg old ap t = Some (ap', t') -> tx_ok version t ->
  conserves version t t'.
Proof.
  unfold limits_failed. intros E Hok.
  pose proof (act_frame_ok _ _ (restore_frame old t) Hok) as Hc. set (t3 := restore_msg_balance cfg old t) in *. clearbody t3.
  destruct (extra_currency_v2 cfg); [|by osome E]. set (t4 := t3 <| end_lt := _ |>) in E.
  assert (conserves version t t4) as Hc4.
  { eapply conserves_trans; [exact Hc|]. destruct Hc as [[] _]. subst t4.
    split_and!; [split|intros k; unfold holdings| |]; rsimp; done. }
  destruct (action_fine_enabled cfg); [|by osome E]. apply take_fine_flow in E; [|apply Hc4]. by eapply conserves_trans.
Qed.

Lemma actions_succeed_flow ap t ap' t' :
  actions_succeed cfg ap t = Some (ap', t') -> tx_ok version t -> out_msgs t = [] ->
  Forall (exportable version) (ap_out_msgs ap) ->
  (forall k, amount k (remaining_balance ap) + amount k (reserved_balance ap) + exported version k (ap_out_msgs ap)
             + only_grams k (total_action_fees ap) = amount k (balance t)) ->
  tx_ok version t' /\ (forall k, holdings version k t' = holdings version k t) /\ blackhole_burned t' = blackhole_burned t.
Proof.
  unfold actions_succeed. intros E [V1 V2 V3 V4 V5] Ho Hex Ha.
  apply bind_Some in E as (g & _ & E). apply bind_Some in E as (r & _ & E). apply bind_Some in E as (? & _ & E).
  apply bind_Some in E as (? & Hval%fail_unless_Some & E). set (bal := cc_add_to _ _) in *.
  apply bind_Some in E as ([ap4 t4] & E4 & E). osome E.
  assert (ap_out_msgs ap4 = ap_out_msgs ap /\ total_action_fees ap4 = total_action_fees ap /\
    total_fees t4 = total_fees t /\ blackhole_burned t4 = blackhole_burned t /\ in_msg_extra_flags t4 = in_msg_extra_flags t)
    as (Eo & Ef & Et & Ebu & Efl).
  { rsimp. destruct (acc_delete_req ap); [apply bind_Some in E4 as (? & _ & E4)|]; osome E4; rsimp; done. }
  split_and!; [| |rsimp; exact Ebu].
  - split; rsimp; rewrite ?Eo, ?Et, ?Efl, ?Ebu; try done. by apply (amount_add_grams None).
  - intros k. unfold holdings. rsimp. rewrite Eo, Ef, Et, Ebu, Ho.
    destruct (amount_add_grams k (total_fees t) (total_action_fees ap) V2) as [-> _].
    subst bal. rewrite amount_add by done. specialize (Ha k). cbn. lia.
Qed.

Lemma actions_done_flow b old ap t ap' t' :
  actions_done cfg old ap t = Some (ap', t') -> tx_ok version t -> out_msgs t = [] -> ap_inv b ap ->
  (forall k, b k = amount k (balance t)) ->
  tx_ok version t' /\ (forall k, holdings version k t' = holdings version k t) /\ blackhole_burned t' = blackhole_burned t.
Proof.
  unfold actions_done. intros E Hok Ho Hi Hb. apply bind_Some in E as (cp & _ & E).
  set (ap1 := if action_fine_enabled cfg then _ else ap) in E.
  assert (forall k, amount k (remaining_balance ap1) + amount k (reserved_balance ap1) + exported version k (ap_out_msgs ap1)
    + only_grams k (total_action_fees ap1) = amount k (balance t)) as Ha.
  { intros k. destruct Hi. rewrite <- Hb, <- ai_amount0. unfold ap_amount, ap1. destruct (action_fine_enabled cfg); rsimp; [lia|].
    rewrite ai_fine0 by done. by rewrite Z.add_0_r. }
  assert (Forall (exportable version) (ap_out_msgs ap1)) as Hex.
  { unfold ap1. destruct Hi. destruct (action_fine_enabled cfg); rsimp; done. }
  clearbody ap1. set (t1 := t <| end_lt := _ |> <| new_code := _ |> <| new_data := _ |>) in E.
  assert (conserves version t t1 /\ balance t1 = balance t) as [Hc1 Hb1].
  { subst t1. destruct Hok. split_and!; [split_and!; [|intros k; unfold holdings| |]|]; rsimp; done. }
  clearbody t1. apply bind_Some in E as ([[ok ap2] t2] & E2 & E).
  apply enforce_limits_frame in E2 as (F2 & _ & _ & Hap2).
  assert (conserves version t t2) as Hc2. { eapply conserves_trans; [exact Hc1|by apply act_frame_ok; [|apply Hc1]]. }
  destruct Hc2 as (Hok2 & Hh & Ho2 & Bu2). destruct ok.
  - rewrite (Hap2 eq_refl) in *. apply actions_succeed_flow in E as (Hok' & Hh' & Bu'); [|done|congruence|done|].
    + split_and!; [done| |congruence]. intros k. by rewrite Hh', Hh.
    + intros k. rewrite Ha. by rewrite (fr_balance _ _ F2), Hb1.
  - apply limits_failed_flow in E; [|done]. destruct E as (Hok' & Hh' & _ & Bu'). split_and!; [done| |congruence]. intros k. by rewrite Hh', Hh.
Qed.

(** The action phase conserves every currency. *)
Lemma action_flow t t' : prepare_action_phase cfg t = Some t' -> tx_ok version t -> out_msgs t = [] ->
  tx_ok version t' /\ (forall k, holdings version k t' = holdings version k t) /\ blackhole_burned t' = blackhole_burned t.
Proof.
  unfold prepare_action_phase. intros E Hok Ho. apply bind_Some in E as (cp & _ & E).
  apply bind_Some in E as (? & _ & E). apply bind_Some in E as (actions & _ & E). cbv zeta in E.
  assert (forall t1 ap, tx_ok version t1 -> (forall k, holdings version k t1 = holdings version k t) ->
    blackhole_burned t1 = blackhole_burned t ->
    tx_ok version (t1 <| action_phase := ap |>) /\
    (forall k, holdings version k (t1 <| action_phase := ap |>) = holdings version k t) /\
    blackhole_burned (t1 <| action_phase := ap |>) = blackhole_burned t) as Hfin.
  { intros t1 ap [] Hh Hbu. split_and!; [split; rsimp; done| |rsimp; done]. intros k. rewrite <- Hh. unfold holdings. rsimp. done. }
  destruct (action_list _ _ actions) as [[code arg]|cells]. { osome E. by apply Hfin. }
  set (ap0 := (new_action_phase t) <| tot_actions := _ |>) in E.
  destruct (preprocess cfg (rev cells) 0 ap0) as [ap1 [l|]] eqn:Epre. 2: { osome E. by apply Hfin. }
  assert (ap_inv (fun k => amount k (balance t)) (ap1 <| ap_valid := true |>)) as Hi.
  { assert (ap_inv (fun k => amount k (balance t)) ap0) as Hi0.
    { destruct Hok. subst ap0. split; rsimp; try done. intros k. unfold ap_amount. rsimp.
      cbn. rewrite amount_zero, only_grams_0. lia. }
    eapply ap_inv_same; [eapply (preprocess_inv _ _ _ _ _ _ Hi0 Epre)|..]; rsimp; done. }
  pose proof (run_actions_inv _ l 0 _ t Hi) as Hrun.
  destruct (run_actions cfg l 0 _ t) as [[ap2 t2]|code ap2 t2|]; [| |done].
  - destruct Hrun as [Hi2 F2]. cbn [fst snd] in Hi2, F2. pose proof (act_frame_ok _ _ F2 Hok) as (Hok2 & Hh2 & Ho2 & Bu2).
    apply bind_Some in E as ([ap3 t3] & E3 & E). osome E. cbn [fst snd].
    apply (actions_done_flow (fun k => amount k (balance t))) in E3 as (Hok3 & Hh3 & Bu3); [|done|congruence|done|].
    + apply Hfin; [done| |congruence]. intros k. by rewrite Hh3, Hh2.
    + intros k. by rewrite (fr_balance _ _ F2).
  - pose proof (act_frame_ok _ _ Hrun Hok) as Hc2.
    apply bind_Some in E as ([ap3 t3] & E3 & E). osome E. cbn [fst snd].
    apply action_failed_flow in E3; [|apply Hc2]. pose proof (conserves_trans _ _ _ _ Hc2 E3) as (Hok3 & Hh3 & _ & Bu3).
    by apply Hfin.
Qed.
End actions.
