(* ===== verification/TxSpec.v ===== *)
(** * Conservation of currency in an ordinary transaction

    The bounce phase, and the whole of a transaction. *)
From coqutil Require Import Datatypes.RecordSetters.
From S2P Require Import Prelude BigInt Int256 Cells DataCell DictLabel Uint128 Fees Currency StorageStat TxTypes TxPhases TxLibrary TxActions TxActionPhase Tx TxFlow TxActionFlow.
Import TriangleBracketNotations.

(** ** What a builder holds after a store *)

Definition extended (cb : CellBuilder) (bits : list bool) (refs : list Cell) : CellBuilder :=
  mkBuilder (cb_bits cb ++ bits) (cb_refs cb ++ refs).
Lemma extended_extended cb b1 r1 b2 r2 : extended (extended cb b1 r1) b2 r2 = extended cb (b1 ++ b2) (r1 ++ r2).
Proof. unfold extended. cbn. by rewrite !app_assoc. Qed.

Lemma store_bits_inv bs cb cb' : store_bits_bool bs cb = Some cb' -> cb' = extended cb bs [].
Proof. unfold store_bits_bool, extended. destruct (_ <=? _)%nat; [|done]. intros [= <-]. by rewrite app_nil_r. Qed.
Lemma store_long_inv v n cb cb' : store_long_bool v n cb = Some cb' -> cb' = extended cb (Z_to_bits n v) [].
Proof. unfold store_long_bool. destruct (_ <? _)%nat; [done|]. apply store_bits_inv. Qed.
Lemma store_ref_inv c cb cb' : store_ref_bool (Some c) cb = Some cb' -> cb' = extended cb [] [c].
Proof. unfold store_ref_bool, extended. destruct (_ <? _)%nat; [|done]. intros [= <-]. by rewrite app_nil_r. Qed.
Lemma append_slice_inv cs cb cb' : append_cellslice_bool cs cb = Some cb' ->
  cb' = extended cb (slice_bits cs) (slice_refs cs).
Proof. unfold append_cellslice_bool, extended. destruct (can_extend_by _ _ _); [|done]. by intros [= <-]. Qed.
Lemma append_builder_inv b cb cb' : append_builder_bool b cb = Some cb' -> cb' = extended cb (cb_bits b) (cb_refs b).
Proof. unfold append_builder_bool, extended. destruct (can_extend_by _ _ _); [|done]. by intros [= <-]. Qed.
Lemma store_integer_inv n x cb cb' : 2 <= n -> store_integer_value n x cb = Some cb' ->
  var_fits n x /\ cb' = extended cb (var_bits n x) [].
Proof.
  intros Hn E. pose proof (store_integer_fits n x cb cb' Hn E) as Hx. split; [done|].
  destruct (var_bytes_spec x ltac:(apply Hx)) as (_ & _ & _ & Hland). unfold store_integer_value in E.
  destruct (_ <=? _); [|done]. apply bind_Some in E as (cb1 & ->%store_long_inv & E).
  rewrite Hland in E. unfold store_int256_bool in E. destruct (_ && _); [|done]. injection E as <-.
  unfold extended, var_bits, var_bytes. cbn. by rewrite <- app_assoc, !app_nil_r.
Qed.
Lemma store_currency_inv c cb cb' : store_CurrencyCollection c cb = Some cb' ->
  exists g, grams c = Some g /\ var_fits t_Grams g /\ cb' = extended cb (cc_bits g (extra c)) (cc_refs (extra c)).
Proof.
  unfold store_CurrencyCollection, store_integer_ref. destruct c as [[g|] e]; [|done]. cbn [grams extra mbind option_bind].
  intros E. apply bind_Some in E as (cb1 & [Hg ->]%store_integer_inv & E); [|done]. exists g. split_and!; [done..|].
  destruct e as [e|].
  - apply bind_Some in E as (cb2 & ->%store_long_inv & ->%store_ref_inv). rewrite !extended_extended.
    by rewrite app_nil_r.
  - apply store_long_inv in E as ->. by rewrite extended_extended.
Qed.

(** ** Addresses *)

Section spec.
Context `{ShaI : Sha256} `{DictI : ExtraDict} `{LawsE : !ExtraLaws} `{TlbI : BlockTlb} `{LawsT : !TlbLaws} `{EnvI : TransactionEnv}.
Context (cfg : ActionPhaseConfig).
Notation version := (global_version cfg).

Lemma rewrite_dest_valid d any t d' mc : check_rewrite_dest_addr d cfg any t = Some (d', mc) ->
  validate_MsgAddressInt d = true -> validate_MsgAddressInt d' = true.
Proof.
  unfold check_rewrite_dest_addr. intros E Hd. destruct (_ =? 0); [by osome E|].
  apply bind_Some in E as ([rec repack] & _ & E). apply bind_Some in E as (? & _ & E).
  apply bind_Some in E as ([any' rewritten] & _ & E). destruct (negb _); [by osome E|].
  apply bind_Some in E as (dest & _ & E). apply bind_Some in E as (? & Hv%fail_unless_Some & E). by osome E.
Qed.

(** ** The bounce phase *)

Lemma bounced_message_layout src dest v flags fwd lt at_ body c :
  bounced_message src dest v flags fwd lt at_ body = Some c ->
  exists g bits refs, grams v = Some g /\ var_fits t_Grams g /\ var_fits t_Grams (Z.land flags 3) /\
    var_fits t_Grams (wrap_s 64 fwd) /\
    slice_is (slice_of_cell c)
      (int_msg_bits [true; false; true] src dest g (extra v) (Z.land flags 3) (wrap_s 64 fwd) lt at_ ++ bits)
      (slice_refs src ++ slice_refs dest ++ cc_refs (extra v) ++ refs).
Proof.
  unfold bounced_message. intros E.
  apply bind_Some in E as (? & ->%store_long_inv & E). apply bind_Some in E as (? & ->%append_slice_inv & E).
  apply bind_Some in E as (? & ->%append_slice_inv & E).
  apply bind_Some in E as (? & (g & Hg & Hfit & ->)%store_currency_inv & E).
  apply bind_Some in E as (? & [Hfl ->]%store_integer_inv & E); [|done].
  apply bind_Some in E as (? & [Hfw ->]%store_integer_inv & E); [|done].
  apply bind_Some in E as (? & ->%store_long_inv & E). apply bind_Some in E as (? & ->%store_long_inv & E).
  apply bind_Some in E as (cb0 & E0%store_long_inv & E). apply bind_Some in E as (cb1 & E1 & E).
  assert (exists bits refs, cb1 = extended cb0 bits refs) as (bits & refs & ->).
  { destruct (can_extend_by _ _ cb0).
    - apply bind_Some in E1 as (? & ->%store_long_inv & ->%append_builder_inv). rewrite extended_extended. eauto.
    - apply bind_Some in E1 as (? & ->%store_long_inv & E1). apply bind_Some in E1 as (? & _ & ->%store_ref_inv).
      rewrite extended_extended. eauto. }
  subst cb0. rewrite !extended_extended in E. clear E1. exists g, (Z_to_bits 1 0 ++ bits), refs. split_and!; [done..|].
  unfold finalize, create in E. destruct (cell_info _); [|done]. osome E.
  unfold extended, empty_builder. cbn [cb_bits cb_refs].
  match goal with |- slice_is (slice_of_cell (DataCell _ ?b ?r)) ?b' ?r' =>
    pose proof (slice_of_cell_is (DataCell false b r)) as Hs; replace b' with b; [replace r' with r; [exact Hs|]|] end.
  - cbn [app]. by rewrite ?app_nil_r, <- ?app_assoc.
  - unfold int_msg_bits. change (Z_to_bits 4 5) with ([false] ++ [true; false; true]).
    rewrite <- !app_assoc. cbn [app]. by rewrite <- !app_assoc.
Qed.

Lemma wrap_word x : word_ok x -> 0 <= wrap_s 64 x -> wrap_s 64 x = x.
Proof.
  unfold word_ok. intros Hx H0. destruct (Z.lt_ge_cases x (2 ^ 63)); [apply wrap_s_small; cbn; lia|].
  destruct (wrap_s_congr 64 x ltac:(lia)) as [k Hk]. pose proof (wrap_s_range 64 x ltac:(lia)). cbn in *. lia.
Qed.

(** The value that a bounced message exports. *)
Lemma bounced_export src dest v flags fwd lt at_ body c :
  bounced_message src dest v flags fwd lt at_ body = Some c -> word_ok fwd ->
  validate_MsgAddressInt src = true -> validate_MsgAddressInt dest = true -> (version < 12 -> flags = 0) ->
  cc_is_valid v = true /\ exportable version c /\
  forall k, exported_amount version k c = amount k v + only_grams k fwd.
Proof.
  intros E Hfwd Hs Hd Hfl. apply bounced_message_layout in E as (g & bits & refs & Hg & Vg & Vf & Vw & Hsl).
  destruct (int_msg_layout _ [true; false; true] src dest g (extra v) _ _ _ _ _ _ eq_refl Hs Hd Vg Vf Vw Hsl)
    as (Htag & info & rest & Hu & Sv & Sef & Sff).
  rewrite wrap_word in * by (done || apply Vw).
  assert (exists w, msg_export_value version c = Some w /\ forall k, amount k w = amount k v + only_grams k fwd)
    as (w & Ew & Ha).
  { unfold msg_export_value. rewrite Htag, Hu. cbn [mbind option_bind]. rewrite (unpack_spec _ _ _ Vg Sv). cbn [mbind option_bind].
    assert (get_ihr_fee info version = Some 0) as ->.
    { unfold get_ihr_fee. destruct (Z.leb_spec 12 version); [done|]. rewrite Hfl in * by lia. by apply as_integer_spec. }
    cbn [mbind option_bind]. rewrite (as_integer_spec t_Grams fwd) by done. cbn [mbind option_bind]. eexists. split; [done|].
    intros [id|]; cbn; rewrite ?Hg; cbn; lia. }
  split_and!; [apply valid_grams; eauto|by eexists|]. intros k. unfold exported_amount. by rewrite Ew, Ha.
Qed.

Hypothesis prices : msg_prices_ok (fwd_std cfg) /\ msg_prices_ok (fwd_mc cfg).
Lemma fetched_prices_ok mc : msg_prices_ok (fetch_msg_prices cfg mc).
Proof. destruct prices. by destruct mc. Qed.

(** The bounce phase conserves every currency. *)
Lemma bounce_flow t t' : prepare_bounce_phase cfg t = Some t' -> tx_ok version t ->
  tx_ok version t' /\ forall k, holdings version k t' = holdings version k t.
Proof.
  unfold prepare_bounce_phase. intros E Hok. apply bind_Some in E as (msg & _ & E). apply bind_Some in E as (? & _ & E).
  apply bind_Some in E as (cs & _ & E). apply bind_Some in E as ([info cs1] & Hinfo & E).
  apply bind_Some in E as (cs2 & _ & E). apply bind_Some in E as (? & _ & E). destruct (fetch_ulong 1 cs2) as [bb cs3].
  apply bind_Some in E as (cs4 & _ & E). apply bind_Some in E as (body & _ & E).
  apply bind_Some in E as ([new_dest to_mc] & Hdest & E). cbv zeta in E.
  set (mp := fetch_msg_prices cfg _) in E. set (fwd := compute_fwd_fees mp _ _) in E.
  assert (word_ok fwd) as Hfwd by apply compute_fwd_fees_word.
  apply bind_Some in E as (m & Hm & E). set (g := match action_phase t with Some ap => _ | None => _ end) in E. clearbody g.
  destruct (int_msg_addresses _ _ _ Hinfo) as [Vsrc Vdest].
  pose proof (rewrite_dest_valid _ _ _ _ _ Hdest Vsrc) as Vnew. clearbody fwd. destruct ((g <? 0) || _).
  { osome E. destruct Hok. split; [split; rsimp; done|]. intros k. unfold holdings. rsimp. done. }
  apply bind_Some in E as (? & Hbal%fail_unless_Some & E). apply bind_Some in E as (out & Hout & E). osome E.
  pose proof (fetched_prices_ok (to_mc || is_masterchain (account t))) as Hmp. fold mp in Hmp.
  rewrite first_part_u64 in * by done. pose proof (first_part_bound mp fwd Hmp ltac:(apply Hfwd)) as Hpart.
  set (mine := get_first_part mp fwd) in *. assert (u64 (fwd - mine) = fwd - mine) as Hrem.
  { apply wrap_u_small. unfold word_ok in Hfwd. lia. }
  rewrite Hrem in *. destruct Hok as [V1 V2 V3 V4 V5].
  destruct (bounced_export _ _ _ _ _ _ _ _ _ Hout) as (Hval & Hexp & Ha); [unfold word_ok in *; lia|done..|].
  split.
  - split; rsimp; try done; [by apply (amount_add_grams None)|]. apply Forall_app. split; [done|]. by constructor.
  - intros k. unfold holdings. rsimp. rewrite exported_app. cbn [exported]. rewrite Ha, amount_sub, amount_sub_grams by done.
    destruct (amount_add_grams k (total_fees t) mine V2) as [-> _]. rewrite only_grams_sub. lia.
Qed.

(** ** The transaction *)

Hypothesis versioned : versioned_action_cfg cfg.

Lemma new_transaction_ok acc ttype lt utime msg : cc_is_valid (acc_balance acc) = true ->
  tx_ok version (new_transaction acc ttype lt utime msg) /\
  forall k, holdings version k (new_transaction acc ttype lt utime msg) = amount k (acc_balance acc).
Proof.
  intros Hv. split; [split; try done; cbn; constructor|]. intros k. unfold holdings. cbn. rewrite !amount_zero. lia.
Qed.

(** Storage and credit, in either order *)
Lemma storage_credit_flow scfg (external : bool) t t' :
  (if bounce_enabled t
   then t1 ← prepare_storage_phase scfg true false t; (if external then Some t1 else prepare_credit_phase t1)
   else t1 ← (if external then Some t else prepare_credit_phase t); prepare_storage_phase scfg true true t1) = Some t' ->
  tx_ok version t -> (external = true -> forall k, amount k (msg_balance_remaining t) = 0) ->
  tx_ok version t' /\ out_msgs t' = out_msgs t /\
  forall k, holdings version k t' = holdings version k t + amount k (msg_balance_remaining t).
Proof.
  intros E Hok Hext.
  assert (forall t1 t2, (if external then Some t1 else prepare_credit_phase t1) = Some t2 -> tx_ok version t1 ->
    msg_balance_remaining t1 = msg_balance_remaining t -> tx_ok version t2 /\ out_msgs t2 = out_msgs t1 /\
    forall k, holdings version k t2 = holdings version k t1 + amount k (msg_balance_remaining t)) as Hcredit.
  { intros t1 t2 E1 Hok1 Hm. destruct external.
    - osome E1. split_and!; try done. intros k. rewrite Hext by done. lia.
    - apply credit_flow with (version := version) in E1 as (? & Hh & ?); [|done]. split_and!; try done. intros k. by rewrite Hh, Hm. }
  destruct (bounce_enabled t); apply bind_Some in E as (t1 & E1 & E).
  - apply storage_flow with (version := version) in E1 as [(Hok1 & Hh1 & Ho1 & _) Hm]; [|done].
    apply Hcredit in E as (? & Ho & Hh); [|done|by apply Hm]. split_and!; [done|congruence|]. intros k. by rewrite Hh, Hh1.
  - apply Hcredit in E1 as (Hok1 & Ho1 & Hh1); [|done|done].
    apply storage_flow with (version := version) in E as [(? & Hh & Ho & _) _]; [|done]. split_and!; [done|congruence|].
    intros k. by rewrite Hh, Hh1.
Qed.

Lemma ordinary_flow msg acc utime lt scfg ccfg external after_lt t imp :
  impl_create_ordinary_transaction msg acc utime lt scfg ccfg cfg external after_lt = inr t ->
  cc_is_valid (acc_balance acc) = true ->
  (external = true -> get_msg_tag (slice_of_cell msg) = tag_ext_in_msg) ->
  money_imported version msg = Some imp ->
  tx_ok version t /\
  forall k, amount k (acc_balance acc) + amount k imp =
            amount k (balance t) + exported version k (out_msgs t) + amount k (total_fees t) + amount k (blackhole_burned t).
Proof.
  unfold impl_create_ordinary_transaction. intros E Hacc Hext Himp. destruct (_ && (length _ =? 0)%nat); [done|].
  cbv zeta in E. set (t0 := new_transaction _ _ _ _ _) in E.
  destruct (new_transaction_ok acc tr_ord (u64 (Z.max lt after_lt + 1)) utime (Some msg) Hacc) as [Hok0 Hh0]. fold t0 in Hok0, Hh0.
  apply sum_bind_inr in E as (t1 & E1%unless_inr & E).
  eapply unpack_flow in E1 as (Hok1 & Hh1 & Ho1 & Hm1); [|done..].
  apply sum_bind_inr in E as (t2 & E2%unless_inr & E).
  apply storage_credit_flow in E2 as (Hok2 & Ho2 & Hh2); [|done|auto].
  apply sum_bind_inr in E as (t3 & E3%unless_inr & E).
  apply compute_flow with (version := version) in E3 as (Hok3 & Hh3 & Ho3 & _); [|done].
  apply sum_bind_inr in E as (cp & _ & E). destruct (_ && external); [done|]. destruct (_ && bool_decide _); [done|].
  apply sum_bind_inr in E as (t4 & E4%unless_inr & E).
  assert (tx_ok version t4 /\ forall k, holdings version k t4 = holdings version k t3) as [Hok4 Hh4].
  { destruct (cp_success cp); [|by osome E4]. apply action_flow in E4 as (? & ? & _); [done..|]. by rewrite Ho3, Ho2, Ho1. }
  apply unless_inr in E.
  assert (tx_ok version t /\ forall k, holdings version k t = holdings version k t4) as [Hok5 Hh5].
  { destruct (_ && _); [by eapply bounce_flow|by osome E]. }
  split; [exact Hok5|]. intros k. specialize (Hh1 k). specialize (Hh2 k). rewrite <- Hh3, <- Hh4, <- Hh5 in Hh2.
  rewrite Hh0 in Hh1. unfold holdings in Hh2 at 1. lia.
Qed.

(** C3: A transaction neither creates nor destroys currency: for nanograms and for every extra currency,
    what the account had and what the inbound message brought is what the account has at the end,
    with what the outbound messages carry (value, fees for instant routing and forwarding fees), the
    fees that the validators collect and what was burned. This is the condition that the validator
    checks of every transaction of a block, and here it holds of every transaction that the collator
    creates: with any phase skipped, failing or bouncing, for every version of the network. *)
Theorem currency_flow msg acc utime lt scfg ccfg external after_lt t imp :
  impl_create_ordinary_transaction msg acc utime lt scfg ccfg cfg external after_lt = inr t ->
  cc_is_valid (acc_balance acc) = true ->
  (external = true -> get_msg_tag (slice_of_cell msg) = tag_ext_in_msg) ->
  money_imported version msg = Some imp ->
  Forall (fun m => exists v, msg_export_value version m = Some v) (out_msgs t) /\
  forall k, amount k (acc_balance acc) + amount k imp =
            amount k (balance t) + exported version k (out_msgs t) + amount k (total_fees t) + amount k (blackhole_burned t).
Proof.
  intros E Hacc Hext Himp. destruct (ordinary_flow _ _ _ _ _ _ _ _ _ _ E Hacc Hext Himp) as [[] Hf]. done.
Qed.
End spec.
