(* ===== verification/TxSolvent.v ===== *)
(** * The compute phase charges no more than there is

    Gas is bought from the balance before the code runs, so that the fees for the gas used
    can always be paid: the check at the end of the phase never fails. *)
From coqutil Require Import Datatypes.RecordSetters.
From S2P Require Import Prelude BigInt Int256 Cells DataCell Uint128 Fees Currency StorageStat TxTypes TxPhases Tx TxFlow.
Import TriangleBracketNotations.

(** What the phase relies on: the machine returns, and stays within its limits ([gas_limit]
    only grows up to [gas_max]); the listed prices are numbers of 63 bits. *)
Class EnvLaws `{TransactionEnv} := {
  run_vm_returns : forall t limit max credit, exists r, run_vm t limit max credit = Some r;
  run_vm_gas : forall t limit max credit r, run_vm t limit max credit = Some r -> 0 <= limit <= max ->
    0 <= vo_gas_consumed r /\ 0 <= vo_gas_limit r <= max;
  precompiled_price : forall h gas, precompiled_contract h = Some gas -> price_ok gas
}.

Section solvent.
Context `{ShaI : Sha256} `{DictI : ExtraDict} `{TlbI : BlockTlb} `{EnvI : TransactionEnv} `{LawsV : !EnvLaws}.
Context (cfg : ComputePhaseConfig).
Notation gp := (gas_prices cfg).
Hypothesis prices : gas_prices_ok gp.
Hypothesis special_limit : price_ok (special_gas_limit cfg).
Hypothesis credit_limit : 0 <= cc_gas_credit cfg.

Lemma override_price_ok t limit : override_gas_limit cfg (now t) (account t) = Some limit -> price_ok limit.
Proof.
  unfold override_gas_limit. destruct (find _ _) as [[a [[l v] u]]|] eqn:E; [|done]. destruct (_ || _); [done|].
  intros [= ->]. apply find_some in E as [Hin _]. cbn in Hin. unfold price_ok.
  repeat destruct Hin as [Hin|Hin]; simplify_eq; lia.
Qed.
Lemma gas_bought_ok n t gas t' : tx_gas_bought_for cfg n t = (gas, t') -> price_ok gas /\
  forall g, n = Some g -> 0 < gas -> compute_gas_price gp gas <= g.
Proof.
  assert (forall limit, price_ok limit ->
    let b := gas_bought_upto gp limit (compute_max_gas_threshold (gp_gas_price gp) limit (gp_flat_gas_limit gp) (gp_flat_gas_price gp)) n in
    price_ok b /\ forall g, n = Some g -> 0 < b -> compute_gas_price gp b <= g) as Hb.
  { intros limit Hl b. destruct n as [g|]; [|split; [split; done|done]].
    destruct (gas_bought_upto_spec gp limit g prices Hl) as [Hr Hs]. fold b in Hr, Hs.
    split; [unfold price_ok in *; lia|]. intros ? [= <-] Hpos. apply Hs; lia. }
  unfold tx_gas_bought_for. destruct (override_gas_limit _ _ _) as [limit|] eqn:E; intros Eq; opair Eq.
  - apply Hb. by eapply override_price_ok.
  - apply (Hb (gp_gas_limit gp)). apply prices.
Qed.

(** The limits of a phase *)
Record limits_of (cp : ComputePhase) (t : Transaction) (g : Z) : Prop := mkLimits {
  lo_max : price_ok (gas_max cp);
  lo_limit : 0 <= gas_limit cp <= gas_max cp;
  lo_credit : 0 <= gas_credit cp <= gas_max cp;
  lo_afford : is_special (account t) = false -> 0 < gas_max cp -> compute_gas_price gp (gas_max cp) <= g
}.
Lemma compute_gas_limits_ok cp t g : grams (balance t) = Some g ->
  (trans_type t = tr_ord -> exists msg, in_msg t = Some msg /\ cell_special msg = false) ->
  exists cp' t', compute_gas_limits cp cfg t = Some (cp', t') /\ limits_of cp' t g.
Proof.
  intros Hg Hmsg. unfold compute_gas_limits.
  destruct (if is_special (account t) then _ else _) as [max t1] eqn:E1.
  assert (price_ok max /\ (is_special (account t) = false -> 0 < max -> compute_gas_price gp max <= g)) as [Hmax Haff].
  { destruct (is_special (account t)); [by opair E1|]. apply gas_bought_ok in E1 as [? H]. split; [done|]. intros _. by apply H. }
  assert (trans_type t1 = trans_type t /\ in_msg t1 = in_msg t) as [Ht1 Hm1].
  { destruct (is_special (account t)); [by opair E1|]. unfold tx_gas_bought_for in E1. destruct (override_gas_limit _ _ _); opair E1; done. }
  destruct (if _ || _ then _ else _) as [limit t2] eqn:E2.
  assert (0 <= limit <= max /\ trans_type t2 = trans_type t /\ in_msg t2 = in_msg t) as (Hlim & Ht2 & Hm2).
  { destruct (_ || _); [opair E2; unfold price_ok in Hmax; split_and!; try lia; done|].
    destruct (tx_gas_bought_for cfg _ t1) as [gas t3] eqn:E3. opair E2. pose proof (gas_bought_ok _ _ _ _ E3) as [Hgas _].
    unfold price_ok in *. split; [lia|]. unfold tx_gas_bought_for in E3. destruct (override_gas_limit _ _ _); opair E3; rsimp; by rewrite ?Ht1, ?Hm1. }
  rewrite Ht2, Hm2. destruct (decide (trans_type t = tr_ord)) as [Hord|]; cbn [mbind option_bind].
  - destruct (Hmsg Hord) as (msg & -> & Hs). cbn [mbind option_bind]. unfold load_ordinary. rewrite Hs. cbn [mbind option_bind].
    eexists _, _. split; [done|]. split; rsimp; try done. unfold price_ok in Hmax. destruct (is_internal _); lia.
  - eexists _, _. split; [done|]. split; rsimp; try done. unfold price_ok in Hmax. lia.
Qed.

Lemma gas_limits_fees cp t cp' t' : compute_gas_limits cp cfg t = Some (cp', t') -> gas_fees cp' = gas_fees cp.
Proof.
  unfold compute_gas_limits. destruct (if is_special (account t) then _ else _) as [max t1].
  destruct (if _ || _ then _ else _) as [limit t2]. intros E. apply bind_Some in E as (? & _ & E). osome E. rsimp. done.
Qed.

(** What the phase leaves: the fees are paid. *)
Definition paid (t t' : Transaction) (g : Z) : Prop :=
  exists cp, compute_phase t' = Some cp /\ exists g', grams (balance t') = Some g' /\ 0 <= g' /\
    g' = g - default 0 (gas_fees cp) /\ 0 <= default 0 (gas_fees cp).

Lemma charge_gas_paid cp t g : grams (balance t) = Some g -> 0 <= g -> gas_fees cp = None -> price_ok (gas_used cp) ->
  (is_special (account t) = false -> compute_gas_price gp (gas_used cp) <= g) ->
  exists t', charge_gas cfg cp t = Some t' /\ paid t t' g.
Proof.
  intros Hg H0 Hf Hu Hle. pose proof (compute_gas_price_nonneg gp (gas_used cp) prices Hu) as Hp. unfold charge_gas, paid.
  destruct (accepted cp).
  2: { eexists. split; [done|]. rsimp. exists cp. split; [done|]. exists g. rewrite Hf. cbn. split_and!; try done; lia. }
  destruct (is_special (account t)).
  { rewrite Hg. cbn [mbind option_bind]. rewrite (proj2 (Z.leb_le 0 g) H0). cbn [fail_unless mbind option_bind].
    eexists. split; [done|]. rsimp. eexists. split; [done|]. exists g. rsimp. cbn. split_and!; try done; lia. }
  specialize (Hle eq_refl). rsimp. unfold cc_sub_grams. rewrite Hg, (proj2 (Z.leb_le 0 (g - _))) by lia.
  cbn [grams mbind option_bind]. rewrite (proj2 (Z.leb_le 0 (g - _))) by lia. cbn [fail_unless mbind option_bind].
  eexists. split; [done|]. rsimp. eexists. split; [done|]. eexists. split; [done|]. rsimp. cbn. split_and!; try done; lia.
Qed.

(** What leaves no result: the contract that is to run is listed as precompiled, its price fits the limit, there is no
    implementation that may run in its place, and its code runs out of gas in the machine, which the listed price should exclude. *)
Definition listed_exhausted (cp : ComputePhase) (t : Transaction) : Prop :=
  let limit := ll (if is_special (account t) then special_gas_limit cfg else gp_gas_limit gp) in
  exists code usage r, trans_type t = tr_ord /\ new_code t = Some code /\ precompiled_contract (get_hash code) = Some usage /\
    usage <= gas_limit cp /\
    (dont_run_precompiled cfg = true \/
     forall version run, precompiled_implementation (get_hash code) = Some (version, run) -> cc_global_version cfg < version) /\
    run_vm t limit limit (if gas_credit cp =? 0 then 0 else limit) = Some r /\ vo_out_of_gas r = true.

(** This transaction gets as far as that. *)
Definition start_compute (t : Transaction) : Transaction :=
  t <| original_balance :=
         if 9 <=? cc_global_version cfg then
           if cc_is_valid (msg_balance_remaining t) then cc_sub_from (balance t) (msg_balance_remaining t) else balance t
         else cc_sub_from (original_balance t) (total_fees t) |>.
Definition listed_out_of_gas (t : Transaction) : Prop :=
  exists cp t1 t2, compute_gas_limits new_compute_phase cfg (start_compute t) = Some (cp, t1) /\
    (gas_limit cp <> 0 \/ gas_credit cp <> 0) /\ prepare_state cfg t1 = inr t2 /\ listed_exhausted cp t2.

(** The outcome of the phase, or of a part of it: paid exactly unless [P] *)
Definition pays_unless (P : Prop) (t : Transaction) (g : Z) (o : option Transaction) : Prop :=
  match o with Some t' => paid t t' g /\ ~ P | None => P end.

Lemma charge_pays cp t t0 g : same_money t0 t -> grams (balance t0) = Some g -> 0 <= g -> gas_fees cp = None ->
  price_ok (gas_used cp) -> (is_special (account t0) = false -> compute_gas_price gp (gas_used cp) <= g) ->
  exists t', charge_gas cfg cp t = Some t' /\ paid t0 t' g.
Proof.
  intros S Hg H0 Hf Hu Hle. destruct (charge_gas_paid cp t g) as (t' & -> & Hp); try done.
  - by rewrite (sm_balance _ _ S).
  - by rewrite (sm_account _ _ S).
  - by exists t'.
Qed.

(** Gas up to what was bought is affordable. *)
Lemma used_affordable cp t g used : limits_of cp t g -> 0 < gas_max cp -> 0 <= used <= gas_max cp ->
  price_ok used /\ (is_special (account t) = false -> compute_gas_price gp used <= g).
Proof.
  intros [Hmax _ _ Ha] Hpos Hu. assert (price_ok used) by (unfold price_ok in *; lia). split; [done|]. intros Hs.
  specialize (Ha Hs Hpos). pose proof (compute_gas_price_mono gp used (gas_max cp) prices). naive_solver lia.
Qed.

Lemma run_tvm_pays cp t g limit max credit :
  limits_of cp t g -> 0 < gas_max cp -> grams (balance t) = Some g -> 0 <= g -> gas_fees cp = None ->
  0 <= limit <= max -> max <= gas_max cp ->
  exists t', run_tvm cfg None limit max credit cp t = Some t' /\ paid t t' g.
Proof.
  intros Hlim Hpos Hg H0 Hf Hl Hm. unfold run_tvm. destruct (run_vm_returns t limit max credit) as [r Er]. rewrite Er.
  destruct (run_vm_gas _ _ _ _ _ Er Hl) as [Hc Hv]. cbn [mbind option_bind].
  assert (u64 (Z.min (vo_gas_consumed r) (vo_gas_limit r)) = Z.min (vo_gas_consumed r) (vo_gas_limit r)) as Hu.
  { apply wrap_u_small. destruct Hlim as [[] _ _ _]. lia. }
  destruct (used_affordable cp t g (Z.min (vo_gas_consumed r) (vo_gas_limit r)) Hlim Hpos ltac:(lia)) as [Hok Hle].
  apply charge_pays; try done; [apply activate_money|..].
  all: destruct (_ && _); rsimp; rewrite ?Hu; done.
Qed.
Lemma run_listed_pays h usage cp t g limit max credit :
  limits_of cp t g -> 0 < gas_max cp -> grams (balance t) = Some g -> 0 <= g -> gas_fees cp = None ->
  precompiled_contract h = Some usage -> usage <= gas_limit cp ->
  exists r, run_vm t limit max credit = Some r /\
    match run_tvm cfg (Some usage) limit max credit cp t with
    | Some t' => paid t t' g /\ vo_out_of_gas r = false
    | None => vo_out_of_gas r = true
    end.
Proof.
  intros Hlim Hpos Hg H0 Hf Hh Hle. unfold run_tvm. destruct (run_vm_returns t limit max credit) as [r Er]. rewrite Er.
  exists r. split; [done|]. cbn [mbind option_bind]. rsimp. destruct (vo_out_of_gas r) eqn:Eo; cbn [mbind option_bind]; [done|].
  pose proof (precompiled_price h usage Hh) as Hu.
  destruct (used_affordable cp t g usage Hlim Hpos) as [_ Ha]; [destruct Hlim, Hu; lia|].
  match goal with |- context [charge_gas cfg ?cp' ?t'] => destruct (charge_pays cp' t' t g) as (t2 & -> & Hp); try done; [apply activate_money|..] end.
  all: destruct (_ && _); rsimp; done.
Qed.
Lemma run_precompiled_pays run cp t g usage :
  limits_of cp t g -> 0 < gas_max cp -> grams (balance t) = Some g -> 0 <= g -> gas_fees cp = None ->
  precompiled_gas_usage cp = Some usage -> price_ok usage -> usage <= gas_limit cp ->
  exists t', run_precompiled_contract cfg run cp t = Some t' /\ paid t t' g.
Proof.
  intros Hlim Hpos Hg H0 Hf Hp Hu Hle. unfold run_precompiled_contract. rewrite Hp. cbn [mbind option_bind].
  destruct (used_affordable cp t g usage Hlim Hpos) as [_ Ha]; [destruct Hlim, Hu; lia|].
  apply charge_pays; try done; [apply activate_money|..].
  all: rsimp; destruct (po_accepted (run t) && po_committed (run t)); rsimp; done.
Qed.
Lemma run_contract_pays cp t g :
  limits_of cp t g -> 0 < gas_max cp -> grams (balance t) = Some g -> 0 <= g -> gas_fees cp = None ->
  pays_unless (listed_exhausted cp t) t g (run_contract cfg cp t).
Proof.
  intros Hlim Hpos Hg H0 Hf. unfold run_contract, pays_unless.
  destruct (if decide _ then _ else _) as [usage|] eqn:Epre.
  2: { pose proof Hlim as [[] [] [] _]. rewrite !ll_id by (split; lia).
       destruct (run_tvm_pays cp t g (gas_limit cp) (gas_max cp) (gas_credit cp)) as (t' & -> & Hp); [done..|]. split; [done|].
       intros (code & u & r & Ht & Hc & Hu & _). rewrite decide_True, Hc in Epre by done. cbn in Epre. congruence. }
  assert (exists code, trans_type t = tr_ord /\ new_code t = Some code /\ precompiled_contract (get_hash code) = Some usage) as (code & Ht & Hc & Hh).
  { destruct (decide _); [|done]. destruct (new_code t) as [code|]; [|done]. by exists code. }
  rsimp. destruct (Z.ltb_spec (gas_limit cp) usage) as [Hlt|Hle].
  { split.
    - exists (cp <| precompiled_gas_usage := Some usage |> <| skip_reason := sk_no_gas |>). rsimp. split; [done|].
      exists g. rewrite Hf. cbn. split_and!; try done; lia.
    - intros (code' & u & r & _ & Hc' & Hu & Hle & _). assert (u = usage) by congruence. lia. }
  assert (limits_of (cp <| precompiled_gas_usage := Some usage |>) t g) as Hlim' by (destruct Hlim; split; rsimp; done).
  destruct (if dont_run_precompiled cfg then _ else _) as [run|] eqn:Eimpl.
  - destruct (run_precompiled_pays run (cp <| precompiled_gas_usage := Some usage |>) t g usage) as (t' & -> & Hp); try done; rsimp; try done.
    { by eapply precompiled_price. }
    split; [done|]. intros (code' & u & r & _ & Hc' & _ & _ & Himpl & _). assert (code' = code) as -> by congruence.
    destruct (dont_run_precompiled cfg); [done|]. rewrite Hc in Eimpl. cbn in Eimpl. destruct Himpl as [|Himpl]; [done|].
    destruct (precompiled_implementation (get_hash code)) as [[version run']|]; [|done]. cbn in Eimpl.
    destruct (Z.leb_spec version (cc_global_version cfg)); [|done]. specialize (Himpl version run' eq_refl). lia.
  - set (limit := ll _).
    destruct (run_listed_pays (get_hash code) usage (cp <| precompiled_gas_usage := Some usage |>) t g limit limit (if gas_credit cp =? 0 then 0 else limit))
      as (r & Er & Hr); try done.
    assert (dont_run_precompiled cfg = true \/ forall version run, precompiled_implementation (get_hash code) = Some (version, run) -> cc_global_version cfg < version) as Himpl.
    { destruct (dont_run_precompiled cfg); [by left|right]. intros version run Ei. rewrite Hc in Eimpl. cbn in Eimpl. rewrite Ei in Eimpl. cbn in Eimpl.
      by destruct (Z.leb_spec version (cc_global_version cfg)). }
    destruct (run_tvm _ _ _ _ _ _ _) as [t'|].
    + destruct Hr as [Hp Eo]. split; [done|]. intros (code' & u & r' & _ & _ & _ & _ & _ & Er' & Eo'). fold limit in Er'. congruence.
    + exists code, usage, r. done.
Qed.

(** C6: The compute phase never spends more than the account has. For every transaction with a valid
    balance (an ordinary one has an inbound message) the phase returns, except exactly when this very transaction runs, in the machine,
    a contract that the network lists as precompiled with a price within the gas limit, and the run exhausts its gas; and the balance
    after it is the balance before it less the fees for the gas
    used, and is not negative: the check at the end of the phase cannot fail, whatever the code does,
    also when the limit of the account is overridden. *)
Theorem compute_phase_solvent t g :
  grams (balance t) = Some g -> 0 <= g ->
  (trans_type t = tr_ord -> exists msg, in_msg t = Some msg /\ cell_special msg = false) ->
  match prepare_compute_phase cfg t with
  | Some t' => (exists cp g', compute_phase t' = Some cp /\ grams (balance t') = Some g' /\ 0 <= g' <= g /\
                  g' = g - default 0 (gas_fees cp)) /\
               ~ (0 < g /\ listed_out_of_gas t)
  | None => 0 < g /\ listed_out_of_gas t
  end.
Proof.
  intros Hg H0 Hmsg.
  assert (pays_unless (0 < g /\ listed_out_of_gas t) t g (prepare_compute_phase cfg t)) as H.
  2: { unfold pays_unless in H. destruct (prepare_compute_phase cfg t) as [t'|]; [|done].
       destruct H as [(cp & Hcp & g' & Hg' & ? & ? & ?) Hn]. split; [|done]. exists cp, g'. split_and!; try done; lia. }
  unfold prepare_compute_phase. cbv zeta. fold (start_compute t). set (t1 := start_compute t).
  assert (same_money t t1 /\ trans_type t1 = trans_type t /\ in_msg t1 = in_msg t) as (S1 & Ht1 & Hm1).
  { subst t1. unfold start_compute. split; [split|]; rsimp; done. }
  assert (grams (balance t1) = Some g) as Hg1 by by rewrite (sm_balance _ _ S1). rewrite Hg1. cbn [mbind option_bind].
  assert (forall P cp t2, ~ P -> same_money t t2 -> gas_fees cp = None -> pays_unless P t g (Some (t2 <| compute_phase := Some cp |>))) as Hskip.
  { intros P cp t2 HP S2 Hf. split; [|done]. exists cp. rsimp. split; [done|]. exists g. rewrite (sm_balance _ _ S2), Hf. cbn. split_and!; try done; lia. }
  destruct (Z.leb_spec g 0) as [Hle|Hgt]. { apply Hskip; rsimp; try done. intros [? _]. lia. }
  destruct (compute_gas_limits_ok new_compute_phase t1 g Hg1) as (cp & t2 & E & Hlim); [by rewrite Ht1, Hm1|].
  assert (gas_fees cp = None) as Hf. { by apply gas_limits_fees in E. }
  rewrite E. cbn [mbind option_bind]. pose proof (same_money_trans _ _ _ S1 (gas_limits_money _ _ _ _ _ E)) as S2.
  assert (forall cp' t2', compute_gas_limits new_compute_phase cfg (start_compute t) = Some (cp', t2') -> cp' = cp /\ t2' = t2) as Edet.
  { intros cp' t2' E'. fold t1 in E'. rewrite E in E'. by injection E' as -> ->. }
  destruct ((gas_limit cp =? 0) && (gas_credit cp =? 0)) eqn:Egas.
  { apply andb_true_iff in Egas as [?%Z.eqb_eq ?%Z.eqb_eq]. apply Hskip; rsimp; try done.
    intros (_ & cp' & t2' & t3' & [-> ->]%Edet & Hne & _). lia. }
  assert (gas_limit cp <> 0 \/ gas_credit cp <> 0) as Hne by (apply andb_false_iff in Egas as [?%Z.eqb_neq|?%Z.eqb_neq]; auto).
  assert (0 < gas_max cp) as Hpos by (destruct Hlim; lia).
  pose proof (prepare_state_money cfg t2) as S3. destruct (prepare_state cfg t2) as [[reason t3]|t3] eqn:Eps.
  { apply Hskip; [|by eapply same_money_trans|rsimp; done]. intros (_ & cp' & t2' & t3' & [-> ->]%Edet & _ & Eps' & _). congruence. }
  pose proof (same_money_trans _ _ _ S2 S3) as S13. assert (limits_of cp t3 g) as Hlim3.
  { destruct Hlim. split; try done. by rewrite (sm_account _ _ S13), <- (sm_account _ _ S1). }
  pose proof (run_contract_pays cp t3 g Hlim3 Hpos) as Hrun. rewrite (sm_balance _ _ S13) in Hrun. specialize (Hrun Hg H0 Hf).
  unfold pays_unless in *. destruct (run_contract cfg cp t3) as [t4|].
  - destruct Hrun as [Hp Hn]. split; [done|]. intros (_ & cp' & t2' & t3' & [-> ->]%Edet & _ & Eps' & Hl). apply Hn. congruence.
  - split; [done|]. by exists cp, t2, t3.
Qed.
End solvent.
