(* ===== verification/TxExample.v ===== *)
(** * A transaction, run

    The laws of TxFlow and TxSolvent can hold: a codec for the part of the scheme with
    standard addresses and without state initialisation, a machine that sends one message,
    and a transaction with them.  The last lemmas are the witnesses of the theorems on
    transactions. *)
From coqutil Require Import Datatypes.RecordSetters.
From S2P Require Import Prelude BigInt Int256 Cells DataCell Dict DictLabel DictOrder Uint128 Fees Currency ExtraCurrency ExtraSpec StorageStat TxTypes TxPhases TxLibrary TxActions TxActionPhase Tx TxFlow TxActionFlow TxSpec TxSolvent.
Import TriangleBracketNotations.

(** ** A codec *)

Lemma fetch_subslice_is cs b bits r refs : slice_is cs (b ++ bits) (r ++ refs) ->
  exists a cs', fetch_subslice (length b) (length r) cs = Some (a, cs') /\ slice_is a b r /\ slice_is cs' bits refs.
Proof.
  intros Hcs. pose proof (slice_is_size _ _ _ Hcs) as [Hs Hr]. rewrite !length_app in *.
  unfold fetch_subslice, have2, have, have_refs. rewrite !(proj2 (Nat.leb_le _ _)) by lia. cbn [andb].
  eexists _, _. split; [done|]. pose proof (slice_is_adv _ (length b) _ _ Hcs ltac:(rewrite length_app; lia)) as H1.
  rewrite drop_app_length in H1. set (cs1 := default cs (advance (length b) cs)) in *. clearbody cs1. split.
  - destruct Hcs as [Hb Hrf [Ho1 Ho2]]. unfold size, size_refs in *. split; unfold slice_bits, slice_refs, slice_ok in *; cbn.
    + replace (bits_st cs + length b - bits_st cs)%nat with (length b) by lia.
      transitivity (take (length b) (b ++ bits)); [|apply take_app_length]. rewrite <- Hb, take_take. f_equal. lia.
    + replace (refs_st cs + length r - refs_st cs)%nat with (length r) by lia.
      transitivity (take (length r) (r ++ refs)); [|apply take_app_length]. rewrite <- Hrf, take_take. f_equal. lia.
    + lia.
  - destruct (slice_is_size _ _ _ H1) as [_ Hr1]. destruct H1 as [Hb Hrf [Ho1 Ho2]]. rewrite length_app in Hr1.
    unfold advance_refs, have_refs. rewrite (proj2 (Nat.leb_le _ _)) by lia. unfold size_refs in *. cbn [default from_option id].
    unfold default, id. split; [exact Hb| |].
    + unfold slice_refs in *. cbn. transitivity (drop (length r) (r ++ refs)); [|apply drop_app_length].
      rewrite <- Hrf, skipn_firstn_comm, drop_drop. f_equal. lia.
    + unfold slice_ok in *. cbn. lia.
Qed.

(** Number with a length of four bits; amounts; addresses: the lengths are read from the bits. *)
Definition var_size (bits : list bool) : nat := (4 + 8 * Z.to_nat (bits_to_Z (take 4 bits)))%nat.
Definition var_shape (bits : list bool) (refs : list Cell) : bool :=
  (4 <=? length bits)%nat && (length bits =? var_size bits)%nat && (length refs =? 0)%nat.
Definition cc_shape (bits : list bool) (refs : list Cell) : bool :=
  (4 <=? length bits)%nat && (length bits =? S (var_size bits))%nat
  && (length refs =? if nth (var_size bits) bits false then 1 else 0)%nat.
Definition addr_shape (bits : list bool) (refs : list Cell) : bool :=
  (length bits =? 267)%nat && bits_eqb (take 3 bits) [true; false; false] && (length refs =? 0)%nat.

Definition ex_var (cs : CellSlice) : option (CellSlice * CellSlice) :=
  if have 4 cs then fetch_subslice (var_size (slice_bits cs)) 0 cs else None.
Definition ex_cc (cs : CellSlice) : option (CellSlice * CellSlice) :=
  if have 4 cs then
    let n := var_size (slice_bits cs) in
    fetch_subslice (S n) (if nth n (slice_bits cs) false then 1 else 0) cs
  else None.
Definition ex_validate_addr (cs : CellSlice) : bool := addr_shape (slice_bits cs) (slice_refs cs).
Definition ex_addr (cs : CellSlice) : option (CellSlice * CellSlice) :=
  '(a, cs) ← fetch_subslice 267 0 cs;
  if ex_validate_addr a then Some (a, cs) else None.

Lemma var_size_app b bits : (4 <= length b)%nat -> var_size (b ++ bits) = var_size b.
Proof. intros Hb. unfold var_size. by rewrite take_app_le. Qed.
Lemma ex_var_is cs b bits r refs : var_shape b r = true -> slice_is cs (b ++ bits) (r ++ refs) ->
  exists a cs', ex_var cs = Some (a, cs') /\ slice_is a b r /\ slice_is cs' bits refs.
Proof.
  unfold var_shape. rewrite !andb_true_iff, Nat.leb_le, !Nat.eqb_eq. intros [[H4 Hl] Hr] Hcs.
  unfold ex_var. rewrite (slice_is_have _ _ _ _ Hcs) by (rewrite length_app; lia).
  rewrite (is_bits _ _ _ Hcs), var_size_app, <- Hl, <- Hr by done. by apply fetch_subslice_is.
Qed.
Lemma ex_cc_is cs b bits r refs : cc_shape b r = true -> slice_is cs (b ++ bits) (r ++ refs) ->
  exists a cs', ex_cc cs = Some (a, cs') /\ slice_is a b r /\ slice_is cs' bits refs.
Proof.
  unfold cc_shape. rewrite !andb_true_iff, Nat.leb_le, !Nat.eqb_eq. intros [[H4 Hl] Hr] Hcs.
  unfold ex_cc. rewrite (slice_is_have _ _ _ _ Hcs) by (rewrite length_app; lia).
  rewrite (is_bits _ _ _ Hcs), var_size_app, app_nth1, <- Hl, <- Hr by (done || lia). by apply fetch_subslice_is.
Qed.
Lemma ex_addr_is cs b bits r refs : addr_shape b r = true -> slice_is cs (b ++ bits) (r ++ refs) ->
  exists a cs', ex_addr cs = Some (a, cs') /\ slice_is a b r /\ slice_is cs' bits refs /\ ex_validate_addr a = true.
Proof.
  intros Hsh Hcs. pose proof Hsh as Hsh'. unfold addr_shape in Hsh'. rewrite !andb_true_iff, !Nat.eqb_eq in Hsh'.
  destruct Hsh' as [[Hl _] Hr]. destruct (fetch_subslice_is _ _ _ _ _ Hcs) as (a & cs' & E & Ha & Hcs').
  unfold ex_addr. rewrite <- Hl, <- Hr, E. cbn [mbind option_bind]. exists a, cs'.
  assert (ex_validate_addr a = true) as Hv. { unfold ex_validate_addr. by rewrite (is_bits _ _ _ Ha), (is_refs _ _ _ Ha). }
  by rewrite Hv.
Qed.

Definition ex_unpack (cs : CellSlice) : option (int_msg_info * CellSlice) :=
  let '(flags, cs) := fetch_ulong 4 cs in
  if flags <? 8 then
    '(src, cs) ← ex_addr cs;
    '(dest, cs) ← ex_addr cs;
    '(v, cs) ← ex_cc cs;
    '(ef, cs) ← ex_var cs;
    '(ff, cs) ← ex_var cs;
    if have 96 cs then
      let '(lt, cs) := fetch_ulong 64 cs in
      let '(at_, cs) := fetch_ulong 32 cs in
      Some (mkIntMsgInfo (Z.testbit flags 2) (Z.testbit flags 1) (Z.testbit flags 0) src dest v ef ff lt at_, cs)
    else None
  else None.

Lemma ex_unpack_is cs flags sb sr db dr vb vr eb er fb fr lt at_ bits refs :
  length flags = 3%nat -> addr_shape sb sr = true -> addr_shape db dr = true -> cc_shape vb vr = true ->
  var_shape eb er = true -> var_shape fb fr = true ->
  slice_is cs (false :: flags ++ sb ++ db ++ vb ++ eb ++ fb ++ Z_to_bits 64 lt ++ Z_to_bits 32 at_ ++ bits)
    (sr ++ dr ++ vr ++ er ++ fr ++ refs) ->
  exists info rest, ex_unpack cs = Some (info, rest) /\ slice_is (value info) vb vr /\
    slice_is (extra_flags info) eb er /\ slice_is (fwd_fee info) fb fr.
Proof.
  intros Hf Hs Hd Hv He Hff Hcs. unfold ex_unpack.
  rewrite (slice_is_fetch _ _ _ _ Hcs) by (cbn; rewrite ?length_app; lia).
  assert (take 4 (false :: flags ++ sb ++ db ++ vb ++ eb ++ fb ++ Z_to_bits 64 lt ++ Z_to_bits 32 at_ ++ bits) = false :: flags) as ->.
  { cbn. f_equal. by apply take_app_length'. }
  pose proof (slice_is_adv _ 4 _ _ Hcs ltac:(cbn; rewrite length_app; lia)) as H1. cbn [drop] in H1.
  rewrite drop_app_length' in H1 by done. set (cs1 := default cs (advance 4 cs)) in *. clearbody cs1.
  assert (bits_to_Z (false :: flags) <? 8 = true) as ->.
  { apply Z.ltb_lt. pose proof (bits_to_Z_range flags) as [_ Hr]. rewrite Hf in Hr. change (false :: flags) with ([false] ++ flags).
    rewrite bits_to_Z_app. cbn in *. lia. }
  destruct (ex_addr_is _ _ _ _ _ Hs H1) as (s & cs2 & -> & _ & H2 & _). cbn [mbind option_bind].
  destruct (ex_addr_is _ _ _ _ _ Hd H2) as (d & cs3 & -> & _ & H3 & _). cbn [mbind option_bind].
  destruct (ex_cc_is _ _ _ _ _ Hv H3) as (v & cs4 & -> & Iv & H4). cbn [mbind option_bind].
  destruct (ex_var_is _ _ _ _ _ He H4) as (e & cs5 & -> & Ie & H5). cbn [mbind option_bind].
  destruct (ex_var_is _ _ _ _ _ Hff H5) as (f & cs6 & -> & If & H6). cbn [mbind option_bind].
  rewrite (slice_is_have _ _ _ _ H6) by (rewrite !length_app, !Z_to_bits_length; lia).
  destruct (fetch_ulong 64 cs6) as [lt' cs7]. destruct (fetch_ulong 32 cs7) as [at' cs8].
  eexists _, _. split; [done|]. cbn. done.
Qed.

Section codec.
Context `{Sha256}.

Definition ex_pack (info : int_msg_info) : option CellSlice :=
  let shape f (cs : CellSlice) := f (slice_bits cs) (slice_refs cs) : bool in
  if shape addr_shape (src info) && shape addr_shape (dest info) && shape cc_shape (value info)
     && shape var_shape (extra_flags info) && shape var_shape (fwd_fee info) then
    cb ← store_long_bool 0 1 empty_builder;
    cb ← store_bits_bool [ihr_disabled info; bounce info; bounced info] cb;
    cb ← append_cellslice_bool (src info) cb;
    cb ← append_cellslice_bool (dest info) cb;
    cb ← append_cellslice_bool (value info) cb;
    cb ← append_cellslice_bool (extra_flags info) cb;
    cb ← append_cellslice_bool (fwd_fee info) cb;
    cb ← store_long_bool (created_lt info) 64 cb;
    cb ← store_long_bool (created_at info) 32 cb;
    finalize_slice cb
  else None.
Definition ex_pack_message (msg : MessageRelaxed) : option CellBuilder :=
  cb ← append_cellslice_bool (m_info msg) empty_builder;
  cb ← append_cellslice_bool (m_init msg) cb;
  append_cellslice_bool (m_body msg) cb.
Definition ex_unpack_message (c : Cell) : option MessageRelaxed :=
  let cs := slice_of_cell c in
  '(_, rest) ← ex_unpack cs;
  '(info, rest) ← fetch_subslice (size cs - size rest) (size_refs cs - size_refs rest) cs;
  '(init, body) ← fetch_subslice 1 0 rest;
  Some (mkMessage info init body).
Definition ex_std (cs : CellSlice) : option addr_var :=
  if ex_validate_addr cs then
    Some (mkAddr (slice_of_cell (DataCell false [false] [])) 256 (bits_to_Z_signed (take 8 (drop 3 (slice_bits cs))))
            (drop 11 (slice_bits cs)))
  else None.
Definition ex_valid_message (c : Cell) : bool := bool_decide (is_Some (ex_unpack (slice_of_cell c))).

#[export] Instance ex_tlb : BlockTlb := {
  get_msg_tag cs := if prefetch_ulong 1 cs =? 0 then tag_int_msg
                    else if prefetch_ulong 2 cs =? 2 then tag_ext_in_msg else tag_other_msg;
  unpack_int_msg_info := ex_unpack;
  unpack_ext_in_msg_info _ := None;
  get_addr_tag cs := if ex_validate_addr cs then tag_addr_std else tag_addr_other;
  csr_unpack_addr_std := ex_std;
  csr_unpack_addr_var _ := None;
  csr_pack_addr_var _ := None;
  validate_MsgAddressInt := ex_validate_addr;
  fetch_StateInit _ := None;
  skip_Maybe_StateInit cs := if prefetch_ulong 1 cs =? 0 then advance 1 cs else None;
  validate_StateInitWithLibs _ := false;
  unpack_cell_StateInit _ := None;
  validate_OutListNode _ := true;
  get_action_tag cs := if prefetch_ulong 32 cs =? 0x0ec3c86d then Some action_send_msg else None;
  unpack_action_send_msg cs := c ← prefetch_ref 0 cs; Some (mkSendMsg (prefetch_ulong 8 (default cs (advance 32 cs))) c);
  unpack_action_set_code _ := None;
  unpack_action_reserve _ := None;
  unpack_action_library _ := None;
  unpack_MessageRelaxed := ex_unpack_message;
  validate_message_relaxed_libs _ := true;
  csr_unpack_int_relaxed cs := '(info, rest) ← ex_unpack cs; if empty_ext rest then Some info else None;
  csr_unpack_ext_out_relaxed _ := None;
  csr_pack_int_relaxed := ex_pack;
  csr_pack_ext_out _ := None;
  pack_MessageRelaxed := ex_pack_message;
  tlb_validate_Message := ex_valid_message;
  gen_validate_Message := ex_valid_message
}.

Lemma var_bits_shape x : var_fits t_Grams x -> var_shape (var_bits t_Grams x) [] = true.
Proof.
  intros Hx. pose proof (var_bytes_fits t_Grams x ltac:(done) Hx) as Hb. destruct (var_bytes_spec x ltac:(apply Hx)) as (H0 & _).
  assert (var_size (var_bits t_Grams x) = length (var_bits t_Grams x)) as Hl.
  { unfold var_size, var_bits. change (var_ln t_Grams) with 4%nat. rewrite take_app_length' by (by rewrite Z_to_bits_length).
    rewrite bits_to_Z_of_Z, length_app, !Z_to_bits_length, Z.mod_small; [lia|]. unfold t_Grams in *. cbn. lia. }
  unfold var_shape. rewrite Hl, Nat.eqb_refl. rewrite (proj2 (Nat.leb_le _ _)); [done|].
  unfold var_bits. rewrite length_app, Z_to_bits_length. change (var_ln t_Grams) with 4%nat. lia.
Qed.
Lemma cc_bits_shape g e : var_fits t_Grams g -> cc_shape (cc_bits g e) (cc_refs e) = true.
Proof.
  intros Hg. pose proof (var_bits_shape g Hg) as Hv. unfold var_shape in Hv. rewrite !andb_true_iff, Nat.leb_le, !Nat.eqb_eq in Hv.
  destruct Hv as [[H4 Hl] _]. unfold cc_shape, cc_bits. rewrite var_size_app, length_app by done. rewrite <- Hl. cbn [length].
  rewrite app_nth2, Nat.sub_diag by lia. rewrite (proj2 (Nat.leb_le _ _)) by lia.
  rewrite (proj2 (Nat.eqb_eq _ (S _))) by lia. by destruct e.
Qed.

Lemma ex_tag cs bits refs : slice_is cs (false :: bits) refs -> get_msg_tag cs = tag_int_msg.
Proof. intros Hcs. cbn. by rewrite (slice_is_prefetch _ _ _ _ Hcs) by (cbn; lia). Qed.

Lemma ex_pack_is info cs : ex_pack info = Some cs ->
  addr_shape (slice_bits (src info)) (slice_refs (src info)) = true /\
  addr_shape (slice_bits (dest info)) (slice_refs (dest info)) = true /\
  cc_shape (slice_bits (value info)) (slice_refs (value info)) = true /\
  var_shape (slice_bits (extra_flags info)) (slice_refs (extra_flags info)) = true /\
  var_shape (slice_bits (fwd_fee info)) (slice_refs (fwd_fee info)) = true /\
  slice_is cs (false :: [ihr_disabled info; bounce info; bounced info] ++ slice_bits (src info) ++ slice_bits (dest info) ++
      slice_bits (value info) ++ slice_bits (extra_flags info) ++ slice_bits (fwd_fee info) ++
      Z_to_bits 64 (created_lt info) ++ Z_to_bits 32 (created_at info))
    (slice_refs (src info) ++ slice_refs (dest info) ++ slice_refs (value info) ++ slice_refs (extra_flags info) ++ slice_refs (fwd_fee info)).
Proof.
  unfold ex_pack. destruct (_ && _) eqn:Esh; [|done]. rewrite !andb_true_iff in Esh. destruct Esh as [[[[H1 H2] H3] H4] H5]. intros E.
  apply bind_Some in E as (? & ->%store_long_inv & E). apply bind_Some in E as (? & ->%store_bits_inv & E).
  do 5 apply bind_Some in E as (? & ->%append_slice_inv & E).
  do 2 apply bind_Some in E as (? & ->%store_long_inv & E). apply finalize_slice_is in E.
  split_and!; [done..|]. rewrite !extended_extended in E. unfold extended, empty_builder in E. cbn [cb_bits cb_refs] in E.
  match type of E with slice_is _ ?b ?r => match goal with |- slice_is _ ?b' ?r' =>
    replace b' with b; [replace r' with r; [exact E|]|] end end.
  - cbn [app]. by rewrite ?app_nil_r, <- ?app_assoc.
  - cbn [app]. by rewrite <- ?app_assoc.
Qed.

#[export] Instance ex_tlb_laws : TlbLaws.
Proof.
  split.
  - intros info cs init body cb c Hcs Hcb Hc _. cbn in Hcs, Hcb. destruct (ex_pack_is _ _ Hcs) as (S1 & S2 & S3 & S4 & S5 & Hi).
    unfold ex_pack_message in Hcb. cbn [m_info m_init m_body] in Hcb.
    apply bind_Some in Hcb as (? & ->%append_slice_inv & Hcb). apply bind_Some in Hcb as (? & ->%append_slice_inv & ->%append_slice_inv).
    assert (exists bits refs, slice_is (slice_of_cell c) (slice_bits cs ++ bits) (slice_refs cs ++ refs)) as (bits & refs & Hsl).
    { unfold finalize, create in Hc. destruct (cell_info _); [|done]. osome Hc. rewrite !extended_extended. unfold extended. cbn.
      rewrite <- ?app_assoc. eexists _, _. apply (slice_of_cell_is (DataCell false _ _)). }
    rewrite (is_bits _ _ _ Hi), (is_refs _ _ _ Hi) in Hsl. cbn [app] in Hsl.
    split; [by eapply ex_tag|]. rewrite <- !app_assoc in Hsl.
    destruct (ex_unpack_is _ [ihr_disabled info; bounce info; bounced info] _ _ _ _ _ _ _ _ _ _ _ _ _ _ eq_refl S1 S2 S3 S4 S5 Hsl)
      as (info' & rest & Hu & Iv & Ie & If).
    exists info', rest. split; [exact Hu|]. unfold same_slice.
    split_and!; intros b r [Hb Hr _]; subst b r; done.
  - done.
  - intros cs info rest Hu. cbn in Hu. unfold ex_unpack in Hu. destruct (fetch_ulong 4 cs) as [fl cs1]. destruct (fl <? 8); [|done].
    apply bind_Some in Hu as ([s cs2] & Es & Hu). apply bind_Some in Hu as ([d cs3] & Ed & Hu).
    apply bind_Some in Hu as ([v cs4] & _ & Hu). apply bind_Some in Hu as ([e cs5] & _ & Hu). apply bind_Some in Hu as ([f cs6] & _ & Hu).
    destruct (have 96 cs6); [|done]. destruct (fetch_ulong 64 cs6) as [lt' cs7]. destruct (fetch_ulong 32 cs7) as [at' cs8].
    osome Hu. cbn. unfold ex_addr in Es, Ed.
    apply bind_Some in Es as ([? ?] & _ & Es). apply bind_Some in Ed as ([? ?] & _ & Ed).
    destruct (ex_validate_addr _) eqn:V1 in Es; [|done]. destruct (ex_validate_addr _) eqn:V2 in Ed; [|done].
    osome Es. osome Ed. done.
  - intros cs flags s d g e ef ff lt at_ bits refs Hf Hs Hd Vg Ve Vf Hsl. unfold int_msg_bits in Hsl. cbn [app] in Hsl.
    split; [by eapply ex_tag|]. rewrite <- !app_assoc in Hsl.
    apply (ex_unpack_is cs flags (slice_bits s) (slice_refs s) (slice_bits d) (slice_refs d) (cc_bits g e) (cc_refs e)
      (var_bits t_Grams ef) [] (var_bits t_Grams ff) [] lt at_ bits refs); try done.
    + by apply cc_bits_shape.
    + by apply var_bits_shape.
    + by apply var_bits_shape.
Qed.
End codec.

(** ** A machine; extra currencies in dictionaries *)

#[export] Instance ex_extra : ExtraDict := extra_dict (H := toy_sha).
#[export] Instance ex_extra_laws : ExtraLaws := extra_laws (H := toy_sha).

Definition ex_addr_bits (x : Z) : list bool := [true; false; false] ++ Z_to_bits 8 0 ++ Z_to_bits 256 x.
Definition ex_message (bounce : bool) (from to value : Z) : Cell :=
  DataCell false ([false; true; bounce; false] ++ ex_addr_bits from ++ ex_addr_bits to ++ var_bits t_Grams value ++ [false]
    ++ var_bits t_Grams 0 ++ var_bits t_Grams 0 ++ Z_to_bits 64 7 ++ Z_to_bits 32 0 ++ [false; false]) [].
(** The code sends 300000000 nanograms to account 9. *)
Definition ex_actions : Cell :=
  DataCell false (Z_to_bits 32 0x0ec3c86d ++ Z_to_bits 8 1) [DataCell false [] []; ex_message true 5 9 300000000].

#[export] Instance ex_env : TransactionEnv := {
  run_vm t limit max credit :=
    Some (mkVmOutcome 0 false true (Z.min 1500 (Z.max 0 limit)) (Z.max 0 limit) 0 10 0 None (Some ex_actions));
  precompiled_contract _ := None;
  precompiled_implementation _ := None;
  is_address_suspended _ _ := false;
  replace_roots _ _ := stat_cells 1;
  get_public_libraries_count _ := 0
}.
#[export] Instance ex_env_laws : EnvLaws.
Proof.
  split; cbn.
  - eauto.
  - intros t limit max credit r [= <-] Hl. cbn. lia.
  - done.
Qed.

Definition ex_limits : SizeLimitsConfig := mkSizeLimits (2 ^ 21) (2 ^ 13) 1000 512 65536 2048 256 2 8 26.
Definition ex_storage : StoragePhaseConfig := mkStorageCfg [mkStoragePrices 0 1 500 1000 500000] 100000000 1000000000 true 13.
Definition ex_gas : GasPrices := mkGasPrices 26214400 1000000 100 40000.
Definition ex_compute : ComputePhaseConfig := mkComputeCfg ex_gas 1000000 10000 true 13 ex_limits false true true.
Definition ex_prices : MsgPrices := mkMsgPrices 400000 26214400 2621440000 98304 21845 21845.
Definition ex_action_cfg : ActionPhaseConfig :=
  mkActionCfg 255 256 ex_prices ex_prices ex_limits
    (fun wc => if wc =? 0 then Some (mkWorkchain true (fun n => n =? 256)) else None)
    true true true true true true true None true 13.

Definition ex_account : Account :=
  let me := slice_of_cell (DataCell false (ex_addr_bits 5) []) in
  mkAccount acc_active false false false 0 0 (Z_to_bits 32 0) false 0 (Z_to_bits 256 5) (Z_to_bits 256 5) me me 100 90 [] 1000
    (mkStorageUsed 3 500) None None (mkCC (Some 1000000000) None) (Some 0) [] (Some (DataCell false [true] [])) None None [].

Lemma ex_prices_ok : msg_prices_ok ex_prices.
Proof. vm_compute. intuition congruence. Qed.
Lemma ex_versioned : versioned_action_cfg ex_action_cfg.
Proof. vm_compute. intuition congruence. Qed.
Lemma ex_gas_ok : gas_prices_ok ex_gas.
Proof. vm_compute. intuition congruence. Qed.

(** The account receives 500000000 nanograms and sends some of them. *)
Definition ex_inbound : Cell := ex_message true 7 5 500000000.
Notation ex_run :=
  (@impl_create_ordinary_transaction toy_sha ex_extra (@ex_tlb toy_sha) ex_env ex_inbound ex_account 2000 200
    ex_storage ex_compute ex_action_cfg false 0).

(** The run, evaluated: one message is sent. *)
Lemma ex_run_result :
  match ex_run with
  | inr t => grams (balance t) = Some 1198999969 /\ grams (total_fees t) = Some 733362 /\ length (out_msgs t) = 1%nat /\
             grams (blackhole_burned t) = Some 0
  | inl _ => False
  end.
Proof. vm_compute. done. Qed.

(** The flow of the run: 300266669 nanograms leave with the message. *)
Lemma currency_flow_witness :
  exists t, ex_run = inr t /\ length (out_msgs t) = 1%nat /\
    @exported ex_extra ex_extra_laws (@ex_tlb toy_sha) 13 None (out_msgs t) = 1500000000 - 1198999969 - 733362.
Proof.
  destruct ex_run as [e|t] eqn:E; pose proof ex_run_result as H; rewrite E in H; [destruct H|].
  destruct H as (Hb & Hf & Ho & Hz). exists t. split; [reflexivity|]. split; [exact Ho|].
  pose proof (@currency_flow toy_sha ex_extra ex_extra_laws (@ex_tlb toy_sha) (@ex_tlb_laws toy_sha) ex_env ex_action_cfg
    (conj ex_prices_ok ex_prices_ok) ex_versioned ex_inbound ex_account 2000 200 ex_storage ex_compute false 0 t
    (mkCC (Some 500000000) None) E eq_refl ltac:(discriminate) ltac:(vm_compute; reflexivity)) as [_ Hflow].
  specialize (Hflow None). unfold amount in Hflow. rewrite Hb, Hf, Hz in Hflow. cbn [acc_balance ex_account grams default] in Hflow.
  change (global_version ex_action_cfg) with 13 in Hflow. unfold default, id in Hflow. lia.
Defined.

(** The compute phase alone, on a transaction of the account *)
Definition ex_tx : Transaction :=
  (new_transaction ex_account tr_ord 200 2000 (Some ex_inbound)) <| msg_balance_remaining := mkCC (Some 500000000) None |>.
Notation ex_computed := (@prepare_compute_phase toy_sha ex_extra (@ex_tlb toy_sha) ex_env ex_compute ex_tx).
Lemma ex_computed_fees : (t ← ex_computed; cp ← compute_phase t; gas_fees cp) = Some 600000.
Proof. vm_compute. done. Qed.
Lemma compute_phase_solvent_witness : exists t, ex_computed = Some t /\ grams (balance t) = Some (1000000000 - 600000).
Proof.
  pose proof (@compute_phase_solvent toy_sha ex_extra (@ex_tlb toy_sha) ex_env ex_env_laws ex_compute ex_gas_ok
    ltac:(split; reflexivity || discriminate) ltac:(discriminate) ex_tx 1000000000 eq_refl ltac:(discriminate)
    (fun _ => ex_intro _ ex_inbound (conj eq_refl eq_refl))) as H.
  pose proof ex_computed_fees as Hf. destruct (prepare_compute_phase _ _) as [t|]; [|discriminate Hf].
  exists t. split; [reflexivity|]. destruct H as [(cp & g' & Hcp & Hg & _ & Hg') _].
  cbn [mbind option_bind] in Hf. rewrite Hcp in Hf. cbn [mbind option_bind] in Hf. rewrite Hg, Hg', Hf. reflexivity.
Defined.
