(* ===== verification/CollatorSpec.v ===== *)
(** * The currency of a block

    Whatever transactions the collator makes, the accounts stay well-formed, their
    transactions are ordered in time, and no currency is created or lost in the block. *)
From coqutil Require Import Datatypes.RecordSetters.
From stdpp Require Import gmap sorting relations.
From S2P Require Import Prelude BigInt Int256 Cells DataCell Uint128 Fees Currency StorageStat TxTypes TxPhases TxLibrary TxActions TxActionPhase Tx TxCommit Collator TxFlow TxActionFlow TxSpec.
Import TriangleBracketNotations.

(** ** Sums over accounts *)

Definition sum_accounts (f : list bool -> Account -> Z) (m : gmap (list bool) Account) : Z :=
  map_fold (fun x a s => f x a + s) 0 m.
Lemma sum_accounts_insert f m x a : m !! x = None -> sum_accounts f (<[x := a]> m) = f x a + sum_accounts f m.
Proof. intros Hx. unfold sum_accounts. rewrite map_fold_insert_L; [done| |done]. intros. lia. Qed.
Lemma sum_accounts_update f m x a b : m !! x = Some b ->
  sum_accounts f (<[x := a]> m) + f x b = sum_accounts f m + f x a.
Proof.
  intros Hx. rewrite <- insert_delete_eq, sum_accounts_insert by apply lookup_delete_eq.
  rewrite <- (insert_id m x b Hx) at 2. rewrite <- insert_delete_eq, sum_accounts_insert by apply lookup_delete_eq. lia.
Qed.

Lemma sorted_snoc l x : StronglySorted Z.lt l -> Forall (fun y => y < x) l -> StronglySorted Z.lt (l ++ [x]).
Proof.
  induction 1 as [|y l _ IH Hy]; intros Hx; cbn; [repeat constructor|]. inversion Hx; subst.
  constructor; [by apply IH|]. apply Forall_app. split; [done|]. by constructor.
Qed.

(** ** Accounts *)

(** An account between two transactions: only an active one has code, data and libraries,
    one that does not exist has no balance; its transactions are in order. *)
Record acc_ok (a : Account) : Prop := mkAccOk {
  ao_balance : cc_is_valid (acc_balance a) = true;
  ao_status : status a <> acc_deleted;
  ao_nonexist : status a = acc_nonexist -> cc_is_zero (acc_balance a) = true;
  ao_inactive : status a <> acc_active ->
    acc_code a = None /\ acc_data a = None /\ acc_library a = None /\ acc_tick a = false /\ acc_tock a = false;
  ao_sorted : StronglySorted Z.lt (map fst (transactions a));
  ao_before : Forall (fun p => fst p < last_trans_end_lt a) (transactions a)
}.

Section accounts.
Context `{ShaI : Sha256} `{DictI : ExtraDict} `{EnvS : StateEnv}.

Lemma init_new_ok wc x a : init_new wc x = Some a -> acc_ok a /\ acc_balance a = cc_zero /\ transactions a = [].
Proof.
  unfold init_new. intros E. apply bind_Some in E as (? & _ & E). apply bind_Some in E as (m & _ & E). osome E.
  split; [|done]. split; cbn; try done; constructor.
Qed.

(** The new state is computed without moving currency. *)
Lemma settle_status_money t : same_money t (settle_status t).
Proof. unfold settle_status. destruct (_ && cc_is_zero (balance t)); rsimp; (destruct (_ && negb _); split; rsimp; done). Qed.
Lemma store_account_state_money cfg t cb cb' t' h : store_account_state cfg t cb = Some (cb', t', h) -> same_money t t'.
Proof.
  unfold store_account_state. cbv zeta. destruct (acc_status t); intros E; try done.
  - apply bind_Some in E as (? & _ & E). osome E. by split.
  - apply bind_Some in E as (fh & _ & E). destruct (bits_eqb fh _).
    + apply bind_Some in E as (? & _ & E). osome E. destruct (13 <=? _); split; rsimp; done.
    + apply bind_Some in E as (? & _ & E). apply bind_Some in E as (? & _ & E). osome E. split; rsimp; done.
  - apply bind_Some in E as (? & _ & E). apply bind_Some in E as (? & _ & E). osome E. by split.
Qed.
Lemma compute_state_money cfg t ns t' : compute_state cfg t = Some (ns, t') -> same_money t t'.
Proof.
  unfold compute_state. cbv zeta. pose proof (settle_status_money t) as S. set (t1 := settle_status t) in *. clearbody t1.
  intros E. destruct (acc_status t1).
  1, 5: obind E; osome E; done.
  all: apply bind_Some in E as (? & _ & E); apply bind_Some in E as (? & _ & E);
    apply bind_Some in E as ([[cb t2] h] & S2%store_account_state_money & E); apply bind_Some in E as (? & _ & E);
    apply bind_Some in E as ([used dh] & _ & E); apply bind_Some in E as (? & _ & E); apply bind_Some in E as (? & _ & E);
    osome E; by eapply same_money_trans.
Qed.

Lemma deactivate_inv a a' : deactivate a = Some a' ->
  status a <> acc_active /\ status a' = status a /\ acc_balance a' = acc_balance a /\ transactions a' = transactions a /\
  last_trans_end_lt a' = last_trans_end_lt a /\
  acc_code a' = None /\ acc_data a' = None /\ acc_library a' = None /\ acc_tick a' = false /\ acc_tock a' = false /\
  (status a = acc_nonexist -> cc_is_zero (acc_balance a) = true).
Proof.
  unfold deactivate, forget_addr_rewrite_length. intros E.
  apply bind_Some in E as (? & Hs%fail_unless_Some%negb_true_iff%bool_decide_eq_false & E). cbv zeta in E.
  destruct (bool_decide (status _ = acc_nonexist) || _) in E.
  all: rsimp; destruct (bool_decide (status a = acc_nonexist) && negb (cc_is_zero (acc_balance a))) eqn:Ez; [done|]; osome E; rsimp;
    split_and!; try done; intros Hn; rewrite (bool_decide_eq_true_2 _ Hn) in Ez; by apply negb_false_iff in Ez.
Qed.

Lemma commit_address_frame t a a' : commit_address t a = Some a' ->
  transactions a' = transactions a /\ last_trans_end_lt a' = last_trans_end_lt a.
Proof.
  unfold commit_address, forget_addr_rewrite_length, init_rewrite_addr, set_addr_rewrite_length, compute_my_addr. intros E.
  destruct (force_remove_anycast_address t); [osome E; rsimp; done|].
  destruct (orig_addr_rewrite t) as [orig|]; [|by osome E]. destruct (_ && _); [|by osome E].
  apply bind_Some in E as (? & _ & E). apply bind_Some in E as (a1 & E1 & E). cbv zeta in E.
  apply bind_Some in E as (? & _ & E). apply bind_Some in E as (? & _ & E). apply bind_Some in E as (? & _ & E). osome E. rsimp.
  destruct (_ || _) in E1; [done|]. destruct (addr_rewrite_length_set a).
  - destruct (_ =? _); [|done]. by osome E1.
  - osome E1. rsimp. done.
Qed.

(** The account that [commit] leaves *)
Lemma commit_ok root ns t a a' : commit root ns t a = Some a' -> acc_ok a -> cc_is_valid (balance t) = true ->
  acc_ok a' /\ acc_balance a' = balance t /\ transactions a' = transactions a ++ [(start_lt t, root)].
Proof.
  unfold commit. intros E [_ _ _ _ Hsort Hbef] Hv.
  apply bind_Some in E as (? & Hlt%fail_unless_Some & E). apply andb_true_iff in Hlt as [H1%Z.leb_le H2%Z.ltb_lt].
  apply bind_Some in E as (a1 & [Ht1 Hl1]%commit_address_frame & E). cbv zeta in E.
  set (a2 := a1 <| status := _ |> <| last_trans_lt := _ |> <| last_trans_end_lt := _ |> <| last_trans_hash := _ |>
    <| acc_last_paid := _ |> <| storage_used := _ |> <| storage_dict_hash := _ |> <| acc_storage := _ |> <| acc_balance := _ |>
    <| acc_due_payment := _ |> <| state_hash := _ |> <| acc_my_addr := _ |> <| acc_code := _ |> <| acc_data := _ |>
    <| acc_library := _ |>) in E.
  assert (status a2 <> acc_deleted /\ acc_balance a2 = balance t /\ transactions a2 = transactions a /\
          last_trans_end_lt a2 = end_lt t) as (Hs2 & Hb2 & Ht2 & Hl2).
  { subst a2. rsimp. split_and!; try done. destruct (bool_decide (acc_status t = acc_deleted)) eqn:Ed; [done|].
    by apply bool_decide_eq_false in Ed. }
  clearbody a2. apply bind_Some in E as (a3 & E3 & E).
  assert (status a3 = status a2 /\ acc_balance a3 = balance t /\ transactions a3 = transactions a /\
          last_trans_end_lt a3 = end_lt t /\ (status a2 = acc_nonexist -> cc_is_zero (balance t) = true) /\
          (status a2 <> acc_active -> acc_code a3 = None /\ acc_data a3 = None /\ acc_library a3 = None /\
             acc_tick a3 = false /\ acc_tock a3 = false)) as (Hs3 & Hb3 & Ht3 & Hl3 & Hz3 & Hi3).
  { destruct (bool_decide (status a2 = acc_active)) eqn:Ea.
    - apply bool_decide_eq_true in Ea. osome E3. rsimp. split_and!; try done. by rewrite Ea.
    - apply deactivate_inv in E3 as (? & ? & Hb & Ht & Hl & ? & ? & ? & ? & ? & Hz). rewrite Hb2 in *.
      split_and!; try congruence; done. }
  clear E3. osome E. rsimp. split_and!; [|done|by rewrite Ht3].
  split; rsimp; rewrite ?Hb3, ?Hs3, ?Hl3, ?Ht3; try done.
  - rewrite map_app. apply sorted_snoc; [done|]. apply Forall_map. revert Hbef. apply Forall_impl. cbn. lia.
  - apply Forall_app. split; [|by constructor]. revert Hbef. apply Forall_impl. cbn. lia.
Qed.
End accounts.

(** ** The block *)

Section block.
Context `{ShaI : Sha256} `{DictI : ExtraDict} `{LawsE : !ExtraLaws} `{TlbI : BlockTlb} `{LawsT : !TlbLaws} `{EnvI : TransactionEnv}.
Context `{EnvS : StateEnv} `{EnvC : CollatorEnv}.
Context (blk : BlockConfig).
Notation version := (global_version (action_phase_cfg blk)).

Hypothesis prices : msg_prices_ok (fwd_std (action_phase_cfg blk)) /\ msg_prices_ok (fwd_mc (action_phase_cfg blk)).
Hypothesis versioned : versioned_action_cfg (action_phase_cfg blk).
(** The accounts of the previous state are well-formed, and have no transactions in the block. *)
Hypothesis loaded : forall x a, load_account x = Some (Some a) -> acc_ok a /\ transactions a = [].

(** What an account had before the block, and what the messages of the transactions brought *)
Definition initial (k : option Z) (x : list bool) (_ : Account) : Z :=
  match load_account x with Some (Some a) => amount k (acc_balance a) | _ => 0 end.
Definition held (k : option Z) (_ : list bool) (a : Account) : Z := amount k (acc_balance a).
Definition imported (k : option Z) (msg : option Cell) : Z :=
  match msg with
  | Some m => match money_imported version m with Some v => amount k v | None => 0 end
  | None => 0
  end.
Definition imports (k : option Z) (txs : list (option Cell * Transaction)) : Z :=
  foldr (fun p s => imported k (fst p) + s) 0 txs.
Definition fees (k : option Z) (txs : list (option Cell * Transaction)) : Z :=
  foldr (fun p s => amount k (total_fees (snd p)) + s) 0 txs.

(** A step of the collator on an inbound message that the validator can account for, or on a
    special account *)
Inductive block_step (c c' : Collator) : Prop :=
| ordinary_created msg after_lt last_proc_lt emitted_lt root :
    is_Some (money_imported version msg) ->
    create_ordinary_transaction blk msg after_lt last_proc_lt emitted_lt c = tx_created root c' -> block_step c c'
| ordinary_ignored msg after_lt last_proc_lt emitted_lt :
    create_ordinary_transaction blk msg after_lt last_proc_lt emitted_lt c = tx_ignored c' -> block_step c c'
| ticktock smcs tick_tock mask emitted_lt :
    create_ticktock_transactions blk smcs tick_tock mask emitted_lt c = Some c' -> block_step c c'.

Definition empty_block (start : Z) : Collator := mkCollator ∅ [] (2 ^ 64 - 1) start cc_zero [].

Record block_ok (c : Collator) : Prop := mkBlockOk {
  bo_accounts : forall x a, accounts c !! x = Some a -> acc_ok a;
  bo_times : forall x a, accounts c !! x = Some a -> transactions a <> [] -> last_trans_end_lt a <= max_lt c;
  bo_burned : cc_is_valid (burned c) = true;
  bo_exports : Forall (exportable version) (map nm_msg (new_msgs c));
  bo_flow : forall k, sum_accounts (initial k) (accounts c) + imports k (committed_txs c) =
    sum_accounts (held k) (accounts c) + exported version k (map nm_msg (new_msgs c)) + fees k (committed_txs c) + amount k (burned c)
}.

Lemma imports_snoc k l m t : imports k (l ++ [(m, t)]) = imports k l + imported k m.
Proof. unfold imports. rewrite foldr_app. cbn. generalize (imported k m). induction l as [|p l IH]; intros z; cbn; [lia|]. rewrite IH. lia. Qed.
Lemma fees_snoc k l m t : fees k (l ++ [(m, t)]) = fees k l + amount k (total_fees t).
Proof. unfold fees. rewrite foldr_app. cbn. generalize (amount k (total_fees t)). induction l as [|p l IH]; intros z; cbn; [lia|]. rewrite IH. lia. Qed.

(** The account that a transaction works on *)
Lemma make_account_ok x force c a c' : make_account blk x force c = Some (a, c') -> block_ok c ->
  block_ok c' /\ accounts c' !! x = Some a /\ acc_ok a.
Proof.
  unfold make_account. intros E Hok. destruct (accounts c !! x) as [a0|] eqn:Hx.
  { osome E. split_and!; [done|done|]. by eapply bo_accounts. }
  apply bind_Some in E as (a1 & E1 & E). apply bind_Some in E as (? & _ & E). osome E.
  assert (acc_ok a1 /\ transactions a1 = [] /\ forall k, initial k x a1 = amount k (acc_balance a1)) as (Ha & Ht & Hi).
  { unfold make_account_from in E1. unfold initial. destruct (load_account x) as [[a0|]|] eqn:El; simplify_eq/=.
    - by destruct (loaded _ _ El).
    - destruct force; [|done]. apply init_new_ok in E1 as (? & -> & ?). split_and!; [done..|]. intros k. by rewrite amount_zero. }
  rsimp. split_and!; [|by rewrite lookup_insert_eq|done]. destruct Hok as [H1 H2 H3 He H4]. split; rsimp.
  - intros y b [[-> ->]|[_ ?]]%lookup_insert_Some; [done|eauto].
  - intros y b [[-> ->]|[_ ?]]%lookup_insert_Some; [done|eauto].
  - done.
  - done.
  - intros k. rewrite !sum_accounts_insert, Hi by done. unfold held at 1. specialize (H4 k). lia.
Qed.

Lemma register_new_msgs_frame root lt msgs : forall i c, let c' := register_new_msgs root lt i msgs c in
  accounts c' = accounts c /\ max_lt c' = max_lt c /\ burned c' = burned c /\ committed_txs c' = committed_txs c /\
  map nm_msg (new_msgs c') = map nm_msg (new_msgs c) ++ msgs.
Proof.
  induction msgs as [|m l IH]; intros i c; cbv zeta; cbn [register_new_msgs]; [by rewrite app_nil_r|].
  destruct (IH (i + 1) (register_new_msg (mkNewOutMsg (u64 (lt + i + 1)) m root i) c)) as (-> & -> & -> & -> & ->).
  unfold register_new_msg. rsimp. split_and!; try done. by rewrite map_app, <- app_assoc.
Qed.

(** A transaction that conserves currency leaves the block in order, up to what it burned. *)
Lemma finish_transaction_ok x a msg t c root c' :
  finish_transaction blk x a msg t c = Some (root, c') -> block_ok c -> accounts c !! x = Some a -> acc_ok a ->
  tx_ok version t ->
  (forall k, amount k (acc_balance a) + imported k msg =
     amount k (balance t) + exported version k (out_msgs t) + amount k (total_fees t) + amount k (blackhole_burned t)) ->
  block_ok (c' <| burned := cc_add_to (burned c') (blackhole_burned t) |>) /\ burned c' = burned c.
Proof.
  unfold finish_transaction. intros E Hok Hx Ha Ht Hflow. apply bind_Some in E as ([ns t1] & S%compute_state_money & E).
  apply bind_Some in E as (r & _ & E). apply bind_Some in E as (a1 & E1 & E). cbv zeta in E.
  destruct Ht as [Vb Vf Ve _ [Vbu Ebu]]. rewrite <- (sm_balance _ _ S) in Vb.
  pose proof (commit_ok _ _ _ _ _ E1 Ha Vb) as (Ha1 & Hb1 & Ht1). rewrite (sm_balance _ _ S) in Hb1.
  rewrite (sm_out _ _ S) in E. set (c0 := c <| accounts := _ |> <| committed_txs := _ |>) in E.
  pose proof (register_new_msgs_frame r (start_lt t1) (out_msgs t) 0 c0) as F. cbv zeta in F.
  set (c1 := register_new_msgs _ _ _ _ _) in *. clearbody c1. subst c0. rsimp. destruct F as (Fa & Fm & Fb & Ft & Fn).
  unfold update_max_lt in E. apply bind_Some in E as (c2 & E2 & E). apply bind_Some in E2 as (? & _ & E2). osome E2. osome E.
  assert (let c' := if max_lt c1 <? last_trans_end_lt a1 then c1 <| max_lt := last_trans_end_lt a1 |> else c1 in
    accounts c' = accounts c1 /\ burned c' = burned c /\ committed_txs c' = committed_txs c1 /\
    new_msgs c' = new_msgs c1 /\ max_lt c1 <= max_lt c' /\ last_trans_end_lt a1 <= max_lt c') as G.
  { cbv zeta. destruct (Z.ltb_spec (max_lt c1) (last_trans_end_lt a1)); rsimp; split_and!; try done; lia. }
  cbv zeta in G. set (c2 := if max_lt c1 <? _ then _ else _) in *. clearbody c2. destruct G as (Ga & Gb & Gt & Gn & Gm & Gl).
  split; [|done]. destruct Hok as [H1 H2 H3 He H4]. split; rsimp; rewrite ?Ga, ?Gb, ?Gt, ?Gn, ?Fa, ?Fb, ?Ft, ?Fn.
  - intros y b [[-> <-]|[_ ?]]%lookup_insert_Some; [done|eauto].
  - intros y b [[-> <-]|[_ Hy]]%lookup_insert_Some; [done|]. intros Hne. specialize (H2 _ _ Hy Hne). lia.
  - unfold cc_add_to, cc_add, cc_is_valid in *. destruct (burned c) as [[?|] ?], (blackhole_burned t) as [[?|] ?]; cbn in *; subst; done.
  - by apply Forall_app.
  - intros k. rewrite imports_snoc, fees_snoc, exported_app, amount_add.
    + rewrite (sm_fees _ _ S). pose proof (sum_accounts_update (initial k) (accounts c) x a1 a Hx) as U1.
      pose proof (sum_accounts_update (held k) (accounts c) x a1 a Hx) as U2. unfold held at 2 4 in U2. rewrite Hb1 in U2.
      unfold initial at 2 4 in U1. specialize (Hflow k). specialize (H4 k). lia.
    + unfold cc_add_to, cc_add, cc_is_valid in *. destruct (burned c) as [[?|] ?], (blackhole_burned t) as [[?|] ?]; cbn in *; subst; done.
Qed.
(** ** Transactions *)

Lemma block_ok_burn_nothing c : block_ok (c <| burned := cc_add_to (burned c) cc_zero |>) -> block_ok c.
Proof.
  intros [H1 H2 H3 He H4]. rsimp.
  assert (cc_add_to (burned c) cc_zero = burned c) as Hz.
  { unfold cc_add_to, cc_add, cc_is_valid in *. destruct (burned c) as [[g|] [e|]]; cbn in *; rewrite ?Z.add_0_r; done. }
  rewrite Hz in *. by split.
Qed.

Lemma load_ordinary_slice msg cs : load_ordinary msg = Some cs -> cs = slice_of_cell msg.
Proof. unfold load_ordinary. repeat case_match; congruence. Qed.

Lemma ordinary_created_ok msg after_lt last_proc_lt emitted_lt c root c' :
  create_ordinary_transaction blk msg after_lt last_proc_lt emitted_lt c = tx_created root c' ->
  is_Some (money_imported version msg) -> block_ok c -> block_ok c'.
Proof.
  unfold create_ordinary_transaction. intros E [imp Himp] Hok.
  destruct (load_ordinary msg) as [cs|] eqn:Ecs; [|done]. apply load_ordinary_slice in Ecs as ->.
  destruct (match get_msg_tag _ with tag_ext_in_msg => _ | tag_int_msg => _ | tag_other_msg => _ end) as [r|[dest external]] eqn:Etag.
  { exfalso. repeat case_match; simplify_eq/=. }
  assert (external = true -> get_msg_tag (slice_of_cell msg) = tag_ext_in_msg) as Hext.
  { intros ->. destruct (get_msg_tag _); [|done|]; repeat case_match; by simplify_eq/=. }
  clear Etag. destruct (extract_std_address dest) as [[wc x]|]; [|done]. destruct (negb _); [done|].
  destruct (make_account blk x true c) as [[a c1]|] eqn:Ea; [|done]. apply make_account_ok in Ea as (Hok1 & Hx & Ha); [|done].
  cbv zeta in E. destruct (impl_create_ordinary_transaction _ _ _ _ _ _ _ _ _) as [code|t] eqn:Et; [by destruct (_ =? _)|].
  destruct (ordinary_flow _ prices versioned _ _ _ _ _ _ _ _ _ _ Et (ao_balance _ Ha) Hext Himp) as [Ht Hflow].
  destruct (finish_transaction _ _ _ _ _ _) as [[root1 c2]|] eqn:Ef; [|done]. injection E as _ <-.
  eapply finish_transaction_ok in Ef as [? _]; [done..|]. intros k. unfold imported. rewrite Himp. apply Hflow.
Qed.

Lemma ordinary_ignored_ok msg after_lt last_proc_lt emitted_lt c c' :
  create_ordinary_transaction blk msg after_lt last_proc_lt emitted_lt c = tx_ignored c' -> block_ok c -> block_ok c'.
Proof.
  unfold create_ordinary_transaction. intros E Hok. destruct (load_ordinary msg) as [cs|]; [|done].
  destruct (match get_msg_tag _ with tag_ext_in_msg => _ | tag_int_msg => _ | tag_other_msg => _ end) as [r|[dest external]] eqn:Etag.
  { subst r. destruct (get_msg_tag cs); repeat case_match; by simplify_eq/=. }
  clear Etag. destruct (extract_std_address dest) as [[wc x]|]; [|by simplify_eq]. destruct (negb _); [by simplify_eq|].
  destruct (make_account blk x true c) as [[a c1]|] eqn:Ea; [|done]. apply make_account_ok in Ea as (Hok1 & _ & _); [|done].
  cbv zeta in E. destruct (impl_create_ordinary_transaction _ _ _ _ _ _ _ _ _) as [code|t].
  - destruct (_ =? _); [by simplify_eq|done].
  - by destruct (finish_transaction _ _ _ _ _ _) as [[]|].
Qed.

(** A tick-tock transaction brings nothing and burns nothing. *)
Lemma ticktock_phases_flow t t' : ticktock_phases blk t = Some t' -> tx_ok version t -> out_msgs t = [] ->
  tx_ok version t' /\ (forall k, holdings version k t' = holdings version k t) /\ blackhole_burned t' = blackhole_burned t.
Proof.
  unfold ticktock_phases. intros E Hok Ho. apply bind_Some in E as (t1 & E1 & E).
  apply storage_flow with (version := version) in E1 as [(Hok1 & Hh1 & Ho1 & Bu1) _]; [|done].
  apply bind_Some in E as (t2 & E2 & E). apply compute_flow with (version := version) in E2 as (Hok2 & Hh2 & Ho2 & Bu2); [|done].
  apply bind_Some in E as (cp & _ & E). apply bind_Some in E as (? & _ & E).
  destruct (cp_success cp).
  - apply action_flow in E as (? & Hh & ?); [|done|done|congruence]. split_and!; [done| |congruence]. intros k. by rewrite Hh, Hh2, Hh1.
  - osome E. split_and!; [done| |congruence]. intros k. by rewrite Hh2, Hh1.
Qed.

Lemma ticktock_ok x req_lt mask emitted_lt c c' :
  create_ticktock_transaction blk x req_lt mask emitted_lt c = Some c' -> block_ok c -> block_ok c'.
Proof.
  unfold create_ticktock_transaction. intros E Hok. apply bind_Some in E as ([a c1] & Ea & E).
  apply make_account_ok in Ea as (Hok1 & Hx & Ha); [|done]. destruct (negb _); [by osome E|]. cbv zeta in E.
  apply bind_Some in E as (? & _ & E). apply bind_Some in E as (t & Et & E).
  apply fmap_Some in E as ([root c2] & Ef & ->). cbn [snd].
  match type of Et with ticktock_phases _ (new_transaction _ ?ty ?lt ?now _) = _ =>
    destruct (new_transaction_ok (action_phase_cfg blk) a ty lt now None (ao_balance _ Ha)) as [Hok0 Hh0] end.
  apply ticktock_phases_flow in Et as (Ht & Hh & Hbu); [|done|done].
  change (blackhole_burned (new_transaction _ _ _ _ _)) with cc_zero in Hbu.
  eapply finish_transaction_ok in Ef as [Hok2 _]; [|done..|].
  - rewrite Hbu in Hok2. by apply block_ok_burn_nothing.
  - intros k. specialize (Hh k). rewrite Hh0 in Hh. unfold holdings in Hh. cbn [imported]. lia.
Qed.
Lemma ticktock_loop_ok smcs tick_tock req_lt mask emitted_lt : forall c c',
  ticktock_loop blk smcs tick_tock req_lt mask emitted_lt c = Some c' -> block_ok c -> block_ok c'.
Proof.
  induction smcs as [|x l IH]; intros c c' E Hok; cbn [ticktock_loop] in E; [by osome E|]. cbv zeta in E.
  apply bind_Some in E as (c1 & E1 & E). eapply IH; [exact E|].
  destruct (_ && _); [by eapply ticktock_ok|by osome E1].
Qed.

Lemma block_step_ok c c' : block_step c c' -> block_ok c -> block_ok c'.
Proof.
  intros [msg alt plt elt root Hm E|msg alt plt elt E|smcs tt mask elt E] Hok.
  - by eapply ordinary_created_ok.
  - by eapply ordinary_ignored_ok.
  - by eapply ticktock_loop_ok.
Qed.
Lemma empty_block_ok start : block_ok (empty_block start).
Proof.
  split; cbn; [intros ?? Hx|intros ?? Hx|done|constructor|]; [by rewrite lookup_empty in Hx..|].
  intros k. unfold sum_accounts. rewrite !map_fold_empty, amount_zero. done.
Qed.
Lemma block_reachable_ok start c : rtc block_step (empty_block start) c -> block_ok c.
Proof. intros Hr. eapply (rtc_ind_r block_ok); [apply empty_block_ok| |exact Hr]. intros. by eapply block_step_ok. Qed.

(** C2: A block neither creates nor destroys currency, whatever transactions the collator makes on the
    inbound messages and the special accounts: for nanograms and for every extra currency, what the
    accounts of the block had in the previous state and what the inbound messages brought is what the
    accounts have now, with what the new messages carry, the fees of the transactions and what was
    burned. Every account stays well-formed (only an active one has code, data and libraries, one that
    does not exist has nothing), its transactions are at increasing logical times, and none ends after
    the last logical time of the block. *)
Theorem block_conserves start c : rtc block_step (empty_block start) c ->
  (forall x a, accounts c !! x = Some a -> acc_ok a /\ (transactions a <> [] -> last_trans_end_lt a <= max_lt c)) /\
  Forall (exportable version) (map nm_msg (new_msgs c)) /\
  forall k, sum_accounts (initial k) (accounts c) + imports k (committed_txs c) =
    sum_accounts (held k) (accounts c) + exported version k (map nm_msg (new_msgs c))
    + fees k (committed_txs c) + amount k (burned c).
Proof. intros [H1 H2 _ He H4]%block_reachable_ok. split_and!; [eauto|done|done]. Qed.
End block.
