(* ===== verification/CollatorExample.v ===== *)
(** * A block, run

    Two transactions: an account receives a message and sends another, which creates an
    account.  The last lemma is the witness of the theorem on blocks. *)
From coqutil Require Import Datatypes.RecordSetters.
From stdpp Require Import gmap relations.
From S2P Require Import Prelude BigInt Int256 Cells DataCell Dict DictLabel DictOrder Uint128 Fees Currency StorageStat TxTypes TxPhases TxLibrary TxActions TxActionPhase Tx TxCommit Collator TxFlow TxActionFlow TxSpec TxSolvent TxExample CollatorSpec.
Import TriangleBracketNotations.

(** ** A codec for the storage of an account *)

Section codec.
Context `{Sha256}.
Definition ex_unpack_storage (cs : CellSlice) : option AccountStorage :=
  if have 64 cs then
    let '(lt, cs) := fetch_ulong 64 cs in
    '(b, cs) ← ex_cc cs;
    Some (mkAccountStorage lt b cs)
  else None.
Definition ex_pack_storage (s : AccountStorage) : option CellSlice :=
  cb ← store_long_bool (as_last_trans_lt s) 64 empty_builder;
  cb ← append_cellslice_bool (as_balance s) cb;
  cb ← append_cellslice_bool (as_state s) cb;
  finalize_slice cb.
Definition ex_unpack_currency (cs : CellSlice) : option CurrencyRecord :=
  '(g, cs) ← ex_var cs;
  Some (mkCurrencyRecord g cs).
Definition ex_pack_currency (c : CurrencyRecord) : option CellSlice :=
  cb ← append_cellslice_bool (cr_grams c) empty_builder;
  cb ← append_cellslice_bool (cr_other c) cb;
  finalize_slice cb.

#[export] Instance ex_state_env : StateEnv := {
  csr_unpack_AccountStorage := ex_unpack_storage;
  csr_pack_AccountStorage := ex_pack_storage;
  csr_unpack_Currency := ex_unpack_currency;
  csr_pack_Currency := ex_pack_currency;
  validate_Account c := prefetch_ulong 1 (slice_of_cell c) =? 1;
  account_stat _ roots := Some (mkAccountStat (Z.of_nat (length roots)) 0 None)
}.

(** The previous state has one account; a transaction is written as its time and the new state. *)
Definition ex_load (x : list bool) : option (option Account) :=
  if bits_eqb x (Z_to_bits 256 5) then Some (Some ex_account) else None.
#[export] Instance ex_collator_env : CollatorEnv := {
  load_account := ex_load;
  belongs_to_shard _ := true;
  extract_std_address cs := a ← ex_std cs; Some (workchain_id a, address a);
  serialize _ ns t :=
    cb ← store_long_bool 7 4 empty_builder;
    cb ← store_long_bool (start_lt t) 64 cb;
    cb ← store_ref_bool (Some (ns_total_state ns)) cb;
    finalize cb
}.
End codec.

Definition ex_block : BlockConfig :=
  mkBlockCfg 0 2000 200 ex_storage ex_compute ex_action_cfg (mkSerializeCfg 13 true true false ex_limits).

Lemma ex_loaded x a : ex_load x = Some (Some a) -> acc_ok a /\ transactions a = [].
Proof.
  unfold ex_load. destruct (bits_eqb _ _); [|done]. intros [= <-]. split; [|done].
  split; cbn; try done; try constructor.
Qed.

(** ** The block *)

#[local] Instance toy_hash : Sha256 := toy_sha.
Notation ex_create msg c := (create_ordinary_transaction ex_block msg 0 0 (fun _ => None) c).

(** The first transaction sends a message to account 9, which does not exist; the second, on that
    message, returns it to the sender. *)
Definition ex_report (c : Collator) : option (list Z) * option (list Z) * Z * Z * Z :=
  (map fst ∘ transactions <$> accounts c !! Z_to_bits 256 5, map fst ∘ transactions <$> accounts c !! Z_to_bits 256 9,
   fees None (committed_txs c), imports ex_block None (committed_txs c), max_lt c).
Lemma ex_block_result :
  match ex_create ex_inbound (empty_block 200) with
  | tx_created _ c =>
      match new_msgs c with
      | m :: _ =>
          bool_decide (is_Some (money_imported 13 (nm_msg m))) = true /\
          match ex_create (nm_msg m) c with
          | tx_created _ c' =>
              ex_report c' = (Some [201], Some [203], 733362 + 133331, 800000000, 205) /\
              sum_accounts (initial None) (accounts c') = 1000000000 /\ sum_accounts (held None) (accounts c') = 1198999969 /\
              amount None (burned c') = 0
          | _ => False
          end
      | [] => False
      end
  | _ => False
  end.
Proof. vm_compute. split_and!; reflexivity. Qed.

(** The two messages carry 600133338 nanograms. *)
Lemma block_conserves_witness :
  exists c, rtc (block_step ex_block) (empty_block 200) c /\
    exported 13 None (map nm_msg (new_msgs c)) = 1800000000 - 1198999969 - (733362 + 133331).
Proof.
  pose proof ex_block_result as H.
  destruct (ex_create ex_inbound (empty_block 200)) as [| |r1 c1] eqn:E1; [destruct H..|].
  destruct (new_msgs c1) as [|m l]; [destruct H|]. destruct H as [Hm%bool_decide_eq_true H].
  destruct (ex_create (nm_msg m) c1) as [| |r2 c] eqn:E2; [destruct H..|]. destruct H as (Hr & Hi & Hh & Hb).
  assert (rtc (block_step ex_block) (empty_block 200) c) as Hrtc.
  { eapply rtc_l; [|eapply rtc_l; [|apply rtc_refl]].
    - eapply ordinary_created; [|exact E1]. vm_compute. eauto.
    - eapply ordinary_created; [exact Hm|exact E2]. }
  exists c. split; [exact Hrtc|].
  destruct (block_conserves (EnvC := ex_collator_env) ex_block (conj ex_prices_ok ex_prices_ok) ex_versioned ex_loaded 200 c Hrtc) as (_ & _ & Hflow).
  specialize (Hflow None). change (global_version (action_phase_cfg ex_block)) with 13 in Hflow.
  unfold ex_report in Hr. apply pair_equal_spec in Hr as [[[_ Hf]%pair_equal_spec Himp]%pair_equal_spec _]. lia.
Defined.
